(* ===== verification/_CoqProject ===== *)
-Q . S2P
Prelude.v
Protocol.v
Limits.v
Writer.v
Reader.v
ReaderSafety.v
Wire.v
TimeZone.v
Calendar.v
Datetime.v
Number.v
NumberWire.v
NumberText.v
Vector.v
Lifecycle.v
PoolEngine.v
PoolSafety.v
PoolUse.v
PoolClose.v
Executemany.v
DriverError.v
Recovery.v
Sql.v
SqlScan.v
Retry.v
ShapeCache.v
Binds.v
SqlKind.v
StatementCache.v
CursorSafety.v
Oson.v
OsonTree.v
OsonImage.v
OsonSafety.v
Utf.v
ServerError.v
Fetch.v
FetchBorrowed.v
FetchSafety.v
FetchEquiv.v
LobText.v
LobStream.v
TlsNames.v
ObjectImage.v
ObjectRoundtrip.v
Layout.v
Execute.v
BindWire.v
ExecuteWire.v
LobMessages.v
LobWire.v
LobSession.v
DirectPath.v
DirectPathWire.v
DirectLoad.v
