(* ===== verification/Prelude.v ===== *)
(** * A thin Oracle driver in Rust, verified

    The program is a pure-Rust client for Oracle databases that speaks the TNS
    and TTC wire protocols itself ("thin" mode).  It has two layers.  The crate
    [oracledb-protocol] is sans-I/O: it turns values into bytes and untrusted
    bytes into values, and knows nothing of sockets.  The crate [oracledb] is the
    driver on top of it: connections, statements, rows, and a connection pool
    shared by many tasks.  The places where a mistake costs most are the
    decoders, which must survive any bytes a server sends and lose no digit of
    a value; the pool, whose state is shared between acquirers and a background
    task; and the bookkeeping of a connection, which decides what may be sent on
    a wire that was interrupted, which server cursor may be executed again and
    which statement may be repeated.  This library models them.

    ** How code is modelled

    A Rust function is a Rocq function.  [Prelude] has the outcome type
    [Result]: [Ok], [Err], [Panic] and, for loops written with fuel, [Diverge];
    a theorem that a function "returns" rules out the last two.  A method on
    [&mut self] is a computation in the monad [ST], in which the state reached
    so far survives an error.  A machine integer is a [Z] in its range; a cast
    wraps ([as_u], [as_i]), [try_from] and the checked operations test
    ([try_range]), plain arithmetic panics out of range ([arith]), as a build
    with overflow checks does, so that a theorem without [Panic] also speaks
    about release builds.  Bytes are [Z] in [0..255], buffers lists of them.
    Counters of type [u64] that only ever count up by one (slot, waiter, request
    and connection identities) are unbounded.  [thin] is the hint and rewrite
    database of the shared lemmas, [st_run] and [arith_step] run monadic code.

    ** Files, and the code under src/crates/ they model

    - [Prelude]: outcomes, the monads, machine integers, bytes and their
      big-endian forms, slices, chunks, sums and occurrence counts over lists.
    - [Protocol]: [oracledb-protocol/src/lib.rs] ([ProtocolError],
      [ClientIdentity]), [capabilities.rs], [thin/version_gates.rs].
    - [Limits]: [wire.rs], [ProtocolLimits] with its checks and the trait
      [BoundedReader], here a class, through which every allocation driven by a
      count on the wire goes; [Reader] gives its instance.
    - [Writer], [Reader]: [wire.rs], every method of [TtcWriter] and
      [TtcReader]; [ReaderSafety] proves the reader total, [Wire] proves that it
      reads back what the writer wrote, and models [packet/mod.rs] (TNS packet
      framing) and [encode_packet].
    - [TimeZone]: [thin/timezone.rs], the table of 601 regions and its binary
      search; [Calendar], [Datetime]: [thin/codecs.rs], civil-day arithmetic,
      DATE, TIMESTAMP, TIMESTAMP WITH TIME ZONE, both INTERVAL types and the
      binary floats (a float is its bit pattern).
    - [Number]: [thin/codecs.rs] and [thin/number.rs], Oracle NUMBER: the text
      encoder, the heap and the stack digit walk, the canonical formatters, the
      inline representation and its parser; [NumberWire] and [NumberText] prove
      it.
    - [Vector]: [vector.rs], VECTOR images.
    - [Lifecycle]: [oracledb/src/pool.rs], the module [lifecycle], the pure
      specification of pool slots and waiters, as a step relation.
    - [PoolEngine]: [pool.rs], [pool/engine.rs], [pool/acquire.rs], the pool that
      runs: the state behind the lock, every function on it, and the reaper task
      as a program counter between its locked sections.  Callers, reaper,
      backend answers and clock interleave freely ([handle], [engine_step]).
      [PoolSafety], [PoolUse] and [PoolClose] prove it.
    - [DriverError]: the enum [Error] of [oracledb/src/lib.rs] and its
      classification, the code sets and dispositions of [recovery.rs].
    - [Recovery]: [recovery.rs] and the round trips of [lib.rs] around it: the
      phase that a connection and its cancel handles share, one atomic access at
      a time, the owner and the handles as interleaved threads, the transport's
      answers, whole or in part, and dropped futures as choices ([owner_step],
      [handle_step]).
    - [Sql]: [oracledb-protocol/src/sql.rs], every function; text is a list of
      characters, a slice of it at a position past its end panics ([str_from],
      [str_range]), Unicode's tables are an interface with laws on ASCII.  [SqlScan] proves it.  [SqlKind]:
      [SqlStatementCursor] of [lib.rs].
    - [Retry]: [retry.rs], the policy and the loop against an arbitrary
      operation, reconnect hook, cancellation and timer; the log of a run has its
      attempts, sleeps, polls, reconnects and cancellation checkpoints.
    - [ShapeCache]: [shape_cache.rs] and, from [lib.rs], the retained fetch
      metadata and the rule for a column whose type changed.
    - [Binds]: bind values, their type information and the metadata record
      ([thin/types.rs], [thin/bind.rs], [thin/execute.rs]), the shape that guards
      cursor reuse ([lib.rs]), the checks of bind rows and the resolution of named
      binds ([sql_convert.rs]).
    - [StatementCache]: [lib.rs], the statement cache, the cursors in use, the
      copies, the queue of cursors to close and what an execute does with them
      on each of its branches.  [CursorSafety] runs it against a server that
      opens cursors, closes them when told to, and closes any REF CURSOR that a
      PL/SQL block is given; a cursor the driver still holds after that is stale.
    - [Executemany]: [cursor_logic.rs], the batch planner.
    - [Oson]: [oson.rs], the binary JSON encoder and decoder: field-name
      segments, the tree with its offsets, scalars.  [OsonTree] and [OsonImage]
      prove the round trip, [OsonSafety] the decoder on hostile images.
    - [Utf]: the text functions of the standard library the message parsers use;
      [ServerError]: [thin/errors.rs], row ids and session state
      ([thin/fetch.rs], [thin/sessionless.rs]); [Fetch]: [thin/fetch.rs], column
      descriptions, values, rows, binds and the loop over the messages of a
      response; [FetchBorrowed]: its zero-copy twin, slots, arenas and row
      iteration.  [FetchSafety] and [FetchEquiv] prove them.
    - [LobText]: [thin/dbobject.rs], CLOB text at once and in pieces;
      [LobStream]: [oracledb/src/lob_stream.rs], the readers and the writer that
      move through a LOB; [LobMessages]: [thin/lob.rs], the LOB calls and the
      parsers of their answers, and the two readers of the packets of an answer
      ([lib.rs]): to the packet that is marked as the last, or, on connections
      without such marks, to the first bytes that parse.  [LobWire] proves the
      messages, [LobSession] runs the streams over packets.
    - [TlsNames]: [tls/dn.rs] and [tls/sni.rs], the checks of a server's names.
    - [ObjectImage]: [thin/dbobject.rs] and [decode_object] of [lib.rs], packed
      images of objects and collections; [ObjectRoundtrip] proves them, and has
      the packing of scalars by the Python shim ([oracledb-pyshim/src/dbobject.rs]).
    - [Layout]: runs of fixed fields, as the writer's calls, as bytes and as the
      reader that inverts them.  [Execute]: [thin/execute.rs], [write_bind_value] of
      [thin/bind.rs], the request builders of [thin/fetch.rs] and the locators of
      [vector.rs]; [BindWire] proves the bound rows, [ExecuteWire] the messages.
    - [DirectPath]: [dpl.rs], direct path loads: the prepare call and its answer,
      the pieces of the rows, the stream and the final operation; [DirectPathWire]
      proves them.  [DirectLoad]: [BatchLoadState] and [direct_path_load] of
      [lib.rs], a whole load against an arbitrary server.

    The interfaces between files are classes: [BoundedReader] (what the decoders
    ask of a reader), [Unicode] (what the scanners ask of the character tables),
    [LobServer] (what the LOB streams ask of a connection; [LobSession] gives the
    instance made of the real messages).
    The driver files share [DriverError]; [Retry], [Binds] and [SqlKind] ask [Sql]
    for the kind and the binds of a statement, [StatementCache] asks [Binds] for
    the shape of its rows.

    ** What is proved

    - The readers return on every byte string, move forward inside the buffer
      and respect the resource policy; no count on the wire drives an allocation
      beyond the bytes that back it.
    - Round trips: variable-length integers, short and chunked fields, packets,
      dates and timestamps, zoned timestamps, intervals, floats, vectors, and
      decimal text through the NUMBER wire form to the exact coefficient and
      scale; canonicity of what the date decoder accepts and of what the NUMBER
      encoder writes.
    - Equivalences: the zero-copy readers and [read_bytes]; the stack and the
      heap digit walk; the owned and the borrowed text of a number; the binary
      search and the table; day arithmetic and the Gregorian calendar; the type
      of a bind on the wire and in the shape that guards cursor reuse.
    - The lifecycle machine: capacity, exclusive slots, no lost wake-up, and a
      shutdown that ends.
    - The pool engine: connections are conserved and unique under every
      interleaving, grants are exclusive, handlers return, closing ends and
      leaves nothing held.
    - Server cursors: each is cached once, copied or queued for closing, and a
      request names no cursor that is closed or that its own message closes,
      stale cursors excepted.
    - Recovery: one thread writes at a time, only the owner drains; with no
      other thread cancelling, no write cut short and no read that stops inside
      its response, a request meets a clean wire whatever was dropped before it
      (pipelines and pushed notifications are left out); and the load and compare-exchange of
      [mark_break_sent] refine one atomic action.
    - Retry: every step of the loop follows a look at the caller's cancellation,
      which stops it at once; it gives up only for a reason and sleeps by the
      schedule; nothing that is not idempotent runs twice.
    - SQL: the scanner finds exactly the placeholders of a token sequence; every
      analysis returns on every text and slices it within its bounds; named
      binds are resolved exactly.
    - The shape cache refines the list of the shapes a statement had, and its
      generation is a version stamp, as long as the statement is not invalidated.
    - OSON: what the encoder accepts decodes to the same tree with its fields in
      the encoder's order; every image decodes or is refused within the depth
      limit.
    - Query responses: the owned decoder and the borrowed one return on every
      byte string, and every borrowed batch can be walked; on the responses the
      borrowed decoder supports, it yields the owned rows cell by cell under the
      default limits, numbers with the same text on canonical wire forms.
    - Requests: an execute request, read by a reader of the layout of its field
      version, says the statement, the options, the counts and every bound scalar of
      every row; so do fetches, define-fetches, close-cursors piggybacks and the
      LOB calls.
    - Direct path loads: a stream, read back by the piece rules, says exactly the
      rows; the batches cover every row once and in order; a load is finished only
      after every row was streamed and every stream accepted, and aborted when the
      server refuses one.
    - LOBs: streaming ends against every server; over the real messages a BLOB is
      read as its bytes and a CLOB as its text, however the server cuts its
      answers into messages, and into packets of which only the last stops the
      reader; the parsers of LOB answers and of plain functions are total.
    - Objects: packed images of scalars round trip and every image is decoded or
      refused.
    - Server names: the wildcard rule and the comparison of distinguished names
      are exactly what they say; the handshake name determines its parts.
    - Where the code breaks a promise: zone offsets below -19:59, forty-digit
      numbers at an odd point, the two decode paths of a number on wire forms
      the encoder never writes; four interleavings of the pool (more than
      [max] connections twice, a connection lost twice); cursors closed or
      re-executed under a live fetch, and lost on two error paths; a copied cursor
      that a block closed and whose number then closes another statement's; a future
      dropped during its send, a read that stops inside its response, a second BREAK for one cancel, a dead session
      revived; SQL searches that look into literals, a comment that hides a
      PL/SQL block; generations that repeat and keys that collide; OSON images
      whose value is exponentially larger than they are; a duplicate column that
      is an error when owned and NULL when borrowed; a define-fetch that an old
      server misreads; a LOB answer cut between two messages taken for a whole one;
      a null of a BOOLEAN column and a row marker without binds; a cancelled load
      that sends neither finish nor abort.

    ** Fuel and bounds

    The chunk loops of the reader take the buffer length as fuel: each chunk
    consumes a byte.  [scan_used], [scan_new] and [sweep_list] of the pool take
    the length of the list they remove from.  [ensure_loop] of the lifecycle
    takes the number of missing slots.  The loops over SQL text take its length:
    each turn consumes a character.  The loop over the messages of a response
    takes one turn more than its bytes, the OSON and object decoders one level more
    than the depth limit, the parser of distinguished names the length of the
    text.  A LOB is drained in at most one turn more than its units, each answer
    read in two turns per packet and two more.
    The splitting of a direct path value takes two turns per byte and two more, the
    load and its batch windows one turn per row and one more.
    [run_inner] takes two turns more than the retries allowed.  In each case a
    theorem shows that the fuel is never exhausted.  [mark_break_sent] as one
    function takes one turn, since without a competitor its exchange succeeds;
    where threads interleave it is two steps that repeat ([mark_impl]).
    [pool_close_terminates] bounds the reaper's last steps by six per connection
    left.

    ** Not modelled

    Sockets, TLS, wallets and crypto (libraries behind thin wrappers), the
    asynchronous runtime and its notifications (wake-ups carry no data; every step
    of the pool may happen at any time here), poisoned locks, the last handle's
    runtime hand-off, tracing, the Arrow and (but for packed scalars) Python
    bindings, the derive macros.
    Left for later, being further layouts and conversions on top of what is here:
    advanced queuing, subscriptions and sessionless transactions
    ([thin/aq.rs], [thin/subscr.rs], [thin/sessionless.rs]), connect and
    authentication messages, conversion between Rust types and query values
    ([sql_convert.rs]) and SODA. *)

From Stdlib Require Export ZArith Lia.
From stdpp Require Export base numbers list strings option.

#[global] Open Scope Z_scope.

Create HintDb thin.
Create Rewrite HintDb thin.

(** ** Outcomes of Rust code *)

(** What one run of a Rust function does: it returns [Ok] or [Err], it panics
    (an out-of-range index, an arithmetic overflow under overflow checks, an
    [expect] on [None]), or, for a loop modelled with fuel, it is still running
    when the fuel is gone.  Theorems about a function rule out the last two. *)
Inductive Result (E A : Type) : Type :=
| Ok (a : A)
| Err (e : E)
| Panic
| Diverge.
Arguments Ok {E A} a.
Arguments Err {E A} e.
Arguments Panic {E A}.
Arguments Diverge {E A}.

#[global] Instance result_ret {E} : MRet (Result E) := λ A a, Ok a.
#[global] Instance result_bind {E} : MBind (Result E) := λ A B f m,
  match m with
  | Ok a => f a
  | Err e => Err e
  | Panic => Panic
  | Diverge => Diverge
  end.
#[global] Instance result_fmap {E} : FMap (Result E) := λ A B f m,
  match m with
  | Ok a => Ok (f a)
  | Err e => Err e
  | Panic => Panic
  | Diverge => Diverge
  end.

(** The code returned, normally or with an error value. *)
Definition returns {E A} (r : Result E A) : Prop :=
  match r with Ok _ | Err _ => True | Panic | Diverge => False end.

Definition is_ok {E A} (r : Result E A) : bool :=
  match r with Ok _ => true | _ => false end.

(** [opt.ok_or(e)] *)
Definition ok_or {E A} (o : option A) (e : E) : Result E A :=
  match o with Some a => Ok a | None => Err e end.

(** [opt.expect(..)] and every other place where [None] is a panic. *)
Definition or_panic {E A} (o : option A) : Result E A :=
  match o with Some a => Ok a | None => Panic end.

(** A guard with an early error return. *)
Definition ensure {E} (b : bool) (e : E) : Result E () :=
  if b then Ok () else Err e.

(** ** State and errors: [&mut self] methods that return a [Result].
    The state reached so far survives an error, as it does in Rust. *)
Definition ST (E S A : Type) : Type := S → Result E A * S.

#[global] Instance st_ret {E S} : MRet (ST E S) := λ A a s, (Ok a, s).
#[global] Instance st_bind {E S} : MBind (ST E S) := λ A B f m s,
  match m s with
  | (Ok a, s') => f a s'
  | (Err e, s') => (Err e, s')
  | (Panic, s') => (Panic, s')
  | (Diverge, s') => (Diverge, s')
  end.

Definition lift {E S A} (r : Result E A) : ST E S A := λ s, (r, s).
Definition throw {E S A} (e : E) : ST E S A := λ s, (Err e, s).
Definition gets {E S A} (f : S → A) : ST E S A := λ s, (Ok (f s), s).
Definition modify {E S} (f : S → S) : ST E S () := λ s, (Ok (), f s).

(** Equations that run a monadic program one step, and the tactic that uses
    them. *)
Section MonadEquations.
Context {E S A B : Type}.
Lemma st_bindE (m : ST E S A) (f : A → ST E S B) s :
  (m ≫= f) s = match m s with
               | (Ok a, s') => f a s'
               | (Err e, s') => (Err e, s')
               | (Panic, s') => (Panic, s')
               | (Diverge, s') => (Diverge, s')
               end.
Proof. done. Qed.
Lemma st_retE (a : A) (s : S) : (mret a : ST E S A) s = (Ok a, s).
Proof. done. Qed.
Lemma liftE (r : Result E A) (s : S) : lift r s = (r, s).
Proof. done. Qed.
Lemma throwE (e : E) (s : S) : (throw e : ST E S A) s = (Err e, s).
Proof. done. Qed.
Lemma getsE (f : S → A) (s : S) : (gets f : ST E S A) s = (Ok (f s), s).
Proof. done. Qed.
Lemma modifyE (f : S → S) (s : S) : (modify f : ST E S ()) s = (Ok (), f s).
Proof. done. Qed.
Lemma res_bindE (m : Result E A) (f : A → Result E B) :
  m ≫= f = match m with
           | Ok a => f a
           | Err e => Err e
           | Panic => Panic
           | Diverge => Diverge
           end.
Proof. done. Qed.
Lemma ok_or_some (a : A) (e : E) : ok_or (Some a) e = Ok a.
Proof. done. Qed.
Lemma ok_or_none (e : E) : ok_or (@None A) e = Err e.
Proof. done. Qed.
End MonadEquations.

Ltac st_run :=
  repeat (rewrite ?st_bindE, ?liftE, ?modifyE, ?getsE, ?throwE, ?st_retE, ?res_bindE,
            ?ok_or_some, ?ok_or_none; cbn beta iota).
Ltac st_run_in H :=
  repeat (rewrite ?st_bindE, ?liftE, ?modifyE, ?getsE, ?throwE, ?st_retE, ?res_bindE,
            ?ok_or_some, ?ok_or_none in H; cbn beta iota in H).

Lemma bind_ok {E A B} (m : Result E A) (f : A → Result E B) (b : B) :
  m ≫= f = Ok b → ∃ a, m = Ok a ∧ f a = Ok b.
Proof. destruct m; cbn; intros; try discriminate; eauto. Qed.

Lemma st_bind_ok {E S A B} (m : ST E S A) (f : A → ST E S B) (s s' : S) (b : B) :
  (m ≫= f) s = (Ok b, s') → ∃ a s1, m s = (Ok a, s1) ∧ f a s1 = (Ok b, s').
Proof.
  unfold mbind, st_bind. destruct (m s) as [[a|e| |] s1]; intros; try discriminate; eauto.
Qed.

Lemma bind_returns {E A B} (m : Result E A) (f : A → Result E B) :
  returns m → (∀ a, m = Ok a → returns (f a)) → returns (m ≫= f).
Proof. destruct m; cbn; auto. Qed.

(** [post P r]: the code returns, and what it returns normally satisfies [P]. *)
Definition post {E A} (P : A → Prop) (r : Result E A) : Prop :=
  match r with Ok a => P a | Err _ => True | Panic | Diverge => False end.

Lemma post_bind {E A B} (Q : A → Prop) (P : B → Prop) (m : Result E A) (f : A → Result E B) :
  post Q m → (∀ a, Q a → post P (f a)) → post P (m ≫= f).
Proof. destruct m; cbn; auto. Qed.

Lemma post_mono {E A} (Q P : A → Prop) (r : Result E A) :
  (∀ a, Q a → P a) → post Q r → post P r.
Proof. destruct r; cbn; auto. Qed.

Lemma post_ok_or {E A} (P : A → Prop) (o : option A) (e : E) :
  (∀ a, o = Some a → P a) → post P (ok_or o e).
Proof. destruct o; cbn; auto. Qed.

Lemma post_if {E A} (P : A → Prop) (b : bool) (r r' : Result E A) :
  (b = true → post P r) → (b = false → post P r') → post P (if b then r else r').
Proof. destruct b; auto. Qed.

(** Two runs that end the same way: with the same value, or both with an error. *)
Definition same_outcome {E A} (x y : Result E A) : Prop :=
  match x, y with
  | Ok a, Ok b => a = b
  | Err _, Err _ | Panic, Panic | Diverge, Diverge => True
  | _, _ => False
  end.

(** ** Machine integers

    A value of a [w]-bit type is a [Z] in its range.  Casts wrap, [try_from]
    checks, and plain arithmetic panics outside the range (Rust's overflow
    checks), so a theorem that rules [Panic] out also shows that the unchecked
    release build computes the same value. *)
Definition U8_MAX : Z := 255.
Definition U16_MAX : Z := 65535.
Definition U32_MAX : Z := 4294967295.
Definition U64_MAX : Z := 18446744073709551615.
Definition USIZE_MAX : Z := U64_MAX.
Definition I16_MIN : Z := -32768.
Definition I16_MAX : Z := 32767.
Definition I32_MIN : Z := -2147483648.
Definition I32_MAX : Z := 2147483647.
Definition I64_MIN : Z := -9223372036854775808.
Definition I64_MAX : Z := 9223372036854775807.
Definition I128_MIN : Z := -170141183460469231731687303715884105728.
Definition I128_MAX : Z := 170141183460469231731687303715884105727.

Definition between (lo hi z : Z) : bool := (lo <=? z) && (z <=? hi).

(** [T::try_from(z)] for the type with range [lo..=hi], and the checked
    operations, which all are this test on the exact result. *)
Definition try_range (lo hi z : Z) : option Z :=
  if between lo hi z then Some z else None.

(** [a + b], [a * b], ... in a build with overflow checks. *)
Definition arith {E} (lo hi z : Z) : Result E Z :=
  if between lo hi z then Ok z else Panic.

(** [z as uN] and [z as iN]. *)
Definition as_u (w z : Z) : Z := z mod 2 ^ w.
Definition as_i (w z : Z) : Z := (z + 2 ^ (w - 1)) mod 2 ^ w - 2 ^ (w - 1).

(** Saturating subtraction on an unsigned type. *)
Definition sat_sub (a b : Z) : Z := Z.max 0 (a - b).

(** [!b] on a byte. *)
Definition not_u8 (b : Z) : Z := 255 - b.

(** Rust's [/] and [%] truncate towards zero. *)
Definition div_t (a b : Z) : Z := Z.quot a b.
Definition rem_t (a b : Z) : Z := Z.rem a b.

Lemma between_true lo hi z : between lo hi z = true ↔ lo <= z <= hi.
Proof. unfold between. lia. Qed.

Lemma between_false lo hi z : between lo hi z = false ↔ z < lo ∨ hi < z.
Proof. unfold between. lia. Qed.

Lemma try_range_in lo hi z : lo <= z <= hi → try_range lo hi z = Some z.
Proof. intros H. unfold try_range. by rewrite (proj2 (between_true _ _ _) H). Qed.

Lemma try_range_some lo hi z z' : try_range lo hi z = Some z' → z' = z ∧ lo <= z <= hi.
Proof.
  unfold try_range. destruct (between lo hi z) eqn:H; [|discriminate].
  apply between_true in H. by intros [= ->].
Qed.

Lemma try_range_none lo hi z : try_range lo hi z = None → z < lo ∨ hi < z.
Proof.
  unfold try_range. destruct (between lo hi z) eqn:H; [discriminate|].
  apply between_false in H. done.
Qed.

Lemma arith_in {E} lo hi z : lo <= z <= hi → @arith E lo hi z = Ok z.
Proof. intros H. unfold arith. by rewrite (proj2 (between_true _ _ _) H). Qed.

Lemma as_u_in w z : 0 <= z < 2 ^ w → as_u w z = z.
Proof. intros H. unfold as_u. by apply Z.mod_small. Qed.

Lemma as_u_range w z : 0 <= w → 0 <= as_u w z < 2 ^ w.
Proof. intros. unfold as_u. apply Z.mod_pos_bound. lia. Qed.

Lemma as_i_in w z : 0 < w → - 2 ^ (w - 1) <= z < 2 ^ (w - 1) → as_i w z = z.
Proof.
  intros Hw H. unfold as_i.
  replace (2 ^ w) with (2 * 2 ^ (w - 1)) by (rewrite <- Z.pow_succ_r by lia; f_equal; lia).
  rewrite Z.mod_small; lia.
Qed.

Lemma as_i_range w z : 0 < w → - 2 ^ (w - 1) <= as_i w z < 2 ^ (w - 1).
Proof.
  intros. unfold as_i. pose proof (Z.mod_pos_bound (z + 2 ^ (w - 1)) (2 ^ w)).
  replace (2 ^ w) with (2 * 2 ^ (w - 1)) in *
    by (rewrite <- Z.pow_succ_r by lia; f_equal; lia). lia.
Qed.

(** Run the overflow check at the head of a computation. *)
Ltac arith_step :=
  st_run;
  match goal with
  | |- context [match @arith ?E ?lo ?hi ?z with _ => _ end] =>
      rewrite (@arith_in E lo hi z) by lia
  | |- @arith ?E ?lo ?hi ?z = _ => rewrite (@arith_in E lo hi z) by lia
  end; st_run.

(** ** Bytes

    A byte is a [Z] in [0..255]; a buffer is a list of them. *)
Abbreviation bytes := (list Z).

Definition is_u8 (b : Z) : Prop := 0 <= b < 256.
Definition bytes_ok (l : bytes) : Prop := Forall is_u8 l.

#[global] Instance is_u8_dec b : Decision (is_u8 b).
Proof. unfold is_u8. apply _. Defined.
#[global] Instance bytes_ok_dec l : Decision (bytes_ok l).
Proof. unfold bytes_ok. apply _. Defined.

Definition Zlen {A} (l : list A) : Z := Z.of_nat (length l).

Lemma Zlen_nonneg {A} (l : list A) : 0 <= Zlen l.
Proof. unfold Zlen. lia. Qed.
Lemma Zlen_nil {A} : Zlen (@nil A) = 0.
Proof. done. Qed.
Lemma Zlen_cons {A} (x : A) l : Zlen (x :: l) = Zlen l + 1.
Proof. unfold Zlen. cbn [length]. lia. Qed.
Lemma Zlen_app {A} (l k : list A) : Zlen (l ++ k) = Zlen l + Zlen k.
Proof. unfold Zlen. rewrite length_app. lia. Qed.
#[export] Hint Rewrite @Zlen_nil @Zlen_cons @Zlen_app : thin.

(** A check of every integer below a bound: small facts by evaluation. *)
Fixpoint all_from (n : nat) (z : Z) (p : Z → bool) : bool :=
  match n with
  | O => true
  | S n => if p z then all_from n (z + 1) p else false
  end.
Definition all_below (n : Z) (p : Z → bool) : bool := all_from (Z.to_nat n) 0 p.

Lemma all_from_spec n p : ∀ z0 z,
  all_from n z0 p = true → z0 <= z < z0 + Z.of_nat n → p z = true.
Proof.
  induction n as [|n IH]; intros z0 z; [lia|]. cbn [all_from].
  destruct (p z0) eqn:Hp; [|done]. intros Hn Hz.
  destruct (decide (z = z0)) as [->|]; [done|]. apply (IH (z0 + 1)); [done|lia].
Qed.

Lemma all_below_spec n p z : all_below n p = true → 0 <= z < n → p z = true.
Proof. intros H Hz. apply (all_from_spec _ _ _ z H). lia. Qed.

Lemma all_bytes (p : Z → bool) b : all_below 256 p = true → is_u8 b → p b = true.
Proof. intros H Hb. by apply (all_below_spec 256). Qed.

(** Bit 7 of a byte. *)
Lemma sign_bit_check :
  all_below 256 (λ b,
    if Z.land b 128 =? 0
    then (Z.lor b 128 =? b + 128) && (b <? 128) && negb (Z.land (b + 128) 128 =? 0)
         && (Z.land (b + 128) 127 =? b)
    else (128 <=? b) && (Z.land (not_u8 b) 128 =? 0) && (Z.land b 127 =? b - 128)) = true.
Proof. by vm_compute. Qed.

Lemma sign_bit b :
  is_u8 b →
  (Z.land b 128 =? 0) = (b <? 128) ∧
  (b < 128 → Z.lor b 128 = b + 128 ∧ Z.land (b + 128) 127 = b) ∧
  (128 <= b → Z.land b 127 = b - 128).
Proof.
  intros Hb. pose proof (all_bytes _ b sign_bit_check Hb) as H. cbn beta in H.
  destruct (Z.land b 128 =? 0); rewrite !andb_true_iff in H; destruct H; lia.
Qed.

(** [vN::to_le_bytes], [vN::to_be_bytes] and their inverses, [n] bytes wide. *)
Fixpoint to_le_bytes (n : nat) (v : Z) : bytes :=
  match n with
  | O => []
  | S n => v mod 256 :: to_le_bytes n (v / 256)
  end.
Definition to_be_bytes (n : nat) (v : Z) : bytes := rev (to_le_bytes n v).

Fixpoint from_le_bytes (l : bytes) : Z :=
  match l with
  | [] => 0
  | b :: l => b + 256 * from_le_bytes l
  end.
Definition from_be_bytes (l : bytes) : Z := from_le_bytes (rev l).

Lemma length_to_le_bytes n v : length (to_le_bytes n v) = n.
Proof. revert v. induction n; intros; cbn; auto. Qed.

Lemma length_to_be_bytes n v : length (to_be_bytes n v) = n.
Proof. unfold to_be_bytes. by rewrite length_rev, length_to_le_bytes. Qed.

Lemma Zlen_to_be_bytes n v : Zlen (to_be_bytes n v) = Z.of_nat n.
Proof. unfold Zlen. by rewrite length_to_be_bytes. Qed.
#[export] Hint Rewrite @Zlen_to_be_bytes : thin.

Lemma to_le_bytes_ok n v : bytes_ok (to_le_bytes n v).
Proof.
  revert v. induction n; intros; constructor; [|apply IHn].
  unfold is_u8. apply Z.mod_pos_bound. lia.
Qed.

Lemma to_be_bytes_ok n v : bytes_ok (to_be_bytes n v).
Proof. apply Forall_rev, to_le_bytes_ok. Qed.

Lemma from_to_le_bytes n v :
  0 <= v < 256 ^ Z.of_nat n → from_le_bytes (to_le_bytes n v) = v.
Proof.
  revert v. induction n; intros v Hv; cbn [to_le_bytes from_le_bytes].
  - cbn in Hv. lia.
  - rewrite IHn; [pose proof (Z.div_mod v 256); lia|].
    rewrite Nat2Z.inj_succ, Z.pow_succ_r in Hv by lia.
    split; [apply Z.div_pos; lia|]. apply Z.div_lt_upper_bound; lia.
Qed.

Lemma from_to_be_bytes n v :
  0 <= v < 256 ^ Z.of_nat n → from_be_bytes (to_be_bytes n v) = v.
Proof.
  intros. unfold from_be_bytes, to_be_bytes. rewrite rev_involutive.
  by apply from_to_le_bytes.
Qed.

Lemma from_le_bytes_range l :
  bytes_ok l → 0 <= from_le_bytes l < 256 ^ Z.of_nat (length l).
Proof.
  induction 1 as [|b l Hb Hl IH]; cbn [from_le_bytes length]; [cbn; lia|].
  unfold is_u8 in Hb. rewrite Nat2Z.inj_succ, Z.pow_succ_r by lia. lia.
Qed.

Lemma bytes_ok_rev l : bytes_ok l → bytes_ok (rev l).
Proof. apply Forall_rev. Qed.

Lemma from_be_bytes_range l :
  bytes_ok l → 0 <= from_be_bytes l < 256 ^ Z.of_nat (length l).
Proof.
  intros H. unfold from_be_bytes. rewrite <- (length_rev l).
  by apply from_le_bytes_range, bytes_ok_rev.
Qed.

Lemma to_from_le_bytes l : bytes_ok l → to_le_bytes (length l) (from_le_bytes l) = l.
Proof.
  induction 1 as [|b l Hb Hl IH]; cbn [from_le_bytes length to_le_bytes]; [done|].
  unfold is_u8 in Hb. f_equal.
  - rewrite Z.mul_comm, Z.mod_add by lia. by apply Z.mod_small.
  - rewrite Z.mul_comm, Z.div_add, Z.div_small by lia. done.
Qed.

Lemma to_from_be_bytes l : bytes_ok l → to_be_bytes (length l) (from_be_bytes l) = l.
Proof.
  intros H. unfold to_be_bytes, from_be_bytes.
  rewrite <- (length_rev l), to_from_le_bytes by by apply bytes_ok_rev.
  apply rev_involutive.
Qed.

Lemma from_le_bytes_app l k :
  from_le_bytes (l ++ k) = from_le_bytes l + 256 ^ Z.of_nat (length l) * from_le_bytes k.
Proof.
  induction l as [|b l IH]; cbn [from_le_bytes app length]; [cbn; lia|].
  rewrite IH, Nat2Z.inj_succ, Z.pow_succ_r by lia. lia.
Qed.

Lemma from_be_bytes_snoc l b : from_be_bytes (l ++ [b]) = from_be_bytes l * 256 + b.
Proof. unfold from_be_bytes. rewrite rev_app_distr. cbn [rev app from_le_bytes]. lia. Qed.

(** The big-endian accumulation loop [value = (value << 8) | byte] of the
    decoders, on a [w]-bit unsigned accumulator (shifted-out bits are lost). *)
Definition shl8_or (w : Z) (value byte : Z) : Z := Z.lor (as_u w (Z.shiftl value 8)) byte.
Definition be_accumulate (w : Z) (l : bytes) : Z := foldl (shl8_or w) 0 l.

Lemma land_shifted_byte v b : 0 <= v → is_u8 b → Z.land (Z.shiftl v 8) b = 0.
Proof.
  intros Hv [Hb1 Hb2]. apply Z.bits_inj'. intros n Hn. rewrite Z.land_spec, Z.bits_0.
  destruct (Z.ltb_spec n 8).
  - by rewrite Z.shiftl_spec_low by lia.
  - assert (Z.testbit b n = false) as ->; [|apply andb_false_r].
    rewrite <- (Z.mod_small b (2 ^ 8)) by lia. apply Z.mod_pow2_bits_high. lia.
Qed.

Lemma lor_byte v b : 0 <= v → is_u8 b → Z.lor (v * 256) b = v * 256 + b.
Proof.
  intros Hv Hb. change 256 with (2 ^ 8). rewrite <- Z.shiftl_mul_pow2 by lia.
  rewrite <- Z.add_lor_land, land_shifted_byte by done. lia.
Qed.

Lemma shl8_or_in w v b :
  0 <= v → is_u8 b → v * 256 + b < 2 ^ w → shl8_or w v b = v * 256 + b.
Proof.
  intros Hv Hb Hw. unfold is_u8 in Hb. unfold shl8_or.
  rewrite Z.shiftl_mul_pow2 by lia. change (2 ^ 8) with 256.
  rewrite as_u_in by lia. by apply lor_byte.
Qed.

Lemma be_accumulate_spec w l :
  bytes_ok l → 256 ^ Zlen l <= 2 ^ w → be_accumulate w l = from_be_bytes l.
Proof.
  unfold be_accumulate, Zlen. induction l as [|b l IH] using rev_ind; [done|].
  intros Hok Hw. apply Forall_app in Hok as [Hl Hb]. rewrite Forall_singleton in Hb.
  rewrite foldl_app. cbn [foldl]. rewrite length_app in Hw. cbn [length] in Hw.
  pose proof (from_be_bytes_range l Hl).
  replace (Z.of_nat (length l + 1)) with (Z.succ (Z.of_nat (length l))) in Hw by lia.
  rewrite Z.pow_succ_r in Hw by lia.
  rewrite IH; [|done|lia]. rewrite from_be_bytes_snoc.
  apply shl8_or_in; [lia|done|]. unfold is_u8 in Hb. lia.
Qed.

(** ** Slices *)

(** [slice.get(lo..hi)] *)
Definition slice_get (l : bytes) (lo hi : Z) : option bytes :=
  if (0 <=? lo) && (lo <=? hi) && (hi <=? Zlen l)
  then Some (take (Z.to_nat (hi - lo)) (drop (Z.to_nat lo) l))
  else None.

(** [slice.get(i)] *)
Definition slice_nth (l : bytes) (i : Z) : option Z :=
  if (0 <=? i) && (i <? Zlen l) then l !! Z.to_nat i else None.

(** [slice[i]] *)
Definition index {E} (l : bytes) (i : Z) : Result E Z := or_panic (slice_nth l i).

Lemma slice_get_app pre mid post :
  slice_get (pre ++ mid ++ post) (Zlen pre) (Zlen pre + Zlen mid) = Some mid.
Proof.
  unfold slice_get. pose proof (Zlen_nonneg pre). pose proof (Zlen_nonneg mid).
  pose proof (Zlen_nonneg post).
  rewrite !Zlen_app, (proj2 (Z.leb_le 0 _)), (proj2 (Z.leb_le (Zlen pre) _)),
    (proj2 (Z.leb_le _ (Zlen pre + (Zlen mid + Zlen post)))) by lia. cbn.
  replace (Z.to_nat (Zlen pre)) with (length pre) by (unfold Zlen; lia).
  rewrite drop_app_length.
  replace (Z.to_nat (Zlen pre + Zlen mid - Zlen pre)) with (length mid) by (unfold Zlen; lia).
  by rewrite take_app_length.
Qed.

Lemma slice_get_some l lo hi s :
  slice_get l lo hi = Some s →
  0 <= lo <= hi ∧ hi <= Zlen l ∧
  s = take (Z.to_nat (hi - lo)) (drop (Z.to_nat lo) l) ∧ Zlen s = hi - lo.
Proof.
  unfold slice_get. destruct (_ && _) eqn:H; [|discriminate]. intros [= <-].
  assert (0 <= lo ∧ lo <= hi ∧ hi <= Zlen l) as (?&?&?) by lia.
  repeat split; try lia. unfold Zlen in *.
  rewrite length_take, length_drop. lia.
Qed.

Lemma slice_get_none l lo hi :
  slice_get l lo hi = None → 0 <= lo <= hi → Zlen l < hi.
Proof. unfold slice_get. destruct (_ && _) eqn:H; [discriminate|]. lia. Qed.

Lemma slice_get_ok l lo hi s : bytes_ok l → slice_get l lo hi = Some s → bytes_ok s.
Proof.
  intros Hl (?&?&->&?)%slice_get_some. by apply Forall_take, Forall_drop.
Qed.

Lemma slice_nth_app pre b post : slice_nth (pre ++ b :: post) (Zlen pre) = Some b.
Proof.
  unfold slice_nth. pose proof (Zlen_nonneg pre). pose proof (Zlen_nonneg post).
  autorewrite with thin.
  rewrite (proj2 (Z.leb_le 0 _)), (proj2 (Z.ltb_lt _ _)) by lia. cbn.
  replace (Z.to_nat (Zlen pre)) with (length pre) by (unfold Zlen; lia).
  by rewrite list_lookup_middle.
Qed.

Lemma slice_nth_some l i b : slice_nth l i = Some b → 0 <= i < Zlen l ∧ l !! Z.to_nat i = Some b.
Proof. unfold slice_nth. destruct (_ && _) eqn:H; [|discriminate]. intros. split; [lia|done]. Qed.

Lemma slice_nth_none l i : slice_nth l i = None → 0 <= i → Zlen l <= i.
Proof.
  unfold slice_nth. destruct (_ && _) eqn:H; [|lia].
  intros Hl%lookup_ge_None. unfold Zlen. lia.
Qed.

Lemma slice_nth_ok l i b : bytes_ok l → slice_nth l i = Some b → is_u8 b.
Proof. intros Hl [_ Hb]%slice_nth_some. by apply (Forall_lookup_1 _ _ _ _ Hl Hb). Qed.

(** [slice.chunks(n)]: pieces of [n] elements, the last one possibly shorter.
    A non-empty piece is taken at each step, so [length l] bounds the steps. *)
Fixpoint chunks_fuel {A} (fuel n : nat) (l : list A) : list (list A) :=
  match fuel, l with
  | S fuel, _ :: _ => take n l :: chunks_fuel fuel n (drop n l)
  | _, _ => []
  end.
Definition chunks {A} (n : nat) (l : list A) : list (list A) := chunks_fuel (length l) n l.

Lemma chunks_fuel_spec {A} fuel n (l : list A) :
  (0 < n)%nat → (length l <= fuel)%nat →
  concat (chunks_fuel fuel n l) = l ∧
  Forall (λ c, 0 < length c <= n)%nat (chunks_fuel fuel n l).
Proof.
  intros Hn. revert l. induction fuel as [|fuel IH]; intros [|x l] Hl; cbn [chunks_fuel];
    cbn [length] in Hl; try (split; [done|constructor]); [lia|].
  destruct (IH (drop n (x :: l))) as [Hc HF].
  { rewrite length_drop. cbn [length]. lia. }
  split; cbn [concat].
  - by rewrite Hc, take_drop.
  - constructor; [|done]. rewrite length_take. cbn [length]. lia.
Qed.

Lemma chunks_concat {A} n (l : list A) : (0 < n)%nat → concat (chunks n l) = l.
Proof. intros. by apply (chunks_fuel_spec (length l) n l). Qed.

Lemma chunks_bounds {A} n (l : list A) :
  (0 < n)%nat → Forall (λ c, 0 < length c <= n)%nat (chunks n l).
Proof. intros. by apply (chunks_fuel_spec (length l) n l). Qed.

Lemma chunks_fuel_count {A} fuel n : ∀ k (l : list A),
  (length l <= k * n)%nat → (length (chunks_fuel fuel n l) <= k)%nat.
Proof.
  induction fuel as [|fuel IH]; intros k [|x l] Hl; cbn [chunks_fuel length]; try lia.
  destruct k as [|k]; [cbn in Hl; lia|]. apply le_n_S, IH. rewrite length_drop. lia.
Qed.

(** A list of at most [k * n] elements has at most [k] pieces. *)
Lemma chunks_count {A} n k (l : list A) :
  0 <= k → Zlen l <= k * Z.of_nat n → Zlen (chunks n l) <= k.
Proof.
  intros Hk Hl. unfold Zlen in *. unfold chunks.
  pose proof (chunks_fuel_count (length l) n (Z.to_nat k) l). nia.
Qed.

Lemma chunks_length_le {A} n (l : list A) : (0 < n)%nat → (length (chunks n l) <= length l)%nat.
Proof. intros. apply chunks_fuel_count. nia. Qed.

(** ** Sums over a list *)

Definition sum_by {A} (f : A → Z) (l : list A) : Z := foldr (λ x acc, f x + acc) 0 l.

Section SumBy.
Context {A : Type} (f : A → Z).
Lemma sum_by_nil : sum_by f [] = 0.
Proof. done. Qed.
Lemma sum_by_cons x l : sum_by f (x :: l) = f x + sum_by f l.
Proof. done. Qed.
Lemma sum_by_app l k : sum_by f (l ++ k) = sum_by f l + sum_by f k.
Proof. induction l as [|x l IH]; cbn; [done|]. unfold sum_by in *. cbn. lia. Qed.
Lemma sum_by_nonneg l : (∀ x, 0 <= f x) → 0 <= sum_by f l.
Proof. intros H. induction l as [|x l IH]; [done|]. rewrite sum_by_cons. specialize (H x). lia. Qed.
Lemma sum_by_delete l i x : l !! i = Some x → sum_by f (delete i l) = sum_by f l - f x.
Proof.
  intros H. rewrite <- (take_drop_middle l i x H) at 2.
  rewrite delete_take_drop, !sum_by_app, sum_by_cons. lia.
Qed.
Lemma sum_by_alter g l i x :
  l !! i = Some x → sum_by f (alter g i l) = sum_by f l - f x + f (g x).
Proof.
  revert i. induction l as [|y l IH]; intros [|i] H; simplify_eq/=.
  - unfold sum_by. cbn. lia.
  - specialize (IH i H). unfold sum_by in *. cbn. lia.
Qed.
Lemma sum_by_map {B} (g : B → A) l : sum_by f (map g l) = sum_by (λ x, f (g x)) l.
Proof. induction l as [|x l IH]; [done|]. cbn [map]. by rewrite !sum_by_cons, IH. Qed.
End SumBy.
#[export] Hint Rewrite @sum_by_nil @sum_by_cons @sum_by_app : thin.

Lemma sum_by_mono {A} (f g : A → Z) l : (∀ x, f x <= g x) → sum_by f l <= sum_by g l.
Proof.
  intros H. induction l as [|x l IH]; [done|]. rewrite !sum_by_cons. specialize (H x). lia.
Qed.

Lemma sum_by_ext {A} (f g : A → Z) l : (∀ x, f x = g x) → sum_by f l = sum_by g l.
Proof. intros H. induction l as [|x l IH]; [done|]. by rewrite !sum_by_cons, H, IH. Qed.

Lemma Zlen_sum {A} (l : list A) : Zlen l = sum_by (λ _, 1) l.
Proof. induction l as [|x l IH]; [done|]. rewrite sum_by_cons, Zlen_cons. lia. Qed.

(** How often an integer occurs in a list: equal counts are permutations, counts
    of at most one mean no duplicates. *)
Definition hit (i x : Z) : Z := if decide (x = i) then 1 else 0.
Definition occ (i : Z) (l : list Z) : Z := sum_by (hit i) l.

Lemma hit_range i x : 0 <= hit i x <= 1.
Proof. unfold hit. case_decide; lia. Qed.
Lemma hit_eq i : hit i i = 1.
Proof. unfold hit. by rewrite decide_True. Qed.
Lemma hit_ne i x : x ≠ i → hit i x = 0.
Proof. intros. unfold hit. by rewrite decide_False. Qed.

Lemma occ_nonneg i l : 0 <= occ i l.
Proof. apply sum_by_nonneg. intros. apply hit_range. Qed.

Lemma occ_elem i l : i ∈ l ↔ 0 < occ i l.
Proof.
  unfold occ. induction l as [|x l IH]; [split; [by intros ?%not_elem_of_nil|done]|].
  rewrite sum_by_cons, elem_of_cons, IH. fold (occ i l). pose proof (occ_nonneg i l).
  unfold hit. case_decide; intuition (congruence || lia).
Qed.

Lemma occ_NoDup l : NoDup l ↔ ∀ i, occ i l <= 1.
Proof.
  unfold occ. induction l as [|x l IH]; [split; [done|constructor]|].
  rewrite list.NoDup_cons, IH, occ_elem. unfold occ. split.
  - intros [Hx Hl] i. rewrite sum_by_cons. specialize (Hl i). unfold hit at 1.
    case_decide; [subst; lia|lia].
  - intros H. pose proof (H x) as Hx. rewrite sum_by_cons, hit_eq in Hx. split; [lia|].
    intros i. specialize (H i). rewrite sum_by_cons in H. pose proof (hit_range i x). lia.
Qed.

Lemma occ_Permutation l k : (∀ i, occ i l = occ i k) → l ≡ₚ k.
Proof.
  revert k. induction l as [|x l IH]; intros k H.
  - destruct k as [|y k]; [done|]. specialize (H y). unfold occ in H.
    rewrite sum_by_cons, hit_eq in H. pose proof (occ_nonneg y k). unfold occ in *. cbn in H. lia.
  - assert (x ∈ k) as Hx.
    { apply occ_elem. rewrite <- H. unfold occ. rewrite sum_by_cons, hit_eq.
      pose proof (occ_nonneg x l). unfold occ in *. lia. }
    apply list_elem_of_split in Hx as (k1 & k2 & ->).
    rewrite <- Permutation_middle. apply Permutation_cons; [done|]. apply IH. intros i.
    specialize (H i). unfold occ in *. rewrite sum_by_cons, !sum_by_app, sum_by_cons in *. lia.
Qed.
