(* ===== verification/Protocol.v ===== *)
(** * Protocol vocabulary

    The error type every decoder returns ([lib.rs], [ProtocolError]), version
    negotiation ([capabilities.rs]), the TTC field-version gates
    ([thin/version_gates.rs]) and the client identity sanitiser ([lib.rs]). *)

From S2P Require Import Prelude.

(** ** Errors *)

Record ServerErrorDetails := mkServerErrorDetails {
  sed_message : string;
  sed_code : Z;
  sed_cursor_id : Z;
  sed_pos : Z;
  sed_row_count : Z;
  sed_rowid : option string;
  sed_array_dml_row_counts : option (list Z)
}.

Inductive ProtocolError :=
| TruncatedHeader (got : Z)
| InvalidPacketLength (length minimum : Z)
| IncompletePacket (declared available : Z)
| PacketTooLarge (length : Z)
| UnsupportedVersion (version minimum : Z)
| InvalidClientIdentity (field reason : string)
| InvalidConnectDescriptor (msg : string)
| TtcDecode (msg : string)
| UnknownMessageType (message_type position : Z)
| ResourceLimitErr (limit : string) (observed maximum : Z)
| ServerError (msg : string)
| ServerErrorWithRowCount (message : string) (row_count : Z)
| ServerErrorInfo (details : ServerErrorDetails)
| UnsupportedFeature (msg : string)
| MissingAuthParameter (key : string)
| UnsupportedVerifier (verifier_type : Z)
| InvalidAesKey
| InvalidServerResponse
| ValueTooLarge (actual_size max_size : Z) (column_name : string) (row_num : Z)
| NullsNotAllowed (column_name : string) (row_num : Z)
| DirectPathLoadTooMuchData
| NotImplemented (msg : string)
| OsonNotEncoded (msg : string)
| OsonInvalid (msg : string)
| OsonTypeNotSupported (msg : string).

Abbreviation Res := (Result ProtocolError).

Record ResourceLimit := mkResourceLimit { rl_limit : string; rl_observed : Z; rl_maximum : Z }.

(** [ProtocolError::resource_limit] *)
Definition resource_limit (e : ProtocolError) : option ResourceLimit :=
  match e with
  | ResourceLimitErr limit observed maximum => Some (mkResourceLimit limit observed maximum)
  | _ => None
  end.

(** ** TNS protocol version negotiation *)

Definition TNS_VERSION_MIN : Z := 300.
Definition TNS_VERSION_MIN_ACCEPTED : Z := 315.
Definition TNS_VERSION_DESIRED : Z := 319.

(** [TnsVersion::negotiate] *)
Definition negotiate (server_version : Z) : Res Z :=
  if server_version <? TNS_VERSION_MIN_ACCEPTED
  then Err (UnsupportedVersion server_version TNS_VERSION_MIN_ACCEPTED)
  else Ok (Z.min server_version TNS_VERSION_DESIRED).

Lemma negotiate_spec v :
  (v < TNS_VERSION_MIN_ACCEPTED ∧ negotiate v = Err (UnsupportedVersion v TNS_VERSION_MIN_ACCEPTED)) ∨
  (∃ n, negotiate v = Ok n ∧ TNS_VERSION_MIN_ACCEPTED <= n <= TNS_VERSION_DESIRED ∧ n <= v).
Proof.
  unfold negotiate, TNS_VERSION_MIN_ACCEPTED, TNS_VERSION_DESIRED.
  destruct (Z.ltb_spec v 315); [by left|right; eexists; split; [done|lia]].
Qed.

(** ** TTC field-version gates *)

Definition TNS_CCAP_FIELD_VERSION_12_1 : Z := 7.
Definition TNS_CCAP_FIELD_VERSION_12_2 : Z := 8.
Definition TNS_CCAP_FIELD_VERSION_12_2_EXT1 : Z := 9.
Definition TNS_CCAP_FIELD_VERSION_19_1_EXT_1 : Z := 13.
Definition TNS_CCAP_FIELD_VERSION_20_1 : Z := 14.
Definition TNS_CCAP_FIELD_VERSION_21_1 : Z := 16.
Definition TNS_CCAP_FIELD_VERSION_23_1 : Z := 17.
Definition TNS_CCAP_FIELD_VERSION_23_1_EXT_1 : Z := 18.
Definition TNS_CCAP_FIELD_VERSION_23_1_EXT_3 : Z := 20.
Definition TNS_CCAP_FIELD_VERSION_23_4 : Z := 24.

Definition writes_pipeline_token (v : Z) : bool := TNS_CCAP_FIELD_VERSION_23_1_EXT_1 <=? v.
Definition carries_oaccolid (v : Z) : bool := TNS_CCAP_FIELD_VERSION_12_2 <=? v.
Definition writes_al8sqlsig (v : Z) : bool := TNS_CCAP_FIELD_VERSION_12_2 <=? v.
Definition writes_execute_chunk_ids (v : Z) : bool := TNS_CCAP_FIELD_VERSION_12_2_EXT1 <=? v.
Definition reads_error_sql_type_and_checksum (v : Z) : bool := TNS_CCAP_FIELD_VERSION_20_1 <=? v.
Definition writes_aq_json_payload (v : Z) : bool := TNS_CCAP_FIELD_VERSION_20_1 <=? v.
Definition carries_aq_shard_id (v : Z) : bool := TNS_CCAP_FIELD_VERSION_21_1 <=? v.
Definition reads_column_domain (v : Z) : bool := TNS_CCAP_FIELD_VERSION_23_1 <=? v.
Definition reads_column_annotations (v : Z) : bool := TNS_CCAP_FIELD_VERSION_23_1_EXT_3 <=? v.
Definition reads_column_vector_metadata (v : Z) : bool := TNS_CCAP_FIELD_VERSION_23_4 <=? v.
Definition writes_subscribe_client_id_block (v : Z) : bool := TNS_CCAP_FIELD_VERSION_12_1 <=? v.
Definition reads_subscribe_response_details (v : Z) : bool := TNS_CCAP_FIELD_VERSION_12_1 <=? v.

Definition TNS_MSG_TYPE_FUNCTION : Z := 3.
Definition TNS_MSG_TYPE_PIGGYBACK : Z := 17.

(** ** Client identity

    A Rust [String] is a sequence of [char]s; here a list of code points. *)
Abbreviation chars := (list Z).

(** [char::is_whitespace]: the Unicode White_Space property. *)
Definition is_whitespace (c : Z) : bool :=
  between 9 13 c || (c =? 32) || (c =? 133) || (c =? 160) || (c =? 5760) ||
  between 8192 8202 c || (c =? 8232) || (c =? 8233) || (c =? 8239) || (c =? 8287) ||
  (c =? 12288).

(** [char::is_control]: general category Cc. *)
Definition is_control (c : Z) : bool := between 0 31 c || between 127 159 c.

(** [char::len_utf8] *)
Definition len_utf8 (c : Z) : Z :=
  if c <? 128 then 1 else if c <? 2048 then 2 else if c <? 65536 then 3 else 4.

(** [str.len()]: the number of UTF-8 bytes. *)
Definition utf8_len (s : chars) : Z := foldr (λ c n, len_utf8 c + n) 0 s.

Fixpoint trim_start (s : chars) : chars :=
  match s with
  | c :: s' => if is_whitespace c then trim_start s' else s
  | [] => []
  end.
Definition trim (s : chars) : chars := reverse (trim_start (reverse (trim_start s))).

(** The copying loop of [sanitize_identity_field]; [out] is what was pushed. *)
Fixpoint sanitize_loop (field : string) (rest out : chars) : Res chars :=
  match rest with
  | [] => Ok out
  | ch :: rest =>
      if is_control ch
      then Err (InvalidClientIdentity field "control characters are not allowed")
      else if 30 <? utf8_len out + len_utf8 ch then Ok out
      else sanitize_loop field rest (out ++ [ch])
  end.

Definition sanitize_identity_field (field : string) (value : chars) : Res chars :=
  let trimmed := trim value in
  match trimmed with
  | [] => Err (InvalidClientIdentity field "value must not be empty")
  | _ => sanitize_loop field trimmed []
  end.

Record ClientIdentity := mkClientIdentity {
  ci_program : chars; ci_machine : chars; ci_osuser : chars;
  ci_terminal : chars; ci_driver_name : chars
}.

(** [ClientIdentity::new] *)
Definition ClientIdentity_new (program machine osuser terminal driver_name : chars)
  : Res ClientIdentity :=
  program ← sanitize_identity_field "program" program;
  machine ← sanitize_identity_field "machine" machine;
  osuser ← sanitize_identity_field "osuser" osuser;
  terminal ← sanitize_identity_field "terminal" terminal;
  driver_name ← sanitize_identity_field "driver_name" driver_name;
  Ok (mkClientIdentity program machine osuser terminal driver_name).

(** What a sanitised field promises to the CONNECT and AUTH messages. *)
Definition identity_field_ok (s : chars) : Prop :=
  s ≠ [] ∧ utf8_len s <= 30 ∧ Forall (λ c, is_control c = false) s.

Lemma len_utf8_range c : 1 <= len_utf8 c <= 4.
Proof. unfold len_utf8. repeat case_match; lia. Qed.

Lemma utf8_len_app s t : utf8_len (s ++ t) = utf8_len s + utf8_len t.
Proof. unfold utf8_len. induction s; cbn [app foldr]; lia. Qed.

Lemma sanitize_loop_spec field rest : ∀ out r,
  utf8_len out <= 30 → Forall (λ c, is_control c = false) out →
  sanitize_loop field rest out = Ok r →
  utf8_len r <= 30 ∧ Forall (λ c, is_control c = false) r ∧ ∃ n, r = out ++ take n rest.
Proof.
  induction rest as [|ch rest IH]; cbn [sanitize_loop]; intros out r Hlen Hctl H.
  - injection H as <-. repeat split; try done. exists 0%nat. by rewrite app_nil_r.
  - destruct (is_control ch) eqn:Hc; [discriminate|].
    destruct (Z.ltb_spec 30 (utf8_len out + len_utf8 ch)).
    + injection H as <-. repeat split; try done. exists 0%nat. by rewrite app_nil_r.
    + apply IH in H as (?&?&n&->).
      * repeat split; try done. exists (S n). cbn [take]. by rewrite <- app_assoc.
      * rewrite utf8_len_app. cbn. lia.
      * apply Forall_app; auto.
Qed.

Lemma sanitize_loop_nonempty field c rest r :
  sanitize_loop field (c :: rest) [] = Ok r → r ≠ [].
Proof.
  cbn [sanitize_loop]. destruct (is_control c) eqn:Hc; [discriminate|].
  pose proof (len_utf8_range c). destruct (Z.ltb_spec 30 (utf8_len [] + len_utf8 c)).
  { cbn in *. lia. }
  intros H1. apply sanitize_loop_spec in H1 as (_&_&n&->); [done| |by constructor].
  cbn in *. lia.
Qed.

Lemma sanitize_identity_field_spec field value r :
  sanitize_identity_field field value = Ok r →
  identity_field_ok r ∧ ∃ n, r = take n (trim value).
Proof.
  unfold sanitize_identity_field. destruct (trim value) as [|c t] eqn:Ht; [discriminate|].
  intros H. pose proof (sanitize_loop_nonempty _ _ _ _ H).
  apply sanitize_loop_spec in H as (?&?&n&->); [|cbn; lia|constructor].
  split; [by split|]. by exists n.
Qed.

Lemma sanitize_identity_field_returns field value : returns (sanitize_identity_field field value).
Proof.
  unfold sanitize_identity_field. destruct (trim value) as [|c t]; [done|].
  generalize (@nil Z) as out, (c :: t) as rest.
  intros out rest. revert out. induction rest as [|ch rest IH]; intros; cbn; [done|].
  repeat case_match; done.
Qed.

(** Every identity the constructor accepts has five non-empty, control-free
    fields of at most thirty UTF-8 bytes, each a prefix of the trimmed input. *)
Theorem client_identity_sanitized program machine osuser terminal driver_name id :
  ClientIdentity_new program machine osuser terminal driver_name = Ok id →
  Forall identity_field_ok
    [ci_program id; ci_machine id; ci_osuser id; ci_terminal id; ci_driver_name id] ∧
  ∃ a b c d e, id = mkClientIdentity (take a (trim program)) (take b (trim machine))
    (take c (trim osuser)) (take d (trim terminal)) (take e (trim driver_name)).
Proof.
  unfold ClientIdentity_new.
  intros (p&Hp&(m&Hm&(o&Ho&(t&Ht&(d&Hd&[= <-])%bind_ok)%bind_ok)%bind_ok)%bind_ok)%bind_ok.
  apply sanitize_identity_field_spec in Hp as [? [? ->]], Hm as [? [? ->]], Ho as [? [? ->]],
    Ht as [? [? ->]], Hd as [? [? ->]].
  split; [do 5 (constructor; [done|]); constructor|eauto 10].
Qed.

(** A padded program name, a machine name of thirty-two letters, and three
    one-letter fields. *)
Lemma client_identity_sanitized_witness :
  ∃ id, ClientIdentity_new [32; 97; 98; 32] (repeat 109 32) [117] [116] [100] = Ok id ∧
    ci_program id = [97; 98] ∧ ci_machine id = repeat 109 30 ∧
    Forall identity_field_ok
      [ci_program id; ci_machine id; ci_osuser id; ci_terminal id; ci_driver_name id].
Proof.
  eexists. split; [vm_compute; reflexivity|]. split; [reflexivity|]. split; [reflexivity|].
  eapply (client_identity_sanitized [32; 97; 98; 32] (repeat 109 32) [117] [116] [100]).
  vm_compute. reflexivity.
Defined.
