(* ===== verification/Limits.v ===== *)
(** * Resource limits ([wire.rs], [ProtocolLimits] and [BoundedReader])

    The resource policy shared by the decoders, its validation, and the trait
    through which every count-driven allocation goes. *)

From S2P Require Import Prelude.
From S2P Require Import Protocol.

Definition MIB : Z := 1024 * 1024.

Record ProtocolLimits := mkProtocolLimits {
  max_packet_bytes : Z;
  max_frame_bytes : Z;
  max_response_bytes : Z;
  max_columns : Z;
  max_binds : Z;
  max_batch_rows : Z;
  max_object_depth : Z;
  max_object_elements : Z;
  max_vector_dimensions : Z;
  max_lob_chunks : Z;
  max_length_prefixed_elements : Z
}.

(** [ProtocolLimits::DEFAULT] *)
Definition limits_DEFAULT : ProtocolLimits := {|
  max_packet_bytes := 16 * MIB;
  max_frame_bytes := 16 * MIB;
  max_response_bytes := 256 * MIB;
  max_columns := 4096;
  max_binds := 65535;
  max_batch_rows := 1000000;
  max_object_depth := 256;
  max_object_elements := 1000000;
  max_vector_dimensions := 1000000;
  max_lob_chunks := 1000000;
  max_length_prefixed_elements := 1000000
|}.

(** [ProtocolLimits::named_limits] *)
Definition named_limits (l : ProtocolLimits) : list (string * Z) := [
  ("packet_bytes"%string, max_packet_bytes l);
  ("frame_bytes"%string, max_frame_bytes l);
  ("response_bytes"%string, max_response_bytes l);
  ("columns"%string, max_columns l);
  ("binds"%string, max_binds l);
  ("batch_rows"%string, max_batch_rows l);
  ("object_depth"%string, max_object_depth l);
  ("object_elements"%string, max_object_elements l);
  ("vector_dimensions"%string, max_vector_dimensions l);
  ("lob_chunks"%string, max_lob_chunks l);
  ("length_prefixed_elements"%string, max_length_prefixed_elements l)
].

(** The loop of [validate] that refuses a zero limit. *)
Fixpoint validate_named (named : list (string * Z)) : Res () :=
  match named with
  | [] => Ok ()
  | (name, value) :: named =>
      if value =? 0 then Err (ResourceLimitErr name 0 1) else validate_named named
  end.

(** [ProtocolLimits::validate] *)
Definition validate (l : ProtocolLimits) : Res ProtocolLimits :=
  _ ← validate_named (named_limits l);
  if max_frame_bytes l <? max_packet_bytes l
  then Err (ResourceLimitErr "packet_bytes" (max_packet_bytes l) (max_frame_bytes l))
  else if max_response_bytes l <? max_frame_bytes l
  then Err (ResourceLimitErr "frame_bytes" (max_frame_bytes l) (max_response_bytes l))
  else Ok l.

(** [ProtocolLimits::check] and its public forms. *)
Definition check (limit : string) (observed maximum : Z) : Res () :=
  if observed <=? maximum then Ok () else Err (ResourceLimitErr limit observed maximum).

Definition check_packet_bytes (l : ProtocolLimits) (observed : Z) : Res () :=
  check "packet_bytes" observed (max_packet_bytes l).
Definition check_frame_bytes (l : ProtocolLimits) (observed : Z) : Res () :=
  check "frame_bytes" observed (max_frame_bytes l).
Definition check_response_bytes (l : ProtocolLimits) (observed : Z) : Res () :=
  check "response_bytes" observed (max_response_bytes l).
Definition check_columns (l : ProtocolLimits) (observed : Z) : Res () :=
  check "columns" observed (max_columns l).
Definition check_binds (l : ProtocolLimits) (observed : Z) : Res () :=
  check "binds" observed (max_binds l).
Definition check_batch_rows (l : ProtocolLimits) (observed : Z) : Res () :=
  check "batch_rows" observed (max_batch_rows l).
Definition check_object_depth (l : ProtocolLimits) (observed : Z) : Res () :=
  check "object_depth" observed (max_object_depth l).
Definition check_object_elements (l : ProtocolLimits) (observed : Z) : Res () :=
  check "object_elements" observed (max_object_elements l).
Definition check_vector_dimensions (l : ProtocolLimits) (observed : Z) : Res () :=
  check "vector_dimensions" observed (max_vector_dimensions l).
Definition check_lob_chunks (l : ProtocolLimits) (observed : Z) : Res () :=
  check "lob_chunks" observed (max_lob_chunks l).
Definition check_length_prefixed_elements (l : ProtocolLimits) (observed : Z) : Res () :=
  check "length_prefixed_elements" observed (max_length_prefixed_elements l).

Lemma check_ok limit observed maximum :
  observed <= maximum → check limit observed maximum = Ok ().
Proof. intros H. unfold check. by rewrite (proj2 (Z.leb_le _ _) H). Qed.

Lemma check_inv limit observed maximum :
  check limit observed maximum = Ok () → observed <= maximum.
Proof. unfold check. destruct (Z.leb_spec observed maximum); [done|discriminate]. Qed.

Lemma check_returns limit observed maximum : returns (check limit observed maximum).
Proof. unfold check. by case_match. Qed.
#[export] Hint Resolve check_returns : thin.

(** ** Validated limits *)

(** What [validate] establishes; fields are [usize], hence non-negative. *)
Definition limits_usize (l : ProtocolLimits) : Prop :=
  Forall (λ p, 0 <= snd p <= USIZE_MAX) (named_limits l).

Definition limits_valid (l : ProtocolLimits) : Prop :=
  Forall (λ p, 0 < snd p) (named_limits l) ∧
  max_packet_bytes l <= max_frame_bytes l <= max_response_bytes l.

#[global] Instance limits_usize_dec l : Decision (limits_usize l).
Proof. unfold limits_usize. apply _. Defined.
#[global] Instance limits_valid_dec l : Decision (limits_valid l).
Proof. unfold limits_valid. apply _. Defined.

Lemma validate_named_ok named :
  Forall (λ p, 0 <= snd p <= USIZE_MAX) named →
  validate_named named = Ok () ↔ Forall (λ p, 0 < snd p) named.
Proof.
  induction 1 as [|[n v] named Hv Hn IH]; cbn [validate_named]; [done|].
  rewrite Forall_cons_iff. cbn [snd] in *. destruct (Z.eqb_spec v 0).
  - split; [discriminate|lia].
  - rewrite IH. split; [intros; split; [lia|done]|by intros [_ ?]].
Qed.

Lemma validate_named_returns named : returns (validate_named named).
Proof. induction named as [|[n v] named IH]; cbn; [done|]. by case_match. Qed.

Lemma validate_returns l : returns (validate l).
Proof.
  unfold validate. apply bind_returns; [apply validate_named_returns|].
  intros. by repeat case_match.
Qed.

Lemma validate_named_err named e :
  validate_named named = Err e → is_Some (resource_limit e).
Proof.
  induction named as [|[n v] named IH]; cbn; [discriminate|].
  case_match; [intros [= <-]; cbn; eauto|done].
Qed.

Lemma validate_err l e : validate l = Err e → is_Some (resource_limit e).
Proof.
  unfold validate. destruct (validate_named _) eqn:E; cbn; try discriminate.
  - repeat case_match; intros [= <-]; cbn; eauto.
  - intros [= <-]. by apply validate_named_err in E.
Qed.

Lemma validate_ok_valid l l' : limits_usize l → validate l = Ok l' → limits_valid l.
Proof.
  intros Hu ([]&Hn&H)%bind_ok. apply (validate_named_ok _ Hu) in Hn. split; [done|].
  destruct (Z.ltb_spec (max_frame_bytes l) (max_packet_bytes l)); [discriminate|].
  destruct (Z.ltb_spec (max_response_bytes l) (max_frame_bytes l)); [discriminate|]. lia.
Qed.

Lemma validate_valid_ok l : limits_usize l → limits_valid l → validate l = Ok l.
Proof.
  intros Hu [Hp Hle]. unfold validate. rewrite (proj2 (validate_named_ok _ Hu) Hp). cbn.
  rewrite (proj2 (Z.ltb_ge _ _)), (proj2 (Z.ltb_ge _ _)) by lia. done.
Qed.

(** Validation accepts exactly the positive, well-nested limits, returns them
    unchanged, and its only failures are typed resource-limit errors. *)
Theorem validate_spec l :
  limits_usize l →
  (validate l = Ok l ↔ limits_valid l) ∧
  (¬ limits_valid l → ∃ e, validate l = Err e ∧ is_Some (resource_limit e)).
Proof.
  intros Hu. split.
  - split; [by apply validate_ok_valid|by apply validate_valid_ok].
  - intros Hbad. pose proof (validate_returns l) as Hr.
    destruct (validate l) as [l'|e| |] eqn:E; try done.
    + by apply validate_ok_valid in E.
    + exists e. split; [done|]. by apply validate_err in E.
Qed.

Lemma limits_DEFAULT_valid : limits_usize limits_DEFAULT ∧ limits_valid limits_DEFAULT.
Proof. apply (bool_decide_unpack _). by vm_compute. Qed.

Lemma validate_same l l' : validate l = Ok l' → l' = l.
Proof.
  unfold validate. intros (u&_&H)%bind_ok. repeat case_match; try discriminate.
  by injection H as <-.
Qed.

(** ** Bounded allocation ([trait BoundedReader]) *)

Class BoundedReader (R : Type) := {
  remaining_of : R → Z;
  protocol_limits : R → ProtocolLimits
}.

Section Bounded.
Context {R : Type} `{BoundedReader R}.

(** [BoundedReader::alloc_count_checked] *)
Definition alloc_count_checked (r : R) (count min_bytes_per_elem : Z) : Res Z :=
  _ ← check_length_prefixed_elements (protocol_limits r) count;
  let per_elem := Z.max min_bytes_per_elem 1 in
  match try_range 0 USIZE_MAX (count * per_elem) with
  | Some needed =>
      if needed <=? remaining_of r then Ok count
      else Err (TtcDecode "declared element count exceeds remaining buffer")
  | None => Err (TtcDecode "declared element count exceeds remaining buffer")
  end.

(** [BoundedReader::with_capacity_bounded]: the capacity asked of [Vec]. *)
Definition with_capacity_bounded (r : R) (count min_bytes_per_elem : Z) : Z :=
  let per_elem := Z.max min_bytes_per_elem 1 in
  Z.min count (remaining_of r / per_elem).

(** [BoundedReader::with_capacity_limited] *)
Definition with_capacity_limited (r : R) (count min_bytes_per_elem : Z)
    (chk : ProtocolLimits → Z → Res ()) : Res Z :=
  _ ← chk (protocol_limits r) count;
  Ok (with_capacity_bounded r count min_bytes_per_elem).

(** The two allocation primitives never ask for more elements than the
    unread bytes can hold, keep an honest count unchanged, and refuse a
    dishonest one. *)
Theorem bounded_allocation (r : R) (count per : Z) :
  0 <= count → 0 <= per → 0 <= remaining_of r <= USIZE_MAX →
  with_capacity_bounded r count per * Z.max per 1 <= remaining_of r ∧
  (count * Z.max per 1 <= remaining_of r → with_capacity_bounded r count per = count) ∧
  (∀ n, alloc_count_checked r count per = Ok n →
     n = count ∧ n * Z.max per 1 <= remaining_of r ∧
     n <= max_length_prefixed_elements (protocol_limits r)) ∧
  (remaining_of r < count * Z.max per 1 →
     ∃ e, alloc_count_checked r count per = Err e).
Proof.
  intros Hc Hp Hr. unfold with_capacity_bounded, alloc_count_checked.
  set (q := Z.max per 1). assert (1 <= q) by lia.
  pose proof (Z.div_mod (remaining_of r) q) as Hdm.
  pose proof (Z.mod_pos_bound (remaining_of r) q) as Hmb.
  repeat split.
  - destruct (Z.min_spec count (remaining_of r / q)) as [[? ->]|[? ->]]; nia.
  - intros. apply Z.min_l. apply Z.div_le_lower_bound; lia.
  - apply bind_ok in H1 as (?&?&H1). repeat case_match; congruence.
  - apply bind_ok in H1 as (?&?&H1). destruct (try_range _ _ _) eqn:E; [|discriminate].
    apply try_range_some in E as [-> ?]. destruct (Z.leb_spec (count * q) (remaining_of r));
      [|discriminate]. by injection H1 as <-.
  - apply bind_ok in H1 as ([]&Hk&H1). apply check_inv in Hk.
    destruct (try_range _ _ _); [|discriminate]. case_match; [|discriminate]. congruence.
  - intros. unfold check_length_prefixed_elements, check.
    destruct (count <=? _); cbn; [|eauto].
    destruct (try_range _ _ _) eqn:E; [|eauto].
    apply try_range_some in E as [-> ?]. destruct (Z.leb_spec (count * q) (remaining_of r));
      [lia|eauto].
Qed.
End Bounded.
