(* ===== verification/Writer.v ===== *)
(** * TTC writer ([wire.rs], [TtcWriter])

    Infallible methods are state transformers; the ones that return [Result]
    live in the state-and-error monad. *)

From S2P Require Import Prelude.
From S2P Require Import Protocol.

Definition TNS_MAX_SHORT_LENGTH : Z := 252.
Definition TNS_LONG_LENGTH_INDICATOR : Z := 254.
Definition TNS_NULL_LENGTH_INDICATOR : Z := 255.

Record TtcWriter := mkTtcWriter { w_bytes : bytes; seq_num : Z }.

(** [TtcWriter::new] *)
Definition writer_new : TtcWriter := mkTtcWriter [] 0.
(** [TtcWriter::into_bytes] *)
Definition into_bytes (w : TtcWriter) : bytes := w_bytes w.

Definition write_raw (value : bytes) (w : TtcWriter) : TtcWriter :=
  mkTtcWriter (w_bytes w ++ value) (seq_num w).

Definition write_u8 (value : Z) (w : TtcWriter) : TtcWriter := write_raw [value] w.
Definition write_u16be (value : Z) (w : TtcWriter) : TtcWriter := write_raw (to_be_bytes 2 value) w.
Definition write_u16le (value : Z) (w : TtcWriter) : TtcWriter := write_raw (to_le_bytes 2 value) w.
Definition write_u32be (value : Z) (w : TtcWriter) : TtcWriter := write_raw (to_be_bytes 4 value) w.
Definition write_u64be (value : Z) (w : TtcWriter) : TtcWriter := write_raw (to_be_bytes 8 value) w.

Definition write_ub2 (value : Z) (w : TtcWriter) : TtcWriter :=
  if value =? 0 then write_u8 0 w
  else if value <=? U8_MAX then write_u8 (as_u 8 value) (write_u8 1 w)
  else write_u16be value (write_u8 2 w).

Definition write_ub4 (value : Z) (w : TtcWriter) : TtcWriter :=
  if value =? 0 then write_u8 0 w
  else if value <=? U8_MAX then write_u8 (as_u 8 value) (write_u8 1 w)
  else if value <=? U16_MAX then write_u16be (as_u 16 value) (write_u8 2 w)
  else write_u32be value (write_u8 4 w).

Definition write_ub8 (value : Z) (w : TtcWriter) : TtcWriter :=
  if value =? 0 then write_u8 0 w
  else if value <=? U8_MAX then write_u8 (as_u 8 value) (write_u8 1 w)
  else if value <=? U16_MAX then write_u16be (as_u 16 value) (write_u8 2 w)
  else if value <=? U32_MAX then write_u32be (as_u 32 value) (write_u8 4 w)
  else write_u64be value (write_u8 8 w).

(** [seq_num.wrapping_add(1)], skipping zero. *)
Definition write_seq_num (w : TtcWriter) : TtcWriter :=
  let s := as_u 8 (seq_num w + 1) in
  let s := if s =? 0 then 1 else s in
  write_u8 s (mkTtcWriter (w_bytes w) s).

Abbreviation WriterM := (ST ProtocolError TtcWriter).

(** The loop over [value.chunks(32_767)]. *)
Fixpoint write_chunks (cs : list bytes) : WriterM () :=
  match cs with
  | [] => mret ()
  | chunk :: cs =>
      len ← lift (ok_or (try_range 0 U32_MAX (Zlen chunk)) (InvalidPacketLength (Zlen chunk) 0));
      _ ← modify (write_ub4 len);
      _ ← modify (write_raw chunk);
      write_chunks cs
  end.

Definition write_bytes_with_length (value : bytes) : WriterM () :=
  if Zlen value <=? TNS_MAX_SHORT_LENGTH then
    _ ← modify (write_u8 (as_u 8 (Zlen value)));
    modify (write_raw value)
  else
    _ ← modify (write_u8 TNS_LONG_LENGTH_INDICATOR);
    _ ← write_chunks (chunks (Z.to_nat 32767) value);
    modify (write_ub4 0).

Definition write_bytes_with_two_lengths (value : option bytes) : WriterM () :=
  match value with
  | Some b =>
      len ← lift (ok_or (try_range 0 U32_MAX (Zlen b)) (InvalidPacketLength (Zlen b) 0));
      _ ← modify (write_ub4 len);
      if negb (Zlen b =? 0) then write_bytes_with_length b else mret ()
  | None => modify (write_ub4 0)
  end.

(** [write_str_two_lengths]: the argument is the string's UTF-8 bytes. *)
Definition write_str_two_lengths (value : bytes) : WriterM () :=
  write_bytes_with_two_lengths (Some value).

(** [write_sb4]: sign-magnitude, the sign in the length byte. *)
Definition write_sb4 (value : Z) (w : TtcWriter) : TtcWriter :=
  let '(sign, magnitude) := if value <? 0 then (128, - value) else (0, value) in
  if magnitude =? 0 then write_u8 0 w
  else if magnitude <=? U8_MAX then
    write_u8 (as_u 8 magnitude) (write_u8 (Z.lor 1 sign) w)
  else if magnitude <=? U16_MAX then
    write_u16be (as_u 16 magnitude) (write_u8 (Z.lor 2 sign) w)
  else write_u32be magnitude (write_u8 (Z.lor 4 sign) w).

Definition write_keyword_value_pair (text_value binary_value : option bytes) (keyword : Z)
  : WriterM () :=
  _ ← write_bytes_with_two_lengths text_value;
  _ ← write_bytes_with_two_lengths binary_value;
  modify (write_ub2 keyword).

Definition write_function_code (function_code : Z) (w : TtcWriter) : TtcWriter :=
  write_seq_num (write_u8 function_code (write_u8 TNS_MSG_TYPE_FUNCTION w)).

Definition write_function_code_with_seq (function_code seq : Z) (w : TtcWriter) : TtcWriter :=
  write_u8 seq (write_u8 function_code (write_u8 TNS_MSG_TYPE_FUNCTION w)).

Definition write_function_header (function_code seq ttc_field_version : Z) (w : TtcWriter)
  : TtcWriter :=
  let w := write_function_code_with_seq function_code seq w in
  if writes_pipeline_token ttc_field_version then write_ub8 0 w else w.

Definition write_piggyback_header (function_code seq ttc_field_version : Z) (w : TtcWriter)
  : TtcWriter :=
  let w := write_u8 seq (write_u8 function_code (write_u8 TNS_MSG_TYPE_PIGGYBACK w)) in
  if writes_pipeline_token ttc_field_version then write_ub8 0 w else w.

(** ** What is appended

    Every method only appends to the buffer; [ub4_bytes] and friends are the
    appended bytes, which the reader's round trips are stated with. *)

Definition ub2_bytes (v : Z) : bytes :=
  if v =? 0 then [0] else if v <=? U8_MAX then [1; v] else 2 :: to_be_bytes 2 v.
Definition ub4_bytes (v : Z) : bytes :=
  if v =? 0 then [0] else if v <=? U8_MAX then [1; v]
  else if v <=? U16_MAX then 2 :: to_be_bytes 2 v else 4 :: to_be_bytes 4 v.
Definition ub8_bytes (v : Z) : bytes :=
  if v =? 0 then [0] else if v <=? U8_MAX then [1; v]
  else if v <=? U16_MAX then 2 :: to_be_bytes 2 v
  else if v <=? U32_MAX then 4 :: to_be_bytes 4 v else 8 :: to_be_bytes 8 v.
Definition sb4_bytes (v : Z) : bytes :=
  let sign := if v <? 0 then 128 else 0 in
  let m := Z.abs v in
  if m =? 0 then [0] else if m <=? U8_MAX then [1 + sign; m]
  else if m <=? U16_MAX then (2 + sign) :: to_be_bytes 2 m else (4 + sign) :: to_be_bytes 4 m.

Definition chunk_bytes (c : bytes) : bytes := ub4_bytes (Zlen c) ++ c.
Definition field_bytes (v : bytes) : bytes :=
  if Zlen v <=? TNS_MAX_SHORT_LENGTH then Zlen v :: v
  else TNS_LONG_LENGTH_INDICATOR :: concat (chunk_bytes <$> chunks (Z.to_nat 32767) v) ++ [0].

Lemma write_raw_raw a b w : write_raw b (write_raw a w) = write_raw (a ++ b) w.
Proof. unfold write_raw. cbn. by rewrite app_assoc. Qed.

Lemma write_raw_nil w : write_raw [] w = w.
Proof. unfold write_raw. rewrite app_nil_r. by destruct w. Qed.

(** Case on every integer comparison of the goal. *)
Ltac int_cases :=
  repeat match goal with
  | |- context [?a =? ?b] => destruct (Z.eqb_spec a b)
  | |- context [?a <=? ?b] => destruct (Z.leb_spec a b)
  | |- context [?a <? ?b] => destruct (Z.ltb_spec a b)
  end.

Lemma write_ub2_spec v w : 0 <= v <= U16_MAX → write_ub2 v w = write_raw (ub2_bytes v) w.
Proof.
  unfold write_ub2, ub2_bytes, write_u8, write_u16be, U16_MAX, U8_MAX. intros.
  int_cases; rewrite ?write_raw_raw, ?as_u_in by lia; done.
Qed.

Lemma write_ub4_spec v w : 0 <= v <= U32_MAX → write_ub4 v w = write_raw (ub4_bytes v) w.
Proof.
  unfold write_ub4, ub4_bytes, write_u8, write_u16be, write_u32be, U32_MAX, U16_MAX, U8_MAX.
  intros. int_cases; rewrite ?write_raw_raw, ?as_u_in by lia; done.
Qed.

Lemma write_ub8_spec v w : 0 <= v <= U64_MAX → write_ub8 v w = write_raw (ub8_bytes v) w.
Proof.
  unfold write_ub8, ub8_bytes, write_u8, write_u16be, write_u32be, write_u64be, U64_MAX,
    U32_MAX, U16_MAX, U8_MAX.
  intros. int_cases; rewrite ?write_raw_raw, ?as_u_in by lia; done.
Qed.

Lemma write_sb4_spec v w : I32_MIN <= v <= I32_MAX → write_sb4 v w = write_raw (sb4_bytes v) w.
Proof.
  unfold write_sb4, sb4_bytes, I32_MIN, I32_MAX, U8_MAX, U16_MAX, write_u8, write_u16be, write_u32be.
  intros Hv. destruct (Z.ltb_spec v 0); cbn [fst snd].
  - rewrite Z.abs_neq by lia. int_cases; rewrite ?write_raw_raw, ?as_u_in by lia; done.
  - rewrite Z.abs_eq by lia. int_cases; rewrite ?write_raw_raw, ?as_u_in by lia; done.
Qed.

Lemma write_chunks_spec cs w :
  Forall (λ c, Zlen c <= U32_MAX) cs →
  write_chunks cs w = (Ok (), write_raw (concat (chunk_bytes <$> cs)) w).
Proof.
  intros H. revert w. induction H as [|c cs Hc Hcs IH]; intros w; cbn [write_chunks].
  - cbn. by rewrite write_raw_nil.
  - pose proof (Zlen_nonneg c). st_run. rewrite try_range_in by lia. st_run.
    rewrite IH, write_ub4_spec, !write_raw_raw by lia. unfold chunk_bytes. cbn.
    by rewrite <- ?app_assoc.
Qed.

Lemma chunks_32767_short (v : bytes) : Forall (λ c, 0 < Zlen c <= 32767) (chunks (Z.to_nat 32767) v).
Proof.
  eapply Forall_impl; [|apply chunks_bounds; lia]. unfold Zlen. cbn beta. lia.
Qed.

(** The length prefix and the chunked form always succeed, and append exactly
    [field_bytes]. *)
Lemma write_bytes_with_length_spec v w :
  write_bytes_with_length v w = (Ok (), write_raw (field_bytes v) w).
Proof.
  unfold write_bytes_with_length, field_bytes, write_u8, TNS_MAX_SHORT_LENGTH.
  pose proof (Zlen_nonneg v). destruct (Z.leb_spec (Zlen v) 252).
  - st_run. by rewrite write_raw_raw, as_u_in by lia.
  - st_run. rewrite write_chunks_spec; st_run.
    + by rewrite write_ub4_spec, !write_raw_raw by done.
    + eapply Forall_impl; [|apply chunks_32767_short]. unfold U32_MAX. cbn. lia.
Qed.

(** A field with two lengths: a [ub4] of the length, then the field itself
    unless it is empty. *)
Definition two_lengths_bytes (v : option bytes) : bytes :=
  match v with
  | Some b => ub4_bytes (Zlen b) ++ (if Zlen b =? 0 then [] else field_bytes b)
  | None => [0]
  end.

Lemma write_bytes_with_two_lengths_spec v w :
  (∀ b, v = Some b → Zlen b <= U32_MAX) →
  write_bytes_with_two_lengths v w = (Ok (), write_raw (two_lengths_bytes v) w).
Proof.
  intros H. unfold write_bytes_with_two_lengths, two_lengths_bytes. destruct v as [b|].
  - specialize (H b eq_refl). pose proof (Zlen_nonneg b). st_run.
    rewrite try_range_in by lia. st_run. rewrite write_ub4_spec by lia.
    destruct (Z.eqb_spec (Zlen b) 0); cbn [negb].
    + by rewrite app_nil_r.
    + by rewrite write_bytes_with_length_spec, write_raw_raw.
  - by cbn.
Qed.

Lemma write_bytes_with_two_lengths_too_long b w :
  U32_MAX < Zlen b →
  write_bytes_with_two_lengths (Some b) w = (Err (InvalidPacketLength (Zlen b) 0), w).
Proof.
  intros H. cbn [write_bytes_with_two_lengths]. st_run. unfold try_range.
  by rewrite (proj2 (between_false _ _ _)) by lia.
Qed.

(** The sequence number is a non-zero byte and cycles through [1..255]. *)
Lemma write_seq_num_cycle w :
  0 <= seq_num w <= 255 →
  let w' := write_seq_num w in
  w_bytes w' = w_bytes w ++ [seq_num w'] ∧ 1 <= seq_num w' <= 255 ∧
  seq_num w' = if seq_num w =? 255 then 1 else seq_num w + 1.
Proof.
  intros Hs. unfold write_seq_num, write_u8, write_raw. cbn.
  destruct (Z.eqb_spec (seq_num w) 255) as [E|].
  - rewrite E. by cbn.
  - rewrite as_u_in by lia. destruct (Z.eqb_spec (seq_num w + 1) 0); [lia|].
    repeat split; lia.
Qed.

(** The pipeline token is exactly one extra zero byte, present from TTC field
    version 23.1 ext 1 on. *)
Lemma function_header_token fc seq v w :
  w_bytes (write_function_header fc seq v w) =
    w_bytes w ++ [TNS_MSG_TYPE_FUNCTION; fc; seq] ++
    (if TNS_CCAP_FIELD_VERSION_23_1_EXT_1 <=? v then [0] else []).
Proof.
  unfold write_function_header, write_function_code_with_seq, writes_pipeline_token.
  destruct (_ <=? v); cbn; rewrite <- ?app_assoc; done.
Qed.

Lemma ub4_bytes_ok v : 0 <= v <= U32_MAX → bytes_ok (ub4_bytes v).
Proof.
  unfold ub4_bytes, U8_MAX. intros.
  int_cases; repeat first
    [apply Forall_nil | apply to_be_bytes_ok | apply Forall_cons; [unfold is_u8; lia|]].
Qed.
