(* ===== verification/Reader.v ===== *)
(** * TTC reader ([wire.rs], [TtcReader])

    A cursor over an untrusted buffer.  Methods live in the state-and-error
    monad: the cursor keeps the position it reached when a method fails, which
    [read_bytes_with_length] depends on.  The chunk loops carry fuel; a chunk
    consumes at least one byte, so the buffer length is enough. *)

From S2P Require Import Prelude.
From S2P Require Import Protocol.
From S2P Require Import Limits.
From S2P Require Import Writer.

Record TtcReader := mkTtcReader { r_bytes : bytes; pos : Z; limits : ProtocolLimits }.

Abbreviation ReaderM := (ST ProtocolError TtcReader).

Definition set_pos (p : Z) (r : TtcReader) : TtcReader := mkTtcReader (r_bytes r) p (limits r).

(** [TtcReader::new] *)
Definition reader_new (b : bytes) : TtcReader := mkTtcReader b 0 limits_DEFAULT.

(** [TtcReader::with_limits] *)
Definition with_limits (b : bytes) (l : ProtocolLimits) : Res TtcReader :=
  l ← validate l;
  _ ← check_frame_bytes l (Zlen b);
  _ ← check_response_bytes l (Zlen b);
  Ok (mkTtcReader b 0 l).

Definition remaining (r : TtcReader) : Z := sat_sub (Zlen (r_bytes r)) (pos r).
Definition position (r : TtcReader) : Z := pos r.
Definition remaining_slice (r : TtcReader) : bytes :=
  drop (Z.to_nat (Z.min (pos r) (Zlen (r_bytes r)))) (r_bytes r).

#[global] Instance reader_bounded : BoundedReader TtcReader :=
  {| remaining_of := remaining; protocol_limits := limits |}.

Definition peek_u8 : ReaderM Z :=
  λ r, (ok_or (slice_nth (r_bytes r) (pos r)) (TtcDecode "missing u8"), r).

Definition read_u8 : ReaderM Z :=
  value ← peek_u8;
  p ← gets pos;
  p' ← lift (arith 0 USIZE_MAX (p + 1));
  _ ← modify (set_pos p');
  mret value.

Definition read_i8 : ReaderM Z := b ← read_u8; mret (as_i 8 b).

Definition read_raw (len : Z) : ReaderM bytes :=
  l ← gets limits;
  _ ← lift (check_response_bytes l len);
  p ← gets pos;
  e ← lift (ok_or (try_range 0 USIZE_MAX (p + len)) (TtcDecode "read offset overflow"));
  buf ← gets r_bytes;
  b ← lift (ok_or (slice_get buf p e) (TtcDecode "truncated TTC payload"));
  _ ← modify (set_pos e);
  mret b.

Definition skip (len : Z) : ReaderM () := _ ← read_raw len; mret ().

(** [try_into] of a slice to a fixed-size array. *)
Definition to_array (n : Z) (b : bytes) (e : ProtocolError) : Res bytes :=
  if Zlen b =? n then Ok b else Err e.

Definition read_u16be : ReaderM Z :=
  b ← read_raw 2;
  a ← lift (to_array 2 b (TtcDecode "invalid u16"));
  mret (from_be_bytes a).

Definition read_u16le : ReaderM Z :=
  b ← read_raw 2;
  a ← lift (to_array 2 b (TtcDecode "invalid u16"));
  mret (from_le_bytes a).

Definition read_u32be : ReaderM Z :=
  b ← read_raw 4;
  a ← lift (to_array 4 b (TtcDecode "invalid u32"));
  mret (from_be_bytes a).

Definition read_ub2 : ReaderM Z :=
  len ← read_u8;
  if len =? 0 then mret 0
  else if len =? 1 then read_u8
  else if len =? 2 then read_u16be
  else throw (TtcDecode "invalid ub2 length").

Definition read_ub4 : ReaderM Z :=
  len ← read_u8;
  if len =? 0 then mret 0
  else if 4 <? len then throw (TtcDecode "invalid ub4 length")
  else b ← read_raw len; mret (be_accumulate 32 b).

Definition read_ub8 : ReaderM Z :=
  len ← read_u8;
  if len =? 0 then mret 0
  else if 8 <? len then throw (TtcDecode "invalid ub8 length")
  else b ← read_raw len; mret (be_accumulate 64 b).

(** [value.wrapping_neg()] on a [w]-bit signed value. *)
Definition wrapping_neg (w v : Z) : Z := as_i w (- v).

Definition read_sb4 : ReaderM Z :=
  len ← read_u8;
  let is_negative := negb (Z.land len 128 =? 0) in
  let len := Z.land len 127 in
  if len =? 0 then mret 0
  else if 4 <? len then throw (TtcDecode "invalid sb4 length")
  else
    b ← read_raw len;
    let value := as_i 32 (be_accumulate 32 b) in
    mret (if is_negative then wrapping_neg 32 value else value).

Definition read_sb8 : ReaderM Z :=
  len ← read_u8;
  let is_negative := negb (Z.land len 128 =? 0) in
  let len := Z.land len 127 in
  if len =? 0 then mret 0
  else if 8 <? len then throw (TtcDecode "invalid sb8 length")
  else
    b ← read_raw len;
    let value := as_i 64 (be_accumulate 64 b) in
    mret (if is_negative then wrapping_neg 64 value else value).

(** The guards at the head of every chunk iteration: count the chunk, check the
    chunk limit, convert its length, add it to the total, check the total. *)
Definition chunk_guards (l : ProtocolLimits) (nchunks total chunk_len : Z) : Res (Z * Z * Z) :=
  nchunks ← ok_or (try_range 0 USIZE_MAX (nchunks + 1))
              (ResourceLimitErr "lob_chunks" USIZE_MAX (max_lob_chunks l));
  _ ← check_lob_chunks l nchunks;
  chunk_len ← ok_or (try_range 0 USIZE_MAX chunk_len) (InvalidPacketLength USIZE_MAX 0);
  total ← ok_or (try_range 0 USIZE_MAX (total + chunk_len))
            (ResourceLimitErr "response_bytes" USIZE_MAX (max_response_bytes l));
  _ ← check_response_bytes l total;
  Ok (nchunks, chunk_len, total).

(** The [loop] of [read_bytes]. *)
Fixpoint read_chunks (fuel : nat) (out : bytes) (nchunks total : Z) : ReaderM bytes :=
  match fuel with
  | O => lift Diverge
  | S fuel =>
      chunk_len ← read_ub4;
      if chunk_len =? 0 then mret out
      else
        l ← gets limits;
        g ← lift (chunk_guards l nchunks total chunk_len);
        let '(nchunks, chunk_len, total) := g in
        chunk ← read_raw chunk_len;
        read_chunks fuel (out ++ chunk) nchunks total
  end.

(** The [loop] of [read_bytes_borrowed]. *)
Fixpoint borrow_chunks (fuel : nat) (out : bytes) (nchunks total : Z) : ReaderM bytes :=
  match fuel with
  | O => lift Diverge
  | S fuel =>
      chunk_len ← read_ub4;
      if chunk_len =? 0 then mret out
      else
        l ← gets limits;
        g ← lift (chunk_guards l nchunks total chunk_len);
        let '(nchunks, chunk_len, total) := g in
        chunk ← read_raw chunk_len;
        borrow_chunks fuel (out ++ chunk) nchunks total
  end.

(** The [loop] of [skip_bytes_field]. *)
Fixpoint skip_chunks (fuel : nat) (nchunks total : Z) : ReaderM () :=
  match fuel with
  | O => lift Diverge
  | S fuel =>
      chunk_len ← read_ub4;
      if chunk_len =? 0 then mret ()
      else
        l ← gets limits;
        g ← lift (chunk_guards l nchunks total chunk_len);
        let '(nchunks, chunk_len, total) := g in
        _ ← skip chunk_len;
        skip_chunks fuel nchunks total
  end.

Definition loop_fuel (r : TtcReader) : nat := S (length (r_bytes r)).

Inductive BorrowedBytes :=
| BB_Null
| BB_Slice (b : bytes)
| BB_Chunked (b : bytes).

Definition read_bytes_borrowed : ReaderM BorrowedBytes :=
  len ← read_u8;
  if len =? TNS_LONG_LENGTH_INDICATOR then
    fuel ← gets loop_fuel;
    out ← borrow_chunks fuel [] 0 0;
    mret (BB_Chunked out)
  else if (len =? 0) || (len =? TNS_NULL_LENGTH_INDICATOR) then mret BB_Null
  else
    l ← gets limits;
    _ ← lift (check_response_bytes l len);
    b ← read_raw len;
    mret (BB_Slice b).

Definition skip_bytes_field : ReaderM () :=
  len ← read_u8;
  if len =? TNS_LONG_LENGTH_INDICATOR then
    fuel ← gets loop_fuel;
    skip_chunks fuel 0 0
  else if (len =? 0) || (len =? TNS_NULL_LENGTH_INDICATOR) then mret ()
  else
    l ← gets limits;
    _ ← lift (check_response_bytes l len);
    skip len.

Definition read_bytes : ReaderM (option bytes) :=
  len ← read_u8;
  if len =? TNS_LONG_LENGTH_INDICATOR then
    fuel ← gets loop_fuel;
    out ← read_chunks fuel [] 0 0;
    mret (Some out)
  else if (len =? 0) || (len =? TNS_NULL_LENGTH_INDICATOR) then mret None
  else
    l ← gets limits;
    _ ← lift (check_response_bytes l len);
    b ← read_raw len;
    mret (Some b).

(** [read_bytes_with_length]: the nested form when it decodes to exactly [len]
    bytes, otherwise rewind and take [len] raw bytes. *)
Definition read_nested_or_raw (len : Z) : ReaderM (option bytes) := λ r,
  let value_start := pos r in
  match read_bytes r with
  | (Ok (Some b), r') =>
      if Zlen b =? len then (Ok (Some b), r')
      else (b ← read_raw len; mret (Some b)) (set_pos value_start r')
  | (Ok None, r') | (Err _, r') =>
      (b ← read_raw len; mret (Some b)) (set_pos value_start r')
  | (Panic, r') => (Panic, r')
  | (Diverge, r') => (Diverge, r')
  end.

Definition read_bytes_with_length : ReaderM (option bytes) :=
  n ← read_ub4;
  len ← lift (ok_or (try_range 0 USIZE_MAX n) (InvalidPacketLength USIZE_MAX 0));
  l ← gets limits;
  _ ← lift (check_response_bytes l len);
  if len =? 0 then mret None else read_nested_or_raw len.

(** [String::from_utf8]: well-formed UTF-8 (no overlong forms, no surrogates,
    at most U+10FFFF).  A [String] is kept as its bytes. *)
Definition is_cont (b : Z) : bool := between 128 191 b.

Definition second_of_3 (b0 b1 : Z) : bool :=
  if b0 =? 224 then between 160 191 b1
  else if b0 =? 237 then between 128 159 b1
  else is_cont b1.
Definition second_of_4 (b0 b1 : Z) : bool :=
  if b0 =? 240 then between 144 191 b1
  else if b0 =? 244 then between 128 143 b1
  else is_cont b1.

Fixpoint utf8_valid (l : bytes) : bool :=
  match l with
  | [] => true
  | b0 :: l1 =>
      if between 0 127 b0 then utf8_valid l1
      else match l1 with
      | [] => false
      | b1 :: l2 =>
          if between 194 223 b0 then is_cont b1 && utf8_valid l2
          else match l2 with
          | [] => false
          | b2 :: l3 =>
              if between 224 239 b0 then second_of_3 b0 b1 && is_cont b2 && utf8_valid l3
              else match l3 with
              | [] => false
              | b3 :: l4 =>
                  between 240 244 b0 && second_of_4 b0 b1 && is_cont b2 && is_cont b3 &&
                  utf8_valid l4
              end
          end
      end
  end.

Definition from_utf8 (b : bytes) : Res bytes :=
  if utf8_valid b then Ok b else Err (TtcDecode "server sent non-UTF8 string").

Definition read_string_with_length : ReaderM (option bytes) :=
  o ← read_bytes_with_length;
  match o with
  | None => mret None
  | Some b => s ← lift (from_utf8 b); mret (Some s)
  end.

Definition read_string : ReaderM (option bytes) :=
  o ← read_bytes;
  match o with
  | None => mret None
  | Some b => s ← lift (from_utf8 b); mret (Some s)
  end.
