(* ===== verification/ReaderSafety.v ===== *)
(** * The TTC reader is total and stays inside its buffer

    Every method of [TtcReader], run on any buffer a Rust slice can hold,
    returns (never a panic, never an endless loop), leaves the buffer and the
    limits alone and moves the cursor forward inside the buffer.  The two
    zero-copy companions of [read_bytes] are shown interchangeable with it. *)

From S2P Require Import Prelude.
From S2P Require Import Protocol.
From S2P Require Import Limits.
From S2P Require Import Writer.
From S2P Require Import Reader.

(** A cursor over a Rust slice: bytes, position in range, at most
    [isize::MAX] bytes. *)
Definition reader_ok (r : TtcReader) : Prop :=
  bytes_ok (r_bytes r) ∧ 0 <= pos r <= Zlen (r_bytes r) ∧ Zlen (r_bytes r) <= I64_MAX.

Definition advances (r r' : TtcReader) : Prop :=
  r_bytes r' = r_bytes r ∧ limits r' = limits r ∧ pos r <= pos r' <= Zlen (r_bytes r).

#[global] Instance reader_ok_dec r : Decision (reader_ok r).
Proof. unfold reader_ok. apply _. Defined.

(** [sound n m Q]: [m] is total on well-formed cursors, only moves the cursor
    forward, and when it succeeds consumed at least [n] bytes and its value
    satisfies [Q]. *)
Definition sound {A} (n : Z) (m : ReaderM A) (Q : A → Prop) : Prop :=
  ∀ r, reader_ok r →
    returns (m r).1 ∧ advances r (m r).2 ∧
    ∀ a, (m r).1 = Ok a → Q a ∧ pos r + n <= pos (m r).2.

Lemma advances_refl r : reader_ok r → advances r r.
Proof. intros (?&?&?). repeat split; lia. Qed.

Lemma advances_trans r1 r2 r3 : advances r1 r2 → advances r2 r3 → advances r1 r3.
Proof.
  intros (Hb1&Hl1&?) (Hb2&Hl2&?). rewrite Hb1 in *.
  repeat split; first [congruence|lia].
Qed.

Lemma advances_ok r r' : reader_ok r → advances r r' → reader_ok r'.
Proof.
  intros (?&?&?) (Hb&?&?). unfold reader_ok. rewrite Hb. repeat split; try done; lia.
Qed.

Section Sound.
Context {A B : Type}.

(** Actions that do not move the cursor. *)
Lemma sound_stay (m : ReaderM A) (Q : A → Prop) :
  (∀ r, reader_ok r → ∃ x, m r = (x, r) ∧ returns x ∧ ∀ a, x = Ok a → Q a) → sound 0 m Q.
Proof.
  intros Hm r Hr. destruct (Hm r Hr) as (x&->&Hx&HQ). cbn.
  split; [done|]. split; [by apply advances_refl|]. intros a Ha. split; [auto|lia].
Qed.

Lemma sound_ret (a : A) (Q : A → Prop) : Q a → sound 0 (mret a) Q.
Proof. intros HQ. apply sound_stay. intros r _. eexists. by repeat split; intros ? [= <-]. Qed.

Lemma sound_lift (x : Res A) (Q : A → Prop) :
  returns x → (∀ a, x = Ok a → Q a) → sound 0 (lift x) Q.
Proof. intros Hx HQ. apply sound_stay. intros r _. by exists x. Qed.

Lemma sound_throw (e : ProtocolError) (Q : A → Prop) n : sound n (throw e) Q.
Proof. intros r Hr. cbn. split; [done|]. split; [by apply advances_refl|]. done. Qed.

Lemma sound_gets (f : TtcReader → A) : sound 0 (gets f) (λ _, True).
Proof. apply sound_stay. intros r _. by eexists. Qed.

Lemma sound_bind n1 n2 (m : ReaderM A) (f : A → ReaderM B) (P : A → Prop) (Q : B → Prop) :
  sound n1 m P → (∀ a, P a → sound n2 (f a) Q) → sound (n1 + n2) (m ≫= f) Q.
Proof.
  intros Hm Hf r Hr. destruct (Hm r Hr) as (Hret&Hadv&Hok). rewrite st_bindE.
  destruct (m r) as [[a|e| |] r1] eqn:E; cbn in Hret, Hadv, Hok |- *; try done.
  destruct (Hok a eq_refl) as [HP Hn].
  destruct (Hf a HP r1 (advances_ok _ _ Hr Hadv)) as (Hret2&Hadv2&Hok2).
  split; [done|]. split; [by eapply advances_trans|].
  intros b [HQ ?]%Hok2. split; [done|lia].
Qed.

Lemma sound_weaken n n' (m : ReaderM A) (P Q : A → Prop) :
  n' <= n → (∀ a, P a → Q a) → sound n m P → sound n' m Q.
Proof.
  intros Hn HPQ Hm r Hr. destruct (Hm r Hr) as (?&?&Hok).
  split; [done|]. split; [done|]. intros a [HP ?]%Hok. split; [auto|lia].
Qed.

Lemma sound_seq n n1 (m : ReaderM A) (f : A → ReaderM B) (P : A → Prop) (Q : B → Prop) :
  sound n1 m P → (∀ a, P a → sound (n - n1) (f a) Q) → sound n (m ≫= f) Q.
Proof.
  intros Hm Hf. replace n with (n1 + (n - n1)) by lia. by eapply sound_bind.
Qed.

Lemma sound_done n (a : A) (Q : A → Prop) : n <= 0 → Q a → sound n (mret a) Q.
Proof. intros. eapply sound_weaken; [done| |by apply sound_ret]. done. Qed.
End Sound.

Create HintDb sound.

(** Run through a monadic body: the hint database supplies the specification
    of the action at its head. *)
Ltac sound_next :=
  lazymatch goal with
  | |- sound _ (_ ≫= _) _ => eapply sound_seq; [solve [eauto with sound]|cbn beta; intros ? ?]
  | |- sound _ (throw _) _ => apply sound_throw
  | |- sound _ (mret _) _ => apply sound_done; [try lia|try done]
  | |- sound _ (if ?b then _ else _) _ => let E := fresh "E" in destruct b eqn:E
  | |- sound _ (match ?b with _ => _ end) _ => destruct b
  end.
Ltac sound_run := repeat sound_next.

Lemma peek_u8_sound : sound 0 peek_u8 is_u8.
Proof.
  apply sound_stay. intros r Hr. eexists. split; [done|].
  destruct (slice_nth _ _) eqn:E; cbn; [|done]. split; [done|].
  intros a [= ->]. by eapply slice_nth_ok; [apply Hr|].
Qed.

Lemma read_u8_run r b :
  reader_ok r → slice_nth (r_bytes r) (pos r) = Some b →
  read_u8 r = (Ok b, set_pos (pos r + 1) r).
Proof.
  intros (?&?&?) Hb. unfold read_u8, peek_u8. st_run. rewrite Hb. st_run.
  rewrite arith_in by (unfold USIZE_MAX, U64_MAX, I64_MAX in *; lia). by st_run.
Qed.

Lemma read_u8_missing r :
  slice_nth (r_bytes r) (pos r) = None → read_u8 r = (Err (TtcDecode "missing u8"), r).
Proof. intros Hb. unfold read_u8, peek_u8. st_run. by rewrite Hb. Qed.

Lemma read_u8_sound : sound 1 read_u8 is_u8.
Proof.
  intros r Hr. destruct (slice_nth (r_bytes r) (pos r)) as [b|] eqn:E.
  - rewrite (read_u8_run r b) by done. cbn. apply slice_nth_some in E as E'.
    destruct Hr as (Hb&?&?). split; [done|]. split; [repeat split; cbn; lia|].
    intros a [= <-]. split; [by eapply slice_nth_ok|lia].
  - rewrite read_u8_missing by done. cbn. split; [done|]. split; [by apply advances_refl|done].
Qed.

Lemma read_raw_sound len : 0 <= len → sound len (read_raw len) (λ b, bytes_ok b ∧ Zlen b = len).
Proof.
  intros Hlen r Hr. unfold read_raw. st_run.
  pose proof (check_returns "response_bytes" len (max_response_bytes (limits r))) as Hc.
  unfold check_response_bytes. destruct (check _ _ _) as [[]|e| |]; try done; cbn;
    [|split; [done|]; split; [by apply advances_refl|done]].
  destruct (try_range _ _ _) as [e|] eqn:Et; st_run;
    [|cbn; split; [done|]; split; [by apply advances_refl|done]].
  apply try_range_some in Et as [-> ?].
  destruct (slice_get _ _ _) as [s|] eqn:Es; st_run;
    [|cbn; split; [done|]; split; [by apply advances_refl|done]].
  pose proof (slice_get_some _ _ _ _ Es) as (?&?&_&?). destruct Hr as (Hb&?&?).
  cbn. split; [done|]. split; [repeat split; cbn; lia|].
  intros a [= <-]. split; [split; [by eapply slice_get_ok|lia]|cbn; lia].
Qed.

Lemma to_array_sound n b e (Q : bytes → Prop) :
  Q b → sound 0 (lift (to_array n b e)) (λ a, Q a ∧ Zlen a = n).
Proof.
  intros HQ. unfold to_array. destruct (Z.eqb_spec (Zlen b) n).
  - apply sound_lift; [done|]. by intros a [= <-].
  - apply sound_lift; done.
Qed.

Lemma check_sound l observed maximum :
  sound 0 (lift (check l observed maximum)) (λ _, observed <= maximum).
Proof. apply sound_lift; [apply check_returns|]. intros [] H. by apply check_inv in H. Qed.

Lemma ok_or_range_sound lo hi z e :
  sound 0 (lift (ok_or (try_range lo hi z) e)) (λ a, a = z ∧ lo <= z <= hi).
Proof.
  apply sound_lift; [by destruct (try_range _ _ _)|].
  destruct (try_range _ _ _) eqn:E; [|discriminate]. intros a [= <-].
  by apply try_range_some in E.
Qed.

#[export] Hint Resolve read_u8_sound sound_gets check_sound ok_or_range_sound : sound.
#[export] Hint Unfold check_response_bytes check_lob_chunks : sound.
#[export] Hint Extern 2 (sound _ (read_raw _) _) => apply read_raw_sound; lia : sound.

Lemma be_array_range n b :
  bytes_ok b → Zlen b = n → 0 <= from_be_bytes b < 256 ^ n.
Proof. intros Hb <-. by apply from_be_bytes_range. Qed.

Lemma read_u16be_sound : sound 2 read_u16be (λ v, 0 <= v <= U16_MAX).
Proof.
  unfold read_u16be. sound_next. destruct H as [Hb Hl].
  eapply sound_seq; [by apply (to_array_sound _ _ _ bytes_ok)|]. intros b [Hb' Hl'].
  apply sound_done; [lia|]. pose proof (be_array_range 2 b Hb' Hl'). unfold U16_MAX. lia.
Qed.

Lemma read_u32be_sound : sound 4 read_u32be (λ v, 0 <= v <= U32_MAX).
Proof.
  unfold read_u32be. sound_next. destruct H as [Hb Hl].
  eapply sound_seq; [by apply (to_array_sound _ _ _ bytes_ok)|]. intros b [Hb' Hl'].
  apply sound_done; [lia|]. pose proof (be_array_range 4 b Hb' Hl'). unfold U32_MAX. lia.
Qed.

Lemma read_u16le_sound : sound 2 read_u16le (λ v, 0 <= v <= U16_MAX).
Proof.
  unfold read_u16le. sound_next. destruct H as [Hb Hl].
  eapply sound_seq; [by apply (to_array_sound _ _ _ bytes_ok)|]. intros b [Hb' Hl'].
  apply sound_done; [lia|]. pose proof (from_le_bytes_range b Hb') as Hr.
  fold (Zlen b) in Hr. rewrite Hl' in Hr. unfold U16_MAX. lia.
Qed.
#[export] Hint Resolve read_u16be_sound read_u32be_sound read_u16le_sound : sound.

Lemma read_i8_sound : sound 1 read_i8 (λ v, -128 <= v <= 127).
Proof.
  unfold read_i8. sound_run. pose proof (as_i_range 8 a). lia.
Qed.

Lemma read_ub2_sound : sound 1 read_ub2 (λ v, 0 <= v <= U16_MAX).
Proof.
  unfold read_ub2. sound_run.
  - eapply sound_weaken; [| |apply read_u8_sound]; [lia|]. unfold is_u8, U16_MAX. lia.
  - eapply sound_weaken; [| |apply read_u16be_sound]; [lia|]. done.
Qed.

(** The accumulated value of at most [n] bytes, with the shift width [w]. *)
Lemma be_accumulate_range w n b :
  bytes_ok b → Zlen b <= n → 256 ^ n <= 2 ^ w → 0 <= be_accumulate w b < 256 ^ n.
Proof.
  intros Hb Hl Hw. pose proof (Zlen_nonneg b).
  assert (256 ^ Zlen b <= 256 ^ n) by (apply Z.pow_le_mono_r; lia).
  rewrite be_accumulate_spec by (done || lia).
  pose proof (from_be_bytes_range b Hb). unfold Zlen in *. lia.
Qed.

Lemma read_ub4_sound : sound 1 read_ub4 (λ v, 0 <= v <= U32_MAX).
Proof.
  unfold read_ub4. sound_next. sound_next; [sound_run; unfold U32_MAX; lia|].
  sound_next; [sound_run|]. unfold is_u8 in *. sound_run.
  destruct H0 as [Hb Hl]. pose proof (be_accumulate_range 32 4 a0 Hb).
  change (256 ^ 4) with (2 ^ 32) in *. unfold U32_MAX. lia.
Qed.

Lemma read_ub8_sound : sound 1 read_ub8 (λ v, 0 <= v <= U64_MAX).
Proof.
  unfold read_ub8. sound_next. sound_next; [sound_run; unfold U64_MAX; lia|].
  sound_next; [sound_run|]. unfold is_u8 in *. sound_run.
  destruct H0 as [Hb Hl]. pose proof (be_accumulate_range 64 8 a0 Hb).
  change (256 ^ 8) with (2 ^ 64) in *. unfold U64_MAX. lia.
Qed.

Lemma land_127_nonneg b : 0 <= Z.land b 127.
Proof. apply Z.land_nonneg. lia. Qed.

Lemma read_sb4_sound : sound 1 read_sb4 (λ v, I32_MIN <= v <= I32_MAX).
Proof.
  unfold read_sb4, I32_MIN, I32_MAX. sound_next. pose proof (land_127_nonneg a).
  sound_run; try lia.
  unfold wrapping_neg. pose proof (as_i_range 32 (be_accumulate 32 a0)).
  pose proof (as_i_range 32 (- as_i 32 (be_accumulate 32 a0))). case_match; lia.
Qed.

Lemma read_sb8_sound : sound 1 read_sb8 (λ v, I64_MIN <= v <= I64_MAX).
Proof.
  unfold read_sb8, I64_MIN, I64_MAX. sound_next. pose proof (land_127_nonneg a).
  sound_run; try lia.
  unfold wrapping_neg. pose proof (as_i_range 64 (be_accumulate 64 a0)).
  pose proof (as_i_range 64 (- as_i 64 (be_accumulate 64 a0))). case_match; lia.
Qed.
#[export] Hint Resolve read_ub2_sound read_ub4_sound read_ub8_sound read_sb4_sound
  read_sb8_sound read_i8_sound : sound.

(** ** The chunk loops

    Their fuel is tied to the cursor, so they are specified at one cursor. *)
Definition sound_at {A} (r : TtcReader) (n : Z) (m : ReaderM A) (Q : A → Prop) : Prop :=
  returns (m r).1 ∧ advances r (m r).2 ∧
  ∀ a, (m r).1 = Ok a → Q a ∧ pos r + n <= pos (m r).2.

Lemma sound_at_seq {A B} r n n1 (m : ReaderM A) (f : A → ReaderM B) P (Q : B → Prop) :
  sound_at r n1 m P →
  (∀ a r', advances r r' → pos r + n1 <= pos r' → P a → sound_at r' (n - n1) (f a) Q) →
  sound_at r n (m ≫= f) Q.
Proof.
  intros (Hret&Hadv&Hok) Hf. unfold sound_at. rewrite st_bindE.
  destruct (m r) as [[a|e| |] r1]; cbn in Hret, Hadv, Hok |- *; try done.
  destruct (Hok a eq_refl) as [HP Hn].
  destruct (Hf a r1 Hadv Hn HP) as (?&?&Hok2).
  split; [done|]. split; [by eapply advances_trans|].
  intros b [HQ ?]%Hok2. split; [done|lia].
Qed.

Lemma chunk_guards_inv l n t c :
  returns (chunk_guards l n t c) ∧
  ∀ g, chunk_guards l n t c = Ok g →
    g = (n + 1, c, t + c) ∧ n + 1 <= max_lob_chunks l ∧ t + c <= max_response_bytes l ∧
    0 <= c <= USIZE_MAX ∧ 0 <= n + 1 <= USIZE_MAX ∧ 0 <= t + c <= USIZE_MAX.
Proof.
  unfold chunk_guards, check_lob_chunks, check_response_bytes, check.
  destruct (try_range 0 USIZE_MAX (n + 1)) eqn:E1; st_run; [|done].
  apply try_range_some in E1 as [-> ?].
  destruct (Z.leb_spec (n + 1) (max_lob_chunks l)); st_run; [|done].
  destruct (try_range 0 USIZE_MAX c) eqn:E2; st_run; [|done].
  apply try_range_some in E2 as [-> ?].
  destruct (try_range 0 USIZE_MAX (t + c)) eqn:E3; st_run; [|done].
  apply try_range_some in E3 as [-> ?].
  destruct (Z.leb_spec (t + c) (max_response_bytes l)); st_run; [|done].
  split; [done|]. by intros g [= <-].
Qed.

Lemma sound_at_gets {A B} r n (f : TtcReader → A) (k : A → ReaderM B) Q :
  sound_at r n (k (f r)) Q → sound_at r n (gets f ≫= k) Q.
Proof. done. Qed.

Lemma sound_at_lift {A B} r n (x : Res A) (k : A → ReaderM B) Q :
  reader_ok r → returns x → (∀ a, x = Ok a → sound_at r n (k a) Q) →
  sound_at r n (lift x ≫= k) Q.
Proof.
  intros Hr Hx Hk. unfold sound_at. st_run. destruct x as [a|e| |]; try done; [by apply Hk|].
  cbn. split; [done|]. split; [by apply advances_refl|done].
Qed.

Lemma remaining_eq r : reader_ok r → remaining r = Zlen (r_bytes r) - pos r.
Proof. intros (?&?&?). unfold remaining, sat_sub. lia. Qed.

(** The bound every chunked value obeys: the bytes gathered so far plus what
    the accepted chunks add, never above [max_response_bytes]. *)
Lemma read_chunks_sound fuel : ∀ r out n t,
  reader_ok r → remaining r < Z.of_nat fuel → bytes_ok out → Zlen out = t →
  t <= max_response_bytes (limits r) →
  sound_at r 1 (read_chunks fuel out n t)
    (λ b, bytes_ok b ∧ Zlen b <= max_response_bytes (limits r)).
Proof.
  induction fuel as [|fuel IH]; intros r out n t Hr Hfuel Hout Ht Hmax.
  { unfold remaining, sat_sub in Hfuel. lia. }
  cbn [read_chunks]. eapply sound_at_seq; [by apply read_ub4_sound|].
  intros c r1 Hadv1 Hp1 Hc. pose proof (advances_ok _ _ Hr Hadv1) as Hr1.
  destruct (Z.eqb_spec c 0).
  { apply sound_done; [lia| |done]. split; [done|lia]. }
  apply sound_at_gets. destruct (chunk_guards_inv (limits r1) n t c) as [Hg1 Hg2].
  apply sound_at_lift; [done..|]. intros g (->&?&?&?&?&?)%Hg2.
  eapply sound_at_seq; [apply read_raw_sound; [lia|done]|].
  intros b r2 Hadv2 Hp2 [Hb Hbl]. pose proof (advances_ok _ _ Hr1 Hadv2) as Hr2.
  pose proof (remaining_eq r Hr). pose proof (remaining_eq r2 Hr2).
  destruct Hadv1 as (Hb1&Hl1&?), Hadv2 as (Hb2&Hl2&?).
  destruct (IH r2 (out ++ b) (n + 1) (t + c)) as (?&?&Hok); try done.
  - rewrite Hb2, Hb1 in *. lia.
  - by apply Forall_app.
  - rewrite Zlen_app. lia.
  - by rewrite Hl2.
  - split; [done|]. split; [done|]. intros a [[? ?] ?]%Hok.
    rewrite Hl2, Hl1 in *. split; [done|lia].
Qed.

Lemma loop_fuel_enough r : reader_ok r → remaining r < Z.of_nat (loop_fuel r).
Proof. intros Hr. rewrite remaining_eq by done. destruct Hr. unfold loop_fuel, Zlen. lia. Qed.

Lemma sound_from_at {A} n (m : ReaderM A) Q :
  (∀ r, reader_ok r → sound_at r n m Q) → sound n m Q.
Proof. done. Qed.

Lemma sound_to_at {A} r n (m : ReaderM A) Q : reader_ok r → sound n m Q → sound_at r n m Q.
Proof. intros Hr Hm. by apply Hm. Qed.

Lemma read_bytes_sound_at r :
  reader_ok r → 0 <= max_response_bytes (limits r) →
  sound_at r 1 read_bytes
    (λ o, ∀ b, o = Some b → bytes_ok b ∧ Zlen b <= max_response_bytes (limits r)).
Proof.
  intros Hr Hm. unfold read_bytes. eapply sound_at_seq; [by apply read_u8_sound|].
  intros len r1 Hadv Hp Hlen. pose proof (advances_ok _ _ Hr Hadv) as Hr1.
  assert (limits r1 = limits r) as Hl by apply Hadv.
  destruct (len =? TNS_LONG_LENGTH_INDICATOR).
  - apply sound_at_gets.
    eapply sound_at_seq; [apply read_chunks_sound;
      [done|by apply loop_fuel_enough|constructor|done|by rewrite Hl]|].
    intros b r2 Hadv2 ? [? ?]. apply sound_done; [lia| |by eapply advances_ok].
    intros ? [= <-]. by rewrite <- Hl.
  - destruct (_ || _).
    { by apply sound_done. }
    apply sound_at_gets. apply sound_at_lift; [done|apply check_returns|].
    intros [] Hc%check_inv. unfold is_u8 in Hlen.
    eapply sound_at_seq; [apply read_raw_sound; [lia|done]|].
    intros b r2 Hadv2 ? [? ?]. apply sound_done; [lia| |by eapply advances_ok].
    intros ? [= <-]. split; [done|]. rewrite <- Hl. lia.
Qed.

(** ** The companions of [read_bytes] *)

Definition bb_value (b : BorrowedBytes) : option bytes :=
  match b with BB_Null => None | BB_Slice s => Some s | BB_Chunked s => Some s end.

Lemma skip_chunks_eq fuel : ∀ out n t r,
  skip_chunks fuel n t r =
    ((λ _, ()) <$> (read_chunks fuel out n t r).1, (read_chunks fuel out n t r).2).
Proof.
  induction fuel as [|fuel IH]; intros out n t r; [done|].
  cbn [skip_chunks read_chunks]. st_run.
  destruct (read_ub4 r) as [[c|e| |] r1]; try done.
  destruct (c =? 0); [done|]. st_run.
  destruct (chunk_guards (limits r1) n t c) as [[[n' c'] t']|e| |]; try done.
  unfold skip. st_run.
  destruct (read_raw c' r1) as [[b|e| |] r2]; [apply IH|done..].
Qed.

(** The zero-copy read and the skip are interchangeable with [read_bytes] on
    every input: same outcome, same error, same final cursor. *)
Theorem read_bytes_companions r :
  read_bytes r = (bb_value <$> (read_bytes_borrowed r).1, (read_bytes_borrowed r).2) ∧
  skip_bytes_field r = ((λ _, ()) <$> (read_bytes r).1, (read_bytes r).2).
Proof.
  unfold read_bytes, read_bytes_borrowed, skip_bytes_field. st_run.
  destruct (read_u8 r) as [[len|e| |] r1]; try done.
  destruct (len =? TNS_LONG_LENGTH_INDICATOR).
  - st_run. change borrow_chunks with read_chunks. rewrite (skip_chunks_eq _ []).
    destruct (read_chunks _ _ _ _ _) as [[b|e| |] r2]; done.
  - destruct (_ || _); [done|]. unfold skip. st_run.
    destruct (check_response_bytes _ _) as [[]|e| |]; try done. st_run.
    destruct (read_raw len r1) as [[b|e| |] r2]; done.
Qed.

Lemma fmap_returns {A B} (f : A → B) (x : Res A) : returns (f <$> x) ↔ returns x.
Proof. by destruct x. Qed.

Lemma fmap_ok {A B} (f : A → B) (x : Res A) b : f <$> x = Ok b → ∃ a, x = Ok a ∧ b = f a.
Proof. destruct x; cbn; intros [= <-]; eauto. Qed.

Lemma companion_sound_at {A B} r n (m : ReaderM A) (m' : ReaderM B) (f : A → B) P (Q : B → Prop) :
  m' r = (f <$> (m r).1, (m r).2) → (∀ a, P a → Q (f a)) →
  sound_at r n m P → sound_at r n m' Q.
Proof.
  intros Heq HPQ (?&?&Hok). unfold sound_at. rewrite Heq. cbn [fst snd].
  split; [by apply fmap_returns|]. split; [done|].
  intros b (a&Ha&->)%fmap_ok. apply Hok in Ha as [? ?]. auto.
Qed.

Lemma skip_bytes_field_sound_at r :
  reader_ok r → 0 <= max_response_bytes (limits r) →
  sound_at r 1 skip_bytes_field (λ _, True).
Proof.
  intros Hr Hm. eapply (companion_sound_at _ _ read_bytes); [apply read_bytes_companions| |].
  2: by apply read_bytes_sound_at. done.
Qed.

Lemma read_bytes_borrowed_sound_at r :
  reader_ok r → 0 <= max_response_bytes (limits r) →
  sound_at r 1 read_bytes_borrowed
    (λ v, ∀ b, bb_value v = Some b → bytes_ok b ∧ Zlen b <= max_response_bytes (limits r)).
Proof.
  intros Hr Hm. destruct (read_bytes_sound_at r Hr Hm) as (Hret&Hadv&Hok).
  destruct (read_bytes_companions r) as [Heq _]. rewrite Heq in Hret, Hadv, Hok.
  cbn [fst snd] in *. split; [by eapply fmap_returns|]. split; [done|].
  intros a Ha. rewrite Ha in Hok. by destruct (Hok _ eq_refl).
Qed.

(** A raw read of the declared length from a saved position. *)
Lemma rewind_sound r r' len :
  reader_ok r → advances r r' → 0 <= len →
  let run := (b ← read_raw len; mret (Some b) : ReaderM _) (set_pos (pos r) r') in
  returns run.1 ∧ advances r run.2 ∧
  ∀ o, run.1 = Ok o → (∃ b, o = Some b ∧ bytes_ok b ∧ Zlen b = len) ∧ pos r + len <= pos run.2.
Proof.
  intros Hr (Hb&Hl&?) Hlen.
  replace (set_pos (pos r) r') with r by (unfold set_pos; rewrite Hb, Hl; by destruct r).
  assert (sound len (b ← read_raw len; mret (Some b))
    (λ o, ∃ b, o = Some b ∧ bytes_ok b ∧ Zlen b = len)) as Hs.
  { eapply sound_seq; [by apply read_raw_sound|]. intros b Hb'. apply sound_done; [lia|eauto]. }
  apply (Hs r Hr).
Qed.

Lemma read_nested_or_raw_sound_at r len :
  reader_ok r → 0 <= max_response_bytes (limits r) → 0 <= len →
  sound_at r 0 (read_nested_or_raw len) (λ o, ∃ b, o = Some b ∧ bytes_ok b ∧ Zlen b = len).
Proof.
  intros Hr Hm Hlen. destruct (read_bytes_sound_at r Hr Hm) as (Hret&Hadv&Hok).
  unfold sound_at, read_nested_or_raw.
  destruct (read_bytes r) as [[[b|]|e| |] r'] eqn:E; cbn [fst snd] in Hret, Hadv, Hok; try done.
  1: destruct (Z.eqb_spec (Zlen b) len) as [Hb|];
    [destruct (Hok _ eq_refl) as [Hb' ?]; specialize (Hb' b eq_refl) as [? _]; cbn;
     split; [done|]; split; [done|]; intros a [= <-]; split; [eauto|lia]|].
  all: destruct (rewind_sound r r' len Hr Hadv Hlen) as (?&?&Hok2);
    split; [done|]; split; [done|]; intros o [? ?]%Hok2; split; [done|lia].
Qed.

Lemma read_bytes_with_length_sound_at r :
  reader_ok r → 0 <= max_response_bytes (limits r) →
  sound_at r 1 read_bytes_with_length
    (λ o, ∀ b, o = Some b → bytes_ok b ∧ 0 < Zlen b <= max_response_bytes (limits r)).
Proof.
  intros Hr Hm. unfold read_bytes_with_length.
  eapply sound_at_seq; [by apply read_ub4_sound|].
  intros n r1 Hadv Hp Hn. pose proof (advances_ok _ _ Hr Hadv) as Hr1.
  assert (limits r1 = limits r) as Hl by apply Hadv.
  apply sound_at_lift; [done|by destruct (try_range _ _ _)|].
  intros len Hlen. destruct (try_range _ _ _) eqn:Et; [|discriminate].
  apply try_range_some in Et as [-> ?]. injection Hlen as <-.
  apply sound_at_gets. apply sound_at_lift; [done|apply check_returns|].
  intros [] Hc%check_inv. destruct (Z.eqb_spec n 0); [by apply sound_done|].
  destruct (read_nested_or_raw_sound_at r1 n) as (?&?&Hok); [done|by rewrite Hl|lia|].
  split; [done|]. split; [done|]. intros o [(b&->&?&?) ?]%Hok. split; [|lia].
  intros b' [= <-]. split; [done|]. rewrite <- Hl. lia.
Qed.

Lemma from_utf8_step r n o :
  reader_ok r → n <= 0 →
  sound_at r n (match o with
                | None => mret None
                | Some b => s ← lift (from_utf8 b); mret (Some s)
                end)
    (λ o', o' = o ∧ ∀ b, o' = Some b → utf8_valid b = true).
Proof.
  intros Hr Hn. destruct o as [b|]; [|by apply sound_done].
  unfold from_utf8. apply sound_at_lift; [done|by case_match|].
  intros s Hs. destruct (utf8_valid b) eqn:E; [|discriminate]. injection Hs as <-.
  apply sound_done; [done| |done]. split; [done|]. by intros ? [= <-].
Qed.

Lemma read_string_with_length_sound_at r :
  reader_ok r → 0 <= max_response_bytes (limits r) →
  sound_at r 1 read_string_with_length
    (λ o, ∀ b, o = Some b → utf8_valid b = true ∧ Zlen b <= max_response_bytes (limits r)).
Proof.
  intros Hr Hm. unfold read_string_with_length.
  eapply sound_at_seq; [by apply read_bytes_with_length_sound_at|].
  intros o r1 Hadv ? Ho.
  destruct (from_utf8_step r1 (1 - 1) o) as (?&?&Hok); [by eapply advances_ok|lia|].
  split; [done|]. split; [done|]. intros a [[-> Hu] ?]%Hok. split; [|done].
  intros b Hb. specialize (Ho b Hb). specialize (Hu b Hb). destruct Ho as [_ Ho]. split; [done|]. lia.
Qed.

Lemma read_string_sound_at r :
  reader_ok r → 0 <= max_response_bytes (limits r) →
  sound_at r 1 read_string
    (λ o, ∀ b, o = Some b → utf8_valid b = true ∧ Zlen b <= max_response_bytes (limits r)).
Proof.
  intros Hr Hm. unfold read_string.
  eapply sound_at_seq; [by apply read_bytes_sound_at|].
  intros o r1 Hadv ? Ho.
  destruct (from_utf8_step r1 (1 - 1) o) as (?&?&Hok); [by eapply advances_ok|lia|].
  split; [done|]. split; [done|]. intros a [[-> Hu] ?]%Hok. split; [|done].
  intros b Hb. specialize (Ho b Hb). specialize (Hu b Hb). destruct Ho as [_ Ho]. split; [done|]. lia.
Qed.

Lemma skip_sound len : 0 <= len → sound len (skip len) (λ _, True).
Proof.
  intros Hlen. unfold skip. eapply sound_seq; [by apply read_raw_sound|]. intros b _. apply sound_done; [lia|done].
Qed.

(** C18: No reading method of [TtcReader] panics, loops or leaves the buffer, whatever the
    bytes; each moves forward by at least the bytes it must take, and what it returns is in
    the range of its type.  The length-prefixed ones, borrowed or owned, bytes or text, return
    at most [max_response_bytes] bytes, and text is valid UTF-8. *)
Theorem reader_total r :
  reader_ok r → 0 <= max_response_bytes (limits r) →
  sound_at r 0 peek_u8 is_u8 ∧
  sound_at r 1 read_u8 is_u8 ∧
  sound_at r 1 read_i8 (λ v, -128 <= v <= 127) ∧
  sound_at r 2 read_u16be (λ v, 0 <= v <= U16_MAX) ∧
  sound_at r 2 read_u16le (λ v, 0 <= v <= U16_MAX) ∧
  sound_at r 4 read_u32be (λ v, 0 <= v <= U32_MAX) ∧
  (∀ n, 0 <= n → sound_at r n (read_raw n) (λ b, bytes_ok b ∧ Zlen b = n)) ∧
  (∀ n, 0 <= n → sound_at r n (skip n) (λ _, True)) ∧
  sound_at r 1 read_ub2 (λ v, 0 <= v <= U16_MAX) ∧
  sound_at r 1 read_ub4 (λ v, 0 <= v <= U32_MAX) ∧
  sound_at r 1 read_ub8 (λ v, 0 <= v <= U64_MAX) ∧
  sound_at r 1 read_sb4 (λ v, I32_MIN <= v <= I32_MAX) ∧
  sound_at r 1 read_sb8 (λ v, I64_MIN <= v <= I64_MAX) ∧
  sound_at r 1 read_bytes
    (λ o, ∀ b, o = Some b → bytes_ok b ∧ Zlen b <= max_response_bytes (limits r)) ∧
  sound_at r 1 skip_bytes_field (λ _, True) ∧
  sound_at r 1 read_bytes_borrowed
    (λ v, ∀ b, bb_value v = Some b → bytes_ok b ∧ Zlen b <= max_response_bytes (limits r)) ∧
  sound_at r 1 read_bytes_with_length
    (λ o, ∀ b, o = Some b → bytes_ok b ∧ 0 < Zlen b <= max_response_bytes (limits r)) ∧
  sound_at r 1 read_string
    (λ o, ∀ b, o = Some b → utf8_valid b = true ∧ Zlen b <= max_response_bytes (limits r)) ∧
  sound_at r 1 read_string_with_length
    (λ o, ∀ b, o = Some b → utf8_valid b = true ∧ Zlen b <= max_response_bytes (limits r)).
Proof.
  intros Hr Hm. do 18 (split; [solve
    [ apply sound_to_at; [done|eauto using peek_u8_sound, read_i8_sound with sound]
    | intros n Hn; apply sound_to_at; [done|by apply read_raw_sound || apply skip_sound]
    | by apply read_bytes_sound_at | by apply skip_bytes_field_sound_at
    | by apply read_bytes_borrowed_sound_at | by apply read_bytes_with_length_sound_at
    | by apply read_string_sound_at ]|]).
  by apply read_string_with_length_sound_at.
Qed.

(** A count that overstates a six-byte buffer. *)
Lemma bounded_allocation_witness :
  remaining_of (reader_new [1; 2; 3; 4; 5; 6]) = 6 ∧
  with_capacity_bounded (reader_new [1; 2; 3; 4; 5; 6]) 4000000000 4 * Z.max 4 1 <= 6.
Proof.
  split; [reflexivity|].
  destruct (bounded_allocation (reader_new [1; 2; 3; 4; 5; 6]) 4000000000 4) as (H & _);
    [lia|lia|vm_compute; split; discriminate|]. exact H.
Defined.

(** A field in chunks whose second chunk is cut off: every method returns. *)
Lemma reader_total_witness :
  let r := reader_new [254; 1; 2; 65; 66; 1; 9; 67] in
  reader_ok r ∧ is_ok (read_bytes r).1 = false ∧ returns (read_bytes r).1 ∧ advances r (read_bytes r).2 ∧
  returns (read_bytes_borrowed r).1 ∧ returns (skip_bytes_field r).1 ∧ returns (read_string r).1 ∧ returns (read_u32be r).1.
Proof.
  assert (reader_ok (reader_new [254; 1; 2; 65; 66; 1; 9; 67])) as H
    by (apply (bool_decide_unpack _); vm_compute; reflexivity).
  cbv zeta. split; [exact H|]. split; [vm_compute; reflexivity|].
  destruct (reader_total (reader_new [254; 1; 2; 65; 66; 1; 9; 67]) H) as
    (_ & _ & _ & _ & _ & H32 & _ & _ & _ & _ & _ & _ & _ & Hb & Hs & Hbb & _ & Hstr & _); [vm_compute; discriminate|].
  split_and!; [apply Hb|apply Hb|apply Hbb|apply Hs|apply Hstr|apply H32].
Defined.
