(* ===== verification/Wire.v ===== *)
(** * Writer/reader round trips and TNS packets ([wire.rs], [packet/mod.rs])

    What [TtcWriter] appends, [TtcReader] reads back, at the position where it
    was written and whatever follows; and the TNS packet framing. *)

From S2P Require Import Prelude.
From S2P Require Import Protocol.
From S2P Require Import Limits.
From S2P Require Import Writer.
From S2P Require Import Reader.
From S2P Require Import ReaderSafety.

(** The cursor between [pre], already read, and [rest]. *)
Definition rd (lim : ProtocolLimits) (pre rest : bytes) : TtcReader :=
  mkTtcReader (pre ++ rest) (Zlen pre) lim.

(** [parses lim m enc v]: [m] reads [enc] as [v] wherever it stands in a buffer. *)
Definition parses {A} (lim : ProtocolLimits) (m : ReaderM A) (enc : bytes) (v : A) : Prop :=
  ∀ pre rest, Zlen (pre ++ enc ++ rest) <= I64_MAX →
    m (rd lim pre (enc ++ rest)) = (Ok v, rd lim (pre ++ enc) rest).

Lemma rd_set_pos lim pre enc rest :
  set_pos (Zlen pre + Zlen enc) (rd lim pre (enc ++ rest)) = rd lim (pre ++ enc) rest.
Proof. unfold set_pos, rd. cbn. by rewrite <- app_assoc, Zlen_app. Qed.

Section Parses.
Context (lim : ProtocolLimits).

Lemma parses_ret {A} (v : A) : parses lim (mret v) [] v.
Proof. intros pre rest _. cbn. by rewrite app_nil_r. Qed.

Lemma parses_bind {A B} (m : ReaderM A) (f : A → ReaderM B) e1 e2 a b :
  parses lim m e1 a → parses lim (f a) e2 b → parses lim (m ≫= f) (e1 ++ e2) b.
Proof.
  intros Hm Hf pre rest Hlen. rewrite <- !app_assoc in *. st_run. rewrite Hm by done.
  rewrite Hf by (by rewrite <- app_assoc). by rewrite <- app_assoc.
Qed.

(** The action consumes nothing. *)
Lemma parses_bind_nil {A B} (m : ReaderM A) (f : A → ReaderM B) e a b :
  parses lim m [] a → parses lim (f a) e b → parses lim (m ≫= f) e b.
Proof. intros Hm Hf. by apply (parses_bind m f [] e a b). Qed.

Lemma parses_lift {A} (x : Res A) (a : A) : x = Ok a → parses lim (lift x) [] a.
Proof. intros -> pre rest _. cbn. by rewrite app_nil_r. Qed.

Lemma parses_limits : parses lim (gets limits) [] lim.
Proof. intros pre rest _. cbn. by rewrite app_nil_r. Qed.

Lemma read_u8_parses b : parses lim read_u8 [b] b.
Proof.
  intros pre rest Hlen. rewrite !Zlen_app, Zlen_cons, Zlen_nil in Hlen.
  pose proof (Zlen_nonneg pre). pose proof (Zlen_nonneg rest).
  unfold read_u8, peek_u8. st_run. unfold rd at 1 2. cbn [r_bytes pos app].
  rewrite slice_nth_app. st_run. cbn [pos rd].
  rewrite arith_in by (unfold USIZE_MAX, U64_MAX, I64_MAX in *; lia). st_run.
  by rewrite <- (rd_set_pos lim pre [b] rest).
Qed.

Lemma read_raw_parses b :
  Zlen b <= max_response_bytes lim → parses lim (read_raw (Zlen b)) b b.
Proof.
  intros Hmax pre rest Hlen. rewrite !Zlen_app in Hlen.
  pose proof (Zlen_nonneg pre). pose proof (Zlen_nonneg rest). pose proof (Zlen_nonneg b).
  unfold read_raw. st_run. unfold check_response_bytes. cbn [limits rd].
  rewrite check_ok by done. st_run. cbn [pos rd].
  rewrite try_range_in by (unfold USIZE_MAX, U64_MAX, I64_MAX in *; lia). st_run.
  cbn [r_bytes rd]. rewrite slice_get_app. st_run.
  by rewrite <- (rd_set_pos lim pre b rest).
Qed.

Lemma read_raw_parses' n b :
  n = Zlen b → Zlen b <= max_response_bytes lim → parses lim (read_raw n) b b.
Proof. intros ->. apply read_raw_parses. Qed.

Context (Hlim : 8 <= max_response_bytes lim).

(** The [n] big-endian bytes of [v], accumulated and post-processed by [g]. *)
Lemma be_field_parses' (w : Z) (n : nat) v (g : Z → Z) :
  (n <= 8)%nat → 8 * Z.of_nat n <= w → 0 <= v < 256 ^ Z.of_nat n →
  parses lim (b ← read_raw (Z.of_nat n); mret (g (be_accumulate w b))) (to_be_bytes n v) (g v).
Proof.
  intros Hn Hw Hv. rewrite <- (app_nil_r (to_be_bytes n v)).
  eapply parses_bind; [apply read_raw_parses'; autorewrite with thin; lia|].
  rewrite be_accumulate_spec; autorewrite with thin.
  - rewrite from_to_be_bytes by done. apply parses_ret.
  - apply to_be_bytes_ok.
  - change 256 with (2 ^ 8). rewrite <- Z.pow_mul_r by lia. apply Z.pow_le_mono_r; lia.
Qed.

Lemma be_field_parses (w : Z) (n : nat) v :
  (n <= 8)%nat → 8 * Z.of_nat n <= w → 0 <= v < 256 ^ Z.of_nat n →
  parses lim (b ← read_raw (Z.of_nat n); mret (be_accumulate w b)) (to_be_bytes n v) v.
Proof. apply (be_field_parses' w n v id). Qed.

Lemma read_ub2_parses v : 0 <= v <= U16_MAX → parses lim read_ub2 (ub2_bytes v) v.
Proof.
  unfold read_ub2, ub2_bytes, U16_MAX, U8_MAX. intros Hv. int_cases.
  - subst. apply (parses_bind _ _ [0] []  0 0); [apply read_u8_parses|apply parses_ret].
  - apply (parses_bind _ _ [1] [v] 1 v); apply read_u8_parses.
  - apply (parses_bind _ _ [2] (to_be_bytes 2 v) 2 v); [apply read_u8_parses|].
    cbn [Z.eqb]. unfold read_u16be. rewrite <- (app_nil_r (to_be_bytes 2 v)).
    eapply parses_bind; [apply read_raw_parses'; autorewrite with thin; lia|].
    eapply parses_bind_nil; [by apply parses_lift; unfold to_array; autorewrite with thin|].
    rewrite from_to_be_bytes by lia. apply parses_ret.
Qed.

Lemma read_ub4_parses v : 0 <= v <= U32_MAX → parses lim read_ub4 (ub4_bytes v) v.
Proof.
  unfold read_ub4, ub4_bytes, U32_MAX, U16_MAX, U8_MAX. intros Hv. int_cases.
  - subst. apply (parses_bind _ _ [0] []  0 0); [apply read_u8_parses|apply parses_ret].
  - apply (parses_bind _ _ [1] [v] 1 v); [apply read_u8_parses|].
    replace [v] with (to_be_bytes 1 v) by (cbn; by rewrite Z.mod_small by lia).
    apply (be_field_parses 32 1); cbn; lia.
  - apply (parses_bind _ _ [2] (to_be_bytes 2 v) 2 v); [apply read_u8_parses|].
    apply (be_field_parses 32 2); cbn; lia.
  - apply (parses_bind _ _ [4] (to_be_bytes 4 v) 4 v); [apply read_u8_parses|].
    apply (be_field_parses 32 4); cbn; lia.
Qed.

Lemma read_ub8_parses v : 0 <= v <= U64_MAX → parses lim read_ub8 (ub8_bytes v) v.
Proof.
  unfold read_ub8, ub8_bytes, U64_MAX, U32_MAX, U16_MAX, U8_MAX. intros Hv. int_cases.
  - subst. apply (parses_bind _ _ [0] []  0 0); [apply read_u8_parses|apply parses_ret].
  - apply (parses_bind _ _ [1] [v] 1 v); [apply read_u8_parses|].
    replace [v] with (to_be_bytes 1 v) by (cbn; by rewrite Z.mod_small by lia).
    apply (be_field_parses 64 1); cbn; lia.
  - apply (parses_bind _ _ [2] (to_be_bytes 2 v) 2 v); [apply read_u8_parses|].
    apply (be_field_parses 64 2); cbn; lia.
  - apply (parses_bind _ _ [4] (to_be_bytes 4 v) 4 v); [apply read_u8_parses|].
    apply (be_field_parses 64 4); cbn; lia.
  - apply (parses_bind _ _ [8] (to_be_bytes 8 v) 8 v); [apply read_u8_parses|].
    apply (be_field_parses 64 8); cbn; lia.
Qed.

(** The sign-magnitude reading of a magnitude with its sign bit, [i32::MIN]
    included: the wrapping negation is exact there. *)
Lemma sb4_value (neg : bool) m :
  0 <= m <= (if neg then 2147483648 else 2147483647) →
  (if neg then wrapping_neg 32 (as_i 32 m) else as_i 32 m) = if neg then - m else m.
Proof.
  intros Hm. destruct neg; [|by apply as_i_in; [|cbn; lia]].
  unfold wrapping_neg. destruct (decide (m = 2147483648)) as [->|]; [done|].
  rewrite (as_i_in 32 m), as_i_in; cbn; lia.
Qed.

Lemma sb4_tail_parses (neg : bool) (n : nat) m :
  (0 < n <= 4)%nat → 0 <= m < 256 ^ Z.of_nat n →
  m <= (if neg then 2147483648 else 2147483647) →
  parses lim read_sb4 ((Z.of_nat n + (if neg then 128 else 0)) :: to_be_bytes n m)
    (if neg then - m else m).
Proof.
  intros Hn Hm Hb. unfold read_sb4.
  apply (parses_bind _ _ [_] (to_be_bytes n m) (Z.of_nat n + (if neg then 128 else 0)) _);
    [apply read_u8_parses|]. cbn zeta.
  assert (Z.land (Z.of_nat n + (if neg then 128 else 0)) 127 = Z.of_nat n ∧
          negb (Z.land (Z.of_nat n + (if neg then 128 else 0)) 128 =? 0) = neg) as [-> ->].
  { destruct n as [|[|[|[|[|n]]]]], neg; try lia; done. }
  rewrite (proj2 (Z.eqb_neq (Z.of_nat n) 0)), (proj2 (Z.ltb_ge 4 (Z.of_nat n))) by lia.
  rewrite <- (sb4_value neg m) by (destruct neg; lia).
  apply (be_field_parses' 32 n m
    (λ x, if neg then wrapping_neg 32 (as_i 32 x) else as_i 32 x)); lia.
Qed.

Lemma read_sb4_parses v : I32_MIN <= v <= I32_MAX → parses lim read_sb4 (sb4_bytes v) v.
Proof.
  unfold I32_MIN, I32_MAX, sb4_bytes, U8_MAX, U16_MAX. intros Hv. cbn zeta.
  set (neg := v <? 0). assert (v = if neg then - Z.abs v else Z.abs v) as E
    by (unfold neg; destruct (Z.ltb_spec v 0); lia).
  assert (Z.abs v <= if neg then 2147483648 else 2147483647)
    by (unfold neg; destruct (Z.ltb_spec v 0); lia).
  clearbody neg. int_cases.
  - replace v with 0 by (destruct neg; lia).
    apply (parses_bind _ _ [0] [] 0 0); [apply read_u8_parses|apply parses_ret].
  - rewrite E at 2. replace [1 + (if neg then 128 else 0); Z.abs v] with
      ((Z.of_nat 1 + (if neg then 128 else 0)) :: to_be_bytes 1 (Z.abs v))
      by (cbn; by rewrite Z.mod_small by lia).
    apply sb4_tail_parses; cbn; lia.
  - rewrite E at 2. apply (sb4_tail_parses neg 2); cbn; lia.
  - rewrite E at 2. apply (sb4_tail_parses neg 4); cbn; destruct neg; lia.
Qed.
End Parses.

(** ** Length-prefixed fields *)

Lemma chunk_bytes_length cs :
  Forall (λ c : bytes, 0 < Zlen c) cs →
  (length cs <= length (concat (chunk_bytes <$> cs)))%nat.
Proof.
  induction 1 as [|c cs Hc Hcs IH]; [cbn; lia|]. rewrite fmap_cons. cbn [concat length].
  unfold chunk_bytes at 1. rewrite !length_app. unfold Zlen in Hc. lia.
Qed.

(** An empty field reads back as NULL, every other one as itself. *)
Definition field_value (v : bytes) : option bytes :=
  match v with [] => None | _ => Some v end.

Lemma field_value_some v : 0 < Zlen v → field_value v = Some v.
Proof. by destruct v. Qed.

Section Fields.
Context (lim : ProtocolLimits) (Hlim : 8 <= max_response_bytes lim).

Lemma chunk_guards_ok n t c :
  0 <= n → 0 <= t → 0 <= c → n + 1 <= max_lob_chunks lim → t + c <= max_response_bytes lim →
  max_lob_chunks lim <= USIZE_MAX → max_response_bytes lim <= USIZE_MAX →
  chunk_guards lim n t c = Ok (n + 1, c, t + c).
Proof.
  intros. unfold chunk_guards, check_lob_chunks, check_response_bytes.
  rewrite (try_range_in _ _ (n + 1)) by lia. st_run. rewrite check_ok by lia. st_run.
  rewrite (try_range_in _ _ c) by lia. st_run.
  rewrite (try_range_in _ _ (t + c)) by lia. st_run. by rewrite check_ok by lia.
Qed.

Context (Hc : max_lob_chunks lim <= USIZE_MAX) (Hr : max_response_bytes lim <= USIZE_MAX).

Lemma read_chunks_parses cs : ∀ fuel out n t,
  (length cs < fuel)%nat → 0 <= n → 0 <= t →
  Forall (λ c, 0 < Zlen c <= U32_MAX) cs →
  n + Zlen cs <= max_lob_chunks lim → t + Zlen (concat cs) <= max_response_bytes lim →
  parses lim (read_chunks fuel out n t) (concat (chunk_bytes <$> cs) ++ [0]) (out ++ concat cs).
Proof.
  induction cs as [|c cs IH]; intros fuel out n t Hfuel Hn Ht Hcs Hnc Htc;
    (destruct fuel as [|fuel]; [cbn in Hfuel; lia|]).
  - cbn [read_chunks fmap list_fmap concat app]. rewrite app_nil_r.
    apply (parses_bind lim _ _ [0] [] 0 out);
      [by apply (read_ub4_parses lim Hlim 0)|apply parses_ret].
  - inversion Hcs as [|? ? Hc0 Hcs']; subst. cbn [concat] in *.
    rewrite Zlen_cons in Hnc. rewrite Zlen_app in Htc.
    pose proof (Zlen_nonneg cs). pose proof (Zlen_nonneg (concat cs)).
    cbn [read_chunks fmap list_fmap concat]. unfold chunk_bytes at 1. rewrite <- !app_assoc.
    eapply parses_bind; [apply (read_ub4_parses lim Hlim (Zlen c)); lia|].
    rewrite (proj2 (Z.eqb_neq (Zlen c) 0)) by lia.
    eapply parses_bind_nil; [apply parses_limits|].
    eapply parses_bind_nil; [apply parses_lift, chunk_guards_ok; lia|]. cbn beta iota.
    eapply parses_bind; [apply read_raw_parses; lia|].
    rewrite app_assoc. apply IH; try done; cbn in Hfuel; lia.
Qed.

Lemma chunks_within (v : bytes) :
  Zlen v <= 32767 * max_lob_chunks lim → Zlen (chunks (Z.to_nat 32767) v) <= max_lob_chunks lim.
Proof.
  intros Hv. pose proof (Zlen_nonneg v). apply chunks_count; [lia|].
  rewrite Z2Nat.id by lia. lia.
Qed.

Lemma read_bytes_parses v :
  Zlen v <= max_response_bytes lim → Zlen v <= 32767 * max_lob_chunks lim →
  parses lim read_bytes (field_bytes v) (field_value v).
Proof.
  intros Hv Hv2. unfold read_bytes, field_bytes, TNS_MAX_SHORT_LENGTH,
    TNS_LONG_LENGTH_INDICATOR, TNS_NULL_LENGTH_INDICATOR.
  pose proof (Zlen_nonneg v). destruct (Z.leb_spec (Zlen v) 252).
  - apply (parses_bind lim _ _ [Zlen v] v (Zlen v)); [apply read_u8_parses|].
    rewrite (proj2 (Z.eqb_neq _ 254)), (proj2 (Z.eqb_neq _ 255)) by lia.
    destruct v as [|x v']; [apply parses_ret|]. set (v := x :: v') in *.
    assert (0 < Zlen v) by (unfold v; rewrite Zlen_cons; pose proof (Zlen_nonneg v'); lia).
    rewrite (proj2 (Z.eqb_neq _ 0)) by lia. cbn [orb].
    eapply parses_bind_nil; [apply parses_limits|].
    eapply parses_bind_nil; [by apply parses_lift, check_ok|].
    rewrite <- (app_nil_r v) at 2.
    eapply parses_bind; [by apply read_raw_parses|apply parses_ret].
  - apply (parses_bind lim _ _ [254] (concat (chunk_bytes <$> chunks (Z.to_nat 32767) v) ++ [0])
             254); [apply read_u8_parses|].
    rewrite Z.eqb_refl.
    rewrite (field_value_some v) by lia.
    intros pre rest Hlen. st_run.
    pose proof (chunks_length_le (Z.to_nat 32767) v ltac:(lia)).
    pose proof (chunks_concat (Z.to_nat 32767) v ltac:(lia)) as Hcc.
    rewrite (read_chunks_parses (chunks (Z.to_nat 32767) v)).
    + st_run. by rewrite Hcc.
    + unfold loop_fuel. cbn [r_bytes rd]. rewrite !length_app.
      assert (length (chunks (Z.to_nat 32767) v) <=
        length (concat (chunk_bytes <$> chunks (Z.to_nat 32767) v)))%nat; [|lia].
      apply chunk_bytes_length.
      eapply Forall_impl; [|apply chunks_32767_short]. cbn. lia.
    + done.
    + done.
    + eapply Forall_impl; [|apply chunks_32767_short]. unfold U32_MAX. cbn. lia.
    + cbn. by apply chunks_within.
    + by rewrite Hcc.
    + done.
Qed.

Lemma read_bytes_with_length_parses (v : option bytes) :
  (∀ b, v = Some b → Zlen b <= max_response_bytes lim ∧ Zlen b <= U32_MAX ∧
     Zlen b <= 32767 * max_lob_chunks lim) →
  parses lim read_bytes_with_length (two_lengths_bytes v) (v ≫= field_value).
Proof.
  intros Hv. unfold read_bytes_with_length, two_lengths_bytes.
  destruct v as [b|]; cbn [mbind option_bind].
  - destruct (Hv b eq_refl) as (Hb1&Hb2&Hb3). pose proof (Zlen_nonneg b).
    eapply parses_bind; [apply (read_ub4_parses lim Hlim); lia|].
    eapply parses_bind_nil; [apply parses_lift; by rewrite try_range_in by lia|].
    eapply parses_bind_nil; [apply parses_limits|].
    eapply parses_bind_nil; [by apply parses_lift, check_ok|].
    destruct (Z.eqb_spec (Zlen b) 0) as [E|].
    { destruct b; [apply parses_ret|]. rewrite Zlen_cons in E. pose proof (Zlen_nonneg b). lia. }
    intros pre rest Hlen. unfold read_nested_or_raw. rewrite read_bytes_parses by done.
    rewrite (field_value_some b) by lia.
    by rewrite Z.eqb_refl.
  - change [0] with (ub4_bytes 0 ++ []).
    eapply parses_bind; [apply (read_ub4_parses lim Hlim); unfold U32_MAX; lia|].
    eapply parses_bind_nil; [by apply parses_lift|].
    eapply parses_bind_nil; [apply parses_limits|].
    eapply parses_bind_nil; [apply parses_lift, check_ok; lia|]. apply parses_ret.
Qed.
End Fields.

(** ** Round trips of the writer's methods *)

(** [m], started where [w'] was extended from [w], reads [v] and stops at the
    end of what was written, whatever follows in the buffer. *)
Definition reads_back {A} (lim : ProtocolLimits) (w w' : TtcWriter) (m : ReaderM A) (v : A) : Prop :=
  ∀ rest, Zlen (w_bytes w' ++ rest) <= I64_MAX →
    m (mkTtcReader (w_bytes w' ++ rest) (Zlen (w_bytes w)) lim) =
      (Ok v, mkTtcReader (w_bytes w' ++ rest) (Zlen (w_bytes w')) lim).

Lemma parses_reads_back {A} lim w enc (m : ReaderM A) v :
  parses lim m enc v → reads_back lim w (write_raw enc w) m v.
Proof.
  intros Hp rest Hlen. cbn [w_bytes write_raw] in *. rewrite <- app_assoc in *.
  specialize (Hp (w_bytes w) rest Hlen). unfold rd in Hp. rewrite Hp.
  by rewrite <- app_assoc, Zlen_app.
Qed.

(** Every variable-length integer the writer emits is read back exactly, at
    the full width of its type. *)
Theorem ttc_integer_roundtrip lim w :
  8 <= max_response_bytes lim →
  (∀ v, 0 <= v <= U16_MAX → reads_back lim w (write_ub2 v w) read_ub2 v) ∧
  (∀ v, 0 <= v <= U32_MAX → reads_back lim w (write_ub4 v w) read_ub4 v) ∧
  (∀ v, 0 <= v <= U64_MAX → reads_back lim w (write_ub8 v w) read_ub8 v) ∧
  (∀ v, I32_MIN <= v <= I32_MAX → reads_back lim w (write_sb4 v w) read_sb4 v).
Proof.
  intros Hlim. split_and!; intros v Hv.
  - rewrite write_ub2_spec by done. by apply parses_reads_back, read_ub2_parses.
  - rewrite write_ub4_spec by done. by apply parses_reads_back, read_ub4_parses.
  - rewrite write_ub8_spec by done. by apply parses_reads_back, read_ub8_parses.
  - rewrite write_sb4_spec by done. by apply parses_reads_back, read_sb4_parses.
Qed.

(** The limits leave room for a field of [n] bytes. *)
Definition field_fits (lim : ProtocolLimits) (n : Z) : Prop :=
  8 <= max_response_bytes lim <= USIZE_MAX ∧ max_lob_chunks lim <= USIZE_MAX ∧
  n <= max_response_bytes lim ∧ n <= 32767 * max_lob_chunks lim.

#[global] Instance field_fits_dec lim n : Decision (field_fits lim n).
Proof. unfold field_fits. apply _. Defined.

(** C17: A length-prefixed field, short or chunked, is written without error and
    read back byte for byte (an empty one as NULL); so is the two-length form. *)
Theorem ttc_field_roundtrip lim w v :
  field_fits lim (Zlen v) →
  (∃ w', write_bytes_with_length v w = (Ok (), w') ∧
     reads_back lim w w' read_bytes (field_value v)) ∧
  (Zlen v <= U32_MAX →
   ∃ w', write_bytes_with_two_lengths (Some v) w = (Ok (), w') ∧
     reads_back lim w w' read_bytes_with_length (field_value v)).
Proof.
  intros ([? ?]&?&?&?). split.
  - eexists. split; [apply write_bytes_with_length_spec|].
    by apply parses_reads_back, read_bytes_parses.
  - intros Hv. eexists. split; [apply write_bytes_with_two_lengths_spec|].
    { by intros b [= <-]. }
    apply parses_reads_back. apply (read_bytes_with_length_parses lim); try done.
    by intros b [= <-].
Qed.

(** ** TNS packets *)

Definition TNS_HEADER_LEN : Z := 8.

Inductive PacketLengthWidth := Legacy16 | Large32.

(** [encode_packet].  The length is a sum of [usize] values that fits, since
    the payload is a Rust slice. *)
Definition encode_packet (packet_type packet_flags : Z) (data_flags : option Z)
    (payload : bytes) (width : PacketLengthWidth) : Res bytes :=
  let data_flags_len := match data_flags with Some _ => 2 | None => 0 end in
  let length := TNS_HEADER_LEN + data_flags_len + Zlen payload in
  out ← match width with
        | Legacy16 =>
            wire_length ← ok_or (try_range 0 U16_MAX length) (PacketTooLarge length);
            Ok (to_be_bytes 2 wire_length ++ to_be_bytes 2 0)
        | Large32 =>
            wire_length ← ok_or (try_range 0 U32_MAX length) (PacketTooLarge length);
            Ok (to_be_bytes 4 wire_length)
        end;
  let out := out ++ [packet_type] ++ [packet_flags] ++ to_be_bytes 2 0 in
  let out := match data_flags with Some flags => out ++ to_be_bytes 2 flags | None => out end in
  Ok (out ++ payload).

Record TnsPacket := mkTnsPacket { packet_type : Z; flags : Z; payload : bytes }.

(** [TnsPacket::encode] *)
Definition packet_encode (p : TnsPacket) : Res bytes :=
  let length := TNS_HEADER_LEN + Zlen (payload p) in
  wire_length ← ok_or (try_range 0 U16_MAX length) (PacketTooLarge length);
  Ok (to_be_bytes 2 wire_length ++ to_be_bytes 2 0 ++ [packet_type p] ++ [flags p] ++
      to_be_bytes 2 0 ++ payload p).

(** [TnsPacket::parse_with_limits] *)
Definition parse_with_limits (input : bytes) (limits : ProtocolLimits) : Res TnsPacket :=
  limits ← validate limits;
  header ← ok_or (slice_get input 0 TNS_HEADER_LEN) (TruncatedHeader (Zlen input));
  length_bytes ← ok_or (slice_get input 0 2) (TruncatedHeader (Zlen input));
  length_bytes ← to_array 2 length_bytes (TruncatedHeader (Zlen input));
  let declared := from_be_bytes length_bytes in
  if declared <? TNS_HEADER_LEN then Err (InvalidPacketLength declared TNS_HEADER_LEN)
  else
    _ ← check_packet_bytes limits declared;
    if Zlen input <? declared then Err (IncompletePacket declared (Zlen input))
    else
      packet_type ← ok_or (slice_nth header 4) (TruncatedHeader (Zlen input));
      flags ← ok_or (slice_nth header 5) (TruncatedHeader (Zlen input));
      payload ← ok_or (slice_get input TNS_HEADER_LEN declared)
                  (IncompletePacket declared (Zlen input));
      Ok (mkTnsPacket packet_type flags payload).

(** [TnsPacket::parse] *)
Definition parse (input : bytes) : Res TnsPacket := parse_with_limits input limits_DEFAULT.

Definition packet_ok (p : TnsPacket) : Prop :=
  is_u8 (packet_type p) ∧ is_u8 (flags p) ∧ bytes_ok (payload p).

#[global] Instance packet_ok_dec p : Decision (packet_ok p).
Proof. unfold packet_ok. apply _. Defined.

(** A header of eight bytes in front of the payload. *)
Definition packet_bytes (p : TnsPacket) : bytes :=
  to_be_bytes 2 (8 + Zlen (payload p)) ++ [0; 0; packet_type p; flags p; 0; 0] ++ payload p.

Lemma packet_encode_spec p :
  packet_encode p =
    if 8 + Zlen (payload p) <=? U16_MAX then Ok (packet_bytes p)
    else Err (PacketTooLarge (8 + Zlen (payload p))).
Proof.
  unfold packet_encode, TNS_HEADER_LEN. pose proof (Zlen_nonneg (payload p)).
  destruct (Z.leb_spec (8 + Zlen (payload p)) U16_MAX).
  - by rewrite try_range_in by lia.
  - unfold try_range. by rewrite (proj2 (between_false _ _ _)) by lia.
Qed.

Lemma slice_get_prefix l n : 0 <= n <= Zlen l → slice_get l 0 n = Some (take (Z.to_nat n) l).
Proof.
  intros. unfold slice_get. rewrite (proj2 (Z.leb_le 0 n)), (proj2 (Z.leb_le n _)) by lia.
  cbn. by rewrite Z.sub_0_r.
Qed.

Lemma parse_run l b0 b1 b2 b3 ty fl b6 b7 rest :
  validate l = Ok l → is_u8 b0 → is_u8 b1 →
  let declared := 256 * b0 + b1 in
  let input := b0 :: b1 :: b2 :: b3 :: ty :: fl :: b6 :: b7 :: rest in
  parse_with_limits input l =
    if declared <? 8 then Err (InvalidPacketLength declared 8)
    else if max_packet_bytes l <? declared
    then Err (ResourceLimitErr "packet_bytes" declared (max_packet_bytes l))
    else if Zlen input <? declared then Err (IncompletePacket declared (Zlen input))
    else Ok (mkTnsPacket ty fl (take (Z.to_nat (declared - 8)) rest)).
Proof.
  intros Hl H0 H1 declared input. unfold parse_with_limits, TNS_HEADER_LEN. rewrite Hl. st_run.
  assert (Zlen input = 8 + Zlen rest) as Hlen by (unfold input; rewrite !Zlen_cons; lia).
  pose proof (Zlen_nonneg rest).
  rewrite !slice_get_prefix by lia. st_run. cbn [take Z.to_nat Pos.to_nat].
  change (to_array 2 _ _) with (@Ok ProtocolError _ [b0; b1]). st_run.
  replace (from_be_bytes [b0; b1]) with declared by (unfold declared; cbn; lia).
  destruct (declared <? 8) eqn:E8; [done|].
  unfold check_packet_bytes, check. rewrite Z.leb_antisym.
  destruct (max_packet_bytes l <? declared); cbn [negb]; [done|]. st_run.
  destruct (Z.ltb_spec (Zlen input) declared); [done|].
  change (slice_nth _ 4) with (Some ty). change (slice_nth _ 5) with (Some fl). st_run.
  apply Z.ltb_ge in E8. unfold slice_get.
  rewrite (proj2 (Z.leb_le 8 declared)), (proj2 (Z.leb_le declared _)) by lia. done.
Qed.

Lemma packet_bytes_parse p l rest :
  limits_usize l → limits_valid l → 8 + Zlen (payload p) <= max_packet_bytes l →
  8 + Zlen (payload p) <= U16_MAX → parse_with_limits (packet_bytes p ++ rest) l = Ok p.
Proof.
  intros Hu Hv Hmax Hlen. pose proof (Zlen_nonneg (payload p)). pose proof (Zlen_nonneg rest).
  unfold U16_MAX in *. set (n := 8 + Zlen (payload p)) in *. unfold packet_bytes. fold n.
  cbn [to_be_bytes to_le_bytes rev app].
  rewrite parse_run; [|by apply validate_valid_ok|unfold is_u8; by apply Z.mod_pos_bound..].
  replace (256 * ((n / 256) mod 256) + n mod 256) with n.
  2: { rewrite (Z.mod_small (n / 256)) by (split; [apply Z.div_pos; lia|];
         apply Z.div_lt_upper_bound; lia). pose proof (Z.div_mod n 256). lia. }
  rewrite (proj2 (Z.ltb_ge n 8)), (proj2 (Z.ltb_ge (max_packet_bytes l) n)) by (unfold n; lia).
  rewrite !Zlen_cons, !Zlen_app, (proj2 (Z.ltb_ge _ n)) by (unfold n; lia).
  replace (Z.to_nat (n - 8)) with (length (payload p)) by (unfold n, Zlen; lia).
  rewrite take_app_length. by destruct p.
Qed.

(** A packet that encodes is parsed back from its bytes, whatever follows,
    under every valid policy that admits its size; an oversize one is refused. *)
Theorem packet_roundtrip p l rest :
  limits_usize l → limits_valid l → 8 + Zlen (payload p) <= max_packet_bytes l →
  (8 + Zlen (payload p) <= U16_MAX →
     ∃ b, packet_encode p = Ok b ∧ parse_with_limits (b ++ rest) l = Ok p) ∧
  (U16_MAX < 8 + Zlen (payload p) →
     packet_encode p = Err (PacketTooLarge (8 + Zlen (payload p)))).
Proof.
  intros Hu Hv Hmax. rewrite packet_encode_spec. split; intros Hlen.
  - rewrite (proj2 (Z.leb_le _ _)) by done. eexists. split; [done|].
    by apply packet_bytes_parse.
  - by rewrite (proj2 (Z.leb_gt _ _)).
Qed.

(** C29: On arbitrary bytes the packet parser returns; a short input is a
    truncated header; and a packet it accepts is exactly the declared slice of
    the input, with the header fields in their places and within the policy. *)
Theorem packet_parse_exact input l :
  bytes_ok input → limits_usize l → limits_valid l →
  returns (parse_with_limits input l) ∧
  (Zlen input < 8 → parse_with_limits input l = Err (TruncatedHeader (Zlen input))) ∧
  (∀ p, parse_with_limits input l = Ok p →
     ∃ r2 r3 r6 r7 rest,
       input = to_be_bytes 2 (8 + Zlen (payload p)) ++ [r2; r3; packet_type p; flags p; r6; r7] ++
               payload p ++ rest ∧
       packet_ok p ∧ 8 + Zlen (payload p) <= Z.min U16_MAX (max_packet_bytes l)).
Proof.
  intros Hin Hu Hv. assert (validate l = Ok l) as Hl by by apply validate_valid_ok.
  destruct (Z.lt_ge_cases (Zlen input) 8) as [Hs|Hs].
  - assert (parse_with_limits input l = Err (TruncatedHeader (Zlen input))) as ->.
    { unfold parse_with_limits, TNS_HEADER_LEN. rewrite Hl. st_run.
      unfold slice_get at 1. by rewrite (proj2 (Z.leb_gt 8 (Zlen input))) by lia. }
    done.
  - destruct input as [|b0 [|b1 [|b2 [|b3 [|ty [|fl [|b6 [|b7 rest]]]]]]]];
      try (unfold Zlen in Hs; cbn [length] in Hs; lia).
    assert (is_u8 b0 ∧ is_u8 b1 ∧ is_u8 ty ∧ is_u8 fl ∧ bytes_ok rest) as (H0&H1&Hty&Hfl&Hrest).
    { unfold bytes_ok in Hin. rewrite !Forall_cons_iff in Hin. by destruct_and!. }
    rewrite parse_run by done. cbn zeta. set (d := 256 * b0 + b1).
    split; [by repeat case_match|]. split; [lia|]. intros p Hp.
    destruct (Z.ltb_spec d 8); [done|]. destruct (Z.ltb_spec (max_packet_bytes l) d); [done|].
    destruct (Z.ltb_spec (Zlen (b0 :: b1 :: b2 :: b3 :: ty :: fl :: b6 :: b7 :: rest)) d); [done|].
    injection Hp as <-. rewrite !Zlen_cons in *. cbn [payload packet_type flags].
    assert (Zlen (take (Z.to_nat (d - 8)) rest) = d - 8) as Hpl.
    { unfold Zlen in *. rewrite length_take. lia. }
    exists b2, b3, b6, b7, (drop (Z.to_nat (d - 8)) rest). rewrite Hpl, take_drop.
    unfold is_u8 in *. replace (8 + (d - 8)) with d by lia.
    split; [|split; [split; [done|]; split; [done|]; by apply Forall_take|unfold U16_MAX; lia]].
    cbn [to_be_bytes to_le_bytes rev app]. unfold d. repeat f_equal.
    + rewrite Z.mul_comm, Z.div_add_l, Z.div_small, Z.mod_small by lia. lia.
    + rewrite Z.add_comm, Z.mul_comm, Z.mod_add, Z.mod_small by lia. lia.
Qed.

(** The two length widths frame the same payload: the legacy form is the
    packet [TnsPacket] parses, and the 32-bit form declares the true length. *)
Theorem encode_packet_framing ty fl df pl l :
  limits_usize l → limits_valid l →
  let body := match df with Some f => to_be_bytes 2 f | None => [] end ++ pl in
  8 + Zlen body <= max_packet_bytes l →
  (8 + Zlen body <= U16_MAX →
     ∃ b, encode_packet ty fl df pl Legacy16 = Ok b ∧ Zlen b = 8 + Zlen body ∧
          parse_with_limits b l = Ok (mkTnsPacket ty fl body)) ∧
  (8 + Zlen body <= U32_MAX →
     encode_packet ty fl df pl Large32 =
       Ok (to_be_bytes 4 (8 + Zlen body) ++ [ty; fl; 0; 0] ++ body)) ∧
  (U16_MAX < 8 + Zlen body →
     encode_packet ty fl df pl Legacy16 = Err (PacketTooLarge (8 + Zlen body))).
Proof.
  intros Hu Hv body Hmax.
  assert (TNS_HEADER_LEN + match df with Some _ => 2 | None => 0 end + Zlen pl = 8 + Zlen body)
    as Hlen by (unfold body; destruct df; rewrite Zlen_app; autorewrite with thin;
                unfold TNS_HEADER_LEN; lia).
  pose proof (Zlen_nonneg body). unfold encode_packet. cbn zeta. rewrite Hlen.
  split_and!; intros Hb.
  - rewrite try_range_in by lia. st_run.
    pose proof (packet_bytes_parse (mkTnsPacket ty fl body) l [] Hu Hv Hmax Hb) as Hp.
    rewrite app_nil_r in Hp. eexists. split; [done|]. unfold packet_bytes in Hp. cbn [payload packet_type flags] in Hp.
    rewrite <- Hp. unfold body. destruct df; rewrite <- !app_assoc; split; try done;
      autorewrite with thin; lia.
  - rewrite try_range_in by lia. st_run. unfold body.
    by destruct df; rewrite <- !app_assoc.
  - unfold try_range. rewrite (proj2 (between_false _ _ _)) by lia. done.
Qed.

Lemma ttc_integer_roundtrip_witness :
  reads_back limits_DEFAULT writer_new (write_ub4 70000 writer_new) read_ub4 70000.
Proof.
  apply (ttc_integer_roundtrip limits_DEFAULT writer_new); vm_compute; try split; discriminate.
Defined.

(** A field of 300 bytes takes the chunked form. *)
Lemma ttc_field_roundtrip_witness :
  field_fits limits_DEFAULT 300 ∧
  ∃ w', write_bytes_with_length (repeat 7 300) writer_new = (Ok (), w') ∧
    reads_back limits_DEFAULT writer_new w' read_bytes (field_value (repeat 7 300)).
Proof.
  assert (field_fits limits_DEFAULT 300) as H by (apply (bool_decide_unpack _); vm_compute; reflexivity).
  split; [exact H|]. apply (ttc_field_roundtrip limits_DEFAULT writer_new (repeat 7 300)). exact H.
Defined.

Lemma packet_roundtrip_witness :
  ∃ b, packet_encode (mkTnsPacket 6 0 [1; 2; 3]) = Ok b ∧
    parse_with_limits (b ++ [9; 9]) limits_DEFAULT = Ok (mkTnsPacket 6 0 [1; 2; 3]).
Proof.
  destruct limits_DEFAULT_valid as [Hu Hv].
  apply (packet_roundtrip (mkTnsPacket 6 0 [1; 2; 3]) limits_DEFAULT [9; 9] Hu Hv);
    vm_compute; discriminate.
Defined.

Lemma packet_parse_exact_witness :
  parse_with_limits [0; 10; 0; 0; 6; 32; 0; 0; 1; 2; 3] limits_DEFAULT =
    Ok (mkTnsPacket 6 32 [1; 2]) ∧
  returns (parse_with_limits [0; 10; 0; 0; 6; 32; 0; 0; 1; 2; 3] limits_DEFAULT).
Proof.
  destruct limits_DEFAULT_valid as [Hu Hv]. split; [vm_compute; reflexivity|].
  apply (packet_parse_exact [0; 10; 0; 0; 6; 32; 0; 0; 1; 2; 3] limits_DEFAULT); try assumption.
  apply (bool_decide_unpack _). vm_compute. reflexivity.
Defined.
