(* ===== verification/TimeZone.v ===== *)
(** * Named time-zone regions ([thin/timezone.rs])

    The table of region identities and the binary search that resolves an
    identity, against the linear reading of the table. *)

From S2P Require Import Prelude.
From S2P Require Import Protocol.

(** ** Binary search

    [slice::binary_search_by_key] as the standard library computes it: halve
    the window while it has more than one element, then compare once. *)
Section BinarySearch.
Context {V : Type}.
  Implicit Types (table : list (Z * V)) (size base : nat).

Fixpoint search_window (fuel : nat) (table : list (Z * V)) (k : Z) (size base : nat) : Res nat :=
  match fuel with
  | O => Diverge
  | S fuel =>
      if bool_decide (size <= 1)%nat then Ok base
      else
        let half := Nat.div2 size in
        let mid := (base + half)%nat in
        '(key, _) ← or_panic (table !! mid);
        search_window fuel table k (size - half)%nat (if k <? key then base else mid)
  end.

(** [Ok index] when the key is found, [None] for the standard library's [Err]. *)
Definition binary_search_by_key (table : list (Z * V)) (k : Z) : Res (option nat) :=
  match table with
  | [] => Ok None
  | _ =>
      base ← search_window (length table) table k (length table) 0;
      '(key, _) ← or_panic (table !! base);
      Ok (if key =? k then Some base else None)
  end.

Definition keys_sorted (table : list (Z * V)) : Prop :=
  ∀ i j ki vi kj vj, table !! i = Some (ki, vi) → table !! j = Some (kj, vj) → (i < j)%nat → ki < kj.

Lemma search_window_spec table k : keys_sorted table →
  ∀ fuel size base,
  (size <= fuel)%nat → (0 < size)%nat → (base + size <= length table)%nat →
  (∀ i v, table !! i = Some (k, v) → base <= i < base + size)%nat →
  ∃ found, search_window fuel table k size base = Ok found ∧ (found < length table)%nat ∧
    ∀ i v, table !! i = Some (k, v) → i = found.
Proof.
  intros Hs. induction fuel as [|fuel IH]; intros size base Hf Hpos Hlen Hin; [lia|].
  cbn [search_window]. destruct (bool_decide_reflect (size <= 1)%nat).
  { exists base. split; [done|]. split; [lia|]. intros i v Hi%Hin. lia. }
  pose proof (Nat.div2_odd size) as Hodd.
  assert (0 < Nat.div2 size < size)%nat as Hhalf by (destruct (Nat.odd size); cbn in Hodd; lia).
  destruct (lookup_lt_is_Some_2 table (base + Nat.div2 size)) as [[key w] Hmid]; [lia|].
  rewrite Hmid. cbn. apply IH; [lia..| |].
  - destruct (k <? key); lia.
  - intros i v Hi. pose proof (Hin i v Hi) as Hr.
    destruct (Z.ltb_spec k key).
    + destruct (decide (i < base + Nat.div2 size)%nat); [lia|].
      destruct (decide (i = base + Nat.div2 size)%nat) as [->|]; [simplify_eq; lia|].
      pose proof (Hs _ i _ _ _ _ Hmid Hi). lia.
    + destruct (decide (base + Nat.div2 size <= i)%nat); [lia|].
      pose proof (Hs i _ _ _ _ _ Hi Hmid). lia.
Qed.

Lemma binary_search_spec table k : keys_sorted table →
  ∃ r, binary_search_by_key table k = Ok r ∧
    match r with
    | Some i => ∃ v, table !! i = Some (k, v)
    | None => ∀ i v, table !! i ≠ Some (k, v)
    end.
Proof.
  intros Hs. destruct table as [|e table]; [exists None; split; [done|]; by intros [|]|].
  destruct (search_window_spec _ k Hs (length (e :: table)) (length (e :: table)) 0)
    as (found & Hrun & Hlt & Hin); [lia|cbn; lia|lia| |].
  { intros i v Hi%lookup_lt_Some. lia. }
  unfold binary_search_by_key. rewrite Hrun.
  destruct (lookup_lt_is_Some_2 _ found Hlt) as [[key w] Hf]. rewrite res_bindE, Hf. cbn.
  destruct (Z.eqb_spec key k) as [->|Hne]; eexists; (split; [done|]); [by exists w|].
  intros i v Hi. pose proof (Hin i v Hi) as ->. naive_solver.
Qed.
End BinarySearch.

(** ** The region table *)

Definition REGION_NAMES : list (Z * string) :=
  [ (1, "Etc/GMT"); (2, "Etc/GMT-14"); (3, "Etc/GMT-13"); (4, "Etc/GMT-12"); (5, "Etc/GMT-11");
    (6, "Etc/GMT-10"); (7, "Etc/GMT-9"); (8, "Etc/GMT-8"); (9, "Etc/GMT-7"); (10, "Etc/GMT-6");
    (11, "Etc/GMT-5"); (12, "Etc/GMT-4"); (13, "Etc/GMT-3"); (14, "Etc/GMT-2");
    (15, "Etc/GMT-1"); (16, "Etc/GMT+1"); (17, "Etc/GMT+2"); (18, "Etc/GMT+3");
    (19, "Etc/GMT+4"); (20, "Etc/GMT+5"); (21, "Etc/GMT+6"); (22, "Etc/GMT+7");
    (23, "Etc/GMT+8"); (24, "Etc/GMT+9"); (25, "Etc/GMT+10"); (26, "Etc/GMT+11");
    (27, "Etc/GMT+12"); (28, "Etc/UTC"); (29, "Etc/UCT"); (30, "Africa/Algiers");
    (31, "Africa/Luanda"); (32, "Africa/Porto-Novo"); (33, "Africa/Gaborone");
    (34, "Africa/Ouagadougou"); (35, "Africa/Bujumbura"); (36, "Africa/Douala");
    (37, "Africa/Bangui"); (38, "Africa/Ndjamena"); (39, "Africa/Kinshasa");
    (40, "Africa/Lubumbashi"); (41, "Africa/Brazzaville"); (42, "Africa/Abidjan");
    (43, "Africa/Djibouti"); (44, "Africa/Cairo"); (45, "Africa/Malabo"); (46, "Africa/Asmara");
    (47, "Africa/Addis_Ababa"); (48, "Africa/Libreville"); (49, "Africa/Banjul");
    (50, "Africa/Accra"); (51, "Africa/Conakry"); (52, "Africa/Bissau"); (53, "Africa/Nairobi");
    (54, "Africa/Maseru"); (55, "Africa/Monrovia"); (56, "Africa/Tripoli");
    (57, "Africa/Blantyre"); (58, "Africa/Bamako"); (59, "Antarctica/Vostok");
    (60, "Africa/Nouakchott"); (61, "Africa/Casablanca"); (62, "Africa/El_Aaiun");
    (63, "Africa/Maputo"); (64, "Africa/Windhoek"); (65, "Africa/Niamey"); (66, "Africa/Lagos");
    (67, "Africa/Kigali"); (68, "Africa/Sao_Tome"); (69, "Africa/Dakar");
    (70, "Africa/Freetown"); (71, "Africa/Mogadishu"); (72, "Africa/Johannesburg");
    (73, "Africa/Khartoum"); (74, "Africa/Mbabane"); (75, "Africa/Dar_es_Salaam");
    (76, "Africa/Lome"); (77, "Africa/Tunis"); (78, "Africa/Kampala"); (79, "Africa/Lusaka");
    (80, "Africa/Harare"); (81, "Africa/Ceuta"); (82, "Antarctica/Rothera");
    (83, "America/Santarem"); (84, "Asia/Novokuznetsk"); (85, "Antarctica/Macquarie");
    (86, "America/Recife"); (87, "America/Matamoros"); (88, "America/North_Dakota/Center");
    (89, "America/North_Dakota/New_Salem"); (90, "America/Bahia");
    (91, "America/Kentucky/Monticello"); (92, "America/Moncton"); (93, "America/Ojinaga");
    (94, "America/Indiana/Tell_City"); (95, "America/Bahia_Banderas");
    (96, "America/Santa_Isabel"); (97, "America/Argentina/San_Luis");
    (98, "America/Argentina/Rio_Gallegos"); (99, "America/Argentina/La_Rioja");
    (100, "America/New_York"); (101, "America/Chicago"); (102, "America/Denver");
    (103, "America/Los_Angeles"); (104, "America/Juneau"); (105, "America/Yakutat");
    (106, "America/Anchorage"); (107, "America/Nome"); (108, "America/Adak");
    (109, "America/Phoenix"); (110, "America/Boise"); (111, "America/Indianapolis");
    (112, "America/Indiana/Marengo"); (113, "America/Indiana/Knox");
    (114, "America/Indiana/Vevay"); (115, "America/Louisville"); (116, "America/Detroit");
    (117, "America/Menominee"); (118, "America/St_Johns"); (119, "America/Goose_Bay");
    (120, "America/Halifax"); (121, "America/Glace_Bay"); (122, "America/Montreal");
    (123, "America/Thunder_Bay"); (124, "America/Nipigon"); (125, "America/Rainy_River");
    (126, "America/Winnipeg"); (127, "America/Regina"); (128, "America/Swift_Current");
    (129, "America/Edmonton"); (130, "America/Vancouver"); (131, "America/Dawson_Creek");
    (132, "America/Pangnirtung"); (133, "America/Iqaluit"); (134, "America/Rankin_Inlet");
    (135, "America/Cambridge_Bay"); (136, "America/Yellowknife"); (137, "America/Inuvik");
    (138, "America/Whitehorse"); (139, "America/Dawson"); (140, "America/Cancun");
    (141, "America/Mexico_City"); (142, "America/Chihuahua"); (143, "America/Hermosillo");
    (144, "America/Mazatlan"); (145, "America/Tijuana"); (146, "America/Anguilla");
    (147, "America/Antigua"); (148, "America/Nassau"); (149, "America/Barbados");
    (150, "America/Belize"); (151, "America/Cayman"); (152, "America/Costa_Rica");
    (153, "America/Havana"); (154, "America/Dominica"); (155, "America/Santo_Domingo");
    (156, "America/El_Salvador"); (157, "America/Grenada"); (158, "America/Guadeloupe");
    (159, "America/Guatemala"); (160, "America/Port-au-Prince"); (161, "America/Tegucigalpa");
    (162, "America/Jamaica"); (163, "America/Martinique"); (164, "America/Montserrat");
    (165, "America/Managua"); (166, "America/Panama"); (167, "America/Puerto_Rico");
    (168, "America/St_Kitts"); (169, "America/St_Lucia"); (170, "America/Miquelon");
    (171, "America/St_Vincent"); (172, "America/Grand_Turk"); (173, "America/Tortola");
    (174, "America/St_Thomas"); (175, "America/Buenos_Aires");
    (176, "America/Argentina/Ushuaia"); (177, "America/Cordoba"); (178, "America/Jujuy");
    (179, "America/Catamarca"); (180, "America/Mendoza"); (181, "America/Aruba");
    (182, "America/La_Paz"); (183, "America/Noronha"); (184, "America/Belem");
    (185, "America/Fortaleza"); (186, "America/Araguaina"); (187, "America/Maceio");
    (188, "America/Sao_Paulo"); (189, "America/Cuiaba"); (190, "America/Porto_Velho");
    (191, "America/Boa_Vista"); (192, "America/Manaus"); (193, "America/Porto_Acre");
    (194, "America/Santiago"); (195, "America/Bogota"); (196, "America/Curacao");
    (197, "America/Guayaquil"); (198, "America/Cayenne"); (199, "America/Guyana");
    (200, "America/Asuncion"); (201, "America/Lima"); (202, "America/Paramaribo");
    (203, "America/Port_of_Spain"); (204, "America/Montevideo"); (205, "America/Caracas");
    (206, "America/Scoresbysund"); (207, "America/Godthab"); (208, "America/Thule");
    (209, "America/Indiana/Vincennes"); (210, "America/Indiana/Petersburg"); (211, "EST");
    (212, "MST"); (213, "HST"); (214, "EST5EDT"); (215, "CST6CDT"); (216, "MST7MDT");
    (217, "PST8PDT"); (218, "America/Indiana/Winamac"); (219, "America/Resolute");
    (220, "America/Toronto"); (221, "America/Atikokan"); (222, "America/Campo_Grande");
    (223, "America/Danmarkshavn"); (224, "America/Blanc-Sablon"); (225, "America/Eirunepe");
    (226, "America/Merida"); (227, "America/Monterrey"); (228, "America/Argentina/Tucuman");
    (229, "America/Argentina/San_Juan"); (230, "Antarctica/Casey"); (231, "Antarctica/Davis");
    (232, "Antarctica/Mawson"); (233, "Antarctica/DumontDUrville"); (234, "Antarctica/Syowa");
    (235, "Antarctica/Palmer"); (236, "Antarctica/McMurdo"); (237, "America/Argentina/Salta");
    (238, "Pacific/Chuuk"); (239, "Pacific/Pohnpei"); (240, "Asia/Kabul"); (241, "Asia/Yerevan");
    (242, "Asia/Baku"); (243, "Asia/Bahrain"); (244, "Asia/Dacca"); (245, "Asia/Thimphu");
    (246, "Asia/Brunei"); (247, "Asia/Rangoon"); (248, "Asia/Phnom_Penh"); (249, "Asia/Harbin");
    (250, "Asia/Shanghai"); (251, "Asia/Chungking"); (252, "Asia/Urumqi"); (253, "Asia/Kashgar");
    (254, "Asia/Hong_Kong"); (255, "Asia/Taipei"); (256, "Asia/Macao"); (257, "Asia/Nicosia");
    (258, "Asia/Tbilisi"); (259, "Asia/Dili"); (260, "Asia/Calcutta"); (261, "Asia/Jakarta");
    (262, "Asia/Ujung_Pandang"); (263, "Asia/Jayapura"); (264, "Asia/Tehran");
    (265, "Asia/Baghdad"); (266, "Asia/Jerusalem"); (267, "Asia/Tokyo"); (268, "Asia/Amman");
    (269, "Asia/Almaty"); (270, "Asia/Aqtobe"); (271, "Asia/Aqtau"); (272, "Asia/Bishkek");
    (273, "Asia/Seoul"); (274, "Asia/Pyongyang"); (275, "Asia/Kuwait"); (276, "Asia/Vientiane");
    (277, "Asia/Beirut"); (278, "Asia/Kuala_Lumpur"); (279, "Asia/Kuching"); (280, "Asia/Hovd");
    (281, "Asia/Ulaanbaatar"); (282, "Asia/Katmandu"); (283, "Asia/Muscat");
    (284, "Asia/Karachi"); (285, "Asia/Gaza"); (286, "Asia/Manila"); (287, "Asia/Qatar");
    (288, "Asia/Riyadh"); (292, "Asia/Singapore"); (293, "Asia/Colombo"); (294, "Asia/Damascus");
    (295, "Asia/Dushanbe"); (296, "Asia/Bangkok"); (297, "Asia/Ashgabat"); (298, "Asia/Dubai");
    (299, "Asia/Samarkand"); (300, "Asia/Tashkent"); (301, "Asia/Saigon"); (302, "Asia/Aden");
    (303, "Asia/Yekaterinburg"); (304, "Asia/Omsk"); (305, "Asia/Novosibirsk");
    (306, "Asia/Krasnoyarsk"); (307, "Asia/Irkutsk"); (308, "Asia/Yakutsk");
    (309, "Asia/Vladivostok"); (310, "Asia/Magadan"); (311, "Asia/Kamchatka");
    (312, "Asia/Anadyr"); (313, "Asia/Pontianak"); (314, "Asia/Qyzylorda"); (315, "Asia/Oral");
    (316, "Asia/Choibalsan"); (317, "Asia/Sakhalin"); (318, "America/Sitka");
    (319, "America/Metlakatla"); (320, "America/North_Dakota/Beulah"); (321, "Africa/Juba");
    (322, "America/Lower_Princes"); (323, "America/Kralendijk"); (324, "Asia/Hebron");
    (325, "America/Creston"); (326, "Asia/Khandyga"); (327, "Asia/Ust-Nera");
    (328, "Europe/Busingen"); (329, "Antarctica/Troll"); (330, "Atlantic/Bermuda");
    (331, "Atlantic/Stanley"); (332, "Atlantic/South_Georgia"); (333, "Atlantic/Faroe");
    (334, "Atlantic/Reykjavik"); (335, "Asia/Chita"); (336, "Atlantic/Azores");
    (337, "Atlantic/Madeira"); (338, "Atlantic/Canary"); (339, "Atlantic/Cape_Verde");
    (340, "Atlantic/St_Helena"); (341, "Asia/Srednekolymsk"); (342, "Pacific/Bougainville");
    (343, "America/Fort_Nelson"); (344, "Europe/Astrakhan"); (345, "Australia/Darwin");
    (346, "Australia/Perth"); (347, "Australia/Brisbane"); (348, "Australia/Lindeman");
    (349, "Australia/Adelaide"); (350, "Australia/Hobart"); (351, "Australia/Melbourne");
    (352, "Australia/Sydney"); (353, "Australia/Broken_Hill"); (354, "Australia/Lord_Howe");
    (355, "Australia/Currie"); (356, "Australia/Eucla"); (357, "Europe/Kirov");
    (358, "Europe/Ulyanovsk"); (359, "Asia/Barnaul"); (360, "Asia/Tomsk"); (361, "Asia/Yangon");
    (362, "Asia/Famagusta"); (363, "Asia/Atyrau"); (364, "Europe/Saratov"); (365, "WET");
    (366, "CET"); (367, "MET"); (368, "EET"); (369, "Europe/London"); (370, "Europe/Belfast");
    (371, "Europe/Dublin"); (372, "Europe/Tirane"); (373, "Europe/Andorra");
    (374, "Europe/Vienna"); (375, "Europe/Minsk"); (376, "Europe/Brussels");
    (377, "Europe/Sofia"); (378, "Europe/Prague"); (379, "Europe/Copenhagen");
    (380, "Europe/Tallinn"); (381, "Europe/Helsinki"); (382, "Europe/Paris");
    (383, "Europe/Berlin"); (384, "Europe/Gibraltar"); (385, "Europe/Athens");
    (386, "Europe/Budapest"); (387, "Europe/Rome"); (388, "Europe/Riga"); (389, "Europe/Vaduz");
    (390, "Europe/Vilnius"); (391, "Europe/Luxembourg"); (392, "Europe/Malta");
    (393, "Europe/Chisinau"); (394, "America/Punta_Arenas"); (395, "Europe/Monaco");
    (396, "Europe/Amsterdam"); (397, "Europe/Oslo"); (398, "Europe/Warsaw");
    (399, "Europe/Lisbon"); (400, "Europe/Bucharest"); (401, "Europe/Kaliningrad");
    (402, "Europe/Moscow"); (403, "Europe/Samara"); (404, "Europe/Madrid");
    (405, "Europe/Stockholm"); (406, "Europe/Zurich"); (407, "Europe/Istanbul");
    (408, "Europe/Kiev"); (409, "Europe/Uzhgorod"); (410, "Europe/Zaporozhye");
    (411, "Europe/Simferopol"); (412, "Europe/Belgrade"); (413, "Europe/Volgograd");
    (414, "Asia/Qostanay"); (415, "America/Nuuk"); (416, "Pacific/Kanton"); (417, "Europe/Kyiv");
    (418, "America/Ciudad_Juarez"); (419, "America/Coyhaique"); (435, "Indian/Kerguelen");
    (436, "Indian/Chagos"); (437, "Indian/Maldives"); (438, "Indian/Antananarivo");
    (439, "Indian/Christmas"); (440, "Indian/Cocos"); (441, "Indian/Comoro");
    (442, "Indian/Mahe"); (443, "Indian/Mauritius"); (444, "Indian/Mayotte");
    (445, "Indian/Reunion"); (450, "Pacific/Honolulu"); (451, "Pacific/Easter");
    (452, "Pacific/Galapagos"); (453, "Pacific/Rarotonga"); (454, "Pacific/Fiji");
    (455, "Pacific/Gambier"); (456, "Pacific/Marquesas"); (457, "Pacific/Tahiti");
    (458, "Pacific/Guam"); (459, "Pacific/Tarawa"); (460, "Pacific/Enderbury");
    (461, "Pacific/Kiritimati"); (462, "Pacific/Saipan"); (463, "Pacific/Majuro");
    (464, "Pacific/Kwajalein"); (466, "Pacific/Truk"); (467, "Pacific/Ponape");
    (468, "Pacific/Kosrae"); (469, "Pacific/Nauru"); (470, "Pacific/Noumea");
    (471, "Pacific/Auckland"); (472, "Pacific/Chatham"); (473, "Pacific/Niue");
    (474, "Pacific/Norfolk"); (475, "Pacific/Palau"); (476, "Pacific/Port_Moresby");
    (477, "Pacific/Pitcairn"); (478, "Pacific/Pago_Pago"); (479, "Pacific/Apia");
    (481, "Pacific/Guadalcanal"); (482, "Pacific/Fakaofo"); (483, "Pacific/Tongatapu");
    (484, "Pacific/Funafuti"); (485, "Pacific/Johnston"); (486, "Pacific/Midway");
    (487, "Pacific/Wake"); (488, "Pacific/Efate"); (489, "Pacific/Wallis"); (513, "GMT");
    (540, "Etc/Universal"); (541, "UCT"); (556, "Egypt"); (558, "Africa/Asmera"); (568, "Libya");
    (570, "Africa/Timbuktu"); (612, "US/Eastern"); (613, "US/Central"); (614, "Navajo");
    (615, "US/Pacific"); (618, "US/Alaska"); (620, "America/Atka"); (621, "US/Arizona");
    (623, "America/Fort_Wayne"); (625, "America/Knox_IN"); (627, "America/Kentucky/Louisville");
    (628, "US/Michigan"); (630, "Canada/Newfoundland"); (632, "Canada/Atlantic");
    (634, "Canada/Eastern"); (638, "Canada/Central"); (639, "Canada/East-Saskatchewan");
    (641, "Canada/Mountain"); (642, "Canada/Pacific"); (650, "Canada/Yukon");
    (653, "Mexico/General"); (656, "Mexico/BajaSur"); (657, "America/Ensenada"); (665, "Cuba");
    (670, "America/Marigot"); (674, "Jamaica"); (686, "America/Virgin");
    (687, "America/Argentina/Buenos_Aires"); (689, "America/Argentina/Cordoba");
    (690, "America/Argentina/Jujuy"); (691, "America/Argentina/Catamarca");
    (692, "America/Argentina/Mendoza"); (695, "Brazil/DeNoronha"); (700, "Brazil/East");
    (704, "Brazil/West"); (705, "Brazil/Acre"); (706, "Chile/Continental");
    (733, "America/Coral_Harbour"); (748, "Antarctica/South_Pole"); (756, "Asia/Dhaka");
    (757, "Asia/Thimbu"); (762, "PRC"); (763, "Asia/Chongqing"); (766, "Hongkong"); (767, "ROC");
    (768, "Asia/Macau"); (769, "Europe/Nicosia"); (772, "Asia/Kolkata"); (774, "Asia/Makassar");
    (776, "Iran"); (778, "Asia/Tel_Aviv"); (779, "Japan"); (785, "ROK");
    (793, "Asia/Ulan_Bator"); (797, "Asia/Kathmandu"); (804, "Singapore");
    (809, "Asia/Ashkhabad"); (813, "Asia/Ho_Chi_Minh"); (845, "Atlantic/Faeroe");
    (846, "Iceland"); (857, "Australia/North"); (858, "Australia/West");
    (859, "Australia/Queensland"); (861, "Australia/South"); (862, "Australia/Tasmania");
    (863, "Australia/Victoria"); (864, "Australia/ACT"); (865, "Australia/Yancowinna");
    (866, "Australia/LHI"); (881, "GB"); (883, "Eire"); (890, "Europe/Bratislava");
    (893, "Europe/Mariehamn"); (899, "Europe/Vatican"); (905, "Europe/Tiraspol");
    (909, "Arctic/Longyearbyen"); (910, "Poland"); (911, "Portugal"); (914, "W-SU");
    (919, "Turkey"); (924, "Europe/Ljubljana"); (962, "US/Hawaii"); (963, "Chile/EasterIsland");
    (976, "Kwajalein"); (978, "Pacific/Yap"); (983, "NZ"); (984, "NZ-CHAT"); (990, "US/Samoa");
    (1025, "Etc/GMT+0"); (1052, "Universal"); (1126, "US/Mountain"); (1132, "US/Aleutian");
    (1135, "US/East-Indiana"); (1137, "US/Indiana-Starke"); (1151, "Canada/Saskatchewan");
    (1169, "Mexico/BajaNorte"); (1182, "America/St_Barthelemy"); (1201, "America/Rosario");
    (1203, "America/Argentina/ComodRivadavia"); (1217, "America/Rio_Branco"); (1290, "Israel");
    (1376, "Australia/Canberra"); (1393, "GB-Eire"); (1411, "Europe/San_Marino");
    (1421, "Atlantic/Jan_Mayen"); (1431, "Asia/Istanbul"); (1436, "Europe/Sarajevo");
    (1502, "Pacific/Samoa"); (1537, "GMT+0"); (1564, "Etc/Zulu"); (1637, "CST");
    (1638, "America/Shiprock"); (1639, "US/Pacific-New"); (1647, "America/Indiana/Indianapolis");
    (1888, "Australia/NSW"); (1905, "Europe/Jersey"); (1948, "Europe/Skopje");
    (2049, "Etc/GMT-0"); (2076, "Zulu"); (2151, "PST"); (2417, "Europe/Guernsey");
    (2460, "Europe/Zagreb"); (2561, "GMT-0"); (2929, "Europe/Isle_of_Man");
    (2972, "Europe/Podgorica"); (3073, "Etc/GMT0"); (3585, "GMT0"); (4097, "Etc/Greenwich");
    (4609, "Greenwich"); (5121, "UTC") ].

Definition timezone_region_name (region_id : Z) : Res string :=
  r ← binary_search_by_key REGION_NAMES region_id;
  match r with
  | Some index => '(_, name) ← or_panic (REGION_NAMES !! index); Ok name
  | None => Err (UnsupportedFeature "unknown TIMESTAMP WITH TIME ZONE region ID")
  end.

Record OracleTimeZoneRegion := mkRegion { region_id : Z }.

Definition OracleTimeZoneRegion_from_id (id : Z) : Res OracleTimeZoneRegion :=
  _ ← timezone_region_name id; Ok (mkRegion id).

Definition OracleTimeZoneRegion_name (r : OracleTimeZoneRegion) : Res string :=
  timezone_region_name (region_id r).

(** Strictly increasing identities, checked pair by pair. *)
Fixpoint increasing (bound : Z) (table : list (Z * string)) : bool :=
  match table with
  | [] => true
  | (k, _) :: table => (bound <? k) && increasing k table
  end.

Lemma increasing_spec bound table :
  increasing bound table = true →
  keys_sorted table ∧ ∀ i k v, table !! i = Some (k, v) → bound < k.
Proof.
  revert bound. induction table as [|[k0 v0] table IH]; intros bound H.
  { split; [by intros [|]|by intros [|]]. }
  cbn in H. apply andb_prop in H as [Hk [Hs Hb]%IH]. apply Z.ltb_lt in Hk. split.
  - intros [|i] [|j] ki vi kj vj Hi Hj Hij; cbn in *; simplify_eq; try lia; [by eapply Hb|].
    by eapply (Hs i j); [..|lia].
  - intros [|i] k v Hi; cbn in *; simplify_eq; [done|]. specialize (Hb _ _ _ Hi). lia.
Qed.

Lemma REGION_NAMES_sorted : keys_sorted REGION_NAMES.
Proof. apply (increasing_spec 0). by vm_compute. Qed.

(** The binary search over the region table is the table: an identity
    resolves to a name exactly when the table pairs them, and every other
    identity is refused. *)
Theorem timezone_region_name_exact id :
  match timezone_region_name id with
  | Ok name => (id, name) ∈ REGION_NAMES ∧
      ∀ other, (id, other) ∈ REGION_NAMES → other = name
  | Err e => e = UnsupportedFeature "unknown TIMESTAMP WITH TIME ZONE region ID" ∧
      ∀ name, (id, name) ∉ REGION_NAMES
  | Panic | Diverge => False
  end.
Proof.
  unfold timezone_region_name.
  destruct (binary_search_spec REGION_NAMES id REGION_NAMES_sorted) as (r & -> & Hr).
  rewrite res_bindE. destruct r as [i|].
  - destruct Hr as [name Hi]. rewrite Hi. cbn [or_panic]. rewrite res_bindE.
    split; [by eapply list_elem_of_lookup_2|].
    intros other [j Hj]%list_elem_of_lookup_1.
    pose proof (REGION_NAMES_sorted i j _ _ _ _ Hi Hj).
    pose proof (REGION_NAMES_sorted j i _ _ _ _ Hj Hi).
    assert (i = j) as -> by lia. congruence.
  - split; [done|]. by intros name [j Hj%Hr]%list_elem_of_lookup_1.
Qed.

(** Every identity of the table fits the 13 bits the wire gives it. *)
Lemma REGION_NAMES_wire id name : (id, name) ∈ REGION_NAMES → 0 < id < 8192.
Proof.
  intros H. assert (forallb (λ e, between 1 8191 e.1) REGION_NAMES = true) as HF by by vm_compute.
  rewrite forallb_forall in HF. apply list_elem_of_In, HF, between_true in H. cbn in H. lia.
Qed.
