(* ===== verification/Calendar.v ===== *)
(** * Civil calendar arithmetic ([thin/codecs.rs])

    [days_from_civil], [civil_from_days] and [adjust_datetime_by_minutes],
    every operation checked at its machine width, against an independent
    definition of the proleptic Gregorian calendar (leap years, month lengths,
    the day after a date). *)

From S2P Require Import Prelude.
From S2P Require Import Protocol.

Definition i32 (z : Z) : Res Z := arith I32_MIN I32_MAX z.
Definition i64 (z : Z) : Res Z := arith I64_MIN I64_MAX z.

(** [days_from_civil] ([i32] arithmetic, widened to [i64] at the end). *)
Definition days_from_civil (year month day : Z) : Res Z :=
  if negb (between 1 12 month) || negb (between 1 31 day)
  then Err (TtcDecode "invalid TIMESTAMP date")
  else
    year ← i32 (year - (if month <=? 2 then 1 else 0));
    shifted ← (if 0 <=? year then Ok year else i32 (year - 399));
    let era := div_t shifted 400 in
    era_years ← i32 (era * 400);
    year_of_era ← i32 (year - era_years);
    month_prime ← i32 (month + (if 2 <? month then -3 else 9));
    t ← i32 (153 * month_prime);
    t ← i32 (t + 2);
    t ← i32 (div_t t 5 + day);
    day_of_year ← i32 (t - 1);
    t ← i32 (year_of_era * 365);
    t ← i32 (t + div_t year_of_era 4);
    t ← i32 (t - div_t year_of_era 100);
    day_of_era ← i32 (t + day_of_year);
    t ← i64 (era * 146097);
    t ← i64 (t + day_of_era);
    i64 (t - 719468).

(** [civil_from_days] ([i64] arithmetic, narrowed at the end). *)
Definition civil_from_days (days : Z) : Res (Z * Z * Z) :=
  days ← i64 (days + 719468);
  shifted ← (if 0 <=? days then Ok days else i64 (days - 146096));
  let era := div_t shifted 146097 in
  t ← i64 (era * 146097);
  day_of_era ← i64 (days - t);
  t ← i64 (day_of_era - div_t day_of_era 1460);
  t ← i64 (t + div_t day_of_era 36524);
  t ← i64 (t - div_t day_of_era 146096);
  let year_of_era := div_t t 365 in
  t ← i64 (era * 400);
  year ← i64 (year_of_era + t);
  t ← i64 (365 * year_of_era);
  t ← i64 (t + div_t year_of_era 4);
  t ← i64 (t - div_t year_of_era 100);
  day_of_year ← i64 (day_of_era - t);
  t ← i64 (5 * day_of_year);
  t ← i64 (t + 2);
  let month_prime := div_t t 153 in
  t ← i64 (153 * month_prime);
  t ← i64 (t + 2);
  t ← i64 (day_of_year - div_t t 5);
  day ← i64 (t + 1);
  month ← i64 (month_prime + (if month_prime <? 10 then 3 else -9));
  year ← i64 (year + (if month <=? 2 then 1 else 0));
  year ← ok_or (try_range I32_MIN I32_MAX year) (TtcDecode "invalid adjusted TIMESTAMP year");
  month ← ok_or (try_range 0 U8_MAX month) (TtcDecode "invalid adjusted TIMESTAMP month");
  day ← ok_or (try_range 0 U8_MAX day) (TtcDecode "invalid adjusted TIMESTAMP day");
  Ok (year, month, day).

(** [adjust_datetime_by_minutes]; [div_euclid] and [rem_euclid] by a positive
    divisor are floor division and its remainder. *)
Definition adjust_datetime_by_minutes (year month day hour minute second offset_minutes : Z)
  : Res (Z * Z * Z * Z * Z * Z) :=
  days ← days_from_civil year month day;
  t1 ← i64 (hour * 3600);
  t2 ← i64 (minute * 60);
  t3 ← i64 (t1 + t2);
  seconds_of_day ← i64 (t3 + second);
  offset_seconds ← i64 (offset_minutes * 60);
  total_seconds ← ok_or
    (d ← try_range I64_MIN I64_MAX (days * 86400);
     d ← try_range I64_MIN I64_MAX (d + seconds_of_day);
     try_range I64_MIN I64_MAX (d + offset_seconds))
    (TtcDecode "TIMESTAMP WITH TIME ZONE offset overflow");
  let adjusted_days := total_seconds / 86400 in
  let adjusted_seconds := total_seconds mod 86400 in
  civil ← civil_from_days adjusted_days;
  let '(year, month, day) := civil in
  hour ← ok_or (try_range 0 U8_MAX (div_t adjusted_seconds 3600))
           (TtcDecode "invalid adjusted TIMESTAMP hour");
  minute ← ok_or (try_range 0 U8_MAX (div_t (rem_t adjusted_seconds 3600) 60))
             (TtcDecode "invalid adjusted TIMESTAMP minute");
  second ← ok_or (try_range 0 U8_MAX (rem_t adjusted_seconds 60))
             (TtcDecode "invalid adjusted TIMESTAMP second");
  Ok (year, month, day, hour, minute, second).

(** ** The reference calendar *)

Definition is_leap (y : Z) : bool :=
  (y mod 4 =? 0) && (negb (y mod 100 =? 0) || (y mod 400 =? 0)).

Definition days_in_month (y m : Z) : Z :=
  if m =? 2 then (if is_leap y then 29 else 28)
  else if (m =? 4) || (m =? 6) || (m =? 9) || (m =? 11) then 30 else 31.

Definition valid_date (y m d : Z) : bool := between 1 12 m && between 1 (days_in_month y m) d.

Definition next_day (y m d : Z) : Z * Z * Z :=
  if d <? days_in_month y m then (y, m, d + 1)
  else if m <? 12 then (y, m + 1, 1) else (y + 1, 1, 1).

(** ** The closed formulas, without widths *)

Definition doe_of (yoe month day : Z) : Z :=
  let mp := month + (if 2 <? month then -3 else 9) in
  yoe * 365 + yoe / 4 - yoe / 100 + ((153 * mp + 2) / 5 + day - 1).

Definition dfc (y month day : Z) : Z :=
  let y := y - (if month <=? 2 then 1 else 0) in
  y / 400 * 146097 + doe_of (y mod 400) month day - 719468.

(** Year of era (counted from March), month and day of a day of era. *)
Definition civil_of_doe (doe : Z) : Z * Z * Z :=
  let yoe := (doe - doe / 1460 + doe / 36524 - doe / 146096) / 365 in
  let doy := doe - (365 * yoe + yoe / 4 - yoe / 100) in
  let mp := (5 * doy + 2) / 153 in
  (yoe, mp + (if mp <? 10 then 3 else -9), doy - (153 * mp + 2) / 5 + 1).

Definition cfd (days : Z) : Z * Z * Z :=
  let days := days + 719468 in
  let '(yoe, month, day) := civil_of_doe (days mod 146097) in
  (yoe + days / 146097 * 400 + (if month <=? 2 then 1 else 0), month, day).

Ltac quot_div := unfold div_t, rem_t; rewrite ?Z.rem_mod_nonneg by lia; rewrite ?Z.quot_div_nonneg by lia.

(** Rust's "shift negatives, then truncate" is floor division. *)
Lemma era_floor a b : 0 < b → div_t (if 0 <=? a then a else a - (b - 1)) b = a / b.
Proof.
  intros Hb. unfold div_t. destruct (Z.leb_spec 0 a).
  - by rewrite Z.quot_div_nonneg by lia.
  - rewrite <- (Z.opp_involutive (a - (b - 1))), Z.quot_opp_l, Z.quot_div_nonneg by lia.
    apply Z.div_unique with (r := b - 1 - (- (a - (b - 1))) mod b).
    + pose proof (Z.mod_pos_bound (- (a - (b - 1))) b). lia.
    + pose proof (Z.div_mod (- (a - (b - 1))) b). lia.
Qed.

Lemma shifted_run lo hi a k :
  lo <= a <= hi → 0 <= k → (a < 0 → lo <= a - k) → 0 <= hi →
  (if 0 <=? a then @Ok ProtocolError Z a else arith lo hi (a - k)) =
    Ok (if 0 <=? a then a else a - k).
Proof.
  intros. destruct (Z.leb_spec 0 a); [done|]. by rewrite arith_in by lia.
Qed.

Lemma days_from_civil_run y m d :
  I32_MIN + 400 <= y <= I32_MAX → 1 <= m <= 12 → 1 <= d <= 31 →
  days_from_civil y m d = Ok (dfc y m d).
Proof.
  intros Hy Hm Hd. unfold I32_MIN, I32_MAX in Hy. unfold days_from_civil, dfc, doe_of.
  rewrite (proj2 (between_true 1 12 m)), (proj2 (between_true 1 31 d)) by lia. cbn [negb orb].
  set (y0 := y - (if m <=? 2 then 1 else 0)).
  assert (y - 1 <= y0 <= y) by (unfold y0; destruct (m <=? 2); lia). clearbody y0.
  set (mp := m + (if 2 <? m then -3 else 9)).
  assert (0 <= mp <= 11) by (unfold mp; destruct (Z.ltb_spec 2 m); lia). clearbody mp.
  pose proof (era_floor y0 400 ltac:(lia)) as He. change (400 - 1) with 399 in He.
  pose proof (Z.div_mod y0 400). pose proof (Z.mod_pos_bound y0 400).
  set (yoe := y0 mod 400) in *. set (era := y0 / 400) in *.
  assert (y0 - era * 400 = yoe) as Hyoe by lia. clearbody yoe era.
  unfold i32, i64, I32_MIN, I32_MAX, I64_MIN, I64_MAX.
  arith_step. rewrite shifted_run by lia. st_run. rewrite He.
  assert (0 <= yoe / 4 <= 100) by (split; [apply Z.div_pos|apply Z.div_le_upper_bound]; lia).
  assert (0 <= yoe / 100 <= 4) by (split; [apply Z.div_pos|apply Z.div_le_upper_bound]; lia).
  assert (0 <= (153 * mp + 2) / 5 <= 400)
    by (split; [apply Z.div_pos|apply Z.div_le_upper_bound]; lia).
  repeat (rewrite ?Hyoe; quot_div; arith_step). by f_equal.
Qed.

(** ** Years and days of an era

    A year of era runs from March to February, so its leap day, if any, is its
    last day.  Small facts (400 years, 366 days of a year) are checked by
    evaluation; the rest is arithmetic. *)

Definition year_start (yoe : Z) : Z := 365 * yoe + yoe / 4 - yoe / 100.
Definition year_length (yoe : Z) : Z := if is_leap (yoe + 1) then 366 else 365.
Definition yoe_raw (doe : Z) : Z := doe - doe / 1460 + doe / 36524 - doe / 146096.
Definition day_offset (month : Z) : Z :=
  (153 * (month + (if 2 <? month then -3 else 9)) + 2) / 5.
Definition month_day (doy : Z) : Z * Z :=
  let mp := (5 * doy + 2) / 153 in
  (mp + (if mp <? 10 then 3 else -9), doy - (153 * mp + 2) / 5 + 1).

Lemma doe_of_split yoe m d : doe_of yoe m d = year_start yoe + (day_offset m + d - 1).
Proof. unfold doe_of, year_start, day_offset. lia. Qed.

Lemma yoe_raw_mono a b : 0 <= a <= b → b <= 146096 → yoe_raw a <= yoe_raw b.
Proof.
  intros. unfold yoe_raw.
  assert (a - a / 1460 <= b - b / 1460) by (Z.to_euclidean_division_equations; lia).
  assert (a / 36524 - a / 146096 <= b / 36524 - b / 146096)
    by (Z.to_euclidean_division_equations; lia). lia.
Qed.

Lemma year_bounds_check :
  all_below 400 (λ y,
    (365 * y <=? yoe_raw (year_start y)) &&
    (yoe_raw (year_start y + year_length y - 1) <? 365 * (y + 1)) &&
    (year_start y + year_length y - 1 <=? 146096) &&
    ((y =? 399) || (year_start (y + 1) =? year_start y + year_length y))) = true.
Proof. by vm_compute. Qed.

Lemma year_bounds y :
  0 <= y <= 399 →
  365 * y <= yoe_raw (year_start y) ∧
  yoe_raw (year_start y + year_length y - 1) < 365 * (y + 1) ∧
  year_start y + year_length y - 1 <= 146096 ∧
  (y ≠ 399 → year_start (y + 1) = year_start y + year_length y).
Proof.
  intros Hy. pose proof (all_below_spec _ _ y year_bounds_check ltac:(lia)) as H.
  cbn beta in H. lia.
Qed.

Lemma yoe_of_day yoe doy :
  0 <= yoe <= 399 → 0 <= doy < year_length yoe →
  0 <= year_start yoe + doy <= 146096 ∧ yoe_raw (year_start yoe + doy) / 365 = yoe.
Proof.
  intros Hy Hd. destruct (year_bounds yoe Hy) as (H1&H2&H3&_).
  assert (0 <= year_start yoe) by (unfold year_start; Z.to_euclidean_division_equations; lia).
  split; [lia|]. pose proof (yoe_raw_mono (year_start yoe) (year_start yoe + doy)).
  pose proof (yoe_raw_mono (year_start yoe + doy) (year_start yoe + year_length yoe - 1)).
  symmetry. apply Z.div_unique with (r := yoe_raw (year_start yoe + doy) - 365 * yoe); lia.
Qed.

(** Every day of the era lies in one of its years. *)
Lemma day_in_year doe :
  0 <= doe <= 146096 →
  ∃ yoe, 0 <= yoe <= 399 ∧ year_start yoe <= doe < year_start yoe + year_length yoe.
Proof.
  intros Hdoe. cut (∀ n : nat, Z.of_nat n <= 399 →
    doe < year_start (Z.of_nat n) + year_length (Z.of_nat n) →
    ∃ yoe, 0 <= yoe <= 399 ∧ year_start yoe <= doe < year_start yoe + year_length yoe).
  { intros H. apply (H 399%nat); [lia|].
    replace (year_start _ + year_length _) with 146097 by (by vm_compute). lia. }
  induction n as [|n IH]; intros Hn Hlt.
  - exists 0. split; [lia|]. change (Z.of_nat 0) with 0 in Hlt.
    change (year_start 0) with 0 in *. lia.
  - destruct (Z.le_gt_cases (year_start (Z.of_nat (S n))) doe); [by exists (Z.of_nat (S n)); lia|].
    apply IH; [lia|]. destruct (year_bounds (Z.of_nat n)) as (_&_&_&H4); [lia|].
    replace (Z.of_nat n + 1) with (Z.of_nat (S n)) in H4 by lia. lia.
Qed.

(** Months and days of a year that starts in March. *)
Definition month_lengths_ok (leap : bool) (m d : Z) : bool :=
  between 1 12 m &&
  between 1 (if m =? 2 then (if leap then 29 else 28)
             else if (m =? 4) || (m =? 6) || (m =? 9) || (m =? 11) then 30 else 31) d.

Lemma valid_date_lengths y m d : valid_date y m d = month_lengths_ok (is_leap y) m d.
Proof. done. Qed.

Lemma month_day_check (leap : bool) :
  all_below (if leap then 366 else 365) (λ doy,
    let '(m, d) := month_day doy in
    month_lengths_ok leap m d && (day_offset m + d - 1 =? doy)) &&
  all_below 13 (λ m, all_below 32 (λ d, negb (month_lengths_ok leap m d) ||
    (between 0 (if leap then 365 else 364) (day_offset m + d - 1) &&
     bool_decide (month_day (day_offset m + d - 1) = (m, d))))) = true.
Proof. by destruct leap; vm_compute. Qed.

Lemma month_day_sound leap doy m d :
  0 <= doy < (if leap : bool then 366 else 365) → month_day doy = (m, d) →
  month_lengths_ok leap m d = true ∧ day_offset m + d - 1 = doy.
Proof.
  intros Hd Hmd. pose proof (month_day_check leap) as [H _]%andb_prop.
  apply (all_below_spec _ _ doy) in H; [|done]. cbn beta in H. rewrite Hmd in H.
  apply andb_prop in H as [? ?%Z.eqb_eq]. done.
Qed.

Lemma month_day_complete (leap : bool) m d :
  month_lengths_ok leap m d = true →
  0 <= day_offset m + d - 1 < (if leap then 366 else 365) ∧
  month_day (day_offset m + d - 1) = (m, d).
Proof.
  intros Hok. pose proof (month_day_check leap) as [_ H]%andb_prop.
  pose proof Hok as [Hm Hd]%andb_prop. apply between_true in Hm, Hd.
  apply (all_below_spec _ _ m) in H; [|lia]. apply (all_below_spec _ _ d) in H;
    [|repeat case_match; lia]. cbn beta in H. rewrite Hok in H. cbn [negb orb] in H.
  apply andb_prop in H as [H1%between_true H2%bool_decide_eq_true].
  split; [destruct leap; lia|done].
Qed.

Lemma year_length_leap yoe : year_length yoe = if is_leap (yoe + 1) then 366 else 365.
Proof. done. Qed.

(** The calendar year of a month of a year of era. *)
Definition yoe_year (yoe month : Z) : Z := yoe + (if month <=? 2 then 1 else 0).

(** February is the only month whose length depends on the year, and it falls
    in the calendar year after the one the era year starts in. *)
Lemma valid_date_yoe yoe m d :
  valid_date (yoe_year yoe m) m d = month_lengths_ok (is_leap (yoe + 1)) m d.
Proof.
  rewrite valid_date_lengths. unfold month_lengths_ok, yoe_year.
  destruct (Z.eqb_spec m 2) as [->|]; done.
Qed.

Lemma civil_of_doe_split doe :
  civil_of_doe doe =
    (yoe_raw doe / 365, (month_day (doe - year_start (yoe_raw doe / 365))).1,
     (month_day (doe - year_start (yoe_raw doe / 365))).2).
Proof. done. Qed.

Lemma month_lengths_range leap m d :
  month_lengths_ok leap m d = true → 1 <= m <= 12 ∧ 1 <= d <= 31.
Proof.
  unfold month_lengths_ok. intros [Hm Hd]%andb_prop. apply between_true in Hm, Hd.
  repeat case_match; lia.
Qed.

(** The two conversions are inverse on the days of one era. *)
Lemma doe_roundtrip doe :
  0 <= doe <= 146096 → ∃ yoe m d, civil_of_doe doe = (yoe, m, d) ∧ 0 <= yoe <= 399 ∧
    month_lengths_ok (is_leap (yoe + 1)) m d = true ∧ doe_of yoe m d = doe ∧
    yoe_raw doe / 365 = yoe ∧ 0 <= doe - year_start yoe <= 365.
Proof.
  intros Hdoe. destruct (day_in_year doe Hdoe) as (yoe & Hy & Hd).
  destruct (yoe_of_day yoe (doe - year_start yoe) Hy ltac:(lia)) as [_ Hyoe].
  replace (year_start yoe + (doe - year_start yoe)) with doe in Hyoe by lia.
  rewrite civil_of_doe_split, Hyoe.
  destruct (month_day (doe - year_start yoe)) as [m d] eqn:Hmd.
  rewrite year_length_leap in Hd.
  assert (0 <= doe - year_start yoe < if is_leap (yoe + 1) then 366 else 365) as Hr by lia.
  destruct (month_day_sound _ _ m d Hr Hmd) as [Hok Hoff].
  exists yoe, m, d. rewrite doe_of_split. split; [done|]. split; [lia|]. split; [done|].
  destruct (is_leap (yoe + 1)); lia.
Qed.

Lemma date_roundtrip yoe m d :
  0 <= yoe <= 399 → month_lengths_ok (is_leap (yoe + 1)) m d = true →
  0 <= doe_of yoe m d <= 146096 ∧ civil_of_doe (doe_of yoe m d) = (yoe, m, d).
Proof.
  intros Hy Hok. destruct (month_day_complete _ m d Hok) as [Hr Hmd].
  rewrite doe_of_split. destruct (yoe_of_day yoe (day_offset m + d - 1) Hy Hr) as [Hb Hyoe].
  split; [done|]. rewrite civil_of_doe_split, Hyoe.
  replace (year_start yoe + _ - year_start yoe) with (day_offset m + d - 1) by lia.
  by rewrite Hmd.
Qed.

Lemma is_leap_era y k : is_leap (y + 400 * k) = is_leap y.
Proof. unfold is_leap. f_equal; [|f_equal]; Z.to_euclidean_division_equations; lia. Qed.

(** ** All years *)

Lemma shift_year y m : ∃ e yoe, y = yoe_year yoe m + 400 * e ∧ 0 <= yoe <= 399.
Proof.
  exists ((y - (if m <=? 2 then 1 else 0)) / 400), ((y - (if m <=? 2 then 1 else 0)) mod 400).
  unfold yoe_year. pose proof (Z.div_mod (y - (if m <=? 2 then 1 else 0)) 400).
  pose proof (Z.mod_pos_bound (y - (if m <=? 2 then 1 else 0)) 400). lia.
Qed.

Lemma div_mod_offset a b e : 0 < b → 0 <= a < b → (a + b * e) / b = e ∧ (a + b * e) mod b = a.
Proof.
  intros. rewrite (Z.mul_comm b e), Z.div_add, Z.mod_add, Z.div_small, Z.mod_small by lia. lia.
Qed.

Lemma dfc_era yoe m d e :
  0 <= yoe <= 399 → dfc (yoe_year yoe m + 400 * e) m d = e * 146097 + doe_of yoe m d - 719468.
Proof.
  intros Hy. unfold dfc, yoe_year.
  replace (yoe + _ + 400 * e - _) with (yoe + 400 * e) by lia.
  destruct (div_mod_offset yoe 400 e) as [-> ->]; lia.
Qed.

Lemma cfd_dfc y m d : valid_date y m d = true → cfd (dfc y m d) = (y, m, d).
Proof.
  intros Hv. destruct (shift_year y m) as (e & yoe & -> & Hy).
  rewrite dfc_era by done. rewrite valid_date_lengths, is_leap_era, <- valid_date_lengths in Hv.
  rewrite valid_date_yoe in Hv. destruct (date_roundtrip yoe m d Hy Hv) as [Hr Hc].
  unfold cfd. replace (_ + 719468) with (doe_of yoe m d + 146097 * e) by lia.
  destruct (div_mod_offset (doe_of yoe m d) 146097 e) as [-> ->]; [lia..|].
  rewrite Hc. unfold yoe_year. do 2 f_equal. lia.
Qed.

Lemma dfc_cfd days y m d :
  cfd days = (y, m, d) → valid_date y m d = true ∧ dfc y m d = days.
Proof.
  unfold cfd. pose proof (Z.mod_pos_bound (days + 719468) 146097).
  pose proof (Z.div_mod (days + 719468) 146097).
  destruct (doe_roundtrip ((days + 719468) mod 146097)) as (yoe&m'&d'&Hc&Hy&Hok&Hd&_); [lia|].
  rewrite Hc. intros [= <- <- <-].
  replace (yoe + _ * 400 + _) with (yoe_year yoe m' + 400 * ((days + 719468) / 146097))
    by (unfold yoe_year; lia).
  split; [|rewrite dfc_era by done; lia].
  by rewrite valid_date_lengths, is_leap_era, <- valid_date_lengths, valid_date_yoe.
Qed.

(** The year count in closed form, from which the step to the next day follows. *)
Lemma dfc_closed y m d :
  dfc y m d = let y0 := y - (if m <=? 2 then 1 else 0) in
    365 * y0 + y0 / 4 - y0 / 100 + y0 / 400 + day_offset m + d - 719469.
Proof.
  unfold dfc, doe_of, day_offset. generalize (y - (if m <=? 2 then 1 else 0)). intros y0.
  cbn zeta. generalize ((153 * (m + (if 2 <? m then -3 else 9)) + 2) / 5). intros k.
  Z.to_euclidean_division_equations. lia.
Qed.

Lemma leap_step y :
  y / 4 - y / 100 + y / 400 = (y - 1) / 4 - (y - 1) / 100 + (y - 1) / 400
    + (if is_leap y then 1 else 0).
Proof.
  destruct (is_leap y) eqn:H; unfold is_leap in H; Z.to_euclidean_division_equations; lia.
Qed.

Lemma day_offset_next y m :
  1 <= m <= 11 → m ≠ 2 → day_offset (m + 1) = day_offset m + days_in_month y m.
Proof.
  intros Hm Hne.
  assert (m = 1 ∨ m = 3 ∨ m = 4 ∨ m = 5 ∨ m = 6 ∨ m = 7 ∨ m = 8 ∨ m = 9 ∨ m = 10 ∨ m = 11)
    as Hc by lia.
  by destruct_or! Hc; subst m.
Qed.

Lemma dfc_next y m d y' m' d' :
  valid_date y m d = true → next_day y m d = (y', m', d') →
  valid_date y' m' d' = true ∧ dfc y' m' d' = dfc y m d + 1.
Proof.
  unfold valid_date, next_day. intros [Hm Hd]%andb_prop. apply between_true in Hm, Hd.
  pose proof (leap_step y) as Hleap.
  destruct (Z.ltb_spec d (days_in_month y m)) as [Hlt|Hge]; [intros [= <- <- <-]|].
  { split; [|rewrite !dfc_closed; cbn zeta; lia]. apply andb_true_intro; split; apply between_true; lia. }
  assert (d = days_in_month y m) as -> by lia.
  assert (∀ z k, 1 <= days_in_month z k) as Hpos
    by (intros; unfold days_in_month; repeat case_match; lia).
  destruct (Z.ltb_spec m 12) as [Hlt|Hge']; intros [= <- <- <-].
  - split; [apply andb_true_intro; split; apply between_true; specialize (Hpos y (m + 1)); lia|].
    rewrite !dfc_closed. cbn zeta. destruct (decide (m = 2)) as [->|].
    + change (day_offset (2 + 1)) with 0. change (day_offset 2) with 337.
      change (2 + 1 <=? 2) with false. change (2 <=? 2) with true.
      rewrite Z.sub_0_r. unfold days_in_month. cbn. destruct (is_leap y); lia.
    + rewrite (day_offset_next y m) by lia.
      replace (m + 1 <=? 2) with (m <=? 2) by lia. lia.
  - replace m with 12 by lia. split; [done|]. rewrite !dfc_closed. cbn zeta.
    change (day_offset 12) with 275. change (day_offset 1) with 306. cbn.
    replace (y + 1 - 1) with (y - 0) by lia. lia.
Qed.

(** ** [civil_from_days] at its machine widths *)

Lemma civil_from_days_run days :
  -700000000000 <= days <= 700000000000 → civil_from_days days = Ok (cfd days).
Proof.
  intros Hd. unfold civil_from_days, cfd.
  pose proof (era_floor (days + 719468) 146097 ltac:(lia)) as He.
  change (146097 - 1) with 146096 in He.
  pose proof (Z.div_mod (days + 719468) 146097) as Hdm.
  pose proof (Z.mod_pos_bound (days + 719468) 146097) as Hmod.
  set (doe := (days + 719468) mod 146097) in *. set (era := (days + 719468) / 146097) in *.
  assert (-6000000 <= era <= 6000000) as Hera by lia.
  assert (days + 719468 - era * 146097 = doe) as Hdoe by lia. clearbody doe era.
  destruct (doe_roundtrip doe ltac:(lia)) as (yoe&m&d&Hc&Hy&Hok&_&Hraw&Hdoy).
  apply month_lengths_range in Hok. rewrite Hc. rewrite civil_of_doe_split, Hraw in Hc.
  unfold month_day in Hc. cbn zeta in Hc. cbn [fst snd] in Hc. unfold year_start in Hc, Hdoy.
  unfold yoe_raw in Hraw. apply pair_equal_spec in Hc as [Hc Hday].
  apply pair_equal_spec in Hc as [_ Hmonth].
  set (doy := doe - (365 * yoe + yoe / 4 - yoe / 100)) in *.
  assert (0 <= (5 * doy + 2) / 153 <= 12)
    by (split; [apply Z.div_pos|apply Z.div_le_upper_bound]; lia).
  set (mp := (5 * doy + 2) / 153) in *.
  assert (0 <= yoe / 4 <= 100) by (split; [apply Z.div_pos|apply Z.div_le_upper_bound]; lia).
  assert (0 <= yoe / 100 <= 4) by (split; [apply Z.div_pos|apply Z.div_le_upper_bound]; lia).
  unfold i64, I64_MIN, I64_MAX. arith_step. rewrite shifted_run by lia. st_run. rewrite He.
  arith_step. rewrite Hdoe.
  assert (0 <= doe / 1460 <= 101) by (split; [apply Z.div_pos|apply Z.div_le_upper_bound]; lia).
  assert (0 <= doe / 36524 <= 4) by (split; [apply Z.div_pos|apply Z.div_le_upper_bound]; lia).
  assert (0 <= doe / 146096 <= 1) by (split; [apply Z.div_pos|apply Z.div_le_upper_bound]; lia).
  assert (0 <= (153 * mp + 2) / 5 <= 400)
    by (split; [apply Z.div_pos|apply Z.div_le_upper_bound]; lia).
  assert (0 <= doe - doe / 1460) by (Z.to_euclidean_division_equations; lia).
  assert (doe / 146096 <= doe / 36524) by (Z.to_euclidean_division_equations; lia).
  assert (0 <= (if m <=? 2 then 1 else 0) <= 1) by (destruct (m <=? 2); lia).
  repeat (quot_div; rewrite ?Hraw; fold doy; fold mp; rewrite ?Hmonth, ?Hday; arith_step).
  unfold I32_MIN, I32_MAX, U8_MAX.
  rewrite (try_range_in (-2147483648)) by lia.
  st_run. by rewrite !try_range_in by lia.
Qed.

(** ** What the three functions compute *)

Lemma dfc_bounds b y m d :
  0 <= b → - b <= y <= b → 1 <= m <= 12 → 1 <= d <= 31 →
  - 366 * (b + 1) - 719469 <= dfc y m d <= 366 * (b + 1) - 719038.
Proof.
  intros Hb Hy Hm Hd. rewrite dfc_closed. cbn zeta.
  assert (0 <= day_offset m <= 337) as Ho.
  { unfold day_offset. destruct (Z.ltb_spec 2 m);
      (split; [apply Z.div_pos|apply Z.div_le_upper_bound]; lia). }
  assert (0 <= (if m <=? 2 then 1 else 0) <= 1) by (destruct (m <=? 2); lia).
  set (y0 := y - (if m <=? 2 then 1 else 0)). assert (- b - 1 <= y0 <= b) by lia. clearbody y0.
  Z.to_euclidean_division_equations. lia.
Qed.

Definition year_bound : Z := 1000000000.

(** A date of the Gregorian calendar survives the conversion to a day number
    and back, the day number of the following date is one more, and day 0 is
    1970-01-01: [days_from_civil] counts days, and [civil_from_days] inverts it. *)
Theorem civil_roundtrip y m d :
  - year_bound <= y <= year_bound → valid_date y m d = true →
  days_from_civil 1970 1 1 = Ok 0 ∧
  ∃ n, days_from_civil y m d = Ok n ∧ civil_from_days n = Ok (y, m, d) ∧
    let '(y', m', d') := next_day y m d in days_from_civil y' m' d' = Ok (n + 1).
Proof.
  unfold year_bound. intros Hy Hv. split; [done|].
  pose proof Hv as [Hm Hd]%month_lengths_range. exists (dfc y m d).
  pose proof (dfc_bounds 1000000000 y m d).
  rewrite days_from_civil_run by (unfold I32_MIN, I32_MAX; lia). split; [done|].
  rewrite civil_from_days_run, cfd_dfc by (done || lia). split; [done|].
  destruct (next_day y m d) as [[y' m'] d'] eqn:Hn.
  destruct (dfc_next _ _ _ _ _ _ Hv Hn) as [Hv' <-].
  apply month_lengths_range in Hv' as [Hm' Hd']. apply days_from_civil_run; [|done..].
  unfold next_day in Hn. unfold I32_MIN, I32_MAX. repeat case_match; simplify_eq; lia.
Qed.

Lemma civil_roundtrip_witness :
  ∃ n, days_from_civil 2024 2 29 = Ok n ∧ civil_from_days n = Ok (2024, 2, 29) ∧
    days_from_civil 2024 3 1 = Ok (n + 1).
Proof. apply (civil_roundtrip 2024 2 29); [done|done]. Defined.

Lemma dfc_year_bound c y m d :
  0 <= c → 1 <= m <= 12 → 1 <= d <= 31 → -365 * c <= dfc y m d <= 365 * c →
  - c <= y <= c + 1972.
Proof.
  intros Hc Hm Hdd Hd. rewrite dfc_closed in Hd. cbn zeta in Hd.
  assert (0 <= day_offset m <= 337) as Ho.
  { unfold day_offset. destruct (Z.ltb_spec 2 m);
      (split; [apply Z.div_pos|apply Z.div_le_upper_bound]; lia). }
  assert (0 <= (if m <=? 2 then 1 else 0) <= 1) by (destruct (m <=? 2); lia).
  Z.to_euclidean_division_equations. lia.
Qed.

(** Every day number maps to a date of the Gregorian calendar whose day
    number it is. *)
Theorem days_roundtrip n :
  -360000000000 <= n <= 360000000000 →
  ∃ y m d, civil_from_days n = Ok (y, m, d) ∧ valid_date y m d = true ∧
    days_from_civil y m d = Ok n.
Proof.
  intros Hn. destruct (cfd n) as [[y m] d] eqn:Hc. exists y, m, d.
  rewrite civil_from_days_run by lia. split; [by f_equal|].
  apply dfc_cfd in Hc as [Hv <-].
  split; [done|]. apply month_lengths_range in Hv as [Hm Hd].
  pose proof (dfc_year_bound 1000000000 y m d).
  apply days_from_civil_run; [unfold I32_MIN, I32_MAX; lia|done..].
Qed.

Lemma days_roundtrip_witness :
  ∃ y m d, civil_from_days (-719469) = Ok (y, m, d) ∧ valid_date y m d = true ∧
    days_from_civil y m d = Ok (-719469).
Proof. apply (days_roundtrip (-719469)). lia. Defined.

(** The number of seconds from 1970-01-01 00:00:00. *)
Definition epoch_seconds (y m d h mi s : Z) : Z := dfc y m d * 86400 + h * 3600 + mi * 60 + s.

Definition valid_datetime (y m d h mi s : Z) : bool :=
  valid_date y m d && between 0 23 h && between 0 59 mi && between 0 59 s.

Definition datetime_of_seconds (t : Z) : Z * Z * Z * Z * Z * Z :=
  let '(y, m, d) := cfd (t / 86400) in
  (y, m, d, t mod 86400 / 3600, t mod 86400 mod 3600 / 60, t mod 86400 mod 60).

Lemma adjust_run y m d h mi s o :
  -500000000 <= y <= 500000000 → 1 <= m <= 12 → 1 <= d <= 31 → is_u8 h → is_u8 mi → is_u8 s →
  I32_MIN <= o <= I32_MAX →
  adjust_datetime_by_minutes y m d h mi s o =
    Ok (datetime_of_seconds (epoch_seconds y m d h mi s + o * 60)).
Proof.
  unfold is_u8, I32_MIN, I32_MAX. intros.
  unfold adjust_datetime_by_minutes, datetime_of_seconds.
  rewrite days_from_civil_run by (unfold I32_MIN, I32_MAX; lia).
  pose proof (dfc_bounds 500000000 y m d). unfold epoch_seconds.
  unfold i64, I64_MIN, I64_MAX. repeat arith_step.
  rewrite !try_range_in by lia. cbn [mbind option_bind]. rewrite !try_range_in by lia.
  cbn [mbind option_bind]. rewrite !try_range_in by lia. st_run.
  replace (_ + (h * 3600 + mi * 60 + s) + o * 60)
    with (dfc y m d * 86400 + h * 3600 + mi * 60 + s + o * 60) by lia.
  set (t := _ + o * 60). assert (-360000000000 * 86400 <= t <= 360000000000 * 86400) by lia.
  clearbody t. rewrite civil_from_days_run
    by (split; [apply Z.div_le_lower_bound|apply Z.div_le_upper_bound]; lia).
  st_run. destruct (cfd (t / 86400)) as [[y' m'] d'].
  pose proof (Z.mod_pos_bound t 86400). set (r := t mod 86400) in *. clearbody r.
  pose proof (Z.mod_pos_bound r 3600). pose proof (Z.mod_pos_bound r 60).
  quot_div. unfold U8_MAX.
  rewrite (try_range_in _ _ (r / 3600))
    by (split; [apply Z.div_pos|apply Z.div_le_upper_bound]; lia). st_run.
  rewrite (try_range_in _ _ (r mod 3600 / 60))
    by (split; [apply Z.div_pos|apply Z.div_le_upper_bound]; lia). st_run.
  by rewrite try_range_in by lia.
Qed.

Lemma time_of_day r :
  0 <= r < 86400 → 0 <= r / 3600 <= 23 ∧ 0 <= r mod 3600 / 60 <= 59 ∧ 0 <= r mod 60 <= 59 ∧
  r / 3600 * 3600 + r mod 3600 / 60 * 60 + r mod 60 = r.
Proof. intros. Z.to_euclidean_division_equations. lia. Qed.

Lemma time_of_day_unique h mi s :
  0 <= h <= 23 → 0 <= mi <= 59 → 0 <= s <= 59 →
  let r := h * 3600 + mi * 60 + s in
  0 <= r < 86400 ∧ r / 3600 = h ∧ r mod 3600 / 60 = mi ∧ r mod 60 = s.
Proof.
  intros ??? r. subst r. split; [lia|].
  assert ((h * 3600 + mi * 60 + s) / 3600 = h)
    by (symmetry; apply Z.div_unique with (mi * 60 + s); lia).
  assert ((h * 3600 + mi * 60 + s) mod 3600 = mi * 60 + s) as ->
    by (symmetry; apply Z.mod_unique with h; lia).
  assert ((mi * 60 + s) / 60 = mi) by (symmetry; apply Z.div_unique with s; lia).
  assert ((h * 3600 + mi * 60 + s) mod 60 = s)
    by (symmetry; apply Z.mod_unique with (h * 60 + mi); lia).
  done.
Qed.

Lemma datetime_of_seconds_spec t y m d h mi s :
  datetime_of_seconds t = (y, m, d, h, mi, s) →
  valid_datetime y m d h mi s = true ∧ epoch_seconds y m d h mi s = t.
Proof.
  unfold datetime_of_seconds. destruct (cfd (t / 86400)) as [[y' m'] d'] eqn:Hc.
  intros [= <- <- <- <- <- <-]. apply dfc_cfd in Hc as [Hv Hd].
  destruct (time_of_day (t mod 86400)) as (H1&H2&H3&H4); [apply Z.mod_pos_bound; lia|].
  unfold valid_datetime, epoch_seconds. rewrite Hv, Hd.
  rewrite (proj2 (between_true 0 23 _) H1), (proj2 (between_true 0 59 _) H2),
    (proj2 (between_true 0 59 _) H3).
  split; [done|]. pose proof (Z.div_mod t 86400). lia.
Qed.

Lemma seconds_of_datetime y m d h mi s :
  valid_datetime y m d h mi s = true →
  datetime_of_seconds (epoch_seconds y m d h mi s) = (y, m, d, h, mi, s).
Proof.
  unfold valid_datetime. rewrite !andb_true_iff, !between_true. intros (((Hv&Hh)&Hmi)&Hs).
  destruct (time_of_day_unique h mi s Hh Hmi Hs) as (Hr&H1&H2&H3).
  unfold datetime_of_seconds, epoch_seconds.
  replace (_ + h * 3600 + mi * 60 + s)
    with (h * 3600 + mi * 60 + s + 86400 * dfc y m d) by lia.
  destruct (div_mod_offset (h * 3600 + mi * 60 + s) 86400 (dfc y m d)) as [-> ->]; [lia..|].
  rewrite cfd_dfc by done. by rewrite H1, H2, H3.
Qed.

(** [adjust_datetime_by_minutes] moves a timestamp by exactly the offset: the
    result is a valid date and time of day whose distance from the input, in
    seconds of the calendar, is sixty times the offset, and moving back by the
    opposite offset restores a valid input. *)
Theorem adjust_datetime_exact y m d h mi s o :
  -4712 <= y <= 9999 → valid_date y m d = true → is_u8 h → is_u8 mi → is_u8 s →
  - I32_MAX <= o <= I32_MAX →
  ∃ y' m' d' h' mi' s',
    adjust_datetime_by_minutes y m d h mi s o = Ok (y', m', d', h', mi', s') ∧
    valid_datetime y' m' d' h' mi' s' = true ∧
    epoch_seconds y' m' d' h' mi' s' = epoch_seconds y m d h mi s + o * 60 ∧
    (valid_datetime y m d h mi s = true →
     adjust_datetime_by_minutes y' m' d' h' mi' s' (- o) = Ok (y, m, d, h, mi, s)).
Proof.
  intros Hy Hv Hh Hmi Hs Ho. pose proof Hv as [Hm Hd]%month_lengths_range.
  destruct (datetime_of_seconds (epoch_seconds y m d h mi s + o * 60))
    as [[[[[y' m'] d'] h'] mi'] s'] eqn:Ht.
  exists y', m', d', h', mi', s'.
  rewrite adjust_run by (done || unfold I32_MIN, I32_MAX in *; lia).
  split; [by f_equal|]. apply datetime_of_seconds_spec in Ht as [Hv' Ht].
  split; [done|]. split; [done|]. intros Hvd.
  unfold valid_datetime in Hv'. rewrite !andb_true_iff, !between_true in Hv'.
  destruct Hv' as (((Hv'&Hh')&Hmi')&Hs').
  pose proof Hv' as [Hm' Hd']%month_lengths_range.
  pose proof (dfc_bounds 9999 y m d). pose proof (dfc_year_bound 100000000 y' m' d').
  unfold epoch_seconds in Ht. unfold is_u8, I32_MAX in *.
  rewrite adjust_run; [|try done; unfold is_u8, I32_MIN, I32_MAX; lia..].
  fold (epoch_seconds y' m' d' h' mi' s') in Ht. fold (epoch_seconds y m d h mi s) in Ht.
  rewrite Ht. replace (_ + o * 60 + - o * 60) with (epoch_seconds y m d h mi s) by lia.
    by rewrite seconds_of_datetime.
Qed.

Lemma adjust_datetime_exact_witness :
  ∃ y' m' d' h' mi' s',
    adjust_datetime_by_minutes 2024 12 31 23 30 0 90 = Ok (y', m', d', h', mi', s') ∧
    valid_datetime y' m' d' h' mi' s' = true ∧
    epoch_seconds y' m' d' h' mi' s' = epoch_seconds 2024 12 31 23 30 0 + 90 * 60 ∧
    (valid_datetime 2024 12 31 23 30 0 = true →
     adjust_datetime_by_minutes y' m' d' h' mi' s' (- 90) = Ok (2024, 12, 31, 23, 30, 0)).
Proof. by apply (adjust_datetime_exact 2024 12 31 23 30 0 90). Defined.
