(* ===== verification/Datetime.v ===== *)
(** * Dates, timestamps, intervals and binary floats ([thin/codecs.rs])

    The wire encoders and decoders of [DATE], [TIMESTAMP], [TIMESTAMP WITH TIME
    ZONE], both [INTERVAL] types, [BINARY_DOUBLE] and [BINARY_FLOAT].  A float
    is its bit pattern, which is all the codecs look at. *)

From S2P Require Import Prelude.
From S2P Require Import Protocol.
From S2P Require Import TimeZone.
From S2P Require Import Calendar.

Definition ORA_TYPE_SIZE_DATE : Z := 7.
Definition ORA_TYPE_SIZE_TIMESTAMP : Z := 11.
Definition ORA_TYPE_SIZE_TIMESTAMP_TZ : Z := 13.
Definition TNS_HAS_REGION_ID : Z := 128.
Definition TZ_HOUR_OFFSET : Z := 20.
Definition TZ_MINUTE_OFFSET : Z := 60.
Definition TNS_DURATION_MID : Z := 2147483648.
Definition TNS_DURATION_OFFSET : Z := 60.

(** The constructors of the source's [QueryValue] that these codecs build. *)
Inductive QueryValue :=
| DateTime (year month day hour minute second nanosecond : Z)
| TimestampTz (year month day hour minute second nanosecond offset_minutes : Z)
| TimestampTzRegion (year month day hour minute second nanosecond : Z)
    (region : OracleTimeZoneRegion)
| IntervalDS (days hours minutes seconds fseconds : Z)
| IntervalYM (years months : Z).

Definition valid_oracle_date_year (year : Z) : bool :=
  between (-4712) (-1) year || between 1 9999 year.

Definition valid_tz_offset_minutes (offset_minutes : Z) : bool :=
  between (-1439) 1439 offset_minutes.

Definition encode_oracle_date (year month day hour minute second : Z) : Res bytes :=
  if negb (valid_oracle_date_year year) || negb (between 1 12 month) || negb (between 1 31 day)
     || (23 <? hour) || (59 <? minute) || (59 <? second)
  then Err (TtcDecode "invalid DATE bind")
  else
    century ← i32 (div_t year 100 + 100);
    year_in_century ← i32 (rem_t year 100 + 100);
    century ← ok_or (try_range 0 U8_MAX century) (TtcDecode "invalid DATE century");
    year_in_century ← ok_or (try_range 0 U8_MAX year_in_century) (TtcDecode "invalid DATE year");
    hour1 ← arith 0 U8_MAX (hour + 1);
    minute1 ← arith 0 U8_MAX (minute + 1);
    second1 ← arith 0 U8_MAX (second + 1);
    Ok [century; year_in_century; month; day; hour1; minute1; second1].

Definition encode_oracle_timestamp (year month day hour minute second nanosecond : Z) : Res bytes :=
  if 999999999 <? nanosecond then Err (TtcDecode "invalid TIMESTAMP fraction")
  else
    date ← encode_oracle_date year month day hour minute second;
    if nanosecond =? 0 then Ok date
    else Ok (date ++ to_be_bytes 4 nanosecond).

Definition encode_oracle_timestamp_tz_with_offset
    (year month day hour minute second nanosecond offset_minutes : Z) : Res bytes :=
  if 999999999 <? nanosecond
  then Err (TtcDecode "invalid TIMESTAMP WITH TIME ZONE fraction")
  else if negb (valid_tz_offset_minutes offset_minutes)
  then Err (TtcDecode "invalid TIMESTAMP WITH TIME ZONE offset")
  else
    let offset_hours := div_t offset_minutes 60 in
    let offset_minute_part := rem_t offset_minutes 60 in
    encoded_hour ← i32 (offset_hours + TZ_HOUR_OFFSET);
    encoded_minute ← i32 (offset_minute_part + TZ_MINUTE_OFFSET);
    encoded_hour ← ok_or (try_range 0 U8_MAX encoded_hour)
      (TtcDecode "invalid TIMESTAMP WITH TIME ZONE offset hour");
    encoded_minute ← ok_or (try_range 0 U8_MAX encoded_minute)
      (TtcDecode "invalid TIMESTAMP WITH TIME ZONE offset minute");
    date ← encode_oracle_date year month day hour minute second;
    Ok (date ++ to_be_bytes 4 nanosecond ++ [encoded_hour] ++ [encoded_minute]).

Definition encode_oracle_timestamp_tz (year month day hour minute second nanosecond : Z)
  : Res bytes :=
  encode_oracle_timestamp_tz_with_offset year month day hour minute second nanosecond 0.

Definition offset_time_error (field : string) : ProtocolError :=
  TtcDecode (if String.eqb field "hour" then "invalid DATE hour"
             else if String.eqb field "minute" then "invalid DATE minute"
             else "invalid DATE second").

Definition decode_offset_time_byte (byte max : Z) (field : string) : Res Z :=
  match try_range 0 U8_MAX (byte - 1) with
  | None => Err (offset_time_error field)
  | Some value => if max <? value then Err (offset_time_error field) else Ok value
  end.

(** The tail of [decode_datetime_value] for a value with a time-zone field. *)
Definition decode_zone (year month day hour minute second nanosecond : Z) (bytes : bytes)
  : Res QueryValue :=
  b11 ← index bytes 11;
  b12 ← index bytes 12;
  if negb (Z.land b11 TNS_HAS_REGION_ID =? 0) then
    let region_id := Z.lor (as_u 16 (Z.shiftl (Z.land b11 (not_u8 TNS_HAS_REGION_ID)) 6))
                       (Z.shiftr b12 2) in
    region ← OracleTimeZoneRegion_from_id region_id;
    Ok (TimestampTzRegion year month day hour minute second nanosecond region)
  else if (b11 =? 0) || (b12 =? 0)
  then Err (TtcDecode "invalid TIMESTAMP WITH TIME ZONE offset")
  else
    limit ← arith 0 U8_MAX (TZ_MINUTE_OFFSET * 2);
    if negb ((1 <=? b12) && (b12 <? limit))
    then Err (TtcDecode "invalid TIMESTAMP WITH TIME ZONE offset minute")
    else
      t ← i32 (b11 - TZ_HOUR_OFFSET);
      t ← i32 (t * 60);
      t ← i32 (t + b12);
      offset_minutes ← i32 (t - TZ_MINUTE_OFFSET);
      if negb (valid_tz_offset_minutes offset_minutes)
      then Err (TtcDecode "invalid TIMESTAMP WITH TIME ZONE offset")
      else Ok (TimestampTz year month day hour minute second nanosecond offset_minutes).

Definition decode_datetime_value (bytes : bytes) : Res QueryValue :=
  if negb ((Zlen bytes =? ORA_TYPE_SIZE_DATE) || (Zlen bytes =? ORA_TYPE_SIZE_TIMESTAMP)
           || (Zlen bytes =? ORA_TYPE_SIZE_TIMESTAMP_TZ))
  then Err (TtcDecode "invalid DATE/TIMESTAMP length")
  else
    b0 ← index bytes 0;
    b1 ← index bytes 1;
    t ← i32 (b0 - 100);
    t ← i32 (t * 100);
    t ← i32 (t + b1);
    year ← i32 (t - 100);
    if negb (valid_oracle_date_year year) || negb (b0 =? div_t year 100 + 100)
       || negb (b1 =? rem_t year 100 + 100)
    then Err (TtcDecode "invalid DATE year")
    else
      month ← index bytes 2;
      if negb (between 1 12 month) then Err (TtcDecode "invalid DATE month")
      else
        day ← index bytes 3;
        if negb (between 1 31 day) then Err (TtcDecode "invalid DATE day")
        else
          b4 ← index bytes 4;
          hour ← decode_offset_time_byte b4 23 "hour";
          b5 ← index bytes 5;
          minute ← decode_offset_time_byte b5 59 "minute";
          b6 ← index bytes 6;
          second ← decode_offset_time_byte b6 59 "second";
          nanosecond ←
            (if ORA_TYPE_SIZE_TIMESTAMP <=? Zlen bytes then
               fraction ← or_panic (slice_get bytes 7 11);
               let value := from_be_bytes fraction in
               if 999999999 <? value then Err (TtcDecode "invalid TIMESTAMP fraction")
               else Ok value
             else Ok 0);
          if Zlen bytes =? ORA_TYPE_SIZE_TIMESTAMP_TZ
          then decode_zone year month day hour minute second nanosecond bytes
          else Ok (DateTime year month day hour minute second nanosecond).

(** ** Intervals *)

Definition to_offset_byte (value : Z) : Res Z :=
  t ← i32 (value + TNS_DURATION_OFFSET);
  ok_or (try_range 0 U8_MAX t) (TtcDecode "INTERVAL DS component out of range").

Definition encode_interval_ds (days seconds nanoseconds : Z) : Res bytes :=
  t ← i64 (days + TNS_DURATION_MID);
  wire_days ← ok_or (try_range 0 U32_MAX t) (TtcDecode "INTERVAL DS days out of range");
  b4 ← to_offset_byte (div_t seconds 3600);
  b5 ← to_offset_byte (div_t (rem_t seconds 3600) 60);
  b6 ← to_offset_byte (rem_t seconds 60);
  let fseconds := nanoseconds in
  t ← i64 (fseconds + TNS_DURATION_MID);
  wire_fseconds ← ok_or (try_range 0 U32_MAX t)
    (TtcDecode "INTERVAL DS fractional seconds out of range");
  Ok (to_be_bytes 4 wire_days ++ [b4; b5; b6] ++ to_be_bytes 4 wire_fseconds).

Definition to_component (value : Z) : Res Z :=
  ok_or (try_range I32_MIN I32_MAX value) (TtcDecode "INTERVAL DS out of range").

Definition decode_interval_ds (bytes : bytes) : Res QueryValue :=
  if Zlen bytes <? 11 then Err (TtcDecode "invalid INTERVAL DS length")
  else
    days_wire ← or_panic (slice_get bytes 0 4);
    fseconds_wire ← or_panic (slice_get bytes 7 11);
    t ← i64 (from_be_bytes days_wire - TNS_DURATION_MID);
    days ← to_component t;
    b4 ← index bytes 4;
    hours ← i32 (b4 - TNS_DURATION_OFFSET);
    b5 ← index bytes 5;
    minutes ← i32 (b5 - TNS_DURATION_OFFSET);
    b6 ← index bytes 6;
    seconds ← i32 (b6 - TNS_DURATION_OFFSET);
    t ← i64 (from_be_bytes fseconds_wire - TNS_DURATION_MID);
    fseconds ← to_component t;
    Ok (IntervalDS days hours minutes seconds fseconds).

Definition encode_interval_ym (years months : Z) : Res bytes :=
  t ← i64 (years + TNS_DURATION_MID);
  wire_years ← ok_or (try_range 0 U32_MAX t) (TtcDecode "INTERVAL YM years out of range");
  t ← i32 (months + TNS_DURATION_OFFSET);
  b4 ← ok_or (try_range 0 U8_MAX t) (TtcDecode "INTERVAL YM months out of range");
  Ok (to_be_bytes 4 wire_years ++ [b4]).

Definition decode_interval_ym (bytes : bytes) : Res QueryValue :=
  if Zlen bytes <? 5 then Err (TtcDecode "invalid INTERVAL YM length")
  else
    years_wire ← or_panic (slice_get bytes 0 4);
    t ← i64 (from_be_bytes years_wire - TNS_DURATION_MID);
    years ← ok_or (try_range I32_MIN I32_MAX t) (TtcDecode "INTERVAL YM out of range");
    b4 ← index bytes 4;
    months ← i32 (b4 - TNS_DURATION_OFFSET);
    Ok (IntervalYM years months).

(** ** Binary floats

    [order_encode] and [order_decode] are the byte loops the two widths share:
    set the sign bit of a non-negative value, complement a negative one. *)

Definition order_encode (bs : bytes) : bytes :=
  match bs with
  | [] => []
  | b0 :: rest =>
      if Z.land b0 128 =? 0 then Z.lor b0 128 :: rest else map not_u8 (b0 :: rest)
  end.

Definition order_decode (bs : bytes) : bytes :=
  match bs with
  | [] => []
  | b0 :: rest =>
      if negb (Z.land b0 128 =? 0) then Z.land b0 127 :: rest else map not_u8 (b0 :: rest)
  end.

Definition encode_binary_double (bits : Z) : bytes := order_encode (to_be_bytes 8 bits).
Definition encode_binary_float (bits : Z) : bytes := order_encode (to_be_bytes 4 bits).

Definition decode_binary_double (bytes : bytes) : Res Z :=
  if Zlen bytes =? 8 then Ok (from_be_bytes (order_decode bytes))
  else Err (TtcDecode "invalid BINARY_DOUBLE length").

Definition decode_binary_float (bytes : bytes) : Res Z :=
  if Zlen bytes =? 4 then Ok (from_be_bytes (order_decode bytes))
  else Err (TtcDecode "invalid BINARY_FLOAT length").

(** ** Dates: the fields of a valid date and their seven bytes *)

Definition valid_fields (year month day hour minute second : Z) : bool :=
  valid_oracle_date_year year && between 1 12 month && between 1 31 day
  && between 0 23 hour && between 0 59 minute && between 0 59 second.

Definition date_wire (year month day hour minute second : Z) : bytes :=
  [div_t year 100 + 100; rem_t year 100 + 100; month; day; hour + 1; minute + 1; second + 1].

Lemma oracle_year_parts year :
  valid_oracle_date_year year = true →
  -4712 <= year <= 9999 ∧ 53 <= div_t year 100 + 100 <= 199 ∧ 1 <= rem_t year 100 + 100 <= 199 ∧
  div_t year 100 * 100 + rem_t year 100 = year.
Proof.
  unfold valid_oracle_date_year, between, div_t, rem_t. intros.
  assert (-4712 <= year <= 9999) by lia. Z.to_euclidean_division_equations. lia.
Qed.

Lemma valid_fields_iff year month day hour minute second :
  valid_fields year month day hour minute second = true ↔
  valid_oracle_date_year year = true ∧ 1 <= month <= 12 ∧ 1 <= day <= 31 ∧
  0 <= hour <= 23 ∧ 0 <= minute <= 59 ∧ 0 <= second <= 59.
Proof. unfold valid_fields. rewrite !andb_true_iff, !between_true. tauto. Qed.

Lemma encode_oracle_date_run year month day hour minute second :
  valid_fields year month day hour minute second = true →
  encode_oracle_date year month day hour minute second =
    Ok (date_wire year month day hour minute second).
Proof.
  intros (Hy&Hm&Hd&Hh&Hmi&Hs)%valid_fields_iff. pose proof (oracle_year_parts _ Hy).
  unfold encode_oracle_date. rewrite Hy.
  rewrite (proj2 (between_true 1 12 _) Hm), (proj2 (between_true 1 31 _) Hd),
    (proj2 (Z.ltb_ge 23 hour)), (proj2 (Z.ltb_ge 59 minute)), (proj2 (Z.ltb_ge 59 second)) by lia.
  cbn [negb orb]. unfold i32, I32_MIN, I32_MAX, U8_MAX. do 2 arith_step.
  rewrite try_range_in by lia. st_run. rewrite try_range_in by lia. by repeat arith_step.
Qed.

Lemma encode_oracle_date_rejects year month day hour minute second :
  0 <= hour → 0 <= minute → 0 <= second →
  valid_fields year month day hour minute second = false →
  encode_oracle_date year month day hour minute second = Err (TtcDecode "invalid DATE bind").
Proof.
  intros Hh Hm Hs Hv. unfold encode_oracle_date. unfold valid_fields in Hv.
  destruct (valid_oracle_date_year year), (between 1 12 month), (between 1 31 day);
    cbn [negb orb andb] in *; try done.
  unfold between in Hv.
  by destruct (Z.ltb_spec 23 hour), (Z.ltb_spec 59 minute), (Z.ltb_spec 59 second);
    cbn [orb]; try done; lia.
Qed.

Lemma decode_offset_time_byte_run v max field :
  0 <= v <= max → max <= 59 → decode_offset_time_byte (v + 1) max field = Ok v.
Proof.
  intros. unfold decode_offset_time_byte, U8_MAX. rewrite try_range_in by lia.
  replace (v + 1 - 1) with v by lia. by rewrite (proj2 (Z.ltb_ge max v)) by lia.
Qed.

(** Evaluate the lookups into a list whose spine is known and whose elements
    are variables. *)
Ltac index_run :=
  repeat match goal with
  | |- context [@index ?E ?l ?i] =>
      let r := eval vm_compute in (@index E l i) in change (@index E l i) with r; st_run
  | |- context [slice_get ?l ?i ?j] =>
      let r := eval vm_compute in (slice_get l i j) in
      change (slice_get l i j) with r; cbn [or_panic]; st_run
  | |- context [Zlen ?l] => let r := eval vm_compute in (Zlen l) in change (Zlen l) with r
  end; st_run.

(** The part of the decoder after the seven date bytes. *)
Definition decode_rest (year month day hour minute second : Z) (bytes : bytes) : Res QueryValue :=
  nanosecond ←
    (if ORA_TYPE_SIZE_TIMESTAMP <=? Zlen bytes then
       fraction ← or_panic (slice_get bytes 7 11);
       let value := from_be_bytes fraction in
       if 999999999 <? value then Err (TtcDecode "invalid TIMESTAMP fraction")
       else Ok value
     else Ok 0);
  if Zlen bytes =? ORA_TYPE_SIZE_TIMESTAMP_TZ
  then decode_zone year month day hour minute second nanosecond bytes
  else Ok (DateTime year month day hour minute second nanosecond).

Lemma index_prefix {E} (pre rest : bytes) i :
  0 <= i < Zlen pre → @index E (pre ++ rest) i = index pre i.
Proof.
  intros Hi. unfold index, slice_nth. pose proof (Zlen_nonneg rest). autorewrite with thin.
  rewrite (proj2 (Z.leb_le 0 i)), !(proj2 (Z.ltb_lt i _)) by lia. cbn.
  rewrite lookup_app_l; [done|]. unfold Zlen in Hi. lia.
Qed.

Lemma decode_date_prefix year month day hour minute second rest :
  valid_fields year month day hour minute second = true →
  Zlen rest = 0 ∨ Zlen rest = 4 ∨ Zlen rest = 6 →
  decode_datetime_value (date_wire year month day hour minute second ++ rest) =
    decode_rest year month day hour minute second
      (date_wire year month day hour minute second ++ rest).
Proof.
  intros (Hy&Hm&Hd&Hh&Hmi&Hs)%valid_fields_iff Hr. pose proof (oracle_year_parts _ Hy) as Hp.
  unfold decode_datetime_value. fold (decode_rest year month day hour minute second).
  set (bs := date_wire _ _ _ _ _ _ ++ rest).
  assert (Zlen bs = 7 + Zlen rest) as Hlen by (unfold bs; by rewrite Zlen_app).
  assert (∀ E i b, 0 <= i < 7 →
    @index E (date_wire year month day hour minute second) i = Ok b → index bs i = Ok b) as Hix
    by (intros E i b Hi Hb; unfold bs; by rewrite index_prefix).
  rewrite (Hix _ 0 (div_t year 100 + 100)), (Hix _ 1 (rem_t year 100 + 100)) by done.
  unfold ORA_TYPE_SIZE_DATE, ORA_TYPE_SIZE_TIMESTAMP, ORA_TYPE_SIZE_TIMESTAMP_TZ.
  replace (negb _) with false by lia. unfold i32, I32_MIN, I32_MAX.
  repeat arith_step.
  replace (_ - 100) with year by lia. rewrite Hy, !Z.eqb_refl. cbn [negb orb].
  rewrite (Hix _ 2 month), (Hix _ 3 day), (Hix _ 4 (hour + 1)), (Hix _ 5 (minute + 1)),
    (Hix _ 6 (second + 1)) by done. st_run.
  rewrite (proj2 (between_true 1 12 _) Hm), (proj2 (between_true 1 31 _) Hd). cbn [negb].
  do 3 (rewrite decode_offset_time_byte_run by lia; st_run). done.
Qed.

Lemma date_wire_length year month day hour minute second :
  Zlen (date_wire year month day hour minute second) = 7.
Proof. done. Qed.
#[export] Hint Rewrite date_wire_length : thin.

Lemma fraction_slice year month day hour minute second n rest :
  slice_get (date_wire year month day hour minute second ++ to_be_bytes 4 n ++ rest) 7 11 =
    Some (to_be_bytes 4 n).
Proof.
  pose proof (slice_get_app (date_wire year month day hour minute second) (to_be_bytes 4 n) rest)
    as H. by rewrite date_wire_length, Zlen_to_be_bytes in H.
Qed.

(** A timestamp round trip: valid fields encode, to 7 bytes without and 11
    with a fraction, and the bytes decode to the same fields; invalid fields
    are refused. *)
Theorem timestamp_roundtrip year month day hour minute second nanosecond :
  is_u8 hour → is_u8 minute → is_u8 second → 0 <= nanosecond <= U32_MAX →
  if valid_fields year month day hour minute second && (nanosecond <=? 999999999) then
    ∃ wire, encode_oracle_timestamp year month day hour minute second nanosecond = Ok wire ∧
      Zlen wire = (if nanosecond =? 0 then 7 else 11) ∧
      decode_datetime_value wire = Ok (DateTime year month day hour minute second nanosecond)
  else ∃ e, encode_oracle_timestamp year month day hour minute second nanosecond = Err e.
Proof.
  intros [Hh _] [Hm _] [Hs _] Hn. unfold encode_oracle_timestamp.
  destruct (Z.leb_spec nanosecond 999999999).
  2:{ rewrite andb_false_r, (proj2 (Z.ltb_lt _ _)) by lia. by eexists. }
  rewrite andb_true_r, (proj2 (Z.ltb_ge _ _)) by lia. destruct (valid_fields _ _ _ _ _ _) eqn:Hv.
  2:{ rewrite encode_oracle_date_rejects by done. by eexists. }
  rewrite encode_oracle_date_run by done. st_run. destruct (Z.eqb_spec nanosecond 0) as [->|].
  - eexists. split; [done|]. split; [done|]. rewrite <- (app_nil_r (date_wire _ _ _ _ _ _)).
    by rewrite decode_date_prefix by (done || by left).
  - eexists. split; [done|]. split; [by autorewrite with thin|].
    rewrite decode_date_prefix by (done || by right; left; rewrite Zlen_to_be_bytes).
    unfold decode_rest. rewrite Zlen_app, date_wire_length, Zlen_to_be_bytes.
    rewrite <- (app_nil_r (to_be_bytes 4 nanosecond)), fraction_slice. cbn [or_panic].
    change (ORA_TYPE_SIZE_TIMESTAMP <=? 7 + Z.of_nat 4) with true. st_run.
    rewrite from_to_be_bytes by (change (256 ^ Z.of_nat 4) with 4294967296; lia).
    by rewrite (proj2 (Z.ltb_ge _ _)) by lia.
Qed.

Lemma timestamp_roundtrip_witness :
  if valid_fields (-4712) 1 1 0 0 0 && (5 <=? 999999999) then
    ∃ wire, encode_oracle_timestamp (-4712) 1 1 0 0 0 5 = Ok wire ∧
      Zlen wire = (if 5 =? 0 then 7 else 11) ∧
      decode_datetime_value wire = Ok (DateTime (-4712) 1 1 0 0 0 5)
  else ∃ e, encode_oracle_timestamp (-4712) 1 1 0 0 0 5 = Err e.
Proof. by apply (timestamp_roundtrip (-4712) 1 1 0 0 0 5). Defined.

(** ** Time zones *)

Lemma offset_parts o :
  valid_tz_offset_minutes o = true →
  -23 <= div_t o 60 <= 23 ∧ -59 <= rem_t o 60 <= 59 ∧ div_t o 60 * 60 + rem_t o 60 = o ∧
  (-21 < div_t o 60 ↔ -1260 < o) ∧ (-20 < div_t o 60 ↔ -1200 < o).
Proof.
  intros H%between_true. unfold div_t, rem_t. Z.to_euclidean_division_equations. lia.
Qed.

Lemma encode_tz_run year month day hour minute second nanosecond o :
  valid_fields year month day hour minute second = true → 0 <= nanosecond <= 999999999 →
  valid_tz_offset_minutes o = true →
  encode_oracle_timestamp_tz_with_offset year month day hour minute second nanosecond o =
    if -1260 <? o then
      Ok (date_wire year month day hour minute second ++ to_be_bytes 4 nanosecond ++
            [div_t o 60 + 20; rem_t o 60 + 60])
    else Err (TtcDecode "invalid TIMESTAMP WITH TIME ZONE offset hour").
Proof.
  intros Hv Hn Ho. pose proof (offset_parts o Ho) as (Hq&Hr&_&Hiff&_).
  unfold encode_oracle_timestamp_tz_with_offset.
  rewrite (proj2 (Z.ltb_ge _ _)), Ho by lia. cbn [negb].
  unfold TZ_HOUR_OFFSET, TZ_MINUTE_OFFSET, i32, I32_MIN, I32_MAX, U8_MAX. do 2 arith_step.
  rewrite encode_oracle_date_run by done. destruct (Z.ltb_spec (-1260) o).
  - rewrite try_range_in by lia. st_run. rewrite try_range_in by lia. done.
  - unfold try_range at 1. rewrite (proj2 (between_false _ _ _)) by lia. done.
Qed.

Lemma index_suffix {E} (pre rest : bytes) i :
  0 <= i → @index E (pre ++ rest) (Zlen pre + i) = index rest i.
Proof.
  intros Hi. unfold index, slice_nth. pose proof (Zlen_nonneg pre). rewrite Zlen_app.
  replace (0 <=? Zlen pre + i) with (0 <=? i) by lia.
  replace (Zlen pre + i <? Zlen pre + Zlen rest) with (i <? Zlen rest) by lia.
  destruct (_ && _); [|done]. f_equal.
  replace (Z.to_nat (Zlen pre + i)) with (length pre + Z.to_nat i)%nat by (unfold Zlen; lia).
  rewrite lookup_app_r by lia. f_equal. lia.
Qed.

(** The zone bytes of a 13-byte value, whatever precedes them. *)
Lemma decode_tz_prefix year month day hour minute second n b11 b12 :
  valid_fields year month day hour minute second = true → 0 <= n <= 999999999 →
  let wire := date_wire year month day hour minute second ++ to_be_bytes 4 n ++ [b11; b12] in
  decode_datetime_value wire = decode_zone year month day hour minute second n wire ∧
  @index ProtocolError wire 11 = Ok b11 ∧ @index ProtocolError wire 12 = Ok b12.
Proof.
  intros Hv Hn wire. assert (Zlen wire = 13) as Hlen by (unfold wire; by autorewrite with thin).
  split.
  - unfold wire. rewrite decode_date_prefix by (done || right; right; by autorewrite with thin).
    unfold decode_rest. rewrite fraction_slice. fold wire. rewrite Hlen.
    change (ORA_TYPE_SIZE_TIMESTAMP <=? 13) with true. cbn [or_panic]. st_run.
    rewrite from_to_be_bytes by (change (256 ^ Z.of_nat 4) with 4294967296; lia).
    by rewrite (proj2 (Z.ltb_ge _ _)) by lia.
  - unfold wire. rewrite app_assoc.
    set (pre := _ ++ to_be_bytes 4 n).
    assert (Zlen pre = 11) as Hp by (unfold pre; by autorewrite with thin).
    change 11 with (11 + 0) at 1. change 12 with (11 + 1). rewrite <- Hp.
    by rewrite !index_suffix.
Qed.

Lemma decode_zone_offset year month day hour minute second n wire o :
  valid_tz_offset_minutes o = true → -1260 < o →
  @index ProtocolError wire 11 = Ok (div_t o 60 + 20) →
  @index ProtocolError wire 12 = Ok (rem_t o 60 + 60) →
  decode_zone year month day hour minute second n wire =
    if -1200 <? o then Ok (TimestampTz year month day hour minute second n o)
    else Err (TtcDecode "invalid TIMESTAMP WITH TIME ZONE offset").
Proof.
  intros Ho Hlo H11 H12. pose proof (offset_parts o Ho) as (Hq&Hr&Hsum&Hiff&Hiff2).
  unfold decode_zone. rewrite H11, H12. st_run.
  assert ((Z.land (div_t o 60 + 20) TNS_HAS_REGION_ID =? 0) = true) as ->.
  { apply (all_below_spec 128 (λ b, Z.land b 128 =? 0)); [by vm_compute|lia]. }
  cbn [negb]. destruct (Z.ltb_spec (-1200) o).
  - replace (_ || _) with false by lia. unfold TZ_MINUTE_OFFSET, TZ_HOUR_OFFSET, U8_MAX, i32,
      I32_MIN, I32_MAX. arith_step. replace (negb _) with false by lia. repeat arith_step.
    replace (_ - 60) with o by lia. by rewrite Ho.
  - by rewrite (proj2 (Z.eqb_eq (div_t o 60 + 20) 0)) by lia.
Qed.

(** A timestamp with a numeric zone offset from -19:59 to +23:59 round trips
    through its 13-byte wire form. *)
Theorem timestamp_tz_roundtrip year month day hour minute second nanosecond offset_minutes :
  valid_fields year month day hour minute second = true → 0 <= nanosecond <= 999999999 →
  -1200 < offset_minutes <= 1439 →
  ∃ wire,
    encode_oracle_timestamp_tz_with_offset year month day hour minute second nanosecond
      offset_minutes = Ok wire ∧ Zlen wire = ORA_TYPE_SIZE_TIMESTAMP_TZ ∧
    decode_datetime_value wire =
      Ok (TimestampTz year month day hour minute second nanosecond offset_minutes).
Proof.
  intros Hv Hn Ho. assert (valid_tz_offset_minutes offset_minutes = true) as Hvo
    by (apply between_true; lia).
  rewrite encode_tz_run, (proj2 (Z.ltb_lt _ _)) by (done || lia).
  eexists. split; [done|]. split; [by autorewrite with thin|].
  destruct (decode_tz_prefix year month day hour minute second nanosecond
    (div_t offset_minutes 60 + 20) (rem_t offset_minutes 60 + 60) Hv Hn) as (->&H11&H12).
  rewrite (decode_zone_offset _ _ _ _ _ _ _ _ offset_minutes) by (done || lia).
  by rewrite (proj2 (Z.ltb_lt _ _)) by lia.
Qed.

Lemma timestamp_tz_roundtrip_witness :
  ∃ wire,
    encode_oracle_timestamp_tz_with_offset 2024 2 29 23 59 59 1 (-330) = Ok wire ∧
    Zlen wire = ORA_TYPE_SIZE_TIMESTAMP_TZ ∧
    decode_datetime_value wire = Ok (TimestampTz 2024 2 29 23 59 59 1 (-330)).
Proof. by apply (timestamp_tz_roundtrip 2024 2 29 23 59 59 1 (-330)). Defined.

(** The encoder's offset check admits offsets its own wire form cannot carry:
    from -20:59 to -20:00 it emits an hour byte of zero, which the decoder
    refuses, and from -23:59 to -21:00 the hour byte does not exist and the
    encoder fails after the check. *)
Theorem timestamp_tz_offset_gap year month day hour minute second nanosecond offset_minutes :
  valid_fields year month day hour minute second = true → 0 <= nanosecond <= 999999999 →
  -1439 <= offset_minutes <= -1200 →
  valid_tz_offset_minutes offset_minutes = true ∧
  match encode_oracle_timestamp_tz_with_offset year month day hour minute second nanosecond
          offset_minutes with
  | Ok wire => -1260 < offset_minutes ∧
      decode_datetime_value wire = Err (TtcDecode "invalid TIMESTAMP WITH TIME ZONE offset")
  | Err e => offset_minutes <= -1260 ∧
      e = TtcDecode "invalid TIMESTAMP WITH TIME ZONE offset hour"
  | Panic | Diverge => False
  end.
Proof.
  intros Hv Hn Ho. assert (valid_tz_offset_minutes offset_minutes = true) as Hvo
    by (apply between_true; lia).
  split; [done|]. rewrite encode_tz_run by done.
  destruct (Z.ltb_spec (-1260) offset_minutes); [|done]. split; [done|].
  destruct (decode_tz_prefix year month day hour minute second nanosecond
    (div_t offset_minutes 60 + 20) (rem_t offset_minutes 60 + 60) Hv Hn) as (->&H11&H12).
  rewrite (decode_zone_offset _ _ _ _ _ _ _ _ offset_minutes) by (done || lia).
  by rewrite (proj2 (Z.ltb_ge _ _)) by lia.
Qed.

Lemma timestamp_tz_offset_gap_witness :
  valid_tz_offset_minutes (-1230) = true ∧
  match encode_oracle_timestamp_tz_with_offset 2024 1 1 0 0 0 0 (-1230) with
  | Ok wire => -1260 < -1230 ∧
      decode_datetime_value wire = Err (TtcDecode "invalid TIMESTAMP WITH TIME ZONE offset")
  | Err e => -1230 <= -1260 ∧ e = TtcDecode "invalid TIMESTAMP WITH TIME ZONE offset hour"
  | Panic | Diverge => False
  end.
Proof. by apply (timestamp_tz_offset_gap 2024 1 1 0 0 0 0 (-1230)). Defined.

(** ** What the decoder accepts *)

(** The facts the decoder has established when it builds a value: the date
    bytes are those the encoder writes for the fields. *)
Definition date_part_ok (bytes : bytes) (year month day hour minute second n : Z) : Prop :=
  encode_oracle_date year month day hour minute second = Ok (take 7 bytes) ∧
  valid_fields year month day hour minute second = true ∧ 0 <= n <= 999999999.

Definition decoded_ok (bytes : bytes) (v : QueryValue) : Prop :=
  match v with
  | DateTime y mo d h mi s n => date_part_ok bytes y mo d h mi s n ∧
      (Zlen bytes = 7 ∨ Zlen bytes = 11)
  | TimestampTz y mo d h mi s n o => date_part_ok bytes y mo d h mi s n ∧
      Zlen bytes = 13 ∧ valid_tz_offset_minutes o = true
  | TimestampTzRegion y mo d h mi s n r => date_part_ok bytes y mo d h mi s n ∧
      Zlen bytes = 13 ∧ ∃ name, OracleTimeZoneRegion_name r = Ok name
  | _ => False
  end.

Lemma index_post {E} (bs : bytes) i :
  bytes_ok bs → 0 <= i < Zlen bs →
  post (λ b, is_u8 b ∧ bs !! Z.to_nat i = Some b) (@index E bs i).
Proof.
  intros Hok Hi. unfold index. destruct (slice_nth bs i) as [b|] eqn:Hb; cbn.
  - split; [by eapply slice_nth_ok|]. by apply slice_nth_some in Hb as [_ ?].
  - apply slice_nth_none in Hb; lia.
Qed.

Lemma arith_post {E} lo hi z : lo <= z <= hi → post (λ r, r = z) (@arith E lo hi z).
Proof. intros. by rewrite arith_in. Qed.

Lemma decode_offset_time_byte_post b max field :
  max <= 59 → post (λ v, 0 <= v <= max ∧ b = v + 1) (decode_offset_time_byte b max field).
Proof.
  intros Hm. unfold decode_offset_time_byte. destruct (try_range _ _ _) as [v|] eqn:Hv; [|done].
  apply try_range_some in Hv as [-> ?]. apply post_if; intros Hv; cbn; lia.
Qed.

Lemma timezone_region_name_returns id : returns (timezone_region_name id).
Proof.
  unfold timezone_region_name.
  destruct (binary_search_spec REGION_NAMES id REGION_NAMES_sorted) as ([i|] & -> & Hr);
    [|done]. rewrite res_bindE. destruct Hr as [name Hi]. by rewrite Hi.
Qed.

Lemma from_id_post id :
  post (λ r, ∃ name, OracleTimeZoneRegion_name r = Ok name) (OracleTimeZoneRegion_from_id id).
Proof.
  unfold OracleTimeZoneRegion_from_id, OracleTimeZoneRegion_name.
  pose proof (timezone_region_name_returns id) as Hret. rewrite res_bindE.
  destruct (timezone_region_name id) as [name|e| |] eqn:Hname; [|exact I|exact Hret|exact Hret].
  exists name. exact Hname.
Qed.

Lemma decode_zone_post bs year month day hour minute second n :
  bytes_ok bs → Zlen bs = 13 → date_part_ok bs year month day hour minute second n →
  post (decoded_ok bs) (decode_zone year month day hour minute second n bs).
Proof.
  intros Hok Hlen Hd. unfold decode_zone.
  eapply post_bind; [by apply index_post; [|lia]|]. intros b11 [H11 _].
  eapply post_bind; [by apply index_post; [|lia]|]. intros b12 [H12 _].
  unfold is_u8 in H11, H12.
  apply post_if; intros _.
  - generalize (Z.lor (as_u 16 (Z.shiftl (Z.land b11 (not_u8 TNS_HAS_REGION_ID)) 6))
      (Z.shiftr b12 2)). intros id.
    eapply post_bind; [apply from_id_post|]. intros r Hr.
    split; [exact Hd|]. split; [exact Hlen|exact Hr].
  - apply post_if; intros Hz; [done|]. unfold i32, I32_MIN, I32_MAX, TZ_MINUTE_OFFSET,
      TZ_HOUR_OFFSET, U8_MAX. rewrite arith_in by lia. st_run.
    apply post_if; intros Hr; [done|]. repeat arith_step.
    apply post_if; intros Hv; [done|]. cbn. split; [done|]. split; [done|].
    by apply negb_false_iff in Hv.
Qed.

Lemma seven_bytes (bs : bytes) b0 b1 b2 b3 b4 b5 b6 :
  bs !! 0%nat = Some b0 → bs !! 1%nat = Some b1 → bs !! 2%nat = Some b2 → bs !! 3%nat = Some b3 →
  bs !! 4%nat = Some b4 → bs !! 5%nat = Some b5 → bs !! 6%nat = Some b6 →
  take 7 bs = [b0; b1; b2; b3; b4; b5; b6].
Proof.
  intros. do 7 (destruct bs as [|? bs]; [done|]). cbn in *. by simplify_eq.
Qed.

Lemma decode_datetime_post bs :
  bytes_ok bs → post (decoded_ok bs) (decode_datetime_value bs).
Proof.
  intros Hok. unfold decode_datetime_value, ORA_TYPE_SIZE_DATE, ORA_TYPE_SIZE_TIMESTAMP,
    ORA_TYPE_SIZE_TIMESTAMP_TZ.
  apply post_if; intros Hlen; [done|].
  assert (Zlen bs = 7 ∨ Zlen bs = 11 ∨ Zlen bs = 13) as Hl by lia.
  eapply post_bind; [by apply index_post; [|lia]|]. intros b0 [H0 E0].
  eapply post_bind; [by apply index_post; [|lia]|]. intros b1 [H1 E1].
  unfold is_u8 in H0, H1. unfold i32, I32_MIN, I32_MAX. do 4 arith_step.
  set (year := _ - 100). apply post_if; intros Hy; [done|].
  rewrite !orb_false_iff, !negb_false_iff, !Z.eqb_eq in Hy. destruct Hy as ((Hy&Hb0)&Hb1).
  eapply post_bind; [by apply index_post; [|lia]|]. intros month [H2 E2].
  apply post_if; intros Hm; [done|].
  eapply post_bind; [by apply index_post; [|lia]|]. intros day [H3 E3].
  apply post_if; intros Hd; [done|].
  eapply post_bind; [by apply index_post; [|lia]|]. intros b4 [_ E4].
  eapply post_bind; [by apply decode_offset_time_byte_post|]. intros hour [Hh ->].
  eapply post_bind; [by apply index_post; [|lia]|]. intros b5 [_ E5].
  eapply post_bind; [by apply decode_offset_time_byte_post|]. intros minute [Hmi ->].
  eapply post_bind; [by apply index_post; [|lia]|]. intros b6 [_ E6].
  eapply post_bind; [by apply decode_offset_time_byte_post|]. intros second [Hs ->].
  apply (post_bind (λ n, 0 <= n <= 999999999)).
  { apply post_if; intros Hge; [|cbn; lia].
    destruct (slice_get bs 7 11) as [fr|] eqn:Hfr; [|apply slice_get_none in Hfr; lia].
    cbn [or_panic]. st_run. pose proof (slice_get_ok _ _ _ _ Hok Hfr) as Hfok.
    apply post_if; intros Hn; [done|]. pose proof (from_be_bytes_range _ Hfok). cbn. lia. }
  intros n Hn.
  assert (date_part_ok bs year month day hour minute second n) as Hdate.
  { assert (valid_fields year month day hour minute second = true) as Hv
      by (apply valid_fields_iff; split; [done|]; unfold between in *; lia).
    unfold date_part_ok. rewrite encode_oracle_date_run by done. split; [|done]. f_equal.
    rewrite (seven_bytes bs b0 b1 month day (hour + 1) (minute + 1) (second + 1)) by done.
    unfold date_wire. by rewrite Hb0, Hb1. }
  apply post_if; intros H13.
  - apply decode_zone_post; [done|lia|done].
  - cbn. split; [done|]. lia.
Qed.

(** C30: The decoder of dates and timestamps is total and canonical: on every
    byte string it returns, and a value it returns has fields in range whose
    encoding is the seven bytes that were read, a fraction below one second, an
    offset within a day and a region the table knows; no other byte string
    aliases a date. *)
Theorem decode_datetime_canonical bs :
  bytes_ok bs → post (decoded_ok bs) (decode_datetime_value bs).
Proof. apply decode_datetime_post. Qed.

Lemma decode_datetime_canonical_witness :
  post (decoded_ok [120; 124; 2; 29; 24; 60; 60; 0; 0; 0; 1; 128 + 8; 4])
    (decode_datetime_value [120; 124; 2; 29; 24; 60; 60; 0; 0; 0; 1; 128 + 8; 4]).
Proof.
  apply (decode_datetime_canonical [120; 124; 2; 29; 24; 60; 60; 0; 0; 0; 1; 128 + 8; 4]).
  apply (bool_decide_unpack _). by vm_compute.
Defined.

(** ** Interval round trips *)

Lemma to_offset_byte_run v :
  I32_MIN <= v <= I32_MAX - 60 →
  to_offset_byte v = if between (-60) 195 v then Ok (v + 60)
                     else Err (TtcDecode "INTERVAL DS component out of range").
Proof.
  unfold I32_MIN, I32_MAX. intros. unfold to_offset_byte, TNS_DURATION_OFFSET, i32, I32_MIN,
    I32_MAX, U8_MAX, try_range. arith_step.
  replace (between 0 255 (v + 60)) with (between (-60) 195 v) by (unfold between; lia).
  by destruct (between _ _ _).
Qed.

Lemma seconds_parts s :
  I32_MIN <= s <= I32_MAX →
  -596523 <= div_t s 3600 <= 596523 ∧ -59 <= div_t (rem_t s 3600) 60 <= 59 ∧
  -59 <= rem_t s 60 <= 59 ∧
  div_t s 3600 * 3600 + div_t (rem_t s 3600) 60 * 60 + rem_t s 60 = s ∧
  (-60 <= div_t s 3600 <= 195 ↔ -219600 < s < 705600).
Proof.
  unfold I32_MIN, I32_MAX, div_t, rem_t. intros. Z.to_euclidean_division_equations. lia.
Qed.

Lemma be4_word v (rest : bytes) : slice_get (to_be_bytes 4 v ++ rest) 0 4 = Some (to_be_bytes 4 v).
Proof.
  pose proof (slice_get_app [] (to_be_bytes 4 v) rest) as H.
  by rewrite Zlen_to_be_bytes in H.
Qed.

Lemma duration_mid_roundtrip v :
  I32_MIN <= v <= I32_MAX → from_be_bytes (to_be_bytes 4 (v + TNS_DURATION_MID)) = v + TNS_DURATION_MID.
Proof.
  unfold I32_MIN, I32_MAX, TNS_DURATION_MID. intros. apply from_to_be_bytes.
  change (256 ^ Z.of_nat 4) with 4294967296. lia.
Qed.

Lemma duration_widen v : I32_MIN <= v <= I32_MAX → i64 (v + TNS_DURATION_MID) = Ok (v + TNS_DURATION_MID).
Proof. unfold I32_MIN, I32_MAX. intros. apply arith_in. unfold I64_MIN, I64_MAX, TNS_DURATION_MID. lia. Qed.

Lemma duration_u32 v :
  I32_MIN <= v <= I32_MAX → try_range 0 U32_MAX (v + TNS_DURATION_MID) = Some (v + TNS_DURATION_MID).
Proof. unfold I32_MIN, I32_MAX. intros. apply try_range_in. unfold U32_MAX, TNS_DURATION_MID. lia. Qed.

Lemma duration_narrow v :
  I32_MIN <= v <= I32_MAX →
  i64 (from_be_bytes (to_be_bytes 4 (v + TNS_DURATION_MID)) - TNS_DURATION_MID) = Ok v.
Proof.
  intros H. rewrite duration_mid_roundtrip by done. unfold I32_MIN, I32_MAX in H.
  replace (_ - TNS_DURATION_MID) with v by lia. apply arith_in. unfold I64_MIN, I64_MAX. lia.
Qed.

(** Where the parts of the 11-byte form are. *)
Lemma ds_fseconds d f (mid : bytes) :
  Zlen mid = 3 → slice_get (to_be_bytes 4 d ++ mid ++ to_be_bytes 4 f) 7 11 = Some (to_be_bytes 4 f).
Proof.
  intros Hm. pose proof (slice_get_app (to_be_bytes 4 d ++ mid) (to_be_bytes 4 f) []) as H.
  rewrite app_nil_r, <- app_assoc, Zlen_app, !Zlen_to_be_bytes, Hm in H. done.
Qed.

Lemma ds_components d f b4 b5 b6 :
  let wire := to_be_bytes 4 d ++ [b4; b5; b6] ++ to_be_bytes 4 f in
  @index ProtocolError wire 4 = Ok b4 ∧ @index ProtocolError wire 5 = Ok b5 ∧
  @index ProtocolError wire 6 = Ok b6.
Proof.
  cbn zeta. pose proof (λ i, @index_suffix ProtocolError (to_be_bytes 4 d)
    ([b4; b5; b6] ++ to_be_bytes 4 f) i) as Hi.
  rewrite Zlen_to_be_bytes in Hi.
  rewrite (Hi 0 ltac:(lia) : index _ 4 = _), (Hi 1 ltac:(lia) : index _ 5 = _),
    (Hi 2 ltac:(lia) : index _ 6 = _). rewrite !index_prefix by (unfold Zlen; cbn; lia). done.
Qed.

(** The time part of an [INTERVAL DAY TO SECOND] comes back split into hours,
    minutes and seconds; one that does not fit is refused. *)
Lemma interval_ds_run days seconds nanoseconds :
  I32_MIN <= days <= I32_MAX → I32_MIN <= seconds <= I32_MAX →
  I32_MIN <= nanoseconds <= I32_MAX →
  if between (-219599) 705599 seconds then
    ∃ wire, encode_interval_ds days seconds nanoseconds = Ok wire ∧ Zlen wire = 11 ∧
      decode_interval_ds wire =
        Ok (IntervalDS days (div_t seconds 3600) (div_t (rem_t seconds 3600) 60) (rem_t seconds 60)
              nanoseconds)
  else encode_interval_ds days seconds nanoseconds =
         Err (TtcDecode "INTERVAL DS component out of range").
Proof.
  intros Hd Hs Hn. destruct (seconds_parts seconds Hs) as (Hh&Hm&Hsec&Hsum&Hiff).
  pose proof Hd as Hd'. pose proof Hn as Hn'. unfold I32_MIN, I32_MAX in Hd', Hn'.
  unfold encode_interval_ds. rewrite !duration_widen by done. st_run. rewrite duration_u32 by done. st_run.
  rewrite !to_offset_byte_run by (unfold I32_MIN, I32_MAX; lia).
  destruct (between (-219599) 705599 seconds) eqn:Hb.
  2:{ apply between_false in Hb. rewrite (proj2 (between_false (-60) 195 _)) by lia. done. }
  apply between_true in Hb. rewrite !(proj2 (between_true (-60) 195 _)) by lia.
  st_run. rewrite duration_u32 by done. st_run.
  set (h := div_t seconds 3600) in *. set (m := div_t (rem_t seconds 3600) 60) in *.
  set (s := rem_t seconds 60) in *. clearbody h m s.
  eexists _. split; [done|]. split; [by autorewrite with thin|].
  unfold decode_interval_ds. autorewrite with thin. cbn [Z.ltb Z.compare Z.add Z.of_nat].
  rewrite be4_word, ds_fseconds by done. cbn [or_panic]. st_run.
  rewrite !duration_narrow by done. unfold to_component. st_run. rewrite try_range_in by done. st_run.
  destruct (ds_components (days + TNS_DURATION_MID) (nanoseconds + TNS_DURATION_MID)
    (h + 60) (m + 60) (s + 60)) as (->&->&->).
  unfold i32, I32_MIN, I32_MAX, TNS_DURATION_OFFSET. st_run. repeat arith_step.
  rewrite try_range_in by done. st_run. repeat f_equal; lia.
Qed.

(** An [INTERVAL DAY TO SECOND] between -61 and +196 hours below the day
    round trips: the decoded hours, minutes and seconds add up to the seconds
    encoded, days and fraction are unchanged; a longer time part is refused. *)
Theorem interval_ds_roundtrip days seconds nanoseconds :
  I32_MIN <= days <= I32_MAX → I32_MIN <= seconds <= I32_MAX →
  I32_MIN <= nanoseconds <= I32_MAX →
  if between (-219599) 705599 seconds then
    ∃ wire h m s, encode_interval_ds days seconds nanoseconds = Ok wire ∧ Zlen wire = 11 ∧
      decode_interval_ds wire = Ok (IntervalDS days h m s nanoseconds) ∧
      h * 3600 + m * 60 + s = seconds ∧ Z.abs m < 60 ∧ Z.abs s < 60
  else encode_interval_ds days seconds nanoseconds =
         Err (TtcDecode "INTERVAL DS component out of range").
Proof.
  intros Hd Hs Hn. destruct (seconds_parts seconds Hs) as (Hh&Hm&Hsec&Hsum&_).
  pose proof (interval_ds_run days seconds nanoseconds Hd Hs Hn) as H.
  destruct (between _ _ seconds); [|done]. destruct H as (wire & ? & ? & ?).
  eexists wire, _, _, _. split; [done|]. split; [done|]. split; [done|lia].
Qed.

Lemma interval_ds_roundtrip_witness :
  if between (-219599) 705599 (-7322) then
    ∃ wire h m s, encode_interval_ds (-3) (-7322) 5 = Ok wire ∧ Zlen wire = 11 ∧
      decode_interval_ds wire = Ok (IntervalDS (-3) h m s 5) ∧
      h * 3600 + m * 60 + s = -7322 ∧ Z.abs m < 60 ∧ Z.abs s < 60
  else encode_interval_ds (-3) (-7322) 5 =
         Err (TtcDecode "INTERVAL DS component out of range").
Proof. by apply (interval_ds_roundtrip (-3) (-7322) 5). Defined.

(** An [INTERVAL YEAR TO MONTH] of -60 to 195 months round trips, and other
    month counts are refused (up to the 60 below [i32::MAX] whose offset
    addition overflows). *)
Theorem interval_ym_roundtrip years months :
  I32_MIN <= years <= I32_MAX → I32_MIN <= months <= I32_MAX - 60 →
  if between (-60) 195 months then
    ∃ wire, encode_interval_ym years months = Ok wire ∧ Zlen wire = 5 ∧
      decode_interval_ym wire = Ok (IntervalYM years months)
  else encode_interval_ym years months = Err (TtcDecode "INTERVAL YM months out of range").
Proof.
  intros Hy Hm. unfold encode_interval_ym. rewrite duration_widen by done. st_run. rewrite duration_u32 by done. st_run.
  unfold i32, I32_MIN, I32_MAX, TNS_DURATION_OFFSET, U8_MAX in *. arith_step. unfold try_range.
  replace (between 0 255 (months + 60)) with (between (-60) 195 months) by (unfold between; lia).
  destruct (between (-60) 195 months) eqn:Hb; [|done]. apply between_true in Hb. st_run.
  eexists. split; [done|]. split; [by autorewrite with thin|].
  unfold decode_interval_ym. autorewrite with thin. cbn [Z.ltb Z.compare Z.add Z.of_nat].
  rewrite be4_word. cbn [or_panic]. st_run. rewrite duration_narrow by done. st_run.
  rewrite try_range_in by done. st_run.
  pose proof (@index_suffix ProtocolError (to_be_bytes 4 (years + TNS_DURATION_MID)) [months + 60] 0
    ltac:(lia)) as Hi. rewrite Zlen_to_be_bytes in Hi. change (Z.of_nat 4 + 0) with 4 in Hi.
  rewrite Hi. change (@index ProtocolError [months + 60] 0) with (@Ok ProtocolError Z (months + 60)).
  change (Z.of_nat 4 + (0 + 1) <? 5) with false.
  unfold i32, I32_MIN, I32_MAX, TNS_DURATION_OFFSET. arith_step. repeat f_equal; lia.
Qed.

Lemma interval_ym_roundtrip_witness :
  if between (-60) 195 (-11) then
    ∃ wire, encode_interval_ym (-3) (-11) = Ok wire ∧ Zlen wire = 5 ∧
      decode_interval_ym wire = Ok (IntervalYM (-3) (-11))
  else encode_interval_ym (-3) (-11) = Err (TtcDecode "INTERVAL YM months out of range").
Proof. by apply (interval_ym_roundtrip (-3) (-11)). Defined.

(** ** Binary floats: round trip and order *)

(** The order key of a float's bit pattern of [n] bytes: what the format writes
    is the key shifted to be unsigned. *)
Definition float_key (n : nat) (bits : Z) : Z :=
  if bits <? 128 * 256 ^ Z.of_nat (n - 1) then bits else 128 * 256 ^ Z.of_nat (n - 1) - 1 - bits.

Lemma from_be_bytes_cons b (l : bytes) :
  from_be_bytes (b :: l) = b * 256 ^ Zlen l + from_be_bytes l.
Proof.
  unfold from_be_bytes. cbn [rev]. rewrite from_le_bytes_app, length_rev. unfold Zlen. cbn. lia.
Qed.

Lemma from_be_not (l : bytes) : from_be_bytes (map not_u8 l) = 256 ^ Zlen l - 1 - from_be_bytes l.
Proof.
  induction l as [|b l IH]; [done|]. cbn [map]. rewrite !from_be_bytes_cons, IH.
  autorewrite with thin. pose proof (Zlen_nonneg l). rewrite Z.pow_add_r by lia.
  unfold not_u8, Zlen. rewrite length_map. lia.
Qed.

Lemma order_encode_value (l : bytes) :
  bytes_ok l → l ≠ [] →
  from_be_bytes (order_encode l) =
    float_key (length l) (from_be_bytes l) + 128 * 256 ^ Z.of_nat (length l - 1).
Proof.
  intros Hok Hne. destruct l as [|b l]; [done|]. apply Forall_cons_iff in Hok as [Hb Hl].
  pose proof (sign_bit b Hb) as (Hz&H1&H2). pose proof (from_be_bytes_range l Hl) as Hr.
  unfold is_u8 in Hb. unfold order_encode, float_key. rewrite Hz.
  cbn [length]. replace (S (length l) - 1)%nat with (length l) by lia.
  rewrite from_be_bytes_cons. fold (Zlen l) in *.
  set (p := 256 ^ Zlen l) in *. assert (0 < p) by (apply Z.pow_pos_nonneg; [lia|apply Zlen_nonneg]).
  destruct (Z.ltb_spec b 128).
  - rewrite (proj2 (Z.ltb_lt _ _)) by nia. destruct H1 as [-> _]; [done|].
    rewrite from_be_bytes_cons. fold p. lia.
  - rewrite (proj2 (Z.ltb_ge _ _)) by nia.
    rewrite from_be_not, from_be_bytes_cons. autorewrite with thin.
    pose proof (Zlen_nonneg l). rewrite Z.pow_add_r by lia. fold p. lia.
Qed.

Lemma map_not_involutive (l : bytes) : map not_u8 (map not_u8 l) = l.
Proof. induction l as [|b l IH]; cbn; [done|]. rewrite IH. f_equal. unfold not_u8. lia. Qed.

Lemma order_decode_encode (l : bytes) : bytes_ok l → order_decode (order_encode l) = l.
Proof.
  intros Hok. destruct l as [|b l]; [done|]. apply Forall_cons_iff in Hok as [Hb Hl].
  pose proof (sign_bit b Hb) as (Hz&H1&_). unfold is_u8 in Hb. unfold order_encode. rewrite Hz.
  destruct (Z.ltb_spec b 128) as [Hlt|Hge].
  - destruct H1 as [-> Hland]; [done|]. unfold order_decode.
    destruct (sign_bit (b + 128)) as (->&_); [unfold is_u8; lia|].
    rewrite (proj2 (Z.ltb_ge _ _)) by lia. cbn. by rewrite Hland.
  - cbn [map order_decode]. destruct (sign_bit (not_u8 b)) as (->&_);
      [unfold is_u8, not_u8; lia|].
    rewrite (proj2 (Z.ltb_lt _ _)) by (unfold not_u8; lia). cbn [negb].
    rewrite <- (map_not_involutive (b :: l)). done.
Qed.

Lemma order_encode_length (l : bytes) : Zlen (order_encode l) = Zlen l.
Proof.
  destruct l as [|b l]; [done|]. unfold order_encode. destruct (_ =? _); [done|].
  unfold Zlen. by rewrite length_map.
Qed.

(** The binary float formats round trip, every bit pattern (NaN payloads
    and signed zeros included) being restored. *)
Theorem binary_float_roundtrip bits :
  (0 <= bits <= U64_MAX → decode_binary_double (encode_binary_double bits) = Ok bits) ∧
  (0 <= bits <= U32_MAX → decode_binary_float (encode_binary_float bits) = Ok bits).
Proof.
  unfold decode_binary_double, decode_binary_float, encode_binary_double, encode_binary_float.
  unfold U64_MAX, U32_MAX. rewrite !order_encode_length, !Zlen_to_be_bytes.
  rewrite !order_decode_encode by apply to_be_bytes_ok.
  split; intros H; cbn -[from_be_bytes to_be_bytes]; rewrite from_to_be_bytes; try done.
  - change (256 ^ Z.of_nat 8) with 18446744073709551616. lia.
  - change (256 ^ Z.of_nat 4) with 4294967296. lia.
Qed.

Lemma binary_float_roundtrip_witness :
  decode_binary_double (encode_binary_double 13826050856027422720) = Ok 13826050856027422720 ∧
  decode_binary_float (encode_binary_float 3204448256) = Ok 3204448256.
Proof.
  split.
  - apply (binary_float_roundtrip 13826050856027422720). done.
  - apply (binary_float_roundtrip 3204448256). done.
Defined.

(** The wire form of a [BINARY_DOUBLE] orders as the numbers do: read as an
    unsigned big-endian integer it increases with the float's value, all
    negative bit patterns below all others and larger magnitudes of negatives
    lower. *)
Theorem binary_double_order a b :
  0 <= a <= U64_MAX → 0 <= b <= U64_MAX →
  from_be_bytes (encode_binary_double a) < from_be_bytes (encode_binary_double b) ↔
  (if (a <? 2 ^ 63) && (b <? 2 ^ 63) then a < b
   else if (2 ^ 63 <=? a) && (2 ^ 63 <=? b) then b < a
   else b < 2 ^ 63).
Proof.
  unfold U64_MAX. intros Ha Hb. unfold encode_binary_double.
  rewrite !order_encode_value by (apply to_be_bytes_ok || discriminate).
  rewrite !length_to_be_bytes, !from_to_be_bytes
    by (change (256 ^ Z.of_nat 8) with 18446744073709551616; lia).
  unfold float_key. change (128 * 256 ^ Z.of_nat (8 - 1)) with 9223372036854775808.
  change (2 ^ 63) with 9223372036854775808.
  destruct (Z.ltb_spec a 9223372036854775808), (Z.ltb_spec b 9223372036854775808),
    (Z.leb_spec 9223372036854775808 a), (Z.leb_spec 9223372036854775808 b); cbn [andb]; lia.
Qed.

Lemma binary_double_order_witness :
  from_be_bytes (encode_binary_double 13826050856027422720) <
    from_be_bytes (encode_binary_double 4602678819172646912) ↔
  (if (13826050856027422720 <? 2 ^ 63) && (4602678819172646912 <? 2 ^ 63)
   then 13826050856027422720 < 4602678819172646912
   else if (2 ^ 63 <=? 13826050856027422720) && (2 ^ 63 <=? 4602678819172646912)
   then 4602678819172646912 < 13826050856027422720 else 4602678819172646912 < 2 ^ 63).
Proof. by apply (binary_double_order 13826050856027422720 4602678819172646912). Defined.
