(* ===== verification/Number.v ===== *)
(** * Oracle NUMBER ([thin/codecs.rs], [thin/number.rs])

    The text-to-wire encoder, the heap and the stack digit walk of the decoder,
    the canonical formatter, and the inline [OracleNumber] with its own
    formatter and parser.  Text is the list of its bytes (all ASCII here). *)

From S2P Require Import Prelude.
From S2P Require Import Protocol.

Definition NUMBER_AS_TEXT_CHARS : Z := 172.
Definition NUMBER_MAX_DIGITS : Z := 40.
Definition MAX_DIGITS : Z := 42.

(** ASCII characters the code names. *)
Definition ch_plus : Z := 43.
Definition ch_minus : Z := 45.
Definition ch_dot : Z := 46.
Definition ch_zero : Z := 48.
Definition ch_one : Z := 49.
Definition ch_two : Z := 50.
Definition ch_six : Z := 54.
Definition ch_E : Z := 69.
Definition ch_e : Z := 101.

Definition is_ascii_digit (b : Z) : bool := between 48 57 b.
Definition is_exponent_mark (b : Z) : bool := (b =? ch_e) || (b =? ch_E).

(** ** The encoder *)

(** The loop over the integer part: leading zeros are skipped, the scan stops
    at a point or an exponent mark.  Returns the digits and the unread text. *)
Fixpoint scan_integer (value : bytes) (digits : bytes) : Res (bytes * bytes) :=
  match value with
  | [] => Ok (digits, value)
  | byte :: rest =>
      if (byte =? ch_dot) || is_exponent_mark byte then Ok (digits, value)
      else if negb (is_ascii_digit byte) then Err (TtcDecode "invalid NUMBER bind")
      else
        let digit := byte - ch_zero in
        if (digit =? 0) && bool_decide (digits = []) then scan_integer rest digits
        else scan_integer rest (digits ++ [digit])
  end.

(** The loop over the fraction: a zero before the first significant digit moves
    the decimal point. *)
Fixpoint scan_fraction (value : bytes) (digits : bytes) (decimal_point_index : Z)
  : Res (bytes * Z * bytes) :=
  match value with
  | [] => Ok (digits, decimal_point_index, value)
  | byte :: rest =>
      if is_exponent_mark byte then Ok (digits, decimal_point_index, value)
      else if negb (is_ascii_digit byte) then Err (TtcDecode "invalid NUMBER bind")
      else
        let digit := byte - ch_zero in
        if (digit =? 0) && bool_decide (digits = []) then
          decimal_point_index ← arith I32_MIN I32_MAX (decimal_point_index - 1);
          scan_fraction rest digits decimal_point_index
        else scan_fraction rest (digits ++ [digit]) decimal_point_index
  end.

(** [text.parse::<i32>()] on a string of decimal digits: accumulate, failing
    when the value leaves the type. *)
Fixpoint parse_digits (max : Z) (acc : Z) (text : bytes) : option Z :=
  match text with
  | [] => Some acc
  | b :: text =>
      v ← try_range 0 max (acc * 10);
      v ← try_range 0 max (v + (b - ch_zero));
      parse_digits max v text
  end.

(** The exponent, after its mark: it reaches to the end of the text. *)
Definition scan_exponent (value : bytes) : Res Z :=
  let '(exponent_is_negative, value) :=
    match value with
    | byte :: rest =>
        if byte =? ch_minus then (true, rest)
        else if byte =? ch_plus then (false, rest)
        else (false, value)
    | [] => (false, value)
    end in
  if negb (forallb is_ascii_digit value) then Err (TtcDecode "invalid NUMBER exponent")
  else if bool_decide (value = []) then Err (TtcDecode "empty NUMBER exponent")
  else
    exponent ← ok_or (parse_digits I32_MAX 0 value) (TtcDecode "invalid NUMBER exponent");
    if exponent_is_negative then arith I32_MIN I32_MAX (- exponent) else Ok exponent.

(** [while digits.last() == Some(0) { digits.pop() }] *)
Fixpoint drop_zeros (rev_digits : bytes) : bytes :=
  match rev_digits with
  | 0 :: rest => drop_zeros rest
  | _ => rev_digits
  end.
Definition strip_trailing_zeros (digits : bytes) : bytes := rev (drop_zeros (rev digits)).

(** The loop over digit pairs; [digits] is [digits[digit_pos..]].  With
    [prepend_zero] the first pair is a single digit. *)
Fixpoint pack_pairs (pairs : nat) (prepend_zero is_negative : bool) (digits : bytes) : Res bytes :=
  match pairs with
  | O => Ok []
  | S pairs =>
      digit_rest ←
        (if prepend_zero then
           d ← or_panic (head digits); Ok (d, drop 1 digits)
         else
           d1 ← or_panic (digits !! 0%nat);
           d2 ← or_panic (digits !! 1%nat);
           t ← arith 0 U8_MAX (d1 * 10);
           digit ← arith 0 U8_MAX (t + d2);
           Ok (digit, drop 2 digits));
      let '(digit, rest) := digit_rest in
      digit ← (if is_negative : bool then arith 0 U8_MAX (101 - digit)
               else arith 0 U8_MAX (digit + 1));
      encoded ← pack_pairs pairs false is_negative rest;
      Ok (digit :: encoded)
  end.

(** From the stripped digits and the point to the wire bytes. *)
Definition pack_number (is_negative : bool) (digits : bytes) (decimal_point_index : Z)
  : Res bytes :=
  if (NUMBER_MAX_DIGITS <? Zlen digits) || negb (between (-129) 126 decimal_point_index)
  then Err (TtcDecode "NUMBER bind out of range")
  else
    let prepend_zero := negb (rem_t decimal_point_index 2 =? 0) in
    point ←
      (if prepend_zero && negb (bool_decide (digits = []))
       then dpi ← arith I32_MIN I32_MAX (decimal_point_index + 1); Ok (digits ++ [0], dpi)
       else Ok (digits, decimal_point_index));
    let '(digits, decimal_point_index) := point in
    let digits := if Zlen digits mod 2 =? 1 then digits ++ [0] else digits in
    if bool_decide (digits = []) then Ok [128]
    else
      exponent_on_wire ← arith I32_MIN I32_MAX (div_t decimal_point_index 2 + 192);
      if negb (between 0 255 exponent_on_wire)
      then Err (TtcDecode "NUMBER bind exponent out of range")
      else
        let exponent_byte := as_u 8 exponent_on_wire in
        encoded ← pack_pairs (length digits / 2) prepend_zero is_negative digits;
        Ok ((if is_negative then not_u8 exponent_byte else exponent_byte) :: encoded ++
              (if is_negative && (Zlen digits <? NUMBER_MAX_DIGITS) then [102] else [])).

Definition encode_number_text (value : bytes) : Res bytes :=
  if bool_decide (value = []) then Err (TtcDecode "empty NUMBER bind")
  else if NUMBER_AS_TEXT_CHARS <? Zlen value then Err (TtcDecode "NUMBER bind text too long")
  else
    let is_negative := bool_decide (head value = Some ch_minus) in
    let value := if is_negative then drop 1 value else value in
    '(digits, value) ← scan_integer value [];
    let decimal_point_index := default I32_MAX (try_range I32_MIN I32_MAX (Zlen digits)) in
    '(digits, decimal_point_index, value) ←
      (if bool_decide (head value = Some ch_dot)
       then scan_fraction (drop 1 value) digits decimal_point_index
       else Ok (digits, decimal_point_index, value));
    '(decimal_point_index, value) ←
      (match value with
       | byte :: rest =>
           if is_exponent_mark byte then
             exponent ← scan_exponent rest;
             dpi ← ok_or (try_range I32_MIN I32_MAX (decimal_point_index + exponent))
                     (TtcDecode "NUMBER bind out of range");
             Ok (dpi, [])
           else Ok (decimal_point_index, value)
       | [] => Ok (decimal_point_index, value)
       end);
    if negb (bool_decide (value = [])) then Err (TtcDecode "invalid NUMBER bind suffix")
    else pack_number is_negative (strip_trailing_zeros digits) decimal_point_index.

(** ** The digit walk of the decoder *)

Inductive DecodedNumber :=
| DecodedText (text : bytes) (is_integer : bool)
| DecodedParts (digits : bytes) (is_negative : bool) (decimal_point_index : Z) (is_integer : bool).

(** The mantissa bytes [bytes[index..end]]; [digits] and the point are the
    loop's mutable state. *)
Fixpoint walk_digits (is_positive : bool) (index end_ : Z) (mantissa : bytes)
    (digits : bytes) (decimal_point_index : Z) : Res (bytes * Z) :=
  match mantissa with
  | [] => Ok (digits, decimal_point_index)
  | encoded :: rest =>
      let value := if is_positive then sat_sub encoded 1 else sat_sub 101 encoded in
      let first_digit := div_t value 10 in
      '(digits, decimal_point_index) ←
        (if (first_digit =? 0) && bool_decide (digits = []) then
           dpi ← arith I16_MIN I16_MAX (decimal_point_index - 1); Ok (digits, dpi)
         else if first_digit =? 10 then
           dpi ← arith I16_MIN I16_MAX (decimal_point_index + 1); Ok (digits ++ [1] ++ [0], dpi)
         else if negb (first_digit =? 0) || (0 <? index)
         then Ok (digits ++ [first_digit], decimal_point_index)
         else Ok (digits, decimal_point_index));
      let second_digit := rem_t value 10 in
      let digits := if negb (second_digit =? 0) || (index <? end_ - 1)
                    then digits ++ [second_digit] else digits in
      walk_digits is_positive (index + 1) end_ rest digits decimal_point_index
  end.

(** What both walks do before their loop: length check, sign, point, and the
    end of the mantissa. *)
Definition number_prefix (first : Z) (bytes : bytes) : Res (bool * Z * Z) :=
  let is_positive := negb (Z.land first 128 =? 0) in
  let exponent_byte := if is_positive then first else not_u8 first in
  exponent ← arith I16_MIN I16_MAX (exponent_byte - 193);
  t ← arith I16_MIN I16_MAX (exponent * 2);
  decimal_point_index ← arith I16_MIN I16_MAX (t + 2);
  last ← index bytes (Zlen bytes - 1);
  let end_ := if negb is_positive && (last =? 102) then Zlen bytes - 1 else Zlen bytes in
  Ok (is_positive, decimal_point_index, end_).

(** [bytes.iter().take(end).skip(1)] *)
Definition mantissa_bytes (bytes : bytes) (end_ : Z) : Prelude.bytes :=
  drop 1 (take (Z.to_nat end_) bytes).

Definition len_i16 (digits : bytes) : Z := default I16_MAX (try_range I16_MIN I16_MAX (Zlen digits)).

Definition decode_number_parts (bytes : bytes) : Res DecodedNumber :=
  if 21 <? Zlen bytes then Err (TtcDecode "encoded NUMBER too long")
  else
    match bytes with
    | [] => Err (TtcDecode "empty NUMBER")
    | first :: _ =>
        if Zlen bytes =? 1 then
          Ok (DecodedText (if negb (Z.land first 128 =? 0) then [ch_zero]
                           else [ch_minus; ch_one; ch_e; ch_one; ch_two; ch_six]) true)
        else
          '(is_positive, decimal_point_index, end_) ← number_prefix first bytes;
          '(digits, decimal_point_index) ←
            walk_digits is_positive 1 end_ (mantissa_bytes bytes end_) [] decimal_point_index;
          let is_integer := (0 <? decimal_point_index) && (len_i16 digits <=? decimal_point_index) in
          Ok (DecodedParts digits (negb is_positive) decimal_point_index is_integer)
    end.

(** ** The stack twin of the walk *)

Inductive DecodedNumberStack :=
| Sentinel (text : bytes) (is_integer : bool)
| StackParts (digit_len : Z) (is_negative : bool) (decimal_point_index : Z) (is_integer : bool)
    (coefficient : option Z).

(** The stack buffer holds [digit_buf[..len]] and the fused coefficient. *)
Record StackDigits := mkStack { digit_buf : bytes; coeff : option Z }.

Definition checked_i128 (z : Z) : option Z := try_range I128_MIN I128_MAX z.

(** [acc.checked_mul(10).and_then(|acc| acc.checked_add(d))] *)
Definition fold_digit (acc : option Z) (d : Z) : option Z :=
  acc ← acc; acc ← checked_i128 (acc * 10); checked_i128 (acc + d).

Definition push (capacity : Z) (d : Z) (s : StackDigits) : StackDigits :=
  {| digit_buf := if Zlen (digit_buf s) <? capacity then digit_buf s ++ [d] else digit_buf s;
     coeff := fold_digit (coeff s) d |}.

Fixpoint walk_digits_stack (capacity : Z) (is_positive : bool) (index end_ : Z) (mantissa : bytes)
    (s : StackDigits) (decimal_point_index : Z) : Res (StackDigits * Z) :=
  match mantissa with
  | [] => Ok (s, decimal_point_index)
  | encoded :: rest =>
      let value := if is_positive then sat_sub encoded 1 else sat_sub 101 encoded in
      let first_digit := div_t value 10 in
      '(s, decimal_point_index) ←
        (if (first_digit =? 0) && (Zlen (digit_buf s) =? 0) then
           dpi ← arith I16_MIN I16_MAX (decimal_point_index - 1); Ok (s, dpi)
         else if first_digit =? 10 then
           dpi ← arith I16_MIN I16_MAX (decimal_point_index + 1);
           Ok (push capacity 0 (push capacity 1 s), dpi)
         else if negb (first_digit =? 0) || (0 <? index)
         then Ok (push capacity first_digit s, decimal_point_index)
         else Ok (s, decimal_point_index));
      let second_digit := rem_t value 10 in
      let s := if negb (second_digit =? 0) || (index <? end_ - 1)
               then push capacity second_digit s else s in
      walk_digits_stack capacity is_positive (index + 1) end_ rest s decimal_point_index
  end.

(** Returns the parts and the filled part of the caller's buffer. *)
Definition decode_number_parts_stack (capacity : Z) (bytes : bytes)
  : Res (DecodedNumberStack * Prelude.bytes) :=
  if 21 <? Zlen bytes then Err (TtcDecode "encoded NUMBER too long")
  else
    match bytes with
    | [] => Err (TtcDecode "empty NUMBER")
    | first :: _ =>
        if Zlen bytes =? 1 then
          Ok (Sentinel (if negb (Z.land first 128 =? 0) then [ch_zero]
                        else [ch_minus; ch_one; ch_e; ch_one; ch_two; ch_six]) true, [])
        else
          '(is_positive, decimal_point_index, end_) ← number_prefix first bytes;
          '(s, decimal_point_index) ←
            walk_digits_stack capacity is_positive 1 end_ (mantissa_bytes bytes end_)
              {| digit_buf := []; coeff := Some 0 |} decimal_point_index;
          let is_integer :=
            (0 <? decimal_point_index) && (len_i16 (digit_buf s) <=? decimal_point_index) in
          coefficient ←
            (match coeff s with
             | Some acc => if is_positive : bool then Ok (Some acc)
                           else t ← arith I128_MIN I128_MAX (- acc); Ok (Some t)
             | None => Ok None
             end);
          Ok (StackParts (Zlen (digit_buf s)) (negb is_positive) decimal_point_index is_integer
                coefficient, digit_buf s)
    end.

(** The reference fold the fused coefficient must reproduce. *)
Definition digits_to_i128 (digits : bytes) (is_negative : bool) : option Z :=
  acc ← foldl fold_digit (Some 0) digits;
  if is_negative : bool then Some (- acc) else Some acc.

(** ** Canonical text *)

Definition zeros (n : Z) : bytes := repeat ch_zero (Z.to_nat n).

(** The loop that writes the digits, the point before digit number
    [decimal_point_index] (never before the first). *)
Fixpoint write_digits (index : Z) (digits : bytes) (decimal_point_index : Z) : bytes :=
  match digits with
  | [] => []
  | digit :: rest =>
      (if (0 <? index) &&
          (default I16_MAX (try_range I16_MIN I16_MAX index) =? decimal_point_index)
       then [ch_dot] else []) ++ [ch_zero + digit] ++
      write_digits (index + 1) rest decimal_point_index
  end.

Definition format_number_digits (digits : bytes) (is_negative : bool) (decimal_point_index : Z)
  : bytes :=
  (if is_negative then [ch_minus] else []) ++
  (if decimal_point_index <=? 0 then [ch_zero; ch_dot] ++ zeros (- decimal_point_index) else []) ++
  write_digits 0 digits decimal_point_index ++
  (if len_i16 digits <? decimal_point_index
   then zeros (decimal_point_index - len_i16 digits) else []).

(** The borrowed path: text and integrality. *)
Definition decode_number_text_into (bytes : bytes) (text : Prelude.bytes)
  : Res (bool * Prelude.bytes) :=
  parts ← decode_number_parts bytes;
  match parts with
  | DecodedText t is_integer => Ok (is_integer, text ++ t)
  | DecodedParts digits is_negative decimal_point_index is_integer =>
      Ok (is_integer, text ++ format_number_digits digits is_negative decimal_point_index)
  end.

(** ** [OracleNumber] *)

Inductive OracleNumber :=
| Inline (coefficient_le : bytes) (scale : Z) (is_integer : bool)
| Text (text : bytes) (is_integer : bool).

Definition i128_to_le (z : Z) : bytes := to_le_bytes 16 (as_u 128 z).
Definition i128_from_le (l : bytes) : Z := as_i 128 (from_le_bytes l).

Definition inline (coefficient scale : Z) (is_integer : bool) : OracleNumber :=
  Inline (i128_to_le coefficient) scale is_integer.

Definition coefficient (n : OracleNumber) : option Z :=
  match n with
  | Inline coefficient_le _ _ => Some (i128_from_le coefficient_le)
  | Text _ _ => None
  end.

Definition scale (n : OracleNumber) : option Z :=
  match n with Inline _ scale _ => Some scale | Text _ _ => None end.

Definition is_integer (n : OracleNumber) : bool :=
  match n with Inline _ _ b => b | Text _ b => b end.

Definition spill_text (digits : bytes) (is_negative : bool) (decimal_point_index : Z)
    (is_integer : bool) : OracleNumber :=
  Text (format_number_digits digits is_negative decimal_point_index) is_integer.

Definition from_wire (bytes : bytes) : Res OracleNumber :=
  '(parts, digits) ← decode_number_parts_stack MAX_DIGITS bytes;
  match parts with
  | Sentinel text is_integer => Ok (Text text is_integer)
  | StackParts digit_len is_negative decimal_point_index is_integer coefficient =>
      match coefficient with
      | Some coefficient =>
          let len := default I32_MAX (try_range I32_MIN I32_MAX (Zlen digits)) in
          scale_i32 ← arith I32_MIN I32_MAX (len - decimal_point_index);
          match try_range I16_MIN I16_MAX scale_i32 with
          | Some scale => Ok (inline coefficient scale is_integer)
          | None => Ok (spill_text digits is_negative decimal_point_index is_integer)
          end
      | None => Ok (spill_text digits is_negative decimal_point_index is_integer)
      end
  end.

Definition decode_number_value (bytes : bytes) : Res OracleNumber := from_wire bytes.

(** The decimal digits of a magnitude, most significant first: the loop that
    fills the 40-byte buffer from its end.  [n] bounds the buffer. *)
Fixpoint decimal_digits (n : nat) (mag : Z) (acc : bytes) : Res bytes :=
  if mag <=? 0 then Ok acc
  else match n with
       | O => Panic
       | S n => decimal_digits n (mag / 10) ((ch_zero + mag mod 10) :: acc)
       end.

(** Digits with the point before number [decimal_point_index]. *)
Fixpoint insert_point (i : Z) (digits : bytes) (decimal_point_index : Z) : bytes :=
  match digits with
  | [] => []
  | d :: rest =>
      (if i =? decimal_point_index then [ch_dot] else []) ++ [d] ++
      insert_point (i + 1) rest decimal_point_index
  end.

Definition fmt_inline_into (coefficient scale : Z) (out : bytes) : Res bytes :=
  if coefficient =? 0 then Ok (out ++ [ch_zero])
  else
    let is_negative := coefficient <? 0 in
    digits ← decimal_digits 40 (Z.abs coefficient) [];
    let digit_count := Zlen digits in
    decimal_point_index ← arith I32_MIN I32_MAX (digit_count - scale);
    let out := out ++ (if is_negative then [ch_minus] else []) in
    if decimal_point_index <=? 0
    then Ok (out ++ [ch_zero; ch_dot] ++ zeros (- decimal_point_index) ++ digits)
    else Ok (out ++ insert_point 0 digits decimal_point_index ++
             (if digit_count <? decimal_point_index
              then zeros (decimal_point_index - digit_count) else [])).

Definition fmt_into (n : OracleNumber) (out : bytes) : Res bytes :=
  match n with
  | Text text _ => Ok (out ++ text)
  | Inline coefficient_le scale _ => fmt_inline_into (i128_from_le coefficient_le) scale out
  end.

Definition to_canonical_string (n : OracleNumber) : Res bytes := fmt_into n [].

(** [v.checked_mul(10)] repeated [n] times. *)
Fixpoint mul10 (n : nat) (v : Z) : option Z :=
  match n with
  | O => Some v
  | S n => v ← checked_i128 (v * 10); mul10 n v
  end.

Definition inline_to_i128 (coefficient scale : Z) : option Z :=
  match Z.compare scale 0 with
  | Eq => Some coefficient
  | Lt => mul10 (Z.to_nat (- scale)) coefficient
  | Gt =>
      divisor ← mul10 (Z.to_nat scale) 1;
      if rem_t coefficient divisor =? 0 then Some (div_t coefficient divisor) else None
  end.

(** [str::split_once('.')] *)
Fixpoint split_dot (text : bytes) : option (bytes * bytes) :=
  match text with
  | [] => None
  | b :: rest =>
      if b =? ch_dot then Some ([], rest)
      else '(i, f) ← split_dot rest; Some (b :: i, f)
  end.

(** The loop that moves trailing zeros of an integral value into a negative
    scale. *)
Fixpoint trim_zeros (fuel : nat) (coefficient scale : Z) : Res (option (Z * Z)) :=
  match fuel with
  | O => Diverge
  | S fuel =>
      if rem_t coefficient 10 =? 0 then
        match try_range I16_MIN I16_MAX (scale - 1) with
        | Some scale => trim_zeros fuel (div_t coefficient 10) scale
        | None => Ok None
        end
      else Ok (Some (coefficient, scale))
  end.

(** An [i128] has at most 39 digits, so the loop ends within 40 rounds. *)
Definition parse_canonical_inline (text : bytes) : Res (option (Z * Z)) :=
  let is_negative := bool_decide (head text = Some ch_minus) in
  let rest := if is_negative then drop 1 text else text in
  if bool_decide (rest = []) then Ok None
  else
    let '(int_part, frac_part) := default (rest, []) (split_dot rest) in
    if negb (forallb is_ascii_digit int_part) || negb (forallb is_ascii_digit frac_part)
    then Ok None
    else
      match foldl fold_digit (Some 0) (map (λ b, b - ch_zero) (int_part ++ frac_part)) with
      | None => Ok None
      | Some acc =>
          match (if is_negative then checked_i128 (- acc) else Some acc) with
          | None => Ok None
          | Some coefficient =>
              match try_range I16_MIN I16_MAX (Zlen frac_part) with
              | None => Ok None
              | Some scale =>
                  if (coefficient =? 0) && (scale =? 0) then Ok None
                  else if scale =? 0 then trim_zeros 40 coefficient scale
                  else Ok (Some (coefficient, scale))
              end
          end
      end.

Definition from_canonical_text_with_flag (text : bytes) (is_integer : bool) : Res OracleNumber :=
  p ← parse_canonical_inline text;
  match p with
  | Some (coefficient, scale) => Ok (inline coefficient scale is_integer)
  | None => Ok (Text text is_integer)
  end.

Definition from_canonical_text (text : bytes) : Res OracleNumber :=
  from_canonical_text_with_flag text (negb (bool_decide (ch_dot ∈ text))).

(** [text.parse::<iN>()] for the sentinel text: an optional sign and digits. *)
Definition parse_int (min max : Z) (text : bytes) : option Z :=
  let is_negative := bool_decide (head text = Some ch_minus) in
  let digits := if is_negative || bool_decide (head text = Some ch_plus) then drop 1 text
                else text in
  if bool_decide (digits = []) || negb (forallb is_ascii_digit digits) then None
  else
    let value := foldl (λ acc b, acc * 10 + (b - ch_zero)) 0 digits in
    try_range min max (if is_negative then - value else value).

Definition to_i128 (n : OracleNumber) : option Z :=
  match n with
  | Inline coefficient_le scale _ => inline_to_i128 (i128_from_le coefficient_le) scale
  | Text text _ => parse_int I128_MIN I128_MAX text
  end.

Definition to_i64 (n : OracleNumber) : option Z :=
  match n with
  | Inline coefficient_le scale _ =>
      v ← inline_to_i128 (i128_from_le coefficient_le) scale; try_range I64_MIN I64_MAX v
  | Text text _ => parse_int I64_MIN I64_MAX text
  end.
