(* ===== verification/NumberWire.v ===== *)
(** * NUMBER on the wire: what the encoder writes and the decoder reads

    The encoder's base-100 packing is inverted by the digit walk, the stack
    walk is the heap walk, and decimal literals keep their value. *)

From S2P Require Import Prelude.
From S2P Require Import Protocol.
From S2P Require Import Number.

Definition is_digit (d : Z) : Prop := 0 <= d <= 9.
Abbreviation digits_ok := (Forall is_digit).

(** The integer a digit string denotes. *)
Definition dval (digits : bytes) : Z := foldl (λ acc d, acc * 10 + d) 0 digits.

(** ** Base-100 packing *)

Fixpoint pairs (l : bytes) : bytes :=
  match l with
  | a :: b :: l => (a * 10 + b) :: pairs l
  | _ => []
  end.

Definition pad_even (l : bytes) : bytes := if Zlen l mod 2 =? 1 then l ++ [0] else l.

(** The mantissa of the digits, [odd] telling that the point is odd. *)
Definition mantissa (odd : bool) (digits : bytes) : bytes :=
  if odd then match digits with d :: rest => d :: pairs (pad_even rest) | [] => [] end
  else pairs (pad_even digits).

Definition enc_pair (is_negative : bool) (v : Z) : Z := if is_negative then 101 - v else v + 1.

Lemma list_pair_ind (P : bytes → Prop) :
  P [] → (∀ a, P [a]) → (∀ a b l, P l → P (a :: b :: l)) → ∀ l, P l.
Proof.
  intros H0 H1 H2. cut (∀ l, P l ∧ ∀ a, P (a :: l)); [intros H l; apply H|].
  induction l as [|b l [IH1 IH2]]; split; auto.
Qed.

Lemma pad_even_cons2 a b l : pad_even (a :: b :: l) = a :: b :: pad_even l.
Proof.
  unfold pad_even. autorewrite with thin.
  replace ((Zlen l + 1 + 1) mod 2) with (Zlen l mod 2)
    by (Z.to_euclidean_division_equations; lia).
  by destruct (_ =? 1).
Qed.

Lemma pad_even_length l : ∃ n, length (pad_even l) = (2 * n)%nat ∧ length (pairs (pad_even l)) = n.
Proof.
  induction l as [|a|a b l (n & Hn & Hp)] using list_pair_ind.
  - by exists 0%nat.
  - by exists 1%nat.
  - exists (S n). rewrite pad_even_cons2. cbn [length pairs]. lia.
Qed.

Lemma pad_even_ok l : digits_ok l → digits_ok (pad_even l).
Proof.
  intros H. unfold pad_even. destruct (_ =? 1); [|done].
  apply Forall_app. split; [done|]. apply Forall_singleton. unfold is_digit. lia.
Qed.

Lemma pairs_range l : digits_ok l → Forall (λ v, 0 <= v <= 99) (pairs l).
Proof.
  induction l as [|a|a b l IH] using list_pair_ind; [constructor..|].
  intros [Ha [Hb Hl]%Forall_cons_iff]%Forall_cons_iff. unfold is_digit in *.
  constructor; [lia|auto].
Qed.

Lemma mantissa_range odd l : digits_ok l → Forall (λ v, 0 <= v <= 99) (mantissa odd l).
Proof.
  intros H. unfold mantissa. destruct odd.
  - destruct l as [|d l]; [constructor|]. apply Forall_cons_iff in H as [Hd Hl].
    constructor; [unfold is_digit in Hd; lia|]. by apply pairs_range, pad_even_ok.
  - by apply pairs_range, pad_even_ok.
Qed.

Lemma enc_pair_arith neg v :
  0 <= v <= 99 →
  (if neg : bool then @arith ProtocolError 0 U8_MAX (101 - v) else arith 0 U8_MAX (v + 1)) =
    Ok (enc_pair neg v).
Proof. intros. unfold U8_MAX. destruct neg; by rewrite arith_in by lia. Qed.

Lemma pack_pairs_run neg n : ∀ l extra,
  digits_ok l → length l = (2 * n)%nat →
  pack_pairs n false neg (l ++ extra) = Ok (map (enc_pair neg) (pairs l)).
Proof.
  induction n as [|n IH]; intros l extra Hok Hlen.
  { by destruct l. }
  destruct l as [|a [|b l]]; cbn [length] in Hlen; [lia..|].
  apply Forall_cons_iff in Hok as [Ha [Hb Hl]%Forall_cons_iff]. unfold is_digit in Ha, Hb.
  cbn [pack_pairs app lookup list_lookup skipn or_panic pairs map]. st_run.
  unfold U8_MAX at 1 2. do 2 arith_step. rewrite enc_pair_arith by lia. st_run.
  by rewrite drop_0, IH by (done || lia).
Qed.

Lemma pack_pairs_odd neg n d l extra :
  digits_ok (d :: l) → length l = (2 * n)%nat →
  pack_pairs (S n) true neg (d :: l ++ extra) = Ok (map (enc_pair neg) (d :: pairs l)).
Proof.
  intros [Hd Hl]%Forall_cons_iff Hlen. unfold is_digit in Hd.
  cbn [pack_pairs head or_panic skipn map]. st_run. rewrite enc_pair_arith by lia. st_run.
  by rewrite drop_0, pack_pairs_run.
Qed.

(** ** What the encoder writes *)

Definition point_odd (dpi : Z) : bool := negb (rem_t dpi 2 =? 0).

Definition exponent_byte (dpi : Z) : Z := (dpi + (if point_odd dpi then 1 else 0)) / 2 + 192.

Definition wire_of (neg : bool) (digits : bytes) (dpi : Z) : bytes :=
  let m := mantissa (point_odd dpi) digits in
  (if neg then not_u8 (exponent_byte dpi) else exponent_byte dpi) ::
    map (enc_pair neg) m ++ (if neg && (2 * Zlen m <? NUMBER_MAX_DIGITS) then [102] else []).

Definition point_ok (dpi : Z) : Prop := -129 <= dpi <= 126.

Lemma exponent_byte_range dpi :
  point_ok dpi → 128 <= exponent_byte dpi <= 255 ∧
  (exponent_byte dpi - 193) * 2 + 2 = dpi + (if point_odd dpi then 1 else 0) ∧
  div_t (dpi + (if point_odd dpi then 1 else 0)) 2 + 192 = exponent_byte dpi.
Proof.
  unfold point_ok, exponent_byte, point_odd, rem_t, div_t. intros.
  destruct (Z.eqb_spec (Z.rem dpi 2) 0); cbn [negb]; Z.to_euclidean_division_equations; lia.
Qed.

(** The padded digit string and its pairs, on each parity of the point. *)
Lemma padded_odd d rest : ∃ n extra,
  pad_even ((d :: rest) ++ [0]) = d :: pad_even rest ++ extra ∧
  length (pad_even rest) = (2 * n)%nat ∧ length (pairs (pad_even rest)) = n ∧
  (length (pad_even ((d :: rest) ++ [0%Z])) / 2 = S n)%nat ∧
  Zlen (pad_even ((d :: rest) ++ [0])) = 2 * Z.of_nat (S n).
Proof.
  destruct (pad_even_length rest) as (n & Hn & Hp). exists n.
  assert (∃ extra, pad_even ((d :: rest) ++ [0]) = d :: pad_even rest ++ extra ∧
    length extra = 1%nat) as (extra & Heq & He).
  { unfold pad_even. cbn [app]. autorewrite with thin.
    destruct (Z.eqb_spec (Zlen rest mod 2) 1) as [H1|H1].
    - replace (_ =? 1) with true; [exists [0]; by rewrite <- app_assoc|].
      symmetry. apply Z.eqb_eq. Z.to_euclidean_division_equations. lia.
    - replace (_ =? 1) with false; [by exists [0]|].
      symmetry. apply Z.eqb_neq. Z.to_euclidean_division_equations. lia. }
  exists extra. rewrite Heq. split_and!; try done.
  - cbn [length]. rewrite length_app, Hn, He. replace (S (2 * n + 1)) with (S n * 2)%nat by lia.
    by rewrite Nat.div_mul.
  - unfold Zlen. cbn [length]. rewrite length_app. lia.
Qed.

Lemma pack_number_run neg digits dpi :
  digits ≠ [] → digits_ok digits → Zlen digits <= NUMBER_MAX_DIGITS → point_ok dpi →
  pack_number neg digits dpi = Ok (wire_of neg digits dpi).
Proof.
  intros Hne Hok Hlen Hp. pose proof (exponent_byte_range dpi Hp) as (Hb&_&Hdiv).
  unfold pack_number. rewrite (proj2 (Z.ltb_ge _ _)) by done.
  rewrite (proj2 (between_true (-129) 126 dpi)) by done. cbn [negb orb].
  fold (point_odd dpi). unfold wire_of. unfold point_ok in Hp.
  rewrite (bool_decide_eq_false_2 (digits = [])) by done.
  destruct (point_odd dpi) eqn:Hodd; cbn [andb negb]; unfold I32_MIN, I32_MAX.
  - arith_step. destruct digits as [|d rest]; [done|]. cbn [mantissa].
    destruct (padded_odd d rest) as (n & extra & Heq & Hn & Hpn & Hhalf & Hzl).
    fold (pad_even ((d :: rest) ++ [0])). rewrite Hhalf, Hzl.
    rewrite bool_decide_eq_false_2 by by rewrite Heq. rewrite Hdiv. arith_step.
    rewrite (proj2 (between_true 0 255 _)) by lia. cbn [negb].
    rewrite as_u_in by lia. rewrite Heq.
    assert (digits_ok (d :: pad_even rest)) as Hok'.
    { apply Forall_cons_iff in Hok as [? ?]. apply Forall_cons_iff. split; [done|].
      by apply pad_even_ok. }
    rewrite pack_pairs_odd by done. st_run.
    replace (Zlen (d :: pairs (pad_even rest))) with (Z.of_nat (S n))
      by (unfold Zlen; cbn [length]; by rewrite Hpn). done.
  - destruct (pad_even_length digits) as (n & Hn & Hpn).
    assert (pad_even digits ≠ []) by (unfold pad_even; destruct (_ =? 1), digits; done).
    st_run. fold (pad_even digits). rewrite bool_decide_eq_false_2 by done. rewrite Z.add_0_r in Hdiv. rewrite Hdiv.
    arith_step. rewrite (proj2 (between_true 0 255 _)) by lia. cbn [negb].
    rewrite as_u_in by lia. rewrite Hn.
    replace (2 * n / 2)%nat with n by (symmetry; rewrite Nat.mul_comm; by apply Nat.div_mul).
    pose proof (pack_pairs_run neg n (pad_even digits) []) as Hpk. rewrite app_nil_r in Hpk.
    rewrite Hpk by (done || by apply pad_even_ok). st_run. cbn [mantissa].
    replace (Zlen (pad_even digits)) with (2 * Zlen (pairs (pad_even digits)))
      by (unfold Zlen; lia). done.
Qed.

(** ** The digit walk on what the encoder wrote *)

Lemma enc_pair_value neg v :
  0 <= v <= 99 →
  (if negb neg then sat_sub (enc_pair neg v) 1 else sat_sub 101 (enc_pair neg v)) = v.
Proof. intros. unfold enc_pair, sat_sub. destruct neg; cbn [negb]; lia. Qed.

Lemma pair_digits a b : is_digit a → is_digit b → div_t (a * 10 + b) 10 = a ∧ rem_t (a * 10 + b) 10 = b.
Proof. unfold is_digit, div_t, rem_t. intros. Z.to_euclidean_division_equations. lia. Qed.

(** One round of the walk on a proper pair that is not a leading zero pair. *)
Lemma walk_pair neg index end_ a b rest digits dpi :
  is_digit a → is_digit b → (digits ≠ [] ∨ a ≠ 0) → 0 < index →
  walk_digits (negb neg) index end_ (enc_pair neg (a * 10 + b) :: rest) digits dpi =
  walk_digits (negb neg) (index + 1) end_ rest
    (digits ++ a :: (if negb (b =? 0) || (index <? end_ - 1) then [b] else [])) dpi.
Proof.
  intros Ha Hb Hd Hi. cbn [walk_digits]. destruct (pair_digits a b Ha Hb) as [Hq Hr].
  unfold is_digit in Ha, Hb. rewrite enc_pair_value by lia. rewrite Hq, Hr.
  assert ((a =? 0) && bool_decide (digits = []) = false) as ->.
  { apply andb_false_iff. destruct Hd; [right; by apply bool_decide_eq_false|left; lia]. }
  replace (a =? 10) with false by lia. rewrite (proj2 (Z.ltb_lt 0 index)), orb_true_r by done.
  st_run. destruct (negb (b =? 0) || (index <? end_ - 1)); [|done]. by rewrite <- app_assoc.
Qed.

Lemma walk_pairs neg l : ∀ index end_ digits dpi,
  digits_ok l → l ≠ [] → list.last l ≠ Some 0 → (digits ≠ [] ∨ head l ≠ Some 0) → 0 < index →
  index + Zlen (pairs (pad_even l)) = end_ →
  walk_digits (negb neg) index end_ (map (enc_pair neg) (pairs (pad_even l))) digits dpi =
    Ok (digits ++ l, dpi).
Proof.
  induction l as [|a|a b l IH] using list_pair_ind;
    intros index end_ digits dpi Hok Hne Hlast Hhead Hi Hend; [done| |].
  - rewrite Forall_singleton in Hok. cbn in Hlast, Hhead. change (pad_even [a]) with [a; 0] in *.
    cbn [pairs map] in *. assert (a ≠ 0) by congruence.
    rewrite walk_pair; [|done|unfold is_digit; lia|by right|done].
    autorewrite with thin in Hend. cbn [Z.eqb negb orb].
    by rewrite (proj2 (Z.ltb_ge _ _)) by lia.
  - apply Forall_cons_iff in Hok as [Ha [Hb Hl]%Forall_cons_iff].
    rewrite pad_even_cons2 in *. cbn [pairs map] in *. autorewrite with thin in Hend.
    rewrite walk_pair; [|done|done| |done].
    2:{ destruct Hhead as [|Hh]; [by left|right; cbn in Hh; congruence]. }
    destruct (decide (l = [])) as [->|Hl0].
    + cbn in Hlast. replace (b =? 0) with false by (symmetry; apply Z.eqb_neq; congruence). done.
    + assert (0 < Zlen (pairs (pad_even l))) as Hpos.
      { destruct l as [|x [|y l]]; [done|done|]. rewrite pad_even_cons2. cbn [pairs].
        autorewrite with thin. pose proof (Zlen_nonneg (pairs (pad_even l))). lia. }
      rewrite (proj2 (Z.ltb_lt _ _)), orb_true_r by lia.
      rewrite IH; [|done|done| |left; by destruct digits|lia|lia].
      * by rewrite <- app_assoc.
      * by destruct l.
Qed.

(** Digits in the form the encoder packs: no leading and no trailing zero. *)
Definition normal (digits : bytes) : Prop :=
  digits ≠ [] ∧ digits_ok digits ∧ head digits ≠ Some 0 ∧ list.last digits ≠ Some 0.

Lemma walk_mantissa neg digits odd dpi :
  normal digits → I16_MIN < dpi + (if odd : bool then 1 else 0) <= I16_MAX →
  walk_digits (negb neg) 1 (1 + Zlen (mantissa odd digits)) (map (enc_pair neg) (mantissa odd digits))
    [] (dpi + (if odd then 1 else 0)) = Ok (digits, dpi).
Proof.
  intros (Hne&Hok&Hh&Hl) Hp. destruct odd; cbn [mantissa].
  2:{ rewrite walk_pairs; [|done|done|done|by right|lia|lia]. by rewrite Z.add_0_r. }
  destruct digits as [|d rest]; [done|]. cbn in Hh. assert (d ≠ 0) by congruence.
  apply Forall_cons_iff in Hok as [Hd Hr]. unfold is_digit in Hd.
  cbn [map walk_digits]. rewrite enc_pair_value by lia.
  assert (div_t d 10 = 0 ∧ rem_t d 10 = d) as [-> ->]
    by (unfold div_t, rem_t; Z.to_euclidean_division_equations; lia).
  cbn [Z.eqb andb]. rewrite bool_decide_eq_true_2 by done. arith_step.
  rewrite (proj2 (Z.eqb_neq d 0)) by done. cbn [negb orb app].
  replace (dpi + 1 - 1) with dpi by lia. destruct (decide (rest = [])) as [->|Hne']; [done|].
  rewrite walk_pairs; [done|done|done| |by left|lia|autorewrite with thin; lia].
  by destruct rest.
Qed.

Lemma mantissa_ne odd digits : digits ≠ [] → mantissa odd digits ≠ [].
Proof.
  intros. destruct digits as [|a [|b l]]; [done|by destruct odd|].
  destruct odd; [done|]. unfold mantissa. by rewrite pad_even_cons2.
Qed.

Lemma enc_pair_not_102 v : 0 <= v <= 99 → enc_pair true v ≠ 102.
Proof. unfold enc_pair. lia. Qed.

Lemma wire_of_length neg digits dpi :
  Zlen (wire_of neg digits dpi) =
    1 + Zlen (mantissa (point_odd dpi) digits) +
    (if neg && (2 * Zlen (mantissa (point_odd dpi) digits) <? 40) then 1 else 0).
Proof.
  unfold wire_of, NUMBER_MAX_DIGITS. autorewrite with thin.
  replace (Zlen (map (enc_pair neg) (mantissa (point_odd dpi) digits)))
    with (Zlen (mantissa (point_odd dpi) digits)) by (unfold Zlen; by rewrite length_map).
  destruct (_ && _); autorewrite with thin; lia.
Qed.

Lemma wire_of_last neg digits dpi :
  digits ≠ [] → digits_ok digits →
  ∃ b, @index ProtocolError (wire_of neg digits dpi) (Zlen (wire_of neg digits dpi) - 1) = Ok b ∧
    (negb (negb neg) && (b =? 102)) =
      (neg && (2 * Zlen (mantissa (point_odd dpi) digits) <? 40)).
Proof.
  intros Hne Hok. pose proof (mantissa_ne (point_odd dpi) digits Hne) as Hm.
  pose proof (mantissa_range (point_odd dpi) digits Hok) as Hr.
  unfold wire_of. set (m := mantissa _ _) in *. fold NUMBER_MAX_DIGITS.
  set (e := if neg then _ else _). clearbody e.
  assert (∀ (pre : bytes) b, @index ProtocolError (pre ++ [b]) (Zlen (pre ++ [b]) - 1) = Ok b) as Hix.
  { intros pre b. autorewrite with thin. replace (_ - 1) with (Zlen pre) by lia.
    unfold index. by rewrite slice_nth_app. }
  change 40 with NUMBER_MAX_DIGITS.
  destruct (neg && (2 * Zlen m <? NUMBER_MAX_DIGITS)) eqn:Ht.
  - exists 102. rewrite app_comm_cons, Hix. split; [done|]. by destruct neg.
  - destruct m as [|v m _] using rev_ind; [done|]. apply Forall_app in Hr as [_ Hv].
    rewrite Forall_singleton in Hv. exists (enc_pair neg v).
    rewrite app_nil_r, map_app, app_comm_cons. cbn [map]. rewrite Hix. split; [done|].
    destruct neg; [|done]. cbn [negb andb]. apply Z.eqb_neq. by apply enc_pair_not_102.
Qed.

Lemma wire_of_mantissa neg digits dpi :
  mantissa_bytes (wire_of neg digits dpi) (1 + Zlen (mantissa (point_odd dpi) digits)) =
    map (enc_pair neg) (mantissa (point_odd dpi) digits).
Proof.
  unfold mantissa_bytes, wire_of. set (m := mantissa _ _).
  replace (Z.to_nat (1 + Zlen m)) with (S (length (map (enc_pair neg) m)))
    by (rewrite length_map; unfold Zlen; lia).
  cbn [take firstn drop skipn]. by rewrite take_app_length, drop_0.
Qed.

Lemma number_prefix_wire neg digits dpi :
  digits ≠ [] → digits_ok digits → point_ok dpi →
  ∃ first rest, wire_of neg digits dpi = first :: rest ∧
    number_prefix first (first :: rest) =
      Ok (negb neg, dpi + (if point_odd dpi then 1 else 0),
          1 + Zlen (mantissa (point_odd dpi) digits)).
Proof.
  intros Hne Hok Hp. eexists _, _. split; [reflexivity|].
  pose proof (exponent_byte_range dpi Hp) as (Hb&Hpt&_).
  destruct (wire_of_last neg digits dpi Hne Hok) as (b & Hlast & Htail).
  pose proof (wire_of_length neg digits dpi) as Hlen.
  unfold wire_of in Hlast, Hlen. cbn zeta in Hlast, Hlen.
  unfold number_prefix.
  assert ((Z.land (if neg then not_u8 (exponent_byte dpi) else exponent_byte dpi) 128 =? 0) = neg)
    as Hsign.
  { destruct (sign_bit (if neg then not_u8 (exponent_byte dpi) else exponent_byte dpi)) as (->&_);
      unfold is_u8, not_u8; destruct neg; lia. }
  rewrite Hsign. replace (if negb neg then _ else _) with (exponent_byte dpi)
    by (destruct neg; unfold not_u8; cbn [negb]; lia).
  unfold I16_MIN, I16_MAX. do 3 arith_step. rewrite Hlast. st_run.
  rewrite Htail, Hpt, Hlen. do 2 f_equal. destruct (_ && _); lia.
Qed.

Lemma len_i16_small digits : Zlen digits <= I16_MAX → len_i16 digits = Zlen digits.
Proof.
  intros. unfold len_i16. pose proof (Zlen_nonneg digits).
  by rewrite try_range_in by (unfold I16_MIN; lia).
Qed.

(** The walk gives back exactly what was packed, provided the mantissa has at
    most twenty bytes. *)
Lemma decode_wire_of neg digits dpi :
  normal digits → Zlen digits <= NUMBER_MAX_DIGITS → point_ok dpi →
  Zlen (mantissa (point_odd dpi) digits) <= 20 →
  decode_number_parts (wire_of neg digits dpi) =
    Ok (DecodedParts digits neg dpi ((0 <? dpi) && (Zlen digits <=? dpi))).
Proof.
  intros Hn Hmax Hp Hm. pose proof Hn as (Hne&Hok&_).
  pose proof (wire_of_length neg digits dpi) as Hlen.
  pose proof (wire_of_mantissa neg digits dpi) as Hmb.
  destruct (number_prefix_wire neg digits dpi Hne Hok Hp) as (first & rest & Hw & Hpre).
  rewrite Hw in Hlen, Hmb |- *. unfold decode_number_parts.
  assert (0 < Zlen (mantissa (point_odd dpi) digits)).
  { pose proof (mantissa_ne (point_odd dpi) digits Hne). unfold Zlen.
    destruct (mantissa _ _); [done|]. cbn [length]. lia. }
  rewrite (proj2 (Z.ltb_ge _ _)) by (rewrite Hlen; destruct (_ && _) eqn:?; lia).
  rewrite (proj2 (Z.eqb_neq _ 1)) by (rewrite Hlen; destruct (_ && _); lia).
  rewrite Hpre. st_run. rewrite Hmb, walk_mantissa
    by (done || unfold point_ok, I16_MIN, I16_MAX in *; destruct (point_odd dpi); lia).
  st_run. rewrite len_i16_small by (unfold NUMBER_MAX_DIGITS, I16_MAX in *; lia).
  by rewrite negb_involutive.
Qed.

(** ** Digit strings and their values *)

Lemma dval_snoc l d : dval (l ++ [d]) = dval l * 10 + d.
Proof. unfold dval. by rewrite foldl_app. Qed.

Lemma dval_app l k : dval (l ++ k) = dval l * 10 ^ Zlen k + dval k.
Proof.
  induction k as [|d k IH] using rev_ind.
  { rewrite app_nil_r, Zlen_nil, Z.pow_0_r. change (dval []) with 0. lia. }
  rewrite app_assoc, !dval_snoc, IH. autorewrite with thin. pose proof (Zlen_nonneg k).
  rewrite Z.pow_add_r by lia. lia.
Qed.

Lemma dval_range l : digits_ok l → 0 <= dval l < 10 ^ Zlen l.
Proof.
  induction l as [|d l IH] using rev_ind.
  { intros _. by split. }
  intros [Hl Hd]%Forall_app.
  rewrite Forall_singleton in Hd. unfold is_digit in Hd. rewrite dval_snoc.
  autorewrite with thin. pose proof (Zlen_nonneg l). rewrite Z.pow_add_r by lia.
  specialize (IH Hl). lia.
Qed.

Lemma dval_cons d l : dval (d :: l) = d * 10 ^ Zlen l + dval l.
Proof. change (d :: l) with ([d] ++ l). rewrite dval_app. change (dval [d]) with (0 * 10 + d). lia. Qed.

(** A digit string without leading zero has the length of its value. *)
Lemma dval_lower l : digits_ok l → l ≠ [] → head l ≠ Some 0 → 10 ^ (Zlen l - 1) <= dval l.
Proof.
  intros Hok Hne Hh. destruct l as [|d l]; [done|]. cbn in Hh. assert (d ≠ 0) by congruence.
  apply Forall_cons_iff in Hok as [Hd Hl]. unfold is_digit in Hd. rewrite dval_cons.
  pose proof (dval_range l Hl). autorewrite with thin. rewrite Z.add_simpl_r.
  pose proof (Z.pow_pos_nonneg 10 (Zlen l) ltac:(lia) (Zlen_nonneg l)). nia.
Qed.

Lemma dval_last l : digits_ok l → list.last l ≠ Some 0 → l ≠ [] → dval l mod 10 ≠ 0.
Proof.
  intros Hok Hl Hne. destruct l as [|d l _] using rev_ind; [done|].
  rewrite last_snoc in Hl. apply Forall_app in Hok as [_ Hd]. rewrite Forall_singleton in Hd.
  unfold is_digit in Hd. rewrite dval_snoc, Z.add_comm, Z.mod_add, Z.mod_small by lia. congruence.
Qed.

Lemma drop_zeros_spec l : ∃ k : nat, l = repeat 0 k ++ drop_zeros l ∧ head (drop_zeros l) ≠ Some 0.
Proof.
  induction l as [|d l (k & Hk & Hh)]; [by exists 0%nat|].
  destruct (decide (d = 0)) as [->|Hne].
  - exists (S k). cbn. split; [by rewrite <- Hk|done].
  - exists 0%nat. cbn. destruct d; [done|..]; by split.
Qed.

Lemma dval_zeros k l : dval (l ++ repeat 0 k) = dval l * 10 ^ Z.of_nat k.
Proof.
  rewrite dval_app. unfold Zlen. rewrite repeat_length.
  replace (dval (repeat 0 k)) with 0; [lia|].
  induction k as [|k IH]; [done|]. cbn [repeat]. rewrite dval_cons, <- IH. lia.
Qed.

(** Stripping trailing zeros divides the value by a power of ten. *)
Lemma strip_trailing_zeros_spec l : ∃ k : nat,
  l = strip_trailing_zeros l ++ repeat 0 k ∧ list.last (strip_trailing_zeros l) ≠ Some 0.
Proof.
  unfold strip_trailing_zeros. destruct (drop_zeros_spec (rev l)) as (k & Hk & Hh). exists k. split.
  - rewrite <- (rev_involutive l), Hk at 1. rewrite rev_app_distr.
    by rewrite rev_repeat.
  - destruct (drop_zeros (rev l)) as [|d m]; [done|]. cbn [rev]. rewrite last_snoc. by cbn in Hh.
Qed.

(** ** Scanning a decimal literal *)

Definition asc (d : Z) : Z := ch_zero + d.

Definition stops (marks : Z → bool) (rest : bytes) : Prop :=
  match rest with [] => True | b :: _ => marks b = true end.

Lemma asc_facts d : is_digit d →
  is_ascii_digit (asc d) = true ∧ is_exponent_mark (asc d) = false ∧ (asc d =? ch_dot) = false ∧
  asc d - ch_zero = d.
Proof.
  unfold is_digit, asc, is_ascii_digit, is_exponent_mark, ch_zero, ch_dot, ch_e, ch_E, between.
  intros. lia.
Qed.

Lemma push_leading acc d :
  is_digit d → digits_ok acc → (acc = [] ∨ head acc ≠ Some 0) →
  let acc' := if (d =? 0) && bool_decide (acc = []) then acc else acc ++ [d] in
  digits_ok acc' ∧ (acc' = [] ∨ head acc' ≠ Some 0) ∧ dval acc' = dval acc * 10 + d.
Proof.
  intros Hd Hok Hh. cbn zeta. destruct (Z.eqb_spec d 0) as [->|Hne]; cbn [andb].
  - destruct (bool_decide_reflect (acc = [])) as [->|Hacc]; [done|].
    split; [apply Forall_app; split; [done|by apply Forall_singleton]|].
    split; [|by rewrite dval_snoc]. right. destruct Hh; [done|]. by destruct acc.
  - split; [apply Forall_app; split; [done|by apply Forall_singleton]|].
    split; [|by rewrite dval_snoc]. right. destruct acc; cbn; [congruence|]. by destruct Hh.
Qed.

Lemma scan_integer_run l rest : ∀ acc,
  digits_ok l → stops (λ b, (b =? ch_dot) || is_exponent_mark b) rest →
  digits_ok acc → (acc = [] ∨ head acc ≠ Some 0) →
  ∃ D, scan_integer (map asc l ++ rest) acc = Ok (D, rest) ∧ digits_ok D ∧
    (D = [] ∨ head D ≠ Some 0) ∧ dval D = dval (acc ++ l) ∧ Zlen D <= Zlen acc + Zlen l.
Proof.
  induction l as [|d l IH]; intros acc Hl Hr Hacc Hh.
  { exists acc. rewrite app_nil_r. split; [|split_and!; try done; unfold Zlen; cbn; lia].
    cbn [map app]. destruct rest as [|b rest]; [done|]. cbn in Hr |- *. by rewrite Hr. }
  apply Forall_cons_iff in Hl as [Hd Hl]. destruct (asc_facts d Hd) as (H1&H2&H3&H4).
  cbn [map app scan_integer]. rewrite H1, H2, H3. cbn [orb negb]. rewrite H4.
  destruct (push_leading acc d Hd Hacc Hh) as (Ha&Hb&Hc).
  destruct ((d =? 0) && bool_decide (acc = [])) eqn:Hz.
  - destruct (IH acc Hl Hr Hacc Hh) as (D & HD & ? & ? & Hv & Hlen). exists D.
    split_and!; [done..| |autorewrite with thin; lia].
    rewrite Hv, !dval_app, dval_cons. autorewrite with thin. pose proof (Zlen_nonneg l).
    assert (d = 0) as -> by lia. assert (dval acc = 0) as -> by lia. lia.
  - destruct (IH (acc ++ [d]) Hl Hr Ha Hb) as (D & HD & ? & ? & Hv & Hlen). exists D.
    autorewrite with thin in Hlen |- *.
    split_and!; [done..| |lia]. rewrite Hv, <- app_assoc. done.
Qed.

Lemma scan_fraction_run l rest : ∀ acc dpi,
  digits_ok l → stops is_exponent_mark rest → digits_ok acc → (acc = [] ∨ head acc ≠ Some 0) →
  I32_MIN + Zlen l <= dpi <= I32_MAX →
  ∃ D dpi', scan_fraction (map asc l ++ rest) acc dpi = Ok (D, dpi', rest) ∧ digits_ok D ∧
    (D = [] ∨ head D ≠ Some 0) ∧ dval D = dval (acc ++ l) ∧ Zlen D <= Zlen acc + Zlen l ∧
    dpi' - Zlen D = dpi - Zlen acc - Zlen l.
Proof.
  induction l as [|d l IH]; intros acc dpi Hl Hr Hacc Hh Hp.
  { exists acc, dpi. rewrite app_nil_r. split; [|split_and!; try done; unfold Zlen; cbn; lia].
    cbn [map app]. destruct rest as [|b rest]; [done|]. cbn in Hr |- *. by rewrite Hr. }
  apply Forall_cons_iff in Hl as [Hd Hl]. destruct (asc_facts d Hd) as (H1&H2&H3&H4).
  cbn [map app scan_fraction]. rewrite H1, H2. cbn [negb]. rewrite H4.
  autorewrite with thin in Hp. pose proof (Zlen_nonneg l).
  destruct (push_leading acc d Hd Hacc Hh) as (Ha&Hb&Hc).
  destruct ((d =? 0) && bool_decide (acc = [])) eqn:Hz.
  - arith_step. destruct (IH acc (dpi - 1) Hl Hr Hacc Hh) as (D&dpi'&HD&?&?&Hv&Hlen&Hdp); [lia|].
    exists D, dpi'. autorewrite with thin.
    split_and!; [done..| |lia|lia].
    rewrite Hv, !dval_app, dval_cons. autorewrite with thin.
    assert (d = 0) as -> by lia. assert (dval acc = 0) as -> by lia. lia.
  - destruct (IH (acc ++ [d]) dpi Hl Hr Ha Hb) as (D&dpi'&HD&?&?&Hv&Hlen&Hdp); [lia|].
    exists D, dpi'. autorewrite with thin in Hlen, Hdp |- *.
    split_and!; [done..| |lia|lia]. rewrite Hv, <- app_assoc. done.
Qed.

(** A decimal literal: sign, integer digits, an optional point with fraction
    digits, an optional exponent (upper-case mark, sign, digits). *)
Record Literal := mkLiteral {
  lit_neg : bool;
  lit_int : bytes;
  lit_dot : bool;
  lit_frac : bytes;
  lit_exp : option (bool * option bool * bytes)
}.

Definition exp_text (e : option (bool * option bool * bytes)) : bytes :=
  match e with
  | None => []
  | Some (upper, sign, ds) =>
      (if upper : bool then ch_E else ch_e) ::
      (match sign with Some true => [ch_minus] | Some false => [ch_plus] | None => [] end) ++
      map asc ds
  end.

Definition exp_value (e : option (bool * option bool * bytes)) : Z :=
  match e with
  | None => 0
  | Some (_, Some true, ds) => - dval ds
  | Some (_, _, ds) => dval ds
  end.

Definition lit_text (l : Literal) : bytes :=
  (if lit_neg l then [ch_minus] else []) ++ map asc (lit_int l) ++
  (if lit_dot l then ch_dot :: map asc (lit_frac l) else []) ++ exp_text (lit_exp l).

Definition lit_ok (l : Literal) : Prop :=
  digits_ok (lit_int l) ∧ digits_ok (lit_frac l) ∧ (lit_dot l = false → lit_frac l = []) ∧
  match lit_exp l with Some (_, _, ds) => ds ≠ [] ∧ digits_ok ds | None => True end ∧
  0 < Zlen (lit_text l) <= NUMBER_AS_TEXT_CHARS.

(** The literal denotes [± lit_digits * 10 ^ (exponent - length of fraction)]. *)
Definition lit_digits (l : Literal) : Z := dval (lit_int l ++ lit_frac l).
Definition lit_power (l : Literal) : Z := exp_value (lit_exp l) - Zlen (lit_frac l).

Definition signed (neg : bool) (z : Z) : Z := if neg then - z else z.

Lemma parse_digits_run max ds : ∀ acc,
  digits_ok ds → 0 <= acc → acc * 10 ^ Zlen ds + dval ds <= max →
  parse_digits max acc (map asc ds) = Some (acc * 10 ^ Zlen ds + dval ds).
Proof.
  induction ds as [|d ds IH]; intros acc Hok Ha Hmax.
  { cbn. f_equal. change (dval []) with 0. change (10 ^ Zlen []) with 1. lia. }
  apply Forall_cons_iff in Hok as [Hd Hds]. destruct (asc_facts d Hd) as (_&_&_&H4).
  unfold is_digit in Hd. rewrite dval_cons in Hmax |- *. autorewrite with thin in Hmax |- *.
  pose proof (Zlen_nonneg ds). rewrite Z.pow_add_r in * by lia. change (10 ^ 1) with 10 in *.
  pose proof (dval_range ds Hds). pose proof (Z.pow_pos_nonneg 10 (Zlen ds)).
  cbn [map parse_digits]. rewrite H4, try_range_in by nia. cbn [mbind option_bind].
  rewrite try_range_in by nia. cbn [mbind option_bind].
  rewrite IH; [f_equal; lia|done|lia|nia].
Qed.

Lemma forallb_asc ds : digits_ok ds → forallb is_ascii_digit (map asc ds) = true.
Proof.
  induction 1 as [|d ds Hd _ IH]; [done|]. cbn [map forallb].
  destruct (asc_facts d Hd) as (->&_). done.
Qed.

Lemma scan_exponent_run upper sign ds :
  ds ≠ [] → digits_ok ds → dval ds <= I32_MAX →
  scan_exponent (drop 1 (exp_text (Some (upper, sign, ds)))) = Ok (exp_value (Some (upper, sign, ds))).
Proof.
  intros Hne Hok Hmax. cbn [exp_text drop skipn]. rewrite drop_0.
  pose proof (parse_digits_run I32_MAX ds 0 Hok) as Hparse. rewrite Z.mul_0_l, Z.add_0_l in Hparse.
  pose proof (dval_range ds Hok). unfold scan_exponent.
  destruct sign as [[]|]; cbn [app].
  - cbn -[I32_MAX parse_digits]. rewrite forallb_asc by done. cbn [negb].
    rewrite bool_decide_eq_false_2 by by destruct ds.
    rewrite Hparse by (done || lia). st_run. unfold I32_MIN, I32_MAX in *. by arith_step.
  - cbn -[I32_MAX parse_digits]. rewrite forallb_asc by done. cbn [negb].
    rewrite bool_decide_eq_false_2 by by destruct ds. by rewrite Hparse by (done || lia).
  - destruct ds as [|d ds]; [done|]. pose proof Hok as [Hd _]%Forall_cons_iff.
    cbn [map]. assert ((asc d =? ch_minus) = false ∧ (asc d =? ch_plus) = false) as [-> ->]
      by (unfold is_digit, asc, ch_minus, ch_plus, ch_zero in *; lia).
    change (asc d :: map asc ds) with (map asc (d :: ds)). rewrite forallb_asc by done.
    cbn [negb]. rewrite bool_decide_eq_false_2 by done. by rewrite Hparse by (done || lia).
Qed.

Lemma exp_text_stops e : stops is_exponent_mark (exp_text e).
Proof. destruct e as [[[[] sign] ds]|]; done. Qed.

Lemma head_asc l rest : digits_ok l → stops (λ b, negb (b =? ch_minus)) rest →
  head (map asc l ++ rest) ≠ Some ch_minus.
Proof.
  intros Hl Hr. destruct l as [|d l]; cbn.
  - destruct rest as [|b rest]; [done|]. cbn in Hr |- *. intros [= ->]. done.
  - apply Forall_cons_iff in Hl as [Hd _]. unfold is_digit in Hd. intros [= H].
    unfold asc, ch_zero, ch_minus in H. lia.
Qed.

Lemma lit_lengths l : lit_ok l → Zlen (lit_int l) <= 172 ∧ Zlen (lit_frac l) <= 172.
Proof.
  intros (_&_&Hdot&_&_&Hlen). pose proof (Zlen_nonneg (lit_int l)).
  pose proof (Zlen_nonneg (lit_frac l)). unfold lit_text, NUMBER_AS_TEXT_CHARS in Hlen.
  rewrite !Zlen_app in Hlen. pose proof (Zlen_nonneg (if lit_neg l then [ch_minus] else [])).
  pose proof (Zlen_nonneg (exp_text (lit_exp l))).
  assert (Zlen (map asc (lit_int l)) = Zlen (lit_int l)) by (unfold Zlen; by rewrite length_map).
  assert (Zlen (lit_frac l) <= Zlen (if lit_dot l then ch_dot :: map asc (lit_frac l) else [])).
  { destruct (lit_dot l); [autorewrite with thin; unfold Zlen; rewrite length_map; lia|].
    rewrite Hdot by done. done. }
  lia.
Qed.

(** The encoder on a literal: the digits it packs are those of the literal up
    to zeros at either end, and the point is where the literal has it. *)
Lemma encode_literal l :
  lit_ok l → - 1000 <= exp_value (lit_exp l) <= 1000 →
  ∃ D dpi, encode_number_text (lit_text l) = pack_number (lit_neg l) (strip_trailing_zeros D) dpi ∧
    digits_ok D ∧ (D = [] ∨ head D ≠ Some 0) ∧ dval D = lit_digits l ∧
    dpi - Zlen D = lit_power l.
Proof.
  intros Hlit Hexp. pose proof Hlit as (Hi&Hf&Hdot&He&Hlen). unfold lit_digits, lit_power.
  destruct l as [neg I dot F e]. cbn [lit_neg lit_int lit_dot lit_frac lit_exp] in *.
  unfold encode_number_text. rewrite bool_decide_eq_false_2
    by (intros Hnil; rewrite Hnil, (@Zlen_nil Z) in Hlen; lia).
  rewrite (proj2 (Z.ltb_ge _ _)) by lia.
  set (tail := (if dot then ch_dot :: map asc F else []) ++ exp_text e).
  assert (stops (λ b, (b =? ch_dot) || is_exponent_mark b) tail ∧
          stops (λ b, negb (b =? ch_minus)) tail) as [Hs1 Hs2].
  { unfold tail. destruct dot; [done|]. cbn [app].
    destruct e as [[[[] sign] ds]|]; done. }
  assert (bool_decide (head (lit_text (mkLiteral neg I dot F e)) = Some ch_minus) = neg ∧
    (if neg then drop 1 (lit_text (mkLiteral neg I dot F e)) else lit_text (mkLiteral neg I dot F e))
      = map asc I ++ tail) as [-> ->].
  { unfold lit_text. cbn [lit_neg lit_int lit_dot lit_frac lit_exp]. destruct neg; [done|].
    split; [|done]. apply bool_decide_eq_false. by apply head_asc. }
  destruct (scan_integer_run I tail [] Hi Hs1 (Forall_nil_2 _) (or_introl eq_refl))
    as (D1 & -> & Hd1 & Hh1 & Hv1 & Hl1). st_run.
  destruct (lit_lengths (mkLiteral neg I dot F e)) as [HI HF]; [done|].
  cbn [lit_int lit_frac] in HI, HF.
  pose proof (Zlen_nonneg D1). rewrite (@Zlen_nil Z) in Hl1.
  rewrite (try_range_in I32_MIN I32_MAX (Zlen D1)) by (unfold I32_MIN, I32_MAX; lia).
  change (default I32_MAX (Some (Zlen D1))) with (Zlen D1).
  assert (∃ D dpi, (if bool_decide (head tail = Some ch_dot)
      then scan_fraction (drop 1 tail) D1 (Zlen D1) else Ok (D1, Zlen D1, tail)) =
        Ok (D, dpi, exp_text e) ∧ digits_ok D ∧ (D = [] ∨ head D ≠ Some 0) ∧
      dval D = dval (I ++ F) ∧ Zlen D <= 400 ∧ dpi - Zlen D = - Zlen F) as (D&dpi&->&HD&HhD&HvD&HlD&Hdpi).
  { unfold tail. destruct dot; cbn [app head].
    - rewrite bool_decide_eq_true_2 by done. cbn [drop skipn]. rewrite drop_0.
      destruct (scan_fraction_run F (exp_text e) D1 (Zlen D1) Hf (exp_text_stops e) Hd1 Hh1)
        as (D&dpi&HD&?&?&Hv&Hl2&Hp); [unfold I32_MIN, I32_MAX; lia|].
      exists D, dpi. split_and!; try done; [|lia|lia].
      rewrite Hv, !dval_app, Hv1. done.
    - rewrite Hdot by done. rewrite bool_decide_eq_false_2 by (by destruct e as [[[[] sign] ds]|]).
      exists D1, (Zlen D1). rewrite app_nil_r. split_and!; try done; [lia|unfold Zlen; cbn; lia]. }
  st_run. exists D, (dpi + exp_value e). split; [|split_and!; try done; lia].
  pose proof (Zlen_nonneg D). pose proof (Zlen_nonneg F).
  destruct e as [[[upper sign] ds]|]; cbn [exp_text]; [|cbn [exp_value]; st_run; by rewrite Z.add_0_r].
  destruct He as [Hne Hds].
  assert (dval ds <= I32_MAX) as Hmax
    by (unfold I32_MAX; destruct sign as [[]|]; cbn [exp_value] in Hexp; lia).
  pose proof (scan_exponent_run upper sign ds Hne Hds Hmax) as Hscan.
  cbn [exp_text drop skipn] in Hscan. rewrite drop_0 in Hscan.
  assert (is_exponent_mark (if upper then ch_E else ch_e) = true) as -> by by destruct upper.
  rewrite Hscan. st_run. rewrite try_range_in by (unfold I32_MIN, I32_MAX; lia). by st_run.
Qed.

(** ** The stack walk is the heap walk *)

(** What the stack walk holds when the heap walk holds [ds]. *)
Definition stack_of (capacity : Z) (ds : bytes) : StackDigits :=
  {| digit_buf := take (Z.to_nat capacity) ds; coeff := foldl fold_digit (Some 0) ds |}.

Lemma push_stack_of capacity d ds :
  0 < capacity → push capacity d (stack_of capacity ds) = stack_of capacity (ds ++ [d]).
Proof.
  intros Hc. unfold push, stack_of. cbn [digit_buf coeff]. f_equal; [|by rewrite foldl_app].
  unfold Zlen. rewrite length_take. destruct (Z.ltb_spec (Z.of_nat (Z.to_nat capacity `min` length ds)) capacity).
  - rewrite !take_ge; [done|rewrite length_app; cbn; lia|lia].
  - rewrite take_app_le by lia. done.
Qed.

Lemma stack_of_empty capacity ds :
  0 < capacity → (Zlen (digit_buf (stack_of capacity ds)) =? 0) = bool_decide (ds = []).
Proof.
  intros Hc. unfold stack_of, Zlen. cbn [digit_buf]. rewrite length_take.
  destruct ds as [|d ds]; [rewrite bool_decide_eq_true_2 by done; by rewrite Nat.min_0_r|].
  rewrite bool_decide_eq_false_2 by done. cbn [length]. apply Z.eqb_neq. lia.
Qed.

Lemma walk_stack_of capacity pos m : 0 < capacity → ∀ index end_ ds dpi,
  walk_digits_stack capacity pos index end_ m (stack_of capacity ds) dpi =
    ((λ r, (stack_of capacity r.1, r.2)) <$> walk_digits pos index end_ m ds dpi).
Proof.
  intros Hc. induction m as [|encoded m IH]; intros index end_ ds dpi; [done|].
  cbn [walk_digits_stack walk_digits]. rewrite stack_of_empty by done.
  set (v := if pos then _ else _). set (f := div_t v 10). set (s := rem_t v 10).
  assert (∀ ds' dpi',
    walk_digits_stack capacity pos (index + 1) end_ m
      (if negb (s =? 0) || (index <? end_ - 1) then push capacity s (stack_of capacity ds')
       else stack_of capacity ds') dpi' =
    ((λ r, (stack_of capacity r.1, r.2)) <$> walk_digits pos (index + 1) end_ m
      (if negb (s =? 0) || (index <? end_ - 1) then ds' ++ [s] else ds') dpi')) as Hnext.
  { intros ds' dpi'. destruct (negb (s =? 0) || (index <? end_ - 1)); [|apply IH].
    rewrite push_stack_of by done. apply IH. }
  destruct ((f =? 0) && bool_decide (ds = [])).
  - unfold arith. destruct (between _ _ _); [|done]. st_run. apply Hnext.
  - destruct (f =? 10).
    + unfold arith. destruct (between _ _ _); [|done]. st_run.
      rewrite (push_stack_of _ 1), (push_stack_of _ 0) by done.
      rewrite <- (app_assoc ds [1] [0]). apply Hnext.
    + destruct (negb (f =? 0) || (0 <? index)); st_run; [|apply Hnext].
      rewrite (push_stack_of _ f) by done. apply Hnext.
Qed.

(** Digits the walk can produce are not negative, so the fold stays at or above
    zero. *)
Lemma fold_nonneg ds : Forall (λ d, 0 <= d) ds → ∀ acc, 0 <= acc →
  match foldl fold_digit (Some acc) ds with
  | Some c => c = foldl (λ acc d, acc * 10 + d) acc ds ∧ acc <= c <= I128_MAX ∨ ds = [] ∧ c = acc
  | None => I128_MAX < foldl (λ acc d, acc * 10 + d) acc ds
  end.
Proof.
  assert (∀ ds acc, Forall (λ d, 0 <= d) ds → 0 <= acc →
    acc <= foldl (λ acc d, acc * 10 + d) acc ds) as Hmono.
  { clear. induction ds as [|d ds IH]; intros acc Hds Ha; [done|]. cbn [foldl].
    apply Forall_cons_iff in Hds as [Hd Hds]. specialize (IH (acc * 10 + d) Hds). lia. }
  induction 1 as [|d ds Hd Hds IH]; intros acc Ha; cbn [foldl]; [by right|].
  assert (∀ c, I128_MAX < c → 0 <= c → checked_i128 c = None) as Hover.
  { intros c Hover Hpos. unfold checked_i128, try_range.
    by rewrite (proj2 (between_false _ _ _)) by lia. }
  assert (foldl fold_digit None ds = None) as Hnone by (clear; by induction ds).
  pose proof (Hmono ds (acc * 10 + d) Hds ltac:(lia)) as Hm.
  assert (fold_digit (Some acc) d = checked_i128 (acc * 10 + d)) as ->.
  { unfold fold_digit. cbn [mbind option_bind]. destruct (Z.le_gt_cases (acc * 10) I128_MAX).
    - unfold checked_i128 at 2. rewrite try_range_in by (unfold I128_MIN; lia). done.
    - rewrite !Hover by lia. done. }
  destruct (Z.le_gt_cases (acc * 10 + d) I128_MAX) as [Hle|Hgt].
  - unfold checked_i128 at 1. rewrite try_range_in by (unfold I128_MIN; lia).
    specialize (IH (acc * 10 + d) ltac:(lia)).
    destruct (foldl fold_digit (Some (acc * 10 + d)) ds) as [c|]; [|done].
    left. destruct IH as [[-> ?]|[-> ->]]; cbn; lia.
  - rewrite Hover, Hnone by lia. lia.
Qed.

(** ** The walk on any bytes *)

Abbreviation nonneg := (Forall (λ d, 0 <= d)).

Lemma walk_value_range (pos : bool) b :
  is_u8 b → 0 <= (if pos then sat_sub b 1 else sat_sub 101 b) <= 254.
Proof. unfold is_u8, sat_sub. destruct pos; lia. Qed.

Lemma nonneg_snoc ds d : nonneg ds → 0 <= d → nonneg (ds ++ [d]).
Proof. intros. apply Forall_app. split; [done|]. by apply Forall_singleton. Qed.

Lemma walk_post pos m : ∀ index end_ ds dpi,
  bytes_ok m → nonneg ds → -1000 + Zlen m <= dpi <= 1000 - Zlen m →
  post (λ r, nonneg r.1 ∧ -1000 <= r.2 <= 1000 ∧ Zlen r.1 <= Zlen ds + 3 * Zlen m)
    (walk_digits pos index end_ m ds dpi).
Proof.
  induction m as [|b m IH]; intros index end_ ds dpi Hm Hds Hp.
  { cbn. split; [done|]. rewrite (@Zlen_nil Z) in *. lia. }
  apply Forall_cons_iff in Hm as [Hb Hm]. autorewrite with thin in *. pose proof (Zlen_nonneg m).
  cbn [walk_digits]. pose proof (walk_value_range pos b Hb) as Hv. set (v := if pos then _ else _) in *.
  assert (0 <= div_t v 10 ∧ 0 <= rem_t v 10) as [Hq Hr]
    by (unfold div_t, rem_t; Z.to_euclidean_division_equations; lia).
  apply (post_bind (λ r, nonneg r.1 ∧ -1000 + Zlen m <= r.2 <= 1000 - Zlen m ∧
    Zlen r.1 <= Zlen ds + 2)).
  - apply post_if; intros _; [rewrite arith_in by (unfold I16_MIN, I16_MAX; lia); cbn; split; [done|lia]|].
    apply post_if; intros _.
    { rewrite arith_in by (unfold I16_MIN, I16_MAX; lia). cbn. split; [|autorewrite with thin; lia].
      change (ds ++ [1; 0]) with (ds ++ [1] ++ [0]). rewrite app_assoc. by repeat apply nonneg_snoc. }
    apply post_if; intros _; cbn; (split; [by try apply nonneg_snoc|]); autorewrite with thin; lia.
  - intros [ds' dpi'] (Hds' & Hp' & Hl'). cbn [fst snd] in *.
    assert (nonneg (if negb (rem_t v 10 =? 0) || (index <? end_ - 1) then ds' ++ [rem_t v 10] else ds')
      ∧ Zlen (if negb (rem_t v 10 =? 0) || (index <? end_ - 1) then ds' ++ [rem_t v 10] else ds')
        <= Zlen ds' + 1) as [Hn Hl].
    { destruct (_ || _); [split; [by apply nonneg_snoc|]|split; [done|]]; autorewrite with thin; lia. }
    specialize (IH (index + 1) end_ _ dpi' Hm Hn Hp').
    destruct (walk_digits _ _ _ _ _ _) as [[D p]| | |]; cbn in *; try done.
    destruct IH as (?&?&?). split; [done|]. lia.
Qed.

Lemma number_prefix_post first rest :
  bytes_ok (first :: rest) → rest ≠ [] →
  post (λ r, -128 <= r.1.2 <= 126 ∧ r.2 <= Zlen (first :: rest) ∧ 1 <= r.2)
    (number_prefix first (first :: rest)).
Proof.
  intros Hok Hne. pose proof Hok as [Hf _]%Forall_cons_iff.
  destruct (sign_bit first Hf) as (Hs&_). unfold is_u8 in Hf. unfold number_prefix. rewrite Hs.
  assert (128 <= (if negb (first <? 128) then first else not_u8 first) <= 255) as He
    by (unfold not_u8; destruct (Z.ltb_spec first 128); cbn [negb]; lia).
  set (e := if negb (first <? 128) then first else not_u8 first) in *.
  unfold I16_MIN, I16_MAX. do 3 arith_step.
  assert (2 <= Zlen (first :: rest)) as Hl.
  { destruct rest; [done|]. autorewrite with thin. pose proof (Zlen_nonneg rest). lia. }
  unfold index. destruct (slice_nth _ _) as [b|] eqn:Hb.
  2:{ apply slice_nth_none in Hb; lia. }
  cbn [or_panic]. st_run. cbn [post fst snd]. destruct (_ && _); lia.
Qed.

Lemma mantissa_bytes_ok bs end_ : bytes_ok bs → bytes_ok (mantissa_bytes bs end_).
Proof. intros. by apply Forall_drop, Forall_take. Qed.

Lemma mantissa_bytes_length bs end_ : Zlen (mantissa_bytes bs end_) <= Zlen bs.
Proof. unfold mantissa_bytes, Zlen. rewrite length_drop, length_take. lia. Qed.

(** What the heap walk returns on any bytes. *)
Lemma decode_number_parts_post bs :
  bytes_ok bs →
  post (λ r, match r with
             | DecodedText _ _ => True
             | DecodedParts D _ dpi _ => nonneg D ∧ -1000 <= dpi <= 1000 ∧ Zlen D <= 63
             end) (decode_number_parts bs).
Proof.
  intros Hok. unfold decode_number_parts. apply post_if; intros H21; [done|].
  destruct bs as [|first rest]; [done|]. apply post_if; intros H1; [done|].
  eapply post_bind; [apply number_prefix_post; [done|]|].
  { intros ->. cbn in H1. done. }
  intros [[pos dpi] end_] (Hd & He & _). cbn [fst snd] in *.
  pose proof (mantissa_bytes_length (first :: rest) end_) as Hml.
  eapply post_bind.
  { apply (walk_post pos (mantissa_bytes (first :: rest) end_) 1 end_ [] dpi);
      [by apply mantissa_bytes_ok|constructor|lia]. }
  intros [D p] (HD & Hp & Hl). cbn [fst snd post] in *. rewrite (@Zlen_nil Z) in Hl. split; [done|]. lia.
Qed.

Lemma stack_walk_spec bs :
  bytes_ok bs →
  match decode_number_parts bs with
  | Ok (DecodedText t b) => decode_number_parts_stack MAX_DIGITS bs = Ok (Sentinel t b, [])
  | Ok (DecodedParts D neg dpi b) => ∃ b',
      decode_number_parts_stack MAX_DIGITS bs =
        Ok (StackParts (Z.min (Zlen D) MAX_DIGITS) neg dpi b' (digits_to_i128 D neg),
            take (Z.to_nat MAX_DIGITS) D) ∧
      (Zlen D <= MAX_DIGITS → b' = b ∧ take (Z.to_nat MAX_DIGITS) D = D)
  | Err e => decode_number_parts_stack MAX_DIGITS bs = Err e
  | Panic | Diverge => False
  end.
Proof.
  intros Hok. pose proof (decode_number_parts_post bs Hok) as Hpost.
  unfold decode_number_parts, decode_number_parts_stack in *.
  destruct (21 <? Zlen bs); [done|]. destruct bs as [|first rest]; [done|].
  destruct (Zlen (first :: rest) =? 1); [done|].
  destruct (number_prefix first (first :: rest)) as [[[pos dpi] end_]| | |]; [|done..].
  st_run_in Hpost. st_run.
  change {| digit_buf := []; coeff := Some 0 |} with (stack_of MAX_DIGITS []).
  rewrite walk_stack_of by done.
  destruct (walk_digits pos 1 end_ _ [] dpi) as [[D p]| | |]; [|done..].
  cbn [fmap result_fmap fst snd] in Hpost |- *. st_run.
  destruct Hpost as (HD & Hp & Hl). cbn [stack_of digit_buf coeff].
  assert (Zlen (take (Z.to_nat MAX_DIGITS) D) = Z.min (Zlen D) MAX_DIGITS) as Hbl.
  { unfold Zlen, MAX_DIGITS. rewrite length_take. lia. }
  assert (Zlen D <= MAX_DIGITS → take (Z.to_nat MAX_DIGITS) D = D) as Htake.
  { intros. apply take_ge. unfold Zlen, MAX_DIGITS in *. lia. }
  rewrite Hbl. unfold digits_to_i128.
  pose proof (fold_nonneg D HD 0 ltac:(lia)) as Hfold.
  destruct (foldl fold_digit (Some 0) D) as [c|].
  - assert (0 <= c <= I128_MAX) by (destruct Hfold as [[_ ?]|[_ ->]]; [done|done]).
    destruct pos; cbn [negb mbind option_bind].
    + eexists. split; [st_run; reflexivity|]. intros Hle. by rewrite Htake by done.
    + rewrite arith_in by (unfold I128_MIN, I128_MAX in *; lia). st_run.
      eexists. split; [reflexivity|]. intros Hle. by rewrite Htake by done.
  - eexists. st_run. split; [reflexivity|]. intros Hle. by rewrite Htake by done.
Qed.

(** The allocation-free stack walk is the heap walk: on every byte string the
    two return the same error, the same sentinel, or the same sign and point;
    the fused coefficient is the reference fold over the heap walk's digits
    (overflow included), and the stack buffer holds those digits as far as its
    42 places reach. *)
Theorem stack_walk_agrees bs :
  bytes_ok bs →
  match decode_number_parts bs with
  | Ok (DecodedText t b) => decode_number_parts_stack MAX_DIGITS bs = Ok (Sentinel t b, [])
  | Ok (DecodedParts D neg dpi b) => ∃ b',
      decode_number_parts_stack MAX_DIGITS bs =
        Ok (StackParts (Z.min (Zlen D) MAX_DIGITS) neg dpi b' (digits_to_i128 D neg),
            take (Z.to_nat MAX_DIGITS) D) ∧
      (Zlen D <= MAX_DIGITS → b' = b ∧ take (Z.to_nat MAX_DIGITS) D = D)
  | Err e => decode_number_parts_stack MAX_DIGITS bs = Err e
  | Panic | Diverge => False
  end.
Proof. apply stack_walk_spec. Qed.

Lemma stack_walk_agrees_witness :
  decode_number_parts_stack MAX_DIGITS [61; 100; 78; 56; 102] =
    Ok (StackParts 5 true 3 false (Some (-12345)), [1; 2; 3; 4; 5]).
Proof.
  destruct (stack_walk_agrees [61; 100; 78; 56; 102]) as (b' & H & Hb).
  - apply (bool_decide_unpack _). by vm_compute.
  - change (decode_number_parts_stack MAX_DIGITS [61; 100; 78; 56; 102] =
      Ok (StackParts 5 true 3 b' (Some (-12345)), [1; 2; 3; 4; 5])) in H.
    rewrite H. destruct Hb as [-> _]; done.
Defined.

(** ** Encoder and decoder together *)

Lemma pad_even_bound l : Zlen l <= Zlen (pad_even l) <= Zlen l + 1 ∧ Zlen (pad_even l) = 2 * Zlen (pairs (pad_even l)).
Proof.
  destruct (pad_even_length l) as (n & Hn & Hp). split; [|unfold Zlen; lia].
  unfold pad_even. destruct (_ =? 1); autorewrite with thin; lia.
Qed.

Lemma mantissa_length odd digits :
  digits ≠ [] → Zlen digits <= 40 →
  (Zlen (mantissa odd digits) <= 20 ↔ ¬ (Zlen digits = 40 ∧ odd = true)).
Proof.
  intros Hne Hlen. unfold mantissa. destruct odd.
  - destruct digits as [|d rest]; [done|]. autorewrite with thin in *.
    pose proof (pad_even_bound rest). lia.
  - pose proof (pad_even_bound digits). split; [by intros _ [_ ?]|intros _; lia].
Qed.

Lemma wire_of_ok neg digits dpi : digits_ok digits → point_ok dpi → bytes_ok (wire_of neg digits dpi).
Proof.
  intros Hok Hp. pose proof (exponent_byte_range dpi Hp) as (He&_).
  pose proof (mantissa_range (point_odd dpi) digits Hok) as Hm. unfold wire_of.
  apply Forall_cons_iff. split; [unfold is_u8, not_u8; destruct neg; lia|].
  apply Forall_app. split; [|destruct (_ && _); constructor; [unfold is_u8; lia|constructor]].
  apply Forall_map. eapply Forall_impl; [|exact Hm]. intros v Hv. cbn beta in Hv. unfold is_u8, enc_pair.
  destruct neg; lia.
Qed.

Lemma digits_to_i128_run D neg :
  digits_ok D → dval D <= I128_MAX → digits_to_i128 D neg = Some (signed neg (dval D)).
Proof.
  intros Hok Hmax. unfold digits_to_i128, signed.
  assert (nonneg D) as Hnn by (eapply Forall_impl; [|exact Hok]; unfold is_digit; lia).
  pose proof (fold_nonneg D Hnn 0 ltac:(lia)) as Hf. fold (dval D) in Hf.
  destruct (foldl fold_digit (Some 0) D) as [c|]; [|lia].
  destruct Hf as [[-> _]|[-> ->]]; by destruct neg.
Qed.

Lemma digits_to_i128_overflow D neg :
  digits_ok D → I128_MAX < dval D → digits_to_i128 D neg = None.
Proof.
  intros Hok Hmax. unfold digits_to_i128.
  assert (nonneg D) as Hnn by (eapply Forall_impl; [|exact Hok]; unfold is_digit; lia).
  pose proof (fold_nonneg D Hnn 0 ltac:(lia)) as Hf. fold (dval D) in Hf.
  destruct (foldl fold_digit (Some 0) D) as [c|]; [|done].
  destruct Hf as [[-> ?]|[-> ->]]; [lia|]. unfold I128_MAX, dval in Hmax. cbn in Hmax. lia.
Qed.

(** The decoded number of packed digits: inline when the coefficient fits. *)
Lemma from_wire_of neg digits dpi :
  normal digits → Zlen digits <= NUMBER_MAX_DIGITS → point_ok dpi →
  Zlen (mantissa (point_odd dpi) digits) <= 20 →
  from_wire (wire_of neg digits dpi) =
    Ok (if dval digits <=? I128_MAX
        then inline (signed neg (dval digits)) (Zlen digits - dpi) ((0 <? dpi) && (Zlen digits <=? dpi))
        else spill_text digits neg dpi ((0 <? dpi) && (Zlen digits <=? dpi))).
Proof.
  intros Hn Hmax Hp Hm. pose proof Hn as (Hne&Hok&_). unfold NUMBER_MAX_DIGITS, point_ok in *.
  pose proof (stack_walk_spec _ (wire_of_ok neg digits dpi Hok Hp)) as Hs.
  rewrite decode_wire_of in Hs by done. destruct Hs as (b' & Hstack & Hb).
  destruct Hb as [-> Htake]; [unfold MAX_DIGITS; lia|].
  unfold from_wire. rewrite Hstack, Htake. st_run. pose proof (Zlen_nonneg digits).
  destruct (Z.leb_spec (dval digits) I128_MAX).
  - rewrite digits_to_i128_run by done.
    rewrite (try_range_in I32_MIN I32_MAX (Zlen digits)) by (unfold I32_MIN, I32_MAX; lia).
    change (default I32_MAX (Some (Zlen digits))) with (Zlen digits).
    rewrite arith_in by (unfold I32_MIN, I32_MAX; lia). st_run.
    by rewrite try_range_in by (unfold I16_MIN, I16_MAX; lia).
  - by rewrite digits_to_i128_overflow.
Qed.

Lemma dec_unique a b i j :
  0 < a → 0 < b → 0 <= i → 0 <= j → a mod 10 ≠ 0 → b mod 10 ≠ 0 →
  a * 10 ^ i = b * 10 ^ j → a = b ∧ i = j.
Proof.
  assert (∀ a b i j, 0 < a → 0 <= i < j → a mod 10 ≠ 0 → a * 10 ^ i ≠ b * 10 ^ j) as Hlt.
  { intros a' b' i' j' Ha Hij Hmod Heq. apply Hmod.
    replace j' with (i' + (1 + (j' - i' - 1))) in Heq by lia.
    rewrite !Z.pow_add_r in Heq by lia. change (10 ^ 1) with 10 in Heq.
    assert (a' = b' * 10 ^ (j' - i' - 1) * 10) as ->.
    { apply (Z.mul_cancel_r _ _ (10 ^ i')); [apply Z.pow_nonzero; lia|lia]. }
    apply Z_mod_mult. }
  intros Ha Hb Hi Hj Hma Hmb Heq. destruct (Z.lt_total i j) as [Hij|[->|Hij]].
  - by destruct (Hlt a b i j).
  - split; [|done]. apply (Z.mul_cancel_r _ _ (10 ^ j)); [apply Z.pow_nonzero; lia|done].
  - by destruct (Hlt b a j i).
Qed.

Lemma digit_count_unique c n m :
  0 < n → 0 < m → 10 ^ (n - 1) <= c < 10 ^ n → 10 ^ (m - 1) <= c < 10 ^ m → n = m.
Proof.
  intros Hn Hm Hc Hc'. destruct (Z.lt_total n m) as [H|[H|H]]; [|done|].
  - pose proof (Z.pow_le_mono_r 10 n (m - 1)). lia.
  - pose proof (Z.pow_le_mono_r 10 m (n - 1)). lia.
Qed.

(** Digits and point of a literal with significand [c], after the encoder. *)
Lemma encode_significand l c k n :
  lit_ok l → lit_digits l = c * 10 ^ k → 0 <= k → c mod 10 ≠ 0 → 0 < n → 10 ^ (n - 1) <= c < 10 ^ n →
  point_ok (n + k + lit_power l) →
  ∃ D, encode_number_text (lit_text l) = pack_number (lit_neg l) D (n + k + lit_power l) ∧
    normal D ∧ dval D = c ∧ Zlen D = n.
Proof.
  intros Hl Hv Hk Hmod Hn Hc Hp. unfold point_ok in Hp.
  pose proof (Z.pow_pos_nonneg 10 (n - 1)). destruct (lit_lengths l Hl) as [HI HF].
  pose proof Hl as (Hi&Hf&_).
  assert (n - 1 + k < Zlen (lit_int l) + Zlen (lit_frac l)) as Hnk.
  { pose proof (dval_range (lit_int l ++ lit_frac l)) as Hr. rewrite Forall_app, Zlen_app in Hr.
    unfold lit_digits in Hv. rewrite Hv in Hr. destruct Hr as [_ Hr]; [done|].
    apply (Z.pow_lt_mono_r_iff 10); [lia|pose proof (Zlen_nonneg (lit_int l));
      pose proof (Zlen_nonneg (lit_frac l)); lia|].
    rewrite Z.pow_add_r by lia. pose proof (Z.pow_pos_nonneg 10 k). nia. }
  unfold lit_power in Hp. pose proof (Zlen_nonneg (lit_frac l)).
  destruct (encode_literal l Hl) as (D & dpi & -> & HD & Hh & HvD & Hdpi); [lia|].
  destruct (strip_trailing_zeros_spec D) as (j & HDj & Hlast).
  set (D' := strip_trailing_zeros D) in *.
  assert (dval D' * 10 ^ Z.of_nat j = c * 10 ^ k) as Hprod
    by (rewrite <- dval_zeros, <- HDj; congruence).
  assert (0 < dval D') as Hpos.
  { pose proof (Z.pow_pos_nonneg 10 k). pose proof (Z.pow_pos_nonneg 10 (Z.of_nat j)). nia. }
  assert (D' ≠ []) as Hne by (intros Hnil; rewrite Hnil in Hpos; unfold dval in Hpos; cbn in Hpos; lia).
  assert (digits_ok D') as Hok by (rewrite HDj in HD; by apply Forall_app in HD as [? _]).
  assert (head D' ≠ Some 0) as HhD.
  { destruct Hh as [->|Hh]; [by destruct D', j|]. rewrite HDj in Hh. by destruct D'. }
  assert (normal D') as Hnorm by done.
  destruct (dec_unique (dval D') c (Z.of_nat j) k) as [Hcv <-];
    [lia|lia|lia|lia|by apply dval_last|done|done|].
  assert (Zlen D' = n) as Hzn.
  { apply (digit_count_unique c); [|lia| |lia].
    - destruct D'; [done|]. autorewrite with thin. pose proof (Zlen_nonneg D'). lia.
    - rewrite <- Hcv. split; [by apply dval_lower|by apply dval_range]. }
  exists D'. split; [|done]. f_equal. rewrite HDj, Zlen_app in Hdpi. unfold Zlen at 2 in Hdpi.
  rewrite repeat_length in Hdpi. lia.
Qed.

(** C4: Decimal text to wire to number, exactly.  Take any decimal literal of at
    most 172 characters (sign, leading and trailing zeros, point, exponent)
    whose significand [c], once its [k] trailing zeros are moved into the
    exponent, has [n] digits and fits an [i128].  If the decimal point falls in
    NUMBER's range, the text encodes and the wire bytes decode to the inline
    number with that coefficient and scale: the value
    [± c * 10 ^ (k + lit_power)] is kept to the last digit. *)
Theorem number_text_roundtrip l c k n :
  lit_ok l → lit_digits l = c * 10 ^ k → 0 <= k → c mod 10 ≠ 0 → 0 < n →
  10 ^ (n - 1) <= c < 10 ^ n → c <= I128_MAX → point_ok (n + k + lit_power l) →
  ∃ wire, encode_number_text (lit_text l) = Ok wire ∧
    from_wire wire = Ok (inline (signed (lit_neg l) c) (- (k + lit_power l))
                           (0 <=? k + lit_power l)).
Proof.
  intros Hl Hv Hk Hmod Hn Hc Hmax Hp.
  destruct (encode_significand l c k n) as (D & -> & Hnorm & Hval & Hlen); [done..|].
  pose proof Hnorm as (Hne&Hok&_).
  assert (n <= 39) as Hn39.
  { apply Z.lt_succ_r. apply (Z.pow_lt_mono_r_iff 10); [lia|lia|].
    replace n with (n - 1 + 1) by lia. rewrite Z.pow_add_r by lia.
    change (10 ^ Z.succ 39) with 10000000000000000000000000000000000000000.
    change (10 ^ 1) with 10. unfold I128_MAX in Hmax. lia. }
  assert (Zlen (mantissa (point_odd (n + k + lit_power l)) D) <= 20)
    by (apply mantissa_length; [done|lia|lia]).
  exists (wire_of (lit_neg l) D (n + k + lit_power l)).
  rewrite pack_number_run by (done || unfold NUMBER_MAX_DIGITS; lia). split; [done|].
  rewrite from_wire_of by (done || unfold NUMBER_MAX_DIGITS; lia).
  rewrite Hval, (proj2 (Z.leb_le _ _)), Hlen by lia. do 2 f_equal; [lia|].
  destruct (Z.leb_spec 0 (k + lit_power l)); lia.
Qed.

(** "-01050.00E-2": the significand is 105, one of its zeros sits in the
    integer part, two in the fraction. *)
Lemma number_text_roundtrip_witness :
  ∃ wire, encode_number_text [45; 48; 49; 48; 53; 48; 46; 48; 48; 69; 45; 50] = Ok wire ∧
    from_wire wire = Ok (inline (-105) 1 false).
Proof.
  apply (number_text_roundtrip
    (mkLiteral true [0; 1; 0; 5; 0] true [0; 0] (Some (true, Some true, [2]))) 105 3 3);
    try done; try lia.
  unfold lit_ok. split_and!; try done; apply (bool_decide_unpack _); by vm_compute.
Defined.

(** The one gap of the wire form: a number with forty significant digits and
    an odd decimal point passes the encoder's range check and is packed into 22
    bytes, one more than the decoder accepts. *)
Theorem number_forty_digits_odd_point neg D dpi :
  normal D → Zlen D = NUMBER_MAX_DIGITS → point_ok dpi → point_odd dpi = true →
  ∃ wire, pack_number neg D dpi = Ok wire ∧ Zlen wire = 22 ∧
    from_wire wire = Err (TtcDecode "encoded NUMBER too long").
Proof.
  intros Hn Hlen Hp Hodd. pose proof Hn as (Hne&Hok&_). unfold NUMBER_MAX_DIGITS in Hlen.
  assert (Zlen (mantissa true D) = 21) as Hm.
  { unfold mantissa. destruct D as [|d rest]; [done|]. autorewrite with thin in *.
    pose proof (pad_even_bound rest). lia. }
  exists (wire_of neg D dpi). rewrite pack_number_run by (done || unfold NUMBER_MAX_DIGITS; lia).
  assert (Zlen (wire_of neg D dpi) = 22) as Hw
    by (rewrite wire_of_length, Hodd, Hm; by destruct neg).
  split; [done|]. split; [done|]. unfold from_wire, decode_number_parts_stack. by rewrite Hw.
Qed.

Lemma number_forty_digits_odd_point_witness :
  ∃ wire, pack_number false (repeat 7 40) 39 = Ok wire ∧ Zlen wire = 22 ∧
    from_wire wire = Err (TtcDecode "encoded NUMBER too long").
Proof.
  apply (number_forty_digits_odd_point false (repeat 7 40) 39); try done.
  unfold normal. split_and!; try done. apply (bool_decide_unpack _). by vm_compute.
Defined.

(** On byte strings the encoder never writes, the two decode paths disagree:
    the text of the borrowed path is not the text of the number the owned path
    builds.  The four inputs have a leading zero pair; a lone zero pair; ten
    zero pairs before ten pairs of value 100, whose 48 digits are more than the
    stack buffer holds, so that the owned number is a million times too
    large; and a base-100 digit above 100. *)
Theorem number_paths_diverge :
  let texts w := (r ← decode_number_text_into w []; n ← from_wire w; t ← to_canonical_string n;
                  Ok (r.2, t)) in
  texts [194; 1; 2] = Ok ([48; 48; 49], [49]) ∧
  texts [62; 101] = Ok ([45; 48], [48]) ∧
  texts (212 :: repeat 1 10 ++ repeat 101 10) =
    Ok (repeat 48 19 ++ concat (repeat [49; 48; 48] 10),
        concat (repeat [49; 48; 48] 10) ++ repeat 48 6) ∧
  texts [193; 255] = Ok ([73; 52], [50; 53; 52]).
Proof. cbn zeta. split_and!; by vm_compute. Qed.
