(* ===== verification/NumberText.v ===== *)
(** * NUMBER as text: the two formatters and the canonical parser

    The encoder is total and writes only canonical wire forms; on those the
    borrowed and the owned decode path print the same text, the parser reads
    the text back, and integers are extracted exactly. *)

From S2P Require Import Prelude.
From S2P Require Import Protocol.
From S2P Require Import Number.
From S2P Require Import NumberWire.

(** ** The encoder on any text *)

Definition leading_ok (D : bytes) : Prop := digits_ok D ∧ (D = [] ∨ head D ≠ Some 0).

Lemma ascii_digit_value b : is_ascii_digit b = true → is_digit (b - ch_zero).
Proof. intros H%between_true. unfold is_digit, ch_zero. lia. Qed.

Lemma scan_integer_post value : ∀ D,
  leading_ok D →
  post (λ r, leading_ok r.1 ∧ Zlen r.1 <= Zlen D + Zlen value ∧ Zlen r.2 <= Zlen value)
    (scan_integer value D).
Proof.
  induction value as [|b value IH]; intros D HD; [cbn; rewrite ?(@Zlen_nil Z); split; [done|lia]|].
  cbn [scan_integer]. autorewrite with thin. pose proof (Zlen_nonneg value).
  apply post_if; intros _; [cbn; autorewrite with thin; split; [done|lia]|].
  apply post_if; intros Hd; [done|]. apply negb_false_iff, ascii_digit_value in Hd.
  destruct (push_leading D (b - ch_zero) Hd (proj1 HD) (proj2 HD)) as (Ha & Hb & _).
  destruct (_ && _).
  - eapply post_mono; [|apply (IH D HD)]. intros r (?&?&?). split; [done|lia].
  - eapply post_mono; [|apply (IH (D ++ [b - ch_zero]) (conj Ha Hb))]. intros r (?&Hl&?).
    autorewrite with thin in Hl. split; [done|lia].
Qed.

Lemma scan_fraction_post value : ∀ D dpi,
  leading_ok D → -1000 + Zlen value <= dpi <= 1000 →
  post (λ r, leading_ok r.1.1 ∧ -1000 <= r.1.2 <= 1000 ∧ Zlen r.2 <= Zlen value)
    (scan_fraction value D dpi).
Proof.
  induction value as [|b value IH]; intros D dpi HD Hp; [rewrite (@Zlen_nil Z) in Hp; cbn; split; [done|lia]|].
  cbn [scan_fraction]. autorewrite with thin in *. pose proof (Zlen_nonneg value).
  apply post_if; intros _; [cbn; autorewrite with thin; split; [done|lia]|].
  apply post_if; intros Hd; [done|]. apply negb_false_iff, ascii_digit_value in Hd.
  destruct (push_leading D (b - ch_zero) Hd (proj1 HD) (proj2 HD)) as (Ha & Hb & _).
  destruct (_ && _).
  - rewrite arith_in by (unfold I32_MIN, I32_MAX; lia). st_run.
    eapply post_mono; [|apply (IH D (dpi - 1) HD); lia]. intros r (?&?&?). split; [done|lia].
  - eapply post_mono; [|apply (IH (D ++ [b - ch_zero]) dpi (conj Ha Hb)); lia].
    intros r (?&?&?). split; [done|lia].
Qed.

Lemma parse_digits_range max text : ∀ acc v,
  0 <= acc <= max → parse_digits max acc text = Some v → 0 <= v <= max.
Proof.
  induction text as [|b text IH]; intros acc v Ha; cbn [parse_digits]; [by intros [= <-]|].
  destruct (try_range 0 max (acc * 10)) as [x|] eqn:Hx; [|done]. cbn [mbind option_bind].
  destruct (try_range 0 max (x + (b - ch_zero))) as [y|] eqn:Hy; [|done]. cbn [mbind option_bind].
  apply try_range_some in Hy as [-> Hy]. by apply IH.
Qed.

Lemma scan_exponent_post value : post (λ e, - I32_MAX <= e <= I32_MAX) (scan_exponent value).
Proof.
  unfold scan_exponent. destruct (match value with [] => _ | _ => _ end) as [neg rest].
  apply post_if; intros _; [done|]. apply post_if; intros _; [done|].
  eapply (post_bind (λ e, 0 <= e <= I32_MAX)).
  { apply post_ok_or. intros e. by apply parse_digits_range. }
  intros e He. unfold I32_MAX in *. destruct neg; [|cbn; lia].
  rewrite arith_in by (unfold I32_MIN; lia). cbn. lia.
Qed.

Definition canonical_wire (wire : bytes) : Prop :=
  wire = [128] ∨ ∃ neg D dpi, normal D ∧ Zlen D <= NUMBER_MAX_DIGITS ∧ point_ok dpi ∧
    wire = wire_of neg D dpi.

Lemma pack_number_post neg D dpi :
  D = [] ∨ normal D → I32_MIN <= dpi <= I32_MAX → post canonical_wire (pack_number neg D dpi).
Proof.
  intros HD Hdpi. destruct ((NUMBER_MAX_DIGITS <? Zlen D) || negb (between (-129) 126 dpi)) eqn:Hg.
  { unfold pack_number. by rewrite Hg. }
  apply orb_false_iff in Hg as [Hlen Hp]. apply Z.ltb_ge in Hlen.
  apply negb_false_iff, between_true in Hp. destruct HD as [->|HD].
  - unfold pack_number. rewrite (proj2 (Z.ltb_ge _ _) Hlen), (proj2 (between_true _ _ _) Hp).
    cbn [orb negb]. rewrite bool_decide_eq_true_2, andb_false_r by done. by left.
  - pose proof HD as (Hne&Hok&_). rewrite pack_number_run by done. right. by exists neg, D, dpi.
Qed.

Lemma strip_normal D : leading_ok D → strip_trailing_zeros D = [] ∨ normal (strip_trailing_zeros D).
Proof.
  intros [Hok Hh]. destruct (strip_trailing_zeros_spec D) as (k & Hk & Hlast).
  set (S := strip_trailing_zeros D) in *. clearbody S. subst D.
  destruct S as [|d S]; [by left|right]. apply Forall_app in Hok as [Hok _].
  split; [done|]. split; [done|]. split; [|done]. by destruct Hh.
Qed.

Lemma encode_number_post value : post canonical_wire (encode_number_text value).
Proof.
  unfold encode_number_text. apply post_if; intros _; [done|]. apply post_if; intros Hlen; [done|].
  apply Z.ltb_ge in Hlen. unfold NUMBER_AS_TEXT_CHARS in Hlen.
  set (neg := bool_decide _). set (value' := if neg then drop 1 value else value).
  assert (Zlen value' <= 172) as Hl'
    by (unfold value', Zlen in *; destruct neg; rewrite ?length_drop; lia).
  clearbody neg value'. pose proof (Zlen_nonneg value').
  eapply post_bind; [apply scan_integer_post; split; [constructor|by left]|].
  intros [D rest] (HD & HlD & Hlr). cbn [fst snd] in *. rewrite (@Zlen_nil Z) in HlD.
  pose proof (Zlen_nonneg D).
  rewrite (try_range_in I32_MIN I32_MAX (Zlen D)) by (unfold I32_MIN, I32_MAX; lia).
  change (default I32_MAX (Some (Zlen D))) with (Zlen D).
  apply (post_bind (λ r, leading_ok r.1.1 ∧ -1000 <= r.1.2 <= 1000 ∧ Zlen r.2 <= 172)).
  { apply post_if; intros _; [|cbn; split; [done|lia]].
    assert (Zlen (drop 1 rest) <= 172) by (unfold Zlen in *; rewrite length_drop; lia).
    eapply post_mono; [|apply scan_fraction_post; [done|lia]]. intros r (?&?&?). split; [done|lia]. }
  intros [[D2 dpi] rest2] (HD2 & Hdpi & Hl2). cbn [fst snd] in *.
  apply (post_bind (λ r, I32_MIN <= r.1 <= I32_MAX)).
  { destruct rest2 as [|b rest2]; [cbn; unfold I32_MIN, I32_MAX; lia|].
    apply post_if; intros _; [|cbn; unfold I32_MIN, I32_MAX; lia].
    eapply post_bind; [apply scan_exponent_post|]. intros e He.
    eapply (post_bind (λ d, I32_MIN <= d <= I32_MAX)); [|by intros d].
    apply post_ok_or. intros d Hd%try_range_some. lia. }
  intros [dpi2 rest3] Hd2. cbn [fst] in Hd2. apply post_if; intros _; [done|].
  apply pack_number_post; [by apply strip_normal|done].
Qed.

(** The encoder is total and canonical: on any text it returns, and the bytes
    it returns are the one-byte zero or the packed form of at most forty digits
    without a zero at either end, under a decimal point in NUMBER's range. *)
Theorem encode_number_canonical value : post canonical_wire (encode_number_text value).
Proof. apply encode_number_post. Qed.

(** ** The two formatters *)

Lemma decimal_digits_run D : ∀ n acc,
  leading_ok D → (length D <= n)%nat → decimal_digits n (dval D) acc = Ok (map asc D ++ acc).
Proof.
  induction D as [|d D IH] using rev_ind; intros n acc [Hok Hh] Hn.
  { by destruct n. }
  apply Forall_app in Hok as [HD Hd]. rewrite Forall_singleton in Hd. unfold is_digit in Hd.
  rewrite length_app in Hn. cbn [length] in Hn. destruct n as [|n]; [lia|].
  pose proof (dval_range D HD) as Hr. rewrite dval_snoc.
  assert (leading_ok D ∧ 0 < dval D * 10 + d) as [HlD Hpos].
  { destruct Hh as [Hnil|Hh]; [by destruct D|]. destruct D as [|x D].
    - cbn in Hh. assert (d ≠ 0) by congruence. split; [by split; [|left]|]. unfold dval. cbn. lia.
    - split; [split; [done|by right]|]. pose proof (dval_lower (x :: D) HD ltac:(done) Hh) as Hlo.
      pose proof (Z.pow_pos_nonneg 10 (Zlen (x :: D) - 1)). autorewrite with thin in *.
      pose proof (Zlen_nonneg D). lia. }
  cbn [decimal_digits]. rewrite (proj2 (Z.leb_gt _ _)) by lia.
  replace ((dval D * 10 + d) / 10) with (dval D)
    by (symmetry; rewrite Z.add_comm, Z.div_add, Z.div_small; lia).
  replace ((dval D * 10 + d) mod 10) with d
    by (symmetry; rewrite Z.add_comm, Z.mod_add, Z.mod_small; lia).
  rewrite IH by (done || lia). by rewrite map_app, <- app_assoc.
Qed.

Lemma write_digits_low D : ∀ i dpi,
  0 <= i → i + Zlen D <= I16_MAX → dpi <= 0 → write_digits i D dpi = map asc D.
Proof.
  induction D as [|d D IH]; intros i dpi Hi Hl Hp; [done|]. autorewrite with thin in Hl.
  pose proof (Zlen_nonneg D). cbn [write_digits map]. rewrite try_range_in by (unfold I16_MIN; lia).
  change (default I16_MAX (Some i)) with i. replace (_ && _) with false by lia.
  cbn [app]. rewrite IH by lia. done.
Qed.

Lemma write_digits_point D : ∀ i dpi,
  0 <= i → i + Zlen D <= I16_MAX → 0 < dpi → write_digits i D dpi = insert_point i (map asc D) dpi.
Proof.
  induction D as [|d D IH]; intros i dpi Hi Hl Hp; [done|]. autorewrite with thin in Hl.
  pose proof (Zlen_nonneg D). cbn [write_digits map insert_point].
  rewrite try_range_in by (unfold I16_MIN; lia).
  change (default I16_MAX (Some i)) with i. replace (_ && _) with (i =? dpi) by lia.
  rewrite IH by lia. done.
Qed.

Lemma fmt_inline_run neg D dpi out :
  normal D → Zlen D <= NUMBER_MAX_DIGITS → point_ok dpi →
  fmt_inline_into (signed neg (dval D)) (Zlen D - dpi) out =
    Ok (out ++ format_number_digits D neg dpi).
Proof.
  intros (Hne&Hok&Hh&_) Hlen Hp. unfold NUMBER_MAX_DIGITS, point_ok in *.
  assert (0 < dval D) as Hpos.
  { pose proof (dval_lower D Hok Hne Hh). pose proof (Z.pow_pos_nonneg 10 (Zlen D - 1)).
    destruct D; [done|]. autorewrite with thin in *. pose proof (Zlen_nonneg D). lia. }
  unfold fmt_inline_into. rewrite (proj2 (Z.eqb_neq _ 0)) by (unfold signed; destruct neg; lia).
  assert ((signed neg (dval D) <? 0) = neg ∧ Z.abs (signed neg (dval D)) = dval D) as [-> ->]
    by (unfold signed; destruct neg; lia).
  rewrite decimal_digits_run; [|split; [done|by right]|unfold Zlen in Hlen; lia].
  st_run. rewrite app_nil_r. assert (Zlen (map asc D) = Zlen D) as -> by (unfold Zlen; by rewrite length_map).
  replace (Zlen D - (Zlen D - dpi)) with dpi by lia.
  rewrite arith_in by (unfold I32_MIN, I32_MAX; lia). st_run. unfold format_number_digits.
  rewrite len_i16_small by (unfold I16_MAX; lia). pose proof (Zlen_nonneg D).
  destruct (Z.leb_spec dpi 0).
  - rewrite write_digits_low by (unfold I16_MAX; lia). rewrite (proj2 (Z.ltb_ge _ _)) by lia.
    rewrite app_nil_r, <- !app_assoc. done.
  - rewrite write_digits_point by (unfold I16_MAX; lia). by rewrite <- !app_assoc.
Qed.

Lemma i128_le_roundtrip z : I128_MIN <= z <= I128_MAX → i128_from_le (i128_to_le z) = z.
Proof.
  intros Hz. unfold I128_MIN, I128_MAX in Hz. unfold i128_from_le, i128_to_le.
  rewrite from_to_le_bytes.
  - unfold as_i, as_u. rewrite Zplus_mod_idemp_l. apply (as_i_in 128 z); lia.
  - pose proof (as_u_range 128 z). change (256 ^ Z.of_nat 16) with (2 ^ 128). lia.
Qed.

Lemma signed_i128 neg z : 0 <= z <= I128_MAX → I128_MIN <= signed neg z <= I128_MAX.
Proof. unfold signed, I128_MIN, I128_MAX. destruct neg; lia. Qed.

(** What both decode paths make of packed digits. *)
Lemma decoded_text_of neg D dpi out :
  normal D → Zlen D <= NUMBER_MAX_DIGITS → point_ok dpi →
  Zlen (mantissa (point_odd dpi) D) <= 20 →
  ∃ n, from_wire (wire_of neg D dpi) = Ok n ∧
    decode_number_text_into (wire_of neg D dpi) out =
      Ok (is_integer n, out ++ format_number_digits D neg dpi) ∧
    fmt_into n out = Ok (out ++ format_number_digits D neg dpi).
Proof.
  intros Hn Hlen Hp Hm. pose proof Hn as (_&Hok&_).
  rewrite from_wire_of by done. eexists. split; [done|].
  unfold decode_number_text_into. rewrite decode_wire_of by done. st_run.
  destruct (Z.leb_spec (dval D) I128_MAX) as [Hfit|Hover]; (split; [done|]); [|done].
  cbn [inline fmt_into]. rewrite i128_le_roundtrip
    by (apply signed_i128; pose proof (dval_range D Hok); lia).
  by apply fmt_inline_run.
Qed.

(** The same for every wire form the encoder can write. *)
Lemma canonical_texts wire n out :
  canonical_wire wire → from_wire wire = Ok n →
  ∃ t, decode_number_text_into wire out = Ok (is_integer n, out ++ t) ∧
    fmt_into n out = Ok (out ++ t).
Proof.
  intros [->|(neg & D & dpi & Hn & Hlen & Hp & ->)] Hdec.
  - injection Hdec as <-. by exists [ch_zero].
  - assert (Zlen (mantissa (point_odd dpi) D) <= 20) as Hm.
    { apply Z.nlt_ge. intros Hgt. unfold from_wire, decode_number_parts_stack in Hdec.
      rewrite (proj2 (Z.ltb_lt 21 _)) in Hdec; [done|].
      rewrite wire_of_length. destruct (_ && _); lia. }
    destruct (decoded_text_of neg D dpi out Hn Hlen Hp Hm) as (n' & Hn' & Ht & Hf).
    rewrite Hn' in Hdec. injection Hdec as <-. by exists (format_number_digits D neg dpi).
Qed.

(** Owned and borrowed decoding print the same text: for every number the
    encoder can write, the text the borrowed path appends to its arena is byte
    for byte the text of the owned [OracleNumber], inline or spilled, with the
    same integrality flag. *)
Theorem owned_borrowed_text value wire n out :
  encode_number_text value = Ok wire → from_wire wire = Ok n →
  ∃ t, decode_number_text_into wire out = Ok (is_integer n, out ++ t) ∧
    fmt_into n out = Ok (out ++ t).
Proof.
  intros Henc. pose proof (encode_number_post value) as Hc. rewrite Henc in Hc. by apply canonical_texts.
Qed.

Lemma owned_borrowed_text_witness :
  ∃ t, decode_number_text_into [61; 100; 78; 56; 102] [] = Ok (false, [] ++ t) ∧
    fmt_into (inline (-12345) 2 false) [] = Ok ([] ++ t).
Proof.
  apply (owned_borrowed_text [45; 49; 50; 51; 46; 52; 53] [61; 100; 78; 56; 102]
    (inline (-12345) 2 false) []); by vm_compute.
Defined.

(** ** Reading canonical text back *)

Lemma fold_dval L : digits_ok L →
  foldl fold_digit (Some 0) L = if dval L <=? I128_MAX then Some (dval L) else None.
Proof.
  intros HL. pose proof (digits_to_i128_run L false HL). pose proof (digits_to_i128_overflow L false HL).
  unfold digits_to_i128, signed in *. destruct (Z.leb_spec (dval L) I128_MAX) as [Hle|Hgt].
  - specialize (H Hle). destruct (foldl _ _ _); [|done]. by injection H as ->.
  - specialize (H0 Hgt). by destruct (foldl _ _ _).
Qed.

Lemma unasc L : map (λ b, b - ch_zero) (map asc L) = L.
Proof. induction L as [|d L IH]; [done|]. cbn. rewrite IH. f_equal. unfold asc. lia. Qed.

Lemma zeros_asc n : zeros n = map asc (repeat 0 (Z.to_nat n)).
Proof. unfold zeros. induction (Z.to_nat n) as [|k IH]; [done|]. cbn. by rewrite IH. Qed.

Lemma repeat_digits n : digits_ok (repeat 0 n).
Proof. induction n; constructor; [unfold is_digit; lia|done]. Qed.

Lemma split_dot_none L : digits_ok L → split_dot (map asc L) = None.
Proof.
  induction 1 as [|d L Hd _ IH]; [done|]. cbn [map split_dot].
  destruct (asc_facts d Hd) as (_&_&->&_). by rewrite IH.
Qed.

Lemma split_dot_some L rest : digits_ok L → split_dot (map asc L ++ ch_dot :: rest) = Some (map asc L, rest).
Proof.
  induction 1 as [|d L Hd _ IH]; [done|]. cbn [map app split_dot].
  destruct (asc_facts d Hd) as (_&_&->&_). by rewrite IH.
Qed.

Lemma insert_point_past L : ∀ i dpi, dpi < i → insert_point i L dpi = L.
Proof.
  induction L as [|d L IH]; intros i dpi Hi; [done|]. cbn [insert_point].
  rewrite (proj2 (Z.eqb_neq i dpi)) by lia. by rewrite IH by lia.
Qed.

Lemma insert_point_split L : ∀ i dpi, 0 <= i <= dpi →
  insert_point i L dpi =
    if dpi <? i + Zlen L then take (Z.to_nat (dpi - i)) L ++ ch_dot :: drop (Z.to_nat (dpi - i)) L else L.
Proof.
  induction L as [|d L IH]; intros i dpi Hi; cbn [insert_point].
  { rewrite (@Zlen_nil Z). by rewrite (proj2 (Z.ltb_ge _ _)) by lia. }
  autorewrite with thin. pose proof (Zlen_nonneg L). destruct (Z.eqb_spec i dpi) as [->|Hne].
  - rewrite (proj2 (Z.ltb_lt _ _)) by lia. rewrite Z.sub_diag.
    by rewrite insert_point_past by lia.
  - rewrite IH by lia. replace (i + 1 + Zlen L) with (i + (Zlen L + 1)) by lia.
    destruct (Z.ltb_spec dpi (i + (Zlen L + 1))); [|done]. cbn [app].
    replace (Z.to_nat (dpi - i)) with (S (Z.to_nat (dpi - (i + 1)))) by lia. done.
Qed.

Lemma pow10_bound c j : 0 < c → 0 <= j → c * 10 ^ j <= I128_MAX → j <= 38.
Proof.
  intros Hc Hj Hm. apply Z.nlt_ge. intros Hgt. pose proof (Z.pow_le_mono_r 10 39 j).
  change (10 ^ 39) with 1000000000000000000000000000000000000000 in *. unfold I128_MAX in Hm. nia.
Qed.

Lemma signed_rem neg z : 0 <= z → rem_t (signed neg z) 10 = signed neg (z mod 10).
Proof.
  intros. unfold rem_t, signed. destruct neg; [rewrite Z.rem_opp_l by lia|];
    by rewrite Z.rem_mod_nonneg by lia.
Qed.

Lemma signed_div neg z : 0 <= z → div_t (signed neg z) 10 = signed neg (z / 10).
Proof.
  intros. unfold div_t, signed. destruct neg; [rewrite Z.quot_opp_l by lia|];
    by rewrite Z.quot_div_nonneg by lia.
Qed.

Lemma trim_zeros_run neg c (j : nat) : ∀ fuel s,
  0 < c → c mod 10 ≠ 0 → (j < fuel)%nat → I16_MIN + Z.of_nat j <= s <= I16_MAX →
  trim_zeros fuel (signed neg (c * 10 ^ Z.of_nat j)) s = Ok (Some (signed neg c, s - Z.of_nat j)).
Proof.
  induction j as [|j IH]; intros [|fuel] s Hc Hmod Hf Hs; [lia| |lia|]; cbn [trim_zeros].
  - rewrite Z.mul_1_r, signed_rem by lia. pose proof (Z.mod_pos_bound c 10).
    rewrite (proj2 (Z.eqb_neq _ 0)) by (unfold signed; destruct neg; lia). by rewrite Z.sub_0_r.
  - rewrite Nat2Z.inj_succ, Z.pow_succ_r by lia. pose proof (Z.pow_pos_nonneg 10 (Z.of_nat j)).
    rewrite signed_rem, signed_div by nia.
    replace (c * (10 * 10 ^ Z.of_nat j)) with (c * 10 ^ Z.of_nat j * 10) by lia.
    rewrite Z_mod_mult, Z_div_mult by lia.
    assert (signed neg 0 = 0) as -> by (by destruct neg). cbn [Z.eqb].
    rewrite try_range_in by lia. rewrite IH by (done || lia). do 3 f_equal. lia.
Qed.

Definition decimal_text (neg : bool) (ip : bytes) (fp : option bytes) : bytes :=
  (if neg then [ch_minus] else []) ++ map asc ip ++
  (match fp with Some fp => ch_dot :: map asc fp | None => [] end).

Lemma parse_decimal neg ip fp :
  digits_ok ip → ip ≠ [] → digits_ok (default [] fp) → Zlen (default [] fp) <= I16_MAX →
  parse_canonical_inline (decimal_text neg ip fp) =
    let v := dval (ip ++ default [] fp) in
    let s := Zlen (default [] fp) in
    if I128_MAX <? v then Ok None
    else if (v =? 0) && (s =? 0) then Ok None
    else if s =? 0 then trim_zeros 40 (signed neg v) s
    else Ok (Some (signed neg v, s)).
Proof.
  intros Hip Hne Hfp Hlen. unfold parse_canonical_inline.
  set (body := map asc ip ++ match fp with Some fp => ch_dot :: map asc fp | None => [] end).
  assert (head body ≠ Some ch_minus ∧ body ≠ []) as [Hh Hbne].
  { unfold body. destruct ip as [|d ip]; [done|]. apply Forall_cons_iff in Hip as [Hd _].
    unfold is_digit in Hd. cbn. split; [|done]. intros [= H]. unfold asc, ch_zero, ch_minus in H. lia. }
  assert (bool_decide (head (decimal_text neg ip fp) = Some ch_minus) = neg ∧
    (if neg then drop 1 (decimal_text neg ip fp) else decimal_text neg ip fp) = body) as [-> ->].
  { unfold decimal_text. fold body. destruct neg; [by rewrite bool_decide_eq_true_2|].
    cbn [app]. by rewrite bool_decide_eq_false_2. }
  rewrite bool_decide_eq_false_2 by done.
  assert (default (body, []) (split_dot body) = (map asc ip, map asc (default [] fp))) as ->.
  { unfold body. destruct fp as [fp|]; [by rewrite split_dot_some|].
    by rewrite app_nil_r, split_dot_none. }
  rewrite !forallb_asc by done. cbn [negb orb]. rewrite <- map_app, unasc.
  assert (digits_ok (ip ++ default [] fp)) as Hall by (by apply Forall_app).
  pose proof (dval_range _ Hall) as Hr. rewrite fold_dval by done. cbn zeta.
  assert (Zlen (map asc (default [] fp)) = Zlen (default [] fp)) as -> by (unfold Zlen; by rewrite length_map).
  set (v := dval _) in *. destruct (Z.leb_spec v I128_MAX).
  2:{ by rewrite (proj2 (Z.ltb_lt _ _)) by lia. }
  rewrite (proj2 (Z.ltb_ge _ _)) by lia.
  replace (if neg then checked_i128 (- v) else Some v) with (Some (signed neg v)).
  2:{ unfold signed. destruct neg; [|done]. unfold checked_i128.
      by rewrite try_range_in by (unfold I128_MIN, I128_MAX in *; lia). }
  pose proof (Zlen_nonneg (default [] fp)).
  rewrite try_range_in by (unfold I16_MIN; lia).
  replace (signed neg v =? 0) with (v =? 0) by (unfold signed; destruct neg; lia). done.
Qed.

(** The text of packed digits, as integer part and fraction. *)
Lemma format_decimal neg D dpi :
  normal D → Zlen D <= NUMBER_MAX_DIGITS → point_ok dpi →
  format_number_digits D neg dpi =
    if dpi <=? 0 then decimal_text neg [0] (Some (repeat 0 (Z.to_nat (- dpi)) ++ D))
    else if dpi <? Zlen D then decimal_text neg (take (Z.to_nat dpi) D) (Some (drop (Z.to_nat dpi) D))
    else decimal_text neg (D ++ repeat 0 (Z.to_nat (dpi - Zlen D))) None.
Proof.
  intros (Hne&Hok&_) Hlen Hp. unfold NUMBER_MAX_DIGITS, point_ok in *. unfold format_number_digits, decimal_text.
  rewrite len_i16_small by (unfold I16_MAX; lia). pose proof (Zlen_nonneg D).
  destruct (Z.leb_spec dpi 0).
  - rewrite write_digits_low by (unfold I16_MAX; lia). rewrite (proj2 (Z.ltb_ge (Zlen D) dpi)) by lia.
    rewrite app_nil_r, zeros_asc, map_app. cbn [map app]. done.
  - rewrite write_digits_point by (unfold I16_MAX; lia). rewrite insert_point_split by lia.
    assert (Zlen (map asc D) = Zlen D) as -> by (unfold Zlen; by rewrite length_map).
    rewrite Z.add_0_l, Z.sub_0_r. cbn [app]. destruct (Z.ltb_spec dpi (Zlen D)).
    + rewrite (proj2 (Z.ltb_ge (Zlen D) dpi)) by lia.
      rewrite app_nil_r, <- firstn_map, <- skipn_map. done.
    + rewrite app_nil_r, map_app. do 2 f_equal.
      destruct (Z.ltb_spec (Zlen D) dpi); [by rewrite zeros_asc|].
      by replace (Z.to_nat (dpi - Zlen D)) with 0%nat by lia.
Qed.

Lemma parse_format neg D dpi :
  normal D → Zlen D <= NUMBER_MAX_DIGITS → point_ok dpi →
  parse_canonical_inline (format_number_digits D neg dpi) =
    Ok (if dval D * 10 ^ (Z.max 0 (dpi - Zlen D)) <=? I128_MAX
        then Some (signed neg (dval D), Zlen D - dpi) else None).
Proof.
  intros Hn Hlen Hp. pose proof Hn as (Hne&Hok&Hh&Hl). rewrite format_decimal by done.
  unfold NUMBER_MAX_DIGITS, point_ok in *.
  assert (0 < dval D ∧ 0 < Zlen D) as [Hpos HposD].
  { pose proof (dval_lower D Hok Hne Hh). pose proof (Z.pow_pos_nonneg 10 (Zlen D - 1)).
    destruct D; [done|]. autorewrite with thin in *. pose proof (Zlen_nonneg D). lia. }
  destruct (Z.leb_spec dpi 0); [|destruct (Z.ltb_spec dpi (Zlen D))].
  - set (F := repeat 0 (Z.to_nat (- dpi)) ++ D).
    assert (digits_ok F) by (apply Forall_app; split; [apply repeat_digits|done]).
    assert (Zlen F = Zlen D - dpi) as HlF
      by (unfold F; rewrite Zlen_app; unfold Zlen at 1; rewrite repeat_length; lia).
    assert (dval ([0] ++ F) = dval D) as HvF.
    { unfold F. rewrite app_assoc, dval_app. change ([0] ++ repeat 0 (Z.to_nat (- dpi)))
        with ([] ++ repeat 0 (S (Z.to_nat (- dpi)))). rewrite dval_zeros. change (dval []) with 0. lia. }
    rewrite parse_decimal; [|by apply Forall_singleton|done|done|cbn [default id from_option]; unfold I16_MAX; lia].
    cbn [default id from_option]. cbn zeta. rewrite HvF, HlF.
    replace (Z.max 0 (dpi - Zlen D)) with 0 by lia. rewrite Z.pow_0_r, Z.mul_1_r.
    rewrite (proj2 (Z.eqb_neq (dval D) 0)), (proj2 (Z.eqb_neq (Zlen D - dpi) 0)) by lia. cbn [andb].
    destruct (Z.ltb_spec I128_MAX (dval D)), (Z.leb_spec (dval D) I128_MAX); done || lia.
  - rewrite parse_decimal; [|by apply Forall_take| |by apply Forall_drop|]; cbn [default id from_option].
    2:{ destruct D; [done|]. by replace (Z.to_nat dpi) with (S (Z.to_nat (dpi - 1))) by lia. }
    2:{ unfold Zlen in *. rewrite length_drop. unfold I16_MAX. lia. }
    cbn zeta. rewrite take_drop.
    assert (Zlen (drop (Z.to_nat dpi) D) = Zlen D - dpi) as ->
      by (unfold Zlen in *; rewrite length_drop; lia).
    replace (Z.max 0 (dpi - Zlen D)) with 0 by lia. rewrite Z.pow_0_r, Z.mul_1_r.
    rewrite (proj2 (Z.eqb_neq (dval D) 0)), (proj2 (Z.eqb_neq (Zlen D - dpi) 0)) by lia. cbn [andb].
    destruct (Z.ltb_spec I128_MAX (dval D)), (Z.leb_spec (dval D) I128_MAX); done || lia.
  - rewrite parse_decimal; cbn [default id from_option];
      [|apply Forall_app; split; [done|apply repeat_digits]|by destruct D|constructor|by vm_compute].
    cbn zeta. rewrite app_nil_r, dval_zeros, Z2Nat.id, Z.max_r by lia.
    change (Zlen (@nil Z)) with 0. set (j := dpi - Zlen D).
    pose proof (Z.pow_pos_nonneg 10 j).
    rewrite (proj2 (Z.eqb_neq (dval D * 10 ^ j) 0)) by nia. cbn [andb Z.eqb].
    destruct (Z.ltb_spec I128_MAX (dval D * 10 ^ j)), (Z.leb_spec (dval D * 10 ^ j) I128_MAX);
      [lia|done| |lia].
    pose proof (pow10_bound (dval D) j Hpos ltac:(lia) ltac:(lia)).
    replace j with (Z.of_nat (Z.to_nat j)) by lia.
    rewrite trim_zeros_run; [|done|by apply dval_last|lia|unfold I16_MIN, I16_MAX; lia].
    do 3 f_equal. lia.
Qed.

(** Reading back the borrowed text of a wire form the encoder can write. *)
Lemma canonical_materializes wire n b t :
  canonical_wire wire → from_wire wire = Ok n →
  decode_number_text_into wire [] = Ok (b, t) →
  from_canonical_text_with_flag t b =
    Ok (match n with
        | Inline le s _ =>
            if Z.abs (i128_from_le le) * 10 ^ (Z.max 0 (- s)) <=? I128_MAX then n else Text t b
        | Text _ _ => n
        end).
Proof.
  intros [->|(neg & D & dpi & Hn & Hlen & Hp & ->)] Hdec Htext.
  { injection Hdec as <-. injection Htext as <- <-. by vm_compute. }
  assert (Zlen (mantissa (point_odd dpi) D) <= 20) as Hm.
  { apply Z.nlt_ge. intros Hgt. unfold from_wire, decode_number_parts_stack in Hdec.
    rewrite (proj2 (Z.ltb_lt 21 _)) in Hdec; [done|].
    rewrite wire_of_length. destruct (_ && _); lia. }
  destruct (decoded_text_of neg D dpi [] Hn Hlen Hp Hm) as (n' & Hn' & Ht & _).
  rewrite Hn' in Hdec. injection Hdec as ->. rewrite Ht in Htext. injection Htext as <- <-.
  rewrite from_wire_of in Hn' by done. injection Hn' as <-.
  unfold from_canonical_text_with_flag. cbn [app]. rewrite parse_format by done. st_run.
  pose proof Hn as (Hne&Hok&_). pose proof (dval_range D Hok) as Hr.
  destruct (Z.leb_spec (dval D) I128_MAX) as [Hfit|Hover].
  - cbn [inline is_integer]. rewrite i128_le_roundtrip by (apply signed_i128; lia).
    replace (Z.abs (signed neg (dval D))) with (dval D) by (unfold signed; destruct neg; lia).
    replace (- (Zlen D - dpi)) with (dpi - Zlen D) by lia. by destruct (_ <=? I128_MAX).
  - rewrite (proj2 (Z.leb_gt _ _)); [done|].
    pose proof (Z.pow_pos_nonneg 10 (Z.max 0 (dpi - Zlen D))). nia.
Qed.

(** Canonical text materialises to the number the wire decoder builds: for
    every encodable number, parsing the borrowed text gives the owned
    [OracleNumber], representation included, except that an integral inline
    number whose trailing zeros do not fit an [i128] when written out stays
    text. *)
Theorem canonical_text_materializes value wire n b t :
  encode_number_text value = Ok wire → from_wire wire = Ok n →
  decode_number_text_into wire [] = Ok (b, t) →
  from_canonical_text_with_flag t b =
    Ok (match n with
        | Inline le s _ =>
            if Z.abs (i128_from_le le) * 10 ^ (Z.max 0 (- s)) <=? I128_MAX then n else Text t b
        | Text _ _ => n
        end).
Proof.
  intros Henc. pose proof (encode_number_post value) as Hc. rewrite Henc in Hc. by apply canonical_materializes.
Qed.

(** A NUMBER of one byte (zero, or the most negative value), or packed the way the
    encoder packs: no zero pair at either end and no base-100 digit out of range. *)
Definition number_wire (wire : bytes) : Prop := Zlen wire = 1 ∨ canonical_wire wire.

(** On these the owned number, the borrowed text and the number read back from the
    borrowed text all print the same. *)
Lemma number_wire_texts wire n b t m :
  number_wire wire → from_wire wire = Ok n → decode_number_text_into wire [] = Ok (b, t) →
  from_canonical_text_with_flag t b = Ok m →
  is_integer n = b ∧ to_canonical_string n = Ok t ∧ to_canonical_string m = Ok t.
Proof.
  intros [H1|Hc] Hn Ht Hm.
  - destruct wire as [|x [|y wire]]; [done| |unfold Zlen in H1; cbn in H1; lia].
    unfold from_wire, decode_number_parts_stack in Hn. unfold decode_number_text_into, decode_number_parts in Ht.
    cbn in Hn, Ht. destruct (negb _); cbn in Hn, Ht; injection Hn as <-; injection Ht as <- <-;
      vm_compute in Hm; injection Hm as <-; by vm_compute.
  - pose proof (canonical_materializes _ _ _ _ Hc Hn Ht) as Hmat.
    destruct (canonical_texts wire n [] Hc Hn) as (t' & Ht' & Hf). rewrite Ht in Ht'. injection Ht' as -> ->.
    rewrite Hm in Hmat. injection Hmat as ->. split; [done|]. split; [done|].
    destruct n; [|done]. by destruct (_ <=? _).
Qed.

(** "1e40" decodes inline, its text of 41 characters stays text; "1000" folds
    back to the inline form. *)
Lemma canonical_text_materializes_witness :
  from_canonical_text_with_flag (ch_one :: zeros 40) true = Ok (Text (ch_one :: zeros 40) true) ∧
  from_canonical_text_with_flag [49; 48; 48; 48] true = Ok (inline 1 (-3) true).
Proof.
  split.
  - rewrite (canonical_text_materializes [49; 101; 52; 48] [213; 2] (inline 1 (-40) true));
      by vm_compute.
  - rewrite (canonical_text_materializes [49; 48; 48; 48] [194; 11] (inline 1 (-3) true));
      by vm_compute.
Defined.

(** ** Integers *)

Lemma mul10_spec n : ∀ v, I128_MIN <= v <= I128_MAX →
  mul10 n v = try_range I128_MIN I128_MAX (v * 10 ^ Z.of_nat n).
Proof.
  induction n as [|n IH]; intros v Hv.
  { cbn [mul10]. by rewrite Z.pow_0_r, Z.mul_1_r, try_range_in. }
  cbn [mul10]. rewrite Nat2Z.inj_succ, Z.pow_succ_r by lia.
  replace (v * (10 * 10 ^ Z.of_nat n)) with (v * 10 * 10 ^ Z.of_nat n) by lia.
  pose proof (Z.pow_pos_nonneg 10 (Z.of_nat n)). unfold checked_i128.
  destruct (try_range I128_MIN I128_MAX (v * 10)) as [w|] eqn:Hw; cbn [mbind option_bind].
  - apply try_range_some in Hw as [-> Hw]. by apply IH.
  - apply try_range_none in Hw. unfold try_range. symmetry.
    rewrite (proj2 (between_false _ _ _)); [done|]. unfold I128_MIN, I128_MAX in *. nia.
Qed.

(** Exact integers: [inline_to_i128] answers [v] precisely when the decimal
    [coefficient * 10 ^ -scale] is the integer [v] and [v] fits. *)
Theorem inline_to_i128_exact c s v :
  I128_MIN <= c <= I128_MAX → c ≠ 0 ∨ s <= 38 →
  inline_to_i128 c s = Some v ↔
  I128_MIN <= v <= I128_MAX ∧ v * 10 ^ (Z.max s 0) = c * 10 ^ (Z.max (- s) 0).
Proof.
  intros Hc Hs. unfold inline_to_i128. destruct (Z.compare_spec s 0) as [->|Hlt|Hgt].
  - change (Z.max 0 0) with 0. change (Z.max (- 0) 0) with 0. rewrite Z.pow_0_r, !Z.mul_1_r.
    split; [by intros [= <-]|intros [_ Heq]; by f_equal].
  - rewrite mul10_spec, Z2Nat.id, Z.max_r, Z.max_l, Z.pow_0_r, Z.mul_1_r by lia.
    split; [intros [Hv Hr]%try_range_some; subst v; by split|].
    intros [Hv Heq]. rewrite Heq in Hv |- *. by apply try_range_in.
  - rewrite mul10_spec, Z2Nat.id, Z.max_l, Z.max_r, Z.pow_0_r, Z.mul_1_r, Z.mul_1_l by (done || lia).
    pose proof (Z.pow_pos_nonneg 10 s ltac:(lia) ltac:(lia)) as Hpow.
    destruct (try_range I128_MIN I128_MAX (10 ^ s)) as [d|] eqn:Hd; cbn [mbind option_bind].
    + apply try_range_some in Hd as [-> _]. unfold rem_t, div_t.
      pose proof (Z.quot_rem' c (10 ^ s)) as Hqr. destruct (Z.eqb_spec (Z.rem c (10 ^ s)) 0) as [Hz|Hz].
      * split; [intros [= <-]|intros [_ Hv]; f_equal; nia].
        rewrite Hz in Hqr. split; [|lia]. unfold I128_MIN, I128_MAX in *. nia.
      * split; [done|]. intros [_ Hv]. destruct Hz. rewrite <- Hv. apply Z.rem_mul. lia.
    + split; [done|]. intros [_ Hv]. apply try_range_none in Hd. exfalso.
      assert (38 < s).
      { apply Z.nle_gt. intros Hle. pose proof (Z.pow_le_mono_r 10 s 38 ltac:(lia) Hle) as Hm.
        change (10 ^ 38) with 100000000000000000000000000000000000000 in Hm.
        unfold I128_MIN, I128_MAX in Hd. lia. }
      pose proof (Z.pow_le_mono_r 10 39 s ltac:(lia) ltac:(lia)) as Hm.
      change (10 ^ 39) with 1000000000000000000000000000000000000000 in Hm.
      assert (v ≠ 0) by (intros ->; destruct Hs; lia).
      unfold I128_MIN, I128_MAX in *. destruct (Z.lt_total v 0) as [?|[?|?]]; nia.
Qed.

Lemma inline_to_i128_exact_witness :
  inline_to_i128 12300 2 = Some 123 ↔
  I128_MIN <= 123 <= I128_MAX ∧ 123 * 10 ^ (Z.max 2 0) = 12300 * 10 ^ (Z.max (- 2) 0).
Proof. by apply (inline_to_i128_exact 12300 2 123); [|left]. Defined.
