(* ===== verification/Vector.v ===== *)
(** * VECTOR images ([vector.rs])

    The self-describing image of a VECTOR value: header, element values and the
    sparse index list, decoded under the resource policy.  Floats are bit
    patterns in the sortable wire form of [Datetime]. *)

From S2P Require Import Prelude.
From S2P Require Import Protocol.
From S2P Require Import Limits.
From S2P Require Import Writer.
From S2P Require Import Reader.
From S2P Require Import ReaderSafety.
From S2P Require Import Wire.
From S2P Require Import TimeZone.
From S2P Require Import Calendar.
From S2P Require Import Datetime.

Definition TNS_VECTOR_MAGIC_BYTE : Z := 219.
Definition TNS_VECTOR_VERSION_BASE : Z := 0.
Definition TNS_VECTOR_VERSION_WITH_BINARY : Z := 1.
Definition TNS_VECTOR_VERSION_WITH_SPARSE : Z := 2.
Definition TNS_VECTOR_FLAG_NORM : Z := 2.
Definition TNS_VECTOR_FLAG_NORM_RESERVED : Z := 16.
Definition TNS_VECTOR_FLAG_SPARSE : Z := 32.
Definition VECTOR_FORMAT_FLOAT32 : Z := 2.
Definition VECTOR_FORMAT_FLOAT64 : Z := 3.
Definition VECTOR_FORMAT_INT8 : Z := 4.
Definition VECTOR_FORMAT_BINARY : Z := 5.

Inductive VectorValues :=
| Float32 (v : list Z)
| Float64 (v : list Z)
| Int8 (v : list Z)
| Binary (v : list Z).

Definition values_format (v : VectorValues) : Z :=
  match v with
  | Float32 _ => VECTOR_FORMAT_FLOAT32
  | Float64 _ => VECTOR_FORMAT_FLOAT64
  | Int8 _ => VECTOR_FORMAT_INT8
  | Binary _ => VECTOR_FORMAT_BINARY
  end.

Definition values_len (v : VectorValues) : Z :=
  match v with Float32 v | Float64 v | Int8 v | Binary v => Zlen v end.

Inductive Vector :=
| Dense (values : VectorValues)
| Sparse (num_dimensions : Z) (indices : list Z) (values : VectorValues).

(** [[raw[0], .., raw[n-1]]]: out of range is a panic. *)
Definition array_of (n : Z) (raw : bytes) : Res bytes :=
  if n <=? Zlen raw then Ok (take (Z.to_nat n) raw) else Panic.

(** The module's own fixed-width reads. *)
Definition vec_read_u16be : ReaderM Z :=
  raw ← read_raw 2; a ← lift (array_of 2 raw); mret (from_be_bytes a).
Definition vec_read_u32be : ReaderM Z :=
  raw ← read_raw 4; a ← lift (array_of 4 raw); mret (from_be_bytes a).

(** [for _ in 0..count { out.push(m?) }] *)
Fixpoint read_n {A} (n : nat) (m : ReaderM A) : ReaderM (list A) :=
  match n with
  | O => mret []
  | S n => a ← m; l ← read_n n m; mret (a :: l)
  end.

(** The allocation check of [with_capacity_limited]; the vector it reserves is
    empty, so only its error matters. *)
Definition reserve (count per : Z) : ReaderM Z :=
  λ r, (with_capacity_limited r count per check_vector_dimensions, r).

Definition decode_values (count format : Z) : ReaderM VectorValues :=
  l ← gets limits;
  _ ← lift (check_vector_dimensions l count);
  if format =? VECTOR_FORMAT_FLOAT32 then
    _ ← reserve count 4;
    out ← read_n (Z.to_nat count)
            (raw ← read_raw 4; a ← lift (array_of 4 raw); mret (from_be_bytes (order_decode a)));
    mret (Float32 out)
  else if format =? VECTOR_FORMAT_FLOAT64 then
    _ ← reserve count 8;
    out ← read_n (Z.to_nat count)
            (raw ← read_raw 8; a ← lift (array_of 8 raw); mret (from_be_bytes (order_decode a)));
    mret (Float64 out)
  else if format =? VECTOR_FORMAT_INT8 then
    _ ← reserve count 1;
    out ← read_n (Z.to_nat count) (b ← read_u8; mret (as_i 8 b));
    mret (Int8 out)
  else if format =? VECTOR_FORMAT_BINARY then
    raw ← read_raw count; mret (Binary raw)
  else throw (TtcDecode "vector: unsupported element format").

Definition ensure_vector_image_fully_consumed : ReaderM () :=
  left ← gets remaining;
  if left =? 0 then mret () else throw (TtcDecode "vector: trailing bytes after image payload").

(** [decode_vector_with_limits] after the header: the sparse and the dense
    payload. *)
Definition decode_payload (l : ProtocolLimits) (flags format num_elements : Z) : ReaderM Vector :=
  if negb (Z.land flags TNS_VECTOR_FLAG_SPARSE =? 0) then
    num_sparse ← vec_read_u16be;
    _ ← lift (check_vector_dimensions l num_sparse);
    _ ← reserve num_sparse 4;
    indices ← read_n (Z.to_nat num_sparse) vec_read_u32be;
    values ← decode_values num_sparse format;
    _ ← ensure_vector_image_fully_consumed;
    mret (Sparse num_elements indices values)
  else if (format =? VECTOR_FORMAT_BINARY) && negb (num_elements mod 8 =? 0)
  then throw (TtcDecode "vector: binary dimension count is not byte-aligned")
  else
    let num_elements :=
      if format =? VECTOR_FORMAT_BINARY then num_elements / 8 else num_elements in
    values ← decode_values num_elements format;
    _ ← ensure_vector_image_fully_consumed;
    mret (Dense values).

(** [decode_vector_with_limits] after the reader is built. *)
Definition decode_image : ReaderM Vector :=
  magic ← read_u8;
  if negb (magic =? TNS_VECTOR_MAGIC_BYTE) then throw (TtcDecode "vector: bad magic byte")
  else
    version ← read_u8;
    if TNS_VECTOR_VERSION_WITH_SPARSE <? version
    then throw (TtcDecode "vector: unsupported version")
    else
      flags ← vec_read_u16be;
      format ← read_u8;
      num_elements ← vec_read_u32be;
      l ← gets limits;
      _ ← lift (check_vector_dimensions l num_elements);
      _ ← (if negb (Z.land flags TNS_VECTOR_FLAG_NORM_RESERVED =? 0)
              || negb (Z.land flags TNS_VECTOR_FLAG_NORM =? 0)
           then skip 8 else mret ());
      decode_payload l flags format num_elements.

Definition decode_vector_with_limits (data : bytes) (l : ProtocolLimits) : Res Vector :=
  _ ← check_response_bytes l (Zlen data);
  reader ← with_limits data l;
  (decode_image reader).1.

Definition decode_vector (data : bytes) : Res Vector := decode_vector_with_limits data limits_DEFAULT.

Definition encode_values (values : VectorValues) : bytes :=
  match values with
  | Float32 v => concat (map encode_binary_float v)
  | Float64 v => concat (map encode_binary_double v)
  | Int8 v => map (as_u 8) v
  | Binary v => v
  end.

Definition encode_vector_checked (vector : Vector) : Res bytes :=
  header ←
    (match vector with
     | Sparse num_dimensions _ values =>
         Ok (Z.lor TNS_VECTOR_FLAG_NORM_RESERVED (Z.lor TNS_VECTOR_FLAG_SPARSE TNS_VECTOR_FLAG_NORM),
             values_format values, TNS_VECTOR_VERSION_WITH_SPARSE, num_dimensions)
     | Dense values =>
         let format := values_format values in
         if format =? VECTOR_FORMAT_BINARY then
           bits ← arith 0 U32_MAX (as_u 32 (values_len values) * 8);
           Ok (TNS_VECTOR_FLAG_NORM_RESERVED, format, TNS_VECTOR_VERSION_WITH_BINARY, bits)
         else
           Ok (Z.lor TNS_VECTOR_FLAG_NORM_RESERVED TNS_VECTOR_FLAG_NORM, format,
               TNS_VECTOR_VERSION_BASE, as_u 32 (values_len values))
     end);
  let '(flags, format, version, num_elements) := header in
  let buf := [TNS_VECTOR_MAGIC_BYTE; version] ++ to_be_bytes 2 flags ++ [format] ++
             to_be_bytes 4 num_elements ++ repeat 0 8 in
  match vector with
  | Dense values => Ok (buf ++ encode_values values)
  | Sparse _ indices values =>
      if negb (Zlen indices =? values_len values)
      then Err (TtcDecode "vector: sparse index/value count mismatch")
      else
        num_sparse ← ok_or (try_range 0 U16_MAX (Zlen indices)) (InvalidPacketLength (Zlen indices) 0);
        Ok (buf ++ to_be_bytes 2 num_sparse ++ concat (map (to_be_bytes 4) indices) ++
            encode_values values)
  end.

Definition encode_vector (vector : Vector) : Res bytes :=
  match encode_vector_checked vector with
  | Ok image => Ok image
  | Err _ => Panic
  | Panic => Panic
  | Diverge => Diverge
  end.

(** ** Well-typed vectors and their image *)

Definition values_ok (v : VectorValues) : Prop :=
  match v with
  | Float32 v => Forall (λ x, 0 <= x <= U32_MAX) v
  | Float64 v => Forall (λ x, 0 <= x <= U64_MAX) v
  | Int8 v => Forall (λ x, -128 <= x <= 127) v
  | Binary v => bytes_ok v
  end.

(** The count in the header. *)
Definition header_count (v : Vector) : Z :=
  match v with
  | Dense (Binary b) => Zlen b * 8
  | Dense values => values_len values
  | Sparse num_dimensions _ _ => num_dimensions
  end.

(** A value of the Rust type whose dimensions the policy admits. *)
Definition vector_ok (l : ProtocolLimits) (v : Vector) : Prop :=
  0 <= header_count v <= U32_MAX ∧ header_count v <= max_vector_dimensions l ∧
  match v with
  | Dense values => values_ok values
  | Sparse _ indices values => values_ok values ∧ Forall (λ i, 0 <= i <= U32_MAX) indices ∧
      Zlen indices = values_len values ∧ Zlen indices <= U16_MAX ∧
      Zlen indices <= max_vector_dimensions l
  end.

#[global] Instance values_ok_dec v : Decision (values_ok v).
Proof. destruct v; cbn; apply _. Defined.
#[global] Instance vector_ok_dec l v : Decision (vector_ok l v).
Proof. unfold vector_ok. destruct v; apply _. Defined.

Definition image_header (version flags format count : Z) : bytes :=
  [TNS_VECTOR_MAGIC_BYTE; version] ++ to_be_bytes 2 flags ++ [format] ++ to_be_bytes 4 count ++
  repeat 0 8.

Definition image (v : Vector) : bytes :=
  match v with
  | Dense values =>
      (match values with
       | Binary _ => image_header 1 16 5 (header_count v)
       | _ => image_header 0 18 (values_format values) (header_count v)
       end) ++ encode_values values
  | Sparse n indices values =>
      image_header 2 50 (values_format values) n ++ to_be_bytes 2 (Zlen indices) ++
      concat (map (to_be_bytes 4) indices) ++ encode_values values
  end.

Lemma encode_vector_run l v : vector_ok l v → encode_vector_checked v = Ok (image v).
Proof.
  unfold vector_ok. intros (Hc & _ & Hv). unfold encode_vector_checked.
  destruct v as [values|n indices values].
  - destruct values as [v|v|v|v]; cbn [values_format values_len header_count] in *; cbn [Z.eqb Pos.eqb
      VECTOR_FORMAT_FLOAT32 VECTOR_FORMAT_FLOAT64 VECTOR_FORMAT_INT8 VECTOR_FORMAT_BINARY].
    1-3: st_run; rewrite as_u_in by (unfold U32_MAX in Hc; lia); reflexivity.
    pose proof (Zlen_nonneg v). unfold U32_MAX in *. rewrite as_u_in by lia. arith_step. reflexivity.
  - destruct Hv as (_ & _ & Heq & H16 & _). st_run. rewrite Heq, Z.eqb_refl. cbn [negb].
    rewrite Heq in H16. rewrite try_range_in
      by (split; [rewrite <- Heq; apply Zlen_nonneg|done]). st_run. cbn [image]. by rewrite Heq.
Qed.

(** ** Reading the image back *)

(** The result of [m] when [enc] is read and [rest] is left over. *)
Definition runs {A} (lim : ProtocolLimits) (m : ReaderM A) (enc rest : bytes) (res : Res A) : Prop :=
  ∀ pre, Zlen (pre ++ enc ++ rest) <= I64_MAX → (m (rd lim pre (enc ++ rest))).1 = res.

Section Image.
Context (lim : ProtocolLimits) (Hlim : 8 <= max_response_bytes lim).

Lemma runs_bind {A B} (m : ReaderM A) (f : A → ReaderM B) e1 e2 rest a res :
  parses lim m e1 a → runs lim (f a) e2 rest res → runs lim (m ≫= f) (e1 ++ e2) rest res.
Proof.
  intros Hm Hf pre Hlen. rewrite <- !app_assoc in *. st_run. rewrite Hm by done.
  apply Hf. by rewrite <- app_assoc.
Qed.

Lemma runs_bind_nil {A B} (m : ReaderM A) (f : A → ReaderM B) e rest a res :
  parses lim m [] a → runs lim (f a) e rest res → runs lim (m ≫= f) e rest res.
Proof. apply (runs_bind m f [] e). Qed.

Lemma array_of_run n b : Zlen b = n → array_of n b = Ok b.
Proof.
  intros <-. unfold array_of. rewrite Z.leb_refl. f_equal. apply take_ge. unfold Zlen. lia.
Qed.

(** A fixed-width field converted by [g]. *)
Lemma fixed_parses {A} (n : Z) b (g : bytes → A) :
  Zlen b = n → n <= 8 →
  parses lim (raw ← read_raw n; a ← lift (array_of n raw); mret (g a)) b (g b).
Proof.
  intros Hn H8. rewrite <- (app_nil_r b) at 1.
  eapply parses_bind; [apply read_raw_parses'; [done|lia]|].
  eapply parses_bind_nil; [apply parses_lift; by apply array_of_run|]. apply parses_ret.
Qed.

Lemma vec_u16_parses v : 0 <= v <= U16_MAX → parses lim vec_read_u16be (to_be_bytes 2 v) v.
Proof.
  intros Hv. rewrite <- (from_to_be_bytes 2 v) at 2
    by (unfold U16_MAX in Hv; change (256 ^ Z.of_nat 2) with 65536; lia).
  apply (fixed_parses 2 _ from_be_bytes); [by rewrite Zlen_to_be_bytes|lia].
Qed.

Lemma vec_u32_parses v : 0 <= v <= U32_MAX → parses lim vec_read_u32be (to_be_bytes 4 v) v.
Proof.
  intros Hv. rewrite <- (from_to_be_bytes 4 v) at 2
    by (unfold U32_MAX in Hv; change (256 ^ Z.of_nat 4) with 4294967296; lia).
  apply (fixed_parses 4 _ from_be_bytes); [by rewrite Zlen_to_be_bytes|lia].
Qed.

Lemma read_n_parses {A} (m : ReaderM A) (enc : A → bytes) l :
  Forall (λ x, parses lim m (enc x) x) l →
  parses lim (read_n (length l) m) (concat (map enc l)) l.
Proof.
  induction 1 as [|x l Hx _ IH]; cbn [length read_n map concat]; [apply parses_ret|].
  eapply parses_bind; [done|]. rewrite <- (app_nil_r (concat (map enc l))).
  eapply parses_bind; [done|]. apply parses_ret.
Qed.

Lemma parses_reserve {B} count per (f : Z → ReaderM B) e b :
  count <= max_vector_dimensions lim → (∀ c, parses lim (f c) e b) →
  parses lim (reserve count per ≫= f) e b.
Proof.
  intros Hc Hf pre rest Hlen. st_run. unfold reserve, with_capacity_limited.
  unfold check_vector_dimensions. rewrite check_ok by done. st_run. by apply Hf.
Qed.

Lemma order_field n bits :
  0 <= bits < 256 ^ Z.of_nat n →
  from_be_bytes (order_decode (order_encode (to_be_bytes n bits))) = bits.
Proof. intros. rewrite order_decode_encode by apply to_be_bytes_ok. by apply from_to_be_bytes. Qed.

Lemma order_parses n bits :
  (n <= 8)%nat → 0 <= bits < 256 ^ Z.of_nat n →
  parses lim (raw ← read_raw (Z.of_nat n); a ← lift (array_of (Z.of_nat n) raw);
              mret (from_be_bytes (order_decode a))) (order_encode (to_be_bytes n bits)) bits.
Proof.
  intros Hn Hb. rewrite <- (order_field n bits Hb) at 2.
  apply (fixed_parses (Z.of_nat n) _ (λ a, from_be_bytes (order_decode a)));
    [by rewrite order_encode_length, Zlen_to_be_bytes|lia].
Qed.

Lemma decode_values_parses v :
  values_ok v → values_len v <= max_vector_dimensions lim →
  Zlen (encode_values v) <= max_response_bytes lim →
  parses lim (decode_values (values_len v) (values_format v)) (encode_values v) v.
Proof.
  intros Hok Hdim Hresp. unfold decode_values.
  eapply parses_bind_nil; [apply parses_limits|].
  eapply parses_bind_nil; [apply parses_lift; unfold check_vector_dimensions; by rewrite check_ok|].
  destruct v as [v|v|v|v]; cbn [values_format values_len encode_values values_ok] in *;
    cbn [Z.eqb Pos.eqb VECTOR_FORMAT_FLOAT32 VECTOR_FORMAT_FLOAT64 VECTOR_FORMAT_INT8 VECTOR_FORMAT_BINARY].
  - apply parses_reserve; [done|]. intros _. replace (Z.to_nat (Zlen v)) with (length v) by (unfold Zlen; lia).
    rewrite <- (app_nil_r (concat _)). eapply parses_bind; [|apply parses_ret].
    apply read_n_parses. eapply Forall_impl; [|exact Hok]. intros x Hx.
    apply (order_parses 4); [lia|]. change (256 ^ Z.of_nat 4) with 4294967296.
    unfold U32_MAX in Hx. lia.
  - apply parses_reserve; [done|]. intros _. replace (Z.to_nat (Zlen v)) with (length v) by (unfold Zlen; lia).
    rewrite <- (app_nil_r (concat _)). eapply parses_bind; [|apply parses_ret].
    apply read_n_parses. eapply Forall_impl; [|exact Hok]. intros x Hx.
    apply (order_parses 8); [lia|]. change (256 ^ Z.of_nat 8) with 18446744073709551616.
    unfold U64_MAX in Hx. lia.
  - apply parses_reserve; [done|]. intros _. replace (Z.to_nat (Zlen v)) with (length v) by (unfold Zlen; lia).
    rewrite <- (app_nil_r (map _ v)). eapply parses_bind; [|apply parses_ret].
    replace (map (as_u 8) v) with (concat (map (λ x, [as_u 8 x]) v))
      by (clear; induction v as [|x v IH]; cbn; [done|by rewrite IH]).
    apply read_n_parses. eapply Forall_impl; [|exact Hok]. intros x Hx. cbn beta in Hx.
    apply (parses_bind lim _ _ [as_u 8 x] [] (as_u 8 x) x); [apply read_u8_parses|].
    replace x with (as_i 8 (as_u 8 x)) at 2; [apply parses_ret|].
    unfold as_i, as_u. rewrite Zplus_mod_idemp_l. apply (as_i_in 8 x); lia.
  - rewrite <- (app_nil_r v) at 2. eapply parses_bind; [by apply read_raw_parses|apply parses_ret].
Qed.

Lemma consumed_runs {B} (v : B) rest :
  runs lim (_ ← ensure_vector_image_fully_consumed; mret v) [] rest
    (if bool_decide (rest = []) then Ok v
     else Err (TtcDecode "vector: trailing bytes after image payload")).
Proof.
  intros pre Hlen. unfold ensure_vector_image_fully_consumed. st_run.
  assert (remaining (rd lim pre ([] ++ rest)) = Zlen rest) as ->.
  { unfold remaining, rd, sat_sub. cbn [r_bytes pos app]. rewrite Zlen_app.
    pose proof (Zlen_nonneg rest). lia. }
  destruct rest as [|b rest]; [done|]. rewrite bool_decide_eq_false_2 by done.
  autorewrite with thin. pose proof (Zlen_nonneg rest).
  by rewrite (proj2 (Z.eqb_neq _ 0)) by lia.
Qed.
Lemma skip8_parses : parses lim (skip 8) (repeat 0 8) ().
Proof.
  unfold skip. rewrite <- (app_nil_r (repeat 0 8)).
  eapply parses_bind; [apply read_raw_parses'; [done|exact Hlim]|apply parses_ret].
Qed.

Lemma header_runs version flags format count e rest res :
  0 <= version <= 2 → flags ∈ [16; 18; 50] → 0 <= count <= U32_MAX →
  count <= max_vector_dimensions lim →
  runs lim (decode_payload lim flags format count) e rest res →
  runs lim decode_image (image_header version flags format count ++ e) rest res.
Proof.
  intros Hv Hf Hc Hd Hrun. unfold decode_image, image_header.
  assert (0 <= flags <= U16_MAX ∧ negb (Z.land flags TNS_VECTOR_FLAG_NORM_RESERVED =? 0) = true)
    as [Hf16 Hbit].
  { rewrite !elem_of_cons, elem_of_nil in Hf. by destruct_or! Hf; subst. }
  rewrite <- !app_assoc. change ([TNS_VECTOR_MAGIC_BYTE; version] ++ ?k)
    with ([TNS_VECTOR_MAGIC_BYTE] ++ [version] ++ k).
  eapply runs_bind; [apply read_u8_parses|]. rewrite Z.eqb_refl. cbn [negb].
  eapply runs_bind; [apply read_u8_parses|].
  rewrite (proj2 (Z.ltb_ge _ _)) by (unfold TNS_VECTOR_VERSION_WITH_SPARSE; lia).
  eapply runs_bind; [by apply vec_u16_parses|].
  eapply runs_bind; [apply read_u8_parses|].
  eapply runs_bind; [by apply vec_u32_parses|].
  eapply runs_bind_nil; [apply parses_limits|].
  eapply runs_bind_nil; [apply parses_lift; unfold check_vector_dimensions; by rewrite check_ok|].
  rewrite Hbit. cbn [orb]. eapply runs_bind; [apply skip8_parses|]. done.
Qed.

Lemma dense_runs values rest :
  values_ok values → values_len values <= max_vector_dimensions lim →
  Zlen (encode_values values) <= max_response_bytes lim →
  runs lim (values ← decode_values (values_len values) (values_format values);
            _ ← ensure_vector_image_fully_consumed; mret (Dense values))
    (encode_values values) rest
    (if bool_decide (rest = []) then Ok (Dense values)
     else Err (TtcDecode "vector: trailing bytes after image payload")).
Proof.
  intros. rewrite <- (app_nil_r (encode_values values)).
  eapply runs_bind; [by apply decode_values_parses|]. apply consumed_runs.
Qed.

Lemma image_runs v rest :
  vector_ok lim v → Zlen (image v) <= max_response_bytes lim →
  runs lim decode_image (image v) rest
    (if bool_decide (rest = []) then Ok v
     else Err (TtcDecode "vector: trailing bytes after image payload")).
Proof.
  intros (Hc & Hd & Hv) Hresp. destruct v as [values|n indices values].
  - assert (Zlen (encode_values values) <= max_response_bytes lim) as Hr.
    { cbn [image] in Hresp. rewrite Zlen_app in Hresp.
      pose proof (Zlen_nonneg (match values with
        | Binary _ => image_header 1 16 5 (header_count (Dense values))
        | _ => image_header 0 18 (values_format values) (header_count (Dense values)) end)). lia. }
    destruct values as [v|v|v|v]; cbn [image header_count values_len values_format] in *.
    1: apply header_runs; [lia|by apply (bool_decide_unpack _)|done|done|];
      exact (dense_runs (Float32 v) rest Hv Hd Hr).
    1: apply header_runs; [lia|by apply (bool_decide_unpack _)|done|done|];
      exact (dense_runs (Float64 v) rest Hv Hd Hr).
    1: apply header_runs; [lia|by apply (bool_decide_unpack _)|done|done|];
      exact (dense_runs (Int8 v) rest Hv Hd Hr).
    apply header_runs; [lia|by apply (bool_decide_unpack _)|done|done|].
    unfold decode_payload. change (Z.land 16 TNS_VECTOR_FLAG_SPARSE =? 0) with true.
    change (5 =? VECTOR_FORMAT_BINARY) with true. cbn [negb andb].
    rewrite Z_mod_mult, Z_div_mult by lia. change (0 =? 0) with true. cbn [negb].
    apply (dense_runs (Binary v)); [done|cbn; pose proof (Zlen_nonneg v); lia|done].
  - destruct Hv as (Hok & Hidx & Hlen & H16 & Hdim). cbn [image header_count] in *.
    rewrite !Zlen_app in Hresp. pose proof (Zlen_nonneg indices).
    apply header_runs; [lia|by apply (bool_decide_unpack _)|done|done|].
    unfold decode_payload. change (Z.land 50 TNS_VECTOR_FLAG_SPARSE =? 0) with false. cbn [negb].
    eapply runs_bind; [by apply vec_u16_parses|].
    eapply runs_bind_nil; [apply parses_lift; unfold check_vector_dimensions; by rewrite check_ok|].
    intros pre Hpre. st_run. unfold reserve at 1, with_capacity_limited, check_vector_dimensions.
    rewrite check_ok by done. st_run. revert pre Hpre.
    change (runs lim (indices0 ← read_n (Z.to_nat (Zlen indices)) vec_read_u32be;
      values0 ← decode_values (Zlen indices) (values_format values);
      _ ← ensure_vector_image_fully_consumed; mret (Sparse n indices0 values0))
      (concat (map (to_be_bytes 4) indices) ++ encode_values values) rest
      (if bool_decide (rest = []) then Ok (Sparse n indices values)
       else Err (TtcDecode "vector: trailing bytes after image payload"))).
    replace (Z.to_nat (Zlen indices)) with (length indices) by (unfold Zlen; lia).
    eapply runs_bind.
    { apply read_n_parses. eapply Forall_impl; [|exact Hidx]. intros i Hi. by apply vec_u32_parses. }
    rewrite Hlen, <- (app_nil_r (encode_values values)).
    eapply runs_bind; [apply decode_values_parses; [done|lia|]|apply consumed_runs].
    pose proof (Zlen_nonneg (image_header 2 50 (values_format values) n)).
    pose proof (Zlen_nonneg (to_be_bytes 2 (Zlen indices))).
    pose proof (Zlen_nonneg (concat (map (to_be_bytes 4) indices))). lia.
Qed.
End Image.

Lemma decode_image_run l v extra :
  limits_usize l → limits_valid l → 8 <= max_response_bytes l → vector_ok l v →
  Zlen (image v ++ extra) <= max_frame_bytes l → Zlen (image v ++ extra) <= I64_MAX →
  decode_vector_with_limits (image v ++ extra) l =
    if bool_decide (extra = []) then Ok v
    else Err (TtcDecode "vector: trailing bytes after image payload").
Proof.
  intros Hu Hv H8 Hok Hf Hmax. pose proof Hv as (_ & Hle).
  unfold decode_vector_with_limits, with_limits.
  unfold check_response_bytes, check_frame_bytes. rewrite check_ok by lia. st_run.
  rewrite (validate_valid_ok l Hu Hv). st_run. rewrite !check_ok by lia. st_run.
  pose proof (Zlen_nonneg extra). rewrite Zlen_app in Hf.
  assert (Zlen (image v) <= max_response_bytes l) as Hresp by lia.
  exact (image_runs l H8 v extra Hok Hresp [] Hmax).
Qed.

(** C31: VECTOR images round trip: every well-typed dense or sparse vector that
    the resource policy admits encodes, and decoding the image gives back the
    vector, float bit patterns included. *)
Theorem vector_roundtrip l v :
  limits_usize l → limits_valid l → 8 <= max_response_bytes l → vector_ok l v →
  ∃ data, encode_vector_checked v = Ok data ∧
    (Zlen data <= max_frame_bytes l → Zlen data <= I64_MAX → decode_vector_with_limits data l = Ok v).
Proof.
  intros Hu Hv H8 Hok. exists (image v). split; [by apply (encode_vector_run l)|].
  intros Hf Hmax. pose proof (decode_image_run l v []) as H. rewrite app_nil_r in H. by apply H.
Qed.

Lemma vector_roundtrip_witness :
  ∃ data, encode_vector_checked (Sparse 16 [3; 9] (Float32 [3212836864; 1073741824])) = Ok data ∧
    (Zlen data <= max_frame_bytes limits_DEFAULT → Zlen data <= I64_MAX →
     decode_vector_with_limits data limits_DEFAULT =
       Ok (Sparse 16 [3; 9] (Float32 [3212836864; 1073741824]))).
Proof.
  apply (vector_roundtrip limits_DEFAULT); [apply limits_DEFAULT_valid..|done|].
  apply (bool_decide_unpack _). by vm_compute.
Defined.

(** The decoder is fail-closed at the end of the image: bytes after a valid
    image are refused, whatever they are. *)
Theorem vector_trailing_rejected l v extra :
  limits_usize l → limits_valid l → 8 <= max_response_bytes l → vector_ok l v → extra ≠ [] →
  Zlen (image v ++ extra) <= max_frame_bytes l → Zlen (image v ++ extra) <= I64_MAX →
  decode_vector_with_limits (image v ++ extra) l =
    Err (TtcDecode "vector: trailing bytes after image payload").
Proof.
  intros Hu Hv H8 Hok Hne Hf Hmax. pose proof (decode_image_run l v extra) as H.
  rewrite bool_decide_eq_false_2 in H by done. by apply H.
Qed.

Lemma vector_trailing_rejected_witness :
  decode_vector_with_limits (image (Dense (Int8 [-1; 2])) ++ [0]) limits_DEFAULT =
    Err (TtcDecode "vector: trailing bytes after image payload").
Proof.
  apply (vector_trailing_rejected limits_DEFAULT); [apply limits_DEFAULT_valid..|done| |done|done|done].
  apply (bool_decide_unpack _). by vm_compute.
Defined.

(** ** Hostile images *)

Lemma array_of_sound n b (Q : bytes → Prop) :
  0 <= n → Q b → Zlen b = n → sound 0 (lift (array_of n b)) (λ a, Q a ∧ Zlen a = n).
Proof.
  intros Hn HQ Hl. rewrite array_of_run by done. apply sound_lift; [done|]. by intros a [= <-].
Qed.

Lemma vec_u16_sound : sound 2 vec_read_u16be (λ v, 0 <= v <= U16_MAX).
Proof.
  unfold vec_read_u16be. sound_next. destruct H as [Hb Hl].
  eapply sound_seq; [by apply (array_of_sound _ _ bytes_ok)|]. intros b [Hb' Hl'].
  apply sound_done; [lia|]. pose proof (be_array_range 2 b Hb' Hl'). unfold U16_MAX. lia.
Qed.

Lemma vec_u32_sound : sound 4 vec_read_u32be (λ v, 0 <= v <= U32_MAX).
Proof.
  unfold vec_read_u32be. sound_next. destruct H as [Hb Hl].
  eapply sound_seq; [by apply (array_of_sound _ _ bytes_ok)|]. intros b [Hb' Hl'].
  apply sound_done; [lia|]. pose proof (be_array_range 4 b Hb' Hl'). unfold U32_MAX. lia.
Qed.

Lemma order_decode_ok (b : bytes) : bytes_ok b → bytes_ok (order_decode b) ∧ Zlen (order_decode b) = Zlen b.
Proof.
  intros Hok. destruct b as [|x b]; [done|]. apply Forall_cons_iff in Hok as [Hx Hb].
  destruct (sign_bit x Hx) as (Hs & _ & Hhi). unfold is_u8 in Hx. unfold order_decode. rewrite Hs.
  destruct (Z.ltb_spec x 128); cbn [negb].
  - split; [|unfold Zlen; by rewrite length_map]. cbn [map]. apply Forall_cons_iff.
    split; [unfold is_u8, not_u8; lia|]. apply Forall_map. eapply Forall_impl; [|exact Hb].
    unfold is_u8, not_u8. lia.
  - split; [|done]. apply Forall_cons_iff. split; [|done]. unfold is_u8. rewrite Hhi by lia. lia.
Qed.

Lemma float_sound n :
  0 <= n → sound n (raw ← read_raw n; a ← lift (array_of n raw); mret (from_be_bytes (order_decode a)))
    (λ v, 0 <= v < 256 ^ n).
Proof.
  intros Hn. sound_next. destruct H as [Hb Hl].
  eapply sound_seq; [by apply (array_of_sound _ _ bytes_ok)|]. intros b [Hb' Hl'].
  apply sound_done; [lia|]. destruct (order_decode_ok b Hb') as [Ho Hlo].
  apply be_array_range; [done|lia].
Qed.

Lemma read_n_sound {A} n (m : ReaderM A) k Q :
  0 <= k → sound k m Q → sound 0 (read_n n m) (λ l, Forall Q l ∧ length l = n).
Proof.
  intros Hk Hm. induction n as [|n IH]; cbn [read_n]; [by apply sound_done|].
  eapply sound_seq; [exact Hm|]. intros a Ha.
  eapply sound_seq; [exact IH|]. intros l [Hl Hn]. apply sound_done; [lia|].
  split; [by constructor|cbn; lia].
Qed.

Lemma reserve_sound count per : sound 0 (reserve count per) (λ _, True).
Proof.
  apply sound_stay. intros r _. unfold reserve. eexists. split; [done|].
  unfold with_capacity_limited, check_vector_dimensions, check. by destruct (_ <=? _).
Qed.

Lemma check_dims_sound l n : sound 0 (lift (check_vector_dimensions l n)) (λ _, True).
Proof. eapply sound_weaken; [|auto|apply check_sound]. lia. Qed.

#[export] Hint Resolve vec_u16_sound vec_u32_sound reserve_sound check_dims_sound : sound.

Lemma decode_values_sound count format :
  0 <= count → sound 0 (decode_values count format) (λ v, values_ok v ∧ values_len v = count).
Proof.
  intros Hc. unfold decode_values. do 2 sound_next.
  destruct (format =? VECTOR_FORMAT_FLOAT32); [|destruct (format =? VECTOR_FORMAT_FLOAT64);
    [|destruct (format =? VECTOR_FORMAT_INT8);
      [|destruct (format =? VECTOR_FORMAT_BINARY); [|apply sound_throw]]]].
  - sound_next. eapply sound_seq; [apply (read_n_sound _ _ 4); [lia|by apply float_sound]|].
    intros l [Hl Hn]. apply sound_done; [lia|]. cbn. split; [|unfold Zlen; lia].
    eapply Forall_impl; [|exact Hl]. intros x Hx. cbn beta in Hx.
    change (256 ^ 4) with 4294967296 in Hx. unfold U32_MAX. lia.
  - sound_next. eapply sound_seq; [apply (read_n_sound _ _ 8); [lia|by apply float_sound]|].
    intros l [Hl Hn]. apply sound_done; [lia|]. cbn. split; [|unfold Zlen; lia].
    eapply Forall_impl; [|exact Hl]. intros x Hx. cbn beta in Hx.
    change (256 ^ 8) with 18446744073709551616 in Hx. unfold U64_MAX. lia.
  - sound_next. eapply sound_seq; [apply (read_n_sound _ _ 1 (λ x, -128 <= x <= 127)); [lia|]|].
    { sound_next. apply sound_done; [lia|]. pose proof (as_i_range 8 a2). lia. }
    intros l [Hl Hn]. apply sound_done; [lia|]. cbn. split; [done|unfold Zlen; lia].
  - eapply sound_seq; [by apply read_raw_sound|]. intros b [Hb Hl].
    apply sound_done; [lia|]. by split.
Qed.

Lemma consumed_sound : sound 0 ensure_vector_image_fully_consumed (λ _, True).
Proof. unfold ensure_vector_image_fully_consumed. sound_run. Qed.
#[export] Hint Resolve consumed_sound : sound.

(** What any accepted image denotes. *)
Definition decoded_vector_ok (v : Vector) : Prop :=
  match v with
  | Dense values => values_ok values
  | Sparse n indices values => values_ok values ∧ 0 <= n <= U32_MAX ∧
      Forall (λ i, 0 <= i <= U32_MAX) indices ∧ Zlen indices = values_len values
  end.

Lemma decode_payload_sound l flags format n :
  0 <= n <= U32_MAX → sound 0 (decode_payload l flags format n) decoded_vector_ok.
Proof.
  intros Hn. unfold decode_payload. destruct (negb _).
  - do 3 sound_next. rename H into Hs. eapply sound_seq.
    { apply (read_n_sound _ _ 4); [lia|apply vec_u32_sound]. }
    intros idx [Hidx Hlen]. eapply sound_seq; [apply decode_values_sound; lia|].
    intros values [Hv Hvl]. sound_next. apply sound_done; [lia|]. cbn.
    split; [done|]. split; [done|]. split; [done|]. unfold Zlen. lia.
  - destruct (_ && _); [apply sound_throw|]. cbn zeta.
    eapply sound_seq; [apply decode_values_sound|].
    { destruct (_ =? _); [apply Z.div_pos; lia|lia]. }
    intros values [Hv _]. sound_next. apply sound_done; [lia|done].
Qed.

Lemma norm_skip_sound (b : bool) : sound 0 (if b then skip 8 else mret ()) (λ _, True).
Proof. destruct b; [unfold skip; sound_next; by apply sound_done|by apply sound_done]. Qed.
#[export] Hint Resolve norm_skip_sound : sound.

Lemma decode_image_sound : sound 0 decode_image decoded_vector_ok.
Proof.
  unfold decode_image. sound_run.
  apply (sound_weaken 0 _ _ decoded_vector_ok); [lia|done|by apply decode_payload_sound].
Qed.

Lemma decode_vector_post l data :
  limits_usize l → bytes_ok data → Zlen data <= I64_MAX →
  post decoded_vector_ok (decode_vector_with_limits data l).
Proof.
  intros Hu Hok Hlen. unfold decode_vector_with_limits, with_limits.
  unfold check_response_bytes, check_frame_bytes, check.
  destruct (_ <=? _); [|done]. st_run. pose proof (validate_returns l) as Hv.
  destruct (validate l) as [l'|e| |]; [|done..]. st_run. destruct (_ <=? max_frame_bytes l'); [|done].
  st_run. destruct (_ <=? max_response_bytes l'); [|done]. st_run.
  destruct (decode_image_sound (mkTtcReader data 0 l')) as (Hret & _ & Hpost).
  { pose proof (Zlen_nonneg data). repeat split; cbn; [done|lia..]. }
  unfold returns, post in *. destruct (decode_image _).1; try done. by apply (Hpost a).
Qed.

(** Decoding a hostile VECTOR image returns: on every byte string, under any
    valid policy, the result is an error or a well-typed vector, sparse ones
    with as many indices as values; no read leaves the buffer, no index panics
    and no count makes the loops run on. *)
Theorem vector_decode_total l data :
  limits_usize l → bytes_ok data → Zlen data <= I64_MAX →
  post decoded_vector_ok (decode_vector_with_limits data l).
Proof. apply decode_vector_post. Qed.

Lemma vector_decode_total_witness :
  post decoded_vector_ok (decode_vector_with_limits [219; 0; 0; 18; 2; 255; 255; 255; 255] limits_DEFAULT).
Proof.
  apply (vector_decode_total limits_DEFAULT [219; 0; 0; 18; 2; 255; 255; 255; 255]);
    [apply limits_DEFAULT_valid|apply (bool_decide_unpack _); by vm_compute|done].
Defined.
