(* ===== verification/Lifecycle.v ===== *)
(** * The pure pool lifecycle ([pool.rs], module [lifecycle])

    The state machine of pool slots and waiters: every transition of
    [PurePoolState], its effects queue and its history, and what is invariant
    in every state the transitions can reach.  Slot and waiter identities are
    [u64] counters that start at 1 and count up by one; they are kept exact. *)

From stdpp Require Import pretty relations.
From S2P Require Import Prelude.

Inductive PoolCloseReason := Reap | Graceful | Force | Unhealthy.

Inductive PoolEffect :=
| OpenEffect (slot : Z) (waiter : option Z)
| PingEffect (slot waiter : Z)
| CloseEffect (slot : Z) (reason : PoolCloseReason).

Inductive PoolSlotState :=
| Opening (waiter : option Z)
| Idle
| CheckedOut (waiter : Z)
| Validating (waiter : option Z)
| Retiring
| Closing
| Closed.

#[global] Instance slot_state_eq_dec : EqDecision PoolSlotState.
Proof. solve_decision. Defined.

Inductive PoolLifecycleError :=
| BusyErr
| ClosedErr
| UnknownSlot (slot : Z)
| InvalidState (slot : Z) (state : PoolSlotState) (action : string).

Record PoolCounts := mkCounts {
  c_opening : Z; c_idle : Z; c_checked_out : Z; c_validating : Z;
  c_retiring : Z; c_closing : Z; c_closed : Z; c_waiters : Z
}.

Record PoolSlot := mkSlot { slot_id : Z; slot_state : PoolSlotState }.

Record PurePoolState := mkPure {
  pmin : Z;
  pmax : Z;
  slots : list PoolSlot;
  waiters : list Z;
  effects : list PoolEffect;
  history : list string;
  closing : bool;
  next_slot : Z;
  next_waiter : Z
}.

Abbreviation PoolM := (ST PoolLifecycleError PurePoolState).

(** ** Field updates *)

Definition set_slots (l : list PoolSlot) (s : PurePoolState) : PurePoolState :=
  mkPure (pmin s) (pmax s) l (waiters s) (effects s) (history s) (closing s) (next_slot s)
    (next_waiter s).
Definition set_waiters (l : list Z) (s : PurePoolState) : PurePoolState :=
  mkPure (pmin s) (pmax s) (slots s) l (effects s) (history s) (closing s) (next_slot s)
    (next_waiter s).
Definition set_closing (b : bool) (s : PurePoolState) : PurePoolState :=
  mkPure (pmin s) (pmax s) (slots s) (waiters s) (effects s) (history s) b (next_slot s)
    (next_waiter s).
Definition push_effect (e : PoolEffect) (s : PurePoolState) : PurePoolState :=
  mkPure (pmin s) (pmax s) (slots s) (waiters s) (effects s ++ [e]) (history s) (closing s)
    (next_slot s) (next_waiter s).
Definition push_history (h : string) (s : PurePoolState) : PurePoolState :=
  mkPure (pmin s) (pmax s) (slots s) (waiters s) (effects s) (history s ++ [h]) (closing s)
    (next_slot s) (next_waiter s).
Definition set_state_at (ix : nat) (st : PoolSlotState) (s : PurePoolState) : PurePoolState :=
  set_slots (alter (λ sl, mkSlot (slot_id sl) st) ix (slots s)) s.

(** [{:?}] of an [Option<u64>] and [{}] of a [bool]. *)
Definition debug_waiter (w : option Z) : string :=
  match w with Some w => "Some(" +:+ pretty w +:+ ")" | None => "None" end.
Definition show_bool (b : bool) : string := if b then "true" else "false".

(** ** Helpers *)

Definition is_closed (st : PoolSlotState) : bool :=
  match st with Closed => true | _ => false end.
Definition is_idle (st : PoolSlotState) : bool :=
  match st with Idle => true | _ => false end.

Definition live_slot_count (s : PurePoolState) : Z :=
  Zlen (filter (λ sl, is_closed (slot_state sl) = false) (slots s)).

Definition open_slot (waiter : option Z) (s : PurePoolState) : PurePoolState :=
  let slot := next_slot s in
  push_history ("open slot=" +:+ pretty slot +:+ " waiter=" +:+ debug_waiter waiter)
    (push_effect (OpenEffect slot waiter)
       (mkPure (pmin s) (pmax s) (slots s ++ [mkSlot slot (Opening waiter)]) (waiters s) (effects s)
          (history s) (closing s) (next_slot s + 1) (next_waiter s))).

(** [slots.iter().position(|slot| matches!(slot.state, Idle))] *)
Definition idle_position (s : PurePoolState) : option (nat * PoolSlot) :=
  list_find (λ sl, is_idle (slot_state sl) = true) (slots s).

(** The loop of [drive_waiters]: [ws] is the queue; each round serves its front
    or puts it back and stops. *)
Fixpoint drive_loop (ws : list Z) (s : PurePoolState) : PurePoolState :=
  match ws with
  | [] => set_waiters [] s
  | waiter :: rest =>
      match idle_position s with
      | Some (ix, sl) =>
          drive_loop rest
            (push_history ("validate slot=" +:+ pretty (slot_id sl) +:+ " waiter=" +:+ pretty waiter)
               (push_effect (PingEffect (slot_id sl) waiter)
                  (set_state_at ix (Validating (Some waiter)) s)))
      | None =>
          if live_slot_count s <? pmax s then drive_loop rest (open_slot (Some waiter) s)
          else set_waiters (waiter :: rest) s
      end
  end.

Definition drive_waiters (s : PurePoolState) : PurePoolState :=
  if closing s then s else drive_loop (waiters s) s.

(** [while !closing && live < min]: every round makes one more slot live, so the
    missing number of slots bounds the rounds. *)
Fixpoint ensure_loop (fuel : nat) (s : PurePoolState) : PurePoolState :=
  if negb (closing s) && (live_slot_count s <? pmin s) then
    match fuel with
    | O => s
    | S fuel => ensure_loop fuel (open_slot None s)
    end
  else s.
Definition ensure_min_opening (s : PurePoolState) : PurePoolState :=
  ensure_loop (Z.to_nat (pmin s - live_slot_count s)) s.

Definition slot_position (slot : Z) (s : PurePoolState) : option (nat * PoolSlot) :=
  list_find (λ sl, slot_id sl = slot) (slots s).

Definition slot_index (slot : Z) : PoolM nat :=
  r ← gets (slot_position slot);
  match r with Some (ix, _) => mret ix | None => throw (UnknownSlot slot) end.

Definition state_of (s : PurePoolState) (slot : Z) : option PoolSlotState :=
  (λ p, slot_state p.2) <$> slot_position slot s.

(** [self.slots[ix].state] *)
Definition state_at (ix : nat) : PoolM PoolSlotState :=
  l ← gets slots; lift (or_panic (slot_state <$> l !! ix)).

Definition invalid_state {A} (slot : Z) (action : string) : PoolM A :=
  st ← gets (λ s, state_of s slot);
  st ← lift (or_panic st);
  throw (InvalidState slot st action).

(** [self.slots[ix].id], then the state change. *)
Definition release_slot_at (ix : nat) (reason : PoolCloseReason) : PoolM () :=
  l ← gets slots;
  slot ← lift (or_panic (slot_id <$> l !! ix));
  c ← gets closing;
  if c : bool then
    modify (λ s, push_history ("release slot=" +:+ pretty slot +:+ " close")
      (push_effect (CloseEffect slot reason) (set_state_at ix Closing s)))
  else
    modify (λ s, push_history ("release slot=" +:+ pretty slot +:+ " idle")
      (set_state_at ix Idle s)).

(** ** Transitions *)

Definition pool_new (min max : Z) : Result PoolLifecycleError PurePoolState :=
  if negb (min <=? max) then Panic
  else Ok (ensure_min_opening (mkPure min max [] [] [] [] false 1 1)).

Definition request_acquire : PoolM Z :=
  c ← gets closing;
  if c : bool then throw ClosedErr
  else
    waiter ← gets next_waiter;
    _ ← modify (λ s, mkPure (pmin s) (pmax s) (slots s) (waiters s ++ [waiter]) (effects s)
                  (history s ++ ["acquire waiter=" +:+ pretty waiter]) (closing s) (next_slot s)
                  (next_waiter s + 1));
    _ ← modify drive_waiters;
    mret waiter.

(** The slot states in which [waiter] holds a slot. *)
Definition held_by (waiter : Z) (st : PoolSlotState) : bool :=
  match st with
  | Opening (Some current) | Validating (Some current) | CheckedOut current => current =? waiter
  | _ => false
  end.

Definition cancel_acquire (waiter : Z) : PoolM () :=
  _ ← modify (push_history ("cancel waiter=" +:+ pretty waiter));
  _ ← modify (λ s, set_waiters (filter (λ queued, queued ≠ waiter) (waiters s)) s);
  l ← gets slots;
  match list_find (λ sl, held_by waiter (slot_state sl) = true) l with
  | None => mret ()
  | Some (ix, sl) =>
      match slot_state sl with
      | Opening _ => modify (set_state_at ix (Opening None))
      | Validating _ => modify (set_state_at ix (Validating None))
      | _ => _ ← release_slot_at ix Graceful; modify drive_waiters
      end
  end.

Definition push_front_waiter (waiter : option Z) (s : PurePoolState) : PurePoolState :=
  if closing s then s
  else match waiter with Some w => set_waiters (w :: waiters s) s | None => s end.

Definition complete_open (slot : Z) (healthy : bool) : PoolM () :=
  ix ← slot_index slot;
  st ← state_at ix;
  match st with
  | Opening waiter =>
      c ← gets closing;
      if healthy : bool then
        if c : bool then
          modify (λ s, push_history ("open slot=" +:+ pretty slot +:+ " close")
            (push_effect (CloseEffect slot Force) (set_state_at ix Closing s)))
        else match waiter with
        | Some w =>
            modify (λ s, push_history
              ("open slot=" +:+ pretty slot +:+ " grant waiter=" +:+ pretty w)
              (set_state_at ix (CheckedOut w) s))
        | None =>
            _ ← modify (λ s, push_history ("open slot=" +:+ pretty slot +:+ " idle")
                  (set_state_at ix Idle s));
            modify drive_waiters
        end
      else
        _ ← modify (λ s, push_history ("open slot=" +:+ pretty slot +:+ " failed")
              (set_state_at ix Closed s));
        _ ← modify (push_front_waiter waiter);
        _ ← modify drive_waiters;
        modify ensure_min_opening
  | _ => invalid_state slot "complete_open"
  end.

Definition complete_ping (slot : Z) (healthy : bool) : PoolM () :=
  ix ← slot_index slot;
  st ← state_at ix;
  match st with
  | Validating waiter =>
      c ← gets closing;
      if healthy : bool then
        if c : bool then
          modify (λ s, push_effect (CloseEffect slot Force) (set_state_at ix Closing s))
        else match waiter with
        | Some w =>
            modify (λ s, push_history
              ("ping slot=" +:+ pretty slot +:+ " grant waiter=" +:+ pretty w)
              (set_state_at ix (CheckedOut w) s))
        | None =>
            _ ← modify (λ s, push_history ("ping slot=" +:+ pretty slot +:+ " idle")
                  (set_state_at ix Idle s));
            modify drive_waiters
        end
      else
        _ ← modify (λ s, push_effect (CloseEffect slot Unhealthy) (set_state_at ix Retiring s));
        _ ← modify (push_front_waiter waiter);
        modify (push_history ("ping slot=" +:+ pretty slot +:+ " unhealthy"))
  | _ => invalid_state slot "complete_ping"
  end.

Definition release (slot : Z) : PoolM () :=
  ix ← slot_index slot;
  st ← state_at ix;
  match st with
  | CheckedOut _ => _ ← release_slot_at ix Graceful; modify drive_waiters
  | _ => invalid_state slot "release"
  end.

Definition reap_idle (slot : Z) : PoolM () :=
  ix ← slot_index slot;
  st ← state_at ix;
  match st with
  | Idle =>
      modify (λ s, push_history ("reap slot=" +:+ pretty slot)
        (push_effect (CloseEffect slot Reap) (set_state_at ix Retiring s)))
  | _ => invalid_state slot "reap_idle"
  end.

Definition complete_close (slot : Z) : PoolM () :=
  ix ← slot_index slot;
  st ← state_at ix;
  match st with
  | Retiring | Closing =>
      _ ← modify (λ s, push_history ("close slot=" +:+ pretty slot +:+ " done")
            (set_state_at ix Closed s));
      _ ← modify drive_waiters;
      modify ensure_min_opening
  | _ => invalid_state slot "complete_close"
  end.

Definition count_slots (p : PoolSlotState → bool) (s : PurePoolState) : Z :=
  Zlen (filter (λ sl, p (slot_state sl) = true) (slots s)).

Definition counts (s : PurePoolState) : PoolCounts :=
  mkCounts
    (count_slots (λ st, match st with Opening _ => true | _ => false end) s)
    (count_slots is_idle s)
    (count_slots (λ st, match st with CheckedOut _ => true | _ => false end) s)
    (count_slots (λ st, match st with Validating _ => true | _ => false end) s)
    (count_slots (λ st, match st with Retiring => true | _ => false end) s)
    (count_slots (λ st, match st with Closing => true | _ => false end) s)
    (count_slots is_closed s)
    (Zlen (waiters s)).

(** One slot of the loop of [begin_close], and the effect it queues. *)
Definition close_slot (force : bool) (sl : PoolSlot) : PoolSlot * list PoolEffect :=
  match slot_state sl with
  | Idle | CheckedOut _ =>
      (mkSlot (slot_id sl) Closing,
       [CloseEffect (slot_id sl) (if force then Force else Graceful)])
  | Opening _ | Validating _ | Retiring | Closing | Closed => (sl, [])
  end.

Definition begin_close (force : bool) : PoolM () :=
  _ ← modify (push_history ("begin_close force=" +:+ show_bool force));
  c ← gets counts;
  w ← gets waiters;
  if negb force && ((0 <? c_checked_out c) || (0 <? c_validating c) || (0 <? c_opening c)
                    || negb (bool_decide (w = [])))
  then throw BusyErr
  else
    _ ← modify (set_closing true);
    _ ← modify (λ s, if force then set_waiters [] s else s);
    modify (λ s, mkPure (pmin s) (pmax s) (map (λ sl, (close_slot force sl).1) (slots s))
      (waiters s) (effects s ++ concat (map (λ sl, (close_slot force sl).2) (slots s)))
      (history s) (closing s) (next_slot s) (next_waiter s)).

Definition take_effects : PoolM (list PoolEffect) :=
  e ← gets effects;
  _ ← modify (λ s, mkPure (pmin s) (pmax s) (slots s) (waiters s) [] (history s) (closing s)
                (next_slot s) (next_waiter s));
  mret e.

(** ** The machine *)

Inductive PoolOp :=
| RequestAcquire
| CancelAcquire (waiter : Z)
| CompleteOpen (slot : Z) (healthy : bool)
| CompletePing (slot : Z) (healthy : bool)
| Release (slot : Z)
| ReapIdle (slot : Z)
| CompleteClose (slot : Z)
| BeginClose (force : bool)
| TakeEffects.

Definition run_op (op : PoolOp) : PoolM () :=
  match op with
  | RequestAcquire => _ ← request_acquire; mret ()
  | CancelAcquire waiter => cancel_acquire waiter
  | CompleteOpen slot healthy => complete_open slot healthy
  | CompletePing slot healthy => complete_ping slot healthy
  | Release slot => release slot
  | ReapIdle slot => reap_idle slot
  | CompleteClose slot => complete_close slot
  | BeginClose force => begin_close force
  | TakeEffects => _ ← take_effects; mret ()
  end.

Inductive pool_step : PurePoolState → PurePoolState → Prop :=
| pool_step_op op s r s' : run_op op s = (r, s') → pool_step s s'.

Definition reachable (min max : Z) (s : PurePoolState) : Prop :=
  ∃ s0, pool_new min max = Ok s0 ∧ rtc pool_step s0 s.

(** ** The invariant *)

Definition slot_waiter (st : PoolSlotState) : option Z :=
  match st with
  | Opening w | Validating w => w
  | CheckedOut w => Some w
  | _ => None
  end.

Definition slot_waiters (l : list PoolSlot) : list Z := omap (λ sl, slot_waiter (slot_state sl)) l.

Definition no_idle (s : PurePoolState) : Prop :=
  Forall (λ sl, slot_state sl ≠ Idle) (slots s).

(** Identities and capacity; [ws] is the queue (in the middle of
    [drive_waiters] it is not yet stored back). *)
Definition core (ws : list Z) (s : PurePoolState) : Prop :=
  0 <= pmin s <= pmax s ∧
  NoDup (map slot_id (slots s)) ∧ Forall (λ sl, 0 < slot_id sl < next_slot s) (slots s) ∧
  0 < next_slot s ∧
  live_slot_count s <= pmax s ∧
  NoDup (ws ++ slot_waiters (slots s)) ∧
  Forall (λ w, w < next_waiter s) (ws ++ slot_waiters (slots s)).

(** Nobody waits while a slot could serve. *)
Definition quiet (s : PurePoolState) : Prop :=
  waiters s = [] ∨ no_idle s ∧ pmax s <= live_slot_count s.

Definition inv (s : PurePoolState) : Prop :=
  core (waiters s) s ∧
  (if closing s
   then waiters s = [] ∧ Forall (λ sl, slot_state sl ≠ Idle ∧ ∀ w, slot_state sl ≠ CheckedOut w) (slots s)
   else pmin s <= live_slot_count s ∧
        (quiet s ∨ Exists (λ sl, slot_state sl = Retiring) (slots s))).

(** ** List facts *)

Lemma list_split {A} (l : list A) ix x :
  l !! ix = Some x → ∃ l1 l2, l = l1 ++ x :: l2 ∧ ∀ f, alter f ix l = l1 ++ f x :: l2.
Proof.
  revert ix. induction l as [|y l IH]; intros [|ix] Hx; simplify_eq/=.
  - by exists [], l.
  - destruct (IH ix Hx) as (l1 & l2 & -> & Hf). exists (y :: l1), l2. split; [done|].
    intros f. cbn. by rewrite Hf.
Qed.

Lemma submseteq_nodup {A} (l k : list A) : l ⊆+ k → NoDup k → NoDup l.
Proof. intros (r & ->)%submseteq_Permutation [? _]%list.NoDup_app. done. Qed.

Lemma submseteq_forall {A} (P : A → Prop) (l k : list A) : l ⊆+ k → Forall P k → Forall P l.
Proof.
  intros Hs. rewrite !list.Forall_forall. intros Hk x Hx. by eapply Hk, elem_of_submseteq.
Qed.

Definition live (st : PoolSlotState) : Z := if is_closed st then 0 else 1.

Lemma live_app l1 l2 :
  Zlen (filter (λ sl, is_closed (slot_state sl) = false) (l1 ++ l2)) =
  Zlen (filter (λ sl, is_closed (slot_state sl) = false) l1) +
  Zlen (filter (λ sl, is_closed (slot_state sl) = false) l2).
Proof. by rewrite list.filter_app, Zlen_app. Qed.

Lemma live_cons sl l :
  Zlen (filter (λ sl, is_closed (slot_state sl) = false) (sl :: l)) =
  live (slot_state sl) + Zlen (filter (λ sl, is_closed (slot_state sl) = false) l).
Proof.
  rewrite list.filter_cons. unfold live. destruct (is_closed (slot_state sl)) eqn:E.
  - rewrite decide_False by done. lia.
  - rewrite decide_True by done. autorewrite with thin. lia.
Qed.

Lemma slot_waiters_middle l1 sl l2 :
  slot_waiters (l1 ++ sl :: l2) ≡ₚ option_list (slot_waiter (slot_state sl)) ++ slot_waiters (l1 ++ l2).
Proof.
  unfold slot_waiters. rewrite !omap_app. cbn. destruct (slot_waiter (slot_state sl)); cbn; [|done].
  by rewrite Permutation_middle.
Qed.

(** ** Changing one slot *)

Section SetState.
Context (s : PurePoolState) (ix : nat) (sl : PoolSlot) (st : PoolSlotState).
Context (Hix : slots s !! ix = Some sl).

Lemma set_state_live :
  live_slot_count (set_state_at ix st s) =
    live_slot_count s - live (slot_state sl) + live st.
Proof.
  destruct (list_split _ _ _ Hix) as (l1 & l2 & Hl & Hf).
  unfold live_slot_count, set_state_at. cbn [slots set_slots]. rewrite Hf, Hl.
  rewrite !live_app, !live_cons. cbn [slot_state]. lia.
Qed.

Lemma set_state_core ws ws' :
  core ws s → live st <= live (slot_state sl) →
  ws' ++ option_list (slot_waiter st) ⊆+ ws ++ option_list (slot_waiter (slot_state sl)) →
  core ws' (set_state_at ix st s).
Proof.
  intros (Hb & Hids & Hlt & Hns & Hmax & Hnd & Hwlt) Hlive Hsub.
  pose proof set_state_live as Hl'.
  destruct (list_split _ _ _ Hix) as (l1 & l2 & Hl & Hf).
  assert (ws' ++ slot_waiters (slots (set_state_at ix st s)) ⊆+ ws ++ slot_waiters (slots s)) as Hs.
  { unfold set_state_at. cbn [slots set_slots]. rewrite Hf, Hl, !slot_waiters_middle.
    cbn [slot_state]. rewrite !app_assoc. by apply submseteq_skips_r. }
  unfold core. split; [done|].
  assert (map slot_id (slots (set_state_at ix st s)) = map slot_id (slots s)) as ->.
  { unfold set_state_at. cbn [slots set_slots]. rewrite Hf, Hl, !map_app. done. }
  split; [done|]. split.
  { unfold set_state_at. cbn [slots set_slots next_slot]. rewrite Hf. rewrite Hl in Hlt.
    apply Forall_app in Hlt as [? [? ?]%Forall_cons_iff]. apply Forall_app.
    split; [done|]. by apply Forall_cons_iff. }
  split; [done|]. split; [cbn [pmax set_state_at set_slots]; lia|].
  split; [by eapply submseteq_nodup|by eapply submseteq_forall].
Qed.

(** Slots other than the changed one. *)
Lemma set_state_forall (P : PoolSlot → Prop) :
  Forall P (slots s) → P (mkSlot (slot_id sl) st) → Forall P (slots (set_state_at ix st s)).
Proof.
  intros Hall HP. destruct (list_split _ _ _ Hix) as (l1 & l2 & Hl & Hf).
  unfold set_state_at. cbn [slots set_slots]. rewrite Hf. rewrite Hl in Hall.
  apply Forall_app in Hall as [? [_ ?]%Forall_cons_iff]. apply Forall_app.
  split; [done|]. by apply Forall_cons_iff.
Qed.

Lemma set_state_exists : Exists (λ x, slot_state x = st) (slots (set_state_at ix st s)).
Proof.
  destruct (list_split _ _ _ Hix) as (l1 & l2 & Hl & Hf).
  unfold set_state_at. cbn [slots set_slots]. rewrite Hf. apply Exists_app. right. by left.
Qed.

(** A slot in another state survives the change. *)
Lemma set_state_exists_other (P : PoolSlotState → Prop) :
  Exists (λ x, P (slot_state x)) (slots s) → ¬ P (slot_state sl) →
  Exists (λ x, P (slot_state x)) (slots (set_state_at ix st s)).
Proof.
  intros Hex Hn. destruct (list_split _ _ _ Hix) as (l1 & l2 & Hl & Hf).
  unfold set_state_at. cbn [slots set_slots]. rewrite Hf. rewrite Hl in Hex.
  apply Exists_app in Hex as [?|Hex]; apply Exists_app; [by left|right].
  apply Exists_cons in Hex as [?|?]; [done|by right].
Qed.
End SetState.

(** ** Opening slots and serving waiters *)

Lemma open_slot_live w s : live_slot_count (open_slot w s) = live_slot_count s + 1.
Proof. unfold live_slot_count, open_slot. cbn [slots push_history push_effect]. by rewrite live_app. Qed.

Lemma open_slot_core ws w s :
  core (option_list w ++ ws) s → live_slot_count s < pmax s → core ws (open_slot w s).
Proof.
  intros (Hb & Hids & Hlt & Hns & Hmax & Hnd & Hwlt) Hlive.
  assert (ws ++ slot_waiters (slots (open_slot w s)) ⊆+ (option_list w ++ ws) ++ slot_waiters (slots s))
    as Hs.
  { unfold open_slot. cbn [slots push_history push_effect].
    rewrite slot_waiters_middle, app_nil_r. cbn [slot_state slot_waiter].
    apply Permutation_submseteq. solve_Permutation. }
  unfold core. split; [done|]. split_and!.
  - cbn [slots open_slot push_history push_effect]. rewrite map_app. apply list.NoDup_app.
    split; [done|]. split; [|apply NoDup_singleton]. intros id Hid ->%list_elem_of_singleton.
    apply list_elem_of_fmap in Hid as (sl & Heq & Hin). rewrite list.Forall_forall in Hlt.
    specialize (Hlt sl Hin). cbn in Heq, Hlt. lia.
  - cbn [slots open_slot push_history push_effect next_slot]. apply Forall_app. split.
    + eapply Forall_impl; [|exact Hlt]. cbn. lia.
    + apply Forall_singleton. cbn. lia.
  - cbn. lia.
  - rewrite open_slot_live. cbn. lia.
  - by eapply submseteq_nodup.
  - by eapply submseteq_forall.
Qed.

Lemma idle_position_Some s ix sl :
  idle_position s = Some (ix, sl) → slots s !! ix = Some sl ∧ slot_state sl = Idle.
Proof.
  unfold idle_position. intros (H1 & H2 & _)%list_find_Some. split; [done|].
  by destruct (slot_state sl).
Qed.

Lemma idle_position_None s : idle_position s = None → no_idle s.
Proof.
  unfold idle_position. intros H%list_find_None. unfold no_idle.
  eapply Forall_impl; [|exact H]. cbn. intros sl Hn Heq. apply Hn. by rewrite Heq.
Qed.

(** What serving the queue [ws] establishes. *)
Lemma drive_loop_spec ws : ∀ s,
  core ws s →
  core (waiters (drive_loop ws s)) (drive_loop ws s) ∧ quiet (drive_loop ws s) ∧
  live_slot_count s <= live_slot_count (drive_loop ws s) ∧
  pmin (drive_loop ws s) = pmin s ∧ closing (drive_loop ws s) = closing s.
Proof.
  induction ws as [|w ws IH]; intros s Hc; cbn [drive_loop].
  { split; [exact Hc|]. split; [by left|]. split; [done|done]. }
  destruct (idle_position s) as [[ix sl]|] eqn:Hidle.
  - apply idle_position_Some in Hidle as [Hix Hst].
    set (s1 := push_history _ _).
    assert (core ws s1) as Hc1.
    { apply (set_state_core s ix sl (Validating (Some w)) Hix (w :: ws)); [done|by rewrite Hst|].
      rewrite Hst. cbn. rewrite app_nil_r. apply Permutation_submseteq. solve_Permutation. }
    assert (live_slot_count s1 = live_slot_count s) as Hl1.
    { change (live_slot_count s1) with (live_slot_count (set_state_at ix (Validating (Some w)) s)).
      rewrite (set_state_live s ix sl _ Hix), Hst. cbn. lia. }
    destruct (IH s1 Hc1) as (?&?&?&Hmin&Hcl). split; [done|]. split; [done|]. split; [lia|].
    by rewrite Hmin, Hcl.
  - destruct (Z.ltb_spec (live_slot_count s) (pmax s)) as [Hlt|Hge].
    + assert (core ws (open_slot (Some w) s)) as Hc1 by (by apply open_slot_core).
      destruct (IH _ Hc1) as (?&?&?&Hmin&Hcl). rewrite open_slot_live in *.
      split; [done|]. split; [done|]. split; [lia|]. by rewrite Hmin, Hcl.
    + split; [exact Hc|]. split; [|done]. right. split; [|exact Hge].
      exact (idle_position_None s Hidle).
Qed.

Lemma ensure_loop_spec fuel : ∀ s,
  core (waiters s) s → closing s = false → pmin s - live_slot_count s <= Z.of_nat fuel →
  core (waiters (ensure_loop fuel s)) (ensure_loop fuel s) ∧
  pmin (ensure_loop fuel s) <= live_slot_count (ensure_loop fuel s) ∧
  (quiet s → quiet (ensure_loop fuel s)) ∧ closing (ensure_loop fuel s) = false.
Proof.
  induction fuel as [|fuel IH]; intros s Hc Hcl Hf; cbn [ensure_loop]; rewrite Hcl; cbn [negb andb];
    destruct (Z.ltb_spec (live_slot_count s) (pmin s)); try (split; [done|]; split; [lia|done]).
  pose proof Hc as (Hb & _).
  assert (core (waiters (open_slot None s)) (open_slot None s)) as Hc1
    by (apply (open_slot_core (waiters s) None); [done|lia]).
  destruct (IH (open_slot None s) Hc1) as (?&?&Hq&?); [done|rewrite open_slot_live; cbn; lia|].
  split; [done|]. split; [done|]. split; [|done]. intros [Hw|[Hi Hl]]; apply Hq; [by left|right].
  split; [|rewrite open_slot_live; cbn; lia]. unfold no_idle. cbn [slots open_slot push_history push_effect].
  apply Forall_app. split; [exact Hi|]. by apply Forall_singleton.
Qed.

(** The two loops together, on a state that is not closing. *)
Lemma drive_waiters_inv s :
  core (waiters s) s → closing s = false → pmin s <= live_slot_count s →
  inv (drive_waiters s).
Proof.
  intros Hc Hcl Hmin. unfold drive_waiters. rewrite Hcl.
  destruct (drive_loop_spec (waiters s) s Hc) as (?&?&?&Hm&Hc2). unfold inv. rewrite Hc2, Hcl, Hm.
  split; [done|]. split; [lia|by left].
Qed.

Lemma drive_ensure_inv s :
  core (waiters s) s → closing s = false → inv (ensure_min_opening (drive_waiters s)).
Proof.
  intros Hc Hcl. unfold drive_waiters. rewrite Hcl.
  destruct (drive_loop_spec (waiters s) s Hc) as (Hc1&Hq&_&_&Hcl1). rewrite Hcl in Hcl1.
  unfold ensure_min_opening. set (s1 := drive_loop _ _) in *.
  destruct (ensure_loop_spec (Z.to_nat (pmin s1 - live_slot_count s1)) s1 Hc1 Hcl1)
    as (?&?&Hq2&Hcl2); [lia|].
  unfold inv. rewrite Hcl2. split; [done|]. split; [done|]. left. auto.
Qed.

Lemma closing_ensure s : closing s = true → ensure_min_opening s = s.
Proof. intros Hc. unfold ensure_min_opening. by destruct (Z.to_nat _); cbn; rewrite Hc. Qed.

(** ** Every operation keeps the invariant *)

Definition op_ok {A} (m : PoolM A) (s : PurePoolState) : Prop := returns (m s).1 ∧ inv (m s).2.

(** The common head of the slot operations. *)
Lemma slot_op_ok {A} slot (k : nat → PoolSlotState → PoolM A) s :
  inv s →
  (∀ ix sl, slot_position slot s = Some (ix, sl) → slots s !! ix = Some sl →
     op_ok (k ix (slot_state sl)) s) →
  op_ok (ix ← slot_index slot; st ← state_at ix; k ix st) s.
Proof.
  intros Hinv Hk. unfold op_ok, slot_index, state_at. st_run.
  destruct (slot_position slot s) as [[ix sl]|] eqn:Hp; [|by split].
  pose proof Hp as (Hix & _)%list_find_Some. st_run. rewrite Hix. cbn [or_panic fmap option_fmap option_map].
  st_run. by apply Hk.
Qed.

Lemma invalid_state_ok {A} slot action s p :
  inv s → slot_position slot s = Some p → op_ok (@invalid_state A slot action) s.
Proof.
  intros Hinv Hp. unfold op_ok, invalid_state. st_run. unfold state_of. rewrite Hp.
  cbn [or_panic fmap option_fmap option_map]. st_run. by split.
Qed.

Lemma modify_ok f s : inv (f s) → op_ok (modify f) s.
Proof. by split. Qed.

Lemma modify_seq_ok {A} f (m : PoolM A) s : op_ok m (f s) → op_ok (_ ← modify f; m) s.
Proof. unfold op_ok. st_run. done. Qed.

Lemma inv_core s : inv s → core (waiters s) s.
Proof. by intros [? _]. Qed.

(** A slot becomes idle, its waiter (if any) being served or gone, and the queue
    is driven. *)
Lemma idle_then_drive s ix sl h :
  inv s → closing s = false → slots s !! ix = Some sl → slot_state sl ≠ Closed →
  inv (drive_waiters (push_history h (set_state_at ix Idle s))).
Proof.
  intros [Hc Hrest] Hcl Hix Hne. rewrite Hcl in Hrest. destruct Hrest as [Hmin _].
  assert (live (slot_state sl) = 1) as Hlive by (by destruct (slot_state sl)).
  apply drive_waiters_inv; [|done|].
  - apply (set_state_core s ix sl Idle Hix (waiters s)); [done|rewrite Hlive; cbn; lia|].
    cbn. rewrite app_nil_r. by apply submseteq_inserts_r.
  - change (pmin s <= live_slot_count (set_state_at ix Idle s)).
    rewrite (set_state_live s ix sl _ Hix), Hlive. cbn. lia.
Qed.

(** A slot changes state outside of driving: nothing becomes idle, the slot
    stays live, its waiter keeps its place. *)
Lemma inv_set_state s ix sl st :
  inv s → slots s !! ix = Some sl → live st = live (slot_state sl) → st ≠ Idle →
  option_list (slot_waiter st) ⊆+ option_list (slot_waiter (slot_state sl)) →
  slot_state sl ≠ Retiring → (closing s = true → ∀ w, st ≠ CheckedOut w) →
  inv (set_state_at ix st s).
Proof.
  intros [Hc Hrest] Hix Hlive Hni Hsub Hnr Hco. split.
  - apply (set_state_core s ix sl st Hix (waiters s)); [done|lia|]. by apply submseteq_skips_l.
  - cbn [closing waiters set_state_at set_slots]. destruct (closing s) eqn:Hcl.
    + destruct Hrest as [Hw Hall]. split; [done|].
      eapply (set_state_forall s ix sl st Hix); [done|]. cbn. auto.
    + destruct Hrest as [Hmin Hq]. split.
      { change (pmin s <= live_slot_count (set_state_at ix st s)).
        rewrite (set_state_live s ix sl st Hix). lia. }
      destruct Hq as [[Hw|[Hi Hl]]|Hex]; [by left; left| |].
      * left. right. split; [by apply (set_state_forall s ix sl st Hix)|].
        change (pmax s <= live_slot_count (set_state_at ix st s)).
        rewrite (set_state_live s ix sl st Hix). lia.
      * right. by apply (set_state_exists_other s ix sl st Hix (λ x, x = Retiring)).
Qed.

(** A slot closes for good; its waiter may go back to the front of the queue. *)
Lemma close_then_drive s ix sl h ws :
  inv s → slots s !! ix = Some sl → slot_state sl ≠ Closed →
  ws ⊆+ waiters s ++ option_list (slot_waiter (slot_state sl)) → (closing s = true → ws = []) →
  inv (ensure_min_opening (drive_waiters (set_waiters ws (push_history h (set_state_at ix Closed s))))).
Proof.
  intros [Hc Hrest] Hix Hne Hsub Hws.
  assert (live (slot_state sl) = 1) as Hlive by (by destruct (slot_state sl)).
  assert (core ws (set_state_at ix Closed s)) as Hc1.
  { apply (set_state_core s ix sl Closed Hix (waiters s)); [done|rewrite Hlive; cbn; lia|].
    cbn. by rewrite app_nil_r. }
  destruct (closing s) eqn:Hcl; [|by apply drive_ensure_inv].
  destruct Hrest as [Hw Hall]. unfold drive_waiters. cbn [closing set_waiters push_history set_state_at set_slots].
  rewrite Hcl, closing_ensure by done. unfold inv. cbn [closing set_waiters push_history set_state_at set_slots waiters].
  rewrite Hcl. split; [exact Hc1|]. split; [by apply Hws|].
  by apply (set_state_forall s ix sl Closed Hix).
Qed.

Lemma set_waiters_same s : set_waiters (waiters s) s = s.
Proof. by destruct s. Qed.

Lemma push_front_waiter_eq w s :
  push_front_waiter w s = set_waiters (if closing s then waiters s else option_list w ++ waiters s) s.
Proof.
  unfold push_front_waiter. destruct (closing s); [by rewrite set_waiters_same|].
  destruct w; [done|]. symmetry. exact (set_waiters_same s).
Qed.

Lemma drive_closing s : closing s = true → drive_waiters s = s.
Proof. intros H. unfold drive_waiters. by rewrite H. Qed.

Lemma request_acquire_ok s : inv s → op_ok request_acquire s.
Proof.
  intros Hinv. unfold op_ok, request_acquire. st_run. destruct (closing s) eqn:Hcl; [by split|].
  st_run. split; [done|]. cbn [snd]. destruct Hinv as [(Hb & Hids & Hlt & Hns & Hmax & Hnd & Hwlt) Hrest].
  rewrite Hcl in Hrest. apply drive_waiters_inv; [|exact Hcl|exact (proj1 Hrest)].
  unfold core. cbn [pmin pmax slots waiters next_slot next_waiter].
  assert ((waiters s ++ [next_waiter s]) ++ slot_waiters (slots s) ≡ₚ
    next_waiter s :: waiters s ++ slot_waiters (slots s)) as Hperm
    by (rewrite <- app_assoc; cbn; by rewrite Permutation_middle).
  split; [done|]. split; [done|]. split; [done|]. split; [done|]. split; [exact Hmax|]. rewrite !Hperm. split.
  - apply list.NoDup_cons. split; [|done]. intros Hin. rewrite list.Forall_forall in Hwlt.
    specialize (Hwlt _ Hin). lia.
  - apply Forall_cons_iff. split; [lia|]. eapply Forall_impl; [|exact Hwlt]. cbn. lia.
Qed.

(** Dropping waiters from the queue. *)
Lemma inv_fewer_waiters s ws :
  inv s → ws ⊆+ waiters s → inv (set_waiters ws s).
Proof.
  intros [(Hb & Hids & Hlt & Hns & Hmax & Hnd & Hwlt) Hrest] Hsub.
  assert (ws ++ slot_waiters (slots s) ⊆+ waiters s ++ slot_waiters (slots s)) as Hs
    by by apply submseteq_skips_r.
  assert (waiters s = [] → ws = []) as Hnil by (intros Hw; rewrite Hw in Hsub; by apply submseteq_nil_r in Hsub).
  split.
  - split; [done|]. split; [done|]. split; [done|]. split; [done|]. split; [done|].
    split; [by eapply submseteq_nodup|by eapply submseteq_forall].
  - cbn [closing set_waiters waiters]. destruct (closing s); [destruct Hrest; split; [auto|done]|].
    destruct Hrest as [Hmin Hq]. split; [exact Hmin|].
    destruct Hq as [[Hw|Hq]|Hex]; [left; left; by apply Hnil|left; by right|by right].
Qed.

Lemma release_then_drive_ok s ix sl w :
  inv s → slots s !! ix = Some sl → slot_state sl = CheckedOut w →
  op_ok (_ ← release_slot_at ix Graceful; modify drive_waiters) s.
Proof.
  intros Hinv Hix Hst. unfold op_ok, release_slot_at. st_run. rewrite Hix.
  cbn [fmap option_fmap option_map or_panic]. st_run. destruct (closing s) eqn:Hcl; st_run.
  - split; [done|]. cbn [snd]. rewrite drive_closing by done.
    apply (inv_set_state s ix sl Closing); try done; rewrite ?Hst; try done. apply submseteq_nil_l.
  - split; [done|]. cbn [snd]. apply (idle_then_drive s ix sl); [done..|by rewrite Hst].
Qed.

Lemma cancel_acquire_ok waiter s : inv s → op_ok (cancel_acquire waiter) s.
Proof.
  intros Hinv. unfold cancel_acquire. do 2 apply modify_seq_ok. unfold op_ok. st_run.
  set (s1 := set_waiters _ _).
  assert (inv s1) as Hinv1.
  { apply (inv_fewer_waiters (push_history _ s)); [exact Hinv|].
    apply sublist_submseteq, sublist_filter. }
  clearbody s1. destruct (list_find _ (slots s1)) as [[ix sl]|] eqn:Hf; [|by split].
  apply list_find_Some in Hf as (Hix & Hheld & _).
  destruct (slot_state sl) as [w| |w|w| | |] eqn:Hst; try done.
  - split; [done|]. apply (inv_set_state s1 ix sl (Opening None)); try done; rewrite ?Hst; try done.
    apply submseteq_nil_l.
  - by apply (release_then_drive_ok s1 ix sl w).
  - split; [done|]. apply (inv_set_state s1 ix sl (Validating None)); try done; rewrite ?Hst; try done.
    apply submseteq_nil_l.
Qed.

Lemma complete_open_ok slot healthy s : inv s → op_ok (complete_open slot healthy) s.
Proof.
  intros Hinv. apply slot_op_ok; [done|]. intros ix sl Hp Hix.
  destruct (slot_state sl) as [w| |w|w| | |] eqn:Hst; try by eapply invalid_state_ok.
  unfold op_ok. st_run. destruct healthy.
  - destruct (closing s) eqn:Hcl.
    + split; [done|]. apply (inv_set_state s ix sl Closing); try done; rewrite ?Hst; try done.
      apply submseteq_nil_l.
    + destruct w as [w|]; st_run; (split; [done|]).
      * apply (inv_set_state s ix sl (CheckedOut w)); try done; rewrite ?Hst; try done. by rewrite Hcl.
      * apply (idle_then_drive s ix sl); [done..|by rewrite Hst].
  - st_run. split; [done|]. cbn [snd]. rewrite push_front_waiter_eq.
    cbn [closing push_history set_state_at set_slots waiters].
    apply (close_then_drive s ix sl); [done|done|by rewrite Hst| |].
    + rewrite Hst. cbn [slot_waiter]. destruct (closing s); [by apply submseteq_inserts_r|].
      apply Permutation_submseteq. solve_Permutation.
    + intros Hcl. rewrite Hcl. destruct Hinv as [_ Hrest]. rewrite Hcl in Hrest. by destruct Hrest.
Qed.

Lemma retire_core s ix sl ws :
  inv s → slots s !! ix = Some sl → live (slot_state sl) = 1 →
  ws ⊆+ waiters s ++ option_list (slot_waiter (slot_state sl)) → (closing s = true → ws = []) →
  inv (set_waiters ws (set_state_at ix Retiring s)).
Proof.
  intros [Hc Hrest] Hix Hlive Hsub Hws. split.
  - apply (set_state_core s ix sl Retiring Hix (waiters s)); [done|by rewrite Hlive|].
    cbn. by rewrite app_nil_r.
  - cbn [closing set_waiters set_state_at set_slots waiters]. destruct (closing s) eqn:Hcl.
    + destruct Hrest as [Hw Hall]. split; [by apply Hws|].
      by apply (set_state_forall s ix sl Retiring Hix).
    + destruct Hrest as [Hmin _]. split; [|right; by apply (set_state_exists s ix sl Retiring Hix)].
      change (pmin s <= live_slot_count (set_state_at ix Retiring s)).
      rewrite (set_state_live s ix sl _ Hix), Hlive. cbn. lia.
Qed.

Lemma complete_ping_ok slot healthy s : inv s → op_ok (complete_ping slot healthy) s.
Proof.
  intros Hinv. apply slot_op_ok; [done|]. intros ix sl Hp Hix.
  destruct (slot_state sl) as [w| |w|w| | |] eqn:Hst; try by eapply invalid_state_ok.
  unfold op_ok. st_run. destruct healthy.
  - destruct (closing s) eqn:Hcl.
    + split; [done|]. apply (inv_set_state s ix sl Closing); try done; rewrite ?Hst; try done.
      apply submseteq_nil_l.
    + destruct w as [w|]; st_run; (split; [done|]).
      * apply (inv_set_state s ix sl (CheckedOut w)); try done; rewrite ?Hst; try done. by rewrite Hcl.
      * apply (idle_then_drive s ix sl); [done..|by rewrite Hst].
  - st_run. split; [done|]. cbn [snd]. rewrite push_front_waiter_eq.
    cbn [closing push_effect set_state_at set_slots waiters].
    apply (retire_core s ix sl (if closing s then waiters s else option_list w ++ waiters s));
      [done|done|by rewrite Hst| |].
    + rewrite Hst. cbn [slot_waiter]. destruct (closing s); [by apply submseteq_inserts_r|].
      apply Permutation_submseteq. solve_Permutation.
    + intros Hcl. rewrite Hcl. destruct Hinv as [_ Hrest]. rewrite Hcl in Hrest. by destruct Hrest.
Qed.

Lemma release_ok slot s : inv s → op_ok (release slot) s.
Proof.
  intros Hinv. apply slot_op_ok; [done|]. intros ix sl Hp Hix.
  destruct (slot_state sl) as [w| |w|w| | |] eqn:Hst; try by eapply invalid_state_ok.
  by apply (release_then_drive_ok s ix sl w).
Qed.

Lemma reap_idle_ok slot s : inv s → op_ok (reap_idle slot) s.
Proof.
  intros Hinv. apply slot_op_ok; [done|]. intros ix sl Hp Hix.
  destruct (slot_state sl) as [w| |w|w| | |] eqn:Hst; try by eapply invalid_state_ok.
  apply modify_ok. apply (retire_core s ix sl (waiters s)); [done|done|by rewrite Hst| |].
  - by apply submseteq_inserts_r.
  - intros Hcl. destruct Hinv as [_ Hrest]. rewrite Hcl in Hrest. by destruct Hrest.
Qed.

Lemma complete_close_ok slot s : inv s → op_ok (complete_close slot) s.
Proof.
  intros Hinv. apply slot_op_ok; [done|]. intros ix sl Hp Hix.
  assert (slot_state sl ≠ Closed →
    op_ok (_ ← modify (λ s, push_history ("close slot=" +:+ pretty slot +:+ " done")
            (set_state_at ix Closed s)); _ ← modify drive_waiters; modify ensure_min_opening) s) as Hdone.
  { intros Hne. unfold op_ok. st_run. split; [done|]. cbn [snd].
    apply (close_then_drive s ix sl _ (waiters s)); [done..|by apply submseteq_inserts_r|].
    intros Hcl. destruct Hinv as [_ Hrest]. rewrite Hcl in Hrest. by destruct Hrest. }
  destruct (slot_state sl) as [w| |w|w| | |] eqn:Hst; try (by eapply invalid_state_ok); by apply Hdone.
Qed.

Lemma close_slot_facts force sl :
  slot_id (close_slot force sl).1 = slot_id sl ∧
  live (slot_state (close_slot force sl).1) = live (slot_state sl) ∧
  option_list (slot_waiter (slot_state (close_slot force sl).1)) ⊆+
    option_list (slot_waiter (slot_state sl)) ∧
  slot_state (close_slot force sl).1 ≠ Idle ∧ ∀ w, slot_state (close_slot force sl).1 ≠ CheckedOut w.
Proof.
  unfold close_slot. destruct sl as [id st]. cbn [slot_id slot_state].
  destruct st; cbn; split_and!; try done; apply submseteq_nil_l.
Qed.

Lemma closed_slots_facts force l :
  map slot_id (map (λ sl, (close_slot force sl).1) l) = map slot_id l ∧
  Zlen (filter (λ sl, is_closed (slot_state sl) = false) (map (λ sl, (close_slot force sl).1) l)) =
    Zlen (filter (λ sl, is_closed (slot_state sl) = false) l) ∧
  slot_waiters (map (λ sl, (close_slot force sl).1) l) ⊆+ slot_waiters l ∧
  Forall (λ sl, slot_state sl ≠ Idle ∧ ∀ w, slot_state sl ≠ CheckedOut w)
    (map (λ sl, (close_slot force sl).1) l).
Proof.
  induction l as [|sl l (IH1 & IH2 & IH3 & IH4)]; [done|]. cbn [map].
  destruct (close_slot_facts force sl) as (H1 & H2 & H3 & H4).
  rewrite !live_cons, H1, IH1, IH2, H2. split; [done|]. split; [done|]. split; [|by constructor].
  pose proof (slot_waiters_middle [] (close_slot force sl).1 (map (λ sl, (close_slot force sl).1) l)) as ->.
  pose proof (slot_waiters_middle [] sl l) as ->. by apply submseteq_app.
Qed.

Lemma begin_close_ok force s : inv s → op_ok (begin_close force) s.
Proof.
  intros Hinv. unfold begin_close. apply modify_seq_ok. unfold op_ok. st_run.
  set (s1 := push_history _ s). assert (inv s1) as Hinv1 by exact Hinv. clearbody s1. clear Hinv s.
  destruct (_ && _) eqn:Hg; [by split|]. st_run. split; [done|]. cbn [snd].
  assert (waiters (if force then set_waiters [] (set_closing true s1) else set_closing true s1) = [])
    as Hw.
  { destruct force; [done|]. cbn [negb andb] in Hg. rewrite !orb_false_iff, negb_false_iff in Hg.
    destruct Hg as [_ Hg]. by apply bool_decide_eq_true in Hg. }
  assert (slots (if force then set_waiters [] (set_closing true s1) else set_closing true s1) = slots s1
    ∧ pmin (if force then set_waiters [] (set_closing true s1) else set_closing true s1) = pmin s1
    ∧ pmax (if force then set_waiters [] (set_closing true s1) else set_closing true s1) = pmax s1
    ∧ closing (if force then set_waiters [] (set_closing true s1) else set_closing true s1) = true
    ∧ next_slot (if force then set_waiters [] (set_closing true s1) else set_closing true s1) = next_slot s1
    ∧ next_waiter (if force then set_waiters [] (set_closing true s1) else set_closing true s1)
      = next_waiter s1) as (Hs & Hmin & Hmax & Hcl & Hns & Hnw) by (by destruct force).
  set (s2 := if force then _ else _) in *. clearbody s2.
  destruct (closed_slots_facts force (slots s1)) as (H1 & H2 & H3 & H4).
  destruct Hinv1 as [(Hb & Hids & Hlt & Hnpos & Hm & Hnd & Hwlt) _].
  unfold inv, core, live_slot_count. cbn [pmin pmax slots waiters closing next_slot next_waiter].
  rewrite Hs, Hmin, Hmax, Hcl, Hns, Hnw, Hw, H1, H2. split; [|done].
  assert ([] ++ slot_waiters (map (λ sl, (close_slot force sl).1) (slots s1)) ⊆+
    waiters s1 ++ slot_waiters (slots s1)) as Hsub by (by apply submseteq_app; [apply submseteq_nil_l|]).
  split; [done|]. split; [done|]. split.
  { apply Forall_map. eapply Forall_impl; [|exact Hlt]. intros sl Hid. cbn.
    by destruct (close_slot_facts force sl) as [-> _]. }
  split; [done|]. split; [done|]. split; [by eapply submseteq_nodup|by eapply submseteq_forall].
Qed.

Lemma run_op_ok op s : inv s → op_ok (run_op op) s.
Proof.
  intros Hinv. destruct op; cbn [run_op].
  - destruct (request_acquire_ok s Hinv) as [Hr Hi]. unfold op_ok. st_run.
    destruct (request_acquire s) as [[w|e| |] s']; by split.
  - by apply cancel_acquire_ok.
  - by apply complete_open_ok.
  - by apply complete_ping_ok.
  - by apply release_ok.
  - by apply reap_idle_ok.
  - by apply complete_close_ok.
  - by apply begin_close_ok.
  - by split.
Qed.

Lemma pool_new_inv min max : 0 <= min <= max → ∃ s, pool_new min max = Ok s ∧ inv s ∧ closing s = false.
Proof.
  intros H. unfold pool_new. rewrite (proj2 (Z.leb_le min max)) by lia. cbn [negb].
  eexists. split; [done|].
  set (s0 := mkPure min max [] [] [] [] false 1 1).
  assert (core (waiters s0) s0) as Hc.
  { unfold core, live_slot_count. cbn. split_and!; try done; try lia; try (by apply list.NoDup_nil).
    change (Zlen (@nil PoolSlot)) with 0. lia. }
  destruct (ensure_loop_spec (Z.to_nat (pmin s0 - live_slot_count s0)) s0 Hc eq_refl) as (H1&H2&H3&H4);
    [lia|].
  unfold ensure_min_opening, inv. rewrite H4. split; [|done]. split; [done|]. split; [done|].
  left. apply H3. by left.
Qed.

Lemma reachable_inv min max s : 0 <= min <= max → reachable min max s → inv s.
Proof.
  intros H (s0 & Hnew & Hsteps). destruct (pool_new_inv min max H) as (s0' & Heq & Hinv & _).
  rewrite Heq in Hnew. injection Hnew as ->. clear Heq.
  induction Hsteps as [|s1 s2 s3 Hstep _ IH]; [done|]. apply IH.
  destruct Hstep as [op s r s' Hrun]. pose proof (run_op_ok op s Hinv) as [_ Hi].
  by rewrite Hrun in Hi.
Qed.

(** ** What holds in every reachable state *)

Definition holds (s : PurePoolState) (waiter slot : Z) : Prop :=
  ∃ sl, sl ∈ slots s ∧ slot_id sl = slot ∧ slot_waiter (slot_state sl) = Some waiter.

Lemma holds_unique_slot s w a b : inv s → holds s w a → holds s w b → a = b.
Proof.
  intros [(_ & _ & _ & _ & _ & Hnd & _) _] (sla & Hina & <- & Hwa) (slb & Hinb & <- & Hwb).
  apply list.NoDup_app in Hnd as (_ & _ & Hnd).
  apply list_elem_of_split in Hina as (l1 & l2 & Hl).
  rewrite Hl in Hnd. rewrite slot_waiters_middle, Hwa in Hnd. cbn in Hnd.
  apply list.NoDup_cons in Hnd as [Hni _]. rewrite Hl in Hinb.
  assert (∀ l, slb ∈ l → w ∈ slot_waiters l) as Hmem.
  { intros l Hin. unfold slot_waiters. apply list_elem_of_omap. by exists slb. }
  apply elem_of_app in Hinb as [Hin|[->|Hin]%elem_of_cons]; [|done|].
  - destruct Hni. apply Hmem. apply elem_of_app. by left.
  - destruct Hni. apply Hmem. apply elem_of_app. by right.
Qed.

(** C10: In every state the pool lifecycle can reach, by any sequence of requests,
    cancellations, completions, releases, reaps and closes: slot identities are
    distinct, live slots never exceed the maximum (nor, unless closing, fall
    below the minimum), a waiter is queued at most once and never queued while
    it holds a slot, and it holds at most one slot. *)
Theorem lifecycle_safe min max s :
  0 <= min <= max → reachable min max s →
  NoDup (map slot_id (slots s)) ∧ live_slot_count s <= pmax s ∧
  (closing s = false → pmin s <= live_slot_count s) ∧
  NoDup (waiters s) ∧ (∀ w slot, holds s w slot → w ∉ waiters s) ∧
  (∀ w a b, holds s w a → holds s w b → a = b).
Proof.
  intros Hb Hr. pose proof (reachable_inv min max s Hb Hr) as Hinv.
  pose proof Hinv as [(_ & Hids & _ & _ & Hmax & Hnd & _) Hrest].
  apply list.NoDup_app in Hnd as (Hw & Hdisj & _).
  split; [done|]. split; [done|]. split; [by intros Hcl; rewrite Hcl in Hrest; destruct Hrest|].
  split; [done|]. split; [|by intros w a b; apply holds_unique_slot].
  intros w slot (sl & Hin & _ & Hsw) Hq. apply (Hdisj w Hq). unfold slot_waiters.
  apply list_elem_of_omap. by exists sl.
Qed.

(** A pool of one or two slots after a request, an open, and a second request. *)
Definition sample_ops : list PoolOp :=
  [RequestAcquire; CompleteOpen 1 true; RequestAcquire; RequestAcquire; Release 1].
Definition run_ops (ops : list PoolOp) (s : PurePoolState) : PurePoolState :=
  foldl (λ s op, (run_op op s).2) s ops.

Lemma run_ops_reachable min max ops s0 :
  pool_new min max = Ok s0 → reachable min max (run_ops ops s0).
Proof.
  intros Hnew. exists s0. split; [done|]. clear Hnew. revert s0.
  induction ops as [|op ops IH]; intros s0; [apply rtc_refl|].
  eapply rtc_l; [|apply IH]. apply (pool_step_op op _ (run_op op s0).1). by destruct (run_op op s0).
Qed.

Definition sample_state : PurePoolState :=
  run_ops sample_ops (ensure_min_opening (mkPure 1 2 [] [] [] [] false 1 1)).

Lemma lifecycle_safe_witness :
  NoDup (map slot_id (slots sample_state)) ∧ live_slot_count sample_state <= pmax sample_state ∧
  (closing sample_state = false → pmin sample_state <= live_slot_count sample_state) ∧
  NoDup (waiters sample_state) ∧ (∀ w slot, holds sample_state w slot → w ∉ waiters sample_state) ∧
  (∀ w a b, holds sample_state w a → holds sample_state w b → a = b).
Proof.
  apply (lifecycle_safe 1 2 sample_state); [done|]. by apply run_ops_reachable.
Defined.

Lemma slot_position_unique s sl :
  NoDup (map slot_id (slots s)) → sl ∈ slots s →
  ∃ ix, slot_position (slot_id sl) s = Some (ix, sl) ∧ slots s !! ix = Some sl.
Proof.
  intros Hnd Hin. unfold slot_position.
  destruct (list_find_elem_of (λ x, slot_id x = slot_id sl) (slots s) sl Hin eq_refl) as [[ix sl'] Hf].
  pose proof Hf as (Hix & Hid & _)%list_find_Some. exists ix.
  apply list_elem_of_lookup_1 in Hin as (j & Hj).
  assert (ix = j) as <-.
  { apply (NoDup_lookup (map slot_id (slots s)) ix j (slot_id sl)); [done|..];
      rewrite list_lookup_fmap; [by rewrite Hix, <- Hid|by rewrite Hj]. }
  rewrite Hix in Hj. injection Hj as ->. done.
Qed.

Lemma drive_ensure_quiet s :
  core (waiters s) s → closing s = false → quiet (ensure_min_opening (drive_waiters s)).
Proof.
  intros Hc Hcl. unfold drive_waiters. rewrite Hcl.
  destruct (drive_loop_spec (waiters s) s Hc) as (Hc1&Hq&_&_&Hcl1). rewrite Hcl in Hcl1.
  unfold ensure_min_opening. set (s1 := drive_loop _ _) in *.
  destruct (ensure_loop_spec (Z.to_nat (pmin s1 - live_slot_count s1)) s1 Hc1 Hcl1)
    as (_&_&Hq2&_); [lia|]. auto.
Qed.

(** The operation on a slot that is found. *)
Lemma slot_op_run {A} slot (k : nat → PoolSlotState → PoolM A) s ix sl :
  slot_position slot s = Some (ix, sl) → slots s !! ix = Some sl →
  (ix ← slot_index slot; st ← state_at ix; k ix st) s = k ix (slot_state sl) s.
Proof.
  intros Hp Hix. unfold slot_index, state_at. st_run. rewrite Hp. st_run. rewrite Hix.
  cbn [or_panic fmap option_fmap option_map]. by st_run.
Qed.

Lemma complete_close_quiet s sl :
  inv s → closing s = false → sl ∈ slots s → slot_state sl = Retiring →
  quiet (run_op (CompleteClose (slot_id sl)) s).2.
Proof.
  intros [Hc _] Hcl Hin Hst. pose proof Hc as (_ & Hids & _).
  destruct (slot_position_unique s sl Hids Hin) as (ix & Hp & Hix).
  cbn [run_op]. unfold complete_close.
  rewrite (slot_op_run (slot_id sl) _ s ix sl Hp Hix), Hst. st_run. cbn [snd].
  apply drive_ensure_quiet; [|done].
  apply (set_state_core s ix sl Closed Hix (waiters s)); [done|by rewrite Hst|].
  cbn. rewrite app_nil_r. by apply submseteq_inserts_r.
Qed.

(** C34: No lost wake-up: in a reachable state that is not closing, waiters only
    queue when no slot is idle and the pool is at its maximum, or while a slot
    is being retired, whose completion serves the queue again. *)
Theorem lifecycle_no_lost_wakeup min max s :
  0 <= min <= max → reachable min max s → closing s = false → waiters s ≠ [] →
  (no_idle s ∧ live_slot_count s = pmax s) ∨
  ∃ sl, sl ∈ slots s ∧ slot_state sl = Retiring ∧
    quiet (run_op (CompleteClose (slot_id sl)) s).2.
Proof.
  intros Hb Hr Hcl Hw. pose proof (reachable_inv min max s Hb Hr) as Hinv.
  pose proof Hinv as [Hc Hrest]. rewrite Hcl in Hrest. destruct Hrest as [Hmin [[|[Hi Hl]]|Hex]]; [done| |].
  { left. split; [done|]. destruct Hc as (_&_&_&_&Hmax&_). lia. }
  right. apply Exists_exists in Hex as (sl & Hin & Hst). exists sl. split; [by apply list_elem_of_In|].
  split; [done|]. apply complete_close_quiet; [done|done|by apply list_elem_of_In|done].
Qed.

Definition retiring_ops : list PoolOp :=
  [CompleteOpen 1 true; RequestAcquire; CompletePing 1 false].
Definition retiring_state : PurePoolState :=
  run_ops retiring_ops (ensure_min_opening (mkPure 1 1 [] [] [] [] false 1 1)).

Lemma lifecycle_no_lost_wakeup_witness :
  (no_idle retiring_state ∧ live_slot_count retiring_state = pmax retiring_state) ∨
  ∃ sl, sl ∈ slots retiring_state ∧ slot_state sl = Retiring ∧
    quiet (run_op (CompleteClose (slot_id sl)) retiring_state).2.
Proof.
  apply (lifecycle_no_lost_wakeup 1 1 retiring_state); [done| |done|done].
  by apply run_ops_reachable.
Defined.

(** ** Shutdown *)

(** Completions a slot still has to go through before it is closed. *)
Definition pending (st : PoolSlotState) : Z :=
  match st with
  | Closed => 0
  | Retiring | Closing => 1
  | Opening _ | Validating _ | Idle | CheckedOut _ => 2
  end.
Definition shutdown_measure (s : PurePoolState) : Z :=
  foldr (λ sl n, pending (slot_state sl) + n) 0 (slots s).

(** The completion event a slot waits for. *)
Definition completion (sl : PoolSlot) : option (bool → PoolOp) :=
  match slot_state sl with
  | Opening _ => Some (CompleteOpen (slot_id sl))
  | Validating _ => Some (CompletePing (slot_id sl))
  | Retiring | Closing => Some (λ _, CompleteClose (slot_id sl))
  | Idle | CheckedOut _ | Closed => None
  end.

Lemma measure_middle l1 sl l2 :
  foldr (λ sl n, pending (slot_state sl) + n) 0 (l1 ++ sl :: l2) =
  pending (slot_state sl) + foldr (λ sl n, pending (slot_state sl) + n) 0 (l1 ++ l2).
Proof. induction l1 as [|x l1 IH]; cbn; [done|]. cbn in IH. lia. Qed.

Lemma set_state_measure s ix sl st :
  slots s !! ix = Some sl →
  shutdown_measure (set_state_at ix st s) =
    shutdown_measure s - pending (slot_state sl) + pending st.
Proof.
  intros Hix. destruct (list_split _ _ _ Hix) as (l1 & l2 & Hl & Hf).
  unfold shutdown_measure, set_state_at. cbn [slots set_slots]. rewrite Hf, Hl, !measure_middle.
  cbn [slot_state]. lia.
Qed.

Lemma measure_zero s :
  0 <= shutdown_measure s ∧ (shutdown_measure s = 0 ↔ Forall (λ sl, slot_state sl = Closed) (slots s)).
Proof.
  unfold shutdown_measure. induction (slots s) as [|sl l [IH1 IH2]]; [by cbn|].
  cbn [foldr]. assert (0 <= pending (slot_state sl) ∧ (pending (slot_state sl) = 0 ↔ slot_state sl = Closed))
    as [Hp Hz] by (destruct (slot_state sl); cbn; split; try lia; split; done || lia).
  split; [lia|]. rewrite Forall_cons_iff, <- Hz, <- IH2. lia.
Qed.

Lemma shutdown_decreases s s' ix sl st :
  slots s !! ix = Some sl → slots s' = slots (set_state_at ix st s) →
  pending st < pending (slot_state sl) → 0 <= shutdown_measure s' < shutdown_measure s.
Proof.
  intros Hix Hs Hlt. split; [apply measure_zero|].
  pose proof (set_state_measure s ix sl st Hix) as Hm. unfold shutdown_measure in *.
  rewrite Hs, Hm. lia.
Qed.

(** Shutdown terminates.  In a reachable closing state every slot that is not
    closed waits for a completion event, that event is accepted, whatever its
    outcome, and strictly decreases the work left; when no work is left every
    slot is closed.  New requests are refused and open nothing. *)
Theorem lifecycle_shutdown min max s :
  0 <= min <= max → reachable min max s → closing s = true →
  (∀ sl, sl ∈ slots s → slot_state sl ≠ Closed →
     ∃ event, completion sl = Some event ∧ ∀ healthy,
       ∃ s', run_op (event healthy) s = (Ok (), s') ∧ closing s' = true ∧
         0 <= shutdown_measure s' < shutdown_measure s) ∧
  (shutdown_measure s = 0 → Forall (λ sl, slot_state sl = Closed) (slots s)) ∧
  run_op RequestAcquire s = (Err ClosedErr, s).
Proof.
  intros Hb Hr Hcl. pose proof (reachable_inv min max s Hb Hr) as [Hc Hrest]. rewrite Hcl in Hrest.
  destruct Hrest as [_ Hall]. pose proof Hc as (_ & Hids & _). split.
  2:{ split; [apply measure_zero|]. cbn [run_op]. unfold request_acquire. st_run. by rewrite Hcl. }
  intros sl Hin Hne. destruct (slot_position_unique s sl Hids Hin) as (ix & Hp & Hix).
  rewrite list.Forall_forall in Hall. destruct (Hall sl Hin) as [Hni Hnc].
  destruct (slot_state sl) as [w| |w|w| | |] eqn:Hst; try done.
  - exists (CompleteOpen (slot_id sl)). unfold completion. rewrite Hst. split; [done|].
    intros []; cbn [run_op]; unfold complete_open; rewrite (slot_op_run _ _ s ix sl Hp Hix), Hst; st_run.
    + rewrite Hcl. st_run. eexists. split; [done|]. split; [done|].
      by apply (shutdown_decreases s _ ix sl Closing); [..|rewrite Hst].
    + eexists. split; [done|].
      rewrite push_front_waiter_eq, drive_closing by done. rewrite closing_ensure by done.
      split; [done|]. by apply (shutdown_decreases s _ ix sl Closed); [..|rewrite Hst].
  - by destruct (Hnc w).
  - exists (CompletePing (slot_id sl)). unfold completion. rewrite Hst. split; [done|].
    intros []; cbn [run_op]; unfold complete_ping; rewrite (slot_op_run _ _ s ix sl Hp Hix), Hst; st_run.
    + rewrite Hcl. st_run. eexists. split; [done|]. split; [done|].
      by apply (shutdown_decreases s _ ix sl Closing); [..|rewrite Hst].
    + eexists. split; [done|]. rewrite push_front_waiter_eq. split; [done|].
      by apply (shutdown_decreases s _ ix sl Retiring); [..|rewrite Hst].
  - exists (λ _, CompleteClose (slot_id sl)). unfold completion. rewrite Hst. split; [done|].
    intros h. cbn [run_op]. unfold complete_close. rewrite (slot_op_run _ _ s ix sl Hp Hix), Hst. st_run.
    eexists. split; [done|]. rewrite drive_closing, closing_ensure by done. split; [done|].
    by apply (shutdown_decreases s _ ix sl Closed); [..|rewrite Hst].
  - exists (λ _, CompleteClose (slot_id sl)). unfold completion. rewrite Hst. split; [done|].
    intros h. cbn [run_op]. unfold complete_close. rewrite (slot_op_run _ _ s ix sl Hp Hix), Hst. st_run.
    eexists. split; [done|]. rewrite drive_closing, closing_ensure by done. split; [done|].
    by apply (shutdown_decreases s _ ix sl Closed); [..|rewrite Hst].
Qed.

Definition closing_state : PurePoolState :=
  run_ops [RequestAcquire; CompleteOpen 1 true; RequestAcquire; BeginClose true]
    (ensure_min_opening (mkPure 1 2 [] [] [] [] false 1 1)).

Lemma lifecycle_shutdown_witness :
  (∀ sl, sl ∈ slots closing_state → slot_state sl ≠ Closed →
     ∃ event, completion sl = Some event ∧ ∀ healthy,
       ∃ s', run_op (event healthy) closing_state = (Ok (), s') ∧ closing s' = true ∧
         0 <= shutdown_measure s' < shutdown_measure closing_state) ∧
  (shutdown_measure closing_state = 0 →
     Forall (λ sl, slot_state sl = Closed) (slots closing_state)) ∧
  run_op RequestAcquire closing_state = (Err ClosedErr, closing_state).
Proof.
  apply (lifecycle_shutdown 1 2 closing_state); [done| |done]. by apply run_ops_reachable.
Defined.
