(* ===== verification/PoolEngine.v ===== *)
(** * The connection pool engine ([pool.rs], [pool/engine.rs], [pool/acquire.rs])

    The mutable state behind the pool's lock ([PoolState]), the requests and
    connections in it, every function that runs under the lock, and the reaper
    task as a program counter between its locked sections.  What the pool calls
    (the [PoolBackend], the clock) answers through an argument of each step.

    Two things are added to the source's state.  [ps_lost] collects the
    connections that leave the state without passing through
    [close_connection]: values a Rust assignment or scope end drops.  The
    engine keeps the logs [created] and [closed] of the backend calls.
    Notifications ([bg], [async_waiters]) carry no data; every step is possible
    at any time here, woken or not. *)

From S2P Require Import Prelude.
From S2P Require Import Lifecycle.

Definition POOL_GETMODE_WAIT : Z := 0.
Definition POOL_GETMODE_NOWAIT : Z := 1.
Definition POOL_GETMODE_FORCEGET : Z := 2.
Definition POOL_GETMODE_TIMEDWAIT : Z := 3.

Inductive PoolError :=
| PoolClosed
| NoConnectionAvailable
| HasBusyConnections
| ConnectionNotAcquired
| Backend (message : string)
| Cancelled (message : string)
| Internal (message : string).

Record PoolConfig := mkConfig {
  cfg_min : Z;
  cfg_max : Z;
  cfg_increment : Z;
  cfg_getmode : Z;
  cfg_wait_timeout_ms : Z;
  cfg_timeout_secs : Z;
  cfg_max_lifetime_session_secs : Z;
  cfg_ping_interval_secs : Z;
  cfg_ping_timeout_ms : Z;
  cfg_creation_cclass : option string
}.

Definition PoolConfig_new (min max increment : Z) : PoolConfig :=
  mkConfig min max increment POOL_GETMODE_WAIT 0 0 0 60 5000 None.

Record AcquireOptions := mkOptions { opt_wants_new : bool; opt_cclass : option string }.

Record PoolStats := mkStats {
  stat_open : Z; stat_busy : Z; stat_idle : Z; stat_opening : Z; stat_validating : Z;
  stat_retiring : Z; stat_waiters : Z
}.

(** [usize::saturating_add], [u32::saturating_add] and [saturating_u32]. *)
Definition sat_add (max a b : Z) : Z := Z.min max (a + b).
Definition saturating_u32 (value : Z) : Z := default U32_MAX (try_range 0 U32_MAX value).

Section Engine.
Context {C : Type}.

Record PooledConn := mkConn {
  pc_id : Z;
  pc_conn : C;
  pc_cclass : option string;
  time_created : Z;
  time_returned : Z;
  is_pool_extra : bool;
  ever_acquired : bool
}.

Record Request := mkRequest {
  rq_id : Z;
  rq_cclass : option string;
  rq_cclass_matches : bool;
  rq_wants_new : bool;
  rq_requires_ping : bool;
  rq_bg_processing : bool;
  rq_is_extra : bool;
  rq_is_replacing : bool;
  rq_in_progress : bool;
  rq_completed : bool;
  rq_waiting : bool;
  rq_conn : option PooledConn;
  rq_error : option string
}.

Record PoolState := mkPool {
  ps_open : bool;
  ps_config : PoolConfig;
  ps_force_get : bool;
  ps_wait_timeout_ms : option Z;
  ps_free_new : list PooledConn;
  ps_free_used : list PooledConn;
  ps_busy : list PooledConn;
  ps_to_drop : list PooledConn;
  ps_requests : list Request;
  ps_open_effects : list PoolEffect;
  ps_in_flight : list PoolEffect;
  ps_next_conn_id : Z;
  ps_next_request_id : Z;
  ps_lost : list PooledConn
}.

(** ** Field updates *)

Definition upd_rq_requires_ping (f : bool → bool) (s : Request) : Request :=
  mkRequest (rq_id s) (rq_cclass s) (rq_cclass_matches s) (rq_wants_new s)
    (f (rq_requires_ping s)) (rq_bg_processing s) (rq_is_extra s) (rq_is_replacing s)
    (rq_in_progress s) (rq_completed s) (rq_waiting s) (rq_conn s) (rq_error s).
Definition upd_rq_bg_processing (f : bool → bool) (s : Request) : Request :=
  mkRequest (rq_id s) (rq_cclass s) (rq_cclass_matches s) (rq_wants_new s) (rq_requires_ping s)
    (f (rq_bg_processing s)) (rq_is_extra s) (rq_is_replacing s) (rq_in_progress s)
    (rq_completed s) (rq_waiting s) (rq_conn s) (rq_error s).
Definition upd_rq_is_extra (f : bool → bool) (s : Request) : Request :=
  mkRequest (rq_id s) (rq_cclass s) (rq_cclass_matches s) (rq_wants_new s) (rq_requires_ping s)
    (rq_bg_processing s) (f (rq_is_extra s)) (rq_is_replacing s) (rq_in_progress s)
    (rq_completed s) (rq_waiting s) (rq_conn s) (rq_error s).
Definition upd_rq_is_replacing (f : bool → bool) (s : Request) : Request :=
  mkRequest (rq_id s) (rq_cclass s) (rq_cclass_matches s) (rq_wants_new s) (rq_requires_ping s)
    (rq_bg_processing s) (rq_is_extra s) (f (rq_is_replacing s)) (rq_in_progress s)
    (rq_completed s) (rq_waiting s) (rq_conn s) (rq_error s).
Definition upd_rq_in_progress (f : bool → bool) (s : Request) : Request :=
  mkRequest (rq_id s) (rq_cclass s) (rq_cclass_matches s) (rq_wants_new s) (rq_requires_ping s)
    (rq_bg_processing s) (rq_is_extra s) (rq_is_replacing s) (f (rq_in_progress s))
    (rq_completed s) (rq_waiting s) (rq_conn s) (rq_error s).
Definition upd_rq_completed (f : bool → bool) (s : Request) : Request :=
  mkRequest (rq_id s) (rq_cclass s) (rq_cclass_matches s) (rq_wants_new s) (rq_requires_ping s)
    (rq_bg_processing s) (rq_is_extra s) (rq_is_replacing s) (rq_in_progress s)
    (f (rq_completed s)) (rq_waiting s) (rq_conn s) (rq_error s).
Definition upd_rq_waiting (f : bool → bool) (s : Request) : Request :=
  mkRequest (rq_id s) (rq_cclass s) (rq_cclass_matches s) (rq_wants_new s) (rq_requires_ping s)
    (rq_bg_processing s) (rq_is_extra s) (rq_is_replacing s) (rq_in_progress s) (rq_completed s)
    (f (rq_waiting s)) (rq_conn s) (rq_error s).
Definition upd_rq_conn (f : option PooledConn → option PooledConn) (s : Request) : Request :=
  mkRequest (rq_id s) (rq_cclass s) (rq_cclass_matches s) (rq_wants_new s) (rq_requires_ping s)
    (rq_bg_processing s) (rq_is_extra s) (rq_is_replacing s) (rq_in_progress s) (rq_completed s)
    (rq_waiting s) (f (rq_conn s)) (rq_error s).
Definition upd_rq_error (f : option string → option string) (s : Request) : Request :=
  mkRequest (rq_id s) (rq_cclass s) (rq_cclass_matches s) (rq_wants_new s) (rq_requires_ping s)
    (rq_bg_processing s) (rq_is_extra s) (rq_is_replacing s) (rq_in_progress s) (rq_completed s)
    (rq_waiting s) (rq_conn s) (f (rq_error s)).

Definition upd_ps_open (f : bool → bool) (s : PoolState) : PoolState :=
  mkPool (f (ps_open s)) (ps_config s) (ps_force_get s) (ps_wait_timeout_ms s) (ps_free_new s)
    (ps_free_used s) (ps_busy s) (ps_to_drop s) (ps_requests s) (ps_open_effects s)
    (ps_in_flight s) (ps_next_conn_id s) (ps_next_request_id s) (ps_lost s).
Definition upd_ps_config (f : PoolConfig → PoolConfig) (s : PoolState) : PoolState :=
  mkPool (ps_open s) (f (ps_config s)) (ps_force_get s) (ps_wait_timeout_ms s) (ps_free_new s)
    (ps_free_used s) (ps_busy s) (ps_to_drop s) (ps_requests s) (ps_open_effects s)
    (ps_in_flight s) (ps_next_conn_id s) (ps_next_request_id s) (ps_lost s).
Definition upd_ps_force_get (f : bool → bool) (s : PoolState) : PoolState :=
  mkPool (ps_open s) (ps_config s) (f (ps_force_get s)) (ps_wait_timeout_ms s) (ps_free_new s)
    (ps_free_used s) (ps_busy s) (ps_to_drop s) (ps_requests s) (ps_open_effects s)
    (ps_in_flight s) (ps_next_conn_id s) (ps_next_request_id s) (ps_lost s).
Definition upd_ps_wait_timeout_ms (f : option Z → option Z) (s : PoolState) : PoolState :=
  mkPool (ps_open s) (ps_config s) (ps_force_get s) (f (ps_wait_timeout_ms s)) (ps_free_new s)
    (ps_free_used s) (ps_busy s) (ps_to_drop s) (ps_requests s) (ps_open_effects s)
    (ps_in_flight s) (ps_next_conn_id s) (ps_next_request_id s) (ps_lost s).
Definition upd_ps_free_new (f : list PooledConn → list PooledConn) (s : PoolState) : PoolState :=
  mkPool (ps_open s) (ps_config s) (ps_force_get s) (ps_wait_timeout_ms s) (f (ps_free_new s))
    (ps_free_used s) (ps_busy s) (ps_to_drop s) (ps_requests s) (ps_open_effects s)
    (ps_in_flight s) (ps_next_conn_id s) (ps_next_request_id s) (ps_lost s).
Definition upd_ps_free_used (f : list PooledConn → list PooledConn) (s : PoolState) : PoolState :=
  mkPool (ps_open s) (ps_config s) (ps_force_get s) (ps_wait_timeout_ms s) (ps_free_new s)
    (f (ps_free_used s)) (ps_busy s) (ps_to_drop s) (ps_requests s) (ps_open_effects s)
    (ps_in_flight s) (ps_next_conn_id s) (ps_next_request_id s) (ps_lost s).
Definition upd_ps_busy (f : list PooledConn → list PooledConn) (s : PoolState) : PoolState :=
  mkPool (ps_open s) (ps_config s) (ps_force_get s) (ps_wait_timeout_ms s) (ps_free_new s)
    (ps_free_used s) (f (ps_busy s)) (ps_to_drop s) (ps_requests s) (ps_open_effects s)
    (ps_in_flight s) (ps_next_conn_id s) (ps_next_request_id s) (ps_lost s).
Definition upd_ps_to_drop (f : list PooledConn → list PooledConn) (s : PoolState) : PoolState :=
  mkPool (ps_open s) (ps_config s) (ps_force_get s) (ps_wait_timeout_ms s) (ps_free_new s)
    (ps_free_used s) (ps_busy s) (f (ps_to_drop s)) (ps_requests s) (ps_open_effects s)
    (ps_in_flight s) (ps_next_conn_id s) (ps_next_request_id s) (ps_lost s).
Definition upd_ps_requests (f : list Request → list Request) (s : PoolState) : PoolState :=
  mkPool (ps_open s) (ps_config s) (ps_force_get s) (ps_wait_timeout_ms s) (ps_free_new s)
    (ps_free_used s) (ps_busy s) (ps_to_drop s) (f (ps_requests s)) (ps_open_effects s)
    (ps_in_flight s) (ps_next_conn_id s) (ps_next_request_id s) (ps_lost s).
Definition upd_ps_open_effects (f : list PoolEffect → list PoolEffect) (s : PoolState) : PoolState :=
  mkPool (ps_open s) (ps_config s) (ps_force_get s) (ps_wait_timeout_ms s) (ps_free_new s)
    (ps_free_used s) (ps_busy s) (ps_to_drop s) (ps_requests s) (f (ps_open_effects s))
    (ps_in_flight s) (ps_next_conn_id s) (ps_next_request_id s) (ps_lost s).
Definition upd_ps_in_flight (f : list PoolEffect → list PoolEffect) (s : PoolState) : PoolState :=
  mkPool (ps_open s) (ps_config s) (ps_force_get s) (ps_wait_timeout_ms s) (ps_free_new s)
    (ps_free_used s) (ps_busy s) (ps_to_drop s) (ps_requests s) (ps_open_effects s)
    (f (ps_in_flight s)) (ps_next_conn_id s) (ps_next_request_id s) (ps_lost s).
Definition upd_ps_next_conn_id (f : Z → Z) (s : PoolState) : PoolState :=
  mkPool (ps_open s) (ps_config s) (ps_force_get s) (ps_wait_timeout_ms s) (ps_free_new s)
    (ps_free_used s) (ps_busy s) (ps_to_drop s) (ps_requests s) (ps_open_effects s)
    (ps_in_flight s) (f (ps_next_conn_id s)) (ps_next_request_id s) (ps_lost s).
Definition upd_ps_next_request_id (f : Z → Z) (s : PoolState) : PoolState :=
  mkPool (ps_open s) (ps_config s) (ps_force_get s) (ps_wait_timeout_ms s) (ps_free_new s)
    (ps_free_used s) (ps_busy s) (ps_to_drop s) (ps_requests s) (ps_open_effects s)
    (ps_in_flight s) (ps_next_conn_id s) (f (ps_next_request_id s)) (ps_lost s).
Definition upd_ps_lost (f : list PooledConn → list PooledConn) (s : PoolState) : PoolState :=
  mkPool (ps_open s) (ps_config s) (ps_force_get s) (ps_wait_timeout_ms s) (ps_free_new s)
    (ps_free_used s) (ps_busy s) (ps_to_drop s) (ps_requests s) (ps_open_effects s)
    (ps_in_flight s) (ps_next_conn_id s) (ps_next_request_id s) (f (ps_lost s)).

(** What the backend and the clock answer during one step: whether a connection
    is still open, and the time in nanoseconds. *)
Record Env := mkEnv { env_is_open : C → bool; env_now : Z }.

Definition elapsed (env : Env) (t : Z) : Z := sat_sub (env_now env) t.
Definition from_secs (secs : Z) : Z := secs * 1000000000.

(** ** Counts derived from the state *)

Definition request_is_opening (r : Request) : bool :=
  rq_bg_processing r && negb (rq_requires_ping r) && negb (rq_completed r)
  && bool_decide (rq_error r = None)
  && (rq_in_progress r || rq_is_extra r || rq_is_replacing r).

Definition is_open_effect (e : PoolEffect) : bool :=
  match e with OpenEffect _ _ => true | _ => false end.

Definition count_requests (p : Request → bool) (s : PoolState) : Z :=
  Zlen (filter (λ r, p r = true) (ps_requests s)).

Definition pending_open_count (s : PoolState) : Z :=
  let effect_count :=
    Zlen (filter (λ e, is_open_effect e = true) (ps_open_effects s ++ ps_in_flight s)) in
  saturating_u32 (sat_add USIZE_MAX effect_count (count_requests request_is_opening s)).

Definition compatible_idle_count (wants_new : bool) (request_cclass : option string)
    (cclass_matches : bool) (s : PoolState) : Z :=
  if wants_new then 0
  else
    let used := Zlen (filter (λ c, request_cclass = None ∨ pc_cclass c = request_cclass)
                        (ps_free_used s)) in
    let new := if cclass_matches then Zlen (ps_free_new s) else 0 in
    saturating_u32 (sat_add USIZE_MAX used new).

Definition has_conn (r : Request) : bool :=
  match rq_conn r with Some _ => true | None => false end.
Definition has_error (r : Request) : bool :=
  match rq_error r with Some _ => true | None => false end.

Definition compatible_waiting_demand (s : PoolState) : Z :=
  saturating_u32 (count_requests (λ r,
    rq_waiting r && rq_cclass_matches r && negb (rq_completed r) && negb (rq_requires_ping r)
    && negb (rq_is_extra r) && negb (rq_is_replacing r) && negb (has_conn r)
    && negb (has_error r)) s).

Definition active_open_count (s : PoolState) : Z :=
  let request_connections := count_requests has_conn s in
  saturating_u32
    (sat_add USIZE_MAX
       (sat_add USIZE_MAX (sat_add USIZE_MAX (Zlen (ps_free_new s)) (Zlen (ps_free_used s)))
          (Zlen (ps_busy s)))
       request_connections).

Definition reserved_open_count (s : PoolState) : Z :=
  sat_add U32_MAX (active_open_count s) (pending_open_count s).

Definition derived_lifecycle_counts (s : PoolState) : PoolCounts :=
  mkCounts
    (pending_open_count s)
    (sat_add USIZE_MAX (Zlen (ps_free_new s)) (Zlen (ps_free_used s)))
    (Zlen (ps_busy s))
    (count_requests (λ r, rq_requires_ping r && (rq_bg_processing r || rq_in_progress r)) s)
    (Zlen (ps_to_drop s))
    0 0
    (count_requests (λ r, rq_waiting r && negb (rq_completed r) && negb (has_error r)) s).

Definition pool_stats (s : PoolState) : PoolStats :=
  let counts := derived_lifecycle_counts s in
  mkStats (active_open_count s) (saturating_u32 (c_checked_out counts))
    (saturating_u32 (c_idle counts)) (saturating_u32 (c_opening counts))
    (saturating_u32 (c_validating counts)) (saturating_u32 (c_retiring counts))
    (saturating_u32 (c_waiters counts)).

(** ** Growth effects *)

Fixpoint schedule_loop (count : nat) (s : PoolState) : PoolState :=
  match count with
  | O => s
  | S count =>
      let slot := ps_next_conn_id s in
      schedule_loop count
        (upd_ps_open_effects (λ l, l ++ [OpenEffect slot None])
           (upd_ps_next_conn_id (λ n, n + 1) s))
  end.
Definition schedule_open_effects (count : Z) (s : PoolState) : PoolState :=
  schedule_loop (Z.to_nat count) s.

(** The first position satisfying a test leaves a list. *)
Fixpoint remove_first {A} (p : A → bool) (l : list A) : option (A * list A) :=
  match l with
  | [] => None
  | x :: l =>
      if p x then Some (x, l)
      else '(y, l') ← remove_first p l; Some (y, x :: l')
  end.

Definition complete_open_effect (conn_id : Z) (s : PoolState) : PoolState :=
  match remove_first
          (λ e, match e with OpenEffect slot _ => slot =? conn_id | _ => false end)
          (ps_in_flight s) with
  | Some (_, rest) => upd_ps_in_flight (λ _, rest) s
  | None => s
  end.

Definition ensure_min_connections (s : PoolState) : PoolState :=
  if ps_open s then
    let reserved := reserved_open_count s in
    if reserved <? cfg_min (ps_config s)
    then schedule_open_effects (cfg_min (ps_config s) - reserved) s else s
  else s.

Definition drop_conn (conn : PooledConn) (s : PoolState) : PoolState :=
  ensure_min_connections (upd_ps_to_drop (λ l, l ++ [conn]) s).

(** ** Requests *)

Definition request_position (request_id : Z) (s : PoolState) : option (nat * Request) :=
  list_find (λ r, rq_id r = request_id) (ps_requests s).

Definition upd_request (position : nat) (f : Request → Request) (s : PoolState) : PoolState :=
  upd_ps_requests (alter f position) s.
Definition remove_request (position : nat) (s : PoolState) : PoolState :=
  upd_ps_requests (delete position) s.

(** [state.requests[position].conn = Some(conn)]: what was there is dropped. *)
Definition assign_conn (position : nat) (conn : PooledConn) (s : PoolState) : PoolState :=
  let old := match ps_requests s !! position with
             | Some r => option_list (rq_conn r)
             | None => []
             end in
  upd_ps_lost (λ l, l ++ old) (upd_request position (upd_rq_conn (λ _, Some conn)) s).

Definition set_extra (b : bool) (c : PooledConn) : PooledConn :=
  mkConn (pc_id c) (pc_conn c) (pc_cclass c) (time_created c) (time_returned c) b (ever_acquired c).
Definition set_returned (t : Z) (c : PooledConn) : PooledConn :=
  mkConn (pc_id c) (pc_conn c) (pc_cclass c) (time_created c) t (is_pool_extra c) (ever_acquired c).
Definition set_acquired (c : PooledConn) : PooledConn :=
  mkConn (pc_id c) (pc_conn c) (pc_cclass c) (time_created c) (time_returned c) (is_pool_extra c)
    true.

(** [conn] is what [request.conn.take()] returned. *)
Definition reject (conn : option PooledConn) (s : PoolState) : PoolState :=
  match conn with
  | None => s
  | Some conn =>
      if negb (ps_open s) then upd_ps_to_drop (λ l, l ++ [set_extra false conn]) s
      else if is_pool_extra conn then upd_ps_to_drop (λ l, l ++ [set_extra false conn]) s
      else if negb (ever_acquired conn) then upd_ps_free_new (λ l, l ++ [conn]) s
      else upd_ps_free_used (λ l, l ++ [conn]) s
  end.

Definition abandon_request (request_id : Z) (s : PoolState) : PoolState :=
  match request_position request_id s with
  | None => s
  | Some (position, request) =>
      let s := upd_request position (upd_rq_waiting (λ _, false)) s in
      if negb (rq_bg_processing request)
      then reject (rq_conn request) (remove_request position s)
      else s
  end.

Definition add_request_for_bg (request_id : Z) (s : PoolState) : PoolState :=
  match request_position request_id s with
  | Some (position, _) =>
      upd_request position
        (λ r, upd_rq_completed (λ _, false) (upd_rq_bg_processing (λ _, true) r)) s
  | None => s
  end.

Definition check_connection (env : Env) (request_id : Z) (conn : PooledConn) (s : PoolState)
  : PoolState :=
  if negb (env_is_open env (pc_conn conn)) then drop_conn conn s
  else
    let max_lifetime := cfg_max_lifetime_session_secs (ps_config s) in
    if (0 <? max_lifetime) && (from_secs max_lifetime <? elapsed env (time_created conn))
    then drop_conn conn s
    else
      let ping_interval := cfg_ping_interval_secs (ps_config s) in
      let requires_ping :=
        if ping_interval =? 0 then true
        else if 0 <? ping_interval
        then from_secs (Z.abs ping_interval) <? elapsed env (time_returned conn)
        else false in
      match request_position request_id s with
      | None => reject (Some conn) s
      | Some (position, _) =>
          let s := assign_conn position conn s in
          if requires_ping
          then add_request_for_bg request_id (upd_request position (upd_rq_requires_ping (λ _, true)) s)
          else upd_request position (upd_rq_completed (λ _, true)) s
      end.

(** ** Acquiring *)

Abbreviation EngineM := (ST PoolError PoolState).

Definition enqueue_request (opts : AcquireOptions) : EngineM Z :=
  open ← gets ps_open;
  if negb open then throw PoolClosed
  else
    request_id ← gets ps_next_request_id;
    _ ← modify (upd_ps_next_request_id (λ n, n + 1));
    pool_cclass ← gets (λ s, cfg_creation_cclass (ps_config s));
    let cclass_matches :=
      bool_decide (opt_cclass opts = None) || bool_decide (opt_cclass opts = pool_cclass) in
    _ ← modify (upd_ps_requests (λ l, l ++
          [mkRequest request_id (opt_cclass opts) cclass_matches (opt_wants_new opts)
             false false false false false false true None None]));
    mret request_id.

(** What both scans of [fulfill] do with a candidate: [Some b] is [return Ok(b)]. *)
Definition try_candidate (env : Env) (request_id : Z) (conn : PooledConn)
  : EngineM (option bool) :=
  _ ← modify (check_connection env request_id conn);
  p ← gets (request_position request_id);
  match p with
  | None => throw (Internal "request lost")
  | Some (_, request) =>
      if rq_completed request || rq_requires_ping request
      then mret (Some (rq_completed request))
      else mret None
  end.

(** [while ix > 0] over the used connections, from the tail. *)
Fixpoint scan_used (fuel : nat) (env : Env) (request_id : Z) (request_cclass : option string)
    (ix : nat) : EngineM (option bool) :=
  match ix with
  | O => mret None
  | S ix =>
      match fuel with
      | O => lift Diverge
      | S fuel =>
          l ← gets ps_free_used;
          conn ← lift (or_panic (l !! ix));
          if bool_decide (request_cclass = None ∨ pc_cclass conn = request_cclass) then
            _ ← modify (upd_ps_free_used (delete ix));
            r ← try_candidate env request_id conn;
            match r with
            | Some b => mret (Some b)
            | None =>
                len ← gets (λ s, length (ps_free_used s));
                scan_used fuel env request_id request_cclass (Nat.min ix len)
            end
          else scan_used fuel env request_id request_cclass ix
      end
  end.

(** [Vec::pop] *)
Definition pop_back {A} (l : list A) : option (A * list A) :=
  match rev l with
  | [] => None
  | x :: l' => Some (x, rev l')
  end.

(** [while let Some(conn) = state.free_new.pop()] *)
Fixpoint scan_new (fuel : nat) (env : Env) (request_id : Z) : EngineM (option bool) :=
  l ← gets ps_free_new;
  match pop_back l with
  | None => mret None
  | Some (conn, rest) =>
      match fuel with
      | O => lift Diverge
      | S fuel =>
          _ ← modify (upd_ps_free_new (λ _, rest));
          r ← try_candidate env request_id conn;
          match r with
          | Some b => mret (Some b)
          | None => scan_new fuel env request_id
          end
      end
  end.

Definition update_by_id (request_id : Z) (f : Request → Request) (s : PoolState) : PoolState :=
  match request_position request_id s with
  | Some (position, _) => upd_request position f s
  | None => s
  end.

(** The pool is full: replace an idle connection, grow past the limit under
    FORCEGET, refuse under NOWAIT.  [Some b] is [return Ok(b)]. *)
Definition fulfill_at_max (request_id : Z) : EngineM (option bool) :=
  s ← gets (λ s, s);
  match pop_back (ps_free_new s) with
  | Some (victim, rest) =>
      _ ← modify (λ s, add_request_for_bg request_id
            (upd_ps_to_drop (λ l, l ++ [victim])
               (update_by_id request_id (upd_rq_is_replacing (λ _, true))
                  (upd_ps_free_new (λ _, rest) s))));
      mret (Some false)
  | None =>
      match pop_back (ps_free_used s) with
      | Some (victim, rest) =>
          _ ← modify (λ s, add_request_for_bg request_id
                (upd_ps_to_drop (λ l, l ++ [victim])
                   (update_by_id request_id (upd_rq_is_replacing (λ _, true))
                      (upd_ps_free_used (λ _, rest) s))));
          mret (Some false)
      | None =>
          if ps_force_get s then
            _ ← modify (λ s, add_request_for_bg request_id
                  (update_by_id request_id (upd_rq_is_extra (λ _, true)) s));
            mret (Some false)
          else if cfg_getmode (ps_config s) =? POOL_GETMODE_NOWAIT
          then throw NoConnectionAvailable
          else mret None
      end
  end.

(** There is room: schedule growth for the demand that is not yet covered. *)
Definition fulfill_grow (wants_new : bool) (request_cclass : option string) (cclass_matches : bool)
    (s : PoolState) : PoolState :=
  let remaining_capacity := sat_sub (cfg_max (ps_config s)) (reserved_open_count s) in
  let pending := pending_open_count s in
  let idle := compatible_idle_count wants_new request_cclass cclass_matches s in
  let demand := compatible_waiting_demand s in
  let supply := sat_add U32_MAX pending idle in
  let shortfall := sat_sub demand supply in
  let desired :=
    if pending =? 0 then Z.max (cfg_increment (ps_config s)) shortfall else shortfall in
  if 0 <? desired then schedule_open_effects (Z.min desired remaining_capacity) s else s.

(** The tail of [fulfill]: no free connection was usable. *)
Definition fulfill_wait (request_id : Z) (wants_new : bool) (request_cclass : option string)
    (cclass_matches : bool) : EngineM bool :=
  _ ← modify (update_by_id request_id (upd_rq_requires_ping (λ _, false)));
  full ← gets (λ s, cfg_max (ps_config s) <=? reserved_open_count s);
  r ← (if full : bool then fulfill_at_max request_id
       else if cclass_matches
       then _ ← modify (fulfill_grow wants_new request_cclass cclass_matches); mret None
       else mret None);
  match r with
  | Some b => mret b
  | None => _ ← modify (add_request_for_bg request_id); mret false
  end.

(** The two scans in their order; [Some b] is [return Ok(b)]. *)
Definition fulfill_scan (env : Env) (request_id : Z) (request : Request) : EngineM (option bool) :=
  len ← gets (λ s, length (ps_free_used s));
  r ← (if rq_wants_new request then mret None
       else scan_used len env request_id (rq_cclass request) len);
  match r with
  | Some b => mret (Some b)
  | None =>
      if rq_cclass_matches request then
        len ← gets (λ s, length (ps_free_new s));
        scan_new len env request_id
      else mret None
  end.

Definition fulfill (env : Env) (request_id : Z) : EngineM bool :=
  open ← gets ps_open;
  if negb open then throw PoolClosed
  else
    p ← gets (request_position request_id);
    match p with
    | None => throw (Internal "request lost")
    | Some (position, request) =>
        match rq_error request with
        | Some error =>
            _ ← modify (upd_request position (upd_rq_error (λ _, None)));
            throw (Backend error)
        | None =>
            if rq_completed request then mret true
            else if rq_bg_processing request then mret false
            else
              r ← fulfill_scan env request_id request;
              match r with
              | Some b => mret b
              | None => fulfill_wait request_id (rq_wants_new request) (rq_cclass request)
                          (rq_cclass_matches request)
              end
        end
    end.

Definition finish_completed_request (request_id : Z) : EngineM Z :=
  p ← gets (request_position request_id);
  match p with
  | None => throw (Internal "request lost")
  | Some (position, request) =>
      _ ← modify (remove_request position);
      match rq_conn request with
      | None => throw (Internal "completed request without connection")
      | Some conn =>
          _ ← modify (upd_ps_busy (λ l, l ++ [set_acquired conn]));
          mret (pc_id conn)
      end
  end.

Definition poll_request_completion (env : Env) (request_id : Z) : EngineM (option Z) := λ s,
  match fulfill env request_id s with
  | (Ok true, s) => (Some <$> (finish_completed_request request_id s).1,
                     (finish_completed_request request_id s).2)
  | (Ok false, s) => (Ok None, s)
  | (Err err, s) => (Err err, abandon_request request_id s)
  | (Panic, s) => (Panic, s)
  | (Diverge, s) => (Diverge, s)
  end.

(** ** Returning *)

(** The loop of [return_connection_helper]: the first request that can take the
    connection gets it; otherwise it is left over. *)
Fixpoint offer_returned (conn : PooledConn) (l : list Request) : list Request * option PooledConn :=
  match l with
  | [] => ([], Some conn)
  | r :: l =>
      if negb (rq_in_progress r || rq_wants_new r || has_conn r || negb (rq_waiting r)
               || rq_completed r || has_error r)
         && bool_decide (rq_cclass r = None ∨ rq_cclass r = pc_cclass conn)
      then (upd_rq_bg_processing (λ _, false)
              (upd_rq_completed (λ _, true) (upd_rq_conn (λ _, Some conn) r)) :: l, None)
      else let '(l, spare) := offer_returned conn l in (r :: l, spare)
  end.

Definition return_connection_helper (env : Env) (conn : PooledConn) (is_open : bool)
    (s : PoolState) : PoolState :=
  if negb is_open then drop_conn conn s
  else
    let count_with_returned := sat_add U32_MAX (active_open_count s) 1 in
    let extra := is_pool_extra conn in
    let conn := if extra then set_extra false conn else conn in
    if extra && (cfg_max (ps_config s) <? count_with_returned) then drop_conn conn s
    else
      let conn := set_returned (env_now env) conn in
      let max_lifetime := cfg_max_lifetime_session_secs (ps_config s) in
      if negb (max_lifetime =? 0) && (from_secs max_lifetime <? elapsed env (time_created conn))
      then drop_conn conn s
      else
        match offer_returned conn (ps_requests s) with
        | (l, None) => upd_ps_requests (λ _, l) s
        | (l, Some conn) => upd_ps_free_used (λ u, u ++ [conn]) (upd_ps_requests (λ _, l) s)
        end.

(** One message of the drop-return channel. *)
Definition drain_one (env : Env) (s : PoolState) (conn_id : Z) : PoolState :=
  if negb (ps_open s) then s
  else
    match remove_first (λ c, pc_id c =? conn_id) (ps_busy s) with
    | None => s
    | Some (conn, rest) =>
        return_connection_helper env conn (env_is_open env (pc_conn conn))
          (upd_ps_busy (λ _, rest) s)
    end.
Definition drain_drop_returns (env : Env) (channel : list Z) (s : PoolState) : PoolState :=
  foldl (drain_one env) s channel.

Definition return_connection_impl (env : Env) (conn_id : Z) : EngineM () :=
  open ← gets ps_open;
  if negb open then mret ()
  else
    busy ← gets ps_busy;
    match remove_first (λ c, pc_id c =? conn_id) busy with
    | None => throw ConnectionNotAcquired
    | Some (conn, rest) =>
        modify (λ s, return_connection_helper env conn (env_is_open env (pc_conn conn))
                       (upd_ps_busy (λ _, rest) s))
    end.

Definition drop_connection_impl (conn_id : Z) : EngineM () :=
  open ← gets ps_open;
  if negb open then mret ()
  else
    busy ← gets ps_busy;
    match remove_first (λ c, pc_id c =? conn_id) busy with
    | None => mret ()
    | Some (conn, rest) => modify (λ s, drop_conn conn (upd_ps_busy (λ _, rest) s))
    end.

(** ** Closing *)

Definition request_conns (l : list Request) : list PooledConn := omap rq_conn l.

(** The loop over the requests: their connections go to the drop queue, the
    ones in progress stay. *)
Definition request_worker_shutdown_locked (s : PoolState) : PoolState :=
  let in_flight :=
    filter (λ r, rq_in_progress r = true)
      (map (λ r, upd_rq_conn (λ _, None) (upd_rq_waiting (λ _, false) r)) (ps_requests s)) in
  mkPool false (ps_config s) (ps_force_get s) (ps_wait_timeout_ms s) [] [] []
    (ps_to_drop s ++ (ps_free_new s ++ ps_free_used s ++ ps_busy s)
       ++ request_conns (ps_requests s))
    in_flight [] (ps_in_flight s) (ps_next_conn_id s) (ps_next_request_id s) (ps_lost s).

Definition request_worker_shutdown (force : bool) : EngineM bool :=
  s ← gets (λ s, s);
  if negb (ps_open s) then mret false
  else if negb force && (negb (Zlen (ps_busy s) =? 0) || existsb rq_waiting (ps_requests s))
  then throw HasBusyConnections
  else _ ← modify request_worker_shutdown_locked; mret true.

(** ** Settings *)


Definition set_getmode (value : Z) (s : PoolState) : PoolState :=
  if negb (cfg_getmode (ps_config s) =? value) then
    upd_ps_wait_timeout_ms (λ _, if value =? POOL_GETMODE_TIMEDWAIT then Some 0 else None)
      (upd_ps_force_get (λ _, value =? POOL_GETMODE_FORCEGET)
         (upd_ps_config (λ c, mkConfig (cfg_min c) (cfg_max c) (cfg_increment c) value
            (cfg_wait_timeout_ms c) (cfg_timeout_secs c) (cfg_max_lifetime_session_secs c)
            (cfg_ping_interval_secs c) (cfg_ping_timeout_ms c) (cfg_creation_cclass c)) s))
  else s.

Definition set_wait_timeout_ms (value : Z) (s : PoolState) : PoolState :=
  upd_ps_wait_timeout_ms
    (λ _, if cfg_getmode (ps_config s) =? POOL_GETMODE_TIMEDWAIT then Some value else None) s.

Definition set_timeout_secs (value : Z) : PoolState → PoolState :=
  upd_ps_config (λ c, mkConfig (cfg_min c) (cfg_max c) (cfg_increment c) (cfg_getmode c)
    (cfg_wait_timeout_ms c) value (cfg_max_lifetime_session_secs c)
    (cfg_ping_interval_secs c) (cfg_ping_timeout_ms c) (cfg_creation_cclass c)).

Definition set_max_lifetime_session_secs (value : Z) : PoolState → PoolState :=
  upd_ps_config (λ c, mkConfig (cfg_min c) (cfg_max c) (cfg_increment c) (cfg_getmode c)
    (cfg_wait_timeout_ms c) (cfg_timeout_secs c) value
    (cfg_ping_interval_secs c) (cfg_ping_timeout_ms c) (cfg_creation_cclass c)).

Definition set_ping_interval_secs (value : Z) : PoolState → PoolState :=
  upd_ps_config (λ c, mkConfig (cfg_min c) (cfg_max c) (cfg_increment c) (cfg_getmode c)
    (cfg_wait_timeout_ms c) (cfg_timeout_secs c) (cfg_max_lifetime_session_secs c)
    value (cfg_ping_timeout_ms c) (cfg_creation_cclass c)).

(** ** The reaper's locked sections *)

(** The test of [peek_next_request] on the first live queued request. *)
Definition actionable (s : PoolState) (r : Request) : bool :=
  negb (rq_waiting r) || rq_requires_ping r || rq_is_replacing r || rq_is_extra r
  || (negb (rq_cclass_matches r) && (reserved_open_count s <? cfg_max (ps_config s))).

Fixpoint peek_loop (s : PoolState) (l : list Request) : option Z :=
  match l with
  | [] => None
  | r :: l =>
      if rq_completed r || has_error r || rq_in_progress r then peek_loop s l
      else if negb (rq_bg_processing r) then peek_loop s l
      else if actionable s r then Some (rq_id r) else None
  end.
Definition peek_next_request (s : PoolState) : option Z := peek_loop s (ps_requests s).

Definition get_next_request (s : PoolState) : option Z * PoolState :=
  match peek_next_request s with
  | None => (None, s)
  | Some id => (Some id, update_by_id id (λ r, upd_rq_in_progress (λ _, rq_waiting r) r) s)
  end.

Definition post_process_request (request_id : Z) (s : PoolState) : PoolState :=
  match request_position request_id s with
  | None => s
  | Some (position, request) =>
      let s := upd_request position
                 (λ r, upd_rq_bg_processing (λ _, false) (upd_rq_in_progress (λ _, false) r)) s in
      if has_conn request then
        let s := upd_request position (upd_rq_completed (λ _, true)) s in
        if negb (rq_waiting request)
        then reject (rq_conn request) (remove_request position s)
        else s
      else
        let s := if rq_requires_ping request then ensure_min_connections s else s in
        if negb (rq_waiting request) then remove_request position s else s
  end.

(** The request that learns of a failed growth. *)
Definition blame (r : Request) : bool :=
  rq_bg_processing r && rq_waiting r && negb (rq_requires_ping r) && negb (rq_is_extra r)
  && negb (rq_is_replacing r) && rq_cclass_matches r && negb (has_conn r).

(** The loop of [post_create_conn]. *)
Fixpoint offer_created (open_count max : Z) (conn : PooledConn) (l : list Request)
  : list Request * option PooledConn :=
  match l with
  | [] => ([], Some conn)
  | r :: l =>
      if rq_in_progress r || has_conn r || negb (rq_waiting r) || rq_completed r || has_error r
      then let '(l, spare) := offer_created open_count max conn l in (r :: l, spare)
      else if bool_decide (rq_cclass r = None ∨ rq_cclass r = pc_cclass conn)
      then (upd_rq_bg_processing (λ _, false)
              (upd_rq_completed (λ _, true) (upd_rq_conn (λ _, Some conn) r)) :: l, None)
      else if negb (rq_cclass_matches r) && (max <=? open_count)
      then (upd_rq_is_replacing (λ _, true) (upd_rq_conn (λ _, Some conn) r) :: l, None)
      else let '(l, spare) := offer_created open_count max conn l in (r :: l, spare)
  end.

Definition post_create_conn (conn_id : Z) (created : string + PooledConn) (s : PoolState)
  : PoolState :=
  let s := complete_open_effect conn_id s in
  match created with
  | inl error =>
      if ps_open s then
        match list_find (λ r, blame r = true) (ps_requests s) with
        | Some (position, _) =>
            upd_request position
              (λ r, upd_rq_error (λ _, Some error) (upd_rq_bg_processing (λ _, false) r)) s
        | None => s
        end
      else s
  | inr conn =>
      if negb (ps_open s) then upd_ps_to_drop (λ l, l ++ [conn]) s
      else
        let max := cfg_max (ps_config s) in
        let open_count := sat_add U32_MAX (active_open_count s) 1 in
        match offer_created open_count max conn (ps_requests s) with
        | (l, None) => upd_ps_requests (λ _, l) s
        | (l, Some conn) => upd_ps_free_new (λ n, n ++ [conn]) (upd_ps_requests (λ _, l) s)
        end
  end.

(** One list of the sweep.  [None] leaves the function; each round takes a
    connection from the list, so its length bounds the rounds. *)
Fixpoint sweep_list (fuel : nat) (env : Env) (limit : Z) (get : PoolState → list PooledConn)
    (pop : PoolState → PoolState) (s : PoolState) : bool * PoolState :=
  if active_open_count s <=? cfg_min (ps_config s) then (false, s)
  else
    match get s with
    | [] => (true, s)
    | first :: _ =>
        if elapsed env (time_returned first) <? limit then (true, s)
        else
          match fuel with
          | O => (false, s)
          | S fuel => sweep_list fuel env limit get pop (drop_conn first (pop s))
          end
    end.

Definition sweep_idle_timeout (env : Env) (s : PoolState) : PoolState :=
  let timeout_secs := cfg_timeout_secs (ps_config s) in
  if timeout_secs =? 0 then s
  else
    let limit := from_secs timeout_secs in
    let '(continue, s) :=
      sweep_list (length (ps_free_new s)) env limit ps_free_new
        (upd_ps_free_new (drop 1)) s in
    if continue : bool then
      (sweep_list (length (ps_free_used s)) env limit ps_free_used
         (upd_ps_free_used (drop 1)) s).2
    else s.

(** What [process_request] takes out of the state before it calls the backend. *)
Inductive Work :=
| WorkPing (conn : PooledConn) (ping_timeout_ms : Z)
| WorkCreate (conn_id : Z) (cclass : option string) (is_extra : bool)
    (replaced : option PooledConn)
| WorkNothing.

Definition begin_process (request_id : Z) (s : PoolState) : Work * PoolState :=
  match request_position request_id s with
  | None => (WorkNothing, s)
  | Some (position, request) =>
      let taken := upd_request position (upd_rq_conn (λ _, None)) s in
      if rq_requires_ping request then
        match rq_conn request with
        | Some conn => (WorkPing conn (cfg_ping_timeout_ms (ps_config s)), taken)
        | None => (WorkNothing, s)
        end
      else if rq_is_replacing request || rq_is_extra request || negb (rq_cclass_matches request)
      then (WorkCreate (ps_next_conn_id s) (rq_cclass request) (rq_is_extra request)
              (rq_conn request),
            upd_ps_next_conn_id (λ n, n + 1) taken)
      else (WorkNothing, s)
  end.

(** A healthy ping gives the connection back; without its request it is
    dropped at the end of the scope. *)
Definition finish_ping (request_id : Z) (conn : PooledConn) (s : PoolState) : PoolState :=
  match request_position request_id s with
  | Some (position, _) => assign_conn position conn s
  | None => upd_ps_lost (λ l, l ++ [conn]) s
  end.

Definition finish_create (env : Env) (request_id conn_id : Z) (cclass : option string)
    (is_extra : bool) (replaced : option PooledConn) (result : string + C) (s : PoolState)
  : PoolState :=
  let s := match replaced with Some old => drop_conn old s | None => s end in
  match request_position request_id s with
  | None =>
      match result with
      | inr conn =>
          upd_ps_to_drop (λ l, l ++
            [mkConn conn_id conn cclass (env_now env) (env_now env) false false]) s
      | inl _ => s
      end
  | Some (position, _) =>
      match result with
      | inr conn =>
          assign_conn position
            (mkConn conn_id conn cclass (env_now env) (env_now env) is_extra false) s
      | inl error => upd_request position (upd_rq_error (λ _, Some error)) s
      end
  end.

(** ** The engine: lock-protected state, drop channel, stop flag, reaper *)

(** Where the reaper is between two locked sections. *)
Inductive ReaperPc :=
| RTop (current_request : option Z)
| RPick (stopping : bool) (current_request : option Z)
| RProcess (request_id : Z)
| RPinging (request_id : Z) (conn : PooledConn)
| RCreating (request_id conn_id : Z) (cclass : option string) (is_extra : bool)
    (replaced : option PooledConn)
| RPost (request_id : Z)
| REffect (stopping : bool)
| ROpening (conn_id : Z) (cclass : option string)
| RDrops (stopping : bool)
| RClosing (conn : PooledConn)
| RSweep (stopping : bool)
| RParked
| RDone.

Record Engine := mkEngine {
  eng_state : PoolState;
  drop_returns : list Z;
  reaper_stop : bool;
  reaper : ReaperPc;
  created : list Z;
  closed : list Z
}.

Definition set_state (s : PoolState) (e : Engine) : Engine :=
  mkEngine s (drop_returns e) (reaper_stop e) (reaper e) (created e) (closed e).
Definition set_reaper (r : ReaperPc) (e : Engine) : Engine :=
  mkEngine (eng_state e) (drop_returns e) (reaper_stop e) r (created e) (closed e).
Definition log_created (id : Z) (e : Engine) : Engine :=
  mkEngine (eng_state e) (drop_returns e) (reaper_stop e) (reaper e) (created e ++ [id]) (closed e).
Definition log_closed (ids : list Z) (e : Engine) : Engine :=
  mkEngine (eng_state e) (drop_returns e) (reaper_stop e) (reaper e) (created e) (closed e ++ ids).

(** [drain_drop_returns] on the engine: the channel is emptied. *)
Definition drain (env : Env) (e : Engine) : Engine :=
  mkEngine (drain_drop_returns env (drop_returns e) (eng_state e)) [] (reaper_stop e) (reaper e)
    (created e) (closed e).

Definition pool_start (config : PoolConfig) : Engine :=
  let force_get := cfg_getmode config =? POOL_GETMODE_FORCEGET in
  let wait_timeout_ms :=
    if cfg_getmode config =? POOL_GETMODE_TIMEDWAIT then Some (cfg_wait_timeout_ms config)
    else None in
  let state := mkPool true config force_get wait_timeout_ms [] [] [] [] [] [] [] 1 1 [] in
  mkEngine (schedule_open_effects (cfg_min config) state) [] false (RTop None) [] [].

Definition close_all_connections (e : Engine) : Engine :=
  let s := eng_state e in
  let leftovers := ps_free_new s ++ ps_free_used s ++ ps_busy s ++ ps_to_drop s
                   ++ request_conns (ps_requests s) in
  let s' := mkPool false (ps_config s) (ps_force_get s) (ps_wait_timeout_ms s) [] [] [] []
              (map (upd_rq_conn (λ _, None)) (ps_requests s)) (ps_open_effects s) (ps_in_flight s)
              (ps_next_conn_id s) (ps_next_request_id s) (ps_lost s) in
  mkEngine s' (drop_returns e) true (reaper e) (created e)
    (closed e ++ map pc_id leftovers).

(** What the backend answers to the reaper's call in this step. *)
Record Answer := mkAnswer { ping_healthy : bool; create_result : string + C }.

(** One step of [reaper_main]: up to and including its next locked section or
    backend call. *)
Definition reaper_step (env : Env) (ans : Answer) (e : Engine) : Engine :=
  match reaper e with
  | RTop current_request => set_reaper (RPick (reaper_stop e) current_request) e
  | RPick stopping current_request =>
      let e := drain env e in
      let s := eng_state e in
      let '(current_request, s) :=
        match current_request with
        | None => if ps_open s then get_next_request s else (None, s)
        | Some id => (Some id, s)
        end in
      match current_request with
      | Some id => if ps_open s then set_reaper (RProcess id) (set_state s e)
                   else set_reaper (REffect stopping) (set_state s e)
      | None => set_reaper (REffect stopping) (set_state s e)
      end
  | RProcess request_id =>
      let '(work, s) := begin_process request_id (eng_state e) in
      set_reaper
        (match work with
         | WorkPing conn _ => RPinging request_id conn
         | WorkCreate conn_id cclass is_extra replaced =>
             RCreating request_id conn_id cclass is_extra replaced
         | WorkNothing => RPost request_id
         end) (set_state s e)
  | RPinging request_id conn =>
      set_reaper (RPost request_id)
        (if ping_healthy ans then set_state (finish_ping request_id conn (eng_state e)) e
         else log_closed [pc_id conn] e)
  | RCreating request_id conn_id cclass is_extra replaced =>
      let e := match create_result ans with inr _ => log_created conn_id e | inl _ => e end in
      set_reaper (RPost request_id)
        (set_state (finish_create env request_id conn_id cclass is_extra replaced
                      (create_result ans) (eng_state e)) e)
  | RPost request_id =>
      let s := post_process_request request_id (eng_state e) in
      let '(current_request, s) := get_next_request s in
      set_reaper (RTop current_request) (set_state s e)
  | REffect stopping =>
      let s := eng_state e in
      if ps_open s then
        let s := match ps_open_effects s with
                 | effect :: rest =>
                     upd_ps_in_flight (λ l, l ++ [effect]) (upd_ps_open_effects (λ _, rest) s)
                 | [] => s
                 end in
        match list.last (ps_in_flight s) with
        | Some (OpenEffect slot _) =>
            set_reaper (ROpening slot (cfg_creation_cclass (ps_config s))) (set_state s e)
        | _ => set_reaper (RDrops stopping) (set_state s e)
        end
      else set_reaper (RDrops stopping) e
  | ROpening conn_id cclass =>
      let e := match create_result ans with inr _ => log_created conn_id e | inl _ => e end in
      let result :=
        match create_result ans with
        | inr conn => inr (mkConn conn_id conn cclass (env_now env) (env_now env) false false)
        | inl error => inl error
        end in
      set_reaper (RTop None) (set_state (post_create_conn conn_id result (eng_state e)) e)
  | RDrops stopping =>
      match pop_back (ps_to_drop (eng_state e)) with
      | Some (conn, rest) =>
          set_reaper (RClosing conn) (set_state (upd_ps_to_drop (λ _, rest) (eng_state e)) e)
      | None => set_reaper (RSweep stopping) e
      end
  | RClosing conn => set_reaper (RTop None) (log_closed [pc_id conn] e)
  | RSweep stopping =>
      let s := sweep_idle_timeout env (eng_state e) in
      let e := set_state s e in
      if (negb (ps_open s) || stopping) && (Zlen (ps_to_drop s) =? 0) then set_reaper RDone e
      else if negb (Zlen (ps_open_effects s) =? 0) || negb (Zlen (ps_to_drop s) =? 0)
              || match peek_next_request s with Some _ => true | None => false end
      then set_reaper (RTop None) e
      else set_reaper RParked e
  | RParked => set_reaper (RTop None) e
  | RDone => e
  end.

(** Everything that can happen to the engine. *)
Inductive Event :=
| Acquire (opts : AcquireOptions)
| Poll (request_id : Z)
| Abandon (request_id : Z)
| ReturnConnection (conn_id : Z)
| DropConnection (conn_id : Z)
| EnqueueDropReturn (conn_id : Z)
| Drain
| SetGetmode (value : Z)
| SetWaitTimeoutMs (value : Z)
| SetTimeoutSecs (value : Z)
| SetMaxLifetimeSessionSecs (value : Z)
| SetPingIntervalSecs (value : Z)
| Close (force : bool)
| CloseAll
| ReaperStep (ans : Answer)
| ReaperExit.

Inductive Reply := ReplyUnit | ReplyId (id : Z) | ReplyPoll (id : option Z).

(** Run a function of the lock-protected state on the engine. *)
Definition locked {A} (m : EngineM A) : ST PoolError Engine A := λ e,
  let '(r, s) := m (eng_state e) in (r, set_state s e).

Definition handle (env : Env) (ev : Event) : ST PoolError Engine Reply :=
  match ev with
  | Acquire opts =>
      _ ← modify (drain env); id ← locked (enqueue_request opts); mret (ReplyId id)
  | Poll request_id =>
      r ← locked (poll_request_completion env request_id); mret (ReplyPoll r)
  | Abandon request_id =>
      _ ← locked (modify (abandon_request request_id)); mret ReplyUnit
  | ReturnConnection conn_id =>
      _ ← modify (drain env); _ ← locked (return_connection_impl env conn_id); mret ReplyUnit
  | DropConnection conn_id =>
      _ ← modify (drain env); _ ← locked (drop_connection_impl conn_id); mret ReplyUnit
  | EnqueueDropReturn conn_id =>
      _ ← modify (λ e, mkEngine (eng_state e) (drop_returns e ++ [conn_id]) (reaper_stop e)
                         (reaper e) (created e) (closed e));
      mret ReplyUnit
  | Drain => _ ← modify (drain env); mret ReplyUnit
  | SetGetmode value => _ ← locked (modify (set_getmode value)); mret ReplyUnit
  | SetWaitTimeoutMs value => _ ← locked (modify (set_wait_timeout_ms value)); mret ReplyUnit
  | SetTimeoutSecs value => _ ← locked (modify (set_timeout_secs value)); mret ReplyUnit
  | SetMaxLifetimeSessionSecs value =>
      _ ← locked (modify (set_max_lifetime_session_secs value)); mret ReplyUnit
  | SetPingIntervalSecs value =>
      _ ← locked (modify (set_ping_interval_secs value)); mret ReplyUnit
  | Close force =>
      _ ← modify (drain env);
      stopped ← locked (request_worker_shutdown force);
      _ ← modify (λ e, mkEngine (eng_state e) (drop_returns e) (reaper_stop e || stopped)
                         (reaper e) (created e) (closed e));
      mret ReplyUnit
  | CloseAll => _ ← modify close_all_connections; mret ReplyUnit
  | ReaperStep ans => _ ← modify (reaper_step env ans); mret ReplyUnit
  | ReaperExit =>
      _ ← modify (λ e, match reaper e with RTop _ => set_reaper RDone e | _ => e end);
      mret ReplyUnit
  end.

Inductive engine_step : Engine → Engine → Prop :=
| engine_step_event env ev e r e' : handle env ev e = (r, e') → engine_step e e'.

End Engine.
Arguments PooledConn : clear implicits.
Arguments Request : clear implicits.
Arguments PoolState : clear implicits.
Arguments Engine : clear implicits.
Arguments Event : clear implicits.
Arguments Env : clear implicits.
Arguments Answer : clear implicits.
Arguments ReaperPc : clear implicits.

(** Computations on the lock-protected state. *)
Abbreviation EngineM C := (ST PoolError (PoolState C)).
