(* ===== verification/PoolSafety.v ===== *)
(** * Safety of the pool engine

    Connections are conserved: in every state the engine can reach, each
    connection the backend created is in exactly one place, and none is closed
    twice or closed while the pool still holds it. *)

From stdpp Require Import relations.
From S2P Require Import Prelude.
From S2P Require Import Lifecycle.
From S2P Require Import PoolEngine.

(** ** List operations of the engine *)

Lemma pop_back_some {A} (l : list A) x rest : pop_back l = Some (x, rest) → l = rest ++ [x].
Proof.
  unfold pop_back. destruct (rev l) as [|y l'] eqn:H; [done|]. intros [= <- <-].
  by rewrite <- (rev_involutive l), H.
Qed.

Lemma pop_back_none {A} (l : list A) : pop_back l = None → l = [].
Proof.
  unfold pop_back. destruct (rev l) eqn:H; [|done]. intros _.
  by rewrite <- (rev_involutive l), H.
Qed.

Lemma remove_first_some {A} (p : A → bool) l x rest :
  remove_first p l = Some (x, rest) →
  p x = true ∧ ∃ l1 l2, l = l1 ++ x :: l2 ∧ rest = l1 ++ l2.
Proof.
  revert rest. induction l as [|y l IH]; intros rest; [done|]. cbn [remove_first].
  destruct (p y) eqn:Hp.
  - intros [= -> ->]. split; [done|]. by exists [], rest.
  - destruct (remove_first p l) as [[z l']|]; [|done]. cbn. intros [= -> <-].
    destruct (IH _ eq_refl) as (? & l1 & l2 & -> & ->). split; [done|]. by exists (y :: l1), l2.
Qed.

Lemma remove_first_none {A} (p : A → bool) l x : remove_first p l = None → x ∈ l → p x = false.
Proof.
  induction l as [|y l IH]; cbn [remove_first]; [by intros _ ?%not_elem_of_nil|].
  destruct (p y) eqn:Hp; [done|]. destruct (remove_first p l) as [[z l']|]; [done|].
  intros _ [->|Hx]%elem_of_cons; auto.
Qed.

(** Compute field accesses of updated records, and nothing else. *)
Ltac fields :=
  cbn [
    fst snd ps_open ps_config ps_force_get ps_wait_timeout_ms ps_free_new ps_free_used ps_busy
    ps_to_drop ps_requests ps_open_effects ps_in_flight ps_next_conn_id ps_next_request_id
    ps_lost upd_ps_open upd_ps_config upd_ps_force_get upd_ps_wait_timeout_ms
    upd_ps_free_new upd_ps_free_used upd_ps_busy upd_ps_to_drop upd_ps_requests
    upd_ps_open_effects upd_ps_in_flight upd_ps_next_conn_id upd_ps_next_request_id
    upd_ps_lost rq_id rq_cclass rq_cclass_matches rq_wants_new rq_requires_ping
    rq_bg_processing rq_is_extra rq_is_replacing rq_in_progress rq_completed rq_waiting
    rq_conn rq_error upd_rq_requires_ping upd_rq_bg_processing upd_rq_is_extra
    upd_rq_is_replacing upd_rq_in_progress upd_rq_completed upd_rq_waiting upd_rq_conn
    upd_rq_error upd_request remove_request set_extra set_returned set_acquired pc_id
    pc_conn pc_cclass time_created time_returned is_pool_extra ever_acquired eng_state
    drop_returns reaper_stop reaper created closed set_state set_reaper log_created
    log_closed
  ].
Ltac fields_in H :=
  cbn [
    fst snd ps_open ps_config ps_force_get ps_wait_timeout_ms ps_free_new ps_free_used ps_busy
    ps_to_drop ps_requests ps_open_effects ps_in_flight ps_next_conn_id ps_next_request_id
    ps_lost upd_ps_open upd_ps_config upd_ps_force_get upd_ps_wait_timeout_ms
    upd_ps_free_new upd_ps_free_used upd_ps_busy upd_ps_to_drop upd_ps_requests
    upd_ps_open_effects upd_ps_in_flight upd_ps_next_conn_id upd_ps_next_request_id
    upd_ps_lost rq_id rq_cclass rq_cclass_matches rq_wants_new rq_requires_ping
    rq_bg_processing rq_is_extra rq_is_replacing rq_in_progress rq_completed rq_waiting
    rq_conn rq_error upd_rq_requires_ping upd_rq_bg_processing upd_rq_is_extra
    upd_rq_is_replacing upd_rq_in_progress upd_rq_completed upd_rq_waiting upd_rq_conn
    upd_rq_error upd_request remove_request set_extra set_returned set_acquired pc_id
    pc_conn pc_cclass time_created time_returned is_pool_extra ever_acquired eng_state
    drop_returns reaper_stop reaper created closed set_state set_reaper log_created
    log_closed
  ] in H.

Section Safety.
Context {C : Type}.

(** ** Counting *)

Definition conn_hit (i : Z) (c : PooledConn C) : Z := hit i (pc_id c).
Definition req_hit (i : Z) (r : Request C) : Z :=
  match rq_conn r with Some c => conn_hit i c | None => 0 end.
Definition eff_hit (i : Z) (e : PoolEffect) : Z :=
  match e with OpenEffect slot _ => hit i slot | _ => 0 end.

Lemma eff_hit_nonneg i e : 0 <= eff_hit i e.
Proof. destruct e; cbn; [apply hit_range|lia..]. Qed.
Lemma conn_hit_nonneg i c : 0 <= conn_hit i c.
Proof. apply hit_range. Qed.
Lemma req_hit_nonneg i r : 0 <= req_hit i r.
Proof. unfold req_hit. destruct (rq_conn r); [apply conn_hit_nonneg|lia]. Qed.

(** How many connections with identity [i] the state holds, lost ones included. *)
Definition held (i : Z) (s : PoolState C) : Z :=
  sum_by (conn_hit i) (ps_free_new s) + sum_by (conn_hit i) (ps_free_used s)
  + sum_by (conn_hit i) (ps_busy s) + sum_by (conn_hit i) (ps_to_drop s)
  + sum_by (req_hit i) (ps_requests s) + sum_by (conn_hit i) (ps_lost s).

(** How many scheduled openings carry the identity [i]. *)
Definition slots_of (i : Z) (s : PoolState C) : Z :=
  sum_by (eff_hit i) (ps_open_effects s) + sum_by (eff_hit i) (ps_in_flight s).

(** 1 on the identities of the half-open range. *)
Definition fresh (lo hi i : Z) : Z := if decide (lo <= i < hi) then 1 else 0.

Lemma fresh_split lo mid hi i :
  lo <= mid <= hi → fresh lo hi i = fresh lo mid i + fresh mid hi i.
Proof. intros. unfold fresh. repeat case_decide; lia. Qed.
Lemma fresh_one n i : fresh n (n + 1) i = hit i n.
Proof. unfold fresh, hit. repeat case_decide; lia. Qed.
Lemma fresh_same n i : fresh n n i = 0.
Proof. unfold fresh. case_decide; lia. Qed.

(** From [s] to [s'] the state takes in the connections [ids], loses none, and
    schedules openings under new identities only. *)
Record transfer (ids : list Z) (s s' : PoolState C) : Prop := {
  tr_held : ∀ i, held i s' = held i s + occ i ids;
  tr_next : ps_next_conn_id s <= ps_next_conn_id s';
  tr_slots : ∀ i, slots_of i s' <= slots_of i s + fresh (ps_next_conn_id s) (ps_next_conn_id s') i;
  tr_flight : ps_in_flight s' = ps_in_flight s
}.

Lemma transfer_trans ids ids' s1 s2 s3 :
  transfer ids s1 s2 → transfer ids' s2 s3 → transfer (ids ++ ids') s1 s3.
Proof.
  intros [Hh Hn Hs Hf] [Hh' Hn' Hs' Hf']. split; [|lia| |congruence].
  - intros i. rewrite Hh', Hh. unfold occ. rewrite sum_by_app. lia.
  - intros i. specialize (Hs i). specialize (Hs' i).
    rewrite (fresh_split _ (ps_next_conn_id s2)) by lia. lia.
Qed.

Lemma transfer_trans0 s1 s2 s3 : transfer [] s1 s2 → transfer [] s2 s3 → transfer [] s1 s3.
Proof. apply transfer_trans. Qed.

(** A step that schedules nothing. *)
Lemma transfer_move ids s s' :
  (∀ i, held i s' = held i s + occ i ids) →
  ps_next_conn_id s' = ps_next_conn_id s → ps_open_effects s' = ps_open_effects s →
  ps_in_flight s' = ps_in_flight s → transfer ids s s'.
Proof.
  intros Hh Hn Ho Hf. split; [done|lia| |done]. intros i. unfold slots_of.
  rewrite Ho, Hf, Hn, fresh_same. lia.
Qed.

Lemma transfer_refl s : transfer [] s s.
Proof. apply transfer_move; [|done..]. intros i. unfold occ. rewrite sum_by_nil. lia. Qed.

(** Take a connection out of [s], giving [s1], and put it elsewhere. *)
Lemma transfer_through c s s1 s2 :
  (∀ i, held i s = held i s1 + conn_hit i c) →
  ps_next_conn_id s1 = ps_next_conn_id s → ps_open_effects s1 = ps_open_effects s →
  ps_in_flight s1 = ps_in_flight s →
  transfer [pc_id c] s1 s2 → transfer [] s s2.
Proof.
  intros Hh Hn Ho Hf [Hh' Hn' Hs' Hf']. split; [|lia| |congruence].
  - intros i. rewrite Hh', Hh. unfold occ. rewrite sum_by_cons, !sum_by_nil. unfold conn_hit. lia.
  - intros i. specialize (Hs' i). unfold slots_of in *. rewrite Ho, Hf in Hs'.
    by rewrite Hn in Hs'.
Qed.

(** Normalise a counting goal about updated fields. *)
Ltac count :=
  intros; unfold held, occ; fields; rewrite ?sum_by_app, ?sum_by_cons, ?sum_by_nil;
  unfold conn_hit; fields; try lia.

Lemma request_position_some id s p r :
  request_position (C:=C) id s = Some (p, r) → ps_requests s !! p = Some r ∧ rq_id r = id.
Proof. unfold request_position. intros (? & ? & _)%list_find_Some. done. Qed.

Lemma upd_request_transfer p f (s : PoolState C) r :
  ps_requests s !! p = Some r → (∀ i, req_hit i (f r) = req_hit i r) →
  transfer [] s (upd_request p f s).
Proof.
  intros Hp Hf. apply transfer_move; [|done..]. count.
  rewrite (sum_by_alter _ _ _ _ _ Hp), Hf. lia.
Qed.

Lemma update_by_id_transfer id f (s : PoolState C) :
  (∀ r i, req_hit i (f r) = req_hit i r) → transfer [] s (update_by_id id f s).
Proof.
  intros Hf. unfold update_by_id. destruct (request_position id s) as [[p r]|] eqn:Hp.
  - apply request_position_some in Hp as [Hp _]. by apply (upd_request_transfer _ _ _ r).
  - apply transfer_refl.
Qed.

Lemma schedule_transfer n (s : PoolState C) : transfer [] s (schedule_loop n s).
Proof.
  revert s. induction n as [|n IH]; intros s; cbn [schedule_loop]; [apply transfer_refl|].
  eapply transfer_trans0; [|apply IH]. split; fields; [count|lia| |done].
  intros i. unfold slots_of. fields. rewrite sum_by_app, sum_by_cons, sum_by_nil, fresh_one.
  cbn [eff_hit]. lia.
Qed.

(** Scheduling touches the effects and the next identity, nothing else. *)
Definition only_schedules (s s' : PoolState C) : Prop :=
  ps_requests s' = ps_requests s ∧ ps_free_new s' = ps_free_new s ∧
  ps_free_used s' = ps_free_used s ∧ ps_busy s' = ps_busy s ∧ ps_to_drop s' = ps_to_drop s ∧
  ps_open s' = ps_open s ∧ ps_config s' = ps_config s ∧ ps_force_get s' = ps_force_get s ∧
  ps_lost s' = ps_lost s ∧ ps_next_request_id s' = ps_next_request_id s ∧
  ps_in_flight s' = ps_in_flight s.

Lemma schedule_fields n : ∀ s : PoolState C, only_schedules s (schedule_loop n s).
Proof.
  induction n as [|n IH]; intros s; cbn [schedule_loop]; [done|].
  edestruct IH as (Hr & Hn & Hu & Hb & Hd & Ho & Hc & Hf & Hl & Hi & Hfl).
  unfold only_schedules. by rewrite Hr, Hn, Hu, Hb, Hd, Ho, Hc, Hf, Hl, Hi, Hfl.
Qed.

Lemma ensure_min_fields (s : PoolState C) : only_schedules s (ensure_min_connections s).
Proof.
  unfold ensure_min_connections, schedule_open_effects.
  repeat case_match; try done. apply schedule_fields.
Qed.

Lemma ensure_min_transfer (s : PoolState C) : transfer [] s (ensure_min_connections s).
Proof.
  unfold ensure_min_connections, schedule_open_effects.
  destruct (ps_open s); [destruct (_ <? _)|]; auto using transfer_refl, schedule_transfer.
Qed.

Lemma drop_conn_transfer c (s : PoolState C) : transfer [pc_id c] s (drop_conn c s).
Proof.
  unfold drop_conn. change [pc_id c] with ([pc_id c] ++ []).
  eapply transfer_trans; [|apply ensure_min_transfer]. apply transfer_move; [|done..]. count.
Qed.

Lemma reject_transfer c (s : PoolState C) :
  transfer (match c with Some c => [pc_id c] | None => [] end) s (reject c s).
Proof.
  unfold reject. destruct c as [c|]; [|apply transfer_refl].
  repeat case_match; (apply transfer_move; [count|done..]).
Qed.

Lemma remove_request_through p (s s' : PoolState C) r :
  ps_requests s !! p = Some r →
  transfer (match rq_conn r with Some c => [pc_id c] | None => [] end) (remove_request p s) s' →
  transfer [] s s'.
Proof.
  intros Hp. assert (∀ i, sum_by (req_hit i) (delete p (ps_requests s))
                   = sum_by (req_hit i) (ps_requests s) - req_hit i r) as Hd.
  { intros i. by apply sum_by_delete. }
  destruct (rq_conn r) as [c|] eqn:Hc.
  - apply transfer_through; [|done..]. count. rewrite Hd. unfold req_hit. rewrite Hc.
    unfold conn_hit. lia.
  - intros [Hh Hn Hs Hf]. split; [|done..]. intros i. rewrite Hh. count. rewrite Hd.
    unfold req_hit at 2. rewrite Hc. lia.
Qed.

Lemma assign_conn_transfer p c (s : PoolState C) r :
  ps_requests s !! p = Some r → transfer [pc_id c] s (assign_conn p c s).
Proof.
  intros Hp. unfold assign_conn. rewrite Hp. apply transfer_move; [|done..]. count.
  rewrite (sum_by_alter _ _ _ _ _ Hp). generalize (sum_by (req_hit i) (ps_requests s)).
  intros total. unfold req_hit. fields.
  destruct (rq_conn r) as [old|]; unfold option_list; cbn [option_rect];
    rewrite ?sum_by_cons, ?sum_by_nil; unfold conn_hit; lia.
Qed.

Lemma abandon_request_transfer id (s : PoolState C) : transfer [] s (abandon_request id s).
Proof.
  unfold abandon_request. destruct (request_position id s) as [[p r]|] eqn:Hp; [|apply transfer_refl].
  apply request_position_some in Hp as [Hp _].
  eapply transfer_trans0; [by apply (upd_request_transfer p (upd_rq_waiting (λ _, false)) s r)|].
  destruct (rq_bg_processing r); cbn [negb]; [apply transfer_refl|].
  eapply (remove_request_through p _ _ (upd_rq_waiting (λ _, false) r)).
  - fields. by rewrite list_lookup_alter, decide_True, Hp by done.
  - cbn [upd_rq_waiting rq_conn]. apply reject_transfer.
Qed.


Lemma add_request_for_bg_transfer id (s : PoolState C) : transfer [] s (add_request_for_bg id s).
Proof.
  unfold add_request_for_bg. destruct (request_position id s) as [[p r]|] eqn:Hp; [|apply transfer_refl].
  apply request_position_some in Hp as [Hp _]. by apply (upd_request_transfer _ _ _ r).
Qed.

Lemma check_connection_transfer env id c (s : PoolState C) :
  transfer [pc_id c] s (check_connection env id c s).
Proof.
  unfold check_connection. case_match; [apply drop_conn_transfer|].
  case_match; [apply drop_conn_transfer|].
  destruct (request_position id s) as [[p r]|] eqn:Hp; [|apply (reject_transfer (Some c))].
  apply request_position_some in Hp as [Hp _].
  change [pc_id c] with ([pc_id c] ++ []).
  eapply transfer_trans; [by apply (assign_conn_transfer p c s r)|].
  assert (ps_requests (assign_conn p c s) !! p = Some (upd_rq_conn (λ _, Some c) r)) as Hp'.
  { unfold assign_conn. fields. by rewrite list_lookup_alter, decide_True, Hp by done. }
  case_match.
  - eapply transfer_trans0; [|apply add_request_for_bg_transfer].
    by apply (upd_request_transfer _ _ _ _ Hp').
  - by apply (upd_request_transfer _ _ _ _ Hp').
Qed.

(** ** The acquiring side *)

(** Whatever a computation returns, the state it leaves holds the same
    connections. *)
Definition keeps {A} (m : EngineM C A) : Prop := ∀ s, transfer [] s (m s).2.

Lemma keeps_bind {A B} (m : EngineM C A) (f : A → EngineM C B) :
  keeps m → (∀ a, keeps (f a)) → keeps (m ≫= f).
Proof.
  intros Hm Hf s. rewrite st_bindE. specialize (Hm s). destruct (m s) as [[a| | |] s1]; cbn in *;
    try done. eapply transfer_trans0; [done|apply Hf].
Qed.
Lemma keeps_pure {A} (m : EngineM C A) : (∀ s, (m s).2 = s) → keeps m.
Proof. intros H s. rewrite H. apply transfer_refl. Qed.
Lemma keeps_modify f : (∀ s, transfer [] s (f s)) → keeps (modify (E:=PoolError) f).
Proof. intros H s. apply H. Qed.

(** The outcome of [m] from [s] is some [r], and the state it leaves is
    related to [s]. *)
Lemma try_candidate_transfer env id c (s : PoolState C) :
  transfer [pc_id c] s (try_candidate env id c s).2.
Proof.
  unfold try_candidate. st_run. destruct (request_position _ _) as [[p r]|]; [destruct (_ || _)|];
    apply check_connection_transfer.
Qed.

Lemma after_candidate {A} env id c (k : option bool → EngineM C A) (s s1 : PoolState C) :
  (∀ i, held i s = held i s1 + conn_hit i c) →
  ps_next_conn_id s1 = ps_next_conn_id s → ps_open_effects s1 = ps_open_effects s →
  ps_in_flight s1 = ps_in_flight s → (∀ r, keeps (k r)) →
  transfer [] s ((try_candidate env id c ≫= k) s1).2.
Proof.
  intros Hh Hn Ho Hf Hk. pose proof (try_candidate_transfer env id c s1) as Ht.
  rewrite st_bindE. destruct (try_candidate env id c s1) as [[r| | |] s2]; cbn [snd] in *.
  - eapply transfer_trans0; [by eapply transfer_through|]. apply Hk.
  - by eapply transfer_through.
  - by eapply transfer_through.
  - by eapply transfer_through.
Qed.

Lemma scan_used_keeps fuel env id cclass : ∀ ix, keeps (scan_used (C:=C) fuel env id cclass ix).
Proof.
  induction fuel as [|fuel IH]; intros [|ix] s; cbn [scan_used]; try apply transfer_refl.
  st_run. destruct (ps_free_used s !! ix) as [c|] eqn:Hix; cbn [or_panic]; st_run;
    [|apply transfer_refl].
  case_bool_decide; [|apply IH]. st_run. eapply after_candidate; [|done..|].
  - count. rewrite (sum_by_delete _ _ _ _ Hix). unfold conn_hit. lia.
  - intros [b|]; [by apply keeps_pure|]. intros s2. st_run. apply IH.
Qed.

Lemma scan_new_keeps fuel env id : keeps (scan_new (C:=C) fuel env id).
Proof.
  induction fuel as [|fuel IH]; intros s; cbn [scan_new]; st_run;
    destruct (pop_back _) as [[c rest]|] eqn:Hp; try apply transfer_refl.
  apply pop_back_some in Hp. st_run. eapply after_candidate; [|done..|].
  - count. rewrite Hp, sum_by_app, sum_by_cons, sum_by_nil. unfold conn_hit. lia.
  - intros [b|]; [by apply keeps_pure|apply IH].
Qed.

(** A victim moves to the drop queue, and the request is queued. *)
Lemma replace_transfer id f (s s1 : PoolState C) victim :
  (∀ i, held i s = held i s1 + conn_hit i victim) →
  ps_next_conn_id s1 = ps_next_conn_id s → ps_open_effects s1 = ps_open_effects s →
  ps_in_flight s1 = ps_in_flight s → (∀ r i, req_hit i (f r) = req_hit i r) →
  transfer [] s (add_request_for_bg id (upd_ps_to_drop (λ l, l ++ [victim]) (update_by_id id f s1))).
Proof.
  intros Hh Hn Ho Hf Hr. eapply transfer_trans0; [|apply add_request_for_bg_transfer].
  eapply transfer_through; [done..|]. eapply (transfer_trans []); [by apply update_by_id_transfer|].
  apply transfer_move; [|done..]. count.
Qed.

Lemma fulfill_at_max_keeps id : keeps (fulfill_at_max (C:=C) id).
Proof.
  intros s. unfold fulfill_at_max. st_run.
  destruct (pop_back (ps_free_new s)) as [[v rest]|] eqn:Hn;
    [|destruct (pop_back (ps_free_used s)) as [[v rest]|] eqn:Hu].
  - apply pop_back_some in Hn. st_run. apply replace_transfer; [|done..]. count.
    rewrite Hn, sum_by_app, sum_by_cons, sum_by_nil. unfold conn_hit. lia.
  - apply pop_back_some in Hu. st_run. apply replace_transfer; [|done..]. count.
    rewrite Hu, sum_by_app, sum_by_cons, sum_by_nil. unfold conn_hit. lia.
  - destruct (ps_force_get s); [|case_match; apply transfer_refl].
    st_run. eapply transfer_trans0; [|apply add_request_for_bg_transfer].
    by apply update_by_id_transfer.
Qed.

Lemma fulfill_grow_transfer w cc cm (s : PoolState C) : transfer [] s (fulfill_grow w cc cm s).
Proof.
  unfold fulfill_grow, schedule_open_effects. case_match; auto using transfer_refl, schedule_transfer.
Qed.

Lemma fulfill_wait_keeps id w cc cm : keeps (fulfill_wait (C:=C) id w cc cm).
Proof.
  apply keeps_bind; [by apply keeps_modify; intros; apply update_by_id_transfer|]. intros _.
  apply keeps_bind; [by apply keeps_pure|]. intros full. apply keeps_bind.
  - destruct full; [apply fulfill_at_max_keeps|]. destruct cm; [|by apply keeps_pure].
    apply keeps_bind; [apply keeps_modify, fulfill_grow_transfer|]. intros. by apply keeps_pure.
  - intros [b|]; [by apply keeps_pure|]. apply keeps_bind; [|intros; by apply keeps_pure].
    apply keeps_modify, add_request_for_bg_transfer.
Qed.

Lemma fulfill_scan_keeps env id r : keeps (fulfill_scan (C:=C) env id r).
Proof.
  apply keeps_bind; [by apply keeps_pure|]. intros len. apply keeps_bind.
  - destruct (rq_wants_new r); [by apply keeps_pure|apply scan_used_keeps].
  - intros [b|]; [by apply keeps_pure|]. destruct (rq_cclass_matches r); [|by apply keeps_pure].
    apply keeps_bind; [by apply keeps_pure|]. intros. apply scan_new_keeps.
Qed.

Lemma fulfill_keeps env id : keeps (fulfill (C:=C) env id).
Proof.
  intros s. unfold fulfill. st_run. destruct (ps_open s); [|apply transfer_refl]. cbn [negb]. st_run.
  destruct (request_position id s) as [[p r]|] eqn:Hp; [|apply transfer_refl].
  apply request_position_some in Hp as [Hp _].
  destruct (rq_error r); [st_run; by apply (upd_request_transfer _ _ _ r)|].
  destruct (rq_completed r); [apply transfer_refl|].
  destruct (rq_bg_processing r); [apply transfer_refl|].
  apply keeps_bind; [apply fulfill_scan_keeps|].
  intros [b|]; [by apply keeps_pure|apply fulfill_wait_keeps].
Qed.

Lemma finish_completed_keeps id : keeps (finish_completed_request (C:=C) id).
Proof.
  intros s. unfold finish_completed_request. st_run.
  destruct (request_position id s) as [[p r]|] eqn:Hp; [|apply transfer_refl].
  apply request_position_some in Hp as [Hp _]. st_run.
  eapply (remove_request_through _ _ _ _ Hp).
  destruct (rq_conn r) as [c|]; st_run; [|apply transfer_refl].
  apply transfer_move; [|done..]. count.
Qed.

Lemma poll_keeps env id : keeps (poll_request_completion (C:=C) env id).
Proof.
  intros s. unfold poll_request_completion. pose proof (fulfill_keeps env id s) as Hf.
  destruct (fulfill env id s) as [[[]| | |] s1]; cbn [fst snd] in *; try done.
  - eapply transfer_trans0; [done|apply finish_completed_keeps].
  - eapply transfer_trans0; [done|apply abandon_request_transfer].
Qed.

Lemma enqueue_keeps opts : keeps (enqueue_request (C:=C) opts).
Proof.
  intros s. unfold enqueue_request. st_run. destruct (ps_open s); [|apply transfer_refl].
  cbn [negb]. st_run. apply transfer_move; [|done..]. count. unfold req_hit at 2. fields. lia.
Qed.

(** ** The returning side *)

Definition spare_hit (i : Z) (spare : option (PooledConn C)) : Z :=
  match spare with Some c => conn_hit i c | None => 0 end.

Lemma req_hit_of i (r : Request C) c : rq_conn r = c → req_hit i r = spare_hit i c.
Proof. by intros <-. Qed.

(** A request without a connection that is given one. *)
Lemma give_hit i (f : Request C → Request C) r c :
  has_conn r = false → rq_conn (f r) = Some c → req_hit i (f r) = req_hit i r + conn_hit i c.
Proof. unfold has_conn, req_hit. intros Hr ->. by destruct (rq_conn r). Qed.

Lemma offer_returned_hit i c : ∀ l,
  sum_by (req_hit i) (offer_returned c l).1 + spare_hit i (offer_returned c l).2
  = sum_by (req_hit i) l + conn_hit i c.
Proof.
  induction l as [|r l IH]; [done|]. cbn [offer_returned]. case_match eqn:Hg.
  - apply andb_true_iff in Hg as [Hg _]. rewrite negb_true_iff, !orb_false_iff in Hg.
    cbn [fst snd spare_hit]. rewrite !sum_by_cons.
    rewrite (give_hit i (λ r, upd_rq_bg_processing (λ _, false)
      (upd_rq_completed (λ _, true) (upd_rq_conn (λ _, Some c) r))) r c); [lia|tauto|done].
  - destruct (offer_returned c l) as [l' spare]. cbn [fst snd] in *. rewrite !sum_by_cons. lia.
Qed.

Lemma return_helper_transfer env c b (s : PoolState C) :
  transfer [pc_id c] s (return_connection_helper env c b s).
Proof.
  unfold return_connection_helper. case_match; [apply drop_conn_transfer|].
  set (c' := if is_pool_extra c then set_extra false c else c).
  assert (pc_id c' = pc_id c) as Hc by (subst c'; by destruct (is_pool_extra c)). rewrite <- Hc.
  case_match; [apply drop_conn_transfer|].
  case_match; [apply (drop_conn_transfer (set_returned (env_now env) c'))|].
  change (pc_id c') with (pc_id (set_returned (env_now env) c')).
  generalize (set_returned (env_now env) c'). clear. intros c.
  pose proof (λ i, offer_returned_hit i c (ps_requests s)) as Ho.
  destruct (offer_returned c (ps_requests s)) as [l [c'|]]; cbn [fst snd spare_hit] in Ho;
    (apply transfer_move; [|done..]); intros i; specialize (Ho i);
    unfold conn_hit in Ho; count.
Qed.

Lemma busy_through id c rest (s s' : PoolState C) :
  remove_first (λ c, pc_id c =? id) (ps_busy s) = Some (c, rest) →
  transfer [pc_id c] (upd_ps_busy (λ _, rest) s) s' → transfer [] s s'.
Proof.
  intros (_ & l1 & l2 & Hb & ->)%remove_first_some. apply transfer_through; [|done..].
  count. rewrite Hb, !sum_by_app, sum_by_cons. unfold conn_hit. lia.
Qed.

Lemma drain_one_transfer env (s : PoolState C) id : transfer [] s (drain_one env s id).
Proof.
  unfold drain_one. case_match; [apply transfer_refl|].
  destruct (remove_first _ _) as [[c rest]|] eqn:Hr; [|apply transfer_refl].
  eapply busy_through; [done|]. apply return_helper_transfer.
Qed.

Lemma drain_transfer env l : ∀ s : PoolState C, transfer [] s (drain_drop_returns env l s).
Proof.
  induction l as [|id l IH]; intros s; cbn; [apply transfer_refl|].
  eapply transfer_trans0; [apply (drain_one_transfer env s id)|apply IH].
Qed.

Lemma return_impl_keeps env id : keeps (return_connection_impl (C:=C) env id).
Proof.
  intros s. unfold return_connection_impl. st_run. destruct (ps_open s); [|apply transfer_refl].
  cbn [negb]. st_run. destruct (remove_first _ _) as [[c rest]|] eqn:Hr; [|apply transfer_refl].
  st_run. eapply busy_through; [done|]. apply return_helper_transfer.
Qed.

Lemma drop_impl_keeps id : keeps (drop_connection_impl (C:=C) id).
Proof.
  intros s. unfold drop_connection_impl. st_run. destruct (ps_open s); [|apply transfer_refl].
  cbn [negb]. st_run. destruct (remove_first _ _) as [[c rest]|] eqn:Hr; [|apply transfer_refl].
  st_run. eapply busy_through; [done|]. apply drop_conn_transfer.
Qed.

(** ** Closing *)

Lemma request_conns_hit i (l : list (Request C)) :
  sum_by (conn_hit i) (request_conns l) = sum_by (req_hit i) l.
Proof.
  unfold request_conns. induction l as [|r l IH]; [done|].
  rewrite (sum_by_cons (req_hit i)), <- IH. cbn [omap list_omap]. unfold req_hit.
  by destruct (rq_conn r).
Qed.

Lemma emptied_hit i (f : Request C → Request C) l :
  (∀ r, rq_conn (f r) = None) → sum_by (req_hit i) (map f l) = 0.
Proof.
  intros Hf. induction l as [|r l IH]; [done|]. cbn [map]. rewrite sum_by_cons, IH.
  unfold req_hit. by rewrite Hf.
Qed.

Lemma filter_hit i P `{∀ r : Request C, Decision (P r)} l :
  sum_by (req_hit i) l = 0 → sum_by (req_hit i) (filter P l) = 0.
Proof.
  induction l as [|r l IH]; [done|]. rewrite list.filter_cons, sum_by_cons. intros H0.
  pose proof (req_hit_nonneg i r). pose proof (sum_by_nonneg _ l (req_hit_nonneg i)).
  case_decide; rewrite ?sum_by_cons; lia.
Qed.

Lemma shutdown_locked_transfer (s : PoolState C) :
  transfer [] s (request_worker_shutdown_locked s).
Proof.
  unfold request_worker_shutdown_locked. split; [|cbn; lia| |done].
  - intros i. unfold held, occ. fields. rewrite !sum_by_app, !sum_by_nil.
    rewrite (filter_hit i), request_conns_hit by by apply emptied_hit. lia.
  - intros i. unfold slots_of. fields. rewrite fresh_same, sum_by_nil.
    pose proof (sum_by_nonneg (eff_hit i) (ps_open_effects s) (eff_hit_nonneg i)). lia.
Qed.

Lemma shutdown_keeps force : keeps (request_worker_shutdown (C:=C) force).
Proof.
  intros s. unfold request_worker_shutdown. st_run. case_match; [apply transfer_refl|].
  case_match; [apply transfer_refl|]. st_run. apply shutdown_locked_transfer.
Qed.

(** The setters touch no connection. *)
Lemma settings_transfer (s s' : PoolState C) :
  ps_free_new s' = ps_free_new s → ps_free_used s' = ps_free_used s → ps_busy s' = ps_busy s →
  ps_to_drop s' = ps_to_drop s → ps_requests s' = ps_requests s → ps_lost s' = ps_lost s →
  ps_next_conn_id s' = ps_next_conn_id s → ps_open_effects s' = ps_open_effects s →
  ps_in_flight s' = ps_in_flight s → transfer [] s s'.
Proof.
  intros H1 H2 H3 H4 H5 H6 H7 H8 H9. apply transfer_move; [|done..]. intros i. unfold held.
  rewrite H1, H2, H3, H4, H5, H6. unfold occ. rewrite sum_by_nil. lia.
Qed.

(** ** The reaper's sections *)

Lemma get_next_transfer (s : PoolState C) : transfer [] s (get_next_request s).2.
Proof.
  unfold get_next_request. case_match; [by apply update_by_id_transfer|apply transfer_refl].
Qed.

Lemma post_process_transfer id (s : PoolState C) : transfer [] s (post_process_request id s).
Proof.
  unfold post_process_request. destruct (request_position id s) as [[p r]|] eqn:Hp;
    [|apply transfer_refl].
  apply request_position_some in Hp as [Hp _].
  set (f := λ r, upd_rq_bg_processing (λ _, false) (upd_rq_in_progress (λ _, false) r)).
  eapply transfer_trans0; [by apply (upd_request_transfer p f s r)|].
  assert (ps_requests (upd_request p f s) !! p = Some (f r)) as Hp'.
  { fields. by rewrite list_lookup_alter, decide_True, Hp by done. }
  revert Hp'. generalize (upd_request p f s). clear s Hp. intros s Hp.
  destruct (has_conn r) eqn:Hc.
  - eapply transfer_trans0; [by apply (upd_request_transfer p (upd_rq_completed (λ _, true)) s _ Hp)|].
    case_match; [|apply transfer_refl].
    eapply (remove_request_through p _ _ (upd_rq_completed (λ _, true) (f r))).
    + fields. by rewrite list_lookup_alter, decide_True, Hp by done.
    + unfold f. fields. apply reject_transfer.
  - assert (∀ s1 : PoolState C, ps_requests s1 !! p = Some (f r) →
      transfer [] s1 (if negb (rq_waiting r) then remove_request p s1 else s1)) as Hrm.
    { intros s1 Hs1. case_match; [|apply transfer_refl].
      eapply (remove_request_through p _ _ _ Hs1). unfold f, has_conn in *. fields.
      destruct (rq_conn r); [done|]. apply transfer_refl. }
    destruct (rq_requires_ping r); [|by apply Hrm].
    eapply transfer_trans0; [apply ensure_min_transfer|]. apply Hrm.
    by rewrite (proj1 (ensure_min_fields s)).
Qed.

(** The loop of [post_create_conn]. *)
Lemma offer_created_hit i n m c : ∀ l,
  sum_by (req_hit i) (offer_created n m c l).1 + spare_hit i (offer_created n m c l).2
  = sum_by (req_hit i) l + conn_hit i c.
Proof.
  induction l as [|r l IH]; [done|]. cbn [offer_created].
  destruct (rq_in_progress r || has_conn r || _ || _ || _) eqn:Hg.
  { destruct (offer_created n m c l) as [l' spare]. cbn [fst snd] in *. rewrite !sum_by_cons. lia. }
  rewrite !orb_false_iff in Hg. assert (has_conn r = false) as Hc by tauto.
  case_match; [|case_match].
  - cbn [fst snd spare_hit]. rewrite !sum_by_cons.
    rewrite (give_hit i (λ r, upd_rq_bg_processing (λ _, false)
      (upd_rq_completed (λ _, true) (upd_rq_conn (λ _, Some c) r))) r c); [lia|done..].
  - cbn [fst snd spare_hit]. rewrite !sum_by_cons.
    rewrite (give_hit i (λ r, upd_rq_is_replacing (λ _, true) (upd_rq_conn (λ _, Some c) r)) r c);
      [lia|done..].
  - destruct (offer_created n m c l) as [l' spare]. cbn [fst snd] in *. rewrite !sum_by_cons. lia.
Qed.

Lemma complete_open_effect_spec id (s : PoolState C) :
  let s' := complete_open_effect id s in
  (∀ i, held i s' = held i s) ∧ ps_next_conn_id s' = ps_next_conn_id s ∧
  ps_open s' = ps_open s ∧ ps_open_effects s' = ps_open_effects s ∧
  (∀ i, slots_of i s' <= slots_of i s) ∧
  (0 < sum_by (eff_hit id) (ps_in_flight s) → ∀ i, slots_of i s' = slots_of i s - hit i id).
Proof.
  unfold complete_open_effect. destruct (remove_first _ _) as [[e rest]|] eqn:Hr; fields.
  - apply remove_first_some in Hr as (He & l1 & l2 & Hl & ->).
    destruct e as [slot w|? ?|? ?]; [|done..]. apply Z.eqb_eq in He as ->.
    assert (∀ i, slots_of i (upd_ps_in_flight (λ _, l1 ++ l2) s) = slots_of i s - hit i id) as Hs.
    { intros i. unfold slots_of. fields. rewrite Hl, !sum_by_app, sum_by_cons. cbn [eff_hit]. lia. }
    repeat split; [|done]. intros i. rewrite Hs. pose proof (hit_range i id). lia.
  - repeat split; [done|]. intros Hin. exfalso.
    assert (sum_by (eff_hit id) (ps_in_flight s) = 0); [|lia].
    clear Hin. revert Hr. generalize (ps_in_flight s).
    induction l as [|e l IH]; [done|]. cbn [remove_first].
    destruct e as [slot w|? ?|? ?]; rewrite sum_by_cons; cbn [eff_hit].
    + destruct (slot =? id) eqn:E; [done|]. apply Z.eqb_neq in E.
      destruct (remove_first _ l) as [[? ?]|]; [done|]. rewrite hit_ne by done. auto.
    + destruct (remove_first _ l) as [[? ?]|]; [done|]. auto.
    + destruct (remove_first _ l) as [[? ?]|]; [done|]. auto.
Qed.

(** Integrating a created connection: it is taken in and its opening is done. *)
Lemma post_create_spec id result (s : PoolState C) :
  (match result with inr c => pc_id c = id | inl _ => True end) →
  let s' := post_create_conn id result s in
  (∀ i, held i s' = held i s + match result with inr _ => hit i id | inl _ => 0 end) ∧
  ps_next_conn_id s' = ps_next_conn_id s ∧
  (∀ i, slots_of i s' <= slots_of i s) ∧
  (0 < sum_by (eff_hit id) (ps_in_flight s) → ∀ i, slots_of i s' = slots_of i s - hit i id).
Proof.
  intros Hid. destruct (complete_open_effect_spec id s) as (Hh & Hn & Ho & He & Hle & Hsl).
  cbn zeta. unfold post_create_conn. revert Hh Hn Ho He Hle Hsl.
  generalize (complete_open_effect id s). intros s1 Hh Hn Ho He Hle Hsl.
  assert (∀ s2 : PoolState C, ps_next_conn_id s2 = ps_next_conn_id s1 →
    ps_open_effects s2 = ps_open_effects s1 → ps_in_flight s2 = ps_in_flight s1 →
    (∀ i, held i s2 = held i s1 + match result with inr _ => hit i id | inl _ => 0 end) →
    (∀ i, held i s2 = held i s + match result with inr _ => hit i id | inl _ => 0 end) ∧
    ps_next_conn_id s2 = ps_next_conn_id s ∧
    (∀ i, slots_of i s2 <= slots_of i s) ∧
    (0 < sum_by (eff_hit id) (ps_in_flight s) → ∀ i, slots_of i s2 = slots_of i s - hit i id))
    as Hfin.
  { intros s2 Hn2 Ho2 Hf2 Hh2. assert (∀ i, slots_of i s2 = slots_of i s1) as Hs2.
    { intros i. unfold slots_of. by rewrite Ho2, Hf2. }
    repeat split; [|congruence|..]; intros; rewrite ?Hh2, ?Hh, ?Hs2; auto. }
  destruct result as [error|c].
  - destruct (ps_open s1); [|apply Hfin; [done..|intros; lia]].
    destruct (list_find _ _) as [[p r]|] eqn:Hf; [|apply Hfin; [done..|intros; lia]].
    apply list_find_Some in Hf as (Hp & _ & _). apply Hfin; [done..|]. count.
    rewrite (sum_by_alter _ _ _ _ _ Hp). unfold req_hit at 3 2. fields. lia.
  - rewrite <- Hid in *. destruct (ps_open s1); cbn [negb]; [|apply Hfin; [done..|count]].
    pose proof (λ i, offer_created_hit i (sat_add U32_MAX (active_open_count s1) 1)
                  (cfg_max (ps_config s1)) c (ps_requests s1)) as Hoc.
    destruct (offer_created _ _ c (ps_requests s1)) as [l [c'|]]; cbn [fst snd spare_hit] in Hoc;
      (apply Hfin; [done..|]); intros i; specialize (Hoc i); unfold conn_hit in Hoc; count.
Qed.

Lemma sweep_list_transfer env limit get pop :
  (∀ s c l, get s = c :: l → ∀ s', transfer [pc_id c] (pop s) s' → transfer [] s s') →
  ∀ fuel (s : PoolState C), transfer [] s (sweep_list fuel env limit get pop s).2.
Proof.
  intros Hpop. induction fuel as [|fuel IH]; intros s; cbn [sweep_list];
    (case_match; [apply transfer_refl|]); destruct (get s) as [|c l] eqn:Hg;
    try apply transfer_refl; (case_match; try apply transfer_refl).
  eapply transfer_trans0; [|apply IH]. eapply Hpop; [done|]. apply drop_conn_transfer.
Qed.

Lemma pop_new_through (s : PoolState C) c l :
  ps_free_new s = c :: l →
  ∀ s', transfer [pc_id c] (upd_ps_free_new (drop 1) s) s' → transfer [] s s'.
Proof.
  intros Hl s'. apply transfer_through; [|done..]. count. rewrite Hl. cbn [drop].
  rewrite sum_by_cons. unfold drop. lia.
Qed.

Lemma pop_used_through (s : PoolState C) c l :
  ps_free_used s = c :: l →
  ∀ s', transfer [pc_id c] (upd_ps_free_used (drop 1) s) s' → transfer [] s s'.
Proof.
  intros Hl s'. apply transfer_through; [|done..]. count. rewrite Hl. cbn [drop].
  rewrite sum_by_cons. unfold drop. lia.
Qed.

Lemma sweep_transfer env (s : PoolState C) : transfer [] s (sweep_idle_timeout env s).
Proof.
  unfold sweep_idle_timeout. case_match; [apply transfer_refl|].
  pose proof (sweep_list_transfer env (from_secs (cfg_timeout_secs (ps_config s))) ps_free_new
                (upd_ps_free_new (drop 1)) pop_new_through (length (ps_free_new s)) s) as Hnew.
  destruct (sweep_list _ _ _ _ _ s) as [[] s1]; cbn [fst snd] in *; [|done].
  eapply transfer_trans0; [done|]. apply sweep_list_transfer, pop_used_through.
Qed.

(** ** The invariant of the engine *)

(** What the reaper holds between its locked sections: connections, and the
    identity of a connection it is about to create for a request. *)
Definition reaper_conns (r : ReaperPc C) : list (PooledConn C) :=
  match r with
  | RPinging _ conn | RClosing conn => [conn]
  | RCreating _ _ _ _ (Some conn) => [conn]
  | _ => []
  end.
Definition reaper_slot (i : Z) (r : ReaperPc C) : Z :=
  match r with RCreating _ conn_id _ _ _ => hit i conn_id | _ => 0 end.

Record engine_inv (e : Engine C) : Prop := {
  ei_conserved : ∀ i, occ i (created e)
    = held i (eng_state e) + sum_by (conn_hit i) (reaper_conns (reaper e)) + occ i (closed e);
  ei_unique : ∀ i, occ i (created e) + slots_of i (eng_state e) + reaper_slot i (reaper e)
    <= fresh 1 (ps_next_conn_id (eng_state e)) i;
  ei_next : 1 <= ps_next_conn_id (eng_state e);
  ei_opening : ∀ id cclass, reaper e = ROpening id cclass →
    0 < sum_by (eff_hit id) (ps_in_flight (eng_state e))
}.

(** A step of the locked state alone. *)
Lemma inv_transfer e s' :
  engine_inv e → transfer [] (eng_state e) s' → engine_inv (set_state s' e).
Proof.
  intros [Hc Hu Hn Ho] [Hh Hn' Hs Hf]. split; fields.
  - intros i. rewrite Hc, Hh. unfold occ. rewrite sum_by_nil. lia.
  - intros i. specialize (Hu i). specialize (Hs i).
    rewrite (fresh_split 1 (ps_next_conn_id (eng_state e))) by lia. lia.
  - lia.
  - intros id cclass Hr. rewrite Hf. eauto.
Qed.

Lemma inv_locked {A} (m : EngineM C A) e : keeps m → engine_inv e → engine_inv (locked m e).2.
Proof.
  intros Hm He. unfold locked. specialize (Hm (eng_state e)).
  destruct (m (eng_state e)) as [r s]. by apply inv_transfer.
Qed.

(** The channel and the stop flag carry no connections. *)
Lemma inv_flags e d b :
  engine_inv e →
  engine_inv (mkEngine (eng_state e) d b (reaper e) (created e) (closed e)).
Proof. by intros []. Qed.

Lemma inv_drain env e : engine_inv e → engine_inv (drain env e).
Proof.
  intros He. apply (inv_flags (set_state (drain_drop_returns env (drop_returns e) (eng_state e)) e)).
  apply inv_transfer; [done|]. apply drain_transfer.
Qed.

(** The reaper moves on without anything in its hands, before and after. *)
Lemma inv_pc e r :
  engine_inv e → reaper_conns (reaper e) = [] → (∀ i, 0 <= reaper_slot i (reaper e)) →
  reaper_conns r = [] → (∀ i, reaper_slot i r = 0) → (∀ id cc, r ≠ ROpening id cc) →
  engine_inv (set_reaper r e).
Proof.
  intros [Hc Hu Hn Ho] H1 H2 H3 H4 H5. split; fields; [|intros i| |].
  - intros i. rewrite Hc, H1, H3. done.
  - specialize (Hu i). rewrite H4. specialize (H2 i). lia.
  - done.
  - intros id cc ->. by destruct (H5 id cc).
Qed.

(** Anything but the reaper and the last-handle close. *)
Lemma inv_close_all e : engine_inv e → engine_inv (close_all_connections e).
Proof.
  intros [Hc Hu Hn Ho]. unfold close_all_connections. split; fields; [|done..].
  intros i. rewrite Hc. unfold held, occ. fields.
  rewrite sum_by_app, (sum_by_map (hit i) pc_id), !sum_by_app, emptied_hit, !sum_by_nil by done.
  fold (occ i (closed e)). change (λ x, hit i (pc_id x)) with (conn_hit i).
  rewrite request_conns_hit. lia.
Qed.

(** ** Every step keeps it *)

(** What [process_request] takes out. *)
Lemma inv_begin e id work s :
  engine_inv e → reaper e = RProcess id → begin_process id (eng_state e) = (work, s) →
  engine_inv (set_reaper
    (match work with
     | WorkPing conn _ => RPinging id conn
     | WorkCreate conn_id cclass is_extra replaced => RCreating id conn_id cclass is_extra replaced
     | WorkNothing => RPost id
     end) (set_state s e)).
Proof.
  intros [Hc Hu Hn Ho] Hr. rewrite Hr in *. cbn [reaper_conns reaper_slot] in *.
  unfold begin_process. destruct (request_position _ _) as [[p r]|] eqn:Hp; [|by intros [= <- <-]].
  apply request_position_some in Hp as [Hp _].
  assert (∀ i, sum_by (req_hit i) (alter (upd_rq_conn (λ _, None)) p (ps_requests (eng_state e)))
    = sum_by (req_hit i) (ps_requests (eng_state e)) - req_hit i r) as Ht.
  { intros i. rewrite (sum_by_alter _ _ _ _ _ Hp). unfold req_hit at 3. fields. lia. }
  destruct (rq_requires_ping r); [|case_match].
  - destruct (rq_conn r) as [c|] eqn:Hrc; intros [= <- <-]; [|done]. split; fields; [|done..].
    intros i. rewrite Hc. unfold held. fields. rewrite Ht. cbn [reaper_conns].
    rewrite (req_hit_of i r (Some c)), sum_by_cons, !sum_by_nil by done. cbn [spare_hit]. lia.
  - intros [= <- <-]. split; fields; [|intros i| |done].
    + intros i. rewrite Hc. unfold held. fields. rewrite Ht, (req_hit_of i r (rq_conn r)) by done.
      destruct (rq_conn r); cbn [reaper_conns spare_hit]; rewrite ?sum_by_cons, !sum_by_nil; lia.
    + specialize (Hu i). unfold slots_of in *. fields. cbn [reaper_slot].
      rewrite (fresh_split 1 (ps_next_conn_id (eng_state e))), fresh_one by lia. lia.
    + lia.
  - intros [= <- <-]. done.
Qed.

Lemma inv_ping e id conn b :
  engine_inv e → reaper e = RPinging id conn →
  engine_inv (set_reaper (RPost id)
    (if b : bool then set_state (finish_ping id conn (eng_state e)) e
     else log_closed [pc_id conn] e)).
Proof.
  intros [Hc Hu Hn Ho] Hr. rewrite Hr in *. cbn [reaper_conns reaper_slot] in *. destruct b.
  - assert (transfer [pc_id conn] (eng_state e) (finish_ping id conn (eng_state e))) as [Hh Hn' Hs Hf].
    { unfold finish_ping. destruct (request_position _ _) as [[p r]|] eqn:Hp.
      - apply request_position_some in Hp as [Hp _]. by eapply assign_conn_transfer.
      - apply transfer_move; [count|done..]. }
    split; fields; [intros i|intros i| |done].
    + rewrite Hc, Hh. unfold occ. cbn [reaper_conns]. rewrite !sum_by_cons, !sum_by_nil.
      unfold conn_hit. lia.
    + specialize (Hu i). specialize (Hs i). cbn [reaper_slot].
      rewrite (fresh_split 1 (ps_next_conn_id (eng_state e))) by lia. lia.
    + lia.
  - split; fields; [intros i|done..]. rewrite Hc. unfold occ. cbn [reaper_conns].
    rewrite sum_by_app, !sum_by_cons, !sum_by_nil. unfold conn_hit. lia.
Qed.

Lemma finish_create_transfer env id conn_id cc x replaced result (s : PoolState C) :
  transfer ((match replaced with Some c => [pc_id c] | None => [] end)
            ++ (match result with inr _ => [conn_id] | inl _ => [] end))
    s (finish_create env id conn_id cc x replaced result s).
Proof.
  unfold finish_create.
  apply transfer_trans with (match replaced with Some old => drop_conn old s | None => s end).
  { destruct replaced as [old|]; [apply drop_conn_transfer|apply transfer_refl]. }
  generalize (match replaced with Some old => drop_conn old s | None => s end). clear s. intros s.
  destruct (request_position id s) as [[p r]|] eqn:Hp.
  - apply request_position_some in Hp as [Hp _]. destruct result as [err|c].
    + by apply (upd_request_transfer _ _ _ r).
    + by eapply (assign_conn_transfer p (mkConn conn_id c cc (env_now env) (env_now env) x false)).
  - destruct result as [err|c]; [apply transfer_refl|]. apply transfer_move; [count|done..].
Qed.

Lemma inv_create e env id conn_id cc x replaced result :
  engine_inv e → reaper e = RCreating id conn_id cc x replaced →
  let e1 := match result with inr _ => log_created conn_id e | inl _ => e end in
  engine_inv (set_reaper (RPost id)
    (set_state (finish_create env id conn_id cc x replaced result (eng_state e1)) e1)).
Proof.
  intros [Hc Hu Hn Ho] Hr. rewrite Hr in *. cbn [reaper_slot] in *. cbn zeta.
  destruct (finish_create_transfer env id conn_id cc x replaced result (eng_state e))
    as [Hh Hn' Hs Hf].
  destruct result as [err|c]; split; fields; try (intros i; specialize (Hc i); specialize (Hu i);
    specialize (Hh i); specialize (Hs i)); cbn [reaper_slot]; try lia; try done.
  - rewrite Hc, Hh. unfold occ. destruct replaced; cbn [reaper_conns app];
      rewrite ?sum_by_cons, ?sum_by_nil; unfold conn_hit; lia.
  - rewrite (fresh_split 1 (ps_next_conn_id (eng_state e))) by lia.
    pose proof (hit_range i conn_id). lia.
  - rewrite Hh. unfold occ in *. rewrite sum_by_app, Hc. destruct replaced; cbn [reaper_conns app];
      rewrite ?sum_by_cons, ?sum_by_nil; unfold conn_hit; lia.
  - rewrite (fresh_split 1 (ps_next_conn_id (eng_state e))) by lia. unfold occ in *.
    rewrite sum_by_app, sum_by_cons, sum_by_nil. lia.
Qed.

Lemma inv_opening e conn_id cc now result :
  engine_inv e → reaper e = ROpening conn_id cc →
  let e1 := match result with inr _ => log_created conn_id e | inl _ => e end in
  engine_inv (set_reaper (RTop None)
    (set_state (post_create_conn conn_id
       (match result with
        | inr conn => inr (mkConn conn_id conn cc now now false false)
        | inl error => inl error
        end) (eng_state e1)) e1)).
Proof.
  intros [Hc Hu Hn Ho] Hr. specialize (Ho _ _ Hr). rewrite Hr in *.
  cbn [reaper_slot reaper_conns] in *. cbn zeta.
  destruct result as [err|c].
  - destruct (post_create_spec conn_id (inl err) (eng_state e) I) as (Hh & Hn' & Hle & _).
    split; fields; [intros i|intros i| |done].
    + cbn [reaper_conns]. rewrite Hc, Hh. lia.
    + specialize (Hu i). specialize (Hle i). cbn zeta in Hle. cbn [reaper_slot].
      rewrite Hn'. lia.
    + by rewrite Hn'.
  - destruct (post_create_spec conn_id (inr (mkConn conn_id c cc now now false false))
                (eng_state e) eq_refl) as (Hh & Hn' & _ & Hsl).
    split; fields; [intros i|intros i| |done].
    + cbn [reaper_conns]. rewrite Hh. unfold occ in *. specialize (Hc i).
      rewrite sum_by_app, sum_by_cons, !sum_by_nil, Hc, sum_by_nil. lia.
    + specialize (Hu i). cbn zeta in Hsl. rewrite Hn', (Hsl Ho). unfold occ in *.
      cbn [reaper_slot]. rewrite sum_by_app, sum_by_cons, sum_by_nil. lia.
    + by rewrite Hn'.
Qed.

(** The reaper stands where it holds nothing. *)
Definition hands_free (r : ReaperPc C) : Prop :=
  match r with
  | RPinging _ _ | RClosing _ | RCreating _ _ _ _ _ | ROpening _ _ => False
  | _ => True
  end.

Lemma inv_move e r :
  engine_inv e → hands_free (reaper e) → hands_free r → engine_inv (set_reaper r e).
Proof.
  intros He H1 H2. apply inv_pc; [done|..]; by destruct (reaper e), r.
Qed.

Lemma inv_effect env ans e stopping :
  engine_inv e → reaper e = REffect stopping → engine_inv (reaper_step env ans e).
Proof.
  intros He Hr. unfold reaper_step. rewrite Hr.
  destruct (ps_open (eng_state e)); [|apply inv_move; [done|by rewrite Hr|done]].
  set (s := match ps_open_effects (eng_state e) with
            | effect :: rest => upd_ps_in_flight (λ l, l ++ [effect])
                                  (upd_ps_open_effects (λ _, rest) (eng_state e))
            | [] => eng_state e
            end).
  assert (engine_inv (set_state s e)) as He'.
  { subst s. destruct He as [Hc Hu Hn Ho]. rewrite Hr in *.
    destruct (ps_open_effects (eng_state e)) as [|ef rest] eqn:Hoe; split; fields; rewrite ?Hr; try done.
    intros i. specialize (Hu i). unfold slots_of in *. fields. rewrite Hoe in Hu.
    rewrite sum_by_app, !sum_by_cons, sum_by_nil in *. lia. }
  assert (engine_inv (set_reaper (RDrops stopping) (set_state s e))) as Hd.
  { apply inv_move; [done|fields; by rewrite Hr|done]. }
  destruct (list.last (ps_in_flight s)) as [[slot w|? ?|? ?]|] eqn:Hl; try done.
  destruct He' as [Hc Hu Hn Ho]. fields_in Hc. fields_in Hu. rewrite Hr in Hc, Hu.
  split; fields; [done..|]. intros id cc [= <- <-].
  apply last_Some in Hl as [l' Hl]. rewrite Hl, sum_by_app, sum_by_cons, sum_by_nil.
  cbn [eff_hit]. rewrite hit_eq. pose proof (sum_by_nonneg _ l' (eff_hit_nonneg slot)). lia.
Qed.

Lemma inv_reaper env ans e : engine_inv e → engine_inv (reaper_step env ans e).
Proof.
  intros He. destruct (reaper e) as [cur|stopping cur|id|id c|id cid cc x rep|id|stopping|cid cc
    |stopping|c|stopping| |] eqn:Hr; try (eapply inv_effect; done);
    unfold reaper_step; rewrite Hr.
  - apply inv_move; [done|by rewrite Hr|done].
  - pose proof (inv_drain env e He) as He1. assert (reaper (drain env e) = reaper e) as Hr1 by done.
    rewrite Hr in Hr1. revert He1 Hr1. generalize (drain env e). clear e He Hr. intros e He Hr.
    set (p := match cur with None => if ps_open (eng_state e) then get_next_request (eng_state e)
                                     else (None, eng_state e)
              | Some id => (Some id, eng_state e) end).
    assert (transfer [] (eng_state e) p.2) as Ht.
    { subst p. destruct cur; [apply transfer_refl|]. case_match; [apply get_next_transfer|].
      apply transfer_refl. }
    destruct p as [cur' s']. cbn [snd] in Ht. pose proof (inv_transfer _ _ He Ht).
    repeat case_match; (apply inv_move; [done|fields; by rewrite Hr|done]).
  - destruct (begin_process id (eng_state e)) as [work s] eqn:Hb. by eapply inv_begin.
  - by apply inv_ping.
  - by apply inv_create.
  - pose proof (get_next_transfer (post_process_request id (eng_state e))) as Ht.
    destruct (get_next_request _) as [cur s]. cbn [snd] in Ht.
    apply inv_move; [|fields; by rewrite Hr|done]. apply inv_transfer; [done|].
    eapply transfer_trans0; [apply post_process_transfer|done].
  - by apply inv_opening.
  - destruct (pop_back _) as [[c rest]|] eqn:Hp; [|apply inv_move; [done|by rewrite Hr|done]].
    apply pop_back_some in Hp. destruct He as [Hc Hu Hn Ho]. rewrite Hr in *.
    split; fields; [|done..]. intros i. rewrite Hc. unfold held. fields. rewrite Hp.
    cbn [reaper_conns]. rewrite sum_by_app, sum_by_cons, !sum_by_nil. lia.
  - destruct He as [Hc Hu Hn Ho]. rewrite Hr in *. split; fields; [|done..].
    intros i. rewrite Hc. cbn [reaper_conns]. unfold occ.
    rewrite sum_by_app, !sum_by_cons, !sum_by_nil. unfold conn_hit. lia.
  - pose proof (inv_transfer e _ He (sweep_transfer env (eng_state e))).
    repeat case_match; (apply inv_move; [done|fields; by rewrite Hr|done]).
  - apply inv_move; [done|by rewrite Hr|done].
  - done.
Qed.

(** Sequencing on the engine. *)
Lemma inv_bind {A B} (m : ST PoolError (Engine C) A) (f : A → ST PoolError (Engine C) B) e :
  engine_inv (m e).2 → (∀ a e', engine_inv e' → engine_inv (f a e').2) → engine_inv ((m ≫= f) e).2.
Proof. rewrite st_bindE. destruct (m e) as [[]]; cbn; auto. Qed.

Lemma inv_handle env ev e : engine_inv e → engine_inv (handle env ev e).2.
Proof.
  intros He. destruct ev; cbn [handle];
    repeat (first [ apply inv_bind; [|intros ? ? ?] ]); st_run; fields; try done;
    try (by apply inv_drain); try (apply inv_locked; [|done]).
  all: eauto using enqueue_keeps, poll_keeps, return_impl_keeps, drop_impl_keeps, shutdown_keeps,
    inv_close_all, inv_reaper, inv_flags.
  - apply keeps_modify, abandon_request_transfer.
  - apply keeps_modify. intros s. unfold set_getmode.
    destruct (negb _); [by apply settings_transfer|apply transfer_refl].
  - by apply keeps_modify; intros; apply settings_transfer.
  - by apply keeps_modify; intros; apply settings_transfer.
  - by apply keeps_modify; intros; apply settings_transfer.
  - by apply keeps_modify; intros; apply settings_transfer.
  - destruct (reaper e) eqn:Hr; try done. apply inv_move; [done|by rewrite Hr|done].
Qed.

Lemma inv_start config : engine_inv (pool_start (C:=C) config).
Proof.
  unfold pool_start, schedule_open_effects.
  set (s := mkPool true config _ _ [] [] [] [] [] [] [] 1 1 []).
  apply (inv_transfer (mkEngine s [] false (RTop None) [] [])); [|apply schedule_transfer].
  subst s. split; fields; [intros i..| |]; try done.
  cbn [reaper_slot]. unfold slots_of. fields. rewrite fresh_same. done.
Qed.

(** Everything the engine holds. *)
Definition owned (e : Engine C) : list (PooledConn C) :=
  let s := eng_state e in
  ps_free_new s ++ ps_free_used s ++ ps_busy s ++ ps_to_drop s ++ request_conns (ps_requests s)
  ++ reaper_conns (reaper e).

Definition pool_reachable (config : PoolConfig) (e : Engine C) : Prop :=
  rtc engine_step (pool_start config) e.

Lemma engine_reachable_inv config e : pool_reachable config e → engine_inv e.
Proof.
  apply (rtc_ind_r (λ e, engine_inv e)); [apply inv_start|].
  intros e1 e2 _ [env ev e1' r e2' Hs] He. pose proof (inv_handle env ev e1' He) as H.
  by rewrite Hs in H.
Qed.

Lemma occ_conns i (l : list (PooledConn C)) : occ i (map pc_id l) = sum_by (conn_hit i) l.
Proof. apply (sum_by_map (hit i) pc_id). Qed.

Lemma owned_occ i e :
  occ i (map pc_id (owned e)) + sum_by (conn_hit i) (ps_lost (eng_state e))
  = held i (eng_state e) + sum_by (conn_hit i) (reaper_conns (reaper e)).
Proof.
  rewrite occ_conns. unfold owned, held. rewrite !sum_by_app, request_conns_hit. lia.
Qed.

Lemma created_unique e : engine_inv e → ∀ i, occ i (created e) <= 1.
Proof.
  intros [_ Hu _ _] i. specialize (Hu i). unfold slots_of, fresh in Hu.
  pose proof (sum_by_nonneg _ (ps_open_effects (eng_state e)) (eff_hit_nonneg i)).
  pose proof (sum_by_nonneg _ (ps_in_flight (eng_state e)) (eff_hit_nonneg i)).
  assert (0 <= reaper_slot i (reaper e)).
  { destruct (reaper e); cbn; try lia. apply hit_range. }
  case_decide; lia.
Qed.

End Safety.

(** C1: The pool neither duplicates nor forgets a connection.  In every state the
    engine can reach, whatever the interleaving of callers, reaper steps,
    backend answers and clock, no identity is created twice, and the created
    connections are exactly the ones the engine holds, the ones it let go
    without closing, and the ones it closed.  So none is in two places, closed
    twice, or closed while it is still held. *)
Theorem pool_conservation {C : Type} (config : PoolConfig) (e : Engine C) :
  pool_reachable config e →
  NoDup (created e) ∧
  created e ≡ₚ map pc_id (owned e) ++ map pc_id (ps_lost (eng_state e)) ++ closed e.
Proof.
  intros He%engine_reachable_inv. split; [by apply occ_NoDup, created_unique|].
  apply occ_Permutation. intros i. rewrite (ei_conserved _ He). unfold occ at 2.
  rewrite !sum_by_app. fold (occ i (closed e)). rewrite (sum_by_map (hit i) pc_id (ps_lost _)).
  pose proof (owned_occ i e) as Ho. unfold occ in Ho. change (λ x, hit i (pc_id x)) with (@conn_hit C i).
  lia.
Qed.
