(* ===== verification/PoolUse.v ===== *)
(** * Acquiring from the pool engine

    Every handler returns, a grant hands a connection to one holder only, and
    four interleavings in which the engine breaks a promise: it exceeds [max]
    during a ping and for an abandoned request of another connection class, and
    it loses a connection when it closes during a ping and when a poll stores a
    second one in a request. *)

From stdpp Require Import relations.
From S2P Require Import Prelude.
From S2P Require Import Lifecycle.
From S2P Require Import PoolEngine.
From S2P Require Import PoolSafety.

Section Use.
Context {C : Type}.

(** ** What acquiring leaves alone: the checked-out connections, the open flag *)

Definition kept (s : PoolState C) : list (PooledConn C) * bool := (ps_busy s, ps_open s).
Definition same_kept (s s' : PoolState C) : Prop := kept s' = kept s.

Lemma schedule_kept n (s : PoolState C) : same_kept s (schedule_loop n s).
Proof.
  unfold same_kept, kept. by destruct (schedule_fields n s) as (_ & _ & _ & -> & _ & -> & _).
Qed.

Lemma ensure_min_busy (s : PoolState C) : same_kept s (ensure_min_connections s).
Proof.
  unfold same_kept, kept. by destruct (ensure_min_fields s) as (_ & _ & _ & -> & _ & -> & _).
Qed.

Lemma check_connection_busy env id c (s : PoolState C) : same_kept s (check_connection env id c s).
Proof.
  unfold check_connection, drop_conn, reject, add_request_for_bg, assign_conn, same_kept.
  repeat (case_match; rewrite ?(ensure_min_busy _); try done).
Qed.

Definition frames {A} (m : EngineM C A) : Prop := ∀ s, same_kept s (m s).2.

Lemma frames_bind {A B} (m : EngineM C A) (f : A → EngineM C B) :
  frames m → (∀ a, frames (f a)) → frames (m ≫= f).
Proof.
  intros Hm Hf s. rewrite st_bindE. specialize (Hm s). unfold same_kept in *.
  destruct (m s) as [[a| | |] s1]; cbn in *; try done. by rewrite (Hf a s1).
Qed.
Lemma frames_pure {A} (m : EngineM C A) : (∀ s, (m s).2 = s) → frames m.
Proof. intros H s. by rewrite H. Qed.
Lemma frames_modify f : (∀ s, same_kept s (f s)) → frames (modify (E:=PoolError) f).
Proof. intros H s. apply H. Qed.

Lemma try_candidate_frames env id c : frames (try_candidate (C:=C) env id c).
Proof.
  apply frames_bind; [apply frames_modify, check_connection_busy|]. intros _ s. st_run.
  by repeat case_match.
Qed.

Lemma scan_used_frames fuel env id cc : ∀ ix, frames (scan_used (C:=C) fuel env id cc ix).
Proof.
  induction fuel as [|fuel IH]; intros [|ix]; cbn [scan_used]; try by apply frames_pure.
  apply frames_bind; [by apply frames_pure|]. intros l.
  apply frames_bind; [by apply frames_pure|]. intros c.
  case_bool_decide; [|apply IH]. apply frames_bind; [by apply frames_modify|]. intros _.
  apply frames_bind; [apply try_candidate_frames|]. intros [b|]; [by apply frames_pure|].
  apply frames_bind; [by apply frames_pure|]. intros. apply IH.
Qed.

Lemma scan_new_frames fuel env id : frames (scan_new (C:=C) fuel env id).
Proof.
  induction fuel as [|fuel IH]; cbn [scan_new];
    (apply frames_bind; [by apply frames_pure|]); intros l;
    destruct (pop_back l) as [[c rest]|]; try by apply frames_pure.
  apply frames_bind; [by apply frames_modify|]. intros _.
  apply frames_bind; [apply try_candidate_frames|]. intros [b|]; [by apply frames_pure|apply IH].
Qed.

Lemma add_request_busy id (s : PoolState C) : same_kept s (add_request_for_bg id s).
Proof. unfold add_request_for_bg, same_kept. by repeat case_match. Qed.
Lemma update_by_id_busy id f (s : PoolState C) : same_kept s (update_by_id id f s).
Proof. unfold update_by_id, same_kept. by repeat case_match. Qed.

Lemma fulfill_at_max_frames id : frames (fulfill_at_max (C:=C) id).
Proof.
  intros s. unfold fulfill_at_max, same_kept. st_run.
  repeat (case_match; st_run; fields; try done); rewrite (add_request_busy id);
    try by rewrite (update_by_id_busy id).
  all: unfold kept; fields; apply (update_by_id_busy id).
Qed.

Lemma fulfill_wait_frames id w cc cm : frames (fulfill_wait (C:=C) id w cc cm).
Proof.
  apply frames_bind; [apply frames_modify, update_by_id_busy|]. intros _.
  apply frames_bind; [by apply frames_pure|]. intros full. apply frames_bind.
  - destruct full; [apply fulfill_at_max_frames|]. destruct cm; [|by apply frames_pure].
    apply frames_bind; [|intros; by apply frames_pure]. apply frames_modify. intros s.
    unfold fulfill_grow, schedule_open_effects. case_match; [|done]. apply schedule_kept.
  - intros [b|]; [by apply frames_pure|]. apply frames_bind; [|intros; by apply frames_pure].
    apply frames_modify, add_request_busy.
Qed.

Lemma fulfill_scan_frames env id r : frames (fulfill_scan (C:=C) env id r).
Proof.
  apply frames_bind; [by apply frames_pure|]. intros len. apply frames_bind.
  - destruct (rq_wants_new r); [by apply frames_pure|apply scan_used_frames].
  - intros [b|]; [by apply frames_pure|]. destruct (rq_cclass_matches r); [|by apply frames_pure].
    apply frames_bind; [by apply frames_pure|]. intros. apply scan_new_frames.
Qed.

Lemma fulfill_frames env id : frames (fulfill (C:=C) env id).
Proof.
  intros s. unfold fulfill. st_run. destruct (ps_open s); [|done]. cbn [negb]. st_run.
  destruct (request_position id s) as [[p r]|]; [|done]. destruct (rq_error r); [done|].
  destruct (rq_completed r); [done|]. destruct (rq_bg_processing r); [done|].
  apply frames_bind; [apply fulfill_scan_frames|].
  intros [b|]; [by apply frames_pure|apply fulfill_wait_frames].
Qed.

(** ** Polling returns *)

Lemma check_connection_lengths env id c (s : PoolState C) p r :
  request_position id (check_connection env id c s) = Some (p, r) →
  ps_free_used (check_connection env id c s) = ps_free_used s ∧
  ps_free_new (check_connection env id c s) = ps_free_new s.
Proof.
  unfold check_connection, drop_conn.
  assert (∀ s1 : PoolState C, ps_free_used (ensure_min_connections s1) = ps_free_used s1 ∧
    ps_free_new (ensure_min_connections s1) = ps_free_new s1) as Hem.
  { intros s1. pose proof (ensure_min_fields s1) as H. unfold only_schedules in H. tauto. }
  case_match; [by intros; apply (Hem (upd_ps_to_drop (λ l, l ++ [c]) s))|].
  case_match; [by intros; apply (Hem (upd_ps_to_drop (λ l, l ++ [c]) s))|].
  destruct (request_position id s) as [[q t]|] eqn:Hq.
  - intros _. unfold add_request_for_bg, assign_conn. by repeat case_match.
  - intros Hp. exfalso. revert Hp Hq. unfold request_position, reject. by repeat case_match; fields; intros -> .
Qed.

(** The first scan never runs out of the list it walks. *)
Lemma scan_used_returns env id cc : ∀ fuel ix (s : PoolState C),
  (ix <= fuel)%nat → (ix <= length (ps_free_used s))%nat →
  returns (scan_used fuel env id cc ix s).1.
Proof.
  induction fuel as [|fuel IH]; intros [|ix] s Hf Hl; cbn [scan_used]; try done; [lia|].
  st_run. destruct (ps_free_used s !! ix) as [c|] eqn:Hix;
    [|apply lookup_ge_None in Hix; lia]. cbn [or_panic]. st_run.
  case_bool_decide; [|apply IH; lia]. st_run. unfold try_candidate. st_run.
  destruct (request_position _ _) as [[p r]|] eqn:Hp; [|done].
  destruct (_ || _); st_run; [done|]. apply IH; lia.
Qed.

Lemma scan_new_returns env id : ∀ fuel (s : PoolState C),
  (length (ps_free_new s) <= fuel)%nat → returns (scan_new fuel env id s).1.
Proof.
  induction fuel as [|fuel IH]; intros s Hl; cbn [scan_new]; st_run;
    destruct (pop_back (ps_free_new s)) as [[c rest]|] eqn:Hpop; try done;
    apply pop_back_some in Hpop; rewrite Hpop, length_app in Hl; cbn [length] in Hl; [lia|].
  st_run. unfold try_candidate. st_run.
  destruct (request_position _ _) as [[p r]|] eqn:Hp; [|done].
  destruct (_ || _); st_run; [done|]. apply IH.
  apply check_connection_lengths in Hp as [_ ->]. fields. lia.
Qed.

Lemma fulfill_wait_returns id w cc cm (s : PoolState C) : returns (fulfill_wait id w cc cm s).1.
Proof.
  unfold fulfill_wait. st_run.
  assert (∀ s1 : PoolState C, returns (fulfill_at_max id s1).1) as Hmax.
  { intros s1. unfold fulfill_at_max. st_run. by repeat (case_match; st_run). }
  match goal with |- context [update_by_id id ?f s] => generalize (update_by_id id f s) end.
  intros s1. destruct (_ <=? _).
  - specialize (Hmax s1). by destruct (fulfill_at_max id s1) as [[[b|]| | |] s2].
  - by destruct cm.
Qed.

Lemma fulfill_returns env id (s : PoolState C) : returns (fulfill env id s).1.
Proof.
  unfold fulfill. st_run. destruct (ps_open s); [|done]. cbn [negb]. st_run.
  destruct (request_position id s) as [[p r]|]; [|done].
  destruct (rq_error r); [done|]. destruct (rq_completed r); [done|].
  destruct (rq_bg_processing r); [done|]. unfold fulfill_scan. st_run.
  assert (∀ s1 : PoolState C, returns
    ((r0 ← (if rq_cclass_matches r
            then len ← gets (λ s, length (ps_free_new s)); scan_new len env id
            else mret None);
      match r0 with
      | Some b => mret b
      | None => fulfill_wait id (rq_wants_new r) (rq_cclass r) (rq_cclass_matches r)
      end) s1).1) as Htail.
  { intros s1. st_run. destruct (rq_cclass_matches r).
    - st_run. pose proof (scan_new_returns env id (length (ps_free_new s1)) s1 ltac:(lia)) as Hn.
      destruct (scan_new _ env id s1) as [[[b|]| | |] s2]; try done. apply fulfill_wait_returns.
    - st_run. apply fulfill_wait_returns. }
  destruct (rq_wants_new r).
  - st_run. apply Htail.
  - pose proof (scan_used_returns env id (rq_cclass r) (length (ps_free_used s))
      (length (ps_free_used s)) s ltac:(lia) ltac:(lia)) as Hu.
    destruct (scan_used _ env id _ _ s) as [[[b|]| | |] s2]; try done. apply Htail.
Qed.

(** The sweep's fuel, the length of the list, is enough: more changes nothing. *)
Lemma sweep_list_fuel env limit get pop :
  (∀ (s : PoolState C) c, length (get (drop_conn c (pop s))) = length (drop 1 (get s))) →
  ∀ fuel k (s : PoolState C), (length (get s) <= fuel)%nat →
  sweep_list (fuel + k) env limit get pop s = sweep_list fuel env limit get pop s.
Proof.
  intros Hg. induction fuel as [|fuel IH]; intros k s Hl.
  - destruct k as [|k]; [done|]. cbn [Nat.add sweep_list].
    destruct (_ <=? _); [done|]. destruct (get s); [done|]. cbn in Hl. lia.
  - cbn [Nat.add sweep_list]. destruct (_ <=? _); [done|]. destruct (get s) as [|c l] eqn:Hs; [done|].
    destruct (_ <? _); [done|]. apply IH. rewrite Hg, Hs. cbn in *. unfold drop. lia.
Qed.

Lemma sweep_fuel_enough env limit k (s : PoolState C) :
  sweep_list (length (ps_free_new s) + k) env limit ps_free_new (upd_ps_free_new (drop 1)) s
  = sweep_list (length (ps_free_new s)) env limit ps_free_new (upd_ps_free_new (drop 1)) s ∧
  sweep_list (length (ps_free_used s) + k) env limit ps_free_used (upd_ps_free_used (drop 1)) s
  = sweep_list (length (ps_free_used s)) env limit ps_free_used (upd_ps_free_used (drop 1)) s.
Proof.
  split; (apply sweep_list_fuel; [|lia]); intros s1 c; unfold drop_conn;
    match goal with |- context [ensure_min_connections ?x] =>
      destruct (ensure_min_fields x) as (_ & Hn & Hu & _); rewrite ?Hn, ?Hu end; done.
Qed.

Lemma finish_completed_returns id (s : PoolState C) :
  returns (finish_completed_request id s).1.
Proof. unfold finish_completed_request. st_run. by repeat (case_match; st_run). Qed.

Lemma poll_returns env id (s : PoolState C) : returns (poll_request_completion env id s).1.
Proof.
  unfold poll_request_completion. pose proof (fulfill_returns env id s) as Hf.
  destruct (fulfill env id s) as [[[]| | |] s1]; try done. cbn [fst].
  pose proof (finish_completed_returns id s1). by destruct (finish_completed_request id s1) as [[]].
Qed.

(** ** A grant *)

Lemma owned_unique e : engine_inv e → ∀ i, occ i (map pc_id (@owned C e)) + occ i (closed e) <= 1.
Proof.
  intros He i. pose proof (created_unique e He i). pose proof (ei_conserved e He i).
  pose proof (owned_occ i e).
  pose proof (sum_by_nonneg _ (ps_lost (eng_state e)) (conn_hit_nonneg i)). lia.
Qed.

Lemma poll_grant env id (s : PoolState C) cid s' :
  poll_request_completion env id s = (Ok (Some cid), s') →
  ∃ c, ps_busy s' = ps_busy s ++ [c] ∧ pc_id c = cid ∧ ever_acquired c = true.
Proof.
  unfold poll_request_completion. pose proof (fulfill_frames env id s) as Hf.
  destruct (fulfill env id s) as [[[]| | |] s1]; cbn [snd] in Hf; try done.
  unfold finish_completed_request. st_run.
  destruct (request_position id s1) as [[p r]|]; [|done]. st_run.
  destruct (rq_conn r) as [c|]; [|done]. st_run. intros [= <- <-]. fields.
  exists (set_acquired c). by injection Hf as -> _.
Qed.

Lemma busy_occ i e : occ i (map pc_id (ps_busy (eng_state e))) <= occ i (map pc_id (@owned C e)).
Proof.
  rewrite !occ_conns. unfold owned. rewrite !sum_by_app.
  pose proof (λ l, sum_by_nonneg _ l (@conn_hit_nonneg C i)) as Hn.
  pose proof (Hn (ps_free_new (eng_state e))). pose proof (Hn (ps_free_used (eng_state e))).
  pose proof (Hn (ps_to_drop (eng_state e))). pose proof (Hn (request_conns (ps_requests (eng_state e)))).
  pose proof (Hn (reaper_conns (reaper e))). lia.
Qed.

(** ** Runs *)

Fixpoint run (l : list (Env C * Event C)) (e : Engine C) : Engine C :=
  match l with
  | [] => e
  | (env, ev) :: l => run l (handle env ev e).2
  end.

Lemma run_reachable config l : ∀ e, pool_reachable config e → pool_reachable config (run l e).
Proof.
  induction l as [|[env ev] l IH]; intros e He; [done|]. cbn [run]. apply IH.
  eapply rtc_r; [exact He|]. econstructor. apply surjective_pairing.
Qed.

End Use.

(** No operation of the pool panics or loops: whatever the state, the clock
    and the backend's answers, every handler returns a value or an error.  The
    scans of [fulfill] stay inside the lists they remove from, and both end. *)
Theorem pool_handlers_return {C : Type} (env : Env C) (ev : Event C) (e : Engine C) :
  returns (handle env ev e).1.
Proof.
  destruct ev; cbn [handle]; st_run; try done; unfold locked.
  - unfold enqueue_request. st_run. by destruct (ps_open _).
  - pose proof (poll_returns env request_id (eng_state e)) as Hp.
    by destruct (poll_request_completion env request_id (eng_state e)) as [[]].
  - unfold return_connection_impl. st_run. destruct (ps_open _); [|done]. cbn [negb]. st_run.
    by destruct (remove_first _ _) as [[]|].
  - unfold drop_connection_impl. st_run. destruct (ps_open _); [|done]. cbn [negb]. st_run.
    by destruct (remove_first _ _) as [[]|].
  - unfold request_worker_shutdown. st_run. destruct (negb _); [done|]. by destruct (_ && _).
Qed.

(** C14: A grant is exclusive.  When a poll hands out a connection, that connection
    was not checked out before, is added to the checked-out list marked as
    acquired, is in no other list of the engine, and has not been closed. *)
Theorem pool_grant_exclusive {C : Type} (config : PoolConfig) (e e' : Engine C) env id cid :
  pool_reachable config e →
  handle env (Poll id) e = (Ok (ReplyPoll (Some cid)), e') →
  (∃ c, ps_busy (eng_state e') = ps_busy (eng_state e) ++ [c] ∧ pc_id c = cid ∧
        ever_acquired c = true) ∧
  (cid ∉ map pc_id (ps_busy (eng_state e))) ∧
  NoDup (map pc_id (owned e')) ∧ cid ∉ closed e'.
Proof.
  intros He%engine_reachable_inv Hp. pose proof (inv_handle env (Poll id) e He) as He'.
  rewrite Hp in He'. cbn [snd] in He'.
  cbn [handle] in Hp. st_run_in Hp. unfold locked in Hp.
  destruct (poll_request_completion env id (eng_state e)) as [r s] eqn:Hpoll.
  destruct r as [r| | |]; try done. injection Hp as -> <-.
  destruct (poll_grant _ _ _ _ _ Hpoll) as (c & Hb & Hc & Ha).
  pose proof (owned_unique _ He') as Hu. pose proof (busy_occ cid (set_state s e)) as Hbo.
  fields_in Hbo. rewrite Hb, map_app in Hbo. unfold occ in Hbo. rewrite sum_by_app in Hbo.
  cbn [map] in Hbo. rewrite Hc, sum_by_cons, hit_eq, sum_by_nil in Hbo.
  fold (occ cid (map pc_id (ps_busy (eng_state e)))) in Hbo. specialize (Hu cid) as Hu'.
  fold (occ cid (map pc_id (owned (set_state s e)))) in Hbo.
  pose proof (occ_nonneg cid (map pc_id (ps_busy (eng_state e)))).
  pose proof (occ_nonneg cid (closed (set_state s e))).
  repeat split.
  - by exists c.
  - rewrite occ_elem. lia.
  - apply occ_NoDup. intros i. specialize (Hu i). pose proof (occ_nonneg i (closed (set_state s e))).
    lia.
  - rewrite occ_elem. lia.
Qed.

(** ** Interleavings that break a promise *)

(** Connections that carry nothing, on a healthy backend at time zero. *)
Definition calm : Env () := mkEnv (λ _, true) 0.
Definition on (l : list (Event ())) : list (Env () * Event ()) := map (pair calm) l.
Definition step_ok : Event () := ReaperStep (mkAnswer true (inr ())).
Definition steps (n : nat) : list (Event ()) := repeat step_ok n.
Definition any_class : AcquireOptions := mkOptions false None.
Definition class_x : AcquireOptions := mkOptions false (Some "X").

(** One connection, validated on every acquire. *)
Definition pinging_config : PoolConfig := mkConfig 1 1 1 POOL_GETMODE_WAIT 0 0 0 0 5000 None.
(** The same without validation. *)
Definition plain_config (max : Z) : PoolConfig :=
  mkConfig 0 max 1 POOL_GETMODE_WAIT 0 0 0 (-1) 5000 None.

(** The limit can be exceeded while a connection is being validated.  With
    [min = max = 1] in WAIT mode, the connection under a ping counts neither as
    open nor as pending, so a second acquirer opens another one: both are
    granted, and two connections are checked out of a pool of one. *)
Theorem pool_exceeds_max_during_ping :
  ∃ e : Engine (), pool_reachable pinging_config e ∧ ps_force_get (eng_state e) = false ∧
    cfg_max (ps_config (eng_state e)) = 1 ∧
    map pc_id (ps_busy (eng_state e)) = [1; 2] ∧ active_open_count (eng_state e) = 2.
Proof.
  exists (run (on (steps 4 ++ [Acquire any_class; Poll 1] ++ steps 3 ++ [Acquire any_class; Poll 2]
                   ++ steps 7 ++ [Poll 1; Poll 2])) (pool_start pinging_config)).
  split; [apply run_reachable, rtc_refl|]. by vm_compute.
Qed.

(** An abandoned request of another connection class opens a connection past
    the limit.  The reaper picks up a request nobody waits for, and opens a
    connection for its class without looking at the capacity. *)
Theorem pool_exceeds_max_for_abandoned :
  ∃ e : Engine (), pool_reachable (plain_config 1) e ∧ ps_force_get (eng_state e) = false ∧
    map pc_id (ps_busy (eng_state e)) = [1] ∧ map pc_id (ps_free_new (eng_state e)) = [2] ∧
    ps_requests (eng_state e) = [] ∧ active_open_count (eng_state e) = 2.
Proof.
  exists (run (on ([Acquire any_class; Poll 1] ++ steps 4 ++ [Poll 1; Acquire class_x; Poll 2; Abandon 2]
                   ++ steps 5)) (pool_start (plain_config 1))).
  split; [apply run_reachable, rtc_refl|]. by vm_compute.
Qed.

(** A forced close can leave a connection unclosed.  The reaper pings for a
    request that was abandoned meanwhile; the close removes that request, and
    after the ping the connection has nowhere to go: the reaper has finished,
    the engine holds nothing, and connection 1 was never closed. *)
Theorem pool_close_loses_pinged :
  ∃ e : Engine (), pool_reachable pinging_config e ∧ reaper e = RDone ∧ created e = [1] ∧
    owned e = [] ∧ closed e = [] ∧ map pc_id (ps_lost (eng_state e)) = [1].
Proof.
  exists (run (on (steps 4 ++ [Acquire any_class; Poll 1; Abandon 1] ++ steps 3 ++ [Close true]
                   ++ steps 8)) (pool_start pinging_config)).
  split; [apply run_reachable, rtc_refl|]. by vm_compute.
Qed.

(** A connection can be overwritten.  A request for another class is given a
    new connection to replace before its first poll; that poll finds a used
    connection of its class and stores it over the first, which is neither
    closed nor held any more while the pool stays open. *)
Theorem pool_poll_overwrites :
  ∃ e : Engine (), pool_reachable (plain_config 2) e ∧ ps_open (eng_state e) = true ∧
    created e = [1; 2] ∧ map pc_id (owned e) = [1] ∧ closed e = [] ∧
    map pc_id (ps_lost (eng_state e)) = [2].
Proof.
  exists (run (on ([Acquire class_x; Poll 1] ++ steps 5 ++ [Poll 1; ReturnConnection 1;
                    Acquire (mkOptions true None); Poll 2] ++ steps 3 ++ [Abandon 2; Acquire class_x]
                   ++ steps 1 ++ [Poll 3])) (pool_start (plain_config 2))).
  split; [apply run_reachable, rtc_refl|]. by vm_compute.
Qed.

(** A run in which a connection is opened, granted, returned and asked for again, the
    second time up to its ping. *)
Definition sample_run : Engine () :=
  run (on (steps 4 ++ [Acquire any_class; Poll 1] ++ steps 5 ++ [Poll 1; ReturnConnection 1;
           Acquire any_class; Poll 2] ++ steps 3)) (pool_start pinging_config).

Lemma pool_conservation_witness :
  pool_reachable pinging_config sample_run ∧
  created sample_run ≡ₚ map pc_id (owned sample_run)
    ++ map pc_id (ps_lost (eng_state sample_run)) ++ closed sample_run.
Proof.
  assert (pool_reachable pinging_config sample_run) as H by apply run_reachable, rtc_refl.
  split; [exact H|]. apply (pool_conservation pinging_config sample_run H).
Defined.

Lemma pool_grant_exclusive_witness :
  ∃ e e' : Engine (),
    pool_reachable pinging_config e ∧ handle calm (Poll 2) e = (Ok (ReplyPoll (Some 1)), e') ∧
    NoDup (map pc_id (owned e')).
Proof.
  set (e := run (on (steps 2)) sample_run).
  assert (pool_reachable pinging_config e) as H by (apply run_reachable, run_reachable, rtc_refl).
  assert (handle calm (Poll 2) e = (Ok (ReplyPoll (Some 1)), (handle calm (Poll 2) e).2)) as Hp
    by (vm_compute; reflexivity).
  exists e, (handle calm (Poll 2) e).2. split; [exact H|]. split; [exact Hp|].
  destruct (pool_grant_exclusive pinging_config e _ calm 2 1 H Hp) as (_ & _ & Hn & _). exact Hn.
Defined.
