(* ===== verification/PoolClose.v ===== *)
(** * Closing the pool engine

    After a close request the reaper comes to its end whatever the backend
    answers, and when it has, the engine holds no connection any more.  The last
    handle's drop and a cancelled runtime are other ways to stop; they are not
    part of the runs considered here. *)

From stdpp Require Import relations.
From S2P Require Import Prelude.
From S2P Require Import Lifecycle.
From S2P Require Import PoolEngine.
From S2P Require Import PoolSafety.
From S2P Require Import PoolUse.

Lemma delete_alter_same {A} (f : A → A) : ∀ (p : nat) (l : list A), delete p (alter f p l) = delete p l.
Proof.
  intros p l. revert p. induction l as [|x l IH]; intros [|p]; try done. cbn. by f_equal.
Qed.

Lemma Forall_filter_map {A B} (P : B → Prop) (Q : B → Prop) `{∀ x, Decision (Q x)} (f : A → B) l :
  (∀ x, P (f x)) → Forall P (filter Q (map f l)).
Proof.
  intros Hf. induction l as [|x l IH]; [constructor|]. cbn [map]. rewrite list.filter_cons.
  case_decide; [by constructor|done].
Qed.

Section Close.
Context {C : Type}.

(** Everything but the last handle's drop and a cancelled runtime. *)
Definition graceful (ev : Event C) : bool :=
  match ev with CloseAll | ReaperExit => false | _ => true end.

Inductive graceful_step : Engine C → Engine C → Prop :=
| graceful_step_event env ev e r e' :
    graceful ev = true → handle env ev e = (r, e') → graceful_step e e'.

(** ** The open flag *)

Definition keeps_open (s s' : PoolState C) : Prop := ps_open s' = ps_open s.

Lemma kept_open (s s' : PoolState C) : same_kept s s' → keeps_open s s'.
Proof. unfold same_kept, kept, keeps_open. by intros [= _ ->]. Qed.

Lemma ensure_min_open (s : PoolState C) : keeps_open s (ensure_min_connections s).
Proof. apply kept_open, ensure_min_busy. Qed.

Lemma drop_conn_open c (s : PoolState C) : keeps_open s (drop_conn c s).
Proof. apply (kept_open _ _ (ensure_min_busy (upd_ps_to_drop (λ l, l ++ [c]) s))). Qed.

Lemma reject_open c (s : PoolState C) : keeps_open s (reject c s).
Proof. unfold reject, keeps_open. by repeat case_match. Qed.

Lemma abandon_open id (s : PoolState C) : keeps_open s (abandon_request id s).
Proof.
  unfold abandon_request, keeps_open. destruct (request_position id s) as [[p r]|]; [|done].
  destruct (negb _); [|done]. by rewrite reject_open.
Qed.

Lemma poll_open env id (s : PoolState C) : keeps_open s (poll_request_completion env id s).2.
Proof.
  unfold poll_request_completion, keeps_open. pose proof (kept_open _ _ (fulfill_frames env id s)) as Hf.
  unfold keeps_open in Hf.
  destruct (fulfill env id s) as [[[]| | |] s1]; cbn [fst snd] in *; try done.
  - unfold finish_completed_request. st_run. by repeat (case_match; st_run).
  - by rewrite abandon_open.
Qed.

Lemma return_helper_open env c b (s : PoolState C) :
  keeps_open s (return_connection_helper env c b s).
Proof.
  unfold return_connection_helper, keeps_open.
  repeat (case_match; rewrite ?drop_conn_open; try done).
Qed.

Lemma drain_open env l : ∀ s : PoolState C, keeps_open s (drain_drop_returns env l s).
Proof.
  induction l as [|id l IH]; intros s; [done|]. unfold keeps_open in *.
  change (ps_open (drain_drop_returns env l (drain_one env s id)) = ps_open s). rewrite IH.
  unfold drain_one. repeat (case_match; try done). by rewrite return_helper_open.
Qed.

(** A closed pool ignores the channel. *)
Lemma drain_closed env l (s : PoolState C) : ps_open s = false → drain_drop_returns env l s = s.
Proof.
  intros Hs. induction l as [|id l IH]; [done|]. cbn. unfold drain_one at 2. by rewrite Hs.
Qed.

Lemma get_next_open (s : PoolState C) : keeps_open s (get_next_request s).2.
Proof. unfold get_next_request, update_by_id, keeps_open. by repeat case_match. Qed.

Lemma post_process_open id (s : PoolState C) : keeps_open s (post_process_request id s).
Proof.
  unfold post_process_request, keeps_open. destruct (request_position id s) as [[p r]|]; [|done].
  destruct (has_conn r).
  - destruct (negb _); [|done]. by rewrite reject_open.
  - assert (∀ s1 : PoolState C, ps_open (if negb (rq_waiting r) then remove_request p s1 else s1)
      = ps_open s1) as -> by (intros; by destruct (negb _)).
    destruct (rq_requires_ping r); [|done]. by rewrite ensure_min_open.
Qed.

Lemma post_create_open id result (s : PoolState C) : keeps_open s (post_create_conn id result s).
Proof.
  unfold post_create_conn, complete_open_effect, keeps_open. by repeat case_match.
Qed.

Lemma sweep_list_open env limit get pop :
  (∀ s : PoolState C, keeps_open s (pop s)) →
  ∀ fuel (s : PoolState C), keeps_open s (sweep_list fuel env limit get pop s).2.
Proof.
  intros Hpop. unfold keeps_open in *. induction fuel as [|fuel IH]; intros s; cbn [sweep_list];
    repeat (case_match; try done). by rewrite IH, drop_conn_open.
Qed.

Lemma sweep_open env (s : PoolState C) : keeps_open s (sweep_idle_timeout env s).
Proof.
  unfold sweep_idle_timeout. case_match; [done|].
  pose proof (sweep_list_open env (from_secs (cfg_timeout_secs (ps_config s))) ps_free_new
                (upd_ps_free_new (drop 1)) ltac:(done) (length (ps_free_new s)) s) as Hn.
  destruct (sweep_list _ _ _ _ _ s) as [[] s1]; cbn [snd] in *; [|done].
  unfold keeps_open in *. by rewrite sweep_list_open.
Qed.

Lemma begin_open id (s : PoolState C) : keeps_open s (begin_process id s).2.
Proof. unfold begin_process, keeps_open. by repeat case_match. Qed.

Lemma finish_create_open env id cid cc x rep result (s : PoolState C) :
  keeps_open s (finish_create env id cid cc x rep result s).
Proof.
  unfold finish_create, keeps_open.
  assert (ps_open (match rep with Some old => drop_conn old s | None => s end) = ps_open s) as <-.
  { destruct rep; [apply drop_conn_open|done]. }
  generalize (match rep with Some old => drop_conn old s | None => s end). intros s1.
  unfold assign_conn. by repeat case_match.
Qed.

Lemma finish_ping_open id c (s : PoolState C) : keeps_open s (finish_ping id c s).
Proof. unfold finish_ping, assign_conn, keeps_open. by repeat case_match. Qed.

(** ** The invariant of closing *)

Definition stop_pc (r : ReaperPc C) : bool :=
  match r with RPick b _ | REffect b | RDrops b | RSweep b => b | _ => false end.

Definition no_conns (l : list (Request C)) : Prop := Forall (λ r, has_conn r = false) l.

(** Only the first request with identity [id] may have a connection. *)
Fixpoint first_only (id : Z) (l : list (Request C)) : Prop :=
  match l with
  | [] => True
  | r :: l => if decide (rq_id r = id) then no_conns l else has_conn r = false ∧ first_only id l
  end.

(** In a closed pool a request has a connection only between the reaper's work on
    it and the section that integrates the result. *)
Definition reqs_closed (r : ReaperPc C) (l : list (Request C)) : Prop :=
  match r with RPost id => first_only id l | _ => no_conns l end.

Definition emptied (s : PoolState C) : Prop :=
  ps_free_new s = [] ∧ ps_free_used s = [] ∧ ps_busy s = [] ∧ ps_open_effects s = [] ∧
  Forall (λ r, rq_waiting r = false) (ps_requests s).

Record closing_inv (e : Engine C) : Prop := {
  cl_stop : reaper_stop e = true ∨ stop_pc (reaper e) = true ∨ reaper e = RDone →
    ps_open (eng_state e) = false;
  cl_done : reaper e = RDone → ps_to_drop (eng_state e) = [];
  cl_closed : ps_open (eng_state e) = false →
    emptied (eng_state e) ∧ reqs_closed (reaper e) (ps_requests (eng_state e))
}.

Lemma first_only_weaken id l : no_conns l → first_only id l.
Proof.
  unfold no_conns. induction 1 as [|r l Hr Hl IH]; [done|]. cbn [first_only]. by case_decide.
Qed.

Lemma reqs_closed_weaken r l : no_conns l → reqs_closed r l.
Proof. intros H. destruct r; try done. by apply first_only_weaken. Qed.

Lemma first_only_alter id f l p r :
  (∀ r, rq_id (f r) = rq_id r) → l !! p = Some r → has_conn (f r) = has_conn r →
  first_only id l → first_only id (alter f p l).
Proof.
  intros Hid. revert p. induction l as [|x l IH]; intros [|p] Hp Hc; simplify_eq/=.
  - rewrite Hid. case_decide; [done|]. by rewrite Hc.
  - case_decide.
    + intros Hl. unfold no_conns in *. apply Forall_alter; [done|]. intros y Hy Hyc.
      rewrite Hp in Hy. injection Hy as ->. by rewrite Hc.
    + intros [Hx Hl]. split; [done|]. by apply IH.
Qed.

Lemma no_conns_alter f l p r :
  l !! p = Some r → has_conn (f r) = has_conn r → no_conns l → no_conns (alter f p l).
Proof.
  intros Hp Hc Hl. apply Forall_alter; [done|]. intros y Hy Hyc.
  rewrite Hp in Hy. injection Hy as ->. by rewrite Hc.
Qed.

Lemma reqs_closed_alter pc f l p r :
  (∀ r, rq_id (f r) = rq_id r) → l !! p = Some r → has_conn (f r) = has_conn r →
  reqs_closed pc l → reqs_closed pc (alter f p l).
Proof.
  intros Hid Hp Hc. destruct pc; cbn [reqs_closed]; eauto using no_conns_alter, first_only_alter.
Qed.

Lemma reqs_closed_delete pc l p : reqs_closed pc l → reqs_closed pc (delete p l).
Proof.
  assert (∀ l p, no_conns l → no_conns (delete p l)) as Hn by (intros; by apply Forall_delete).
  destruct pc; cbn [reqs_closed]; auto. revert p.
  induction l as [|x l IH]; intros [|p]; try done; cbn [first_only delete list_delete].
  - case_decide; [apply first_only_weaken|]. by intros [_ ?].
  - case_decide; [apply Hn|]. intros [? ?]. split; [done|]. by apply IH.
Qed.

(** After the integration of the request, nobody has a connection. *)
Lemma first_only_delete id l p r :
  list_find (λ r, rq_id r = id) l = Some (p, r) → first_only id l → no_conns (delete p l).
Proof.
  revert p. induction l as [|x l IH]; intros p; [done|]. cbn [list_find first_only].
  repeat case_decide; try done.
  - by intros [= <- <-].
  - intros Hp [Hx Hl]. destruct (list_find _ l) as [[q y]|] eqn:Hq; [|done]. cbn in Hp.
    injection Hp as <- <-. cbn. constructor; [done|]. by apply IH.
Qed.

Lemma first_only_assign id f l p r :
  list_find (λ r, rq_id r = id) l = Some (p, r) → (∀ r, rq_id (f r) = rq_id r) →
  no_conns l → first_only id (alter f p l).
Proof.
  intros Hp Hid. revert p Hp. induction l as [|x l IH]; intros p; [done|]. cbn [list_find].
  case_decide as Hx.
  - intros [= <- <-] Hl. apply Forall_cons_iff in Hl as [_ Hl]. cbn. rewrite Hid.
    by rewrite decide_True.
  - destruct (list_find _ l) as [[q y]|] eqn:Hq; [|done]. cbn. intros [= <- <-] Hl.
    apply Forall_cons_iff in Hl as [Hxc Hl]. cbn. rewrite decide_False by done.
    split; [done|]. by apply IH.
Qed.

Lemma emptied_alter f p (s : PoolState C) :
  (∀ r, rq_waiting r = false → rq_waiting (f r) = false) → emptied s → emptied (upd_request p f s).
Proof.
  intros Hf (? & ? & ? & ? & Hw). repeat split; try done. fields. apply Forall_alter; auto.
Qed.

Lemma emptied_delete p (s : PoolState C) : emptied s → emptied (remove_request p s).
Proof. intros (? & ? & ? & ? & Hw). repeat split; try done. fields. by apply Forall_delete. Qed.

Lemma emptied_to_drop f (s : PoolState C) : emptied s → emptied (upd_ps_to_drop f s).
Proof. done. Qed.

Lemma reject_closed c (s : PoolState C) :
  ps_open s = false → emptied s →
  emptied (reject c s) ∧ ps_requests (reject c s) = ps_requests s ∧
  (c = None → reject c s = s).
Proof. intros Ho He. unfold reject. rewrite Ho. by destruct c. Qed.

Lemma abandon_closed pc id (s : PoolState C) :
  ps_open s = false → emptied s → reqs_closed pc (ps_requests s) →
  emptied (abandon_request id s) ∧ reqs_closed pc (ps_requests (abandon_request id s)) ∧
  (no_conns (ps_requests s) → ps_to_drop (abandon_request id s) = ps_to_drop s).
Proof.
  intros Ho He Hr. unfold abandon_request.
  destruct (request_position id s) as [[p r]|] eqn:Hp; [|done].
  apply request_position_some in Hp as [Hp _].
  pose proof (emptied_alter (upd_rq_waiting (λ _, false)) p s ltac:(done) He) as He'.
  assert (reqs_closed pc (ps_requests (upd_request p (upd_rq_waiting (λ _, false)) s))) as Hr'
    by (by eapply reqs_closed_alter).
  destruct (negb (rq_bg_processing r)); [|done].
  destruct (reject_closed (rq_conn r)
    (remove_request p (upd_request p (upd_rq_waiting (λ _, false)) s)))
    as (H1 & H2 & H3); [done|by apply emptied_delete|].
  rewrite H2. split; [done|]. split; [by apply reqs_closed_delete|].
  intros Hn. rewrite H3; [done|]. pose proof (Forall_lookup_1 _ _ _ _ Hn Hp) as Hc. cbn in Hc.
  unfold has_conn in Hc. by destruct (rq_conn r).
Qed.

Lemma poll_closed env id (s : PoolState C) :
  ps_open s = false → (poll_request_completion env id s).2 = abandon_request id s.
Proof. intros Ho. unfold poll_request_completion, fulfill. st_run. by rewrite Ho. Qed.

(** ** The reaper keeps it *)

Lemma closing_open e :
  ps_open (eng_state e) = true → reaper_stop e = false → stop_pc (reaper e) = false →
  reaper e ≠ RDone → closing_inv e.
Proof. intros Ho Hs Hp Hd. split; [|done|congruence]. intros [?|[?|?]]; congruence. Qed.

Lemma closing_reaper_open env ans e :
  ps_open (eng_state e) = true → reaper_stop e = false → stop_pc (reaper e) = false →
  reaper e ≠ RDone → closing_inv (reaper_step env ans e).
Proof.
  intros Ho Hs Hp Hd. unfold reaper_step.
  destruct (reaper e) as [cur|stopping cur|id|id c|id cid cc x rep|id|stopping|cid cc
    |stopping|c|stopping| |] eqn:Hr; cbn [stop_pc] in Hp; subst; try done;
    try (apply closing_open; fields; (done || congruence)).
  - pose proof (drain_open env (drop_returns e) (eng_state e)) as Hdo. unfold keeps_open in Hdo.
    rewrite Ho in Hdo. revert Hdo Hs. unfold drain. fields.
    generalize (drain_drop_returns env (drop_returns e) (eng_state e)). intros s Hos Hs.
    set (p := match cur with None => if ps_open s then get_next_request s else (None, s)
              | Some id => (Some id, s) end).
    assert (ps_open p.2 = true) as Hp2.
    { subst p. rewrite Hos. destruct cur; [done|]. by rewrite get_next_open. }
    destruct p as [[id|] s']; cbn [snd] in Hp2; rewrite ?Hp2; by apply closing_open.
  - pose proof (begin_open id (eng_state e)) as Hb. unfold keeps_open in Hb.
    destruct (begin_process id (eng_state e)) as [work s]. cbn [snd] in Hb.
    apply closing_open; fields; try by destruct work. congruence.
  - destruct (ping_healthy ans); apply closing_open; fields; try done.
    by rewrite finish_ping_open.
  - destruct (create_result ans); apply closing_open; fields; try done; by rewrite finish_create_open.
  - pose proof (get_next_open (post_process_request id (eng_state e))) as Hg. unfold keeps_open in Hg.
    destruct (get_next_request _) as [cur s]. cbn [snd] in Hg.
    apply closing_open; fields; try done. by rewrite Hg, post_process_open.
  - rewrite Ho. destruct (ps_open_effects (eng_state e)); fields;
      repeat case_match; by apply closing_open.
  - destruct (create_result ans); apply closing_open; fields; try done; by rewrite post_create_open.
  - destruct (pop_back _) as [[c rest]|]; by apply closing_open.
  - pose proof (sweep_open env (eng_state e)) as Hsw. unfold keeps_open in Hsw. rewrite Hsw, Ho.
    cbn [negb orb andb]. case_match; apply closing_open; fields; try done; congruence.
Qed.

(** The reaper in a closed pool. *)
Lemma closing_closed e :
  ps_open (eng_state e) = false → (reaper e = RDone → ps_to_drop (eng_state e) = []) →
  emptied (eng_state e) → reqs_closed (reaper e) (ps_requests (eng_state e)) → closing_inv e.
Proof. by split. Qed.

Lemma ensure_min_closed (s : PoolState C) : ps_open s = false → ensure_min_connections s = s.
Proof. intros Ho. unfold ensure_min_connections. by rewrite Ho. Qed.

Lemma get_next_closed (s : PoolState C) :
  emptied s → no_conns (ps_requests s) →
  emptied (get_next_request s).2 ∧ no_conns (ps_requests (get_next_request s).2).
Proof.
  intros He Hn. unfold get_next_request, update_by_id.
  destruct (peek_next_request s) as [id|]; [|done]. cbn [snd].
  destruct (request_position id s) as [[p r]|] eqn:Hp; [|done].
  apply request_position_some in Hp as [Hp _]. split; [by apply emptied_alter|].
  fields. by eapply no_conns_alter.
Qed.

Lemma begin_closed id (s : PoolState C) :
  emptied s → no_conns (ps_requests s) →
  emptied (begin_process id s).2 ∧ no_conns (ps_requests (begin_process id s).2) ∧
  ps_to_drop (begin_process id s).2 = ps_to_drop s ∧
  match (begin_process id s).1 with
  | WorkPing _ _ => False
  | WorkCreate _ _ _ replaced => replaced = None
  | WorkNothing => True
  end.
Proof.
  intros He Hn. unfold begin_process.
  destruct (request_position id s) as [[p r]|] eqn:Hp; [|done].
  apply request_position_some in Hp as [Hp _].
  pose proof (Forall_lookup_1 _ _ _ _ Hn Hp) as Hc. cbn in Hc. unfold has_conn in Hc.
  assert (rq_conn r = None) as Hcn by (by destruct (rq_conn r)). rewrite Hcn.
  assert (emptied (upd_request p (upd_rq_conn (λ _, None)) s)) as He' by by apply emptied_alter.
  assert (no_conns (ps_requests (upd_request p (upd_rq_conn (λ _, None)) s))) as Hn'.
  { fields. eapply no_conns_alter; [done| |done]. unfold has_conn. fields. by rewrite Hcn. }
  destruct (rq_requires_ping r); [done|]. by destruct (_ || _).
Qed.

Lemma assign_closed id p r c (s : PoolState C) :
  request_position id s = Some (p, r) → emptied s → no_conns (ps_requests s) →
  emptied (assign_conn p c s) ∧ first_only id (ps_requests (assign_conn p c s)).
Proof.
  intros Hp He Hn. unfold assign_conn. split; [by apply emptied_alter|].
  fields. by eapply first_only_assign.
Qed.

Lemma finish_ping_closed id c (s : PoolState C) :
  emptied s → no_conns (ps_requests s) →
  emptied (finish_ping id c s) ∧ first_only id (ps_requests (finish_ping id c s)).
Proof.
  intros He Hn. unfold finish_ping. destruct (request_position id s) as [[p r]|] eqn:Hp.
  - by eapply assign_closed.
  - split; [done|]. fields. by apply first_only_weaken.
Qed.

Lemma finish_create_closed env id cid cc x rep result (s : PoolState C) :
  ps_open s = false → emptied s → no_conns (ps_requests s) →
  let s' := finish_create env id cid cc x rep result s in
  emptied s' ∧ first_only id (ps_requests s').
Proof.
  intros Ho He Hn. cbn zeta. unfold finish_create.
  set (s1 := match rep with Some old => drop_conn old s | None => s end).
  assert (emptied s1 ∧ no_conns (ps_requests s1)) as [He1 Hn1].
  { subst s1. destruct rep; [|done]. unfold drop_conn. by rewrite ensure_min_closed. }
  revert He1 Hn1. generalize s1. clear. intros s He Hn.
  destruct (request_position id s) as [[p r]|] eqn:Hp; destruct result as [err|c].
  - apply request_position_some in Hp as [Hp _]. split; [by apply emptied_alter|]. fields.
    apply first_only_weaken. by eapply no_conns_alter.
  - by eapply assign_closed.
  - split; [done|]. by apply first_only_weaken.
  - split; [done|]. fields. by apply first_only_weaken.
Qed.

Lemma post_process_closed id (s : PoolState C) :
  ps_open s = false → emptied s → first_only id (ps_requests s) →
  emptied (post_process_request id s) ∧ no_conns (ps_requests (post_process_request id s)).
Proof.
  intros Ho He Hf. unfold post_process_request.
  destruct (request_position id s) as [[p r]|] eqn:Hp.
  - pose proof Hp as [Hl _]%request_position_some.
    destruct He as (? & ? & ? & ? & Hw). pose proof (Forall_lookup_1 _ _ _ _ Hw Hl) as Hwr.
    cbn in Hwr. rewrite Hwr. cbn [negb].
    pose proof (first_only_delete _ _ _ _ Hp Hf) as Hnd.
    assert (Forall (λ r, rq_waiting r = false) (delete p (ps_requests s))) by by apply Forall_delete.
    destruct (has_conn r).
    + match goal with |- emptied (reject ?c ?x) ∧ _ =>
        destruct (reject_closed c x) as (Hre & Hrr & _) end.
      { done. }
      { repeat split; try done. fields. by rewrite !delete_alter_same. }
      split; [done|]. rewrite Hrr. fields. by rewrite !delete_alter_same.
    + destruct (rq_requires_ping r); rewrite ?ensure_min_closed by done; (split; [repeat split; try done|]);
        fields; by rewrite !delete_alter_same.
  - split; [done|]. revert Hp Hf. unfold request_position. generalize (ps_requests s). clear.
    induction l as [|x l IH]; [constructor|]. cbn [list_find first_only]. case_decide; [done|].
    destruct (list_find _ l) as [[]|]; [done|]. intros _ [Hx Hl]. constructor; [done|]. by apply IH.
Qed.

Lemma post_create_closed id result (s : PoolState C) :
  ps_open s = false → emptied s →
  emptied (post_create_conn id result s) ∧
  ps_requests (post_create_conn id result s) = ps_requests s.
Proof.
  intros Ho He. unfold post_create_conn.
  assert (ps_open (complete_open_effect id s) = false ∧ emptied (complete_open_effect id s) ∧
    ps_requests (complete_open_effect id s) = ps_requests s) as (-> & Hce & <-).
  { unfold complete_open_effect. by destruct (remove_first _ _) as [[]|]. }
  by destruct result.
Qed.

Lemma sweep_list_nil fuel env limit get pop (s : PoolState C) :
  get s = [] → (sweep_list fuel env limit get pop s).2 = s.
Proof. intros Hg. destruct fuel; cbn [sweep_list]; rewrite Hg; by destruct (_ <=? _). Qed.

Lemma sweep_closed env (s : PoolState C) : emptied s → sweep_idle_timeout env s = s.
Proof.
  intros (Hn & Hu & _). unfold sweep_idle_timeout. destruct (_ =? 0); [done|].
  pose proof (sweep_list_nil (length (ps_free_new s)) env
    (from_secs (cfg_timeout_secs (ps_config s))) ps_free_new (upd_ps_free_new (drop 1)) s Hn) as H.
  destruct (sweep_list _ _ _ _ _ s) as [[] s1]; cbn [snd] in H; subst s1; [|done].
  by apply sweep_list_nil.
Qed.

Lemma closing_reaper_closed env ans e :
  ps_open (eng_state e) = false → closing_inv e → closing_inv (reaper_step env ans e).
Proof.
  intros Ho Hinv. pose proof (cl_closed e Hinv Ho) as [He Hq]. unfold reaper_step.
  destruct (reaper e) as [cur|stopping cur|id|id c|id cid cc x rep|id|stopping|cid cc
    |stopping|c|stopping| |] eqn:Hr; cbn [reqs_closed] in Hq;
    try (apply closing_closed; fields; done).
  - unfold drain. fields. rewrite drain_closed, Ho by done. destruct cur; fields; rewrite ?Ho;
      by apply closing_closed.
  - destruct (begin_closed id (eng_state e) He Hq) as (H1 & H2 & H3 & H4).
    pose proof (begin_open id (eng_state e)) as Hb. unfold keeps_open in Hb.
    destruct (begin_process id (eng_state e)) as [work s]. cbn [fst snd] in *.
    apply closing_closed; fields; [congruence|by destruct work|done|].
    destruct work; [done|done|]. by apply first_only_weaken.
  - destruct (ping_healthy ans).
    + destruct (finish_ping_closed id c (eng_state e) He Hq).
      apply closing_closed; fields; try done. by rewrite finish_ping_open.
    + apply closing_closed; fields; try done. by apply first_only_weaken.
  - destruct (finish_create_closed env id cid cc x rep (create_result ans) (eng_state e) Ho He Hq).
    destruct (create_result ans); apply closing_closed; fields; try done; by rewrite finish_create_open.
  - destruct (post_process_closed id (eng_state e) Ho He Hq) as [H1 H2].
    destruct (get_next_closed _ H1 H2) as [H3 H4].
    pose proof (get_next_open (post_process_request id (eng_state e))) as Hg. unfold keeps_open in Hg.
    destruct (get_next_request _) as [cur s]. cbn [snd] in *.
    apply closing_closed; fields; try done. by rewrite Hg, post_process_open.
  - rewrite Ho. by apply closing_closed.
  - assert (∀ result, let s' := post_create_conn cid result (eng_state e) in
      emptied s' ∧ ps_requests s' = ps_requests (eng_state e)) as Hpc.
    { intros result. by apply post_create_closed. }
    destruct (create_result ans); fields;
      (edestruct Hpc as [Hpe Hpr]; apply closing_closed; fields;
        [by rewrite post_create_open|done|exact Hpe|by rewrite Hpr]).
  - destruct (pop_back _) as [[c rest]|]; by apply closing_closed.
  - assert (sweep_idle_timeout env (eng_state e) = eng_state e) as ->.
    { by apply sweep_closed. }
    rewrite Ho. cbn [negb orb andb].
    destruct (Zlen (ps_to_drop (eng_state e)) =? 0) eqn:Hz.
    + apply closing_closed; fields; try done. intros _. apply Z.eqb_eq in Hz. unfold Zlen in Hz.
      apply nil_length_inv. lia.
    + case_match; by apply closing_closed.
  - done.
Qed.

Lemma closing_reaper env ans e : closing_inv e → closing_inv (reaper_step env ans e).
Proof.
  intros Hinv. destruct (ps_open (eng_state e)) eqn:Ho; [|by apply closing_reaper_closed].
  assert (¬ (reaper_stop e = true ∨ stop_pc (reaper e) = true ∨ reaper e = RDone)) as Hn.
  { intros Hs%(cl_stop e Hinv). congruence. }
  apply closing_reaper_open; [done|..].
  - destruct (reaper_stop e); [tauto|done].
  - destruct (stop_pc (reaper e)); [tauto|done].
  - tauto.
Qed.

(** ** Every graceful step keeps it *)

Lemma closing_set e s' d :
  closing_inv e →
  (ps_open (eng_state e) = true → ps_open s' = true) →
  (ps_open (eng_state e) = false →
     ps_open s' = false ∧ emptied s' ∧ reqs_closed (reaper e) (ps_requests s') ∧
     (no_conns (ps_requests (eng_state e)) → ps_to_drop s' = ps_to_drop (eng_state e))) →
  closing_inv (mkEngine s' d (reaper_stop e) (reaper e) (created e) (closed e)).
Proof.
  intros Hinv Hopen Hclosed. destruct (ps_open (eng_state e)) eqn:Ho.
  - specialize (Hopen eq_refl). split; fields; [|intros Hd|congruence].
    + intros Hs%(cl_stop e Hinv). congruence.
    + assert (ps_open (eng_state e) = false) by (apply (cl_stop e Hinv); tauto). congruence.
  - destruct Hclosed as (H1 & H2 & H3 & H4); [done|]. apply closing_closed; fields; try done.
    intros Hd. rewrite H4; [by apply cl_done|].
    pose proof (cl_closed e Hinv Ho) as [_ Hq]. by rewrite Hd in Hq.
Qed.

(** An operation that does nothing to a closed pool. *)
Lemma closing_noop e s' d :
  closing_inv e → keeps_open (eng_state e) s' →
  (ps_open (eng_state e) = false → s' = eng_state e) →
  closing_inv (mkEngine s' d (reaper_stop e) (reaper e) (created e) (closed e)).
Proof.
  unfold keeps_open. intros Hinv Hk Hc. apply closing_set; [done|congruence|].
  intros Ho. rewrite (Hc Ho). pose proof (cl_closed e Hinv Ho) as [He Hq]. done.
Qed.

Lemma closing_drain env e : closing_inv e → closing_inv (drain env e).
Proof.
  intros Hinv. apply closing_noop; [done|apply drain_open|]. intros. by apply drain_closed.
Qed.

Lemma closing_locked {A} (m : EngineM C A) e :
  closing_inv e → (∀ s, keeps_open s (m s).2) → (∀ s, ps_open s = false → (m s).2 = s) →
  closing_inv (locked m e).2.
Proof.
  intros Hinv Hk Hc. unfold locked. specialize (Hk (eng_state e)). specialize (Hc (eng_state e)).
  destruct (m (eng_state e)) as [r s]. by apply closing_noop.
Qed.

(** Setters change the configuration only. *)
Lemma closing_setting e f :
  closing_inv e →
  (∀ s : PoolState C, ps_open (f s) = ps_open s ∧ ps_requests (f s) = ps_requests s ∧
     ps_to_drop (f s) = ps_to_drop s ∧ (emptied s → emptied (f s))) →
  closing_inv (set_state (f (eng_state e)) e).
Proof.
  intros Hinv Hf. destruct (Hf (eng_state e)) as (H1 & H2 & H3 & H4).
  apply closing_set; [done|congruence|]. intros Ho.
  pose proof (cl_closed e Hinv Ho) as [He Hq]. rewrite H1, H2, H3. auto.
Qed.

Lemma closing_abandon id e : closing_inv e → closing_inv (set_state (abandon_request id (eng_state e)) e).
Proof.
  intros Hinv. apply closing_set; [done|by rewrite abandon_open|]. intros Ho.
  pose proof (cl_closed e Hinv Ho) as [He Hq]. rewrite abandon_open. split; [done|].
  by apply abandon_closed.
Qed.

Lemma closing_shutdown force e :
  closing_inv e →
  closing_inv
    (let '(r, s) := request_worker_shutdown (C:=C) force (eng_state e) in
     mkEngine s (drop_returns e)
       (reaper_stop e || match r with Ok b => b | _ => false end) (reaper e) (created e) (closed e)).
Proof.
  intros Hinv. unfold request_worker_shutdown. st_run. destruct (ps_open (eng_state e)) eqn:Ho; cbn [negb].
  - destruct (_ && _); st_run; rewrite ?orb_false_r; [by apply closing_noop|].
    apply closing_closed; fields; try done.
    + intros Hd. assert (ps_open (eng_state e) = false) by (apply (cl_stop e Hinv); tauto). congruence.
    + repeat split; try done. fields. by apply Forall_filter_map.
    + apply reqs_closed_weaken. by apply Forall_filter_map.
  - st_run. rewrite orb_false_r. by apply closing_noop.
Qed.

Lemma closing_bind {A B} (m : ST PoolError (Engine C) A) (f : A → ST PoolError (Engine C) B) e :
  closing_inv (m e).2 → (∀ a e', closing_inv e' → closing_inv (f a e').2) →
  closing_inv ((m ≫= f) e).2.
Proof. rewrite st_bindE. destruct (m e) as [[]]; cbn; auto. Qed.

Lemma closing_poll env id e : closing_inv e → closing_inv (locked (poll_request_completion env id) e).2.
Proof.
  intros Hinv. unfold locked. pose proof (poll_open env id (eng_state e)) as Hp.
  pose proof (poll_closed env id (eng_state e)) as Hc.
  destruct (poll_request_completion env id (eng_state e)) as [r s]. cbn [snd] in *.
  apply closing_set; [done|unfold keeps_open in Hp; congruence|]. intros Ho. rewrite (Hc Ho).
  pose proof (cl_closed e Hinv Ho) as [He Hq]. rewrite abandon_open. split; [done|].
  by apply abandon_closed.
Qed.

Lemma closing_close env force e : closing_inv e → closing_inv (handle env (Close force) e).2.
Proof.
  intros Hinv. cbn [handle]. apply closing_bind; [by apply closing_drain|]. clear e Hinv.
  intros _ e Hinv. pose proof (closing_shutdown force e Hinv) as Hs. st_run. unfold locked.
  destruct (request_worker_shutdown force (eng_state e)) as [[b| | |] s]; fields;
    rewrite ?orb_false_r in Hs; exact Hs.
Qed.

Lemma closing_handle env ev e : graceful ev = true → closing_inv e → closing_inv (handle env ev e).2.
Proof.
  intros Hg Hinv. destruct ev; try (by apply closing_close); cbn [handle graceful] in *; try done;
    repeat (apply closing_bind; [|clear e Hinv; intros ? e Hinv]); st_run; fields; try done;
    try (by apply closing_drain); try (by apply closing_setting; [done|by split]).
  - apply closing_locked; [done|..]; intros s; unfold enqueue_request, keeps_open; st_run;
      destruct (ps_open s) eqn:E; by cbn.
  - by apply closing_poll.
  - by apply closing_abandon.
  - apply closing_locked; [done|..]; intros s; unfold return_connection_impl, keeps_open; st_run;
      destruct (ps_open s) eqn:E; try done; cbn [negb]; st_run;
      destruct (remove_first _ _) as [[]|]; try done. st_run. fields.
    by rewrite return_helper_open.
  - apply closing_locked; [done|..]; intros s; unfold drop_connection_impl, keeps_open; st_run;
      destruct (ps_open s) eqn:E; try done; cbn [negb]; st_run;
      destruct (remove_first _ _) as [[]|]; try done. st_run. fields.
    by rewrite drop_conn_open.
  - by apply closing_noop.
  - apply closing_setting; [done|]. intros s. unfold set_getmode. by destruct (negb _).
  - by apply closing_reaper.
Qed.

Lemma closing_start config : closing_inv (pool_start (C:=C) config).
Proof.
  apply closing_open; fields; try done. unfold pool_start, schedule_open_effects. fields.
  by destruct (schedule_fields (C:=C) (Z.to_nat (cfg_min config))
    (mkPool true config (cfg_getmode config =? POOL_GETMODE_FORCEGET)
       (if cfg_getmode config =? POOL_GETMODE_TIMEDWAIT then Some (cfg_wait_timeout_ms config)
        else None) [] [] [] [] [] [] [] 1 1 [])) as (_ & _ & _ & _ & _ & -> & _).
Qed.

Definition graceful_reachable (config : PoolConfig) (e : Engine C) : Prop :=
  rtc graceful_step (pool_start config) e.

Lemma graceful_closing config e : graceful_reachable config e → closing_inv e.
Proof.
  apply (rtc_ind_r (λ e, closing_inv e)); [apply closing_start|].
  intros e1 e2 _ [env ev e1' r e2' Hg Hs] He. pose proof (closing_handle env ev e1' Hg He) as H.
  by rewrite Hs in H.
Qed.

Lemma graceful_is_reachable config e : graceful_reachable config e → pool_reachable config e.
Proof.
  unfold graceful_reachable, pool_reachable. induction 1 as [|e1 e2 e3 [] _ IH]; [done|].
  eapply rtc_l; [by econstructor|done].
Qed.

(** ** The reaper's way to its end *)

Definition conn_count (l : list (Request C)) : Z := sum_by (λ r, if has_conn r then 1 else 0) l.

Definition creating (r : ReaperPc C) : Z :=
  match r with RCreating _ _ _ _ _ | ROpening _ _ => 1 | _ => 0 end.

(** The connections still to be closed, counting one that is being created. *)
Definition backlog (e : Engine C) : Z :=
  Zlen (ps_to_drop (eng_state e)) + conn_count (ps_requests (eng_state e))
  + Zlen (reaper_conns (reaper e)) + creating (reaper e).

Definition rank (e : Engine C) : Z :=
  match reaper e with
  | RTop _ => 5 | RPick _ _ => 4 | REffect _ => 3 | RDrops _ => 2
  | RSweep _ => if Zlen (ps_to_drop (eng_state e)) =? 0 then 1 else 6
  | RClosing _ => 1 | RDone => 0 | RPost _ | ROpening _ _ | RParked => 6
  | RPinging _ _ | RCreating _ _ _ _ _ => 7 | RProcess _ => 14
  end.

(** Six steps close a connection. *)
Definition close_bound (e : Engine C) : Z := 6 * backlog e + rank e.

Lemma conn_count_nonneg l : 0 <= conn_count l.
Proof. apply sum_by_nonneg. intros r. by destruct (has_conn r). Qed.

Lemma no_conns_count l : no_conns l → conn_count l = 0.
Proof.
  unfold conn_count, no_conns. induction 1 as [|r l Hr Hl IH]; [done|].
  by rewrite sum_by_cons, Hr, IH.
Qed.

Lemma rank_nonneg e : 0 <= rank e.
Proof. unfold rank. destruct (reaper e); try lia. case_match; lia. Qed.

Lemma close_bound_nonneg e : 0 <= close_bound e.
Proof.
  unfold close_bound, backlog. pose proof (rank_nonneg e).
  pose proof (Zlen_nonneg (ps_to_drop (eng_state e))).
  pose proof (conn_count_nonneg (ps_requests (eng_state e))).
  pose proof (Zlen_nonneg (reaper_conns (reaper e))).
  assert (0 <= creating (reaper e)) by (by destruct (reaper e)). lia.
Qed.

Lemma assign_count p c r (s : PoolState C) :
  ps_requests s !! p = Some r → no_conns (ps_requests s) →
  conn_count (ps_requests (assign_conn p c s)) = 1 ∧ ps_to_drop (assign_conn p c s) = ps_to_drop s.
Proof.
  intros Hp Hn. split; [|done]. unfold assign_conn. fields. unfold conn_count.
  rewrite (sum_by_alter _ _ _ _ _ Hp). fold (conn_count (ps_requests s)).
  rewrite no_conns_count by done. unfold has_conn at 2. fields.
  by rewrite (Forall_lookup_1 _ _ _ _ Hn Hp).
Qed.

Lemma finish_ping_count id c (s : PoolState C) :
  no_conns (ps_requests s) →
  Zlen (ps_to_drop (finish_ping id c s)) + conn_count (ps_requests (finish_ping id c s))
  <= Zlen (ps_to_drop s) + 1.
Proof.
  intros Hn. unfold finish_ping. destruct (request_position id s) as [[p r]|] eqn:Hp.
  - apply request_position_some in Hp as [Hp _].
    destruct (assign_count p c r s Hp Hn) as [-> ->]. lia.
  - fields. rewrite no_conns_count by done. lia.
Qed.

Lemma finish_create_count env id cid cc x rep result (s : PoolState C) :
  ps_open s = false → no_conns (ps_requests s) →
  let s' := finish_create env id cid cc x rep result s in
  Zlen (ps_to_drop s') + conn_count (ps_requests s')
  <= Zlen (ps_to_drop s) + Zlen (option_list rep) + 1.
Proof.
  intros Ho Hn. cbn zeta. unfold finish_create.
  set (s1 := match rep with Some old => drop_conn old s | None => s end).
  assert (ps_requests s1 = ps_requests s ∧
    Zlen (ps_to_drop s1) = Zlen (ps_to_drop s) + Zlen (option_list rep)) as [Hr1 Hd1].
  { subst s1. destruct rep; [|cbn; unfold Zlen; split; [done|cbn; lia]].
    unfold drop_conn. rewrite ensure_min_closed by done. fields. split; [done|].
    by rewrite Zlen_app. }
  rewrite <- Hr1 in Hn. rewrite <- Hd1. clear Hr1 Hd1. revert Hn. generalize s1. clear. intros s Hn.
  destruct (request_position id s) as [[p r]|] eqn:Hp; destruct result as [err|c].
  - apply request_position_some in Hp as [Hp _]. fields. unfold conn_count.
    rewrite (sum_by_alter _ _ _ _ _ Hp). fold (conn_count (ps_requests s)).
    rewrite no_conns_count by done. rewrite (Forall_lookup_1 _ _ _ _ Hn Hp).
    unfold has_conn. fields. pose proof (Forall_lookup_1 _ _ _ _ Hn Hp) as Hc. cbn in Hc.
    unfold has_conn in Hc. destruct (rq_conn r); [done|]. lia.
  - apply request_position_some in Hp as [Hp _].
    edestruct assign_count as [-> ->]; [done|done|]. lia.
  - rewrite no_conns_count by done. lia.
  - fields. rewrite Zlen_app, no_conns_count by done. autorewrite with thin. lia.
Qed.

Lemma post_process_count id (s : PoolState C) :
  ps_open s = false → emptied s →
  Zlen (ps_to_drop (post_process_request id s)) <= Zlen (ps_to_drop s) + conn_count (ps_requests s).
Proof.
  intros Ho He. pose proof (conn_count_nonneg (ps_requests s)). unfold post_process_request.
  destruct (request_position id s) as [[p r]|] eqn:Hp; [|lia].
  apply request_position_some in Hp as [Hp _].
  destruct He as (_ & _ & _ & _ & Hw). rewrite (Forall_lookup_1 _ _ _ _ Hw Hp). cbn [negb].
  destruct (has_conn r) eqn:Hc.
  - assert (1 <= conn_count (ps_requests s)).
    { unfold conn_count. rewrite <- (take_drop_middle _ _ _ Hp), sum_by_app, sum_by_cons, Hc.
      pose proof (conn_count_nonneg (take p (ps_requests s))).
      pose proof (conn_count_nonneg (drop (S p) (ps_requests s))). unfold conn_count in *. lia. }
    unfold reject. fields. rewrite Ho. destruct (rq_conn r); cbn [negb]; fields; [|lia].
    rewrite Zlen_app. autorewrite with thin. lia.
  - destruct (rq_requires_ping r); rewrite ?ensure_min_closed by done; fields; lia.
Qed.

Lemma get_next_to_drop (s : PoolState C) :
  ps_to_drop (get_next_request s).2 = ps_to_drop s.
Proof. unfold get_next_request, update_by_id. by repeat case_match. Qed.

Lemma post_create_count id result (s : PoolState C) :
  ps_open s = false → Zlen (ps_to_drop (post_create_conn id result s)) <= Zlen (ps_to_drop s) + 1.
Proof.
  intros Ho. unfold post_create_conn.
  assert (ps_open (complete_open_effect id s) = false ∧
    ps_to_drop (complete_open_effect id s) = ps_to_drop s) as [-> Hd].
  { unfold complete_open_effect. by destruct (remove_first _ _) as [[]|]. }
  destruct result; cbn [negb]; fields; rewrite Hd; [lia|]. rewrite Zlen_app.
  autorewrite with thin. lia.
Qed.

Lemma reaper_progress env ans e :
  ps_open (eng_state e) = false → closing_inv e → reaper e ≠ RDone →
  close_bound (reaper_step env ans e) < close_bound e.
Proof.
  intros Ho Hinv Hd. pose proof (cl_closed e Hinv Ho) as [He Hq].
  unfold reaper_step, close_bound, backlog, rank.
  destruct (reaper e) as [cur|stopping cur|id|id c|id cid cc x rep|id|stopping|cid cc
    |stopping|c|stopping| |] eqn:Hr; cbn [reqs_closed] in Hq; try done;
    try pose proof (no_conns_count _ Hq) as Hq0.
  - fields. cbn [reaper_conns creating]. lia.
  - unfold drain. fields. rewrite drain_closed, Ho by done. destruct cur; fields; rewrite ?Ho;
      fields; cbn [reaper_conns creating]; lia.
  - destruct (begin_closed id (eng_state e) He Hq) as (H1 & H2 & H3 & H4).
    destruct (begin_process id (eng_state e)) as [work s]. cbn [fst snd] in *. fields.
    rewrite H3, (no_conns_count _ H2), Hq0.
    destruct work as [| |]; [done|subst replaced|]; cbn [reaper_conns creating]; rewrite ?Zlen_nil; lia.
  - destruct (ping_healthy ans); fields; cbn [reaper_conns creating]; autorewrite with thin; [|lia].
    pose proof (finish_ping_count id c (eng_state e) Hq). lia.
  - pose proof (finish_create_count env id cid cc x rep (create_result ans) (eng_state e) Ho Hq) as Hf.
    cbn zeta in Hf. destruct (create_result ans); fields; cbn [reaper_conns creating];
      destruct rep; cbn [reaper_conns option_list option_rect] in *; autorewrite with thin in *; lia.
  - destruct (post_process_closed id (eng_state e) Ho He Hq) as [H1 H2].
    destruct (get_next_closed _ H1 H2) as [_ H4].
    pose proof (get_next_to_drop (post_process_request id (eng_state e))) as Hg.
    pose proof (post_process_count id (eng_state e) Ho He).
    destruct (get_next_request _) as [cur s]. cbn [snd] in *. fields. cbn [reaper_conns creating].
    rewrite Hg, (no_conns_count _ H4). lia.
  - rewrite Ho. fields. cbn [reaper_conns creating]. lia.
  - assert (∀ result, Zlen (ps_to_drop (post_create_conn cid result (eng_state e)))
      + conn_count (ps_requests (post_create_conn cid result (eng_state e)))
      <= Zlen (ps_to_drop (eng_state e)) + 1) as Hpc.
    { intros result. pose proof (post_create_count cid result (eng_state e) Ho).
      destruct (post_create_closed cid result (eng_state e) Ho He) as [_ ->]. lia. }
    destruct (create_result ans); fields; cbn [reaper_conns creating];
      match goal with |- context [post_create_conn cid ?r ?s] => specialize (Hpc r) end;
      autorewrite with thin; lia.
  - destruct (pop_back _) as [[c rest]|] eqn:Hp; fields; cbn [reaper_conns creating].
    + apply pop_back_some in Hp. rewrite Hp. autorewrite with thin. lia.
    + apply pop_back_none in Hp. rewrite Hp. autorewrite with thin. cbn. lia.
  - fields. cbn [reaper_conns creating]. autorewrite with thin. lia.
  - rewrite sweep_closed by done. rewrite Ho. cbn [negb orb andb].
    destruct (Zlen (ps_to_drop (eng_state e)) =? 0) eqn:Hz.
    + fields. cbn [reaper_conns creating]. lia.
    + cbn [negb orb]. rewrite orb_true_r. cbn [orb]. fields. cbn [reaper_conns creating]. lia.
  - fields. cbn [reaper_conns creating]. lia.
Qed.

(** The reaper alone, against a sequence of answers. *)
Fixpoint reaper_run (n : nat) (answers : nat → Env C * Answer C) (e : Engine C) : Engine C :=
  match n with
  | O => e
  | S n => reaper_run n (λ k, answers (S k)) (reaper_step (answers O).1 (answers O).2 e)
  end.

Lemma reaper_keeps_closed env ans e :
  ps_open (eng_state e) = false → closing_inv e → ps_open (eng_state (reaper_step env ans e)) = false.
Proof.
  intros Ho Hinv. unfold reaper_step.
  destruct (reaper e) as [cur|stopping cur|id|id c|id cid cc x rep|id|stopping|cid cc
    |stopping|c|stopping| |] eqn:Hr; fields; try done.
  - unfold drain. fields. rewrite drain_closed, Ho by done. by destruct cur; fields; rewrite ?Ho.
  - pose proof (begin_open id (eng_state e)) as Hb. unfold keeps_open in Hb.
    destruct (begin_process id (eng_state e)). cbn [snd] in Hb. fields. congruence.
  - destruct (ping_healthy ans); fields; [|done]. by rewrite finish_ping_open.
  - destruct (create_result ans); fields; by rewrite finish_create_open.
  - pose proof (get_next_open (post_process_request id (eng_state e))) as Hg. unfold keeps_open in Hg.
    destruct (get_next_request _). cbn [snd] in Hg. fields. by rewrite Hg, post_process_open.
  - by rewrite Ho.
  - destruct (create_result ans); fields; by rewrite post_create_open.
  - by destruct (pop_back _) as [[]|].
  - pose proof (sweep_open env (eng_state e)) as Hs. unfold keeps_open in Hs.
    repeat case_match; fields; congruence.
Qed.

Lemma reaper_ends : ∀ (k : nat) answers e,
  ps_open (eng_state e) = false → closing_inv e → close_bound e <= Z.of_nat k →
  ∃ n, (n <= k)%nat ∧ reaper (reaper_run n answers e) = RDone.
Proof.
  induction k as [|k IH]; intros answers e Ho Hinv Hk.
  - exists O. split; [lia|]. cbn [reaper_run]. pose proof (close_bound_nonneg e).
    destruct (reaper e) eqn:Hr; try done; exfalso;
      (pose proof (reaper_progress (answers O).1 (answers O).2 e Ho Hinv ltac:(by rewrite Hr));
       pose proof (close_bound_nonneg (reaper_step (answers O).1 (answers O).2 e)); lia).
  - destruct (decide (rank e = 0)) as [H0|H0].
    + exists O. split; [lia|]. cbn [reaper_run]. unfold rank in H0.
      destruct (reaper e); try done. by destruct (_ =? 0).
    + assert (reaper e ≠ RDone) as Hnd by (intros Hd; apply H0; unfold rank; by rewrite Hd).
      set (e1 := reaper_step (answers O).1 (answers O).2 e).
      destruct (IH (λ k, answers (S k)) e1) as (n & Hn & Hdone).
      * by apply reaper_keeps_closed.
      * by apply closing_reaper.
      * pose proof (reaper_progress (answers O).1 (answers O).2 e Ho Hinv Hnd). subst e1. lia.
      * exists (S n). split; [lia|done].
Qed.

Lemma no_conns_nil l : no_conns l → request_conns l = [].
Proof.
  unfold no_conns, request_conns. induction 1 as [|r l Hr Hl IH]; [done|]. cbn.
  unfold has_conn in Hr. destruct (rq_conn r); [done|]. exact IH.
Qed.

End Close.

(** C28: Closing terminates.  On runs that a close request ends (no drop of the last handle, no cancelled runtime): once the pool has
    been told to close, at most [close_bound] more steps of the reaper bring it to its end,
    whatever the backend answers, at six steps per connection that is left. *)
Theorem pool_close_terminates {C : Type} (config : PoolConfig) (e : Engine C)
    (answers : nat → Env C * Answer C) :
  graceful_reachable config e → ps_open (eng_state e) = false →
  ∃ n, Z.of_nat n <= close_bound e ∧ reaper (reaper_run n answers e) = RDone.
Proof.
  intros Hr%graceful_closing Ho. pose proof (close_bound_nonneg e).
  destruct (reaper_ends (Z.to_nat (close_bound e)) answers e Ho Hr) as (n & Hn & Hd); [lia|].
  exists n. split; [lia|done].
Qed.

(** C27: A pool closed on request holds nothing.  On every run in which the pool is closed by
    a close request only (the last handle is not dropped, which closes the pool without its
    reaper, and the reaper's runtime is not cancelled or shut down, on which it leaves early
    with the pool open and its connections held): when the reaper has come to its end, the
    pool is closed, no list, request or task holds a connection, and every connection that
    was ever created has been closed or is one the engine let go without closing it. *)
Theorem pool_close_drains {C : Type} (config : PoolConfig) (e : Engine C) :
  graceful_reachable config e → reaper e = RDone →
  ps_open (eng_state e) = false ∧ owned e = [] ∧
  created e ≡ₚ map pc_id (ps_lost (eng_state e)) ++ closed e.
Proof.
  intros Hr Hd. pose proof (graceful_closing _ _ Hr) as Hinv.
  assert (ps_open (eng_state e) = false) as Ho by (apply (cl_stop e Hinv); tauto).
  pose proof (cl_closed e Hinv Ho) as [(Hn & Hu & Hb & _) Hq]. rewrite Hd in Hq.
  assert (owned e = []) as Hown.
  { unfold owned. rewrite Hn, Hu, Hb, (cl_done e Hinv Hd), (no_conns_nil _ Hq), Hd. done. }
  split; [done|]. split; [done|].
  pose proof (engine_reachable_inv _ _ (graceful_is_reachable _ _ Hr)) as He.
  apply occ_Permutation. intros i. rewrite (ei_conserved _ He).
  pose proof (owned_occ i e) as Hoc. rewrite Hown in Hoc. unfold occ in *.
  rewrite sum_by_app, (sum_by_map (hit i) pc_id). cbn in Hoc.
  change (λ x, hit i (pc_id x)) with (@conn_hit C i). lia.
Qed.

Lemma run_graceful {C : Type} config (l : list (Env C * Event C)) : ∀ e,
  forallb (λ p, graceful p.2) l = true → graceful_reachable config e →
  graceful_reachable config (run l e).
Proof.
  induction l as [|[env ev] l IH]; intros e Hg He; [done|]. cbn in Hg.
  apply andb_true_iff in Hg as [Hev Hg]. cbn [run]. apply IH; [done|].
  eapply rtc_r; [exact He|]. econstructor; [exact Hev|]. apply surjective_pairing.
Qed.

(** A pool told to close while its connection is checked out. *)
Definition closing_run : Engine () :=
  run (on (steps 4 ++ [Acquire any_class; Poll 1] ++ steps 5 ++ [Poll 1; Close true]))
    (pool_start pinging_config).

Lemma closing_run_reachable : graceful_reachable pinging_config closing_run.
Proof. apply run_graceful; [by vm_compute|apply rtc_refl]. Qed.

Lemma pool_close_terminates_witness :
  ps_open (eng_state closing_run) = false ∧
  ∃ n, Z.of_nat n <= close_bound closing_run ∧
    reaper (reaper_run n (λ _, (calm, mkAnswer true (inr ()))) closing_run) = RDone.
Proof.
  split; [vm_compute; reflexivity|].
  apply (pool_close_terminates pinging_config closing_run _ closing_run_reachable).
  vm_compute; reflexivity.
Defined.

Lemma pool_close_drains_witness :
  let e := run (on (steps 11)) closing_run in
  reaper e = RDone ∧ owned e = [] ∧ closed e = [1].
Proof.
  assert (graceful_reachable pinging_config (run (on (steps 11)) closing_run)) as Hr
    by (apply run_graceful; [vm_compute; reflexivity|apply closing_run_reachable]).
  assert (reaper (run (on (steps 11)) closing_run) = RDone) as Hd by (vm_compute; reflexivity).
  destruct (pool_close_drains pinging_config _ Hr Hd) as (_ & Ho & _).
  cbn zeta. split; [exact Hd|]. split; [exact Ho|]. vm_compute; reflexivity.
Defined.
