(* ===== verification/Executemany.v ===== *)
(** * Batches of an [executemany] call ([oracledb/src/cursor_logic.rs])

    [ExecutemanyManager] cuts the bound rows into the windows each round trip
    carries.  The adapter reads the current window, executes it and calls
    [next_batch] until the window is empty; [drain] is that loop. *)

From Stdlib Require Import Sorting.Sorted.
From S2P Require Import Prelude.

Inductive ExecutemanyManagerError :=
| ZeroBatchSize
| RowCountOverflow.

Record ExecutemanyManager := mkManager {
  em_total_rows : Z;
  em_batch_size : Z;
  em_num_rows : Z;
  em_message_offset : Z;
  em_chunk_ends : list Z
}.

Definition sat_add_u32 (a b : Z) : Z := Z.min (a + b) U32_MAX.

(** [ExecutemanyManager::batch_len_from] *)
Definition batch_len_from (m : ExecutemanyManager) (offset : Z) : Z :=
  let remaining := sat_sub (em_total_rows m) offset in
  let len := Z.min remaining (em_batch_size m) in
  match List.find (λ e, offset <? e) (em_chunk_ends m) with
  | Some next_end => Z.min len (sat_sub next_end offset)
  | None => len
  end.

(** The loop of [with_chunks] over the chunk lengths. *)
Fixpoint push_chunk_ends (acc : Z) (lengths : list Z) : Result ExecutemanyManagerError (list Z) :=
  match lengths with
  | [] => Ok []
  | len :: lengths =>
      len ← ok_or (try_range 0 U32_MAX len) RowCountOverflow;
      let acc := sat_add_u32 acc len in
      ends ← push_chunk_ends acc lengths;
      Ok (acc :: ends)
  end.

(** [ExecutemanyManager::with_chunks] *)
Definition with_chunks (total_rows batch_size : Z) (chunk_lengths : list Z)
  : Result ExecutemanyManagerError ExecutemanyManager :=
  total_rows ← ok_or (try_range 0 U32_MAX total_rows) RowCountOverflow;
  _ ← ensure (negb (batch_size =? 0)) ZeroBatchSize;
  chunk_ends ← push_chunk_ends 0 chunk_lengths;
  let manager := mkManager total_rows batch_size 0 0 chunk_ends in
  Ok (mkManager total_rows batch_size (batch_len_from manager 0) 0 chunk_ends).

(** [ExecutemanyManager::new] *)
Definition manager_new (total_rows batch_size : Z)
  : Result ExecutemanyManagerError ExecutemanyManager := with_chunks total_rows batch_size [].

(** [ExecutemanyManager::next_batch] *)
Definition next_batch (m : ExecutemanyManager) : ExecutemanyManager :=
  let offset := sat_add_u32 (em_message_offset m) (em_num_rows m) in
  mkManager (em_total_rows m) (em_batch_size m) (batch_len_from m offset) offset
    (em_chunk_ends m).

(** The adapter's loop: the windows [(message_offset, num_rows)] it executes. *)
Fixpoint drain (fuel : nat) (m : ExecutemanyManager) : option (list (Z * Z)) :=
  match fuel with
  | O => None
  | S fuel =>
      if 0 <? em_num_rows m
      then rest ← drain fuel (next_batch m); Some ((em_message_offset m, em_num_rows m) :: rest)
      else Some []
  end.

(** ** What the windows promise *)

(** The windows tile [from..to] without a gap. *)
Fixpoint tiles (from to : Z) (windows : list (Z * Z)) : Prop :=
  match windows with
  | [] => from = to
  | (offset, n) :: windows => offset = from ∧ tiles (from + n) to windows
  end.

(** A window of at least one and at most [batch] rows that no boundary cuts. *)
Definition window_ok (batch : Z) (ends : list Z) (w : Z * Z) : Prop :=
  0 < snd w <= batch ∧ Forall (λ e, e <= fst w ∨ fst w + snd w <= e) ends.

Definition manager_ok (m : ExecutemanyManager) : Prop :=
  0 <= em_message_offset m <= em_total_rows m ∧ em_total_rows m <= U32_MAX ∧
  0 < em_batch_size m ∧ StronglySorted Z.le (em_chunk_ends m) ∧
  em_num_rows m = batch_len_from m (em_message_offset m).

Lemma find_next_end (ends : list Z) offset :
  StronglySorted Z.le ends →
  match List.find (λ e, offset <? e) ends with
  | Some e => offset < e ∧ Forall (λ e', e' <= offset ∨ e <= e') ends
  | None => Forall (λ e', e' <= offset) ends
  end.
Proof.
  induction 1 as [|e ends Hs IH Hall]; [constructor|]. cbn [List.find].
  destruct (Z.ltb_spec offset e).
  - split; [done|]. constructor; [lia|].
    eapply Forall_impl; [|exact Hall]. cbn. intros; lia.
  - destruct (List.find _ ends) as [e'|].
    + destruct IH as [? ?]. split; [done|]. constructor; [lia|done].
    + constructor; [lia|done].
Qed.

(** The current window is inside the rows, within the batch size, cut by no
    boundary, and empty only at the end. *)
Lemma batch_len_spec m offset :
  0 <= offset <= em_total_rows m → 0 < em_batch_size m → StronglySorted Z.le (em_chunk_ends m) →
  let n := batch_len_from m offset in
  0 <= n <= em_batch_size m ∧ offset + n <= em_total_rows m ∧
  (n = 0 → offset = em_total_rows m) ∧
  Forall (λ e, e <= offset ∨ offset + n <= e) (em_chunk_ends m).
Proof.
  intros Ho Hb Hs n. pose proof (find_next_end _ offset Hs) as Hf.
  subst n. unfold batch_len_from, sat_sub. destruct (List.find _ _) as [e|].
  - destruct Hf as [? Hf]. repeat split; try lia.
    eapply Forall_impl; [|exact Hf]. cbn. intros; lia.
  - repeat split; try lia. eapply Forall_impl; [|exact Hf]. cbn. intros; lia.
Qed.

Lemma manager_next m :
  manager_ok m →
  manager_ok (next_batch m) ∧
  em_message_offset (next_batch m) = em_message_offset m + em_num_rows m ∧
  em_total_rows (next_batch m) = em_total_rows m ∧
  em_batch_size (next_batch m) = em_batch_size m ∧
  em_chunk_ends (next_batch m) = em_chunk_ends m.
Proof.
  intros (Ho & Ht & Hb & Hs & Hn). destruct (batch_len_spec m _ Ho Hb Hs) as (? & ? & _ & _).
  rewrite <- Hn in *. unfold next_batch, sat_add_u32. cbn [em_message_offset em_total_rows
    em_batch_size em_chunk_ends].
  rewrite Z.min_l by lia. split; [|done].
  unfold manager_ok. cbn [em_message_offset em_total_rows em_batch_size em_chunk_ends em_num_rows].
  repeat split; try done; lia.
Qed.

Lemma drain_spec m : ∀ fuel,
  manager_ok m → em_total_rows m - em_message_offset m < Z.of_nat fuel →
  ∃ ws, drain fuel m = Some ws ∧ tiles (em_message_offset m) (em_total_rows m) ws ∧
        Forall (window_ok (em_batch_size m) (em_chunk_ends m)) ws.
Proof.
  intros fuel. revert m. induction fuel as [|fuel IH]; intros m Hok Hf.
  { destruct Hok as (? & _). lia. }
  destruct (manager_next m Hok) as (Hok' & Ho' & Ht' & Hb' & He').
  destruct Hok as (Ho & Ht & Hb & Hs & Hn).
  destruct (batch_len_spec m _ Ho Hb Hs) as (Hr & Hle & H0 & Hcut).
  rewrite <- Hn in *. cbn [drain].
  destruct (Z.ltb_spec 0 (em_num_rows m)).
  - destruct (IH (next_batch m) Hok') as (ws & -> & Htile & Hall); [lia|].
    eexists. split; [reflexivity|]. cbn [tiles]. rewrite Ho', Ht' in Htile.
    rewrite Hb', He' in Hall. repeat split; try done. constructor; [|done].
    unfold window_ok. cbn [fst snd]. split; [lia|done].
  - exists []. repeat split; [cbn; lia|constructor].
Qed.

(** The boundaries are sorted; only a length that is no [u32] is refused. *)
Lemma push_chunk_ends_spec lengths : ∀ acc,
  0 <= acc <= U32_MAX → Forall (Z.le 0) lengths →
  match push_chunk_ends acc lengths with
  | Ok ends => StronglySorted Z.le ends ∧ Forall (Z.le acc) ends
  | Err e => e = RowCountOverflow ∧ Exists (Z.lt U32_MAX) lengths
  | Panic | Diverge => False
  end.
Proof.
  induction lengths as [|len lengths IH]; intros acc Hacc Hl; cbn [push_chunk_ends].
  { split; constructor. }
  apply Forall_cons_iff in Hl as [Hlen Hl].
  destruct (try_range 0 U32_MAX len) as [n|] eqn:Ht; cbn [ok_or]; st_run.
  - apply try_range_some in Ht as [-> Ht]. unfold sat_add_u32.
    assert (0 <= Z.min (acc + len) U32_MAX <= U32_MAX) as Hr by lia.
    specialize (IH _ Hr Hl).
    destruct (push_chunk_ends _ lengths) as [ends|e| |]; cbn; try done.
    + destruct IH as [Hs Hall]. split; constructor; try done; [lia|].
      eapply Forall_impl; [|exact Hall]. cbn. intros; lia.
    + destruct IH as [? ?]. split; [done|]. by apply Exists_cons_tl.
  - apply try_range_none in Ht. split; [done|]. apply Exists_cons_hd. lia.
Qed.

(** A manager is built, or the inputs are refused: a zero batch size, or a count
    that is no [u32]. *)
Lemma with_chunks_spec total batch lengths :
  0 <= total → 0 <= batch → Forall (Z.le 0) lengths →
  match with_chunks total batch lengths with
  | Ok m => manager_ok m ∧ em_message_offset m = 0 ∧ em_total_rows m = total ∧
            em_batch_size m = batch ∧ push_chunk_ends 0 lengths = Ok (em_chunk_ends m)
  | Err ZeroBatchSize => batch = 0
  | Err RowCountOverflow => Exists (Z.lt U32_MAX) (total :: lengths)
  | Panic | Diverge => False
  end.
Proof.
  intros Ht Hb Hl. unfold with_chunks.
  destruct (try_range 0 U32_MAX total) as [t|] eqn:Htr; cbn [ok_or]; st_run.
  2: { apply try_range_none in Htr. apply Exists_cons_hd. lia. }
  apply try_range_some in Htr as [-> Htr]. unfold ensure.
  destruct (Z.eqb_spec batch 0); cbn [negb]; st_run; [done|].
  pose proof (push_chunk_ends_spec lengths 0) as Hp.
  destruct (push_chunk_ends 0 lengths) as [ends|e| |]; cbn.
  - destruct Hp as [Hs _]; [unfold U32_MAX; lia|done|].
    unfold manager_ok. cbn. repeat split; try done; lia.
  - destruct Hp as [-> Hp]; [unfold U32_MAX; lia|done|]. by apply Exists_cons_tl.
  - apply Hp; [unfold U32_MAX; lia|done].
  - apply Hp; [unfold U32_MAX; lia|done].
Qed.

(** [executemany] sends every bound row exactly once: whatever the row count,
    batch size and chunk lengths, the constructor refuses them for one of its two
    reasons, or walking the manager to exhaustion ends within [total_rows] batches
    and yields windows that tile the rows in order, each of at least one and at
    most [batch_size] rows and none crossing a chunk boundary. *)
Theorem executemany_windows total_rows batch_size chunk_lengths :
  0 <= total_rows → 0 <= batch_size → Forall (Z.le 0) chunk_lengths →
  match with_chunks total_rows batch_size chunk_lengths with
  | Ok m => ∃ windows, drain (S (Z.to_nat total_rows)) m = Some windows ∧
      tiles 0 total_rows windows ∧
      Forall (window_ok batch_size (em_chunk_ends m)) windows
  | Err ZeroBatchSize => batch_size = 0
  | Err RowCountOverflow => Exists (Z.lt U32_MAX) (total_rows :: chunk_lengths)
  | Panic | Diverge => False
  end.
Proof.
  intros Ht Hb Hl. pose proof (with_chunks_spec _ _ _ Ht Hb Hl) as H.
  destruct (with_chunks total_rows batch_size chunk_lengths) as [m|[]| |]; try done.
  destruct H as (Hok & Ho & <- & <- & _). rewrite <- Ho. apply drain_spec; [done|]. lia.
Qed.

(** Seven rows in chunks of three and four, batches of two: no window crosses
    the boundary at row three. *)
Lemma executemany_windows_witness :
  (∃ m, with_chunks 7 2 [3; 4] = Ok m ∧
     drain 8 m = Some [(0, 2); (2, 1); (3, 2); (5, 2)]) ∧
  match with_chunks 7 2 [3; 4] with
  | Ok m => ∃ windows, drain (S (Z.to_nat 7)) m = Some windows ∧ tiles 0 7 windows ∧
      Forall (window_ok 2 (em_chunk_ends m)) windows
  | Err ZeroBatchSize => 2 = 0
  | Err RowCountOverflow => Exists (Z.lt U32_MAX) [7; 3; 4]
  | Panic | Diverge => False
  end.
Proof.
  split; [eexists; split; reflexivity|].
  apply (executemany_windows 7 2 [3; 4]); [lia|lia|repeat constructor; lia].
Defined.
