(* ===== verification/DriverError.v ===== *)
(** * The driver's errors and what they say about a connection

    [oracledb/src/lib.rs] (the enum [Error] and its classification methods) and
    [oracledb/src/recovery.rs] (the curated ORA code sets, the disposition of a
    cancellation and of a protocol error, the server version number).  Details
    that no classification inspects (wallet, token, bind and conversion errors)
    are a type parameter [P]. *)

From S2P Require Import Prelude.
From S2P Require Import Protocol.

(** ** Server error codes *)

Definition SESSION_DEAD_ORA_CODES : list Z :=
  [22; 28; 31; 45; 378; 600; 602; 603; 609; 1012; 1041; 1043; 1089; 1092; 2396; 3113; 3114;
   3122; 3135; 12153; 12537; 12547; 12570; 12583; 27146; 28511; 56600].
Definition TRANSIENT_ORA_CODES : list Z :=
  [54; 60; 104; 257; 12516; 12520; 12526; 12528; 30006; 51535].
Definition CONNECTION_LOST_ORA_CODES : list Z :=
  [28; 1012; 1041; 1089; 2396; 3113; 3114; 3135; 12537; 12547; 12570; 28511].

(** [slice.contains(&code)] *)
Definition contains (codes : list Z) (code : Z) : bool := existsb (Z.eqb code) codes.

(** [message.find("ORA-")]: the text after the first occurrence. *)
Fixpoint after_ora (s : string) : option string :=
  match s with
  | EmptyString => None
  | String _ s' =>
      if String.prefix "ORA-" s then Some (String.substring 4 (String.length s - 4) s) else after_ora s'
  end.

Definition ascii_digit (c : Ascii.ascii) : bool := between 48 57 (Z.of_N (Ascii.N_of_ascii c)).

Fixpoint take_digits (s : string) : list Z :=
  match s with
  | String c s' =>
      if ascii_digit c then (Z.of_N (Ascii.N_of_ascii c) - 48) :: take_digits s' else []
  | EmptyString => []
  end.

(** [digits.parse::<u32>().ok()]: no digit or a value beyond [u32] is no number. *)
Definition parse_u32_digits (digits : list Z) : option Z :=
  match digits with
  | [] => None
  | _ => try_range 0 U32_MAX (foldl (λ acc d, acc * 10 + d) 0 digits)
  end.

Definition parse_ora_code_from_message (message : string) : option Z :=
  rest ← after_ora message; parse_u32_digits (take_digits rest).

Definition protocol_error_ora_code (err : ProtocolError) : option Z :=
  match err with
  | ServerError message => parse_ora_code_from_message message
  | ServerErrorWithRowCount message _ => parse_ora_code_from_message message
  | ServerErrorInfo details => Some (sed_code details)
  | _ => None
  end.

Definition protocol_error_offset (err : ProtocolError) : option Z :=
  match err with
  | ServerErrorInfo details => if negb (sed_pos details =? 0) then Some (sed_pos details) else None
  | _ => None
  end.

Inductive PostSyncProtocolDisposition := PostSyncReady | PostSyncDead.

Definition post_sync_protocol_error_disposition (err : ProtocolError)
  (response_boundary_seen : bool) : PostSyncProtocolDisposition :=
  match err with
  | ResourceLimitErr _ _ _ => PostSyncDead
  | _ =>
      if match protocol_error_ora_code err with
         | Some code => contains SESSION_DEAD_ORA_CODES code
         | None => false
         end
      then PostSyncDead
      else if negb response_boundary_seen then PostSyncDead else PostSyncReady
  end.

Definition protocol_error_is_session_dead (err : ProtocolError) : bool :=
  match post_sync_protocol_error_disposition err true with
  | PostSyncDead => true
  | PostSyncReady => false
  end.

(** ** The error type *)

Inductive ConnectPhase :=
| PhaseDns | PhaseTcp | PhaseTls | PhaseWallet | PhaseConnect | PhaseAccept | PhaseNegotiation
| PhaseDataTypes | PhaseAuthPhaseOne | PhaseAuthPhaseTwo | PhaseSession.

Inductive ErrorKind :=
| KindNetwork | KindTimeout | KindCancel | KindProtocol | KindDatabase | KindConversion
| KindPool | KindResourceLimit | KindAuthentication.

Inductive ConnectionDisposition := Reusable | DispositionDead.

Inductive RetryHint :=
| Never
| RetrySameConnectionIfIdempotent
| ReconnectThenRetryIfIdempotent.

#[global] Instance RetryHint_eq_dec : EqDecision RetryHint.
Proof. solve_decision. Defined.
#[global] Instance ConnectionDisposition_eq_dec : EqDecision ConnectionDisposition.
Proof. solve_decision. Defined.

Inductive Error (P : Type) :=
| EConnectPhase (phase : ConnectPhase) (source : Error P)
| EProtocol (err : ProtocolError)
| EIo (kind message : string)
| ERuntime (message : string)
| ERedirectUnsupported
| EInvalidRedirectData (message : string)
| EConnectRedirectLoop (redirects : Z)
| EListenerRefused (message : string)
| EAllAddressesFailed (message : string)
| EUnsupportedSni (sni : string)
| EUnexpectedPacket (packet_type : Z)
| EConnectResendLoop (rounds : Z)
| EFastAuthRequired
| EMissingSessionField (field : string)
| ECallTimeout (ms : Z)
| ENoRows
| ETooManyRows
| ECancelled
| EConnectionClosed (message : string)
| ETls (message : string)
| EWallet (err : P)
| EAccessTokenRequiresTcps
| EUnsupportedConnectSetting (setting : string)
| EIamTokenProofOfPossession
| ETokenSource (err : P)
| EUnsupportedAuthMode (err : P)
| ESessionlessTransaction (err : P)
| EUnknownTransactionState (state : Z)
| EBind (err : P)
| EConversion (err : P)
| EArrowConversion (err : P).
Arguments EConnectPhase {P}. Arguments EProtocol {P}. Arguments EIo {P}. Arguments ERuntime {P}.
Arguments ERedirectUnsupported {P}. Arguments EInvalidRedirectData {P}.
Arguments EConnectRedirectLoop {P}. Arguments EListenerRefused {P}.
Arguments EAllAddressesFailed {P}. Arguments EUnsupportedSni {P}. Arguments EUnexpectedPacket {P}.
Arguments EConnectResendLoop {P}. Arguments EFastAuthRequired {P}.
Arguments EMissingSessionField {P}. Arguments ECallTimeout {P}. Arguments ENoRows {P}.
Arguments ETooManyRows {P}. Arguments ECancelled {P}. Arguments EConnectionClosed {P}.
Arguments ETls {P}. Arguments EWallet {P}. Arguments EAccessTokenRequiresTcps {P}.
Arguments EUnsupportedConnectSetting {P}. Arguments EIamTokenProofOfPossession {P}.
Arguments ETokenSource {P}. Arguments EUnsupportedAuthMode {P}.
Arguments ESessionlessTransaction {P}. Arguments EUnknownTransactionState {P}.
Arguments EBind {P}. Arguments EConversion {P}. Arguments EArrowConversion {P}.

(** [protocol_error_kind] *)
Definition protocol_error_kind (err : ProtocolError) : ErrorKind :=
  match err with
  | ResourceLimitErr _ _ _ => KindResourceLimit
  | ServerError _ | ServerErrorWithRowCount _ _ | ServerErrorInfo _ => KindDatabase
  | _ => KindProtocol
  end.

Section Classification.
Context {P : Type}.

(** [Error::kind] *)
Fixpoint kind (e : Error P) : ErrorKind :=
  match e with
  | EConnectPhase _ source => kind source
  | EProtocol err => protocol_error_kind err
  | EIo _ _ | EListenerRefused _ | EAllAddressesFailed _ | EConnectionClosed _ | ETls _
  | EUnsupportedSni _ | EUnsupportedConnectSetting _ | EWallet _ => KindNetwork
  | ECallTimeout _ => KindTimeout
  | ECancelled => KindCancel
  | EConversion _ | EBind _ | EArrowConversion _ => KindConversion
  | EAccessTokenRequiresTcps | EUnsupportedAuthMode _ | EIamTokenProofOfPossession
  | ETokenSource _ => KindAuthentication
  | ERedirectUnsupported | EInvalidRedirectData _ | EConnectRedirectLoop _ | ERuntime _
  | EFastAuthRequired | EUnexpectedPacket _ | EConnectResendLoop _ | EMissingSessionField _
  | ESessionlessTransaction _ | EUnknownTransactionState _ => KindProtocol
  | ENoRows | ETooManyRows => KindDatabase
  end.

(** [Error::ora_code]: an [i32], the code cast. *)
Fixpoint ora_code (e : Error P) : option Z :=
  match e with
  | EProtocol err => as_i 32 <$> protocol_error_ora_code err
  | EConnectPhase _ source => ora_code source
  | ECancelled => Some 1013
  | _ => None
  end.

(** [Error::resource_limit] and [Error::offset] *)
Fixpoint error_resource_limit (e : Error P) : option ResourceLimit :=
  match e with
  | EProtocol err => resource_limit err
  | EConnectPhase _ source => error_resource_limit source
  | _ => None
  end.

Fixpoint error_offset (e : Error P) : option Z :=
  match e with
  | EProtocol err => protocol_error_offset err
  | EConnectPhase _ source => error_offset source
  | _ => None
  end.

(** [self.ora_code().is_some_and(|code| CODES.contains(&(code as u32)))] *)
Definition has_code_in (codes : list Z) (e : Error P) : bool :=
  match ora_code e with
  | Some code => contains codes (as_u 32 code)
  | None => false
  end.

(** [Error::connection_disposition] *)
Fixpoint connection_disposition (e : Error P) : ConnectionDisposition :=
  match e with
  | EConnectPhase _ source => connection_disposition source
  | EIo _ _ | EConnectionClosed _ => DispositionDead
  | _ => if has_code_in SESSION_DEAD_ORA_CODES e then DispositionDead else Reusable
  end.

(** [Error::is_connection_lost] *)
Fixpoint is_connection_lost (e : Error P) : bool :=
  match e with
  | EConnectPhase _ source => is_connection_lost source
  | EIo _ _ | EConnectionClosed _ => true
  | _ => has_code_in CONNECTION_LOST_ORA_CODES e
  end.

(** [Error::is_transient] *)
Fixpoint is_transient (e : Error P) : bool :=
  match e with ECallTimeout _ | ECancelled => true | _ => false end
  || match e with EConnectPhase _ source => is_transient source | _ => false end
  || has_code_in TRANSIENT_ORA_CODES e.

(** [Error::retry_hint] and [Error::is_retryable] *)
Definition retry_hint (e : Error P) : RetryHint :=
  if is_transient e then RetrySameConnectionIfIdempotent
  else if is_connection_lost e then ReconnectThenRetryIfIdempotent
  else Never.

Definition is_retryable (e : Error P) : bool :=
  match retry_hint e with Never => false | _ => true end.

(** [refetch_retry_applies] *)
Definition refetch_retry_applies (e : Error P) : bool :=
  let by_message message :=
    String.prefix "ORA-00932" message || String.prefix "ORA-01007" message in
  match e with
  | EProtocol (ServerError message) => by_message message
  | EProtocol (ServerErrorWithRowCount message _) => by_message message
  | EProtocol (ServerErrorInfo details) => (sed_code details =? 932) || (sed_code details =? 1007)
  | _ => false
  end.

End Classification.

(** ** Cancellation *)

Inductive CancelKind :=
| CkTimeout | CkDeadline | CkPollQuota | CkCostBudget
| CkShutdown | CkResourceUnavailable | CkLinkedExit
| CkUser | CkRaceLost | CkFailFast | CkParentCancelled.

Inductive CancelDisposition := CdTimeout | CdClose | CdCancel.

#[global] Instance CancelDisposition_eq_dec : EqDecision CancelDisposition.
Proof. solve_decision. Defined.

(** [CancelDisposition::from_kind] *)
Definition from_kind (kind : CancelKind) : CancelDisposition :=
  match kind with
  | CkTimeout | CkDeadline | CkPollQuota | CkCostBudget => CdTimeout
  | CkShutdown | CkResourceUnavailable | CkLinkedExit => CdClose
  | CkUser | CkRaceLost | CkFailFast | CkParentCancelled => CdCancel
  end.

(** [CancelDisposition::into_error] *)
Definition into_error {P} (d : CancelDisposition) (timeout_ms : Z) : Error P :=
  match d with
  | CdTimeout => ECallTimeout timeout_ms
  | CdClose => EConnectionClosed "operation cancelled by runtime shutdown"
  | CdCancel => ECancelled
  end.

(** [cancel_disposition] *)
Definition cancel_disposition (reason : option CancelKind) : CancelDisposition :=
  match reason with
  | Some kind => from_kind kind
  | None => CdCancel
  end.

(** The asynchronous runtime's context, as far as a checkpoint reads it: the
    outcome of [cx.checkpoint()], the recorded cancel reason, and the remaining
    budget in milliseconds. *)
Record Cx := mkCx {
  cx_checkpoint_ok : bool;
  cx_cancel_reason : option CancelKind;
  cx_remaining_ms : option Z
}.

(** [duration_to_millis_saturating] *)
Definition duration_to_millis_saturating (ms : Z) : Z := Z.min ms U32_MAX.

(** [observe_cancellation_between_round_trips] *)
Definition observe_cancellation_between_round_trips {P} (cx : Cx) : Result (Error P) () :=
  if cx_checkpoint_ok cx then Ok ()
  else
    let timeout_ms :=
      match cx_remaining_ms cx with Some d => duration_to_millis_saturating d | None => 0 end in
    Err (into_error (cancel_disposition (cx_cancel_reason cx)) timeout_ms).

(** ** Recovery drains *)

Inductive RecoveryWireAction := BreakAndDrain | DrainCancel.

Definition timeout_message (a : RecoveryWireAction) : string :=
  match a with
  | BreakAndDrain => "socket timed out while recovering from previous call timeout"
  | DrainCancel => "socket timed out while draining cancel response"
  end.

Definition wire_error_prefix (a : RecoveryWireAction) : string :=
  match a with
  | BreakAndDrain => "wire error while recovering from call timeout"
  | DrainCancel => "wire error while draining cancel response"
  end.

(** [classify_recovery_result]; [display] renders the error. *)
Definition classify_recovery_result {P} (display : Error P → string) (action : RecoveryWireAction)
  (result : option (Result (Error P) ())) : Result (Error P) () :=
  match result with
  | Some (Ok _) => Ok ()
  | Some (Err (EConnectionClosed message)) => Err (EConnectionClosed message)
  | Some (Err err) => Err (EConnectionClosed (wire_error_prefix action +:+ ": " +:+ display err))
  | Some Panic => Panic
  | Some Diverge => Diverge
  | None => Err (EConnectionClosed (timeout_message action))
  end.

(** ** Server version *)

Definition TNS_CCAP_FIELD_VERSION_18_1_EXT_1 : Z := 11.

Definition server_version_number_uses_extended_layout (ttc_field_version : Z) : bool :=
  TNS_CCAP_FIELD_VERSION_18_1_EXT_1 <=? ttc_field_version.

(** [decode_server_version_number] *)
Definition decode_server_version_number (full : Z) (new_format : bool) : Z * Z * Z * Z * Z :=
  let field shift mask := Z.land (Z.shiftr full shift) mask in
  if new_format
  then (field 24 255, field 16 255, field 12 15, field 4 255, Z.land full 15)
  else (field 24 255, field 20 15, field 12 15, field 8 15, Z.land full 15).

(** ** Properties *)

Lemma contains_spec codes code : contains codes code = true ↔ code ∈ codes.
Proof.
  unfold contains. rewrite existsb_exists, list_elem_of_In.
  split; [intros (x & ? & <-%Z.eqb_eq)|intros]; eauto. exists code. by rewrite Z.eqb_refl.
Qed.

(** The curated sets: a lost connection is a dead session, and no transient code
    kills one. *)
Lemma lost_codes_dead :
  forallb (contains SESSION_DEAD_ORA_CODES) CONNECTION_LOST_ORA_CODES = true.
Proof. by vm_compute. Qed.
Lemma transient_codes_alive :
  forallb (λ c, negb (contains SESSION_DEAD_ORA_CODES c)) TRANSIENT_ORA_CODES = true.
Proof. by vm_compute. Qed.

Lemma code_sets code :
  (contains CONNECTION_LOST_ORA_CODES code = true → contains SESSION_DEAD_ORA_CODES code = true) ∧
  (contains TRANSIENT_ORA_CODES code = true → contains SESSION_DEAD_ORA_CODES code = false).
Proof.
  rewrite !contains_spec. split; intros H%list_elem_of_In.
  - pose proof (proj1 (forallb_forall _ _) lost_codes_dead _ H) as Hd. cbn beta in Hd.
    by apply contains_spec.
  - pose proof (proj1 (forallb_forall _ _) transient_codes_alive _ H) as Hd. cbn beta in Hd.
    by destruct (contains SESSION_DEAD_ORA_CODES code).
Qed.

Section Coherence.
Context {P : Type}.
Implicit Types e : Error P.

Lemma has_code_sets e :
  (has_code_in CONNECTION_LOST_ORA_CODES e = true → has_code_in SESSION_DEAD_ORA_CODES e = true) ∧
  (has_code_in TRANSIENT_ORA_CODES e = true → has_code_in SESSION_DEAD_ORA_CODES e = false).
Proof. unfold has_code_in. destruct (ora_code e); [apply code_sets|by split]. Qed.

Lemma transient_of_code e : has_code_in TRANSIENT_ORA_CODES e = true → is_transient e = true.
Proof. destruct e; cbn [is_transient]; intros ->; apply orb_true_r. Qed.

Lemma transient_reusable e : is_transient e = true → connection_disposition e = Reusable.
Proof.
  induction e; cbn [is_transient connection_disposition orb]; try done.
  - rewrite orb_true_iff. intros [?|?]; [auto|]. by apply IHe, transient_of_code.
  - intros H%(proj2 (has_code_sets _)). by rewrite H.
Qed.

Lemma lost_dead e : is_connection_lost e = true → connection_disposition e = DispositionDead.
Proof.
  induction e; cbn [is_connection_lost connection_disposition]; try done; try (by auto);
    intros H%(proj1 (has_code_sets _)); by rewrite H.
Qed.

(** The retry guidance of every error fits the state of its connection: a
    failure to be retried on the same connection leaves that connection
    reusable, a failure that asks for a reconnect leaves it dead, no error is
    both transient and connection-lost, and a connect-phase wrapper changes
    nothing. *)
Theorem retry_hint_coherent e :
  (retry_hint e = RetrySameConnectionIfIdempotent → connection_disposition e = Reusable) ∧
  (retry_hint e = ReconnectThenRetryIfIdempotent → connection_disposition e = DispositionDead) ∧
  (is_transient e && is_connection_lost e = false) ∧
  (∀ phase, retry_hint (EConnectPhase phase e) = retry_hint e ∧
            connection_disposition (EConnectPhase phase e) = connection_disposition e ∧
            kind (EConnectPhase phase e) = kind e).
Proof.
  assert (∀ phase, is_transient (EConnectPhase phase e) = is_transient e) as Hw.
  { intros phase. cbn [is_transient]. cbn [orb].
    destruct (is_transient e) eqn:Ht; [done|].
    destruct (has_code_in TRANSIENT_ORA_CODES (EConnectPhase phase e)) eqn:Hc; [|done].
    change (has_code_in TRANSIENT_ORA_CODES e = true) in Hc.
    apply transient_of_code in Hc. congruence. }
  unfold retry_hint. setoid_rewrite Hw.
  pose proof (transient_reusable e) as Ht. pose proof (lost_dead e) as Hl.
  destruct (is_transient e), (is_connection_lost e) eqn:Hc; cbn [andb];
    repeat split; intros; try done; auto; try (cbn [is_connection_lost]; by rewrite Hc).
  by rewrite Ht in Hl by done; specialize (Hl eq_refl).
Qed.

End Coherence.

(** A cancellation never disguises itself: whatever kind the runtime recorded
    and whatever budget remains, a failed checkpoint is an error whose
    disposition and retry guidance are those of the documented table: shutdown,
    resource loss and linked exit kill the connection, everything else leaves it
    reusable and retryable, and it is never a runtime or I/O error. *)
Theorem cancellation_disposition {P} (cx : Cx) (e : Error P) :
  observe_cancellation_between_round_trips cx = Err e →
  (connection_disposition e = DispositionDead ↔
     ∃ k, cx_cancel_reason cx = Some k ∧ from_kind k = CdClose) ∧
  (connection_disposition e = Reusable → retry_hint e = RetrySameConnectionIfIdempotent) ∧
  match e with
  | ECallTimeout ms => 0 <= default 0 (cx_remaining_ms cx) → 0 <= ms <= U32_MAX
  | ECancelled | EConnectionClosed _ => True
  | _ => False
  end.
Proof.
  unfold observe_cancellation_between_round_trips, cancel_disposition.
  destruct (cx_checkpoint_ok cx); [done|]. intros [= <-].
  destruct (cx_cancel_reason cx) as [k|]; [destruct (from_kind k) eqn:Hk|];
    (split; [|split; [done|]]); cbn; try done; try (split; [done|intros (? & [= <-] & ?); congruence]);
    try (split; [intros _; by exists k|done]).
  - unfold duration_to_millis_saturating, U32_MAX.
    destruct (cx_remaining_ms cx); cbn; lia.
Qed.

(** A deadline with a week of budget left, and a shutdown. *)
Lemma cancellation_disposition_witness :
  observe_cancellation_between_round_trips (P := ()) (mkCx false (Some CkDeadline) (Some 604800000))
    = Err (ECallTimeout 604800000) ∧
  connection_disposition (P := ()) (ECallTimeout 604800000) = Reusable ∧
  (connection_disposition (P := ()) (EConnectionClosed "operation cancelled by runtime shutdown")
     = DispositionDead ↔ ∃ k, Some CkShutdown = Some k ∧ from_kind k = CdClose).
Proof.
  split; [reflexivity|]. split; [reflexivity|].
  apply (cancellation_disposition (P := ()) (mkCx false (Some CkShutdown) None)). reflexivity.
Defined.

(** The two layouts of the version number: five fields below 256, and the field
    version 11 is where the layout flips. *)
Lemma decode_server_version_fields full b :
  0 <= full <= U32_MAX →
  let '(a, x, c, d, e) := decode_server_version_number full b in
  Forall is_u8 [a; x; c; d; e].
Proof.
  intros Hf. unfold decode_server_version_number.
  assert (∀ z mask, 0 <= z → In mask [15; 255] → is_u8 (Z.land z mask)) as Hland.
  { intros z mask Hz Hm. unfold is_u8. split; [apply Z.land_nonneg; lia|].
    destruct Hm as [<-|[<-|[]]].
    - change 15 with (Z.ones 4). rewrite Z.land_ones by lia.
      pose proof (Z.mod_pos_bound z (2 ^ 4)). lia.
    - change 255 with (Z.ones 8). rewrite Z.land_ones by lia.
      pose proof (Z.mod_pos_bound z (2 ^ 8)). lia. }
  destruct b; repeat constructor; apply Hland; try (apply Z.shiftr_nonneg; lia); try lia; cbn; auto.
Qed.

(** A limit exceeded while a response is read kills the session, but the error
    itself reports a reusable connection. *)
Lemma resource_limit_disposition {P} limit observed maximum :
  post_sync_protocol_error_disposition (ResourceLimitErr limit observed maximum) true
    = PostSyncDead ∧
  connection_disposition (P := P) (EProtocol (ResourceLimitErr limit observed maximum)) = Reusable.
Proof. done. Qed.

(** Every error that a parse reports as session-dead by its code is dead for the
    caller as well. *)
Lemma session_dead_code_agrees {P} err code :
  protocol_error_ora_code err = Some code → 0 <= code <= U32_MAX →
  contains SESSION_DEAD_ORA_CODES code = true →
  protocol_error_is_session_dead err = true ∧
  connection_disposition (P := P) (EProtocol err) = DispositionDead.
Proof.
  intros Hc Hr Hd. split.
  - unfold protocol_error_is_session_dead, post_sync_protocol_error_disposition.
    rewrite Hc, Hd. by destruct err.
  - cbn [connection_disposition]. unfold has_code_in. cbn [ora_code]. rewrite Hc.
    change (as_i 32 <$> Some code) with (Some (as_i 32 code)). cbv iota.
    replace (as_u 32 (as_i 32 code)) with code; [by rewrite Hd|].
    unfold as_u, as_i. rewrite Zminus_mod_idemp_l.
    change (2 ^ (32 - 1)) with 2147483648. change (2 ^ 32) with 4294967296.
    replace (code + 2147483648 - 2147483648) with code by lia.
    rewrite Z.mod_small; unfold U32_MAX in Hr; lia.
Qed.
