(* ===== verification/Recovery.v ===== *)
(** * Session recovery ([oracledb/src/recovery.rs], [oracledb/src/lib.rs])

    A connection and every [CancelHandle] cloned from it share one atomic byte,
    the recovery phase.  The owner of the connection moves it around each round
    trip and each recovery drain; handles, on other threads, move it when they
    send a BREAK.  [Methods] has the methods of [SessionRecovery] one atomic
    access at a time, [Machine] the threads that run them, with the transport's
    answers and dropped futures as choices.

    Two counters that the program does not keep describe the wire: whether a
    response the owner has not consumed is outstanding, and how many BREAK markers
    have been sent whose answer (marker, reset handshake, ORA-01013) has not been
    consumed. *)

From stdpp Require Import relations.
From S2P Require Import Prelude.
From S2P Require Import Protocol.
From S2P Require Import DriverError.

Inductive SessionRecoveryPhase := Ready | InFlight | BreakSent | Draining | Dead.

#[global] Instance SessionRecoveryPhase_eq_dec : EqDecision SessionRecoveryPhase.
Proof. solve_decision. Defined.

(** [phase as u8] and [SessionRecoveryPhase::from_u8].  The byte is private to
    [SessionRecovery] and every store writes [phase as u8], so a cell is modelled
    by its phase. *)
Definition phase_as_u8 (p : SessionRecoveryPhase) : Z :=
  match p with Ready => 0 | InFlight => 1 | BreakSent => 2 | Draining => 3 | Dead => 4 end.
Definition phase_from_u8 (v : Z) : SessionRecoveryPhase :=
  if v =? 0 then Ready else if v =? 1 then InFlight else if v =? 2 then BreakSent
  else if v =? 3 then Draining else Dead.

(** Equality of the stored bytes. *)
Definition phase_eqb (p q : SessionRecoveryPhase) : bool := phase_as_u8 p =? phase_as_u8 q.

Lemma phase_u8_roundtrip p : phase_from_u8 (phase_as_u8 p) = p.
Proof. by destruct p. Qed.

(** ** The methods of [SessionRecovery] *)

Section Methods.
Context {P : Type}.

Definition RecM (A : Type) : Type := ST (Error P) SessionRecoveryPhase A.

Definition closed {A} (message : string) : RecM A := throw (EConnectionClosed message).

Definition in_flight_message : string := "operation attempted while a response is still in flight".
Definition pending_message : string := "operation attempted while session recovery is pending".
Definition closed_message : string := "connection is closed".

(** [compare_exchange]: the value found when it fails. *)
Definition compare_exchange (expected new : SessionRecoveryPhase)
  : RecM (option SessionRecoveryPhase) := λ cell,
  if phase_eqb cell expected then (Ok None, new) else (Ok (Some cell), cell).

Definition begin_operation : RecM () :=
  current ← compare_exchange Ready InFlight;
  match current with
  | None => mret ()
  | Some InFlight => closed in_flight_message
  | Some (BreakSent | Draining) => closed pending_message
  | Some Dead => closed closed_message
  | Some Ready => mret ()
  end.

Definition begin_or_adopt_operation : RecM () :=
  current ← compare_exchange Ready InFlight;
  match current with
  | None => mret ()
  | Some InFlight => mret ()
  | Some (BreakSent | Draining) => closed pending_message
  | Some Dead => closed closed_message
  | Some Ready => mret ()
  end.

Definition complete_operation : RecM () :=
  _ ← compare_exchange InFlight Ready; mret ().

Definition mark_break_required : RecM () :=
  _ ← compare_exchange InFlight BreakSent; mret ().

Definition begin_pending_drain : RecM bool :=
  current ← compare_exchange BreakSent Draining;
  match current with
  | None => mret true
  | Some Ready => mret false
  | Some InFlight => closed in_flight_message
  | Some Draining => closed "session recovery is already draining"
  | Some BreakSent => mret false
  | Some Dead => closed closed_message
  end.

(** The two atomic accesses of [mark_break_sent]'s loop: the load, which returns
    or goes on with the value it saw, and the exchange from that value. *)
Definition mark_break_load : RecM (option SessionRecoveryPhase) := λ cell,
  match cell with
  | Dead => (Err (EConnectionClosed closed_message), cell)
  | BreakSent | Draining => (Ok None, cell)
  | Ready | InFlight => (Ok (Some cell), cell)
  end.

Definition mark_break_cas (current : SessionRecoveryPhase) : RecM bool :=
  found ← compare_exchange current BreakSent;
  mret (match found with None => true | Some _ => false end).

Fixpoint mark_break_sent_loop (fuel : nat) : RecM () :=
  match fuel with
  | O => lift Diverge
  | S fuel =>
      seen ← mark_break_load;
      match seen with
      | None => mret ()
      | Some current =>
          ok ← mark_break_cas current;
          if (ok : bool) then mret () else mark_break_sent_loop fuel
      end
  end.

(** Without interference the first exchange succeeds. *)
Definition mark_break_sent : RecM () := mark_break_sent_loop 1.

Definition begin_drain_after_break : RecM () :=
  _ ← mark_break_sent;
  entered ← begin_pending_drain;
  if (entered : bool) then mret ()
  else closed "session recovery did not enter draining state".

Definition finish_drain_ready : RecM () := modify (λ _, Ready).
Definition mark_dead : RecM () := modify (λ _, Dead).

(** [CancelHandle::should_send_break_request] *)
Definition should_send_break_request : RecM bool := λ cell,
  match cell with
  | Dead => (Err (EConnectionClosed closed_message), cell)
  | BreakSent | Draining => (Ok false, cell)
  | Ready | InFlight => (Ok true, cell)
  end.

(** What [mark_break_sent] does as one action. *)
Definition mark_break_atomic : RecM () := λ cell,
  match cell with
  | Dead => (Err (EConnectionClosed closed_message), Dead)
  | BreakSent | Draining => (Ok (), cell)
  | Ready | InFlight => (Ok (), BreakSent)
  end.

Lemma mark_break_sent_run cell : mark_break_sent cell = mark_break_atomic cell.
Proof. by destruct cell. Qed.

Lemma mark_break_cas_run current cell :
  mark_break_cas current cell =
  (Ok (phase_eqb cell current), if phase_eqb cell current then BreakSent else cell).
Proof. by destruct current, cell. Qed.

(** [begin_drain_after_break], alone on the cell: from every phase but [Draining]
    and [Dead] it enters the drain. *)
Lemma begin_drain_after_break_run cell :
  begin_drain_after_break cell =
  match cell with
  | Ready | InFlight | BreakSent => (Ok (), Draining)
  | Draining => (Err (EConnectionClosed "session recovery is already draining"), Draining)
  | Dead => (Err (EConnectionClosed closed_message), Dead)
  end.
Proof. by destruct cell. Qed.

End Methods.

(** ** The threads *)

Inductive MarkPc := MLoad | MCas (current : SessionRecoveryPhase).

Inductive AfterDrain := ThenSend (prefetch : bool) | ThenIdle | ThenClose.

Inductive OwnerPc :=
| OIdle
(** [ensure_clean_before_request]: load the phase, [mark_break_required],
    [begin_pending_drain] *)
| OCheck (prefetch : bool)
| ORequire (prefetch : bool)
| OPending (prefetch : bool)
(** [fetch_rows_request] calls [begin_operation] before it sends *)
| OBeginOp
(** waiting for the write lock, then writing the request *)
| OLock (prefetch : bool)
| OSend (prefetch : bool)
(** [CancelDrainGuard::arm], the read, the guard's [disarm] and its [Drop] *)
| OArm
| OReading
| ODisarm
| ODropGuard (recover : option AfterDrain)
(** [begin_drain_after_break]: [mark_break_sent], [begin_pending_drain] *)
| OBreak (m : MarkPc) (action : RecoveryWireAction) (k : AfterDrain)
| OBegin (action : RecoveryWireAction) (k : AfterDrain)
(** the wire action: send a BREAK, read its answer *)
| ODrainBreak (k : AfterDrain)
| ODrainRead (k : AfterDrain)
| OFinish (k : AfterDrain)
| ODie
(** [__pyshim_reconcile_completed_cancel_response] *)
| OReconcile.

(** [cancel] checks again under the write lock and keeps it; with [recovery], it
    is [cancel_for_recovery], whose marker is written by a thread of its own. *)
Inductive HandlePc :=
| HIdle
| HCheck1 (recovery : bool)
| HLock (recovery : bool)
| HCheck2
| HSend (recovery : bool)
| HMark (recovery : bool) (m : MarkPc)
| HFail (recovery : bool).

Inductive Tid := TOwner | THandle (i : nat).

Record State := mkState {
  s_phase : SessionRecoveryPhase;
  s_dead : bool;
  s_lock : option Tid;
  s_owner : OwnerPc;
  s_handles : list HandlePc;
  s_prefetched : bool;
  s_response : bool;
  s_breaks : Z
}.

#[global] Instance Tid_eq_dec : EqDecision Tid.
Proof. solve_decision. Defined.

Definition set_phase p s := mkState p (s_dead s) (s_lock s) (s_owner s) (s_handles s)
  (s_prefetched s) (s_response s) (s_breaks s).
Definition set_dead b s := mkState (s_phase s) b (s_lock s) (s_owner s) (s_handles s)
  (s_prefetched s) (s_response s) (s_breaks s).
Definition set_lock l s := mkState (s_phase s) (s_dead s) l (s_owner s) (s_handles s)
  (s_prefetched s) (s_response s) (s_breaks s).
Definition set_owner o s := mkState (s_phase s) (s_dead s) (s_lock s) o (s_handles s)
  (s_prefetched s) (s_response s) (s_breaks s).
Definition set_handle i h s := mkState (s_phase s) (s_dead s) (s_lock s) (s_owner s)
  (<[i := h]> (s_handles s)) (s_prefetched s) (s_response s) (s_breaks s).
Definition set_prefetched b s := mkState (s_phase s) (s_dead s) (s_lock s) (s_owner s)
  (s_handles s) b (s_response s) (s_breaks s).
Definition set_response b s := mkState (s_phase s) (s_dead s) (s_lock s) (s_owner s)
  (s_handles s) (s_prefetched s) b (s_breaks s).
Definition set_breaks n s := mkState (s_phase s) (s_dead s) (s_lock s) (s_owner s)
  (s_handles s) (s_prefetched s) (s_response s) n.

(** A connection just opened, with [n] cancel handles. *)
Definition init (n : nat) : State := mkState Ready false None OIdle (replicate n HIdle) false false 0.

(** What the environment chooses: the calls of the user (a prefetched page is
    read only after its request, and [CallReconcile] keeps its contract that the
    whole cancel response has been parsed), a parsed response that says the session
    is dead ([note_parse]) or a shutdown before a call ([NoteDead]), the answers of
    the transport, and where a future is dropped.  [WirePart] is a read that returns
    before the end of the response: without end-of-response marks the reader stops at
    the first packet after which the bytes parse.  [SentOneWay] is the send of
    [notify_register], which reads no response.  Pipelines, in which one call sends
    several requests and reads several responses, are not among the calls. *)
Inductive Choice :=
| Step
| CallRequest (prefetch : bool)
| CallReadPrefetched
| CallCancel (action : RecoveryWireAction)
| CallReconcile
| NoteDead
| CallHandle (recovery : bool)
| WireOk (consumed : bool)
| WirePart (consumed : bool)
| SentOneWay
| WireErr (written : bool)
| ReadErr (dead : option bool)
| DropFuture (written : bool)
| Deadline (written : bool) (k : AfterDrain).

Inductive Event := EvOwner (c : Choice) | EvHandle (i : nat) (c : Choice).

(** The write half is free. *)
Definition unlocked (s : State) : bool := match s_lock s with None => true | Some _ => false end.

(** Run a method of the phase on the shared state. *)
Definition on_phase {A} (m : RecM (P := ()) A) (s : State) : Result (Error ()) A * State :=
  let '(r, p) := m (s_phase s) in (r, set_phase p s).

(** Where the wire action starts. *)
Definition drain_entry (action : RecoveryWireAction) (k : AfterDrain) : OwnerPc :=
  match action with BreakAndDrain => ODrainBreak k | DrainCancel => ODrainRead k end.

(** The owner after a completed drain. *)
Definition after_drain (k : AfterDrain) : OwnerPc :=
  match k with
  | ThenSend true => OBeginOp
  | ThenSend false => OLock false
  | ThenIdle | ThenClose => OIdle
  end.

(** The calls a user makes on an idle connection. *)
Definition idle_step (c : Choice) (s : State) : option State :=
  match s_owner s, c with
  | OIdle, CallRequest prefetch => Some (set_owner (OCheck prefetch) s)
  | OIdle, CallReadPrefetched => if s_prefetched s then Some (set_owner OArm s) else None
  | OIdle, CallCancel action => Some (set_owner (OBreak MLoad action ThenIdle) s)
  | OIdle, CallReconcile =>
      if negb (s_response s) && (s_breaks s =? 0) then Some (set_owner OReconcile s) else None
  | OIdle, NoteDead => Some (set_owner ODie s)
  | _, _ => None
  end.

(** [__pyshim_reconcile_completed_cancel_response] *)
Definition reconcile_step (c : Choice) (s : State) : option State :=
  match s_owner s, c with
  | OReconcile, Step =>
      Some (set_owner (if phase_eqb (s_phase s) BreakSent then OFinish ThenIdle else OIdle) s)
  | _, _ => None
  end.

(** [ensure_clean_before_request] *)
Definition ensure_clean_step (c : Choice) (s : State) : option State :=
  match s_owner s, c with
  | OCheck prefetch, Step =>
      Some (set_owner (if phase_eqb (s_phase s) InFlight then ORequire prefetch
                       else OPending prefetch) s)
  | ORequire prefetch, Step =>
      Some (set_owner (OPending prefetch) (snd (on_phase mark_break_required s)))
  | OPending prefetch, Step =>
      match on_phase begin_pending_drain s with
      | (Ok true, s') =>
          Some (set_prefetched false
                  (set_owner (drain_entry BreakAndDrain (ThenSend prefetch)) s'))
      | (Ok false, s') => Some (set_owner (after_drain (ThenSend prefetch)) s')
      | (_, s') => Some (set_owner OIdle s')
      end
  | _, _ => None
  end.

(** Sending the request: [fetch_rows_request] calls [begin_operation] first and dies
    on an error; every other request only writes. *)
Definition send_step (c : Choice) (s : State) : option State :=
  match s_owner s, c with
  | OBeginOp, Step =>
      match on_phase begin_operation s with
      | (Ok _, s') => Some (set_owner (OLock true) s')
      | (_, s') => Some (set_owner OIdle s')
      end
  | OLock prefetch, Step =>
      if unlocked s
      then Some (set_lock (Some TOwner) (set_owner (OSend prefetch) s)) else None
  | OLock _, DropFuture _ => Some (set_owner OIdle s)
  | OLock _, Deadline _ k => Some (set_owner (OBreak MLoad BreakAndDrain k) s)
  | OSend prefetch, WireOk _ =>
      let s' := set_response true (set_lock None s) in
      Some (if prefetch then set_prefetched true (set_owner OIdle s') else set_owner OArm s')
  | OSend false, SentOneWay => Some (set_owner OIdle (set_response true (set_lock None s)))
  | OSend prefetch, WireErr written =>
      let s' := set_response (written || s_response s) (set_lock None s) in
      Some (set_owner (if prefetch then ODie else OIdle) s')
  | OSend _, DropFuture written =>
      Some (set_owner OIdle (set_response (written || s_response s) (set_lock None s)))
  | OSend _, Deadline written k =>
      Some (set_owner (OBreak MLoad BreakAndDrain k)
              (set_response (written || s_response s) (set_lock None s)))
  | _, _ => None
  end.

(** [read_response_cancellable] and its [CancelDrainGuard] *)
Definition read_step (c : Choice) (s : State) : option State :=
  match s_owner s, c with
  | OArm, Step =>
      match on_phase begin_or_adopt_operation s with
      | (Ok _, s') => Some (set_owner OReading s')
      | (_, s') => Some (set_owner OIdle s')
      end
  | OReading, WireOk consumed =>
      Some (set_owner ODisarm (set_prefetched false (set_response false
              (set_breaks (if consumed then Z.max 0 (s_breaks s - 1) else s_breaks s) s))))
  | OReading, WirePart consumed =>
      Some (set_owner ODisarm (set_prefetched false
              (set_breaks (if consumed then Z.max 0 (s_breaks s - 1) else s_breaks s) s)))
  | OReading, ReadErr dead =>
      let s' := match dead with
                | Some b => set_dead (b || s_dead s) (snd (on_phase mark_dead s))
                | None => s
                end in
      Some (set_prefetched false (set_owner (ODropGuard None) s'))
  | OReading, DropFuture _ => Some (set_prefetched false (set_owner (ODropGuard None) s))
  | OReading, Deadline _ k => Some (set_prefetched false (set_owner (ODropGuard (Some k)) s))
  | ODisarm, Step => Some (set_owner OIdle (snd (on_phase complete_operation s)))
  | ODropGuard recover, Step =>
      Some (set_owner (match recover with
                       | None => OIdle
                       | Some k => OBreak MLoad BreakAndDrain k
                       end) (snd (on_phase mark_break_required s)))
  | _, _ => None
  end.

(** The wire action of a recovery, [break_and_drain] or [drain_cancel_response], with
    its end in [classify_recovery_result]. *)
Definition drain_step (c : Choice) (s : State) : option State :=
  match s_owner s, c with
  | OBegin action k, Step =>
      match on_phase begin_pending_drain s with
      | (Ok true, s') => Some (set_prefetched false (set_owner (drain_entry action k) s'))
      | (_, s') => Some (set_owner OIdle s')
      end
  | ODrainBreak k, WireOk _ =>
      if unlocked s
      then Some (set_owner (ODrainRead k) (set_breaks (s_breaks s + 1) s)) else None
  | ODrainBreak k, WireErr written =>
      Some (set_owner ODie (if written then set_breaks (s_breaks s + 1) s else s))
  | ODrainRead k, WireOk _ =>
      if 0 <? s_breaks s
      then Some (set_owner (OFinish k) (set_response false (set_breaks (s_breaks s - 1) s)))
      else None
  | ODrainRead k, WireErr _ => Some (set_owner ODie s)
  | OFinish ThenClose, Step =>
      Some (set_owner ODie (snd (on_phase finish_drain_ready s)))
  | OFinish k, Step => Some (set_owner (after_drain k) (snd (on_phase finish_drain_ready s)))
  | _, _ => None
  end.

(** The connection marked dead. *)
Definition die_step (c : Choice) (s : State) : option State :=
  match s_owner s, c with
  | ODie, Step => Some (set_owner OIdle (set_dead true (snd (on_phase mark_dead s))))
  | _, _ => None
  end.

(** A step of the owner that is not the loop of [mark_break_sent]. *)
Definition owner_step (c : Choice) (s : State) : option State :=
  match s_owner s with
  | OIdle => idle_step c s
  | OReconcile => reconcile_step c s
  | OCheck _ | ORequire _ | OPending _ => ensure_clean_step c s
  | OBeginOp | OLock _ | OSend _ => send_step c s
  | OArm | OReading | ODisarm | ODropGuard _ => read_step c s
  | OBegin _ _ | ODrainBreak _ | ODrainRead _ | OFinish _ => drain_step c s
  | ODie => die_step c s
  | OBreak _ _ _ => None
  end.

(** A step of handle [i] that is not the loop of [mark_break_sent]. *)
Definition handle_step (i : nat) (c : Choice) (s : State) : option State :=
  pc ← s_handles s !! i;
  match pc, c with
  | HIdle, CallHandle recovery => Some (set_handle i (HCheck1 recovery) s)
  | HCheck1 recovery, Step =>
      match on_phase should_send_break_request s with
      | (Ok true, s') => Some (set_handle i (HLock recovery) s')
      | (_, s') => Some (set_handle i HIdle s')
      end
  | HLock recovery, Step =>
      if unlocked s
      then Some (set_lock (Some (THandle i))
                   (set_handle i (if recovery then HSend true else HCheck2) s))
      else None
  | HLock true, WireErr _ => Some (set_handle i (HFail true) s)
  | HLock false, DropFuture _ => Some (set_handle i HIdle s)
  | HCheck2, Step =>
      match on_phase should_send_break_request s with
      | (Ok true, s') => Some (set_handle i (HSend false) s')
      | (_, s') => Some (set_lock None (set_handle i HIdle s'))
      end
  | HSend recovery, WireOk _ =>
      let s' := set_handle i (HMark recovery MLoad) (set_breaks (s_breaks s + 1) s) in
      Some (if recovery then set_lock None s' else s')
  | HSend recovery, WireErr written =>
      let s' := set_handle i (HFail recovery)
                  (if written then set_breaks (s_breaks s + 1) s else s) in
      Some (if recovery then set_lock None s' else s')
  | HSend false, DropFuture written =>
      Some (set_lock None (set_handle i HIdle
              (if written then set_breaks (s_breaks s + 1) s else s)))
  | HFail recovery, Step =>
      let s' := set_handle i HIdle (snd (on_phase mark_dead s)) in
      Some (if recovery then s' else set_lock None s')
  | _, _ => None
  end.

(** The loop of [mark_break_sent]: [finish] is where the thread goes when it
    returns, by success or by error; [go] stays in the loop. *)
Definition mark_impl (m : MarkPc) (finish : bool → State → State) (go : MarkPc → State → State)
  (s : State) : State :=
  match m with
  | MLoad =>
      match on_phase mark_break_load s with
      | (Ok (Some current), s') => go (MCas current) s'
      | (Ok None, s') => finish true s'
      | (_, s') => finish false s'
      end
  | MCas current =>
      match on_phase (mark_break_cas current) s with
      | (Ok true, s') => finish true s'
      | (_, s') => go MLoad s'
      end
  end.

Definition owner_finish (action : RecoveryWireAction) (k : AfterDrain) (ok : bool) : State → State :=
  set_owner (if ok then OBegin action k else OIdle).
Definition owner_go (action : RecoveryWireAction) (k : AfterDrain) (m : MarkPc) : State → State :=
  set_owner (OBreak m action k).
Definition handle_finish (i : nat) (recovery : bool) (ok : bool) (s : State) : State :=
  let s' := set_handle i HIdle s in if recovery then s' else set_lock None s'.
Definition handle_go (i : nat) (recovery : bool) (m : MarkPc) : State → State :=
  set_handle i (HMark recovery m).

(** One atomic step of the program. *)
Definition step (e : Event) (s : State) : option State :=
  match e with
  | EvOwner c =>
      match s_owner s, c with
      | OBreak m action k, Step =>
          Some (mark_impl m (owner_finish action k) (owner_go action k) s)
      | _, _ => owner_step c s
      end
  | EvHandle i c =>
      match s_handles s !! i, c with
      | Some (HMark recovery m), Step =>
          Some (mark_impl m (handle_finish i recovery) (handle_go i recovery) s)
      | _, _ => handle_step i c s
      end
  end.

(** ** Refinement: [mark_break_sent] is atomic

    The specification machine takes [mark_break_sent] as one action. *)

Definition mark_spec (finish : bool → State → State) (s : State) : State :=
  match on_phase mark_break_atomic s with
  | (Ok _, s') => finish true s'
  | (_, s') => finish false s'
  end.

Definition spec_step (e : Event) (s : State) : option State :=
  match e with
  | EvOwner c =>
      match s_owner s, c with
      | OBreak _ action k, Step => Some (mark_spec (owner_finish action k) s)
      | _, _ => owner_step c s
      end
  | EvHandle i c =>
      match s_handles s !! i, c with
      | Some (HMark recovery _), Step => Some (mark_spec (handle_finish i recovery) s)
      | _, _ => handle_step i c s
      end
  end.

(** A thread between load and exchange has not acted yet. *)
Definition abs_owner (o : OwnerPc) : OwnerPc :=
  match o with OBreak _ action k => OBreak MLoad action k | _ => o end.
Definition abs_handle (h : HandlePc) : HandlePc :=
  match h with HMark recovery _ => HMark recovery MLoad | _ => h end.
Definition abs (s : State) : State :=
  mkState (s_phase s) (s_dead s) (s_lock s) (abs_owner (s_owner s)) (abs_handle <$> s_handles s)
    (s_prefetched s) (s_response s) (s_breaks s).

(** A value carried to the exchange was loaded from a phase that marks. *)
Definition mark_ok (m : MarkPc) : Prop :=
  match m with MLoad | MCas Ready | MCas InFlight => True | MCas _ => False end.
Definition owner_mark_ok (o : OwnerPc) : Prop :=
  match o with OBreak m _ _ => mark_ok m | _ => True end.
Definition handle_mark_ok (h : HandlePc) : Prop :=
  match h with HMark _ m => mark_ok m | _ => True end.
Definition marks_ok (s : State) : Prop :=
  owner_mark_ok (s_owner s) ∧ Forall handle_mark_ok (s_handles s).

(** Case analysis on every test of a step that was taken. *)
Ltac cases_in H :=
  repeat match type of H with
  | context [match ?x with _ => _ end] =>
      lazymatch x with
      | context [match _ with _ => _ end] => fail
      | _ => destruct x eqn:?; try discriminate H
      end
  end.

(** Run the methods of the phase on a known phase. *)
Ltac exec :=
  cbv [step spec_step mark_impl mark_spec owner_step idle_step reconcile_step ensure_clean_step
    send_step read_step drain_step die_step handle_step on_phase begin_operation
    begin_or_adopt_operation complete_operation mark_break_required begin_pending_drain
    mark_break_load mark_break_cas mark_break_atomic finish_drain_ready mark_dead
    should_send_break_request compare_exchange phase_eqb phase_as_u8 closed throw modify
    drain_entry after_drain owner_finish owner_go handle_finish handle_go unlocked
    set_phase set_dead set_lock set_owner set_handle set_prefetched set_response set_breaks
    abs abs_owner abs_handle mbind st_bind mret st_ret
    s_phase s_dead s_lock s_owner s_handles s_prefetched s_response s_breaks snd Z.eqb Pos.eqb].

Lemma owner_step_abs c s s' :
  owner_step c s = Some s' → owner_step c (abs s) = Some (abs s').
Proof.
  destruct s as [ph d l o hs pf r b].
  destruct o; destruct c; try discriminate; destruct ph; exec; intros H; cases_in H;
    simplify_eq; try done; repeat case_match; done.
Qed.

Lemma set_handle_abs i h s : abs (set_handle i h s) = set_handle i (abs_handle h) (abs s).
Proof. unfold abs, set_handle. cbn. by rewrite list_fmap_insert. Qed.

Lemma handle_step_abs i c s s' :
  handle_step i c s = Some s' → handle_step i c (abs s) = Some (abs s').
Proof.
  destruct s as [ph d l o hs pf r b]. unfold handle_step. cbn [abs s_handles].
  rewrite list_lookup_fmap. destruct (hs !! i) as [h|]; cbn; [|done].
  destruct h; destruct c; try discriminate; destruct ph; exec; intros H; cases_in H;
    simplify_eq; rewrite ?list_fmap_insert; try done; repeat case_match; rewrite ?list_fmap_insert; done.
Qed.

(** The loop either stays where it is or acts once, as the atomic action does. *)
Lemma mark_refines m finish go s :
  mark_ok m →
  (∀ ok s, abs (finish ok s) = finish ok (abs s)) →
  (∀ m' p, abs (go m' (set_phase p s)) = set_phase p (abs s)) →
  abs (mark_impl m finish go s) = abs s ∨
  abs (mark_impl m finish go s) = mark_spec finish (abs s).
Proof.
  intros Hm Hf Hg. destruct s as [ph d l o hs pf r b].
  destruct m as [|cur]; [destruct ph|destruct ph, cur; try done]; unfold mark_spec, mark_impl, on_phase;
    rewrite ?mark_break_cas_run; cbn; rewrite ?Hf, ?Hg; first [left; reflexivity | right; reflexivity].
Qed.


Lemma owner_mark_refines m action k s :
  s_owner s = OBreak m action k → mark_ok m →
  abs (mark_impl m (owner_finish action k) (owner_go action k) s) = abs s ∨
  abs (mark_impl m (owner_finish action k) (owner_go action k) s)
    = mark_spec (owner_finish action k) (abs s).
Proof.
  intros Ho Hm. apply mark_refines; [done|by intros [] []|].
  intros m' p. destruct s. cbn in *. by subst.
Qed.

Lemma handle_mark_refines i recovery m s :
  s_handles s !! i = Some (HMark recovery m) → mark_ok m →
  abs (mark_impl m (handle_finish i recovery) (handle_go i recovery) s) = abs s ∨
  abs (mark_impl m (handle_finish i recovery) (handle_go i recovery) s)
    = mark_spec (handle_finish i recovery) (abs s).
Proof.
  intros Hi Hm. apply mark_refines; [done| |].
  - intros ok t. unfold handle_finish. destruct recovery.
    + by rewrite set_handle_abs.
    + destruct t. unfold abs, set_lock, set_handle. cbn. by rewrite list_fmap_insert.
  - intros m' p. unfold handle_go. rewrite set_handle_abs.
    destruct s. unfold abs, set_phase, set_handle. cbn in *. f_equal.
    rewrite list_insert_id; [done|]. by rewrite list_lookup_fmap, Hi.
Qed.

Lemma step_refines e s s' :
  marks_ok s → step e s = Some s' → abs s' = abs s ∨ spec_step e (abs s) = Some (abs s').
Proof.
  intros [Ho Hh] H. destruct e as [c|i c]; cbn [step spec_step] in *.
  - destruct (s_owner s) eqn:Hpc; cbn [abs s_owner]; rewrite ?Hpc; cbn [abs_owner];
      try (right; by apply owner_step_abs).
    destruct c; try (right; by apply owner_step_abs). injection H as <-.
    destruct (owner_mark_refines m action k s Hpc Ho) as [?|Hr]; [by left|right; by rewrite Hr].
  - cbn [abs s_handles]. rewrite list_lookup_fmap.
    destruct (s_handles s !! i) as [h|] eqn:Hi; cbn [fmap option_fmap option_map];
      [|right; by apply handle_step_abs].
    pose proof (Forall_lookup_1 _ _ _ _ Hh Hi) as Hm.
    destruct h; cbn [abs_handle]; try (right; by apply handle_step_abs).
    destruct c; try (right; by apply handle_step_abs). injection H as <-.
    destruct (handle_mark_refines i recovery m s Hi Hm) as [?|Hr]; [by left|right; by rewrite Hr].
Qed.

(** ** Runs *)

Definition reachable (n : nat) : State → Prop := rtc (λ s s', ∃ e, step e s = Some s') (init n).
Definition spec_reachable (n : nat) : State → Prop :=
  rtc (λ s s', ∃ e, spec_step e s = Some s') (init n).

Lemma marks_set_handle i h s :
  handle_mark_ok h → Forall handle_mark_ok (s_handles s) →
  Forall handle_mark_ok (<[i := h]> (s_handles s)).
Proof. intros. by apply Forall_insert. Qed.

Lemma mark_impl_marks m finish go s :
  (∀ ok s, marks_ok s → marks_ok (finish ok s)) →
  (∀ m s, mark_ok m → marks_ok s → marks_ok (go m s)) →
  marks_ok s → marks_ok (mark_impl m finish go s).
Proof.
  intros Hf Hg Hs. assert (∀ p, marks_ok (set_phase p s)) by (by intros p).
  destruct m as [|cur]; unfold mark_impl, on_phase; [|rewrite mark_break_cas_run];
    [destruct (s_phase s)|destruct (phase_eqb _ _)]; cbn;
    first [apply Hf|apply Hg]; done.
Qed.

Lemma owner_step_marks c s s' : owner_step c s = Some s' → marks_ok s → marks_ok s'.
Proof.
  destruct s as [ph d l o hs pf r b]. intros H [Ho Hh]. revert H Ho Hh. unfold marks_ok.
  destruct o; destruct c; try discriminate; destruct ph; exec; intros H; cases_in H;
    simplify_eq; cbn; done.
Qed.

Lemma handle_step_marks i c s s' : handle_step i c s = Some s' → marks_ok s → marks_ok s'.
Proof.
  destruct s as [ph d l o hs pf r b]. intros H [Ho Hh]. revert H Ho Hh. unfold marks_ok, handle_step.
  cbn [s_handles]. destruct (hs !! i) as [h|]; cbn; [|done].
  destruct h; destruct c; try discriminate; destruct ph; exec; intros H; cases_in H;
    simplify_eq; cbn; intros; (split; [done|]); try done; by apply Forall_insert.
Qed.

Lemma step_marks e s s' : step e s = Some s' → marks_ok s → marks_ok s'.
Proof.
  destruct e as [c|i c]; cbn [step].
  - destruct (s_owner s) eqn:Hpc; try apply owner_step_marks.
    destruct c; try apply owner_step_marks. intros [= <-]. apply mark_impl_marks.
    + intros [] ? [? ?]; by split.
    + intros ? ? ? [? ?]; by split.
  - destruct (s_handles s !! i) as [h|] eqn:Hi; [|apply handle_step_marks].
    destruct h; try apply handle_step_marks. destruct c; try apply handle_step_marks.
    intros [= <-]. apply mark_impl_marks.
    + intros ok t [? ?]. unfold handle_finish.
      destruct recovery; split; try done; by apply Forall_insert.
    + intros m' t ? [? ?]. split; [done|]. by apply Forall_insert.
Qed.

Lemma init_marks n : marks_ok (init n).
Proof. split; [done|]. by apply Forall_replicate. Qed.

Lemma reachable_refines n s : reachable n s → marks_ok s ∧ spec_reachable n (abs s).
Proof.
  revert s. apply rtc_ind_r.
  - split; [apply init_marks|]. replace (abs (init n)) with (init n); [apply rtc_refl|].
    unfold abs, init. cbn. by rewrite fmap_replicate.
  - intros s s' _ [e He] [Hm Hs]. split; [by eapply step_marks|].
    destruct (step_refines e s s' Hm He) as [->|Hspec]; [done|].
    eapply rtc_r; [done|]. by exists e.
Qed.

(** ** Coherence of the specification machine *)

Definition owner_holds (o : OwnerPc) : bool := match o with OSend _ => true | _ => false end.
Definition handle_holds (h : HandlePc) : bool :=
  match h with
  | HCheck2 | HSend _ | HMark false _ | HFail false => true
  | _ => false
  end.
Definition draining (o : OwnerPc) : bool :=
  match o with ODrainBreak _ | ODrainRead _ | OFinish _ | ODie => true | _ => false end.

Record coherent (s : State) : Prop := {
  co_owner : owner_holds (s_owner s) = true ↔ s_lock s = Some TOwner;
  co_handle i h : s_handles s !! i = Some h → handle_holds h = true ↔ s_lock s = Some (THandle i);
  co_drain : s_phase s = Draining → draining (s_owner s) = true;
  co_breaks : 0 <= s_breaks s
}.

Lemma owner_step_coherent c s s' : owner_step c s = Some s' → coherent s → coherent s'.
Proof.
  destruct s as [ph d l o hs pf r b]. intros H [Ho Hh Hd Hb]. revert H Ho Hh Hd Hb.
  destruct o; destruct c; try discriminate; destruct ph; exec; intros H; cases_in H;
    simplify_eq; cbn; intros; split; cbn; try done; try lia; try tauto;
    try (intros i h Hi; specialize (Hh i h Hi); naive_solver).
Qed.

(** Handle [i] moves to [h'] and the lock to [l']: the other threads see a lock
    they neither held nor get. *)
Lemma handle_move_coherent i h h' s l' ph' n' :
  coherent s → s_handles s !! i = Some h →
  (handle_holds h' = true ↔ l' = Some (THandle i)) →
  (l' = s_lock s ∨ (s_lock s = None ∧ l' = Some (THandle i)) ∨
   (s_lock s = Some (THandle i) ∧ l' = None)) →
  (ph' = Draining → s_phase s = Draining) → 0 <= n' →
  coherent (mkState ph' (s_dead s) l' (s_owner s) (<[i := h']> (s_handles s)) (s_prefetched s)
              (s_response s) n').
Proof.
  intros [Ho Hh Hd Hb] Hi Hl Hcase Hph Hn. split; cbn; [| |by auto|done].
  - rewrite Ho. destruct Hcase as [->|[[-> ->]|[-> ->]]]; naive_solver.
  - intros j h2 Hj. destruct (decide (i = j)) as [<-|Hne].
    + rewrite list_lookup_insert_eq in Hj by by eapply lookup_lt_Some. by simplify_eq.
    + rewrite list_lookup_insert_ne in Hj by done. rewrite (Hh j h2 Hj).
      destruct Hcase as [->|[[-> ->]|[-> ->]]]; naive_solver.
Qed.

Lemma handle_step_coherent i c s s' : handle_step i c s = Some s' → coherent s → coherent s'.
Proof.
  destruct s as [ph d l o hs pf r b]. intros H Hc.
  pose proof (co_breaks _ Hc) as Hb. cbn in Hb. revert H. unfold handle_step.
  cbn [s_handles]. destruct (hs !! i) as [h|] eqn:Hi; cbn; [|done].
  pose proof (co_handle _ Hc i h Hi) as Hl. cbn [s_lock] in Hl.
  destruct h; destruct c; try discriminate; destruct ph; exec; intros H; cases_in H;
    simplify_eq; cbn in Hl.
  all: apply (handle_move_coherent i _ _ _ _ _ _ Hc Hi); cbn; try lia; try done; try naive_solver.
Qed.

Lemma spec_step_coherent e s s' : spec_step e s = Some s' → coherent s → coherent s'.
Proof.
  destruct e as [c|i c]; cbn [spec_step].
  - destruct (s_owner s) eqn:Hpc; try apply owner_step_coherent.
    destruct c; try apply owner_step_coherent. intros [= <-] [Ho Hh Hd Hb].
    destruct s as [ph d l o hs pf r b]. cbn in *. subst o. cbn in *.
    destruct ph; split; cbn; done.
  - destruct (s_handles s !! i) as [h|] eqn:Hi; [|apply handle_step_coherent].
    destruct h; try apply handle_step_coherent. destruct c; try apply handle_step_coherent.
    intros [= <-] Hc. pose proof (co_handle _ Hc i _ Hi) as Hl. pose proof (co_breaks _ Hc).
    destruct s as [ph d l o hs pf r b]. cbn in *.
    destruct ph, recovery; exec; cbn in Hl;
      apply (handle_move_coherent i _ _ _ _ _ _ Hc Hi); cbn; try lia; try done; naive_solver.
Qed.

Lemma spec_reachable_coherent n s : spec_reachable n s → coherent s.
Proof.
  revert s. apply rtc_ind_r.
  - split; cbn; try done; try lia. intros i h [-> _]%lookup_replicate. done.
  - intros s s' _ [e He]. by apply (spec_step_coherent e).
Qed.

(** [Draining] is left by the owner's own store or by death. *)
Lemma draining_exit e s s' :
  marks_ok s → draining (s_owner s) = true → step e s = Some s' → s_phase s = Draining →
  s_phase s' = Draining ∨ s_phase s' = Dead ∨ ∃ k, s_owner s = OFinish k.
Proof.
  destruct s as [ph d l o hs pf r b]. cbn [s_phase s_owner]. intros [_ Hm] Hd He ->. cbn in Hm.
  destruct e as [c|i c].
  - destruct o; try done; destruct c; try done; revert He; exec; intros H; cases_in H;
      simplify_eq; cbn; eauto.
  - revert He. cbn [step s_handles]. unfold handle_step. cbn [s_handles].
    destruct (hs !! i) as [h|] eqn:Hi; cbn; [|done].
    pose proof (Forall_lookup_1 _ _ _ _ Hm Hi) as Hk.
    destruct h; destruct c; try discriminate; try destruct m as [|[]]; try done;
      exec; intros H; cases_in H; simplify_eq; cbn; eauto.
Qed.

(** C21: Every run of the recovery machine, in which each atomic access of the
    shared phase may interleave with any step of any other thread, refines the
    machine in which [mark_break_sent] is one indivisible action: the phase, the
    death flag, the write lock, the wire and the position of every thread agree
    (a thread between its load and its exchange counts as not having acted). *)
Theorem mark_break_sent_atomic n s : reachable n s → spec_reachable n (abs s).
Proof. intros H. by apply reachable_refines. Qed.

(** C3: Under every interleaving of the owner and any number of cancel handles, the
    write half serves one thread at a time: no BREAK marker lands inside a request
    and no two handles write at once; and the phase is [Draining] only while the
    owner itself is inside a recovery drain, so no other thread ever enters or
    leaves that phase except by killing the session. *)
Theorem recovery_exclusive n s :
  reachable n s →
  (∀ p i recovery, s_owner s = OSend p → s_handles s !! i ≠ Some (HSend recovery)) ∧
  (∀ i j r1 r2, s_handles s !! i = Some (HSend r1) → s_handles s !! j = Some (HSend r2) → i = j) ∧
  (s_phase s = Draining → draining (s_owner s) = true) ∧
  (∀ e s', step e s = Some s' → s_phase s = Draining →
     s_phase s' = Draining ∨ s_phase s' = Dead ∨ ∃ k, s_owner s = OFinish k).
Proof.
  intros Hr. destruct (reachable_refines n s Hr) as [Hm Hs].
  apply spec_reachable_coherent in Hs as [Ho Hh Hd _].
  assert (∀ i r, s_handles s !! i = Some (HSend r) → s_lock s = Some (THandle i)) as Hl.
  { intros i r Hi. apply (Hh i (HSend r)); [|done]. cbn. by rewrite list_lookup_fmap, Hi. }
  split; [|split; [|split]].
  - intros p i r Hp Hi%Hl. assert (s_lock s = Some TOwner) by (apply Ho; cbn; by rewrite Hp).
    congruence.
  - intros i j r1 r2 Hi%Hl Hj%Hl. congruence.
  - intros Hp%Hd. cbn in Hp. by destruct (s_owner s).
  - intros e s' He Hp. apply (draining_exit e); try done.
    specialize (Hd Hp). cbn in Hd. by destruct (s_owner s).
Qed.

(** Two cancel handles, the second blocked on the write lock that the first holds
    while it sends its BREAK; the owner reads its response. *)
Definition run (es : list Event) (s : State) : option State :=
  foldl (λ os e, os ≫= step e) (Some s) es.

Lemma run_events_reachable n es s : run es (init n) = Some s → reachable n s.
Proof.
  revert s. induction es as [|e es IH] using rev_ind; unfold run in *.
  - intros s [= <-]. apply rtc_refl.
  - intros s. rewrite foldl_app. cbn [foldl].
    destruct (foldl _ _ es) as [s1|] eqn:H1; [|done]. intros H. eapply rtc_r; [by apply IH|].
    by exists e.
Qed.

Definition owner_reads : list Event :=
  map EvOwner [CallRequest false; Step; Step; Step; WireOk false; Step].
Definition two_handles : list Event :=
  [EvHandle 0 (CallHandle false); EvHandle 1 (CallHandle true); EvHandle 0 Step; EvHandle 1 Step;
   EvHandle 0 Step; EvHandle 0 Step].

Lemma recovery_exclusive_witness :
  ∃ s, run (owner_reads ++ two_handles) (init 2) = Some s ∧
    s_owner s = OReading ∧ s_handles s = [HSend false; HLock true] ∧
    (∀ i j r1 r2, s_handles s !! i = Some (HSend r1) → s_handles s !! j = Some (HSend r2) → i = j).
Proof.
  eexists. split; [vm_compute; reflexivity|]. split; [reflexivity|]. split; [reflexivity|].
  apply (recovery_exclusive 2). apply (run_events_reachable 2 (owner_reads ++ two_handles)).
  vm_compute. reflexivity.
Defined.

(** The handle between its load and its exchange: the specification has not moved. *)
Lemma mark_break_sent_atomic_witness :
  ∃ s, run (owner_reads ++ two_handles ++ [EvHandle 0 (WireOk false); EvHandle 0 Step]) (init 2)
         = Some s ∧
    s_handles s = [HMark false (MCas InFlight); HLock true] ∧
    s_handles (abs s) = [HMark false MLoad; HLock true] ∧ spec_reachable 2 (abs s).
Proof.
  eexists. split; [vm_compute; reflexivity|]. split; [reflexivity|]. split; [reflexivity|].
  apply (mark_break_sent_atomic 2).
  apply (run_events_reachable 2 (owner_reads ++ two_handles ++ [EvHandle 0 (WireOk false); EvHandle 0 Step])).
  vm_compute. reflexivity.
Defined.

(** ** The owner alone: requests meet a clean wire *)

Definition settled (s : State) : Prop := s_response s = false ∧ s_breaks s = 0.

(** Every request that was not recovered at once is written whole or not at all and has a
    response that is read, and a read that succeeds takes the whole response. *)
Definition orderly (e : Event) (s : State) : Prop :=
  match s_owner s, e with
  | OSend false, EvOwner (DropFuture true | WireErr true | SentOneWay) => False
  | OReading, EvOwner (WirePart _) => False
  | _, _ => True
  end.

Definition quiet_reachable : State → Prop :=
  rtc (λ s s', ∃ e, step e s = Some s' ∧ orderly e s) (init 0).

Definition between_calls (s : State) : Prop :=
  s_phase s ≠ Draining ∧ (s_phase s = Ready → settled s) ∧ (s_phase s ≠ Dead → s_breaks s = 0).

Definition clean (s : State) : Prop :=
  s_handles s = [] ∧
  match s_owner s with
  | OIdle | OCheck _ | ORequire _ | OPending _ => between_calls s
  | OReconcile => between_calls s ∧ settled s
  | OBeginOp => s_phase s = Ready ∧ settled s
  | OLock p | OSend p => s_phase s = (if p then InFlight else Ready) ∧ settled s
  | OArm => s_phase s ≠ Draining ∧ (s_phase s ≠ Dead → s_breaks s = 0)
  | OReading => s_phase s = InFlight ∧ s_breaks s = 0
  | ODisarm => s_phase s = InFlight ∧ settled s
  | ODropGuard _ => (s_phase s = InFlight ∨ s_phase s = Dead) ∧ (s_phase s ≠ Dead → s_breaks s = 0)
  | OBreak m _ _ => s_phase s ≠ Draining ∧ (s_phase s ≠ Dead → s_breaks s = 0) ∧ mark_ok m
  | OBegin _ _ => (s_phase s = BreakSent ∨ s_phase s = Dead) ∧ (s_phase s ≠ Dead → s_breaks s = 0)
  | ODrainBreak _ => s_phase s = Draining ∧ s_breaks s = 0
  | ODrainRead _ => s_phase s = Draining ∧ 0 <= s_breaks s <= 1
  | OFinish _ => s_phase s ≠ Dead ∧ settled s
  | ODie => True
  end.

Lemma step_clean e s s' : step e s = Some s' → orderly e s → clean s → clean s'.
Proof.
  intros He Hw [Hh Hc]. destruct s as [ph d l o hs pf r b]. cbn in Hh. subst hs.
  destruct e as [c|i c]; [|done]. revert He Hw Hc. unfold clean, between_calls, settled, orderly.
  destruct o; destruct c; try discriminate; try destruct m as [|[]]; try (cbn; tauto);
    destruct ph; exec; intros H; cases_in H; simplify_eq; cbn; intros;
    (split; [done|]); cbn; try done; try (intuition (congruence || lia)).
  all: try destruct prefetch; try destruct written; destruct r; intuition (congruence || done).
Qed.

(** C16: On a connection that no other thread cancels, whose requests are each written
    whole or not at all (or are recovered by their deadline) and are answered by a
    response, and whose successful reads take the whole response (as they do where
    responses end in a mark), a request is only ever written to a clean wire: whatever
    futures were dropped mid-read, whatever deadlines, failed reads, abandoned
    prefetched pages, cancels and failed drains came before, no response of an earlier
    call and no unanswered BREAK is left on the wire when the owner takes the write
    lock.  Left out are pipelines, connections that receive pushed notifications, and
    reads without end marks that stop inside a response. *)
Theorem requests_meet_clean_wire s :
  quiet_reachable s →
  (∃ p, s_owner s = OLock p ∨ s_owner s = OSend p) →
  s_response s = false ∧ s_breaks s = 0.
Proof.
  intros Hr [p Hp]. assert (clean s) as [_ Hc].
  { clear Hp. revert s Hr. apply rtc_ind_r.
    - split; [done|]. cbn. unfold between_calls, settled. cbn. by repeat split.
    - intros s s' _ (e & He & Hw). by apply (step_clean e). }
  destruct Hp as [Hp|Hp]; rewrite Hp in Hc; by destruct Hc.
Qed.


Fixpoint quiet_run (es : list Event) (s : State) : Prop :=
  match es with
  | [] => True
  | e :: es => orderly e s ∧ match step e s with Some s' => quiet_run es s' | None => False end
  end.

Lemma quiet_run_reachable es : ∀ s0 s,
  quiet_reachable s0 → quiet_run es s0 → run es s0 = Some s → quiet_reachable s.
Proof.
  induction es as [|e es IH]; intros s0 s Hr; cbn [quiet_run].
  - intros _ [= <-]. done.
  - intros [Hw Hq] H. unfold run in H. cbn [foldl] in H.
    change (Some s0 ≫= step e) with (step e s0) in H.
    destruct (step e s0) as [s1|] eqn:He; [|done].
    apply (IH s1 s); [|done|done]. eapply rtc_r; [done|]. by exists e.
Qed.

(** A fetch dropped in the middle of its read, then the next request: it breaks and
    drains before it takes the write lock. *)
Definition dropped_then_next : list Event :=
  owner_reads ++
  map EvOwner [DropFuture true; Step; CallRequest false; Step; Step; WireOk false; WireOk false; Step].

Lemma requests_meet_clean_wire_witness :
  ∃ s, run dropped_then_next (init 0) = Some s ∧ s_owner s = OLock false ∧
    s_response s = false ∧ s_breaks s = 0.
Proof.
  eexists. split; [vm_compute; reflexivity|]. split; [reflexivity|].
  apply requests_meet_clean_wire; [|exists false; left; reflexivity].
  apply (quiet_run_reachable dropped_then_next (init 0)); [apply rtc_refl| |vm_compute; reflexivity].
  vm_compute. repeat split.
Defined.

(** ** Where the discipline breaks *)

(** A future dropped while its request is being written leaves the phase
    [Ready], since the guard is armed only after the write: the next request is
    then written in front of the stranded response. *)
Theorem dropped_send_poisons_wire :
  ∃ s, reachable 0 s ∧ s_owner s = OSend false ∧ s_phase s = Ready ∧ s_response s = true.
Proof.
  set (es := map EvOwner [CallRequest false; Step; Step; Step; DropFuture true;
                          CallRequest false; Step; Step; Step]).
  destruct (run es (init 0)) as [s|] eqn:Hs; [|by vm_compute in Hs].
  exists s. split; [by apply (run_events_reachable 0 es)|]. vm_compute in Hs. by injection Hs as <-.
Qed.

(** Nor does a read that stops inside its response leave a trace in the phase: it counts
    as completed, and the next request is written in front of the rest. *)
Definition cut_read_run : list Event :=
  owner_reads ++ map EvOwner [WirePart false; Step; CallRequest false; Step; Step; Step].

Theorem cut_read_poisons_wire :
  ∃ s, run cut_read_run (init 0) = Some s ∧ reachable 0 s ∧
    s_owner s = OSend false ∧ s_phase s = Ready ∧ s_response s = true.
Proof.
  destruct (run cut_read_run (init 0)) as [s|] eqn:Hs; [|by vm_compute in Hs].
  exists s. split; [done|]. split; [by apply (run_events_reachable 0 cut_read_run)|].
  vm_compute in Hs. by injection Hs as <-.
Qed.

(** After a cancel handle has sent its BREAK and recorded it, the next request
    of the owner sends a second BREAK for the same cancel, and one of the two
    answers is left on the wire in front of that request. *)
Theorem cancel_handle_second_break :
  ∃ s, reachable 1 s ∧ s_owner s = OLock false ∧ s_phase s = Ready ∧ s_breaks s = 1.
Proof.
  set (es := owner_reads ++
    map (EvHandle 0) [CallHandle false; Step; Step; Step; WireOk false; Step; Step] ++
    map EvOwner [WireOk false; Step; CallRequest false; Step; Step; WireOk false; WireOk false; Step]).
  destruct (run es (init 1)) as [s|] eqn:Hs; [|by vm_compute in Hs].
  exists s. split; [by apply (run_events_reachable 1 es)|]. vm_compute in Hs. by injection Hs as <-.
Qed.

(** A session that a cancel handle declared dead comes back to life: the
    handle's BREAK fails while the owner drains, and the owner's unconditional
    store of [Ready] overwrites [Dead]. *)
Theorem dead_session_revived :
  ∃ s s', reachable 1 s ∧ s_phase s = Dead ∧ s_dead s = false ∧
    step (EvOwner Step) s = Some s' ∧ s_phase s' = Ready ∧ s_dead s' = false.
Proof.
  set (es := owner_reads ++
    map (EvHandle 0) [CallHandle false; Step; Step; Step] ++
    map EvOwner [Deadline true ThenIdle; Step; Step; Step] ++
    map (EvHandle 0) [WireErr false; Step] ++
    map EvOwner [WireOk false; WireOk false]).
  destruct (run es (init 1)) as [s|] eqn:Hs; [|by vm_compute in Hs].
  exists s. eexists. split; [by apply (run_events_reachable 1 es)|].
  vm_compute in Hs. injection Hs as <-. split; [done|]. split; [done|].
  split; [reflexivity|]. by split.
Qed.
