(* ===== verification/Sql.v ===== *)
(** * SQL text ([oracledb-protocol/src/sql.rs])

    What the driver reads out of a statement: its kind, its bind placeholders, its
    output binds.  A [&str] is its list of characters.  The index of a scanning loop,
    which moves a character at a time, is modelled by the suffix that starts there;
    where a position is a result it counts characters, and a slice at positions that are
    out of range or out of order panics ([str_from], [str_range]).  Positions are found by
    matching ASCII text, so that the byte offsets of the source are character boundaries.

    The Unicode tables of the standard library are an interface, [Unicode], whose
    laws fix them on ASCII. *)

From S2P Require Import Prelude.
From S2P Require Import Protocol.

(** ** Characters *)

Definition ascii_upper (c : Z) : bool := between 65 90 c.
Definition ascii_lower (c : Z) : bool := between 97 122 c.
Definition is_ascii_digit (c : Z) : bool := between 48 57 c.
Definition is_ascii_alphabetic (c : Z) : bool := ascii_upper c || ascii_lower c.
Definition is_ascii_alphanumeric (c : Z) : bool := is_ascii_alphabetic c || is_ascii_digit c.
(** [u8::is_ascii_whitespace]: space, tab, line feed, form feed, return. *)
Definition is_ascii_whitespace (c : Z) : bool :=
  (c =? 32) || (c =? 9) || (c =? 10) || (c =? 12) || (c =? 13).
Definition to_ascii_lower (c : Z) : Z := if ascii_upper c then c + 32 else c.
Definition to_ascii_upper (c : Z) : Z := if ascii_lower c then c - 32 else c.
Definition to_ascii_lowercase (s : chars) : chars := map to_ascii_lower s.
Definition to_ascii_uppercase (s : chars) : chars := map to_ascii_upper s.
Definition eq_ignore_ascii_case (s t : chars) : bool :=
  bool_decide (to_ascii_lowercase s = to_ascii_lowercase t).

(** The characters of an ASCII literal. *)
Definition txt (s : string) : chars := map (λ c, Z.of_N (Ascii.N_of_ascii c)) (String.list_ascii_of_string s).

Class Unicode := {
  is_alphabetic : Z → bool;
  is_numeric : Z → bool;
  to_uppercase : chars → chars;
  ascii_alphabetic c : 0 <= c < 128 → is_alphabetic c = is_ascii_alphabetic c;
  ascii_numeric c : 0 <= c < 128 → is_numeric c = is_ascii_digit c;
  alphabetic_not_space c : is_alphabetic c || is_numeric c = true → is_whitespace c = false;
  ascii_uppercase s : Forall (λ c, 0 <= c < 128) s → to_uppercase s = to_ascii_uppercase s
}.

(** The tables restricted to ASCII. *)
#[global] Program Instance ascii_unicode : Unicode := {|
  is_alphabetic := is_ascii_alphabetic;
  is_numeric := is_ascii_digit;
  to_uppercase := to_ascii_uppercase
|}.
Solve All Obligations with (intros; reflexivity).
Next Obligation.
  unfold is_ascii_alphabetic, is_ascii_digit, ascii_upper, ascii_lower, is_whitespace, between.
  intros. lia.
Qed.

Definition QUOTE : Z := 39.
Definition DQUOTE : Z := 34.
Definition COLON : Z := 58.
Definition DASH : Z := 45.
Definition SLASH : Z := 47.
Definition STAR : Z := 42.
Definition NEWLINE : Z := 10.
Definition SEMICOLON : Z := 59.

(** ** Lists of characters as text *)

Fixpoint starts_with (p s : chars) : bool :=
  match p, s with
  | [], _ => true
  | c :: p, d :: s => (c =? d) && starts_with p s
  | _ :: _, [] => false
  end.

(** [s.find(needle)] *)
Fixpoint find_str (needle s : chars) : option nat :=
  if starts_with needle s then Some 0%nat
  else match s with
       | [] => None
       | _ :: s => S <$> find_str needle s
       end.

(** The longest prefix whose characters satisfy [f], and the rest. *)
Fixpoint span (f : Z → bool) (s : chars) : chars * chars :=
  match s with
  | c :: s' => if f c then let '(a, b) := span f s' in (c :: a, b) else ([], s)
  | [] => ([], [])
  end.

Definition strip_prefix (p s : chars) : option chars :=
  if starts_with p s then Some (drop (length p) s) else None.

(** [&s[i..]] and [&s[i..j]] *)
Definition str_from {E} (s : chars) (i : nat) : Result E chars :=
  if (i <=? length s)%nat then Ok (drop i s) else Panic.
Definition str_range {E} (s : chars) (i j : nat) : Result E chars :=
  if (i <=? j)%nat && (j <=? length s)%nat then Ok (take (j - i) (drop i s)) else Panic.

(** The first word, as the classifiers read it. *)
Definition first_keyword (statement : chars) : chars :=
  fst (span is_ascii_alphabetic (trim_start statement)).

Definition keyword_in (keywords : list string) (k : chars) : bool :=
  existsb (λ w, eq_ignore_ascii_case k (txt w)) keywords.

Definition statement_is_plsql (statement : chars) : bool :=
  keyword_in ["begin"; "declare"; "call"]%string (first_keyword statement).
Definition statement_is_ddl (statement : chars) : bool :=
  keyword_in ["create"; "alter"; "drop"; "grant"; "revoke"; "analyze"; "audit"; "comment";
              "truncate"]%string (first_keyword statement).
Definition statement_is_dml (statement : chars) : bool :=
  keyword_in ["insert"; "update"; "delete"; "merge"]%string (first_keyword statement).

(** ** The scanner *)

Inductive SqlError := MissingEndingSingleQuote | MissingEndingDoubleQuote.
Abbreviation SqlRes := (Result SqlError).

(** [single_line_comment_end], [multiple_line_comment_end]: [rest] starts at the
    first character of the candidate. *)
Definition single_line_comment_end (rest : chars) : option chars :=
  if starts_with [DASH; DASH] rest
  then Some (match find_str [NEWLINE] (drop 2 rest) with
             | Some offset => drop (2 + offset + 1) rest
             | None => []
             end)
  else None.
Definition multiple_line_comment_end (rest : chars) : option chars :=
  if starts_with [SLASH; STAR] rest
  then Some (match find_str [STAR; SLASH] (drop 2 rest) with
             | Some offset => drop (2 + offset + 2) rest
             | None => []
             end)
  else None.

(** [quoted_string_end]: [rest] starts after the opening quote. *)
Fixpoint quoted_string_end (quote : Z) (rest : chars) : SqlRes chars :=
  match rest with
  | [] => Err (if quote =? QUOTE then MissingEndingSingleQuote else MissingEndingDoubleQuote)
  | ch :: rest =>
      if ch =? quote then
        match rest with
        | next :: rest' =>
            if (quote =? QUOTE) && (next =? QUOTE) then quoted_string_end quote rest' else Ok rest
        | [] => Ok rest
        end
      else quoted_string_end quote rest
  end.

(** [qstring_end]: [rest] starts after the quote that follows [q]. *)
Definition close_sep (open_sep : Z) : Z :=
  if open_sep =? 91 then 93 else if open_sep =? 123 then 125
  else if open_sep =? 60 then 62 else if open_sep =? 40 then 41 else open_sep.

Fixpoint qstring_loop (close : Z) (exiting : bool) (rest : chars) : SqlRes chars :=
  match rest with
  | [] => Err MissingEndingSingleQuote
  | ch :: rest =>
      if negb exiting && (ch =? close) then qstring_loop close true rest
      else if exiting then
        if ch =? QUOTE then Ok rest else qstring_loop close (ch =? close) rest
      else qstring_loop close false rest
  end.

Definition qstring_end (rest : chars) : SqlRes chars :=
  match rest with
  | [] => Err MissingEndingSingleQuote
  | open_sep :: rest => qstring_loop (close_sep open_sep) false rest
  end.

Section Scan.
Context {U : Unicode}.

Definition is_alphanumeric (c : Z) : bool := is_alphabetic c || is_numeric c.
Definition is_bind_name_char (c : Z) : bool :=
  is_alphanumeric c || (c =? 95) || (c =? 36) || (c =? 35).

(** [parse_bind_name]: [rest] starts after the colon; the position reached and the
    name. *)
Definition parse_bind_name (rest : chars) : chars * option chars :=
  match trim_start rest with
  | [] => ([], None)
  | first :: rest' =>
      if first =? DQUOTE then
        let '(inner, tail) := span (λ c, negb (c =? DQUOTE)) rest' in
        match tail with
        | _ :: tail => (tail, Some (first :: inner ++ [DQUOTE]))
        | [] => ([], Some (first :: inner))
        end
      else if is_numeric first then
        let '(digits, tail) := span is_numeric rest' in (tail, Some (first :: digits))
      else if negb (is_alphabetic first) then (rest, None)
      else let '(word, tail) := span is_bind_name_char rest' in (tail, Some (first :: word))
  end.

(** The loop of [scan_bind_names].  Each round consumes a character. *)
Fixpoint scan_loop (fuel : nat) (rest : chars) (last_ch : Z) (last_was_string : bool)
  : SqlRes (list chars) :=
  match fuel, rest with
  | _, [] => Ok []
  | O, _ :: _ => Diverge
  | S fuel, ch :: after =>
      if ch =? QUOTE then
        after ← (if (last_ch =? 113) || (last_ch =? 81) then qstring_end after
                 else quoted_string_end QUOTE after);
        scan_loop fuel after ch true
      else if is_whitespace ch then scan_loop fuel after ch last_was_string
      else if ch =? DASH then
        scan_loop fuel (default after (single_line_comment_end rest)) ch false
      else if ch =? SLASH then
        scan_loop fuel (default after (multiple_line_comment_end rest)) ch false
      else if ch =? DQUOTE then
        after ← quoted_string_end DQUOTE after; scan_loop fuel after ch false
      else if (ch =? COLON) && negb last_was_string then
        let '(after, name) := parse_bind_name after in
        names ← scan_loop fuel after ch false;
        Ok (match name with Some name => name :: names | None => names end)
      else scan_loop fuel after ch false
  end.

Definition scan_bind_names (statement : chars) : SqlRes (list chars) :=
  scan_loop (length statement) statement 0 false.

End Scan.

(** ** Bind names *)

Definition ends_with_char (c : Z) (s : chars) : bool :=
  match list.last s with Some d => d =? c | None => false end.

Definition is_quoted_bind_name (name : chars) : bool :=
  (2 <=? Zlen name) && starts_with [DQUOTE] name && ends_with_char DQUOTE name.

Definition bind_names_equal (left right : chars) : bool :=
  if is_quoted_bind_name left || is_quoted_bind_name right then bool_decide (left = right)
  else eq_ignore_ascii_case left right.

Definition bind_name_matches_key (bind_name key : chars) : bool :=
  let key := default key (strip_prefix [COLON] key) in
  if is_quoted_bind_name bind_name || is_quoted_bind_name key then bool_decide (bind_name = key)
  else eq_ignore_ascii_case bind_name key.

(** [if !names.iter().any(..) { names.push(name) }], over a list of new names. *)
Definition push_name (names : list chars) (name : chars) : list chars :=
  if existsb (λ existing, bind_names_equal existing name) names then names else names ++ [name].
Definition push_names (names new : list chars) : list chars := foldl push_name names new.

Definition simple_sql_identifier (value : chars) : option chars :=
  if forallb (λ c, is_ascii_alphanumeric c || (c =? 95) || (c =? 36) || (c =? 35)) value
  then Some value else None.

Definition generated_object_attr_bind_name (bind_name attr_name : chars) : chars :=
  txt "ORADB_OBJ_" ++
  map (λ c, if is_ascii_alphanumeric c then to_ascii_upper c else 95) bind_name ++
  txt "_" ++ to_ascii_uppercase attr_name.

(** [single_quote_end]: [rest] starts after the opening quote; an unterminated
    literal runs to the end. *)
Fixpoint single_quote_end (rest : chars) : chars :=
  match rest with
  | [] => []
  | ch :: rest =>
      if ch =? QUOTE then
        match rest with
        | next :: rest' => if next =? QUOTE then single_quote_end rest' else rest
        | [] => rest
        end
      else single_quote_end rest
  end.

Section Statements.
Context {U : Unicode}.

Definition unique_bind_names (statement : chars) : SqlRes (list chars) :=
  names ← scan_bind_names statement; Ok (push_names [] names).

Definition bind_names_per_occurrence (statement : chars) : SqlRes (list chars) :=
  if statement_is_plsql statement then unique_bind_names statement else scan_bind_names statement.

(** [public_bind_name]; the slice panics only on a name shorter than its quotes,
    which [is_quoted_bind_name] excludes. *)
Definition public_bind_name (name : chars) : chars :=
  if is_quoted_bind_name name then take (length name - 2) (drop 1 name) else to_uppercase name.

Definition plsql_function_return_bind_name (statement : chars) : option chars :=
  let rest := trim_start statement in
  rest ← (if eq_ignore_ascii_case (take 5 rest) (txt "begin") then Some (drop 5 rest) else None);
  rest ← strip_prefix [COLON] (trim_start rest);
  let '(name, rest) := span is_bind_name_char rest in
  match name with
  | [] => None
  | _ => if starts_with (txt ":=") (trim_start rest) then Some name else None
  end.

Definition returning_bind_names (statement : chars) : SqlRes (list chars) :=
  if statement_is_plsql statement then Ok []
  else
    let lower := to_ascii_lowercase statement in
    match find_str (txt "returning") lower with
    | None => Ok []
    | Some returning_pos =>
        tail ← str_from lower returning_pos;
        match find_str (txt "into") tail with
        | None => Ok []
        | Some into_relative_pos =>
            binds ← str_from statement (returning_pos + into_relative_pos + 4);
            scan_bind_names binds
        end
    end.

Record DmlReturningProjectionParts := mkParts {
  returning_pos : nat;
  binds_start : nat;
  return_expr : chars;
  bind_names : list chars
}.

Definition dml_returning_projection_parts (statement : chars)
  : SqlRes (option DmlReturningProjectionParts) :=
  if statement_is_plsql statement then Ok None
  else
    let lower := to_ascii_lowercase statement in
    match find_str (txt "returning") lower with
    | None => Ok None
    | Some returning_pos =>
        tail ← str_from lower returning_pos;
        match find_str (txt "into") tail with
        | None => Ok None
        | Some into_relative_pos =>
            let expr_start := (returning_pos + 9)%nat in
            let into_start := (returning_pos + into_relative_pos)%nat in
            let binds_start := (into_start + 4)%nat in
            expr ← str_range statement expr_start into_start;
            let return_expr := trim expr in
            if existsb (Z.eqb 44) return_expr || bool_decide (return_expr = []) then Ok None
            else
              binds ← str_from statement binds_start;
              bind_names ← scan_bind_names binds;
              Ok (Some (mkParts returning_pos binds_start return_expr bind_names))
        end
    end.

Definition dml_returning_single_bind_name (statement : chars) : SqlRes (option chars) :=
  parts ← dml_returning_projection_parts statement;
  Ok (match parts with
      | Some parts => match bind_names parts with [name] => Some name | _ => None end
      | None => None
      end).

Definition rewrite_dml_returning_projection (statement attr_name : chars)
  : SqlRes (option chars) :=
  parts ← dml_returning_projection_parts statement;
  match parts with
  | Some parts =>
      match bind_names parts with
      | [_] =>
          before ← str_range statement 0 (returning_pos parts);
          binds ← str_from statement (binds_start parts);
          Ok (Some (before ++ txt "returning (" ++ return_expr parts ++ txt ")." ++ attr_name ++ txt " into" ++ binds))
      | _ => Ok None
      end
  | None => Ok None
  end.

(** [replace_bind_placeholder]; each round consumes a character. *)
Fixpoint replace_loop (fuel : nat) (rest bind_name replacement : chars) : Result SqlError chars :=
  match fuel, rest with
  | _, [] => Ok []
  | O, _ :: _ => Diverge
  | S fuel, ch :: after =>
      if ch =? QUOTE then
        let after' := single_quote_end after in
        tail ← replace_loop fuel after' bind_name replacement;
        Ok (take (length rest - length after') rest ++ tail)
      else if ch =? COLON then
        let '(name, after') := span is_bind_name_char after in
        match name with
        | [] => tail ← replace_loop fuel after bind_name replacement; Ok (ch :: tail)
        | _ =>
            tail ← replace_loop fuel after' bind_name replacement;
            Ok ((if bind_names_equal name bind_name then replacement else ch :: name) ++ tail)
        end
      else tail ← replace_loop fuel after bind_name replacement; Ok (ch :: tail)
  end.

Definition replace_bind_placeholder (statement bind_name replacement : chars)
  : Result SqlError chars :=
  replace_loop (length statement) statement bind_name replacement.

Definition replace_input_bind_placeholder (statement bind_name replacement : chars)
  : Result SqlError chars :=
  let split := default (length statement)
                 (find_str (txt "returning") (to_ascii_lowercase statement)) in
  prefix ← str_range statement 0 split;
  suffix ← str_from statement split;
  prefix ← replace_bind_placeholder prefix bind_name replacement;
  Ok (prefix ++ suffix).

(** [plsql_assignment_bind_names] *)
Definition is_assignment (rest : chars) : bool :=
  starts_with [COLON; 61] (snd (span is_ascii_whitespace rest)).

Fixpoint assignment_loop (fuel : nat) (statement rest : chars) (names : list chars)
  : SqlRes (list chars) :=
  match fuel, rest with
  | _, [] => Ok names
  | O, _ :: _ => Diverge
  | S fuel, ch :: after =>
      if ch =? QUOTE then
        let after' := single_quote_end after in
        if bool_decide (after' = []) && negb (ends_with_char QUOTE statement)
        then Err MissingEndingSingleQuote
        else assignment_loop fuel statement after' names
      else if ch =? COLON then
        match after with
        | [] => assignment_loop fuel statement after names
        | next :: rest' =>
            if next =? DQUOTE then
              let '(inner, tail) := span (λ c, negb (c =? DQUOTE)) rest' in
              match tail with
              | [] => assignment_loop fuel statement after names
              | _ :: tail =>
                  let name := next :: inner ++ [DQUOTE] in
                  assignment_loop fuel statement tail
                    (if is_assignment tail then push_name names name else names)
              end
            else
              let '(name, tail) := span is_bind_name_char after in
              match name with
              | [] => assignment_loop fuel statement after names
              | _ => assignment_loop fuel statement tail
                       (if is_assignment tail then push_name names name else names)
              end
        end
      else assignment_loop fuel statement after names
  end.

Definition plsql_assignment_bind_names (statement : chars) : SqlRes (list chars) :=
  if negb (statement_is_plsql statement) then Ok []
  else assignment_loop (length statement) statement statement [].

(** [keyword_token_positions] *)
Definition is_ident (c : Z) : bool := is_ascii_alphanumeric c || (c =? 95).

Definition keyword_here (statement keyword : chars) (index : nat) : bool :=
  let klen := length keyword in
  (index + klen <=? length statement)%nat
  && eq_ignore_ascii_case (take klen (drop index statement)) keyword
  && match index with
     | O => true
     | S before => match statement !! before with Some b => negb (is_ident b) | None => true end
     end
  && match statement !! (index + klen)%nat with Some b => negb (is_ident b) | None => true end.

Fixpoint keyword_loop (fuel : nat) (statement keyword : chars) (rest : chars) (last_ch : Z)
  : SqlRes (list nat) :=
  match fuel, rest with
  | _, [] => Ok []
  | O, _ :: _ => Diverge
  | S fuel, ch :: after =>
      if ch =? QUOTE then
        after ← (if (last_ch =? 113) || (last_ch =? 81) then qstring_end after
                 else quoted_string_end QUOTE after);
        keyword_loop fuel statement keyword after ch
      else if ch =? DQUOTE then
        after ← quoted_string_end DQUOTE after; keyword_loop fuel statement keyword after ch
      else if ch =? DASH then
        keyword_loop fuel statement keyword (default after (single_line_comment_end rest)) ch
      else if ch =? SLASH then
        keyword_loop fuel statement keyword (default after (multiple_line_comment_end rest)) ch
      else
        let index := (length statement - length rest)%nat in
        positions ← keyword_loop fuel statement keyword after ch;
        Ok (if keyword_here statement keyword index then index :: positions else positions)
  end.

Definition keyword_token_positions (statement keyword : chars) : SqlRes (list nat) :=
  keyword_loop (length statement) statement keyword statement 0.

(** [plsql_output_bind_names]: its two loops. *)
Definition into_clause (statement : chars) (names : list chars) (into_pos : nat)
  : SqlRes (list chars) :=
  let spaces := fst (span is_ascii_whitespace (drop (into_pos + 4) statement)) in
  let bind_start := (into_pos + 4 + length spaces)%nat in
  if starts_with [COLON] (drop bind_start statement) then
    tail ← str_from (to_ascii_lowercase statement) bind_start;
    let stop := match find_str (txt " from ") tail with
                | Some relative => (bind_start + relative)%nat
                | None => match find_str [SEMICOLON] tail with
                          | Some relative => (bind_start + relative)%nat
                          | None => length statement
                          end
                end in
    clause ← str_range statement bind_start stop;
    new ← scan_bind_names clause;
    Ok (push_names names new)
  else Ok names.

Definition returning_clause (statement : chars) (into_positions : list nat)
  (names : list chars) (returning_pos : nat) : SqlRes (list chars) :=
  match List.find (λ p, (returning_pos <? p)%nat) into_positions with
  | None => Ok names
  | Some into_pos =>
      let after_into := (into_pos + 4)%nat in
      tail ← str_from statement after_into;
      let stop := match find_str [SEMICOLON] tail with
                  | Some relative => (after_into + relative)%nat
                  | None => length statement
                  end in
      clause ← str_range statement after_into stop;
      new ← scan_bind_names clause;
      Ok (push_names names new)
  end.

Fixpoint fold_res {A B} (f : B → A → SqlRes B) (acc : B) (l : list A) : SqlRes B :=
  match l with
  | [] => Ok acc
  | x :: l => acc ← f acc x; fold_res f acc l
  end.

Definition plsql_output_bind_names (statement : chars) : SqlRes (list chars) :=
  names ← plsql_assignment_bind_names statement;
  if negb (statement_is_plsql statement) then Ok names
  else
    into_positions ← keyword_token_positions statement (txt "into");
    names ← fold_res (into_clause statement) names into_positions;
    returning_positions ← keyword_token_positions statement (txt "returning");
    fold_res (returning_clause statement into_positions) names returning_positions.

End Statements.

(** [parse_alter_session_value] *)
Definition trim_end (s : chars) : chars := reverse (trim_start (reverse s)).
Definition trim_matches (f : Z → bool) (s : chars) : chars :=
  reverse (snd (span f (reverse (snd (span f s))))).

Definition parse_alter_session_value (statement key : chars) : option chars :=
  let trimmed := trim (reverse (snd (span (Z.eqb SEMICOLON) (reverse (trim statement))))) in
  let lower := to_ascii_lowercase trimmed in
  let prefix := txt "alter session set " ++ key in
  if starts_with prefix lower then
    let value := trim_start (drop (length prefix) trimmed) in
    let value := match strip_prefix [61] value with Some v => trim_start v | None => value end in
    let word := fst (span (λ c, negb (is_whitespace c)) (trim_start value)) in
    match word with
    | [] => None
    | _ => match trim_matches (Z.eqb DQUOTE) word with [] => None | v => Some v end
    end
  else None.
