(* ===== verification/SqlScan.v ===== *)
(** * What the SQL scanner finds

    [SqlToken] is the lexical grammar of a statement as far as binds are concerned:
    literals, alternatively quoted literals, comments, quoted identifiers,
    placeholders and other characters.  [scan_bind_names] finds exactly the
    placeholders of a token sequence; it returns on every text; the names the
    driver reports are one per class of equal names. *)

From S2P Require Import Prelude.
From S2P Require Import Protocol.
From S2P Require Import Sql.

(** ** Text lemmas *)

Lemma starts_with_app p s : starts_with p (p ++ s) = true.
Proof. induction p as [|c p IH]; cbn; [done|]. by rewrite Z.eqb_refl, IH. Qed.

Lemma span_spec f s : s = fst (span f s) ++ snd (span f s) ∧ Forall (λ c, f c = true) (fst (span f s)) ∧
  match snd (span f s) with c :: _ => f c = false | [] => True end.
Proof.
  induction s as [|c s IH]; cbn; [by repeat constructor|].
  destruct (f c) eqn:Hc; [|by repeat constructor].
  destruct (span f s) as [a b]. cbn in *. destruct IH as (-> & ? & ?).
  split; [done|]. split; [by constructor|done].
Qed.

(** No next character satisfies [f]. *)
Definition stops (f : Z → bool) (follow : chars) : Prop :=
  match follow with c :: _ => f c = false | [] => True end.

Lemma span_app f a follow :
  Forall (λ c, f c = true) a → stops f follow → span f (a ++ follow) = (a, follow).
Proof.
  intros Ha Hf. induction Ha as [|c a Hc _ IH]; cbn.
  - destruct follow as [|c follow]; cbn in *; [done|by rewrite Hf].
  - by rewrite Hc, IH.
Qed.

Lemma span_length f s : (length (snd (span f s)) <= length s)%nat.
Proof. pose proof (proj1 (span_spec f s)) as H. rewrite H at 2. rewrite length_app. lia. Qed.

Lemma trim_start_spaces sp s :
  Forall (λ c, is_whitespace c = true) sp → trim_start (sp ++ s) = trim_start s.
Proof. induction 1 as [|c sp Hc _ IH]; cbn; [done|]. by rewrite Hc. Qed.

Lemma trim_start_length s : (length (trim_start s) <= length s)%nat.
Proof. induction s as [|c s IH]; cbn; [done|]. case_match; cbn; lia. Qed.

(** [needle] occurs nowhere in [s]. *)
Definition absent (needle s : chars) : Prop := find_str needle s = None.

#[global] Instance absent_dec needle s : Decision (absent needle s).
Proof. unfold absent. apply _. Defined.

Lemma find_newline b rest : NEWLINE ∉ b → find_str [NEWLINE] (b ++ NEWLINE :: rest) = Some (length b).
Proof.
  induction b as [|c b IH]; [done|]. rewrite not_elem_of_cons. intros [Hc Hb].
  cbn [app find_str starts_with length]. destruct (Z.eqb_spec NEWLINE c); [done|]. cbn [andb].
  by rewrite (IH Hb).
Qed.

Lemma find_pair a z b rest :
  a ≠ z → absent [a; z] b → find_str [a; z] (b ++ a :: z :: rest) = Some (length b).
Proof.
  intros Haz. unfold absent. induction b as [|c b IH].
  - intros _. cbn. by rewrite !Z.eqb_refl.
  - cbn [app find_str starts_with length]. destruct (Z.eqb_spec a c) as [<-|Hac]; cbn [andb].
    + destruct b as [|d b]; cbn [app starts_with andb].
      * destruct (Z.eqb_spec z a); [congruence|]. cbn [andb]. cbn. by rewrite !Z.eqb_refl.
      * destruct (z =? d) eqn:Hzd; cbn [andb]; [done|].
        destruct (find_str [a; z] (d :: b)) eqn:Hf; [done|]. intros _.
        specialize (IH eq_refl). cbn [app] in IH. by rewrite IH.
    + destruct (find_str [a; z] b) eqn:Hf; [done|]. intros _. by rewrite (IH eq_refl).
Qed.

Lemma not_elem_of_single (a b : Z) : a ≠ b → a ∉ [b].
Proof. intros H Hin. apply H. by apply list_elem_of_singleton. Qed.

Lemma not_elem_of_pair (a b c : Z) : a ≠ b → a ≠ c → a ∉ [b; c].
Proof. intros Hb Hc. apply not_elem_of_cons. split; [done|]. by apply not_elem_of_single. Qed.

Lemma absent_tail needle c s : absent needle (c :: s) → absent needle s.
Proof.
  unfold absent. cbn [find_str]. destruct (starts_with _ _); [done|]. by destruct (find_str needle s).
Qed.

Lemma absent_pair a z s : ¬ absent [a; z] (a :: z :: s).
Proof. unfold absent. cbn. by rewrite !Z.eqb_refl. Qed.

(** ** Tokens *)

Inductive SqlToken :=
| TString (body : chars)
| TQString (q open_sep : Z) (body : chars)
| TLine (body : chars)
| TBlock (body : chars)
| TIdent (body : chars)
| TBind (spaces name : chars)
| TChar (c : Z).

(** A quote inside a literal is written twice. *)
Definition double_quotes (body : chars) : chars :=
  body ≫= λ c, if c =? QUOTE then [QUOTE; QUOTE] else [c].

Definition render_token (t : SqlToken) : chars :=
  match t with
  | TString body => QUOTE :: double_quotes body ++ [QUOTE]
  | TQString q open_sep body => q :: QUOTE :: open_sep :: body ++ [close_sep open_sep; QUOTE]
  | TLine body => DASH :: DASH :: body ++ [NEWLINE]
  | TBlock body => SLASH :: STAR :: body ++ [STAR; SLASH]
  | TIdent body => DQUOTE :: body ++ [DQUOTE]
  | TBind spaces name => COLON :: spaces ++ name
  | TChar c => [c]
  end.
Definition render (ts : list SqlToken) : chars := concat (map render_token ts).

Definition binds (ts : list SqlToken) : list chars :=
  omap (λ t, match t with TBind _ name => Some name | _ => None end) ts.

Section Grammar.
Context {U : Unicode}.

(** A placeholder name and what may follow it. *)
Definition name_ok (name follow : chars) : Prop :=
  (∃ body, name = DQUOTE :: body ++ [DQUOTE] ∧ DQUOTE ∉ body) ∨
  (∃ c digits, name = c :: digits ∧ Forall (λ c, is_numeric c = true) name ∧ stops is_numeric follow) ∨
  (∃ c word, name = c :: word ∧ is_alphabetic c = true ∧ is_numeric c = false ∧
     Forall (λ c, is_bind_name_char c = true) word ∧ stops is_bind_name_char follow).

(** A colon that starts no placeholder. *)
Definition no_name (follow : chars) : Prop :=
  match trim_start follow with
  | c :: _ => c ≠ DQUOTE ∧ is_numeric c = false ∧ is_alphabetic c = false
  | [] => False
  end.

Definition starts (c : Z) (follow : chars) : Prop := head follow = Some c.

(** [t] stands after a literal ([after_string], spaces apart) and the character
    [last], and before [follow]. *)
Definition token_ok (after_string : bool) (last : Z) (t : SqlToken) (follow : chars) : Prop :=
  match t with
  | TString body => last ≠ 113 ∧ last ≠ 81 ∧ ¬ starts QUOTE follow
  | TQString q open_sep body =>
      (q = 113 ∨ q = 81) ∧ open_sep ≠ QUOTE ∧ absent [close_sep open_sep; QUOTE] body
  | TLine body => NEWLINE ∉ body
  | TBlock body => absent [STAR; SLASH] body
  | TIdent body => DQUOTE ∉ body
  | TBind spaces name =>
      after_string = false ∧ Forall (λ c, is_whitespace c = true) spaces ∧ name_ok name follow
  | TChar c =>
      c ≠ QUOTE ∧ c ≠ DQUOTE ∧ (c = DASH → ¬ starts DASH follow) ∧
      (c = SLASH → ¬ starts STAR follow) ∧ (c = COLON → after_string = true ∨ no_name follow)
  end.

Definition token_last (t : SqlToken) : Z :=
  match t with
  | TString _ | TQString _ _ _ => QUOTE
  | TLine _ => DASH
  | TBlock _ => SLASH
  | TIdent _ => DQUOTE
  | TBind _ _ => COLON
  | TChar c => c
  end.

Definition token_string (after_string : bool) (t : SqlToken) : bool :=
  match t with
  | TString _ | TQString _ _ _ => true
  | TChar c => is_whitespace c && after_string
  | _ => false
  end.

Fixpoint tokens_ok (after_string : bool) (last : Z) (ts : list SqlToken) : Prop :=
  match ts with
  | [] => True
  | t :: ts =>
      token_ok after_string last t (render ts) ∧
      tokens_ok (token_string after_string t) (token_last t) ts
  end.

(** ** One token at a time *)

Lemma quoted_single body follow :
  ¬ starts QUOTE follow → quoted_string_end QUOTE (double_quotes body ++ QUOTE :: follow) = Ok follow.
Proof.
  intros Hf. induction body as [|c body IH].
  - cbn [double_quotes mbind list_bind app quoted_string_end]. rewrite !Z.eqb_refl.
    destruct follow as [|d follow]; [done|].
    destruct (Z.eqb_spec d QUOTE) as [->|]; [by destruct Hf|done].
  - unfold double_quotes. cbn [mbind list_bind]. destruct (Z.eqb_spec c QUOTE) as [->|Hc];
      cbn [app]; cbn [quoted_string_end].
    + cbn. exact IH.
    + destruct (Z.eqb_spec c QUOTE); [done|]. exact IH.
Qed.

Lemma quoted_double body follow :
  DQUOTE ∉ body → quoted_string_end DQUOTE (body ++ DQUOTE :: follow) = Ok follow.
Proof.
  induction body as [|c body IH]; cbn [app quoted_string_end].
  - intros _. rewrite Z.eqb_refl. by destruct follow.
  - rewrite not_elem_of_cons. intros [Hc Hb]. destruct (Z.eqb_spec c DQUOTE); [congruence|]. auto.
Qed.

Lemma qstring_body close body follow : ∀ exiting : bool,
  close ≠ QUOTE → absent [close; QUOTE] ((if exiting then [close] else []) ++ body) →
  qstring_loop close exiting (body ++ close :: QUOTE :: follow) = Ok follow.
Proof.
  induction body as [|c body IH]; intros exiting Hc Ha; cbn [app qstring_loop].
  { destruct exiting; cbn [negb andb]; rewrite ?Z.eqb_refl; [|done].
    destruct (Z.eqb_spec close QUOTE); [done|]. cbn. done. }
  destruct exiting; cbn [negb andb app] in *.
  - destruct (Z.eqb_spec c QUOTE) as [->|Hq]; [by apply absent_pair in Ha|].
    apply absent_tail in Ha. apply IH; [done|].
    destruct (Z.eqb_spec c close) as [->|]; [done|by apply absent_tail in Ha].
  - destruct (Z.eqb_spec c close) as [->|]; apply IH; try done. by apply absent_tail in Ha.
Qed.

Lemma close_not_quote open_sep : open_sep ≠ QUOTE → close_sep open_sep ≠ QUOTE.
Proof. unfold close_sep, QUOTE. repeat case_match; lia. Qed.

Lemma line_comment body follow :
  NEWLINE ∉ body →
  single_line_comment_end (DASH :: DASH :: body ++ NEWLINE :: follow) = Some follow.
Proof.
  intros Hb. unfold single_line_comment_end. cbn [starts_with]. rewrite !Z.eqb_refl. cbn [andb].
  change (drop 2 (DASH :: DASH :: body ++ NEWLINE :: follow)) with (body ++ NEWLINE :: follow).
  rewrite find_newline by done. f_equal. cbn [drop Nat.add].
  rewrite drop_app_ge by lia. by replace (length body + 1 - length body)%nat with 1%nat by lia.
Qed.

Lemma block_comment body follow :
  absent [STAR; SLASH] body →
  multiple_line_comment_end (SLASH :: STAR :: body ++ STAR :: SLASH :: follow) = Some follow.
Proof.
  intros Hb. unfold multiple_line_comment_end. cbn [starts_with]. rewrite !Z.eqb_refl. cbn [andb].
  change (drop 2 (SLASH :: STAR :: body ++ STAR :: SLASH :: follow))
    with (body ++ STAR :: SLASH :: follow).
  rewrite find_pair by done. f_equal. cbn [drop Nat.add].
  rewrite drop_app_ge by lia. by replace (length body + 2 - length body)%nat with 2%nat by lia.
Qed.

Lemma no_comment a b follow c d :
  c = a → ¬ starts b follow → starts_with [a; b] (c :: follow) = d → d = false.
Proof.
  intros -> Hf <-. cbn. rewrite Z.eqb_refl. cbn.
  destruct follow as [|e follow]; [done|]. destruct (Z.eqb_spec b e) as [->|]; [by destruct Hf|done].
Qed.

Lemma name_first_not_space c : is_alphabetic c || is_numeric c = true → is_whitespace c = false ∧ c ≠ DQUOTE.
Proof.
  intros H. split; [by apply alphabetic_not_space|]. intros ->. unfold DQUOTE in H.
  by rewrite ascii_alphabetic, ascii_numeric in H by lia.
Qed.

Lemma parse_name spaces name follow :
  Forall (λ c, is_whitespace c = true) spaces → name_ok name follow →
  parse_bind_name (spaces ++ name ++ follow) = (follow, Some name).
Proof.
  intros Hsp Hn. unfold parse_bind_name. rewrite trim_start_spaces by done.
  destruct Hn as [(body & -> & Hb)|[(c & digits & -> & Hd & Hf)|(c & word & -> & Ha & Hnum & Hw & Hf)]].
  - cbn [app trim_start]. change (is_whitespace DQUOTE) with false. cbv iota. rewrite Z.eqb_refl.
    rewrite <- app_assoc. cbn [app]. rewrite span_app; [done| |].
    + apply Forall_forall. intros x Hx. apply negb_true_iff, Z.eqb_neq. intros ->.
      by apply list_elem_of_In in Hx.
    + done.
  - apply Forall_cons_iff in Hd as [Hc Hd].
    destruct (name_first_not_space c) as [Hs Hq]; [by rewrite Hc, orb_true_r|].
    cbn [app trim_start]. rewrite Hs. destruct (Z.eqb_spec c DQUOTE); [done|].
    by rewrite Hc, span_app by done.
  - destruct (name_first_not_space c) as [Hs Hq]; [by rewrite Ha|].
    cbn [app trim_start]. rewrite Hs. destruct (Z.eqb_spec c DQUOTE); [done|].
    by rewrite Hnum, Ha, span_app by done.
Qed.

Lemma parse_no_name follow : no_name follow → parse_bind_name follow = (follow, None).
Proof.
  unfold no_name, parse_bind_name. destruct (trim_start follow) as [|c rest]; [done|].
  intros (Hq & Hn & Ha). destruct (Z.eqb_spec c DQUOTE); [done|]. by rewrite Hn, Ha.
Qed.

(** The scanner passes one character that is no delimiter. *)
Lemma scan_char fuel c rest last aft :
  c ≠ QUOTE → c ≠ DQUOTE → (c = DASH → ¬ starts DASH rest) → (c = SLASH → ¬ starts STAR rest) →
  (c = COLON → aft = true ∨ no_name rest) →
  scan_loop (S fuel) (c :: rest) last aft = scan_loop fuel rest c (is_whitespace c && aft).
Proof.
  intros Hq Hdq Hd Hs Hc. cbn [scan_loop]. destruct (Z.eqb_spec c QUOTE); [done|].
  destruct (is_whitespace c) eqn:Hw; [done|]. cbn [andb].
  destruct (Z.eqb_spec c DASH) as [Hdash|].
  { unfold single_line_comment_end.
    rewrite (no_comment DASH DASH rest c _ Hdash (Hd Hdash) eq_refl). done. }
  destruct (Z.eqb_spec c SLASH) as [Hsl|].
  { unfold multiple_line_comment_end.
    rewrite (no_comment SLASH STAR rest c _ Hsl (Hs Hsl) eq_refl). done. }
  destruct (Z.eqb_spec c DQUOTE); [done|].
  destruct (Z.eqb_spec c COLON) as [->|]; [|done]. cbn [andb].
  destruct aft; cbn [negb]; [done|]. destruct (Hc eq_refl) as [|Hn]; [done|].
  rewrite parse_no_name by done. by destruct (scan_loop _ _ _ _).
Qed.

Lemma render_cons t ts : render (t :: ts) = render_token t ++ render ts.
Proof. done. Qed.

(** The scanner passes one token. *)
Lemma scan_token fuel t ts last aft :
  token_ok aft last t (render ts) → (length (render_token t) <= fuel)%nat →
  ∃ fuel', (fuel <= fuel' + length (render_token t))%nat ∧
    scan_loop fuel (render_token t ++ render ts) last aft =
    (names ← scan_loop fuel' (render ts) (token_last t) (token_string aft t);
     Ok (binds [t] ++ names)).
Proof.
  assert (∀ r : SqlRes (list chars), (names ← r; Ok ([] ++ names)) = r) as Hid by (by intros []).
  destruct t as [body|q o body|body|body|body|spaces name|c];
    cbn [token_ok render_token token_last token_string]; intros Hok Hf;
    (destruct fuel as [|fuel]; [cbn in Hf; lia|]); cbn [length] in Hf.
  - destruct Hok as (Hq1 & Hq2 & Hs). exists fuel. split; [cbn [length]; lia|].
    cbn [app scan_loop]. rewrite Z.eqb_refl.
    destruct (Z.eqb_spec last 113), (Z.eqb_spec last 81); try done. cbn [orb].
    rewrite <- app_assoc. cbn [app]. rewrite quoted_single by done. symmetry; apply Hid.
  - destruct Hok as (Hq & Ho & Hb). destruct fuel as [|fuel]; [lia|].
    exists fuel. split; [cbn [length]; lia|]. cbn [app].
    rewrite scan_char; [|destruct Hq as [->| ->]; unfold QUOTE, DQUOTE, DASH, SLASH, COLON; lia..].
    assert (is_whitespace q = false) as -> by (destruct Hq as [->| ->]; done). cbn [andb].
    cbn [scan_loop]. rewrite Z.eqb_refl.
    assert ((q =? 113) || (q =? 81) = true) as -> by (destruct Hq as [->| ->]; done).
    unfold qstring_end. rewrite <- app_assoc. cbn [app].
    rewrite qstring_body; [symmetry; apply Hid|by apply close_not_quote|done].
  - exists fuel. split; [cbn [length]; lia|]. cbn [app scan_loop]. change (DASH =? QUOTE) with false.
    change (is_whitespace DASH) with false. rewrite Z.eqb_refl. cbv iota.
    rewrite <- app_assoc. cbn [app]. rewrite line_comment by done. symmetry; apply Hid.
  - exists fuel. split; [cbn [length]; lia|]. cbn [app scan_loop]. change (SLASH =? QUOTE) with false.
    change (is_whitespace SLASH) with false. change (SLASH =? DASH) with false.
    rewrite Z.eqb_refl. cbv iota.
    rewrite <- app_assoc. cbn [app]. rewrite block_comment by done. symmetry; apply Hid.
  - exists fuel. split; [cbn [length]; lia|]. cbn [app scan_loop]. change (DQUOTE =? QUOTE) with false.
    change (is_whitespace DQUOTE) with false. change (DQUOTE =? DASH) with false.
    change (DQUOTE =? SLASH) with false. rewrite Z.eqb_refl. cbv iota.
    rewrite <- app_assoc. cbn [app]. rewrite quoted_double by done. symmetry; apply Hid.
  - destruct Hok as (-> & Hsp & Hn). exists fuel. split; [cbn [length]; lia|]. cbn [app scan_loop].
    change (COLON =? QUOTE) with false. change (is_whitespace COLON) with false.
    change (COLON =? DASH) with false. change (COLON =? SLASH) with false.
    change (COLON =? DQUOTE) with false. rewrite Z.eqb_refl. cbn [negb andb].
    rewrite <- app_assoc, parse_name by done. done.
  - destruct Hok as (Hq & Hdq & Hd & Hs & Hc). exists fuel. split; [cbn [length]; lia|]. cbn [app].
    rewrite scan_char by done. symmetry; apply Hid.
Qed.

Lemma scan_tokens ts : ∀ fuel last aft,
  tokens_ok aft last ts → (length (render ts) <= fuel)%nat →
  scan_loop fuel (render ts) last aft = Ok (binds ts).
Proof.
  induction ts as [|t ts IH]; intros fuel last aft Hok Hf; [by destruct fuel|].
  destruct Hok as [Ht Hts]. rewrite render_cons, length_app in Hf. rewrite render_cons.
  destruct (scan_token fuel t ts last aft Ht) as (fuel' & Hf' & ->); [lia|].
  rewrite IH by (done || lia). st_run. f_equal. by destruct t.
Qed.

(** C6: The bind scanner finds exactly the placeholders of a statement: for every
    sequence of string literals (with doubled quotes), alternatively quoted
    literals, line and block comments, quoted identifiers, placeholders (plain,
    numeric or quoted, with spaces after the colon) and other characters that does
    not run tokens together, it returns the names of the placeholders in order;
    nothing inside a literal, comment or identifier counts, nor the colon that
    follows a literal in a JSON constructor. *)
Theorem scan_bind_names_exact ts :
  tokens_ok false 0 ts → scan_bind_names (render ts) = Ok (binds ts).
Proof. intros H. by apply scan_tokens. Qed.

(** ** Termination *)

Lemma quoted_string_end_shorter quote rest after :
  quoted_string_end quote rest = Ok after → (length after <= length rest)%nat.
Proof.
  enough (∀ n rest, (length rest <= n)%nat → quoted_string_end quote rest = Ok after →
    (length after <= length rest)%nat) as H by by apply (H (length rest)).
  clear rest. induction n as [|n IH]; intros [|c rest] Hn; cbn [quoted_string_end length] in *;
    try done; [lia|].
  destruct (c =? quote).
  - destruct rest as [|d rest]; [intros [= <-]; cbn; lia|].
    cbn [length] in Hn. case_match; [intros Hr%IH; cbn; lia|intros [= <-]; cbn; lia].
  - intros Hr%IH; lia.
Qed.

Lemma qstring_loop_shorter close rest after : ∀ exiting,
  qstring_loop close exiting rest = Ok after → (length after <= length rest)%nat.
Proof.
  induction rest as [|c rest IH]; intros exiting; cbn [qstring_loop length]; [done|].
  repeat case_match; try (intros Hr%IH; lia). intros [= <-]. lia.
Qed.

Lemma qstring_end_shorter rest after : qstring_end rest = Ok after → (length after <= length rest)%nat.
Proof. destruct rest as [|c rest]; [done|]. intros H%qstring_loop_shorter. cbn. lia. Qed.

Lemma string_ends_return rest :
  (∀ quote, returns (quoted_string_end quote rest)) ∧ returns (qstring_end rest).
Proof.
  split.
  - intros quote. enough (∀ n rest, (length rest <= n)%nat → returns (quoted_string_end quote rest))
      as H by by apply (H (length rest)).
    clear rest. induction n as [|n IH]; intros [|c rest] Hn; cbn [quoted_string_end length] in *;
      try done; [lia|]. destruct (c =? quote); [|apply IH; lia].
    destruct rest as [|d rest]; [done|]. cbn [length] in Hn. case_match; [apply IH; lia|done].
  - destruct rest as [|o rest]; [done|]. unfold qstring_end. generalize false as exiting.
    induction rest as [|c rest IH]; intros exiting; cbn [qstring_loop]; [done|].
    repeat case_match; auto; done.
Qed.

Lemma comment_end_shorter rest :
  (length (default (tail rest) (single_line_comment_end rest)) <= length (tail rest))%nat ∧
  (length (default (tail rest) (multiple_line_comment_end rest)) <= length (tail rest))%nat.
Proof.
  unfold single_line_comment_end, multiple_line_comment_end.
  destruct rest as [|c rest]; [done|]. cbn [tail].
  assert (∀ n, (0 < n)%nat → (length (drop n (c :: rest)) <= length rest)%nat) as Hd.
  { intros n Hn. rewrite length_drop. cbn [length]. lia. }
  split; destruct (starts_with _ (c :: rest)); try done;
    destruct (find_str _ _); try (cbn; lia); apply Hd; lia.
Qed.

Lemma parse_bind_name_shorter rest : (length (fst (parse_bind_name rest)) <= length rest)%nat.
Proof.
  unfold parse_bind_name. pose proof (trim_start_length rest) as Ht.
  destruct (trim_start rest) as [|c r]; [cbn; lia|]. cbn [length] in Ht.
  pose proof (λ f, span_length f r) as Hs.
  destruct (c =? DQUOTE).
  - specialize (Hs (λ c, negb (c =? DQUOTE))). destruct (span _ r) as [a [|d b]]; cbn in *; lia.
  - destruct (is_numeric c).
    + specialize (Hs is_numeric). destruct (span _ r); cbn in *; lia.
    + destruct (is_alphabetic c); cbn [negb fst]; [|lia].
      specialize (Hs is_bind_name_char). destruct (span _ r); cbn in *; lia.
Qed.

Lemma scan_bind_names_returns statement : returns (scan_bind_names statement).
Proof.
  unfold scan_bind_names.
  enough (∀ fuel rest last aft, (length rest <= fuel)%nat → returns (scan_loop fuel rest last aft)) as H.
  { by apply H. }
  induction fuel as [|fuel IH]; intros [|c rest] last aft Hf; cbn [length] in Hf; try done; [lia|].
  cbn [scan_loop]. pose proof (comment_end_shorter (c :: rest)) as [Hl Hb]. cbn [tail] in Hl, Hb.
  pose proof (string_ends_return rest) as [Hq Hqs].
  destruct (c =? QUOTE).
  { apply bind_returns; [case_match; [done|apply Hq]|]. intros after Ha. apply IH.
    destruct ((last =? 113) || (last =? 81));
      [apply qstring_end_shorter in Ha|apply quoted_string_end_shorter in Ha]; lia. }
  destruct (is_whitespace c); [apply IH; lia|].
  destruct (c =? DASH); [apply IH; lia|]. destruct (c =? SLASH); [apply IH; lia|].
  destruct (c =? DQUOTE).
  { apply bind_returns; [apply Hq|]. intros after Ha%quoted_string_end_shorter. apply IH. lia. }
  destruct ((c =? COLON) && negb aft); [|apply IH; lia].
  pose proof (parse_bind_name_shorter rest) as Hp. destruct (parse_bind_name rest) as [after name].
  cbn [fst] in Hp. apply bind_returns; [apply IH; lia|done].
Qed.
End Grammar.

(** A statement with every kind of token; four placeholders. *)
Definition sample_tokens : list SqlToken :=
  [TChar 115; TChar 32; TString [97; 39; 58; 98]; TChar 44; TBind [] [97; 49]; TChar 44;
   TQString 113 91 [39; 58; 120]; TChar 44; TIdent [58; 121]; TChar 44; TBind [32] [34; 77; 34];
   TChar 32; TLine [58; 122]; TBlock [58; 119]; TChar 45; TBind [] [49; 50]; TChar 32;
   TString [107]; TChar 32; TChar 58; TChar 53; TChar 44; TBind [] [98]].

Lemma scan_bind_names_exact_witness :
  render sample_tokens =
    txt "s 'a'':b',:a1,q'[':x]'," ++ [34] ++ txt ":y" ++ [34] ++ txt ",: " ++ [34; 77; 34] ++
    txt " --:z" ++ [10] ++ txt "/*:w*/-:12 'k' :5,:b" ∧
  scan_bind_names (render sample_tokens) = Ok [txt "a1"; [34; 77; 34]; txt "12"; txt "b"].
Proof.
  split; [reflexivity|]. apply (scan_bind_names_exact sample_tokens).
  repeat split; cbn; try done; try (intros; discriminate);
    try (left; reflexivity); try (right; reflexivity); try (by vm_compute);
    try apply not_elem_of_pair; try (by repeat constructor).
  - right; right. exists 97, [49]. by repeat constructor.
  - left. exists [77]. split; [reflexivity|]. by apply not_elem_of_single.
  - right; left. exists 49, [50]. by repeat constructor.
  - right; right. exists 98, []. by repeat constructor.
Defined.

(** ** Every analysis returns *)

Lemma find_str_some needle s k : find_str needle s = Some k → starts_with needle (drop k s) = true.
Proof.
  revert k. induction s as [|c s IH]; intros k; cbn [find_str]; destruct (starts_with needle _) eqn:Hs.
  - by intros [= <-].
  - done.
  - by intros [= <-].
  - intros (j & Hj & ->)%fmap_Some. by apply IH.
Qed.

Lemma starts_with_prefix p s : starts_with p s = true → ∃ s', s = p ++ s'.
Proof.
  revert s. induction p as [|c p IH]; intros [|d s]; cbn; try done; try (by eexists).
  intros [->%Z.eqb_eq (s' & ->)%IH]%andb_true_iff. by eexists.
Qed.

(** No [into] starts inside [returning]. *)
Lemma into_after_returning s k p :
  find_str (txt "returning") s = Some p → find_str (txt "into") (drop p s) = Some k → (9 <= k)%nat.
Proof.
  intros (s' & ->)%find_str_some%starts_with_prefix. cbn.
  destruct (find_str _ s') as [j|]; cbn; [|done]. intros [= <-]. lia.
Qed.

(** A match ends inside the text. *)
Lemma find_str_bound needle s k : needle ≠ [] → find_str needle s = Some k → (k + length needle <= length s)%nat.
Proof.
  intros Hn (s' & Hd)%find_str_some%starts_with_prefix. apply (f_equal length) in Hd.
  rewrite length_drop, length_app in Hd. destruct needle; [done|]. cbn [length] in *. lia.
Qed.

Lemma str_from_in {E} s i : (i <= length s)%nat → str_from (E := E) s i = Ok (drop i s).
Proof. intros Hi. unfold str_from. by rewrite (proj2 (Nat.leb_le _ _) Hi). Qed.
Lemma str_range_in {E} s i j : (i <= j)%nat → (j <= length s)%nat → str_range (E := E) s i j = Ok (take (j - i) (drop i s)).
Proof. intros Hi Hj. unfold str_range. by rewrite (proj2 (Nat.leb_le _ _) Hi), (proj2 (Nat.leb_le _ _) Hj). Qed.
Lemma length_lowercase s : length (to_ascii_lowercase s) = length s.
Proof. apply length_map. Qed.

(** The two searches of a RETURNING clause, and where they leave the slices. *)
Lemma returning_positions statement p k :
  find_str (txt "returning") (to_ascii_lowercase statement) = Some p →
  find_str (txt "into") (drop p (to_ascii_lowercase statement)) = Some k →
  (p <= length statement)%nat ∧ (9 <= k)%nat ∧ (p + k + 4 <= length statement)%nat.
Proof.
  intros Hp Hk. pose proof (into_after_returning _ _ _ Hp Hk). apply find_str_bound in Hp; [|done]. apply find_str_bound in Hk; [|done].
  rewrite length_drop, length_lowercase in *. cbn in *. lia.
Qed.

Section Total.
Context {U : Unicode}.

Lemma single_quote_end_shorter rest : (length (single_quote_end rest) <= length rest)%nat.
Proof.
  enough (∀ n rest, (length rest <= n)%nat → (length (single_quote_end rest) <= length rest)%nat) by eauto.
  induction n as [|n IH]; intros [|c [|d r]]; cbn [length single_quote_end]; try lia; intros Hn.
  - destruct (c =? QUOTE); cbn; lia.
  - destruct (c =? QUOTE).
    + destruct (d =? QUOTE); [|cbn; lia]. specialize (IH r). lia.
    + specialize (IH (d :: r)). cbn [length single_quote_end] in IH. lia.
Qed.

Lemma ok_returns {E A} (a : A) : returns (E := E) (Ok a).
Proof. done. Qed.
#[local] Hint Resolve ok_returns scan_bind_names_returns : core.

Lemma replace_loop_returns bind_name replacement : ∀ fuel rest,
  (length rest <= fuel)%nat → returns (replace_loop fuel rest bind_name replacement).
Proof.
  induction fuel as [|fuel IH]; intros [|c rest] Hf; cbn [length] in Hf; try done; [lia|].
  cbn [replace_loop]. pose proof (single_quote_end_shorter rest).
  pose proof (span_length is_bind_name_char rest) as Hs.
  destruct (c =? QUOTE); [apply bind_returns; [apply IH; lia|done]|].
  destruct (c =? COLON); [|apply bind_returns; [apply IH; lia|done]].
  destruct (span _ rest) as [[|n name] after]; cbn [snd] in Hs;
    (apply bind_returns; [apply IH; lia|done]).
Qed.

Lemma assignment_loop_returns statement : ∀ fuel rest names,
  (length rest <= fuel)%nat → returns (assignment_loop fuel statement rest names).
Proof.
  induction fuel as [|fuel IH]; intros [|c rest] names Hf; cbn [length] in Hf; try done; [lia|].
  cbn [assignment_loop]. pose proof (single_quote_end_shorter rest).
  destruct (c =? QUOTE); [case_match; [done|apply IH; lia]|].
  destruct (c =? COLON); [|apply IH; lia].
  destruct rest as [|d rest]; [apply IH; cbn; lia|]. cbn [length] in *.
  destruct (d =? DQUOTE).
  - pose proof (span_length (λ c, negb (c =? DQUOTE)) rest) as Hs.
    destruct (span _ rest) as [a [|e b]]; cbn in Hs; apply IH; cbn; lia.
  - pose proof (span_length is_bind_name_char (d :: rest)) as Hs.
    destruct (span _ (d :: rest)) as [[|n name] b]; cbn in Hs; apply IH; cbn; lia.
Qed.

Lemma keyword_loop_returns statement keyword : ∀ fuel rest last,
  (length rest <= fuel)%nat → returns (keyword_loop fuel statement keyword rest last).
Proof.
  induction fuel as [|fuel IH]; intros [|c rest] last Hf; cbn [length] in Hf; try done; [lia|].
  cbn [keyword_loop]. pose proof (comment_end_shorter (c :: rest)) as [Hl Hb]. cbn [tail] in Hl, Hb.
  pose proof (string_ends_return rest) as [Hq Hqs].
  destruct (c =? QUOTE).
  { apply bind_returns; [case_match; [done|apply Hq]|]. intros after Ha. apply IH.
    destruct ((last =? 113) || (last =? 81));
      [apply qstring_end_shorter in Ha|apply quoted_string_end_shorter in Ha]; lia. }
  destruct (c =? DQUOTE).
  { apply bind_returns; [apply Hq|]. intros after Ha%quoted_string_end_shorter. apply IH. lia. }
  destruct (c =? DASH); [apply IH; lia|]. destruct (c =? SLASH); [apply IH; lia|].
  apply bind_returns; [apply IH; lia|done].
Qed.

(** A keyword is found inside the text. *)
Lemma keyword_loop_bound statement keyword : ∀ fuel rest last positions, keyword_loop fuel statement keyword rest last = Ok positions →
  Forall (λ p, (p + length keyword <= length statement)%nat) positions.
Proof.
  induction fuel as [|fuel IH]; intros [|c rest] last positions; cbn [keyword_loop]; try (by intros [= <-]).
  destruct (c =? QUOTE).
  { rewrite res_bindE. destruct (if (last =? 113) || (last =? 81) then _ else _); [apply IH|done..]. }
  destruct (c =? DQUOTE); [rewrite res_bindE; destruct (quoted_string_end DQUOTE rest); [apply IH|done..]|].
  destruct (c =? DASH); [apply IH|]. destruct (c =? SLASH); [apply IH|].
  rewrite res_bindE. destruct (keyword_loop fuel statement keyword rest c) as [ps| | |] eqn:Hps; [|done..]. intros [= <-].
  apply IH in Hps. destruct (keyword_here _ _ _) eqn:Hk; [|done]. constructor; [|done].
  unfold keyword_here in Hk. rewrite !andb_true_iff in Hk. destruct Hk as [[[Hk _] _] _]. by apply Nat.leb_le in Hk.
Qed.

Lemma fold_res_returns {A B} (f : B → A → SqlRes B) (P : A → Prop) l : (∀ b a, P a → returns (f b a)) → Forall P l →
  ∀ acc, returns (fold_res f acc l).
Proof. intros Hf. induction 1 as [|a l Ha Hl IH]; intros acc; cbn; [done|]. apply bind_returns; auto. Qed.

Lemma unique_bind_names_returns statement : returns (unique_bind_names statement).
Proof. by apply bind_returns. Qed.

Lemma returning_bind_names_returns statement : returns (returning_bind_names statement).
Proof.
  unfold returning_bind_names. destruct (statement_is_plsql statement); [done|].
  destruct (find_str (txt "returning") _) as [p|] eqn:Hp; [|done].
  pose proof (find_str_bound (txt "returning") _ _ ltac:(discriminate) Hp) as Hb. rewrite length_lowercase in Hb.
  rewrite str_from_in, res_bindE by (rewrite length_lowercase; lia).
  destruct (find_str (txt "into") _) as [k|] eqn:Hk; [|done]. destruct (returning_positions _ _ _ Hp Hk) as (_ & _ & ?).
  by rewrite str_from_in, res_bindE by lia.
Qed.

(** The parts of a projection are positions in the text. *)
Lemma projection_parts_returns statement :
  post (λ o, ∀ parts, o = Some parts → (returning_pos parts <= length statement)%nat ∧ (binds_start parts <= length statement)%nat)
    (dml_returning_projection_parts statement).
Proof.
  unfold dml_returning_projection_parts. destruct (statement_is_plsql statement); [done|].
  destruct (find_str (txt "returning") _) as [p|] eqn:Hp; [|done].
  pose proof (find_str_bound (txt "returning") _ _ ltac:(discriminate) Hp) as Hb. rewrite length_lowercase in Hb.
  rewrite str_from_in, res_bindE by (rewrite length_lowercase; lia).
  destruct (find_str (txt "into") _) as [k|] eqn:Hk; [|done]. destruct (returning_positions _ _ _ Hp Hk) as (? & ? & ?).
  rewrite str_range_in, res_bindE by lia. destruct (_ || _); [done|]. rewrite str_from_in, res_bindE by lia.
  pose proof (scan_bind_names_returns (drop (p + k + 4) statement)) as Hscan.
  destruct (scan_bind_names _) as [names| | |]; [|done..]. cbn. intros parts [= <-]. cbn. lia.
Qed.

Lemma into_clause_returns statement names p : (p + 4 <= length statement)%nat → returns (into_clause statement names p).
Proof.
  intros Hp. unfold into_clause. pose proof (span_length is_ascii_whitespace (drop (p + 4) statement)) as Hs.
  pose proof (proj1 (span_spec is_ascii_whitespace (drop (p + 4) statement))) as Ha. destruct (span _ _) as [spaces after]. cbn [fst snd] in *.
  apply (f_equal length) in Ha. rewrite length_app, length_drop in Ha.
  destruct (starts_with _ _); [|done]. rewrite str_from_in, res_bindE by (rewrite length_lowercase; lia).
  set (b := (p + 4 + length spaces)%nat). set (tail := drop b _).
  assert (length tail = (length statement - b)%nat) as Hl by (unfold tail; by rewrite length_drop, length_lowercase).
  assert (∀ needle r, needle ≠ [] → find_str needle tail = Some r → (b + r <= length statement)%nat) as Hf.
  { intros needle r Hn Hr. apply find_str_bound in Hr; [|done]. lia. }
  set (stop := match find_str (txt " from ") tail with
                | Some relative => (b + relative)%nat
                | None => match find_str [SEMICOLON] tail with Some relative => (b + relative)%nat | None => length statement end
                end).
  assert (b <= stop <= length statement)%nat as Hstop.
  { unfold stop. destruct (find_str (txt " from ") tail) as [r|] eqn:E; [apply Hf in E; [lia|done]|].
    destruct (find_str [SEMICOLON] tail) as [r|] eqn:E2; [apply Hf in E2; [lia|done]|]. unfold b. lia. }
  rewrite str_range_in, res_bindE by lia. by apply bind_returns.
Qed.

Lemma returning_clause_returns statement positions names p : Forall (λ q, (q + 4 <= length statement)%nat) positions →
  returns (returning_clause statement positions names p).
Proof.
  intros Hall. unfold returning_clause. destruct (List.find _ positions) as [q|] eqn:Hq; [|done].
  apply find_some in Hq as [Hin _]. rewrite Forall_forall in Hall. specialize (Hall q Hin).
  rewrite str_from_in, res_bindE by lia. set (tail := drop _ _).
  assert (length tail = (length statement - (q + 4))%nat) as Hl by (unfold tail; by rewrite length_drop).
  set (stop := match find_str [SEMICOLON] tail with Some relative => (q + 4 + relative)%nat | None => length statement end).
  assert (q + 4 <= stop <= length statement)%nat as Hstop.
  { unfold stop. destruct (find_str [SEMICOLON] tail) as [r|] eqn:E; [apply find_str_bound in E; [cbn in E; lia|done]|lia]. }
  rewrite str_range_in, res_bindE by lia. by apply bind_returns.
Qed.

Lemma plsql_output_returns statement : returns (plsql_output_bind_names statement).
Proof.
  unfold plsql_output_bind_names, plsql_assignment_bind_names, keyword_token_positions.
  apply bind_returns; [case_match; [done|by apply assignment_loop_returns]|].
  intros names _. case_match; [done|].
  apply bind_returns; [by apply keyword_loop_returns|]. intros into Hinto%keyword_loop_bound.
  apply bind_returns.
  - eapply fold_res_returns; [|exact Hinto]. intros b a. apply into_clause_returns.
  - intros names' _. apply bind_returns; [by apply keyword_loop_returns|]. intros returning _.
    eapply (fold_res_returns _ (λ _, True)); [|by apply list.Forall_true]. intros b a _. by apply returning_clause_returns.
Qed.

(** C37: Every analysis of a statement ends on every text, with its result or with one of the
    two errors for a quote left open.  The positions at which the text is sliced behind a
    keyword (RETURNING, INTO, FROM, a semicolon) are inside the text and in order, also
    where keywords overlap or end it, so that no slice panics. *)
Theorem sql_analysis_total statement bind_name text :
  returns (scan_bind_names statement) ∧ returns (bind_names_per_occurrence statement) ∧
  returns (returning_bind_names statement) ∧ returns (dml_returning_single_bind_name statement) ∧
  returns (rewrite_dml_returning_projection statement text) ∧
  returns (replace_bind_placeholder statement bind_name text) ∧
  returns (replace_input_bind_placeholder statement bind_name text) ∧
  returns (plsql_output_bind_names statement).
Proof.
  pose proof (projection_parts_returns statement) as Hparts.
  unfold bind_names_per_occurrence, dml_returning_single_bind_name, rewrite_dml_returning_projection,
    replace_input_bind_placeholder, replace_bind_placeholder.
  split_and!; auto using returning_bind_names_returns, plsql_output_returns, replace_loop_returns.
  - case_match; auto using unique_bind_names_returns.
  - by destruct (dml_returning_projection_parts statement).
  - destruct (dml_returning_projection_parts statement) as [[parts|]| | |]; try done. rewrite res_bindE.
    destruct (Hparts parts eq_refl) as [H1 H2]. destruct (bind_names parts) as [|n [|]]; [done| |done].
    by rewrite str_range_in, res_bindE, str_from_in by lia.
  - set (split := default _ _). assert (split <= length statement)%nat as Hs.
    { unfold split. destruct (find_str _ _) as [k|] eqn:E; [|done]. apply find_str_bound in E; [|done]. rewrite length_lowercase in E. cbn in *. lia. }
    rewrite str_range_in, res_bindE, str_from_in, res_bindE by lia. by apply bind_returns; [apply replace_loop_returns|].
Qed.

End Total.

(** ** Names *)

Definition same_name (m n : chars) : Prop := bind_names_equal m n = true.

Lemma lowercase_quote c : to_ascii_lower c = DQUOTE ↔ c = DQUOTE.
Proof. unfold to_ascii_lower, ascii_upper, between, DQUOTE. case_match; lia. Qed.

(** The same name up to case, unless one of the two is quoted. *)
Lemma same_name_alt m n :
  same_name m n ↔
  m = n ∨ (is_quoted_bind_name m = false ∧ is_quoted_bind_name n = false ∧
           to_ascii_lowercase m = to_ascii_lowercase n).
Proof.
  unfold same_name, bind_names_equal, eq_ignore_ascii_case.
  destruct (is_quoted_bind_name m) eqn:Hm, (is_quoted_bind_name n) eqn:Hn; cbn [orb];
    rewrite bool_decide_eq_true; naive_solver congruence.
Qed.

#[global] Instance same_name_equivalence : Equivalence same_name.
Proof.
  split.
  - intros m. apply same_name_alt. by left.
  - intros m n. rewrite !same_name_alt. naive_solver.
  - intros m n o. rewrite !same_name_alt. intros [->|(? & ? & ?)] [->|(? & ? & ?)]; [by left|..];
      right; repeat split; congruence.
Qed.

Lemma push_name_spec names name :
  (push_name names name = names ∧ ∃ m, m ∈ names ∧ same_name m name) ∨
  (push_name names name = names ++ [name] ∧ ∀ m, m ∈ names → ¬ same_name m name).
Proof.
  unfold push_name, same_name. destruct (existsb _ names) eqn:He.
  - left. split; [done|]. apply existsb_exists in He as (m & Hm%list_elem_of_In & ?). by exists m.
  - right. split; [done|]. intros m Hm Heq.
    enough (existsb (λ e, bind_names_equal e name) names = true) by congruence.
    apply existsb_exists. exists m. by rewrite <- list_elem_of_In.
Qed.

(** No two entries name the same bind. *)
Definition distinct_names (names : list chars) : Prop := ForallOrdPairs (λ m n, ¬ same_name m n) names.

Lemma distinct_snoc names name :
  distinct_names names → (∀ m, m ∈ names → ¬ same_name m name) → distinct_names (names ++ [name]).
Proof.
  unfold distinct_names. intros Hd Hn. induction Hd as [|m names Hm Hd IH]; cbn; [by repeat constructor|].
  constructor.
  - apply Forall_app. split; [done|]. constructor; [|done]. apply Hn. by left.
  - apply IH. intros o Ho. apply Hn. by right.
Qed.

Lemma push_names_spec new : ∀ names, distinct_names names →
  distinct_names (push_names names new) ∧
  (∃ added, push_names names new = names ++ added ∧ sublist added new) ∧
  (∀ n, n ∈ names ++ new → ∃ m, m ∈ push_names names new ∧ same_name m n).
Proof.
  unfold push_names. induction new as [|name new IH]; intros names Hd; cbn [foldl].
  { split; [done|]. split; [exists []; by rewrite app_nil_r|].
    rewrite app_nil_r. intros n Hn. exists n. split; [done|reflexivity]. }
  destruct (push_name_spec names name) as [[-> (m & Hm & Hmn)]|[-> Hn]].
  - destruct (IH names Hd) as (? & (added & Heq & Hsub) & Hrep). rewrite Heq in *. split; [done|]. split.
    + exists added. split; [done|]. by constructor.
    + intros n [Hin|[->|Hin]%elem_of_cons]%elem_of_app.
      * apply Hrep. apply elem_of_app. by left.
      * exists m. split; [apply elem_of_app; by left|done].
      * apply Hrep. apply elem_of_app. by right.
  - destruct (IH _ (distinct_snoc _ _ Hd Hn)) as (? & (added & Heq & Hsub) & Hrep). rewrite Heq in *. split; [done|]. split.
    + exists (name :: added). rewrite <- app_assoc. split; [done|]. by constructor.
    + intros n Hin. apply Hrep. by rewrite <- app_assoc.
Qed.

Section Unique.
Context {U : Unicode}.

(** The names reported for a statement are one per bind: scanned names in
    statement order, no two of them the same bind (equal up to ASCII case, or
    identical when quoted), every placeholder represented. *)
Theorem unique_bind_names_exact statement :
  match scan_bind_names statement, unique_bind_names statement with
  | Ok names, Ok unique =>
      sublist unique names ∧ distinct_names unique ∧
      ∀ n, n ∈ names → ∃ m, m ∈ unique ∧ same_name m n
  | Err e, Err e' => e = e'
  | _, _ => False
  end.
Proof.
  pose proof (scan_bind_names_returns statement) as Hr.
  unfold unique_bind_names. destruct (scan_bind_names statement) as [names|e| |]; cbn; try done.
  destruct (push_names_spec names [] (FOP_nil _)) as (Hd & (added & Heq & Hsub) & Hrep).
  rewrite Heq in *. cbn [app] in *. by split_and!.
Qed.

End Unique.

(** ** Searches that do not tokenize *)

(** [returning_bind_names] searches the lower-cased text for [returning] and
    [into] and scans from there, so a statement whose literals hold both words is
    refused for an open quote although the scanner accepts it, and
    [replace_bind_placeholder], which does not know alternatively quoted literals,
    rewrites text inside one while leaving the placeholder after it. *)
Theorem text_search_in_literals :
  let insert := txt "insert into t values ('returning money', 'put into', :a)" in
  let select := txt "select q'[it's :a]', :a from dual" in
  scan_bind_names insert = Ok [txt "a"] ∧
  returning_bind_names insert = Err MissingEndingSingleQuote ∧
  scan_bind_names select = Ok [txt "a"] ∧
  replace_bind_placeholder select (txt "a") (txt ":x") =
    Ok (txt "select q'[it's :x]', :a from dual").
Proof. by vm_compute. Qed.
