(* ===== verification/Retry.v ===== *)
(** * The retry executor ([oracledb/src/retry.rs])

    The policy is pure ([decide], [backoff_for]).  The loop [run_inner] is run
    against an environment that decides what each attempt of the operation, each
    reconnect and each cancellation checkpoint yields; everything the loop does, the
    checkpoints and the polls of a sleep's timer included, is logged in order.  A [Duration] is its number of nanoseconds. *)

From S2P Require Import Prelude.
From S2P Require Import Protocol.
From S2P Require Import DriverError.
From S2P Require Import Sql.

Inductive Idempotency := Idempotent | NonIdempotent.

#[global] Instance Idempotency_eq_dec : EqDecision Idempotency.
Proof. solve_decision. Defined.

(** [Idempotency::classify_sql] *)
Definition classify_sql (sql : chars) : Idempotency :=
  if eq_ignore_ascii_case (first_keyword sql) (txt "select") then Idempotent else NonIdempotent.

Inductive RetryAction :=
| Surface
| RetrySameConnection (backoff : Z)
| ReconnectThenRetry (backoff : Z).

Definition DURATION_MAX : Z := U64_MAX * 1000000000 + 999999999.

Record RetryPolicy := mkRetryPolicy {
  max_retries : Z;
  base_backoff : Z;
  max_backoff : Z
}.

(** [RetryPolicy::default] and [RetryPolicy::none] *)
Definition policy_default : RetryPolicy := mkRetryPolicy 3 50000000 2000000000.
Definition policy_none : RetryPolicy := mkRetryPolicy 0 0 0.

Definition policy_ok (p : RetryPolicy) : Prop :=
  0 <= max_retries p <= U32_MAX ∧ 0 <= base_backoff p <= DURATION_MAX ∧
  0 <= max_backoff p <= DURATION_MAX.

(** [RetryPolicy::backoff_for] *)
Definition backoff_for (p : RetryPolicy) (attempts_made : Z) : Z :=
  if base_backoff p =? 0 then 0
  else
    let shift := Z.min (sat_sub attempts_made 1) 31 in
    let scaled :=
      match try_range 0 DURATION_MAX (base_backoff p * Z.shiftl 1 shift) with
      | Some d => d
      | None => max_backoff p
      end in
    Z.min scaled (max_backoff p).

Section Retry.
Context {P T : Type}.

(** [RetryPolicy::decide] *)
Definition decide_action (p : RetryPolicy) (err : Error P) (idempotency : Idempotency)
  (attempts_made : Z) : RetryAction :=
  match idempotency with
  | NonIdempotent => Surface
  | Idempotent =>
      if max_retries p <? attempts_made then Surface
      else
        let backoff := backoff_for p attempts_made in
        match retry_hint err with
        | Never => Surface
        | RetrySameConnectionIfIdempotent => RetrySameConnection backoff
        | ReconnectThenRetryIfIdempotent => ReconnectThenRetry backoff
        end
  end.

(** ** The environment and the log *)

Inductive LogEntry :=
| LAttempt (outcome : Error P + T)
| LSleep (backoff : Z)
| LReconnect (outcome : Error P + ())
| LCheck (cancelled : option (Error P))
| LPoll (ready : bool).

(** What the attempts and reconnects return, what each cancellation checkpoint
    sees, and how often the timer of a sleep is polled before it is due. *)
Record Env := mkEnv {
  env_op : nat → Error P + T;
  env_cx : nat → Cx;
  env_polls : nat → nat;
  env_reconnect : nat → Error P + ()
}.

Record Run := mkRun {
  r_checks : nat;
  r_log : list LogEntry
}.

Abbreviation RunM := (ST (Error P) Run).

Definition log (entry : LogEntry) : RunM () :=
  modify (λ r, mkRun (r_checks r) (r_log r ++ [entry])).

Definition attempts (l : list LogEntry) : list (Error P + T) :=
  omap (λ e, match e with LAttempt o => Some o | _ => None end) l.
Definition reconnects (l : list LogEntry) : list (Error P + ()) :=
  omap (λ e, match e with LReconnect o => Some o | _ => None end) l.
Definition sleeps (l : list LogEntry) : list Z :=
  omap (λ e, match e with LSleep d => Some d | _ => None end) l.

Context (env : Env).

(** One checkpoint: [observe_cancellation_between_round_trips]. *)
Definition checkpoint : RunM () := λ r,
  let seen := observe_cancellation_between_round_trips (env_cx env (r_checks r)) in
  (seen, mkRun (S (r_checks r)) (r_log r ++ [LCheck (match seen with Err e => Some e | _ => None end)])).

(** The polls of [backoff_sleep]'s timer, a checkpoint before each. *)
Fixpoint poll_timer (n : nat) : RunM () :=
  _ ← checkpoint;
  match n with
  | O => log (LPoll true)
  | S n => _ ← log (LPoll false); poll_timer n
  end.

Definition backoff_sleep (backoff : Z) : RunM () :=
  _ ← checkpoint;
  if backoff =? 0 then mret ()
  else
    _ ← log (LSleep backoff);
    polls ← gets (λ r, env_polls env (length (sleeps (r_log r))));
    _ ← poll_timer polls;
    checkpoint.

(** [op().await]: the next attempt. *)
Definition attempt : RunM (Error P + T) := λ r,
  let o := env_op env (length (attempts (r_log r))) in
  (Ok o, mkRun (r_checks r) (r_log r ++ [LAttempt o])).

(** The trait [ReconnectHook]: [NoReconnect] answers [Ok(false)]. *)
Inductive Hook := NoReconnect | Reconnect.

Definition reconnect (h : Hook) : RunM bool :=
  match h with
  | NoReconnect => mret false
  | Reconnect => λ r,
      let o := env_reconnect env (length (reconnects (r_log r))) in
      (match o with inl e => Err e | inr _ => Ok true end,
       mkRun (r_checks r) (r_log r ++ [LReconnect o]))
  end.

(** The loop of [run_inner]. *)
Fixpoint run_loop (fuel : nat) (p : RetryPolicy) (idempotency : Idempotency) (hook : Hook)
  (attempts_made : Z) : RunM T :=
  match fuel with
  | O => lift Diverge
  | S fuel =>
      _ ← checkpoint;
      o ← attempt;
      match o with
      | inr value => mret value
      | inl err =>
          attempts_made ← lift (arith 0 U32_MAX (attempts_made + 1));
          match decide_action p err idempotency attempts_made with
          | Surface => throw err
          | RetrySameConnection backoff =>
              _ ← backoff_sleep backoff;
              run_loop fuel p idempotency hook attempts_made
          | ReconnectThenRetry backoff =>
              _ ← backoff_sleep backoff;
              reconnected ← reconnect hook;
              if (reconnected : bool) then run_loop fuel p idempotency hook attempts_made
              else throw err
          end
      end
  end.

(** [run_inner]: at most [max_retries + 1] attempts, so one round more is fuel
    enough. *)
Definition run_inner (p : RetryPolicy) (idempotency : Idempotency) (hook : Hook)
  : Result (Error P) T * Run :=
  run_loop (Z.to_nat (max_retries p) + 2) p idempotency hook 0 (mkRun 0 []).

(** [run_with_retry] and [run_with_retry_reconnecting] *)
Definition run_with_retry (p : RetryPolicy) (idempotency : Idempotency) :=
  run_inner p idempotency NoReconnect.
Definition run_with_retry_reconnecting (p : RetryPolicy) (idempotency : Idempotency) :=
  run_inner p idempotency Reconnect.

End Retry.
Arguments Env : clear implicits.
Arguments LogEntry : clear implicits.
Arguments Run : clear implicits.

(** ** What a run may look like

    [legal p i h n log res]: after [n] failed attempts, the loop may attempt, sleep and
    reconnect as [log] says and return [res].  Where it looks for a cancellation is a
    matter of its own ([watch]). *)
Section Contract.
Context {P T : Type}.

Definition is_cancellation (e : Error P) : Prop :=
  ∃ cx, observe_cancellation_between_round_trips cx = Err e.

Definition slept (backoff : Z) : list (LogEntry P T) :=
  if backoff =? 0 then [] else [LSleep backoff].

(** What the loop does to the world, as against what it looks at. *)
Definition deeds (l : list (LogEntry P T)) : list (LogEntry P T) :=
  omap (λ x, match x with LCheck _ | LPoll _ => None | _ => Some x end) l.

(** The caller's view of a run.  The loop is [Armed] when the last thing it did was to find
    that it is not cancelled; whatever it does takes it back to [Idle]; a cancellation that
    it finds stops it for good.  An attempt, a sleep, a poll or a reconnect that is not
    armed has no next state. *)
Inductive Watch := Idle | Armed | Stopped (e : Error P).

Definition watch_step (w : Watch) (x : LogEntry P T) : option Watch :=
  match w, x with
  | Stopped _, _ => None
  | _, LCheck (Some e) => Some (Stopped e)
  | _, LCheck None => Some Armed
  | Armed, _ => Some Idle
  | Idle, _ => None
  end.

Fixpoint watch (w : Watch) (l : list (LogEntry P T)) : option Watch :=
  match l with
  | [] => Some w
  | x :: l => w ← watch_step w x; watch w l
  end.

Definition running (w : Watch) : Prop := match w with Stopped _ => False | _ => True end.

Lemma watch_app l : ∀ w l' w1, watch w l = Some w1 → watch w (l ++ l') = watch w1 l'.
Proof.
  induction l as [|x l IH]; intros w l' w1; cbn; [by intros [= ->]|].
  destruct (watch_step w x) as [w2|]; cbn; [apply IH|done].
Qed.

Lemma deeds_app l l' : deeds (l ++ l') = deeds l ++ deeds l'.
Proof. apply omap_app. Qed.

(** The attempts, reconnects and sleeps of a log are those of its deeds. *)
Lemma deeds_same l :
  attempts (deeds l) = attempts l ∧ reconnects (deeds l) = reconnects l ∧ sleeps (deeds l) = sleeps l.
Proof.
  induction l as [|x l (IH1 & IH2 & IH3)]; [done|]. unfold attempts, reconnects, sleeps, deeds in *.
  destruct x; cbn; by rewrite ?IH1, ?IH2, ?IH3.
Qed.

Context (p : RetryPolicy) (i : Idempotency) (h : Hook).

Inductive legal : Z → list (LogEntry P T) → Result (Error P) T → Prop :=
| legal_cancelled n e : is_cancellation e → legal n [] (Err e)
| legal_done n v : legal n [LAttempt (inr v)] (Ok v)
| legal_surface n e :
    decide_action p e i (n + 1) = Surface → legal n [LAttempt (inl e)] (Err e)
| legal_cancelled_waiting n e e' l :
    decide_action p e i (n + 1) ≠ Surface → l = [] ∨ l = slept (backoff_for p (n + 1)) →
    is_cancellation e' → legal n (LAttempt (inl e) :: l) (Err e')
| legal_retry n e b l res :
    decide_action p e i (n + 1) = RetrySameConnection b → legal (n + 1) l res →
    legal n (LAttempt (inl e) :: slept b ++ l) res
| legal_cannot_reconnect n e b :
    decide_action p e i (n + 1) = ReconnectThenRetry b → h = NoReconnect →
    legal n (LAttempt (inl e) :: slept b) (Err e)
| legal_reconnect_failed n e e' b :
    decide_action p e i (n + 1) = ReconnectThenRetry b → h = Reconnect →
    legal n (LAttempt (inl e) :: slept b ++ [LReconnect (inl e')]) (Err e')
| legal_reconnected n e b l res :
    decide_action p e i (n + 1) = ReconnectThenRetry b → h = Reconnect → legal (n + 1) l res →
    legal n (LAttempt (inl e) :: slept b ++ LReconnect (inr ()) :: l) res.

(** The decision, inverted. *)
Lemma decide_retries (e : Error P) n :
  decide_action p e i n ≠ Surface →
  i = Idempotent ∧ n <= max_retries p ∧ retry_hint e ≠ Never ∧
  (decide_action p e i n = RetrySameConnection (backoff_for p n) ∨
   decide_action p e i n = ReconnectThenRetry (backoff_for p n) ∧
   retry_hint e = ReconnectThenRetryIfIdempotent).
Proof.
  unfold decide_action. destruct i; [|done]. destruct (Z.ltb_spec (max_retries p) n); [done|].
  destruct (retry_hint e); [done|..]; intros _; (split; [done|split; [lia|split; [done|auto]]]).
Qed.

Lemma attempts_cons o (l : list (LogEntry P T)) :
  attempts (LAttempt o :: l) = o :: attempts l ∧ reconnects (LAttempt o :: l) = reconnects l.
Proof. done. Qed.
Lemma reconnects_cons o (l : list (LogEntry P T)) :
  reconnects (LReconnect o :: l) = o :: reconnects l ∧ attempts (LReconnect o :: l) = attempts l.
Proof. done. Qed.
Lemma attempts_slept b l : attempts (slept b ++ l) = attempts l.
Proof. unfold slept. by destruct (b =? 0). Qed.
Lemma reconnects_slept b l : reconnects (slept b ++ l) = reconnects l.
Proof. unfold slept. by destruct (b =? 0). Qed.
Lemma attempts_slept_only b : attempts (slept b) = [].
Proof. unfold slept. by destruct (b =? 0). Qed.
Lemma reconnects_slept_only b : reconnects (slept b) = [].
Proof. unfold slept. by destruct (b =? 0). Qed.

(** A run is a list of replayed failures, each of which asked for it, and one
    attempt at most that ends it. *)
Definition replayed (n : Z) (k : nat) (o : Error P + T) : Prop :=
  ∃ e, o = inl e ∧ i = Idempotent ∧ n + Z.of_nat k + 1 <= max_retries p ∧ retry_hint e ≠ Never.

Definition run_shape (n : Z) (l : list (LogEntry P T)) (res : Result (Error P) T) : Prop :=
  (∀ k o, attempts l !! k = Some o → (S k < length (attempts l))%nat → replayed n k o) ∧
  (∀ v, res = Ok v ↔ list.last (attempts l) = Some (inr v)) ∧
  (reconnects l ≠ [] → i = Idempotent ∧ h = Reconnect) ∧
  (length (reconnects l) <= length (attempts l))%nat ∧
  returns res.

Lemma run_shape_step n e l l' res :
  replayed n 0 (inl e) →
  attempts l' = inl e :: attempts l → reconnects l' = reconnects l ∨
    (h = Reconnect ∧ reconnects l' = inr () :: reconnects l) →
  run_shape (n + 1) l res → run_shape n l' res.
Proof.
  intros Hr Ha Hc (H1 & H2 & H3 & H4 & H5).
  assert (i = Idempotent) by by destruct Hr as (?&?&?&?).
  unfold run_shape. rewrite Ha. repeat split.
  - intros [|k] o Hk Hlen; cbn in Hk, Hlen; [by injection Hk as <-|].
    destruct (H1 k o Hk) as (e' & -> & ? & ? & ?); [lia|]. exists e'. repeat split; try done. lia.
  - intros Hv%H2. by destruct (attempts l).
  - intros Hv. apply H2. by destruct (attempts l).
  - done.
  - destruct Hc as [Hc|[? ?]]; [|done]. by apply H3; rewrite <- Hc.
  - cbn. destruct Hc as [->|[_ ->]]; cbn; lia.
  - done.
Qed.

Lemma legal_shape n l res : legal n l res → run_shape n l res.
Proof.
  induction 1 as [n e|n v|n e|n e e' l Hd Hl|n e b l res Hd _ IH|n e b Hd|n e e' b Hd Hh
                 |n e b l res Hd Hh _ IH].
  - repeat split; cbn; done || lia.
  - repeat split; cbn; try (done || lia); congruence.
  - repeat split; cbn; try (done || lia).
  - assert (attempts l = [] ∧ reconnects l = []) as [Ha Hc].
    { destruct Hl as [->| ->]; [done|]. by rewrite attempts_slept_only, reconnects_slept_only. }
    unfold run_shape. rewrite (proj1 (attempts_cons _ l)), (proj2 (attempts_cons _ l)), Ha, Hc.
    repeat split; cbn; try (done || lia).

  - apply (run_shape_step n e l); [|by rewrite (proj1 (attempts_cons _ _)), attempts_slept|
      left; by rewrite (proj2 (attempts_cons _ _)), reconnects_slept|done].
    destruct (decide_retries e (n + 1)) as (? & ? & ? & _); [by rewrite Hd|].
    exists e. repeat split; try done. lia.
  - unfold run_shape.
    rewrite (proj1 (attempts_cons _ _)), (proj2 (attempts_cons _ _)), attempts_slept_only, reconnects_slept_only.
    repeat split; cbn; try (done || lia).
  - destruct (decide_retries e (n + 1)) as (? & _); [by rewrite Hd|].
    unfold run_shape.
    rewrite (proj1 (attempts_cons _ _)), (proj2 (attempts_cons _ _)), attempts_slept, reconnects_slept.
    repeat split; cbn; try (done || lia).
  - apply (run_shape_step n e l); [|by rewrite (proj1 (attempts_cons _ _)), attempts_slept|
      right; by rewrite (proj2 (attempts_cons _ _)), reconnects_slept|done].
    destruct (decide_retries e (n + 1)) as (? & ? & ? & _); [by rewrite Hd|].
    exists e. repeat split; try done. lia.
Qed.

(** Nothing is waited for when nothing may be replayed. *)
Lemma legal_quiet n l res : legal n l res → i = NonIdempotent → sum_by id (sleeps l) = 0.
Proof.
  assert (∀ (e : Error P) m, i = NonIdempotent → decide_action p e i m = Surface) as Hd.
  { intros e m ->. done. }
  intros Hl Hi. destruct Hl; try done; exfalso; specialize (Hd e (n + 1) Hi); congruence.
Qed.

(** The number of attempts a legal run makes. *)
Lemma legal_attempts n l res :
  legal n l res → 0 <= n →
  Zlen (attempts l) <= 1 + match i with Idempotent => Z.max 0 (max_retries p - n) | NonIdempotent => 0 end.
Proof.
  intros Hl Hn. apply legal_shape in Hl as (H1 & _).
  destruct (attempts l) as [|o [|o' os]] eqn:Ha; [unfold Zlen; cbn; destruct i; lia..|].
  set (m := length os). assert (length (attempts l) = S (S m)) as Hm by by rewrite Ha.
  assert (is_Some ((o :: o' :: os) !! m)) as [x Hx] by (apply lookup_lt_is_Some; cbn; lia).
  destruct (H1 m x Hx) as (e & _ & -> & Hle & _); [cbn; lia|].
  unfold Zlen. cbn [length]. fold m. lia.
Qed.
End Contract.

Section Refinement.
Context {P T : Type} (env : Env P T).

(** A step that does [d]: it goes on and leaves the caller's view at [w], or it stops at a
    cancellation, having done [d] or nothing. *)
Definition goes (pre : Watch → Prop) (m : ST (Error P) (Run P T) ()) (d : list (LogEntry P T)) (w : Watch) : Prop :=
  ∀ r w0, pre w0 → ∃ c l,
    (m r = (Ok (), mkRun c (r_log r ++ l)) ∧ deeds l = d ∧ watch w0 l = Some w ∨
     ∃ e, m r = (Err e, mkRun c (r_log r ++ l)) ∧ is_cancellation e ∧
          (deeds l = [] ∨ deeds l = d) ∧ watch w0 l = Some (Stopped e)).

Lemma checkpoint_cases r : ∃ c,
  checkpoint env r = (Ok (), mkRun c (r_log r ++ [LCheck None])) ∨
  ∃ e, checkpoint env r = (Err e, mkRun c (r_log r ++ [LCheck (Some e)])) ∧ is_cancellation e.
Proof.
  exists (S (r_checks r)). unfold checkpoint, observe_cancellation_between_round_trips.
  destruct (cx_checkpoint_ok (env_cx env (r_checks r))) eqn:Hc; [by left|right].
  eexists. split; [reflexivity|]. exists (env_cx env (r_checks r)).
  unfold observe_cancellation_between_round_trips. by rewrite Hc.
Qed.

Lemma checkpoint_goes : goes running (checkpoint env) [] Armed.
Proof.
  intros r w0 Hw. destruct (checkpoint_cases r) as (c & [Hc|(e & Hc & He)]); exists c; eexists; [left|right].
  - split; [exact Hc|]. split; [done|]. by destruct w0.
  - exists e. split; [exact Hc|]. split; [done|]. split; [by left|by destruct w0].
Qed.

Lemma log_goes x : (∀ c, x ≠ LCheck c) → goes (eq Armed) (log x) (deeds [x]) Idle.
Proof. intros Hx r w0 <-. eexists _, [x]. left. split; [reflexivity|]. split; [done|]. by destruct x as [| | |[]|]; try destruct (Hx _ eq_refl). Qed.

Lemma goes_bind pre m1 d1 w1 m2 d2 w2 :
  d1 = [] ∨ d2 = [] → goes pre m1 d1 w1 → goes (eq w1) m2 d2 w2 → goes pre (m1 ≫= λ _, m2) (d1 ++ d2) w2.
Proof.
  intros Hd H1 H2 r w0 Hw. rewrite st_bindE.
  destruct (H1 r w0 Hw) as (c & l & [(-> & Hl & Hw1)|(e & -> & He & Hl & Hs)]).
  - destruct (H2 (mkRun c (r_log r ++ l)) w1 eq_refl) as (c' & l' & H). exists c', (l ++ l'). cbn [r_log] in H.
    rewrite app_assoc, deeds_app, Hl, (watch_app _ _ _ _ Hw1).
    destruct H as [(-> & -> & ->)|(e & -> & He & Hl' & ->)]; [by left|right].
    exists e. split; [done|]. split; [done|]. split; [|done].
    destruct Hd as [-> | ->], Hl' as [-> | ->]; rewrite ?app_nil_r; auto.
  - exists c, l. right. exists e. split; [done|]. split; [done|]. split; [|done].
    destruct Hd as [-> | ->], Hl as [-> | ->]; rewrite ?app_nil_r; auto.
Qed.

Lemma goes_weaken (pre pre' : Watch → Prop) m d w : (∀ x, pre' x → pre x) → goes pre m d w → goes pre' m d w.
Proof. intros H Hm r w0 Hw. by apply Hm, H. Qed.

Lemma poll_timer_goes n : goes running (poll_timer env n) [] Idle.
Proof.
  induction n as [|n IH]; cbn [poll_timer]; (eapply (goes_bind _ _ [] _ _ []); [by left|apply checkpoint_goes|]).
  - by apply (log_goes (LPoll true)).
  - eapply (goes_bind _ _ [] _ _ []); [by left|by apply (log_goes (LPoll false))|].
    eapply goes_weaken, IH. by intros _ <-.
Qed.

Lemma backoff_sleep_goes b : goes running (backoff_sleep env b) (slept b) Armed.
Proof.
  unfold backoff_sleep, slept. apply (goes_bind _ _ [] Armed); [by left|apply checkpoint_goes|].
  destruct (b =? 0); [intros r w0 <-; exists (r_checks r), []; left; rewrite app_nil_r; by destruct r|].
  apply (goes_bind _ _ [LSleep b] Idle _ []); [by right|by apply (log_goes (LSleep b))|].
  intros r w0 <-. rewrite st_bindE. cbn beta iota.
  apply (goes_bind running _ [] Idle _ [] Armed); [by left|apply poll_timer_goes| |done].
  eapply goes_weaken, checkpoint_goes. by intros _ <-.
Qed.

(** Why a run gave up on the failure of its last attempt, the [n]-th in all. *)
Definition gave_up (p : RetryPolicy) (i : Idempotency) (h : Hook) (e : Error P) (n : Z) : Prop :=
  i = NonIdempotent ∨ max_retries p < n ∨ retry_hint e = Never ∨
  retry_hint e = ReconnectThenRetryIfIdempotent ∧ h = NoReconnect.

(** The run [l] with result [res], seen from outside: every step was armed, the error is a
    cancellation exactly when the run was stopped, and otherwise it is the failure of the
    last reconnect or of the last attempt. *)
Definition watched p i h (n : Z) (w0 : Watch) (l : list (LogEntry P T)) (res : Result (Error P) T) : Prop :=
  ∃ w, watch w0 l = Some w ∧ (∀ e, w = Stopped e → res = Err e) ∧
  ∀ e, res = Err e → w = Stopped e ∨ list.last (reconnects l) = Some (inl e) ∨
    list.last (attempts l) = Some (inl e) ∧ gave_up p i h e (n + Zlen (attempts l)).

Lemma last_more {A} (l l' : list A) x : list.last l' = Some x → list.last (l ++ l') = Some x.
Proof. intros H. rewrite list.last_app. by rewrite H. Qed.

Lemma watched_after p i h n w0 w1 l1 l e res :
  watch w0 l1 = Some w1 → attempts l1 = [inl e] → watched p i h (n + 1) w1 l res → watched p i h n w0 (l1 ++ l) res.
Proof.
  intros Hw Ha (w & Hl & Hs & He). exists w. rewrite (watch_app _ _ _ _ Hw). split; [done|]. split; [done|].
  intros e' Hr. destruct (He e' Hr) as [?|[Hc|[Hc Hg]]]; [by left|right; left|right; right].
  - unfold reconnects. rewrite omap_app. by apply last_more.
  - unfold attempts in *. rewrite omap_app, Ha. split; [by apply last_more|].
    rewrite Zlen_app. unfold Zlen at 1. cbn [length]. by rewrite Z.add_assoc.
Qed.

Lemma decide_gave_up p i h (e : Error P) n : decide_action p e i n = Surface → gave_up p i h e n.
Proof.
  unfold decide_action, gave_up. destruct i; [|by left]. destruct (Z.ltb_spec (max_retries p) n); [by auto|].
  destruct (retry_hint e); [by auto|done..].
Qed.

(** Only the attempt is an attempt of what the waiting adds to it. *)
Lemma attempted (err : Error P) (l : list (LogEntry P T)) b :
  deeds l = slept b → attempts (LCheck None :: LAttempt (inl err) :: l) = [inl err].
Proof.
  intros Hl. destruct (deeds_same l) as (Ha & _). rewrite Hl, attempts_slept_only in Ha.
  unfold attempts in *. cbn. by rewrite <- Ha.
Qed.

(** How the loop ends. *)
Definition ends p i h n w0 (m : ST (Error P) (Run P T) T) r : Prop :=
  ∃ c l res, m r = (res, mkRun c (r_log r ++ l)) ∧ legal p i h n (deeds l) res ∧ watched p i h n w0 l res.

(** Waiting after a failed attempt that is to be repeated: cancelled, or on to [k]. *)
Lemma after_sleep p i h n err (k : ST (Error P) (Run P T) T) c l0 w0 :
  decide_action p err i (n + 1) ≠ Surface → running w0 →
  let b := backoff_for p (n + 1) in
  (∀ c l, deeds l = slept b → watch Idle l = Some Armed → ∃ c' l' res,
     k (mkRun c (l0 ++ LCheck None :: LAttempt (inl err) :: l))
       = (res, mkRun c' ((l0 ++ LCheck None :: LAttempt (inl err) :: l) ++ l')) ∧
     legal p i h n (LAttempt (inl err) :: slept b ++ deeds l') res ∧
     watched p i h n w0 ((LCheck None :: LAttempt (inl err) :: l) ++ l') res) →
  ∃ c' l res,
    (backoff_sleep env b ≫= λ _, k) (mkRun c (l0 ++ [LCheck None; LAttempt (inl err)]))
      = (res, mkRun c' (l0 ++ l)) ∧ legal p i h n (deeds l) res ∧ watched p i h n w0 l res.
Proof.
  intros Hd Hw0 b Hk.
  destruct (backoff_sleep_goes b (mkRun c (l0 ++ [LCheck None; LAttempt (inl err)])) Idle I)
    as (c2 & l & [(Hs & Hl & Hw)|(e & Hs & He & Hl & Hw)]); st_run; rewrite Hs; cbn [r_log]; cbn beta iota;
    rewrite <- app_assoc; cbn [app].
  - destruct (Hk c2 l Hl Hw) as (c' & l' & res & Heq & Hlegal & Hwatch).
    exists c', ((LCheck None :: LAttempt (inl err) :: l) ++ l'), res.
    rewrite Heq, <- app_assoc. split; [done|]. split; [|done]. rewrite deeds_app.
    change (deeds (LCheck None :: LAttempt (inl err) :: l)) with (LAttempt (T := T) (inl err) :: deeds l).
    by rewrite Hl.
  - exists c2, ([LCheck None; LAttempt (inl err)] ++ l), (Err e). split; [done|]. split.
    + apply (legal_cancelled_waiting p i h n err e (deeds l)); auto.
    + exists (Stopped e). rewrite (watch_app _ _ _ Idle) by by destruct w0. split; [done|]. split; [by intros ? [= <-]|].
      intros e' [= <-]. by left.
Qed.

Lemma run_loop_ends p i h : ∀ fuel n r w0,
  running w0 → 0 <= n <= max_retries p → max_retries p < U32_MAX → max_retries p - n + 1 < Z.of_nat fuel →
  ends p i h n w0 (run_loop env fuel p i h n) r.
Proof.
  induction fuel as [|fuel IH]; intros n r w0 Hw0 Hn HU Hf; [lia|]. unfold ends. cbn [run_loop].
  destruct (checkpoint_cases r) as (c & [Hc|(e & Hc & He)]); rewrite st_bindE, Hc; cbn beta iota.
  2: { exists c, [LCheck (Some e)], (Err e). split; [done|]. split; [by apply legal_cancelled|].
       exists (Stopped e). split; [by destruct w0|]. split; [by intros ? [= <-]|]. intros e' [= <-]. by left. }
  rewrite st_bindE. unfold attempt. cbn [r_checks r_log]. set (o := env_op env _). rewrite <- app_assoc. cbn [app].
  destruct o as [err|v].
  2: { exists c, [LCheck None; LAttempt (inr v)], (Ok v). split; [done|]. split; [constructor|].
       exists Idle. split; [by destruct w0|]. done. }
  rewrite arith_in by lia. rewrite st_bindE, liftE. cbn beta iota.
  destruct (decide_action p err i (n + 1)) as [|b|b] eqn:Hd.
  { exists c, [LCheck None; LAttempt (inl err)], (Err err). split; [done|]. split; [by apply legal_surface|].
    exists Idle. split; [by destruct w0|]. split; [done|]. intros e [= <-]. right; right.
    split; [done|]. by apply decide_gave_up. }
  all: destruct (decide_retries p i err (n + 1)) as (_ & Hb & _ & Hact); [by rewrite Hd|].
  all: assert (b = backoff_for p (n + 1)) as -> by (destruct Hact as [Ha|[Ha _]]; congruence).
  all: apply after_sleep; [by rewrite Hd|done|]; intros c2 l Hl Hw.
  - destruct (IH (n + 1) (mkRun c2 (r_log r ++ LCheck None :: LAttempt (inl err) :: l)) Armed)
      as (c3 & l' & res & -> & Hlegal & Hwatch); [done|lia..|]. exists c3, l', res. split; [done|].
    split; [by eapply legal_retry|]. eapply watched_after; [| |exact Hwatch].
    + by destruct w0.
    + by eapply attempted.
  - destruct h; cbn [reconnect]; rewrite st_bindE; cbn beta iota.
    { exists c2, [], (Err err). rewrite app_nil_r. split; [done|]. split.
      - rewrite app_nil_r. by eapply legal_cannot_reconnect.
      - exists Armed. rewrite app_nil_r. split; [by destruct w0|]. split; [done|]. intros e [= <-]. right; right.
        rewrite (attempted err l _ Hl). split; [done|].
        destruct Hact as [Ha|[_ Hh]]; [congruence|]. right; right; right. done. }
    cbn [r_checks r_log]. destruct (env_reconnect env _) as [e'|[]]; cbn beta iota.
    { exists c2, [LReconnect (inl e')], (Err e'). split; [done|]. split; [by eapply legal_reconnect_failed|].
      exists Idle. rewrite (watch_app _ _ _ Armed) by by destruct w0. split; [done|]. split; [done|].
      intros e [= <-]. right; left. unfold reconnects. rewrite omap_app. by apply last_more. }
    match goal with |- context [run_loop env fuel p i Reconnect (n + 1) ?s] =>
      destruct (IH (n + 1) s Idle) as (c3 & l' & res & -> & Hlegal & Hwatch) end; [done|lia..|]. cbn [r_log].
    exists c3, (LReconnect (inr ()) :: l'), res. split; [by rewrite <- !app_assoc|].
    split; [by eapply legal_reconnected|]. rewrite cons_middle, app_assoc. eapply watched_after; [| |exact Hwatch].
    + rewrite (watch_app _ _ _ Armed) by by destruct w0. done.
    + unfold attempts. rewrite omap_app, app_nil_r. by eapply attempted.
Qed.
End Refinement.
(** ** Backoff *)

(** The schedule is [base * 2^(n-1)], doubling at most thirty-one times, capped. *)
Lemma backoff_for_exact p n :
  policy_ok p → 1 <= n →
  backoff_for p n = Z.min (base_backoff p * 2 ^ Z.min (n - 1) 31) (max_backoff p).
Proof.
  intros (_ & Hb & Hm) Hn. unfold backoff_for, sat_sub.
  destruct (Z.eqb_spec (base_backoff p) 0) as [->|]; [lia|].
  rewrite Z.shiftl_1_l, (Z.max_r 0 (n - 1)) by lia.
  set (d := base_backoff p * 2 ^ Z.min (n - 1) 31).
  destruct (try_range 0 DURATION_MAX d) as [d'|] eqn:Hd.
  - by apply try_range_some in Hd as [-> _].
  - apply try_range_none in Hd. assert (0 <= d) by (apply Z.mul_nonneg_nonneg; lia). lia.
Qed.

Lemma backoff_for_range p n :
  policy_ok p → 1 <= n → 0 <= backoff_for p n <= max_backoff p.
Proof.
  intros Hp Hn. rewrite backoff_for_exact by done. destruct Hp as (_ & ? & ?).
  assert (0 <= base_backoff p * 2 ^ Z.min (n - 1) 31) by (apply Z.mul_nonneg_nonneg; lia). lia.
Qed.

Definition total_sleep {P T} (l : list (LogEntry P T)) : Z := sum_by id (sleeps l).

Lemma total_sleep_slept {P T} b (l : list (LogEntry P T)) :
  total_sleep (slept b ++ l) = b + total_sleep l.
Proof.
  unfold slept, total_sleep. destruct (Z.eqb_spec b 0) as [->|]; [done|].
  change (sum_by id (b :: sleeps l) = b + sum_by id (sleeps l)). by rewrite sum_by_cons.
Qed.

Lemma legal_sleep {P T} p i h n (l : list (LogEntry P T)) res :
  policy_ok p → legal p i h n l res → 0 <= n →
  total_sleep l <= Z.max 0 (max_retries p - n) * max_backoff p.
Proof.
  intros Hp Hl. assert (0 <= max_backoff p) as Hm by (destruct Hp as (_ & _ & ?); lia).
  assert (∀ (e : Error P) n b, 0 <= n → decide_action p e i (n + 1) = RetrySameConnection b ∨
      decide_action p e i (n + 1) = ReconnectThenRetry b →
    b = backoff_for p (n + 1) ∧ b <= max_backoff p ∧ n + 1 <= max_retries p) as Hd.
  { intros e m b Hn Hd. destruct (decide_retries p i e (m + 1)) as (_ & ? & _ & Ha);
      [by destruct Hd as [-> | ->]|].
    assert (b = backoff_for p (m + 1)) as ->.
    { destruct Hd as [Hd|Hd], Ha as [Ha|[Ha _]]; congruence. }
    pose proof (backoff_for_range p (m + 1) Hp). split; [done|]. split; [lia|done]. }
  induction Hl as [n e|n v|n e|n e e' l Hs Hl|n e b l res Hs _ IH|n e b Hs|n e e' b Hs Hh
                 |n e b l res Hs Hh _ IH]; intros Hn;
    try (change (0 <= Z.max 0 (max_retries p - n) * max_backoff p); nia).
  - change (total_sleep l <= Z.max 0 (max_retries p - n) * max_backoff p).
    destruct Hl as [->| ->]; [change (total_sleep (P := P) (T := T) []) with 0; nia|].
    rewrite <- (app_nil_r (slept _)), total_sleep_slept. change (total_sleep (P := P) (T := T) []) with 0.
    destruct (decide_retries p i e (n + 1) Hs) as (_ & ? & _ & _).
    pose proof (backoff_for_range p (n + 1) Hp). nia.
  - change (total_sleep (slept b ++ l) <= Z.max 0 (max_retries p - n) * max_backoff p).
    destruct (Hd e n b Hn) as (_ & ? & ?); [by left|].
    rewrite total_sleep_slept. specialize (IH ltac:(lia)). nia.
  - change (total_sleep (P := P) (T := T) (slept b) <= Z.max 0 (max_retries p - n) * max_backoff p).
    destruct (Hd e n b Hn) as (_ & ? & ?); [by right|].
    rewrite <- (app_nil_r (slept _)), total_sleep_slept. change (total_sleep (P := P) (T := T) []) with 0. nia.
  - change (total_sleep (P := P) (T := T) (slept b ++ [LReconnect (inl e')])
      <= Z.max 0 (max_retries p - n) * max_backoff p).
    destruct (Hd e n b Hn) as (_ & ? & ?); [by right|].
    rewrite total_sleep_slept. change (total_sleep (P := P) (T := T) [LReconnect (inl e')]) with 0. nia.
  - change (total_sleep (slept b ++ LReconnect (inr ()) :: l)
      <= Z.max 0 (max_retries p - n) * max_backoff p).
    destruct (Hd e n b Hn) as (_ & ? & ?); [by right|].
    rewrite total_sleep_slept. change (total_sleep (LReconnect (inr ()) :: l)) with (total_sleep l).
    specialize (IH ltac:(lia)). nia.
Qed.

(** ** The executor *)

Definition budget (p : RetryPolicy) (i : Idempotency) : Z :=
  match i with Idempotent => max_retries p | NonIdempotent => 0 end.

Lemma run_inner_legal {P T} (env : Env P T) p i h :
  policy_ok p → max_retries p < U32_MAX →
  ∃ checks log res, run_inner env p i h = (res, mkRun checks log) ∧
    legal p i h 0 (deeds log) res ∧ watched p i h 0 Idle log res.
Proof.
  intros Hp HU. assert (0 <= max_retries p) by (destruct Hp as (? & _); lia).
  destruct (run_loop_ends env p i h (Z.to_nat (max_retries p) + 2) 0 (mkRun 0 []) Idle)
    as (c & l & res & H1 & Hl); [done|lia..|]. eauto.
Qed.

(** The waits of [m] repetitions after [n] others: [base_backoff] doubled for each
    repetition before, thirty-one times at most, capped at [max_backoff]; a wait of
    nothing is none. *)
Fixpoint waits (p : RetryPolicy) (n : Z) (m : nat) : list Z :=
  match m with
  | O => []
  | S m =>
      let d := Z.min (base_backoff p * 2 ^ Z.min n 31) (max_backoff p) in
      (if d =? 0 then [] else [d]) ++ waits p (n + 1) m
  end.

Lemma waits_one p n : policy_ok p → 0 <= n →
  ∀ m, waits p n (S m) = (if backoff_for p (n + 1) =? 0 then [] else [backoff_for p (n + 1)]) ++ waits p (n + 1) m.
Proof. intros Hp Hn m. rewrite backoff_for_exact by (done || lia). cbn [waits]. by replace (n + 1 - 1) with n by lia. Qed.

Lemma sleeps_slept {P T} b (l : list (LogEntry P T)) :
  sleeps (slept b ++ l) = (if b =? 0 then [] else [b]) ++ sleeps l.
Proof. unfold slept. by destruct (b =? 0). Qed.

Lemma legal_waits {P T} p i h n (l : list (LogEntry P T)) res :
  policy_ok p → legal p i h n l res → 0 <= n →
  ∃ m, (length (attempts l) - 1 <= m <= length (attempts l))%nat ∧ sleeps l = waits p n m.
Proof.
  intros Hp Hl.
  assert (∀ (e : Error P) n b, decide_action p e i n = RetrySameConnection b ∨
      decide_action p e i n = ReconnectThenRetry b → b = backoff_for p n) as Hd.
  { intros e m b Hd. destruct (decide_retries p i e m) as (_ & _ & _ & Ha); [by destruct Hd as [-> | ->]|].
    destruct Hd as [Hd|Hd], Ha as [Ha|[Ha _]]; congruence. }
  induction Hl as [n e|n v|n e|n e e' l Hs Hl|n e b l res Hs _ IH|n e b Hs|n e e' b Hs Hh
                 |n e b l res Hs Hh _ IH]; intros Hn; try (exists 0%nat; cbn; split; [lia|done]).
  - rewrite (proj1 (attempts_cons _ l)). change (sleeps (LAttempt (inl e) :: l)) with (sleeps l).
    destruct Hl as [->| ->]; [exists 0%nat; cbn; split; [lia|done]|].
    exists 1%nat. rewrite attempts_slept_only, waits_one by done. cbn [length waits]. split; [lia|].
    rewrite <- (app_nil_r (slept _)). apply sleeps_slept.
  - rewrite (proj1 (attempts_cons _ _)), attempts_slept. destruct (IH ltac:(lia)) as (m & Hm & Heq).
    exists (S m). split; [cbn; lia|]. rewrite waits_one, <- Heq, <- (Hd e (n + 1) b) by auto. apply sleeps_slept.
  - exists 1%nat. rewrite (proj1 (attempts_cons _ _)), attempts_slept_only. split; [cbn; lia|].
    rewrite waits_one, <- (Hd e (n + 1) b) by auto. cbn [waits]. rewrite <- (app_nil_r (slept _)). apply sleeps_slept.
  - exists 1%nat. rewrite (proj1 (attempts_cons _ _)), attempts_slept. split; [cbn; lia|].
    rewrite waits_one, <- (Hd e (n + 1) b) by auto. cbn [waits]. apply sleeps_slept.
  - rewrite (proj1 (attempts_cons _ _)), attempts_slept, (proj2 (reconnects_cons _ _)). destruct (IH ltac:(lia)) as (m & Hm & Heq).
    exists (S m). split; [cbn; lia|]. rewrite waits_one, <- Heq, <- (Hd e (n + 1) b) by auto. apply (sleeps_slept b (LReconnect (inr ()) :: l)).
Qed.


(** C26: A non-idempotent operation is attempted at most once and never reconnects
    or waits; an idempotent one is attempted at most [max_retries + 1] times and
    sleeps at most [max_retries * max_backoff] in total.  An attempt is repeated
    only after a failure whose guidance is a retry, the loop succeeds exactly when
    the last attempt did, and a reconnect happens only with a hook, for an
    idempotent operation, at most once per attempt. *)
Theorem retry_replays_safely {P T} (env : Env P T) p i h :
  policy_ok p → max_retries p < U32_MAX →
  let '(res, r) := run_inner env p i h in
  let tries := attempts (r_log r) in
  returns res ∧
  Zlen tries <= 1 + budget p i ∧
  (∀ k o, tries !! k = Some o → (S k < length tries)%nat →
     ∃ e, o = inl e ∧ i = Idempotent ∧ retry_hint e ≠ Never) ∧
  (∀ v, res = Ok v ↔ list.last tries = Some (inr v)) ∧
  (reconnects (r_log r) ≠ [] → i = Idempotent ∧ h = Reconnect) ∧
  (length (reconnects (r_log r)) <= length tries)%nat ∧
  total_sleep (r_log r) <= budget p i * max_backoff p.
Proof.
  intros Hp HU. assert (0 <= max_retries p) by (destruct Hp as (? & _); lia).
  destruct (run_inner_legal env p i h Hp HU) as (c & l & res & -> & Hl & _). cbn [r_log].
  pose proof (legal_attempts p i h 0 _ res Hl) as Ha.
  pose proof (legal_sleep p i h 0 _ res Hp Hl) as Hs.
  pose proof (legal_quiet p i h 0 _ res Hl) as Hq.
  pose proof (legal_shape p i h 0 _ res Hl) as Hshape. unfold run_shape, total_sleep in *.
  destruct (deeds_same l) as (Hea & Her & Hes). rewrite ?Hea, ?Her, ?Hes in *.
  destruct Hshape as (Hr & Hv & Hc & Hn & Hret).
  unfold budget. repeat split; try done; try apply Hv.
  - destruct i; lia.
  - intros k o Hk Hlen. destruct (Hr k o Hk Hlen) as (e & ? & ? & _ & ?). eauto.
  - by apply Hc.
  - by apply Hc.
  - specialize (Hs ltac:(lia)). rewrite Z.sub_0_r, Z.max_r in Hs by lia.
    destruct i; [lia|]. rewrite Hq by done. lia.
Qed.

(** A statement that starts like PL/SQL, DDL or DML does not start like a query. *)
Definition statement_writes (sql : chars) : bool :=
  statement_is_plsql sql || statement_is_ddl sql || statement_is_dml sql.

Lemma keyword_not_select ws k :
  keyword_in ws k = true → eq_ignore_ascii_case k (txt "select") = true →
  keyword_in ws (txt "select") = true.
Proof.
  unfold keyword_in, eq_ignore_ascii_case. intros (w & Hw & Hk)%existsb_exists Hs.
  apply bool_decide_eq_true in Hk, Hs. apply existsb_exists. exists w. split; [done|].
  apply bool_decide_eq_true. congruence.
Qed.

Lemma classify_writes sql : statement_writes sql = true → classify_sql sql = NonIdempotent.
Proof.
  unfold statement_writes, classify_sql, statement_is_plsql, statement_is_ddl, statement_is_dml.
  destruct (eq_ignore_ascii_case _ _) eqn:Hs; [|done].
  rewrite !orb_true_iff. intros [[H|H]|H]; by apply (keyword_not_select _ _ H) in Hs.
Qed.

(** A statement that the driver itself takes for PL/SQL, DDL or DML is never
    replayed when its idempotency is classified from its text: against every
    operation, environment and policy it runs at most once, and the first failure
    is the result. *)
Theorem writes_run_once {P T} (env : Env P T) p h sql :
  policy_ok p → max_retries p < U32_MAX → statement_writes sql = true →
  let '(res, r) := run_inner env p (classify_sql sql) h in
  match attempts (r_log r) with
  | [] => ∃ e, res = Err e ∧ is_cancellation e
  | [inl e] => res = Err e
  | [inr v] => res = Ok v
  | _ => False
  end.
Proof.
  intros Hp HU Hw. rewrite (classify_writes _ Hw).
  destruct (run_inner_legal env p NonIdempotent h Hp HU) as (c & l & res & -> & Hl & _). cbn [r_log].
  rewrite <- (proj1 (deeds_same l)). revert Hl. generalize (deeds l). intros l' Hl.
  inversion Hl; subst; cbn in *; try done; eauto.
Qed.

(** A lock that stays busy, under the default policy: four attempts, sleeps of 50,
    100 and 200 ms, and the error surfaces. *)
Definition busy : Error () :=
  EProtocol (ServerErrorInfo (mkServerErrorDetails "ORA-00054: resource busy" 54 0 0 0 None None)).
Definition calm_cx : Cx := mkCx true None None.
Definition busy_env : Env () Z :=
  mkEnv (λ _, inl busy) (λ _, calm_cx) (λ _, 1%nat) (λ _, inr ()).

(** The same, when the caller cancels while the loop polls the timer of its first sleep:
    the fifth checkpoint sees it, and nothing is attempted again. *)
Definition cancelled_cx : Cx := mkCx false (Some CkUser) None.
Definition cancelling_env : Env () Z :=
  mkEnv (λ _, inl busy) (λ k, if (k <? 4)%nat then calm_cx else cancelled_cx) (λ _, 5%nat) (λ _, inr ()).


(** The connection is lost once, the reconnect succeeds, the second attempt answers. *)
Definition lost : Error () := EIo "UnexpectedEof" "early eof".
Definition lost_env : Env () Z :=
  mkEnv (λ n, if (n =? 0)%nat then inl lost else inr 7) (λ _, calm_cx) (λ _, 1%nat) (λ _, inr ()).

Lemma retry_replays_safely_witness :
  (∃ r, run_inner lost_env policy_default Idempotent Reconnect = (Ok 7, r) ∧ deeds (r_log r) =
     [LAttempt (inl lost); LSleep 50000000; LReconnect (inr ()); LAttempt (inr 7)]) ∧
  (∃ r, run_inner lost_env policy_default NonIdempotent Reconnect = (Err lost, r) ∧
     deeds (r_log r) = [LAttempt (inl lost)]) ∧
  let '(res, r) := run_inner lost_env policy_default NonIdempotent Reconnect in
  returns res ∧ Zlen (attempts (r_log r)) <= 1 + budget policy_default NonIdempotent.
Proof.
  split; [eexists; split; vm_compute; reflexivity|]. split; [eexists; split; vm_compute; reflexivity|].
  pose proof (retry_replays_safely lost_env policy_default NonIdempotent Reconnect) as H.
  destruct (run_inner lost_env policy_default NonIdempotent Reconnect) as [res r].
  destruct H as (H1 & H2 & _).
  - unfold policy_ok, policy_default, DURATION_MAX, U32_MAX, U64_MAX. cbn. lia.
  - unfold U32_MAX. cbn. lia.
  - by split.
Defined.

Lemma writes_run_once_witness :
  (∃ r, run_inner lost_env policy_default (classify_sql (txt " Merge into t")) Reconnect = (Err lost, r) ∧
     deeds (r_log r) = [LAttempt (inl lost)]) ∧
  let '(res, r) := run_inner lost_env policy_default (classify_sql (txt " Merge into t")) Reconnect in
  match attempts (r_log r) with
  | [] => ∃ e, res = Err e ∧ is_cancellation e
  | [inl e] => res = Err e
  | [inr v] => res = Ok v
  | _ => False
  end.
Proof.
  split; [eexists; split; vm_compute; reflexivity|].
  apply (writes_run_once lost_env policy_default Reconnect (txt " Merge into t")).
  - unfold policy_ok, policy_default, DURATION_MAX, U32_MAX, U64_MAX. cbn. lia.
  - unfold U32_MAX. cbn. lia.
  - reflexivity.
Defined.
