(* ===== verification/ShapeCache.v ===== *)
(** * Statement shapes ([oracledb/src/shape_cache.rs], [thin/types.rs], [thin/bind.rs])

    The cache of described result shapes that connections share, and the retained
    fetch metadata of one connection ([lib.rs]).  Against the trace of everything
    that was observed and invalidated, the cache answers with the number of shape
    changes since the last invalidation and the latest shape. *)

From stdpp Require Import gmap.
From S2P Require Import Prelude.
From S2P Require Import Protocol.
From S2P Require Import Sql.

(** ** Column metadata *)

Record ColumnMetadata := mkColumn {
  name : chars;
  ora_type_num : Z;
  csfrm : Z;
  precision : Z;
  scale : Z;
  buffer_size : Z;
  max_size : Z;
  nulls_allowed : bool;
  is_json : bool;
  is_oson : bool;
  object_schema : option chars;
  object_type_name : option chars;
  is_array : bool;
  vector_dimensions : option Z;
  vector_format : Z;
  vector_flags : Z;
  domain_schema : option chars;
  domain_name : option chars;
  annotations : option (list (chars * chars))
}.

(** [ColumnMetadata::new] *)
Definition column_new (n : chars) (t : Z) : ColumnMetadata :=
  mkColumn n t 0 0 0 0 0 false false false None None false None 0 0 None None None.

#[global] Instance ColumnMetadata_eq_dec : EqDecision ColumnMetadata.
Proof. solve_decision. Defined.

Definition ORA_TYPE_NUM_VARCHAR : Z := 1.
Definition ORA_TYPE_NUM_NUMBER : Z := 2.
Definition ORA_TYPE_NUM_LONG : Z := 8.
Definition ORA_TYPE_NUM_RAW : Z := 23.
Definition ORA_TYPE_NUM_LONG_RAW : Z := 24.
Definition ORA_TYPE_NUM_CHAR : Z := 96.
Definition ORA_TYPE_NUM_CURSOR : Z := 102.
Definition ORA_TYPE_NUM_OBJECT : Z := 109.
Definition ORA_TYPE_NUM_CLOB : Z := 112.
Definition ORA_TYPE_NUM_BLOB : Z := 113.
Definition ORA_TYPE_NUM_VECTOR : Z := 127.
Definition TNS_MAX_LONG_LENGTH : Z := 2147483647.

(** ** Fingerprints *)

Record ColumnShapeEntry := mkEntry {
  e_name : chars;
  e_ora_type_num : Z;
  e_csfrm : Z;
  e_precision : Z;
  e_scale : Z;
  e_max_size : Z;
  e_nulls_allowed : bool;
  e_vector_format : Z;
  e_vector_flags : Z;
  e_vector_dimensions : option Z
}.

#[global] Instance ColumnShapeEntry_eq_dec : EqDecision ColumnShapeEntry.
Proof. solve_decision. Defined.

Definition from_column (c : ColumnMetadata) : ColumnShapeEntry :=
  mkEntry (name c) (ora_type_num c) (csfrm c) (precision c) (scale c) (max_size c)
    (nulls_allowed c) (vector_format c) (vector_flags c) (vector_dimensions c).

Definition ColumnShape : Type := list ColumnShapeEntry.
Definition from_columns (columns : list ColumnMetadata) : ColumnShape := map from_column columns.

(** ** The key: [normalize_sql]

    [inside] is the quote of the literal being copied. *)
Definition is_quote (c : Z) : bool := (c =? QUOTE) || (c =? DQUOTE).
Definition deferred (pending_space : bool) : chars := if pending_space then [32] else [].

Fixpoint normalize_loop (inside : option Z) (pending_space : bool) (rest : chars) : chars :=
  match rest with
  | [] => []
  | c :: rest =>
      match inside with
      | Some quote =>
          if c =? quote then
            match rest with
            | d :: rest' =>
                if d =? quote then c :: quote :: normalize_loop (Some quote) false rest'
                else c :: normalize_loop None false rest
            | [] => [c]
            end
          else c :: normalize_loop (Some quote) false rest
      | None =>
          if is_quote c then deferred pending_space ++ c :: normalize_loop (Some c) false rest
          else if is_ascii_whitespace c then normalize_loop None true rest
          else deferred pending_space ++ c :: normalize_loop None false rest
      end
  end.

Definition normalize_sql (sql : chars) : chars :=
  normalize_loop None false (snd (span is_ascii_whitespace sql)).

(** ** The cache *)

Record ShapeObservation := mkObservation {
  generation : Z;
  self_healed : bool;
  first_seen : bool
}.

Record CachedShape := mkCached { c_shape : ColumnShape; c_generation : Z }.

Abbreviation StatementShapeCache := (gmap chars CachedShape).

(** [observe], under the lock.  The generation is a [u64] that counts up by one; it is
    unbounded here. *)
Definition observe (sql : chars) (columns : list ColumnMetadata) (map : StatementShapeCache)
  : ShapeObservation * StatementShapeCache :=
  let shape := from_columns columns in
  if bool_decide (shape = []) then (mkObservation 0 false false, map)
  else
    let key := normalize_sql sql in
    match map !! key with
    | None => (mkObservation 1 false true, <[key := mkCached shape 1]> map)
    | Some entry =>
        if bool_decide (c_shape entry = shape)
        then (mkObservation (c_generation entry) false false, map)
        else
          let g := c_generation entry + 1 in
          (mkObservation g true false, <[key := mkCached shape g]> map)
    end.

Definition requires_rebind (o : ShapeObservation) : bool := self_healed o.

Definition current (sql : chars) (map : StatementShapeCache) : option (Z * ColumnShape) :=
  entry ← map !! normalize_sql sql; Some (c_generation entry, c_shape entry).

Definition invalidate (sql : chars) (map : StatementShapeCache) : bool * StatementShapeCache :=
  let key := normalize_sql sql in
  (bool_decide (is_Some (map !! key)), delete key map).

Definition cache_len (map : StatementShapeCache) : Z := Z.of_nat (size map).

(** ** Retained fetch metadata ([lib.rs]) *)

Definition FETCH_METADATA_RETENTION_CAP : nat := 100.

(** [fetch_metadata_by_sql] and [fetch_metadata_order] of a connection. *)
Record FetchMetadata := mkFetch {
  by_sql : gmap chars (list ColumnMetadata);
  order : list chars
}.

Definition remember_fetch_metadata (sql : chars) (columns : list ColumnMetadata)
  (f : FetchMetadata) : FetchMetadata :=
  let f :=
    match by_sql f !! sql with
    | Some _ => f
    | None =>
        let f :=
          if (FETCH_METADATA_RETENTION_CAP <=? length (order f))%nat then
            match order f with
            | oldest :: rest => mkFetch (delete oldest (by_sql f)) rest
            | [] => f
            end
          else f in
        mkFetch (by_sql f) (order f ++ [sql])
    end in
  mkFetch (<[sql := columns]> (by_sql f)) (order f).

Definition forget_fetch_metadata (sql : chars) (f : FetchMetadata) : bool * FetchMetadata :=
  match by_sql f !! sql with
  | Some _ => (true, mkFetch (delete sql (by_sql f)) (filter (λ e, e ≠ sql) (order f)))
  | None => (false, f)
  end.

(** [adjust_refetch_metadata]: the adjusted column, when it is adjusted. *)
Definition as_long (t cs : Z) (c : ColumnMetadata) : ColumnMetadata :=
  mkColumn (name c) t cs (precision c) (scale c) TNS_MAX_LONG_LENGTH 0 (nulls_allowed c)
    (is_json c) (is_oson c) (object_schema c) (object_type_name c) (is_array c)
    (vector_dimensions c) (vector_format c) (vector_flags c) (domain_schema c) (domain_name c)
    (annotations c).

Definition adjust_refetch_metadata (previous cur : ColumnMetadata) : option ColumnMetadata :=
  let p := ora_type_num previous in
  if (ora_type_num cur =? ORA_TYPE_NUM_CLOB)
     && ((p =? ORA_TYPE_NUM_CHAR) || (p =? ORA_TYPE_NUM_LONG) || (p =? ORA_TYPE_NUM_VARCHAR))
  then Some (as_long ORA_TYPE_NUM_LONG (csfrm previous) cur)
  else if (ora_type_num cur =? ORA_TYPE_NUM_BLOB)
          && ((p =? ORA_TYPE_NUM_RAW) || (p =? ORA_TYPE_NUM_LONG_RAW))
  then Some (as_long ORA_TYPE_NUM_LONG_RAW 0 cur)
  else None.

(** The [for] loop of [apply_refetch_metadata] over the two column lists. *)
Fixpoint adjust_columns (previous columns : list ColumnMetadata) : list ColumnMetadata * bool :=
  match columns with
  | [] => ([], false)
  | c :: columns =>
      let '(rest, any) := adjust_columns (tail previous) columns in
      match head previous with
      | Some p => match adjust_refetch_metadata p c with
                  | Some c' => (c' :: rest, true)
                  | None => (c :: rest, any)
                  end
      | None => (c :: rest, any)
      end
  end.

(** [apply_refetch_metadata] up to the redefine: the observation, the columns to
    redefine the cursor with (if any), and the state of the connection. *)
Definition refetch_plan (sql : chars) (columns : list ColumnMetadata) (cursor_id : Z)
  (cache : StatementShapeCache) (f : FetchMetadata)
  : option (list ColumnMetadata) * StatementShapeCache * FetchMetadata :=
  if bool_decide (columns = []) then (None, cache, f)
  else
    let '(o, cache) := observe sql columns cache in
    let f := if self_healed o then snd (forget_fetch_metadata sql f) else f in
    let redefine :=
      previous ← by_sql f !! sql;
      let '(adjusted, any_adjusted) := adjust_columns previous columns in
      if any_adjusted && negb (cursor_id =? 0) then Some adjusted else None in
    (redefine, cache, f).

(** ** What the cache promises

    The trace of a cache is the sequence of calls that changed it. *)

Inductive ShapeEvent :=
| Observed (sql : chars) (columns : list ColumnMetadata)
| Invalidated (sql : chars).

Definition shape_step (map : StatementShapeCache) (e : ShapeEvent) : StatementShapeCache :=
  match e with
  | Observed sql columns => snd (observe sql columns map)
  | Invalidated sql => snd (invalidate sql map)
  end.
Definition shape_run (trace : list ShapeEvent) : StatementShapeCache := foldl shape_step ∅ trace.

(** The successive shapes of a key, oldest first, since it was last invalidated. *)
Definition version_step (key : chars) (versions : list ColumnShape) (e : ShapeEvent)
  : list ColumnShape :=
  match e with
  | Observed sql columns =>
      let shape := from_columns columns in
      if bool_decide (normalize_sql sql = key) && bool_decide (shape ≠ [])
         && bool_decide (list.last versions ≠ Some shape)
      then versions ++ [shape] else versions
  | Invalidated sql => if bool_decide (normalize_sql sql = key) then [] else versions
  end.
Definition versions (key : chars) (trace : list ShapeEvent) : list ColumnShape :=
  foldl (version_step key) [] trace.

(** What an observation reports, from the versions before and after it. *)
Definition expected (before after : list ColumnShape) (columns : list ColumnMetadata)
  : ShapeObservation :=
  if bool_decide (from_columns columns = []) then mkObservation 0 false false
  else mkObservation (Zlen after)
         (bool_decide (before ≠ []) && bool_decide (after ≠ before)) (bool_decide (before = [])).

Lemma versions_snoc key trace e :
  versions key (trace ++ [e]) = version_step key (versions key trace) e.
Proof. unfold versions. by rewrite foldl_snoc. Qed.

Lemma shape_run_snoc trace e : shape_run (trace ++ [e]) = shape_step (shape_run trace) e.
Proof. unfold shape_run. by rewrite foldl_snoc. Qed.

(** The record of a key is its last version, stamped with how many there were. *)
Definition record_of (vs : list ColumnShape) : option CachedShape :=
  shape ← list.last vs; Some (mkCached shape (Zlen vs)).

Lemma record_of_snoc vs shape : record_of (vs ++ [shape]) = Some (mkCached shape (Zlen vs + 1)).
Proof. unfold record_of. rewrite last_snoc. cbn. by rewrite Zlen_app, Zlen_cons, Zlen_nil. Qed.

Lemma record_of_nil vs : record_of vs = None ↔ vs = [].
Proof.
  unfold record_of. destruct (list.last vs) eqn:Hl; cbn; [|by apply last_None in Hl].
  split; [done|]. by intros ->.
Qed.

Lemma record_of_some vs r : record_of vs = Some r → list.last vs = Some (c_shape r) ∧ c_generation r = Zlen vs.
Proof. unfold record_of. destruct (list.last vs); cbn; [|done]. by intros [= <-]. Qed.

(** One observation, on the record and on the versions. *)
Lemma observe_versions sql columns map vs :
  map !! normalize_sql sql = record_of vs →
  observe sql columns map =
    (expected vs (version_step (normalize_sql sql) vs (Observed sql columns)) columns,
     snd (observe sql columns map)) ∧
  snd (observe sql columns map) !! normalize_sql sql =
    record_of (version_step (normalize_sql sql) vs (Observed sql columns)).
Proof.
  intros Hm. unfold observe, expected, version_step. pose proof (Zlen_nonneg vs).
  destruct (decide (from_columns columns = [])) as [He|He].
  { rewrite !He, (bool_decide_eq_true_2 (@nil ColumnShapeEntry = [])) by done.
    rewrite (bool_decide_eq_false_2 (@nil ColumnShapeEntry ≠ [])) by tauto.
    rewrite andb_false_r. done. }
  rewrite (bool_decide_eq_false_2 _ He), !(bool_decide_eq_true_2 _ He), bool_decide_eq_true_2 by done.
  cbn [andb]. rewrite Hm. destruct (record_of vs) as [r|] eqn:Hr.
  - pose proof (record_of_some _ _ Hr) as [Hl Hg].
    assert (vs ≠ []) as Hv by (intros ->; done).
    destruct (decide (c_shape r = from_columns columns)) as [Heq|Hne].
    + rewrite (bool_decide_eq_true_2 _ Heq), (bool_decide_eq_false_2 (list.last vs ≠ _)) by (rewrite Hl, Heq; tauto).
      cbn [snd]. rewrite Hg, (bool_decide_eq_false_2 (vs ≠ vs)), (bool_decide_eq_false_2 _ Hv) by tauto.
      rewrite andb_false_r. split; [done|]. congruence.
    + rewrite (bool_decide_eq_false_2 _ Hne), (bool_decide_eq_true_2 (list.last vs ≠ _)) by (rewrite Hl; congruence).
      cbn [snd]. rewrite Hg.
      rewrite lookup_insert_eq, record_of_snoc, Zlen_app, Zlen_cons, Zlen_nil.
      rewrite (bool_decide_eq_true_2 _ Hv), (bool_decide_eq_false_2 _ Hv), bool_decide_eq_true_2; [done|].
      intros Hc. apply (f_equal length) in Hc. rewrite length_app in Hc. cbn in Hc. lia.
  - apply record_of_nil in Hr as ->. rewrite bool_decide_eq_true_2 by done. cbn [snd app].
    by rewrite lookup_insert_eq.
Qed.

Lemma observe_other sql columns map key :
  normalize_sql sql ≠ key → snd (observe sql columns map) !! key = map !! key.
Proof.
  intros Hk. unfold observe. repeat case_match; cbn [snd]; try done; by rewrite lookup_insert_ne.
Qed.

Lemma shape_run_lookup trace key : shape_run trace !! key = record_of (versions key trace).
Proof.
  induction trace as [|e trace IH] using rev_ind; [done|].
  rewrite shape_run_snoc, versions_snoc. destruct e as [sql columns|sql]; cbn [shape_step invalidate snd].
  - destruct (decide (normalize_sql sql = key)) as [<-|Hk]; [by apply observe_versions|].
    rewrite (observe_other _ _ _ _ Hk). unfold version_step. by rewrite (bool_decide_eq_false_2 _ Hk).
  - cbn [version_step]. destruct (decide (normalize_sql sql = key)) as [<-|Hk].
    + by rewrite lookup_delete_eq, bool_decide_eq_true_2.
    + by rewrite lookup_delete_ne, (bool_decide_eq_false_2 _ Hk).
Qed.

(** The cache answers from the versions. *)
Lemma current_versions trace sql :
  let vs := versions (normalize_sql sql) trace in
  current sql (shape_run trace) = (shape ← list.last vs; Some (Zlen vs, shape)).
Proof.
  unfold current. rewrite shape_run_lookup. unfold record_of. by destruct (list.last (versions (normalize_sql sql) trace)).
Qed.

(** The statement is not invalidated; no code of the driver does so. *)
Definition never_invalidated (key : chars) (trace : list ShapeEvent) : Prop :=
  Forall (λ e, match e with Invalidated sql => normalize_sql sql ≠ key | Observed _ _ => True end) trace.

(** Some observation of the statement described columns. *)
Definition described (key : chars) (trace : list ShapeEvent) : Prop :=
  ∃ sql columns, Observed sql columns ∈ trace ∧ normalize_sql sql = key ∧ columns ≠ [].

Lemma versions_grow key later : never_invalidated key later → ∀ earlier, versions key earlier `prefix_of` versions key (earlier ++ later).
Proof.
  induction later as [|e later IH] using rev_ind; intros Hn earlier; [by rewrite app_nil_r|].
  apply Forall_app in Hn as [Hn He]. rewrite Forall_cons_iff in He. destruct He as [He _]. rewrite app_assoc, versions_snoc.
  etrans; [by apply IH|]. destruct e as [sql columns|sql]; cbn [version_step].
  - case_match; [by exists [from_columns columns]|reflexivity].
  - rewrite (bool_decide_eq_false_2 _ He). reflexivity.
Qed.

Lemma from_columns_nil columns : from_columns columns = [] ↔ columns = [].
Proof. by destruct columns. Qed.

Lemma versions_described key trace : never_invalidated key trace → versions key trace ≠ [] ↔ described key trace.
Proof.
  induction trace as [|e trace IH] using rev_ind; intros Hn.
  { split; [done|]. intros (? & ? & ?%not_elem_of_nil & _). done. }
  apply Forall_app in Hn as [Hn He]. rewrite Forall_cons_iff in He. destruct He as [He _]. specialize (IH Hn). rewrite versions_snoc.
  assert (described key (trace ++ [e]) ↔ described key trace ∨ ∃ sql columns, e = Observed sql columns ∧ normalize_sql sql = key ∧ columns ≠ []) as ->.
  { unfold described. setoid_rewrite elem_of_app. setoid_rewrite list_elem_of_singleton. naive_solver. }
  rewrite <- IH. destruct e as [sql columns|sql]; cbn [version_step].
  - destruct (decide (normalize_sql sql = key)) as [Hk|Hk]; [rewrite (bool_decide_eq_true_2 _ Hk)|rewrite (bool_decide_eq_false_2 _ Hk); cbn [andb]; naive_solver].
    destruct (decide (from_columns columns ≠ [])) as [Hc|Hc]; [rewrite (bool_decide_eq_true_2 _ Hc)|rewrite (bool_decide_eq_false_2 _ Hc); cbn [andb]; rewrite from_columns_nil in Hc; naive_solver].
    rewrite from_columns_nil in Hc. cbn [andb]. case_bool_decide as Hl.
    + split; [|intros _; by destruct (versions key trace)]. intros _. right. by exists sql, columns.
    + split; [by left|]. intros _ Hv. rewrite Hv in Hl. discriminate Hl.
  - rewrite bool_decide_eq_false_2 by done. naive_solver.
Qed.


(** ** The key *)

Lemma normalize_head p s c : is_ascii_whitespace c = false →
  ∃ t, normalize_loop None p (c :: s) = deferred p ++ c :: t.
Proof. intros Hc. cbn. rewrite Hc. destruct (is_quote c); eauto. Qed.

(** What follows a closing quote is not the quote again. *)
Lemma normalize_not_quote p q s t :
  is_quote q = true → head s ≠ Some q → normalize_loop None p s ≠ q :: t.
Proof.
  intros Hq. assert (32 ≠ q) by (intros <-; done).
  revert p. induction s as [|c s IH]; intros p Hs; [done|]. cbn in Hs. cbn.
  destruct (is_quote c); [destruct p; cbn; congruence|].
  destruct (is_ascii_whitespace c); [|destruct p; cbn; congruence].
  destruct s as [|d s]; [done|]. destruct (decide (d = q)) as [->|Hd]; [|apply IH; cbn; congruence].
  cbn. rewrite Hq. cbn. congruence.
Qed.

Lemma normalize_closed q t : head t ≠ Some q →
  normalize_loop (Some q) false (q :: t) = q :: normalize_loop None false t.
Proof.
  intros Ht. cbn. rewrite Z.eqb_refl. destruct t as [|d t]; [done|].
  destruct (Z.eqb_spec d q); [|done]. cbn in Ht. congruence.
Qed.

Lemma normalize_loop_idem n : ∀ s, (length s <= n)%nat →
  (∀ q, is_quote q = true →
     normalize_loop (Some q) false (normalize_loop (Some q) false s) = normalize_loop (Some q) false s) ∧
  (∀ p, normalize_loop None false (normalize_loop None p s) = normalize_loop None p s).
Proof.
  induction n as [|n IH]; intros [|c s] Hn; cbn [length] in Hn; try done; [lia|]. split.
  - intros q Hq. cbn [normalize_loop]. destruct (Z.eqb_spec c q) as [->|Hc].
    + destruct s as [|d s]; [cbn; by rewrite Z.eqb_refl|]. cbn [length] in Hn.
      destruct (Z.eqb_spec d q) as [->|Hd].
      * cbn [normalize_loop]. rewrite !Z.eqb_refl. f_equal. f_equal. apply IH; [lia|done].
      * destruct (IH (d :: s)) as [_ Hi]; [cbn; lia|]. rewrite normalize_closed; [by rewrite Hi|].
        destruct (normalize_loop None false (d :: s)) as [|e t] eqn:He; [done|]. cbn.
        intros [= ->]. eapply normalize_not_quote, He; [done|]. cbn. congruence.
    + cbn [normalize_loop]. rewrite (proj2 (Z.eqb_neq c q) Hc). f_equal. apply IH; [lia|done].
  - intros p. cbn [normalize_loop]. destruct (is_quote c) eqn:Hq.
    + assert (is_ascii_whitespace c = false).
      { unfold is_quote, is_ascii_whitespace, QUOTE, DQUOTE in *. lia. }
      destruct p; cbn [deferred app normalize_loop]; rewrite Hq; cbn [deferred app];
        [change (is_quote 32) with false; change (is_ascii_whitespace 32) with true; cbn [deferred app]|];
        by rewrite (proj1 (IH s ltac:(lia))).
    + destruct (is_ascii_whitespace c) eqn:Hw; [apply IH; lia|].
      destruct p; cbn [deferred app normalize_loop]; rewrite Hq, Hw; cbn [deferred app];
        [change (is_quote 32) with false; change (is_ascii_whitespace 32) with true; cbn [deferred app]|];
        by rewrite (proj2 (IH s ltac:(lia))).
Qed.

(** A key is its own key. *)
Lemma normalize_sql_idempotent sql : normalize_sql (normalize_sql sql) = normalize_sql sql.
Proof.
  unfold normalize_sql at 2 3. set (s := snd (span is_ascii_whitespace sql)).
  pose proof (proj2 (normalize_loop_idem (length s) s (le_n _)) false) as Hi.
  assert (snd (span is_ascii_whitespace (normalize_loop None false s)) = normalize_loop None false s) as Hs.
  { assert (match s with c :: _ => is_ascii_whitespace c = false | [] => True end) as Hc.
    { unfold s. clear. induction sql as [|c sql IH]; cbn; [done|].
      destruct (is_ascii_whitespace c) eqn:Hc; [|done].
      destruct (span is_ascii_whitespace sql). exact IH. }
    destruct s as [|c s']; [done|]. destruct (normalize_head false s' c Hc) as [t ->].
    cbn. by rewrite Hc. }
  unfold normalize_sql. by rewrite Hs.
Qed.

(** ** The retained metadata *)

Definition fetch_ok (f : FetchMetadata) : Prop :=
  NoDup (order f) ∧ (∀ sql, sql ∈ order f ↔ is_Some (by_sql f !! sql)) ∧
  (length (order f) <= FETCH_METADATA_RETENTION_CAP)%nat.

Lemma fetch_ok_evict oldest rest m :
  fetch_ok (mkFetch m (oldest :: rest)) → fetch_ok (mkFetch (delete oldest m) rest).
Proof.
  intros (Hn & Hm & Hl). cbn in *. apply list.NoDup_cons in Hn as [Ho Hn].
  split_and!; [done| |cbn; lia]. intros sql. cbn.
  destruct (decide (sql = oldest)) as [->|Hne].
  - rewrite lookup_delete_eq. split; [done|]. by intros [? ?].
  - rewrite lookup_delete_ne, <- Hm, elem_of_cons by done. naive_solver.
Qed.

Lemma fetch_ok_insert sql columns m ord :
  fetch_ok (mkFetch m ord) → sql ∈ ord → fetch_ok (mkFetch (<[sql := columns]> m) ord).
Proof.
  intros (Hn & Hm & Hl) Hin. split_and!; [done| |done]. cbn in *. intros s.
  destruct (decide (s = sql)) as [->|Hne].
  - rewrite lookup_insert_eq. by split; [eexists|].
  - by rewrite lookup_insert_ne.
Qed.

Lemma fetch_ok_new sql columns m ord :
  fetch_ok (mkFetch m ord) → m !! sql = None → (length ord < FETCH_METADATA_RETENTION_CAP)%nat →
  fetch_ok (mkFetch (<[sql := columns]> m) (ord ++ [sql])).
Proof.
  intros (Hn & Hm & Hl) Hs Hlen. cbn in *.
  assert (sql ∉ ord) as Hout by (rewrite Hm, Hs; by intros [? ?]).
  split_and!; cbn.
  - apply list.NoDup_app. split_and!; [done| |apply NoDup_singleton].
    intros s Hin ->%list_elem_of_singleton. done.
  - intros s. rewrite elem_of_app, list_elem_of_singleton. destruct (decide (s = sql)) as [->|Hne].
    + rewrite lookup_insert_eq. by split; [eexists|right].
    + rewrite lookup_insert_ne by done. rewrite <- Hm. naive_solver.
  - rewrite length_app. cbn. lia.
Qed.

Lemma fetch_ok_delete sql m ord :
  fetch_ok (mkFetch m ord) → fetch_ok (mkFetch (delete sql m) (filter (λ e, e ≠ sql) ord)).
Proof.
  intros (Hn & Hm & Hl). cbn in *. split_and!; cbn.
  - by apply list.NoDup_filter.
  - intros s. rewrite list_elem_of_filter, Hm. destruct (decide (s = sql)) as [->|Hne].
    + rewrite lookup_delete_eq. split; [naive_solver|by intros [? ?]].
    + rewrite lookup_delete_ne by done. naive_solver.
  - etrans; [apply length_filter|done].
Qed.

Lemma fetch_ok_remember sql columns f :
  fetch_ok f → fetch_ok (remember_fetch_metadata sql columns f).
Proof.
  intros Hf. unfold remember_fetch_metadata. destruct f as [m ord]. cbn [by_sql order].
  destruct (m !! sql) eqn:Hs; cbn [by_sql order].
  - apply fetch_ok_insert; [done|]. destruct Hf as (_ & Hm & _). apply Hm. by eexists.
  - destruct (Nat.leb_spec FETCH_METADATA_RETENTION_CAP (length ord)) as [Hcap|Hcap]; cbn [by_sql order].
    + destruct ord as [|oldest rest]; cbn [by_sql order] in *;
        [unfold FETCH_METADATA_RETENTION_CAP in Hcap; cbn in Hcap; lia|].
      apply fetch_ok_new; [by apply fetch_ok_evict| |].
      * destruct (decide (oldest = sql)) as [->|]; [apply lookup_delete_eq|by rewrite lookup_delete_ne].
      * destruct Hf as (_ & _ & Hl). cbn in Hl. lia.
    + by apply fetch_ok_new.
Qed.

(** The retained metadata of a connection holds at most a hundred statements,
    the queue lists exactly the statements of the map, each once; after remembering
    a statement its columns are the ones found, after forgetting it there are none,
    and forgetting touches no other statement. *)
Theorem fetch_metadata_bounded f sql columns :
  fetch_ok f →
  let f' := remember_fetch_metadata sql columns f in
  let '(existed, f'') := forget_fetch_metadata sql f in
  fetch_ok f' ∧ by_sql f' !! sql = Some columns ∧
  fetch_ok f'' ∧ by_sql f'' !! sql = None ∧ existed = bool_decide (is_Some (by_sql f !! sql)) ∧
  ∀ other, other ≠ sql → by_sql f'' !! other = by_sql f !! other.
Proof.
  intros Hf f'. destruct (forget_fetch_metadata sql f) as [existed f''] eqn:Hfg.
  split; [by apply fetch_ok_remember|]. split; [cbn; apply lookup_insert_eq|].
  unfold forget_fetch_metadata in Hfg. destruct f as [m ord]. cbn [by_sql order] in *.
  destruct (m !! sql) eqn:Hs; injection Hfg as <- <-; cbn [by_sql].
  - split; [by apply fetch_ok_delete|]. split; [apply lookup_delete_eq|]. split; [done|].
    intros other Ho. by rewrite lookup_delete_ne.
  - do 2 (split; [done|]). split; [|done].
    rewrite bool_decide_eq_false_2; [done|]. by intros [? ?].
Qed.

(** ** Witnesses and divergences *)

Definition varchar_column : ColumnMetadata := column_new (txt "C") ORA_TYPE_NUM_VARCHAR.
Definition clob_column : ColumnMetadata := column_new (txt "C") ORA_TYPE_NUM_CLOB.
Definition object_column (t : chars) : ColumnMetadata :=
  mkColumn (txt "C") ORA_TYPE_NUM_OBJECT 0 0 0 0 0 true false false (Some (txt "S")) (Some t) false
    None 0 0 None None None.

(** Two spellings of a statement, an alteration of its column in between. *)
Definition sample_trace : list ShapeEvent :=
  [Observed (txt "select  c from t") [varchar_column]; Observed (txt "select c  from t ") [clob_column]].


Lemma fetch_metadata_bounded_witness :
  let f := remember_fetch_metadata (txt "a") [varchar_column] (mkFetch ∅ []) in
  let f' := remember_fetch_metadata (txt "b") [clob_column] f in
  let '(existed, f'') := forget_fetch_metadata (txt "b") f in
  fetch_ok f' ∧ by_sql f' !! (txt "b") = Some [clob_column] ∧
  fetch_ok f'' ∧ by_sql f'' !! (txt "b") = None ∧
  existed = bool_decide (is_Some (by_sql f !! (txt "b"))) ∧
  ∀ other, other ≠ txt "b" → by_sql f'' !! other = by_sql f !! other.
Proof.
  apply (fetch_metadata_bounded (remember_fetch_metadata (txt "a") [varchar_column] (mkFetch ∅ []))).
  apply fetch_ok_remember. split_and!; cbn; [constructor| |unfold FETCH_METADATA_RETENTION_CAP; lia].
  intros sql. rewrite lookup_empty. split; [by intros ?%not_elem_of_nil|by intros [? ?]].
Defined.

(** A generation is not a version stamp across an invalidation: two different
    shapes of a statement carry generation 1.  Two statements with different binds
    share a key, because the line break that ends a comment is folded into a space,
    and alternate observations of them heal each other.  A column whose object type
    changes keeps its fingerprint. *)
Theorem shape_cache_divergences :
  (let seen := [Observed (txt "q") [varchar_column]] in
   current (txt "q") (shape_run seen) = Some (1, from_columns [varchar_column]) ∧
   current (txt "q") (shape_run (seen ++ [Invalidated (txt "q"); Observed (txt "q") [clob_column]])) =
     Some (1, from_columns [clob_column])) ∧
  (let two_lines := txt "select c --" ++ [NEWLINE] ++ txt ", :b from t" in
   let one_line := txt "select c -- , :b from t" in
   scan_bind_names two_lines = Ok [txt "b"] ∧ scan_bind_names one_line = Ok [] ∧
   normalize_sql two_lines = normalize_sql one_line ∧
   self_healed (fst (observe two_lines [varchar_column; varchar_column]
     (shape_run [Observed one_line [varchar_column]]))) = true) ∧
  from_column (object_column (txt "T1")) = from_column (object_column (txt "T2")).
Proof. split_and!; by vm_compute. Qed.

(** Whether the type-change rule is applied depends on who observed the change
    first.  A connection that fetched a column as VARCHAR and re-executes after the
    column became a CLOB heals the cache, forgets its metadata and does not redefine
    the cursor; when another connection that shares the cache observed the CLOB in
    between, the same connection redefines the cursor to stream it as LONG. *)
Theorem refetch_rule_depends_on_observer :
  let fetched := remember_fetch_metadata (txt "q") [varchar_column] (mkFetch ∅ []) in
  let alone := shape_run [Observed (txt "q") [varchar_column]] in
  let shared := shape_run [Observed (txt "q") [varchar_column]; Observed (txt "q") [clob_column]] in
  (∃ f, refetch_plan (txt "q") [clob_column] 7 alone fetched = (None, shared, f)) ∧
  (∃ f, refetch_plan (txt "q") [clob_column] 7 shared fetched =
     (Some [as_long ORA_TYPE_NUM_LONG 0 clob_column], shared, f)).
Proof. split; eexists; vm_compute; reflexivity. Qed.
