(* ===== verification/Binds.v ===== *)
(** * Bind values ([thin/types.rs], [thin/bind.rs], [thin/execute.rs], [sql_convert.rs])

    The bind values of a statement, the type each is bound with, the metadata the
    execute message carries for a column of bind rows, the checks before the wire,
    and the resolution of named binds.  The shape that decides whether an open
    cursor may be reused agrees with the metadata on the wire. *)

From S2P Require Import Prelude.
From S2P Require Import Protocol.
From S2P Require Import Limits.
From S2P Require Import Writer.
From S2P Require Import Datetime.
From S2P Require Import Vector.
From S2P Require Import Sql.
From S2P Require Import SqlScan.
From S2P Require Import ShapeCache.

Definition ORA_TYPE_NUM_BINARY_INTEGER : Z := 3.
Definition ORA_TYPE_NUM_DATE : Z := 12.
Definition ORA_TYPE_NUM_BINARY_FLOAT : Z := 100.
Definition ORA_TYPE_NUM_BINARY_DOUBLE : Z := 101.
Definition ORA_TYPE_NUM_JSON : Z := 119.
Definition ORA_TYPE_NUM_TIMESTAMP : Z := 180.
Definition ORA_TYPE_NUM_TIMESTAMP_TZ : Z := 181.
Definition ORA_TYPE_NUM_INTERVAL_YM : Z := 182.
Definition ORA_TYPE_NUM_INTERVAL_DS : Z := 183.
Definition ORA_TYPE_NUM_TIMESTAMP_LTZ : Z := 231.
Definition ORA_TYPE_NUM_BOOLEAN : Z := 252.
Definition ORA_TYPE_SIZE_BINARY_DOUBLE : Z := 8.
Definition ORA_TYPE_SIZE_BINARY_FLOAT : Z := 4.
Definition ORA_TYPE_SIZE_BOOLEAN : Z := 4.
Definition ORA_TYPE_SIZE_NUMBER : Z := 22.
Definition ORA_TYPE_SIZE_INTERVAL_DS : Z := 11.
Definition ORA_TYPE_SIZE_INTERVAL_YM : Z := 5.
Definition TNS_VECTOR_MAX_LENGTH : Z := 1024 * 1024.
Definition TNS_JSON_MAX_LENGTH : Z := 32 * 1024 * 1024.
Definition CS_FORM_IMPLICIT : Z := 1.
Definition CS_FORM_NCHAR : Z := 2.
Definition TNS_BIND_USE_INDICATORS : Z := 1.
Definition TNS_BIND_ARRAY : Z := 64.
Definition TNS_LOB_PREFETCH_FLAG : Z := 33554432.
Definition TNS_CHARSET_UTF8 : Z := 873.

(** ** Values *)

(** A float is its bit pattern. *)
Inductive BindValue :=
| BNull
| BTypedNull (ora_type_num csfrm buffer_size : Z)
| BOutput (ora_type_num csfrm buffer_size : Z)
| BReturnOutput (ora_type_num csfrm buffer_size : Z)
| BInOut (value : BindValue) (out_buffer_size : Z)
| BObjectOutput (schema type_name : chars) (oid : bytes) (version buffer_size : Z) (is_return : bool)
| BObjectInput (schema type_name : chars) (oid : bytes) (version : Z) (image : bytes) (buffer_size : Z)
| BText (value : chars)
| BRaw (value : bytes)
| BLob (ora_type_num csfrm : Z) (locator : bytes)
| BNumber (value : chars)
| BBinaryInteger (value : chars)
| BBinaryDouble (bits : Z)
| BBinaryFloat (bits : Z)
| BBoolean (value : bool)
| BIntervalDS (days seconds microseconds : Z)
| BIntervalYM (years months : Z)
| BDateTime (year month day hour minute second : Z)
| BTimestamp (ora_type_num year month day hour minute second nanosecond : Z)
| BTimestampTz (year month day hour minute second nanosecond offset_minutes : Z)
| BArray (ora_type_num csfrm buffer_size max_elements : Z) (values : list (option BindValue))
| BVector (value : Vector)
| BJson (image : bytes)
| BCursor (cursor_id : Z).

Definition is_output_only (v : BindValue) : bool :=
  match v with
  | BOutput _ _ _ | BReturnOutput _ _ _ | BObjectOutput _ _ _ _ _ _ => true
  | BArray _ _ _ _ values => bool_decide (values = [])
  | _ => false
  end.

Definition is_return_output (v : BindValue) : bool :=
  match v with
  | BReturnOutput _ _ _ => true
  | BObjectOutput _ _ _ _ _ is_return => is_return
  | _ => false
  end.

Record BindTypeInfo := mkInfo { i_ora_type_num : Z; i_csfrm : Z; i_buffer_size : Z }.

Definition sat_mul_u32 (a b : Z) : Z := Z.min (a * b) U32_MAX.

Fixpoint bind_value_type_info (value : BindValue) : option BindTypeInfo :=
  match value with
  | BNull => None
  | BInOut value out_buffer_size =>
      let '(t, cs, input_size) :=
        match bind_value_type_info value with
        | Some info => (i_ora_type_num info, i_csfrm info, i_buffer_size info)
        | None => (ORA_TYPE_NUM_VARCHAR, CS_FORM_IMPLICIT, 0)
        end in
      Some (mkInfo t cs (Z.max (Z.max input_size out_buffer_size) 1))
  | BTypedNull t cs size | BOutput t cs size | BReturnOutput t cs size => Some (mkInfo t cs (Z.max size 1))
  | BObjectOutput _ _ _ _ size _ | BObjectInput _ _ _ _ _ size =>
      Some (mkInfo ORA_TYPE_NUM_OBJECT 0 (Z.max size 1))
  | BText value =>
      Some (mkInfo ORA_TYPE_NUM_VARCHAR CS_FORM_IMPLICIT
              (Z.max (sat_mul_u32 (Z.min (Zlen value) U32_MAX) 4) 1))
  | BRaw value => Some (mkInfo ORA_TYPE_NUM_RAW 0 (Z.max (Z.min (Zlen value) U32_MAX) 1))
  | BLob t cs _ => Some (mkInfo t cs 1)
  | BNumber _ => Some (mkInfo ORA_TYPE_NUM_NUMBER 0 ORA_TYPE_SIZE_NUMBER)
  | BBinaryInteger _ => Some (mkInfo ORA_TYPE_NUM_BINARY_INTEGER 0 ORA_TYPE_SIZE_NUMBER)
  | BBoolean _ => Some (mkInfo ORA_TYPE_NUM_BOOLEAN 0 ORA_TYPE_SIZE_BOOLEAN)
  | BBinaryDouble _ => Some (mkInfo ORA_TYPE_NUM_BINARY_DOUBLE 0 ORA_TYPE_SIZE_BINARY_DOUBLE)
  | BBinaryFloat _ => Some (mkInfo ORA_TYPE_NUM_BINARY_FLOAT 0 ORA_TYPE_SIZE_BINARY_FLOAT)
  | BIntervalDS _ _ _ => Some (mkInfo ORA_TYPE_NUM_INTERVAL_DS 0 ORA_TYPE_SIZE_INTERVAL_DS)
  | BIntervalYM _ _ => Some (mkInfo ORA_TYPE_NUM_INTERVAL_YM 0 ORA_TYPE_SIZE_INTERVAL_YM)
  | BDateTime _ _ _ _ _ _ => Some (mkInfo ORA_TYPE_NUM_DATE 0 ORA_TYPE_SIZE_DATE)
  | BTimestamp t _ _ _ _ _ _ _ =>
      Some (mkInfo t 0 (if t =? ORA_TYPE_NUM_TIMESTAMP_TZ then ORA_TYPE_SIZE_TIMESTAMP_TZ
                        else ORA_TYPE_SIZE_TIMESTAMP))
  | BTimestampTz _ _ _ _ _ _ _ _ => Some (mkInfo ORA_TYPE_NUM_TIMESTAMP_TZ 0 ORA_TYPE_SIZE_TIMESTAMP_TZ)
  | BArray t cs size _ _ => Some (mkInfo t cs (Z.max size 1))
  | BVector _ => Some (mkInfo ORA_TYPE_NUM_VECTOR 0 TNS_VECTOR_MAX_LENGTH)
  | BJson _ => Some (mkInfo ORA_TYPE_NUM_JSON 0 1)
  | BCursor _ => Some (mkInfo ORA_TYPE_NUM_CURSOR 0 4)
  end.

(** [output_bind] and [returning_output_bind] *)
Definition default_info (value : BindValue) : BindTypeInfo :=
  default (mkInfo ORA_TYPE_NUM_VARCHAR CS_FORM_IMPLICIT 1) (bind_value_type_info value).
Definition output_bind (value : BindValue) : BindValue :=
  match value with
  | BObjectOutput schema type_name oid version size _ =>
      BObjectOutput schema type_name oid version (Z.max size 1) false
  | _ => let info := default_info value in
         BOutput (i_ora_type_num info) (i_csfrm info) (i_buffer_size info)
  end.
Definition returning_output_bind (value : BindValue) : BindValue :=
  match value with
  | BObjectOutput schema type_name oid version size _ =>
      BObjectOutput schema type_name oid version (Z.max size 1) true
  | _ => let info := default_info value in
         BReturnOutput (i_ora_type_num info) (i_csfrm info) (i_buffer_size info)
  end.

Definition cursor_bind_template : BindValue := BTypedNull ORA_TYPE_NUM_CURSOR 0 4.
Definition is_cursor_bind_template (value : BindValue) : bool :=
  match value with BTypedNull t _ _ => t =? ORA_TYPE_NUM_CURSOR | _ => false end.

(** [public_dbtype_name_from_type_info] and [public_dbtype_name_from_bind] *)
Definition public_dbtype_name_from_type_info (t cs : Z) : string :=
  if t =? ORA_TYPE_NUM_BINARY_DOUBLE then "DB_TYPE_BINARY_DOUBLE"
  else if t =? ORA_TYPE_NUM_BINARY_FLOAT then "DB_TYPE_BINARY_FLOAT"
  else if t =? ORA_TYPE_NUM_INTERVAL_DS then "DB_TYPE_INTERVAL_DS"
  else if t =? ORA_TYPE_NUM_INTERVAL_YM then "DB_TYPE_INTERVAL_YM"
  else if t =? ORA_TYPE_NUM_BOOLEAN then "DB_TYPE_BOOLEAN"
  else if t =? ORA_TYPE_NUM_BINARY_INTEGER then "DB_TYPE_BINARY_INTEGER"
  else if t =? ORA_TYPE_NUM_NUMBER then "DB_TYPE_NUMBER"
  else if ((t =? ORA_TYPE_NUM_CHAR) || (t =? ORA_TYPE_NUM_VARCHAR)) && (cs =? CS_FORM_NCHAR)
  then "DB_TYPE_NVARCHAR"
  else if t =? ORA_TYPE_NUM_CHAR then "DB_TYPE_CHAR"
  else if t =? ORA_TYPE_NUM_VARCHAR then "DB_TYPE_VARCHAR"
  else if (t =? ORA_TYPE_NUM_LONG) && (cs =? CS_FORM_NCHAR) then "DB_TYPE_LONG_NVARCHAR"
  else if t =? ORA_TYPE_NUM_LONG then "DB_TYPE_LONG"
  else if t =? ORA_TYPE_NUM_LONG_RAW then "DB_TYPE_LONG_RAW"
  else if t =? ORA_TYPE_NUM_RAW then "DB_TYPE_RAW"
  else if t =? ORA_TYPE_NUM_DATE then "DB_TYPE_DATE"
  else if t =? ORA_TYPE_NUM_TIMESTAMP then "DB_TYPE_TIMESTAMP"
  else if t =? ORA_TYPE_NUM_TIMESTAMP_LTZ then "DB_TYPE_TIMESTAMP_LTZ"
  else if t =? ORA_TYPE_NUM_TIMESTAMP_TZ then "DB_TYPE_TIMESTAMP_TZ"
  else if t =? ORA_TYPE_NUM_CURSOR then "DB_TYPE_CURSOR"
  else if t =? ORA_TYPE_NUM_OBJECT then "DB_TYPE_OBJECT"
  else if t =? ORA_TYPE_NUM_VECTOR then "DB_TYPE_VECTOR"
  else if t =? ORA_TYPE_NUM_JSON then "DB_TYPE_JSON"
  else "DB_TYPE_VARCHAR".

Fixpoint public_dbtype_name_from_bind (value : BindValue) : string :=
  match value with
  | BTypedNull t cs _ | BOutput t cs _ | BReturnOutput t cs _ | BArray t cs _ _ _ =>
      public_dbtype_name_from_type_info t cs
  | BObjectOutput _ _ _ _ _ _ | BObjectInput _ _ _ _ _ _ => "DB_TYPE_OBJECT"
  | BInOut value _ => public_dbtype_name_from_bind value
  | BText _ => "DB_TYPE_VARCHAR"
  | BRaw _ => "DB_TYPE_RAW"
  | BLob t cs _ =>
      if (t =? ORA_TYPE_NUM_BLOB)%Z then "DB_TYPE_BLOB"
      else if ((t =? ORA_TYPE_NUM_CLOB) && (cs =? CS_FORM_NCHAR))%Z then "DB_TYPE_NCLOB"
      else "DB_TYPE_CLOB"
  | BNumber _ => "DB_TYPE_NUMBER"
  | BBinaryInteger _ => "DB_TYPE_BINARY_INTEGER"
  | BBinaryDouble _ => "DB_TYPE_BINARY_DOUBLE"
  | BBinaryFloat _ => "DB_TYPE_BINARY_FLOAT"
  | BBoolean _ => "DB_TYPE_BOOLEAN"
  | BIntervalDS _ _ _ => "DB_TYPE_INTERVAL_DS"
  | BIntervalYM _ _ => "DB_TYPE_INTERVAL_YM"
  | BDateTime _ _ _ _ _ _ => "DB_TYPE_DATE"
  | BTimestamp t _ _ _ _ _ _ _ =>
      if (t =? ORA_TYPE_NUM_TIMESTAMP_LTZ)%Z then "DB_TYPE_TIMESTAMP_LTZ"
      else if (t =? ORA_TYPE_NUM_TIMESTAMP_TZ)%Z then "DB_TYPE_TIMESTAMP_TZ"
      else "DB_TYPE_TIMESTAMP"
  | BTimestampTz _ _ _ _ _ _ _ _ => "DB_TYPE_TIMESTAMP_TZ"
  | BVector _ => "DB_TYPE_VECTOR"
  | BJson _ => "DB_TYPE_JSON"
  | BCursor _ => "DB_TYPE_CURSOR"
  | BNull => "DB_TYPE_VARCHAR"
  end%string.

(** ** Metadata on the wire *)

Abbreviation BindRows := (list (list BindValue)).

Definition bind_metadata (value : BindValue) : Z * Z * Z :=
  match bind_value_type_info value with
  | Some info => (i_ora_type_num info, i_csfrm info, i_buffer_size info)
  | None => (ORA_TYPE_NUM_VARCHAR, CS_FORM_IMPLICIT, 1)
  end.

Definition is_text_type (t : Z) : bool :=
  (t =? ORA_TYPE_NUM_CHAR) || (t =? ORA_TYPE_NUM_VARCHAR) || (t =? ORA_TYPE_NUM_LONG).
Definition is_raw_type (t : Z) : bool := (t =? ORA_TYPE_NUM_RAW) || (t =? ORA_TYPE_NUM_LONG_RAW).
Definition is_long_type (t : Z) : bool := (t =? ORA_TYPE_NUM_LONG) || (t =? ORA_TYPE_NUM_LONG_RAW).

Definition bind_metadata_types_are_compatible (left right : Z) : bool :=
  (left =? right) || (is_text_type left && is_text_type right) || (is_raw_type left && is_raw_type right).

Definition promoted_bind_metadata_type (left right : Z) : Z :=
  if is_long_type left then left else if is_long_type right then right else left.

(** The loop of [write_bind_metadata_for_rows] over the rows after the first. *)
Record ColumnType := mkColumnType {
  metadata_value : BindValue;
  column_type : Z * Z * Z;
  needs_type_inference : bool
}.

Definition column_type_step (index : nat) (s : ColumnType) (row : list BindValue) : ColumnType :=
  match row !! index with
  | None => s
  | Some value =>
      if needs_type_inference s then
        match value with
        | BNull => s
        | _ => mkColumnType value (bind_metadata value) false
        end
      else
        let '(t, cs, size) := column_type s in
        let '(row_t, row_cs, row_size) := bind_metadata value in
        if (row_cs =? cs) && bind_metadata_types_are_compatible t row_t
        then mkColumnType (metadata_value s) (promoted_bind_metadata_type t row_t, cs, Z.max size row_size)
               false
        else s
  end.

Definition infer_column_type (first : BindValue) (rows : BindRows) (index : nat) : ColumnType :=
  foldl (column_type_step index)
    (mkColumnType first (bind_metadata first) (match first with BNull => true | _ => false end)) rows.

Definition write_bind_metadata_with_type (value : BindValue) (t cs size ttc_field_version : Z)
  : WriterM () :=
  let '(flags, max_elements) :=
    match value with
    | BArray _ _ _ max_elements _ => (Z.lor TNS_BIND_USE_INDICATORS TNS_BIND_ARRAY, max_elements)
    | _ => (TNS_BIND_USE_INDICATORS, 0)
    end in
  let size := if t =? ORA_TYPE_NUM_JSON then TNS_JSON_MAX_LENGTH else size in
  modify (write_u8 t);; modify (write_u8 flags);; modify (write_u8 0);; modify (write_u8 0);;
  modify (write_ub4 size);; modify (write_ub4 max_elements);;
  let cont_flags :=
    if (t =? ORA_TYPE_NUM_CLOB) || (t =? ORA_TYPE_NUM_BLOB) || (t =? ORA_TYPE_NUM_VECTOR)
       || (t =? ORA_TYPE_NUM_JSON)
    then TNS_LOB_PREFETCH_FLAG else 0 in
  modify (write_ub8 cont_flags);;
  (match value with
   | BObjectOutput _ _ oid version _ _ | BObjectInput _ _ oid version _ _ =>
       write_bytes_with_two_lengths (Some oid);; modify (write_ub4 version)
   | _ => modify (write_ub4 0);; modify (write_ub2 0)
   end);;
  modify (write_ub2 (if negb (cs =? 0) then TNS_CHARSET_UTF8 else 0));;
  modify (write_u8 cs);;
  let lob_prefetch_length :=
    if t =? ORA_TYPE_NUM_VECTOR then TNS_VECTOR_MAX_LENGTH
    else if t =? ORA_TYPE_NUM_JSON then TNS_JSON_MAX_LENGTH else 0 in
  modify (write_ub4 lob_prefetch_length);;
  if carries_oaccolid ttc_field_version then modify (write_ub4 0) else mret ().

Definition write_bind_metadata_for_rows (bind_rows : BindRows) (index : nat) (ttc_field_version : Z)
  : WriterM (Z * Z * Z) :=
  match bind_rows with
  | [] => mret (ORA_TYPE_NUM_VARCHAR, CS_FORM_IMPLICIT, 1)
  | first_row :: rows =>
      match first_row !! index with
      | None => mret (ORA_TYPE_NUM_VARCHAR, CS_FORM_IMPLICIT, 1)
      | Some first_value =>
          let s := infer_column_type first_value rows index in
          let '(t, cs, size) := column_type s in
          write_bind_metadata_with_type (metadata_value s) t cs size ttc_field_version;;
          mret (t, cs, size)
      end
  end.

(** ** Shapes ([oracledb/src/lib.rs]) *)

Record BindShapeSlot := mkSlot { family : Z; slot_csfrm : Z; untyped_null : bool }.

#[global] Instance BindShapeSlot_eq_dec : EqDecision BindShapeSlot.
Proof. solve_decision. Defined.

Definition bind_type_family (t : Z) : Z :=
  if (t =? ORA_TYPE_NUM_CHAR) || (t =? ORA_TYPE_NUM_LONG) then ORA_TYPE_NUM_VARCHAR
  else if t =? ORA_TYPE_NUM_LONG_RAW then ORA_TYPE_NUM_RAW
  else t.

(** [iter().find_map(f)] *)
Fixpoint find_map {A B} (f : A → option B) (l : list A) : option B :=
  match l with
  | [] => None
  | x :: l => match f x with Some y => Some y | None => find_map f l end
  end.

Definition row_type (index : nat) (row : list BindValue) : option BindTypeInfo :=
  value ← row !! index; bind_value_type_info value.

Definition shape_slot (bind_rows : BindRows) (index : nat) : BindShapeSlot :=
  match find_map (row_type index) bind_rows with
  | Some info => mkSlot (bind_type_family (i_ora_type_num info)) (i_csfrm info) false
  | None => mkSlot ORA_TYPE_NUM_VARCHAR CS_FORM_IMPLICIT true
  end.

Definition bind_type_shape (bind_rows : BindRows) : list BindShapeSlot :=
  match bind_rows with
  | [] => []
  | first_row :: _ => map (shape_slot bind_rows) (seq 0 (length first_row))
  end.

Definition slot_compatible (cached new : BindShapeSlot) : bool :=
  untyped_null new || ((family cached =? family new) && (slot_csfrm cached =? slot_csfrm new)).

Definition bind_shape_is_compatible (cached new : list BindShapeSlot) : bool :=
  (length cached =? length new)%nat
  && forallb (λ '(cached, new), slot_compatible cached new) (combine cached new).

(** ** Checks and named binds ([oracledb/src/sql_convert.rs]) *)

Inductive BindError :=
| BindSql (e : SqlError)
| PositionalCountMismatch (expected actual : Z)
| MissingNamedBind (name : chars)
| ExtraNamedBind (name : chars)
| BatchRowWidthMismatch (row_index expected actual : Z)
| BatchColumnTypeMismatch (row_index column_index : Z) (expected actual : string).
Abbreviation BindRes := (Result BindError).

Definition from_sql {A} (r : SqlRes A) : BindRes A :=
  match r with
  | Ok a => Ok a
  | Err e => Err (BindSql e)
  | Panic => Panic
  | Diverge => Diverge
  end.

Definition bind_shape_validation_enabled (sql : chars) : bool := negb (statement_is_ddl sql).

(** [validate_bind_rows_shape]: the loop over the rows after the first. *)
Fixpoint check_widths (row_index expected : Z) (rows : BindRows) : BindRes () :=
  match rows with
  | [] => Ok ()
  | row :: rows =>
      if Zlen row =? expected then check_widths (row_index + 1) expected rows
      else Err (BatchRowWidthMismatch row_index expected (Zlen row))
  end.
Definition validate_bind_rows_shape (bind_rows : BindRows) : BindRes () :=
  match bind_rows with
  | [] => Ok ()
  | first_row :: rows => check_widths 1 (Zlen first_row) rows
  end.

(** [validate_bind_rows_types]: the two loops. *)
Fixpoint check_column (column_index : nat) (row_index : Z) (established : option (Z * Z * string))
  (rows : BindRows) : BindRes () :=
  match rows with
  | [] => Ok ()
  | row :: rows =>
      match row !! column_index with
      | None => check_column column_index (row_index + 1) established rows
      | Some value =>
          match bind_value_type_info value with
          | None => check_column column_index (row_index + 1) established rows
          | Some info =>
              let fam := bind_type_family (i_ora_type_num info) in
              match established with
              | None => check_column column_index (row_index + 1)
                          (Some (fam, i_csfrm info, public_dbtype_name_from_bind value)) rows
              | Some (f, cs, expected) =>
                  if negb (fam =? f) || negb (i_csfrm info =? cs)
                  then Err (BatchColumnTypeMismatch row_index (Z.of_nat column_index) expected
                              (public_dbtype_name_from_bind value))
                  else check_column column_index (row_index + 1) established rows
              end
          end
      end
  end.

Fixpoint check_all_columns (columns : list nat) (rows : BindRows) : BindRes () :=
  match columns with
  | [] => Ok ()
  | c :: columns => check_column c 0 None rows;; check_all_columns columns rows
  end.

Definition validate_bind_rows_types (bind_rows : BindRows) : BindRes () :=
  match bind_rows with
  | [] => Ok ()
  | first_row :: _ =>
      if (length bind_rows <? 2)%nat then Ok ()
      else check_all_columns (seq 0 (length first_row)) bind_rows
  end.

(** [order_named_binds]: the loop over the placeholders; the values taken and what
    remains. *)
Fixpoint take_named (order : list chars) (remaining : list (chars * BindValue))
  : BindRes (list BindValue * list (chars * BindValue)) :=
  match order with
  | [] => Ok ([], remaining)
  | placeholder :: order =>
      match list_find (λ kv, bind_name_matches_key placeholder (fst kv) = true) remaining with
      | None => Err (MissingNamedBind placeholder)
      | Some (pos, (_, value)) =>
          '(out, rest) ← take_named order (delete pos remaining); Ok (value :: out, rest)
      end
  end.

Inductive Params :=
| ParamsNone
| ParamsPositional (binds : list BindValue)
| ParamsNamed (named : list (chars * BindValue)).

Section Named.
Context {U : Unicode}.

Definition order_named_binds (sql : chars) (named : list (chars * BindValue)) : BindRes (list BindValue) :=
  if negb (bind_shape_validation_enabled sql) then Ok (map snd named)
  else
    order ← from_sql (unique_bind_names sql);
    '(out, remaining) ← take_named order named;
    match remaining with
    | (name, _) :: _ => Err (ExtraNamedBind name)
    | [] => Ok out
    end.

Definition validate_positional_bind_count (sql : chars) (actual : Z) : BindRes () :=
  if negb (bind_shape_validation_enabled sql) then Ok ()
  else
    names ← from_sql (bind_names_per_occurrence sql);
    if Zlen names =? actual then Ok () else Err (PositionalCountMismatch (Zlen names) actual).

Definition resolve_params (sql : chars) (params : Params) : BindRes (list BindValue) :=
  match params with
  | ParamsNone => validate_positional_bind_count sql 0;; Ok []
  | ParamsPositional binds => validate_positional_bind_count sql (Zlen binds);; Ok binds
  | ParamsNamed named => order_named_binds sql named
  end.

Definition declared_bind_count (statement : chars) : BindRes Z :=
  names ← from_sql (bind_names_per_occurrence statement); Ok (Zlen names).

End Named.

(** [bind_value_is_output], [bind_rows_need_iterative_plsql] ([cursor_logic.rs]) *)
Definition bind_value_is_output (value : BindValue) : bool :=
  match value with
  | BOutput _ _ _ | BReturnOutput _ _ _ | BObjectOutput _ _ _ _ _ _ | BInOut _ _ => true
  | _ => false
  end.
Definition bind_rows_need_iterative_plsql (statement : chars) (bind_rows : BindRows) : bool :=
  statement_is_plsql statement && existsb (existsb bind_value_is_output) bind_rows.

(** ** The shape and the wire agree *)

Lemma type_info_none v : bind_value_type_info v = None ↔ v = BNull.
Proof. split; [destruct v; cbn; try done; by repeat case_match|by intros ->]. Qed.

Lemma bind_metadata_info v i : bind_value_type_info v = Some i →
  bind_metadata v = (i_ora_type_num i, i_csfrm i, i_buffer_size i).
Proof. unfold bind_metadata. by intros ->. Qed.

Ltac type_cases :=
  unfold bind_type_family, bind_metadata_types_are_compatible, promoted_bind_metadata_type, is_text_type,
    is_raw_type, is_long_type, ORA_TYPE_NUM_CHAR, ORA_TYPE_NUM_LONG, ORA_TYPE_NUM_VARCHAR,
    ORA_TYPE_NUM_LONG_RAW, ORA_TYPE_NUM_RAW in *;
  repeat match goal with |- context [?a =? ?b] => destruct (Z.eqb_spec a b); subst end;
  cbn [andb orb] in *; intros; try lia; try done.

(** The writer's compatibility is equality of families. *)
Lemma compatible_family t u :
  bind_metadata_types_are_compatible t u = (bind_type_family t =? bind_type_family u).
Proof. type_cases. Qed.

Lemma promoted_family t u :
  bind_type_family t = bind_type_family u →
  bind_type_family (promoted_bind_metadata_type t u) = bind_type_family t.
Proof. type_cases. Qed.

(** The state of the loop agrees with the first typed row seen. *)
Definition column_ok (info : option BindTypeInfo) (s : ColumnType) : Prop :=
  let '(t, cs, size) := column_type s in
  match info with
  | None => needs_type_inference s = true ∧ column_type s = bind_metadata BNull
  | Some i => needs_type_inference s = false ∧ bind_type_family t = bind_type_family (i_ora_type_num i) ∧
              cs = i_csfrm i ∧ i_buffer_size i <= size
  end.

Lemma column_ok_step index info s row :
  column_ok info s →
  column_ok (match info with Some i => Some i | None => row_type index row end)
    (column_type_step index s row).
Proof.
  unfold column_ok, column_type_step, row_type. destruct s as [mv [[t cs] size] need].
  cbn [column_type needs_type_inference metadata_value].
  destruct info as [i|].
  - intros (-> & Hf & -> & Hs). destruct (row !! index) as [v|]; [|done].
    destruct (bind_metadata v) as [[rt rcs] rs]. rewrite compatible_family.
    destruct (Z.eqb_spec rcs (i_csfrm i)) as [->|]; cbn [andb]; [|done].
    destruct (Z.eqb_spec (bind_type_family t) (bind_type_family rt)) as [Hc|]; [|done].
    cbn. rewrite promoted_family by done. split_and!; [done|done|done|lia].
  - intros [-> Hm]. destruct (row !! index) as [v|]; [|done]. cbn.
    destruct (bind_value_type_info v) as [i|] eqn:Hi.
    + rewrite (bind_metadata_info _ _ Hi). destruct v; [done|..]; cbn; split_and!; done || lia.
    + apply type_info_none in Hi as ->. done.
Qed.

Lemma infer_column_ok index rows : ∀ info s, column_ok info s →
  column_ok (match info with Some i => Some i | None => find_map (row_type index) rows end)
    (foldl (column_type_step index) s rows).
Proof.
  induction rows as [|row rows IH]; intros info s Hs; cbn; [by destruct info|].
  pose proof (column_ok_step index info s row Hs) as Hr. apply IH in Hr.
  destruct info as [i|]; [done|]. by destruct (row_type index row).
Qed.

Lemma infer_agrees first_row first rows index :
  first_row !! index = Some first →
  column_ok (find_map (row_type index) (first_row :: rows)) (infer_column_type first rows index).
Proof.
  intros Hf. unfold infer_column_type. cbn [find_map]. unfold row_type at 1. rewrite Hf. cbn.
  apply (infer_column_ok index rows (bind_value_type_info first)).
  destruct (bind_value_type_info first) as [i|] eqn:Hi.
  - unfold column_ok. cbn [column_type needs_type_inference]. rewrite (bind_metadata_info _ _ Hi).
    split_and!; try done. by destruct first.
  - by apply type_info_none in Hi as ->.
Qed.

(** Every typed row of a checked column agrees with the first. *)
Lemma check_column_ok index rows : ∀ row_index established,
  check_column index row_index established rows = Ok () →
  ∀ row info, row ∈ rows → row_type index row = Some info →
    match established with
    | Some (f, cs, _) => bind_type_family (i_ora_type_num info) = f ∧ i_csfrm info = cs
    | None => ∃ i, find_map (row_type index) rows = Some i ∧
        bind_type_family (i_ora_type_num info) = bind_type_family (i_ora_type_num i) ∧
        i_csfrm info = i_csfrm i
    end.
Proof.
  induction rows as [|r rows IH]; intros ri est Hc row info Hin Ht; [by apply not_elem_of_nil in Hin|].
  cbn [check_column find_map] in *. unfold row_type in Ht at 1. unfold row_type at 1.
  destruct (r !! index) as [v|] eqn:Hr; cbn.
  2: { apply elem_of_cons in Hin as [->|Hin]; [by rewrite Hr in Ht|]. exact (IH _ _ Hc _ _ Hin Ht). }
  destruct (bind_value_type_info v) as [i|] eqn:Hi.
  2: { apply elem_of_cons in Hin as [->|Hin]; [rewrite Hr in Ht; cbn in Ht; congruence|].
       exact (IH _ _ Hc _ _ Hin Ht). }
  assert (row = r → info = i) as Hrow by (intros ->; rewrite Hr in Ht; cbn in Ht; congruence).
  apply elem_of_cons in Hin. destruct est as [[[f cs] e]|].
  - destruct (Z.eqb_spec (bind_type_family (i_ora_type_num i)) f) as [Hf|]; cbn [negb orb] in Hc; [|done].
    destruct (Z.eqb_spec (i_csfrm i) cs) as [Hcs|]; cbn [negb] in Hc; [|done].
    destruct Hin as [Heq|Hin]; [by rewrite (Hrow Heq)|]. exact (IH _ _ Hc _ _ Hin Ht).
  - exists i. split; [done|]. destruct Hin as [Heq|Hin]; [by rewrite (Hrow Heq)|].
    exact (IH _ _ Hc _ _ Hin Ht).
Qed.

Lemma check_all_columns_ok columns rows c :
  check_all_columns columns rows = Ok () → c ∈ columns → check_column c 0 None rows = Ok ().
Proof.
  induction columns as [|d columns IH]; intros Hc Hin; [by apply not_elem_of_nil in Hin|].
  cbn in Hc. destruct (check_column d 0 None rows) as [[]| | |] eqn:Hd; try done. cbn in Hc.
  apply elem_of_cons in Hin as [->|Hin]; [done|by apply IH].
Qed.

Lemma find_map_some {A B} (f : A → option B) l x y : x ∈ l → f x = Some y → is_Some (find_map f l).
Proof.
  induction l as [|z l IH]; intros Hin Hx; [by apply not_elem_of_nil in Hin|]. cbn.
  destruct (f z) eqn:Hz; [by eexists|]. apply elem_of_cons in Hin as [->|Hin]; [congruence|by apply IH].
Qed.

(** Typed rows that pass the checks agree with the first typed one. *)
Lemma typed_rows_agree first_row rows index row info i :
  validate_bind_rows_types (first_row :: rows) = Ok () → (index < length first_row)%nat →
  find_map (row_type index) (first_row :: rows) = Some i → row ∈ first_row :: rows → row_type index row = Some info →
  bind_type_family (i_ora_type_num info) = bind_type_family (i_ora_type_num i) ∧ i_csfrm info = i_csfrm i.
Proof.
  intros Hv Hlt Hfm Hin Ht. destruct rows as [|r rows].
  { apply list_elem_of_singleton in Hin as ->. cbn [find_map] in Hfm. rewrite Ht in Hfm. naive_solver. }
  pose proof (check_column_ok index (first_row :: r :: rows) 0 None) as Hc.
  destruct (Hc) with (row := row) (info := info) as (i' & Hi' & ? & ?); [|done..|naive_solver].
  apply (check_all_columns_ok (seq 0 (length first_row))); [done|]. apply elem_of_seq. lia.
Qed.

(** C25: The statement cache and the execute message read the same types off the
    binds.  For every bind position, the type the writer puts on the wire has the
    family and the character-set form of the position's slot in the shape that
    guards cursor reuse; when the rows pass the checks made before the wire, every
    typed value of the column has that family and form, so that no row is written
    under another row's type. *)
Theorem bind_shape_matches_wire first_row rows index first :
  first_row !! index = Some first →
  let bind_rows := first_row :: rows in
  let '(t, cs, _) := column_type (infer_column_type first rows index) in
  let slot := shape_slot bind_rows index in
  bind_type_shape bind_rows !! index = Some slot ∧
  bind_type_family t = family slot ∧ cs = slot_csfrm slot ∧
  (validate_bind_rows_types bind_rows = Ok () →
   ∀ row value info, row ∈ bind_rows → row !! index = Some value →
     bind_value_type_info value = Some info →
     bind_type_family (i_ora_type_num info) = family slot ∧ i_csfrm info = slot_csfrm slot ∧
     untyped_null slot = false).
Proof.
  intros Hf. pose proof (infer_agrees first_row first rows index Hf) as Ha.
  unfold column_ok in Ha. destruct (column_type (infer_column_type first rows index)) as [[t cs] size].
  pose proof (lookup_lt_Some _ _ _ Hf) as Hlt. cbv zeta.
  assert (bind_type_shape (first_row :: rows) !! index = Some (shape_slot (first_row :: rows) index)) as Hs.
  { unfold bind_type_shape. rewrite list_lookup_fmap, lookup_seq_lt by done. done. }
  split; [done|]. unfold shape_slot.
  destruct (find_map (row_type index) (first_row :: rows)) as [i|] eqn:Hfm.
  2: { destruct Ha as [_ Hb]. injection Hb as -> -> ->. split_and!; [done|done|].
       intros _ row value info Hin Hv Hi.
       destruct (find_map_some (row_type index) (first_row :: rows) row info Hin) as [? Heq]; [|congruence].
       unfold row_type. by rewrite Hv. }
  destruct Ha as (_ & -> & -> & _). split_and!; [done|done|].
  intros Hv row value info Hin Hr Hi. cbn [family slot_csfrm untyped_null].
  assert (row_type index row = Some info) as Ht by (unfold row_type; by rewrite Hr).
  by destruct (typed_rows_agree first_row rows index row info i Hv Hlt Hfm Hin Ht) as [? ?].
Qed.

(** ** Named binds *)

Definition key_name (key : chars) : chars := default key (strip_prefix [COLON] key).

Lemma matches_same_name p k : bind_name_matches_key p k = true ↔ same_name p (key_name k).
Proof. done. Qed.

(** Each placeholder took a value whose key names it; the rest remains. *)
Definition taken (order : list chars) (named rest : list (chars * BindValue)) (out : list BindValue) : Prop :=
  ∃ keys, named ≡ₚ zip keys out ++ rest ∧ length keys = length out ∧
    Forall2 (λ p k, same_name p (key_name k)) order keys.

Lemma take_named_spec order : ∀ named,
  match take_named order named with
  | Ok (out, rest) => taken order named rest out
  | Err (MissingNamedBind n) => ∃ before after rest out,
      order = before ++ n :: after ∧ taken before named rest out ∧
      ∀ kv, kv ∈ rest → ¬ same_name n (key_name (fst kv))
  | _ => False
  end.
Proof.
  induction order as [|p order IH]; intros named; cbn [take_named].
  { exists []. by repeat constructor. }
  destruct (list_find _ named) as [[pos [k v]]|] eqn:Hf.
  - apply list_find_Some in Hf as (Hl & Hm & _). pose proof (delete_Permutation _ _ _ Hl) as Hp.
    specialize (IH (delete pos named)).
    destruct (take_named order (delete pos named)) as [[out rest]|[]| |]; cbn; try done.
    + destruct IH as (keys & Hk & Hlen & Hfa). exists (k :: keys). cbn. rewrite Hp, Hk, Hlen.
      split_and!; [done|done|by constructor].
    + destruct IH as (before & after & rest & out & -> & (keys & Hk & Hlen & Hfa) & Hno).
      exists (p :: before), after, rest, (v :: out). split; [done|]. split; [|done].
      exists (k :: keys). cbn. rewrite Hp, Hk, Hlen. split_and!; [done|done|by constructor].
  - apply list_find_None in Hf. exists [], order, named, []. split; [done|]. split.
    + exists []. by repeat constructor.
    + intros kv Hkv. rewrite list.Forall_forall in Hf. by apply Hf.
Qed.

Lemma taken_key order named rest out k v :
  taken order named rest out → (k, v) ∈ named →
  (k, v) ∈ rest ∨ ∃ p, p ∈ order ∧ same_name p (key_name k).
Proof.
  intros (keys & Hp & Hlen & Hf) Hin. rewrite Hp, elem_of_app in Hin. destruct Hin as [Hz|]; [right|by left].
  apply elem_of_zip_l in Hz. apply list_elem_of_lookup in Hz as (i & Hi).
  destruct (Forall2_lookup_r _ _ _ _ _ Hf Hi) as (p & Hpi & Hm).
  exists p. split; [by eapply list_elem_of_lookup_2|done].
Qed.

Lemma taken_placeholder order named rest out p :
  taken order named rest out → p ∈ order →
  ∃ k v, same_name p (key_name k) ∧ (k, v) :: rest ⊆+ named.
Proof.
  intros (keys & Hp & Hlen & Hf) Hin. apply list_elem_of_lookup in Hin as (i & Hi).
  destruct (Forall2_lookup_l _ _ _ _ _ Hf Hi) as (k & Hk & Hm).
  destruct (lookup_lt_is_Some_2 out i) as [v Hv]; [apply lookup_lt_Some in Hk; lia|].
  exists k, v. split; [done|]. rewrite Hp. change ((k, v) :: rest) with ([(k, v)] ++ rest).
  apply submseteq_app; [|done]. apply singleton_submseteq_l.
  apply list_elem_of_lookup. exists i. by rewrite lookup_zip_with, Hk, Hv.
Qed.

Lemma distinct_split before n after :
  distinct_names (before ++ n :: after) → ∀ p, p ∈ before → ¬ same_name p n.
Proof.
  unfold distinct_names. induction before as [|b before IH]; intros Hd p Hp; [by apply not_elem_of_nil in Hp|].
  inversion Hd as [|x l Hall Hrest]; subst. apply elem_of_cons in Hp as [->|Hp]; [|by apply IH].
  rewrite list.Forall_forall in Hall. apply Hall. apply elem_of_app. right. by left.
Qed.

Section NamedExact.
Context {U : Unicode}.

(** C24: Named binds are resolved exactly.  For a statement that is not DDL the result lists
    one value per distinct placeholder in order of first appearance, and the supplied pairs
    are exactly those values, each under a key that names its placeholder; a name reported
    missing is a placeholder no key names; a key reported extra names no placeholder, or
    names one that another pair was taken for.  The values given to DDL, whose text is not
    scanned, are passed on in the order in which they were supplied, whatever their names. *)
Theorem named_binds_exact sql named :
  if statement_is_ddl sql then order_named_binds sql named = Ok (map snd named) else
  match unique_bind_names sql, order_named_binds sql named with
  | Ok order, Ok out => taken order named [] out
  | Ok order, Err (MissingNamedBind n) =>
      n ∈ order ∧ ∀ k v, (k, v) ∈ named → ¬ same_name n (key_name k)
  | Ok order, Err (ExtraNamedBind k) => ∃ v, (k, v) ∈ named ∧
      ∀ p, p ∈ order → same_name p (key_name k) →
        ∃ k' v', same_name p (key_name k') ∧ [(k', v'); (k, v)] ⊆+ named
  | Err e, Err (BindSql e') => e = e'
  | _, _ => False
  end.
Proof.
  unfold order_named_binds, bind_shape_validation_enabled. destruct (statement_is_ddl sql); cbn [negb]; [done|].
  pose proof (unique_bind_names_returns sql) as Hr.
  assert (∀ order, unique_bind_names sql = Ok order → distinct_names order) as Hdist.
  { intros order. unfold unique_bind_names. destruct (scan_bind_names sql) as [ns| | |]; cbn; try done.
    intros [= <-]. apply push_names_spec. constructor. }
  destruct (unique_bind_names sql) as [order|e| |]; try done. cbn.
  pose proof (take_named_spec order named) as Ht.
  destruct (take_named order named) as [[out rest]|[]| |]; cbn; try done.
  - destruct rest as [|[k v] rest]; cbn; [done|].
    assert ((k, v) ∈ named) as Hin.
    { destruct Ht as (keys & -> & _). apply elem_of_app. right. by left. }
    exists v. split; [done|]. intros p Hp _.
    destruct (taken_placeholder _ _ _ _ _ Ht Hp) as (k' & v' & Hm & Hs). exists k', v'. split; [done|].
    etrans; [|exact Hs]. apply submseteq_skip. apply singleton_submseteq_l. by left.
  - destruct Ht as (before & after & rest & out & -> & Ht & Hno). split; [apply elem_of_app; right; by left|].
    intros k v Hin Hm. destruct (taken_key _ _ _ _ _ _ Ht Hin) as [Hrest|(p & Hp & Hpk)].
    + by apply (Hno _ Hrest).
    + apply (distinct_split _ _ _ (Hdist _ eq_refl) p Hp). etrans; [exact Hpk|]. by symmetry.
Qed.

End NamedExact.

(** A batch whose first row has an untyped NULL and whose texts differ in size. *)
Definition sample_rows : BindRows :=
  [[BNull; BText (txt "ab")]; [BNumber (txt "1"); BTypedNull ORA_TYPE_NUM_LONG CS_FORM_IMPLICIT 9]].

Lemma bind_shape_matches_wire_witness :
  bind_type_shape sample_rows = [mkSlot ORA_TYPE_NUM_NUMBER 0 false; mkSlot ORA_TYPE_NUM_VARCHAR 1 false] ∧
  column_type (infer_column_type (BText (txt "ab")) (tail sample_rows) 1) = (ORA_TYPE_NUM_LONG, 1, 9) ∧
  bind_type_family ORA_TYPE_NUM_LONG = family (shape_slot sample_rows 1).
Proof.
  split; [reflexivity|]. split; [reflexivity|].
  apply (bind_shape_matches_wire [BNull; BText (txt "ab")] (tail sample_rows) 1 (BText (txt "ab"))).
  reflexivity.
Defined.

Lemma named_binds_exact_witness :
  let sql := txt "select :b, :A, :a from dual" in
  let named := [(txt ":a", BNumber (txt "1")); (txt "B", BNumber (txt "2"))] in
  order_named_binds sql named = Ok [BNumber (txt "2"); BNumber (txt "1")] ∧
  taken [txt "b"; txt "A"] named [] [BNumber (txt "2"); BNumber (txt "1")].
Proof.
  split; [vm_compute; reflexivity|].
  exact (named_binds_exact (txt "select :b, :A, :a from dual")
    [(txt ":a", BNumber (txt "1")); (txt "B", BNumber (txt "2"))]).
Defined.
