(* ===== verification/SqlKind.v ===== *)
(** * Which statements return rows ([oracledb/src/lib.rs], [SqlStatementCursor])

    [statement_is_query] walks the common table expressions of a [WITH] before it
    looks at the statement's keyword.  The cursor tests ASCII bytes only, so the
    text is its list of characters and the index is the suffix it leaves.

    The classifiers of [Sql] look for the first word after white space only; the two
    never claim the same statement. *)

From S2P Require Import Prelude.
From S2P Require Import Protocol.
From S2P Require Import Sql.
From S2P Require Import SqlScan.
From S2P Require Import ShapeCache.
From S2P Require Import Binds.

Definition RETURN : Z := 13.
Definition LPAREN : Z := 40.
Definition RPAREN : Z := 41.
Definition COMMA : Z := 44.

(** [skip_line_comment], after the two dashes. *)
Definition skip_line_comment (rest : chars) : chars :=
  snd (span (λ c, negb ((c =? NEWLINE) || (c =? RETURN))) (drop 2 rest)).

(** The loops that look for a pair of characters: whether it was found, and the
    suffix reached (the last character when it was not). *)
Fixpoint find_close (a b : Z) (rest : chars) : bool * chars :=
  match rest with
  | c :: ((d :: rest') as tail) => if (c =? a) && (d =? b) then (true, rest') else find_close a b tail
  | _ => (false, rest)
  end.

Definition skip_block_comment (rest : chars) : bool * chars := find_close STAR SLASH (drop 2 rest).

(** [skip_trivia]; each comment consumes two characters. *)
Fixpoint skip_trivia_loop (fuel : nat) (rest : chars) : chars :=
  let rest := snd (span is_ascii_whitespace rest) in
  match fuel with
  | O => rest
  | S fuel =>
      if starts_with [DASH; DASH] rest then skip_trivia_loop fuel (skip_line_comment rest)
      else if starts_with [SLASH; STAR] rest then
        let '(closed, rest) := skip_block_comment rest in
        if closed then skip_trivia_loop fuel rest else rest
      else rest
  end.
Definition skip_trivia (rest : chars) : chars := skip_trivia_loop (length rest) rest.

(** [next_keyword] *)
Definition next_keyword (rest : chars) : option chars * chars :=
  let '(word, rest) := span is_ascii_alphabetic (skip_trivia rest) in
  match word with [] => (None, rest) | _ => (Some word, rest) end.

(** [consume_single_quoted] and [consume_quoted_identifier], at the quote. *)
Fixpoint quoted_loop (quote : Z) (rest : chars) : option chars :=
  match rest with
  | [] => None
  | c :: rest =>
      if c =? quote then
        match rest with
        | d :: rest' => if d =? quote then quoted_loop quote rest' else Some rest
        | [] => Some rest
        end
      else quoted_loop quote rest
  end.
Definition consume_quoted (quote : Z) (rest : chars) : option chars := quoted_loop quote (tail rest).

(** [consume_q_quoted], at the [q]. *)
Definition consume_q_quoted (rest : chars) : option chars :=
  match drop 2 rest with
  | [] => None
  | opening :: body =>
      let '(closed, rest) := find_close (close_sep opening) QUOTE body in
      if closed then Some rest else None
  end.

(** The loop of [consume_parentheses].  A [u32] depth would need four gigabytes of
    parentheses to overflow. *)
Fixpoint parentheses_loop (fuel : nat) (depth : Z) (rest : chars) : option chars :=
  match fuel, rest with
  | _, [] => None
  | O, _ => None
  | S fuel, c :: after =>
      if c =? QUOTE then rest ← consume_quoted QUOTE rest; parentheses_loop fuel depth rest
      else if c =? DQUOTE then rest ← consume_quoted DQUOTE rest; parentheses_loop fuel depth rest
      else if ((c =? 113) || (c =? 81)) && starts_with [QUOTE] after then
        rest ← consume_q_quoted rest; parentheses_loop fuel depth rest
      else if (c =? DASH) && starts_with [DASH] after then
        parentheses_loop fuel depth (skip_line_comment rest)
      else if (c =? SLASH) && starts_with [STAR] after then
        let '(closed, rest) := skip_block_comment rest in
        if closed then parentheses_loop fuel depth rest else None
      else if c =? LPAREN then parentheses_loop fuel (depth + 1) after
      else if c =? RPAREN then
        if depth =? 0 then None
        else if depth - 1 =? 0 then Some after else parentheses_loop fuel (depth - 1) after
      else parentheses_loop fuel depth after
  end.

Definition consume_parentheses (rest : chars) : option chars :=
  let rest := skip_trivia rest in
  if starts_with [LPAREN] rest then parentheses_loop (length rest) 0 rest else None.

Definition consume_keyword (expected : string) (rest : chars) : option chars :=
  match next_keyword rest with
  | (Some keyword, rest) => if eq_ignore_ascii_case keyword (txt expected) then Some rest else None
  | (None, _) => None
  end.

Definition is_ident_char (c : Z) : bool :=
  is_ascii_alphanumeric c || (c =? 95) || (c =? 36) || (c =? 35).

Definition consume_identifier (rest : chars) : option chars :=
  let rest := skip_trivia rest in
  match rest with
  | [] => None
  | c :: _ =>
      if c =? DQUOTE then consume_quoted DQUOTE rest
      else if is_ascii_alphabetic c then Some (snd (span is_ident_char rest)) else None
  end.

(** [cte_statement_keyword]; each round consumes an identifier. *)
Fixpoint cte_loop (fuel : nat) (rest : chars) : option chars :=
  match fuel with
  | O => None
  | S fuel =>
      rest ← consume_identifier rest;
      let rest := skip_trivia rest in
      rest ← (if starts_with [LPAREN] rest then consume_parentheses rest else Some rest);
      rest ← consume_keyword "as" rest;
      rest ← consume_parentheses rest;
      let rest := skip_trivia rest in
      match rest with
      | c :: after => if c =? COMMA then cte_loop fuel after else fst (next_keyword rest)
      | [] => fst (next_keyword rest)
      end
  end.
Definition cte_statement_keyword (rest : chars) : option chars := cte_loop (S (length rest)) rest.

Definition statement_is_query (sql : chars) : bool :=
  match next_keyword sql with
  | (Some keyword, rest) =>
      if eq_ignore_ascii_case keyword (txt "select") then true
      else if eq_ignore_ascii_case keyword (txt "with") then
        match cte_statement_keyword rest with
        | Some keyword => eq_ignore_ascii_case keyword (txt "select")
        | None => false
        end
      else false
  | (None, _) => false
  end.

Example query_samples :
  map statement_is_query
    [txt " -- c" ++ [10] ++ txt "/* x */ Select 1";
     txt "with a (x, y) as (select ')' from t where q'[)]' = '(') , b as (select 1 from a) select 1 from b";
     txt "with a as (select 1 from dual) insert into t select * from a";
     txt "(select 1 from dual)"; txt "update t set x = 1"] = [true; true; false; false; false].
Proof. vm_compute. reflexivity. Qed.

(** ** The classifiers agree *)

Lemma ascii_whitespace_is_whitespace c : is_ascii_whitespace c = true → is_whitespace c = true.
Proof. unfold is_ascii_whitespace, is_whitespace, between. lia. Qed.

Lemma letter_not_whitespace c : is_ascii_alphabetic c = true → is_whitespace c = false.
Proof. unfold is_ascii_alphabetic, ascii_upper, ascii_lower, is_whitespace, between. lia. Qed.

Lemma trim_start_head c s : is_whitespace c = false → trim_start (c :: s) = c :: s.
Proof. cbn. by intros ->. Qed.

(** The text after the leading ASCII white space, when it starts with something solid. *)
Lemma first_keyword_span sql c s :
  snd (span is_ascii_whitespace sql) = c :: s → is_whitespace c = false →
  first_keyword sql = fst (span is_ascii_alphabetic (c :: s)).
Proof.
  intros Hs Hc. unfold first_keyword. destruct (span_spec is_ascii_whitespace sql) as (Heq & Hsp & _).
  rewrite Heq.
  rewrite trim_start_spaces, Hs, (trim_start_head _ _ Hc); [done|].
  eapply Forall_impl; [|exact Hsp]. apply ascii_whitespace_is_whitespace.
Qed.

(** The keyword the cursor finds is the first word, or the text starts with a
    comment and has no first word. *)
Lemma keyword_first sql word rest :
  next_keyword sql = (Some word, rest) → first_keyword sql = word ∨ first_keyword sql = [].
Proof.
  unfold next_keyword, skip_trivia. set (s := snd (span is_ascii_whitespace sql)) in *.
  destruct (starts_with [DASH; DASH] s || starts_with [SLASH; STAR] s) eqn:Hc.
  { intros _. right. destruct s as [|c s'] eqn:Hs; [done|].
    assert (c = DASH ∨ c = SLASH) as Hd.
    { apply orb_true_iff in Hc as [[H%Z.eqb_eq _]%andb_true_iff|[H%Z.eqb_eq _]%andb_true_iff]; auto. }
    rewrite (first_keyword_span sql c s'); [|done|destruct Hd as [-> | ->]; done].
    destruct Hd as [-> | ->]; done. }
  apply orb_false_iff in Hc as [Hd Hb].
  assert (skip_trivia_loop (length sql) sql = s) as ->.
  { destruct (length sql); cbn [skip_trivia_loop]; fold s; [done|]. by rewrite Hd, Hb. }
  intros Hk. left. destruct s as [|c s'] eqn:Hs; [done|].
  destruct (is_ascii_alphabetic c) eqn:Hc.
  - rewrite (first_keyword_span sql c s'); [|done|by apply letter_not_whitespace].
    destruct (span is_ascii_alphabetic (c :: s')) as [[|d w] r]; [done|]. by injection Hk as <- _.
  - cbn in Hk. by rewrite Hc in Hk.
Qed.

Lemma eq_ignore_trans k w w' : eq_ignore_ascii_case k w = true → eq_ignore_ascii_case k w' = true →
  eq_ignore_ascii_case w w' = true.
Proof. unfold eq_ignore_ascii_case. rewrite !bool_decide_eq_true. congruence. Qed.

Lemma keyword_excluded ws k w :
  eq_ignore_ascii_case k (txt w) = true → keyword_in ws (txt w) = false → keyword_in ws k = false.
Proof.
  intros Hk Hw. apply not_true_iff_false. unfold keyword_in. intros (v & Hv & Hkv)%existsb_exists.
  apply not_true_iff_false in Hw. apply Hw. unfold keyword_in. apply existsb_exists. exists v.
  split; [done|]. by eapply eq_ignore_trans.
Qed.

(** The kinds of statement exclude each other across the components that test
    them: what the driver sends down its row-fetching path, common table expressions
    included, it neither binds nor retries as PL/SQL, DDL or DML. *)
Theorem statement_kinds_exclusive sql :
  statement_is_query sql = true →
  statement_is_plsql sql = false ∧ statement_is_ddl sql = false ∧ statement_is_dml sql = false.
Proof.
  unfold statement_is_query. destruct (next_keyword sql) as [[k|] rest] eqn:Hk; [|done]. intros Hq.
  assert (eq_ignore_ascii_case k (txt "select") = true ∨ eq_ignore_ascii_case k (txt "with") = true) as Hs.
  { destruct (eq_ignore_ascii_case k (txt "select")); [by left|].
    destruct (eq_ignore_ascii_case k (txt "with")); [by right|done]. }
  unfold statement_is_plsql, statement_is_ddl, statement_is_dml.
  destruct (keyword_first _ _ _ Hk) as [-> | ->]; [|done].
  destruct Hs as [Hs|Hs]; split_and!; by apply (keyword_excluded _ _ _ Hs).
Qed.

Lemma statement_kinds_exclusive_witness :
  let sql := txt "/* totals */ with a as (select 1 from dual) select * from a" in
  statement_is_query sql = true ∧ statement_is_plsql sql = false ∧ statement_is_ddl sql = false ∧
  statement_is_dml sql = false.
Proof. split; [reflexivity|]. apply statement_kinds_exclusive. reflexivity. Defined.

(** A comment in front of a PL/SQL block hides it from the classifier, although
    the query test skips comments: the block is bound per occurrence instead of per
    name, and the one value that fills both occurrences is refused. *)
Theorem leading_comment_hides_plsql :
  let block := txt "begin :x := :x + 1; end;" in
  let one := ParamsPositional [BNumber (txt "1")] in
  statement_is_query (txt "/* c */ select 1 from dual") = true ∧
  statement_is_plsql block = true ∧ resolve_params block one = Ok [BNumber (txt "1")] ∧
  statement_is_plsql (txt "/* c */ " ++ block) = false ∧
  resolve_params (txt "/* c */ " ++ block) one = Err (PositionalCountMismatch 2 1) ∧
  bind_rows_need_iterative_plsql (txt "/* c */ " ++ block) [[BOutput ORA_TYPE_NUM_NUMBER 0 22]] = false.
Proof. by vm_compute. Qed.
