(* ===== verification/StatementCache.v ===== *)
(** * Server cursors of a connection ([oracledb/src/lib.rs])

    The statement cache, the cursors that live fetches hold, the cursors queued for
    closing, and one execute round trip over them, outside a sessionless
    transaction.  The wire is an environment: what building the message, the round
    trip and the optional redefine yield. *)

From stdpp Require Import gmap.
From S2P Require Import Prelude.
From S2P Require Import Protocol.
From S2P Require Import Limits.
From S2P Require Import DriverError.
From S2P Require Import Sql.
From S2P Require Import ShapeCache.
From S2P Require Import Binds.
From S2P Require Import SqlKind.

Record CachedStatement := mkCachedStatement {
  cs_sql : chars;
  cs_cursor_id : Z;
  cs_bind_shape : list BindShapeSlot
}.

(** The cursor bookkeeping of [Connection]. *)
Record Cursors := mkCursors {
  statement_cache : list CachedStatement;
  statement_cache_size : nat;
  in_use_cursors : gset Z;
  lob_prefetch_cursors : gset Z;
  copied_cursors : gset Z;
  cursors_to_close : list Z;
  cursor_columns : gmap Z (list ColumnMetadata);
  ttc_seq_num : Z;
  fetch_metadata : FetchMetadata;
  dead : bool
}.

Definition set_cache (f : list CachedStatement → list CachedStatement) (c : Cursors) : Cursors :=
  mkCursors (f (statement_cache c)) (statement_cache_size c) (in_use_cursors c) (lob_prefetch_cursors c)
    (copied_cursors c) (cursors_to_close c) (cursor_columns c) (ttc_seq_num c) (fetch_metadata c) (dead c).
Definition set_in_use (f : gset Z → gset Z) (c : Cursors) : Cursors :=
  mkCursors (statement_cache c) (statement_cache_size c) (f (in_use_cursors c)) (lob_prefetch_cursors c)
    (copied_cursors c) (cursors_to_close c) (cursor_columns c) (ttc_seq_num c) (fetch_metadata c) (dead c).
Definition set_lob (f : gset Z → gset Z) (c : Cursors) : Cursors :=
  mkCursors (statement_cache c) (statement_cache_size c) (in_use_cursors c) (f (lob_prefetch_cursors c))
    (copied_cursors c) (cursors_to_close c) (cursor_columns c) (ttc_seq_num c) (fetch_metadata c) (dead c).
Definition set_copied (f : gset Z → gset Z) (c : Cursors) : Cursors :=
  mkCursors (statement_cache c) (statement_cache_size c) (in_use_cursors c) (lob_prefetch_cursors c)
    (f (copied_cursors c)) (cursors_to_close c) (cursor_columns c) (ttc_seq_num c) (fetch_metadata c) (dead c).
Definition set_to_close (f : list Z → list Z) (c : Cursors) : Cursors :=
  mkCursors (statement_cache c) (statement_cache_size c) (in_use_cursors c) (lob_prefetch_cursors c)
    (copied_cursors c) (f (cursors_to_close c)) (cursor_columns c) (ttc_seq_num c) (fetch_metadata c) (dead c).
Definition set_columns (f : gmap Z (list ColumnMetadata) → gmap Z (list ColumnMetadata)) (c : Cursors) : Cursors :=
  mkCursors (statement_cache c) (statement_cache_size c) (in_use_cursors c) (lob_prefetch_cursors c)
    (copied_cursors c) (cursors_to_close c) (f (cursor_columns c)) (ttc_seq_num c) (fetch_metadata c) (dead c).
Definition set_seq (seq : Z) (c : Cursors) : Cursors :=
  mkCursors (statement_cache c) (statement_cache_size c) (in_use_cursors c) (lob_prefetch_cursors c)
    (copied_cursors c) (cursors_to_close c) (cursor_columns c) seq (fetch_metadata c) (dead c).
Definition set_fetch (f : FetchMetadata) (c : Cursors) : Cursors :=
  mkCursors (statement_cache c) (statement_cache_size c) (in_use_cursors c) (lob_prefetch_cursors c)
    (copied_cursors c) (cursors_to_close c) (cursor_columns c) (ttc_seq_num c) f (dead c).
Definition set_dead (b : bool) (c : Cursors) : Cursors :=
  mkCursors (statement_cache c) (statement_cache_size c) (in_use_cursors c) (lob_prefetch_cursors c)
    (copied_cursors c) (cursors_to_close c) (cursor_columns c) (ttc_seq_num c) (fetch_metadata c) b.

Definition cursors_new (size : nat) : Cursors :=
  mkCursors [] size ∅ ∅ ∅ [] ∅ 0 (mkFetch ∅ []) false.

(** ** Operations *)

Definition next_ttc_sequence (seq_num : Z) : Z :=
  let s := as_u 8 (seq_num + 1) in if s =? 0 then 1 else s.

(** [iter().position(|entry| entry.sql == sql)] *)
Definition cache_position (sql : chars) (cache : list CachedStatement) : option (nat * CachedStatement) :=
  list_find (λ e, cs_sql e = sql) cache.

Definition forget_cursor_metadata (cursor_id : Z) (c : Cursors) : Cursors :=
  set_columns (delete cursor_id) (set_lob (.∖ {[cursor_id]}) c).

Definition close_cursor (cursor_id : Z) (c : Cursors) : Cursors :=
  if cursor_id =? 0 then c
  else
    let c := set_cache (filter (λ e, cs_cursor_id e ≠ cursor_id)) c in
    let c := set_in_use (.∖ {[cursor_id]}) c in
    let c := set_copied (.∖ {[cursor_id]}) c in
    let c := forget_cursor_metadata cursor_id c in
    if bool_decide (cursor_id ∈ cursors_to_close c) then c else set_to_close (.++ [cursor_id]) c.

Definition close_cursor_on_error {E A} (cursor_id : Z) (result : Result E A) (c : Cursors) : Cursors :=
  match result with Ok _ => c | _ => close_cursor cursor_id c end.

Definition release_cursor (cursor_id : Z) (c : Cursors) : Cursors :=
  if cursor_id =? 0 then c
  else
    let copied := bool_decide (cursor_id ∈ copied_cursors c) in
    let c := set_in_use (.∖ {[cursor_id]}) c in
    let c := set_copied (.∖ {[cursor_id]}) c in
    if copied then forget_cursor_metadata cursor_id (set_to_close (.++ [cursor_id]) c) else c.

Definition statement_cache_invalidate (sql : chars) (cursor_id : Z) (c : Cursors) : Cursors :=
  let c := match cache_position sql (statement_cache c) with
           | Some (index, _) => set_cache (delete index) c
           | None => c
           end in
  close_cursor cursor_id c.

Definition statement_cache_get (sql : chars) (bind_shape : list BindShapeSlot) (c : Cursors)
  : option Z * Cursors :=
  match cache_position sql (statement_cache c) with
  | None => (None, c)
  | Some (index, entry) =>
      let cursor_id := cs_cursor_id entry in
      if negb (cursor_id =? 0) && bool_decide (cursor_id ∈ in_use_cursors c) then (None, c)
      else if negb (bind_shape_is_compatible (cs_bind_shape entry) bind_shape)
      then (None, statement_cache_invalidate sql cursor_id c)
      else (Some cursor_id, set_cache (λ cache, delete index cache ++ [entry]) c)
  end.

Definition statement_cache_take (sql : chars) (bind_shape : list BindShapeSlot) (c : Cursors)
  : option Z * Cursors :=
  match cache_position sql (statement_cache c) with
  | None => (None, c)
  | Some (index, entry) =>
      if negb (bind_shape_is_compatible (cs_bind_shape entry) bind_shape)
      then (None, statement_cache_invalidate sql (cs_cursor_id entry) c)
      else (Some (cs_cursor_id entry), set_cache (delete index) c)
  end.

Definition statement_is_in_use (sql : chars) (c : Cursors) : bool :=
  match cache_position sql (statement_cache c) with
  | None => false
  | Some (_, entry) =>
      negb (cs_cursor_id entry =? 0) && bool_decide (cs_cursor_id entry ∈ in_use_cursors c)
  end.

(** [statement_cache_insert]: the new cache and the ids to close. *)
Definition inherit_slots (new old : list BindShapeSlot) : list BindShapeSlot :=
  zip_with (λ slot old_slot, if untyped_null slot then old_slot else slot) new old.

Fixpoint evict (fuel capacity : nat) (cache : list CachedStatement) : list CachedStatement * list Z :=
  match fuel, cache with
  | S fuel, evicted :: rest =>
      if (capacity <? length cache)%nat then
        let '(cache, ids) := evict fuel capacity rest in
        (cache, (if cs_cursor_id evicted =? 0 then [] else [cs_cursor_id evicted]) ++ ids)
      else (cache, [])
  | _, _ => (cache, [])
  end.

Definition statement_cache_insert (cache : list CachedStatement) (capacity : nat) (sql : chars)
  (cursor_id : Z) (bind_shape : list BindShapeSlot) : list CachedStatement * list Z :=
  if cursor_id =? 0 then (cache, [])
  else
    let '(cache, replaced, bind_shape) :=
      match cache_position sql cache with
      | None => (cache, [], bind_shape)
      | Some (index, old) =>
          let rest := delete index cache in
          if negb (cs_cursor_id old =? 0) && negb (cs_cursor_id old =? cursor_id)
          then (rest, [cs_cursor_id old], bind_shape)
          else if (cs_cursor_id old =? cursor_id)
                  && (length (cs_bind_shape old) =? length bind_shape)%nat
          then (rest, [], inherit_slots bind_shape (cs_bind_shape old))
          else (rest, [], bind_shape)
      end in
    let cache := cache ++ [mkCachedStatement sql cursor_id bind_shape] in
    let '(cache, evicted) := evict (length cache) capacity cache in
    (cache, replaced ++ evicted).

Definition statement_cache_put (sql : chars) (cursor_id : Z) (bind_shape : list BindShapeSlot)
  (c : Cursors) : Cursors :=
  let '(cache, to_close) :=
    statement_cache_insert (statement_cache c) (statement_cache_size c) sql cursor_id bind_shape in
  let c := set_cache (λ _, cache) c in
  let c := foldl (λ c id, forget_cursor_metadata id c) c to_close in
  set_to_close (.++ to_close) c.

(** [invalidate_bound_ref_cursors] *)
Definition invalidate_ref_cursor (c : Cursors) (value : BindValue) : Cursors :=
  match value with
  | BCursor cursor_id =>
      if cursor_id =? 0 then c
      else forget_cursor_metadata cursor_id (set_cache (filter (λ e, cs_cursor_id e ≠ cursor_id)) c)
  | _ => c
  end.
Definition invalidate_bound_ref_cursors (bind_rows : BindRows) (c : Cursors) : Cursors :=
  foldl (foldl invalidate_ref_cursor) c bind_rows.

(** [take_close_cursors_piggyback]: the ids the piggyback carries. *)
Definition take_close_cursors_piggyback (c : Cursors) : option (list Z) * Cursors :=
  match cursors_to_close c with
  | [] => (None, c)
  | ids => (Some ids, set_seq (next_ttc_sequence (ttc_seq_num c)) (set_to_close (λ _, []) c))
  end.

(** ** Options and results *)

Record ExecuteOptions := mkOptions {
  batcherrors : bool;
  arraydmlrowcounts : bool;
  parse_only : bool;
  token_num : Z;
  o_cursor_id : Z;
  cache_statement : bool;
  scrollable : bool;
  fetch_orientation : Z;
  fetch_pos : Z;
  scroll_operation : bool;
  suspend_on_success : bool;
  no_prefetch : bool;
  registration_id : Z;
  max_string_size : Z
}.

Definition options_default : ExecuteOptions :=
  mkOptions false false false 0 0 true false 0 0 false false false 0 32767.
Definition with_cursor_id (id : Z) (o : ExecuteOptions) : ExecuteOptions :=
  mkOptions (batcherrors o) (arraydmlrowcounts o) (parse_only o) (token_num o) id (cache_statement o)
    (scrollable o) (fetch_orientation o) (fetch_pos o) (scroll_operation o) (suspend_on_success o)
    (no_prefetch o) (registration_id o) (max_string_size o).
Definition with_cache_statement (b : bool) (o : ExecuteOptions) : ExecuteOptions :=
  mkOptions (batcherrors o) (arraydmlrowcounts o) (parse_only o) (token_num o) (o_cursor_id o) b
    (scrollable o) (fetch_orientation o) (fetch_pos o) (scroll_operation o) (suspend_on_success o)
    (no_prefetch o) (registration_id o) (max_string_size o).
Definition with_no_prefetch (b : bool) (o : ExecuteOptions) : ExecuteOptions :=
  mkOptions (batcherrors o) (arraydmlrowcounts o) (parse_only o) (token_num o) (o_cursor_id o)
    (cache_statement o) (scrollable o) (fetch_orientation o) (fetch_pos o) (scroll_operation o)
    (suspend_on_success o) b (registration_id o) (max_string_size o).

(** The part of a [QueryResult] the bookkeeping reads, with its rows. *)
Record QueryResult := mkResult {
  columns : list ColumnMetadata;
  rows : list (list (option bytes));
  r_cursor_id : Z;
  more_rows : bool
}.

Definition columns_have_lob_prefetch_fields (cols : list ColumnMetadata) : bool :=
  existsb (λ c, (ora_type_num c =? ORA_TYPE_NUM_CLOB) || (ora_type_num c =? ORA_TYPE_NUM_BLOB)) cols.

Definition remember_cursor_columns (result : QueryResult) (c : Cursors) : Cursors :=
  if negb (r_cursor_id result =? 0) && bool_decide (columns result ≠ []) then
    if bool_decide (cursor_columns c !! r_cursor_id result = Some (columns result)) then c
    else set_columns <[r_cursor_id result := columns result]> c
  else c.

(** ** One execute *)

Abbreviation DErr := (Error BindError).

Record ExecRequest := mkExecRequest {
  rq_closes : list Z;
  rq_sql : chars;
  rq_options : ExecuteOptions;
  rq_seq : Z
}.

(** What the world answers: the payload builder, the round trip (a transport error,
    or the parse of the response), the checkpoint and the redefine round trip of the
    type-change rule. *)
Record ExecEnv := mkExecEnv {
  e_limits : ProtocolLimits;
  e_build : ExecRequest → Res ();
  e_round_trip : ExecRequest → DErr + (ProtocolError + QueryResult);
  e_checkpoint : option DErr;
  e_redefine : list ColumnMetadata → DErr + QueryResult
}.

Definition choose_cursor (sql : chars) (bind_shape : list BindShapeSlot) (use_cache : bool)
  (o : ExecuteOptions) (c : Cursors) : ExecuteOptions * bool * Cursors :=
  if (o_cursor_id o =? 0) && negb (parse_only o) then
    if use_cache then
      if statement_is_in_use sql c then (o, true, c)
      else match statement_cache_get sql bind_shape c with
           | (Some id, c) => (with_cursor_id id o, false, c)
           | (None, c) => (o, false, c)
           end
    else match statement_cache_take sql bind_shape c with
         | (Some id, c) => (with_cursor_id id o, false, c)
         | (None, c) => (o, false, c)
         end
  else (o, false, c).

Definition suppress_prefetch (sql : chars) (c : Cursors) (o : ExecuteOptions) : ExecuteOptions :=
  if negb (o_cursor_id o =? 0) && statement_is_query sql then
    match cursor_columns c !! o_cursor_id o with
    | Some cols => if existsb (λ col, ora_type_num col =? ORA_TYPE_NUM_VECTOR) cols
                   then with_no_prefetch true o else o
    | None => o
    end
  else o.

Definition has_ref_cursor_output (bind_rows : BindRows) : bool :=
  existsb (existsb (λ v, match v with BOutput t _ _ => t =? ORA_TYPE_NUM_CURSOR | _ => false end)) bind_rows.

Definition advance_seq (c : Cursors) : Cursors := set_seq (next_ttc_sequence (ttc_seq_num c)) c.

(** [note_parse] on an error *)
Definition note_error (err : ProtocolError) (c : Cursors) : Cursors :=
  let c := match err with
           | ServerErrorInfo details => close_cursor (sed_cursor_id details) c
           | _ => c
           end in
  if protocol_error_is_session_dead err then set_dead true c else c.

(** The bookkeeping after a response that parsed. *)
Definition record_result (sql : chars) (bind_rows : BindRows) (use_cache is_copy : bool)
  (o : ExecuteOptions) (bind_shape : list BindShapeSlot) (result : QueryResult) (c : Cursors) : Cursors :=
  let id := r_cursor_id result in
  let c := if negb (id =? 0) && negb (bool_decide (rows result = []))
              && columns_have_lob_prefetch_fields (columns result)
           then set_lob (.∪ {[id]}) c else c in
  let c := if is_copy then (if id =? 0 then c else set_copied (.∪ {[id]}) c)
           else if use_cache then statement_cache_put sql id bind_shape c else c in
  let c := if negb (id =? 0) && statement_is_query sql && negb (parse_only o)
           then set_in_use (.∪ {[id]}) c else c in
  let c := invalidate_bound_ref_cursors bind_rows c in
  remember_cursor_columns result c.

(** [apply_refetch_metadata] *)
Definition apply_refetch_metadata (env : ExecEnv) (sql : chars) (result : QueryResult)
  (c : Cursors) (shapes : StatementShapeCache)
  : Result DErr QueryResult * Cursors * StatementShapeCache :=
  if bool_decide (columns result = []) then (Ok result, c, shapes)
  else
    let '(redefine, shapes, f) :=
      refetch_plan sql (columns result) (r_cursor_id result) shapes (fetch_metadata c) in
    let c := set_fetch f c in
    let finish result := (Ok result,
      set_fetch (remember_fetch_metadata sql (columns result) (fetch_metadata c)) c, shapes) in
    match redefine with
    | None => finish result
    | Some adjusted =>
        match e_checkpoint env with
        | Some e => (Err e, c, shapes)
        | None =>
            match e_redefine env adjusted with
            | inl e => (Err e, close_cursor (r_cursor_id result) c, shapes)
            | inr redefined =>
                finish (mkResult
                  (if bool_decide (columns redefined = []) then adjusted else columns redefined)
                  (rows redefined)
                  (if r_cursor_id redefined =? 0 then r_cursor_id result else r_cursor_id redefined)
                  (more_rows redefined))
            end
        end
    end.

(** The checks before any state changes. *)
Definition check_rows (bind_rows : BindRows) (o : ExecuteOptions) : BindRes () :=
  if negb (scroll_operation o) && negb (parse_only o)
  then validate_bind_rows_shape bind_rows;; validate_bind_rows_types bind_rows
  else Ok ().

(** The sequence number kept free for a close piggyback. *)
Definition reserve_slot (piggyback : option (list Z)) (bind_rows : BindRows) (c : Cursors) : Cursors :=
  match piggyback with
  | None => if has_ref_cursor_output bind_rows then advance_seq c else c
  | Some _ => c
  end.

(** The limits, checked once the piggyback is taken. *)
Definition check_limits (l : ProtocolLimits) (bind_rows : BindRows) : Res () :=
  check_batch_rows l (Zlen bind_rows);;
  match bind_rows with
  | first_row :: _ => check_binds l (Zlen first_row)
  | [] => Ok ()
  end.

(** [execute_query_with_bind_rows_options_adjusted]; the last component lists the
    request that went out. *)
Definition execute_query (env : ExecEnv) (sql : chars) (bind_rows : BindRows) (o : ExecuteOptions)
  (c : Cursors) (shapes : StatementShapeCache)
  : Result DErr QueryResult * Cursors * StatementShapeCache * list ExecRequest :=
  match check_rows bind_rows o with
  | Err e => (Err (EBind e), c, shapes, [])
  | Panic => (Panic, c, shapes, [])
  | Diverge => (Diverge, c, shapes, [])
  | Ok () =>
      let use_cache := cache_statement o && negb (parse_only o) in
      let bind_shape := bind_type_shape bind_rows in
      let '(o, is_copy, c) := choose_cursor sql bind_shape use_cache o c in
      let o := suppress_prefetch sql c o in
      let '(piggyback, c) := take_close_cursors_piggyback c in
      let c := reserve_slot piggyback bind_rows c in
      let c' := advance_seq c in
      let request := mkExecRequest (default [] piggyback) sql o (ttc_seq_num c') in
      match check_limits (e_limits env) bind_rows with
      | Ok () =>
          match e_build env request with
          | Ok () =>
              match e_round_trip env request with
              | inl e => (Err e, c', shapes, [request])
              | inr (inl err) =>
                  let c := note_error err c' in
                  (Err (EProtocol err),
                   if use_cache then statement_cache_invalidate sql (o_cursor_id o) c else c,
                   shapes, [request])
              | inr (inr result) =>
                  let c := record_result sql bind_rows use_cache is_copy o bind_shape result c' in
                  if parse_only o then (Ok result, c, shapes, [request])
                  else (apply_refetch_metadata env sql result c shapes, [request])
              end
          | Err e => (Err (EProtocol e), c', shapes, [])
          | Panic => (Panic, c', shapes, [])
          | Diverge => (Diverge, c', shapes, [])
          end
      | Err e => (Err (EProtocol e), c, shapes, [])
      | Panic => (Panic, c, shapes, [])
      | Diverge => (Diverge, c, shapes, [])
      end
  end.

(** [execute_query_with_bind_rows_and_options_core]: one retry with a fresh parse
    when the select list of the open cursor changed. *)
Definition execute_core (env : nat → ExecEnv) (checkpoint : option DErr) (sql : chars)
  (bind_rows : BindRows) (o : ExecuteOptions) (c : Cursors) (shapes : StatementShapeCache)
  : Result DErr QueryResult * Cursors * StatementShapeCache * list ExecRequest :=
  let '(res, c, shapes, sent) := execute_query (env 0%nat) sql bind_rows o c shapes in
  match res with
  | Err err =>
      if refetch_retry_applies err && statement_is_query sql then
        match checkpoint with
        | Some e => (Err e, c, shapes, sent)
        | None =>
            let c := set_fetch (snd (forget_fetch_metadata sql (fetch_metadata c))) c in
            let '(res, c, shapes, sent') := execute_query (env 1%nat) sql bind_rows o c shapes in
            (res, c, shapes, sent ++ sent')
        end
      else (res, c, shapes, sent)
  | _ => (res, c, shapes, sent)
  end.
