(* ===== verification/CursorSafety.v ===== *)
(** * The cursors a connection may use again

    Every server cursor the driver knows is in one place: kept under one statement
    of the cache, marked as a copy, or queued for closing; and the driver never
    re-executes a cursor it has closed.  The exception are the stale cursors: those a
    PL/SQL block closed while the driver goes on counting them as open. *)

From stdpp Require Import gmap relations.
From S2P Require Import Prelude.
From S2P Require Import Protocol.
From S2P Require Import Limits.
From S2P Require Import DriverError.
From S2P Require Import Sql.
From S2P Require Import ShapeCache.
From S2P Require Import Binds.
From S2P Require Import SqlKind.
From S2P Require Import StatementCache.

(** ** Where a cursor is *)

Definition cache_ids (c : Cursors) : list Z := map cs_cursor_id (statement_cache c).
Definition mem (x : Z) (s : gset Z) : Z := if decide (x ∈ s) then 1 else 0.

Definition n_cached (x : Z) (c : Cursors) : Z := occ x (cache_ids c).
Definition n_copied (x : Z) (c : Cursors) : Z := mem x (copied_cursors c).
Definition n_closing (x : Z) (c : Cursors) : Z := occ x (cursors_to_close c).

(** The places of [x]. *)
Definition places (x : Z) (c : Cursors) : Z := n_cached x c + n_copied x c + n_closing x c.

Definition cache_sqls (c : Cursors) : list chars := map cs_sql (statement_cache c).

Section Registry.
(** The cursors that are stale. *)
Context (T : gset Z).

Definition registry_ok (c : Cursors) : Prop :=
  (∀ x, x ∉ T → places x c <= 1) ∧ places 0 c = 0 ∧ NoDup (cache_sqls c) ∧
  (length (statement_cache c) <= statement_cache_size c)%nat.

(** Cursors that may be handed out or kept: they must be open. *)
Definition kept (x : Z) (c : Cursors) : Prop := 0 < n_cached x c + n_copied x c.

Lemma mem_range x s : 0 <= mem x s <= 1.
Proof. unfold mem. case_decide; lia. Qed.
Lemma mem_add x y s : mem x (s ∪ {[y]}) = if decide (x = y) then 1 else mem x s.
Proof. unfold mem. repeat case_decide; set_solver. Qed.
Lemma mem_remove x y s : mem x (s ∖ {[y]}) = if decide (x = y) then 0 else mem x s.
Proof. unfold mem. repeat case_decide; set_solver. Qed.

Lemma places_nonneg x c : 0 <= n_cached x c ∧ 0 <= n_copied x c <= 1 ∧ 0 <= n_closing x c.
Proof. unfold n_cached, n_copied, n_closing. pose proof (mem_range x (copied_cursors c)). auto using occ_nonneg. Qed.

Lemma occ_cons x z l : occ x (z :: l) = hit x z + occ x l.
Proof. done. Qed.

Lemma occ_app x l k : occ x (l ++ k) = occ x l + occ x k.
Proof. apply sum_by_app. Qed.
Lemma occ_single x y : occ x [y] = hit x y.
Proof. unfold occ. cbn. lia. Qed.

Lemma occ_filter_ne x y l : occ x (filter (λ z, z ≠ y) l) = if decide (x = y) then 0 else occ x l.
Proof.
  induction l as [|z l IH]; [by case_decide|]. rewrite filter_cons, !occ_cons.
  destruct (decide (z ≠ y)) as [Hz|Hz]; rewrite ?occ_cons, IH; unfold hit; repeat case_decide; subst; lia || done.
Qed.

Lemma ids_filter y cache :
  map cs_cursor_id (filter (λ e, cs_cursor_id e ≠ y) cache) = filter (λ z, z ≠ y) (map cs_cursor_id cache).
Proof.
  induction cache as [|e cache IH]; [done|]. rewrite filter_cons. cbn [map]. rewrite filter_cons, <- IH.
  by repeat case_decide.
Qed.

(** ** The operations *)

(** What the bookkeeping of other fields does not touch. *)
Definition same_places (c c' : Cursors) : Prop :=
  statement_cache c' = statement_cache c ∧ copied_cursors c' = copied_cursors c ∧
  cursors_to_close c' = cursors_to_close c ∧ statement_cache_size c' = statement_cache_size c.

#[global] Instance same_places_preorder : PreOrder same_places.
Proof. split; unfold same_places; [done|]. intros ??? (? & ? & ? & ?) (? & ? & ? & ?). split_and!; congruence. Qed.

Lemma same_places_count c c' x : same_places c c' →
  n_cached x c' = n_cached x c ∧ n_copied x c' = n_copied x c ∧ n_closing x c' = n_closing x c.
Proof. unfold n_cached, n_copied, n_closing, cache_ids. by intros (-> & -> & -> & _). Qed.

Lemma same_places_ok c c' : same_places c c' → registry_ok c → registry_ok c'.
Proof.
  intros H (H1 & H2 & H3 & H4). pose proof H as (Hc & _ & _ & Hs). unfold registry_ok, places, cache_sqls in *.
  rewrite Hc, Hs. split_and!; try done.
  - intros x Hx. destruct (same_places_count c c' x H) as (-> & -> & ->). by apply H1.
  - by destruct (same_places_count c c' 0 H) as (-> & -> & ->).
Qed.

Lemma same_places_kept c c' x : same_places c c' → kept x c' ↔ kept x c.
Proof. intros H. unfold kept. by destruct (same_places_count c c' x H) as (-> & -> & _). Qed.

Lemma forget_metadata_same id c : same_places c (forget_cursor_metadata id c).
Proof. done. Qed.

Lemma forget_all_same ids : ∀ c, same_places c (foldl (λ c id, forget_cursor_metadata id c) c ids).
Proof. induction ids as [|id ids IH]; intros c; cbn; [done|]. etrans; [|apply IH]. done. Qed.

(** [c'] keeps no cursor that [c] did not keep, except [new]. *)
Definition moves (new : option Z) (c c' : Cursors) : Prop :=
  registry_ok c' ∧ statement_cache_size c' = statement_cache_size c ∧
  ∀ x, kept x c' → kept x c ∨ new = Some x.

Lemma moves_same c c' : registry_ok c → same_places c c' → moves None c c'.
Proof.
  intros Hok H. split; [by eapply same_places_ok|]. split; [by destruct H as (_ & _ & _ & ?)|].
  intros x Hx. left. by apply (same_places_kept c c' x H).
Qed.

Lemma moves_trans n c c' c'' : moves None c c' → moves n c' c'' → moves n c c''.
Proof.
  intros (_ & Hs & Hk) (Hok & Hs' & Hk'). split; [done|]. split; [congruence|]. intros x Hx.
  destruct (Hk' x Hx) as [?|?]; [|by right]. destruct (Hk x) as [?|[=]]; [done|]. by left.
Qed.

Lemma moves_then_same n c c' c'' : moves n c c' → same_places c' c'' → moves n c c''.
Proof.
  intros (Hok & Hs & Hk) H. split; [by eapply same_places_ok|]. split.
  - destruct H as (_ & _ & _ & ->). done.
  - intros x Hx. apply Hk. by apply (same_places_kept c' c'' x H).
Qed.

Lemma cache_sqls_filter P `{∀ e, Decision (P e)} cache :
  NoDup (map cs_sql cache) → NoDup (map cs_sql (filter P cache)).
Proof.
  intros Hn. eapply sublist_NoDup; [exact Hn|]. apply (fmap_sublist cs_sql), sublist_filter.
Qed.

Lemma close_cursor_counts id c x : id ≠ 0 →
  n_cached x (close_cursor id c) = (if decide (x = id) then 0 else n_cached x c) ∧
  n_copied x (close_cursor id c) = (if decide (x = id) then 0 else n_copied x c) ∧
  n_closing x (close_cursor id c) =
    (if decide (x = id ∧ id ∉ cursors_to_close c) then 1 else n_closing x c).
Proof.
  intros Hid. unfold close_cursor. rewrite (proj2 (Z.eqb_neq id 0) Hid).
  split_and!.
  - unfold n_cached, cache_ids. case_bool_decide; cbn; rewrite ids_filter; apply occ_filter_ne.
  - unfold n_copied. case_bool_decide; cbn; apply mem_remove.
  - unfold n_closing. case_bool_decide as Hin; cbn in *.
    + rewrite decide_False by naive_solver. done.
    + change (occ x (cursors_to_close c ++ [id]) = if decide (x = id ∧ id ∉ cursors_to_close c) then 1 else occ x (cursors_to_close c)).
      rewrite occ_app, occ_single. unfold hit. destruct (decide (id = x)) as [->|Hne].
      * rewrite decide_True by done. pose proof (occ_nonneg x (cursors_to_close c)).
        destruct (decide (0 < occ x (cursors_to_close c))) as [Hp|Hp]; [by apply occ_elem in Hp|]. lia.
      * rewrite decide_False by naive_solver. lia.
Qed.

Lemma close_cursor_moves id c : registry_ok c → moves None c (close_cursor id c).
Proof.
  intros Hok. destruct (decide (id = 0)) as [->|Hid]; [by apply moves_same|].
  pose proof Hok as (H1 & H2 & H3 & H4).
  assert (statement_cache (close_cursor id c) = filter (λ e, cs_cursor_id e ≠ id) (statement_cache c)
    ∧ statement_cache_size (close_cursor id c) = statement_cache_size c) as [Hc Hs].
  { unfold close_cursor. rewrite (proj2 (Z.eqb_neq id 0) Hid). by case_bool_decide. }
  split; [|split; [done|]].
  - split_and!.
    + intros x Hx. specialize (H1 x Hx). unfold places in *. destruct (close_cursor_counts id c x Hid) as (-> & -> & ->).
      pose proof (places_nonneg x c). repeat case_decide; lia.
    + unfold places in *. destruct (close_cursor_counts id c 0 Hid) as (-> & -> & ->).
      rewrite !decide_False by naive_solver. done.
    + unfold cache_sqls. rewrite Hc. by apply cache_sqls_filter.
    + rewrite Hc, Hs. etrans; [apply length_filter|done].
  - intros x. unfold kept. destruct (close_cursor_counts id c x Hid) as (-> & -> & _).
    case_decide; [lia|by left].
Qed.

Lemma release_cursor_moves id c : registry_ok c → moves None c (release_cursor id c).
Proof.
  intros Hok. unfold release_cursor. destruct (Z.eqb_spec id 0) as [->|Hid]; [by apply moves_same|].
  pose proof Hok as (H1 & H2 & H3 & H4). case_bool_decide as Hin.
  - eapply moves_then_same; [|apply forget_metadata_same].
    set (c' := set_to_close _ _).
    assert (∀ x, n_cached x c' = n_cached x c ∧
      n_copied x c' = (if decide (x = id) then 0 else n_copied x c) ∧
      n_closing x c' = n_closing x c + hit x id) as Hc.
    { intros x. split_and!; [done|apply mem_remove|].
      change (occ x (cursors_to_close c ++ [id]) = occ x (cursors_to_close c) + hit x id).
      by rewrite occ_app, occ_single. }
    assert (n_copied id c = 1) as Hone by (unfold n_copied, mem; by rewrite decide_True).
    split; [split_and!; [| |done|done]|split; [done|]].
    + intros x Hx. specialize (H1 x Hx). unfold places in *. destruct (Hc x) as (-> & -> & ->).
      unfold hit. repeat case_decide; subst; lia.
    + unfold places in *. destruct (Hc 0) as (-> & -> & ->). unfold hit. repeat case_decide; subst; lia.
    + intros x. unfold kept. destruct (Hc x) as (-> & -> & _). pose proof (places_nonneg x c).
      case_decide; left; lia.
  - apply moves_same; [done|]. split_and!; try done. cbn. set_solver.
Qed.

(** ** The cache *)

Lemma cache_position_some sql cache i e :
  cache_position sql cache = Some (i, e) → cache !! i = Some e ∧ cs_sql e = sql.
Proof. unfold cache_position. by intros (? & ? & _)%list_find_Some. Qed.

Lemma cache_position_none sql cache : cache_position sql cache = None → sql ∉ map cs_sql cache.
Proof.
  unfold cache_position. intros Hf%list_find_None Hin. apply list_elem_of_fmap in Hin as (e & -> & Hin).
  rewrite list.Forall_forall in Hf. by apply (Hf _ Hin).
Qed.

Lemma occ_ids x cache : occ x (map cs_cursor_id cache) = sum_by (λ e, hit x (cs_cursor_id e)) cache.
Proof. apply sum_by_map. Qed.

Lemma occ_ids_delete x cache i e : cache !! i = Some e →
  occ x (map cs_cursor_id (delete i cache)) = occ x (map cs_cursor_id cache) - hit x (cs_cursor_id e).
Proof. intros Hi. rewrite !occ_ids. by rewrite (sum_by_delete _ _ _ _ Hi). Qed.

Lemma sqls_delete cache i e : NoDup (map cs_sql cache) → cache !! i = Some e →
  NoDup (map cs_sql (delete i cache)) ∧ cs_sql e ∉ map cs_sql (delete i cache).
Proof.
  intros Hn Hi. apply delete_Permutation in Hi. apply (fmap_Permutation cs_sql) in Hi.
  assert (NoDup (cs_sql e :: map cs_sql (delete i cache))) as H by (by rewrite <- Hi).
  apply list.NoDup_cons in H. tauto.
Qed.

Lemma drop_entry_moves sql c i e :
  registry_ok c → cache_position sql (statement_cache c) = Some (i, e) →
  moves None c (set_cache (delete i) c).
Proof.
  intros (H1 & H2 & H3 & H4) [Hi Hs]%cache_position_some.
  assert (∀ x, n_cached x (set_cache (delete i) c) = n_cached x c - hit x (cs_cursor_id e)) as Hc.
  { intros x. unfold n_cached, cache_ids. cbn. by apply occ_ids_delete. }
  split; [split_and!|split; [done|]].
  - intros x Hx. specialize (H1 x Hx). unfold places in *. rewrite Hc. pose proof (hit_range x (cs_cursor_id e)).
    change (n_copied x (set_cache (delete i) c)) with (n_copied x c).
    change (n_closing x (set_cache (delete i) c)) with (n_closing x c). lia.
  - unfold places in *. pose proof (places_nonneg 0 c). pose proof (places_nonneg 0 (set_cache (delete i) c)).
    change (n_copied 0 (set_cache (delete i) c)) with (n_copied 0 c) in *.
    change (n_closing 0 (set_cache (delete i) c)) with (n_closing 0 c) in *.
    pose proof (hit_range 0 (cs_cursor_id e)). rewrite Hc in *. lia.
  - by apply (sqls_delete _ _ _ H3 Hi).
  - cbn. rewrite length_delete by (by eexists). lia.
  - intros x Hx. left. unfold kept in *. rewrite Hc in Hx. pose proof (hit_range x (cs_cursor_id e)).
    change (n_copied x (set_cache (delete i) c)) with (n_copied x c) in Hx. lia.
Qed.

Lemma statement_cache_invalidate_moves sql id c :
  registry_ok c → moves None c (statement_cache_invalidate sql id c).
Proof.
  intros Hok. unfold statement_cache_invalidate. destruct (cache_position _ _) as [[i e]|] eqn:Hp.
  - pose proof (drop_entry_moves _ _ _ _ Hok Hp) as Hd. eapply moves_trans; [exact Hd|].
    apply close_cursor_moves. apply Hd.
  - by apply close_cursor_moves.
Qed.

Lemma cached_entry c i e : registry_ok c → statement_cache c !! i = Some e →
  cs_cursor_id e ≠ 0 ∧ 1 <= n_cached (cs_cursor_id e) c ∧ (cs_cursor_id e ∉ T → places (cs_cursor_id e) c = 1).
Proof.
  intros (H1 & H2 & _) Hi.
  assert (0 < n_cached (cs_cursor_id e) c) as Hp.
  { unfold n_cached, cache_ids. apply occ_elem. apply list_elem_of_fmap. exists e.
    split; [done|]. by eapply list_elem_of_lookup_2. }
  pose proof (places_nonneg (cs_cursor_id e) c). specialize (H1 (cs_cursor_id e)). unfold places in *.
  split; [|split; [lia|]]; [intros Heq; rewrite Heq in *; lia|]. intros Hx. specialize (H1 Hx). lia.
Qed.

(** The entry moved to the end of the cache. *)
Lemma refresh_entry c sql i e : registry_ok c → cache_position sql (statement_cache c) = Some (i, e) →
  let c' := set_cache (λ cache, delete i cache ++ [e]) c in
  moves None c c' ∧ (∃ j, cache_position sql (statement_cache c') = Some (j, e)).
Proof.
  intros (H1 & H2 & H3 & H4) Hp. pose proof (cache_position_some _ _ _ _ Hp) as [Hi Hs]. intros c'.
  assert (∀ x, n_cached x c' = n_cached x c) as Hc.
  { intros x. change (n_cached x c') with (occ x (map cs_cursor_id (delete i (statement_cache c) ++ [e]))).
    rewrite map_app, occ_app. cbn [map]. rewrite occ_single, (occ_ids_delete _ _ _ _ Hi).
    unfold n_cached, cache_ids. lia. }
  pose proof (sqls_delete _ _ _ H3 Hi) as [Hn Hout]. rewrite Hs in Hout.
  split.
  - split; [split_and!|split; [done|]].
    + intros x Hx. unfold places. rewrite Hc. by apply H1.
    + unfold places. rewrite Hc. apply H2.
    + change (cache_sqls c') with (map cs_sql (delete i (statement_cache c) ++ [e])). rewrite map_app. apply list.NoDup_app. split_and!; [done| |apply NoDup_singleton].
      intros s Hin ->%list_elem_of_singleton. by rewrite Hs in Hin.
    + unfold c'. cbn. rewrite length_app, length_delete by (by eexists). cbn.
      apply lookup_lt_Some in Hi. lia.
    + intros x Hx. left. unfold kept in *. rewrite Hc in Hx. exact Hx.
  - exists (length (delete i (statement_cache c))). unfold cache_position, c'. cbn.
    apply list_find_Some. split_and!; [|done|].
    + rewrite lookup_app_r by lia. by rewrite Nat.sub_diag.
    + intros j y Hj Hlt. rewrite lookup_app_l in Hj by done. intros Hy. apply Hout.
      rewrite <- Hy. apply list_elem_of_fmap. exists y. split; [done|]. by eapply list_elem_of_lookup_2.
Qed.

Lemma evict_spec fuel capacity : ∀ cache,
  (length cache <= fuel)%nat → Forall (λ e, cs_cursor_id e ≠ 0) cache →
  let '(cache', ids) := evict fuel capacity cache in
  (∀ x, occ x (map cs_cursor_id cache') + occ x ids = occ x (map cs_cursor_id cache)) ∧
  (length cache' <= capacity)%nat ∧ ∃ pre, cache = pre ++ cache'.
Proof.
  induction fuel as [|fuel IH]; intros [|e cache] Hf Hz; cbn [evict length] in *; try lia.
  - split_and!; [done|lia|by exists []].
  - split_and!; [done|cbn; lia|by exists []].
  - apply Forall_cons_iff in Hz as [He Hz].
    destruct (Nat.ltb_spec capacity (S (length cache))) as [Hl|Hl].
    + specialize (IH cache ltac:(lia) Hz). destruct (evict fuel capacity cache) as [cache' ids].
      destruct IH as (Ho & Hlen & pre & Hpre). rewrite (proj2 (Z.eqb_neq _ 0) He).
      split_and!; [|done|exists (e :: pre); cbn; by rewrite Hpre].
      intros x. specialize (Ho x). cbn [map app]. rewrite !occ_cons. lia.
    + split_and!; [|done|by exists []]. intros x. cbn. lia.
Qed.

Lemma ids_nonzero c : registry_ok c → Forall (λ e, cs_cursor_id e ≠ 0) (statement_cache c).
Proof. intros Hok. apply list.Forall_forall. intros e (i & Hi)%list_elem_of_lookup. by apply (cached_entry c i e). Qed.

(** [id] may be kept under [sql]: it is nowhere, or it is the statement's own. *)
Definition may_keep (sql : chars) (id : Z) (c : Cursors) : Prop :=
  places id c = 0 ∨ ∃ i e, cache_position sql (statement_cache c) = Some (i, e) ∧ cs_cursor_id e = id.

Lemma statement_cache_insert_spec c sql id shape :
  registry_ok c → id ≠ 0 →
  let '(cache, ids) := statement_cache_insert (statement_cache c) (statement_cache_size c) sql id shape in
  (∃ d, 0 <= d <= 1 ∧ (may_keep sql id c → places id c = 0 ∨ d = 0) ∧
    ∀ x, occ x (map cs_cursor_id cache) + occ x ids + n_copied x c + n_closing x c = places x c + d * hit x id) ∧
  NoDup (map cs_sql cache) ∧ (length cache <= statement_cache_size c)%nat.
Proof.
  intros Hok Hid. pose proof Hok as (H1 & H2 & H3 & H4). pose proof (ids_nonzero c Hok) as Hz.
  unfold statement_cache_insert. rewrite (proj2 (Z.eqb_neq id 0) Hid).
  (* the entry of the statement, if any, leaves the cache *)
  set (step := match cache_position sql (statement_cache c) with Some _ => _ | None => _ end).
  assert (∃ rest replaced shape' d, step = (rest, replaced, shape') ∧ 0 <= d <= 1 ∧
    (may_keep sql id c → places id c = 0 ∨ d = 0) ∧
    (∀ x, occ x (map cs_cursor_id rest) + occ x replaced + (1 - d) * hit x id = n_cached x c) ∧
    NoDup (map cs_sql rest) ∧ sql ∉ map cs_sql rest ∧ Forall (λ e, cs_cursor_id e ≠ 0) rest) as
    (rest & replaced & shape' & d & -> & Hd1 & Hkeep & Ho & Hn & Hout & Hr).
  { unfold step. destruct (cache_position sql (statement_cache c)) as [[i old]|] eqn:Hp.
    - pose proof (cache_position_some _ _ _ _ Hp) as [Hi Hs].
      pose proof (cached_entry c i old Hok Hi) as [Ho0 _]. pose proof (sqls_delete _ _ _ H3 Hi) as [Hn Hout].
      rewrite Hs in Hout. rewrite (proj2 (Z.eqb_neq (cs_cursor_id old) 0) Ho0). cbn [negb andb].
      assert (Forall (λ e, cs_cursor_id e ≠ 0) (delete i (statement_cache c))) as Hzd.
      { rewrite (delete_Permutation _ _ _ Hi), Forall_cons_iff in Hz. tauto. }
      pose proof (λ x, occ_ids_delete x _ _ _ Hi) as Hd.
      destruct (Z.eqb_spec (cs_cursor_id old) id) as [Heq|Hne]; cbn [negb andb].
      + destruct (length (cs_bind_shape old) =? length shape)%nat; eexists _, _, _, 0; (split; [done|]);
          (split_and!; try done; [by right|]; intros x; rewrite Hd, Heq; cbn; unfold n_cached, cache_ids; lia).
      + eexists _, _, _, 1. split; [done|]. split_and!; try done.
        * intros [?|(i' & e' & Hp' & He')]; [by left|]. rewrite Hp in Hp'. naive_solver.
        * intros x. rewrite Hd, occ_single. unfold n_cached, cache_ids. lia.
    - eexists _, _, _, 1. split; [done|]. split_and!; try done; [|intros x; cbn; unfold n_cached, cache_ids; lia|by apply cache_position_none].
      intros [?|(i' & e' & Hp' & _)]; [by left|congruence]. }
  set (cache := rest ++ _).
  pose proof (evict_spec (length cache) (statement_cache_size c) cache (le_n _)) as He.
  destruct (evict (length cache) (statement_cache_size c) cache) as [cache' evicted].
  destruct He as (He & Hlen & pre & Hpre).
  { unfold cache. apply Forall_app. split; [done|]. by repeat constructor. }
  split_and!; [exists d; split_and!; try done; [lia..|]| |done].
  - intros x. specialize (He x). specialize (Ho x). unfold cache in He. rewrite map_app, occ_app in He.
    cbn [map] in He. rewrite occ_single in He. cbn [cs_cursor_id] in He. rewrite occ_app. unfold places. lia.
  - assert (NoDup (map cs_sql cache)) as Hnc.
    { unfold cache. rewrite map_app. apply list.NoDup_app. split_and!; [done| |apply NoDup_singleton].
      intros s Hin ->%list_elem_of_singleton. done. }
    rewrite Hpre, map_app in Hnc. apply list.NoDup_app in Hnc. tauto.
Qed.

Lemma statement_cache_put_moves sql id shape c :
  registry_ok c → id = 0 ∨ id ∈ T ∨ may_keep sql id c → moves (Some id) c (statement_cache_put sql id shape c).
Proof.
  intros Hok Hk. unfold statement_cache_put.
  destruct (decide (id = 0)) as [->|Hid].
  { cbn. eapply moves_then_same with (c' := c); [|].
    - destruct (moves_same c c Hok (reflexivity c)) as (? & ? & Hm). split_and!; try done.
      intros x Hx. destruct (Hm x Hx) as [?|[=]]. by left.
    - split_and!; try done. cbn. by rewrite app_nil_r. }
  destruct Hk as [?|Hk]; [done|].
  pose proof (statement_cache_insert_spec c sql id shape Hok Hid) as Hs.
  destruct (statement_cache_insert _ _ _ _ _) as [cache ids]. destruct Hs as ((d & Hd & Hkeep & Ho) & Hn & Hl).
  set (c1 := foldl _ _ ids). set (c2 := set_to_close _ c1).
  assert (same_places (set_cache (λ _, cache) c) c1) as (Hc1 & Hc2 & Hc3 & Hc4) by apply forget_all_same.
  pose proof Hok as (H1 & H2 & H3 & H4).
  assert (∀ x, n_cached x c2 = occ x (map cs_cursor_id cache) ∧ n_copied x c2 = n_copied x c ∧
    n_closing x c2 = n_closing x c + occ x ids) as Hcount.
  { intros x. split_and!.
    - change (n_cached x c2) with (occ x (map cs_cursor_id (statement_cache c1))). by rewrite Hc1.
    - change (n_copied x c2) with (mem x (copied_cursors c1)). by rewrite Hc2.
    - change (n_closing x c2) with (occ x (cursors_to_close c1 ++ ids)). by rewrite Hc3, occ_app. }
  split; [split_and!|split].
  - intros x Hx. specialize (Ho x). specialize (H1 x Hx). unfold places at 1. destruct (Hcount x) as (-> & -> & ->).
    unfold hit in Ho. case_decide; subst; [|lia]. destruct Hk as [?|Hk]; [done|]. destruct (Hkeep Hk); subst; lia.
  - specialize (Ho 0). unfold places at 1. destruct (Hcount 0) as (-> & -> & ->). rewrite hit_ne in Ho by done. lia.
  - change (NoDup (map cs_sql (statement_cache c1))). by rewrite Hc1.
  - change (length (statement_cache c1) <= statement_cache_size c1)%nat. by rewrite Hc1, Hc4.
  - change (statement_cache_size c1 = statement_cache_size c). by rewrite Hc4.
  - intros x Hx. specialize (Ho x). unfold kept in *. destruct (Hcount x) as (Hx1 & Hx2 & _).
    rewrite Hx1, Hx2 in Hx. destruct (decide (x = id)) as [->|Hne]; [by right|]. left.
    rewrite hit_ne in Ho by done. pose proof (occ_nonneg x ids). unfold places in Ho. lia.
Qed.

(** ** Choosing the cursor of an execute *)

(** What the request names: nothing, or a cursor that was kept and, unless it is stale,
    is not queued; under the cache it is the statement's own and no live fetch holds it,
    outside the cache it has left every place. *)
Definition chosen (sql : chars) (use_cache : bool) (id : Z) (c c' : Cursors) : Prop :=
  id = 0 ∨
  (kept id c ∧ (id ∉ T → n_closing id c' = 0) ∧
   if use_cache then id ∉ in_use_cursors c ∧
     ∃ i e, cache_position sql (statement_cache c') = Some (i, e) ∧ cs_cursor_id e = id
   else id ∉ T → places id c' = 0).

Lemma kept_entry c i e : registry_ok c → statement_cache c !! i = Some e →
  kept (cs_cursor_id e) c ∧ (cs_cursor_id e ∉ T → n_closing (cs_cursor_id e) c = 0).
Proof.
  intros Hok Hi. pose proof (cached_entry c i e Hok Hi) as (_ & H1 & H2).
  pose proof (places_nonneg (cs_cursor_id e) c). unfold kept, places in *. split; [lia|]. intros Hx. specialize (H2 Hx). lia.
Qed.

Lemma choose_cursor_spec sql shape use_cache o c :
  registry_ok c → o_cursor_id o = 0 →
  let '(o', is_copy, c') := choose_cursor sql shape use_cache o c in
  moves None c c' ∧ parse_only o' = parse_only o ∧
  chosen sql use_cache (o_cursor_id o') c c' ∧ (is_copy = true → o_cursor_id o' = 0 ∧ use_cache = true).
Proof.
  intros Hok Ho. unfold choose_cursor. rewrite Ho. cbn [Z.eqb andb].
  pose proof (moves_same c c Hok (reflexivity c)) as Hrefl.
  destruct (parse_only o) eqn:Hpo; cbn [negb]; [by split_and!; [|exact Hpo|left|]|].
  destruct use_cache.
  - destruct (statement_is_in_use sql c); [by split_and!; [|exact Hpo|left|]|].
    unfold statement_cache_get. destruct (cache_position sql (statement_cache c)) as [[i e]|] eqn:Hp;
      [|by split_and!; [|exact Hpo|left|]].
    pose proof (cache_position_some _ _ _ _ Hp) as [Hi Hs].
    pose proof (cached_entry c i e Hok Hi) as [Hne _]. pose proof (kept_entry c i e Hok Hi) as [Hkept Hcl].
    rewrite (proj2 (Z.eqb_neq _ 0) Hne). cbn [negb andb].
    case_bool_decide as Huse; [by split_and!; [|exact Hpo|left|]|].
    destruct (bind_shape_is_compatible (cs_bind_shape e) shape); cbn [negb].
    + destruct (refresh_entry c sql i e Hok Hp) as [Hm (j & Hj)]. split_and!; [done|exact Hpo| |done].
      right. split_and!; [done|done|done|]. by exists j, e.
    + split_and!; [by apply statement_cache_invalidate_moves|exact Hpo|by left|done].
  - unfold statement_cache_take. destruct (cache_position sql (statement_cache c)) as [[i e]|] eqn:Hp;
      [|by split_and!; [|exact Hpo|left|]].
    pose proof (cache_position_some _ _ _ _ Hp) as [Hi Hs].
    pose proof (kept_entry c i e Hok Hi) as [Hkept Hcl].
    destruct (bind_shape_is_compatible (cs_bind_shape e) shape); cbn [negb].
    + split_and!; [by eapply drop_entry_moves|exact Hpo| |done]. right. split_and!; [done|done|].
      cbn [o_cursor_id with_cursor_id]. intros Hx. unfold places.
      change (n_cached (cs_cursor_id e) (set_cache (delete i) c)) with
        (occ (cs_cursor_id e) (map cs_cursor_id (delete i (statement_cache c)))).
      change (n_copied (cs_cursor_id e) (set_cache (delete i) c)) with (n_copied (cs_cursor_id e) c).
      change (n_closing (cs_cursor_id e) (set_cache (delete i) c)) with (n_closing (cs_cursor_id e) c).
      rewrite (occ_ids_delete _ _ _ _ Hi), hit_eq.
      pose proof (cached_entry c i e Hok Hi) as (_ & H1 & H2). specialize (H2 Hx).
      pose proof (places_nonneg (cs_cursor_id e) c). unfold places, n_cached, cache_ids in *. lia.
    + split_and!; [by apply statement_cache_invalidate_moves|exact Hpo|by left|done].
Qed.

Lemma suppress_prefetch_id sql c o :
  o_cursor_id (suppress_prefetch sql c o) = o_cursor_id o ∧
  parse_only (suppress_prefetch sql c o) = parse_only o.
Proof. unfold suppress_prefetch. by repeat case_match. Qed.

Lemma take_close_spec c : registry_ok c →
  let '(piggyback, c') := take_close_cursors_piggyback c in
  default [] piggyback = cursors_to_close c ∧ moves None c c' ∧ statement_cache c' = statement_cache c ∧
  copied_cursors c' = copied_cursors c ∧ cursors_to_close c' = [].
Proof.
  intros Hok. unfold take_close_cursors_piggyback. destruct (cursors_to_close c) as [|id ids] eqn:Hc.
  - split_and!; try done. by apply moves_same.
  - split_and!; try done. set (c' := set_seq _ _). pose proof Hok as (H1 & H2 & H3 & H4).
    assert (∀ x, n_cached x c' = n_cached x c ∧ n_copied x c' = n_copied x c ∧ n_closing x c' = 0) as Hn by done.
    split; [split_and!; [| |done|done]|split; [done|]].
    + intros x Hx. specialize (H1 x Hx). unfold places in *. destruct (Hn x) as (-> & -> & ->).
      pose proof (places_nonneg x c). lia.
    + unfold places in *. destruct (Hn 0) as (-> & -> & ->). pose proof (places_nonneg 0 c). lia.
    + intros x Hx. left. exact Hx.
Qed.

(** ** After the response *)

Definition ref_ids (bind_rows : BindRows) : list Z :=
  concat bind_rows ≫= λ v, match v with BCursor id => [id] | _ => [] end.

(** Cache entries leave; nothing else moves. *)
Definition prunes (c c' : Cursors) : Prop :=
  moves None c c' ∧ copied_cursors c' = copied_cursors c ∧ cursors_to_close c' = cursors_to_close c ∧
  ∀ x, n_cached x c' <= n_cached x c.

Lemma prune_one c v : registry_ok c →
  prunes c (invalidate_ref_cursor c v) ∧
  ∀ id, v = BCursor id → id ≠ 0 → n_cached id (invalidate_ref_cursor c v) = 0.
Proof.
  intros Hok. pose proof (moves_same c c Hok (reflexivity c)) as Hrefl.
  destruct v as [| | | | | | | | | | | | | | | | | | | | | | |id]; try by split; [|intros ? [=]].
  cbn [invalidate_ref_cursor]. destruct (Z.eqb_spec id 0) as [->|Hid].
  { split; [done|]. by intros ? [= <-]. }
  set (c' := forget_cursor_metadata id _). pose proof Hok as (H1 & H2 & H3 & H4).
  assert (∀ x, n_cached x c' = (if decide (x = id) then 0 else n_cached x c)) as Hn.
  { intros x. change (n_cached x c') with
      (occ x (map cs_cursor_id (filter (λ e, cs_cursor_id e ≠ id) (statement_cache c)))).
    rewrite ids_filter. apply occ_filter_ne. }
  assert (∀ x, n_copied x c' = n_copied x c ∧ n_closing x c' = n_closing x c) as Hs by done.
  split.
  - split_and!; try done.
    + split; [split_and!|split; [done|]].
      * intros x Hx. specialize (H1 x Hx). unfold places in *. rewrite Hn. destruct (Hs x) as (-> & ->).
        pose proof (places_nonneg x c). case_decide; lia.
      * unfold places in *. rewrite Hn. destruct (Hs 0) as (-> & ->). pose proof (places_nonneg 0 c).
        case_decide; lia.
      * change (NoDup (map cs_sql (filter (λ e, cs_cursor_id e ≠ id) (statement_cache c)))).
        by apply cache_sqls_filter.
      * change (length (filter (λ e, cs_cursor_id e ≠ id) (statement_cache c)) <= statement_cache_size c)%nat.
        etrans; [apply length_filter|done].
      * intros x. unfold kept. rewrite Hn. destruct (Hs x) as (-> & _). pose proof (places_nonneg x c).
        case_decide; left; lia.
    + intros x. rewrite Hn. pose proof (places_nonneg x c). case_decide; lia.
  - intros ? [= <-] _. rewrite Hn. by rewrite decide_True.
Qed.

Lemma prunes_trans c c' c'' : prunes c c' → prunes c' c'' → prunes c c''.
Proof.
  intros (Hm & Hc & Ht & Hn) (Hm' & Hc' & Ht' & Hn'). split_and!; [|congruence|congruence|].
  - by eapply moves_trans.
  - intros x. specialize (Hn x). specialize (Hn' x). lia.
Qed.

Lemma invalidate_bound_ref_cursors_spec bind_rows c : registry_ok c →
  prunes c (invalidate_bound_ref_cursors bind_rows c) ∧
  ∀ id, id ∈ ref_ids bind_rows → id ≠ 0 → n_cached id (invalidate_bound_ref_cursors bind_rows c) = 0.
Proof.
  unfold invalidate_bound_ref_cursors, ref_ids.
  assert (∀ rows c, foldl (foldl invalidate_ref_cursor) c rows = foldl invalidate_ref_cursor c (concat rows)) as ->.
  { induction rows as [|row rows IH]; intros c0; cbn; [done|]. by rewrite foldl_app, IH. }
  revert c. induction (concat bind_rows) as [|v vs IH]; intros c Hok; cbn [foldl mbind list_bind].
  { split; [|by intros ? ?%not_elem_of_nil]. split_and!; try done. by apply moves_same. }
  destruct (prune_one c v Hok) as [Hp Hv]. pose proof Hp as ((Hok' & _) & _).
  destruct (IH _ Hok') as [Hp' Hvs]. split; [by eapply prunes_trans|].
  intros id [Hin|Hin]%elem_of_app Hid; [|by apply Hvs].
  destruct v; try by apply not_elem_of_nil in Hin. apply list_elem_of_singleton in Hin as ->.
  pose proof (Hv _ eq_refl Hid) as H0. destruct Hp' as (_ & _ & _ & Hle). specialize (Hle cursor_id).
  pose proof (places_nonneg cursor_id (foldl invalidate_ref_cursor (invalidate_ref_cursor c (BCursor cursor_id)) vs)).
  lia.
Qed.

Lemma moves_widen n c c' : moves None c c' → moves n c c'.
Proof. intros (? & ? & Hk). split_and!; try done. intros x Hx. destruct (Hk x Hx) as [?|[=]]. by left. Qed.

Lemma moves_then n c c' c'' : moves n c c' → moves None c' c'' → moves n c c''.
Proof.
  intros (_ & Hs & Hk) (Hok & Hs' & Hk'). split_and!; [done|congruence|]. intros x Hx.
  destruct (Hk' x Hx) as [?|[=]]. by apply Hk.
Qed.

Lemma copy_moves id c : registry_ok c → id ≠ 0 → id ∈ T ∨ places id c = 0 → moves (Some id) c (set_copied (.∪ {[id]}) c).
Proof.
  intros (H1 & H2 & H3 & H4) Hid Hp. set (c' := set_copied _ c).
  assert (∀ x, n_cached x c' = n_cached x c ∧
    n_copied x c' = (if decide (x = id) then 1 else n_copied x c) ∧ n_closing x c' = n_closing x c) as Hn.
  { intros x. split_and!; [done|apply mem_add|done]. }
  pose proof (places_nonneg id c).
  split; [split_and!; [| |done|done]|split; [done|]].
  - intros x Hx. specialize (H1 x Hx). unfold places in *. destruct (Hn x) as (-> & -> & ->).
    case_decide; subst; [destruct Hp as [?|?]; [done|]|]; lia.
  - unfold places in *. destruct (Hn 0) as (-> & -> & ->). rewrite decide_False by done. done.
  - intros x. unfold kept. destruct (Hn x) as (-> & -> & _). case_decide; [subst; by right|by left].
Qed.

Lemma remember_columns_same result c : same_places c (remember_cursor_columns result c).
Proof. unfold remember_cursor_columns. by repeat case_match. Qed.

Lemma record_result_moves sql bind_rows use_cache is_copy o shape result c :
  registry_ok c →
  (is_copy = true → r_cursor_id result = 0 ∨ r_cursor_id result ∈ T ∨ places (r_cursor_id result) c = 0) →
  (is_copy = false → use_cache = true → r_cursor_id result = 0 ∨ r_cursor_id result ∈ T ∨ may_keep sql (r_cursor_id result) c) →
  let c' := record_result sql bind_rows use_cache is_copy o shape result c in
  moves (Some (r_cursor_id result)) c c' ∧
  ∀ x, x ∈ ref_ids bind_rows → x ≠ 0 → n_cached x c' = 0.
Proof.
  intros Hok Hcopy Hput. unfold record_result. cbv zeta. set (id := r_cursor_id result) in *.
  match goal with |- context [if ?b then set_lob ?f c else c] => set (c1 := if b then set_lob f c else c) end.
  assert (same_places c c1) as Hs1 by (unfold c1; by case_match).
  pose proof (same_places_ok _ _ Hs1 Hok) as Hok1.
  assert (∀ x, places x c1 = places x c) as Hp1.
  { intros x. unfold places. by destruct (same_places_count c c1 x Hs1) as (-> & -> & ->). }
  match goal with |- context [if is_copy then ?a else ?b] => set (c2 := if is_copy then a else b) end.
  assert (moves (Some id) c1 c2) as Hm2.
  { unfold c2. destruct is_copy.
    - destruct (Z.eqb_spec id 0) as [->|Hid]; [apply moves_widen; by apply moves_same|].
      apply copy_moves; [done|done|]. rewrite Hp1. by destruct Hcopy.
    - destruct use_cache; [|apply moves_widen; by apply moves_same].
      apply statement_cache_put_moves; [done|]. unfold may_keep. rewrite Hp1.
      destruct Hs1 as (-> & _). by apply Hput. }
  match goal with |- context [if ?b then set_in_use ?f c2 else c2] => set (c3 := if b then set_in_use f c2 else c2) end.
  assert (moves (Some id) c1 c3) as Hm3 by (eapply moves_then_same; [exact Hm2|unfold c3; by case_match]).
  pose proof Hm3 as (Hok3 & _). destruct (invalidate_bound_ref_cursors_spec bind_rows c3 Hok3) as [Hpr Href].
  split.
  - eapply moves_trans; [by apply moves_same; [exact Hok|exact Hs1]|].
    eapply moves_then_same; [|apply remember_columns_same]. eapply moves_then; [exact Hm3|]. apply Hpr.
  - intros x Hx Hx0.
    destruct (same_places_count _ _ x (remember_columns_same result (invalidate_bound_ref_cursors bind_rows c3)))
      as (-> & _). by apply Href.
Qed.

Lemma apply_refetch_moves env sql result c shapes : registry_ok c →
  let '(_, c', _) := apply_refetch_metadata env sql result c shapes in moves None c c'.
Proof.
  intros Hok. unfold apply_refetch_metadata. pose proof (moves_same c c Hok (reflexivity c)) as Hrefl.
  case_bool_decide; [done|]. destruct (refetch_plan _ _ _ _ _) as [[redefine sh] f].
  assert (∀ g, moves None c (set_fetch g (set_fetch f c))) as Hf by (intros g; by apply moves_same).
  assert (moves None c (set_fetch f c)) as Hf' by (by apply moves_same).
  destruct redefine as [adjusted|]; [|done]. destruct (e_checkpoint env); [done|].
  destruct (e_redefine env adjusted); [|done].
  eapply moves_trans; [exact Hf'|]. apply close_cursor_moves. apply Hf'.
Qed.

Lemma note_error_moves err c : registry_ok c → moves None c (note_error err c).
Proof.
  intros Hok. unfold note_error.
  assert (moves None c (match err with ServerErrorInfo d => close_cursor (sed_cursor_id d) c | _ => c end)) as Hm.
  { destruct err; try (by apply moves_same). by apply close_cursor_moves. }
  destruct (protocol_error_is_session_dead err); [|done]. eapply moves_then_same; [exact Hm|done].
Qed.

Lemma moves_kept n c c' (S : gset Z) :
  moves n c c' → (∀ x, kept x c → x ∈ S) → (∀ x, n = Some x → x ≠ 0 → x ∈ S) → ∀ x, kept x c' → x ∈ S.
Proof.
  intros (Hok & _ & Hk) HS Hn x Hx. destruct (Hk x Hx) as [?|Heq]; [by apply HS|]. apply Hn; [done|].
  intros ->. destruct Hok as (_ & H0 & _). unfold kept, places in *. pose proof (places_nonneg 0 c'). lia.
Qed.

(** The request an execute builds, and the bookkeeping while it is out. *)
Lemma prepare_spec sql shape use_cache o c (S : gset Z) :
  registry_ok c → (∀ x, kept x c → x ∈ S ∪ T) → o_cursor_id o = 0 →
  let '(o', is_copy, c1) := choose_cursor sql shape use_cache o c in
  let '(piggyback, c2) := take_close_cursors_piggyback c1 in
  let closes := default [] piggyback in
  let id := o_cursor_id o' in
  let S1 := S ∖ list_to_set closes in
  moves None c c2 ∧ cursors_to_close c2 = [] ∧ (∀ x, kept x c2 → x ∈ S1 ∪ T) ∧
  (∀ x, x ∉ T → occ x closes <= 1) ∧ 0 ∉ closes ∧ (id = 0 ∨ id ∈ T ∨ id ∈ S ∧ id ∉ closes) ∧
  (use_cache = true → id = 0 ∨ id ∉ in_use_cursors c) ∧
  (is_copy = true → id = 0 ∧ use_cache = true) ∧
  (use_cache = true → id = 0 ∨ may_keep sql id c2) ∧
  (∀ x, x ∉ S1 → x ∉ T → places x c2 = 0).
Proof.
  intros Hok HS Ho. pose proof (choose_cursor_spec sql shape use_cache o c Hok Ho) as Hc.
  destruct (choose_cursor sql shape use_cache o c) as [[o' is_copy] c1].
  destruct Hc as (Hm1 & _ & Hch & Hcp). pose proof Hm1 as (Hok1 & _).
  pose proof (take_close_spec c1 Hok1) as Ht. destruct (take_close_cursors_piggyback c1) as [piggyback c2].
  destruct Ht as (-> & Hm2 & Hcache & Hcopied & Hnil). cbv zeta.
  assert (∀ x, x ∈ cursors_to_close c1 → 0 < n_closing x c1) as Hin by (intros x; by apply occ_elem).
  pose proof Hok1 as (H1 & H0 & _).
  assert (∀ x, kept x c2 → x ∈ (S ∖ list_to_set (cursors_to_close c1)) ∪ T) as Hkept2.
  { intros x Hx. assert (kept x c1) as Hx1 by (by destruct Hm2 as (_ & _ & Hk); destruct (Hk x Hx) as [?|[=]]).
    assert (x ∈ S ∪ T) as HST by (apply HS; destruct Hm1 as (_ & _ & Hk); by destruct (Hk x Hx1) as [?|[=]]).
    destruct (decide (x ∈ T)) as [HT|HT]; [set_solver|].
    assert (x ∉ cursors_to_close c1); [|apply elem_of_union; left; apply elem_of_difference; rewrite elem_of_list_to_set; set_solver].
    intros Hx2. apply Hin in Hx2. specialize (H1 x HT). unfold kept, places in *. lia. }
  split_and!; try done.
  - by eapply moves_trans.
  - intros x Hx. specialize (H1 x Hx). pose proof (places_nonneg x c1). unfold places, n_closing in *. lia.
  - intros Hx. apply Hin in Hx. pose proof (places_nonneg 0 c1). unfold places in H0. lia.
  - destruct Hch as [->|(Hk & Hz & _)]; [by left|]. right.
    destruct (decide (o_cursor_id o' ∈ T)) as [HT|HT]; [by left|right]. specialize (HS _ Hk). split; [set_solver|].
    intros Hx. apply Hin in Hx. specialize (Hz HT). lia.
  - intros ->. destruct Hch as [->|(_ & _ & Hu & _)]; [by left|by right].
  - intros ->. destruct Hch as [->|(_ & _ & _ & i & e & Hp & He)]; [by left|]. right. right.
    exists i, e. by rewrite Hcache.
  - intros x Hx HT. pose proof (places_nonneg x c2).
    assert (n_closing x c2 = 0) as Hz by (unfold n_closing; by rewrite Hnil).
    destruct (decide (0 < n_cached x c2 + n_copied x c2)) as [Hk|Hk]; [apply Hkept2 in Hk; set_solver|].
    unfold places. lia.
Qed.

End Registry.

Lemma registry_weaken T T' c : T ⊆ T' → registry_ok T c → registry_ok T' c.
Proof. intros HT (H1 & H2). split; [|done]. intros x Hx. apply H1. set_solver. Qed.


(** ** The server *)

(** The cursors open at the server after a request: it closes what the request asks for
    and, when a block ran, whichever of the cursors bound to it the block closed ([K]),
    whether the block succeeded or not; it opens the cursor it reports, fresh when the
    request asked for a parse. *)
Definition server_step (S : gset Z) (bind_rows : BindRows) (r : ExecRequest)
  (answer : DErr + (ProtocolError + QueryResult)) (K S' : gset Z) : Prop :=
  let S1 := S ∖ list_to_set (rq_closes r) in
  (∀ x, x ∈ K → x ∈ ref_ids bind_rows ∧ x ≠ 0) ∧ S1 ∖ K ⊆ S' ∧
  match answer with
  | inl _ | inr (inl _) => True
  | inr (inr result) =>
      let id := r_cursor_id result in
      (if o_cursor_id (rq_options r) =? 0 then id = 0 ∨ id ∉ S1 else id = o_cursor_id (rq_options r)) ∧
      (id ≠ 0 → id ∈ S')
  end.

(** A cursor the block closed is stale when the driver goes on counting it as open: after an
    answer that parsed only a copy, otherwise also a cached one. *)
Definition missed (answer : DErr + (ProtocolError + QueryResult)) (c' : Cursors) (x : Z) : Prop :=
  match answer with inr (inr _) => x ∈ copied_cursors c' | _ => kept x c' end.

(** The driver, the shapes all connections share, the cursors open at the server and the
    stale ones. *)
Abbreviation Sys := (Cursors * StatementShapeCache * gset Z * gset Z)%type.

Inductive sys_step : Sys → Sys → Prop :=
| sys_execute env sql bind_rows o c sh S T res c' sh' r K S' T' :
    o_cursor_id o = 0 →
    execute_query env sql bind_rows o c sh = (res, c', sh', [r]) →
    server_step S bind_rows r (e_round_trip env r) K S' →
    (∀ x, x ∈ T' ↔ x ∈ T ∨ x ∈ K ∧ missed (e_round_trip env r) c' x) →
    sys_step (c, sh, S, T) (c', sh', S', T')
| sys_refused env sql bind_rows o c sh S T res c' sh' :
    o_cursor_id o = 0 →
    execute_query env sql bind_rows o c sh = (res, c', sh', []) →
    sys_step (c, sh, S, T) (c', sh', S, T)
| sys_release id c sh S T : sys_step (c, sh, S, T) (release_cursor id c, sh, S, T)
| sys_close id c sh S T : sys_step (c, sh, S, T) (close_cursor id c, sh, S, T)
| sys_flush c sh S S' T :
    S ∖ list_to_set (cursors_to_close c) ⊆ S' →
    sys_step (c, sh, S, T) (snd (take_close_cursors_piggyback c), sh, S', T)
| sys_share c sh sh' S T : sys_step (c, sh, S, T) (c, sh', S, T).

Definition sys_ok (s : Sys) : Prop :=
  let '(c, _, opened, stale) := s in registry_ok stale c ∧ ∀ x, kept x c → x ∈ opened ∪ stale.

(** A request names no cursor, a stale one, or one that is open and that it does not
    close; it closes no cursor that is not stale twice. *)
Definition request_ok (S T : gset Z) (r : ExecRequest) : Prop :=
  (∀ x, x ∉ T → occ x (rq_closes r) <= 1) ∧ 0 ∉ rq_closes r ∧
  (o_cursor_id (rq_options r) = 0 ∨ o_cursor_id (rq_options r) ∈ T ∨
   o_cursor_id (rq_options r) ∈ S ∧ o_cursor_id (rq_options r) ∉ rq_closes r).

(** From the bookkeeping while the request was out to the one after its answer. *)
Lemma answer_ok T T' n c c' (S1 K S' : gset Z) (M : Z → Prop) :
  moves T n c c' → (∀ x, kept x c → x ∈ S1 ∪ T) → S1 ∖ K ⊆ S' → (∀ x, n = Some x → x ≠ 0 → x ∈ S') →
  (∀ x, x ∈ K → kept x c' → M x) → (∀ x, x ∈ T' ↔ x ∈ T ∨ x ∈ K ∧ M x) →
  registry_ok T' c' ∧ ∀ x, kept x c' → x ∈ S' ∪ T'.
Proof.
  intros Hm HS HS' Hn HM HT. split; [eapply registry_weaken; [|apply Hm]; set_solver|]. intros x Hx.
  destruct (decide (x ∈ S')) as [?|Hout]; [set_solver|].
  assert (kept x c) as Hc.
  { pose proof Hm as (_ & _ & Hk). destruct (Hk x Hx) as [?|Heq]; [done|]. exfalso. apply Hout, Hn; [done|]. intros ->.
    destruct Hm as ((_ & H0 & _) & _). unfold kept, places in *. pose proof (places_nonneg 0 c'). lia. }
  specialize (HS x Hc). apply elem_of_union. right. apply HT.
  destruct (decide (x ∈ T)) as [?|HxT]; [by left|right]. assert (x ∈ K) by set_solver. split; [done|]. by apply HM.
Qed.

(** What happens to the bound cursors after an answer that parsed. *)
Lemma apply_refetch_cached env sql result c shapes x :
  n_cached x (apply_refetch_metadata env sql result c shapes).1.2 <= n_cached x c.
Proof.
  unfold apply_refetch_metadata. case_bool_decide; [done|]. destruct (refetch_plan _ _ _ _ _) as [[redefine sh] f].
  destruct redefine as [adjusted|]; [|done]. destruct (e_checkpoint env); [done|]. destruct (e_redefine env adjusted); [|done].
  cbn [fst snd]. destruct (Z.eqb_spec (r_cursor_id result) 0) as [->|Hid]; [done|].
  destruct (close_cursor_counts (r_cursor_id result) (set_fetch f c) x Hid) as (-> & _).
  pose proof (places_nonneg x (set_fetch f c)). change (n_cached x (set_fetch f c)) with (n_cached x c) in *. case_decide; lia.
Qed.

Lemma kept_uncached x c : kept x c → n_cached x c <= 0 → x ∈ copied_cursors c.
Proof. unfold kept, n_copied, mem. pose proof (places_nonneg x c). case_decide; [done|lia]. Qed.

Lemma execute_ok env sql bind_rows o c sh S T :
  sys_ok (c, sh, S, T) → o_cursor_id o = 0 →
  let '(res, c', sh', sent) := execute_query env sql bind_rows o c sh in
  match sent with
  | [] => sys_ok (c', sh', S, T)
  | [r] => request_ok S T r ∧
      (cache_statement o && negb (parse_only o) = true →
       o_cursor_id (rq_options r) = 0 ∨ o_cursor_id (rq_options r) ∉ in_use_cursors c) ∧
      ∀ K S' T', server_step S bind_rows r (e_round_trip env r) K S' →
        (∀ x, x ∈ T' ↔ x ∈ T ∨ x ∈ K ∧ missed (e_round_trip env r) c' x) → sys_ok (c', sh', S', T')
  | _ => False
  end.
Proof.
  intros [Hok HS] Ho. unfold execute_query.
  destruct (check_rows bind_rows o) as [[]|e| |]; try done.
  set (use_cache := cache_statement o && negb (parse_only o)). set (shape := bind_type_shape bind_rows).
  pose proof (prepare_spec T sql shape use_cache o c S Hok HS Ho) as Hp.
  destruct (choose_cursor sql shape use_cache o c) as [[o' is_copy] c1].
  destruct (suppress_prefetch_id sql c1 o') as [Hid Hpo].
  destruct (take_close_cursors_piggyback c1) as [piggyback c2].
  destruct Hp as (Hm & Hnil & Hk2 & Hnd & Hz & Hreq & Huse & Hcp & Hmay & Hfresh).
  set (c3 := reserve_slot piggyback bind_rows c2).
  assert (same_places c2 c3) as Hs3 by (unfold c3, reserve_slot; by repeat case_match).
  assert (same_places c2 (advance_seq c3)) as Hs4 by (etrans; [exact Hs3|done]).
  assert (∀ c', same_places c2 c' → moves T None c c') as Hmv by (intros; by eapply moves_then_same).
  assert (∀ c', same_places c2 c' → ∀ x, kept x c' → x ∈ S ∖ list_to_set (default [] piggyback) ∪ T) as Hkk.
  { intros c' Hs x Hx. apply Hk2. by apply (same_places_kept c2 c' x Hs). }
  assert (∀ c', same_places c2 c' → sys_ok (c', sh, S, T)) as Hstay.
  { intros c' Hs. split; [by apply (Hmv c')|]. intros x Hx. specialize (Hkk c' Hs x Hx). set_solver. }
  destruct (check_limits (e_limits env) bind_rows) as [[]|e| |]; try by apply Hstay.
  set (r := mkExecRequest _ _ _ _).
  destruct (e_build env r) as [[]|e| |]; try by apply Hstay.
  assert (request_ok S T r ∧ (use_cache = true →
    o_cursor_id (rq_options r) = 0 ∨ o_cursor_id (rq_options r) ∉ in_use_cursors c)) as [Hr1 Hr2].
  { unfold request_ok, r. cbn [rq_closes rq_options]. rewrite Hid. done. }
  pose proof (Hmv _ Hs4) as Hm4. pose proof Hm4 as (Hok4 & _). specialize (Hkk _ Hs4).
  assert (rq_closes r = default [] piggyback ∧ o_cursor_id (rq_options r) = o_cursor_id o') as [Hrc Hri] by done.
  set (c4 := advance_seq c3) in *.
  destruct (e_round_trip env r) as [e|[err|result]] eqn:Hrt.
  - do 2 (split; [done|]). rewrite Hrt. intros K S' T' (HK & HS' & _) HT. cbn [missed] in HT.
    eapply (answer_ok T T' None c4 c4); [by apply moves_same|exact Hkk|exact HS'|by intros ? [=]| |exact HT]. done.
  - do 2 (split; [done|]). rewrite Hrt. intros K S' T' (HK & HS' & _) HT. cbn [missed] in HT.
    assert (moves T None c4 (if use_cache then statement_cache_invalidate sql
      (o_cursor_id (suppress_prefetch sql c1 o')) (note_error err c4) else note_error err c4)) as Hme.
    { pose proof (note_error_moves T err _ Hok4) as Hn. destruct use_cache; [|done].
      eapply moves_trans; [exact Hn|]. apply statement_cache_invalidate_moves. apply Hn. }
    eapply (answer_ok T T' None c4); [exact Hme|exact Hkk|exact HS'|by intros ? [=]| |exact HT]. done.
  - set (o'' := suppress_prefetch sql c1 o').
    set (c5 := record_result sql bind_rows use_cache is_copy o'' shape result c4).
    assert (∀ K S' T' c6, server_step S bind_rows r (inr (inr result)) K S' →
      (registry_ok T c5 → moves T None c5 c6) → (∀ x, n_cached x c6 <= n_cached x c5) →
      (∀ x, x ∈ T' ↔ x ∈ T ∨ x ∈ K ∧ x ∈ copied_cursors c6) → sys_ok (c6, sh, S', T')) as Hsys.
    { intros K S' T' c6 (HK & HS' & Hans & Hopen) Hm6 Hn6 HT. rewrite Hri in Hans. rewrite Hrc in *.
      assert (places (r_cursor_id result) c4 = places (r_cursor_id result) c2) as Hpl.
      { unfold places. by destruct (same_places_count c2 c4 (r_cursor_id result) Hs4) as (-> & -> & ->). }
      assert (o_cursor_id o' = 0 → r_cursor_id result = 0 ∨ r_cursor_id result ∈ T ∨ places (r_cursor_id result) c4 = 0) as Hnew.
      { intros H0. rewrite H0 in Hans. destruct Hans as [?|Hout]; [by left|right]. rewrite Hpl.
        destruct (decide (r_cursor_id result ∈ T)) as [?|HxT]; [by left|right]. by apply Hfresh. }
      destruct (record_result_moves T sql bind_rows use_cache is_copy o'' shape result c4 Hok4) as [Hm5 Href].
      - intros Hc. apply Hnew. by apply Hcp.
      - intros _ Hu. destruct (Z.eqb_spec (o_cursor_id o') 0) as [H0|H0].
        + destruct (Hnew H0) as [?|[?|?]]; [by left|by right; left|right; right; by left].
        + rewrite Hans. destruct (Hmay Hu) as [?|Hmk]; [done|right; right]. unfold may_keep in *.
          rewrite <- Hans in *. rewrite Hpl. by destruct Hs4 as (-> & _).
      - fold c5 in Hm5, Href. specialize (Hm6 (proj1 Hm5)).
        eapply (answer_ok T T' (Some (r_cursor_id result)) c4 c6); [by eapply moves_then|exact Hkk|exact HS'| | |exact HT].
        + intros x [= <-]. exact Hopen.
        + intros x Hx Hk. destruct (HK x Hx) as [Hxr Hx0]. apply kept_uncached; [done|]. rewrite Hn6. by rewrite Href. }
    pose proof (λ Hok5, apply_refetch_moves T env sql result c5 sh Hok5) as Har.
    pose proof (apply_refetch_cached env sql result c5 sh) as Hac.
    destruct (parse_only o'').
    { do 2 (split; [done|]). rewrite Hrt. intros K S' T' Hst HT. eapply (Hsys K); [exact Hst| |done|exact HT].
      intros Hok5. by apply moves_same. }
    destruct (apply_refetch_metadata env sql result c5 sh) as [[res c6] sh6]. do 2 (split; [done|]). rewrite Hrt.
    intros K S' T' Hst HT. eapply (Hsys K S' T' c6); [exact Hst|exact Har|exact Hac|exact HT].
Qed.

Lemma sys_step_ok s s' : sys_step s s' → sys_ok s → sys_ok s'.
Proof.
  intros Hst Hs. destruct Hst as [env sql bind_rows o c sh S T res c' sh' r K S' T' Ho He Hsrv HT|env sql bind_rows o c sh S T res c' sh' Ho He|id c sh S T|id c sh S T|c sh S S' T HS'|].
  - pose proof (execute_ok env sql bind_rows o c sh S T Hs Ho) as Hx. rewrite He in Hx. by eapply Hx.
  - pose proof (execute_ok env sql bind_rows o c sh S T Hs Ho) as Hx. by rewrite He in Hx.
  - destruct Hs as [Hok HS]. pose proof (release_cursor_moves T id c Hok) as Hm. split; [apply Hm|].
    eapply moves_kept; [exact Hm|done|by intros ? [=]].
  - destruct Hs as [Hok HS]. pose proof (close_cursor_moves T id c Hok) as Hm. split; [apply Hm|].
    eapply moves_kept; [exact Hm|done|by intros ? [=]].
  - destruct Hs as [Hok HS]. pose proof (take_close_spec T c Hok) as Ht.
    destruct (take_close_cursors_piggyback c) as [p c']. destruct Ht as (_ & Hm & Hc & Hcp & _). cbn [snd].
    split; [apply Hm|]. intros x Hx.
    assert (kept x c) as Hk by (destruct Hm as (_ & _ & Hk); by destruct (Hk x Hx) as [?|[=]]).
    specialize (HS x Hk). destruct (decide (x ∈ T)) as [?|HT]; [set_solver|].
    assert (x ∉ cursors_to_close c); [|apply elem_of_union; left; apply HS'; apply elem_of_difference; rewrite elem_of_list_to_set; set_solver].
    intros Hin. destruct Hok as (H1 & _). specialize (H1 x HT). apply occ_elem in Hin. unfold kept, places, n_closing in *. lia.
  - exact Hs.
Qed.

Lemma cursors_new_ok n sh S : sys_ok (cursors_new n, sh, S, ∅).
Proof.
  assert (∀ x, n_cached x (cursors_new n) = 0 ∧ n_copied x (cursors_new n) = 0 ∧ n_closing x (cursors_new n) = 0) as H.
  { intros x. by split_and!. }
  split; [split_and!|].
  - intros x _. unfold places. destruct (H x) as (-> & -> & ->). lia.
  - unfold places. by destruct (H 0) as (-> & -> & ->).
  - constructor.
  - cbn. lia.
  - intros x. unfold kept. destruct (H x) as (-> & -> & _). lia.
Qed.

Lemma sys_reachable_ok n sh0 S0 s : rtc sys_step (cursors_new n, sh0, S0, ∅) s → sys_ok s.
Proof.
  intros Hr. remember (cursors_new n, sh0, S0, ∅) as s0 eqn:H0.
  assert (sys_ok s0) as Hs0 by (rewrite H0; apply cursors_new_ok). clear H0.
  induction Hr as [s|s s' s'' Hst Hr IH]; [done|]. apply IH. by eapply sys_step_ok.
Qed.

(** C2: However executes, releases, closes and the messages that carry queued closes
    interleave, and whatever the server answers and closes, the cache never exceeds its
    capacity and has one entry per statement, and every server cursor the driver knows is
    in one place only: under one statement of the cache, marked as a copy, or queued for
    closing.  Every cursor the cache or the copies hold is open at the server.  The two
    statements about cursors except the stale ones: those a PL/SQL block closed, having
    been given them as REF CURSOR binds, while they were copies, or in a call that then
    failed.  The executes are those that leave the choice of the cursor to the driver. *)
Theorem cursor_registry_invariant n sh0 S0 c sh S T :
  rtc sys_step (cursors_new n, sh0, S0, ∅) (c, sh, S, T) →
  registry_ok T c ∧ ∀ x, kept x c → x ∈ S ∪ T.
Proof. apply sys_reachable_ok. Qed.


(** ** Concrete runs *)

(** A server that answers a query with one row and keeps its cursor open; a fresh
    parse gets [id]. *)
Definition answering (id : Z) : ExecEnv :=
  mkExecEnv limits_DEFAULT (λ _, Ok ())
    (λ r, let i := o_cursor_id (rq_options r) in
          inr (inr (mkResult [varchar_column] [[Some [65]]] (if i =? 0 then id else i) true)))
    None (λ _, inl ECancelled).
Definition failing : ExecEnv :=
  mkExecEnv limits_DEFAULT (λ _, Ok ()) (λ _, inr (inl (ServerError "ORA-00942"))) None (λ _, inl ECancelled).

Definition run_query (env : ExecEnv) (sql : string) (o : ExecuteOptions) (s : Cursors * StatementShapeCache)
  : Cursors * StatementShapeCache :=
  let '(_, c, sh, _) := execute_query env (txt sql) [] o (fst s) (snd s) in (c, sh).
Definition sent_by (env : ExecEnv) (sql : string) (o : ExecuteOptions) (s : Cursors * StatementShapeCache)
  : list (list Z * Z) :=
  let '(_, _, _, sent) := execute_query env (txt sql) [] o (fst s) (snd s) in
  map (λ r, (rq_closes r, o_cursor_id (rq_options r))) sent.

Definition start : Cursors * StatementShapeCache := (cursors_new 2, ∅).
Definition one_open := run_query (answering 1) "select 1 from dual" options_default start.

Lemma one_open_reachable :
  rtc sys_step (cursors_new 2, ∅, ∅, ∅) (fst one_open, snd one_open, {[1]}, ∅).
Proof.
  eapply rtc_l; [|apply rtc_refl].
  eapply (sys_execute (answering 1) (txt "select 1 from dual") [] options_default _ _ _ _ _ _ _ _ ∅).
  - reflexivity.
  - vm_compute. reflexivity.
  - split; [set_solver|]. split; [set_solver|]. split; [right; set_solver|]. intros _. set_solver.
  - set_solver.
Qed.

Lemma cursor_registry_invariant_witness :
  statement_cache (fst one_open) = [mkCachedStatement (txt "select 1 from dual") 1 []] ∧
  registry_ok ∅ (fst one_open) ∧ ∀ x, kept x (fst one_open) → x ∈ ({[1]} ∪ ∅ : gset Z).
Proof.
  split; [vm_compute; reflexivity|].
  apply (cursor_registry_invariant 2 ∅ ∅ _ (snd one_open)). apply one_open_reachable.
Defined.


(** The cache disturbs cursors that live fetches hold.  When it overflows it
    queues the oldest cursor for closing though a fetch holds it, and the next
    message closes it; and an execute that does not use the cache takes the cached
    cursor without asking whether it is in use, and re-executes it. *)
Theorem live_cursor_disturbed :
  (let s := run_query (answering 2) "select 2 from dual" options_default
              (run_query (answering 1) "select 1 from dual" options_default (cursors_new 1, ∅)) in
   1 ∈ in_use_cursors (fst s) ∧
   sent_by (answering 3) "select 3 from dual" options_default s = [([1], 0)]) ∧
  (1 ∈ in_use_cursors (fst one_open) ∧
   sent_by (answering 2) "select 1 from dual" (with_cache_statement false options_default) one_open = [([], 1)]).
Proof.
  split; cbv zeta; (split; [eapply bool_decide_unpack; vm_compute; exact I|vm_compute; reflexivity]).
Qed.

(** A block is given the copy of a busy cursor and closes it; the server opens the next
    statement under the freed number.  When the owner of the copy releases it, the next
    execute of that statement names the cursor its own message closes. *)
Definition copy_open := run_query (answering 2) "select 1 from dual" options_default one_open.
Definition copy_bound : Cursors * StatementShapeCache :=
  let '(_, c, sh, _) := execute_query (answering 3) (txt "begin p(:1); end;") [[BCursor 2]] options_default
    (fst copy_open) (snd copy_open) in (c, sh).
Definition number_reused := run_query (answering 2) "select 2 from dual" options_default copy_bound.

Theorem stale_copy_reexecuted :
  2 ∈ copied_cursors (fst copy_bound) ∧
  sent_by (answering 4) "select 2 from dual" options_default
    (release_cursor 2 (fst number_reused), snd number_reused) = [([1; 2], 2)].
Proof. split; [eapply bool_decide_unpack; vm_compute; exact I|vm_compute; reflexivity]. Qed.

(** A batch over the limit. *)
Definition over_limit : ExecEnv :=
  mkExecEnv (mkProtocolLimits 0 0 0 0 0 0 0 0 0 0 0) (λ _, Ok ()) (λ _, inl ECancelled) None (λ _, inl ECancelled).

(** Two error paths lose a server cursor.  When the execute of a copy fails, the
    statement's cache entry goes although its cursor belongs to another fetch: after
    that fetch releases it, the cursor is open at the server and the driver knows it
    no more.  And a batch that a limit refuses drops the closes that were queued:
    the queue is taken before the check, and no message goes out. *)
Theorem cursor_lost_on_error :
  (let c := release_cursor 1 (fst (run_query failing "select 1 from dual" options_default one_open)) in
   places 1 c = 0 ∧ in_use_cursors c = ∅) ∧
  (let c := close_cursor 1 (fst one_open) in
   cursors_to_close c = [1] ∧
   ∃ res c' sh, execute_query over_limit (txt "insert into t values (:1)") [[BNull]] options_default c
     (snd one_open) = (res, c', sh, []) ∧ cursors_to_close c' = []).
Proof.
  split; [by vm_compute|]. split; [by vm_compute|]. eexists _, _, _. split; [vm_compute; reflexivity|reflexivity].
Qed.
