(* ===== verification/Oson.v ===== *)
(** * OSON images ([oson.rs])

    Oracle's binary JSON.  The decoder is random access: container nodes hold
    offsets into the tree segment, so a node is read by seeking to it, and the
    nesting depth is what bounds the recursion.  The encoder collects the field
    names, sorts them, writes the tree with 32-bit offsets that it patches as it
    goes, and puts the header in front.  Strings are their UTF-8 bytes, floats bit
    patterns. *)

From stdpp Require Import gmap sorting.
From S2P Require Import Prelude.
From S2P Require Import Protocol.
From S2P Require Import Limits.
From S2P Require Import Writer.
From S2P Require Import Reader.
From S2P Require Import TimeZone.
From S2P Require Import Calendar.
From S2P Require Import Datetime.
From S2P Require Import Number.
From S2P Require Import Vector.

Definition TNS_JSON_MAGIC_BYTE_1 : Z := 255.
Definition TNS_JSON_MAGIC_BYTE_2 : Z := 74.
Definition TNS_JSON_MAGIC_BYTE_3 : Z := 90.
Definition TNS_JSON_VERSION_MAX_FNAME_255 : Z := 1.
Definition TNS_JSON_VERSION_MAX_FNAME_65535 : Z := 3.

Definition TNS_JSON_FLAG_HASH_ID_UINT8 : Z := 256.
Definition TNS_JSON_FLAG_NUM_FNAMES_UINT16 : Z := 1024.
Definition TNS_JSON_FLAG_FNAMES_SEG_UINT32 : Z := 2048.
Definition TNS_JSON_FLAG_TINY_NODES_STAT : Z := 8192.
Definition TNS_JSON_FLAG_TREE_SEG_UINT32 : Z := 4096.
Definition TNS_JSON_FLAG_REL_OFFSET_MODE : Z := 1.
Definition TNS_JSON_FLAG_INLINE_LEAF : Z := 2.
Definition TNS_JSON_FLAG_NUM_FNAMES_UINT32 : Z := 8.
Definition TNS_JSON_FLAG_IS_SCALAR : Z := 16.
Definition TNS_JSON_FLAG_SEC_FNAMES_SEG_UINT16 : Z := 256.

Definition TNS_JSON_TYPE_NULL : Z := 48.
Definition TNS_JSON_TYPE_TRUE : Z := 49.
Definition TNS_JSON_TYPE_FALSE : Z := 50.
Definition TNS_JSON_TYPE_STRING_LENGTH_UINT8 : Z := 51.
Definition TNS_JSON_TYPE_NUMBER_LENGTH_UINT8 : Z := 52.
Definition TNS_JSON_TYPE_BINARY_DOUBLE : Z := 54.
Definition TNS_JSON_TYPE_STRING_LENGTH_UINT16 : Z := 55.
Definition TNS_JSON_TYPE_STRING_LENGTH_UINT32 : Z := 56.
Definition TNS_JSON_TYPE_TIMESTAMP : Z := 57.
Definition TNS_JSON_TYPE_BINARY_LENGTH_UINT16 : Z := 58.
Definition TNS_JSON_TYPE_BINARY_LENGTH_UINT32 : Z := 59.
Definition TNS_JSON_TYPE_DATE : Z := 60.
Definition TNS_JSON_TYPE_INTERVAL_YM : Z := 61.
Definition TNS_JSON_TYPE_INTERVAL_DS : Z := 62.
Definition TNS_JSON_TYPE_TIMESTAMP_TZ : Z := 124.
Definition TNS_JSON_TYPE_TIMESTAMP7 : Z := 125.
Definition TNS_JSON_TYPE_ID : Z := 126.
Definition TNS_JSON_TYPE_BINARY_FLOAT : Z := 127.
Definition TNS_JSON_TYPE_OBJECT : Z := 132.
Definition TNS_JSON_TYPE_ARRAY : Z := 192.
Definition TNS_JSON_TYPE_EXTENDED : Z := 123.
Definition TNS_JSON_TYPE_VECTOR : Z := 1.

Definition ORA_TYPE_SIZE_INTERVAL_DS : Z := 11.
Definition MAX_FNAME_SIZE_SHORT : Z := 255.
Definition MAX_FNAME_SIZE_LONG : Z := 65535.

Inductive OsonValue :=
| JNull
| JBool (b : bool)
| JNumber (text : bytes)
| JBinaryFloat (bits : Z)
| JBinaryDouble (bits : Z)
| JString (text : bytes)
| JRaw (raw : bytes)
| JDateTime (year month day hour minute second nanosecond : Z)
| JIntervalDS (days hours minutes seconds fseconds : Z)
| JVector (vector : Vector)
| JArray (values : list OsonValue)
| JObject (entries : list (bytes * OsonValue)).

(** ** The reader *)

Record OsonReader := mkOsonReader {
  or_data : bytes;
  or_pos : Z;
  or_limits : ProtocolLimits
}.

Definition or_set_pos (p : Z) (r : OsonReader) : OsonReader :=
  mkOsonReader (or_data r) p (or_limits r).

Abbreviation OReaderM := (ST ProtocolError OsonReader).

#[global] Instance oson_bounded_reader : BoundedReader OsonReader := {
  remaining_of r := Zlen (or_data r);
  protocol_limits := or_limits
}.

Definition oson_with_limits (data : bytes) (l : ProtocolLimits) : Res OsonReader :=
  l ← validate l; Ok (mkOsonReader data 0 l).

Definition oson_read_raw (len : Z) : OReaderM bytes :=
  l ← gets or_limits;
  _ ← lift (check_response_bytes l len);
  pos ← gets or_pos;
  end_ ← lift (ok_or (try_range 0 USIZE_MAX (pos + len)) (OsonInvalid "length overflow"));
  data ← gets or_data;
  slice ← lift (ok_or (slice_get data pos end_) (OsonInvalid "read past end of OSON image"));
  _ ← modify (or_set_pos end_);
  mret slice.

Definition oson_read_u8 : OReaderM Z := raw ← oson_read_raw 1; lift (index raw 0).
Definition oson_read_u16be : OReaderM Z :=
  raw ← oson_read_raw 2; a ← lift (array_of 2 raw); mret (from_be_bytes a).
Definition oson_read_u32be : OReaderM Z :=
  raw ← oson_read_raw 4; a ← lift (array_of 4 raw); mret (from_be_bytes a).
Definition oson_skip (len : Z) : OReaderM () := _ ← oson_read_raw len; mret ().

Definition oson_seek_to (pos : Z) : OReaderM () :=
  data ← gets or_data;
  if Zlen data <? pos then throw (OsonInvalid "seek past end of OSON image")
  else modify (or_set_pos pos).

(** ** The decoder *)

Record OsonDecoder := mkOsonDecoder {
  od_reader : OsonReader;
  od_field_names : list bytes;
  od_field_id_length : Z;
  od_tree_seg_pos : Z;
  od_relative_offsets : bool;
  od_depth : Z
}.

Abbreviation DecM := (ST ProtocolError OsonDecoder).

Definition od_set_reader (r : OsonReader) (d : OsonDecoder) : OsonDecoder :=
  mkOsonDecoder r (od_field_names d) (od_field_id_length d) (od_tree_seg_pos d)
    (od_relative_offsets d) (od_depth d).
Definition od_set_names (f : list bytes → list bytes) (d : OsonDecoder) : OsonDecoder :=
  mkOsonDecoder (od_reader d) (f (od_field_names d)) (od_field_id_length d) (od_tree_seg_pos d)
    (od_relative_offsets d) (od_depth d).
Definition od_set_tree (p : Z) (d : OsonDecoder) : OsonDecoder :=
  mkOsonDecoder (od_reader d) (od_field_names d) (od_field_id_length d) p
    (od_relative_offsets d) (od_depth d).
Definition od_set_depth (n : Z) (d : OsonDecoder) : OsonDecoder :=
  mkOsonDecoder (od_reader d) (od_field_names d) (od_field_id_length d) (od_tree_seg_pos d)
    (od_relative_offsets d) n.

(** [self.reader.method(..)] *)
Definition rd {A} (m : OReaderM A) : DecM A := λ d,
  let '(res, r) := m (od_reader d) in (res, od_set_reader r d).

Definition usize (z : Z) : Res Z := arith 0 USIZE_MAX z.

(** [with_capacity_limited(count, 1, check_object_elements)]: the vector it
    reserves is empty, only its error matters. *)
Definition oson_reserve (count : Z) : OReaderM Z :=
  λ r, (with_capacity_limited r count 1 check_object_elements, r).

(** One turn of the loop of [read_field_names]: a name of the segment. *)
Definition name_at (seg : bytes) (name_len_size offset : Z) : Res bytes :=
  '(name_len, name_start) ←
    (if name_len_size =? 2 then
       hi ← ok_or (slice_nth seg offset) (OsonInvalid "field name offset out of range");
       lo ← ok_or (slice_nth seg (offset + 1)) (OsonInvalid "field name offset out of range");
       Ok (from_be_bytes [hi; lo], offset + 2)
     else
       len ← ok_or (slice_nth seg offset) (OsonInvalid "field name offset out of range");
       Ok (len, offset + 1));
  end_ ← ok_or (try_range 0 USIZE_MAX (name_start + name_len)) (OsonInvalid "field name length overflow");
  name ← ok_or (slice_get seg name_start end_) (OsonInvalid "field name past end of segment");
  if utf8_valid name then Ok name else Err (OsonInvalid "field name is not valid UTF-8").

Definition read_name (seg : bytes) (offsets_size name_len_size : Z) : OReaderM bytes :=
  offset ← (if offsets_size =? 2 then oson_read_u16be else oson_read_u32be);
  lift (name_at seg name_len_size offset).

Fixpoint read_names (n : nat) (seg : bytes) (offsets_size name_len_size : Z) : OReaderM (list bytes) :=
  match n with
  | O => mret []
  | S n =>
      name ← read_name seg offsets_size name_len_size;
      names ← read_names n seg offsets_size name_len_size;
      mret (name :: names)
  end.

Definition read_field_names (num_fields hash_id_size offsets_size name_len_size seg_size : Z)
  : OReaderM (list bytes) :=
  hashes ← lift (usize (num_fields * hash_id_size));
  _ ← oson_skip hashes;
  offsets_pos ← gets or_pos;
  offsets ← lift (usize (num_fields * offsets_size));
  _ ← oson_skip offsets;
  seg ← oson_read_raw seg_size;
  final_pos ← gets or_pos;
  _ ← oson_seek_to offsets_pos;
  _ ← oson_reserve num_fields;
  names ← read_names (Z.to_nat num_fields) seg offsets_size name_len_size;
  _ ← oson_seek_to final_pos;
  mret names.

Definition get_num_children (node_type : Z) : OReaderM (Z * bool) :=
  let children_bits := Z.land node_type 24 in
  if children_bits =? 24 then mret (0, true)
  else
    num ← (if children_bits =? 0 then oson_read_u8
           else if children_bits =? 8 then oson_read_u16be
           else if children_bits =? 16 then oson_read_u32be
           else throw (OsonInvalid "invalid container width"));
    mret (num, false).

Definition get_offset (node_type : Z) : OReaderM Z :=
  if negb (Z.land node_type 32 =? 0) then oson_read_u32be else oson_read_u16be.

(** ** Scalars *)

Definition oson_decode_datetime (len : Z) : OReaderM OsonValue :=
  raw ← oson_read_raw len;
  value ← lift (decode_datetime_value raw);
  match value with
  | DateTime year month day hour minute second nanosecond =>
      mret (JDateTime year month day hour minute second nanosecond)
  | TimestampTz year month day hour minute second nanosecond offset_minutes =>
      '(year, month, day, hour, minute, second) ←
        lift (adjust_datetime_by_minutes year month day hour minute second offset_minutes);
      mret (JDateTime year month day hour minute second nanosecond)
  | TimestampTzRegion _ _ _ _ _ _ _ _ =>
      throw (UnsupportedFeature "named-region OSON timestamp requires explicit local-time projection")
  | _ => throw (OsonInvalid "datetime decode mismatch")
  end.

Definition oson_decode_string (len : Z) : OReaderM OsonValue :=
  raw ← oson_read_raw len;
  if utf8_valid raw then mret (JString raw) else throw (OsonInvalid "string is not valid UTF-8").

Definition oson_decode_number (len : Z) : OReaderM OsonValue :=
  raw ← oson_read_raw len;
  num ← lift (decode_number_value raw);
  text ← lift (to_canonical_string num);
  mret (JNumber text).

Definition decode_node_type_with_inline_length (node_type : Z) : OReaderM OsonValue :=
  let family := Z.land node_type 240 in
  if (family =? 32) || (family =? 96) then oson_decode_number (Z.land node_type 15 + 1)
  else if (family =? 64) || (family =? 80) then oson_decode_number (Z.land node_type 15)
  else if Z.land node_type 224 =? 0 then
    if node_type =? 0 then mret (JString []) else oson_decode_string node_type
  else throw (OsonInvalid "unsupported OSON node type").

Definition oson_decode_raw (len : Z) : OReaderM OsonValue := raw ← oson_read_raw len; mret (JRaw raw).

Definition decode_embedded_vector : OReaderM OsonValue :=
  extended_type ← oson_read_u8;
  if extended_type =? TNS_JSON_TYPE_VECTOR then
    len ← oson_read_u32be;
    l ← gets or_limits;
    _ ← lift (check_response_bytes l len);
    raw ← oson_read_raw len;
    match decode_vector_with_limits raw l with
    | Ok vector => mret (JVector vector)
    | Err _ => throw (OsonInvalid "invalid embedded VECTOR")
    | Panic => lift Panic
    | Diverge => lift Diverge
    end
  else throw (OsonTypeNotSupported "JSON extended type").

Definition decode_interval_node : OReaderM OsonValue :=
  raw ← oson_read_raw ORA_TYPE_SIZE_INTERVAL_DS;
  value ← lift (decode_interval_ds raw);
  match value with
  | IntervalDS days hours minutes seconds fseconds =>
      mret (JIntervalDS days hours minutes seconds fseconds)
  | _ => throw (OsonInvalid "INTERVAL DS decode mismatch")
  end.

Definition decode_scalar_with_node_type (node_type : Z) : OReaderM OsonValue :=
  if node_type =? TNS_JSON_TYPE_NULL then mret JNull
  else if node_type =? TNS_JSON_TYPE_TRUE then mret (JBool true)
  else if node_type =? TNS_JSON_TYPE_FALSE then mret (JBool false)
  else if (node_type =? TNS_JSON_TYPE_DATE) || (node_type =? TNS_JSON_TYPE_TIMESTAMP7)
  then oson_decode_datetime ORA_TYPE_SIZE_DATE
  else if node_type =? TNS_JSON_TYPE_TIMESTAMP then oson_decode_datetime ORA_TYPE_SIZE_TIMESTAMP
  else if node_type =? TNS_JSON_TYPE_TIMESTAMP_TZ then oson_decode_datetime ORA_TYPE_SIZE_TIMESTAMP_TZ
  else if node_type =? TNS_JSON_TYPE_BINARY_FLOAT then
    raw ← oson_read_raw 4; bits ← lift (decode_binary_float raw); mret (JBinaryFloat bits)
  else if node_type =? TNS_JSON_TYPE_BINARY_DOUBLE then
    raw ← oson_read_raw 8; bits ← lift (decode_binary_double raw); mret (JBinaryDouble bits)
  else if node_type =? TNS_JSON_TYPE_INTERVAL_DS then decode_interval_node
  else if node_type =? TNS_JSON_TYPE_INTERVAL_YM then throw (OsonTypeNotSupported "DB_TYPE_INTERVAL_YM")
  else if node_type =? TNS_JSON_TYPE_STRING_LENGTH_UINT8 then len ← oson_read_u8; oson_decode_string len
  else if node_type =? TNS_JSON_TYPE_STRING_LENGTH_UINT16 then len ← oson_read_u16be; oson_decode_string len
  else if node_type =? TNS_JSON_TYPE_STRING_LENGTH_UINT32 then len ← oson_read_u32be; oson_decode_string len
  else if node_type =? TNS_JSON_TYPE_NUMBER_LENGTH_UINT8 then len ← oson_read_u8; oson_decode_number len
  else if node_type =? TNS_JSON_TYPE_ID then len ← oson_read_u8; oson_decode_raw len
  else if node_type =? TNS_JSON_TYPE_BINARY_LENGTH_UINT16 then len ← oson_read_u16be; oson_decode_raw len
  else if node_type =? TNS_JSON_TYPE_BINARY_LENGTH_UINT32 then len ← oson_read_u32be; oson_decode_raw len
  else if node_type =? TNS_JSON_TYPE_EXTENDED then decode_embedded_vector
  else decode_node_type_with_inline_length node_type.

(** ** Containers *)

Definition read_field_id : DecM Z :=
  w ← gets od_field_id_length;
  if w =? 1 then rd oson_read_u8
  else if w =? 2 then rd oson_read_u16be
  else if w =? 4 then rd oson_read_u32be
  else throw (OsonInvalid "invalid field id length").

Definition field_name_of (field_id : Z) : DecM bytes :=
  index ← lift (ok_or (try_range 0 USIZE_MAX (field_id - 1)) (OsonInvalid "field id out of range"));
  names ← gets od_field_names;
  lift (ok_or (names !! Z.to_nat index) (OsonInvalid "field id out of range")).

(** [self.reader.seek_to(self.tree_seg_pos + offset as usize)] *)
Definition seek_tree (offset : Z) : DecM () :=
  tree ← gets od_tree_seg_pos;
  p ← lift (usize (tree + offset));
  rd (oson_seek_to p).

Section Nodes.
Context (decode_node : DecM OsonValue).

(** The loop over the children, [field_ids_pos] and [offsets_pos] being its
    mutable state; a child of an array has the empty name. *)
Fixpoint decode_children (n : nat) (node_type : Z) (is_object : bool) (container_offset : Z)
  (field_ids_pos offsets_pos : Z) : DecM (list (bytes * OsonValue)) :=
  match n with
  | O => mret []
  | S n =>
      '(name, field_ids_pos) ←
        (if is_object then
           _ ← rd (oson_seek_to field_ids_pos);
           field_id ← read_field_id;
           name ← field_name_of field_id;
           pos ← rd (gets or_pos);
           mret (name, pos)
         else mret ([], field_ids_pos));
      _ ← rd (oson_seek_to offsets_pos);
      offset ← rd (get_offset node_type);
      relative ← gets od_relative_offsets;
      offset ← lift (if (relative : bool)
                     then ok_or (try_range 0 U32_MAX (offset + container_offset))
                            (OsonInvalid "relative offset overflow")
                     else Ok offset);
      offsets_pos ← rd (gets or_pos);
      _ ← seek_tree offset;
      child ← decode_node;
      children ← decode_children n node_type is_object container_offset field_ids_pos offsets_pos;
      mret ((name, child) :: children)
  end.

(** Where the children are: their number, the field ids and the offsets. *)
Definition container_layout (node_type : Z) (is_object : bool) : DecM (Z * Z * Z) :=
  '(num_children, is_shared) ← rd (get_num_children node_type);
  l ← gets (λ d, or_limits (od_reader d));
  _ ← lift (check_object_elements l num_children);
  if (is_shared : bool) then
    offset ← rd (get_offset node_type);
    offsets_pos ← rd (gets or_pos);
    _ ← seek_tree offset;
    shared_type ← rd oson_read_u8;
    '(shared_num, _) ← rd (get_num_children shared_type);
    _ ← lift (check_object_elements l shared_num);
    field_ids_pos ← rd (gets or_pos);
    mret (shared_num, field_ids_pos, offsets_pos)
  else if is_object then
    pos ← rd (gets or_pos);
    w ← gets od_field_id_length;
    ids ← lift (usize (w * num_children));
    offsets_pos ← lift (usize (pos + ids));
    mret (num_children, pos, offsets_pos)
  else
    pos ← rd (gets or_pos);
    mret (num_children, 0, pos).

Definition decode_container_node (node_type : Z) : DecM OsonValue :=
  let is_object := Z.land node_type 64 =? 0 in
  pos ← rd (gets or_pos);
  tree ← gets od_tree_seg_pos;
  t ← lift (usize (pos - tree));
  t ← lift (usize (t - 1));
  let container_offset := as_u 32 t in
  '(num_children, field_ids_pos, offsets_pos) ← container_layout node_type is_object;
  _ ← rd (oson_reserve num_children);
  children ← decode_children (Z.to_nat num_children) node_type is_object container_offset
               field_ids_pos offsets_pos;
  mret (if is_object then JObject children else JArray (map snd children)).
End Nodes.

(** [let value = m; f(self); return value]: [f] runs whether [m] failed or not. *)
Definition finally {S A} (m : ST ProtocolError S A) (f : S → S) : ST ProtocolError S A := λ s,
  let '(res, s') := m s in (res, f s').

(** [fuel] bounds the nesting: a node at depth [d] needs one more turn than the
    levels the policy still allows below it. *)
Fixpoint decode_node (fuel : nat) : DecM OsonValue :=
  match fuel with
  | O => lift Diverge
  | S fuel =>
      node_type ← rd oson_read_u8;
      if negb (Z.land node_type 128 =? 0) then
        d ← gets od_depth;
        d ← lift (usize (d + 1));
        _ ← modify (od_set_depth d);
        l ← gets (λ d, or_limits (od_reader d));
        _ ← lift (check_object_depth l d);
        finally (decode_container_node (decode_node fuel) node_type)
          (λ s, od_set_depth (od_depth s - 1) s)
      else rd (decode_scalar_with_node_type node_type)
  end.

(** ** The image *)

Definition validate_tree_segment_extent (image_len tree_seg_pos tree_seg_size : Z) : Res () :=
  tree_end ← ok_or (try_range 0 USIZE_MAX (tree_seg_pos + tree_seg_size))
               (OsonInvalid "tree segment length overflow");
  if image_len <? tree_end then Err (OsonInvalid "tree segment extends past end of OSON image")
  else if negb (tree_end =? image_len) then Err (OsonInvalid "bytes after declared OSON tree segment")
  else Ok ().

(** [m.map_err(|_| e)] *)
Definition map_err {S A} (m : ST ProtocolError S A) (e : ProtocolError) : ST ProtocolError S A := λ s,
  match m s with
  | (Err _, s') => (Err e, s')
  | r => r
  end.

(** The reader moves into a decoder that runs to the end. *)
Definition into_decoder {A} (mk : OsonReader → OsonDecoder) (m : DecM A) : OReaderM A := λ r,
  let '(res, d) := m (mk r) in (res, od_reader d).

Definition has_flag (flags flag : Z) : bool := negb (Z.land flags flag =? 0).

Definition read_size (flags flag : Z) : OReaderM Z :=
  if has_flag flags flag then oson_read_u32be else oson_read_u16be.

(** The bytes before the flags. *)
Definition read_preamble : OReaderM (Z * Z) :=
  magic ← map_err (oson_read_raw 3) (OsonNotEncoded "image too short for header");
  m0 ← lift (index magic 0);
  m1 ← lift (index magic 1);
  m2 ← lift (index magic 2);
  if negb (m0 =? TNS_JSON_MAGIC_BYTE_1) || negb (m1 =? TNS_JSON_MAGIC_BYTE_2)
     || negb (m2 =? TNS_JSON_MAGIC_BYTE_3)
  then throw (OsonNotEncoded "bad OSON magic")
  else
    version ← map_err oson_read_u8 (OsonNotEncoded "missing OSON version");
    if negb (version =? TNS_JSON_VERSION_MAX_FNAME_255)
       && negb (version =? TNS_JSON_VERSION_MAX_FNAME_65535)
    then throw (OsonNotEncoded "unsupported OSON version")
    else
      primary_flags ← map_err oson_read_u16be (OsonNotEncoded "missing OSON flags");
      mret (version, primary_flags).

(** The number of short field names with the width of a field id, the width of an
    offset with the size of the short segment, the number, offset width and size
    of the long ones, and the size of the tree. *)
Record OsonHeader := mkOsonHeader {
  oh_num_short : Z;
  oh_field_id_length : Z;
  oh_short_offsets_size : Z;
  oh_short_seg_size : Z;
  oh_num_long : Z;
  oh_long_offsets_size : Z;
  oh_long_seg_size : Z;
  oh_tree_seg_size : Z
}.

Definition read_extended_header (version primary_flags : Z) : OReaderM OsonHeader :=
  '(num_short, field_id_length) ←
    (if has_flag primary_flags TNS_JSON_FLAG_NUM_FNAMES_UINT32 then n ← oson_read_u32be; mret (n, 4)
     else if has_flag primary_flags TNS_JSON_FLAG_NUM_FNAMES_UINT16 then n ← oson_read_u16be; mret (n, 2)
     else n ← oson_read_u8; mret (n, 1));
  '(short_offsets_size, short_seg_size) ←
    (if has_flag primary_flags TNS_JSON_FLAG_FNAMES_SEG_UINT32 then n ← oson_read_u32be; mret (4, n)
     else n ← oson_read_u16be; mret (2, n));
  '(num_long, long_offsets_size, long_seg_size) ←
    (if version =? TNS_JSON_VERSION_MAX_FNAME_65535 then
       secondary_flags ← oson_read_u16be;
       num_long ← oson_read_u32be;
       long_seg_size ← oson_read_u32be;
       mret (num_long, if has_flag secondary_flags TNS_JSON_FLAG_SEC_FNAMES_SEG_UINT16 then 2 else 4,
             long_seg_size)
     else mret (0, 0, 0));
  tree_seg_size ← read_size primary_flags TNS_JSON_FLAG_TREE_SEG_UINT32;
  _ ← oson_read_u16be;
  mret (mkOsonHeader num_short field_id_length short_offsets_size short_seg_size
          num_long long_offsets_size long_seg_size tree_seg_size).

Definition saturating_usize (z : Z) : Z := Z.min USIZE_MAX z.

(** A segment without names is not read. *)
Definition read_segment (num hash_id_size offsets_size name_len_size seg_size : Z) : DecM () :=
  if 0 <? num then
    names ← rd (read_field_names num hash_id_size offsets_size name_len_size seg_size);
    modify (od_set_names (λ l, l ++ names))
  else mret ().

(** The rest of a decode whose root is a container. *)
Definition decode_tree (fuel : nat) (h : OsonHeader) : DecM OsonValue :=
  _ ← read_segment (oh_num_short h) 1 (oh_short_offsets_size h) 1 (oh_short_seg_size h);
  _ ← read_segment (oh_num_long h) 2 (oh_long_offsets_size h) 2 (oh_long_seg_size h);
  data ← rd (gets or_data);
  tree_seg_pos ← rd (gets or_pos);
  _ ← lift (validate_tree_segment_extent (Zlen data) tree_seg_pos (oh_tree_seg_size h));
  _ ← modify (od_set_tree tree_seg_pos);
  decode_node fuel.

Definition decode_oson_image (fuel : nat) : OReaderM OsonValue :=
  '(version, primary_flags) ← read_preamble;
  let relative_offsets := has_flag primary_flags TNS_JSON_FLAG_REL_OFFSET_MODE in
  if has_flag primary_flags TNS_JSON_FLAG_IS_SCALAR then
    tree_seg_size ← read_size primary_flags TNS_JSON_FLAG_TREE_SEG_UINT32;
    data ← gets or_data;
    tree_seg_pos ← gets or_pos;
    _ ← lift (validate_tree_segment_extent (Zlen data) tree_seg_pos tree_seg_size);
    into_decoder (λ r, mkOsonDecoder r [] 1 tree_seg_pos relative_offsets 0) (decode_node fuel)
  else
    h ← read_extended_header version primary_flags;
    _ ← oson_reserve (saturating_usize (oh_num_short h + oh_num_long h));
    into_decoder (λ r, mkOsonDecoder r [] (oh_field_id_length h) 0 relative_offsets 0)
      (decode_tree fuel h).

(** One turn more than the levels the policy allows. *)
Definition decode_fuel (l : ProtocolLimits) : nat := S (Z.to_nat (max_object_depth l)).

Definition decode_oson_with_limits (data : bytes) (l : ProtocolLimits) : Res OsonValue :=
  _ ← check_response_bytes l (Zlen data);
  reader ← oson_with_limits data l;
  (decode_oson_image (decode_fuel l) reader).1.

Definition decode_oson (data : bytes) : Res OsonValue := decode_oson_with_limits data limits_DEFAULT.

(** ** Field names *)

Record FieldName := mkFieldName {
  fn_name : bytes;
  fn_hash_id : Z;
  fn_offset : Z;
  fn_field_id : Z
}.

Definition fn_set_offset (o : Z) (f : FieldName) : FieldName :=
  mkFieldName (fn_name f) (fn_hash_id f) o (fn_field_id f).
Definition fn_set_field_id (i : Z) (f : FieldName) : FieldName :=
  mkFieldName (fn_name f) (fn_hash_id f) (fn_offset f) i.

(** The FNV-1a hash. *)
Definition hash_step (hash_id b : Z) : Z := as_u 32 (Z.lxor hash_id b * 16777619).
Definition calc_hash_id (name : bytes) : Z := foldl hash_step 2166136261 name.

Definition FieldName_new (name : bytes) (max_fname_size : Z) : Res FieldName :=
  if max_fname_size <? Zlen name
  then Err (OsonInvalid "field name exceeds maximum length for this connection")
  else Ok (mkFieldName name (calc_hash_id name) 0 0).

Definition sort_key (f : FieldName) : Z * Z * bytes :=
  (Z.land (fn_hash_id f) 255, Zlen (fn_name f), fn_name f).

(** The order on byte slices, and on the key triples. *)
Fixpoint bytes_leb (a b : bytes) : bool :=
  match a, b with
  | [], _ => true
  | _ :: _, [] => false
  | x :: a, y :: b => (x <? y) || ((x =? y) && bytes_leb a b)
  end.

Definition key_leb (a b : Z * Z * bytes) : bool :=
  let '(h1, n1, s1) := a in
  let '(h2, n2, s2) := b in
  (h1 <? h2) || ((h1 =? h2) && ((n1 <? n2) || ((n1 =? n2) && bytes_leb s1 s2))).

Definition name_le (a b : FieldName) : Prop := key_leb (sort_key a) (sort_key b) = true.
#[global] Instance name_le_dec : RelDecision name_le := λ a b, decide (key_leb _ _ = true).

Record FieldNamesSegment := mkSegment {
  fs_buffer : bytes;
  fs_field_names : list FieldName;
  fs_num_field_names : Z
}.

Definition segment_new : FieldNamesSegment := mkSegment [] [] 0.

Definition add_name (f : FieldName) (seg : FieldNamesSegment) : FieldNamesSegment :=
  let n := Zlen (fn_name f) in
  let f := fn_set_offset (Zlen (fs_buffer seg)) f in
  mkSegment
    (fs_buffer seg ++ (if n <=? 255 then [as_u 8 n] else to_be_bytes 2 (as_u 16 n)) ++ fn_name f)
    (fs_field_names seg ++ [f]) (fs_num_field_names seg).

(** [field_id_offset + index as u32 + 1] for the names in order. *)
Fixpoint number_names (index field_id_offset : Z) (names : list FieldName) : Res (list FieldName) :=
  match names with
  | [] => Ok []
  | f :: names =>
      t ← arith 0 U32_MAX (field_id_offset + as_u 32 index);
      id ← arith 0 U32_MAX (t + 1);
      names ← number_names (index + 1) field_id_offset names;
      Ok (fn_set_field_id id f :: names)
  end.

Definition process_field_names (field_id_offset : Z) (seg : FieldNamesSegment) : Res FieldNamesSegment :=
  names ← number_names 0 field_id_offset (merge_sort name_le (fs_field_names seg));
  Ok (mkSegment (fs_buffer seg) names (as_u 32 (Zlen names))).

(** ** The encoder *)

Abbreviation FieldDict := (gmap bytes FieldName).

Record OsonEncoder := mkOsonEncoder {
  oe_buffer : bytes;
  oe_field_names_dict : FieldDict;
  oe_short_fnames_seg : option FieldNamesSegment;
  oe_long_fnames_seg : option FieldNamesSegment;
  oe_num_field_names : Z;
  oe_field_id_size : Z;
  oe_max_fname_size : Z;
  oe_is_scalar : bool
}.

Definition OsonEncoder_new (max_fname_size : Z) : OsonEncoder :=
  mkOsonEncoder [] ∅ None None 0 1 max_fname_size false.

Abbreviation EncM := (ST ProtocolError OsonEncoder).

Definition upd_buffer (f : bytes → bytes) (e : OsonEncoder) : OsonEncoder :=
  mkOsonEncoder (f (oe_buffer e)) (oe_field_names_dict e) (oe_short_fnames_seg e)
    (oe_long_fnames_seg e) (oe_num_field_names e) (oe_field_id_size e) (oe_max_fname_size e)
    (oe_is_scalar e).
Definition upd_dict (f : FieldDict → FieldDict) (e : OsonEncoder) : OsonEncoder :=
  mkOsonEncoder (oe_buffer e) (f (oe_field_names_dict e)) (oe_short_fnames_seg e)
    (oe_long_fnames_seg e) (oe_num_field_names e) (oe_field_id_size e) (oe_max_fname_size e)
    (oe_is_scalar e).
Definition set_short (s : option FieldNamesSegment) (e : OsonEncoder) : OsonEncoder :=
  mkOsonEncoder (oe_buffer e) (oe_field_names_dict e) s (oe_long_fnames_seg e)
    (oe_num_field_names e) (oe_field_id_size e) (oe_max_fname_size e) (oe_is_scalar e).
Definition set_long (s : option FieldNamesSegment) (e : OsonEncoder) : OsonEncoder :=
  mkOsonEncoder (oe_buffer e) (oe_field_names_dict e) (oe_short_fnames_seg e) s
    (oe_num_field_names e) (oe_field_id_size e) (oe_max_fname_size e) (oe_is_scalar e).
Definition set_num_names (n : Z) (e : OsonEncoder) : OsonEncoder :=
  mkOsonEncoder (oe_buffer e) (oe_field_names_dict e) (oe_short_fnames_seg e)
    (oe_long_fnames_seg e) n (oe_field_id_size e) (oe_max_fname_size e) (oe_is_scalar e).
Definition set_id_size (n : Z) (e : OsonEncoder) : OsonEncoder :=
  mkOsonEncoder (oe_buffer e) (oe_field_names_dict e) (oe_short_fnames_seg e)
    (oe_long_fnames_seg e) (oe_num_field_names e) n (oe_max_fname_size e) (oe_is_scalar e).
Definition set_max_fname (n : Z) (e : OsonEncoder) : OsonEncoder :=
  mkOsonEncoder (oe_buffer e) (oe_field_names_dict e) (oe_short_fnames_seg e)
    (oe_long_fnames_seg e) (oe_num_field_names e) (oe_field_id_size e) n (oe_is_scalar e).
Definition set_is_scalar (b : bool) (e : OsonEncoder) : OsonEncoder :=
  mkOsonEncoder (oe_buffer e) (oe_field_names_dict e) (oe_short_fnames_seg e)
    (oe_long_fnames_seg e) (oe_num_field_names e) (oe_field_id_size e) (oe_max_fname_size e) b.

Definition add_field_name (name : bytes) : EncM () :=
  dict ← gets oe_field_names_dict;
  if bool_decide (is_Some (dict !! name)) then mret ()
  else
    max_fname_size ← gets oe_max_fname_size;
    f ← lift (FieldName_new name max_fname_size);
    _ ← modify (upd_dict (<[name := f]>));
    if Zlen (fn_name f) <=? 255
    then modify (λ e, set_short (Some (add_name f (default segment_new (oe_short_fnames_seg e)))) e)
    else modify (λ e, set_long (Some (add_name f (default segment_new (oe_long_fnames_seg e)))) e).

(** [for x in l { f(x)?; }] *)
Fixpoint for_each {S A} (f : A → ST ProtocolError S ()) (l : list A) : ST ProtocolError S () :=
  match l with
  | [] => mret ()
  | x :: l => _ ← f x; for_each f l
  end.

Fixpoint examine_node (value : OsonValue) : EncM () :=
  match value with
  | JArray values => for_each examine_node values
  | JObject entries =>
      for_each (λ '(key, child), _ ← add_field_name key; examine_node child) entries
  | _ => mret ()
  end.

(** [if let Some(entry) = dict.get_mut(name) { .. }] for the names of a segment. *)
Definition sync_name (dict : FieldDict) (f : FieldName) : FieldDict :=
  alter (λ entry, fn_set_offset (fn_offset f) (fn_set_field_id (fn_field_id f) entry)) (fn_name f) dict.

Definition segment_names (s : option FieldNamesSegment) : list FieldName :=
  match s with Some seg => fs_field_names seg | None => [] end.

Definition sync_field_ids (e : OsonEncoder) : OsonEncoder :=
  upd_dict (λ dict, foldl sync_name dict
    (segment_names (oe_short_fnames_seg e) ++ segment_names (oe_long_fnames_seg e))) e.

(** Numbers the names of one segment after those counted so far. *)
Definition process_segment (get : OsonEncoder → option FieldNamesSegment)
  (set : option FieldNamesSegment → OsonEncoder → OsonEncoder) (base : OsonEncoder → Z) : EncM () :=
  seg ← gets get;
  match seg with
  | None => mret ()
  | Some seg =>
      off ← gets base;
      seg ← lift (process_field_names off seg);
      _ ← modify (set (Some seg));
      n ← gets oe_num_field_names;
      n ← lift (arith 0 U32_MAX (n + fs_num_field_names seg));
      modify (set_num_names n)
  end.

Definition is_container (value : OsonValue) : bool :=
  match value with JArray _ | JObject _ => true | _ => false end.

Definition determine_flags (value : OsonValue) : EncM Z :=
  let flags := TNS_JSON_FLAG_INLINE_LEAF in
  if negb (is_container value) then
    _ ← modify (set_is_scalar true);
    mret (Z.lor flags TNS_JSON_FLAG_IS_SCALAR)
  else
    _ ← modify (set_short (Some segment_new));
    _ ← examine_node value;
    _ ← process_segment oe_short_fnames_seg set_short (λ _, 0);
    _ ← process_segment oe_long_fnames_seg set_long oe_num_field_names;
    _ ← modify sync_field_ids;
    let flags := Z.lor flags (Z.lor TNS_JSON_FLAG_HASH_ID_UINT8 TNS_JSON_FLAG_TINY_NODES_STAT) in
    n ← gets oe_num_field_names;
    flags ← (if 65535 <? n then
               _ ← modify (set_id_size 4); mret (Z.lor flags TNS_JSON_FLAG_NUM_FNAMES_UINT32)
             else if 255 <? n then
               _ ← modify (set_id_size 2); mret (Z.lor flags TNS_JSON_FLAG_NUM_FNAMES_UINT16)
             else _ ← modify (set_id_size 1); mret flags);
    seg ← gets oe_short_fnames_seg;
    mret (match seg with
          | Some seg => if 65535 <? Zlen (fs_buffer seg)
                        then Z.lor flags TNS_JSON_FLAG_FNAMES_SEG_UINT32 else flags
          | None => flags
          end).

(** ** The tree segment: its buffer is the state. *)

Abbreviation TreeM := (ST ProtocolError bytes).

Definition extend (b : bytes) : TreeM () := modify (λ buffer, buffer ++ b).

Definition encode_container_header (node_type num_children : Z) : TreeM () :=
  let node_type := Z.lor node_type 32 in
  let node_type :=
    if 65535 <? num_children then Z.lor node_type 16
    else if 255 <? num_children then Z.lor node_type 8 else node_type in
  _ ← extend [node_type];
  if num_children <? 256 then extend [as_u 8 num_children]
  else if num_children <? 65536 then extend (to_be_bytes 2 (as_u 16 num_children))
  else extend (to_be_bytes 4 (as_u 32 num_children)).

(** [buffer[offset..offset + b.len()].copy_from_slice(b)] *)
Definition patch (offset : Z) (b : bytes) : TreeM () := λ buffer,
  if (0 <=? offset) && (offset + Zlen b <=? Zlen buffer)
  then (Ok (), take (Z.to_nat offset) buffer ++ b ++ drop (Z.to_nat (offset + Zlen b)) buffer)
  else (Panic, buffer).

Definition write_json_string (b : bytes) : TreeM () :=
  let len := Zlen b in
  _ ← (if len <? 256 then extend [TNS_JSON_TYPE_STRING_LENGTH_UINT8; as_u 8 len]
       else if len <? 65536
       then extend (TNS_JSON_TYPE_STRING_LENGTH_UINT16 :: to_be_bytes 2 (as_u 16 len))
       else extend (TNS_JSON_TYPE_STRING_LENGTH_UINT32 :: to_be_bytes 4 (as_u 32 len)));
  if 0 <? len then extend b else mret ().

Section Tree.
Context (dict : FieldDict) (field_id_size : Z).

Definition patch_field_id (offset : Z) (f : FieldName) : TreeM () :=
  if field_id_size =? 1 then patch offset [as_u 8 (fn_field_id f)]
  else if field_id_size =? 2 then patch offset (to_be_bytes 2 (as_u 16 (fn_field_id f)))
  else patch offset (to_be_bytes 4 (fn_field_id f)).

Section Loops.
Context (encode_node : OsonValue → TreeM ()).

Fixpoint encode_elements (values : list OsonValue) (offset : Z) : TreeM () :=
  match values with
  | [] => mret ()
  | element :: values =>
      pos ← gets (λ buffer, as_u 32 (Zlen buffer));
      _ ← patch offset (to_be_bytes 4 pos);
      _ ← encode_node element;
      encode_elements values (offset + 4)
  end.

Fixpoint encode_entries (entries : list (bytes * OsonValue)) (field_id_offset value_offset : Z)
  : TreeM () :=
  match entries with
  | [] => mret ()
  | (key, child_value) :: entries =>
      f ← lift (ok_or (dict !! key) (OsonInvalid "missing field id for key"));
      _ ← patch_field_id field_id_offset f;
      pos ← gets (λ buffer, as_u 32 (Zlen buffer));
      _ ← patch value_offset (to_be_bytes 4 pos);
      _ ← encode_node child_value;
      encode_entries entries (field_id_offset + field_id_size) (value_offset + 4)
  end.
End Loops.

(** [buffer.resize(buffer.len() + n, 0)] *)
Definition grow (n : Z) : TreeM () := extend (repeat 0 (Z.to_nat n)).

Definition encode_datetime (year month day hour minute second nanosecond : Z) : TreeM () :=
  if nanosecond =? 0 then
    _ ← extend [TNS_JSON_TYPE_TIMESTAMP7];
    b ← lift (encode_oracle_date year month day hour minute second);
    extend b
  else
    _ ← extend [TNS_JSON_TYPE_TIMESTAMP];
    b ← lift (encode_oracle_timestamp year month day hour minute second nanosecond);
    extend b.

Definition encode_json_number (text : bytes) : TreeM () :=
  encoded ← map_err (lift (encode_number_text text)) (OsonInvalid "invalid JSON number");
  _ ← extend [TNS_JSON_TYPE_NUMBER_LENGTH_UINT8];
  _ ← extend [as_u 8 (Zlen encoded)];
  extend encoded.

Definition encode_json_raw (b : bytes) : TreeM () :=
  let len := Zlen b in
  _ ← (if len <? 65536
       then extend (TNS_JSON_TYPE_BINARY_LENGTH_UINT16 :: to_be_bytes 2 (as_u 16 len))
       else extend (TNS_JSON_TYPE_BINARY_LENGTH_UINT32 :: to_be_bytes 4 (as_u 32 len)));
  extend b.

Definition encode_json_interval (days hours minutes seconds fseconds : Z) : TreeM () :=
  h ← lift (arith I32_MIN I32_MAX (hours * 3600));
  m ← lift (arith I32_MIN I32_MAX (minutes * 60));
  t ← lift (arith I32_MIN I32_MAX (h + m));
  total_seconds ← lift (arith I32_MIN I32_MAX (t + seconds));
  b ← lift (encode_interval_ds days total_seconds fseconds);
  _ ← extend [TNS_JSON_TYPE_INTERVAL_DS];
  extend b.

Definition encode_json_vector (vector : Vector) : TreeM () :=
  _ ← extend [TNS_JSON_TYPE_EXTENDED];
  _ ← extend [TNS_JSON_TYPE_VECTOR];
  image ← lift (encode_vector_checked vector);
  _ ← extend (to_be_bytes 4 (as_u 32 (Zlen image)));
  extend image.

Fixpoint encode_node (value : OsonValue) : TreeM () :=
  match value with
  | JNull => extend [TNS_JSON_TYPE_NULL]
  | JBool true => extend [TNS_JSON_TYPE_TRUE]
  | JBool false => extend [TNS_JSON_TYPE_FALSE]
  | JNumber text => encode_json_number text
  | JBinaryFloat bits => _ ← extend [TNS_JSON_TYPE_BINARY_FLOAT]; extend (encode_binary_float bits)
  | JBinaryDouble bits => _ ← extend [TNS_JSON_TYPE_BINARY_DOUBLE]; extend (encode_binary_double bits)
  | JString text => write_json_string text
  | JRaw b => encode_json_raw b
  | JDateTime year month day hour minute second nanosecond =>
      encode_datetime year month day hour minute second nanosecond
  | JIntervalDS days hours minutes seconds fseconds =>
      encode_json_interval days hours minutes seconds fseconds
  | JVector vector => encode_json_vector vector
  | JArray values =>
      let num_children := Zlen values in
      _ ← encode_container_header TNS_JSON_TYPE_ARRAY num_children;
      offset ← gets Zlen;
      _ ← grow (num_children * 4);
      encode_elements encode_node values offset
  | JObject entries =>
      let num_children := Zlen entries in
      _ ← encode_container_header TNS_JSON_TYPE_OBJECT num_children;
      field_id_offset ← gets Zlen;
      let value_offset := field_id_offset + num_children * field_id_size in
      _ ← grow (num_children * field_id_size + num_children * 4);
      encode_entries encode_node entries field_id_offset value_offset
  end.
End Tree.

(** ** Putting the image together *)

Definition put (b : bytes) : EncM () := modify (upd_buffer (λ buffer, buffer ++ b)).
Definition put_u8 (v : Z) : EncM () := put [v].
Definition put_u16be (v : Z) : EncM () := put (to_be_bytes 2 v).
Definition put_u32be (v : Z) : EncM () := put (to_be_bytes 4 v).

(** The choice between the 16-bit and the 32-bit form of a length. *)
Definition put_length (len : Z) : EncM () :=
  if len <? 65536 then put_u16be (as_u 16 len) else put_u32be (as_u 32 len).

Definition write_extended_header : EncM () :=
  short ← gets oe_short_fnames_seg;
  let short_num := match short with Some seg => fs_num_field_names seg | None => 0 end in
  w ← gets oe_field_id_size;
  _ ← (if w =? 1 then put_u8 (as_u 8 short_num)
       else if w =? 2 then put_u16be (as_u 16 short_num) else put_u32be short_num);
  _ ← put_length (match short with Some seg => Zlen (fs_buffer seg) | None => 0 end);
  long ← gets oe_long_fnames_seg;
  match long with
  | None => mret ()
  | Some long_seg =>
      let long_seg_len := Zlen (fs_buffer long_seg) in
      _ ← put_u16be (if long_seg_len <? 65536 then TNS_JSON_FLAG_SEC_FNAMES_SEG_UINT16 else 0);
      _ ← put_u32be (fs_num_field_names long_seg);
      put_u32be (as_u 32 long_seg_len)
  end.

Definition put_hash_id (f : FieldName) : EncM () :=
  if Zlen (fn_name f) <=? 255 then put_u8 (Z.land (fn_hash_id f) 255)
  else put_u16be (Z.land (fn_hash_id f) 65535).

Definition write_fnames_seg_for (seg : option FieldNamesSegment) : EncM () :=
  match seg with
  | None => mret ()
  | Some seg =>
      let seg_len := Zlen (fs_buffer seg) in
      _ ← for_each put_hash_id (fs_field_names seg);
      _ ← for_each (λ f, if seg_len <? 65536 then put_u16be (as_u 16 (fn_offset f))
                         else put_u32be (as_u 32 (fn_offset f))) (fs_field_names seg);
      if 0 <? seg_len then put (fs_buffer seg) else mret ()
  end.

(** [TreeSegment::encode_node] on a fresh tree segment. *)
Definition encode_tree (value : OsonValue) : EncM bytes := λ e,
  let '(res, buffer) := encode_node (oe_field_names_dict e) (oe_field_id_size e) value [] in
  (_ ← res; Ok buffer, e).

Definition encode (value : OsonValue) (supports_long_fnames : bool) : EncM bytes :=
  _ ← modify (set_max_fname (if supports_long_fnames then MAX_FNAME_SIZE_LONG else MAX_FNAME_SIZE_SHORT));
  flags ← determine_flags value;
  tree ← encode_tree value;
  let flags := if 65535 <? Zlen tree then Z.lor flags TNS_JSON_FLAG_TREE_SEG_UINT32 else flags in
  _ ← put_u8 TNS_JSON_MAGIC_BYTE_1;
  _ ← put_u8 TNS_JSON_MAGIC_BYTE_2;
  _ ← put_u8 TNS_JSON_MAGIC_BYTE_3;
  long ← gets oe_long_fnames_seg;
  _ ← put_u8 (if bool_decide (is_Some long) then TNS_JSON_VERSION_MAX_FNAME_65535
              else TNS_JSON_VERSION_MAX_FNAME_255);
  _ ← put_u16be flags;
  short ← gets oe_short_fnames_seg;
  _ ← (if bool_decide (is_Some short) then write_extended_header else mret ());
  _ ← put_length (Zlen tree);
  _ ← (if bool_decide (is_Some short) then
         _ ← put_u16be 0;
         _ ← write_fnames_seg_for short;
         if bool_decide (is_Some long) then write_fnames_seg_for long else mret ()
       else mret ());
  _ ← put tree;
  gets oe_buffer.

Definition encode_oson (value : OsonValue) (supports_long_fnames : bool) : Res bytes :=
  (encode value supports_long_fnames
     (OsonEncoder_new (if supports_long_fnames then MAX_FNAME_SIZE_LONG else MAX_FNAME_SIZE_SHORT))).1.
