(* ===== verification/OsonTree.v ===== *)
(** * OSON nodes round trip

    What [encode_node] appends to the tree segment is a node that [decode_node]
    reads back, wherever the segment ends up in the image: scalars by the round
    trips of their codecs, containers by following the offsets that were patched
    into them. *)

From stdpp Require Import gmap.
From S2P Require Import Prelude.
From S2P Require Import Protocol.
From S2P Require Import Limits.
From S2P Require Import Writer.
From S2P Require Import Reader.
From S2P Require Import Wire.
From S2P Require Import TimeZone.
From S2P Require Import Calendar.
From S2P Require Import Datetime.
From S2P Require Import Number.
From S2P Require Import Vector.
From S2P Require Import Oson.

(** ** Values *)

(** Induction over nested values. *)
Section Nested.
Context (P : OsonValue → Prop).
Context (Hscalar : ∀ v, is_container v = false → P v).
Context (Harray : ∀ vs, Forall P vs → P (JArray vs)).
Context (Hobject : ∀ es, Forall (λ e, P e.2) es → P (JObject es)).

Fixpoint oson_nested_ind (v : OsonValue) : P v :=
  match v with
  | JArray vs => Harray vs
      ((fix go l : Forall P l :=
          match l with
          | [] => Forall_nil_2 P
          | x :: l => Forall_cons_2 P x l (oson_nested_ind x) (go l)
          end) vs)
  | JObject es => Hobject es
      ((fix go l : Forall (λ e, P e.2) l :=
          match l with
          | [] => Forall_nil_2 _
          | e :: l => Forall_cons_2 (λ e, P e.2) e l (oson_nested_ind e.2) (go l)
          end) es)
  | v => Hscalar v eq_refl
  end.
End Nested.

(** Levels of nesting. *)
Fixpoint oson_height (v : OsonValue) : nat :=
  match v with
  | JArray vs => S (list_max (map oson_height vs))
  | JObject es => S (list_max (map (λ e, oson_height e.2) es))
  | _ => 0
  end.

(** The text a number has after its wire form. *)
Definition number_canon (text : bytes) : Res bytes :=
  wire ← encode_number_text text; n ← decode_number_value wire; to_canonical_string n.

(** The representative of a value that the decoder returns: canonical number
    text, and an interval's time split into hours, minutes and seconds. *)
Fixpoint canon (v : OsonValue) : OsonValue :=
  match v with
  | JNumber text => JNumber (match number_canon text with Ok t => t | _ => text end)
  | JIntervalDS days hours minutes seconds fseconds =>
      let t := hours * 3600 + minutes * 60 + seconds in
      JIntervalDS days (div_t t 3600) (div_t (rem_t t 3600) 60) (rem_t t 60) fseconds
  | JArray vs => JArray (map canon vs)
  | JObject es => JObject (map (λ e, (e.1, canon e.2)) es)
  | v => v
  end.

Definition i32_ok (z : Z) : bool := between I32_MIN I32_MAX z.

(** Values of the Rust type that the codecs and the policy [l] admit, with field
    names up to [max_name] bytes. *)
Fixpoint oson_ok (l : ProtocolLimits) (max_name : Z) (v : OsonValue) : bool :=
  match v with
  | JNull | JBool _ => true
  | JNumber text => is_ok (number_canon text)
  | JBinaryFloat bits => between 0 U32_MAX bits
  | JBinaryDouble bits => between 0 U64_MAX bits
  | JString text => utf8_valid text
  | JRaw _ => true
  | JDateTime year month day hour minute second nanosecond =>
      valid_fields year month day hour minute second && between 0 999999999 nanosecond
  | JIntervalDS days hours minutes seconds fseconds =>
      i32_ok days && i32_ok fseconds && i32_ok (hours * 3600) && i32_ok (minutes * 60) &&
      i32_ok (hours * 3600 + minutes * 60) &&
      between (-219599) 705599 (hours * 3600 + minutes * 60 + seconds)
  | JVector vector =>
      bool_decide (vector_ok l vector) && (Zlen (image vector) <=? max_frame_bytes l)
  | JArray vs => (Zlen vs <=? max_object_elements l) && forallb (oson_ok l max_name) vs
  | JObject es =>
      (Zlen es <=? max_object_elements l) &&
      forallb (λ e, utf8_valid e.1 && (Zlen e.1 <=? max_name) && oson_ok l max_name e.2) es
  end.

(** The field names of a value, with repetitions. *)
Fixpoint oson_keys (v : OsonValue) : list bytes :=
  match v with
  | JArray vs => concat (map oson_keys vs)
  | JObject es => concat (map (λ e, e.1 :: oson_keys e.2) es)
  | _ => []
  end.

(** ** Bytes at a position *)

Definition at_pos (data : bytes) (p : Z) (e : bytes) : Prop :=
  ∃ a z, data = a ++ e ++ z ∧ Zlen a = p.

Lemma at_pos_app data p e1 e2 :
  at_pos data p (e1 ++ e2) → at_pos data p e1 ∧ at_pos data (p + Zlen e1) e2.
Proof.
  intros (a & z & -> & Hp). split.
  - exists a, (e2 ++ z). by rewrite <- !app_assoc.
  - exists (a ++ e1), z. rewrite Zlen_app, Hp. by rewrite <- !app_assoc.
Qed.

Lemma at_pos_mid a e z : at_pos (a ++ e ++ z) (Zlen a) e.
Proof. by exists a, z. Qed.

Lemma at_pos_bound data p e : at_pos data p e → 0 <= p ∧ p + Zlen e <= Zlen data.
Proof.
  intros (a & z & -> & <-). rewrite !Zlen_app. pose proof (Zlen_nonneg a). pose proof (Zlen_nonneg z). lia.
Qed.

(** Bytes inside bytes. *)
Lemma at_pos_inside data tree T off e :
  at_pos data tree T → at_pos T off e → at_pos data (tree + off) e.
Proof.
  intros (a & z & -> & <-) (b & y & -> & <-). exists (a ++ b), (y ++ z).
  rewrite <- !app_assoc, Zlen_app. done.
Qed.

Lemma at_pos_slice data p e : at_pos data p e → slice_get data p (p + Zlen e) = Some e.
Proof. intros (a & z & -> & <-). by rewrite slice_get_app. Qed.

Lemma at_pos_nth data p b : at_pos data p [b] → slice_nth data p = Some b.
Proof. intros (a & z & -> & <-). apply slice_nth_app. Qed.

(** ** Reading at a position *)

Section Reading.
Context (l : ProtocolLimits) (data : bytes).
Context (Hresp : Zlen data <= max_response_bytes l) (Hmax : Zlen data <= I64_MAX).

Definition rdr (p : Z) : OsonReader := mkOsonReader data p l.

(** [m] reads exactly [e] and returns [a]. *)
Definition oparses {A} (m : OReaderM A) (e : bytes) (a : A) : Prop :=
  ∀ p, at_pos data p e → m (rdr p) = (Ok a, rdr (p + Zlen e)).

Lemma oparses_bind {A B} (m : OReaderM A) (f : A → OReaderM B) e1 e2 a b :
  oparses m e1 a → oparses (f a) e2 b → oparses (m ≫= f) (e1 ++ e2) b.
Proof.
  intros Hm Hf p [H1 H2]%at_pos_app. rewrite st_bindE, Hm by done. rewrite Hf by done.
  by rewrite Zlen_app, Z.add_assoc.
Qed.

Lemma oparses_bind_nil {A B} (m : OReaderM A) (f : A → OReaderM B) e a b :
  oparses m [] a → oparses (f a) e b → oparses (m ≫= f) e b.
Proof. apply (oparses_bind m f [] e). Qed.

Lemma oparses_ret {A} (a : A) : oparses (mret a) [] a.
Proof. intros p _. by rewrite Zlen_nil, Z.add_0_r. Qed.

Lemma oparses_lift {A} (r : Res A) a : r = Ok a → oparses (lift r) [] a.
Proof. intros -> p _. by rewrite Zlen_nil, Z.add_0_r. Qed.

Lemma oparses_last {A B} (m : OReaderM A) (f : A → OReaderM B) e a b :
  oparses m e a → oparses (f a) [] b → oparses (m ≫= f) e b.
Proof. intros Hm Hf. rewrite <- (app_nil_r e). by eapply oparses_bind. Qed.

Lemma oson_raw_parses e n : Zlen e = n → oparses (oson_read_raw n) e e.
Proof.
  intros <- p Hat. pose proof (at_pos_bound _ _ _ Hat) as [Hp Hb]. pose proof (Zlen_nonneg e).
  unfold oson_read_raw, check_response_bytes. st_run. cbn [or_limits or_pos or_data rdr].
  rewrite check_ok by lia. st_run.
  rewrite try_range_in by (unfold USIZE_MAX, U64_MAX, I64_MAX in *; lia). st_run.
  rewrite at_pos_slice by done. by st_run.
Qed.

Lemma oson_u8_parses b : oparses oson_read_u8 [b] b.
Proof. eapply oparses_last; [by apply oson_raw_parses|]. by apply oparses_lift. Qed.

Lemma read_fixed_parses n v :
  0 <= v < 256 ^ Z.of_nat n →
  oparses (raw ← oson_read_raw (Z.of_nat n); a ← lift (array_of (Z.of_nat n) raw); mret (from_be_bytes a))
    (to_be_bytes n v) v.
Proof.
  intros Hv. eapply oparses_last; [apply oson_raw_parses, Zlen_to_be_bytes|].
  eapply oparses_bind_nil; [apply oparses_lift, array_of_run, Zlen_to_be_bytes|].
  rewrite from_to_be_bytes by done. apply oparses_ret.
Qed.

Lemma read_u16_parses v : 0 <= v <= U16_MAX → oparses oson_read_u16be (to_be_bytes 2 v) v.
Proof. intros. apply (read_fixed_parses 2). unfold U16_MAX in *. change (256 ^ Z.of_nat 2) with 65536. lia. Qed.

Lemma read_u32_parses v : 0 <= v <= U32_MAX → oparses oson_read_u32be (to_be_bytes 4 v) v.
Proof.
  intros. apply (read_fixed_parses 4). unfold U32_MAX in *. change (256 ^ Z.of_nat 4) with 4294967296. lia.
Qed.

Lemma seek_run p q : 0 <= q <= Zlen data → oson_seek_to q (rdr p) = (Ok (), rdr q).
Proof.
  intros Hq. unfold oson_seek_to. st_run. cbn [or_data rdr].
  by rewrite (proj2 (Z.ltb_ge _ _)) by lia.
Qed.
End Reading.

(** ** Scalar nodes *)

Lemma as_u_8 z : 0 <= z <= 255 → as_u 8 z = z.
Proof. intros. apply as_u_in. lia. Qed.
Lemma as_u_16 z : 0 <= z <= U16_MAX → as_u 16 z = z.
Proof. unfold U16_MAX. intros. apply as_u_in. lia. Qed.
Lemma as_u_32 z : 0 <= z <= U32_MAX → as_u 32 z = z.
Proof. unfold U32_MAX. intros. apply as_u_in. lia. Qed.

Section Scalars.
Context (l : ProtocolLimits) (Hu : limits_usize l) (Hv : limits_valid l).
Context (dict : FieldDict) (w : Z).

Definition fits (data : bytes) : Prop := Zlen data <= max_response_bytes l ∧ Zlen data <= U32_MAX.

(** The node [e]: its type byte and the scalar after it. *)
Definition scalar_node (e : bytes) (v : OsonValue) : Prop :=
  ∃ ty rest, e = ty :: rest ∧ Z.land ty 128 = 0 ∧
    ∀ data, fits data → oparses l data (decode_scalar_with_node_type ty) rest v.

Lemma fits_max data : fits data → Zlen data <= max_response_bytes l ∧ Zlen data <= I64_MAX.
Proof. unfold fits, U32_MAX, I64_MAX. lia. Qed.

Lemma string_parses data text :
  fits data → utf8_valid text = true → oparses l data (oson_decode_string (Zlen text)) text (JString text).
Proof.
  intros [H1 H2]%fits_max Hutf. eapply oparses_last; [by apply oson_raw_parses|]. rewrite Hutf.
  apply oparses_ret.
Qed.

(** Encoding appends a node that reads back as [v'], unless it is beyond 4 GiB. *)
Definition writes_scalar (m : TreeM ()) (v' : OsonValue) : Prop :=
  ∀ b, ∃ e, m b = (Ok (), b ++ e) ∧ (Zlen e <= U32_MAX → scalar_node e v').

(** A node of a type byte and a payload that is written as it is read. *)
Lemma writes_fixed (m : TreeM ()) ty rest v' :
  (∀ b, m b = (Ok (), b ++ ty :: rest)) → Z.land ty 128 = 0 →
  (Zlen rest <= U32_MAX → ∀ data, fits data → oparses l data (decode_scalar_with_node_type ty) rest v') →
  writes_scalar m v'.
Proof.
  intros Hm Hty Hp b. exists (ty :: rest). split; [done|]. rewrite Zlen_cons. intros Hlen.
  eexists _, _. split; [done|]. split; [done|]. apply Hp. lia.
Qed.

(** Three ways to write a length in front of a payload. *)
Lemma length_u8_parses {B} data e (f : Z → OReaderM B) v' :
  fits data → Zlen e <= 255 → oparses l data (f (Zlen e)) e v' →
  oparses l data (oson_read_u8 ≫= f) (as_u 8 (Zlen e) :: e) v'.
Proof.
  intros [H1 H2]%fits_max Hlen Hf. pose proof (Zlen_nonneg e). rewrite as_u_8 by lia.
  by apply (oparses_bind l data oson_read_u8 f [Zlen e] e (Zlen e)); [apply oson_u8_parses|].
Qed.
Lemma length_u16_parses {B} data e (f : Z → OReaderM B) v' :
  fits data → Zlen e <= U16_MAX → oparses l data (f (Zlen e)) e v' →
  oparses l data (oson_read_u16be ≫= f) (to_be_bytes 2 (as_u 16 (Zlen e)) ++ e) v'.
Proof.
  intros [H1 H2]%fits_max Hlen Hf. pose proof (Zlen_nonneg e). rewrite as_u_16 by lia.
  by eapply oparses_bind; [by apply read_u16_parses|].
Qed.
Lemma length_u32_parses {B} data e (f : Z → OReaderM B) v' :
  fits data → Zlen e <= U32_MAX → oparses l data (f (Zlen e)) e v' →
  oparses l data (oson_read_u32be ≫= f) (to_be_bytes 4 (as_u 32 (Zlen e)) ++ e) v'.
Proof.
  intros [H1 H2]%fits_max Hlen Hf. pose proof (Zlen_nonneg e). rewrite as_u_32 by lia.
  by eapply oparses_bind; [by apply read_u32_parses|].
Qed.

Lemma string_tail text (b : bytes) :
  (if 0 <? Zlen text then extend text else mret ()) b = (Ok (), b ++ text).
Proof.
  destruct (Z.ltb_spec 0 (Zlen text)); [done|].
  destruct text; [by rewrite app_nil_r|autorewrite with thin in *; pose proof (Zlen_nonneg text); lia].
Qed.

Lemma string_writes text :
  utf8_valid text = true → writes_scalar (write_json_string text) (JString text).
Proof.
  intros Hutf. unfold write_json_string.
  destruct (Z.ltb_spec (Zlen text) 256); [|destruct (Z.ltb_spec (Zlen text) 65536)];
    (eapply writes_fixed; [intros b; rewrite st_bindE; unfold extend at 1; rewrite modifyE;
       cbn beta iota; rewrite string_tail, <- app_assoc; reflexivity|done|]);
    autorewrite with thin; intros Hlen data Hf.
  - apply length_u8_parses; [done|lia|by apply string_parses].
  - apply length_u16_parses; [done|unfold U16_MAX; lia|by apply string_parses].
  - apply length_u32_parses; [done|lia|by apply string_parses].
Qed.

Lemma raw_writes r : writes_scalar (encode_json_raw r) (JRaw r).
Proof.
  assert (∀ data, fits data → oparses l data (oson_decode_raw (Zlen r)) r (JRaw r)) as Hraw.
  { intros data [H1 H2]%fits_max. eapply oparses_last; [by apply oson_raw_parses|]. apply oparses_ret. }
  unfold encode_json_raw. destruct (Z.ltb_spec (Zlen r) 65536);
    (eapply writes_fixed; [intros b; unfold extend; st_run; rewrite <- app_assoc; reflexivity|done|]);
    autorewrite with thin; intros Hlen data Hf.
  - apply length_u16_parses; [done|unfold U16_MAX; lia|by apply Hraw].
  - apply length_u32_parses; [done|lia|by apply Hraw].
Qed.

Lemma number_canon_wire text t :
  number_canon text = Ok t → ∃ wire n, encode_number_text text = Ok wire ∧
    decode_number_value wire = Ok n ∧ to_canonical_string n = Ok t ∧ Zlen wire <= 21.
Proof.
  unfold number_canon. intros (wire & Hw & (n & Hn & Ht)%bind_ok)%bind_ok. exists wire, n.
  split; [done|]. split; [done|]. split; [done|]. unfold decode_number_value, from_wire in Hn.
  apply bind_ok in Hn as (x & Hn & _). unfold decode_number_parts_stack in Hn.
  destruct (Z.ltb_spec 21 (Zlen wire)); [done|lia].
Qed.

Lemma number_writes text :
  is_ok (number_canon text) = true → writes_scalar (encode_json_number text) (canon (JNumber text)).
Proof.
  cbn [canon]. destruct (number_canon text) as [t|e| |] eqn:Ht; [|done..]. intros _.
  apply number_canon_wire in Ht as (wire & n & Hw & Hn & Ht & Hlen). unfold encode_json_number.
  eapply writes_fixed; [intros b; unfold extend, map_err; st_run; rewrite Hw; st_run;
    rewrite <- !app_assoc; reflexivity|done|].
  intros _ data Hf. apply length_u8_parses; [done|lia|]. apply fits_max in Hf as [].
  eapply oparses_last; [by apply oson_raw_parses|].
  eapply oparses_bind_nil; [by apply oparses_lift|]. eapply oparses_bind_nil; [by apply oparses_lift|].
  apply oparses_ret.
Qed.

Lemma float_writes bits :
  between 0 U32_MAX bits = true →
  writes_scalar (_ ← extend [TNS_JSON_TYPE_BINARY_FLOAT]; extend (encode_binary_float bits)) (JBinaryFloat bits).
Proof.
  rewrite between_true. intros Hb.
  eapply writes_fixed; [intros b; unfold extend; st_run; rewrite <- app_assoc; reflexivity|done|].
  intros _ data [H1 H2]%fits_max. pose proof (binary_float_roundtrip bits) as [_ Hrt].
  eapply oparses_last; [apply oson_raw_parses; [done..|]|].
  { unfold encode_binary_float. by rewrite order_encode_length, Zlen_to_be_bytes. }
  eapply oparses_bind_nil; [by apply oparses_lift, Hrt|]. apply oparses_ret.
Qed.

Lemma double_writes bits :
  between 0 U64_MAX bits = true →
  writes_scalar (_ ← extend [TNS_JSON_TYPE_BINARY_DOUBLE]; extend (encode_binary_double bits)) (JBinaryDouble bits).
Proof.
  rewrite between_true. intros Hb.
  eapply writes_fixed; [intros b; unfold extend; st_run; rewrite <- app_assoc; reflexivity|done|].
  intros _ data [H1 H2]%fits_max. pose proof (binary_float_roundtrip bits) as [Hrt _].
  eapply oparses_last; [apply oson_raw_parses; [done..|]|].
  { unfold encode_binary_double. by rewrite order_encode_length, Zlen_to_be_bytes. }
  eapply oparses_bind_nil; [by apply oparses_lift, Hrt|]. apply oparses_ret.
Qed.

Lemma datetime_writes y mo d h mi s n :
  valid_fields y mo d h mi s = true → between 0 999999999 n = true →
  writes_scalar (encode_datetime y mo d h mi s n) (JDateTime y mo d h mi s n).
Proof.
  intros Hvf Hn. pose proof Hvf as Hvf'. unfold valid_fields in Hvf'.
  rewrite !andb_true_iff, !between_true in Hvf'. apply between_true in Hn.
  pose proof (timestamp_roundtrip y mo d h mi s n) as Hrt. unfold is_u8, U32_MAX in Hrt.
  rewrite Hvf, (proj2 (Z.leb_le n 999999999)) in Hrt by lia.
  destruct Hrt as (wire & Henc & Hlen & Hdec); [lia..|]. unfold encode_datetime.
  destruct (Z.eqb_spec n 0) as [->|Hne].
  - assert (encode_oracle_date y mo d h mi s = Ok wire) as Hd.
    { unfold encode_oracle_timestamp in Henc. cbn in Henc. by apply bind_ok in Henc as (? & -> & [= ->]). }
    eapply writes_fixed; [intros b; unfold extend; st_run; rewrite Hd; st_run; rewrite <- app_assoc; reflexivity|done|].
    intros _ data [H1 H2]%fits_max. eapply oparses_last; [by apply oson_raw_parses|].
    eapply oparses_bind_nil; [by apply oparses_lift|]. apply oparses_ret.
  - eapply writes_fixed; [intros b; unfold extend; st_run; rewrite Henc; st_run; rewrite <- app_assoc; reflexivity|done|].
    intros _ data [H1 H2]%fits_max. eapply oparses_last; [by apply oson_raw_parses|].
    eapply oparses_bind_nil; [by apply oparses_lift|]. apply oparses_ret.
Qed.

Lemma interval_writes days hours minutes seconds fseconds :
  oson_ok l 0 (JIntervalDS days hours minutes seconds fseconds) = true →
  writes_scalar (encode_json_interval days hours minutes seconds fseconds)
    (canon (JIntervalDS days hours minutes seconds fseconds)).
Proof.
  cbn [oson_ok canon]. unfold i32_ok. rewrite !andb_true_iff, !between_true.
  intros (((((Hd & Hf) & H1) & H2) & H3) & Ht). unfold encode_json_interval.
  set (t := hours * 3600 + minutes * 60 + seconds) in *.
  assert (I32_MIN <= t <= I32_MAX) as Hti by (unfold I32_MIN, I32_MAX; lia).
  pose proof (interval_ds_run days t fseconds Hd Hti Hf) as Hrt.
  rewrite (proj2 (between_true _ _ _)) in Hrt by lia. destruct Hrt as (wire & Henc & Hlen & Hdec).
  eapply writes_fixed; [intros b; unfold extend; st_run; rewrite (arith_in _ _ (hours * 3600)), (arith_in _ _ (minutes * 60)) by done;
    st_run; rewrite (arith_in _ _ (hours * 3600 + minutes * 60)) by done; st_run; fold t;
    rewrite arith_in by done; st_run; rewrite Henc; st_run; rewrite <- app_assoc; reflexivity|done|].
  intros _ data [Hr1 Hr2]%fits_max. eapply oparses_last; [by apply oson_raw_parses|].
  eapply oparses_bind_nil; [by apply oparses_lift|]. apply oparses_ret.
Qed.

Lemma image_length v : 8 <= Zlen (image v).
Proof.
  destruct v as [[]|]; cbn [image]; unfold image_header; autorewrite with thin;
    match goal with |- context [Zlen (repeat ?x ?n)] => change (Zlen (repeat x n)) with 8 end;
    repeat match goal with |- context [Zlen ?x] => pose proof (Zlen_nonneg x); generalize dependent (Zlen x) end;
    lia.
Qed.

Lemma vector_writes v :
  vector_ok l v → Zlen (image v) <= max_frame_bytes l →
  writes_scalar (encode_json_vector v) (JVector v).
Proof.
  intros Hok Hlen. unfold encode_json_vector.
  eapply writes_fixed; [intros b; unfold extend; st_run; rewrite (encode_vector_run l) by done; st_run;
    rewrite <- !app_assoc; reflexivity|done|].
  autorewrite with thin. intros H32 data Hf. pose proof Hv as (_ & _ & Hfr).
  apply (oparses_bind l data oson_read_u8 _ [TNS_JSON_TYPE_VECTOR] _ TNS_JSON_TYPE_VECTOR);
    [by apply oson_u8_parses; apply fits_max in Hf as []|].
  pose proof (Zlen_nonneg (image v)). apply length_u32_parses; [done|lia|].
  apply (oparses_bind_nil l data (gets or_limits) _ _ l);
    [by intros p _; rewrite Zlen_nil, Z.add_0_r|].
  eapply oparses_bind_nil; [apply oparses_lift; apply check_ok; lia|].
  apply fits_max in Hf as []. eapply oparses_last; [by apply oson_raw_parses|].
  pose proof (decode_image_run l v [] Hu Hv) as Hrun. rewrite app_nil_r in Hrun.
  pose proof (image_length v). cbn [or_limits rdr]. rewrite Hrun; [apply oparses_ret|lia|done|done|].
  unfold I64_MAX, U32_MAX in *. lia.
Qed.
End Scalars.

(** ** Buffers *)

Lemma Zlen_concat_const {A} (f : A → bytes) n (xs : list A) :
  (∀ x, Zlen (f x) = n) → Zlen (concat (map f xs)) = n * Zlen xs.
Proof. intros H. induction xs; cbn [map concat]; autorewrite with thin; [lia|rewrite H; lia]. Qed.

Lemma patch_run (a b z c : bytes) : Zlen z = Zlen b → patch (Zlen a) b (a ++ z ++ c) = (Ok (), a ++ b ++ c).
Proof.
  intros Hz. unfold patch. rewrite !Zlen_app, (proj2 (Z.leb_le 0 _)), (proj2 (Z.leb_le _ _)).
  - cbn [andb]. f_equal. f_equal; [unfold Zlen; by rewrite Nat2Z.id, take_app_length|]. f_equal.
    rewrite <- Hz, <- Zlen_app, app_assoc. unfold Zlen. by rewrite Nat2Z.id, drop_app_length.
  - pose proof (Zlen_nonneg c). lia.
  - apply Zlen_nonneg.
Qed.

Lemma Zlen_repeat (x : Z) n : Zlen (repeat x n) = Z.of_nat n.
Proof. unfold Zlen. by rewrite repeat_length. Qed.

Lemma repeat_split n k (c : bytes) : repeat 0 (k * S n) ++ c = repeat 0 k ++ repeat 0 (k * n) ++ c.
Proof. rewrite app_assoc, <- repeat_app. do 2 f_equal. lia. Qed.

Lemma list_max_above (A : Type) (f : A → nat) (l0 : list A) : Forall (λ x, (f x <= list_max (map f l0))%nat) l0.
Proof.
  induction l0 as [|x l0 IH]; [constructor|]. cbn [map list_max foldr]. constructor; [lia|].
  eapply Forall_impl; [|exact IH]. cbn. intros y Hy. fold (list_max (map f l0)). lia.
Qed.

(** ** Nodes *)

Section Nodes.
Context (l : ProtocolLimits) (Hu : limits_usize l) (Hv : limits_valid l) (max_name : Z).
Context (dict : FieldDict) (w : Z) (names : list bytes).
Context (Hw : w = 1 ∨ w = 2 ∨ w = 4) (Hwide : Zlen names < 256 ^ w).
Context (Hdict : ∀ k f, dict !! k = Some f →
  1 <= fn_field_id f <= Zlen names ∧ names !! Z.to_nat (fn_field_id f - 1) = Some k).

Lemma scalar_writes v :
  is_container v = false → oson_ok l max_name v = true →
  writes_scalar l (encode_node dict w v) (canon v).
Proof.
  destruct v; cbn [is_container oson_ok canon encode_node]; intros Hc Hok; try discriminate.
  - eapply writes_fixed; [intros; reflexivity|done|]. intros _ data Hf. apply oparses_ret.
  - destruct b; (eapply writes_fixed; [intros; reflexivity|done|]; intros _ data Hf; apply oparses_ret).
  - by apply number_writes.
  - by apply float_writes.
  - by apply double_writes.
  - by apply string_writes.
  - by apply raw_writes.
  - apply andb_true_iff in Hok as []. by apply datetime_writes.
  - by apply interval_writes.
  - apply andb_true_iff in Hok as [Hok Hlen]. apply bool_decide_eq_true in Hok.
    apply vector_writes; [done..|lia].
Qed.

(** A decoder in the middle of an image. *)
Definition dst (data : bytes) (tree p d : Z) : OsonDecoder :=
  mkOsonDecoder (mkOsonReader data p l) names w tree false d.

Definition max_depth : Z := max_object_depth l.

(** The decoder reads [v'] at [off] of the tree segment. *)
Definition node_at (data : bytes) (tree off : Z) (v : OsonValue) : Prop :=
  ∀ fuel d, 0 <= d → d + Z.of_nat (oson_height v) <= max_depth → (oson_height v < fuel)%nat →
  ∃ p', decode_node fuel (dst data tree (tree + off) d) = (Ok (canon v), dst data tree p' d).

(** The bytes [e] are a node for [v] at [off], in whatever image they end up. *)
Definition decodes (off : Z) (e : bytes) (v : OsonValue) : Prop :=
  ∀ data tree, fits l data → 0 <= tree → at_pos data (tree + off) e → node_at data tree off v.

Lemma rd_run {A} (m : OReaderM A) data tree p d res p' :
  m (rdr l data p) = (res, rdr l data p') → rd m (dst data tree p d) = (res, dst data tree p' d).
Proof. intros H. unfold rd, dst. cbn [od_reader]. fold (rdr l data p). by rewrite H. Qed.

Lemma rd_parses {A} (m : OReaderM A) data tree p d e a :
  oparses l data m e a → at_pos data p e →
  rd m (dst data tree p d) = (Ok a, dst data tree (p + Zlen e) d).
Proof. intros Hm Hat. apply rd_run. by apply Hm. Qed.

Lemma rd_pos data tree p d : rd (gets or_pos) (dst data tree p d) = (Ok p, dst data tree p d).
Proof. done. Qed.

Lemma rd_seek data tree p d q :
  0 <= q <= Zlen data → rd (oson_seek_to q) (dst data tree p d) = (Ok (), dst data tree q d).
Proof. intros. apply rd_run. by apply seek_run. Qed.

Lemma seek_tree_run data tree p d off :
  fits l data → 0 <= tree + off <= Zlen data →
  seek_tree off (dst data tree p d) = (Ok (), dst data tree (tree + off) d).
Proof.
  intros [_ Hf] Ho. unfold seek_tree, usize. st_run. cbn [od_tree_seg_pos dst].
  rewrite arith_in by (unfold U32_MAX, USIZE_MAX, U64_MAX in *; lia). st_run. by apply rd_seek.
Qed.

Lemma max_depth_le : max_depth <= USIZE_MAX.
Proof. unfold limits_usize, named_limits in Hu. rewrite !Forall_cons_iff in Hu. unfold max_depth. cbn in Hu. lia. Qed.

Lemma scalar_decodes off e v :
  is_container v = false → scalar_node l e (canon v) → decodes off e v.
Proof.
  intros Hc (ty & rest & -> & Hty & Hp) data tree Hf Ht Hat [|fuel] d Hd Hle Hfuel; [lia|].
  cbn [decode_node]. rewrite st_bindE. apply (at_pos_app _ _ [ty] rest) in Hat as [H1 H2].
  pose proof (fits_max l _ Hf) as [].
  rewrite (rd_parses _ _ _ _ _ [ty] ty) by (done || by apply oson_u8_parses). rewrite Hty. cbn [Z.eqb negb].
  eexists. by apply rd_parses with (e := rest); [apply Hp|].
Qed.

(** *** Reading the children *)

Definition id_bytes (id : Z) : bytes := to_be_bytes (Z.to_nat w) id.

Lemma Zlen_id_bytes id : Zlen (id_bytes id) = w.
Proof. unfold id_bytes. rewrite Zlen_to_be_bytes. lia. Qed.

Lemma read_field_id_run data tree p d id :
  fits l data → at_pos data p (id_bytes id) → 0 <= id < 256 ^ w →
  read_field_id (dst data tree p d) = (Ok id, dst data tree (p + w) d).
Proof.
  intros Hf Hat Hid. unfold read_field_id. st_run. cbn [od_field_id_length dst].
  pose proof (fits_max l _ Hf) as [].
  replace (p + w) with (p + Zlen (id_bytes id)) by (rewrite Zlen_id_bytes; lia).
  destruct Hw as [Ew|[Ew|Ew]]; rewrite Ew in Hid |- *; cbn [Z.eqb Pos.eqb];
    apply rd_parses; try done; unfold id_bytes; rewrite Ew.
  - change (to_be_bytes _ id) with [id mod 256]. rewrite Z.mod_small by lia. by apply oson_u8_parses.
  - apply read_u16_parses; [done..|unfold U16_MAX; lia].
  - apply read_u32_parses; [done..|unfold U32_MAX; lia].
Qed.

Lemma field_name_run data tree p d id k :
  1 <= id <= Zlen names → names !! Z.to_nat (id - 1) = Some k → id <= U32_MAX →
  field_name_of id (dst data tree p d) = (Ok k, dst data tree p d).
Proof.
  intros Hid Hk Hmax. unfold field_name_of. st_run.
  rewrite try_range_in by (unfold U32_MAX, USIZE_MAX, U64_MAX in *; lia). st_run.
  cbn [od_field_names dst]. by rewrite Hk.
Qed.

(** A child: its field id, its offset and its value. *)
Record Child := mkChild { ch_name : bytes; ch_id : Z; ch_off : Z; ch_value : OsonValue }.

Definition child_ok (is_object : bool) (data : bytes) (tree : Z) (c : Child) : Prop :=
  0 <= ch_off c <= U32_MAX ∧ tree + ch_off c <= Zlen data ∧
  node_at data tree (ch_off c) (ch_value c) ∧
  if is_object then 1 <= ch_id c <= Zlen names ∧ names !! Z.to_nat (ch_id c - 1) = Some (ch_name c)
  else ch_name c = [].

Lemma pow_w : 256 ^ w <= U32_MAX + 1.
Proof. destruct Hw as [ -> |[ -> | -> ]]; unfold U32_MAX; lia. Qed.

Lemma children_run data tree d fuel node_type is_object coff : fits l data → 0 <= tree → 0 <= d →
  Z.land node_type 32 ≠ 0 → ∀ cs fpos opos p,
  Forall (child_ok is_object data tree) cs →
  Forall (λ c, d + Z.of_nat (oson_height (ch_value c)) <= max_depth ∧
               (oson_height (ch_value c) < fuel)%nat) cs →
  at_pos data opos (concat (map (λ c, to_be_bytes 4 (ch_off c)) cs)) →
  (is_object = true → at_pos data fpos (concat (map (λ c, id_bytes (ch_id c)) cs))) →
  ∃ p', decode_children (decode_node fuel) (length cs) node_type is_object coff fpos opos (dst data tree p d) =
    (Ok (map (λ c, (ch_name c, canon (ch_value c))) cs), dst data tree p' d).
Proof.
  intros Hf Ht Hd Hty. pose proof (fits_max l _ Hf) as [Hm1 Hm2].
  induction cs as [|c cs IH]; intros fpos opos p Hok Hdep Hoffs Hids; [by eexists|].
  apply Forall_cons_iff in Hok as [(Ho & Hin & Hnode & Hname) Hok].
  apply Forall_cons_iff in Hdep as [[Hle Hfuel] Hdep]. cbn [length decode_children map concat] in *.
  apply at_pos_app in Hoffs as [Ho1 Ho2]. rewrite Zlen_to_be_bytes in Ho2. rewrite st_bindE.
  assert (∃ p1, (if is_object then
       _ ← rd (oson_seek_to fpos);
       field_id ← read_field_id;
       name ← field_name_of field_id;
       pos ← rd (gets or_pos);
       mret (name, pos)
     else mret ([], fpos)) (dst data tree p d) =
    (Ok (ch_name c, if is_object then fpos + w else fpos), dst data tree p1 d)) as [p1 ->].
  { destruct is_object; [|rewrite Hname; by eexists]. destruct Hname as [Hid Hnm].
    destruct (at_pos_app _ _ _ _ (Hids eq_refl)) as [Hi1 Hi2]. pose proof pow_w.
    pose proof (at_pos_bound _ _ _ Hi1) as Hb. rewrite Zlen_id_bytes in Hb.
    rewrite st_bindE, rd_seek by lia. rewrite st_bindE, read_field_id_run with (id := ch_id c) by (done || lia).
    rewrite st_bindE, field_name_run with (k := ch_name c) by (done || lia). by eexists. }
  pose proof (at_pos_bound _ _ _ Ho1) as Hb. rewrite Zlen_to_be_bytes in Hb.
  rewrite st_bindE, rd_seek by lia. rewrite st_bindE. unfold get_offset.
  rewrite (proj2 (Z.eqb_neq _ _)) by done. cbn [negb].
  rewrite (rd_parses _ _ _ _ _ (to_be_bytes 4 (ch_off c)) (ch_off c)) by (done || by apply read_u32_parses).
  rewrite st_bindE, getsE. cbn [od_relative_offsets dst]. rewrite st_bindE, liftE. cbn beta iota.
  rewrite st_bindE, rd_pos. rewrite st_bindE, seek_tree_run by (done || lia).
  destruct (Hnode fuel d) as [p2 Hp2]; [done..|]. rewrite st_bindE, Hp2. rewrite Zlen_to_be_bytes.
  edestruct (IH (if is_object then fpos + w else fpos) (opos + Z.of_nat 4) p2) as [p3 Hp3]; [done..| |].
  { intros ->. destruct (at_pos_app _ _ _ _ (Hids eq_refl)) as [_ Hi2]. by rewrite Zlen_id_bytes in Hi2. }
  rewrite st_bindE, Hp3. by eexists.
Qed.

(** *** Container nodes *)

Definition container_type (ty n : Z) : Z :=
  if 65535 <? n then Z.lor (Z.lor ty 32) 16
  else if 255 <? n then Z.lor (Z.lor ty 32) 8 else Z.lor ty 32.

Definition count_bytes (n : Z) : bytes :=
  if n <? 256 then [as_u 8 n]
  else if n <? 65536 then to_be_bytes 2 (as_u 16 n) else to_be_bytes 4 (as_u 32 n).

Lemma container_header_run ty n b :
  encode_container_header ty n b = (Ok (), b ++ container_type ty n :: count_bytes n).
Proof.
  unfold encode_container_header, extend, count_bytes. st_run. fold (container_type ty n).
  destruct (n <? 256); [|destruct (n <? 65536)]; st_run; by rewrite <- app_assoc.
Qed.

Definition container_byte (ty : Z) : Prop := ty = TNS_JSON_TYPE_OBJECT ∨ ty = TNS_JSON_TYPE_ARRAY.

Lemma container_type_bits ty n :
  container_byte ty →
  Z.land (container_type ty n) 128 ≠ 0 ∧ Z.land (container_type ty n) 32 ≠ 0 ∧
  (Z.land (container_type ty n) 64 =? 0) = (ty =? TNS_JSON_TYPE_OBJECT) ∧
  Z.land (container_type ty n) 24 = (if 65535 <? n then 16 else if 255 <? n then 8 else 0).
Proof.
  intros [ -> | -> ]; unfold container_type; destruct (65535 <? n), (255 <? n); done.
Qed.

Lemma num_children_parses data ty n :
  fits l data → container_byte ty → 0 <= n <= U32_MAX →
  oparses l data (get_num_children (container_type ty n)) (count_bytes n) (n, false).
Proof.
  intros Hf Hty Hn. pose proof (fits_max l _ Hf) as [].
  destruct (container_type_bits ty n Hty) as (_ & _ & _ & Hbits).
  unfold get_num_children. rewrite Hbits. unfold count_bytes.
  destruct (Z.ltb_spec 65535 n); [|destruct (Z.ltb_spec 255 n)]; cbn [Z.eqb Pos.eqb].
  - rewrite !(proj2 (Z.ltb_ge _ _)) by lia. rewrite as_u_32 by lia.
    eapply oparses_last; [by apply read_u32_parses|apply oparses_ret].
  - rewrite (proj2 (Z.ltb_ge _ _)), (proj2 (Z.ltb_lt _ _)) by lia. rewrite as_u_16 by (unfold U16_MAX; lia).
    eapply oparses_last; [apply read_u16_parses; [done..|unfold U16_MAX; lia]|apply oparses_ret].
  - rewrite (proj2 (Z.ltb_lt _ _)) by lia. rewrite as_u_8 by lia.
    eapply oparses_last; [by apply oson_u8_parses|apply oparses_ret].
Qed.

Definition ids_of (is_object : bool) (cs : list Child) : bytes :=
  if is_object then concat (map (λ c, id_bytes (ch_id c)) cs) else [].
Definition offs_of (cs : list Child) : bytes := concat (map (λ c, to_be_bytes 4 (ch_off c)) cs).

Lemma layout_run data tree p d ty cs :
  let n := Zlen cs in
  let is_object := ty =? TNS_JSON_TYPE_OBJECT in
  fits l data → container_byte ty → n <= U32_MAX → n <= max_object_elements l → 0 <= p →
  at_pos data p (count_bytes n ++ ids_of is_object cs ++ offs_of cs) →
  ∃ fpos opos p', container_layout (container_type ty n) is_object (dst data tree p d) =
      (Ok (n, fpos, opos), dst data tree p' d) ∧
    at_pos data opos (offs_of cs) ∧ (is_object = true → at_pos data fpos (ids_of is_object cs)).
Proof.
  intros n is_object Hf Hty Hn Hel Hp Hat. apply at_pos_app in Hat as [Hc Hrest].
  pose proof (Zlen_nonneg cs). unfold container_layout.
  rewrite st_bindE, (rd_parses _ _ _ _ _ (count_bytes n) (n, false)) by (done || by apply num_children_parses).
  set (q := p + Zlen (count_bytes n)) in *. st_run. cbn [od_reader or_limits dst].
  unfold check_object_elements. rewrite check_ok by done. cbn beta iota.
  destruct is_object; rewrite st_bindE, rd_pos; st_run; cbn [od_field_id_length dst].
  - apply at_pos_app in Hrest as [Hi Ho]. pose proof (at_pos_bound _ _ _ Hi) as Hb.
    cbn [ids_of] in *. rewrite (Zlen_concat_const _ w) in Hb, Ho by (intros; apply Zlen_id_bytes).
    destruct Hf as [_ Hf]. unfold usize, U32_MAX, USIZE_MAX, U64_MAX in *. unfold n.
    rewrite arith_in by lia. st_run. rewrite arith_in by lia. st_run. by eexists _, _, _.
  - by eexists _, _, _.
Qed.

Lemma reserve_run data tree p d n :
  n <= max_object_elements l → ∃ c, rd (oson_reserve n) (dst data tree p d) = (Ok c, dst data tree p d).
Proof.
  intros Hn. eexists. unfold rd, oson_reserve, with_capacity_limited, check_object_elements.
  cbn [od_reader dst protocol_limits oson_bounded_reader or_limits]. by rewrite check_ok by done.
Qed.

Lemma container_node data tree off ty cs v h :
  let is_object := ty =? TNS_JSON_TYPE_OBJECT in
  fits l data → container_byte ty → Zlen cs <= max_object_elements l → 0 <= tree → 0 <= off →
  at_pos data (tree + off)
    (container_type ty (Zlen cs) :: count_bytes (Zlen cs) ++ ids_of is_object cs ++ offs_of cs) →
  Forall (child_ok is_object data tree) cs → Forall (λ c, (oson_height (ch_value c) <= h)%nat) cs →
  oson_height v = S h →
  canon v = (let children := map (λ c, (ch_name c, canon (ch_value c))) cs in
             if is_object then JObject children else JArray (map snd children)) →
  node_at data tree off v.
Proof.
  intros is_object Hf Hty Hel Ht Hoff Hat Hok Hhs Hh Hcanon [|fuel] d Hd Hle Hfuel; [lia|].
  apply (at_pos_app _ _ [_]) in Hat as [H1 Hat]. pose proof (fits_max l _ Hf) as [].
  destruct (container_type_bits ty (Zlen cs) Hty) as (Hb1 & Hb2 & Hb3 & _).
  assert (Zlen cs <= U32_MAX) as Hn.
  { pose proof (at_pos_bound _ _ _ Hat) as Hb. rewrite !Zlen_app in Hb. unfold offs_of in Hb.
    rewrite (Zlen_concat_const _ 4) in Hb by (intros; apply Zlen_to_be_bytes).
    pose proof (Zlen_nonneg (count_bytes (Zlen cs))). pose proof (Zlen_nonneg (ids_of is_object cs)).
    pose proof (Zlen_nonneg cs). destruct Hf. lia. }
  cbn [decode_node]. rewrite st_bindE, (rd_parses _ _ _ _ _ [_] _) by (done || by apply oson_u8_parses).
  rewrite (proj2 (Z.eqb_neq _ _)) by done. cbn [negb]. change (Zlen [_]) with 1 in *.
  st_run. cbn [od_depth dst]. unfold usize. pose proof max_depth_le. rewrite arith_in by lia. st_run.
  cbn [od_reader or_limits od_set_depth dst]. unfold check_object_depth. rewrite check_ok by (unfold max_depth in *; lia).
  st_run. unfold finally, decode_container_node. rewrite Hb3. fold is_object.
  change (od_set_depth (d + 1) _) with (dst data tree (tree + off + 1) (d + 1)).
  rewrite st_bindE, rd_pos. rewrite st_bindE, getsE. cbn [od_tree_seg_pos dst].
  destruct Hf as [Hf1 Hf2]. pose proof (at_pos_bound _ _ _ H1) as Hb.
  change (Zlen [_]) with 1 in Hb. unfold usize, U32_MAX, USIZE_MAX, U64_MAX in *. do 2 (rewrite st_bindE, liftE, arith_in by lia).
  cbn zeta.
  destruct (layout_run data tree (tree + off + 1) (d + 1) ty cs) as (fpos & opos & p1 & Hl & Ho & Hi);
    [by split|done|unfold U32_MAX; lia|done|lia|done|].
  fold is_object in Hl, Hi. rewrite st_bindE, Hl.
  rewrite st_bindE. destruct (reserve_run data tree p1 (d + 1) (Zlen cs) Hel) as [c ->].
  destruct (children_run data tree (d + 1) fuel (container_type ty (Zlen cs)) is_object
    (as_u 32 (tree + off + 1 - tree - 1))) with (cs := cs) (fpos := fpos) (opos := opos) (p := p1)
    as [p2 Hc]; [by split|done|lia|done|done| |exact Ho|intros E; rewrite E in Hi; by apply Hi|].
  { eapply Forall_impl; [|exact Hhs]. cbn. intros x Hx. lia. }
  unfold Zlen at 1. rewrite Nat2Z.id, st_bindE, Hc, Hcanon. exists p2. rewrite st_retE. f_equal.
  unfold dst, od_set_depth. cbn. f_equal. lia.
Qed.

(** *** Writing the children *)

Lemma patch_field_id_run f a c :
  1 <= fn_field_id f <= Zlen names →
  patch_field_id w (Zlen a) f (a ++ repeat 0 (Z.to_nat w) ++ c) = (Ok (), a ++ id_bytes (fn_field_id f) ++ c).
Proof.
  intros Hid. unfold patch_field_id, id_bytes.
  assert (∀ b, Zlen b = w → patch (Zlen a) b (a ++ repeat 0 (Z.to_nat w) ++ c) = (Ok (), a ++ b ++ c)) as Hp.
  { intros b Hb. apply patch_run. rewrite Zlen_repeat. lia. }
  destruct Hw as [Ew|[Ew|Ew]]; rewrite Ew in *; cbn [Z.eqb Pos.eqb] in *.
  - by apply Hp.
  - rewrite as_u_16 by (unfold U16_MAX; lia). by apply Hp.
  - by apply Hp.
Qed.

(** Children that lie one after the other from [o] on. *)
Fixpoint chain (o : Z) (xs : list (Child * bytes)) : Prop :=
  match xs with
  | [] => True
  | x :: xs => ch_off x.1 = o ∧ chain (o + Zlen x.2) xs
  end.

Definition bodies (xs : list (Child * bytes)) : bytes := concat (map snd xs).
Definition off_slots (xs : list (Child * bytes)) : bytes :=
  concat (map (λ x, to_be_bytes 4 (as_u 32 (ch_off x.1))) xs).

(** Encoding [v] appends a node for it, unless the segment outgrows 4 GiB. *)
Definition writes_node (v : OsonValue) : Prop := ∀ b, ∃ e,
  encode_node dict w v b = (Ok (), b ++ e) ∧ (Zlen (b ++ e) <= U32_MAX → decodes (Zlen b) e v).

Definition slots_ok (size : Z) (xs : list (Child * bytes)) : Prop :=
  size <= U32_MAX → Forall (λ x, decodes (ch_off x.1) x.2 (ch_value x.1)) xs.

Lemma Zlen_off_slots xs : Zlen (off_slots xs) = 4 * Zlen xs.
Proof. apply Zlen_concat_const. intros. apply Zlen_to_be_bytes. Qed.

Lemma elements_run vs : Forall writes_node vs → ∀ hd body, ∃ xs,
  map (λ x, ch_value x.1) xs = vs ∧ Forall (λ x, ch_name x.1 = []) xs ∧
  chain (Zlen hd + 4 * Zlen vs + Zlen body) xs ∧
  encode_elements (encode_node dict w) vs (Zlen hd) (hd ++ repeat 0 (4 * length vs) ++ body) =
    (Ok (), hd ++ off_slots xs ++ body ++ bodies xs) ∧
  slots_ok (Zlen (hd ++ off_slots xs ++ body ++ bodies xs)) xs.
Proof.
  induction 1 as [|v vs Hnode _ IH]; intros hd body.
  { exists []. cbn. rewrite app_nil_r. repeat split; constructor. }
  set (rest := repeat 0 (4 * length vs) ++ body).
  set (pos := Zlen (hd ++ repeat 0 4 ++ rest)).
  destruct (Hnode (hd ++ to_be_bytes 4 (as_u 32 pos) ++ rest)) as (e & Henc & Hdec).
  destruct (IH (hd ++ to_be_bytes 4 (as_u 32 pos)) (body ++ e)) as (xs & Hvs & Hnm & Hch & Hrun & Hok).
  assert (pos = Zlen hd + 4 * Zlen (v :: vs) + Zlen body) as Hpos.
  { unfold pos, rest. autorewrite with thin. rewrite !Zlen_repeat. rewrite Nat2Z.inj_mul. fold (Zlen vs). lia. }
  assert (Zlen (hd ++ to_be_bytes 4 (as_u 32 pos) ++ rest) = pos) as Hpos'.
  { unfold pos. by rewrite !Zlen_app, Zlen_to_be_bytes, Zlen_repeat. }
  exists ((mkChild [] 0 pos v, e) :: xs). split; [cbn; by rewrite Hvs|]. split; [by constructor|].
  assert (encode_elements (encode_node dict w) (v :: vs) (Zlen hd)
      (hd ++ repeat 0 (4 * length (v :: vs)) ++ body) =
    (Ok (), hd ++ off_slots ((mkChild [] 0 pos v, e) :: xs) ++ body ++ bodies ((mkChild [] 0 pos v, e) :: xs)))
    as Hall.
  { cbn [encode_elements]. replace (repeat 0 (4 * length (v :: vs)) ++ body) with (repeat 0 4 ++ rest).
    2:{ unfold rest. rewrite app_assoc, <- repeat_app. do 2 f_equal. cbn [length]. lia. }
    rewrite st_bindE, getsE. fold pos. rewrite st_bindE, patch_run by done.
    rewrite st_bindE, Henc. unfold rest.
    replace (Zlen hd + 4) with (Zlen (hd ++ to_be_bytes 4 (as_u 32 pos))) by (by rewrite Zlen_app, Zlen_to_be_bytes).
    rewrite <- !app_assoc in Hrun |- *. rewrite Hrun. f_equal. }
  split; [|split; [exact Hall|]].
  - cbn [chain fst snd ch_off]. split; [done|].
    replace (_ + Zlen e) with (Zlen (hd ++ to_be_bytes 4 (as_u 32 pos)) + 4 * Zlen vs + Zlen (body ++ e)); [done|].
    autorewrite with thin. lia.
  - intros Hsize. rewrite !Zlen_app, Zlen_off_slots in Hsize. unfold bodies in Hsize.
    cbn [map concat] in Hsize. autorewrite with thin in Hsize. cbn [snd] in Hsize.
    assert (Zlen xs = Zlen vs) by (rewrite <- Hvs; unfold Zlen; by rewrite length_map).
    pose proof (Zlen_nonneg (concat (map snd xs))). constructor.
    + cbn [fst snd ch_off ch_value]. rewrite <- Hpos'. apply Hdec. rewrite Zlen_app, Hpos', Hpos, Zlen_cons. lia.
    + apply Hok. unfold bodies. rewrite !Zlen_app, Zlen_off_slots, Zlen_to_be_bytes. lia.
Qed.

Definition id_slots (xs : list (Child * bytes)) : bytes := concat (map (λ x, id_bytes (ch_id x.1)) xs).

Lemma Zlen_id_slots xs : Zlen (id_slots xs) = w * Zlen xs.
Proof. apply Zlen_concat_const. intros. apply Zlen_id_bytes. Qed.

Definition known_child (x : Child * bytes) : Prop :=
  1 <= ch_id x.1 <= Zlen names ∧ names !! Z.to_nat (ch_id x.1 - 1) = Some (ch_name x.1).

Lemma entries_run es : Forall (λ e, writes_node e.2 ∧ is_Some (dict !! e.1)) es → ∀ hd mid body, ∃ xs,
  map (λ x, (ch_name x.1, ch_value x.1)) xs = es ∧ Forall known_child xs ∧
  chain (Zlen hd + w * Zlen es + Zlen mid + 4 * Zlen es + Zlen body) xs ∧
  encode_entries dict w (encode_node dict w) es (Zlen hd) (Zlen hd + w * Zlen es + Zlen mid)
    (hd ++ repeat 0 (Z.to_nat w * length es) ++ mid ++ repeat 0 (4 * length es) ++ body) =
    (Ok (), hd ++ id_slots xs ++ mid ++ off_slots xs ++ body ++ bodies xs) ∧
  slots_ok (Zlen (hd ++ id_slots xs ++ mid ++ off_slots xs ++ body ++ bodies xs)) xs.
Proof.
  induction 1 as [|[k v] es [Hnode [f Hf]] _ IH]; intros hd mid body.
  { exists []. cbn. rewrite Nat.mul_0_r, app_nil_r. repeat split; constructor. }
  cbn [fst snd] in *. destruct (Hdict k f Hf) as [Hid Hname].
  set (zi := repeat 0 (Z.to_nat w * length es)). set (zo := repeat 0 (4 * length es)).
  set (idb := id_bytes (fn_field_id f)).
  set (pos := Zlen ((hd ++ idb) ++ zi ++ mid ++ repeat 0 4 ++ zo ++ body)).
  set (ob := to_be_bytes 4 (as_u 32 pos)).
  destruct (Hnode ((hd ++ idb) ++ zi ++ mid ++ ob ++ zo ++ body)) as (e & Henc & Hdec).
  destruct (IH (hd ++ idb) (mid ++ ob) (body ++ e)) as (xs & Hes & Hnm & Hch & Hrun & Hok).
  assert (Zlen idb = w) as Hlid by apply Zlen_id_bytes.
  assert (Zlen ob = 4) as Hlob by apply Zlen_to_be_bytes.
  assert (Zlen zi = w * Zlen es) as Hlzi by (unfold zi; rewrite Zlen_repeat; unfold Zlen; lia).
  assert (Zlen zo = 4 * Zlen es) as Hlzo by (unfold zo; rewrite Zlen_repeat; unfold Zlen; lia).
  assert (pos = Zlen hd + w * Zlen ((k, v) :: es) + Zlen mid + 4 * Zlen ((k, v) :: es) + Zlen body) as Hpos.
  { unfold pos. autorewrite with thin. rewrite Zlen_repeat. lia. }
  assert (Zlen ((hd ++ idb) ++ zi ++ mid ++ ob ++ zo ++ body) = pos) as Hpos'.
  { unfold pos. by rewrite !Zlen_app, Hlob, Zlen_repeat. }
  set (x := (mkChild k (fn_field_id f) pos v, e)).
  exists (x :: xs). split; [cbn; by rewrite Hes|]. split; [by constructor|].
  split; [|split].
  - cbn [chain x fst snd ch_off]. split; [done|].
    replace (_ + Zlen e) with (Zlen (hd ++ idb) + w * Zlen es + Zlen (mid ++ ob) + 4 * Zlen es + Zlen (body ++ e));
      [done|]. autorewrite with thin. lia.
  - cbn [encode_entries length]. rewrite !repeat_split. fold zi zo. rewrite Hf.
    rewrite st_bindE. cbn [ok_or]. rewrite liftE, st_bindE, patch_field_id_run by done. fold idb.
    rewrite st_bindE, getsE, app_assoc. fold pos ob.
    rewrite st_bindE. rewrite (app_assoc zi), (app_assoc (hd ++ idb)).
    replace (Zlen hd + w * Zlen ((k, v) :: es) + Zlen mid) with (Zlen ((hd ++ idb) ++ zi ++ mid))
      by (autorewrite with thin; lia).
    rewrite patch_run by (by rewrite Zlen_repeat, Hlob).
    rewrite <- (app_assoc (hd ++ idb)), <- (app_assoc zi), st_bindE, Henc.
    replace (Zlen hd + w) with (Zlen (hd ++ idb)) by (by rewrite Zlen_app, Hlid).
    replace (Zlen ((hd ++ idb) ++ zi ++ mid) + 4) with (Zlen (hd ++ idb) + w * Zlen es + Zlen (mid ++ ob))
      by (rewrite !Zlen_app; lia).
    fold zi zo in Hrun. repeat rewrite <- app_assoc. repeat rewrite <- app_assoc in Hrun. rewrite Hrun.
    unfold id_slots, off_slots, bodies, x. cbn [map concat fst snd ch_id ch_off]. fold idb ob.
    by repeat rewrite <- app_assoc.
  - intros Hsize. rewrite !Zlen_app, Zlen_off_slots, Zlen_id_slots in Hsize. unfold bodies in Hsize.
    cbn [map concat x] in Hsize. autorewrite with thin in Hsize. change (Zlen x.2) with (Zlen e) in Hsize.
    assert (Zlen xs = Zlen es) as Hlen by (rewrite <- Hes; unfold Zlen; by rewrite length_map).
    rewrite Hlen in Hsize.
    pose proof (Zlen_nonneg (concat (map snd xs))). constructor.
    + cbn [x fst snd ch_off ch_value]. rewrite <- Hpos'. apply Hdec. rewrite Zlen_app, Hpos', Hpos, Zlen_cons. lia.
    + apply Hok. unfold bodies. rewrite !Zlen_app, Zlen_off_slots, Zlen_id_slots, Hlob, Hlid, Hlen. lia.
Qed.

(** *** Putting both together *)

Lemma chain_at data tree xs : ∀ o,
  chain o xs → at_pos data (tree + o) (bodies xs) →
  Forall (λ x, at_pos data (tree + ch_off x.1) x.2 ∧ o <= ch_off x.1) xs.
Proof.
  induction xs as [|x xs IH]; intros o Hc Hat; [constructor|]. destruct Hc as [Ho Hc].
  apply at_pos_app in Hat as [H1 H2]. rewrite <- Z.add_assoc in H2. constructor.
  - rewrite Ho. split; [done|lia].
  - eapply Forall_impl; [|by apply (IH _ Hc)]. cbn. intros y [Hy Hle]. split; [done|].
    pose proof (Zlen_nonneg x.2). lia.
Qed.

Definition front (ty : Z) (is_object : bool) (xs : list (Child * bytes)) : bytes :=
  container_type ty (Zlen xs) :: count_bytes (Zlen xs) ++ (if is_object then id_slots xs else []).

Lemma slots_decode ty xs v h off :
  let is_object := ty =? TNS_JSON_TYPE_OBJECT in
  let e := front ty is_object xs ++ off_slots xs ++ bodies xs in
  container_byte ty → 0 <= off → off + Zlen e <= U32_MAX → Zlen xs <= max_object_elements l →
  chain (off + Zlen (front ty is_object xs ++ off_slots xs)) xs →
  Forall (λ x, decodes (ch_off x.1) x.2 (ch_value x.1)) xs →
  Forall (λ x, if is_object then known_child x else ch_name x.1 = []) xs →
  Forall (λ x, (oson_height (ch_value x.1) <= h)%nat) xs → oson_height v = S h →
  canon v = (let children := map (λ x, (ch_name x.1, canon (ch_value x.1))) xs in
             if is_object then JObject children else JArray (map snd children)) →
  decodes off e v.
Proof.
  intros is_object e Hty Hoff Hsize Hel Hch Hdec Hnm Hhs Hh Hcanon data tree Hf Ht Hat.
  pose proof Hat as Hat'. unfold e in Hat'. rewrite app_assoc in Hat'. apply at_pos_app in Hat' as [Hfr Hbody].
  rewrite <- Z.add_assoc in Hbody. pose proof (chain_at data tree xs _ Hch Hbody) as Hpos.
  pose proof (Zlen_nonneg (front ty is_object xs ++ off_slots xs)) as Hnn.
  assert (Forall (child_ok is_object data tree) (map fst xs)) as Hok.
  { apply Forall_map. eapply Forall_impl; [|exact (Forall_and (Forall_and Hpos Hdec) Hnm)].
    cbv beta. intros x [[[Hx Hle] Hd] Hn]. pose proof (at_pos_bound _ _ _ Hx) as Hb. pose proof (Zlen_nonneg x.2).
    destruct Hf as [Hf1 Hf2]. split; [lia|]. split; [lia|]. split; [apply Hd; [by split|done|done]|].
    by destruct is_object. }
  assert (offs_of (map fst xs) = off_slots xs) as Hoffs.
  { unfold offs_of, off_slots. rewrite map_map. f_equal. apply map_ext_in. intros x Hx.
    rewrite Forall_map, Forall_forall in Hok.
    destruct (Hok x Hx) as [Ho _]. by rewrite as_u_32. }
  assert (Zlen (map fst xs) = Zlen xs) as Hlen by (unfold Zlen; by rewrite length_map).
  apply (container_node data tree off ty (map fst xs) v h); rewrite ?Hlen; try done.
  - fold is_object. rewrite Hoffs. unfold front in Hfr. rewrite <- app_comm_cons, <- app_assoc in Hfr.
    replace (ids_of is_object (map fst xs)) with (if is_object then id_slots xs else []); [done|].
    unfold ids_of, id_slots. by rewrite map_map.
  - by apply Forall_map.
  - rewrite Hcanon. fold is_object. cbn zeta. by rewrite !map_map.
Qed.

Lemma array_writes vs :
  Forall writes_node vs → Zlen vs <= max_object_elements l → writes_node (JArray vs).
Proof.
  intros Hvs Hel b. set (hdr := container_type TNS_JSON_TYPE_ARRAY (Zlen vs) :: count_bytes (Zlen vs)).
  destruct (elements_run vs Hvs (b ++ hdr) []) as (xs & Hmap & Hnm & Hch & Hrun & Hok).
  rewrite !app_nil_r in *. cbn [app] in *.
  assert (Zlen xs = Zlen vs) as Hlen by (rewrite <- Hmap; unfold Zlen; by rewrite length_map).
  exists (hdr ++ off_slots xs ++ bodies xs). split.
  - cbn [encode_node]. rewrite st_bindE, container_header_run, st_bindE, getsE, st_bindE.
    unfold grow, extend. rewrite modifyE. fold hdr.
    replace (Z.to_nat (Zlen vs * 4)) with (4 * length vs)%nat by (unfold Zlen; lia).
    rewrite Hrun. by rewrite <- app_assoc.
  - intros Hsize. replace hdr with (front TNS_JSON_TYPE_ARRAY false xs) in *
      by (unfold front; by rewrite Hlen, app_nil_r).
    apply (slots_decode TNS_JSON_TYPE_ARRAY xs (JArray vs) (list_max (map oson_height vs)));
      cbn [Z.eqb TNS_JSON_TYPE_ARRAY TNS_JSON_TYPE_OBJECT Pos.eqb].
    + by right.
    + apply Zlen_nonneg.
    + by rewrite <- Zlen_app.
    + by rewrite Hlen.
    + rewrite !Zlen_app, Zlen_off_slots, Hlen in *. rewrite Zlen_nil, Z.add_0_r in Hch. by rewrite Z.add_assoc.
    + apply Hok. by rewrite <- app_assoc.
    + done.
    + rewrite <- Hmap. rewrite map_map. apply (list_max_above _ (λ x, oson_height (ch_value x.1))).
    + done.
    + cbn [canon]. rewrite <- Hmap. by rewrite !map_map.
Qed.

Lemma object_writes es :
  Forall (λ e, writes_node e.2 ∧ is_Some (dict !! e.1)) es → Zlen es <= max_object_elements l →
  writes_node (JObject es).
Proof.
  intros Hes Hel b. set (hdr := container_type TNS_JSON_TYPE_OBJECT (Zlen es) :: count_bytes (Zlen es)).
  destruct (entries_run es Hes (b ++ hdr) [] []) as (xs & Hmap & Hnm & Hch & Hrun & Hok).
  rewrite !app_nil_r in *. cbn [app] in *. rewrite !Zlen_nil, !Z.add_0_r in *.
  assert (Zlen xs = Zlen es) as Hlen by (rewrite <- Hmap; unfold Zlen; by rewrite length_map).
  exists (hdr ++ id_slots xs ++ off_slots xs ++ bodies xs). split.
  - cbn [encode_node]. rewrite st_bindE, container_header_run, st_bindE, getsE. cbn zeta. rewrite st_bindE.
    unfold grow, extend. rewrite modifyE. fold hdr.
    replace (Z.to_nat (Zlen es * w + Zlen es * 4)) with (Z.to_nat w * length es + 4 * length es)%nat
      by (unfold Zlen; lia).
    rewrite repeat_app, (Z.mul_comm (Zlen es)), Hrun. by rewrite <- app_assoc.
  - intros Hsize.
    assert (hdr ++ id_slots xs ++ off_slots xs ++ bodies xs =
      front TNS_JSON_TYPE_OBJECT true xs ++ off_slots xs ++ bodies xs) as He.
    { unfold front. rewrite Hlen. fold hdr. rewrite <- app_comm_cons, <- app_assoc. done. }
    rewrite He in *.
    apply (slots_decode TNS_JSON_TYPE_OBJECT xs (JObject es) (list_max (map (λ e, oson_height e.2) es)));
      cbn [Z.eqb TNS_JSON_TYPE_OBJECT Pos.eqb].
    + by left.
    + apply Zlen_nonneg.
    + by rewrite <- Zlen_app.
    + by rewrite Hlen.
    + replace (Zlen b + _) with (Zlen (b ++ hdr) + w * Zlen es + 4 * Zlen es); [done|].
      unfold front. rewrite Hlen. rewrite !Zlen_app, Zlen_cons, Zlen_app, Zlen_off_slots, Zlen_id_slots, Hlen.
      unfold hdr. rewrite Zlen_cons. lia.
    + apply Hok. by rewrite <- app_assoc, He.
    + done.
    + rewrite <- Hmap, map_map. apply (list_max_above _ (λ x, oson_height (ch_value x.1))).
    + done.
    + cbn [canon]. rewrite <- Hmap. by rewrite !map_map.
Qed.

(** Every admissible value whose names the dictionary knows. *)
Lemma node_writes v :
  oson_ok l max_name v = true → Forall (λ k, is_Some (dict !! k)) (oson_keys v) → writes_node v.
Proof.
  induction v as [v Hc|vs IH|es IH] using oson_nested_ind; intros Hok Hkeys.
  - intros b. destruct (scalar_writes v Hc Hok b) as (e & He & Hs). exists e. split; [done|].
    intros Hsize. apply scalar_decodes; [done|]. apply Hs. rewrite Zlen_app in Hsize.
    pose proof (Zlen_nonneg b). lia.
  - cbn [oson_ok oson_keys] in *. apply andb_true_iff in Hok as [Hel Hok].
    apply array_writes; [|lia]. rewrite forallb_forall in Hok. rewrite Forall_concat, Forall_map in Hkeys.
    rewrite Forall_forall in *. intros x Hx. by apply IH; [|apply Hok|apply Hkeys].
  - cbn [oson_ok oson_keys] in *. apply andb_true_iff in Hok as [Hel Hok].
    apply object_writes; [|lia]. rewrite forallb_forall in Hok. rewrite Forall_concat, Forall_map in Hkeys.
    rewrite Forall_forall in *. intros x Hx. specialize (Hkeys x Hx). cbn in Hkeys. apply Forall_cons_iff in Hkeys as [Hk Hks].
    split; [|done]. apply IH; [done| |done].
    specialize (Hok x). rewrite !andb_true_iff in Hok. by apply Hok.
Qed.
End Nodes.
