(* ===== verification/OsonImage.v ===== *)
(** * OSON images round trip

    The field names: the encoder collects each once, sorts and numbers them, and
    writes them so that the decoder's list holds each name at its number.  With the
    nodes of [OsonTree] this gives that decoding an image restores the value. *)

From stdpp Require Import gmap sorting.
From S2P Require Import Prelude.
From S2P Require Import Protocol.
From S2P Require Import Limits.
From S2P Require Import Reader.
From S2P Require Import Vector.
From S2P Require Import Oson.
From S2P Require Import OsonTree.

(** ** Collecting names *)

(** How a name lies in the buffer of its segment. *)
Definition name_prefix (name : bytes) : bytes :=
  if Zlen name <=? 255 then [as_u 8 (Zlen name)] else to_be_bytes 2 (as_u 16 (Zlen name)).

Definition placed (buffer : bytes) (f : FieldName) : Prop :=
  at_pos buffer (fn_offset f) (name_prefix (fn_name f) ++ fn_name f) ∧ utf8_valid (fn_name f) = true.

Definition segment_ok (long : bool) (seg : FieldNamesSegment) : Prop :=
  Forall (λ f, placed (fs_buffer seg) f ∧
               (if long then 255 < Zlen (fn_name f) <= 65535 else Zlen (fn_name f) <= 255))
    (fs_field_names seg) ∧ (fs_field_names seg = [] → fs_buffer seg = []).

Definition known (e : OsonEncoder) : list FieldName :=
  segment_names (oe_short_fnames_seg e) ++ segment_names (oe_long_fnames_seg e).

Definition known_names (e : OsonEncoder) : list bytes := map fn_name (known e).

Lemma at_pos_extend buffer p x y : at_pos buffer p x → at_pos (buffer ++ y) p x.
Proof. intros (a & z & -> & Hp). exists a, (z ++ y). by rewrite <- !app_assoc. Qed.

Lemma placed_extend buffer y f : placed buffer f → placed (buffer ++ y) f.
Proof. intros [H ?]. split; [by apply at_pos_extend|done]. Qed.

Lemma add_name_ok long seg f :
  segment_ok long seg → utf8_valid (fn_name f) = true →
  (if long then 255 < Zlen (fn_name f) <= 65535 else Zlen (fn_name f) <= 255) →
  segment_ok long (add_name f seg).
Proof.
  intros [Hs _] Hu Hl. unfold segment_ok, add_name. cbn [fs_buffer fs_field_names].
  split; [|by destruct (fs_field_names seg)]. apply Forall_app. split.
  - eapply Forall_impl; [|exact Hs]. cbv beta. intros g [Hg ?]. split; [by apply placed_extend|done].
  - constructor; [|constructor]. split; [|done]. split; [|done]. cbn [fn_offset fn_set_offset fn_name].
    exists (fs_buffer seg), []. by rewrite app_nil_r.
Qed.

Lemma add_name_names seg f :
  map fn_name (fs_field_names (add_name f seg)) = map fn_name (fs_field_names seg) ++ [fn_name f].
Proof. unfold add_name. cbn [fs_field_names]. by rewrite map_app. Qed.

Section Collect.
Context (max_name : Z) (Hmax : max_name <= 65535).

Record collected (e : OsonEncoder) : Prop := {
  col_buffer : oe_buffer e = [];
  col_num : oe_num_field_names e = 0;
  col_max : oe_max_fname_size e = max_name;
  col_short : ∃ seg, oe_short_fnames_seg e = Some seg ∧ segment_ok false seg;
  col_long : ∀ seg, oe_long_fnames_seg e = Some seg → segment_ok true seg ∧ fs_field_names seg ≠ [];
  col_nodup : NoDup (known_names e);
  col_dict : ∀ k, is_Some (oe_field_names_dict e !! k) ↔ k ∈ known_names e
}.

(** [m] collects the names [ks]. *)
Definition collects (ks : list bytes) (m : EncM ()) : Prop := ∀ e, collected e → ∃ e',
  m e = (Ok (), e') ∧ collected e' ∧ ∀ k, k ∈ known_names e' ↔ k ∈ known_names e ∨ k ∈ ks.

Lemma collects_nil : collects [] (mret ()).
Proof. intros e He. exists e. split; [done|]. split; [done|]. set_solver. Qed.

Lemma collects_bind ks1 ks2 (m1 m2 : EncM ()) :
  collects ks1 m1 → collects ks2 m2 → collects (ks1 ++ ks2) (m1 ≫= λ _, m2).
Proof.
  intros H1 H2 e He. destruct (H1 e He) as (e1 & Hr1 & He1 & Hk1). destruct (H2 e1 He1) as (e2 & Hr2 & He2 & Hk2).
  exists e2. rewrite st_bindE, Hr1. split; [done|]. split; [done|].
  intros k. rewrite Hk2, Hk1, elem_of_app. tauto.
Qed.

Lemma collects_each {A} (f : A → EncM ()) (g : A → list bytes) xs :
  Forall (λ x, collects (g x) (f x)) xs → collects (concat (map g xs)) (for_each f xs).
Proof.
  induction 1 as [|x xs Hx _ IH]; [apply collects_nil|]. cbn [map concat for_each]. by apply collects_bind.
Qed.

Lemma add_field_name_collects name :
  utf8_valid name = true → Zlen name <= max_name → collects [name] (add_field_name name).
Proof.
  intros Hutf Hlen e He. pose proof He as [Hb Hn Hm (ss & Hss & Hsok) Hl Hnd Hd].
  unfold add_field_name. st_run. case_bool_decide as Hin.
  { exists e. split; [done|]. split; [done|]. intros k. rewrite list_elem_of_singleton.
    apply Hd in Hin. naive_solver. }
  assert (name ∉ known_names e) as Hnew by (by rewrite <- Hd).
  st_run. unfold FieldName_new. rewrite Hm, (proj2 (Z.ltb_ge _ _)) by done. st_run. cbn [fn_name].
  set (f := mkFieldName name (calc_hash_id name) 0 0).
  set (e1 := upd_dict <[name := f]> e).
  assert (∀ e', known_names e' ≡ₚ name :: known_names e →
    oe_field_names_dict e' = <[name := f]> (oe_field_names_dict e) →
    NoDup (known_names e') ∧ (∀ k, is_Some (oe_field_names_dict e' !! k) ↔ k ∈ known_names e') ∧
    ∀ k, k ∈ known_names e' ↔ k ∈ known_names e ∨ k ∈ [name]) as Hfresh.
  { intros e' Hp Hdic. split; [rewrite Hp; by constructor|]. split.
    - intros k. rewrite Hdic, Hp, elem_of_cons, <- Hd, lookup_insert_is_Some. 
      destruct (decide (name = k)); naive_solver.
    - intros k. rewrite Hp. set_solver. }
  destruct (Z.leb_spec (Zlen name) 255) as [Hs|Hs]; st_run; eexists; (split; [reflexivity|]).
  - set (e' := set_short _ e1). destruct (Hfresh e') as (H1 & H2 & H3); [|done|].
    { unfold known_names, known. cbn [oe_short_fnames_seg oe_long_fnames_seg set_short upd_dict e' e1 segment_names].
      rewrite Hss. cbn [default segment_names]. rewrite !map_app, add_name_names. cbn [fn_name f].
      rewrite <- app_assoc. cbn [app]. by rewrite <- Permutation_middle. }
    split; [|done]. constructor; try done. cbn [oe_short_fnames_seg set_short e']. eexists. split; [done|].
    cbn [oe_short_fnames_seg upd_dict e1]. rewrite Hss. by apply add_name_ok.
  - set (e' := set_long _ e1). destruct (Hfresh e') as (H1 & H2 & H3); [|done|].
    { unfold known_names, known. cbn [oe_short_fnames_seg oe_long_fnames_seg set_long upd_dict e' e1 segment_names].
      rewrite !map_app, add_name_names. cbn [fn_name f].
      replace (segment_names (oe_long_fnames_seg e))
        with (fs_field_names (default segment_new (oe_long_fnames_seg e))) by (by destruct (oe_long_fnames_seg e)).
      rewrite app_assoc. symmetry. apply Permutation_cons_append. }
    split; [|done]. constructor; try done. { by exists ss. }
    intros seg. cbn [oe_long_fnames_seg set_long e' e1 upd_dict]. intros [= <-].
    split; [|unfold add_name; cbn [fs_field_names]; by destruct (fs_field_names _)].
    apply add_name_ok; [|done|cbn [fn_name f]; lia].
    destruct (oe_long_fnames_seg e) as [ls|]; [by apply Hl|by split].
Qed.

Lemma examine_collects l v : oson_ok l max_name v = true → collects (oson_keys v) (examine_node v).
Proof.
  induction v as [v Hc|vs IH|es IH] using oson_nested_ind; intros Hok.
  - destruct v; try discriminate; apply collects_nil.
  - cbn [oson_ok oson_keys examine_node] in *. apply andb_true_iff in Hok as [_ Hok].
    rewrite forallb_forall in Hok. apply collects_each. rewrite Forall_forall in *. intros x Hx.
    by apply IH; [|apply Hok].
  - cbn [oson_ok oson_keys examine_node] in *. apply andb_true_iff in Hok as [_ Hok].
    rewrite forallb_forall in Hok. apply collects_each. rewrite Forall_forall in *. intros [k x] Hx.
    specialize (Hok _ Hx). cbn [fst snd] in *. rewrite !andb_true_iff in Hok. destruct Hok as [[Hu Hk] Hx'].
    apply (collects_bind [k]); [apply add_field_name_collects; [done|lia]|by apply (IH (k, x) Hx)].
Qed.
End Collect.

(** ** Numbering *)

Fixpoint renumber (id : Z) (fs : list FieldName) : list FieldName :=
  match fs with
  | [] => []
  | f :: fs => fn_set_field_id id f :: renumber (id + 1) fs
  end.

Lemma renumber_names id fs : map fn_name (renumber id fs) = map fn_name fs.
Proof. revert id. induction fs as [|f fs IH]; intros id; [done|]. cbn. by rewrite IH. Qed.

Lemma renumber_length id fs : length (renumber id fs) = length fs.
Proof. revert id. induction fs; intros id; cbn; [done|]. by f_equal. Qed.

Lemma renumber_app id fs gs : renumber id (fs ++ gs) = renumber id fs ++ renumber (id + Zlen fs) gs.
Proof.
  revert id. induction fs as [|f fs IH]; intros id; cbn [app renumber].
  - by rewrite Zlen_nil, Z.add_0_r.
  - rewrite IH, Zlen_cons. do 3 f_equal. lia.
Qed.

Lemma renumber_lookup id fs i f :
  renumber id fs !! i = Some f → fn_field_id f = id + Z.of_nat i ∧ map fn_name fs !! i = Some (fn_name f).
Proof.
  revert id i. induction fs as [|g fs IH]; intros id [|i]; cbn; try done.
  - intros [= <-]. cbn. split; [lia|done].
  - intros [H1 H2]%IH. split; [lia|done].
Qed.

(** [segment_ok] does not look at the numbers or the order. *)
Lemma segment_ok_renumber long seg id n fs :
  segment_ok long seg → fs ≡ₚ fs_field_names seg →
  segment_ok long (mkSegment (fs_buffer seg) (renumber id fs) n).
Proof.
  unfold segment_ok. cbn [fs_buffer fs_field_names]. intros [Hs Hnil] Hp. split.
  - rewrite <- Hp in Hs. clear Hp. revert id.
    induction Hs as [|f fs Hf _ IH]; intros id; constructor; [exact Hf|apply IH].
  - intros H. apply Hnil. apply (f_equal length) in H. rewrite renumber_length, Hp in H.
    by destruct (fs_field_names seg).
Qed.

Lemma number_names_run off fs : ∀ index,
  0 <= index → 0 <= off → off + index + Zlen fs <= U32_MAX →
  number_names index off fs = Ok (renumber (off + index + 1) fs).
Proof.
  induction fs as [|f fs IH]; intros index Hi Ho Hlen; [done|]. cbn [number_names renumber].
  rewrite Zlen_cons in Hlen. pose proof (Zlen_nonneg fs). rewrite as_u_32 by lia. st_run.
  rewrite arith_in by lia. st_run. rewrite arith_in by lia. st_run. rewrite IH by lia. st_run.
  by replace (off + (index + 1) + 1) with (off + index + 1 + 1) by lia.
Qed.

Lemma process_field_names_run off seg :
  0 <= off → off + Zlen (fs_field_names seg) <= U32_MAX →
  ∃ fs, fs ≡ₚ fs_field_names seg ∧
    process_field_names off seg =
      Ok (mkSegment (fs_buffer seg) (renumber (off + 1) fs) (Zlen (fs_field_names seg))).
Proof.
  intros Ho Hlen. exists (merge_sort name_le (fs_field_names seg)).
  assert (merge_sort name_le (fs_field_names seg) ≡ₚ fs_field_names seg) as Hp by apply merge_sort_Permutation.
  split; [done|]. pose proof (Permutation_length Hp) as Hl. pose proof (Zlen_nonneg (fs_field_names seg)).
  unfold process_field_names. rewrite number_names_run by (unfold Zlen in *; lia). st_run.
  rewrite Z.add_0_r. do 2 f_equal. unfold Zlen in *. rewrite renumber_length, Hl. by rewrite as_u_32 by lia.
Qed.

(** ** Numbers in the dictionary *)

Lemma sync_lookup_ne d f k : fn_name f ≠ k → sync_name d f !! k = d !! k.
Proof. intros. unfold sync_name. by rewrite lookup_alter_ne. Qed.

Lemma foldl_sync_is_Some fs : ∀ d k, is_Some (foldl sync_name d fs !! k) ↔ is_Some (d !! k).
Proof.
  induction fs as [|f fs IH]; intros d k; [done|]. cbn [foldl]. rewrite IH. unfold sync_name.
  apply lookup_alter_is_Some.
Qed.

Lemma foldl_sync_other fs : ∀ d k, k ∉ map fn_name fs → foldl sync_name d fs !! k = d !! k.
Proof.
  induction fs as [|f fs IH]; intros d k Hk; [done|]. cbn [foldl map] in *.
  rewrite not_elem_of_cons in Hk. destruct Hk as [Hne Hk]. rewrite IH by done.
  by apply sync_lookup_ne.
Qed.

Lemma foldl_sync_id fs : ∀ d f x,
  NoDup (map fn_name fs) → f ∈ fs → foldl sync_name d fs !! fn_name f = Some x → fn_field_id x = fn_field_id f.
Proof.
  induction fs as [|g fs IH]; intros d f x Hnd Hf Hx; [by apply elem_of_nil in Hf|].
  cbn [map foldl] in *. apply list.NoDup_cons in Hnd as [Hg Hnd]. apply elem_of_cons in Hf as [ -> |Hf]; [|by eapply IH].
  rewrite foldl_sync_other in Hx by done. unfold sync_name in Hx. rewrite lookup_alter_eq in Hx.
  destruct (d !! fn_name g); [|done]. cbn in Hx. by injection Hx as <-.
Qed.

(** ** What the encoder knows once the names are numbered *)

Definition id_width (n : Z) : Z := if 65535 <? n then 4 else if 255 <? n then 2 else 1.

Definition processed_segment (long : bool) (seg : FieldNamesSegment) : Prop :=
  segment_ok long seg ∧ fs_num_field_names seg = Zlen (fs_field_names seg).

Record numbered (v : OsonValue) (e : OsonEncoder) : Prop := {
  num_buffer : oe_buffer e = [];
  num_short : ∃ seg, oe_short_fnames_seg e = Some seg ∧ processed_segment false seg;
  num_long : ∀ seg, oe_long_fnames_seg e = Some seg →
    processed_segment true seg ∧ fs_field_names seg ≠ [];
  num_width : oe_field_id_size e = id_width (Zlen (known_names e));
  num_dict : ∀ k f, oe_field_names_dict e !! k = Some f →
    1 <= fn_field_id f <= Zlen (known_names e) ∧
    known_names e !! Z.to_nat (fn_field_id f - 1) = Some k;
  num_keys : Forall (λ k, is_Some (oe_field_names_dict e !! k)) (oson_keys v);
  num_count : Zlen (known_names e) <= Zlen (remove_dups (oson_keys v))
}.

(** The dictionary after the numbers are copied back. *)
Lemma sync_dict (d : FieldDict) fs :
  NoDup (map fn_name fs) → (∀ k, is_Some (d !! k) → k ∈ map fn_name fs) →
  ∀ k f, foldl sync_name d (renumber 1 fs) !! k = Some f →
    1 <= fn_field_id f <= Zlen (map fn_name fs) ∧ map fn_name fs !! Z.to_nat (fn_field_id f - 1) = Some k.
Proof.
  intros Hnd Hd k f Hf. assert (k ∈ map fn_name fs) as Hk.
  { apply Hd, (foldl_sync_is_Some (renumber 1 fs)). by eexists. }
  rewrite <- (renumber_names 1) in Hk. apply list_elem_of_fmap in Hk as (g & -> & Hg).
  rewrite (foldl_sync_id (renumber 1 fs) d g f) by (done || by rewrite renumber_names).
  apply list_elem_of_lookup in Hg as [i Hi]. apply renumber_lookup in Hi as [Hid Hnm].
  rewrite Hid. pose proof (lookup_lt_Some _ _ _ Hnm) as Hlt. unfold Zlen. split; [lia|].
  by replace (Z.to_nat (1 + Z.of_nat i - 1)) with i by lia.
Qed.

Lemma names_count e (ks : list bytes) :
  NoDup (known_names e) → (∀ k, k ∈ known_names e → k ∈ ks) → Zlen (known_names e) <= Zlen (remove_dups ks).
Proof.
  intros Hnd Hk. unfold Zlen. apply Nat2Z.inj_le. apply submseteq_length, NoDup_submseteq; [done|].
  intros k Hin. apply elem_of_remove_dups. by apply Hk.
Qed.

Lemma process_segment_run (get : OsonEncoder → option FieldNamesSegment) set base e seg :
  get e = Some seg → (∀ x, oe_num_field_names (set x e) = oe_num_field_names e) →
  0 <= base e → base e + Zlen (fs_field_names seg) <= U32_MAX →
  0 <= oe_num_field_names e → oe_num_field_names e + Zlen (fs_field_names seg) <= U32_MAX →
  ∃ fs, fs ≡ₚ fs_field_names seg ∧
    process_segment get set base e =
      (Ok (), set_num_names (oe_num_field_names e + Zlen (fs_field_names seg))
        (set (Some (mkSegment (fs_buffer seg) (renumber (base e + 1) fs) (Zlen (fs_field_names seg)))) e)).
Proof.
  intros Hg Hset Hb Hb2 Hn Hn2. destruct (process_field_names_run (base e) seg) as (fs & Hp & Hr); [done..|].
  exists fs. split; [done|]. unfold process_segment. rewrite st_bindE, getsE, Hg.
  rewrite st_bindE, getsE. rewrite st_bindE, liftE, Hr. st_run. rewrite Hset.
  cbn [fs_num_field_names]. pose proof (Zlen_nonneg (fs_field_names seg)). by rewrite arith_in by lia.
Qed.

Lemma processed long seg id fs :
  segment_ok long seg → fs ≡ₚ fs_field_names seg →
  processed_segment long (mkSegment (fs_buffer seg) (renumber id fs) (Zlen (fs_field_names seg))).
Proof.
  intros Hok Hp. split; [by apply segment_ok_renumber|]. cbn. unfold Zlen. by rewrite renumber_length, Hp.
Qed.

(** Both segments processed and the dictionary synchronised. *)
Lemma process_run max_name e :
  collected max_name e → Zlen (known_names e) <= U32_MAX →
  ∃ e' fs, (_ ← process_segment oe_short_fnames_seg set_short (λ _, 0);
            _ ← process_segment oe_long_fnames_seg set_long oe_num_field_names;
            modify sync_field_ids) e = (Ok (), e') ∧
    known e' = renumber 1 fs ∧ map fn_name fs ≡ₚ known_names e ∧
    oe_field_names_dict e' = foldl sync_name (oe_field_names_dict e) (renumber 1 fs) ∧
    oe_buffer e' = [] ∧ oe_num_field_names e' = Zlen fs ∧
    (∃ seg, oe_short_fnames_seg e' = Some seg ∧ processed_segment false seg) ∧
    (∀ seg, oe_long_fnames_seg e' = Some seg → processed_segment true seg ∧ fs_field_names seg ≠ []).
Proof.
  intros [Hb Hn Hm (ss & Hss & Hsok) Hl Hnd Hd] Hcount.
  set (ln := segment_names (oe_long_fnames_seg e)).
  assert (known_names e = map fn_name (fs_field_names ss) ++ map fn_name ln) as Hkn
    by (unfold known_names, known; by rewrite Hss, map_app).
  assert (Zlen (fs_field_names ss) + Zlen ln <= U32_MAX) as Hc.
  { rewrite Hkn in Hcount. unfold Zlen in *. rewrite length_app, !length_map in Hcount. lia. }
  pose proof (Zlen_nonneg ln). pose proof (Zlen_nonneg (fs_field_names ss)).
  destruct (process_segment_run oe_short_fnames_seg set_short (λ _, 0) e ss) as (fs1 & Hp1 & Hr1); [done|done|lia..|].
  assert (Zlen fs1 = Zlen (fs_field_names ss)) as Hl1 by (unfold Zlen; by rewrite Hp1).
  rewrite st_bindE, Hr1, Hn, Z.add_0_l. set (e1 := set_num_names _ _).
  destruct (oe_long_fnames_seg e) as [ls|] eqn:Els; cbn [segment_names] in ln.
  - destruct (Hl ls eq_refl) as [Hlok Hne].
    destruct (process_segment_run oe_long_fnames_seg set_long oe_num_field_names e1 ls) as (fs2 & Hp2 & Hr2);
      [done|done|cbn; unfold ln in *; lia..|].
    rewrite st_bindE, Hr2, modifyE. cbn [oe_num_field_names e1 set_num_names].
    eexists _, (fs1 ++ fs2). split; [reflexivity|]. rewrite renumber_app, Hl1.
    replace (1 + Zlen (fs_field_names ss)) with (Zlen (fs_field_names ss) + 1) by lia.
    split; [done|]. split; [by rewrite Hkn, map_app, Hp1, Hp2|]. split; [done|]. split; [done|].
    split; [cbn; rewrite Zlen_app, Hl1; unfold Zlen at 4; by rewrite Hp2|]. split.
    + eexists. split; [done|]. by apply processed.
    + intros seg [= <-]. split; [by apply processed|]. cbn. intros Hnil. apply (f_equal length) in Hnil.
      rewrite renumber_length, Hp2 in Hnil. by destruct (fs_field_names ls).
  - assert (process_segment oe_long_fnames_seg set_long oe_num_field_names e1 = (Ok (), e1)) as Hr2
      by (unfold process_segment; st_run; cbn [oe_long_fnames_seg e1 set_short set_num_names]; by rewrite Els).
    rewrite st_bindE, Hr2, modifyE. eexists _, fs1. split; [reflexivity|].
    unfold known, sync_field_ids. cbn. rewrite Els. cbn. rewrite app_nil_r.
    split; [done|]. split; [by rewrite Hkn, Hp1, app_nil_r|]. split; [done|]. split; [done|]. split; [done|].
    split; [|done]. eexists. split; [done|]. by apply processed.
Qed.

Lemma bind3_assoc {S A} (a b c : ST ProtocolError S ()) (k : ST ProtocolError S A) s :
  (_ ← a; _ ← b; _ ← c; k) s = ((_ ← a; _ ← b; c) ≫= λ _, k) s.
Proof. rewrite !st_bindE. destruct (a s) as [[]]; try done. rewrite !st_bindE. by destruct (b s0) as [[]]. Qed.

Definition base_flags : Z :=
  Z.lor TNS_JSON_FLAG_INLINE_LEAF (Z.lor TNS_JSON_FLAG_HASH_ID_UINT8 TNS_JSON_FLAG_TINY_NODES_STAT).

Definition container_flags (n seg_len : Z) : Z :=
  let flags := if 65535 <? n then Z.lor base_flags TNS_JSON_FLAG_NUM_FNAMES_UINT32
               else if 255 <? n then Z.lor base_flags TNS_JSON_FLAG_NUM_FNAMES_UINT16 else base_flags in
  if 65535 <? seg_len then Z.lor flags TNS_JSON_FLAG_FNAMES_SEG_UINT32 else flags.

Definition short_buffer (e : OsonEncoder) : bytes :=
  match oe_short_fnames_seg e with Some seg => fs_buffer seg | None => [] end.

Lemma flags_run l v max_name :
  is_container v = true → oson_ok l max_name v = true → max_name <= 65535 →
  Zlen (remove_dups (oson_keys v)) <= U32_MAX →
  ∃ e, determine_flags v (OsonEncoder_new max_name) =
      (Ok (container_flags (Zlen (known_names e)) (Zlen (short_buffer e))), e) ∧ numbered v e.
Proof.
  intros Hc Hok Hmax Hcount. unfold determine_flags. rewrite Hc. cbn [negb].
  rewrite st_bindE, modifyE. set (e0 := set_short (Some segment_new) (OsonEncoder_new max_name)).
  assert (collected max_name e0) as He0.
  { constructor; try done.
    - exists segment_new. split; [done|by split].
    - constructor.
    - intros k. cbn. rewrite lookup_empty, elem_of_nil. split; [by intros [? [=]]|done]. }
  destruct (examine_collects max_name Hmax l v Hok e0 He0) as (e1 & Hr1 & He1 & Hk1).
  rewrite st_bindE, Hr1. cbn beta iota.
  assert (∀ k, k ∈ known_names e1 ↔ k ∈ oson_keys v) as Hk.
  { intros k. rewrite Hk1. cbn. rewrite elem_of_nil. tauto. }
  pose proof (names_count e1 (oson_keys v) (col_nodup _ _ He1) (λ k, proj1 (Hk k))) as Hc1.
  destruct (process_run max_name e1 He1) as (e2 & fs & Hr2 & Hfs & Hp & Hd & Hb & Hn & Hs & Hl); [lia|].
  rewrite bind3_assoc, st_bindE, Hr2. cbn beta iota. rewrite st_bindE, getsE, Hn.
  assert (known_names e2 = map fn_name fs) as Hk2 by (unfold known_names; by rewrite Hfs, renumber_names).
  assert (Zlen fs = Zlen (map fn_name fs)) as Hlen by (unfold Zlen; by rewrite length_map).
  set (n := Zlen fs). set (e3 := set_id_size (id_width n) e2).
  assert ((if 65535 <? n then _ ← modify (set_id_size 4); mret (Z.lor base_flags TNS_JSON_FLAG_NUM_FNAMES_UINT32)
           else if 255 <? n then _ ← modify (set_id_size 2); mret (Z.lor base_flags TNS_JSON_FLAG_NUM_FNAMES_UINT16)
           else _ ← modify (set_id_size 1); mret base_flags) e2 =
          (@Ok ProtocolError Z (if 65535 <? n then Z.lor base_flags TNS_JSON_FLAG_NUM_FNAMES_UINT32
               else if 255 <? n then Z.lor base_flags TNS_JSON_FLAG_NUM_FNAMES_UINT16 else base_flags), e3)) as Hif
    by (unfold e3, id_width; destruct (65535 <? n), (255 <? n); done).
  fold base_flags. rewrite st_bindE, Hif. rewrite st_bindE, getsE, st_retE.
  destruct Hs as (seg & Hseg & Hsok). change (oe_short_fnames_seg e3) with (oe_short_fnames_seg e2). rewrite Hseg.
  assert (known_names e3 = map fn_name fs) as Hk3 by exact Hk2.
  exists e3. rewrite Hk3, <- Hlen. fold n.
  split; [unfold container_flags, short_buffer; change (oe_short_fnames_seg e3) with (oe_short_fnames_seg e2); by rewrite Hseg|].
  constructor; rewrite ?Hk3, <- ?Hlen; try done.
  - by exists seg.
  - change (oe_field_names_dict e3) with (oe_field_names_dict e2). rewrite Hd, Hlen.
    apply sync_dict; [rewrite Hp; apply He1|]. intros k Hin. rewrite Hp. by apply (col_dict _ _ He1).
  - change (oe_field_names_dict e3) with (oe_field_names_dict e2). rewrite Hd, Forall_forall.
    intros k Hin. apply list_elem_of_In in Hin.
    apply foldl_sync_is_Some, (col_dict _ _ He1). by apply Hk.
  - rewrite Hlen. unfold Zlen in *. rewrite Hp. lia.
Qed.

(** ** Writing the header *)

Definition wrote (e : OsonEncoder) (b : bytes) : OsonEncoder := upd_buffer (λ buffer, buffer ++ b) e.

Lemma wrote_app e a b : wrote (wrote e a) b = wrote e (a ++ b).
Proof. unfold wrote, upd_buffer. cbn. by rewrite app_assoc. Qed.

Lemma put_run b e : put b e = (Ok (), wrote e b).
Proof. done. Qed.

Lemma for_each_put {A} (f : A → EncM ()) (g : A → bytes) xs :
  (∀ x e, f x e = (Ok (), wrote e (g x))) → ∀ e, for_each f xs e = (Ok (), wrote e (concat (map g xs))).
Proof.
  intros Hf. induction xs as [|x xs IH]; intros e; cbn [for_each map concat].
  - unfold wrote, upd_buffer. destruct e; cbn. by rewrite app_nil_r.
  - rewrite st_bindE, Hf, IH. by rewrite wrote_app.
Qed.

Definition length_bytes (n : Z) : bytes :=
  if n <? 65536 then to_be_bytes 2 (as_u 16 n) else to_be_bytes 4 (as_u 32 n).

Lemma put_length_run n e : put_length n e = (Ok (), wrote e (length_bytes n)).
Proof. unfold put_length, length_bytes. by destruct (n <? 65536). Qed.

Definition hash_bytes (f : FieldName) : bytes :=
  if Zlen (fn_name f) <=? 255 then [Z.land (fn_hash_id f) 255] else to_be_bytes 2 (Z.land (fn_hash_id f) 65535).

Definition offset_bytes (seg_len : Z) (f : FieldName) : bytes :=
  if seg_len <? 65536 then to_be_bytes 2 (as_u 16 (fn_offset f)) else to_be_bytes 4 (as_u 32 (fn_offset f)).

Definition seg_bytes (seg : FieldNamesSegment) : bytes :=
  concat (map hash_bytes (fs_field_names seg)) ++
  concat (map (offset_bytes (Zlen (fs_buffer seg))) (fs_field_names seg)) ++ fs_buffer seg.

Lemma write_fnames_run seg e : write_fnames_seg_for (Some seg) e = (Ok (), wrote e (seg_bytes seg)).
Proof.
  unfold write_fnames_seg_for. rewrite st_bindE, (for_each_put _ hash_bytes)
    by (intros f x; unfold put_hash_id, hash_bytes; by destruct (_ <=? _)).
  rewrite st_bindE, (for_each_put _ (offset_bytes (Zlen (fs_buffer seg))))
    by (intros f x; unfold offset_bytes; by destruct (_ <? _)).
  rewrite wrote_app. unfold seg_bytes. destruct (Z.ltb_spec 0 (Zlen (fs_buffer seg))).
  - rewrite put_run, wrote_app. by rewrite <- app_assoc.
  - destruct (fs_buffer seg) as [|b bs]; [by rewrite app_nil_r|].
    rewrite Zlen_cons in *. pose proof (Zlen_nonneg bs). lia.
Qed.

Definition long_header (long : option FieldNamesSegment) : bytes :=
  match long with
  | None => []
  | Some seg =>
      to_be_bytes 2 (if Zlen (fs_buffer seg) <? 65536 then TNS_JSON_FLAG_SEC_FNAMES_SEG_UINT16 else 0) ++
      to_be_bytes 4 (fs_num_field_names seg) ++ to_be_bytes 4 (as_u 32 (Zlen (fs_buffer seg)))
  end.

(** A count in the width of a field id. *)
Definition count_in (w n : Z) : bytes :=
  if w =? 1 then [as_u 8 n] else if w =? 2 then to_be_bytes 2 (as_u 16 n) else to_be_bytes 4 n.

Definition extended_bytes (e : OsonEncoder) (short : FieldNamesSegment) : bytes :=
  count_in (oe_field_id_size e) (fs_num_field_names short) ++ length_bytes (Zlen (fs_buffer short)) ++
  long_header (oe_long_fnames_seg e).

Lemma extended_header_run e short b :
  oe_short_fnames_seg e = Some short →
  write_extended_header (wrote e b) = (Ok (), wrote e (b ++ extended_bytes e short)).
Proof.
  intros Hs. unfold write_extended_header. rewrite st_bindE, getsE.
  change (oe_short_fnames_seg (wrote e b)) with (oe_short_fnames_seg e). rewrite Hs. cbn zeta.
  rewrite st_bindE, getsE. change (oe_field_id_size (wrote e b)) with (oe_field_id_size e).
  set (w := oe_field_id_size e).
  assert ((if w =? 1 then put_u8 (as_u 8 (fs_num_field_names short))
           else if w =? 2 then put_u16be (as_u 16 (fs_num_field_names short))
           else put_u32be (fs_num_field_names short)) (wrote e b) =
          (Ok (), wrote (wrote e b) (count_in w (fs_num_field_names short)))) as Hc
    by (unfold count_in; by destruct (w =? 1), (w =? 2)).
  rewrite st_bindE, Hc, st_bindE, put_length_run, st_bindE, getsE, !wrote_app.
  match goal with |- context [oe_long_fnames_seg (wrote e ?x)] =>
    change (oe_long_fnames_seg (wrote e x)) with (oe_long_fnames_seg e) end.
  unfold extended_bytes, long_header. fold w.
  destruct (oe_long_fnames_seg e) as [ls|]; [|by rewrite ?app_nil_r, <- ?app_assoc].
  rewrite st_bindE. unfold put_u16be, put_u32be. rewrite put_run, st_bindE, put_run, put_run, !wrote_app.
  by rewrite <- ?app_assoc.
Qed.

(** The image of a container. *)
Definition container_image (e : OsonEncoder) (short : FieldNamesSegment) (flags : Z) (tree : bytes) : bytes :=
  [TNS_JSON_MAGIC_BYTE_1; TNS_JSON_MAGIC_BYTE_2; TNS_JSON_MAGIC_BYTE_3;
   if bool_decide (is_Some (oe_long_fnames_seg e)) then TNS_JSON_VERSION_MAX_FNAME_65535
   else TNS_JSON_VERSION_MAX_FNAME_255] ++ to_be_bytes 2 flags ++
  extended_bytes e short ++ length_bytes (Zlen tree) ++ to_be_bytes 2 0 ++ seg_bytes short ++
  (match oe_long_fnames_seg e with Some seg => seg_bytes seg | None => [] end) ++ tree.

Definition name_limit (supports_long_fnames : bool) : Z :=
  if supports_long_fnames then MAX_FNAME_SIZE_LONG else MAX_FNAME_SIZE_SHORT.

Definition with_tree_flag (flags : Z) (tree : bytes) : Z :=
  if 65535 <? Zlen tree then Z.lor flags TNS_JSON_FLAG_TREE_SEG_UINT32 else flags.

Lemma wrote_short e b : oe_short_fnames_seg (wrote e b) = oe_short_fnames_seg e.
Proof. done. Qed.
Lemma wrote_long e b : oe_long_fnames_seg (wrote e b) = oe_long_fnames_seg e.
Proof. done. Qed.

Lemma encode_container_run v long flags e short tree :
  determine_flags v (OsonEncoder_new (name_limit long)) = (Ok flags, e) →
  oe_buffer e = [] → oe_short_fnames_seg e = Some short →
  encode_node (oe_field_names_dict e) (oe_field_id_size e) v [] = (Ok (), tree) →
  encode_oson v long = Ok (container_image e short (with_tree_flag flags tree) tree).
Proof.
  intros Hflags Hb Hs Htree. unfold encode_oson, encode. fold (name_limit long).
  rewrite st_bindE, modifyE. change (set_max_fname _ _) with (OsonEncoder_new (name_limit long)).
  rewrite st_bindE, Hflags, st_bindE. unfold encode_tree. rewrite Htree. cbn [mbind result_bind].
  fold (with_tree_flag flags tree). unfold put_u8, put_u16be.
  do 3 rewrite st_bindE, put_run. rewrite st_bindE, getsE, st_bindE, put_run, st_bindE, put_run.
  rewrite st_bindE, getsE. rewrite !wrote_short, !wrote_long, Hs, bool_decide_true by eauto.
  rewrite !wrote_app, st_bindE, extended_header_run with (short := short) by done.
  rewrite st_bindE, put_length_run, wrote_app, st_bindE.
  match goal with |- context [wrote e ?p] => set (pre := p) end.
  assert ((_ ← put (to_be_bytes 2 0);
           _ ← write_fnames_seg_for (Some short);
           if bool_decide (is_Some (oe_long_fnames_seg e)) then write_fnames_seg_for (oe_long_fnames_seg e)
           else mret ()) (wrote e pre) =
          (Ok (), wrote e (pre ++ to_be_bytes 2 0 ++ seg_bytes short ++
             match oe_long_fnames_seg e with Some seg => seg_bytes seg | None => [] end))) as Hsegs.
  { rewrite st_bindE, put_run, st_bindE, write_fnames_run, !wrote_app.
    destruct (oe_long_fnames_seg e) as [ls|].
    - rewrite bool_decide_true by eauto. by rewrite write_fnames_run, wrote_app, <- !app_assoc.
    - rewrite bool_decide_false by (by intros [? [=]]). rewrite app_nil_r. done. }
  rewrite Hsegs. rewrite st_bindE, put_run, getsE, wrote_app. cbn [fst]. f_equal.
  unfold wrote, upd_buffer, container_image, pre. cbn [oe_buffer]. rewrite Hb. cbn [app].
  by repeat rewrite <- app_assoc.
Qed.

(** ** Reading the names back *)

Definition len_size (long : bool) : Z := if long then 2 else 1.
Definition off_width (seg_len : Z) : Z := if seg_len <? 65536 then 2 else 4.

Lemma name_at_run (long : bool) seg f :
  placed (fs_buffer seg) f → (if long then 255 < Zlen (fn_name f) <= 65535 else Zlen (fn_name f) <= 255) →
  Zlen (fs_buffer seg) <= U32_MAX →
  name_at (fs_buffer seg) (len_size long) (fn_offset f) = Ok (fn_name f).
Proof.
  intros [Hat Hutf] Hlen Hmax. pose proof (at_pos_bound _ _ _ Hat) as Hb. rewrite Zlen_app in Hb.
  apply at_pos_app in Hat as [Hp Hn]. unfold name_prefix in *. unfold name_at.
  pose proof (Zlen_nonneg (fn_name f)). unfold USIZE_MAX, U64_MAX, U32_MAX in *.
  destruct long; cbn [len_size Z.eqb Pos.eqb].
  - rewrite (proj2 (Z.leb_gt _ _)) in * by lia. rewrite Zlen_to_be_bytes in *.
    rewrite as_u_16 in Hp by (unfold U16_MAX; lia).
    set (v := Zlen (fn_name f)) in *.
    change (to_be_bytes 2 v) with ([v / 256 mod 256] ++ [v mod 256]) in Hp.
    apply at_pos_app in Hp as [H1 H2]. apply at_pos_nth in H1, H2. change (Zlen [_]) with 1 in H2.
    rewrite H1. st_run. rewrite H2. st_run.
    replace (from_be_bytes [_; _]) with v.
    2:{ change [v / 256 mod 256; v mod 256] with (to_be_bytes 2 v).
        rewrite from_to_be_bytes; [done|]. change (256 ^ Z.of_nat 2) with 65536. lia. }
    rewrite try_range_in by lia. st_run. change (Z.of_nat 2) with 2 in *. unfold v.
    rewrite at_pos_slice by done. st_run. by rewrite Hutf.
  - rewrite (proj2 (Z.leb_le _ _)) in * by lia. change (Zlen [_]) with 1 in *.
    rewrite as_u_8 in Hp by lia. apply at_pos_nth in Hp. rewrite Hp. st_run.
    rewrite try_range_in by lia. st_run. rewrite at_pos_slice by done. st_run. by rewrite Hutf.
Qed.

Section Decoding.
Context (l : ProtocolLimits) (Hu : limits_usize l) (Hv : limits_valid l).
Context (data : bytes) (Hfits : fits l data).

Lemma read_names_run (long : bool) seg fs : ∀ p,
  Zlen (fs_buffer seg) <= U32_MAX →
  Forall (λ f, placed (fs_buffer seg) f ∧
               (if long then 255 < Zlen (fn_name f) <= 65535 else Zlen (fn_name f) <= 255)) fs →
  at_pos data p (concat (map (offset_bytes (Zlen (fs_buffer seg))) fs)) →
  read_names (length fs) (fs_buffer seg) (off_width (Zlen (fs_buffer seg))) (len_size long) (rdr l data p) =
    (Ok (map fn_name fs), rdr l data (p + off_width (Zlen (fs_buffer seg)) * Zlen fs)).
Proof.
  pose proof (fits_max l _ Hfits) as [Hm1 Hm2].
  induction fs as [|f fs IH]; intros p Hmax Hok Hat.
  { cbn. by rewrite Z.mul_0_r, Z.add_0_r. }
  apply Forall_cons_iff in Hok as [[Hpl Hsz] Hok]. cbn [map concat length read_names] in *.
  apply at_pos_app in Hat as [H1 H2]. unfold read_name.
  pose proof (at_pos_bound _ _ _ (proj1 Hpl)) as Hb. rewrite Zlen_app in Hb.
  pose proof (Zlen_nonneg (name_prefix (fn_name f))). pose proof (Zlen_nonneg (fn_name f)).
  assert ((if off_width (Zlen (fs_buffer seg)) =? 2 then oson_read_u16be else oson_read_u32be) (rdr l data p) =
    (Ok (fn_offset f), rdr l data (p + off_width (Zlen (fs_buffer seg))))) as Hoff.
  { unfold off_width, offset_bytes in *. destruct (Z.ltb_spec (Zlen (fs_buffer seg)) 65536); cbn [Z.eqb Pos.eqb].
    - rewrite as_u_16 in H1 by (unfold U16_MAX; lia).
      rewrite (read_u16_parses l data Hm1 Hm2 (fn_offset f)) by (done || unfold U16_MAX; lia).
      by rewrite Zlen_to_be_bytes.
    - rewrite as_u_32 in H1 by lia.
      rewrite (read_u32_parses l data Hm1 Hm2 (fn_offset f)) by (done || lia). by rewrite Zlen_to_be_bytes. }
  rewrite !st_bindE, Hoff, liftE, name_at_run by done. rewrite st_bindE.
  assert (Zlen (offset_bytes (Zlen (fs_buffer seg)) f) = off_width (Zlen (fs_buffer seg))) as Hl
    by (unfold offset_bytes, off_width; destruct (_ <? _); apply Zlen_to_be_bytes).
  rewrite Hl in H2. rewrite IH by done. rewrite st_retE. do 2 f_equal. rewrite Zlen_cons. lia.
Qed.

Lemma reserve_rdr n p :
  n <= max_object_elements l → ∃ c, oson_reserve n (rdr l data p) = (Ok c, rdr l data p).
Proof.
  intros Hn. eexists. unfold oson_reserve, with_capacity_limited, check_object_elements.
  cbn [protocol_limits oson_bounded_reader or_limits rdr]. by rewrite check_ok by done.
Qed.

Lemma Zlen_offsets seg_len fs : Zlen (concat (map (offset_bytes seg_len) fs)) = off_width seg_len * Zlen fs.
Proof.
  apply Zlen_concat_const. intros f. unfold offset_bytes, off_width.
  destruct (_ <? _); apply Zlen_to_be_bytes.
Qed.

Lemma Zlen_hashes long seg :
  segment_ok long seg →
  Zlen (concat (map hash_bytes (fs_field_names seg))) = len_size long * Zlen (fs_field_names seg).
Proof.
  intros [Hok _]. induction Hok as [|f fs [_ Hf] _ IH]; cbn [map concat]; [by rewrite Z.mul_0_r|].
  rewrite Zlen_app, IH, Zlen_cons. unfold hash_bytes, len_size in *. destruct long.
  - rewrite (proj2 (Z.leb_gt _ _)), Zlen_to_be_bytes by lia. lia.
  - rewrite (proj2 (Z.leb_le _ _)) by lia. change (Zlen [_]) with 1. lia.
Qed.

Lemma read_field_names_run long seg p :
  segment_ok long seg → Zlen (fs_field_names seg) <= max_object_elements l →
  at_pos data p (seg_bytes seg) →
  read_field_names (Zlen (fs_field_names seg)) (len_size long) (off_width (Zlen (fs_buffer seg))) (len_size long)
    (Zlen (fs_buffer seg)) (rdr l data p) =
  (Ok (map fn_name (fs_field_names seg)), rdr l data (p + Zlen (seg_bytes seg))).
Proof.
  intros Hok Hel Hat. pose proof (fits_max l _ Hfits) as [Hm1 Hm2].
  pose proof (at_pos_bound _ _ _ Hat) as Hb. destruct Hfits as [_ H32].
  unfold seg_bytes in *. set (fs := fs_field_names seg) in *. set (n := Zlen fs) in *.
  set (b := Zlen (fs_buffer seg)) in *. apply at_pos_app in Hat as [Hh Hat].
  apply at_pos_app in Hat as [Ho Hs]. rewrite !Zlen_app in *.
  pose proof (Zlen_hashes long seg Hok) as Hlh. fold fs n in Hlh. rewrite !Hlh in *.
  rewrite Zlen_offsets in *. fold n in Hb, Ho, Hs |- *. fold b in Hb |- *.
  assert (0 <= n) as Hn by apply Zlen_nonneg. assert (0 <= b) as Hb0 by apply Zlen_nonneg.
  assert (1 <= len_size long <= 2) by (unfold len_size; destruct long; lia).
  assert (2 <= off_width b <= 4) by (unfold off_width; destruct (_ <? _); lia).
  unfold read_field_names, usize, oson_skip, USIZE_MAX, U64_MAX, U32_MAX in *.
  rewrite st_bindE, liftE, (Z.mul_comm n (len_size long)), arith_in by nia.
  rewrite !st_bindE, (oson_raw_parses l data Hm1 Hm2 _ _ Hlh) by done. rewrite st_retE, Hlh.
  rewrite st_bindE, getsE. cbn [or_pos rdr]. rewrite st_bindE, liftE, (Z.mul_comm n (off_width b)), arith_in by nia.
  rewrite !st_bindE, (oson_raw_parses l data Hm1 Hm2 _ _ (Zlen_offsets b fs)) by done. rewrite st_retE, Zlen_offsets.
  fold n. rewrite st_bindE, (oson_raw_parses l data Hm1 Hm2 (fs_buffer seg)) by done.
  rewrite st_bindE, getsE. cbn [or_pos rdr]. fold b. rewrite st_bindE, seek_run by nia.
  rewrite st_bindE. destruct (reserve_rdr n (p + len_size long * n) Hel) as [c ->]. rewrite st_bindE.
  replace (Z.to_nat n) with (length fs) by (unfold n, Zlen; lia).
  pose proof (read_names_run long seg fs (p + len_size long * n)) as Hr. fold b n in Hr.
  rewrite Hr; [|unfold U32_MAX; nia|apply Hok|done].
  rewrite st_bindE. rewrite (seek_run l data _ _) by nia. rewrite st_retE. do 2 f_equal. lia.
Qed.

(** ** Reading the header back *)

Lemma oparses_map_err {A} (m : OReaderM A) e a err : oparses l data m e a → oparses l data (map_err m err) e a.
Proof. intros Hm p Hat. unfold map_err. by rewrite (Hm p Hat). Qed.

Lemma preamble_parses version flags :
  version = TNS_JSON_VERSION_MAX_FNAME_255 ∨ version = TNS_JSON_VERSION_MAX_FNAME_65535 →
  0 <= flags <= U16_MAX →
  oparses l data read_preamble
    ([TNS_JSON_MAGIC_BYTE_1; TNS_JSON_MAGIC_BYTE_2; TNS_JSON_MAGIC_BYTE_3; version] ++ to_be_bytes 2 flags)
    (version, flags).
Proof.
  intros Hver Hflags. pose proof (fits_max l _ Hfits) as [Hm1 Hm2].
  apply (oparses_bind l data _ _ [255; 74; 90] (version :: to_be_bytes 2 flags) [255; 74; 90]).
  { by apply oparses_map_err, oson_raw_parses. }
  do 3 (eapply oparses_bind_nil; [by apply oparses_lift|]). cbn [negb orb Z.eqb Pos.eqb TNS_JSON_MAGIC_BYTE_1
    TNS_JSON_MAGIC_BYTE_2 TNS_JSON_MAGIC_BYTE_3].
  apply (oparses_bind l data _ _ [version] (to_be_bytes 2 flags) version).
  { by apply oparses_map_err, oson_u8_parses. }
  replace (negb (version =? _) && negb (version =? _)) with false by (by destruct Hver as [ -> | -> ]).
  eapply oparses_last; [by apply oparses_map_err, read_u16_parses|]. apply oparses_ret.
Qed.

Lemma size_parses flags flag n :
  has_flag flags flag = (65535 <? n) → 0 <= n <= U32_MAX →
  oparses l data (read_size flags flag) (length_bytes n) n.
Proof.
  intros Hf Hn. pose proof (fits_max l _ Hfits) as [Hm1 Hm2]. unfold read_size, length_bytes. rewrite Hf.
  destruct (Z.ltb_spec 65535 n).
  - rewrite (proj2 (Z.ltb_ge _ _)), as_u_32 by lia. by apply read_u32_parses.
  - rewrite (proj2 (Z.ltb_lt _ _)), as_u_16 by (unfold U16_MAX; lia).
    apply read_u16_parses; [done..|unfold U16_MAX; lia].
Qed.

Lemma image_flags n seg_len tree :
  let flags := with_tree_flag (container_flags n seg_len) tree in
  0 <= flags <= U16_MAX ∧ has_flag flags TNS_JSON_FLAG_IS_SCALAR = false ∧
  has_flag flags TNS_JSON_FLAG_REL_OFFSET_MODE = false ∧
  has_flag flags TNS_JSON_FLAG_NUM_FNAMES_UINT32 = (65535 <? n) ∧
  has_flag flags TNS_JSON_FLAG_NUM_FNAMES_UINT16 = ((255 <? n) && negb (65535 <? n)) ∧
  has_flag flags TNS_JSON_FLAG_FNAMES_SEG_UINT32 = (65535 <? seg_len) ∧
  has_flag flags TNS_JSON_FLAG_TREE_SEG_UINT32 = (65535 <? Zlen tree).
Proof.
  unfold with_tree_flag, container_flags.
  destruct (65535 <? n), (255 <? n), (65535 <? seg_len), (65535 <? Zlen tree); by vm_compute.
Qed.

(** The header that [extended_bytes] announces. *)
Definition header_of (e : OsonEncoder) (short : FieldNamesSegment) (tree : bytes) : OsonHeader :=
  let '(num_long, long_offsets, long_size) :=
    match oe_long_fnames_seg e with
    | Some seg => (fs_num_field_names seg, off_width (Zlen (fs_buffer seg)), Zlen (fs_buffer seg))
    | None => (0, 0, 0)
    end in
  mkOsonHeader (fs_num_field_names short) (oe_field_id_size e) (off_width (Zlen (fs_buffer short)))
    (Zlen (fs_buffer short)) num_long long_offsets long_size (Zlen tree).

Lemma off_width_if n : off_width n = if 65535 <? n then 4 else 2.
Proof. unfold off_width. destruct (Z.ltb_spec n 65536), (Z.ltb_spec 65535 n); lia. Qed.

Lemma extended_header_parses e short tree n flags version :
  oe_field_id_size e = id_width n → 0 <= fs_num_field_names short <= n → n <= U32_MAX →
  Zlen (fs_buffer short) <= U32_MAX → Zlen tree <= U32_MAX →
  (∀ seg, oe_long_fnames_seg e = Some seg →
     0 <= fs_num_field_names seg <= U32_MAX ∧ Zlen (fs_buffer seg) <= U32_MAX) →
  flags = with_tree_flag (container_flags n (Zlen (fs_buffer short))) tree →
  version = (if bool_decide (is_Some (oe_long_fnames_seg e)) then TNS_JSON_VERSION_MAX_FNAME_65535
             else TNS_JSON_VERSION_MAX_FNAME_255) →
  oparses l data (read_extended_header version flags)
    (extended_bytes e short ++ length_bytes (Zlen tree) ++ to_be_bytes 2 0) (header_of e short tree).
Proof.
  intros Hw Hs Hn Hsb Ht Hlong -> Hver. pose proof (fits_max l _ Hfits) as [Hm1 Hm2].
  destruct (image_flags n (Zlen (fs_buffer short)) tree) as (_ & _ & _ & H32 & H16 & Hseg & Htree).
  set (flags := with_tree_flag _ tree) in *. pose proof (Zlen_nonneg (fs_buffer short)). pose proof (Zlen_nonneg tree).
  unfold extended_bytes. rewrite <- !app_assoc. unfold read_extended_header.
  apply (oparses_bind l data _ _ (count_in _ _) _ (fs_num_field_names short, oe_field_id_size e)).
  { rewrite H32, H16, Hw. unfold id_width. destruct (Z.ltb_spec 65535 n); [|destruct (Z.ltb_spec 255 n)];
      cbn [andb negb count_in Z.eqb Pos.eqb]; unfold count_in; cbn [Z.eqb Pos.eqb].
    - eapply oparses_last; [apply read_u32_parses; [done..|lia]|apply oparses_ret].
    - rewrite as_u_16 by (unfold U16_MAX; lia).
      eapply oparses_last; [apply read_u16_parses; [done..|unfold U16_MAX; lia]|apply oparses_ret].
    - rewrite as_u_8 by lia. eapply oparses_last; [by apply oson_u8_parses|apply oparses_ret]. }
  apply (oparses_bind l data _ _ (length_bytes _) _ (off_width (Zlen (fs_buffer short)), Zlen (fs_buffer short))).
  { rewrite Hseg, off_width_if. unfold length_bytes. destruct (Z.ltb_spec 65535 (Zlen (fs_buffer short))).
    - rewrite (proj2 (Z.ltb_ge _ _)), as_u_32 by lia.
      eapply oparses_last; [apply read_u32_parses; [done..|lia]|apply oparses_ret].
    - rewrite (proj2 (Z.ltb_lt _ _)), as_u_16 by (unfold U16_MAX; lia).
      eapply oparses_last; [apply read_u16_parses; [done..|unfold U16_MAX; lia]|apply oparses_ret]. }
  apply (oparses_bind l data _ _ (long_header _) _
    (match oe_long_fnames_seg e with
     | Some seg => (fs_num_field_names seg, off_width (Zlen (fs_buffer seg)), Zlen (fs_buffer seg))
     | None => (0, 0, 0)
     end)).
  { rewrite Hver. destruct (oe_long_fnames_seg e) as [ls|]; [|apply oparses_ret].
    destruct (Hlong ls eq_refl) as [Hl1 Hl2]. pose proof (Zlen_nonneg (fs_buffer ls)).
    rewrite bool_decide_true by eauto. cbn [Z.eqb Pos.eqb long_header TNS_JSON_VERSION_MAX_FNAME_65535].
    eapply oparses_bind; [apply read_u16_parses; [done..|destruct (_ <? 65536); unfold U16_MAX, TNS_JSON_FLAG_SEC_FNAMES_SEG_UINT16; lia]|].
    eapply oparses_bind; [by apply read_u32_parses|].
    eapply oparses_last; [apply read_u32_parses; [done..|rewrite as_u_32 by lia; lia]|].
    rewrite as_u_32 by lia. unfold off_width.
    destruct (Zlen (fs_buffer ls) <? 65536); apply oparses_ret. }
  unfold header_of. destruct (match oe_long_fnames_seg e with Some _ => _ | None => _ end) as [[nl lo] ls].
  eapply oparses_bind; [apply size_parses; [exact Htree|lia]|].
  eapply oparses_last; [by apply read_u16_parses|]. apply oparses_ret.
Qed.

(** ** The whole image *)

Lemma rd_dst {A} (m : OReaderM A) w ns tree p d res p' :
  m (rdr l data p) = (res, rdr l data p') → rd m (dst l w ns data tree p d) = (res, dst l w ns data tree p' d).
Proof. intros H. unfold rd, dst. cbn [od_reader]. fold (rdr l data p). by rewrite H. Qed.

Lemma read_segment_run w ns d long seg p :
  processed_segment long seg → Zlen (fs_field_names seg) <= max_object_elements l →
  at_pos data p (seg_bytes seg) →
  read_segment (fs_num_field_names seg) (len_size long) (off_width (Zlen (fs_buffer seg))) (len_size long)
    (Zlen (fs_buffer seg)) (dst l w ns data 0 p d) =
  (Ok (), dst l w (ns ++ map fn_name (fs_field_names seg)) data 0 (p + Zlen (seg_bytes seg)) d).
Proof.
  intros [Hok Hnum] Hel Hat. unfold read_segment. rewrite Hnum.
  destruct (Z.ltb_spec 0 (Zlen (fs_field_names seg))).
  - rewrite st_bindE, (rd_dst _ _ _ _ _ _ _ _ (read_field_names_run long seg p Hok Hel Hat)). done.
  - destruct Hok as [_ Hnil]. unfold seg_bytes. destruct (fs_field_names seg) as [|f fs].
    + rewrite Hnil by done. cbn [map concat app]. rewrite app_nil_r. change (Zlen (@nil Z)) with 0.
      by rewrite Z.add_0_r.
    + rewrite Zlen_cons in *. pose proof (Zlen_nonneg fs). lia.
Qed.
End Decoding.

Definition long_bytes (e : OsonEncoder) : bytes :=
  match oe_long_fnames_seg e with Some seg => seg_bytes seg | None => [] end.

Lemma at_pos_self (b : bytes) : at_pos b 0 b.
Proof. exists [], []. by rewrite app_nil_r. Qed.

Section Image.
Context (l : ProtocolLimits) (Hu : limits_usize l) (Hv : limits_valid l).
Context (v : OsonValue) (e : OsonEncoder) (short : FieldNamesSegment) (tree : bytes).
Context (Hnum : numbered v e) (Hshort : oe_short_fnames_seg e = Some short).
Context (Hcount : Zlen (known_names e) <= max_object_elements l) (Hcount32 : Zlen (known_names e) <= U32_MAX).
Let flags := with_tree_flag (container_flags (Zlen (known_names e)) (Zlen (fs_buffer short))) tree.
Let img := container_image e short flags tree.
Context (Hfits : fits l img).

Lemma counts :
  processed_segment false short ∧ 0 <= fs_num_field_names short <= Zlen (known_names e) ∧
  Zlen (fs_field_names short) <= Zlen (known_names e) ∧
  (∀ seg, oe_long_fnames_seg e = Some seg →
     processed_segment true seg ∧ 0 <= fs_num_field_names seg <= Zlen (known_names e) ∧
     Zlen (fs_field_names seg) <= Zlen (known_names e)) ∧
  oh_num_short (header_of e short tree) + oh_num_long (header_of e short tree) = Zlen (known_names e).
Proof.
  destruct Hnum as [_ (ss & Hss & Hsok) Hlong _ _ _ _]. rewrite Hshort in Hss. injection Hss as <-.
  unfold header_of. unfold known_names, known. rewrite Hshort. cbn [segment_names]. rewrite map_app, Zlen_app.
  assert (∀ fs, Zlen (map fn_name fs) = Zlen fs) as Hm by (intros; unfold Zlen; by rewrite length_map).
  rewrite !Hm. pose proof (Zlen_nonneg (fs_field_names short)).
  pose proof (Zlen_nonneg (segment_names (oe_long_fnames_seg e))). split; [done|].
  destruct Hsok as [_ Hns]. split; [lia|]. split; [lia|].
  destruct (oe_long_fnames_seg e) as [ls|]; cbn [segment_names oh_num_short oh_num_long] in *.
  - destruct (Hlong ls eq_refl) as [[Hl1 Hl2] _]. split; [|lia]. intros seg [= <-]. split; [by split|lia].
  - split; [done|]. change (Zlen (@nil FieldName)) with 0. lia.
Qed.

Lemma image_segments :
  at_pos img 0 ([TNS_JSON_MAGIC_BYTE_1; TNS_JSON_MAGIC_BYTE_2; TNS_JSON_MAGIC_BYTE_3;
      if bool_decide (is_Some (oe_long_fnames_seg e)) then TNS_JSON_VERSION_MAX_FNAME_65535
      else TNS_JSON_VERSION_MAX_FNAME_255] ++ to_be_bytes 2 flags) ∧
  let hdr := extended_bytes e short ++ length_bytes (Zlen tree) ++ to_be_bytes 2 0 in
  at_pos img 6 hdr ∧ at_pos img (6 + Zlen hdr) (seg_bytes short) ∧
  at_pos img (6 + Zlen hdr + Zlen (seg_bytes short)) (long_bytes e) ∧
  at_pos img (6 + Zlen hdr + Zlen (seg_bytes short) + Zlen (long_bytes e)) tree ∧
  6 + Zlen hdr + Zlen (seg_bytes short) + Zlen (long_bytes e) + Zlen tree = Zlen img.
Proof.
  cbn zeta. set (hdr := extended_bytes e short ++ length_bytes (Zlen tree) ++ to_be_bytes 2 0).
  set (pre := [_; _; _; _] ++ to_be_bytes 2 flags).
  assert (img = pre ++ hdr ++ seg_bytes short ++ long_bytes e ++ tree) as Himg.
  { unfold img, container_image, pre, hdr. fold (long_bytes e). by repeat rewrite <- app_assoc. }
  assert (Zlen pre = 6) as Hpre by (unfold pre; by rewrite Zlen_app, Zlen_to_be_bytes).
  pose proof (at_pos_self img) as Hat. rewrite Himg in Hat at 2.
  apply at_pos_app in Hat as [H1 Hat]. rewrite Hpre in Hat. apply at_pos_app in Hat as [H2 Hat].
  apply at_pos_app in Hat as [H3 Hat]. apply at_pos_app in Hat as [H4 H5].
  split; [done|]. split; [done|]. split; [done|]. split; [done|]. split; [done|].
  rewrite Himg, !Zlen_app, Hpre. lia.
Qed.

Lemma buffers_fit :
  Zlen (fs_buffer short) <= U32_MAX ∧ Zlen tree <= U32_MAX ∧
  (∀ seg, oe_long_fnames_seg e = Some seg → Zlen (fs_buffer seg) <= U32_MAX).
Proof.
  destruct image_segments as (_ & _ & H3 & H4 & H5 & _). destruct Hfits as [_ H32].
  assert (∀ seg, Zlen (fs_buffer seg) <= Zlen (seg_bytes seg)) as Hseg.
  { intros seg. unfold seg_bytes. rewrite !Zlen_app.
    pose proof (Zlen_nonneg (concat (map hash_bytes (fs_field_names seg)))).
    pose proof (Zlen_nonneg (concat (map (offset_bytes (Zlen (fs_buffer seg))) (fs_field_names seg)))). lia. }
  apply at_pos_bound in H3, H4, H5. pose proof (Hseg short). split; [lia|]. split; [lia|].
  intros seg Hl. unfold long_bytes in H4. rewrite Hl in H4. pose proof (Hseg seg). lia.
Qed.

Lemma decode_tree_run fuel w p :
  let hdr := extended_bytes e short ++ length_bytes (Zlen tree) ++ to_be_bytes 2 0 in
  let pos := 6 + Zlen hdr + Zlen (seg_bytes short) + Zlen (long_bytes e) in
  p = 6 + Zlen hdr →
  decode_tree fuel (header_of e short tree) (dst l w [] img 0 p 0) =
  decode_node fuel (dst l w (known_names e) img pos pos 0).
Proof.
  intros hdr pos ->. destruct image_segments as (_ & _ & H3 & H4 & H5 & Hlen). fold hdr in H3, H4, H5, Hlen.
  destruct counts as (Hs & Hsn & Hsc & Hl & _). unfold decode_tree.
  replace (oh_num_short (header_of e short tree)) with (fs_num_field_names short)
    by (unfold header_of; by destruct (oe_long_fnames_seg e)).
  replace (oh_short_offsets_size (header_of e short tree)) with (off_width (Zlen (fs_buffer short)))
    by (unfold header_of; by destruct (oe_long_fnames_seg e)).
  replace (oh_short_seg_size (header_of e short tree)) with (Zlen (fs_buffer short))
    by (unfold header_of; by destruct (oe_long_fnames_seg e)).
  replace (oh_tree_seg_size (header_of e short tree)) with (Zlen tree)
    by (unfold header_of; by destruct (oe_long_fnames_seg e)).
  rewrite st_bindE, (read_segment_run l img Hfits w [] 0 false short) by (done || lia).
  assert (read_segment (oh_num_long (header_of e short tree)) 2 (oh_long_offsets_size (header_of e short tree)) 2
     (oh_long_seg_size (header_of e short tree))
     (dst l w ([] ++ map fn_name (fs_field_names short)) img 0 (6 + Zlen hdr + Zlen (seg_bytes short)) 0) =
     (Ok (), dst l w (known_names e) img 0 pos 0)) as Hlong.
  { unfold known_names, known, header_of, pos, long_bytes in *. rewrite Hshort, map_app. cbn [segment_names app].
    destruct (oe_long_fnames_seg e) as [ls|]; cbn [oh_num_long oh_long_offsets_size oh_long_seg_size segment_names].
    - destruct (Hl ls eq_refl) as (Hp & _ & Hc).
      rewrite (read_segment_run l img Hfits w _ 0 true ls) by (done || lia). done.
    - unfold read_segment. cbn [map]. rewrite app_nil_r. change (Zlen (@nil Z)) with 0. by rewrite Z.add_0_r. }
  rewrite st_bindE, Hlong. rewrite st_bindE. unfold rd at 1. cbn [od_reader dst gets or_data].
  rewrite st_bindE. unfold rd at 1. cbn [od_reader od_set_reader dst gets or_pos].
  rewrite st_bindE, liftE. unfold validate_tree_segment_extent.
  destruct Hfits as [_ H32]. pose proof (at_pos_bound _ _ _ H5) as Hbnd.
  pose proof (Zlen_nonneg tree). fold pos in Hlen, Hbnd.
  rewrite try_range_in by (unfold USIZE_MAX, U64_MAX, U32_MAX in *; lia). st_run.
  rewrite Hlen, Z.ltb_irrefl, Z.eqb_refl. cbn [negb]. st_run. done.
Qed.

Lemma decode_image_container fuel :
  ∃ d, (decode_oson_image fuel (mkOsonReader img 0 l)) =
    (let '(res, s) := decode_node fuel
       (dst l (oe_field_id_size e) (known_names e) img (Zlen img - Zlen tree) (Zlen img - Zlen tree) 0) in
     (res, d s)).
Proof.
  destruct image_segments as (H1 & H2 & _ & _ & _ & Hlen). destruct counts as (_ & Hsn & _ & Hl & Hsum).
  destruct buffers_fit as (Hb1 & Hb2 & Hb3).
  destruct (image_flags (Zlen (known_names e)) (Zlen (fs_buffer short)) tree) as (Hf16 & Hfs & Hfr & _). fold flags in Hf16, Hfs, Hfr.
  exists od_reader. unfold decode_oson_image. fold (rdr l img 0). rewrite st_bindE.
  set (version := if bool_decide (is_Some (oe_long_fnames_seg e)) then _ else _) in H1.
  assert (version = TNS_JSON_VERSION_MAX_FNAME_255 ∨ version = TNS_JSON_VERSION_MAX_FNAME_65535) as Hver
    by (unfold version; destruct (bool_decide _); [by right|by left]).
  rewrite (preamble_parses l img Hfits version flags Hver Hf16 0 H1).
  cbn beta iota. rewrite Hfs, Hfr. change (0 + Zlen _) with 6. rewrite st_bindE.
  rewrite (extended_header_parses l img Hfits e short tree (Zlen (known_names e)) flags version);
    [|apply Hnum|done|done|done|done| |done|done|done].
  2:{ intros seg Hseg. destruct (Hl seg Hseg) as (_ & ? & _). split; [lia|by apply Hb3]. }
  rewrite st_bindE. unfold saturating_usize. rewrite Hsum, Z.min_r by (unfold USIZE_MAX, U64_MAX, U32_MAX in *; lia).
  destruct (reserve_rdr l img (Zlen (known_names e))
    (6 + Zlen (extended_bytes e short ++ length_bytes (Zlen tree) ++ to_be_bytes 2 0)) Hcount) as [c ->].
  unfold into_decoder.
  replace (oh_field_id_length (header_of e short tree)) with (oe_field_id_size e)
    by (unfold header_of; by destruct (oe_long_fnames_seg e)).
  match goal with |- context [decode_tree fuel _ ?s] =>
    change s with (dst l (oe_field_id_size e) [] img 0
      (6 + Zlen (extended_bytes e short ++ length_bytes (Zlen tree) ++ to_be_bytes 2 0)) 0) end.
  rewrite decode_tree_run by done.
  replace (6 + _ + _ + _) with (Zlen img - Zlen tree) by lia. done.
Qed.
End Image.

(** ** Round trip *)

Lemma id_width_cases n : id_width n = 1 ∨ id_width n = 2 ∨ id_width n = 4.
Proof. unfold id_width. destruct (65535 <? n); [|destruct (255 <? n)]; auto. Qed.

Lemma id_width_wide n : n <= U32_MAX → n < 256 ^ id_width n.
Proof.
  unfold id_width, U32_MAX. intros. destruct (Z.ltb_spec 65535 n); [|destruct (Z.ltb_spec 255 n)]; cbn; lia.
Qed.

Lemma decode_start l data : limits_usize l → limits_valid l → fits l data →
  decode_oson_with_limits data l = (decode_oson_image (decode_fuel l) (mkOsonReader data 0 l)).1.
Proof.
  intros Hu Hv [Hf _]. unfold decode_oson_with_limits, check_response_bytes, oson_with_limits.
  rewrite check_ok by done. st_run. by rewrite validate_valid_ok.
Qed.

Lemma max_depth_pos l : limits_valid l → 0 < max_object_depth l.
Proof. intros [H _]. unfold named_limits in H. rewrite !Forall_cons_iff in H. cbn in H. tauto. Qed.

Lemma container_roundtrip l v long :
  limits_usize l → limits_valid l → is_container v = true → oson_ok l (name_limit long) v = true →
  Z.of_nat (oson_height v) <= max_object_depth l →
  Zlen (remove_dups (oson_keys v)) <= max_object_elements l → Zlen (remove_dups (oson_keys v)) <= U32_MAX →
  ∃ img, encode_oson v long = Ok img ∧ (fits l img → decode_oson_with_limits img l = Ok (canon v)).
Proof.
  intros Hu Hv Hc Hok Hh Hn Hn32.
  destruct (flags_run l v (name_limit long)) as (e & Hflags & Hnum); [done|done|by destruct long|done|].
  pose proof Hnum as [Hb (short & Hs & _) _ Hw Hd Hk Hcount].
  set (w := oe_field_id_size e). set (dict := oe_field_names_dict e).
  assert (w = 1 ∨ w = 2 ∨ w = 4) as Hwc by (unfold w; rewrite Hw; apply id_width_cases).
  assert (Zlen (known_names e) < 256 ^ w) as Hwide by (unfold w; rewrite Hw; apply id_width_wide; lia).
  destruct (node_writes l Hu Hv (name_limit long) dict w (known_names e) Hwc Hwide Hd v Hok Hk [])
    as (tree & Htree & Hdec). cbn [app] in *.
  exists (container_image e short (with_tree_flag (container_flags (Zlen (known_names e)) (Zlen (short_buffer e))) tree) tree).
  split; [by apply encode_container_run|]. unfold short_buffer. rewrite Hs. intros Hf.
  destruct (decode_image_container l v e short tree Hnum Hs) with (fuel := decode_fuel l) as [d Hrun]; [lia..|done|].
  set (img := container_image _ _ _ _) in *. rewrite decode_start by done. rewrite Hrun.
  destruct (image_segments e short tree) as (_ & _ & _ & _ & Hat & Hlen). fold img in Hat, Hlen.
  pose proof (at_pos_bound _ _ _ Hat) as Hbnd. destruct Hf as [Hf1 Hf2].
  edestruct (Hdec ltac:(lia) img (Zlen img - Zlen tree)) as [p' Hp]; [by split|lia| | | |..| ].
  { rewrite Zlen_nil, Z.add_0_r. by replace (Zlen img - Zlen tree) with
      (6 + Zlen (extended_bytes e short ++ length_bytes (Zlen tree) ++ to_be_bytes 2 0) +
       Zlen (seg_bytes short) + Zlen (long_bytes e)) by lia. }
  4:{ rewrite Zlen_nil, Z.add_0_r in Hp. unfold w in Hp. by rewrite Hp. }
  - done.
  - done.
  - unfold decode_fuel. lia.
Qed.

Definition scalar_flags (tree : bytes) : Z :=
  with_tree_flag (Z.lor TNS_JSON_FLAG_INLINE_LEAF TNS_JSON_FLAG_IS_SCALAR) tree.

Definition scalar_preamble (tree : bytes) : bytes :=
  [TNS_JSON_MAGIC_BYTE_1; TNS_JSON_MAGIC_BYTE_2; TNS_JSON_MAGIC_BYTE_3;
   TNS_JSON_VERSION_MAX_FNAME_255] ++ to_be_bytes 2 (scalar_flags tree).

Lemma encode_scalar_run v long tree :
  is_container v = false → encode_node ∅ 1 v [] = (Ok (), tree) →
  encode_oson v long = Ok (scalar_preamble tree ++ length_bytes (Zlen tree) ++ tree).
Proof.
  intros Hc Htree. unfold encode_oson, encode. rewrite st_bindE, modifyE, st_bindE. unfold determine_flags. rewrite Hc. cbn [negb].
  rewrite st_bindE, modifyE, st_retE, st_bindE. unfold encode_tree.
  cbn [oe_field_names_dict oe_field_id_size set_is_scalar set_max_fname OsonEncoder_new]. rewrite Htree.
  cbn [mbind result_bind]. fold (scalar_flags tree). unfold put_u8, put_u16be.
  do 3 rewrite st_bindE, put_run. rewrite st_bindE, getsE, st_bindE, put_run, st_bindE, put_run.
  rewrite st_bindE, getsE. rewrite !wrote_short, !wrote_long. cbn [oe_short_fnames_seg oe_long_fnames_seg].
  rewrite bool_decide_false by (by intros [? [=]]). rewrite st_bindE, st_retE.
  rewrite st_bindE, put_length_run, st_bindE, st_retE, st_bindE, put_run, getsE, !wrote_app. done.
Qed.

(** An image whose tree is one node. *)
Definition scalar_image (tree : bytes) : bytes := scalar_preamble tree ++ length_bytes (Zlen tree) ++ tree.

Lemma scalar_image_decodes l tree v :
  limits_usize l → limits_valid l → fits l (scalar_image tree) →
  (∀ pos, 0 <= pos → at_pos (scalar_image tree) pos tree → node_at l 1 [] (scalar_image tree) pos 0 v) →
  Z.of_nat (oson_height v) <= max_object_depth l →
  decode_oson_with_limits (scalar_image tree) l = Ok (canon v).
Proof.
  intros Hu Hv Hf Hnode Hh. set (img := scalar_image tree) in *. rewrite decode_start by done.
  set (flags := scalar_flags tree). set (pre := scalar_preamble tree).
  pose proof (at_pos_self img : at_pos img 0 (pre ++ length_bytes (Zlen tree) ++ tree)) as Hat.
  apply at_pos_app in Hat as [H1 Hat]. apply at_pos_app in Hat as [H2 H3].
  pose proof (at_pos_bound _ _ _ H3) as Hb. assert (0 <= flags <= U16_MAX ∧
    has_flag flags TNS_JSON_FLAG_IS_SCALAR = true ∧ has_flag flags TNS_JSON_FLAG_REL_OFFSET_MODE = false ∧
    has_flag flags TNS_JSON_FLAG_TREE_SEG_UINT32 = (65535 <? Zlen tree)) as (Hf16 & Hfs & Hfr & Hft)
    by (unfold flags, scalar_flags, with_tree_flag; destruct (65535 <? Zlen tree); by vm_compute).
  pose proof (Zlen_nonneg tree). pose proof Hf as [Hf1 Hf2].
  unfold decode_oson_image. fold (rdr l img 0).
  rewrite st_bindE, (preamble_parses l img Hf TNS_JSON_VERSION_MAX_FNAME_255 flags) by (done || by left).
  cbn beta iota. rewrite Hfs, Hfr. change (_ ++ to_be_bytes 2 flags) with pre.
  rewrite st_bindE, (size_parses l img Hf flags _ (Zlen tree)) by (done || lia).
  rewrite st_bindE, getsE, st_bindE, getsE, st_bindE, liftE. cbn [or_data or_pos rdr].
  set (pos := 0 + Zlen pre + Zlen (length_bytes (Zlen tree))) in *.
  assert (pos + Zlen tree = Zlen img) as Hlen by (unfold pos, img, scalar_image; fold pre; rewrite !Zlen_app; lia).
  unfold validate_tree_segment_extent.
  rewrite try_range_in by (unfold USIZE_MAX, U64_MAX, U32_MAX in *; lia). st_run.
  rewrite Hlen, Z.ltb_irrefl, Z.eqb_refl. cbn [negb]. st_run. unfold into_decoder.
  change (mkOsonDecoder (rdr l img pos) [] 1 pos false 0) with (dst l 1 [] img pos pos 0).
  edestruct (Hnode pos) as [p' Hp]; [lia|done| | | |rewrite Z.add_0_r in Hp; by rewrite Hp]; unfold max_depth, decode_fuel; lia.
Qed.

Lemma scalar_roundtrip l v long :
  limits_usize l → limits_valid l → is_container v = false → oson_ok l (name_limit long) v = true →
  ∃ img, encode_oson v long = Ok img ∧ (fits l img → decode_oson_with_limits img l = Ok (canon v)).
Proof.
  intros Hu Hv Hc Hok.
  destruct (node_writes l Hu Hv (name_limit long) ∅ 1 [] (or_introl eq_refl) eq_refl
    (λ k f H, False_ind _ ltac:(by rewrite lookup_empty in H)) v Hok) with (b := @nil Z) as (tree & Htree & Hdec).
  { by destruct v. }
  cbn [app] in *. exists (scalar_image tree). split; [by apply encode_scalar_run|].
  intros Hf. apply scalar_image_decodes; [done..| |].
  - intros pos Hpos Hat. pose proof (at_pos_bound _ _ _ Hat). destruct Hf as [Hf1 Hf2].
    apply (Hdec ltac:(lia)); [by split|done|]. by rewrite Zlen_nil, Z.add_0_r.
  - pose proof (max_depth_pos l Hv). destruct v; try discriminate; cbn; lia.
Qed.

(** C7: OSON round trip.  Every value the codecs admit, nested no deeper and with no
    more children and distinct field names than the policy allows, encodes; and an
    image within the policy (and below 4 GiB) decodes to the value's canonical form:
    the same value with number text in canonical form and interval times split into
    hours, minutes and seconds.  Names of any legal length, repeated names, and every
    width of counts, identifiers and offsets are covered. *)
Theorem oson_roundtrip l v long :
  limits_usize l → limits_valid l → oson_ok l (name_limit long) v = true →
  Z.of_nat (oson_height v) <= max_object_depth l →
  Zlen (remove_dups (oson_keys v)) <= Z.min (max_object_elements l) U32_MAX →
  ∃ img, encode_oson v long = Ok img ∧
    (Zlen img <= Z.min (max_response_bytes l) U32_MAX → decode_oson_with_limits img l = Ok (canon v)).
Proof.
  intros Hu Hv Hok Hh Hn.
  assert (∃ img, encode_oson v long = Ok img ∧ (fits l img → decode_oson_with_limits img l = Ok (canon v)))
    as (img & Henc & Hdec).
  { destruct (is_container v) eqn:Hc; [apply container_roundtrip|apply scalar_roundtrip]; (done || lia). }
  exists img. split; [done|]. intros Hlen. apply Hdec. unfold fits. lia.
Qed.

(** A document with nesting, a repeated name, an empty name, a number whose text is
    not canonical, and a name that needs the long segment. *)
Definition sample : OsonValue :=
  JObject [([97], JArray [JNull; JBool true; JNumber [49; 50; 46; 53; 48]; JString [195; 169]]);
           ([], JObject [([97], JRaw [1; 2]); (repeat 120 300, JArray [])]);
           ([97], JDateTime 2024 2 29 23 59 59 7);
           ([98], JIntervalDS 1 2 (-3) 4 5)].

Lemma oson_roundtrip_witness :
  ∃ img, encode_oson sample true = Ok img ∧
    (Zlen img <= Z.min (max_response_bytes limits_DEFAULT) U32_MAX →
     decode_oson_with_limits img limits_DEFAULT = Ok (canon sample)).
Proof.
  apply (oson_roundtrip limits_DEFAULT sample true);
    [apply limits_DEFAULT_valid|apply limits_DEFAULT_valid|by vm_compute|by vm_compute|by vm_compute].
Defined.

(** The image the server stores for the document with [id] 6901 and [value] the text
    [string 6901], one of the golden images of the source. *)
Example golden_simple_obj :
  encode_oson (JObject [([105; 100], JNumber [54; 57; 48; 49]);
                        ([118; 97; 108; 117; 101], JString [115; 116; 114; 105; 110; 103; 32; 54; 57; 48; 49])]) false =
  Ok [255; 74; 90; 1; 33; 2; 2; 0; 9; 0; 30; 0; 0; 202; 224; 0; 3; 0; 0; 2; 105; 100; 5; 118; 97; 108; 117; 101; 164; 2; 2; 1; 0; 0; 0; 12; 0; 0; 0; 17; 52; 3; 194; 70; 2; 51; 11; 115; 116; 114; 105; 110; 103; 32; 54; 57; 48; 49].
Proof. by vm_compute. Qed.
