(* ===== verification/OsonSafety.v ===== *)
(** * Decoding a hostile OSON image

    Offsets in an image may point anywhere, so nodes can be shared and can contain
    themselves.  The decoder still returns on every byte string: the nesting limit
    bounds the recursion, every read is checked.  What the limits do not bound is the
    size of the result: sharing lets a small image stand for a value of exponential
    size. *)

From stdpp Require Import gmap.
From S2P Require Import Prelude.
From S2P Require Import Protocol.
From S2P Require Import Limits.
From S2P Require Import Reader.
From S2P Require Import TimeZone.
From S2P Require Import Calendar.
From S2P Require Import Datetime.
From S2P Require Import Number.
From S2P Require Import NumberWire.
From S2P Require Import Vector.
From S2P Require Import Oson.
From S2P Require Import OsonTree.
From S2P Require Import OsonImage.

(** ** The scalar codecs return *)

Lemma decimal_digits_total n : ∀ mag acc,
  0 <= mag < 10 ^ Z.of_nat n →
  post (λ d, Zlen acc <= Zlen d <= Zlen acc + Z.of_nat n) (decimal_digits n mag acc).
Proof.
  induction n as [|n IH]; intros mag acc Hm; cbn [decimal_digits].
  - change (10 ^ Z.of_nat 0) with 1 in Hm. rewrite (proj2 (Z.leb_le _ _)) by lia. cbn. lia.
  - destruct (Z.leb_spec mag 0); [cbn; lia|].
    eapply post_mono; [|apply IH].
    + cbv beta. intros d. rewrite Zlen_cons. lia.
    + rewrite Nat2Z.inj_succ, Z.pow_succ_r in Hm by lia. split; [apply Z.div_pos; lia|apply Z.div_lt_upper_bound; lia].
Qed.

Lemma canonical_string_total n :
  (∀ c s b, n = Inline c s b → I16_MIN <= s <= I16_MAX) → post (λ _, True) (to_canonical_string n).
Proof.
  intros Hn. unfold to_canonical_string, fmt_into. destruct n as [c s b|t b]; [|done].
  specialize (Hn c s b eq_refl). unfold fmt_inline_into.
  pose proof (as_i_range 128 (from_le_bytes c) ltac:(lia)) as Hr. fold (i128_from_le c) in Hr.
  apply post_if; intros _; [done|]. eapply post_bind.
  { apply (decimal_digits_total 40). change (10 ^ Z.of_nat 40) with 10000000000000000000000000000000000000000.
    change (2 ^ (128 - 1)) with 170141183460469231731687303715884105728 in Hr. lia. }
  intros d Hd. cbv beta in Hd. rewrite Zlen_nil in Hd. unfold I32_MIN, I32_MAX, I16_MIN, I16_MAX in *.
  arith_step. by apply post_if.
Qed.

Lemma number_value_total bs :
  bytes_ok bs → post (λ n, post (λ _, True) (to_canonical_string n)) (decode_number_value bs).
Proof.
  intros Hok. pose proof (stack_walk_spec bs Hok) as Hs. pose proof (decode_number_parts_post bs Hok) as Hp.
  unfold decode_number_value, from_wire. destruct (decode_number_parts bs) as [[t b|D neg dpi b]|e| |]; [| |by rewrite Hs|done|done].
  - rewrite Hs. st_run. by apply canonical_string_total.
  - destruct Hs as (b' & -> & _). destruct Hp as (_ & Hdpi & HD). st_run.
    destruct (digits_to_i128 D neg) as [c|]; [|by apply canonical_string_total].
    assert (0 <= Zlen (take (Z.to_nat MAX_DIGITS) D) <= 63) as Hl
      by (unfold Zlen in *; rewrite length_take; lia).
    rewrite try_range_in by (unfold I32_MIN, I32_MAX; lia). cbn [from_option].
    unfold id, I32_MIN, I32_MAX in *. rewrite arith_in by lia. st_run. rewrite try_range_in by (unfold I16_MIN, I16_MAX; lia).
    apply canonical_string_total. intros c' s b'' [= _ <- _]. unfold I16_MIN, I16_MAX. lia.
Qed.

Lemma interval_total bs : bytes_ok bs → post (λ _, True) (decode_interval_ds bs).
Proof.
  intros Hok. unfold decode_interval_ds. apply post_if; intros H11; [done|].
  assert (∀ lo hi, 0 <= lo <= hi → hi <= 11 →
    ∃ s, slice_get bs lo hi = Some s ∧ bytes_ok s ∧ Zlen s = hi - lo) as Hsl.
  { intros lo hi H1 H2. destruct (slice_get bs lo hi) as [s|] eqn:E.
    - exists s. split; [done|]. split; [by eapply slice_get_ok|]. apply slice_get_some in E. lia.
    - apply slice_get_none in E; lia. }
  destruct (Hsl 0 4) as (d & -> & Hd & Hdl); [lia..|]. destruct (Hsl 7 11) as (f & -> & Hf & Hfl); [lia..|].
  cbn [or_panic]. st_run. pose proof (from_be_bytes_range d Hd) as Hdr. pose proof (from_be_bytes_range f Hf) as Hfr.
  unfold Zlen in Hdl, Hfl. rewrite Hdl in Hdr. rewrite Hfl in Hfr.
  change (256 ^ (4 - 0)) with 4294967296 in Hdr. change (256 ^ (11 - 7)) with 4294967296 in Hfr.
  assert (∀ z, 0 <= z < 4294967296 → i64 (z - TNS_DURATION_MID) = Ok (z - TNS_DURATION_MID)) as Hi64
    by (intros; apply arith_in; unfold I64_MIN, I64_MAX, TNS_DURATION_MID; lia).
  rewrite Hi64 by done. st_run. unfold to_component at 1. rewrite try_range_in
    by (unfold I32_MIN, I32_MAX, TNS_DURATION_MID; lia). st_run.
  unfold i32.
  do 3 (eapply post_bind; [by apply index_post; [done|lia]|]; intros ? [? _]; rewrite arith_in by (unfold I32_MIN, I32_MAX, TNS_DURATION_OFFSET, is_u8 in *; lia); st_run).
  rewrite Hi64 by done. st_run. unfold to_component. by rewrite try_range_in
    by (unfold I32_MIN, I32_MAX, TNS_DURATION_MID; lia).
Qed.

(** ** Safe readers *)

(** What a decoded value satisfies: its text is UTF-8 and its containers respect
    the policy. *)
Fixpoint oson_sane (l : ProtocolLimits) (v : OsonValue) : bool :=
  match v with
  | JString text => utf8_valid text
  | JArray vs => (Zlen vs <=? max_object_elements l) && forallb (oson_sane l) vs
  | JObject es =>
      (Zlen es <=? max_object_elements l) && forallb (λ e, utf8_valid e.1 && oson_sane l e.2) es
  | _ => true
  end.

Section Safe.
Context (l : ProtocolLimits) (Hu : limits_usize l).
Context (data : bytes) (Hbytes : bytes_ok data) (Hmax : Zlen data <= I64_MAX).

Definition in_image (p : Z) : Prop := 0 <= p <= Zlen data.

(** [m] returns from everywhere in the image and stays in it; [Q] holds of a result
    and the position it leaves. *)
Definition rsafe_at {A} (p : Z) (m : OReaderM A) (Q : A → Z → Prop) : Prop :=
  ∃ res p', m (rdr l data p) = (res, rdr l data p') ∧ in_image p' ∧ post (λ a, Q a p') res.

Definition rsafe {A} (m : OReaderM A) (Q : A → Z → Prop) : Prop := ∀ p, in_image p → rsafe_at p m Q.

Lemma rsafe_at_bind {A B} p (m : OReaderM A) (f : A → OReaderM B) Q R :
  rsafe_at p m Q → (∀ a p', Q a p' → in_image p' → rsafe_at p' (f a) R) → rsafe_at p (m ≫= f) R.
Proof.
  intros (res & p1 & Hm & Hp1 & HQ) Hf. unfold rsafe_at. rewrite st_bindE, Hm.
  destruct res as [a|e| |]; cbn in HQ; try done; [by apply Hf|]. by exists (Err e), p1.
Qed.

Lemma rsafe_bind {A B} (m : OReaderM A) (f : A → OReaderM B) Q R :
  rsafe m Q → (∀ a p', Q a p' → in_image p' → rsafe_at p' (f a) R) → rsafe (m ≫= f) R.
Proof. intros Hm Hf p Hp. by eapply rsafe_at_bind; [apply Hm|]. Qed.

Lemma rsafe_ret {A} p (a : A) (Q : A → Z → Prop) : in_image p → Q a p → rsafe_at p (mret a) Q.
Proof. intros Hp HQ. by exists (Ok a), p. Qed.

Lemma rsafe_throw {A} p e (Q : A → Z → Prop) : in_image p → rsafe_at p (throw e) Q.
Proof. intros Hp. by exists (Err e), p. Qed.

Lemma rsafe_lift {A} p (r : Res A) (Q : A → Z → Prop) :
  in_image p → post (λ a, Q a p) r → rsafe_at p (lift r) Q.
Proof. intros Hp HQ. by exists r, p. Qed.

Lemma rsafe_mono {A} p (m : OReaderM A) (Q R : A → Z → Prop) :
  rsafe_at p m Q → (∀ a p', Q a p' → R a p') → rsafe_at p m R.
Proof. intros (r & p' & Hm & Hp & HQ) Hi. exists r, p'. split; [done|]. split; [done|]. eapply post_mono; [|done]. cbv beta. eauto. Qed.

Lemma check_post limit observed maximum : post (λ _, observed <= maximum) (check limit observed maximum).
Proof. unfold check. destruct (Z.leb_spec observed maximum); done. Qed.

Lemma read_raw_safe p n :
  in_image p → 0 <= n →
  rsafe_at p (oson_read_raw n) (λ b p', bytes_ok b ∧ Zlen b = n ∧ p' = p + n).
Proof.
  intros Hp Hn. unfold rsafe_at, oson_read_raw, check_response_bytes. st_run.
  cbn [or_limits or_pos or_data rdr]. unfold check. destruct (n <=? _); [|by eexists _, p]. st_run.
  destruct (try_range _ _ _) as [e|] eqn:Ht; [|by eexists _, p]. apply try_range_some in Ht as [-> Hr]. st_run.
  cbn [or_data rdr]. destruct (slice_get data p (p + n)) as [s|] eqn:Hs; [|by eexists _, p]. st_run.
  pose proof (slice_get_some _ _ _ _ Hs) as (_ & Hle & _ & Hlen). unfold in_image in Hp.
  eexists _, (p + n). split; [reflexivity|]. split; [unfold in_image; lia|]. cbn.
  split; [by eapply slice_get_ok|]. lia.
Qed.

Lemma read_u8_safe p : in_image p → rsafe_at p oson_read_u8 (λ v p', is_u8 v ∧ p' = p + 1).
Proof.
  intros Hp. eapply rsafe_at_bind; [by apply read_raw_safe|]. intros b p' (Hb & Hl & ->) Hp'.
  apply rsafe_lift; [done|]. destruct b as [|x b]; [done|]. apply Forall_cons_iff in Hb as [Hx _]. done.
Qed.

Lemma read_fixed_safe p n :
  in_image p →
  rsafe_at p (raw ← oson_read_raw (Z.of_nat n); a ← lift (array_of (Z.of_nat n) raw); mret (from_be_bytes a))
    (λ v p', 0 <= v < 256 ^ Z.of_nat n ∧ p' = p + Z.of_nat n).
Proof.
  intros Hp. eapply rsafe_at_bind; [by apply read_raw_safe; [|lia]|]. intros b p' (Hb & Hl & ->) Hp'.
  eapply (rsafe_at_bind _ _ _ (λ a q, a = b ∧ q = p + Z.of_nat n)); [apply rsafe_lift; [done|]; by rewrite array_of_run|].
  intros a q [-> ->] Hq. apply rsafe_ret; [done|]. pose proof (from_be_bytes_range b Hb) as Hr.
  unfold Zlen in Hl. by rewrite Hl in Hr.
Qed.

Lemma read_u16_safe p : in_image p → rsafe_at p oson_read_u16be (λ v p', 0 <= v <= U16_MAX ∧ p' = p + 2).
Proof.
  intros Hp. eapply rsafe_mono; [apply (read_fixed_safe p 2 Hp)|]. cbv beta.
  change (256 ^ Z.of_nat 2) with 65536. unfold U16_MAX. lia.
Qed.

Lemma read_u32_safe p : in_image p → rsafe_at p oson_read_u32be (λ v p', 0 <= v <= U32_MAX ∧ p' = p + 4).
Proof.
  intros Hp. eapply rsafe_mono; [apply (read_fixed_safe p 4 Hp)|]. cbv beta.
  change (256 ^ Z.of_nat 4) with 4294967296. unfold U32_MAX. lia.
Qed.

Lemma seek_safe p q : in_image p → 0 <= q → rsafe_at p (oson_seek_to q) (λ _ p', p' = q).
Proof.
  intros Hp Hq. unfold rsafe_at, oson_seek_to. st_run. cbn [or_data rdr].
  destruct (Z.ltb_spec (Zlen data) q); [by eexists _, p|]. eexists _, q. split; [reflexivity|].
  split; [unfold in_image; lia|done].
Qed.

Lemma position_safe p : in_image p → rsafe_at p (gets or_pos) (λ q p', q = p ∧ p' = p).
Proof. intros Hp. by exists (Ok p), p. Qed.

Lemma reserve_safe p n :
  in_image p → rsafe_at p (oson_reserve n) (λ _ p', n <= max_object_elements l ∧ p' = p).
Proof.
  intros Hp. unfold rsafe_at, oson_reserve, with_capacity_limited, check_object_elements.
  eexists _, p. split; [reflexivity|]. split; [done|].
  eapply post_bind; [apply check_post|]. intros [] Hn. done.
Qed.

(** ** Field names *)

Lemma name_at_safe seg name_len_size offset :
  bytes_ok seg → 0 <= offset → post (λ name, utf8_valid name = true) (name_at seg name_len_size offset).
Proof.
  intros Hs Ho. unfold name_at.
  eapply (post_bind (λ x, True)).
  - apply post_if; intros _; (eapply (post_bind (λ _, True)); [by apply post_ok_or|]; intros ? _); [|done].
    by eapply (post_bind (λ _, True)); [by apply post_ok_or|].
  - intros [name_len name_start] _. eapply (post_bind (λ _, True)); [by apply post_ok_or|]. intros e _.
    eapply (post_bind (λ _, True)); [by apply post_ok_or|]. intros name _. by apply post_if.
Qed.

Lemma read_names_safe seg offsets_size name_len_size n : bytes_ok seg →
  rsafe (read_names n seg offsets_size name_len_size) (λ names _, Forall (λ s, utf8_valid s = true) names).
Proof.
  intros Hs. induction n as [|n IH]; intros p Hp; cbn [read_names]; [by apply rsafe_ret|].
  eapply (rsafe_at_bind _ _ _ (λ name _, utf8_valid name = true)).
  - unfold read_name. eapply (rsafe_at_bind _ _ _ (λ o _, 0 <= o)).
    + destruct (_ =? 2); (eapply rsafe_mono; [by first [apply read_u16_safe|apply read_u32_safe]|]); cbv beta; lia.
    + intros o q Ho Hq. apply rsafe_lift; [done|]. by apply name_at_safe.
  - intros name q Hn Hq. eapply rsafe_at_bind; [by apply IH|]. intros names q' Hns Hq'.
    apply rsafe_ret; [done|]. by constructor.
Qed.

Lemma usize_safe p z (Q : Z → Z → Prop) :
  in_image p → 0 <= z <= USIZE_MAX → Q z p → rsafe_at p (lift (usize z)) Q.
Proof. intros Hp Hz HQ. apply rsafe_lift; [done|]. unfold usize. by rewrite arith_in. Qed.

Lemma skip_safe p n : in_image p → 0 <= n → rsafe_at p (oson_skip n) (λ _ p', p' = p + n).
Proof.
  intros Hp Hn. eapply rsafe_at_bind; [by apply read_raw_safe|]. intros b q (_ & _ & ->) Hq. by apply rsafe_ret.
Qed.

Lemma read_field_names_safe p num hash_id_size offsets_size name_len_size seg_size :
  in_image p → 0 <= num <= U32_MAX → 0 <= hash_id_size <= 4 → 0 <= offsets_size <= 4 → 0 <= seg_size →
  rsafe_at p (read_field_names num hash_id_size offsets_size name_len_size seg_size)
    (λ names _, Forall (λ s, utf8_valid s = true) names).
Proof.
  intros Hp Hn Hh Ho Hs. unfold read_field_names.
  assert (∀ s, 0 <= s <= 4 → 0 <= num * s <= USIZE_MAX) as Hs'.
  { intros s Hs4. split; [lia|]. transitivity (U32_MAX * 4); [|done]. apply Z.mul_le_mono_nonneg; lia. }
  pose proof (Hs' _ Hh) as H1. pose proof (Hs' _ Ho) as H2. clear Hs'.
  eapply (rsafe_at_bind _ _ _ (λ x _, x = num * hash_id_size)); [by apply usize_safe|]. intros ? q -> Hq.
  eapply rsafe_at_bind; [apply skip_safe; [done|lia]|]. intros [] q1 _ Hq1.
  eapply rsafe_at_bind; [by apply position_safe|]. intros op q2 [-> ->] _.
  eapply (rsafe_at_bind _ _ _ (λ x _, x = num * offsets_size)); [by apply usize_safe|]. intros ? q3 -> Hq3.
  eapply rsafe_at_bind; [apply skip_safe; [done|lia]|]. intros [] q4 _ Hq4.
  eapply rsafe_at_bind; [by apply read_raw_safe|]. intros seg q5 (Hseg & _) Hq5.
  eapply rsafe_at_bind; [by apply position_safe|]. intros fp q6 [-> ->] _.
  eapply rsafe_at_bind; [by apply seek_safe; [|apply Hq1]|]. intros [] q7 _ Hq7.
  eapply rsafe_at_bind; [by apply reserve_safe|]. intros ? q8 _ Hq8.
  eapply rsafe_at_bind; [by apply read_names_safe|]. intros names q9 Hnames Hq9.
  eapply rsafe_at_bind; [by apply seek_safe; [|apply Hq5]|]. intros [] q10 _ Hq10.
  by apply rsafe_ret.
Qed.

(** ** Nodes without children *)

Lemma get_num_children_safe p ty :
  in_image p → rsafe_at p (get_num_children ty) (λ r p', 0 <= r.1 <= U32_MAX ∧ p <= p').
Proof.
  intros Hp. unfold get_num_children. destruct (_ =? 24).
  { apply rsafe_ret; [done|]. unfold U32_MAX. cbn. lia. }
  eapply (rsafe_at_bind _ _ _ (λ n p', 0 <= n <= U32_MAX ∧ p <= p')).
  - repeat case_match; [..|by apply rsafe_throw];
      (eapply rsafe_mono; [by first [apply read_u8_safe|apply read_u16_safe|apply read_u32_safe]|]);
      unfold is_u8, U16_MAX, U32_MAX; cbv beta; lia.
  - intros n q Hn Hq. by apply rsafe_ret.
Qed.

Lemma get_offset_safe p ty :
  in_image p → rsafe_at p (get_offset ty) (λ o _, 0 <= o <= U32_MAX).
Proof.
  intros Hp. unfold get_offset. destruct (negb _);
    (eapply rsafe_mono; [by first [apply read_u16_safe|apply read_u32_safe]|]);
    unfold U16_MAX, U32_MAX; cbv beta; lia.
Qed.

Definition leaf_ok (v : OsonValue) (_ : Z) : Prop := oson_sane l v = true ∧ oson_height v = O.

Lemma decode_datetime_safe p n : in_image p → 0 <= n → rsafe_at p (oson_decode_datetime n) leaf_ok.
Proof.
  intros Hp Hn. eapply rsafe_at_bind; [by apply read_raw_safe|]. intros raw q (Hraw & _) Hq.
  eapply (rsafe_at_bind _ _ _ (λ v _, decoded_ok raw v)); [apply rsafe_lift; [done|by apply decode_datetime_post]|].
  intros v q1 Hv Hq1. destruct v as [| |? ? ? ? ? ? ? ?| |]; [by apply rsafe_ret| |by apply rsafe_throw..].
  destruct Hv as ((_ & (Hy & Hm & Hd & Hh & Hmi & Hse)%valid_fields_iff & _) & _ & Hoff).
  apply oracle_year_parts in Hy as [Hy _]. unfold valid_tz_offset_minutes, between in Hoff.
  rewrite adjust_run by (unfold is_u8, I32_MIN, I32_MAX; lia).
  destruct (datetime_of_seconds _) as [[[[[y' m'] d'] h'] mi'] s']. st_run. by exists (Ok (JDateTime y' m' d' h' mi' s' nanosecond)), q1.
Qed.

Lemma decode_string_safe p n : in_image p → 0 <= n → rsafe_at p (oson_decode_string n) leaf_ok.
Proof.
  intros Hp Hn. eapply rsafe_at_bind; [by apply read_raw_safe|]. intros raw q _ Hq.
  destruct (utf8_valid raw) eqn:E; [by apply rsafe_ret|by apply rsafe_throw].
Qed.

Lemma decode_number_safe p n : in_image p → 0 <= n → rsafe_at p (oson_decode_number n) leaf_ok.
Proof.
  intros Hp Hn. eapply rsafe_at_bind; [by apply read_raw_safe|]. intros raw q (Hraw & _) Hq.
  eapply (rsafe_at_bind _ _ _ (λ n _, post (λ _, True) (to_canonical_string n)));
    [apply rsafe_lift; [done|by apply number_value_total]|].
  intros v q1 Hv Hq1. eapply (rsafe_at_bind _ _ _ (λ _ _, True)); [by apply rsafe_lift|].
  intros t q2 _ Hq2. by apply rsafe_ret.
Qed.

Lemma decode_raw_safe p n : in_image p → 0 <= n → rsafe_at p (oson_decode_raw n) leaf_ok.
Proof. intros Hp Hn. eapply rsafe_at_bind; [by apply read_raw_safe|]. intros raw q _ Hq. by apply rsafe_ret. Qed.

Lemma inline_node_safe p ty : in_image p → 0 <= ty → rsafe_at p (decode_node_type_with_inline_length ty) leaf_ok.
Proof.
  intros Hp Ht. unfold decode_node_type_with_inline_length. pose proof (Z.land_nonneg ty 15) as Hl.
  repeat case_match; first [by apply rsafe_throw | by apply rsafe_ret
    | apply decode_number_safe; [done|lia] | by apply decode_string_safe].
Qed.

Lemma embedded_vector_safe p : in_image p → rsafe_at p decode_embedded_vector leaf_ok.
Proof.
  intros Hp. eapply rsafe_at_bind; [by apply read_u8_safe|]. intros ty q _ Hq.
  destruct (ty =? _); [|by apply rsafe_throw].
  eapply rsafe_at_bind; [by apply read_u32_safe|]. intros n q1 [Hn _] Hq1.
  eapply (rsafe_at_bind _ _ _ (λ l' _, l' = l)); [by exists (Ok l), q1|]. intros ? q2 -> Hq2.
  eapply rsafe_at_bind; [apply rsafe_lift; [done|]; eapply post_mono; [|apply check_post]; intros ? H; exact H|].
  intros [] q3 _ Hq3. eapply rsafe_at_bind; [by apply read_raw_safe; [|lia]|]. intros raw q4 (Hraw & Hlen & _) Hq4.
  pose proof (decode_vector_post l raw Hu Hraw) as Hv. unfold I64_MAX, U32_MAX in Hv, Hn. specialize (Hv ltac:(lia)).
  destruct (decode_vector_with_limits raw l); [by apply rsafe_ret|by apply rsafe_throw|done..].
Qed.

Lemma interval_node_safe p : in_image p → rsafe_at p decode_interval_node leaf_ok.
Proof.
  intros Hp. eapply rsafe_at_bind; [by apply read_raw_safe|]. intros raw q (Hraw & _) Hq.
  eapply (rsafe_at_bind _ _ _ (λ _ _, True)); [apply rsafe_lift; [done|by apply interval_total]|].
  intros v q1 _ Hq1. destruct v; first [by apply rsafe_ret|by apply rsafe_throw].
Qed.

Lemma float_node_safe p n (dec : bytes → Res Z) mk :
  in_image p → 0 <= n → (∀ b, Zlen b = n → post (λ _, True) (dec b)) → (∀ z q, leaf_ok (mk z) q) →
  rsafe_at p (raw ← oson_read_raw n; bits ← lift (dec raw); mret (mk bits)) leaf_ok.
Proof.
  intros Hp Hn Hd Hm. eapply rsafe_at_bind; [by apply read_raw_safe|]. intros raw q (_ & Hl & _) Hq.
  eapply (rsafe_at_bind _ _ _ (λ _ _, True)); [apply rsafe_lift; [done|by apply Hd]|].
  intros v q1 _ Hq1. by apply rsafe_ret.
Qed.

(** A length of one, two or four bytes and what it measures. *)
Lemma sized_safe p (len : OReaderM Z) (f : Z → OReaderM OsonValue) :
  in_image p → In len [oson_read_u8; oson_read_u16be; oson_read_u32be] →
  (∀ n q, in_image q → 0 <= n → rsafe_at q (f n) leaf_ok) → rsafe_at p (len ≫= f) leaf_ok.
Proof.
  intros Hp Hl Hf. eapply (rsafe_at_bind _ _ _ (λ n _, 0 <= n)); [|by intros; apply Hf].
  cbn in Hl. destruct Hl as [<-|[<-|[<-|[]]]];
    (eapply rsafe_mono; [by first [apply read_u8_safe|apply read_u16_safe|apply read_u32_safe]|]);
    unfold is_u8; cbv beta; lia.
Qed.

Lemma scalar_node_safe p ty :
  in_image p → 0 <= ty → rsafe_at p (decode_scalar_with_node_type ty) leaf_ok.
Proof.
  intros Hp Ht. unfold decode_scalar_with_node_type.
  repeat (destruct (_ =? _); cbn [orb]);
    first [ by apply rsafe_ret | by apply rsafe_throw | by apply decode_datetime_safe
          | by apply interval_node_safe | by apply embedded_vector_safe | by apply inline_node_safe
          | apply float_node_safe; [done|done| |done]; intros b Hb;
            unfold decode_binary_float, decode_binary_double; by rewrite Hb
          | apply sized_safe; [done|cbn; tauto|];
            first [by intros; apply decode_string_safe|by intros; apply decode_number_safe|by intros; apply decode_raw_safe] ].
Qed.

(** ** The decoder *)

Section Tree.
Context (names : list bytes) (Hnames : Forall (λ s, utf8_valid s = true) names).
Context (w : Z) (Hw : w = 1 ∨ w = 2 ∨ w = 4) (tree : Z) (Htree : in_image tree) (relative : bool).
Context (Hdepth : max_object_depth l < USIZE_MAX).

Definition at_depth (p d : Z) : OsonDecoder := mkOsonDecoder (rdr l data p) names w tree relative d.

(** As [rsafe_at], at depth [d]; the depth is back where it was when a value comes. *)
Definition dsafe_at {A} (p d : Z) (m : DecM A) (Q : A → Z → Prop) : Prop :=
  match m (at_depth p d) with
  | (Ok a, s') => ∃ p', s' = at_depth p' d ∧ in_image p' ∧ Q a p'
  | (Err _, _) => True
  | _ => False
  end.

Lemma dsafe_bind {A B} p d (m : DecM A) (f : A → DecM B) Q R :
  dsafe_at p d m Q → (∀ a p', Q a p' → in_image p' → dsafe_at p' d (f a) R) → dsafe_at p d (m ≫= f) R.
Proof.
  unfold dsafe_at at 1 3. intros Hm Hf. rewrite st_bindE.
  destruct (m _) as [[a|e| |] s]; [|done..]. destruct Hm as (p' & -> & Hp' & HQ). by apply Hf.
Qed.

Lemma dsafe_ret {A} p d (a : A) (Q : A → Z → Prop) : in_image p → Q a p → dsafe_at p d (mret a) Q.
Proof. intros Hp HQ. by exists p. Qed.

Lemma dsafe_throw {A} p d e (Q : A → Z → Prop) : dsafe_at p d (throw e) Q.
Proof. done. Qed.

Lemma dsafe_lift {A} p d (r : Res A) (Q : A → Z → Prop) :
  in_image p → post (λ a, Q a p) r → dsafe_at p d (lift r) Q.
Proof. intros Hp HQ. unfold dsafe_at. rewrite liftE. destruct r; cbn in *; try done. by exists p. Qed.

Lemma dsafe_rd {A} p d (m : OReaderM A) Q : rsafe_at p m Q → dsafe_at p d (rd m) Q.
Proof.
  intros (res & p' & Hm & Hp' & HQ). unfold dsafe_at, rd. cbn [od_reader at_depth]. rewrite Hm.
  destruct res; cbn in HQ |- *; try done. by exists p'.
Qed.

Lemma dsafe_gets {A} p d (f : OsonDecoder → A) (Q : A → Z → Prop) :
  in_image p → Q (f (at_depth p d)) p → dsafe_at p d (gets f) Q.
Proof. intros Hp HQ. by exists p. Qed.

Lemma dsafe_usize p d z (Q : Z → Z → Prop) :
  in_image p → 0 <= z <= USIZE_MAX → Q z p → dsafe_at p d (lift (usize z)) Q.
Proof. intros Hp Hz HQ. apply dsafe_lift; [done|]. unfold usize. by rewrite arith_in. Qed.

Lemma seek_tree_safe p d offset :
  in_image p → 0 <= offset <= U32_MAX → dsafe_at p d (seek_tree offset) (λ _ p', p' = tree + offset).
Proof.
  intros Hp Ho. unfold in_image, I64_MAX, U32_MAX in *.
  eapply (dsafe_bind _ _ _ _ (λ t q, t = tree ∧ q = p)); [by apply dsafe_gets|]. intros ? ? [-> ->] _.
  eapply (dsafe_bind _ _ _ _ (λ t _, t = tree + offset)).
  - apply dsafe_usize; [done| |done]. unfold USIZE_MAX, U64_MAX. lia.
  - intros ? q -> Hq. apply dsafe_rd, seek_safe; [done|lia].
Qed.

Lemma read_field_id_safe p d : in_image p → dsafe_at p d read_field_id (λ i _, 0 <= i).
Proof.
  intros Hp. eapply (dsafe_bind _ _ _ _ (λ x q, x = w ∧ q = p)); [by apply dsafe_gets|]. intros ? ? [-> ->] _.
  destruct Hw as [->|[-> | ->]]; cbn; apply dsafe_rd;
    (eapply rsafe_mono; [by first [apply read_u8_safe|apply read_u16_safe|apply read_u32_safe]|]);
    unfold is_u8; cbv beta; lia.
Qed.

Lemma field_name_safe p d id : in_image p → dsafe_at p d (field_name_of id) (λ s _, utf8_valid s = true).
Proof.
  intros Hp. eapply (dsafe_bind _ _ _ _ (λ _ q, q = p)).
  { apply dsafe_lift; [done|]. by apply post_ok_or. }
  intros i ? -> _. eapply (dsafe_bind _ _ _ _ (λ x q, x = names ∧ q = p)); [by apply dsafe_gets|].
  intros ? ? [-> ->] _. apply dsafe_lift; [done|]. apply post_ok_or. intros s Hs.
  rewrite Forall_forall in Hnames. apply Hnames. apply list_elem_of_In. by eapply list_elem_of_lookup_2.
Qed.

(** What the limits leave of a child: [h] levels. *)
Definition child_sane (h : nat) (c : bytes * OsonValue) : Prop :=
  utf8_valid c.1 = true ∧ oson_sane l c.2 = true ∧ (oson_height c.2 <= h)%nat.

Definition node_ok (h : nat) (v : OsonValue) (_ : Z) : Prop :=
  oson_sane l v = true ∧ (oson_height v <= h)%nat.

Lemma child_name_safe p d (is_object : bool) field_ids_pos :
  in_image p → 0 <= field_ids_pos →
  dsafe_at p d
    (if is_object then
       _ ← rd (oson_seek_to field_ids_pos);
       field_id ← read_field_id;
       name ← field_name_of field_id;
       pos ← rd (gets or_pos);
       mret (name, pos)
     else mret ([], field_ids_pos)) (λ r _, utf8_valid r.1 = true ∧ 0 <= r.2).
Proof.
  intros Hp Hf. destruct is_object; [|by apply dsafe_ret].
  eapply dsafe_bind; [by apply dsafe_rd, seek_safe|]. intros [] q _ Hq.
  eapply dsafe_bind; [by apply read_field_id_safe|]. intros id q1 _ Hq1.
  eapply dsafe_bind; [by apply field_name_safe|]. intros name q2 Hname Hq2.
  eapply dsafe_bind; [by apply dsafe_rd, position_safe|]. intros pos q3 [-> _] Hq3.
  apply dsafe_ret; [done|]. split; [done|apply Hq2].
Qed.

Lemma children_safe (node : DecM OsonValue) d h ty is_object coff n :
  (∀ p, in_image p → tree <= p → dsafe_at p d node (node_ok h)) → 0 <= coff → ∀ p fpos opos,
  in_image p → 0 <= fpos → 0 <= opos →
  dsafe_at p d (decode_children node n ty is_object coff fpos opos)
    (λ cs _, length cs = n ∧ Forall (child_sane h) cs).
Proof.
  intros Hnode Hcoff. induction n as [|n IH]; intros p fpos opos Hp Hf Ho; cbn [decode_children].
  { by apply dsafe_ret. }
  eapply dsafe_bind; [by apply child_name_safe|]. intros [name fpos'] q [Hname Hf'] Hq. cbn in Hname, Hf'.
  eapply dsafe_bind; [by apply dsafe_rd, seek_safe|]. intros [] q1 _ Hq1.
  eapply dsafe_bind; [by apply dsafe_rd, get_offset_safe|]. intros off q2 Hoff Hq2.
  eapply (dsafe_bind _ _ _ _ (λ _ _, True)); [by apply dsafe_gets|]. intros rel q3 _ Hq3.
  eapply (dsafe_bind _ _ _ _ (λ o _, 0 <= o <= U32_MAX)).
  { apply dsafe_lift; [done|]. destruct rel; [|done]. apply post_ok_or. intros o Ht.
    apply try_range_some in Ht. lia. }
  intros off' q4 Hoff' Hq4. eapply dsafe_bind; [by apply dsafe_rd, position_safe|]. intros opos' q5 [-> _] Hq5.
  eapply dsafe_bind; [by apply seek_tree_safe|]. intros [] q6 -> Hq6.
  eapply dsafe_bind; [apply Hnode; [done|lia]|]. intros c q7 [Hc Hh] Hq7.
  eapply dsafe_bind; [apply IH; [done..|apply Hq4]|]. intros cs q8 [Hlen Hcs] Hq8.
  apply dsafe_ret; [done|]. split; [by cbn; rewrite Hlen|]. by constructor.
Qed.

Lemma layout_safe p d ty is_object :
  in_image p → tree + 1 <= p →
  dsafe_at p d (container_layout ty is_object)
    (λ r _, 0 <= r.1.1 <= max_object_elements l ∧ 0 <= r.1.2 ∧ 0 <= r.2).
Proof.
  intros Hp Ht. unfold container_layout.
  eapply dsafe_bind; [by apply dsafe_rd, get_num_children_safe|]. intros [num shared] q [Hnum _] Hq. cbn [fst] in Hnum.
  eapply (dsafe_bind _ _ _ _ (λ x _, x = l)); [by apply dsafe_gets|]. intros ? q1 -> Hq1.
  eapply dsafe_bind; [apply dsafe_lift; [done|]; eapply post_mono; [|apply check_post]; intros ? H; exact H|].
  cbv beta. intros [] q2 Hn Hq2. destruct shared; [|destruct is_object].
  - eapply dsafe_bind; [by apply dsafe_rd, get_offset_safe|]. intros off q3 Hoff Hq3.
    eapply dsafe_bind; [by apply dsafe_rd, position_safe|]. intros opos q4 [-> _] Hq4.
    eapply dsafe_bind; [by apply seek_tree_safe|]. intros [] q5 _ Hq5.
    eapply dsafe_bind; [by apply dsafe_rd, read_u8_safe|]. intros sty q6 _ Hq6.
    eapply dsafe_bind; [by apply dsafe_rd, get_num_children_safe|]. intros [snum ?] q7 [Hs _] Hq7. cbn [fst] in Hs.
    eapply dsafe_bind; [apply dsafe_lift; [done|]; eapply post_mono; [|apply check_post]; intros ? H; exact H|].
    cbv beta. intros [] q8 Hsn Hq8. eapply dsafe_bind; [by apply dsafe_rd, position_safe|].
    intros fpos q9 [-> _] Hq9. apply dsafe_ret; [done|]. unfold in_image in *. cbn. lia.
  - eapply dsafe_bind; [by apply dsafe_rd, position_safe|]. intros pos q3 [-> ->] _.
    eapply (dsafe_bind _ _ _ _ (λ x q, x = w ∧ q = q2)); [by apply dsafe_gets|]. intros ? ? [-> ->] _.
    assert (0 <= w * num <= 4 * U32_MAX) as Hids by (unfold U32_MAX in *; destruct Hw as [-> | [-> | ->]]; lia).
    unfold in_image, I64_MAX, U32_MAX in *.
    eapply (dsafe_bind _ _ _ _ (λ x _, x = w * num)); [apply dsafe_usize; [done|unfold USIZE_MAX, U64_MAX; lia|done]|].
    intros ? q4 -> Hq4.
    eapply (dsafe_bind _ _ _ _ (λ x _, x = q2 + w * num)); [apply dsafe_usize; [done|unfold USIZE_MAX, U64_MAX; lia|done]|].
    intros ? q5 -> Hq5. apply dsafe_ret; [done|]. cbn. lia.
  - eapply dsafe_bind; [by apply dsafe_rd, position_safe|]. intros pos q3 [-> ->] _.
    apply dsafe_ret; [done|]. unfold in_image in *. cbn. lia.
Qed.

Lemma children_sane h cs (is_object : bool) :
  Zlen cs <= max_object_elements l → Forall (child_sane h) cs →
  node_ok (S h) (if is_object then JObject cs else JArray (map snd cs)) 0.
Proof.
  intros Hlen Hcs. apply Z.leb_le in Hlen. unfold node_ok. destruct is_object; cbn [oson_sane oson_height].
  - rewrite Hlen. split.
    + cbn. apply forallb_forall. intros c Hc. rewrite Forall_forall in Hcs. destruct (Hcs c Hc) as (-> & -> & _). done.
    + apply le_n_S, List.list_max_le, Forall_map. eapply Forall_impl; [|exact Hcs]. intros c (_ & _ & H). exact H.
  - unfold Zlen in *. rewrite length_map, Hlen. split.
    + cbn. apply forallb_forall. intros v (c & <- & Hc)%in_map_iff. rewrite Forall_forall in Hcs.
      by destruct (Hcs c Hc) as (_ & -> & _).
    + apply le_n_S, List.list_max_le. rewrite map_map. apply Forall_map. eapply Forall_impl; [|exact Hcs]. intros c (_ & _ & H). exact H.
Qed.

Lemma container_safe node p d h ty :
  (∀ p, in_image p → tree <= p → dsafe_at p d node (node_ok h)) →
  in_image p → tree + 1 <= p → dsafe_at p d (decode_container_node node ty) (node_ok (S h)).
Proof.
  intros Hnode Hp Ht. unfold decode_container_node.
  eapply dsafe_bind; [by apply dsafe_rd, position_safe|]. intros pos q [-> ->] _.
  eapply (dsafe_bind _ _ _ _ (λ t q, t = tree ∧ q = p)); [by apply dsafe_gets|]. intros ? ? [-> ->] _.
  unfold in_image, I64_MAX in *.
  eapply (dsafe_bind _ _ _ _ (λ t q, t = p - tree ∧ q = p)); [apply dsafe_usize; [done|unfold USIZE_MAX, U64_MAX; lia|done]|].
  intros ? ? [-> ->] _.
  eapply (dsafe_bind _ _ _ _ (λ t q, q = p)); [apply dsafe_usize; [done|unfold USIZE_MAX, U64_MAX; lia|done]|].
  intros t ? -> _. eapply dsafe_bind; [by apply layout_safe|]. intros [[num fpos] opos] q (Hnum & Hf & Ho) Hq. cbn in Hnum, Hf, Ho.
  eapply dsafe_bind; [by apply dsafe_rd, reserve_safe|]. intros ? q1 _ Hq1.
  eapply dsafe_bind; [apply children_safe; [done|apply as_u_range; lia|done..]|].
  intros cs q2 [Hlen Hcs] Hq2. apply dsafe_ret; [done|]. apply children_sane; [|done]. unfold Zlen. lia.
Qed.

Lemma node_safe fuel : ∀ p d,
  in_image p → tree <= p → 0 <= d <= max_object_depth l → max_object_depth l - d < Z.of_nat fuel →
  dsafe_at p d (decode_node fuel) (node_ok (Z.to_nat (max_object_depth l - d))).
Proof.
  induction fuel as [|fuel IH]; intros p d Hp Ht Hd Hfuel; [lia|]. cbn [decode_node].
  eapply dsafe_bind; [by apply dsafe_rd, read_u8_safe|]. intros ty q [Hty ->] Hq. destruct (negb _).
  - unfold dsafe_at. st_run. cbn [od_depth at_depth]. unfold usize. rewrite arith_in by lia. st_run.
    cbn [od_reader od_set_depth at_depth or_limits rdr]. unfold check_object_depth, check.
    destruct (Z.leb_spec (d + 1) (max_object_depth l)); [|done]. st_run. unfold finally.
    pose proof (container_safe (decode_node fuel) (p + 1) (d + 1) (Z.to_nat (max_object_depth l - (d + 1))) ty) as Hc.
    unfold dsafe_at at 2 in Hc. unfold od_set_depth, at_depth in *. cbn [od_reader od_field_names od_field_id_length od_tree_seg_pos od_relative_offsets].
    assert (∀ p0, in_image p0 → tree <= p0 → dsafe_at p0 (d + 1) (decode_node fuel) (node_ok (Z.to_nat (max_object_depth l - (d + 1))))) as Hn
      by (intros; apply IH; lia || done).
    specialize (Hc Hn Hq ltac:(lia)). destruct (decode_container_node _ _ _) as [[v|e| |] s]; [|done..].
    destruct Hc as (p' & -> & Hp' & Hv). exists p'. cbn. split; [f_equal; lia|]. split; [done|].
    by replace (Z.to_nat (max_object_depth l - d)) with (S (Z.to_nat (max_object_depth l - (d + 1)))) by lia.
  - apply dsafe_rd. eapply rsafe_mono; [apply scalar_node_safe; [done|apply Hty]|].
    intros v q [Hv Hh]. split; [done|]. rewrite Hh. lia.
Qed.
End Tree.

(** ** The image *)

Lemma map_err_safe {A} p (m : OReaderM A) e Q : rsafe_at p m Q → rsafe_at p (map_err m e) Q.
Proof.
  intros (res & p' & Hm & Hp' & HQ). unfold rsafe_at, map_err. rewrite Hm.
  destruct res as [a|e'| |]; [by exists (Ok a), p'|by exists (Err e), p'|done..].
Qed.

Lemma preamble_safe p : in_image p → rsafe_at p read_preamble (λ _ _, True).
Proof.
  intros Hp. unfold read_preamble.
  eapply rsafe_at_bind; [by apply map_err_safe, read_raw_safe|]. intros magic q (Hm & Hl & _) Hq.
  assert (∀ i (f : Z → OReaderM (Z * Z)), 0 <= i < 3 → (∀ b, rsafe_at q (f b) (λ _ _, True)) →
    rsafe_at q (lift (index magic i) ≫= f) (λ _ _, True)) as Hidx.
  { intros i f Hi Hf. eapply (rsafe_at_bind _ _ _ (λ _ q', q' = q)); [|by intros b ? -> _].
    apply rsafe_lift; [done|]. eapply post_mono; [|by apply index_post; [|lia]]. done. }
  apply Hidx; [lia|]. intros m0. apply Hidx; [lia|]. intros m1. apply Hidx; [lia|]. intros m2.
  destruct (_ || _); [by apply rsafe_throw|].
  eapply rsafe_at_bind; [by apply map_err_safe, read_u8_safe|]. intros version q1 _ Hq1.
  destruct (_ && _); [by apply rsafe_throw|].
  eapply rsafe_at_bind; [by apply map_err_safe, read_u16_safe|]. intros flags q2 _ Hq2. by apply rsafe_ret.
Qed.

Definition header_ok (h : OsonHeader) : Prop :=
  (oh_field_id_length h = 1 ∨ oh_field_id_length h = 2 ∨ oh_field_id_length h = 4) ∧
  Forall (λ z, 0 <= z <= U32_MAX) [oh_num_short h; oh_short_seg_size h; oh_num_long h; oh_long_seg_size h; oh_tree_seg_size h] ∧
  0 <= oh_short_offsets_size h <= 4 ∧ 0 <= oh_long_offsets_size h <= 4.

(** An unsigned field of one, two or four bytes. *)
Lemma unsigned_safe p (m : OReaderM Z) :
  in_image p → In m [oson_read_u8; oson_read_u16be; oson_read_u32be] → rsafe_at p m (λ n _, 0 <= n <= U32_MAX).
Proof.
  intros Hp Hm. cbn in Hm. destruct Hm as [<-|[<-|[<-|[]]]];
    (eapply rsafe_mono; [by first [apply read_u8_safe|apply read_u16_safe|apply read_u32_safe]|]);
    unfold is_u8, U16_MAX, U32_MAX; cbv beta; lia.
Qed.

Lemma header_safe p version flags :
  in_image p → rsafe_at p (read_extended_header version flags) (λ h _, header_ok h).
Proof.
  intros Hp. unfold read_extended_header.
  eapply (rsafe_at_bind _ _ _ (λ r _, 0 <= r.1 <= U32_MAX ∧ (r.2 = 1 ∨ r.2 = 2 ∨ r.2 = 4))).
  { repeat case_match; (eapply (rsafe_at_bind _ _ _ (λ n _, 0 <= n <= U32_MAX)); [by apply unsigned_safe; [|cbn; tauto]|]; intros n q Hn Hq;
      apply rsafe_ret; [done|cbn; lia]). }
  intros [ns w] q [Hns Hw] Hq. cbn in Hns, Hw.
  eapply (rsafe_at_bind _ _ _ (λ r _, 0 <= r.2 <= U32_MAX ∧ 0 <= r.1 <= 4)).
  { case_match; (eapply (rsafe_at_bind _ _ _ (λ n _, 0 <= n <= U32_MAX)); [by apply unsigned_safe; [|cbn; tauto]|]; intros n q1 Hn Hq1;
      apply rsafe_ret; [done|cbn; lia]). }
  intros [sos sss] q1 [Hsss Hsos] Hq1. cbn in Hsss, Hsos.
  eapply (rsafe_at_bind _ _ _ (λ r _, 0 <= r.1.1 <= U32_MAX ∧ 0 <= r.1.2 <= 4 ∧ 0 <= r.2 <= U32_MAX)).
  { case_match; [|by apply rsafe_ret; [|unfold U32_MAX; cbn; lia]].
    do 3 (eapply (rsafe_at_bind _ _ _ (λ n _, 0 <= n <= U32_MAX)); [by apply unsigned_safe; [|cbn; tauto]|]; intros ? ? ? ?).
    apply rsafe_ret; [done|]. cbn. destruct (has_flag _ _); lia. }
  intros [[nl los] lss] q2 (Hnl & Hlos & Hlss) Hq2. cbn in Hnl, Hlos, Hlss.
  eapply (rsafe_at_bind _ _ _ (λ n _, 0 <= n <= U32_MAX)).
  { unfold read_size. destruct (has_flag _ _); apply unsigned_safe; cbn; tauto. }
  intros ts q3 Hts Hq3. eapply rsafe_at_bind; [by apply unsigned_safe; [|cbn; tauto]|]. intros ? q4 _ Hq4.
  apply rsafe_ret; [done|]. split; [done|]. split; [|done]. by do 5 (apply Forall_cons_iff; split; [done|]).
Qed.

Lemma segment_safe p names w rel num hash_id_size offsets_size name_len_size seg_size :
  in_image p → Forall (λ s, utf8_valid s = true) names →
  0 <= num <= U32_MAX → 0 <= hash_id_size <= 4 → 0 <= offsets_size <= 4 → 0 <= seg_size →
  match read_segment num hash_id_size offsets_size name_len_size seg_size (at_depth names w 0 rel p 0) with
  | (Ok _, s') => ∃ p' names', s' = at_depth names' w 0 rel p' 0 ∧ in_image p' ∧ Forall (λ s, utf8_valid s = true) names'
  | (Err _, _) => True
  | _ => False
  end.
Proof.
  intros Hp Hns Hn Hh Ho Hs. unfold read_segment. destruct (0 <? num); [|by exists p, names].
  pose proof (read_field_names_safe p num hash_id_size offsets_size name_len_size seg_size Hp Hn Hh Ho Hs)
    as (res & p' & Hrun & Hp' & HQ).
  st_run. unfold rd. cbn [od_reader at_depth]. rewrite Hrun. destruct res as [names'|e| |]; try done. st_run.
  exists p', (names ++ names'). split; [done|]. split; [done|]. apply Forall_app. done.
Qed.

Lemma extent_post n p s : post (λ _, True) (validate_tree_segment_extent n p s).
Proof.
  unfold validate_tree_segment_extent. eapply (post_bind (λ _, True)); [by apply post_ok_or|]. intros e _.
  repeat case_match; done.
Qed.

Context (Hdepth : max_object_depth l < USIZE_MAX).

Definition result_ok (v : OsonValue) : Prop :=
  oson_sane l v = true ∧ Z.of_nat (oson_height v) <= max_object_depth l.

Lemma root_safe names w rel p :
  in_image p → Forall (λ s, utf8_valid s = true) names → w = 1 ∨ w = 2 ∨ w = 4 →
  post result_ok (decode_node (decode_fuel l) (at_depth names w p rel p 0)).1.
Proof.
  intros Hp Hns Hw. assert (0 <= max_object_depth l <= USIZE_MAX) as Hd.
  { unfold limits_usize in Hu. rewrite Forall_forall in Hu. apply (Hu ("object_depth"%string, max_object_depth l)). cbn. tauto. }
  pose proof (node_safe names Hns w Hw p Hp rel Hdepth (decode_fuel l) p 0 Hp) as Hn.
  unfold decode_fuel, dsafe_at in *. specialize (Hn ltac:(lia) ltac:(lia) ltac:(lia)).
  destruct (decode_node _ _) as [[v|e| |] s]; [|done..]. destruct Hn as (p' & _ & _ & Hv & Hh).
  split; [done|lia].
Qed.

Lemma tree_safe p w rel h :
  in_image p → header_ok h → w = 1 ∨ w = 2 ∨ w = 4 →
  post result_ok (decode_tree (decode_fuel l) h (at_depth [] w 0 rel p 0)).1.
Proof.
  intros Hp (_ & Hall & Hso & Hlo) Hw. repeat (apply Forall_cons_iff in Hall as [? Hall]).
  unfold decode_tree. rewrite st_bindE.
  pose proof (segment_safe p [] w rel (oh_num_short h) 1 (oh_short_offsets_size h) 1 (oh_short_seg_size h)
    Hp ltac:(done) ltac:(done) ltac:(lia) Hso ltac:(lia)) as Hs.
  destruct (read_segment _ _ _ _ _ _) as [[[]|e| |] s]; [|done..].
  destruct Hs as (p1 & names1 & -> & Hp1 & Hn1). rewrite st_bindE.
  pose proof (segment_safe p1 names1 w rel (oh_num_long h) 2 (oh_long_offsets_size h) 2 (oh_long_seg_size h)
    Hp1 Hn1 ltac:(done) ltac:(lia) Hlo ltac:(lia)) as Hs.
  destruct (read_segment _ _ _ _ _ _) as [[[]|e| |] s]; [|done..].
  destruct Hs as (p2 & names2 & -> & Hp2 & Hn2).
  unfold rd. st_run. cbn [od_reader at_depth od_set_reader or_pos or_data rdr].
  pose proof (extent_post (Zlen data) p2 (oh_tree_seg_size h)) as He.
  destruct (validate_tree_segment_extent _ _ _) as [[]|e| |]; [|done..]. st_run.
  by apply (root_safe names2 w rel p2).
Qed.

Lemma image_safe p : in_image p → post result_ok (decode_oson_image (decode_fuel l) (rdr l data p)).1.
Proof.
  intros Hp. unfold decode_oson_image. rewrite st_bindE.
  destruct (preamble_safe p Hp) as (res & p1 & -> & Hp1 & HQ). destruct res as [[version flags]|e| |]; [|done..].
  cbn beta iota. destruct (has_flag flags TNS_JSON_FLAG_IS_SCALAR); rewrite st_bindE.
  - assert (rsafe_at p1 (read_size flags TNS_JSON_FLAG_TREE_SEG_UINT32) (λ _ _, True)) as (res & p2 & -> & Hp2 & HQ2).
    { unfold read_size. eapply rsafe_mono; [destruct (has_flag _ _); apply unsigned_safe; cbn; tauto|done]. }
    destruct res as [ts|e| |]; [|done..]. st_run. cbn [or_data or_pos rdr].
    pose proof (extent_post (Zlen data) p2 ts) as He.
    destruct (validate_tree_segment_extent _ _ _) as [[]|e| |]; [|done..]. st_run. unfold into_decoder.
    pose proof (root_safe [] 1 (has_flag flags TNS_JSON_FLAG_REL_OFFSET_MODE) p2
      Hp2 ltac:(done) ltac:(tauto)) as Hroot.
    unfold at_depth in Hroot. by destruct (decode_node _ _).
  - destruct (header_safe p1 version flags Hp1) as (res & p2 & -> & Hp2 & HQ2).
    destruct res as [h|e| |]; [|done..]. cbn in HQ2. rewrite st_bindE.
    destruct (reserve_safe p2 (saturating_usize (oh_num_short h + oh_num_long h)) Hp2) as (res & p3 & -> & Hp3 & HQ3).
    destruct res as [?|e| |]; [|done..]. unfold into_decoder.
    pose proof (tree_safe p3 (oh_field_id_length h) (has_flag flags TNS_JSON_FLAG_REL_OFFSET_MODE) h Hp3 HQ2) as Ht.
    specialize (Ht (proj1 HQ2)). unfold at_depth in Ht. by destruct (decode_tree _ _ _).
Qed.

End Safe.

Lemma decode_oson_post l data :
  limits_usize l → max_object_depth l < USIZE_MAX → bytes_ok data → Zlen data <= I64_MAX →
  post (λ v, oson_sane l v = true ∧ Z.of_nat (oson_height v) <= max_object_depth l)
    (decode_oson_with_limits data l).
Proof.
  intros Hu Hd Hb Hmax. unfold decode_oson_with_limits, oson_with_limits.
  eapply post_bind; [apply check_post|]. intros [] _. pose proof (validate_returns l) as Hret.
  destruct (validate l) as [l'|e| |] eqn:Hv; [|done..]. apply validate_same in Hv as ->. st_run.
  apply (image_safe l Hu data Hb Hmax Hd 0). split; [done|apply Zlen_nonneg].
Qed.

(** C19: Decoding a hostile OSON image returns: whatever the bytes, under any valid
    policy, [decode_oson_with_limits] gives an error or a value; no read leaves the
    image, no index or subtraction panics, and offsets that make a node contain
    itself end in the depth error.  A decoded value has UTF-8 strings and names,
    containers of at most [max_object_elements] children and at most
    [max_object_depth] levels. *)
Theorem oson_decode_total l data :
  limits_usize l → max_object_depth l < USIZE_MAX → bytes_ok data → Zlen data <= I64_MAX →
  post (λ v, oson_sane l v = true ∧ Z.of_nat (oson_height v) <= max_object_depth l)
    (decode_oson_with_limits data l).
Proof. apply decode_oson_post. Qed.

(** An array that contains itself: the root's child is the root. *)
Definition self_nested : bytes :=
  [255; 74; 90; 1; 0; 0; 0; 0; 0; 0; 4; 0; 0; 192; 1; 0; 0].

Lemma oson_decode_total_witness :
  decode_oson_with_limits self_nested limits_DEFAULT = Err (ResourceLimitErr "object_depth" 257 256) ∧
  post (λ v, oson_sane limits_DEFAULT v = true ∧ Z.of_nat (oson_height v) <= 256)
    (decode_oson_with_limits self_nested limits_DEFAULT).
Proof.
  split; [by vm_compute|].
  apply (oson_decode_total limits_DEFAULT self_nested);
    [apply limits_DEFAULT_valid|done|apply (bool_decide_unpack _); by vm_compute|done].
Defined.

(** ** Shared nodes

    [k] arrays in a row, each with two children that are the next one. *)

Definition shared_level (i : nat) : bytes :=
  container_type TNS_JSON_TYPE_ARRAY 2 :: 2 ::
  to_be_bytes 4 (10 * Z.of_nat (S i)) ++ to_be_bytes 4 (10 * Z.of_nat (S i)).

Definition shared_tree (k : nat) : bytes := concat (map shared_level (seq 0 k)) ++ [TNS_JSON_TYPE_NULL].

Definition shared_image (k : nat) : bytes := scalar_image (shared_tree k).

Fixpoint doubled (k : nat) : OsonValue :=
  match k with
  | O => JNull
  | S k => JArray [doubled k; doubled k]
  end.

Fixpoint leaves (v : OsonValue) : Z :=
  match v with
  | JArray vs => foldr Z.add 0 (map leaves vs)
  | JObject es => foldr Z.add 0 (map (λ e, leaves e.2) es)
  | _ => 1
  end.

Lemma doubled_leaves k : leaves (doubled k) = 2 ^ Z.of_nat k.
Proof.
  induction k as [|k IH]; [done|]. cbn [doubled leaves map foldr]. rewrite IH, Nat2Z.inj_succ, Z.pow_succ_r by lia. lia.
Qed.

Lemma doubled_height k : oson_height (doubled k) = k.
Proof. induction k as [|k IH]; [done|]. cbn [doubled oson_height map list_max foldr]. rewrite IH. cbn. lia. Qed.

Lemma doubled_canon k : canon (doubled k) = doubled k.
Proof. induction k as [|k IH]; [done|]. cbn [doubled canon map]. by rewrite IH. Qed.

Lemma Zlen_shared_level i : Zlen (shared_level i) = 10.
Proof. unfold shared_level. rewrite !Zlen_cons, Zlen_app, !Zlen_to_be_bytes. lia. Qed.

Lemma Zlen_shared_tree k : Zlen (shared_tree k) = 10 * Z.of_nat k + 1.
Proof.
  unfold shared_tree. rewrite Zlen_app, (Zlen_concat_const _ 10) by (intros; apply Zlen_shared_level).
  unfold Zlen. rewrite length_seq. cbn. lia.
Qed.

Lemma Zlen_shared_image k : (k <= 256)%nat → Zlen (shared_image k) = 10 * Z.of_nat k + 9.
Proof.
  intros Hk. unfold shared_image, scalar_image, scalar_preamble, length_bytes. rewrite Zlen_shared_tree.
  rewrite (proj2 (Z.ltb_lt _ _)) by lia. rewrite !Zlen_app, !Zlen_to_be_bytes, Zlen_shared_tree, !Zlen_cons, Zlen_nil. lia.
Qed.

(** Level [i] of the tree, and the leaf after the last level. *)
Lemma shared_at k i : (i < k)%nat → at_pos (shared_tree k) (10 * Z.of_nat i) (shared_level i).
Proof.
  intros Hi. unfold shared_tree. replace k with (i + S (k - i - 1))%nat by lia.
  rewrite seq_app, map_app, concat_app. cbn [seq map concat]. repeat rewrite <- app_assoc.
  replace (10 * Z.of_nat i) with (Zlen (concat (map shared_level (seq 0 i)))); [apply at_pos_mid|].
  rewrite (Zlen_concat_const _ 10) by (intros; apply Zlen_shared_level). unfold Zlen. rewrite length_seq. done.
Qed.

Lemma leaf_at k : at_pos (shared_tree k) (10 * Z.of_nat k) [TNS_JSON_TYPE_NULL].
Proof.
  unfold shared_tree. rewrite <- (app_nil_r [TNS_JSON_TYPE_NULL]).
  replace (10 * Z.of_nat k) with (Zlen (concat (map shared_level (seq 0 k)))); [apply at_pos_mid|].
  rewrite (Zlen_concat_const _ 10) by (intros; apply Zlen_shared_level). unfold Zlen. rewrite length_seq. done.
Qed.

Section Shared.
Context (k : nat) (Hk : (k <= 256)%nat).

Lemma shared_fits : fits limits_DEFAULT (shared_image k).
Proof. unfold fits. rewrite Zlen_shared_image by done. change (max_response_bytes limits_DEFAULT) with 268435456. unfold U32_MAX. lia. Qed.

(** Counted from the leaf, level [i] stands for [2 ^ i] leaves. *)
Lemma shared_node pos i : 0 <= pos → at_pos (shared_image k) pos (shared_tree k) → (i <= k)%nat →
  node_at limits_DEFAULT 1 [] (shared_image k) pos (10 * Z.of_nat (k - i)) (doubled i).
Proof.
  intros Hpos Hat. induction i as [|i IH]; intros Hi.
  - rewrite Nat.sub_0_r. apply (scalar_decodes limits_DEFAULT 1 [] _ [TNS_JSON_TYPE_NULL]); [done| |apply shared_fits|done|].
    + exists TNS_JSON_TYPE_NULL, []. split; [done|]. split; [done|]. intros data _. apply oparses_ret.
    + eapply at_pos_inside; [exact Hat|apply leaf_at].
  - set (off := 10 * Z.of_nat (S (k - S i))).
    assert (off = 10 * Z.of_nat (k - i)) as Hoff by lia.
    pose proof (at_pos_bound _ _ _ Hat) as Hb. rewrite Zlen_shared_tree in Hb.
    set (c := mkChild [] 0 off (doubled i)).
    assert (child_ok limits_DEFAULT 1 [] false (shared_image k) pos c) as Hc.
    { unfold child_ok. cbn [c ch_off ch_value ch_name]. rewrite Hoff. unfold U32_MAX.
      split; [lia|]. split; [lia|]. split; [apply IH; lia|done]. }
    apply (container_node limits_DEFAULT (proj1 limits_DEFAULT_valid) 1 [] ltac:(tauto) ltac:(done) _ _ _ TNS_JSON_TYPE_ARRAY
      [c; c] _ i); [apply shared_fits|by right|done|done|lia| |by do 2 (apply Forall_cons_iff; split; [done|])| |apply doubled_height|].
    + eapply at_pos_inside; [exact Hat|]. pose proof (shared_at k (k - S i) ltac:(lia)) as H. unfold shared_level in H. fold off in H.
      unfold offs_of. cbn [map concat c ch_off ids_of Z.eqb app]. rewrite app_nil_r. exact H.
    + by do 2 (apply Forall_cons_iff; split; [cbn; by rewrite doubled_height|]).
    + cbn. by rewrite !doubled_canon.
Qed.

Lemma shared_decodes : decode_oson_with_limits (shared_image k) limits_DEFAULT = Ok (doubled k).
Proof.
  rewrite <- (doubled_canon k).
  apply (scalar_image_decodes limits_DEFAULT); [apply limits_DEFAULT_valid..|apply shared_fits| |].
  - intros pos Hpos Hat. pose proof (shared_node pos k Hpos Hat ltac:(lia)) as H. by rewrite Nat.sub_diag in H.
  - rewrite doubled_height. change (max_object_depth limits_DEFAULT) with 256. lia.
Qed.
End Shared.

(** The limits do not bound the size of a decoded document.  Child offsets may
    point at the same node, and each reference is decoded again: under the default
    policy an image of [10 * k + 9] bytes, [k] up to the depth limit of 256, decodes
    to a value with [2 ^ k] leaves, although no container has more than two children. *)
Theorem oson_expansion (k : nat) :
  (k <= 256)%nat →
  Zlen (shared_image k) = 10 * Z.of_nat k + 9 ∧
  ∃ v, decode_oson (shared_image k) = Ok v ∧ leaves v = 2 ^ Z.of_nat k.
Proof.
  intros Hk. split; [by apply Zlen_shared_image|]. exists (doubled k).
  split; [by apply shared_decodes|apply doubled_leaves].
Qed.

Lemma oson_expansion_witness :
  Zlen (shared_image 60) = 609 ∧ ∃ v, decode_oson (shared_image 60) = Ok v ∧ leaves v = 1152921504606846976.
Proof. apply (oson_expansion 60). lia. Defined.
