(* ===== verification/Utf.v ===== *)
(** * Text of the wire

    Rust's [String] is kept as its UTF-8 bytes.  Here are the library functions the
    message parsers use on it ([String::from_utf8_lossy], [str::trim], [str::trim_end],
    [String::from_utf16], [format!("{:05}")]) and [decode_text_value]
    ([thin/codecs.rs]). *)

From S2P Require Import Prelude.
From S2P Require Import Protocol.
From S2P Require Import Reader.
From S2P Require Import Binds.

(** ** [String::from_utf8_lossy] *)

(** The next sequence: whether it is well formed, and how many bytes it takes.  An
    ill-formed one ends before the byte that breaks it. *)
Definition utf8_step (b0 : Z) (rest : bytes) : bool * nat :=
  let b1 := default 0 (rest !! 0%nat) in
  let b2 := default 0 (rest !! 1%nat) in
  let b3 := default 0 (rest !! 2%nat) in
  if between 0 127 b0 then (true, 1%nat)
  else if between 194 223 b0 then if is_cont b1 then (true, 2%nat) else (false, 1%nat)
  else if between 224 239 b0 then
    if negb (second_of_3 b0 b1) then (false, 1%nat)
    else if is_cont b2 then (true, 3%nat) else (false, 2%nat)
  else if between 240 244 b0 then
    if negb (second_of_4 b0 b1) then (false, 1%nat)
    else if negb (is_cont b2) then (false, 2%nat)
    else if is_cont b3 then (true, 4%nat) else (false, 3%nat)
  else (false, 1%nat).

Definition REPLACEMENT : bytes := [239; 191; 189].

(** The characters of a text, each as its bytes; [fuel] is the length, a character
    takes a byte or more. *)
Fixpoint lossy_chars (fuel : nat) (l : bytes) : list bytes :=
  match fuel, l with
  | S fuel, b0 :: rest =>
      let '(ok, n) := utf8_step b0 rest in
      (if ok then take n l else REPLACEMENT) :: lossy_chars fuel (drop n l)
  | _, _ => []
  end.

Definition utf8_chars (l : bytes) : list bytes := lossy_chars (length l) l.
Definition from_utf8_lossy (l : bytes) : bytes := concat (utf8_chars l).

(** [char::is_whitespace], the Unicode property [White_Space], on UTF-8 bytes. *)
Definition is_white (c : bytes) : bool :=
  match c with
  | [b] => between 9 13 b || (b =? 32)
  | [b0; b1] => (b0 =? 194) && ((b1 =? 133) || (b1 =? 160))
  | [b0; b1; b2] =>
      ((b0 =? 225) && (b1 =? 154) && (b2 =? 128))
      || ((b0 =? 226) && (b1 =? 128)
          && (between 128 138 b2 || (b2 =? 168) || (b2 =? 169) || (b2 =? 175)))
      || ((b0 =? 226) && (b1 =? 129) && (b2 =? 159))
      || ((b0 =? 227) && (b1 =? 128) && (b2 =? 128))
  | _ => false
  end.

Fixpoint drop_white (cs : list bytes) : list bytes :=
  match cs with
  | c :: cs' => if is_white c then drop_white cs' else cs
  | [] => []
  end.

Definition str_trim_end (l : bytes) : bytes := concat (rev (drop_white (rev (utf8_chars l)))).
Definition str_trim (l : bytes) : bytes := concat (rev (drop_white (rev (drop_white (utf8_chars l))))).

(** ** Decimal text *)

Fixpoint dec_digits (fuel : nat) (z : Z) (acc : bytes) : bytes :=
  match fuel with
  | O => acc
  | S fuel => if z <? 10 then (48 + z) :: acc else dec_digits fuel (z / 10) ((48 + z mod 10) :: acc)
  end.

(** [format!("ORA-{:05}", n)]; ten digits write every [u32]. *)
Definition ora_text (n : Z) : bytes :=
  let d := dec_digits 10 n [] in
  [79; 82; 65; 45] ++ repeat 48 (5 - length d) ++ d.

(** ** UTF-16 *)

(** A code point as UTF-8. *)
Definition utf8_encode (c : Z) : bytes :=
  if c <? 128 then [c]
  else if c <? 2048 then [192 + c / 64; 128 + c mod 64]
  else if c <? 65536 then [224 + c / 4096; 128 + c / 64 mod 64; 128 + c mod 64]
  else [240 + c / 262144; 128 + c / 4096 mod 64; 128 + c / 64 mod 64; 128 + c mod 64].

(** A [char] is a Unicode scalar value. *)
Definition is_char (c : Z) : bool := between 0 55295 c || between 57344 1114111 c.

(** [str::as_bytes], of a text given by its characters. *)
Definition as_bytes (s : chars) : bytes := flat_map utf8_encode s.

(** [bytes.chunks_exact(2)] with [u16::from_be_bytes]. *)
Fixpoint be_units (l : bytes) : list Z :=
  match l with
  | hi :: lo :: l => from_be_bytes [hi; lo] :: be_units l
  | _ => []
  end.

(** [String::from_utf16] *)
Fixpoint from_utf16 (units : list Z) : option bytes :=
  match units with
  | [] => Some []
  | u :: rest =>
      if between 55296 57343 u then
        match rest with
        | v :: rest =>
            if (u <? 56320) && between 56320 57343 v
            then (λ t, utf8_encode (65536 + (u - 55296) * 1024 + (v - 56320)) ++ t) <$> from_utf16 rest
            else None
        | [] => None
        end
      else (λ t, utf8_encode u ++ t) <$> from_utf16 rest
  end.


Definition decode_text_value (b : bytes) (csfrm : Z) : Res bytes :=
  if csfrm =? CS_FORM_NCHAR then
    let units := be_units b in
    if negb (Zlen units * 2 =? Zlen b) then Err (TtcDecode "invalid UTF-16 text length")
    else ok_or (from_utf16 units) (TtcDecode "invalid UTF-16 text")
  else if utf8_valid b then Ok b else Err (TtcDecode "invalid UTF-8 text").

(** ** The results are text *)

Lemma utf8_valid_app a b : utf8_valid a = true → utf8_valid (a ++ b) = utf8_valid b.
Proof.
  remember (length a) as n eqn:Hn. revert a Hn. induction (lt_wf n) as [n _ IH]. intros a -> Ha.
  destruct a as [|b0 a]; [done|]. cbn [utf8_valid app] in *. destruct (between 0 127 b0).
  { eapply IH; [|reflexivity|done]. cbn. lia. }
  destruct a as [|b1 a]; [done|]. cbn [app] in *. destruct (between 194 223 b0).
  { apply andb_true_iff in Ha as [-> Ha]. cbn. eapply IH; [|reflexivity|done]. cbn. lia. }
  destruct a as [|b2 a]; [done|]. cbn [app] in *. destruct (between 224 239 b0).
  { apply andb_true_iff in Ha as [-> Ha]. cbn. eapply IH; [|reflexivity|done]. cbn. lia. }
  destruct a as [|b3 a]; [done|]. cbn [app] in *. apply andb_true_iff in Ha as [-> Ha]. cbn.
  eapply IH; [|reflexivity|done]. cbn. lia.
Qed.

Lemma is_cont_zero : is_cont 0 = false.
Proof. done. Qed.
Lemma second_3_zero b0 : second_of_3 b0 0 = false.
Proof. unfold second_of_3. by repeat case_match. Qed.
Lemma second_4_zero b0 : second_of_4 b0 0 = false.
Proof. unfold second_of_4. by repeat case_match. Qed.

(** A step is a prefix that is well formed by itself, or fails; and a text is well
    formed when its steps are. *)
Lemma utf8_step_spec b0 rest :
  let '(ok, n) := utf8_step b0 rest in
  (1 <= n)%nat ∧
  (ok = true → utf8_valid (take n (b0 :: rest)) = true ∧ length (take n (b0 :: rest)) = n) ∧
  utf8_valid (b0 :: rest) = ok && utf8_valid (drop n (b0 :: rest)).
Proof.
  unfold utf8_step. cbn [utf8_valid].
  destruct (between 0 127 b0) eqn:E1.
  { cbn. rewrite E1. rewrite drop_0, take_0. done. }
  assert (∀ (l : bytes), take 0 l = [] ∧ drop 0 l = l) as Htd by (intros; split; [apply take_0|apply drop_0]).
  destruct rest as [|b1 rest]; cbn [lookup list_lookup default from_option].
  { unfold id. rewrite is_cont_zero, second_3_zero, second_4_zero. cbn [negb].
    destruct (between 194 223 b0); [|destruct (between 224 239 b0); [|destruct (between 240 244 b0)]];
      (split; [lia|split; [done|by rewrite ?andb_false_r]]). }
  unfold id. destruct (between 194 223 b0) eqn:E2.
  { destruct (is_cont b1) eqn:C1; (split; [lia|]).
    - cbn. rewrite E1, E2, C1, drop_0, take_0. done.
    - split; [done|by rewrite andb_false_l]. }
  destruct rest as [|b2 rest]; cbn [lookup list_lookup from_option].
  { rewrite is_cont_zero. destruct (between 224 239 b0) eqn:E3; [|destruct (between 240 244 b0) eqn:E4].
    - destruct (second_of_3 b0 b1); (split; [cbn; lia|split; [done|done]]).
    - destruct (second_of_4 b0 b1); (split; [cbn; lia|split; [done|done]]).
    - split; [lia|]. split; done. }
  destruct (between 224 239 b0) eqn:E3.
  { destruct (second_of_3 b0 b1) eqn:C1, (is_cont b2) eqn:C2; cbn [negb]; (split; [lia|split]);
      first [done | intros _; cbn; rewrite E1, E2, E3, C1, C2, take_0; done | cbn; by rewrite ?drop_0]. }
  destruct rest as [|b3 rest]; cbn [lookup list_lookup from_option].
  { rewrite is_cont_zero. destruct (between 240 244 b0) eqn:E4; [|split; [lia|split; done]].
    destruct (second_of_4 b0 b1), (is_cont b2); cbn [negb]; (split; [lia|split; done]). }
  destruct (between 240 244 b0) eqn:E4; [|split; [lia|split; done]].
  destruct (second_of_4 b0 b1) eqn:C1, (is_cont b2) eqn:C2, (is_cont b3) eqn:C3; cbn [negb]; (split; [lia|split]);
    first [done | intros _; cbn; rewrite E1, E2, E3, E4, C1, C2, C3, take_0; done | cbn; by rewrite ?drop_0].
Qed.

Lemma lossy_chars_spec fuel : ∀ l, (length l <= fuel)%nat →
  utf8_valid (concat (lossy_chars fuel l)) = true ∧
  (utf8_valid l = true → concat (lossy_chars fuel l) = l).
Proof.
  induction fuel as [|fuel IH]; intros l Hl; [by destruct l; [|cbn in Hl; lia]|].
  destruct l as [|b0 rest]; [done|]. cbn [lossy_chars]. pose proof (utf8_step_spec b0 rest) as Hs.
  destruct (utf8_step b0 rest) as [ok n]. destruct Hs as (Hn & Hok & Hv). cbn [concat].
  destruct (IH (drop n (b0 :: rest))) as [IH1 IH2]; [rewrite length_drop; cbn in *; lia|].
  destruct ok.
  - destruct (Hok eq_refl) as [Hp Hlen]. rewrite utf8_valid_app by done. split; [done|].
    intros H. rewrite Hv in H. rewrite IH2 by done. apply take_drop.
  - rewrite utf8_valid_app by done. split; [done|]. intros H. by rewrite Hv in H.
Qed.

Lemma from_utf8_lossy_valid l : utf8_valid (from_utf8_lossy l) = true.
Proof. by apply lossy_chars_spec. Qed.

Lemma from_utf8_lossy_id l : utf8_valid l = true → from_utf8_lossy l = l.
Proof. by apply lossy_chars_spec. Qed.

Lemma between_in lo hi z : lo <= z <= hi → between lo hi z = true.
Proof. intros. by apply between_true. Qed.
Lemma between_out lo hi z : z < lo ∨ hi < z → between lo hi z = false.
Proof. unfold between. lia. Qed.

Lemma low_bits c : 128 <= 128 + c mod 64 <= 191.
Proof. pose proof (Z.mod_pos_bound c 64). lia. Qed.

Lemma utf8_encode_valid c :
  0 <= c < 1114112 → c < 55296 ∨ 57343 < c → utf8_valid (utf8_encode c) = true.
Proof.
  intros Hc Hs. unfold utf8_encode. pose proof (low_bits c) as L1. pose proof (low_bits (c / 64)) as L2.
  pose proof (low_bits (c / 4096)) as L3.
  assert (c / 4096 = c / 64 / 64) as H64 by (rewrite Z.div_div by lia; done).
  assert (c / 262144 = c / 4096 / 64) as H4096 by (rewrite Z.div_div by lia; done).
  pose proof (Z.div_mod c 64 ltac:(lia)) as D1. pose proof (Z.div_mod (c / 64) 64 ltac:(lia)) as D2.
  pose proof (Z.div_mod (c / 4096) 64 ltac:(lia)) as D3. rewrite <- H64 in D2. rewrite <- H4096 in D3.
  destruct (Z.ltb_spec c 128); [cbn [utf8_valid]; by rewrite between_in by lia|].
  destruct (Z.ltb_spec c 2048).
  { cbn [utf8_valid]. rewrite (between_out 0 127), (between_in 194 223) by lia. unfold is_cont. by rewrite between_in by lia. }
  destruct (Z.ltb_spec c 65536).
  { cbn [utf8_valid]. rewrite (between_out 0 127), (between_out 194 223), (between_in 224 239) by lia.
    unfold second_of_3, is_cont. rewrite (between_in _ _ (128 + c mod 64)) by lia.
    destruct (Z.eqb_spec (224 + c / 4096) 224); [by rewrite between_in by lia|].
    destruct (Z.eqb_spec (224 + c / 4096) 237); [by rewrite between_in by lia|]. by rewrite between_in by lia. }
  cbn [utf8_valid]. rewrite (between_out 0 127), (between_out 194 223), (between_out 224 239), (between_in 240 244) by lia.
  unfold second_of_4, is_cont. rewrite (between_in _ _ (128 + c mod 64)), (between_in _ _ (128 + c / 64 mod 64)) by lia.
  destruct (Z.eqb_spec (240 + c / 262144) 240); [by rewrite between_in by lia|].
  destruct (Z.eqb_spec (240 + c / 262144) 244); [by rewrite between_in by lia|]. by rewrite between_in by lia.
Qed.

Lemma utf8_encode_ok c : is_char c = true → bytes_ok (utf8_encode c).
Proof.
  intros Hc. assert (0 <= c <= 1114111) as Hr by (unfold is_char, between in Hc; lia). clear Hc.
  unfold utf8_encode. pose proof (low_bits c). pose proof (low_bits (c / 64)). pose proof (low_bits (c / 4096)).
  assert (∀ k, 0 < k → 0 <= c / k <= 1114111 / k) as Hd by (intros k Hk; split; [apply Z.div_pos; lia|apply Z.div_le_mono; lia]).
  pose proof (Hd 64 ltac:(lia)). pose proof (Hd 4096 ltac:(lia)). pose proof (Hd 262144 ltac:(lia)) as Hq. change (1114111 / 262144) with 4 in Hq.
  assert (c < 2048 → c / 64 < 32) by (intros; apply Z.div_lt_upper_bound; lia).
  assert (c < 65536 → c / 4096 < 16) by (intros; apply Z.div_lt_upper_bound; lia).
  destruct (Z.ltb_spec c 128); [|destruct (Z.ltb_spec c 2048); [|destruct (Z.ltb_spec c 65536)]];
    repeat (apply Forall_cons; [unfold is_u8; lia|]); apply Forall_nil.
Qed.

Lemma as_bytes_text s : Forall (λ c, is_char c = true) s → bytes_ok (as_bytes s) ∧ utf8_valid (as_bytes s) = true.
Proof.
  induction 1 as [|c s Hc _ [IH1 IH2]]; [by split; [apply Forall_nil|]|]. cbn [as_bytes flat_map]. split.
  - apply Forall_app. split; [by apply utf8_encode_ok|done].
  - assert (utf8_valid (utf8_encode c) = true) by (apply utf8_encode_valid; unfold is_char, between in Hc; lia).
    by rewrite utf8_valid_app.
Qed.

Lemma as_bytes_ascii s : Forall (λ c, 0 <= c <= 127) s → as_bytes s = s.
Proof.
  induction 1 as [|c s Hc _ IH]; [done|]. cbn. unfold as_bytes in IH. rewrite IH. unfold utf8_encode.
  by replace (c <? 128) with true by lia.
Qed.

Lemma from_utf16_valid units t :
  Forall (λ u, 0 <= u <= U16_MAX) units → from_utf16 units = Some t → utf8_valid t = true.
Proof.
  remember (length units) as n eqn:Hn. revert units t Hn. induction (lt_wf n) as [n _ IH]. intros units t -> Hu Ht.
  destruct units as [|u units]; [by injection Ht as <-|]. cbn [from_utf16] in Ht.
  apply Forall_cons_iff in Hu as [Hu0 Hu]. unfold U16_MAX in *. destruct (between 55296 57343 u) eqn:E.
  - destruct units as [|v units]; [done|]. apply Forall_cons_iff in Hu as [Hv Hu].
    apply between_true in E. destruct ((u <? 56320) && between 56320 57343 v) eqn:E2; [|done].
    apply andb_true_iff in E2 as [E2 E3]. apply between_true in E3. apply Z.ltb_lt in E2.
    destruct (from_utf16 units) as [t'|] eqn:Ht'; [|done]. injection Ht as <-.
    rewrite utf8_valid_app by (apply utf8_encode_valid; lia). eapply IH; [|reflexivity|done|done]. cbn. lia.
  - assert (u < 55296 ∨ 57343 < u) by (unfold between in E; lia).
    destruct (from_utf16 units) as [t'|] eqn:Ht'; [|done]. injection Ht as <-.
    rewrite utf8_valid_app by (apply utf8_encode_valid; lia). eapply IH; [|reflexivity|done|done]. cbn. lia.
Qed.

Lemma be_units_range b : bytes_ok b → Forall (λ u, 0 <= u <= U16_MAX) (be_units b).
Proof.
  remember (length b) as n eqn:Hn. revert b Hn. induction (lt_wf n) as [n _ IH]. intros b -> Hb.
  destruct b as [|hi [|lo b]]; [done..|]. apply Forall_cons_iff in Hb as [Hhi Hb]. apply Forall_cons_iff in Hb as [Hlo Hb].
  cbn [be_units]. constructor; [|eapply IH; [|reflexivity|done]; cbn; lia].
  pose proof (from_be_bytes_range [hi; lo]) as Hr. unfold bytes_ok, U16_MAX in *.
  assert (Forall is_u8 [hi; lo]) as Hok by (by apply Forall_cons_iff; split; [|apply Forall_cons_iff; split]).
  specialize (Hr Hok). change (256 ^ Z.of_nat (length [hi; lo])) with 65536 in Hr. lia.
Qed.

Lemma decode_text_post b csfrm : bytes_ok b → post (λ t, utf8_valid t = true) (decode_text_value b csfrm).
Proof.
  intros Hb. unfold decode_text_value. apply post_if; intros _.
  - apply post_if; intros _; [done|]. apply post_ok_or. intros t Ht. eapply from_utf16_valid; [|done]. by apply be_units_range.
  - apply post_if; intros H; done.
Qed.
