(* ===== verification/ServerError.v ===== *)
(** * Server errors, row identifiers and piggybacks ([thin/errors.rs], [thin/fetch.rs],
    [thin/sessionless.rs])

    The parts of a response that are not rows: the error record that ends a call, the
    text of row identifiers, the key/value pairs and the server-side piggybacks. *)

From Stdlib Require Import Ascii.
From S2P Require Import Prelude.
From S2P Require Import Protocol.
From S2P Require Import Limits.
From S2P Require Import Writer.
From S2P Require Import Reader.
From S2P Require Import Utf.

(** ** Row identifiers *)

Definition TNS_BASE64_ALPHABET : bytes :=
  [65; 66; 67; 68; 69; 70; 71; 72; 73; 74; 75; 76; 77; 78; 79; 80; 81; 82; 83; 84; 85; 86; 87; 88; 89; 90;
   97; 98; 99; 100; 101; 102; 103; 104; 105; 106; 107; 108; 109; 110; 111; 112; 113; 114; 115; 116; 117;
   118; 119; 120; 121; 122; 48; 49; 50; 51; 52; 53; 54; 55; 56; 57; 43; 47].

(** [TNS_BASE64_ALPHABET[usize::from(pos)]]; every [pos] has six bits. *)
Definition base64 (pos : Z) : Z := default 0 (TNS_BASE64_ALPHABET !! Z.to_nat pos).

(** The loop fills the text from its end. *)
Fixpoint encode_rowid_component (value : Z) (size : nat) (encoded : bytes) : bytes :=
  match size with
  | O => encoded
  | S size => encode_rowid_component (Z.shiftr value 6) size (base64 (Z.land value 63) :: encoded)
  end.

Definition encode_physical_rowid (rba partition_id block_num slot_num : Z) : bytes :=
  encode_rowid_component rba 6 [] ++ encode_rowid_component partition_id 3 []
  ++ encode_rowid_component block_num 6 [] ++ encode_rowid_component slot_num 3 [].

(** [encode_rowid]: all zero is no row. *)
Definition encode_rowid (rba partition_id block_num slot_num : Z) : option bytes :=
  if (rba =? 0) && (partition_id =? 0) && (block_num =? 0) && (slot_num =? 0) then None
  else Some (encode_physical_rowid rba partition_id block_num slot_num).

(** The loop of [encode_logical_urowid]; [input_offset] walks the bytes after the
    first, [input_len] counts them. *)
Fixpoint encode_triples (input : bytes) : bytes :=
  match input with
  | [] => []
  | [b0] => [base64 (Z.shiftr b0 2); base64 (Z.shiftl (Z.land b0 3) 4)]
  | [b0; b1] =>
      [base64 (Z.shiftr b0 2);
       base64 (Z.lor (Z.shiftl (Z.land b0 3) 4) (Z.shiftr (Z.land b1 240) 4));
       base64 (Z.shiftl (Z.land b1 15) 2)]
  | b0 :: b1 :: b2 :: input =>
      base64 (Z.shiftr b0 2)
      :: base64 (Z.lor (Z.shiftl (Z.land b0 3) 4) (Z.shiftr (Z.land b1 240) 4))
      :: base64 (Z.lor (Z.shiftl (Z.land b1 15) 2) (Z.shiftr (Z.land b2 192) 6))
      :: base64 (Z.land b2 63)
      :: encode_triples input
  end.

Definition encode_logical_urowid (b : bytes) : bytes := 42 :: encode_triples (drop 1 b).

Definition read_rowid_parts : ReaderM (Z * Z * Z * Z) :=
  rba ← read_ub4;
  partition_id ← read_ub2;
  _ ← skip 1;
  block_num ← read_ub4;
  slot_num ← read_ub2;
  mret (rba, partition_id, block_num, slot_num).

Definition read_rowid : ReaderM (option bytes) :=
  '(rba, partition_id, block_num, slot_num) ← read_rowid_parts;
  mret (encode_rowid rba partition_id block_num slot_num).

Definition parse_rowid_value : ReaderM (option bytes) :=
  len ← read_u8;
  if (len =? 0) || (len =? TNS_NULL_LENGTH_INDICATOR) then mret None
  else
    '(rba, partition_id, block_num, slot_num) ← read_rowid_parts;
    mret (Some (encode_physical_rowid rba partition_id block_num slot_num)).

(** [bytes[i]] for each [i], as [from_be_bytes] takes them. *)
Fixpoint indexes (b : bytes) (places : list Z) : Res (list Z) :=
  match places with
  | [] => Ok []
  | i :: places => x ← index b i; xs ← indexes b places; Ok (x :: xs)
  end.

Definition urowid_text (b : bytes) : Res bytes :=
  if Zlen b <? 13 then Err (TtcDecode "encoded UROWID too short")
  else
    b0 ← index b 0;
    if b0 =? 1 then
      rba ← indexes b [1; 2; 3; 4];
      partition_id ← indexes b [5; 6];
      block_num ← indexes b [7; 8; 9; 10];
      slot_num ← indexes b [11; 12];
      Ok (encode_physical_rowid (from_be_bytes rba) (from_be_bytes partition_id)
            (from_be_bytes block_num) (from_be_bytes slot_num))
    else Ok (encode_logical_urowid b).

Definition parse_urowid_value : ReaderM (option bytes) :=
  first ← read_bytes;
  match first with
  | None => mret None
  | Some _ =>
      second ← read_bytes;
      match second with
      | None => mret None
      | Some b => t ← lift (urowid_text b); mret (Some t)
      end
  end.

(** ** The error record *)

Record BatchServerError := mkBatchError { be_code : Z; be_offset : Z; be_message : bytes }.

(** [struct ServerErrorInfo] *)
Record ErrorInfo := mkErrorInfo {
  sei_number : Z;
  sei_message : bytes;
  sei_cursor_id : Z;
  sei_pos : Z;
  sei_row_count : Z;
  sei_rowid : option bytes;
  sei_batch_errors : list BatchServerError;
  sei_compilation_error_warning : bool;
  sei_call_status : Z
}.

Definition text_string (b : bytes) : string :=
  String.string_of_list_ascii (map (λ z, ascii_of_nat (Z.to_nat z)) b).

(** [ServerErrorInfo::into_details] *)
Definition into_details (info : ErrorInfo) : ServerErrorDetails :=
  mkServerErrorDetails (text_string (sei_message info)) (sei_number info) (sei_cursor_id info)
    (sei_pos info) (sei_row_count info) (text_string <$> sei_rowid info) None.

(** The codes, one per batch error; [long] is [first_byte == TNS_LONG_LENGTH_INDICATOR]. *)
Fixpoint read_batch_codes (n : nat) (long : bool) : ReaderM (list BatchServerError) :=
  match n with
  | O => mret []
  | S n =>
      _ ← (if long then _ ← read_ub4; mret () else mret ());
      code ← read_ub2;
      rest ← read_batch_codes n long;
      mret (mkBatchError code 0 [] :: rest)
  end.

Definition set_batch (index : nat) (f : BatchServerError → BatchServerError)
  (l : list BatchServerError) : list BatchServerError := alter f index l.

Fixpoint read_batch_offsets (n : nat) (long : bool) (index : nat) (errors : list BatchServerError)
  : ReaderM (list BatchServerError) :=
  match n with
  | O => mret errors
  | S n =>
      _ ← (if long then _ ← read_ub4; mret () else mret ());
      offset ← read_ub4;
      read_batch_offsets n long (S index)
        (set_batch index (λ e, mkBatchError (be_code e) offset (be_message e)) errors)
  end.

Fixpoint read_batch_messages (n index : nat) (errors : list BatchServerError)
  : ReaderM (list BatchServerError) :=
  match n with
  | O => mret errors
  | S n =>
      _ ← read_ub2;
      b ← read_bytes;
      let message := match b with Some b => str_trim_end (from_utf8_lossy b) | None => [] end in
      _ ← skip 2;
      read_batch_messages n (S index)
        (set_batch index (λ e, mkBatchError (be_code e) (be_offset e) message) errors)
  end.

(** The three arrays of batch errors. *)
Definition read_batch_errors : ReaderM (list BatchServerError) :=
  count ← read_ub2;
  errors ← (if 0 <? count then
              first_byte ← read_u8;
              let long := first_byte =? TNS_LONG_LENGTH_INDICATOR in
              errors ← read_batch_codes (Z.to_nat count) long;
              _ ← (if long then skip 1 else mret ());
              mret errors
            else mret []);
  count ← read_ub4;
  errors ← (if 0 <? count then
              first_byte ← read_u8;
              let long := first_byte =? TNS_LONG_LENGTH_INDICATOR in
              errors ← read_batch_offsets (Z.to_nat count) long 0 errors;
              _ ← (if long then skip 1 else mret ());
              mret errors
            else mret errors);
  count ← read_ub2;
  if 0 <? count then
    _ ← skip 1;
    read_batch_messages (Z.to_nat count) 0 errors
  else mret errors.

(** [reader.remaining() > 2 && reader.peek_u8()? == 0] *)
Definition next_is_zero : ReaderM bool :=
  n ← gets remaining;
  if 2 <? n then b ← peek_u8; mret (b =? 0) else mret false.

Definition parse_server_error_info (ttc_field_version : Z) : ReaderM ErrorInfo :=
  call_status ← read_ub4;
  _ ← read_ub2;
  _ ← read_ub4;
  _ ← read_ub2;
  _ ← read_ub2;
  _ ← read_ub2;
  cursor_id ← read_ub2;
  error_pos ← read_sb4;
  _ ← skip 5;
  warning_flags ← read_u8;
  rowid ← read_rowid;
  _ ← read_ub4;
  _ ← skip 2;
  _ ← read_ub2;
  _ ← read_ub4;
  _ ← read_bytes_with_length;
  batch_errors ← read_batch_errors;
  error_number ← read_ub4;
  row_count ← read_ub8;
  trailer ← (if reads_error_sql_type_and_checksum ttc_field_version then mret true else next_is_zero);
  _ ← (if (trailer : bool) then _ ← read_ub4; _ ← read_ub4; mret () else mret ());
  message ← (if negb (error_number =? 0) then
               b ← read_bytes;
               mret (match b with
                     | Some b => str_trim (from_utf8_lossy b)
                     | None => ora_text error_number
                     end)
             else mret []);
  mret (mkErrorInfo error_number message cursor_id (if 0 <? error_pos then error_pos else 0)
          row_count rowid batch_errors (negb (Z.land warning_flags 32 =? 0)) call_status).

Definition parse_server_error (ttc_field_version : Z) : ReaderM (option bytes) :=
  info ← parse_server_error_info ttc_field_version;
  mret (if sei_number info =? 0 then None
        else if bool_decide (sei_message info = []) then Some (ora_text (sei_number info))
        else Some (sei_message info)).

(** ** Piggybacks *)

Inductive SessionlessTxnState :=
| TxnSet (started_on_server : bool)
| TxnUnset.

Definition TNS_TPC_TXNID_SYNC_SET : Z := 64.
Definition TNS_TPC_TXNID_SYNC_UNSET : Z := 128.
Definition TNS_TPC_TXNID_SYNC_SERVER : Z := 1.
Definition TNS_KEYWORD_NUM_TRANSACTION_ID : Z := 201.

Definition decode_sessionless_txn_state (binary : bytes) : Res (option SessionlessTxnState) :=
  if Zlen binary <? 2 then Err (TtcDecode "short sessionless txn state")
  else
    state ← index binary (Zlen binary - 2);
    sync_version ← index binary (Zlen binary - 1);
    if negb (sync_version =? 1) then Err (TtcDecode "unknown transaction sync version")
    else if negb (Z.land state TNS_TPC_TXNID_SYNC_UNSET =? 0) then Ok (Some TxnUnset)
    else if negb (Z.land state TNS_TPC_TXNID_SYNC_SET =? 0)
    then Ok (Some (TxnSet (negb (Z.land state TNS_TPC_TXNID_SYNC_SERVER =? 0))))
    else Ok None.

(** A field that is present when the [ub2] in front of it is positive. *)
Definition optional_bytes : ReaderM (option bytes) :=
  n ← read_ub2;
  if 0 <? n then read_bytes else mret None.

Fixpoint read_keyword_value_pairs (n : nat) (state : option SessionlessTxnState)
  : ReaderM (option SessionlessTxnState) :=
  match n with
  | O => mret state
  | S n =>
      _ ← optional_bytes;
      binary_value ← optional_bytes;
      keyword_num ← read_ub2;
      state ← (match binary_value with
               | Some binary =>
                   if keyword_num =? TNS_KEYWORD_NUM_TRANSACTION_ID then
                     update ← lift (decode_sessionless_txn_state binary);
                     mret (match update with Some u => Some u | None => state end)
                   else mret state
               | None => mret state
               end);
      read_keyword_value_pairs n state
  end.

Definition read_keyword_value_pairs_for_txn_state (num_pairs : Z)
  : ReaderM (option SessionlessTxnState) := read_keyword_value_pairs (Z.to_nat num_pairs) None.

Definition skip_keyword_value_pairs (num_pairs : Z) : ReaderM () :=
  _ ← read_keyword_value_pairs_for_txn_state num_pairs; mret ().

Definition TNS_SERVER_PIGGYBACK_QUERY_CACHE_INVALIDATION : Z := 1.
Definition TNS_SERVER_PIGGYBACK_OS_PID_MTS : Z := 2.
Definition TNS_SERVER_PIGGYBACK_TRACE_EVENT : Z := 3.
Definition TNS_SERVER_PIGGYBACK_SESS_RET : Z := 4.
Definition TNS_SERVER_PIGGYBACK_SYNC : Z := 5.
Definition TNS_SERVER_PIGGYBACK_LTXID : Z := 7.
Definition TNS_SERVER_PIGGYBACK_AC_REPLAY_CONTEXT : Z := 8.
Definition TNS_SERVER_PIGGYBACK_EXT_SYNC : Z := 9.
Definition TNS_SERVER_PIGGYBACK_SESS_SIGNATURE : Z := 10.

(** The elements of a session-return piggyback. *)
Fixpoint skip_session_elements (n : nat) : ReaderM () :=
  match n with
  | O => mret ()
  | S n => _ ← optional_bytes; _ ← optional_bytes; _ ← read_ub2; skip_session_elements n
  end.

Definition skip_server_side_piggyback : ReaderM (option SessionlessTxnState) :=
  opcode ← read_u8;
  if opcode =? TNS_SERVER_PIGGYBACK_LTXID then _ ← read_bytes_with_length; mret None
  else if (opcode =? TNS_SERVER_PIGGYBACK_QUERY_CACHE_INVALIDATION)
          || (opcode =? TNS_SERVER_PIGGYBACK_TRACE_EVENT) then mret None
  else if opcode =? TNS_SERVER_PIGGYBACK_OS_PID_MTS then _ ← read_ub2; _ ← read_bytes; mret None
  else if opcode =? TNS_SERVER_PIGGYBACK_SYNC then
    _ ← read_ub2;
    _ ← skip 1;
    num_elements ← read_ub2;
    _ ← skip 1;
    txn_state ← read_keyword_value_pairs_for_txn_state num_elements;
    _ ← read_ub4;
    mret txn_state
  else if opcode =? TNS_SERVER_PIGGYBACK_EXT_SYNC then _ ← read_ub2; _ ← skip 1; mret None
  else if opcode =? TNS_SERVER_PIGGYBACK_AC_REPLAY_CONTEXT then
    _ ← read_ub2; _ ← skip 1; _ ← read_ub4; _ ← read_ub4; _ ← skip 1; _ ← read_bytes_with_length; mret None
  else if opcode =? TNS_SERVER_PIGGYBACK_SESS_RET then
    _ ← read_ub2;
    _ ← skip 1;
    num_elements ← read_ub2;
    _ ← (if 0 <? num_elements then _ ← skip 1; skip_session_elements (Z.to_nat num_elements) else mret ());
    _ ← read_ub4; _ ← read_ub4; _ ← read_ub2; mret None
  else if opcode =? TNS_SERVER_PIGGYBACK_SESS_SIGNATURE then
    _ ← read_ub2; _ ← skip 1; _ ← read_ub8; _ ← read_ub8; _ ← read_ub8; mret None
  else throw (UnsupportedFeature "server-side piggyback").
