(* ===== verification/Fetch.v ===== *)
(** * Query responses ([thin/fetch.rs])

    The owned decoder: column descriptions, rows with duplicate-column compression,
    output and returned binds, implicit result sets, return parameters, and the loop
    over the messages of a response.  Text is kept as its UTF-8 bytes.  A binary float
    is kept as the bit pattern of the double the source prints. *)

From S2P Require Import Prelude.
From S2P Require Import Protocol.
From S2P Require Import Limits.
From S2P Require Import Writer.
From S2P Require Import Reader.
From S2P Require Import Datetime.
From S2P Require Import Number.
From S2P Require Import Vector.
From S2P Require Import ShapeCache.
From S2P Require Import Binds.
From S2P Require Import Oson.
From S2P Require Import Utf.
From S2P Require Import ServerError.

Definition ORA_TYPE_NUM_ROWID : Z := 11.
Definition ORA_TYPE_NUM_BFILE : Z := 114.
Definition ORA_TYPE_NUM_UROWID : Z := 208.

Definition TNS_MSG_TYPE_ERROR : Z := 4.
Definition TNS_MSG_TYPE_ROW_HEADER : Z := 6.
Definition TNS_MSG_TYPE_ROW_DATA : Z := 7.
Definition TNS_MSG_TYPE_PARAMETER : Z := 8.
Definition TNS_MSG_TYPE_STATUS : Z := 9.
Definition TNS_MSG_TYPE_IO_VECTOR : Z := 11.
Definition TNS_MSG_TYPE_DESCRIBE_INFO : Z := 16.
Definition TNS_MSG_TYPE_FLUSH_OUT_BINDS : Z := 19.
Definition TNS_MSG_TYPE_BIT_VECTOR : Z := 21.
Definition TNS_MSG_TYPE_SERVER_SIDE_PIGGYBACK : Z := 23.
Definition TNS_MSG_TYPE_IMPLICIT_RESULTSET : Z := 27.
Definition TNS_MSG_TYPE_END_OF_RESPONSE : Z := 29.
Definition TNS_MSG_TYPE_TOKEN : Z := 33.

Definition TNS_BIND_DIR_INPUT : Z := 32.
Definition TNS_ERR_NO_DATA_FOUND : Z := 1403.
Definition TNS_ERR_ARRAY_DML_ERRORS : Z := 24381.
Definition TNS_UDS_FLAGS_IS_JSON : Z := 256.
Definition TNS_UDS_FLAGS_IS_OSON : Z := 2048.
Definition TNS_EOCS_FLAGS_TXN_IN_PROGRESS : Z := 2.

(** [ClientCapabilities::default().ttc_field_version] *)
Definition DEFAULT_TTC_FIELD_VERSION : Z := 24.

Inductive LobDecodeMode := PlainLocator | DefineMetadata.

(** ** Values *)

Record LobValue := mkLob {
  lob_type : Z;
  lob_csfrm : Z;
  lob_locator : bytes;
  lob_size : Z;
  lob_chunk_size : Z
}.

(** [QueryValue]; [VTemporal] has its date, timestamp and interval constructors. *)
Inductive FetchValue :=
| VText (text : bytes)
| VTextRaw (raw : bytes) (csfrm : Z)
| VRaw (raw : bytes)
| VRowid (text : bytes)
| VBinaryDouble (bits : Z)
| VTemporal (value : QueryValue)
| VNumber (value : OracleNumber)
| VBoolean (value : bool)
| VCursor (columns : list ColumnMetadata) (cursor_id : Z)
| VObject (schema type_name : option bytes) (packed_data : bytes)
| VLob (value : LobValue)
| VVector (value : Vector)
| VJson (value : OsonValue)
| VArray (values : list (option FetchValue)).

Abbreviation Row := (list (option FetchValue)).

(** [f64::from] of an [f32], on bit patterns. *)
Definition f32_widen (bits : Z) : Z :=
  let s := Z.shiftl (Z.shiftr bits 31) 63 in
  let e := Z.land (Z.shiftr bits 23) 255 in
  let m := Z.land bits 8388607 in
  if e =? 255 then s + Z.shiftl 2047 52 + Z.shiftl m 29
  else if e =? 0 then
    if m =? 0 then s
    else let k := Z.log2 m in s + Z.shiftl (k - 149 + 1023) 52 + Z.shiftl (m - 2 ^ k) (52 - k)
  else s + Z.shiftl (e + 896) 52 + Z.shiftl m 29.

(** ** Descriptions of columns *)

(** [read_string_with_length()?.unwrap_or_default()] *)
Definition read_name_text : ReaderM bytes := o ← read_string_with_length; mret (default [] o).

(** [reader.with_capacity_limited(count, 1, check)]: the vector is empty, only the
    error of the check matters. *)
Definition reserve_checked (count : Z) (check : ProtocolLimits → Z → Res ()) : ReaderM Z :=
  λ r, (with_capacity_limited r count 1 check, r).

Definition limit_check (check : ProtocolLimits → Z → Res ()) (n : Z) : ReaderM () :=
  l ← gets limits; lift (check l n).

Fixpoint read_annotations (n : nat) : ReaderM (list (bytes * bytes)) :=
  match n with
  | O => mret []
  | S n =>
      key ← read_name_text;
      value ← read_name_text;
      _ ← read_ub4;
      rest ← read_annotations n;
      mret ((key, value) :: rest)
  end.

Definition parse_annotations : ReaderM (option (list (bytes * bytes))) :=
  num_annotations ← read_ub4;
  if 0 <? num_annotations then
    _ ← skip 1;
    num_annotations ← read_ub4;
    _ ← skip 1;
    _ ← reserve_checked num_annotations check_object_elements;
    collected ← read_annotations (Z.to_nat num_annotations);
    _ ← read_ub4;
    mret (Some collected)
  else mret None.

Definition parse_column_metadata (ttc_field_version : Z) : ReaderM ColumnMetadata :=
  ora_type_num ← read_u8;
  _ ← skip 1;
  precision ← read_i8;
  scale ← read_i8;
  buffer_size ← read_ub4;
  _ ← read_ub4;
  _ ← read_ub8;
  _ ← read_bytes_with_length;
  _ ← read_ub2;
  _ ← read_ub2;
  csfrm ← read_u8;
  max_size ← read_ub4;
  let max_size := if ora_type_num =? ORA_TYPE_NUM_RAW then buffer_size else max_size in
  _ ← (if carries_oaccolid ttc_field_version then _ ← read_ub4; mret () else mret ());
  nulls ← read_u8;
  _ ← skip 1;
  name ← read_name_text;
  object_schema ← read_string_with_length;
  object_type_name ← read_string_with_length;
  _ ← read_ub2;
  uds_flags ← read_ub4;
  '(domain_schema, domain_name) ←
    (if reads_column_domain ttc_field_version then
       s ← read_string_with_length; n ← read_string_with_length; mret (s, n)
     else mret (None, None));
  annotations ← (if reads_column_annotations ttc_field_version then parse_annotations else mret None);
  '(vector_dimensions, vector_format, vector_flags) ←
    (if reads_column_vector_metadata ttc_field_version then
       dims ← read_ub4;
       _ ← limit_check check_vector_dimensions dims;
       vector_format ← read_u8;
       vector_flags ← read_u8;
       mret (if ora_type_num =? ORA_TYPE_NUM_VECTOR then Some dims else None, vector_format, vector_flags)
     else mret (None, 0, 0));
  mret (mkColumn name ora_type_num csfrm precision scale buffer_size max_size (negb (nulls =? 0))
          (negb (Z.land uds_flags TNS_UDS_FLAGS_IS_JSON =? 0))
          (negb (Z.land uds_flags TNS_UDS_FLAGS_IS_OSON =? 0))
          object_schema object_type_name false vector_dimensions vector_format vector_flags
          domain_schema domain_name annotations).

Fixpoint parse_columns (n : nat) (ttc_field_version : Z) : ReaderM (list ColumnMetadata) :=
  match n with
  | O => mret []
  | S n =>
      c ← parse_column_metadata ttc_field_version;
      rest ← parse_columns n ttc_field_version;
      mret (c :: rest)
  end.

(** [parse_describe_info]: the columns it leaves in the result. *)
Definition parse_describe_info (ttc_field_version : Z) : ReaderM (list ColumnMetadata) :=
  _ ← read_ub4;
  num_columns ← read_ub4;
  _ ← limit_check check_columns num_columns;
  _ ← (if 0 <? num_columns then skip 1 else mret ());
  columns ← parse_columns (Z.to_nat num_columns) ttc_field_version;
  _ ← read_bytes_with_length;
  _ ← read_ub4;
  _ ← read_ub4;
  _ ← read_ub4;
  _ ← read_ub4;
  _ ← read_bytes_with_length;
  mret columns.

(** ** Column values *)

Definition parse_lob_value (c : ColumnMetadata) (mode : LobDecodeMode) : ReaderM (option FetchValue) :=
  num_bytes ← read_ub4;
  _ ← limit_check check_response_bytes num_bytes;
  if num_bytes =? 0 then mret None
  else
    '(size, chunk_size) ←
      (if (ora_type_num c =? ORA_TYPE_NUM_BFILE) || (match mode with PlainLocator => true | _ => false end)
       then mret (0, 0)
       else size ← read_ub8; chunk_size ← read_ub4; mret (size, chunk_size));
    locator ← read_bytes;
    mret (match locator with
          | None => None
          | Some locator => Some (VLob (mkLob (ora_type_num c) (csfrm c) locator size chunk_size))
          end).

(** What [parse_vector_value] and [parse_json_value] share: the image in front of a
    locator, [None] for SQL NULL or an empty image. *)
Definition read_prefetched_image : ReaderM (option bytes) :=
  num_bytes ← read_ub4;
  _ ← limit_check check_response_bytes num_bytes;
  if num_bytes =? 0 then mret None
  else
    _ ← read_ub8;
    _ ← read_ub4;
    data ← read_bytes;
    match data with
    | None => mret None
    | Some data =>
        _ ← read_bytes;
        mret (if bool_decide (data = []) then None else Some data)
    end.

Definition parse_vector_value : ReaderM (option FetchValue) :=
  data ← read_prefetched_image;
  match data with
  | None => mret None
  | Some data =>
      l ← gets limits;
      vector ← lift (decode_vector_with_limits data l);
      mret (Some (VVector vector))
  end.

Definition parse_json_value : ReaderM (option FetchValue) :=
  data ← read_prefetched_image;
  match data with
  | None => mret None
  | Some data =>
      l ← gets limits;
      value ← lift (decode_oson_with_limits data l);
      mret (Some (VJson value))
  end.

Definition parse_object_value (c : ColumnMetadata) : ReaderM (option FetchValue) :=
  _ ← read_bytes_with_length;
  _ ← read_bytes_with_length;
  _ ← read_bytes_with_length;
  _ ← read_ub2;
  num_bytes ← read_ub4;
  _ ← limit_check check_response_bytes num_bytes;
  _ ← skip 2;
  if num_bytes =? 0 then mret None
  else
    packed_data ← read_bytes;
    mret (match packed_data with
          | None => None
          | Some packed_data => Some (VObject (object_schema c) (object_type_name c) packed_data)
          end).

Definition parse_cursor_value : ReaderM FetchValue :=
  _ ← skip 1;
  columns ← parse_describe_info DEFAULT_TTC_FIELD_VERSION;
  cursor_id ← read_ub2;
  mret (VCursor columns cursor_id).

(** [let Some(bytes) = reader.read_bytes()? else { return Ok(None) }; f(bytes).map(Some)] *)
Definition with_bytes (f : bytes → Res FetchValue) : ReaderM (option FetchValue) :=
  o ← read_bytes;
  match o with
  | None => mret None
  | Some b => v ← lift (f b); mret (Some v)
  end.

(** The text arm: bytes that are not text are kept raw. *)
Definition text_value (csfrm : Z) (b : bytes) : Res FetchValue :=
  match decode_text_value b csfrm with
  | Ok t => Ok (VText t)
  | Err (TtcDecode _) => Ok (VTextRaw b csfrm)
  | Err e => Err e
  | Panic => Panic
  | Diverge => Diverge
  end.

Definition boolean_value (b : bytes) : bool := bool_decide (b !! (length b - 1)%nat = Some 1).

Definition no_buffer (c : ColumnMetadata) : bool :=
  (buffer_size c =? 0)
  && negb ((ora_type_num c =? ORA_TYPE_NUM_LONG) || (ora_type_num c =? ORA_TYPE_NUM_LONG_RAW)
           || (ora_type_num c =? ORA_TYPE_NUM_UROWID)).

Definition is_text (t : Z) : bool :=
  (t =? ORA_TYPE_NUM_VARCHAR) || (t =? ORA_TYPE_NUM_CHAR) || (t =? ORA_TYPE_NUM_LONG).
Definition is_raw (t : Z) : bool := (t =? ORA_TYPE_NUM_RAW) || (t =? ORA_TYPE_NUM_LONG_RAW).
Definition is_number (t : Z) : bool := (t =? ORA_TYPE_NUM_NUMBER) || (t =? ORA_TYPE_NUM_BINARY_INTEGER).
Definition is_datetime (t : Z) : bool :=
  (t =? ORA_TYPE_NUM_DATE) || (t =? ORA_TYPE_NUM_TIMESTAMP) || (t =? ORA_TYPE_NUM_TIMESTAMP_LTZ)
  || (t =? ORA_TYPE_NUM_TIMESTAMP_TZ).
Definition is_lob (t : Z) : bool :=
  (t =? ORA_TYPE_NUM_CLOB) || (t =? ORA_TYPE_NUM_BLOB) || (t =? ORA_TYPE_NUM_BFILE).

Definition parse_column_value_with_lob_mode (c : ColumnMetadata) (mode : LobDecodeMode)
  : ReaderM (option FetchValue) :=
  let t := ora_type_num c in
  if no_buffer c then mret None
  else if is_text t then with_bytes (text_value (csfrm c))
  else if is_raw t then with_bytes (λ b, Ok (VRaw b))
  else if t =? ORA_TYPE_NUM_ROWID then o ← parse_rowid_value; mret (VRowid <$> o)
  else if t =? ORA_TYPE_NUM_UROWID then o ← parse_urowid_value; mret (VRowid <$> o)
  else if is_number t then with_bytes (λ b, n ← decode_number_value b; Ok (VNumber n))
  else if t =? ORA_TYPE_NUM_BINARY_DOUBLE then with_bytes (λ b, x ← decode_binary_double b; Ok (VBinaryDouble x))
  else if t =? ORA_TYPE_NUM_BINARY_FLOAT
  then with_bytes (λ b, x ← decode_binary_float b; Ok (VBinaryDouble (f32_widen x)))
  else if t =? ORA_TYPE_NUM_BOOLEAN then with_bytes (λ b, Ok (VBoolean (boolean_value b)))
  else if t =? ORA_TYPE_NUM_INTERVAL_DS then with_bytes (λ b, v ← decode_interval_ds b; Ok (VTemporal v))
  else if t =? ORA_TYPE_NUM_INTERVAL_YM then with_bytes (λ b, v ← decode_interval_ym b; Ok (VTemporal v))
  else if is_datetime t then with_bytes (λ b, v ← decode_datetime_value b; Ok (VTemporal v))
  else if is_lob t then parse_lob_value c mode
  else if t =? ORA_TYPE_NUM_VECTOR then parse_vector_value
  else if t =? ORA_TYPE_NUM_JSON then parse_json_value
  else if t =? ORA_TYPE_NUM_CURSOR then v ← parse_cursor_value; mret (Some v)
  else if t =? ORA_TYPE_NUM_OBJECT then parse_object_value c
  else throw (UnsupportedFeature "query column type").

Definition parse_column_value (c : ColumnMetadata) : ReaderM (option FetchValue) :=
  parse_column_value_with_lob_mode c DefineMetadata.

(** ** Rows *)

Definition parse_row_header : ReaderM (option bytes) :=
  _ ← skip 1;
  _ ← read_ub2;
  _ ← read_ub4;
  _ ← read_ub4;
  _ ← read_ub2;
  num_bytes ← read_ub4;
  bit_vector ← (if 0 <? num_bytes then _ ← skip 1; b ← read_raw num_bytes; mret (Some b) else mret None);
  _ ← read_bytes_with_length;
  mret bit_vector.

Definition parse_bit_vector (num_columns : Z) : ReaderM bytes :=
  _ ← read_ub2;
  read_raw ((num_columns + 7) / 8).

Definition is_duplicate_column (bit_vector : option bytes) (column_num : nat) : bool :=
  match bit_vector with
  | None => false
  | Some bv =>
      match bv !! (column_num / 8)%nat with
      | Some byte => Z.land byte (Z.shiftl 1 (Z.of_nat (column_num mod 8))) =? 0
      | None => false
      end
  end.

Definition is_long (c : ColumnMetadata) : bool :=
  (ora_type_num c =? ORA_TYPE_NUM_LONG) || (ora_type_num c =? ORA_TYPE_NUM_LONG_RAW).

(** The trailer of a LONG value. *)
Definition read_long_status (fetch_long_status : bool) (c : ColumnMetadata) : ReaderM () :=
  if fetch_long_status && is_long c then _ ← read_sb4; _ ← read_ub4; mret () else mret ().

(** The loop of [parse_row_data]; [last] is the row duplicates repeat. *)
Fixpoint parse_row_cells (columns : list ColumnMetadata) (index : nat) (bit_vector : option bytes)
  (last : option Row) (fetch_long_status : bool) (mode : LobDecodeMode) : ReaderM Row :=
  match columns with
  | [] => mret []
  | c :: columns =>
      cell ← (if is_duplicate_column bit_vector index
              then lift (ok_or (last ≫= λ row, row !! index)
                           (TtcDecode "duplicate row data without previous row"))
              else
                v ← parse_column_value_with_lob_mode c mode;
                _ ← read_long_status fetch_long_status c;
                mret v);
      rest ← parse_row_cells columns (S index) bit_vector last fetch_long_status mode;
      mret (cell :: rest)
  end.

(** The last element of [rows], or the row before them. *)
Definition last_row (rows : list Row) (previous_row : option Row) : option Row :=
  match rows !! (length rows - 1)%nat with
  | Some row => Some row
  | None => previous_row
  end.

Definition parse_row_data (columns : list ColumnMetadata) (rows : list Row) (bit_vector : option bytes)
  (previous_row : option Row) (fetch_long_status : bool) (mode : LobDecodeMode) : ReaderM (list Row) :=
  row ← parse_row_cells columns 0 bit_vector (last_row rows previous_row) fetch_long_status mode;
  mret (rows ++ [row]).

(** ** Output binds *)

Definition apply_out_bind_actual_num_bytes (c : ColumnMetadata) (value : option FetchValue)
  (actual_num_bytes : Z) (truncation_error : string) : Res (option FetchValue) :=
  if (actual_num_bytes <? 0) && (ora_type_num c =? ORA_TYPE_NUM_BOOLEAN) then Ok None
  else if negb (actual_num_bytes =? 0) && bool_decide (is_Some value)
  then Err (TtcDecode truncation_error)
  else Ok value.

Definition parse_out_cell (c : ColumnMetadata) (truncation_error : string) : ReaderM (option FetchValue) :=
  value ← parse_column_value c;
  actual_num_bytes ← read_sb4;
  lift (apply_out_bind_actual_num_bytes c value actual_num_bytes truncation_error).

Fixpoint parse_out_cells (n : nat) (c : ColumnMetadata) (truncation_error : string) : ReaderM Row :=
  match n with
  | O => mret []
  | S n =>
      v ← parse_out_cell c truncation_error;
      rest ← parse_out_cells n c truncation_error;
      mret (v :: rest)
  end.

(** A counted list of values, as array binds and RETURNING binds send it. *)
Definition parse_out_list (c : ColumnMetadata) (truncation_error : string) : ReaderM Row :=
  n ← read_ub4;
  n ← lift (ok_or (try_range 0 USIZE_MAX n) (InvalidPacketLength USIZE_MAX 0));
  _ ← limit_check check_batch_rows n;
  _ ← reserve_checked n check_batch_rows;
  parse_out_cells (Z.to_nat n) c truncation_error.

(** The column of a bind index. *)
Definition bind_column (bind_columns : list ColumnMetadata) (index : Z) (missing : string)
  : Res ColumnMetadata := ok_or (bind_columns !! Z.to_nat index) (TtcDecode missing).

Fixpoint parse_out_bind_row_data (bind_columns : list ColumnMetadata) (indexes : list Z)
  : ReaderM (list (Z * option FetchValue)) :=
  match indexes with
  | [] => mret []
  | index :: indexes =>
      c ← lift (bind_column bind_columns index "out bind index without bind metadata");
      v ← (if is_array c then vs ← parse_out_list c "truncated array OUT bind value"; mret (Some (VArray vs))
           else parse_out_cell c "truncated OUT bind value");
      rest ← parse_out_bind_row_data bind_columns indexes;
      mret ((index, v) :: rest)
  end.

Fixpoint parse_returning_row_data (bind_columns : list ColumnMetadata) (indexes : list Z)
  : ReaderM (list (Z * Row)) :=
  match indexes with
  | [] => mret []
  | index :: indexes =>
      c ← lift (bind_column bind_columns index "return bind index without bind metadata");
      vs ← parse_out_list c "truncated DML RETURNING value";
      rest ← parse_returning_row_data bind_columns indexes;
      mret ((index, vs) :: rest)
  end.

(** The directions of the binds; the indexes that are not pure input. *)
Fixpoint read_directions (n : nat) (index bind_count : Z) : ReaderM (list Z) :=
  match n with
  | O => mret []
  | S n =>
      direction ← read_u8;
      rest ← read_directions n (index + 1) bind_count;
      mret (if (index <? bind_count) && negb (direction =? TNS_BIND_DIR_INPUT) then index :: rest else rest)
  end.

Definition parse_io_vector (bind_count : Z) : ReaderM (list Z) :=
  _ ← read_u8;
  temp16 ← read_ub2;
  temp32 ← read_ub4;
  num_binds ← lift (ok_or (m ← try_range 0 USIZE_MAX (temp32 * 256); try_range 0 USIZE_MAX (m + temp16))
                      (InvalidPacketLength USIZE_MAX 0));
  _ ← read_ub4;
  _ ← read_ub2;
  fast_fetch_len ← read_ub2;
  _ ← (if 0 <? fast_fetch_len then skip fast_fetch_len else mret ());
  rowid_len ← read_ub2;
  _ ← (if 0 <? rowid_len then skip rowid_len else mret ());
  _ ← limit_check check_binds num_binds;
  read_directions (Z.to_nat num_binds) 0 bind_count.

(** ** Return parameters *)

Fixpoint skip_ub4s (n : nat) : ReaderM () :=
  match n with
  | O => mret ()
  | S n => _ ← read_ub4; skip_ub4s n
  end.

Fixpoint read_ub8s (n : nat) : ReaderM (list Z) :=
  match n with
  | O => mret []
  | S n => v ← read_ub8; rest ← read_ub8s n; mret (v :: rest)
  end.

(** The registered query id at the end of the registration block. *)
Definition block_query_id (block : bytes) : Res (option Z) :=
  let n := Zlen block in
  if n <? 8 then Ok None
  else
    msb ← indexes block [n - 4; n - 3; n - 2; n - 1];
    lsb ← indexes block [n - 8; n - 7; n - 6; n - 5];
    Ok (Some (Z.lor (Z.shiftl (from_be_bytes msb) 32) (from_be_bytes lsb))).

Definition parse_query_return_parameters (arraydmlrowcounts : bool)
  : ReaderM (option (list Z) * option Z) :=
  num_params ← read_ub2;
  _ ← skip_ub4s (Z.to_nat num_params);
  num_bytes ← read_ub2;
  _ ← (if 0 <? num_bytes then skip num_bytes else mret ());
  num_pairs ← read_ub2;
  _ ← skip_keyword_value_pairs num_pairs;
  num_bytes ← read_ub2;
  query_id ← (if 0 <? num_bytes then block ← read_raw num_bytes; lift (block_query_id block) else mret None);
  if arraydmlrowcounts then
    num_rows ← read_ub4;
    _ ← limit_check check_batch_rows num_rows;
    _ ← reserve_checked num_rows check_batch_rows;
    row_counts ← read_ub8s (Z.to_nat num_rows);
    mret (Some row_counts, query_id)
  else mret (None, query_id).

(** ** Implicit result sets *)

Fixpoint parse_implicit_results (n : nat) (ttc_field_version : Z) : ReaderM (list FetchValue) :=
  match n with
  | O => mret []
  | S n =>
      num_bytes ← read_u8;
      _ ← skip num_bytes;
      columns ← parse_describe_info ttc_field_version;
      child_cursor_id ← read_ub2;
      rest ← parse_implicit_results n ttc_field_version;
      mret (VCursor columns child_cursor_id :: rest)
  end.

(** ** Embedded errors *)

(** The search of [find_embedded_server_error] from [candidate] on; a record that does
    not parse ends it. *)
Fixpoint find_embedded (n : nat) (payload : bytes) (ttc_field_version candidate : Z) : Res (option bytes) :=
  match n with
  | O => Ok None
  | S n =>
      if bool_decide (slice_nth payload candidate = Some TNS_MSG_TYPE_ERROR) then
        match slice_get payload (candidate + 1) (Zlen payload) with
        | None => Ok None
        | Some rest =>
            match (parse_server_error_info ttc_field_version (reader_new rest)).1 with
            | Ok info =>
                if negb (sei_number info =? 0) && bool_decide (take 4 (sei_message info) = [79; 82; 65; 45])
                then Ok (Some (sei_message info))
                else find_embedded n payload ttc_field_version (candidate + 1)
            | Err _ => Ok None
            | Panic => Panic
            | Diverge => Diverge
            end
        end
      else find_embedded n payload ttc_field_version (candidate + 1)
  end.

Definition find_embedded_server_error (payload : bytes) (ttc_field_version position : Z)
  : Res (option bytes) :=
  let start := sat_sub position 64 in
  find_embedded (Z.to_nat (position + 1 - start)) payload ttc_field_version start.

(** ** The response *)

Record QueryResponse := mkResponse {
  q_columns : list ColumnMetadata;
  q_rows : list Row;
  q_out_values : list (Z * option FetchValue);
  q_return_values : list (Z * Row);
  q_cursor_id : Z;
  q_row_count : Z;
  q_more_rows : bool;
  q_compilation_error_warning : bool;
  q_last_rowid : option bytes;
  q_batch_errors : list BatchServerError;
  q_array_dml_row_counts : option (list Z);
  q_implicit_resultsets : option (list FetchValue);
  q_token_num : option Z;
  q_sessionless_txn_state : option SessionlessTxnState;
  q_query_id : option Z;
  q_txn_in_progress : option bool
}.

Definition response_new (columns : list ColumnMetadata) : QueryResponse :=
  mkResponse columns [] [] [] 0 0 true false None [] None None None None None None.

Definition q_set_columns (x : list ColumnMetadata) (q : QueryResponse) : QueryResponse :=
  mkResponse x (q_rows q) (q_out_values q) (q_return_values q) (q_cursor_id q) (q_row_count q)
    (q_more_rows q) (q_compilation_error_warning q) (q_last_rowid q) (q_batch_errors q)
    (q_array_dml_row_counts q) (q_implicit_resultsets q) (q_token_num q) (q_sessionless_txn_state q)
    (q_query_id q) (q_txn_in_progress q).
Definition q_set_rows (x : list Row) (q : QueryResponse) : QueryResponse :=
  mkResponse (q_columns q) x (q_out_values q) (q_return_values q) (q_cursor_id q) (q_row_count q)
    (q_more_rows q) (q_compilation_error_warning q) (q_last_rowid q) (q_batch_errors q)
    (q_array_dml_row_counts q) (q_implicit_resultsets q) (q_token_num q) (q_sessionless_txn_state q)
    (q_query_id q) (q_txn_in_progress q).
Definition q_add_out (x : list (Z * option FetchValue)) (q : QueryResponse) : QueryResponse :=
  mkResponse (q_columns q) (q_rows q) (q_out_values q ++ x) (q_return_values q) (q_cursor_id q)
    (q_row_count q) (q_more_rows q) (q_compilation_error_warning q) (q_last_rowid q) (q_batch_errors q)
    (q_array_dml_row_counts q) (q_implicit_resultsets q) (q_token_num q) (q_sessionless_txn_state q)
    (q_query_id q) (q_txn_in_progress q).
Definition q_add_return (x : list (Z * Row)) (q : QueryResponse) : QueryResponse :=
  mkResponse (q_columns q) (q_rows q) (q_out_values q) (q_return_values q ++ x) (q_cursor_id q)
    (q_row_count q) (q_more_rows q) (q_compilation_error_warning q) (q_last_rowid q) (q_batch_errors q)
    (q_array_dml_row_counts q) (q_implicit_resultsets q) (q_token_num q) (q_sessionless_txn_state q)
    (q_query_id q) (q_txn_in_progress q).
Definition q_set_params (counts : option (list Z)) (id : option Z) (q : QueryResponse) : QueryResponse :=
  mkResponse (q_columns q) (q_rows q) (q_out_values q) (q_return_values q) (q_cursor_id q) (q_row_count q)
    (q_more_rows q) (q_compilation_error_warning q) (q_last_rowid q) (q_batch_errors q) counts
    (q_implicit_resultsets q) (q_token_num q) (q_sessionless_txn_state q) id (q_txn_in_progress q).
Definition q_set_txn (x : bool) (q : QueryResponse) : QueryResponse :=
  mkResponse (q_columns q) (q_rows q) (q_out_values q) (q_return_values q) (q_cursor_id q) (q_row_count q)
    (q_more_rows q) (q_compilation_error_warning q) (q_last_rowid q) (q_batch_errors q)
    (q_array_dml_row_counts q) (q_implicit_resultsets q) (q_token_num q) (q_sessionless_txn_state q)
    (q_query_id q) (Some x).
Definition q_set_session (x : option SessionlessTxnState) (q : QueryResponse) : QueryResponse :=
  mkResponse (q_columns q) (q_rows q) (q_out_values q) (q_return_values q) (q_cursor_id q) (q_row_count q)
    (q_more_rows q) (q_compilation_error_warning q) (q_last_rowid q) (q_batch_errors q)
    (q_array_dml_row_counts q) (q_implicit_resultsets q) (q_token_num q) x (q_query_id q)
    (q_txn_in_progress q).
Definition q_set_implicit (x : list FetchValue) (q : QueryResponse) : QueryResponse :=
  mkResponse (q_columns q) (q_rows q) (q_out_values q) (q_return_values q) (q_cursor_id q) (q_row_count q)
    (q_more_rows q) (q_compilation_error_warning q) (q_last_rowid q) (q_batch_errors q)
    (q_array_dml_row_counts q) (Some x) (q_token_num q) (q_sessionless_txn_state q) (q_query_id q)
    (q_txn_in_progress q).
Definition q_set_token (x : Z) (q : QueryResponse) : QueryResponse :=
  mkResponse (q_columns q) (q_rows q) (q_out_values q) (q_return_values q) (q_cursor_id q) (q_row_count q)
    (q_more_rows q) (q_compilation_error_warning q) (q_last_rowid q) (q_batch_errors q)
    (q_array_dml_row_counts q) (q_implicit_resultsets q) (Some x) (q_sessionless_txn_state q) (q_query_id q)
    (q_txn_in_progress q).

(** What an error record that is not raised leaves in the result. *)
Definition q_end_of_call (info : ErrorInfo) (more_rows : bool) (batch : list BatchServerError)
  (q : QueryResponse) : QueryResponse :=
  mkResponse (q_columns q) (q_rows q) (q_out_values q) (q_return_values q)
    (if negb (sei_cursor_id info =? 0) then sei_cursor_id info else q_cursor_id q)
    (sei_row_count info) more_rows
    (q_compilation_error_warning q || sei_compilation_error_warning info) (sei_rowid info) batch
    (q_array_dml_row_counts q) (q_implicit_resultsets q) (q_token_num q) (q_sessionless_txn_state q)
    (q_query_id q) (Some (negb (Z.land (sei_call_status info) TNS_EOCS_FLAGS_TXN_IN_PROGRESS =? 0))).

Definition details_with_counts (counts : option (list Z)) (d : ServerErrorDetails) : ServerErrorDetails :=
  mkServerErrorDetails (sed_message d) (sed_code d) (sed_cursor_id d) (sed_pos d) (sed_row_count d)
    (sed_rowid d) counts.

(** The error message of a response. *)
Definition process_error (ttc_field_version : Z) (q : QueryResponse) : ReaderM QueryResponse :=
  info ← parse_server_error_info ttc_field_version;
  if (sei_number info =? TNS_ERR_NO_DATA_FOUND) && negb (bool_decide (q_columns q = []))
  then mret (q_end_of_call info false (q_batch_errors q) q)
  else if sei_number info =? TNS_ERR_ARRAY_DML_ERRORS
  then mret (q_end_of_call info (q_more_rows q) (sei_batch_errors info) q)
  else if negb (sei_number info =? 0)
  then throw (Protocol.ServerErrorInfo (details_with_counts (q_array_dml_row_counts q) (into_details info)))
  else mret (q_end_of_call info (q_more_rows q) (q_batch_errors q) q).

(** The locals of the loop: the result, whether LONG values carry a trailer, the bit
    vector of the next row, the output binds of the IO vector, and whether a message
    that ends a response was seen. *)
Record LoopState := mkLoop {
  ls_result : QueryResponse;
  ls_long : bool;
  ls_bits : option bytes;
  ls_out : list Z;
  ls_boundary : bool
}.

Definition ls_on_result (f : QueryResponse → QueryResponse) (s : LoopState) : LoopState :=
  mkLoop (f (ls_result s)) (ls_long s) (ls_bits s) (ls_out s) (ls_boundary s).
Definition ls_set_bits (b : option bytes) (s : LoopState) : LoopState :=
  mkLoop (ls_result s) (ls_long s) b (ls_out s) (ls_boundary s).
Definition ls_end (s : LoopState) : LoopState :=
  mkLoop (ls_result s) (ls_long s) (ls_bits s) (ls_out s) true.

(** [while reader.remaining() > 0 { .. }]; every turn reads a byte, so that the payload's
    length is enough fuel.  The flag of a step says whether it breaks. *)
Fixpoint while_remaining {S} (step : S → ReaderM (S * bool)) (fuel : nat) (s : S) : ReaderM S :=
  match fuel with
  | O => lift Diverge
  | Datatypes.S fuel =>
      n ← gets remaining;
      if 0 <? n then
        '(s, stop) ← step s;
        if (stop : bool) then mret s else while_remaining step fuel s
      else mret s
  end.

Section Response.
Context (payload : bytes) (ttc_field_version : Z) (previous_row : option Row).
Context (bind_columns : list ColumnMetadata) (output_bind_indexes : list Z).
Context (arraydmlrowcounts : bool) (mode : LobDecodeMode).

Definition process_describe (s : LoopState) : ReaderM LoopState :=
  _ ← read_bytes;
  columns ← parse_describe_info ttc_field_version;
  let '(columns, adjusted) := adjust_columns (q_columns (ls_result s)) columns in
  mret (mkLoop (q_set_columns columns (ls_result s)) (ls_long s || adjusted || existsb is_long columns)
          (ls_bits s) (ls_out s) (ls_boundary s)).

Definition process_row (s : LoopState) : ReaderM LoopState :=
  let q := ls_result s in
  q ← (if bool_decide (q_columns q = []) && negb (bool_decide (ls_out s = [])) then
         vs ← parse_out_bind_row_data bind_columns (ls_out s); mret (q_add_out vs q)
       else if bool_decide (q_columns q = []) && negb (bool_decide (output_bind_indexes = [])) then
         vs ← parse_returning_row_data bind_columns output_bind_indexes; mret (q_add_return vs q)
       else
         rows ← parse_row_data (q_columns q) (q_rows q) (ls_bits s) previous_row (ls_long s) mode;
         mret (q_set_rows rows q));
  mret (mkLoop q (ls_long s) None (ls_out s) (ls_boundary s)).

Definition process_parameter (s : LoopState) : ReaderM LoopState :=
  '(row_counts, query_id) ← parse_query_return_parameters arraydmlrowcounts;
  let q := ls_result s in
  mret (ls_on_result
          (q_set_params (if arraydmlrowcounts then Some (default [] row_counts) else q_array_dml_row_counts q)
             (match query_id with Some id => Some id | None => q_query_id q end)) s).

Definition process_implicit (s : LoopState) : ReaderM LoopState :=
  num_results ← read_ub4;
  _ ← reserve_checked num_results check_length_prefixed_elements;
  resultsets ← parse_implicit_results (Z.to_nat num_results) ttc_field_version;
  mret (ls_on_result (q_set_implicit resultsets) s).

(** A message the loop does not know. *)
Definition unknown_message {A} (message_type : Z) : ReaderM A :=
  p ← gets pos;
  let position := sat_sub p 1 in
  found ← lift (find_embedded_server_error payload ttc_field_version position);
  match found with
  | Some message => throw (ServerError (text_string message))
  | None => throw (UnknownMessageType message_type position)
  end.

(** One turn of the loop; the flag says whether it breaks. *)
Definition process_message (s : LoopState) : ReaderM (LoopState * bool) :=
  message_type ← read_u8;
  if message_type =? 0 then mret (s, false)
  else if message_type =? TNS_MSG_TYPE_DESCRIBE_INFO then s ← process_describe s; mret (s, false)
  else if message_type =? TNS_MSG_TYPE_ROW_HEADER then
    b ← parse_row_header; mret (ls_set_bits b s, false)
  else if message_type =? TNS_MSG_TYPE_ROW_DATA then s ← process_row s; mret (s, false)
  else if message_type =? TNS_MSG_TYPE_BIT_VECTOR then
    b ← parse_bit_vector (Zlen (q_columns (ls_result s))); mret (ls_set_bits (Some b) s, false)
  else if message_type =? TNS_MSG_TYPE_PARAMETER then s ← process_parameter s; mret (s, false)
  else if message_type =? TNS_MSG_TYPE_STATUS then
    call_status ← read_ub4;
    _ ← read_ub2;
    mret (ls_end (ls_on_result (q_set_txn (negb (Z.land call_status TNS_EOCS_FLAGS_TXN_IN_PROGRESS =? 0))) s),
          false)
  else if message_type =? TNS_MSG_TYPE_IO_VECTOR then
    out ← parse_io_vector (Zlen bind_columns);
    mret (mkLoop (ls_result s) (ls_long s) (ls_bits s)
            (filter (λ i, i ∉ output_bind_indexes) out) (ls_boundary s), false)
  else if message_type =? TNS_MSG_TYPE_FLUSH_OUT_BINDS then mret (ls_end s, true)
  else if message_type =? TNS_MSG_TYPE_SERVER_SIDE_PIGGYBACK then
    update ← skip_server_side_piggyback;
    mret (match update with Some u => ls_on_result (q_set_session (Some u)) s | None => s end, false)
  else if message_type =? TNS_MSG_TYPE_IMPLICIT_RESULTSET then s ← process_implicit s; mret (s, false)
  else if message_type =? TNS_MSG_TYPE_END_OF_RESPONSE then mret (ls_end s, true)
  else if message_type =? TNS_MSG_TYPE_TOKEN then
    t ← read_ub8; mret (ls_on_result (q_set_token t) s, false)
  else if message_type =? TNS_MSG_TYPE_ERROR then
    q ← process_error ttc_field_version (ls_result s);
    mret (ls_end (ls_on_result (λ _, q) s), false)
  else unknown_message message_type.

Definition response_loop : nat → LoopState → ReaderM LoopState := while_remaining process_message.

Definition response_fuel : nat := S (length payload).

Definition parse_response (previous_columns : list ColumnMetadata) (fetch_long_status : bool)
  (l : ProtocolLimits) : Res QueryResponse :=
  reader ← with_limits payload l;
  s ← (response_loop response_fuel
         (mkLoop (response_new previous_columns) (fetch_long_status || existsb is_long previous_columns)
            None [] false) reader).1;
  if ls_boundary s then Ok (ls_result s) else Err (TtcDecode "incomplete query response").
End Response.

(** [parse_fetch_response_with_context_and_limits] and its counterpart for a fetch that
    redefines the columns. *)
Definition parse_fetch_response (payload : bytes) (ttc_field_version : Z) (columns : list ColumnMetadata)
  (previous_row : option Row) (mode : LobDecodeMode) (l : ProtocolLimits) : Res QueryResponse :=
  parse_response payload ttc_field_version previous_row [] [] false mode columns true l.
