(* ===== verification/FetchBorrowed.v ===== *)
(** * Borrowed rows ([thin/fetch.rs], [thin/types.rs])

    The zero-copy fetch path.  A first walk over the response records where each row
    begins and which of its columns repeat; rows are decoded later, on iteration, into
    slots that point into the wire buffer or into per-row arenas, and resolved into
    references once the arenas are complete. *)

From S2P Require Import Prelude.
From S2P Require Import Protocol.
From S2P Require Import Limits.
From S2P Require Import Writer.
From S2P Require Import Reader.
From S2P Require Import Datetime.
From S2P Require Import Number.
From S2P Require Import ShapeCache.
From S2P Require Import Binds.
From S2P Require Import Utf.
From S2P Require Import ServerError.
From S2P Require Import Fetch.

(** ** References *)

(** [QueryValueRef]; [RTemporal] has its date, timestamp and interval constructors. *)
Inductive QueryValueRef :=
| RText (text : bytes)
| RRaw (raw : bytes)
| RNumber (text : bytes) (is_integer : bool)
| RBoolean (value : bool)
| RTemporal (value : QueryValue)
| ROwned (value : FetchValue).

Definition to_owned_value (v : QueryValueRef) : Res FetchValue :=
  match v with
  | RText t => Ok (VText t)
  | RRaw b => Ok (VRaw b)
  | RNumber t is_integer => n ← from_canonical_text_with_flag t is_integer; Ok (VNumber n)
  | RBoolean b => Ok (VBoolean b)
  | RTemporal v => Ok (VTemporal v)
  | ROwned v => Ok v
  end.

Abbreviation RefRow := (list (option QueryValueRef)).

(** ** Slots *)

Inductive ColumnSlot :=
| SlotNull
| SlotWire (v : QueryValueRef)
| SlotNumber (start stop : Z) (is_integer : bool)
| SlotOwned (index : nat).

Record Arenas := mkArenas { number_arena : bytes; owned_arena : list FetchValue }.

Definition park (a : Arenas) (v : option FetchValue) : ColumnSlot * Arenas :=
  match v with
  | None => (SlotNull, a)
  | Some v => (SlotOwned (length (owned_arena a)), mkArenas (number_arena a) (owned_arena a ++ [v]))
  end.

(** [BorrowedBytes::into_vec] *)
Definition into_vec (b : BorrowedBytes) : bytes :=
  match b with
  | BB_Null => []
  | BB_Slice s => s
  | BB_Chunked s => s
  end.

Definition with_small_bytes {A} (f : option bytes → Res A) : ReaderM A :=
  b ← read_bytes_borrowed;
  match b with
  | BB_Null => lift (f None)
  | BB_Slice s => lift (f (Some s))
  | BB_Chunked s => lift (f (Some s))
  end.

(** An arm of [parse_column_slot] for a small value that is not SQL NULL. *)
Definition small_slot (a : Arenas) (f : bytes → Res (ColumnSlot * Arenas)) : ReaderM (ColumnSlot * Arenas) :=
  with_small_bytes (λ o, match o with None => Ok (SlotNull, a) | Some b => f b end).

Definition text_slot (c : ColumnMetadata) (a : Arenas) : ReaderM (ColumnSlot * Arenas) :=
  b ← read_bytes_borrowed;
  let fallback :=
    v ← lift (text_value (csfrm c) (into_vec b));
    mret (park a (Some v)) in
  match b with
  | BB_Null => mret (SlotNull, a)
  | BB_Slice s =>
      if negb (csfrm c =? CS_FORM_NCHAR) then
        mret (if utf8_valid s then (SlotWire (RText s), a) else park a (Some (VTextRaw s (csfrm c))))
      else fallback
  | BB_Chunked _ => fallback
  end.

Definition raw_slot (a : Arenas) : ReaderM (ColumnSlot * Arenas) :=
  b ← read_bytes_borrowed;
  mret (match b with
        | BB_Null => (SlotNull, a)
        | BB_Slice s => (SlotWire (RRaw s), a)
        | BB_Chunked s => park a (Some (VRaw s))
        end).

Definition number_slot (a : Arenas) (b : bytes) : Res (ColumnSlot * Arenas) :=
  let start := Zlen (number_arena a) in
  '(is_integer, text) ← decode_number_text_into b (number_arena a);
  Ok (SlotNumber start (Zlen text) is_integer, mkArenas text (owned_arena a)).

(** A temporal value that has the constructor the type announces borrows, another one
    is parked. *)
Definition temporal_slot (expected : QueryValue → bool) (a : Arenas) (v : QueryValue) : ColumnSlot * Arenas :=
  if expected v then (SlotWire (RTemporal v), a) else park a (Some (VTemporal v)).

Definition is_interval_ds (v : QueryValue) : bool := match v with IntervalDS _ _ _ _ _ => true | _ => false end.
Definition is_interval_ym (v : QueryValue) : bool := match v with IntervalYM _ _ => true | _ => false end.
Definition is_point (v : QueryValue) : bool :=
  match v with
  | DateTime _ _ _ _ _ _ _ | TimestampTz _ _ _ _ _ _ _ _ | TimestampTzRegion _ _ _ _ _ _ _ _ => true
  | _ => false
  end.

Definition parse_column_slot (c : ColumnMetadata) (a : Arenas) (mode : LobDecodeMode)
  : ReaderM (ColumnSlot * Arenas) :=
  let t := ora_type_num c in
  if no_buffer c then mret (SlotNull, a)
  else if is_text t then text_slot c a
  else if is_raw t then raw_slot a
  else if is_number t then small_slot a (number_slot a)
  else if t =? ORA_TYPE_NUM_BOOLEAN
  then small_slot a (λ b, Ok (SlotWire (RBoolean (boolean_value b)), a))
  else if t =? ORA_TYPE_NUM_INTERVAL_DS
  then small_slot a (λ b, v ← decode_interval_ds b; Ok (temporal_slot is_interval_ds a v))
  else if t =? ORA_TYPE_NUM_INTERVAL_YM
  then small_slot a (λ b, v ← decode_interval_ym b; Ok (temporal_slot is_interval_ym a v))
  else if is_datetime t then small_slot a (λ b, v ← decode_datetime_value b; Ok (temporal_slot is_point a v))
  else v ← parse_column_value_with_lob_mode c mode; mret (park a v).

(** ** One row *)

(** [previous_owned.get(index).and_then(Option::as_ref)] *)
Definition previous_cell (previous : Row) (index : nat) : option FetchValue := mjoin (previous !! index).

(** Pass 1: the slots of a row, [None] for SQL NULL, and the arenas. *)
Fixpoint decode_slots (columns : list ColumnMetadata) (index : nat) (bit_vector : option bytes)
  (previous : Row) (fetch_long_status : bool) (mode : LobDecodeMode) (a : Arenas)
  : ReaderM (list (option ColumnSlot) * Arenas) :=
  match columns with
  | [] => mret ([], a)
  | c :: columns =>
      '(slot, a) ←
        (if is_duplicate_column bit_vector index then mret (park a (previous_cell previous index))
         else
           s ← parse_column_slot c a mode;
           _ ← read_long_status fetch_long_status c;
           mret s);
      '(slots, a) ← decode_slots columns (S index) bit_vector previous fetch_long_status mode a;
      mret (match slot with SlotNull => None | _ => Some slot end :: slots, a)
  end.

(** Pass 2: a slot in the finished arenas. *)
Definition resolve (a : Arenas) (slot : ColumnSlot) : Res QueryValueRef :=
  match slot with
  | SlotNull => Panic
  | SlotWire v => Ok v
  | SlotNumber start stop is_integer =>
      t ← or_panic (slice_get (number_arena a) start stop); Ok (RNumber t is_integer)
  | SlotOwned index => v ← or_panic (owned_arena a !! index); Ok (ROwned v)
  end.

Fixpoint resolve_row (a : Arenas) (slots : list (option ColumnSlot)) : Res RefRow :=
  match slots with
  | [] => Ok []
  | slot :: slots =>
      cell ← (match slot with None => Ok None | Some s => v ← resolve a s; Ok (Some v) end);
      rest ← resolve_row a slots;
      Ok (cell :: rest)
  end.

Fixpoint owned_row (row : RefRow) : Res Row :=
  match row with
  | [] => Ok []
  | cell :: row =>
      v ← (match cell with None => Ok None | Some r => v ← to_owned_value r; Ok (Some v) end);
      rest ← owned_row row;
      Ok (v :: rest)
  end.

(** ** Batches *)

Record BorrowedRowBatch := mkBatch {
  b_buffer : bytes;
  b_columns : list ColumnMetadata;
  b_row_starts : list Z;
  b_row_bit_vectors : list (option bytes);
  b_fetch_long_status : bool;
  b_lob_decode_mode : LobDecodeMode;
  b_previous_row_seed : option Row
}.

(** [BorrowedRowBatch::new] *)
Definition batch_new (buffer : bytes) (columns : list ColumnMetadata) (row_starts : list Z)
  : BorrowedRowBatch := mkBatch buffer columns row_starts [] false PlainLocator None.

(** The row that begins at [start]. *)
Definition row_ref_at (batch : BorrowedRowBatch) (start : Z) (bit_vector : option bytes) (previous : Row)
  : Res RefRow :=
  buffer ← or_panic (slice_get (b_buffer batch) start (Zlen (b_buffer batch)));
  '(slots, a) ← (decode_slots (b_columns batch) 0 bit_vector previous (b_fetch_long_status batch)
                   (b_lob_decode_mode batch) (mkArenas [] []) (reader_new buffer)).1;
  resolve_row a slots.

Section ForEach.
Context {S E : Type} (from : ProtocolError → E) (callback : S → RefRow → Result E S).

(** [E::from] on the error of a decode. *)
Definition convert {A} (r : Res A) : Result E A :=
  match r with
  | Ok a => Ok a
  | Err e => Err (from e)
  | Panic => Panic
  | Diverge => Diverge
  end.

Fixpoint for_rows (batch : BorrowedRowBatch) (starts : list Z) (index : nat) (previous : Row) (s : S)
  : Result E S :=
  match starts with
  | [] => Ok s
  | start :: starts =>
      row ← convert (row_ref_at batch start (mjoin (b_row_bit_vectors batch !! index)) previous);
      s ← callback s row;
      previous ← (if bool_decide (b_row_bit_vectors batch = []) then Ok previous else convert (owned_row row));
      for_rows batch starts (Datatypes.S index) previous s
  end.

Definition for_each_row_ref (batch : BorrowedRowBatch) (s : S) : Result E S :=
  for_rows batch (b_row_starts batch) 0 (default [] (b_previous_row_seed batch)) s.
End ForEach.

(** ** The first walk *)

(** Types whose value is one length-prefixed field. *)
Definition is_byte_field (c : ColumnMetadata) : bool :=
  let t := ora_type_num c in
  negb (buffer_size c =? 0)
  && (is_text t || is_raw t || is_number t || (t =? ORA_TYPE_NUM_BINARY_DOUBLE)
      || (t =? ORA_TYPE_NUM_BINARY_FLOAT) || (t =? ORA_TYPE_NUM_BOOLEAN)
      || (t =? ORA_TYPE_NUM_INTERVAL_DS) || (t =? ORA_TYPE_NUM_INTERVAL_YM) || is_datetime t).

Fixpoint skip_row_data (columns : list ColumnMetadata) (index : nat) (bit_vector : option bytes)
  (fetch_long_status : bool) (mode : LobDecodeMode) : ReaderM () :=
  match columns with
  | [] => mret ()
  | c :: columns =>
      _ ← (if is_duplicate_column bit_vector index then mret ()
           else
             _ ← (if is_byte_field c then skip_bytes_field
                  else _ ← parse_column_value_with_lob_mode c mode; mret ());
             read_long_status fetch_long_status c);
      skip_row_data columns (S index) bit_vector fetch_long_status mode
  end.

Record BorrowState := mkBorrow {
  bs_columns : list ColumnMetadata;
  bs_more_rows : bool;
  bs_cursor_id : Z;
  bs_row_count : Z;
  bs_row_starts : list Z;
  bs_row_bit_vectors : list (option bytes);
  bs_any_bit_vector : bool;
  bs_pending : option bytes;
  bs_boundary : bool
}.

Definition bs_set_columns (x : list ColumnMetadata) (s : BorrowState) : BorrowState :=
  mkBorrow x (bs_more_rows s) (bs_cursor_id s) (bs_row_count s) (bs_row_starts s) (bs_row_bit_vectors s)
    (bs_any_bit_vector s) (bs_pending s) (bs_boundary s).
Definition bs_set_pending (x : option bytes) (s : BorrowState) : BorrowState :=
  mkBorrow (bs_columns s) (bs_more_rows s) (bs_cursor_id s) (bs_row_count s) (bs_row_starts s)
    (bs_row_bit_vectors s) (bs_any_bit_vector s) x (bs_boundary s).
Definition bs_add_row (start : Z) (s : BorrowState) : BorrowState :=
  mkBorrow (bs_columns s) (bs_more_rows s) (bs_cursor_id s) (bs_row_count s) (bs_row_starts s ++ [start])
    (bs_row_bit_vectors s ++ [bs_pending s])
    (bs_any_bit_vector s || bool_decide (is_Some (bs_pending s))) None (bs_boundary s).
Definition bs_end (s : BorrowState) : BorrowState :=
  mkBorrow (bs_columns s) (bs_more_rows s) (bs_cursor_id s) (bs_row_count s) (bs_row_starts s)
    (bs_row_bit_vectors s) (bs_any_bit_vector s) (bs_pending s) true.
Definition bs_end_of_call (info : ErrorInfo) (more_rows : bool) (s : BorrowState) : BorrowState :=
  mkBorrow (bs_columns s) more_rows
    (if negb (sei_cursor_id info =? 0) then sei_cursor_id info else bs_cursor_id s) (sei_row_count info)
    (bs_row_starts s) (bs_row_bit_vectors s) (bs_any_bit_vector s) (bs_pending s) true.

Section Borrow.
Context (payload : bytes) (ttc_field_version : Z) (mode : LobDecodeMode).

Definition borrow_describe (s : BorrowState) : ReaderM BorrowState :=
  _ ← read_bytes;
  columns ← parse_describe_info ttc_field_version;
  mret (bs_set_columns (adjust_columns (bs_columns s) columns).1 s).

Definition borrow_row (s : BorrowState) : ReaderM BorrowState :=
  n ← lift (arith 0 USIZE_MAX (Zlen (bs_row_starts s) + 1));
  _ ← limit_check check_batch_rows n;
  start ← gets pos;
  _ ← skip_row_data (bs_columns s) 0 (bs_pending s) true mode;
  mret (bs_add_row start s).

(** The framing walk over implicit result sets. *)
Definition borrow_implicit : ReaderM () :=
  num_results ← read_ub4;
  _ ← limit_check check_length_prefixed_elements num_results;
  _ ← parse_implicit_results (Z.to_nat num_results) ttc_field_version;
  mret ().

Definition borrow_error (s : BorrowState) : ReaderM BorrowState :=
  info ← parse_server_error_info ttc_field_version;
  if (sei_number info =? TNS_ERR_NO_DATA_FOUND) && negb (bool_decide (bs_columns s = []))
  then mret (bs_end_of_call info false s)
  else if negb (sei_number info =? 0) && negb (sei_number info =? TNS_ERR_ARRAY_DML_ERRORS)
  then throw (Protocol.ServerErrorInfo (into_details info))
  else mret (bs_end_of_call info (bs_more_rows s) s).

Definition borrow_message (s : BorrowState) : ReaderM (BorrowState * bool) :=
  message_type ← read_u8;
  if message_type =? 0 then mret (s, false)
  else if message_type =? TNS_MSG_TYPE_DESCRIBE_INFO then s ← borrow_describe s; mret (s, false)
  else if message_type =? TNS_MSG_TYPE_ROW_HEADER then b ← parse_row_header; mret (bs_set_pending b s, false)
  else if message_type =? TNS_MSG_TYPE_BIT_VECTOR then
    b ← parse_bit_vector (Zlen (bs_columns s)); mret (bs_set_pending (Some b) s, false)
  else if message_type =? TNS_MSG_TYPE_ROW_DATA then s ← borrow_row s; mret (s, false)
  else if message_type =? TNS_MSG_TYPE_PARAMETER then
    _ ← parse_query_return_parameters false; mret (s, false)
  else if message_type =? TNS_MSG_TYPE_STATUS then _ ← read_ub4; _ ← read_ub2; mret (bs_end s, false)
  else if message_type =? TNS_MSG_TYPE_SERVER_SIDE_PIGGYBACK then _ ← skip_server_side_piggyback; mret (s, false)
  else if (message_type =? TNS_MSG_TYPE_FLUSH_OUT_BINDS) || (message_type =? TNS_MSG_TYPE_END_OF_RESPONSE)
  then mret (bs_end s, true)
  else if message_type =? TNS_MSG_TYPE_TOKEN then _ ← read_ub8; mret (s, false)
  else if message_type =? TNS_MSG_TYPE_IMPLICIT_RESULTSET then _ ← borrow_implicit; mret (s, false)
  else if message_type =? TNS_MSG_TYPE_ERROR then s ← borrow_error s; mret (s, false)
  else unknown_message payload ttc_field_version message_type.

Definition borrow_loop : nat → BorrowState → ReaderM BorrowState := while_remaining borrow_message.

Record BorrowedFetchResult := mkBorrowed {
  br_batch : BorrowedRowBatch;
  br_more_rows : bool;
  br_cursor_id : Z;
  br_row_count : Z
}.

Definition parse_response_borrowed (columns : list ColumnMetadata) (previous_row : option Row)
  (l : ProtocolLimits) : Res BorrowedFetchResult :=
  reader ← with_limits payload l;
  _ ← check_columns (limits reader) (Zlen columns);
  s ← (borrow_loop (response_fuel payload) (mkBorrow columns true 0 0 [] [] false None false) reader).1;
  if bs_boundary s then
    let any := bs_any_bit_vector s in
    Ok (mkBorrowed
          (mkBatch payload (bs_columns s) (bs_row_starts s)
             (if any then bs_row_bit_vectors s else []) true mode
             (if any then Some (default [] previous_row) else None))
          (bs_more_rows s) (bs_cursor_id s) (bs_row_count s))
  else Err (TtcDecode "incomplete query response").
End Borrow.
