(* ===== verification/FetchSafety.v ===== *)
(** * Decoding a hostile query response

    Every parser of a response returns on every byte string: the loops over counts
    from the wire are bounded by what the readers refuse, the loop over messages
    consumes a byte each turn, and the value decoders are total.  The borrowed path
    is included, iteration over its batch too. *)

From S2P Require Import Prelude.
From S2P Require Import Protocol.
From S2P Require Import Limits.
From S2P Require Import Writer.
From S2P Require Import Reader.
From S2P Require Import ReaderSafety.
From S2P Require Import Calendar.
From S2P Require Import Datetime.
From S2P Require Import Number.
From S2P Require Import NumberWire.
From S2P Require Import Vector.
From S2P Require Import ShapeCache.
From S2P Require Import Binds.
From S2P Require Import Oson.
From S2P Require Import OsonTree.
From S2P Require Import OsonSafety.
From S2P Require Import Utf.
From S2P Require Import ServerError.
From S2P Require Import Fetch.
From S2P Require Import FetchBorrowed.

Definition policy_ok (l : ProtocolLimits) : Prop := limits_usize l ∧ max_object_depth l < USIZE_MAX.

Lemma policy_response l : policy_ok l → 0 <= max_response_bytes l.
Proof. intros [Hu _]. unfold limits_usize, named_limits in Hu. rewrite !Forall_cons_iff in Hu. cbn in Hu. lia. Qed.

(** [safe n m Q]: under a policy, [m] is total, moves forward and, when it succeeds,
    has consumed [n] bytes and its value satisfies [Q]. *)
Definition safe {A} (n : Z) (m : ReaderM A) (Q : A → Prop) : Prop :=
  ∀ r, reader_ok r → policy_ok (limits r) → sound_at r n m Q.

Lemma safe_sound {A} n (m : ReaderM A) Q : sound n m Q → safe n m Q.
Proof. intros H r Hr _. by apply H. Qed.

Lemma safe_seq {A B} n n1 (m : ReaderM A) (f : A → ReaderM B) (P : A → Prop) (Q : B → Prop) :
  safe n1 m P → (∀ a, P a → safe (n - n1) (f a) Q) → safe n (m ≫= f) Q.
Proof.
  intros Hm Hf r Hr Hp. eapply sound_at_seq; [by apply Hm|]. intros a r' Hadv _ HP.
  apply Hf; [done|by eapply advances_ok|]. destruct Hadv as (_ & -> & _). done.
Qed.

Lemma safe_weaken {A} n n' (m : ReaderM A) (P Q : A → Prop) :
  n' <= n → (∀ a, P a → Q a) → safe n m P → safe n' m Q.
Proof.
  intros Hn HPQ Hm r Hr Hp. destruct (Hm r Hr Hp) as (?&?&Hok).
  split; [done|]. split; [done|]. intros a [HP ?]%Hok. split; [auto|lia].
Qed.

Lemma safe_done {A} n (a : A) (Q : A → Prop) : n <= 0 → Q a → safe n (mret a) Q.
Proof. intros. by apply safe_sound, sound_done. Qed.

Lemma safe_throw {A} n e (Q : A → Prop) : safe n (throw e) Q.
Proof. apply safe_sound, sound_throw. Qed.

Lemma safe_lift {A} (x : Res A) (Q : A → Prop) : post Q x → safe 0 (lift x) Q.
Proof. intros H. apply safe_sound, sound_lift; destruct x; cbn in *; try done. by intros ? [= <-]. Qed.

Lemma safe_gets {A} (f : TtcReader → A) : safe 0 (gets f) (λ _, True).
Proof. apply safe_sound, sound_gets. Qed.

Lemma safe_limits : safe 0 (gets limits) policy_ok.
Proof.
  intros r Hr Hp. split; [done|]. split; [by apply advances_refl|]. intros a [= <-]. split; [done|cbn; lia].
Qed.

Create HintDb safe.
#[export] Hint Extern 0 (safe _ (gets limits) _) => apply safe_limits : safe.
#[export] Hint Extern 3 (safe _ (gets _) _) => apply safe_gets : safe.
#[export] Hint Extern 1 (safe _ (read_u8) _) => apply safe_sound, read_u8_sound : safe.
#[export] Hint Extern 1 (safe _ (peek_u8) _) => apply safe_sound, peek_u8_sound : safe.
#[export] Hint Extern 1 (safe _ (read_i8) _) => apply safe_sound, read_i8_sound : safe.
#[export] Hint Extern 1 (safe _ (read_ub2) _) => apply safe_sound, read_ub2_sound : safe.
#[export] Hint Extern 1 (safe _ (read_ub4) _) => apply safe_sound, read_ub4_sound : safe.
#[export] Hint Extern 1 (safe _ (read_ub8) _) => apply safe_sound, read_ub8_sound : safe.
#[export] Hint Extern 1 (safe _ (read_sb4) _) => apply safe_sound, read_sb4_sound : safe.

Ltac safe_next :=
  lazymatch goal with
  | |- safe _ (_ ≫= _) _ => eapply safe_seq; [solve [eauto with safe]|cbn beta; intros ? ?]
  | |- safe _ (throw _) _ => apply safe_throw
  | |- safe _ (mret _) _ => apply safe_done; [try lia|try done]
  | |- safe _ (if ?b then _ else _) _ => let E := fresh "E" in destruct b eqn:E
  | |- safe _ (match ?b with _ => _ end) _ => destruct b
  end.
Ltac safe_run := repeat safe_next.

(** ** Reader primitives *)

Lemma read_raw_safe_n n : 0 <= n → safe n (read_raw n) (λ b, bytes_ok b ∧ Zlen b = n).
Proof. intros. by apply safe_sound, read_raw_sound. Qed.
#[export] Hint Extern 2 (safe _ (read_raw _) _) => apply read_raw_safe_n; lia : safe.

Lemma skip_safe_n n : 0 <= n → safe 0 (skip n) (λ _, True).
Proof. intros Hn. unfold skip. eapply (safe_seq _ n); [by apply read_raw_safe_n|]. intros b _. apply safe_done; [lia|done]. Qed.
#[export] Hint Extern 2 (safe _ (skip _) _) => apply skip_safe_n; unfold is_u8 in *; lia : safe.

(** What a chunked read gathers was read. *)
Lemma read_chunks_length fuel : ∀ out n t r b r',
  reader_ok r → read_chunks fuel out n t r = (Ok b, r') →
  reader_ok r' ∧ pos r <= pos r' ∧ Zlen b <= Zlen out + (pos r' - pos r).
Proof.
  induction fuel as [|fuel IH]; intros out n t r b r' Hr H; [done|]. cbn [read_chunks] in H.
  destruct (read_ub4_sound r Hr) as (_ & Hadv & Hok). rewrite st_bindE in H.
  destruct (read_ub4 r) as [[c|e| |] r1]; try done. cbn [fst snd] in Hadv, Hok.
  destruct (Hok c eq_refl) as [Hc Hp]. pose proof (advances_ok _ _ Hr Hadv) as Hr1.
  destruct (c =? 0); [injection H as <- <-; split; [done|]; lia|]. st_run_in H.
  destruct (chunk_guards (limits r1) n t c) as [g|e| |] eqn:Hg; try done.
  destruct (chunk_guards_inv (limits r1) n t c) as [_ Hinv]. apply Hinv in Hg as (-> & _ & _ & Hcr & _).
  rewrite st_bindE in H. destruct (read_raw_sound c ltac:(lia) r1 Hr1) as (_ & Hadv2 & Hok2).
  destruct (read_raw c r1) as [[x|e| |] r2]; try done. cbn [fst snd] in Hadv2, Hok2.
  destruct (Hok2 x eq_refl) as [[_ Hx] Hp2].
  destruct (IH _ _ _ _ _ _ (advances_ok _ _ Hr1 Hadv2) H) as (Hr' & Hp' & Hl).
  rewrite Zlen_app in Hl. split; [done|]. lia.
Qed.

Definition field_ok (o : option bytes) : Prop := ∀ b, o = Some b → bytes_ok b ∧ Zlen b <= I64_MAX.

Lemma read_bytes_safe : safe 1 read_bytes field_ok.
Proof.
  intros r Hr Hp. destruct (read_bytes_sound_at r Hr (policy_response _ Hp)) as (Hret & Hadv & Hok).
  split; [done|]. split; [done|]. intros o Ho. destruct (Hok o Ho) as [Hb Hn]. split; [|done].
  intros b ->. destruct (Hb b eq_refl) as [Hbytes _]. split; [done|].
  pose proof (advances_ok _ _ Hr Hadv) as Hr'. clear Hok Hb Hret Hn. destruct (read_bytes r) as [res r'] eqn:E. cbn in Ho. subst res.
  unfold read_bytes in E. rewrite st_bindE in E. destruct (read_u8_sound r Hr) as (_ & Hadv1 & Hok1).
  destruct (read_u8 r) as [[len|e| |] r1]; try done. cbn [fst snd] in Hadv1, Hok1.
  pose proof (advances_ok _ _ Hr Hadv1) as Hr1. destruct (Hok1 len eq_refl) as [Hlen _].
  destruct (len =? TNS_LONG_LENGTH_INDICATOR).
  - st_run_in E. destruct (read_chunks (loop_fuel r1) [] 0 0 r1) as [[x|e| |] r2] eqn:Ec; try done.
    injection E as -> ->. destruct (read_chunks_length _ _ _ _ _ _ _ Hr1 Ec) as (Hr2 & Hpp & Hl).
    rewrite Zlen_nil in Hl. destruct Hr2 as (_ & Hp2 & Hm), Hr1 as (_ & Hp1 & _). cbn [snd] in *. lia.
  - destruct (_ || _); [done|]. st_run_in E. destruct (check_response_bytes _ _) as [[]|e| |]; try done. st_run_in E.
    unfold is_u8 in Hlen. destruct (read_raw_sound len ltac:(lia) r1 Hr1) as (_ & _ & Hok2).
    destruct (read_raw len r1) as [[x|e| |] r2]; try done. destruct (Hok2 x eq_refl) as [[_ Hx] _].
    injection E as -> _. rewrite Hx. unfold I64_MAX. lia.
Qed.

Lemma read_bytes_borrowed_safe : safe 1 read_bytes_borrowed (λ b, field_ok (bb_value b)).
Proof.
  intros r Hr Hp. destruct (read_bytes_safe r Hr Hp) as (Hret & Hadv & Hok).
  destruct (read_bytes_companions r) as [Heq _]. rewrite Heq in Hret, Hadv, Hok. cbn [fst snd] in *.
  split; [by eapply fmap_returns|]. split; [done|]. intros a Ha. rewrite Ha in Hok. by destruct (Hok _ eq_refl).
Qed.

Lemma skip_bytes_field_safe : safe 1 skip_bytes_field (λ _, True).
Proof. intros r Hr Hp. by apply skip_bytes_field_sound_at, policy_response. Qed.

Lemma read_bytes_with_length_safe : safe 1 read_bytes_with_length (λ _, True).
Proof.
  intros r Hr Hp. destruct (read_bytes_with_length_sound_at r Hr (policy_response _ Hp)) as (? & ? & Hok).
  split; [done|]. split; [done|]. intros a [_ ?]%Hok. done.
Qed.

Lemma read_string_with_length_safe : safe 1 read_string_with_length (λ _, True).
Proof.
  intros r Hr Hp. destruct (read_string_with_length_sound_at r Hr (policy_response _ Hp)) as (? & ? & Hok).
  split; [done|]. split; [done|]. intros a [_ ?]%Hok. done.
Qed.
#[export] Hint Resolve read_bytes_safe read_bytes_borrowed_safe skip_bytes_field_safe
  read_bytes_with_length_safe read_string_with_length_safe : safe.

(** [sub m]: the specification of [m] without its consumption. *)
Lemma safe_zero {A} n (m : ReaderM A) (P : A → Prop) : 0 <= n → safe n m P → safe 0 m (λ _, True).
Proof. intros Hn H. eapply safe_weaken; [| |exact H]; [done|done]. Qed.

(** A branch of one step and nothing. *)
Lemma safe_when (b : bool) (m : ReaderM ()) : safe 0 m (λ _, True) → safe 0 (if b then m else mret ()) (λ _, True).
Proof. intros H. destruct b; [done|by apply safe_done]. Qed.

(** ** Errors and piggybacks *)

Lemma indexes_post b places :
  bytes_ok b → Forall (λ i, 0 <= i < Zlen b) places → post (λ _, True) (indexes b places).
Proof.
  intros Hb. induction places as [|i places IH]; intros H; [done|]. cbn [indexes].
  apply Forall_cons_iff in H as [Hi H]. eapply post_bind; [by apply index_post|]. intros x _.
  eapply post_bind; [by apply IH|]. done.
Qed.

Ltac in_range := repeat (apply Forall_cons_iff; split; [lia|]); done.

Lemma urowid_text_post b : bytes_ok b → post (λ _, True) (urowid_text b).
Proof.
  intros Hb. unfold urowid_text. apply post_if; intros Hl; [done|]. apply Z.ltb_ge in Hl.
  eapply post_bind; [by apply index_post; [|lia]|]. intros b0 _. apply post_if; intros _; [|done].
  do 4 (eapply post_bind; [apply indexes_post; [done|in_range]|]; intros ? _). done.
Qed.

Lemma sessionless_post b : bytes_ok b → post (λ _, True) (decode_sessionless_txn_state b).
Proof.
  intros Hb. unfold decode_sessionless_txn_state. apply post_if; intros Hl; [done|]. apply Z.ltb_ge in Hl.
  do 2 (eapply post_bind; [by apply index_post; [|lia]|]; intros ? _). by repeat (apply post_if; intros _).
Qed.

Lemma optional_bytes_safe : safe 1 optional_bytes field_ok.
Proof.
  unfold optional_bytes. safe_run. eapply safe_weaken; [| |apply read_bytes_safe]; [lia|done].
Qed.
#[export] Hint Resolve optional_bytes_safe : safe.

Lemma read_rowid_parts_safe : safe 1 read_rowid_parts (λ _, True).
Proof. unfold read_rowid_parts. safe_run. Qed.
#[export] Hint Resolve read_rowid_parts_safe : safe.

Lemma read_rowid_safe : safe 1 read_rowid (λ _, True).
Proof. unfold read_rowid. safe_run. Qed.
#[export] Hint Resolve read_rowid_safe : safe.

Lemma parse_rowid_value_safe : safe 1 parse_rowid_value (λ _, True).
Proof. unfold parse_rowid_value. safe_run. Qed.

Lemma parse_urowid_value_safe : safe 1 parse_urowid_value (λ _, True).
Proof.
  unfold parse_urowid_value. safe_next. destruct a as [b1|]; [|by safe_run]. safe_next.
  destruct a as [b|]; [|by safe_run]. eapply safe_seq; [apply safe_lift, urowid_text_post; by apply (H0 b)|].
  intros t _. by safe_run.
Qed.
#[export] Hint Resolve parse_rowid_value_safe parse_urowid_value_safe : safe.

Lemma read_batch_codes_safe n long : safe 0 (read_batch_codes n long) (λ _, True).
Proof.
  induction n as [|n IH]; cbn [read_batch_codes]; [by safe_run|].
  eapply (safe_seq _ 0 _ _ (λ _, True)); [destruct long; by safe_run|]. intros _ _. safe_next.
  eapply safe_seq; [eapply safe_weaken; [| |exact IH]; [reflexivity|done]|]. intros rest _. by safe_run.
Qed.

Lemma read_batch_offsets_safe n long : ∀ index errors, safe 0 (read_batch_offsets n long index errors) (λ _, True).
Proof.
  induction n as [|n IH]; intros index errors; cbn [read_batch_offsets]; [by safe_run|].
  eapply (safe_seq _ 0 _ _ (λ _, True)); [destruct long; by safe_run|]. intros _ _. safe_next.
  eapply safe_weaken; [| |apply IH]; [lia|done].
Qed.

Lemma read_batch_messages_safe n : ∀ index errors, safe 0 (read_batch_messages n index errors) (λ _, True).
Proof.
  induction n as [|n IH]; intros index errors; cbn [read_batch_messages]; [by safe_run|].
  do 3 safe_next. eapply safe_weaken; [| |apply IH]; [lia|done].
Qed.
#[export] Hint Resolve read_batch_codes_safe read_batch_offsets_safe read_batch_messages_safe : safe.

Lemma read_batch_errors_safe : safe 1 read_batch_errors (λ _, True).
Proof.
  unfold read_batch_errors. safe_next. eapply (safe_seq _ 0 _ _ (λ _, True)).
  { destruct (0 <? a); [|by safe_run]. do 2 safe_next. eapply (safe_seq _ 0 _ _ (λ _, True)); [apply safe_when; eauto with safe|].
    intros _ _. by safe_run. }
  intros errors _. safe_next. eapply (safe_seq _ 0 _ _ (λ _, True)).
  { destruct (0 <? a0); [|by safe_run]. do 2 safe_next. eapply (safe_seq _ 0 _ _ (λ _, True)); [apply safe_when; eauto with safe|].
    intros _ _. by safe_run. }
  intros errors' _. safe_next. destruct (0 <? a1); [|by safe_run]. safe_next.
  eapply safe_weaken; [| |apply read_batch_messages_safe]; [lia|done].
Qed.
#[export] Hint Resolve read_batch_errors_safe : safe.

Lemma next_is_zero_safe : safe 0 next_is_zero (λ _, True).
Proof. unfold next_is_zero. safe_run. Qed.

Lemma error_info_safe v : safe 1 (parse_server_error_info v) (λ _, True).
Proof.
  unfold parse_server_error_info. do 19 safe_next.
  eapply (safe_seq _ 0 _ _ (λ _, True)); [destruct (reads_error_sql_type_and_checksum v); [by safe_run|apply next_is_zero_safe]|].
  intros trailer _. eapply (safe_seq _ 0 _ _ (λ _, True)); [destruct trailer; by safe_run|]. intros _ _.
  eapply (safe_seq _ 0 _ _ (λ _, True)); [destruct (negb _); by safe_run|]. intros message _. by safe_run.
Qed.
#[export] Hint Resolve error_info_safe : safe.

Lemma keyword_pairs_safe n : ∀ state, safe 0 (read_keyword_value_pairs n state) (λ _, True).
Proof.
  induction n as [|n IH]; intros state; cbn [read_keyword_value_pairs]; [by safe_run|].
  do 3 safe_next. eapply (safe_seq _ 0 _ _ (λ _, True)).
  - destruct a0 as [b|]; [|by safe_run]. destruct (_ =? _); [|by safe_run].
    eapply safe_seq; [apply safe_lift, sessionless_post; by apply (H0 b)|]. intros u _. by safe_run.
  - intros s _. eapply safe_weaken; [| |apply IH]; [lia|done].
Qed.

Lemma txn_pairs_safe n : safe 0 (read_keyword_value_pairs_for_txn_state n) (λ _, True).
Proof. apply keyword_pairs_safe. Qed.
#[export] Hint Resolve txn_pairs_safe : safe.

Lemma skip_pairs_safe n : safe 0 (skip_keyword_value_pairs n) (λ _, True).
Proof. unfold skip_keyword_value_pairs. safe_run. Qed.

Lemma session_elements_safe n : safe 0 (skip_session_elements n) (λ _, True).
Proof.
  induction n as [|n IH]; cbn [skip_session_elements]; [by safe_run|]. do 3 safe_next.
  eapply safe_weaken; [| |apply IH]; [lia|done].
Qed.
#[export] Hint Resolve skip_pairs_safe session_elements_safe : safe.

Lemma piggyback_safe : safe 1 skip_server_side_piggyback (λ _, True).
Proof.
  unfold skip_server_side_piggyback. safe_next. do 6 (safe_next; [safe_run; fail|]).
  safe_next; [|safe_run]. do 3 safe_next. eapply (safe_seq _ 0 _ _ (λ _, True)).
  - apply safe_when. safe_next. eapply safe_weaken; [| |apply session_elements_safe]; [lia|done].
  - intros _ _. by safe_run.
Qed.
#[export] Hint Resolve piggyback_safe : safe.

(** ** Descriptions *)

Lemma limit_check_safe check n : (∀ l, returns (check l n)) → safe 0 (limit_check check n) (λ _, True).
Proof.
  intros H. unfold limit_check. safe_next. apply safe_lift. specialize (H a). by destruct (check a n).
Qed.

Lemma reserve_checked_safe n check : (∀ l, returns (check l n)) → safe 0 (reserve_checked n check) (λ _, True).
Proof.
  intros H. apply safe_sound, sound_stay. intros r Hr. eexists. split; [reflexivity|]. split; [|done].
  unfold with_capacity_limited. specialize (H (protocol_limits r)). by destruct (check _ n).
Qed.
#[export] Hint Extern 1 (safe _ (limit_check _ _) _) => apply limit_check_safe; intros; apply check_returns : safe.
#[export] Hint Extern 1 (safe _ (reserve_checked _ _) _) => apply reserve_checked_safe; intros; apply check_returns : safe.

Lemma read_name_text_safe : safe 1 read_name_text (λ _, True).
Proof. unfold read_name_text. safe_run. Qed.
#[export] Hint Resolve read_name_text_safe : safe.

Lemma read_annotations_safe n : safe 0 (read_annotations n) (λ _, True).
Proof.
  induction n as [|n IH]; cbn [read_annotations]; [by safe_run|]. do 3 safe_next.
  eapply safe_seq; [exact IH|]. intros rest _. by safe_run.
Qed.
#[export] Hint Resolve read_annotations_safe : safe.

Lemma parse_annotations_safe : safe 0 parse_annotations (λ _, True).
Proof. unfold parse_annotations. safe_run. Qed.
#[export] Hint Resolve parse_annotations_safe : safe.

Lemma column_metadata_safe v : safe 1 (parse_column_metadata v) (λ _, True).
Proof.
  unfold parse_column_metadata. do 12 safe_next.
  eapply (safe_seq _ 0 _ _ (λ _, True)); [destruct (carries_oaccolid v); by safe_run|]. intros _ _. do 7 safe_next.
  eapply (safe_seq _ 0 _ _ (λ _, True)); [destruct (reads_column_domain v); by safe_run|]. intros [ds dn] _.
  eapply (safe_seq _ 0 _ _ (λ _, True)); [destruct (reads_column_annotations v); [apply parse_annotations_safe|by safe_run]|].
  intros an _. eapply (safe_seq _ 0 _ _ (λ _, True)); [destruct (reads_column_vector_metadata v); by safe_run|].
  intros [[vd vf] vfl] _. by safe_run.
Qed.
#[export] Hint Resolve column_metadata_safe : safe.

Lemma parse_columns_safe n v : safe 0 (parse_columns n v) (λ _, True).
Proof.
  induction n as [|n IH]; cbn [parse_columns]; [by safe_run|]. safe_next.
  eapply safe_seq; [exact IH|]. intros rest _. by safe_run.
Qed.
#[export] Hint Resolve parse_columns_safe : safe.

Lemma describe_info_safe v : safe 1 (parse_describe_info v) (λ _, True).
Proof.
  unfold parse_describe_info. do 3 safe_next.
  eapply (safe_seq _ 0 _ _ (λ _, True)); [apply safe_when; eauto with safe|]. intros _ _. by safe_run.
Qed.
#[export] Hint Resolve describe_info_safe : safe.

(** ** Values *)

Lemma with_bytes_safe f : (∀ b, bytes_ok b → post (λ _, True) (f b)) → safe 1 (with_bytes f) (λ _, True).
Proof.
  intros Hf. unfold with_bytes. safe_next. destruct a as [b|]; [|by safe_run].
  eapply safe_seq; [apply safe_lift, Hf; by apply (H b)|]. intros x _. by safe_run.
Qed.

Lemma text_value_post csfrm b : bytes_ok b → post (λ _, True) (text_value csfrm b).
Proof.
  intros Hb. unfold text_value. pose proof (decode_text_post b csfrm Hb) as H.
  destruct (decode_text_value b csfrm) as [t|[]| |]; done.
Qed.

Lemma interval_ym_total b : bytes_ok b → post (λ _, True) (decode_interval_ym b).
Proof.
  intros Hok. unfold decode_interval_ym. apply post_if; intros Hl; [done|]. apply Z.ltb_ge in Hl.
  destruct (slice_get b 0 4) as [y|] eqn:Hy; [|apply slice_get_none in Hy; lia].
  pose proof (slice_get_ok _ _ _ _ Hok Hy) as Hyok. apply slice_get_some in Hy as (_ & _ & _ & Hyl).
  pose proof (from_be_bytes_range y Hyok) as Hr. unfold Zlen in Hyl. rewrite Hyl in Hr.
  change (256 ^ (4 - 0)) with 4294967296 in Hr. cbn [or_panic]. st_run.
  unfold i64. rewrite arith_in by (unfold I64_MIN, I64_MAX, TNS_DURATION_MID; lia). st_run.
  eapply (post_bind (λ _, True)); [by apply post_ok_or|]. intros years _.
  eapply post_bind; [by apply index_post; [|lia]|]. intros b4 [Hb4 _]. unfold i32.
  by rewrite arith_in by (unfold I32_MIN, I32_MAX, TNS_DURATION_OFFSET, is_u8 in *; lia).
Qed.

Lemma binary_double_post b : post (λ _, True) (decode_binary_double b).
Proof. unfold decode_binary_double. by destruct (_ =? _). Qed.

Lemma binary_float_post b : post (λ _, True) (decode_binary_float b).
Proof. unfold decode_binary_float. by destruct (_ =? _). Qed.

Lemma lob_value_safe c mode : safe 1 (parse_lob_value c mode) (λ _, True).
Proof.
  unfold parse_lob_value. do 2 safe_next. safe_next; [by safe_run|].
  eapply (safe_seq _ 0 _ _ (λ _, True)); [destruct (_ || _); by safe_run|]. intros [size chunk] _. by safe_run.
Qed.

Lemma prefetched_safe : safe 1 read_prefetched_image field_ok.
Proof.
  unfold read_prefetched_image. do 2 safe_next. safe_next; [by safe_run|]. do 3 safe_next.
  destruct a3 as [data|]; [|by safe_run]. safe_run. intros b Hb. case_bool_decide; [done|]. by apply H3.
Qed.
#[export] Hint Resolve lob_value_safe prefetched_safe : safe.

Lemma vector_value_safe : safe 1 parse_vector_value (λ _, True).
Proof.
  unfold parse_vector_value. safe_next. destruct a as [data|]; [|by safe_run]. safe_next.
  destruct (H data eq_refl) as [Hd Hl]. destruct H0 as [Hu _].
  eapply safe_seq; [apply safe_lift, (decode_vector_post _ _ Hu Hd Hl)|]. intros x _. by safe_run.
Qed.

Lemma json_value_safe : safe 1 parse_json_value (λ _, True).
Proof.
  unfold parse_json_value. safe_next. destruct a as [data|]; [|by safe_run]. safe_next.
  destruct (H data eq_refl) as [Hd Hl].
  destruct H0 as [Hu Hdep].
  eapply safe_seq; [apply safe_lift, (decode_oson_post _ _ Hu Hdep Hd Hl)|]. intros x _. by safe_run.
Qed.

Lemma object_value_safe c : safe 1 (parse_object_value c) (λ _, True).
Proof. unfold parse_object_value. safe_run. Qed.

Lemma cursor_value_safe : safe 1 parse_cursor_value (λ _, True).
Proof. unfold parse_cursor_value. safe_run. Qed.
#[export] Hint Resolve vector_value_safe json_value_safe object_value_safe cursor_value_safe : safe.

Lemma column_value_safe c mode : safe 0 (parse_column_value_with_lob_mode c mode) (λ _, True).
Proof.
  unfold parse_column_value_with_lob_mode. cbv zeta.
  repeat (safe_next; [first [ by safe_run | eapply (safe_zero 1); [lia|]; first [ by eauto with safe
    | apply with_bytes_safe; intros b Hb; first [ by apply text_value_post | done
      | eapply post_bind; [first [ eapply post_mono; [|by apply number_value_total]; intros ? HH; exact HH
          | by apply interval_total | by apply interval_ym_total
          | eapply post_mono; [|by apply decode_datetime_post]; intros ? HH; exact HH
          | apply binary_double_post | apply binary_float_post ]|done] ] ] ]|]).
  apply safe_throw.
Qed.
#[export] Hint Resolve column_value_safe : safe.

(** ** Rows *)

Lemma row_header_safe : safe 0 parse_row_header (λ _, True).
Proof.
  unfold parse_row_header. do 6 safe_next. eapply (safe_seq _ 0 _ _ (λ _, True)); [|intros b _; by safe_run].
  destruct (0 <? a4); [|by safe_run]. safe_next. eapply safe_seq; [apply read_raw_safe_n; lia|]. intros b _. safe_run.
Qed.

Lemma bit_vector_safe n : 0 <= n → safe 0 (parse_bit_vector n) (λ _, True).
Proof.
  intros Hn. unfold parse_bit_vector. safe_next. eapply (safe_weaken ((n + 7) / 8)); [| |apply read_raw_safe_n].
  - pose proof (Z.div_pos (n + 7) 8). lia.
  - done.
  - apply Z.div_pos; lia.
Qed.

Lemma long_status_safe b c : safe 0 (read_long_status b c) (λ _, True).
Proof. unfold read_long_status. destruct (_ && _); by safe_run. Qed.
#[export] Hint Resolve row_header_safe long_status_safe : safe.

Lemma row_cells_safe columns bits last long mode : ∀ index,
  safe 0 (parse_row_cells columns index bits last long mode) (λ _, True).
Proof.
  induction columns as [|c columns IH]; intros index; cbn [parse_row_cells]; [by safe_run|].
  eapply (safe_seq _ 0 _ _ (λ _, True)).
  - destruct (is_duplicate_column bits index); [apply safe_lift; by apply post_ok_or|by safe_run].
  - intros cell _. eapply safe_seq; [apply IH|]. intros rest _. by safe_run.
Qed.
#[export] Hint Resolve row_cells_safe : safe.

Lemma row_data_safe columns rows bits prev long mode :
  safe 0 (parse_row_data columns rows bits prev long mode) (λ _, True).
Proof. unfold parse_row_data. safe_run. Qed.
#[export] Hint Resolve row_data_safe : safe.

Lemma out_cell_safe c e : safe 0 (parse_out_cell c e) (λ _, True).
Proof.
  unfold parse_out_cell, parse_column_value. do 2 safe_next. eapply safe_weaken; [| |apply safe_lift]; [lia|intros ? HH; exact HH|].
  unfold apply_out_bind_actual_num_bytes. by repeat (apply post_if; intros _).
Qed.
#[export] Hint Resolve out_cell_safe : safe.

Lemma out_cells_safe n c e : safe 0 (parse_out_cells n c e) (λ _, True).
Proof.
  induction n as [|n IH]; cbn [parse_out_cells]; [by safe_run|]. safe_next.
  eapply safe_seq; [exact IH|]. intros rest _. by safe_run.
Qed.
#[export] Hint Resolve out_cells_safe : safe.

Lemma out_list_safe c e : safe 0 (parse_out_list c e) (λ _, True).
Proof.
  unfold parse_out_list. safe_next. eapply safe_seq; [by apply safe_lift, (post_ok_or (λ _, True))|]. intros n _.
  do 2 safe_next. eapply safe_weaken; [| |apply out_cells_safe]; [lia|done].
Qed.
#[export] Hint Resolve out_list_safe : safe.

Lemma bind_column_post cs i e : post (λ _, True) (bind_column cs i e).
Proof. by apply post_ok_or. Qed.

Lemma out_bind_row_safe cs indexes : safe 0 (parse_out_bind_row_data cs indexes) (λ _, True).
Proof.
  induction indexes as [|i indexes IH]; cbn [parse_out_bind_row_data]; [by safe_run|].
  eapply safe_seq; [apply safe_lift, bind_column_post|]. intros c _.
  eapply (safe_seq _ 0 _ _ (λ _, True)); [destruct (is_array c); [by safe_run|apply out_cell_safe]|]. intros v _.
  eapply safe_seq; [exact IH|]. intros rest _. by safe_run.
Qed.

Lemma returning_row_safe cs indexes : safe 0 (parse_returning_row_data cs indexes) (λ _, True).
Proof.
  induction indexes as [|i indexes IH]; cbn [parse_returning_row_data]; [by safe_run|].
  eapply safe_seq; [apply safe_lift, bind_column_post|]. intros c _. safe_next.
  eapply safe_seq; [exact IH|]. intros rest _. by safe_run.
Qed.
#[export] Hint Resolve out_bind_row_safe returning_row_safe : safe.

Lemma directions_safe n : ∀ index count, safe 0 (read_directions n index count) (λ _, True).
Proof.
  induction n as [|n IH]; intros index count; cbn [read_directions]; [by safe_run|]. safe_next.
  eapply safe_seq; [apply IH|]. intros rest _. by safe_run.
Qed.

Lemma io_vector_safe n : safe 0 (parse_io_vector n) (λ _, True).
Proof.
  unfold parse_io_vector. do 3 safe_next. eapply safe_seq; [by apply safe_lift, (post_ok_or (λ _, True))|]. intros nb _.
  do 3 safe_next. eapply (safe_seq _ 0 _ _ (λ _, True)); [apply safe_when; eauto with safe|]. intros _ _. safe_next.
  eapply (safe_seq _ 0 _ _ (λ _, True)); [apply safe_when; eauto with safe|]. intros _ _. safe_next.
  eapply safe_weaken; [| |apply directions_safe]; [lia|done].
Qed.
#[export] Hint Resolve io_vector_safe : safe.

(** ** The other messages *)

Lemma skip_ub4s_safe n : safe 0 (skip_ub4s n) (λ _, True).
Proof.
  induction n as [|n IH]; cbn [skip_ub4s]; [by safe_run|]. safe_next. eapply safe_weaken; [| |exact IH]; [lia|done].
Qed.

Lemma read_ub8s_safe n : safe 0 (read_ub8s n) (λ _, True).
Proof.
  induction n as [|n IH]; cbn [read_ub8s]; [by safe_run|]. safe_next. eapply safe_seq; [exact IH|]. intros rest _. by safe_run.
Qed.
#[export] Hint Resolve skip_ub4s_safe read_ub8s_safe : safe.

Lemma block_query_id_post b : bytes_ok b → post (λ _, True) (block_query_id b).
Proof.
  intros Hb. unfold block_query_id. apply post_if; intros Hl; [done|]. apply Z.ltb_ge in Hl.
  do 2 (eapply post_bind; [apply indexes_post; [done|in_range]|]; intros ? _). done.
Qed.

Lemma return_parameters_safe counts : safe 0 (parse_query_return_parameters counts) (λ _, True).
Proof.
  unfold parse_query_return_parameters. do 3 safe_next.
  eapply (safe_seq _ 0 _ _ (λ _, True)); [apply safe_when; eauto with safe|]. intros _ _. do 3 safe_next.
  eapply (safe_seq _ 0 _ _ (λ _, True)).
  { destruct (0 <? a4); [|by safe_run]. eapply safe_seq; [apply read_raw_safe_n; lia|]. intros b [Hb _].
    eapply safe_weaken; [| |by apply safe_lift, block_query_id_post]; [lia|done]. }
  intros id _. destruct counts; by safe_run.
Qed.
#[export] Hint Resolve return_parameters_safe : safe.

Lemma implicit_results_safe n v : safe 0 (parse_implicit_results n v) (λ _, True).
Proof.
  induction n as [|n IH]; cbn [parse_implicit_results]; [by safe_run|]. do 4 safe_next.
  eapply safe_seq; [exact IH|]. intros rest _. by safe_run.
Qed.
#[export] Hint Resolve implicit_results_safe : safe.

Lemma find_embedded_post n payload v : ∀ candidate,
  bytes_ok payload → Zlen payload <= I64_MAX → 0 <= candidate →
  post (λ _, True) (find_embedded n payload v candidate).
Proof.
  induction n as [|n IH]; intros candidate Hb Hl Hc; [done|]. cbn [find_embedded].
  case_bool_decide; [|apply IH; [done|done|lia]].
  destruct (slice_get payload (candidate + 1) (Zlen payload)) as [rest|] eqn:Hs; [|done].
  pose proof (slice_get_ok _ _ _ _ Hb Hs) as Hrest. apply slice_get_some in Hs as (_ & _ & _ & Hlen).
  destruct (error_info_safe v (reader_new rest)) as (Hret & _ & _).
  { split; [done|]. cbn. pose proof (Zlen_nonneg rest). lia. }
  { split; [apply limits_DEFAULT_valid|done]. }
  destruct (parse_server_error_info v (reader_new rest)).1 as [info|e| |]; [|done..].
  destruct (_ && _); [done|]. apply IH; [done|done|lia].
Qed.

(** ** The loops over the messages *)

Section Loops.
Context (payload : bytes) (Hbytes : bytes_ok payload) (Hmax : Zlen payload <= I64_MAX) (v : Z).

Lemma unknown_safe {A} t (Q : A → Prop) : safe 0 (unknown_message payload v t) Q.
Proof.
  unfold unknown_message. safe_next. eapply safe_seq.
  { apply safe_lift. unfold find_embedded_server_error.
    eapply post_mono; [|apply find_embedded_post; [done|done|unfold sat_sub; lia]]. intros ? HH. exact HH. }
  intros found _. destruct found; apply safe_throw.
Qed.

(** A step that runs [m] and returns something. *)
Lemma then_safe {A B} n (m : ReaderM A) (f : A → B) :
  safe n m (λ _, True) → safe n (x ← m; mret (f x)) (λ _, True).
Proof. intros Hm. eapply safe_seq; [exact Hm|]. intros x _. apply safe_done; [lia|done]. Qed.

Lemma process_error_safe q : safe 0 (process_error v q) (λ _, True).
Proof. unfold process_error. safe_run. Qed.

Lemma borrow_error_safe s : safe 0 (borrow_error v s) (λ _, True).
Proof. unfold borrow_error. safe_run. Qed.

Section Owned.
Context (previous_row : option Row) (bind_columns : list ColumnMetadata) (output_bind_indexes : list Z).
Context (counts : bool) (mode : LobDecodeMode).

Lemma process_row_safe s :
  safe 0 (process_row previous_row bind_columns output_bind_indexes mode s) (λ _, True).
Proof.
  unfold process_row. eapply (safe_seq _ 0 _ _ (λ _, True)); [|intros q _; by safe_run].
  destruct (_ && _); [by safe_run|]. destruct (_ && _); by safe_run.
Qed.

Lemma process_describe_safe s : safe 0 (process_describe v s) (λ _, True).
Proof.
  unfold process_describe. do 2 safe_next. destruct (adjust_columns _ _) as [cols adj]. by safe_run.
Qed.

Lemma process_message_safe s :
  safe 1 (process_message payload v previous_row bind_columns output_bind_indexes counts mode s) (λ _, True).
Proof.
  unfold process_message. safe_next. replace (1 - 1) with 0 by lia.
  repeat (safe_next; [first [ by safe_run
    | apply then_safe; first [ apply process_describe_safe | apply process_row_safe | apply process_error_safe
        | by eauto with safe | apply bit_vector_safe, Zlen_nonneg | unfold process_parameter, process_implicit; safe_run; fail ] ]|]).
  apply unknown_safe.
Qed.
End Owned.

Lemma skip_row_safe columns bits long mode : ∀ index, safe 0 (skip_row_data columns index bits long mode) (λ _, True).
Proof.
  induction columns as [|c columns IH]; intros index; cbn [skip_row_data]; [by safe_run|].
  eapply (safe_seq _ 0 _ _ (λ _, True)); [|intros _ _; eapply safe_weaken; [| |apply IH]; [lia|done]].
  destruct (is_duplicate_column bits index); [by safe_run|].
  eapply (safe_seq _ 0 _ _ (λ _, True)); [|intros _ _; eapply safe_weaken; [| |apply long_status_safe]; [lia|done]].
  destruct (is_byte_field c); [by eapply (safe_zero 1); [lia|]; eauto with safe|by safe_run].
Qed.

Lemma borrow_describe_safe s :
  safe 0 (borrow_describe v s) (λ s', bs_row_starts s' = bs_row_starts s).
Proof. unfold borrow_describe. safe_run. Qed.

Lemma borrow_implicit_safe : safe 0 (borrow_implicit v) (λ _, True).
Proof. unfold borrow_implicit. safe_run. Qed.

Lemma borrow_error_starts s : safe 0 (borrow_error v s) (λ s', bs_row_starts s' = bs_row_starts s).
Proof. unfold borrow_error. safe_run. Qed.

(** The rows the walk has recorded: one per message at most, each inside the buffer. *)
Definition starts_ok (s : BorrowState) (p : Z) : Prop :=
  Zlen (bs_row_starts s) <= p ∧ Forall (λ x, 0 <= x <= Zlen payload) (bs_row_starts s).

Lemma starts_ok_same s s' p p' : p <= p' → bs_row_starts s' = bs_row_starts s → starts_ok s p → starts_ok s' p'.
Proof. intros Hp He [? ?]. unfold starts_ok. rewrite He. split; [lia|done]. Qed.

Lemma borrow_row_sound r p mode s :
  reader_ok r → policy_ok (limits r) → r_bytes r = payload → starts_ok s p → p <= pos r →
  sound_at r 0 (borrow_row mode s) (λ s', starts_ok s' (p + 1)).
Proof.
  intros Hr Hp Hb [Hlen Hin] Hle. unfold borrow_row. pose proof Hr as (_ & Hpos & Hmx).
  pose proof (Zlen_nonneg (bs_row_starts s)).
  rewrite arith_in by (unfold USIZE_MAX, U64_MAX, I64_MAX in *; lia).
  apply sound_at_lift; [done|done|]. intros n [= <-].
  eapply (sound_at_seq _ _ 0 _ _ (λ _, True)); [apply limit_check_safe; [intros; apply check_returns|done|done]|].
  intros _ r1 Hadv1 _ _. apply sound_at_gets. pose proof (advances_ok _ _ Hr Hadv1) as Hr1.
  destruct Hadv1 as (Hb1 & Hl1 & Hp1). assert (policy_ok (limits r1)) by (by rewrite Hl1).
  assert (0 <= pos r1 <= Zlen payload) by (rewrite <- Hb; lia).
  eapply (sound_at_seq _ _ 0 _ _ (λ _, True)); [by apply skip_row_safe|]. intros _ r2 Hadv2 _ _.
  apply sound_to_at; [by eapply advances_ok|]. apply sound_done; [lia|].
  split; cbn.
  - rewrite Zlen_app. change (Zlen [pos r1]) with 1. lia.
  - apply Forall_app. split; [done|]. by apply Forall_singleton.
Qed.

(** A step that only changes what is not a row. *)
Lemma keep_starts {A} s p (m : ReaderM A) (f : A → BorrowState * bool) (P : A → Prop) :
  starts_ok s p → safe 0 m P → (∀ a, P a → bs_row_starts (f a).1 = bs_row_starts s) →
  safe 0 (x ← m; mret (f x)) (λ x, starts_ok x.1 (p + 1)).
Proof.
  intros Hs Hm Hf. eapply safe_seq; [exact Hm|]. intros a Ha. apply safe_done; [lia|].
  eapply starts_ok_same; [|by apply Hf|done]. lia.
Qed.

(** The messages that are not rows. *)
Ltac keeps s p :=
  first [ apply safe_throw | apply unknown_safe
    | apply safe_done; [lia|]; cbn [fst]; apply (starts_ok_same s _ p); [lia|done|done]
    | apply (keep_starts s _ _ _ (λ _, True)); [done| |done]; first
        [ by eauto with safe | apply bit_vector_safe, Zlen_nonneg | apply borrow_implicit_safe ]
    | eapply (keep_starts s); [done| |intros ? HH; exact HH]; first
        [ apply borrow_describe_safe | apply borrow_error_starts ]
    | safe_run; cbn [fst]; apply (starts_ok_same s _ p); [lia|done|done] ].

Lemma borrow_message_sound r mode s :
  reader_ok r → policy_ok (limits r) → r_bytes r = payload → starts_ok s (pos r) →
  sound_at r 1 (borrow_message payload v mode s) (λ x, starts_ok x.1 (pos r + 1)).
Proof.
  intros Hr Hp Hb Hs. unfold borrow_message.
  eapply sound_at_seq; [by apply read_u8_sound|]. intros t r1 Hadv Hpos _. replace (1 - 1) with 0 by lia.
  pose proof (advances_ok _ _ Hr Hadv) as Hr1. destruct Hadv as (Hb1 & Hl1 & _). rewrite Hb in Hb1.
  assert (policy_ok (limits r1)) as Hp1 by (by rewrite Hl1). set (p := pos r) in *.
  destruct (t =? TNS_MSG_TYPE_ROW_DATA) eqn:Erow.
  { apply Z.eqb_eq in Erow as ->. cbn.
    eapply (sound_at_seq _ _ 0); [by apply (borrow_row_sound r1 p); [..|lia]|].
    intros s' r2 Hadv2 _ Hs'. apply sound_to_at; [by eapply advances_ok|]. by apply sound_done; [lia|]. }
  cbv match.
  match goal with |- sound_at _ _ ?m ?Q => cut (safe 0 m Q); [intros Hsafe; by apply Hsafe|] end.
  repeat (safe_next; [keeps s p|]).
  keeps s p.
Qed.
End Loops.

(** The loop ends: its fuel exceeds what is left to read; what a turn preserves holds
    at the end. *)
Lemma while_sound {S} (step : S → ReaderM (S * bool)) (I : S → Z → Prop) payload :
  (∀ s p p', p <= p' → I s p → I s p') →
  (∀ r s, reader_ok r → policy_ok (limits r) → r_bytes r = payload → I s (pos r) →
     sound_at r 1 (step s) (λ x, I x.1 (pos r + 1))) →
  ∀ fuel r s, reader_ok r → policy_ok (limits r) → r_bytes r = payload → I s (pos r) →
    remaining r < Z.of_nat fuel →
    sound_at r 0 (while_remaining step fuel s) (λ s', I s' (Zlen payload)).
Proof.
  intros Hmono Hstep. induction fuel as [|fuel IH]; intros r s Hr Hp Hb Hs Hfuel.
  { unfold remaining, sat_sub in Hfuel. lia. }
  assert (∀ r' s', reader_ok r' → r_bytes r' = payload → I s' (pos r') → I s' (Zlen payload)) as Hend.
  { intros r' s' (_ & [_ Hle] & _) <-. by apply Hmono. }
  cbn [while_remaining]. apply sound_at_gets.
  destruct (0 <? remaining r); [|apply sound_to_at, sound_done; [done|lia|by eapply Hend]].
  eapply sound_at_seq; [by apply Hstep|]. intros [s' stop] r' Hadv Hpos Hs'. cbn [fst] in Hs'.
  pose proof (advances_ok _ _ Hr Hadv) as Hr'. pose proof Hadv as (Hb' & Hl' & _).
  rewrite Hb in Hb'. apply (Hmono _ _ _ Hpos) in Hs'.
  destruct stop; [apply sound_to_at, sound_done; [done|lia|by eapply Hend]|].
  destruct (IH r' s' Hr') as (? & ? & Hok); [by rewrite Hl'|done|done| |].
  - rewrite !remaining_eq in * by done. rewrite Hb' , <- Hb. lia.
  - split; [done|]. split; [done|]. intros a [? ?]%Hok. split; [done|lia].
Qed.

Lemma with_limits_post payload l :
  policy_ok l → bytes_ok payload → Zlen payload <= I64_MAX →
  post (λ r, r = mkTtcReader payload 0 l ∧ reader_ok r) (with_limits payload l).
Proof.
  intros Hp Hb Hm. unfold with_limits. pose proof (validate_returns l) as Hv.
  destruct (validate l) as [l'|e| |] eqn:E; [|done..]. apply validate_same in E as ->. st_run.
  do 2 (eapply post_bind; [apply check_post|]; intros [] _). split; [done|].
  split; [done|]. cbn. pose proof (Zlen_nonneg payload). lia.
Qed.

Lemma response_loop_post {S} (step : S → ReaderM (S * bool)) (I : S → Z → Prop) payload l s :
  (∀ s p p', p <= p' → I s p → I s p') →
  (∀ r s, reader_ok r → policy_ok (limits r) → r_bytes r = payload → I s (pos r) →
     sound_at r 1 (step s) (λ x, I x.1 (pos r + 1))) →
  policy_ok l → reader_ok (mkTtcReader payload 0 l) → I s 0 →
  post (λ s', I s' (Zlen payload)) (while_remaining step (response_fuel payload) s (mkTtcReader payload 0 l)).1.
Proof.
  intros Hm Hs Hp Hr Hi.
  destruct (while_sound step I payload Hm Hs (response_fuel payload) _ s Hr Hp eq_refl Hi) as (Hret & _ & Hok).
  - unfold remaining, sat_sub, response_fuel, Zlen. cbn. lia.
  - destruct (while_remaining _ _ _ _).1 as [s'|e| |]; [|done..]. by destruct (Hok s' eq_refl).
Qed.

(** ** Rows of a batch *)

Definition extends (a a' : Arenas) : Prop :=
  number_arena a `prefix_of` number_arena a' ∧ owned_arena a `prefix_of` owned_arena a'.

#[global] Instance extends_preorder : PreOrder extends.
Proof.
  split; [intros a; by split|]. intros a b c [? ?] [? ?]. split; by etrans.
Qed.

(** What a slot is in the arenas, SQL NULL included. *)
Definition denotes (a : Arenas) (slot : ColumnSlot) (o : option QueryValueRef) : Prop :=
  match slot with
  | SlotNull => o = None
  | _ => ∃ v, o = Some v ∧ resolve a slot = Ok v
  end.

Lemma slice_get_extends (l l' : bytes) lo hi s :
  l `prefix_of` l' → slice_get l lo hi = Some s → slice_get l' lo hi = Some s.
Proof.
  intros [k ->] H. pose proof H as (? & ? & -> & _)%slice_get_some. unfold slice_get.
  rewrite Zlen_app. pose proof (Zlen_nonneg k).
  replace (_ && _) with true by lia. f_equal. unfold Zlen in *.
  rewrite drop_app_le by lia. rewrite take_app_le; [done|]. rewrite length_drop. lia.
Qed.

Lemma denotes_extends a a' slot o : extends a a' → denotes a slot o → denotes a' slot o.
Proof.
  intros [Hn Ho]. destruct slot as [|v|start stop b|i]; cbn; [done|done| |].
  - intros (v & -> & Hv). exists v. split; [done|].
    destruct (slice_get (number_arena a) start stop) as [t|] eqn:E; [|done].
    by rewrite (slice_get_extends _ _ _ _ _ Hn E).
  - intros (v & -> & Hv). exists v. split; [done|].
    destruct (owned_arena a !! i) as [x|] eqn:E; [|done]. by rewrite (prefix_lookup_Some _ _ _ _ E Ho).
Qed.

Lemma park_denotes a o :
  extends a (park a o).2 ∧ denotes (park a o).2 (park a o).1 (ROwned <$> o).
Proof.
  destruct o as [v|]; cbn; [|done]. split; [split; [done|by apply prefix_app_r]|].
  exists (ROwned v). split; [done|]. by rewrite list_lookup_middle.
Qed.

Lemma temporal_denotes expected a v :
  extends a (temporal_slot expected a v).2 ∧
  ∃ o, denotes (temporal_slot expected a v).2 (temporal_slot expected a v).1 o.
Proof.
  unfold temporal_slot. destruct (expected v).
  - split; [done|]. eexists. by eexists.
  - destruct (park_denotes a (Some (VTemporal v))). eauto.
Qed.

Abbreviation good_slot a := (λ x : ColumnSlot * Arenas, extends a x.2 ∧ ∃ o, denotes x.2 x.1 o).

Lemma number_slot_post a b : bytes_ok b → post (good_slot a) (number_slot a b).
Proof.
  intros Hb. unfold number_slot, decode_number_text_into.
  pose proof (decode_number_parts_post b Hb) as Hp.
  assert (∀ i t, good_slot a (SlotNumber (Zlen (number_arena a)) (Zlen (number_arena a ++ t)) i,
                              mkArenas (number_arena a ++ t) (owned_arena a))) as Hgood.
  { intros i t. cbn. split; [split; [by apply prefix_app_r|done]|]. exists (Some (RNumber t i)), (RNumber t i).
    split; [done|]. cbn. rewrite Zlen_app, <- (app_nil_r (number_arena a ++ t)), <- app_assoc. by rewrite slice_get_app. }
  destruct (decode_number_parts b) as [[t i|D neg dpi i]|e| |]; [apply Hgood|apply Hgood|done..].
Qed.

Lemma small_slot_safe a f :
  (∀ b, bytes_ok b → post (good_slot a) (f b)) → safe 1 (small_slot a f) (good_slot a).
Proof.
  intros Hf. unfold small_slot, with_small_bytes. safe_next. 
  assert (safe 0 (lift (Ok (SlotNull, a))) (good_slot a)).
  { apply safe_lift. split; [done|]. by exists None. }
  destruct a0 as [|s|s]; [done|apply safe_lift, Hf; by apply (H s)..].
Qed.

Lemma text_slot_safe c a : safe 1 (text_slot c a) (good_slot a).
Proof.
  unfold text_slot. safe_next. cbv zeta.
  assert (∀ b, field_ok (Some b) → safe 0 (v ← lift (text_value (csfrm c) b); mret (park a (Some v))) (good_slot a)) as Hfall.
  { intros b Hb. eapply safe_seq; [apply safe_lift, text_value_post; by apply (Hb b)|]. intros x _. apply safe_done; [lia|].
    destruct (park_denotes a (Some x)). eauto. }
  destruct a0 as [|s|s]; [by apply safe_done; [lia|]; split; [done|]; exists None| |by apply Hfall].
  destruct (negb _); [|by apply Hfall]. apply safe_done; [lia|]. destruct (utf8_valid s).
  - split; [done|]. eexists. by eexists.
  - destruct (park_denotes a (Some (VTextRaw s (csfrm c)))). eauto.
Qed.

Lemma raw_slot_safe a : safe 1 (raw_slot a) (good_slot a).
Proof.
  unfold raw_slot. safe_next. apply safe_done; [lia|]. destruct a0 as [|s|s].
  - split; [done|]. by exists None.
  - split; [done|]. eexists. by eexists.
  - destruct (park_denotes a (Some (VRaw s))). eauto.
Qed.

Lemma column_slot_safe c a mode : safe 0 (parse_column_slot c a mode) (good_slot a).
Proof.
  assert (∀ m, safe 1 m (good_slot a) → safe 0 m (good_slot a)) as Hone.
  { intros m. by apply safe_weaken. }
  unfold parse_column_slot. cbv zeta. safe_next; [apply safe_done; [lia|]; split; [done|by exists None]|].
  safe_next; [apply Hone, text_slot_safe|]. safe_next; [apply Hone, raw_slot_safe|].
  safe_next; [apply Hone, small_slot_safe; intros; by apply number_slot_post|].
  safe_next; [apply Hone, small_slot_safe; intros; cbn; split; [done|]; eexists; by eexists|].
  do 3 (safe_next; [apply Hone, small_slot_safe; intros b Hb; eapply post_bind; [first
    [ by apply interval_total | by apply interval_ym_total
    | eapply post_mono; [|by apply decode_datetime_post]; intros ? HH; exact HH ]|intros x _; apply temporal_denotes]|]).
  safe_next. apply safe_done; [lia|]. destruct (park_denotes a a0). eauto.
Qed.

Lemma decode_slots_safe columns bits prev long mode : ∀ index a,
  safe 0 (decode_slots columns index bits prev long mode a)
    (λ x, extends a x.2 ∧ ∃ row, resolve_row x.2 x.1 = Ok row).
Proof.
  induction columns as [|c columns IH]; intros index a; cbn [decode_slots].
  { apply safe_done; [lia|]. split; [done|]. by exists []. }
  eapply (safe_seq _ 0 _ _ (good_slot a)).
  - destruct (is_duplicate_column bits index).
    + apply safe_done; [lia|]. destruct (park_denotes a (previous_cell prev index)). eauto.
    + eapply safe_seq; [apply column_slot_safe|]. intros x Hx. eapply safe_seq; [apply long_status_safe|].
      intros _ _. by apply safe_done.
  - intros [slot a1] (He & o & Ho). cbn [fst snd] in *. eapply safe_seq; [apply IH|].
    intros [slots a2] (He2 & row & Hrow). cbn [fst snd] in *. apply safe_done; [lia|]. cbn [fst snd].
    split; [by etrans|]. apply (denotes_extends _ _ _ _ He2) in Ho. exists (o :: row). cbn [resolve_row].
    destruct slot; cbn [denotes] in Ho; [subst o|destruct Ho as (w & -> & ->)..]; st_run; by rewrite Hrow.
Qed.

Lemma trim_zeros_ends fuel : ∀ c s,
  c ≠ 0 → Z.abs c < 10 ^ Z.of_nat fuel → ∃ x, trim_zeros fuel c s = Ok x.
Proof.
  induction fuel as [|fuel IH]; intros c s Hc Hb; [cbn in Hb; lia|]. cbn [trim_zeros].
  destruct (rem_t c 10 =? 0) eqn:Hr; [|eauto]. destruct (try_range _ _ _); [|eauto].
  rewrite Nat2Z.inj_succ, Z.pow_succ_r in Hb by lia. unfold rem_t, div_t in *. apply Z.eqb_eq in Hr.
  apply IH; Z.to_euclidean_division_equations; lia.
Qed.

Lemma checked_range o (neg : bool) c :
  foldl fold_digit (Some 0) o ≫= (λ acc, if neg then checked_i128 (- acc) else Some acc) = Some c →
  I128_MIN <= c <= I128_MAX.
Proof.
  destruct (foldl fold_digit _ _) as [acc|] eqn:Hf; [|done]. cbn.
  assert (I128_MIN <= acc <= I128_MAX) as Hacc.
  { destruct o as [|x l _] using rev_ind; [by injection Hf as <-|].
    rewrite foldl_app in Hf. cbn in Hf. unfold fold_digit in Hf.
    destruct (foldl _ _ l) as [z|]; [|done]. cbn in Hf. destruct (checked_i128 (z * 10)); [|done]. cbn in Hf.
    by apply try_range_some in Hf as [-> ?]. }
  destruct neg; [by intros [-> ?]%try_range_some|by intros [= <-]].
Qed.

(** Every text materializes: what does not fit inline stays text. *)
Lemma canonical_text_ok t i : ∃ n, from_canonical_text_with_flag t i = Ok n.
Proof.
  unfold from_canonical_text_with_flag. cut (∃ p, parse_canonical_inline t = Ok p).
  { intros [p ->]. st_run. destruct p as [[c s]|]; eauto. }
  unfold parse_canonical_inline. cbv zeta. set (neg := bool_decide (head t = _)).
  destruct (bool_decide (_ = [])); [eauto|]. destruct (default _ _) as [ip fp]. destruct (_ || _); [eauto|].
  pose proof (checked_range (map (λ b, b - ch_zero) (ip ++ fp)) neg) as Hrange.
  destruct (foldl fold_digit _ _) as [acc|]; [|eauto]. cbn [mbind option_bind] in Hrange.
  destruct (if neg then _ else _) as [c|]; [|eauto]. specialize (Hrange c eq_refl).
  destruct (try_range _ _ _) as [s|]; [|eauto].
  destruct (_ && _) eqn:Hz; [eauto|]. destruct (s =? 0) eqn:Hs; [|eauto]. apply trim_zeros_ends; [lia|].
  unfold I128_MIN, I128_MAX in Hrange. change (10 ^ Z.of_nat 40) with 10000000000000000000000000000000000000000. lia.
Qed.

Lemma owned_row_post row : post (λ _, True) (owned_row row).
Proof.
  induction row as [|cell row IH]; [done|]. cbn [owned_row].
  eapply (post_bind (λ _, True)).
  - destruct cell as [r|]; [|done]. eapply (post_bind (λ _, True)); [|done].
    destruct r; try done. destruct (canonical_text_ok text is_integer) as [n Hn]. cbn. by rewrite Hn.
  - intros v _. eapply post_bind; [exact IH|done].
Qed.

Lemma row_ref_at_post batch start bits prev :
  bytes_ok (b_buffer batch) → Zlen (b_buffer batch) <= I64_MAX → 0 <= start <= Zlen (b_buffer batch) →
  post (λ _, True) (row_ref_at batch start bits prev).
Proof.
  intros Hb Hm Hs. unfold row_ref_at.
  destruct (slice_get _ _ _) as [rest|] eqn:E; [|apply slice_get_none in E; lia].
  pose proof (slice_get_ok _ _ _ _ Hb E) as Hrest. apply slice_get_some in E as (_ & _ & _ & Hlen).
  eapply (post_bind (λ b, b = rest)); [done|]. intros ? ->.
  destruct (decode_slots_safe (b_columns batch) bits prev (b_fetch_long_status batch) (b_lob_decode_mode batch)
              0 (mkArenas [] []) (reader_new rest)) as (Hret & _ & Hok).
  { split; [done|]. cbn. pose proof (Zlen_nonneg rest). lia. }
  { split; [apply limits_DEFAULT_valid|done]. }
  eapply (post_bind (λ x, ∃ row, resolve_row x.2 x.1 = Ok row)); [|intros [slots a] [row Hrow]; cbn in Hrow; by rewrite Hrow].
  destruct (decode_slots _ _ _ _ _ _ _ _).1 as [x|e| |]; [|done..]. by destruct (Hok _ eq_refl) as [[_ ?] _].
Qed.

Section Iteration.
Context {S E : Type} (from : ProtocolError → E) (callback : S → RefRow → Result E S).
Context (Hcallback : ∀ s row, returns (callback s row)).

Lemma convert_post {A} (x : Res A) P : post P x → post P (convert from x).
Proof. by destruct x. Qed.

Lemma for_rows_post batch starts : ∀ index prev s,
  bytes_ok (b_buffer batch) → Zlen (b_buffer batch) <= I64_MAX →
  Forall (λ x, 0 <= x <= Zlen (b_buffer batch)) starts →
  post (λ _, True) (for_rows from callback batch starts index prev s).
Proof.
  induction starts as [|start starts IH]; intros index prev s Hb Hm Hs; [done|]. cbn [for_rows].
  apply Forall_cons_iff in Hs as [Hstart Hs].
  eapply post_bind; [by apply convert_post, row_ref_at_post|]. intros row _.
  eapply (post_bind (λ _, True)); [specialize (Hcallback s row); by destruct (callback s row)|]. intros s' _.
  eapply (post_bind (λ _, True)); [apply post_if; intros _; [done|apply convert_post, owned_row_post]|].
  intros prev' _. by apply IH.
Qed.
End Iteration.

Lemma post_returns {E A} (P : A → Prop) (r : Result E A) : post P r → returns r.
Proof. by destruct r. Qed.

(** C20: No response drives the driver into a panic or an endless loop.  On any byte
    string that fits in memory, under any policy of limits, field version, columns,
    binds, previous row and LOB mode, the owned decoder returns a result or an error;
    the borrowed decoder does too, and every batch it returns can be walked with any
    callback that itself returns: every recorded row start lies in the buffer and every
    slot of a row resolves in the finished arenas. *)
Theorem query_response_total payload v l columns previous_row :
  bytes_ok payload → Zlen payload <= I64_MAX → policy_ok l →
  (∀ bind_columns output_bind_indexes counts mode long,
     returns (parse_response payload v previous_row bind_columns output_bind_indexes counts mode columns long l)) ∧
  (∀ mode, post (λ b, ∀ (S E : Type) (from : ProtocolError → E) (callback : S → RefRow → Result E S) s,
              (∀ s row, returns (callback s row)) →
              returns (for_each_row_ref from callback (br_batch b) s))
     (parse_response_borrowed payload v mode columns previous_row l)).
Proof.
  intros Hb Hm Hp. split.
  - intros bind_columns indexes counts mode long. apply (post_returns (λ _, True)). unfold parse_response.
    eapply post_bind; [by apply with_limits_post|]. intros r [-> Hr].
    eapply (post_bind (λ _, True)); [|intros s _; by destruct (ls_boundary s)].
    eapply post_mono; [|apply (response_loop_post _ (λ _ _, True)); [done| |done|done|done]]; [done|].
    intros r s Hr' Hp' _ _. by apply process_message_safe.
  - intros mode. unfold parse_response_borrowed. eapply post_bind; [by apply with_limits_post|]. intros r [-> Hr].
    eapply post_bind; [apply check_post|]. intros _ _.
    eapply (post_bind (λ s, starts_ok payload s (Zlen payload))).
    + apply (response_loop_post _ (starts_ok payload)); [|by intros; apply borrow_message_sound|done|done|by split].
      intros s p p' Hle. by apply starts_ok_same.
    + intros s [_ Hs]. destruct (bs_boundary s); [|done]. intros S E from callback s0 Hc.
      eapply post_returns. by apply for_rows_post.
Qed.

(** A fetch of two rows; the second repeats the text of the first. *)
Definition sample_columns : list ColumnMetadata :=
  [mkColumn [84] ORA_TYPE_NUM_VARCHAR 1 0 0 30 30 true false false None None false None 0 0 None None None;
   mkColumn [78] ORA_TYPE_NUM_NUMBER 0 0 0 22 0 true false false None None false None 0 0 None None None].
Definition sample_payload : bytes :=
  [6; 0; 0; 0; 0; 0; 0; 0] ++ [7; 2; 65; 66; 2; 193; 2] ++ [21; 1; 2; 2] ++ [7; 2; 193; 3] ++ [29].
Definition fetched_rows : list Row :=
  [[Some (VText [65; 66]); Some (VNumber (inline 1 0 true))];
   [Some (VText [65; 66]); Some (VNumber (inline 2 0 true))]].

Lemma sample_bytes : bytes_ok sample_payload ∧ Zlen sample_payload <= I64_MAX.
Proof. split; [apply (bool_decide_unpack _); vm_compute; exact I|done]. Qed.

Lemma query_response_total_witness :
  returns (parse_response sample_payload 24 None [] [] false PlainLocator sample_columns true limits_DEFAULT) ∧
  (rows ← (b ← parse_response_borrowed sample_payload 24 PlainLocator sample_columns None limits_DEFAULT;
           for_each_row_ref id (λ l row, Ok (l ++ [row])) (br_batch b) []);
   Ok rows) =
  Ok [[Some (RText [65; 66]); Some (RNumber [49] true)];
      [Some (ROwned (VText [65; 66])); Some (RNumber [50] true)]].
Proof.
  split; [|vm_compute; reflexivity].
  destruct (query_response_total sample_payload 24 limits_DEFAULT sample_columns None) as [H _].
  - apply sample_bytes.
  - apply sample_bytes.
  - split; [apply limits_DEFAULT_valid|done].
  - apply H.
Defined.
