(* ===== verification/FetchEquiv.v ===== *)
(** * Borrowed rows are the owned rows

    The zero-copy path decodes a response in two walks: the first one skips rows and
    remembers where they begin, the second one decodes each row from the tail of the
    buffer.  On a response the owned decoder accepts, both give the same cells. *)

From S2P Require Import Prelude.
From S2P Require Import Protocol.
From S2P Require Import Limits.
From S2P Require Import Writer.
From S2P Require Import Reader.
From S2P Require Import ReaderSafety.
From S2P Require Import Calendar.
From S2P Require Import Datetime.
From S2P Require Import Number.
From S2P Require Import NumberWire.
From S2P Require Import NumberText.
From S2P Require Import Vector.
From S2P Require Import ShapeCache.
From S2P Require Import Binds.
From S2P Require Import Oson.
From S2P Require Import Utf.
From S2P Require Import ServerError.
From S2P Require Import Fetch.
From S2P Require Import FetchBorrowed.
From S2P Require Import FetchSafety.

(** ** Reading from the tail of a buffer *)

(** [shifted k r r']: [r'] is [r] without the first [k] bytes of its buffer. *)
Definition shifted (k : Z) (r r' : TtcReader) : Prop :=
  r_bytes r' = drop (Z.to_nat k) (r_bytes r) ∧ pos r = pos r' + k ∧ limits r' = limits r ∧ 0 <= k ∧
  reader_ok r ∧ reader_ok r' ∧ policy_ok (limits r).

Definition shifts {A} (m : ReaderM A) : Prop :=
  ∀ k r r', shifted k r r' → same_outcome (m r).1 (m r').1 ∧ shifted k (m r).2 (m r').2.

Lemma shifts_bind {A B} (m : ReaderM A) (f : A → ReaderM B) :
  shifts m → (∀ a, shifts (f a)) → shifts (m ≫= f).
Proof.
  intros Hm Hf k r r' Hs. rewrite !st_bindE. destruct (Hm k r r' Hs) as [Ho Hs'].
  destruct (m r) as [x r1], (m r') as [y r1']. cbn [fst snd] in *.
  destruct x, y; cbn in Ho; try done. subst. by apply Hf.
Qed.

Lemma shifts_ret {A} (a : A) : shifts (mret a).
Proof. by intros k r r' Hs. Qed.
Lemma shifts_throw {A} e : shifts (throw e : ReaderM A).
Proof. by intros k r r' Hs. Qed.
Lemma shifts_lift {A} (x : Res A) : shifts (lift x).
Proof. intros k r r' Hs. by destruct x. Qed.

Lemma shifts_limits : shifts (gets limits).
Proof. intros k r r' Hs. split; [|done]. cbn. by destruct Hs as (_ & _ & -> & _). Qed.

Lemma shifted_remaining k r r' : shifted k r r' → remaining r' = remaining r.
Proof.
  intros (Hb & Hp & _ & Hk & Hr & Hr' & _). rewrite !remaining_eq by done.
  destruct Hr as (_ & ? & _). destruct Hr' as (_ & ? & _). rewrite Hb. unfold Zlen in *. rewrite length_drop in *. lia.
Qed.

Lemma shifts_reserve n check : shifts (reserve_checked n check).
Proof.
  intros k r r' Hs. split; [|done]. cbn. unfold with_capacity_limited. cbn.
  pose proof (shifted_remaining _ _ _ Hs) as Hrem. destruct Hs as (_ & _ & -> & _).
  destruct (check (limits r) n); try done. cbn. unfold with_capacity_bounded. cbn. by rewrite Hrem.
Qed.

Lemma shifts_peek : shifts peek_u8.
Proof.
  intros k r r' Hs. split; [|done]. destruct Hs as (Hb & Hp & _ & Hk & (_ & ? & _) & (_ & ? & _) & _). cbn.
  assert (Zlen (r_bytes r') = Zlen (r_bytes r) - k ∨ Zlen (r_bytes r') = 0 ∧ Zlen (r_bytes r) <= k) as Hl.
  { rewrite Hb. unfold Zlen. rewrite length_drop. lia. }
  unfold slice_nth. replace ((0 <=? pos r') && (pos r' <? Zlen (r_bytes r')))
    with ((0 <=? pos r) && (pos r <? Zlen (r_bytes r))) by lia.
  destruct (_ && _); [|done]. rewrite Hb, lookup_drop, Hp, Z2Nat.inj_add, Nat.add_comm by lia. by destruct (_ !! _).
Qed.

(** The state after a step that moved to the same place. *)
Lemma shifted_at k r r' p :
  shifted k r r' → k <= p <= Zlen (r_bytes r) → shifted k (set_pos p r) (set_pos (p - k) r').
Proof.
  intros (Hb & Hp & Hl & Hk & (? & ? & ?) & (? & ? & ?) & Hpol) Hr. unfold shifted. cbn.
  split; [done|]. split; [lia|]. split; [done|]. split; [done|]. split; [by split; [|cbn; lia]|].
  split; [|done]. split; [done|]. cbn. split; [|done]. rewrite Hb. unfold Zlen in *. rewrite length_drop. lia.
Qed.

Lemma shifts_u8 : shifts read_u8.
Proof.
  intros k r r' Hs. destruct (shifts_peek k r r' Hs) as [Ho _]. unfold read_u8. rewrite !st_bindE. cbn in Ho |- *.
  pose proof (slice_nth_some (r_bytes r) (pos r)) as Hin.
  destruct (slice_nth (r_bytes r) (pos r)) as [x|], (slice_nth (r_bytes r') (pos r')) as [y|]; cbn in Ho; try done.
  cbn. destruct (Hin x eq_refl) as [Hin0 _]. subst y. clear Hin. pose proof Hs as (_ & Hp & _ & Hk & (_ & ? & ?) & (_ & ? & ?) & _).
  rewrite !st_bindE. cbn. rewrite !arith_in by (unfold USIZE_MAX, U64_MAX, I64_MAX in *; lia). cbn.
  split; [done|]. replace (pos r' + 1) with (pos r + 1 - k) by lia. apply shifted_at; [done|lia].
Qed.

Lemma slice_get_drop (l : bytes) k p e :
  0 <= k <= p → k <= Zlen l → slice_get (drop (Z.to_nat k) l) (p - k) (e - k) = slice_get l p e.
Proof.
  intros Hk Hkl. unfold slice_get. assert (Zlen (drop (Z.to_nat k) l) = Z.max 0 (Zlen l - k)) as ->.
  { unfold Zlen. rewrite length_drop. lia. }
  replace ((0 <=? p - k) && (p - k <=? e - k) && (e - k <=? Z.max 0 (Zlen l - k)))
    with ((0 <=? p) && (p <=? e) && (e <=? Zlen l)) by lia.
  destruct (_ && _) eqn:E; [|done]. rewrite drop_drop. do 2 f_equal; [lia|]. f_equal. lia.
Qed.

Lemma shifts_raw n : shifts (read_raw n).
Proof.
  intros k r r' Hs. unfold read_raw. pose proof Hs as (Hb & Hp & Hl & Hk & (_ & ? & ?) & (_ & ? & ?) & _).
  st_run. rewrite Hl. destruct (check_response_bytes (limits r) n) as [[]| | |]; [|done..]. st_run.
  destruct (try_range 0 USIZE_MAX (pos r + n)) as [e|] eqn:He.
  - apply try_range_some in He as [-> He].
    destruct (Z.le_gt_cases 0 n).
    + rewrite try_range_in by (unfold USIZE_MAX, U64_MAX, I64_MAX in *; lia). st_run.
      replace (pos r' + n) with (pos r + n - k) by lia. replace (pos r') with (pos r - k) by lia.
      rewrite Hb, slice_get_drop by lia. destruct (slice_get (r_bytes r) _ _) as [b|] eqn:Hg; [|done]. st_run.
      apply slice_get_some in Hg. split; [done|]. apply shifted_at; [done|lia].
    + assert (∀ l p, slice_get l p (p + n) = None) as Hnone.
      { intros l p. unfold slice_get. replace (p <=? p + n) with false by lia. by rewrite andb_false_r. }
      st_run. rewrite Hnone. destruct (try_range 0 USIZE_MAX (pos r' + n)) as [e'|] eqn:He'; st_run; [|done].
      apply try_range_some in He' as [-> _]. by rewrite Hnone.
  - apply try_range_none in He. destruct (try_range 0 USIZE_MAX (pos r' + n)) as [e'|] eqn:He'; st_run; [|done].
    apply try_range_some in He' as [-> _]. destruct (slice_get (r_bytes r') _ _) eqn:Hg; [|done].
    apply slice_get_some in Hg. unfold USIZE_MAX, U64_MAX, I64_MAX in *. lia.
Qed.

Create HintDb shift.
#[export] Hint Resolve shifts_ret shifts_throw shifts_lift shifts_limits shifts_reserve shifts_peek shifts_u8
  shifts_raw : shift.
Ltac shift_run :=
  repeat (eauto with shift; lazymatch goal with
    | |- shifts (_ ≫= _) => apply shifts_bind; [|intros ?]
    | |- shifts (if ?b then _ else _) => destruct b
    | |- shifts (match ?b with _ => _ end) => destruct b
    end).
Ltac shift_def f := unfold f; shift_run.

Lemma shifts_skip n : shifts (skip n).
Proof. shift_def skip. Qed.
Lemma shifts_i8 : shifts read_i8.
Proof. shift_def read_i8. Qed.
Lemma shifts_u16be : shifts read_u16be.
Proof. shift_def read_u16be. Qed.
#[export] Hint Resolve shifts_skip shifts_i8 shifts_u16be : shift.
Lemma shifts_ub2 : shifts read_ub2.
Proof. shift_def read_ub2. Qed.
Lemma shifts_ub4 : shifts read_ub4.
Proof. shift_def read_ub4. Qed.
Lemma shifts_ub8 : shifts read_ub8.
Proof. shift_def read_ub8. Qed.
Lemma shifts_sb4 : shifts read_sb4.
Proof. shift_def read_sb4. Qed.
#[export] Hint Resolve shifts_ub2 shifts_ub4 shifts_ub8 shifts_sb4 : shift.

Lemma shifts_chunks fuel : ∀ out n t, shifts (read_chunks fuel out n t).
Proof. induction fuel as [|fuel IH]; intros out n t; cbn [read_chunks]; shift_run. Qed.

(** More fuel changes nothing once the loop has ended. *)
Lemma read_chunks_more fuel extra : ∀ out n t r,
  (read_chunks fuel out n t r).1 ≠ Diverge → read_chunks (fuel + extra) out n t r = read_chunks fuel out n t r.
Proof.
  induction fuel as [|fuel IH]; intros out n t r H; [done|]. cbn [read_chunks Nat.add] in *.
  rewrite !st_bindE in *. destruct (read_ub4 r) as [[c|e| |] r1]; [|done..].
  destruct (c =? 0); [done|]. st_run. st_run_in H.
  destruct (chunk_guards (limits r1) n t c) as [[[n' c'] t']|e| |]; [|done..]. rewrite !st_bindE in *.
  destruct (read_raw c' r1) as [[b|e| |] r2]; [|done..]. by apply IH.
Qed.

Lemma shifts_all_chunks k r r' :
  shifted k r r' →
  same_outcome (read_chunks (loop_fuel r) [] 0 0 r).1 (read_chunks (loop_fuel r') [] 0 0 r').1 ∧
  shifted k (read_chunks (loop_fuel r) [] 0 0 r).2 (read_chunks (loop_fuel r') [] 0 0 r').2.
Proof.
  intros Hs. destruct (shifts_chunks (loop_fuel r) [] 0 0 k r r' Hs) as [Ho Hs'].
  pose proof Hs as (Hb & _ & Hl & _ & _ & Hr' & Hp).
  assert (loop_fuel r' <= loop_fuel r)%nat as Hf by (unfold loop_fuel; rewrite Hb, length_drop; lia).
  destruct (read_chunks_sound (loop_fuel r') r' [] 0 0) as (Hret & _).
  { done. } { unfold loop_fuel. rewrite remaining_eq by done. destruct Hr' as (_ & ? & _). unfold Zlen in *. lia. }
  { constructor. } { done. } { rewrite Hl. by apply policy_response. }
  assert (read_chunks (loop_fuel r) [] 0 0 r' = read_chunks (loop_fuel r') [] 0 0 r') as Heq.
  { replace (loop_fuel r) with (loop_fuel r' + (loop_fuel r - loop_fuel r'))%nat by lia.
    apply read_chunks_more. by intros Hd; rewrite Hd in Hret. }
  by rewrite Heq in Ho, Hs'.
Qed.

Lemma shifts_bytes : shifts read_bytes.
Proof.
  unfold read_bytes. apply shifts_bind; [apply shifts_u8|]. intros len. destruct (len =? _); [|shift_run].
  intros k r r' Hs. st_run. destruct (shifts_all_chunks k r r' Hs) as [Ho Hs'].
  destruct (read_chunks _ _ _ _ r) as [[x|e| |] r1], (read_chunks _ _ _ _ r') as [[y|e'| |] r1'];
    cbn in Ho |- *; try done. by subst.
Qed.

Lemma shifts_bytes_borrowed : shifts read_bytes_borrowed.
Proof.
  unfold read_bytes_borrowed. apply shifts_bind; [apply shifts_u8|]. intros len. destruct (len =? _); [|shift_run].
  intros k r r' Hs. st_run. change borrow_chunks with read_chunks. destruct (shifts_all_chunks k r r' Hs) as [Ho Hs'].
  destruct (read_chunks _ _ _ _ r) as [[x|e| |] r1], (read_chunks _ _ _ _ r') as [[y|e'| |] r1'];
    cbn in Ho |- *; try done. by subst.
Qed.
#[export] Hint Resolve shifts_bytes shifts_bytes_borrowed : shift.

Lemma shifts_nested n : shifts (read_nested_or_raw n).
Proof.
  intros k r r' Hs. destruct (shifts_bytes k r r' Hs) as [Ho Hs'].
  assert (shifts (b ← read_raw n; mret (Some b))) as Hraw by shift_run.
  unfold read_nested_or_raw. pose proof Hs as (_ & _ & _ & _ & Hr & Hr' & Hp).
  assert (policy_ok (limits r')) as Hp' by (by destruct Hs as (_ & _ & -> & _)).
  destruct (read_bytes_safe r Hr Hp) as (_ & (Hb & Hl & _) & _).
  destruct (read_bytes_safe r' Hr' Hp') as (_ & (Hb' & Hl' & _) & _).
  destruct (read_bytes r) as [[[x|]|e| |] r1], (read_bytes r') as [[[y|]|e'| |] r1']; cbn [fst snd] in *; try done.
  1: injection Ho as <-; destruct (_ =? n); [by cbn|].
  all: assert (set_pos (pos r) r1 = r) as -> by (unfold set_pos; rewrite Hb, Hl; by destruct r).
  all: assert (set_pos (pos r') r1' = r') as -> by (unfold set_pos; rewrite Hb', Hl'; by destruct r').
  all: by apply Hraw.
Qed.
#[export] Hint Resolve shifts_nested : shift.

Lemma shifts_bytes_with_length : shifts read_bytes_with_length.
Proof. shift_def read_bytes_with_length. Qed.
#[export] Hint Resolve shifts_bytes_with_length : shift.
Lemma shifts_string_with_length : shifts read_string_with_length.
Proof. shift_def read_string_with_length. Qed.
#[export] Hint Resolve shifts_string_with_length : shift.

(** ** Column values from the tail of a buffer *)

Lemma shifts_limit_check check n : shifts (limit_check check n).
Proof. shift_def @limit_check. Qed.
Lemma shifts_name : shifts read_name_text.
Proof. shift_def read_name_text. Qed.
#[export] Hint Resolve shifts_limit_check shifts_name : shift.

Lemma shifts_read_annotations n : shifts (read_annotations n).
Proof. induction n as [|n IH]; cbn [read_annotations]; shift_run. Qed.
#[export] Hint Resolve shifts_read_annotations : shift.
Lemma shifts_annotations : shifts parse_annotations.
Proof. shift_def parse_annotations. Qed.
#[export] Hint Resolve shifts_annotations : shift.
Lemma shifts_column_metadata v : shifts (parse_column_metadata v).
Proof. shift_def parse_column_metadata. Qed.
#[export] Hint Resolve shifts_column_metadata : shift.
Lemma shifts_columns n v : shifts (parse_columns n v).
Proof. induction n as [|n IH]; cbn [parse_columns]; shift_run. Qed.
#[export] Hint Resolve shifts_columns : shift.
Lemma shifts_describe v : shifts (parse_describe_info v).
Proof. shift_def parse_describe_info. Qed.
#[export] Hint Resolve shifts_describe : shift.

Lemma shifts_rowid_parts : shifts read_rowid_parts.
Proof. shift_def read_rowid_parts. Qed.
#[export] Hint Resolve shifts_rowid_parts : shift.
Lemma shifts_rowid : shifts parse_rowid_value.
Proof. shift_def parse_rowid_value. Qed.
Lemma shifts_urowid : shifts parse_urowid_value.
Proof. shift_def parse_urowid_value. Qed.
Lemma shifts_lob c mode : shifts (parse_lob_value c mode).
Proof. shift_def parse_lob_value. Qed.
Lemma shifts_prefetched : shifts read_prefetched_image.
Proof. shift_def read_prefetched_image. Qed.
Lemma shifts_with_bytes f : shifts (with_bytes f).
Proof. shift_def with_bytes. Qed.
#[export] Hint Resolve shifts_rowid shifts_urowid shifts_lob shifts_prefetched shifts_with_bytes : shift.
Lemma shifts_vector : shifts parse_vector_value.
Proof. shift_def parse_vector_value. Qed.
Lemma shifts_json : shifts parse_json_value.
Proof. shift_def parse_json_value. Qed.
Lemma shifts_object c : shifts (parse_object_value c).
Proof. shift_def parse_object_value. Qed.
Lemma shifts_cursor : shifts parse_cursor_value.
Proof. shift_def parse_cursor_value. Qed.
#[export] Hint Resolve shifts_vector shifts_json shifts_object shifts_cursor : shift.
Lemma shifts_column_value c mode : shifts (parse_column_value_with_lob_mode c mode).
Proof. unfold parse_column_value_with_lob_mode. cbv zeta. shift_run. Qed.
Lemma shifts_small_slot a f : shifts (small_slot a f).
Proof. unfold small_slot. shift_def @with_small_bytes. Qed.
Lemma shifts_text_slot c a : shifts (text_slot c a).
Proof. unfold text_slot. cbv zeta. shift_run. Qed.
Lemma shifts_raw_slot a : shifts (raw_slot a).
Proof. shift_def raw_slot. Qed.
#[export] Hint Resolve shifts_column_value shifts_small_slot shifts_text_slot shifts_raw_slot : shift.
Lemma shifts_slot c a mode : shifts (parse_column_slot c a mode).
Proof. unfold parse_column_slot. cbv zeta. shift_run. Qed.
Lemma shifts_long_status b c : shifts (read_long_status b c).
Proof. shift_def read_long_status. Qed.
#[export] Hint Resolve shifts_slot shifts_long_status : shift.
Lemma shifts_slots columns bits prev long mode : ∀ index a, shifts (decode_slots columns index bits prev long mode a).
Proof. induction columns as [|c columns IH]; intros index a; cbn [decode_slots]; shift_run. Qed.

(** ** Cells *)

(** The text the borrowed path keeps of a NUMBER and the number the owned one builds:
    decoded from the same wire bytes, and equal as text, integrality included, on every
    wire form the encoder can write and on the one-byte forms. *)
Definition number_text (n : OracleNumber) (t : bytes) (b : bool) : Prop :=
  ∃ wire, decode_number_value wire = Ok n ∧ decode_number_text_into wire [] = Ok (b, t) ∧
    (number_wire wire → is_integer n = b ∧ to_canonical_string n = Ok t).

(** A value and what the borrowed path makes of the same wire bytes: the same value,
    except that a NUMBER is decoded by the inline decoder on one side and through its
    text on the other; the two numbers print the same on the forms above. *)
Inductive same_value : FetchValue → FetchValue → Prop :=
| same_refl v : same_value v v
| same_number wire n b t m :
    decode_number_value wire = Ok n → decode_number_text_into wire [] = Ok (b, t) →
    from_canonical_text_with_flag t b = Ok m →
    (number_wire wire → to_canonical_string n = to_canonical_string m) →
    same_value (VNumber n) (VNumber m).

(** A reference that stands for a value of the owned path: it materializes to that value,
    and one that carries the text of a NUMBER carries the owned number's text. *)
Definition cell_as (v : FetchValue) (r : QueryValueRef) : Prop :=
  (∃ w, to_owned_value r = Ok w ∧ same_value v w) ∧
  match r with RNumber t b => ∃ n, v = VNumber n ∧ number_text n t b | _ => True end.

(** A reference that is not the text of a NUMBER. *)
Definition plain_ref (r : QueryValueRef) : Prop := match r with RNumber _ _ => False | _ => True end.

Lemma cell_refl v r : plain_ref r → to_owned_value r = Ok v → cell_as v r.
Proof. intros Hr H. split; [exists v; split; [done|constructor]|by destruct r]. Qed.

Definition slot_as (a : Arenas) (v : option FetchValue) (x : ColumnSlot * Arenas) : Prop :=
  extends a x.2 ∧ ∃ o, denotes x.2 x.1 o ∧ option_Forall2 cell_as v o.

Lemma park_as a v : slot_as a v (park a v).
Proof.
  destruct (park_denotes a v) as [He Hd]. split; [done|]. exists (ROwned <$> v). split; [done|].
  destruct v; constructor. by apply cell_refl.
Qed.

Lemma wire_as a v r : plain_ref r → to_owned_value r = Ok v → slot_as a (Some v) (SlotWire r, a).
Proof.
  intros Hr H. split; [done|]. exists (Some r). split; [by exists r|]. constructor. by apply cell_refl.
Qed.

Lemma null_as a : slot_as a None (SlotNull, a).
Proof. split; [done|]. exists None. split; [done|constructor]. Qed.

Lemma temporal_as expected a v : slot_as a (Some (VTemporal v)) (temporal_slot expected a v).
Proof. unfold temporal_slot. destruct (expected v); [by apply wire_as|apply park_as]. Qed.

Lemma number_as a b n :
  bytes_ok b → decode_number_value b = Ok n → ∃ x, number_slot a b = Ok x ∧ slot_as a (Some (VNumber n)) x.
Proof.
  intros Hb Hn. unfold number_slot.
  assert (∃ i t, decode_number_text_into b [] = Ok (i, t) ∧
                 decode_number_text_into b (number_arena a) = Ok (i, number_arena a ++ t)) as (i & t & Ht & Ha).
  { unfold decode_number_value, from_wire in Hn. unfold decode_number_text_into.
    pose proof (stack_walk_spec b Hb) as Hw. destruct (decode_number_parts b) as [[t i|D neg dpi i]|e| |]; [by eauto..| |done|done].
    by rewrite Hw in Hn. }
  rewrite Ha. st_run. eexists. split; [reflexivity|]. split; cbn [fst snd]; [split; [by apply prefix_app_r|done]|].
  destruct (canonical_text_ok t i) as [m Hm]. exists (Some (RNumber t i)). split.
  - exists (RNumber t i). split; [done|]. cbn.
    rewrite Zlen_app, <- (app_nil_r (number_arena a ++ t)), <- app_assoc, slice_get_app. done.
  - constructor. split.
    + exists (VNumber m). cbn. rewrite Hm. split; [done|]. econstructor; [done..|]. intros Hw.
      destruct (number_wire_texts b n i t m Hw Hn Ht Hm) as (_ & -> & ->). done.
    + exists n. split; [done|]. exists b. split; [done|]. split; [done|]. intros Hw.
      destruct (number_wire_texts b n i t m Hw Hn Ht Hm) as (? & ? & _). done.
Qed.

(** ** Columns *)

Section Column.
Context (r : TtcReader) (Hr : reader_ok r) (Hp : policy_ok (limits r)) (a : Arenas).

(** What the owned path reads with [read_bytes], the borrowed one reads the same. *)
Lemma borrowed_bytes (o : option bytes) r1 :
  read_bytes r = (Ok o, r1) →
  ∃ b, read_bytes_borrowed r = (Ok b, r1) ∧ bb_value b = o ∧ (∀ x, o = Some x → bytes_ok x).
Proof.
  intros H. destruct (read_bytes_companions r) as [Heq _].
  destruct (read_bytes_safe r Hr Hp) as (_ & _ & Hok). rewrite H in Heq, Hok.
  destruct (read_bytes_borrowed r) as [[b|e| |] r2]; cbn in Heq; try done. injection Heq as -> ->.
  exists b. split; [done|]. split; [done|]. intros x Hx. by apply (proj1 (Hok _ eq_refl) x Hx).
Qed.

Lemma with_bytes_inv f v r1 :
  with_bytes f r = (Ok v, r1) →
  ∃ b, read_bytes_borrowed r = (Ok b, r1) ∧ match bb_value b with
    | None => v = None
    | Some x => bytes_ok x ∧ ∃ w, f x = Ok w ∧ v = Some w
    end.
Proof.
  unfold with_bytes. rewrite st_bindE. destruct (read_bytes r) as [[o|e| |] r2] eqn:E; try done.
  destruct (borrowed_bytes _ _ E) as (b & Hb & <- & Hok). intros H.
  destruct (bb_value b) as [x|] eqn:Ex; [|injection H as <- <-; exists b; by rewrite Ex].
  st_run_in H. destruct (f x) as [w|e| |] eqn:Ef; try done. injection H as <- <-.
  exists b. rewrite Ex. split; [done|]. split; [by apply Hok|]. eauto.
Qed.

Lemma small_as f g v r1 :
  with_bytes f r = (Ok v, r1) →
  (∀ b w, bytes_ok b → f b = Ok w → ∃ x, g b = Ok x ∧ slot_as a (Some w) x) →
  ∃ x, small_slot a g r = (Ok x, r1) ∧ slot_as a v x.
Proof.
  intros (b & Hb & Hv)%with_bytes_inv Hg. unfold small_slot, with_small_bytes. rewrite st_bindE, Hb.
  destruct b as [|s|s]; cbn in Hv; [subst v; eexists; split; [done|apply null_as]|..];
    destruct Hv as (Hs & w & Hw & ->); destruct (Hg s w Hs Hw) as (x & Hx & ?); exists x; st_run; by rewrite Hx.
Qed.

Lemma text_as c v r1 :
  with_bytes (text_value (csfrm c)) r = (Ok v, r1) → ∃ x, text_slot c a r = (Ok x, r1) ∧ slot_as a v x.
Proof.
  intros (b & Hb & Hv)%with_bytes_inv. unfold text_slot. rewrite st_bindE, Hb. cbv zeta.
  destruct b as [|s|s]; cbn in Hv; [subst v; eexists; split; [done|apply null_as]|..];
    destruct Hv as (Hs & w & Hw & ->); cbn [into_vec].
  - destruct (csfrm c =? CS_FORM_NCHAR) eqn:En; cbn [negb].
    { st_run. rewrite Hw. st_run. eexists. split; [done|apply park_as]. }
    eexists. split; [done|]. unfold text_value, decode_text_value in Hw. rewrite En in Hw.
    destruct (utf8_valid s); injection Hw as <-; [by apply wire_as|apply (park_as _ (Some _))].
  - st_run. rewrite Hw. st_run. eexists. split; [done|apply park_as].
Qed.

Lemma raw_as v r1 :
  with_bytes (λ b, Ok (VRaw b)) r = (Ok v, r1) → ∃ x, raw_slot a r = (Ok x, r1) ∧ slot_as a v x.
Proof.
  intros (b & Hb & Hv)%with_bytes_inv. unfold raw_slot. rewrite st_bindE, Hb.
  eexists. split; [done|]. destruct b as [|s|s]; cbn in Hv; [subst v; apply null_as|..];
    destruct Hv as (Hs & w & [= <-] & ->); [by apply wire_as|apply (park_as _ (Some _))].
Qed.
End Column.

Ltac case_type H t :=
  repeat match type of H with
  | (?x || ?y) = true => apply orb_true_iff in H; destruct H as [H|H]
  end; apply Z.eqb_eq in H; rewrite H in *; clear H.

Lemma column_as c mode a r v r1 :
  reader_ok r → policy_ok (limits r) →
  parse_column_value_with_lob_mode c mode r = (Ok v, r1) →
  ∃ x, parse_column_slot c a mode r = (Ok x, r1) ∧ slot_as a v x.
Proof.
  intros Hr Hp H. pose proof H as Hfull. unfold parse_column_value_with_lob_mode in H. unfold parse_column_slot.
  cbv zeta in *. destruct (no_buffer c).
  { injection H as <- <-. eexists. split; [reflexivity|apply null_as]. }
  destruct (is_text (ora_type_num c)); [by apply text_as|].
  destruct (is_raw (ora_type_num c)); [by apply raw_as|].
  destruct (is_number (ora_type_num c)) eqn:Et.
  { unfold is_number in Et. case_type Et (ora_type_num c); cbn in H; eapply small_as; eauto;
      intros b w Hb (n & Hn & [= <-])%bind_ok; by apply number_as. }
  destruct (ora_type_num c =? ORA_TYPE_NUM_BOOLEAN) eqn:Eb.
  { case_type Eb (ora_type_num c). cbn in H. eapply small_as; eauto. intros b w Hb [= <-].
    eexists. split; [reflexivity|]. by apply wire_as. }
  destruct (ora_type_num c =? ORA_TYPE_NUM_INTERVAL_DS) eqn:Ed.
  { case_type Ed (ora_type_num c). cbn in H. eapply small_as; eauto. intros b w Hb (x & -> & [= <-])%bind_ok.
    eexists. split; [reflexivity|]. apply temporal_as. }
  destruct (ora_type_num c =? ORA_TYPE_NUM_INTERVAL_YM) eqn:Ey.
  { case_type Ey (ora_type_num c). cbn in H. eapply small_as; eauto. intros b w Hb (x & -> & [= <-])%bind_ok.
    eexists. split; [reflexivity|]. apply temporal_as. }
  destruct (is_datetime (ora_type_num c)) eqn:Edt.
  { unfold is_datetime in Edt. case_type Edt (ora_type_num c); cbn in H; eapply small_as; eauto;
      intros b w Hb (x & -> & [= <-])%bind_ok; eexists; (split; [reflexivity|]); apply temporal_as. }
  rewrite st_bindE, Hfull. eexists. split; [reflexivity|]. apply park_as.
Qed.

(** ** Rows *)

Definition row_as : Row → RefRow → Prop := Forall2 (option_Forall2 cell_as).

(** The row duplicates repeat, on both sides. *)
Definition previous_as (last : option Row) (previous : Row) : Prop :=
  ∀ row, last = Some row → Forall2 (option_Forall2 same_value) row previous.

Lemma park_same a v w : option_Forall2 same_value v w → slot_as a v (park a w).
Proof.
  intros Hvw. destruct (park_denotes a w) as [He Hd]. split; [done|]. exists (ROwned <$> w). split; [done|].
  destruct Hvw as [x y Hxy|]; constructor. split; [by exists y|done].
Qed.

Lemma row_cells_as columns bits last prev long mode : previous_as last prev →
  ∀ index a r row r1, reader_ok r → policy_ok (limits r) →
  parse_row_cells columns index bits last long mode r = (Ok row, r1) →
  ∃ slots a' refs, decode_slots columns index bits prev long mode a r = (Ok (slots, a'), r1) ∧
    extends a a' ∧ resolve_row a' slots = Ok refs ∧ row_as row refs.
Proof.
  intros Hprev. induction columns as [|c columns IH]; intros index a r row r1 Hr Hp H; cbn [parse_row_cells] in H.
  { injection H as <- <-. exists [], a, []. split; [done|]. split; [done|]. split; [done|constructor]. }
  apply st_bind_ok in H as (cell & r2 & Hcell & H). apply st_bind_ok in H as (rest & r3 & Hrest & H). injection H as <- <-.
  assert (∃ x, (if is_duplicate_column bits index then mret (park a (previous_cell prev index))
                else s ← parse_column_slot c a mode; _ ← read_long_status long c; mret s) r = (Ok x, r2)
               ∧ slot_as a cell x ∧ reader_ok r2 ∧ policy_ok (limits r2)) as ([slot a1] & Hslot & (He & o & Hd & Ho) & Hr2 & Hp2).
  { destruct (is_duplicate_column bits index).
    - destruct last as [p|]; [|done]. cbn in Hcell. destruct (p !! index) as [x|] eqn:Ex; [|done].
      injection Hcell as <- <-. destruct (Forall2_lookup_l _ _ _ _ _ (Hprev p eq_refl) Ex) as (y & Hy & Hxy).
      eexists. split; [reflexivity|]. split; [|done]. unfold previous_cell. rewrite Hy. by apply park_same.
    - apply st_bind_ok in Hcell as (v & r' & Hv & Hcell). apply st_bind_ok in Hcell as (u & r'' & Hl & Hcell).
      injection Hcell as <- <-. destruct (column_as c mode a r v r' Hr Hp Hv) as (x & Hx & Hs).
      destruct (column_value_safe c mode r Hr Hp) as (_ & Hadv & _). rewrite Hv in Hadv. cbn [snd] in Hadv.
      pose proof (advances_ok _ _ Hr Hadv) as Hr'. assert (policy_ok (limits r')) as Hp' by (by destruct Hadv as (_ & -> & _)).
      destruct (long_status_safe long c r' Hr' Hp') as (_ & Hadv' & _). rewrite Hl in Hadv'. cbn [snd] in Hadv'.
      exists x. rewrite st_bindE, Hx. cbn. rewrite st_bindE, Hl. split; [done|]. split; [done|].
      split; [by eapply advances_ok|]. by destruct Hadv' as (_ & -> & _). }
  destruct (IH (S index) a1 r2 rest r3 Hr2 Hp2 Hrest) as (slots & a2 & refs & Hdec & He2 & Hres & Has).
  cbn [fst snd] in *. eexists _, a2, (o :: refs). cbn [decode_slots]. rewrite st_bindE, Hslot. cbn iota beta.
  rewrite st_bindE, Hdec. split; [reflexivity|]. split; [by etrans|]. split; [|by constructor].
  apply (denotes_extends _ _ _ _ He2) in Hd. cbn [resolve_row].
  destruct slot; cbn [denotes] in Hd; [subst o|destruct Hd as (w & -> & ->)..]; st_run; by rewrite Hres.
Qed.

(** The first walk skips what the owned path decodes. *)
Lemma byte_field_skips c mode r v r1 :
  is_byte_field c = true → parse_column_value_with_lob_mode c mode r = (Ok v, r1) → skip_bytes_field r = (Ok (), r1).
Proof.
  intros Hc H. assert (∃ f, with_bytes f r = (Ok v, r1)) as [f Hf].
  { unfold is_byte_field in Hc. cbv zeta in Hc. apply andb_true_iff in Hc as [Hb Hc]. unfold parse_column_value_with_lob_mode in H.
    cbv zeta in H. assert (no_buffer c = false) as Hn by (unfold no_buffer; apply negb_true_iff in Hb; by rewrite Hb).
    rewrite Hn in H. unfold is_text, is_raw, is_number, is_datetime in Hc.
    case_type Hc (ora_type_num c); cbn in H; eauto. }
  unfold with_bytes in Hf. apply st_bind_ok in Hf as (o & r' & Ho & Hf).
  destruct (read_bytes_companions r) as [_ ->]. rewrite Ho. cbn.
  destruct o as [b|]; [|by injection Hf as _ ->]. st_run_in Hf. destruct (f b); try done. by injection Hf as _ ->.
Qed.

Lemma row_skips columns bits last long mode : ∀ index r row r1,
  parse_row_cells columns index bits last long mode r = (Ok row, r1) →
  skip_row_data columns index bits long mode r = (Ok (), r1).
Proof.
  induction columns as [|c columns IH]; intros index r row r1 H; cbn [parse_row_cells] in H; [by injection H as <- <-|].
  apply st_bind_ok in H as (cell & r2 & Hcell & H). apply st_bind_ok in H as (rest & r3 & Hrest & H). injection H as <- <-.
  cbn [skip_row_data]. rewrite st_bindE. apply IH in Hrest.
  destruct (is_duplicate_column bits index).
  - destruct (ok_or _ _); try done. by injection Hcell as <- <-.
  - apply st_bind_ok in Hcell as (v & r' & Hv & Hcell). apply st_bind_ok in Hcell as ([] & r'' & Hl & Hcell).
    injection Hcell as <- <-. rewrite st_bindE.
    destruct (is_byte_field c) eqn:Ec; [rewrite (byte_field_skips _ _ _ _ _ Ec Hv)|rewrite st_bindE, Hv; cbn]; by rewrite Hl.
Qed.

(** ** Batches *)

(** [visit callback s rows]: [callback] on each row, up to its first error. *)
Fixpoint visit {S E} (callback : S → RefRow → Result E S) (s : S) (rows : list RefRow) : Result E S :=
  match rows with
  | [] => Ok s
  | row :: rows => s ← callback s row; visit callback s rows
  end.

Lemma row_cells_plain columns last long mode : ∀ index,
  parse_row_cells columns index None last long mode = parse_row_cells columns index None None long mode.
Proof.
  induction columns as [|c columns IH]; intros index; [done|]. cbn [parse_row_cells is_duplicate_column]. by rewrite IH.
Qed.

Lemma owned_row_as row refs :
  row_as row refs → ∃ previous, owned_row refs = Ok previous ∧ Forall2 (option_Forall2 same_value) row previous.
Proof.
  intros H. induction H as [|v o row refs Hv _ (prev & IH & Has)]; [by exists []|]. cbn [owned_row]. rewrite IH.
  destruct Hv as [v r [(w & Hw & Hsame) _]|].
  - rewrite Hw. exists (Some w :: prev). split; [done|]. constructor; [by constructor|done].
  - exists (None :: prev). split; [done|]. constructor; [constructor|done].
Qed.

Section Batch.
Context (payload : bytes) (Hbytes : bytes_ok payload) (Hmax : Zlen payload <= I64_MAX) (mode : LobDecodeMode).

Abbreviation reader_at p := (mkTtcReader payload p limits_DEFAULT).

Lemma default_policy : policy_ok limits_DEFAULT.
Proof. split; [apply limits_DEFAULT_valid|done]. Qed.

Lemma reader_at_ok p : 0 <= p <= Zlen payload → reader_ok (reader_at p).
Proof. intros Hp. split; [done|]. cbn. lia. Qed.

Lemma shifted_tail p :
  0 <= p <= Zlen payload → shifted p (reader_at p) (reader_new (drop (Z.to_nat p) payload)).
Proof.
  intros Hp. split; [done|]. split; [done|]. split; [done|]. split; [lia|]. split; [by apply reader_at_ok|].
  split; [|apply default_policy]. split; [by apply Forall_drop|]. cbn. unfold Zlen in *. rewrite length_drop. lia.
Qed.

(** Rows the owned path decoded where the first walk recorded them; [last] is the row
    before the first. *)
Fixpoint recorded (columns : list ColumnMetadata) (last : option Row) (rows : list Row) (starts : list Z)
  (bits : list (option bytes)) : Prop :=
  match rows, starts, bits with
  | [], [], [] => True
  | row :: rows, start :: starts, b :: bits =>
      0 <= start <= Zlen payload ∧
      (∃ r, parse_row_cells columns 0 b last true mode (reader_at start) = (Ok row, r)) ∧
      recorded columns (Some row) rows starts bits
  | _, _, _ => False
  end.

Lemma recorded_snoc columns rows row start b r : ∀ last starts bits,
  recorded columns last rows starts bits → 0 <= start <= Zlen payload →
  parse_row_cells columns 0 b (last_row rows last) true mode (reader_at start) = (Ok row, r) →
  recorded columns last (rows ++ [row]) (starts ++ [start]) (bits ++ [b]).
Proof.
  induction rows as [|x rows IH]; intros last [|s starts] [|c bits] Hrec Hs Hrow; cbn in Hrec; try done.
  - cbn in *. by eauto.
  - destruct Hrec as (? & ? & Hrec). cbn. split; [done|]. split; [done|]. apply IH; [done|done|].
    replace (last_row rows (Some x)) with (last_row (x :: rows) last); [done|].
    unfold last_row. cbn [length]. destruct rows as [|y rows]; [done|]. cbn [length].
    replace (S (S (length rows)) - 1)%nat with (S (length rows)) by lia.
    replace (S (length rows) - 1)%nat with (length rows) by lia. 
    change ((x :: y :: rows) !! S (length rows)) with ((y :: rows) !! length rows).
    destruct (lookup_lt_is_Some_2 (y :: rows) (length rows)) as [z ->]; [cbn; lia|done].
Qed.

Context (batch : BorrowedRowBatch) (Hbuffer : b_buffer batch = payload) (Hlong : b_fetch_long_status batch = true).
Context (Hmode : b_lob_decode_mode batch = mode).

Lemma row_ref_as start bits last prev row r :
  0 <= start <= Zlen payload → previous_as last prev →
  parse_row_cells (b_columns batch) 0 bits last true mode (reader_at start) = (Ok row, r) →
  ∃ refs, row_ref_at batch start bits prev = Ok refs ∧ row_as row refs.
Proof.
  intros Hs Hprev Hrow. pose proof (shifted_tail start Hs) as Hshift.
  destruct (row_cells_as _ _ _ _ _ _ Hprev 0 (mkArenas [] []) _ _ _ (reader_at_ok _ Hs) default_policy Hrow)
    as (slots & a & refs & Hdec & _ & Hres & Has).
  destruct (shifts_slots (b_columns batch) bits prev true mode 0 (mkArenas [] []) _ _ _ Hshift) as [Ho _].
  exists refs. split; [|done]. unfold row_ref_at. rewrite Hbuffer, Hlong, Hmode.
  assert (slice_get payload start (Zlen payload) = Some (drop (Z.to_nat start) payload)) as ->.
  { unfold slice_get. replace (_ && _) with true by lia. f_equal. apply take_ge. unfold Zlen in *. rewrite length_drop. lia. }
  cbn [or_panic]. rewrite res_bindE. rewrite Hdec in Ho. cbn [fst] in Ho.
  destruct (decode_slots _ _ _ _ _ _ _ (reader_new _)).1 as [x| | |]; cbn in Ho; try done. by subst x.
Qed.

Lemma for_rows_as rows : ∀ starts bits last prev index,
  recorded (b_columns batch) last rows starts bits →
  (∀ i, mjoin (b_row_bit_vectors batch !! (index + i)%nat) = mjoin (bits !! i)) →
  (b_row_bit_vectors batch ≠ [] → previous_as last prev) →
  ∃ refs, Forall2 row_as rows refs ∧
    ∀ (S E : Type) (from : ProtocolError → E) (callback : S → RefRow → Result E S) s,
      for_rows from callback batch starts index prev s = visit callback s refs.
Proof.
  induction rows as [|row rows IH]; intros [|start starts] [|b bits] last prev index Hrec Hbits Hprev;
    cbn in Hrec; try done; [by exists []|].
  destruct Hrec as (Hs & [r Hrow] & Hrec). pose proof (Hbits 0%nat) as Hb. rewrite Nat.add_0_r in Hb. cbn in Hb.
  assert (∃ refs, row_ref_at batch start b prev = Ok refs ∧ row_as row refs) as (refs & Href & Has).
  { destruct (b_row_bit_vectors batch) eqn:Ev; [|by eapply row_ref_as; [| |exact Hrow]; [|by apply Hprev]].
    cbn in Hb. rewrite <- Hb in *. rewrite row_cells_plain in Hrow. by eapply row_ref_as; [| |exact Hrow]. }
  destruct (owned_row_as _ _ Has) as (prev' & Hown & Hsame).
  destruct (IH starts bits (Some row) (if bool_decide (b_row_bit_vectors batch = []) then prev else prev') (S index) Hrec)
    as (rest & Hrest & Hrun).
  { intros i. change (bits !! i) with ((b :: bits) !! S i). rewrite <- Hbits. by replace (S index + i)%nat with (index + S i)%nat by lia. }
  { intros Hne. rewrite bool_decide_eq_false_2 by done. by intros ? [= <-]. }
  exists (refs :: rest). split; [by constructor|]. intros S0 E from callback s. cbn [for_rows visit].
  rewrite Hb, Href. cbn [convert]. rewrite !res_bindE. destruct (callback s refs) as [s'|e| |]; [|done..].
  rewrite res_bindE, <- (Hrun _ _ from). case_bool_decide; [done|]. by rewrite Hown.
Qed.
End Batch.

(** ** The two walks side by side *)

(** The messages the borrowed path follows: it knows no IO vector, bounds its rows, and
    decodes every row with the columns of the end of the response. *)
Definition borrowable (s : LoopState) (message_type : Z) : bool :=
  negb (message_type =? TNS_MSG_TYPE_IO_VECTOR)
  && (negb (message_type =? TNS_MSG_TYPE_DESCRIBE_INFO) || bool_decide (q_rows (ls_result s) = []))
  && (negb (message_type =? TNS_MSG_TYPE_ROW_DATA)
      || (Zlen (q_rows (ls_result s)) <? max_batch_rows limits_DEFAULT)).

Section Walks.
Context (payload : bytes) (Hbytes : bytes_ok payload) (Hmax : Zlen payload <= I64_MAX).
Context (v : Z) (previous_row : option Row) (mode : LobDecodeMode).

Abbreviation owned_step := (process_message payload v previous_row [] [] false mode).

(** Every message of the response is borrowable, as the owned walk meets them. *)
Fixpoint borrowable_loop (fuel : nat) (s : LoopState) (r : TtcReader) : bool :=
  match fuel with
  | O => true
  | S fuel =>
      match slice_nth (r_bytes r) (pos r) with
      | None => true
      | Some message_type =>
          borrowable s message_type &&
          match owned_step s r with
          | (Ok (s, stop), r) => if stop then true else borrowable_loop fuel s r
          | _ => true
          end
      end
  end.

Record walks (s : LoopState) (t : BorrowState) : Prop := {
  w_columns : bs_columns t = q_columns (ls_result s);
  w_more : bs_more_rows t = q_more_rows (ls_result s);
  w_cursor : bs_cursor_id t = q_cursor_id (ls_result s);
  w_count : bs_row_count t = q_row_count (ls_result s);
  w_bits : bs_pending t = ls_bits s;
  w_end : bs_boundary t = ls_boundary s;
  w_long : ls_long s = true;
  w_out : ls_out s = [];
  w_rows : recorded payload mode (q_columns (ls_result s)) previous_row (q_rows (ls_result s))
             (bs_row_starts t) (bs_row_bit_vectors t);
  w_plain : bs_any_bit_vector t = false → Forall (λ b, b = None) (bs_row_bit_vectors t)
}.

Lemma recorded_lengths columns last rows starts bits :
  recorded payload mode columns last rows starts bits → length starts = length rows ∧ length bits = length rows.
Proof.
  revert last starts bits. induction rows as [|row rows IH]; intros last [|s starts] [|b bits] H; cbn in H; try done.
  destruct H as (_ & _ & H). cbn. apply IH in H. lia.
Qed.

Lemma describe_walks s t s' r r1 :
  walks s t → q_rows (ls_result s) = [] → process_describe v s r = (Ok s', r1) →
  ∃ t', borrow_describe v t r = (Ok t', r1) ∧ walks s' t'.
Proof.
  intros [] Hnil H. unfold process_describe in H. apply st_bind_ok in H as (o & r2 & Ho & H).
  apply st_bind_ok in H as (cs & r3 & Hc & H). unfold borrow_describe. rewrite st_bindE, Ho. cbn.
  rewrite st_bindE, Hc. cbn. rewrite w_columns0. destruct (adjust_columns _ cs) as [cols adj]. injection H as <- <-.
  eexists. split; [reflexivity|]. rewrite Hnil in *. destruct (recorded_lengths _ _ _ _ _ w_rows0) as [Hs Hb].
  destruct t as [? ? ? ? starts bits ? ? ?]. destruct starts, bits; try done.
  split; cbn in *; try done; [by rewrite w_long0|by rewrite Hnil].
Qed.

Lemma row_walks s t s' p r1 :
  walks s t → Zlen (q_rows (ls_result s)) < max_batch_rows limits_DEFAULT → 0 <= p <= Zlen payload →
  process_row previous_row [] [] mode s (mkTtcReader payload p limits_DEFAULT) = (Ok s', r1) →
  ∃ t', borrow_row mode t (mkTtcReader payload p limits_DEFAULT) = (Ok t', r1) ∧ walks s' t'.
Proof.
  intros [] Hn Hp H. unfold process_row in H. cbv zeta in H. apply st_bind_ok in H as (q & r2 & Hq & H).
  injection H as <- <-. rewrite w_out0, !andb_false_r in Hq. unfold parse_row_data in Hq.
  apply st_bind_ok in Hq as (rows & r3 & Hrows & Hq). injection Hq as <- <-.
  apply st_bind_ok in Hrows as (row & r4 & Hrow & Hrows). injection Hrows as <- <-. rewrite w_long0 in Hrow.
  destruct (recorded_lengths _ _ _ _ _ w_rows0) as [Hs Hb]. unfold borrow_row.
  assert (Zlen (bs_row_starts t) = Zlen (q_rows (ls_result s))) as Hlen by (unfold Zlen; by rewrite Hs).
  pose proof (Zlen_nonneg (bs_row_starts t)).
  assert (max_batch_rows limits_DEFAULT <= USIZE_MAX) by done.
  rewrite arith_in by lia. st_run. unfold limit_check. st_run.
  unfold check_batch_rows, check. cbn [limits].
  replace (Zlen (bs_row_starts t) + 1 <=? max_batch_rows limits_DEFAULT) with true by lia. st_run.
  rewrite w_columns0, w_bits0. rewrite (row_skips _ _ _ _ _ _ _ _ _ Hrow). st_run.
  eexists. split; [reflexivity|]. split; cbn; try done.
  - rewrite w_bits0. by eapply recorded_snoc.
  - rewrite w_bits0. intros [Ha Hbits]%orb_false_iff. apply Forall_app. split; [by apply w_plain0|].
    apply Forall_singleton. apply bool_decide_eq_false in Hbits. by destruct (ls_bits s); [destruct Hbits|].
Qed.

Lemma error_walks s t q r r1 :
  walks s t → process_error v (ls_result s) r = (Ok q, r1) →
  ∃ t', borrow_error v t r = (Ok t', r1) ∧ walks (ls_end (ls_on_result (λ _, q) s)) t'.
Proof.
  intros [] H. unfold process_error in H. apply st_bind_ok in H as (info & r2 & Hi & H).
  unfold borrow_error. rewrite st_bindE, Hi. cbn iota beta. rewrite w_columns0.
  destruct (_ && _).
  { injection H as <- <-. eexists. split; [reflexivity|]. split; cbn; try done. by rewrite w_cursor0. }
  destruct (sei_number info =? TNS_ERR_ARRAY_DML_ERRORS) eqn:Ea.
  { rewrite andb_false_r. injection H as <- <-. eexists. split; [reflexivity|].
    split; cbn; try done. by rewrite w_cursor0. }
  rewrite andb_true_r. destruct (negb _); [done|].
  injection H as <- <-. eexists. split; [reflexivity|]. split; cbn; try done. by rewrite w_cursor0.
Qed.

Lemma implicit_walks s t s' r r1 :
  walks s t → process_implicit v s r = (Ok s', r1) → borrow_implicit v r = (Ok (), r1) ∧ walks s' t.
Proof.
  intros [] H. unfold process_implicit in H. apply st_bind_ok in H as (n & r2 & Hn & H).
  apply st_bind_ok in H as (k & r3 & Hk & H). apply st_bind_ok in H as (x & r4 & Hx & H). injection H as <- <-.
  unfold reserve_checked, with_capacity_limited in Hk. cbn in Hk.
  unfold borrow_implicit. rewrite st_bindE, Hn. cbn iota beta. unfold limit_check. st_run.
  destruct (check_length_prefixed_elements (limits r2) n) as [[]| | |]; try done. injection Hk as _ <-. st_run.
  rewrite Hx. split; [done|]. by split.
Qed.

Lemma unknown_fails {A} t (x : A) r r1 : unknown_message payload v t r ≠ (Ok x, r1).
Proof.
  unfold unknown_message. st_run. destruct (find_embedded_server_error _ _ _) as [[m|]|e| |]; done.
Qed.

(** A message both sides read with the same parser. *)
Ltac same_message H Hw :=
  let x := fresh "x" in let r := fresh "r" in let Hx := fresh "Hx" in
  apply st_bind_ok in H as (x & r & Hx & H); rewrite ?st_bindE, Hx; cbn iota beta.
Ltac message_done H Hw :=
  injection H as <- <- <-; eexists; split; [reflexivity|]; destruct Hw; by split.

(** A message, when both sides read the same thing and the borrowed one keeps what
    [walks] compares. *)
Lemma message_walks s t s' stop p r1 message_type :
  walks s t → 0 <= p <= Zlen payload → slice_nth payload p = Some message_type → borrowable s message_type = true →
  owned_step s (mkTtcReader payload p limits_DEFAULT) = (Ok (s', stop), r1) →
  ∃ t', borrow_message payload v mode t (mkTtcReader payload p limits_DEFAULT) = (Ok (t', stop), r1) ∧ walks s' t'.
Proof.
  intros Hw Hp Ht Hb H. unfold process_message in H. unfold borrow_message.
  apply st_bind_ok in H as (mt & r2 & Hu & H). rewrite st_bindE, Hu. cbn iota beta.
  assert (mt = message_type ∧ r2 = mkTtcReader payload (p + 1) limits_DEFAULT ∧ p + 1 <= Zlen payload) as (-> & -> & Hp1).
  { apply slice_nth_some in Ht as Hr. destruct Hr as [Hr _]. unfold read_u8 in Hu. rewrite st_bindE in Hu.
    unfold peek_u8 in Hu. cbn [r_bytes pos] in Hu. rewrite Ht in Hu. cbn [ok_or] in Hu. st_run_in Hu. cbn [pos] in Hu.
    rewrite arith_in in Hu by (unfold USIZE_MAX, U64_MAX, I64_MAX in *; lia). st_run_in Hu. injection Hu as <- <-.
    split; [done|]. split; [done|]. lia. }
  clear Hu Ht. unfold borrowable in Hb. rewrite !andb_true_iff in Hb. destruct Hb as [[Hio Hdesc] Hrow].
  destruct (message_type =? 0) eqn:E0; [injection H as <- <- <-; eauto|].
  destruct (message_type =? TNS_MSG_TYPE_DESCRIBE_INFO).
  { cbn in Hdesc. apply bool_decide_eq_true in Hdesc. apply st_bind_ok in H as (x & r2 & Hx & H). injection H as <- <- <-.
    destruct (describe_walks _ _ _ _ _ Hw Hdesc Hx) as (t' & Ht & ?). rewrite st_bindE, Ht. by eexists. }
  destruct (message_type =? TNS_MSG_TYPE_ROW_HEADER); [same_message H Hw; message_done H Hw|].
  destruct (message_type =? TNS_MSG_TYPE_ROW_DATA) eqn:Erow.
  { apply Z.eqb_eq in Erow. subst message_type. cbn in Hrow. apply Z.ltb_lt in Hrow.
    apply st_bind_ok in H as (x & r2 & Hx & H). injection H as <- <- <-.
    destruct (row_walks _ _ _ (p + 1) _ Hw Hrow ltac:(lia) Hx) as (t' & Ht & ?). cbn. rewrite st_bindE, Ht. by eexists. }
  destruct (message_type =? TNS_MSG_TYPE_BIT_VECTOR).
  { rewrite (w_columns _ _ Hw). same_message H Hw. message_done H Hw. }
  destruct (message_type =? TNS_MSG_TYPE_PARAMETER).
  { apply st_bind_ok in H as (x & r2 & Hx & H). unfold process_parameter in Hx. same_message Hx Hw.
    destruct x0 as [counts id]. injection Hx as <- <-. message_done H Hw. }
  destruct (message_type =? TNS_MSG_TYPE_STATUS); [do 2 same_message H Hw; message_done H Hw|].
  destruct (message_type =? TNS_MSG_TYPE_IO_VECTOR); [done|].
  destruct (message_type =? TNS_MSG_TYPE_FLUSH_OUT_BINDS) eqn:Eflush.
  { apply Z.eqb_eq in Eflush. subst message_type. cbn. message_done H Hw. }
  destruct (message_type =? TNS_MSG_TYPE_SERVER_SIDE_PIGGYBACK).
  { same_message H Hw. destruct x; message_done H Hw. }
  destruct (message_type =? TNS_MSG_TYPE_IMPLICIT_RESULTSET) eqn:Eimp.
  { apply Z.eqb_eq in Eimp. subst message_type. apply st_bind_ok in H as (x & r2 & Hx & H). injection H as <- <- <-.
    destruct (implicit_walks _ _ _ _ _ Hw Hx) as [Ht ?]. cbn. rewrite st_bindE, Ht. by eexists. }
  destruct (message_type =? TNS_MSG_TYPE_END_OF_RESPONSE); [message_done H Hw|]. cbn [orb].
  destruct (message_type =? TNS_MSG_TYPE_TOKEN); [same_message H Hw; message_done H Hw|].
  destruct (message_type =? TNS_MSG_TYPE_ERROR); [|by apply unknown_fails in H].
  apply st_bind_ok in H as (q & r2 & Hq & H). injection H as <- <- <-.
  destruct (error_walks _ _ _ _ _ Hw Hq) as (t' & Ht & ?). rewrite st_bindE, Ht. by eexists.
Qed.

Lemma loop_walks fuel : ∀ s t s' p r1,
  walks s t → 0 <= p <= Zlen payload →
  borrowable_loop fuel s (mkTtcReader payload p limits_DEFAULT) = true →
  response_loop payload v previous_row [] [] false mode fuel s (mkTtcReader payload p limits_DEFAULT) = (Ok s', r1) →
  ∃ t', borrow_loop payload v mode fuel t (mkTtcReader payload p limits_DEFAULT) = (Ok t', r1) ∧ walks s' t'.
Proof.
  induction fuel as [|fuel IH]; intros s t s' p r1 Hw Hp Hok H; [done|].
  unfold response_loop, borrow_loop in *. cbn [while_remaining borrowable_loop] in *.
  st_run_in H. st_run. cbn [r_bytes pos] in Hok.
  destruct (0 <? remaining _) eqn:Erem; [|injection H as <- <-; eauto].
  apply st_bind_ok in H as ([s1 stop] & r2 & Hs & H). rewrite Hs in Hok.
  assert (∃ mt, slice_nth payload p = Some mt) as [mt Hmt].
  { destruct (slice_nth payload p) eqn:E; [eauto|]. apply slice_nth_none in E; [|lia].
    unfold remaining, sat_sub in Erem. cbn in Erem. lia. }
  rewrite Hmt in Hok. apply andb_true_iff in Hok as [Hb Hok].
  destruct (message_walks _ _ _ _ _ _ _ Hw Hp Hmt Hb Hs) as (t1 & Ht1 & Hw1). rewrite st_bindE, Ht1. cbn iota beta.
  destruct stop; [injection H as <- <-; eauto|].
  destruct (process_message_safe payload Hbytes Hmax v previous_row [] [] false mode s _ (reader_at_ok payload Hbytes Hmax p Hp) default_policy)
    as (_ & Hadv & _). rewrite Hs in Hadv. destruct r2 as [b2 p2 l2], Hadv as (Hb2 & Hl2 & Hp2). cbn in Hb2, Hl2, Hp2. subst b2 l2.
  eapply IH; [done|lia|done|done].
Qed.

(** The responses the borrowed path handles like the owned one. *)
Definition borrowable_response (columns : list ColumnMetadata) : bool :=
  (Zlen columns <=? max_columns limits_DEFAULT) &&
  borrowable_loop (response_fuel payload) (mkLoop (response_new columns) true None [] false)
    (mkTtcReader payload 0 limits_DEFAULT).
End Walks.

Lemma previous_as_seed previous_row : previous_as previous_row (default [] previous_row).
Proof.
  intros row ->. cbn. induction row as [|[x|] row IH]; constructor; [constructor; constructor|done|constructor|done].
Qed.

(** C8: Borrowing changes nothing that is decoded, under the default limits of the protocol.
    When the owned decoder accepts a fetch response whose messages the borrowed one supports
    (no IO vector, no new description after a row, row and column counts within the default
    limits), the borrowed decoder accepts it with the same columns, cursor, row count and
    end-of-fetch flag, and iterating over its batch calls the callback exactly on rows that
    stand cell by cell for the owned ones, in order, stopping at the callback's first error.
    Every reference materializes to the owned value, repeated values included.  A NUMBER
    cell carries the text of its wire bytes; that text, the owned number and the number read
    back from the text print the same on the one-byte wire forms and on every form the
    encoder can write; on other forms the two decoders may differ and only the common wire
    bytes are claimed.  Raised limits, which the iteration does not honour, are not
    covered. *)
Theorem borrowed_matches_owned payload v columns previous_row mode q :
  bytes_ok payload → Zlen payload <= I64_MAX →
  parse_fetch_response payload v columns previous_row mode limits_DEFAULT = Ok q →
  borrowable_response payload v previous_row mode columns = true →
  ∃ b refs,
    parse_response_borrowed payload v mode columns previous_row limits_DEFAULT = Ok b ∧
    b_columns (br_batch b) = q_columns q ∧ br_more_rows b = q_more_rows q ∧
    br_cursor_id b = q_cursor_id q ∧ br_row_count b = q_row_count q ∧
    Forall2 row_as (q_rows q) refs ∧
    ∀ (S E : Type) (from : ProtocolError → E) (callback : S → RefRow → Result E S) s,
      for_each_row_ref from callback (br_batch b) s = visit callback s refs.
Proof.
  intros Hb Hm H [Hcols Hok]%andb_true_iff. unfold parse_fetch_response, parse_response in H.
  unfold parse_response_borrowed. apply bind_ok in H as (r & Hr & H).
  pose proof (with_limits_post payload limits_DEFAULT default_policy Hb Hm) as Hpost. rewrite Hr in Hpost.
  destruct Hpost as [-> _]. rewrite Hr. st_run. unfold check_columns, check. cbn [limits]. rewrite Hcols. st_run.
  apply bind_ok in H as (s & Hs & H). destruct (response_loop _ _ _ _ _ _ _ _ _ _) as [x r1] eqn:Hloop. cbn in Hs. subst x.
  assert (walks payload previous_row mode (mkLoop (response_new columns) true None [] false)
            (mkBorrow columns true 0 0 [] [] false None false)) as Hw by (by split; try done; constructor).
  destruct (loop_walks payload Hb Hm v previous_row mode _ _ _ _ _ _ Hw
              (conj (Z.le_refl 0) (Zlen_nonneg payload)) Hok Hloop) as (t & Ht & []).
  rewrite Ht. cbn [fst]. cbn iota beta. rewrite w_end0. destruct (ls_boundary s); [|done]. injection H as <-.
  set (batch := mkBatch _ _ _ _ _ _ _).
  destruct (for_rows_as payload Hb Hm mode batch eq_refl eq_refl eq_refl (q_rows (ls_result s)) (bs_row_starts t)
              (bs_row_bit_vectors t) previous_row (default [] (b_previous_row_seed batch)) 0) as (refs & Hrefs & Hrun).
  - cbn. by rewrite w_columns0.
  - intros i. cbn. destruct (bs_any_bit_vector t); [done|].
    destruct (bs_row_bit_vectors t !! i) as [x|] eqn:Ex; [|done].
    by rewrite (Forall_lookup_1 _ _ _ _ (w_plain0 eq_refl) Ex).
  - cbn. destruct (bs_any_bit_vector t); [|done]. intros _. exact (previous_as_seed previous_row).
  - eexists _, refs. split; [reflexivity|]. by repeat split.
Qed.

Lemma borrowed_matches_owned_witness :
  ∃ b refs, parse_response_borrowed sample_payload 24 PlainLocator sample_columns None limits_DEFAULT = Ok b ∧
    Forall2 row_as fetched_rows refs ∧
    for_each_row_ref id (λ n _, Ok (n + 1)) (br_batch b) 0 = visit (λ n _, Ok (n + 1)) 0 refs.
Proof.
  destruct (borrowed_matches_owned sample_payload 24 sample_columns None PlainLocator
              (q_set_rows fetched_rows (response_new sample_columns))) as (b & refs & Hb & _ & _ & _ & _ & Hrows & Hrun).
  - apply sample_bytes.
  - apply sample_bytes.
  - vm_compute. reflexivity.
  - vm_compute. reflexivity.
  - exists b, refs. split; [exact Hb|]. split; [exact Hrows|apply Hrun].
Defined.

(** Outside that class the two paths differ.  A value that repeats a row that is not there
    is an error of the owned path and SQL NULL on the borrowed one. *)
Definition orphan_payload : bytes := [6; 0; 0; 0; 0; 0; 0; 0] ++ [21; 1; 2; 2] ++ [7; 2; 193; 3] ++ [29].
Example borrowed_orphan_is_null :
  parse_fetch_response orphan_payload 24 sample_columns None PlainLocator limits_DEFAULT =
    Err (TtcDecode "duplicate row data without previous row") ∧
  (b ← parse_response_borrowed orphan_payload 24 PlainLocator sample_columns None limits_DEFAULT;
   for_each_row_ref id (λ l row, Ok (l ++ [row])) (br_batch b) []) =
    Ok [[None; Some (RNumber [50] true)]].
Proof. by vm_compute. Qed.
