(* ===== verification/LobText.v ===== *)
(** * LOB text ([thin/dbobject.rs])

    Text of a CLOB comes as UTF-8 or as UTF-16 in either byte order.  [decode_lob_text]
    decodes a whole LOB, with a fast path for ASCII; [LobTextDecoder] decodes it in
    chunks that may end inside a character.  Both give the same text. *)

From S2P Require Import Prelude.
From S2P Require Import Protocol.
From S2P Require Import Reader.
From S2P Require Import Binds.
From S2P Require Import Utf.

Definition TNS_LOB_LOC_OFFSET_FLAG_3 : Z := 6.
Definition TNS_LOB_LOC_OFFSET_FLAG_4 : Z := 7.
Definition TNS_LOB_LOC_FLAGS_VAR_LENGTH_CHARSET : Z := 128.
Definition TNS_LOB_LOC_FLAGS_LITTLE_ENDIAN : Z := 64.

Definition invalid_utf8 : ProtocolError := TtcDecode "invalid LOB UTF-8 text".
Definition invalid_utf16 : ProtocolError := TtcDecode "invalid LOB UTF-16 text".

(** [locator.and_then(|l| l.get(offset)).is_some_and(|flags| flags & mask != 0)] *)
Definition locator_flag (locator : option bytes) (offset mask : Z) : bool :=
  match l ← locator; slice_nth l offset with
  | Some flags => negb (Z.land flags mask =? 0)
  | None => false
  end.

Definition lob_text_uses_utf16 (csfrm : Z) (locator : option bytes) : bool * bool :=
  ((csfrm =? CS_FORM_NCHAR) || locator_flag locator TNS_LOB_LOC_OFFSET_FLAG_3 TNS_LOB_LOC_FLAGS_VAR_LENGTH_CHARSET,
   locator_flag locator TNS_LOB_LOC_OFFSET_FLAG_4 TNS_LOB_LOC_FLAGS_LITTLE_ENDIAN).

(** A code unit from its two bytes in the order of the LOB. *)
Definition unit_of (little_endian : bool) (b0 b1 : Z) : Z :=
  if little_endian then from_be_bytes [b1; b0] else from_be_bytes [b0; b1].

(** [bytes.chunks_exact(2)] as units. *)
Fixpoint units_of (little_endian : bool) (l : bytes) : list Z :=
  match l with
  | b0 :: b1 :: l => unit_of little_endian b0 b1 :: units_of little_endian l
  | _ => []
  end.

(** ** Whole decode *)

(** The loop: ASCII units are decoded in place, the first other unit hands the rest to
    the general decoder. *)
Fixpoint decode_utf16_loop (little_endian : bool) (l : bytes) : Res bytes :=
  match l with
  | [] => Ok []
  | [_] => Panic
  | b0 :: b1 :: rest =>
      let is_ascii := if little_endian then (b1 =? 0) && (b0 <? 128) else (b0 =? 0) && (b1 <? 128) in
      if is_ascii then
        t ← decode_utf16_loop little_endian rest;
        Ok ((if little_endian then b0 else b1) :: t)
      else ok_or (from_utf16 (units_of little_endian l)) invalid_utf16
  end.

Definition decode_lob_text (b : bytes) (csfrm : Z) (locator : option bytes) : Res bytes :=
  let '(use_utf16, little_endian) := lob_text_uses_utf16 csfrm locator in
  if negb use_utf16 then if utf8_valid b then Ok b else Err invalid_utf8
  else if negb (Zlen b mod 2 =? 0) then Err invalid_utf16
  else decode_utf16_loop little_endian b.

(** ** [core::str::from_utf8] and its error *)

(** The next sequence: a character of [n] bytes, the end of the input inside a sequence
    that is well formed so far, or [n] bytes that cannot begin one. *)
Inductive Utf8Next := NextChar (n : nat) | NextEnd | NextBad (n : nat).

Definition utf8_next (b0 : Z) (rest : bytes) : Utf8Next :=
  if between 0 127 b0 then NextChar 1
  else if between 194 223 b0 then
    match rest with
    | [] => NextEnd
    | b1 :: _ => if is_cont b1 then NextChar 2 else NextBad 1
    end
  else if between 224 239 b0 then
    match rest with
    | [] => NextEnd
    | b1 :: rest =>
        if negb (second_of_3 b0 b1) then NextBad 1
        else match rest with
        | [] => NextEnd
        | b2 :: _ => if is_cont b2 then NextChar 3 else NextBad 2
        end
    end
  else if between 240 244 b0 then
    match rest with
    | [] => NextEnd
    | b1 :: rest =>
        if negb (second_of_4 b0 b1) then NextBad 1
        else match rest with
        | [] => NextEnd
        | b2 :: rest =>
            if negb (is_cont b2) then NextBad 2
            else match rest with
            | [] => NextEnd
            | b3 :: _ => if is_cont b3 then NextChar 4 else NextBad 3
            end
        end
    end
  else NextBad 1.

(** [None] for text; otherwise [valid_up_to] and [error_len]. *)
Fixpoint utf8_error (fuel : nat) (l : bytes) : option (nat * option nat) :=
  match fuel, l with
  | S fuel, b0 :: rest =>
      match utf8_next b0 rest with
      | NextChar n => '(valid, e) ← utf8_error fuel (drop n l); Some ((n + valid)%nat, e)
      | NextEnd => Some (0%nat, None)
      | NextBad n => Some (0%nat, Some n)
      end
  | _, _ => None
  end.

Definition str_from_utf8 (l : bytes) : option (nat * option nat) := utf8_error (length l) l.

(** ** Incremental decode *)

Record LobTextDecoder := mkDecoder {
  use_utf16 : bool;
  little_endian : bool;
  carry : bytes;
  pending_high : option Z
}.

Abbreviation DecoderM := (ST ProtocolError LobTextDecoder).

Definition set_carry (x : bytes) (d : LobTextDecoder) : LobTextDecoder :=
  mkDecoder (use_utf16 d) (little_endian d) x (pending_high d).
Definition set_high (x : option Z) (d : LobTextDecoder) : LobTextDecoder :=
  mkDecoder (use_utf16 d) (little_endian d) (carry d) x.

Definition decoder_new (use_utf16 little_endian : bool) : LobTextDecoder :=
  mkDecoder use_utf16 little_endian [] None.

Definition from_lob (csfrm : Z) (locator : option bytes) : LobTextDecoder :=
  let '(use_utf16, little_endian) := lob_text_uses_utf16 csfrm locator in
  decoder_new use_utf16 little_endian.

(** [char::from_u32], as the character's UTF-8 bytes. *)
Definition char_from_u32 (c : Z) : option bytes :=
  if between 0 1114111 c && negb (between 55296 57343 c) then Some (utf8_encode c) else None.

Definition is_high (u : Z) : bool := between 55296 56319 u.
Definition is_low (u : Z) : bool := between 56320 57343 u.

(** The text [push_unit] appends. *)
Definition push_unit (u : Z) : DecoderM bytes :=
  high ← gets pending_high;
  _ ← modify (set_high None);
  match high with
  | Some high =>
      if is_low u then
        let combined := 65536 + Z.lor (Z.shiftl (high - 55296) 10) (u - 56320) in
        lift (ok_or (char_from_u32 combined) invalid_utf16)
      else throw invalid_utf16
  | None =>
      if is_high u then _ ← modify (set_high (Some u)); mret []
      else if is_low u then throw invalid_utf16
      else lift (ok_or (char_from_u32 u) invalid_utf16)
  end.

(** The loop over the buffer; a lone trailing byte is carried. *)
Fixpoint push_pairs (little_endian : bool) (buf : bytes) : DecoderM bytes :=
  match buf with
  | b0 :: b1 :: rest =>
      t ← push_unit (unit_of little_endian b0 b1);
      t' ← push_pairs little_endian rest;
      mret (t ++ t')
  | [b] => _ ← modify (set_carry [b]); mret []
  | [] => mret []
  end.

Definition push_utf16 (b : bytes) : DecoderM bytes :=
  c ← gets carry;
  let buf := c ++ b in
  _ ← modify (set_carry []);
  le ← gets little_endian;
  push_pairs le buf.

Definition push_utf8 (b : bytes) : DecoderM bytes :=
  c ← gets carry;
  let buf := c ++ b in
  _ ← modify (set_carry []);
  match str_from_utf8 buf with
  | None => mret buf
  | Some (valid, None) =>
      match str_from_utf8 (take valid buf) with
      | None => _ ← modify (set_carry (drop valid buf)); mret (take valid buf)
      | Some _ => throw invalid_utf8
      end
  | Some (_, Some _) => throw invalid_utf8
  end.

Definition decoder_push (b : bytes) : DecoderM bytes :=
  u ← gets use_utf16;
  if (u : bool) then push_utf16 b else push_utf8 b.

Definition decoder_finish (d : LobTextDecoder) : Res () :=
  if bool_decide (is_Some (pending_high d)) || negb (bool_decide (carry d = [])) then
    Err (TtcDecode (if use_utf16 d then "incomplete LOB UTF-16 text" else "incomplete LOB UTF-8 text"))
  else Ok ().

(** ** Encoding *)

(** [value.encode_utf16()] of a string given as UTF-8. *)
Fixpoint encode_utf16 (l : bytes) : list Z :=
  match l with
  | [] => []
  | b0 :: l1 =>
      if between 0 127 b0 then b0 :: encode_utf16 l1
      else match l1 with
      | [] => []
      | b1 :: l2 =>
          if between 194 223 b0 then ((b0 - 192) * 64 + (b1 - 128)) :: encode_utf16 l2
          else match l2 with
          | [] => []
          | b2 :: l3 =>
              if between 224 239 b0
              then ((b0 - 224) * 4096 + (b1 - 128) * 64 + (b2 - 128)) :: encode_utf16 l3
              else match l3 with
              | [] => []
              | b3 :: l4 =>
                  let c := (b0 - 240) * 262144 + (b1 - 128) * 4096 + (b2 - 128) * 64 + (b3 - 128) - 65536 in
                  (55296 + c / 1024) :: (56320 + c mod 1024) :: encode_utf16 l4
              end
          end
      end
  end.

Definition unit_bytes (little_endian : bool) (u : Z) : bytes :=
  if little_endian then to_le_bytes 2 u else to_be_bytes 2 u.

Definition encode_lob_text (value : bytes) (csfrm : Z) (locator : option bytes) : bytes :=
  let '(use_utf16, little_endian) := lob_text_uses_utf16 csfrm locator in
  if negb use_utf16 then value else flat_map (unit_bytes little_endian) (encode_utf16 value).

(** ** UTF-16 in pieces *)

(** The byte an odd buffer leaves over. *)
Fixpoint odd_tail (l : bytes) : bytes :=
  match l with
  | _ :: _ :: l => odd_tail l
  | _ => l
  end.

(** Units one after the other: the text so far and the surrogate that waits for its
    other half. *)
Fixpoint utf16_run (high : option Z) (units : list Z) : option (bytes * option Z) :=
  match units with
  | [] => Some ([], high)
  | u :: units =>
      match high with
      | Some h =>
          if is_low u then
            t ← char_from_u32 (65536 + Z.lor (Z.shiftl (h - 55296) 10) (u - 56320));
            '(t', p) ← utf16_run None units; Some (t ++ t', p)
          else None
      | None =>
          if is_high u then utf16_run (Some u) units
          else if is_low u then None
          else t ← char_from_u32 u; '(t', p) ← utf16_run None units; Some (t ++ t', p)
      end
  end.

Lemma pair_ind (P : bytes → Prop) :
  P [] → (∀ b, P [b]) → (∀ b0 b1 l, P l → P (b0 :: b1 :: l)) → ∀ l, P l.
Proof. intros H0 H1 H2. fix IH 1. intros [|b0 [|b1 l]]; [exact H0|apply H1|apply H2, IH]. Qed.

Lemma units_split le a : ∀ b,
  units_of le (a ++ b) = units_of le a ++ units_of le (odd_tail a ++ b) ∧
  odd_tail (a ++ b) = odd_tail (odd_tail a ++ b).
Proof.
  induction a as [|x|x y a IH] using pair_ind; intros b; [done|done|]. cbn [app units_of odd_tail].
  destruct (IH b) as [-> ->]. done.
Qed.

Lemma odd_tail_nil l : odd_tail l = [] ↔ Zlen l mod 2 = 0.
Proof.
  induction l as [|x|x y l IH] using pair_ind; [done|done|]. cbn [odd_tail]. rewrite IH, !Zlen_cons.
  replace (Zlen l + 1 + 1) with (Zlen l + 1 * 2) by lia. rewrite Z_mod_plus_full. done.
Qed.

Lemma utf16_run_app us : ∀ p vs,
  utf16_run p (us ++ vs) =
  '(t, p') ← utf16_run p us; '(t', p'') ← utf16_run p' vs; Some (t ++ t', p'').
Proof.
  induction us as [|u us IH]; intros p vs; cbn [utf16_run app].
  { cbn. by destruct (utf16_run p vs) as [[t p']|]. }
  assert (∀ c : option bytes, (t ← c; '(t', q) ← utf16_run None (us ++ vs); Some (t ++ t', q)) =
    ('(t, p') ← (t ← c; '(t', q) ← utf16_run None us; Some (t ++ t', q));
     '(t', p'') ← utf16_run p' vs; Some (t ++ t', p''))) as Hc.
  { intros [t|]; [|done]. cbn. rewrite IH. destruct (utf16_run None us) as [[t1 p1]|]; [|done]. cbn.
    destruct (utf16_run p1 vs) as [[t2 p2]|]; [|done]. cbn. by rewrite app_assoc. }
  destruct p as [h|]; [destruct (is_low u); [apply Hc|done]|].
  destruct (is_high u); [apply IH|]. destruct (is_low u); [done|apply Hc].
Qed.

Lemma push_pairs_run le buf : ∀ d, carry d = [] →
  match utf16_run (pending_high d) (units_of le buf) with
  | Some (t, p) => push_pairs le buf d = (Ok t, mkDecoder (use_utf16 d) (little_endian d) (odd_tail buf) p)
  | None => ∃ e d', push_pairs le buf d = (Err e, d')
  end.
Proof.
  induction buf as [|b|b0 b1 buf IH] using pair_ind; intros d Hd.
  { cbn. rewrite <- Hd. by destruct d. }
  { done. }
  cbn [units_of push_pairs odd_tail utf16_run]. set (u := unit_of le b0 b1).
  assert (∀ c : option bytes,
    match t ← c; '(t', p) ← utf16_run None (units_of le buf); Some (t ++ t', p) with
    | Some (t, p) => (t ← lift (ok_or c invalid_utf16); t' ← push_pairs le buf; mret (t ++ t')) (set_high None d)
                     = (Ok t, mkDecoder (use_utf16 d) (little_endian d) (odd_tail buf) p)
    | None => ∃ e d', (t ← lift (ok_or c invalid_utf16); t' ← push_pairs le buf; mret (t ++ t')) (set_high None d) = (Err e, d')
    end) as Hc.
  { intros [t|]; [|by eexists _, _]. cbn [mbind option_bind]. st_run. specialize (IH (set_high None d) Hd). cbn [pending_high set_high] in IH.
    destruct (utf16_run None (units_of le buf)) as [[t' p]|]; [by rewrite IH|].
    destruct IH as (e & d' & ->). by eexists _, _. }
  rewrite st_bindE. unfold push_unit. st_run. cbn [pending_high].
  destruct (pending_high d) as [h|].
  - destruct (is_low u); [apply Hc|by eexists _, _].
  - destruct (is_high u).
    + st_run. specialize (IH (set_high (Some u) (set_high None d)) Hd). cbn [pending_high set_high] in IH.
      destruct (utf16_run (Some u) (units_of le buf)) as [[t' p]|]; [by rewrite IH|].
      destruct IH as (e & d' & ->). by eexists _, _.
    + destruct (is_low u); [by eexists _, _|apply Hc].
Qed.

Definition is_u16 (u : Z) : Prop := 0 <= u <= 65535.

Lemma char_of c : 0 <= c <= 1114111 → c < 55296 ∨ 57343 < c → char_from_u32 c = Some (utf8_encode c).
Proof. intros H1 H2. unfold char_from_u32. rewrite between_in by lia. by rewrite between_out by lia. Qed.

Lemma surrogates_combine h u :
  55296 <= h <= 56319 → 56320 <= u <= 57343 →
  65536 + Z.lor (Z.shiftl (h - 55296) 10) (u - 56320) = 65536 + (h - 55296) * 1024 + (u - 56320).
Proof.
  intros Hh Hu. pose proof (Z.add_lor_land (Z.shiftl (h - 55296) 10) (u - 56320)) as H.
  assert (Z.land (Z.shiftl (h - 55296) 10) (u - 56320) = 0) as H0.
  { apply Z.bits_inj'. intros n Hn. rewrite Z.land_spec, Z.bits_0. destruct (Z.lt_ge_cases n 10).
    - by rewrite Z.shiftl_spec_low.
    - rewrite <- (Z.mod_small (u - 56320) (2 ^ 10)), Z.mod_pow2_bits_high, andb_false_r by lia. done. }
  rewrite Z.shiftl_mul_pow2 in * by lia. lia.
Qed.

Lemma from_utf16_run us : Forall is_u16 us →
  from_utf16 us = match utf16_run None us with Some (t, None) => Some t | _ => None end.
Proof.
  remember (length us) as n eqn:Hn. revert us Hn. induction (lt_wf n) as [n _ IH]. intros us -> Hus.
  destruct us as [|u us]; [done|]. apply Forall_cons_iff in Hus as [Hu Hus]. unfold is_u16 in Hu.
  cbn [from_utf16 utf16_run]. unfold is_high, is_low.
  destruct (between 55296 57343 u) eqn:E; [apply between_true in E|apply between_false in E].
  - destruct (Z.ltb_spec u 56320).
    + rewrite between_in by lia. destruct us as [|v us]; [done|]. apply Forall_cons_iff in Hus as [Hv Hus].
      cbn [utf16_run andb]. unfold is_low. destruct (between 56320 57343 v) eqn:E2; [|done]. apply between_true in E2.
      rewrite surrogates_combine, char_of by lia. cbn [mbind option_bind].
      rewrite (IH (length us)) by (done || cbn; lia). by destruct (utf16_run None us) as [[t [h|]]|].
    + rewrite between_out, between_in by lia. by destruct us.
  - rewrite (between_out 55296), (between_out 56320), char_of by lia. cbn [mbind option_bind].
    rewrite (IH (length us)) by (done || cbn; lia). by destruct (utf16_run None us) as [[t [h|]]|].
Qed.

Lemma unit_of_range le b0 b1 : is_u8 b0 → is_u8 b1 → is_u16 (unit_of le b0 b1).
Proof. unfold is_u8, is_u16, unit_of. intros. destruct le; cbn; lia. Qed.

Lemma units_of_range le b : bytes_ok b → Forall is_u16 (units_of le b).
Proof.
  induction b as [|x|x y b IH] using pair_ind; [done|done|].
  intros [Hx [Hy Hb]%Forall_cons_iff]%Forall_cons_iff. constructor; [by apply unit_of_range|by apply IH].
Qed.

(** The fast path decodes what the general decoder does. *)
Lemma utf16_loop_eq le b : bytes_ok b → odd_tail b = [] →
  decode_utf16_loop le b = ok_or (from_utf16 (units_of le b)) invalid_utf16.
Proof.
  induction b as [|x|x y b IH] using pair_ind; [done|done|].
  intros [Hx [Hy Hb]%Forall_cons_iff]%Forall_cons_iff Hodd. cbn [decode_utf16_loop units_of]. unfold is_u8 in *.
  set (a := if le then x else y). destruct (if le then (y =? 0) && (x <? 128) else (x =? 0) && (y <? 128)) eqn:E; [|done].
  assert (unit_of le x y = a ∧ 0 <= a < 128) as [Hu Ha].
  { unfold unit_of. subst a. destruct le; apply andb_true_iff in E as [E1%Z.eqb_eq E2%Z.ltb_lt]; cbn; lia. }
  cbn [from_utf16]. rewrite Hu, (between_out 55296) by lia. rewrite IH by done.
  destruct (from_utf16 (units_of le b)) as [t|]; [|done]. cbn. unfold utf8_encode. by replace (a <? 128) with true by lia.
Qed.

(** ** Chunks *)

(** The pieces of a stream, decoded one by one. *)
Fixpoint feed (chunks : list bytes) : DecoderM bytes :=
  match chunks with
  | [] => mret []
  | c :: chunks => t ← decoder_push c; t' ← feed chunks; mret (t ++ t')
  end.

Definition stream_text (d : LobTextDecoder) (chunks : list bytes) : Res bytes :=
  let '(r, d) := feed chunks d in
  t ← r;
  _ ← decoder_finish d;
  Ok t.

Lemma odd_tail_short c : odd_tail c = c → c = [] ∨ ∃ b, c = [b].
Proof.
  destruct c as [|b [|b1 c]]; [eauto..|]. intros H%(f_equal length). cbn in H. exfalso.
  assert (∀ l, (length (odd_tail l) <= length l)%nat) as Hle.
  { intros l. induction l as [|x|x y l IH] using pair_ind; cbn; lia. }
  specialize (Hle c). lia.
Qed.

Lemma odd_tail_idem l : odd_tail (odd_tail l) = odd_tail l.
Proof. induction l as [|x|x y l IH] using pair_ind; done. Qed.

Lemma feed_utf16 le chunks : ∀ c p, odd_tail c = c →
  match utf16_run p (units_of le (c ++ concat chunks)) with
  | Some (t, p') => feed chunks (mkDecoder true le c p) = (Ok t, mkDecoder true le (odd_tail (c ++ concat chunks)) p')
  | None => ∃ e d', feed chunks (mkDecoder true le c p) = (Err e, d')
  end.
Proof.
  induction chunks as [|b chunks IH]; intros c p Hc; cbn [concat feed].
  { rewrite app_nil_r, Hc. destruct (odd_tail_short c Hc) as [->|[x ->]]; done. }
  rewrite app_assoc. destruct (units_split le (c ++ b) (concat chunks)) as [-> ->].
  rewrite utf16_run_app, st_bindE. unfold decoder_push, push_utf16. st_run. cbn [use_utf16]. st_run. cbn [carry little_endian set_carry].
  pose proof (push_pairs_run le (c ++ b) (set_carry [] (mkDecoder true le c p)) eq_refl) as Hrun. cbn in Hrun.
  destruct (utf16_run p (units_of le (c ++ b))) as [[t p1]|]; [|by destruct Hrun as (e & d' & ->); eexists _, _].
  rewrite Hrun. cbn [mbind option_bind]. st_run. specialize (IH (odd_tail (c ++ b)) p1 (odd_tail_idem _)).
  destruct (utf16_run p1 _) as [[t' p2]|]; [by rewrite IH|]. destruct IH as (e & d' & ->). by eexists _, _.
Qed.

(** *** UTF-8 *)

Lemma utf8_next_spec b0 rest :
  match utf8_next b0 rest with
  | NextChar n => (1 <= n <= S (length rest))%nat ∧ utf8_valid (take n (b0 :: rest)) = true ∧
      utf8_valid (b0 :: rest) = utf8_valid (drop n (b0 :: rest))
  | NextEnd => utf8_valid (b0 :: rest) = false
  | NextBad _ => ∀ m, utf8_valid (b0 :: rest ++ m) = false
  end.
Proof.
  unfold utf8_next. destruct (between 0 127 b0) eqn:E1.
  { cbn. rewrite E1, take_0, drop_0. split; [lia|done]. }
  destruct (between 194 223 b0) eqn:E2.
  { destruct rest as [|b1 rest]; [cbn; by rewrite E1|]. destruct (is_cont b1) eqn:C1.
    - cbn. rewrite E1, E2, C1, take_0, drop_0. split; [lia|done].
    - intros m. cbn. by rewrite E1, E2, C1. }
  destruct (between 224 239 b0) eqn:E3.
  { destruct rest as [|b1 rest]; [cbn; by rewrite E1|]. destruct (second_of_3 b0 b1) eqn:C1; cbn [negb].
    - destruct rest as [|b2 rest]; [cbn; by rewrite E1, E2|]. destruct (is_cont b2) eqn:C2.
      + cbn. rewrite E1, E2, E3, C1, C2, take_0, drop_0. split; [lia|done].
      + intros m. cbn. by rewrite E1, E2, E3, C1, C2.
    - intros m. cbn. rewrite E1, E2. destruct (rest ++ m); [done|]. by rewrite E3, C1. }
  destruct (between 240 244 b0) eqn:E4.
  2:{ intros m. cbn. rewrite E1. destruct (rest ++ m) as [|b1 [|b2 [|b3 l]]]; rewrite ?E2, ?E3, ?E4; done. }
  destruct rest as [|b1 rest]; [cbn; by rewrite E1|]. destruct (second_of_4 b0 b1) eqn:C1; cbn [negb].
  2:{ intros m. cbn. rewrite E1, E2. destruct (rest ++ m) as [|b2 [|b3 l]]; rewrite ?E3, ?E4, ?C1; done. }
  destruct rest as [|b2 rest]; [cbn; by rewrite E1, E2|]. destruct (is_cont b2) eqn:C2; cbn [negb].
  2:{ intros m. cbn. rewrite E1, E2, E3. destruct (rest ++ m) as [|b3 l]; rewrite ?E4, ?C1, ?C2; done. }
  destruct rest as [|b3 rest]; [cbn; by rewrite E1, E2, E3|]. destruct (is_cont b3) eqn:C3.
  - cbn. rewrite E1, E2, E3, E4, C1, C2, C3, take_0, drop_0. split; [lia|done].
  - intros m. cbn. by rewrite E1, E2, E3, E4, C1, C2, C3.
Qed.

Lemma utf8_error_spec fuel : ∀ l, (length l <= fuel)%nat →
  match utf8_error fuel l with
  | None => utf8_valid l = true
  | Some (v, None) => (v <= length l)%nat ∧ utf8_valid (take v l) = true ∧ utf8_valid (drop v l) = false
  | Some (_, Some _) => ∀ m, utf8_valid (l ++ m) = false
  end.
Proof.
  induction fuel as [|fuel IH]; intros [|b0 rest] Hl; [done|cbn in Hl; lia|done|]. cbn [utf8_error].
  pose proof (utf8_next_spec b0 rest) as Hs. destruct (utf8_next b0 rest) as [n| |n].
  - destruct Hs as (Hn & Hv & Heq). specialize (IH (drop n (b0 :: rest))).
    rewrite length_drop in IH. cbn [length] in IH, Hl. specialize (IH ltac:(lia)).
    assert (∀ m, utf8_valid ((b0 :: rest) ++ m) = utf8_valid (drop n (b0 :: rest) ++ m)) as Happ.
    { intros m. rewrite <- (take_drop n (b0 :: rest)) at 1. rewrite <- app_assoc. by apply utf8_valid_app. }
    destruct (utf8_error fuel (drop n (b0 :: rest))) as [[v [e|]]|]; cbn [mbind option_bind].
    + intros m. rewrite Happ. apply IH.
    + destruct IH as (Hle & Hvv & Hd). split; [cbn; lia|]. rewrite <- drop_drop. split; [|done].
      rewrite <- (take_drop n (take (n + v) (b0 :: rest))), take_take, Nat.min_l by lia.
      rewrite utf8_valid_app by done. by rewrite <- take_drop_commute.
    + by rewrite Heq.
  - split; [lia|]. by rewrite take_0, drop_0.
  - apply Hs.
Qed.

Lemma str_from_utf8_valid l : utf8_valid l = true → str_from_utf8 l = None.
Proof.
  intros H. unfold str_from_utf8. pose proof (utf8_error_spec (length l) l (le_n _)) as Hs.
  destruct (utf8_error (length l) l) as [[v [e|]]|]; [|destruct Hs as (_ & Hv & Hd)|done].
  - specialize (Hs []). rewrite app_nil_r in Hs. congruence.
  - rewrite <- (take_drop v l), utf8_valid_app in H by done. congruence.
Qed.

(** What pushing one piece does to the bytes that were carried. *)
Lemma push_utf8_spec le c b :
  match push_utf8 b (mkDecoder false le c None) with
  | (Ok t, d) => ∃ c', d = mkDecoder false le c' None ∧ t ++ c' = c ++ b ∧
      utf8_valid t = true ∧ (c' = [] ∨ utf8_valid c' = false)
  | (Err _, _) => ∀ m, utf8_valid ((c ++ b) ++ m) = false
  | _ => False
  end.
Proof.
  unfold push_utf8. st_run. cbn [carry]. pose proof (utf8_error_spec (length (c ++ b)) (c ++ b) (le_n _)) as Hs.
  unfold str_from_utf8 at 1. destruct (utf8_error (length (c ++ b)) (c ++ b)) as [[v [e|]]|].
  - cbn. exact Hs.
  - destruct Hs as (_ & Hv & Hd). rewrite str_from_utf8_valid by done. st_run.
    exists (drop v (c ++ b)). split; [done|]. split; [apply take_drop|]. by auto.
  - st_run. exists []. split; [done|]. split; [by rewrite app_nil_r|]. by auto.
Qed.

Lemma feed_utf8 le chunks : ∀ c, c = [] ∨ utf8_valid c = false →
  match feed chunks (mkDecoder false le c None) with
  | (Ok t, d) => ∃ c', d = mkDecoder false le c' None ∧ t ++ c' = c ++ concat chunks ∧
      utf8_valid t = true ∧ (c' = [] ∨ utf8_valid c' = false)
  | (Err _, _) => ∀ m, utf8_valid (c ++ concat chunks ++ m) = false
  | _ => False
  end.
Proof.
  induction chunks as [|b chunks IH]; intros c Hc; cbn [concat feed]; [by exists c; rewrite app_nil_r|].
  rewrite st_bindE. unfold decoder_push. st_run. cbn [use_utf16].
  pose proof (push_utf8_spec le c b) as Hpush.
  destruct (push_utf8 b (mkDecoder false le c None)) as [[t|e| |] d]; try done.
  2:{ intros m. rewrite <- app_assoc, app_assoc. apply Hpush. }
  destruct Hpush as (c1 & -> & Heq & Ht & Hc1). st_run. specialize (IH c1 Hc1).
  destruct (feed chunks (mkDecoder false le c1 None)) as [[t'|e| |] d']; try done.
  - destruct IH as (c2 & -> & Heq2 & Ht2 & Hc2). exists c2. split; [done|].
    rewrite <- app_assoc, Heq2, app_assoc, Heq, <- app_assoc. split; [done|]. by rewrite utf8_valid_app.
  - intros m. rewrite <- app_assoc, app_assoc, <- Heq, <- app_assoc, utf8_valid_app by done. apply IH.
Qed.

Lemma stream_text_whole csfrm locator chunks :
  Forall bytes_ok chunks →
  same_outcome (stream_text (from_lob csfrm locator) chunks) (decode_lob_text (concat chunks) csfrm locator).
Proof.
  intros Hok. assert (bytes_ok (concat chunks)) as Hall by (by apply Forall_concat).
  unfold stream_text, from_lob, decode_lob_text, decoder_new. destruct (lob_text_uses_utf16 csfrm locator) as [[] le]; cbn [negb].
  - pose proof (feed_utf16 le chunks [] None eq_refl) as Hf. cbn [app] in Hf.
    pose proof (from_utf16_run (units_of le (concat chunks)) (units_of_range le _ Hall)) as Hrun.
    destruct (utf16_run None _) as [[t p]|]; [rewrite Hf|destruct Hf as (e & d & ->)].
    + cbn. destruct (Zlen (concat chunks) mod 2 =? 0) eqn:Eo; cbn [negb].
      * apply Z.eqb_eq, odd_tail_nil in Eo. rewrite utf16_loop_eq, Hrun by done. unfold decoder_finish. cbn. rewrite Eo.
        by destruct p.
      * unfold decoder_finish. cbn. rewrite (bool_decide_eq_false_2 (odd_tail _ = [])); [by rewrite orb_true_r|].
        intros H%odd_tail_nil. lia.
    + cbn. destruct (Zlen (concat chunks) mod 2 =? 0) eqn:Eo; cbn [negb]; [|done].
      apply Z.eqb_eq, odd_tail_nil in Eo. by rewrite utf16_loop_eq, Hrun.
  - pose proof (feed_utf8 le chunks [] (or_introl eq_refl)) as Hf. cbn [app] in Hf.
    destruct (feed chunks _) as [[t|e| |] d]; try done.
    + destruct Hf as (c & -> & <- & Ht & Hc). cbn. rewrite utf8_valid_app by done. unfold decoder_finish. cbn.
      destruct Hc as [->|Hc]; [by cbn; rewrite app_nil_r|]. rewrite Hc.
      destruct c; [done|]. by rewrite bool_decide_eq_false_2.
    + cbn. specialize (Hf []). rewrite app_nil_r in Hf. by rewrite Hf.
Qed.

(** C33: A CLOB decodes to the same text in pieces as at once.  However a LOB's bytes are
    cut into chunks, feeding them to the incremental decoder and finishing gives the text
    [decode_lob_text] gives for the whole, or fails when it fails: sequences of UTF-8 and
    surrogate pairs of UTF-16, in either byte order, are stitched together wherever the
    cut falls, a stream that ends inside a character is refused, and the fast path for
    ASCII changes nothing. *)
Theorem lob_text_stream_exact csfrm locator chunks :
  Forall bytes_ok chunks →
  same_outcome (stream_text (from_lob csfrm locator) chunks) (decode_lob_text (concat chunks) csfrm locator).
Proof. apply stream_text_whole. Qed.

(** The chunks cut a two-byte unit, a surrogate pair and a three-byte sequence. *)
Lemma lob_text_stream_exact_witness :
  stream_text (from_lob 2 None) [[0; 72; 216]; [61; 222]; [0]] = Ok [72; 240; 159; 152; 128] ∧
  decode_lob_text [0; 72; 216; 61; 222; 0] 2 None = Ok [72; 240; 159; 152; 128] ∧
  same_outcome (stream_text (from_lob 1 None) [[72; 226]; [130]; [172]])
    (decode_lob_text (concat [[72; 226]; [130]; [172]]) 1 None).
Proof.
  split; [vm_compute; reflexivity|]. split; [vm_compute; reflexivity|].
  apply (lob_text_stream_exact 1 None [[72; 226]; [130]; [172]]).
  apply (bool_decide_unpack _). vm_compute. exact I.
Defined.

(** ** Writing and reading back *)

Lemma cont_range b : is_cont b = true → 128 <= b <= 191.
Proof. apply between_true. Qed.
Lemma second_3_range b0 b1 : second_of_3 b0 b1 = true →
  128 <= b1 <= 191 ∧ (b0 = 224 → 160 <= b1) ∧ (b0 = 237 → b1 <= 159).
Proof.
  unfold second_of_3. destruct (Z.eqb_spec b0 224); [|destruct (Z.eqb_spec b0 237)]; intros H%between_true; lia.
Qed.
Lemma second_4_range b0 b1 : second_of_4 b0 b1 = true →
  128 <= b1 <= 191 ∧ (b0 = 240 → 144 <= b1) ∧ (b0 = 244 → b1 <= 143).
Proof.
  unfold second_of_4. destruct (Z.eqb_spec b0 240); [|destruct (Z.eqb_spec b0 244)]; intros H%between_true; lia.
Qed.

Ltac small_div := Z.to_euclidean_division_equations; lia.

Lemma encode_utf16_run l :
  bytes_ok l → utf8_valid l = true → Forall is_u16 (encode_utf16 l) ∧ from_utf16 (encode_utf16 l) = Some l.
Proof.
  remember (length l) as n eqn:Hn. revert l Hn. induction (lt_wf n) as [n _ IH]. intros l -> Hok Hv.
  destruct l as [|b0 l1]; [done|]. apply Forall_cons_iff in Hok as [H0 Hok]. unfold is_u8 in H0.
  cbn [utf8_valid encode_utf16] in *. destruct (between 0 127 b0) eqn:E1.
  { apply between_true in E1. destruct (IH (length l1)  ltac:(cbn; lia) l1 eq_refl Hok Hv) as [Hr Hf].
    split; [constructor; [unfold is_u16; lia|done]|]. cbn [from_utf16]. rewrite between_out, Hf by lia. cbn.
    unfold utf8_encode. by replace (b0 <? 128) with true by lia. }
  destruct l1 as [|b1 l2]; [done|]. apply Forall_cons_iff in Hok as [H1 Hok]. destruct (between 194 223 b0) eqn:E2.
  { apply between_true in E2. apply andb_true_iff in Hv as [C1%cont_range Hv].
    destruct (IH (length l2) ltac:(cbn; lia) l2 eq_refl Hok Hv) as [Hr Hf].
    set (c := (b0 - 192) * 64 + (b1 - 128)). assert (128 <= c < 2048) as Hc by lia.
    split; [constructor; [unfold is_u16; lia|done]|]. cbn [from_utf16]. rewrite between_out, Hf by lia. cbn.
    unfold utf8_encode. replace (c <? 128) with false by lia. replace (c <? 2048) with true by lia.
    replace (192 + c / 64) with b0 by (subst c; small_div). by replace (128 + c mod 64) with b1 by (subst c; small_div). }
  destruct l2 as [|b2 l3]; [done|]. apply Forall_cons_iff in Hok as [H2 Hok]. destruct (between 224 239 b0) eqn:E3.
  { apply between_true in E3. rewrite !andb_true_iff in Hv. destruct Hv as [[C1%second_3_range C2%cont_range] Hv].
    destruct (IH (length l3) ltac:(cbn; lia) l3 eq_refl Hok Hv) as [Hr Hf].
    set (c := (b0 - 224) * 4096 + (b1 - 128) * 64 + (b2 - 128)).
    assert (2048 <= c < 65536 ∧ (c < 55296 ∨ 57343 < c)) as [Hc Hs] by (subst c; lia).
    split; [constructor; [unfold is_u16; lia|done]|]. cbn [from_utf16]. rewrite between_out, Hf by lia. cbn.
    unfold utf8_encode. replace (c <? 128) with false by lia. replace (c <? 2048) with false by lia.
    replace (c <? 65536) with true by lia. replace (224 + c / 4096) with b0 by (subst c; small_div).
    replace (128 + c / 64 mod 64) with b1 by (subst c; small_div). by replace (128 + c mod 64) with b2 by (subst c; small_div). }
  destruct l3 as [|b3 l4]; [done|]. apply Forall_cons_iff in Hok as [H3 Hok].
  rewrite !andb_true_iff in Hv. destruct Hv as [[[[E4%between_true C1%second_4_range] C2%cont_range] C3%cont_range] Hv].
  destruct (IH (length l4) ltac:(cbn; lia) l4 eq_refl Hok Hv) as [Hr Hf].
  cbv zeta. set (c := (b0 - 240) * 262144 + (b1 - 128) * 4096 + (b2 - 128) * 64 + (b3 - 128) - 65536).
  assert (0 <= c < 1048576) as Hc by (subst c; lia).
  pose proof (Z.div_mod c 1024 ltac:(lia)) as Hdm. pose proof (Z.mod_pos_bound c 1024 ltac:(lia)) as Hm.
  set (q := c / 1024) in *. set (r := c mod 1024) in *.
  split; [constructor; [unfold is_u16; lia|constructor; [unfold is_u16; lia|done]]|].
  cbn [from_utf16]. rewrite between_in by lia. replace (55296 + q <? 56320) with true by lia. rewrite between_in by lia. cbn [andb].
  rewrite Hf. cbn. replace (65536 + (55296 + q - 55296) * 1024 + (56320 + r - 56320)) with (c + 65536) by lia.
  clear Hdm Hm. clearbody q r. unfold utf8_encode. set (e := c + 65536).
  replace (e <? 128) with false by lia. replace (e <? 2048) with false by lia. replace (e <? 65536) with false by lia.
  replace (240 + e / 262144) with b0 by (subst e c; small_div). replace (128 + e / 4096 mod 64) with b1 by (subst e c; small_div).
  replace (128 + e / 64 mod 64) with b2 by (subst e c; small_div). by replace (128 + e mod 64) with b3 by (subst e c; small_div).
Qed.

Lemma units_of_bytes le us : Forall is_u16 us →
  units_of le (flat_map (unit_bytes le) us) = us ∧ odd_tail (flat_map (unit_bytes le) us) = [] ∧
  bytes_ok (flat_map (unit_bytes le) us).
Proof.
  induction us as [|u us IH]; [by split; [|split; [|constructor]]|]. intros [Hu Hus]%Forall_cons_iff. destruct (IH Hus) as (IH1 & IH2 & IH3). unfold is_u16 in Hu.
  assert (∃ b0 b1, unit_bytes le u = [b0; b1] ∧ unit_of le b0 b1 = u ∧ is_u8 b0 ∧ is_u8 b1) as (b0 & b1 & Hb & Hu' & ? & ?).
  { unfold unit_bytes, unit_of, is_u8. destruct le; eexists _, _; (split; [cbn; reflexivity|]); cbn;
      (split; [small_div|]); split; small_div. }
  cbn [flat_map]. rewrite Hb. cbn [app units_of odd_tail]. rewrite Hu', IH1. split; [done|]. split; [done|].
  by repeat (apply Forall_cons_iff; split; [done|]).
Qed.

(** Text written to a LOB reads back: for every string, character-set form and
    locator, the bytes the writer sends decode to the string, whole or cut into chunks
    anywhere. *)
Theorem lob_text_roundtrip text csfrm locator chunks :
  bytes_ok text → utf8_valid text = true → concat chunks = encode_lob_text text csfrm locator →
  decode_lob_text (encode_lob_text text csfrm locator) csfrm locator = Ok text ∧
  stream_text (from_lob csfrm locator) chunks = Ok text.
Proof.
  intros Hok Hv Hc. assert (bytes_ok (encode_lob_text text csfrm locator) ∧
    decode_lob_text (encode_lob_text text csfrm locator) csfrm locator = Ok text) as [Hb Hdec].
  { unfold encode_lob_text, decode_lob_text. destruct (lob_text_uses_utf16 csfrm locator) as [[] le]; cbn [negb]; [|by rewrite Hv].
    destruct (encode_utf16_run text Hok Hv) as [Hr Hf]. destruct (units_of_bytes le _ Hr) as (Hu & Ho & Hbo).
    split; [done|]. rewrite (proj1 (odd_tail_nil _) Ho). cbn. by rewrite utf16_loop_eq, Hu, Hf. }
  split; [done|]. pose proof (stream_text_whole csfrm locator chunks) as Hs. rewrite Hc, Hdec in Hs.
  rewrite <- Hc in Hb. destruct (stream_text _ chunks) as [t| | |]; cbn in Hs; [f_equal; apply Hs|exfalso; apply Hs..];
    by apply Forall_concat.
Qed.

Lemma lob_text_roundtrip_witness :
  encode_lob_text [72; 240; 159; 152; 128] 2 None = [0; 72; 216; 61; 222; 0] ∧
  stream_text (from_lob 2 None) [[0; 72; 216]; [61; 222]; [0]] = Ok [72; 240; 159; 152; 128].
Proof.
  split; [vm_compute; reflexivity|].
  apply (lob_text_roundtrip [72; 240; 159; 152; 128] 2 None [[0; 72; 216]; [61; 222]; [0]]).
  - apply (bool_decide_unpack _). vm_compute. exact I.
  - vm_compute. reflexivity.
  - vm_compute. reflexivity.
Defined.
