(* ===== verification/LobStream.v ===== *)
(** * LOB streams ([oracledb/src/lob_stream.rs])

    Readers and a writer that move through a LOB a chunk at a time.  The connection is
    an interface: a round trip answers a read or a write and changes the world behind
    it.  Nothing is assumed of a server for safety; an honest one is described by the
    units a LOB has. *)

From S2P Require Import Prelude.
From S2P Require Import Protocol.
From S2P Require Import Reader.
From S2P Require Import Utf.
From S2P Require Import Fetch.
From S2P Require Import LobText.

Record LobReadResult := mkLobRead {
  rr_data : option bytes;
  rr_locator : bytes;
  rr_amount : Z
}.

(** What the streams ask of a connection: [Connection::read_lob] and [write_lob]. *)
Class LobServer (W E : Type) := {
  read_lob : bytes → Z → Z → ST E W LobReadResult;
  write_lob : bytes → Z → bytes → ST E W LobReadResult;
  protocol_error : ProtocolError → E
}.

Record LobReader := mkLobReader {
  lr_locator : bytes;
  lr_total : Z;
  lr_pos : Z;
  lr_chunk : Z
}.

Definition lob_from_parts (locator : bytes) (size chunk : Z) : LobReader :=
  mkLobReader locator size 1 (Z.max chunk 1).

Definition lob_reader_new (lob : LobValue) (chunk : Z) : LobReader :=
  lob_from_parts (lob_locator lob) (lob_size lob) chunk.

Definition lob_is_eof (r : LobReader) : bool := lr_total r <? lr_pos r.

Record ClobReader := mkClobReader { inner : LobReader; decoder : LobTextDecoder }.

Definition clob_reader_new (lob : LobValue) (chunk : Z) : ClobReader :=
  mkClobReader (lob_reader_new lob chunk) (from_lob (lob_csfrm lob) (Some (lob_locator lob))).

Record LobWriter := mkLobWriter { lw_locator : bytes; lw_pos : Z }.

Definition lob_writer_new (locator : bytes) : LobWriter := mkLobWriter locator 1.

Section Streams.
Context {W E : Type} `{LobServer W E}.

(** Methods that hold the reader and the connection. *)
Abbreviation StreamM R := (ST E (R * W)%type).

Definition raise {A} (r : Res A) : Result E A :=
  match r with
  | Ok a => Ok a
  | Err e => Err (protocol_error e)
  | Panic => Panic
  | Diverge => Diverge
  end.

(** A round trip, and a step on the reader alone. *)
Definition on_server {R A} (m : ST E W A) : StreamM R A :=
  λ '(r, w), let '(x, w) := m w in (x, (r, w)).
Definition on_reader {R A} (m : ST E R A) : StreamM R A :=
  λ '(r, w), let '(x, r) := m r in (x, (r, w)).

Definition next_span (r : LobReader) : Result E (option (Z * Z)) :=
  if lr_total r <? lr_pos r then Ok None
  else
    left ← arith 0 U64_MAX (lr_total r - lr_pos r);
    left ← arith 0 U64_MAX (left + 1);
    Ok (Some (lr_pos r, Z.min left (lr_chunk r))).

Definition consume_read_result (want : Z) (result : LobReadResult) : ST E LobReader (bytes * Z) :=
  let amount := rr_amount result in
  if amount =? 0 then throw (protocol_error (TtcDecode "LOB read returned zero units before declared EOF"))
  else if want <? amount then throw (protocol_error (TtcDecode "LOB read returned more units than requested"))
  else
    data ← lift (ok_or (match rr_data result with Some (b :: l) => Some (b :: l) | _ => None end)
                   (protocol_error (TtcDecode "LOB read returned positive progress without data")));
    p ← gets lr_pos;
    next_pos ← lift (ok_or (try_range 0 U64_MAX (p + amount))
                       (protocol_error (TtcDecode "LOB read position overflow")));
    _ ← modify (λ r, mkLobReader (if bool_decide (rr_locator result = []) then lr_locator r else rr_locator result)
                       (lr_total r) next_pos (lr_chunk r));
    mret (data, amount).

Definition read_chunk : StreamM LobReader (option bytes) :=
  r ← gets fst;
  span ← lift (next_span r);
  match span with
  | None => mret None
  | Some (offset, want) =>
      result ← on_server (read_lob (lr_locator r) offset want);
      '(data, _) ← on_reader (consume_read_result want result);
      mret (Some data)
  end.

(** [while let Some(chunk) = self.read_chunk(..).await? { .. }]; a chunk moves the cursor
    by one unit or more, so that the size is enough fuel. *)
Fixpoint read_loop (fuel : nat) (out : bytes) : StreamM LobReader bytes :=
  match fuel with
  | O => lift Diverge
  | S fuel =>
      c ← read_chunk;
      match c with
      | None => mret out
      | Some b => read_loop fuel (out ++ b)
      end
  end.

(** [Vec::with_capacity(n)] panics when [n] bytes exceed [isize::MAX]. *)
Definition with_capacity (n : Z) : Result E () := if n <=? I64_MAX then Ok () else Panic.

Definition read_fuel (r : LobReader) : nat := Z.to_nat (lr_total r + 2 - lr_pos r).

Definition read_to_end : StreamM LobReader bytes :=
  r ← gets fst;
  _ ← lift (with_capacity (lr_total r));
  read_loop (read_fuel r) [].

Definition on_inner {A} (m : StreamM LobReader A) : StreamM ClobReader A :=
  λ '(c, w), let '(x, (r, w)) := m (inner c, w) in (x, (mkClobReader r (decoder c), w)).

Definition on_decoder {A} (m : DecoderM A) : StreamM ClobReader A :=
  λ '(c, w), let '(x, d) := m (decoder c) in (raise x, (mkClobReader (inner c) d, w)).

Definition read_text_chunk : StreamM ClobReader (option bytes) :=
  c ← on_inner read_chunk;
  match c with
  | Some b => t ← on_decoder (decoder_push b); mret (Some t)
  | None => mret None
  end.

Fixpoint text_loop (fuel : nat) (out : bytes) : StreamM ClobReader bytes :=
  match fuel with
  | O => lift Diverge
  | S fuel =>
      c ← read_text_chunk;
      match c with
      | None => mret out
      | Some t => text_loop fuel (out ++ t)
      end
  end.

Definition read_to_string : StreamM ClobReader bytes :=
  c ← gets fst;
  out ← text_loop (read_fuel (inner c)) [];
  c ← gets fst;
  _ ← lift (raise (decoder_finish (decoder c)));
  mret out.

Definition write_chunk (data : bytes) : StreamM LobWriter () :=
  if bool_decide (data = []) then mret ()
  else
    w ← gets fst;
    result ← on_server (write_lob (lw_locator w) (lw_pos w) data);
    p ← lift (arith 0 U64_MAX (lw_pos w + Zlen data));
    _ ← on_reader (modify (λ w, mkLobWriter (if bool_decide (rr_locator result = []) then lw_locator w else rr_locator result) p));
    mret ().

Lemma on_inner_eq {A} (m : StreamM LobReader A) c w x r' w' :
  m (inner c, w) = (x, (r', w')) → on_inner m (c, w) = (x, (mkClobReader r' (decoder c), w')).
Proof. intros Hm. cbn. by rewrite Hm. Qed.

Lemma on_decoder_eq {A} (m : DecoderM A) c w x d' :
  m (decoder c) = (x, d') → on_decoder m (c, w) = (raise x, (mkClobReader (inner c) d', w)).
Proof. intros Hm. cbn. by rewrite Hm. Qed.

(** ** One chunk *)

Definition reader_wf (r : LobReader) : Prop :=
  1 <= lr_pos r <= lr_total r + 1 ∧ lr_total r <= U64_MAX ∧ 1 <= lr_chunk r.

(** The span asked for. *)
Definition span_of (r : LobReader) : Z := Z.min (lr_total r - lr_pos r + 1) (lr_chunk r).

(** Answers the reader takes. *)
Definition answer_ok (r : LobReader) (a : LobReadResult) : Prop :=
  1 <= rr_amount a <= span_of r ∧ lr_pos r + rr_amount a <= U64_MAX ∧ ∃ b l, rr_data a = Some (b :: l).

Definition advanced (r : LobReader) (a : LobReadResult) : LobReader :=
  mkLobReader (if bool_decide (rr_locator a = []) then lr_locator r else rr_locator a)
    (lr_total r) (lr_pos r + rr_amount a) (lr_chunk r).

Lemma advanced_wf r a : reader_wf r → answer_ok r a → reader_wf (advanced r a).
Proof. intros (? & ? & ?) ((? & ?) & _). unfold reader_wf, span_of in *. cbn. lia. Qed.

Lemma read_chunk_eof r w : lr_total r < lr_pos r → read_chunk (r, w) = (Ok None, (r, w)).
Proof. intros Hlt. unfold read_chunk. st_run. cbn [fst]. unfold next_span. by replace (lr_total r <? lr_pos r) with true by lia. Qed.

Lemma read_chunk_asks r w : reader_wf r → lr_pos r <= lr_total r →
  read_chunk (r, w) =
  let '(x, w') := read_lob (lr_locator r) (lr_pos r) (span_of r) w in
  match x with
  | Ok a => let '(y, r') := consume_read_result (span_of r) a r in
            (match y with Ok (data, _) => Ok (Some data) | Err e => Err e | Panic => Panic | Diverge => Diverge end, (r', w'))
  | Err e => (Err e, (r, w'))
  | Panic => (Panic, (r, w'))
  | Diverge => (Diverge, (r, w'))
  end.
Proof.
  intros (Hp & Ht & Hc) Hle. unfold read_chunk. st_run. cbn [fst]. unfold next_span. replace (lr_total r <? lr_pos r) with false by lia.
  rewrite !arith_in by lia. st_run. rewrite arith_in by lia. st_run. unfold on_server at 1. cbn. fold (span_of r).
  destruct (read_lob _ _ _ w) as [[a|e| |] w']; try done. st_run. unfold on_reader. cbn.
  destruct (consume_read_result _ a r) as [[[data k]|e| |] r']; done.
Qed.

Lemma consume_good r a b l : answer_ok r a → 0 <= lr_pos r → rr_data a = Some (b :: l) →
  consume_read_result (span_of r) a r = (Ok (b :: l, rr_amount a), advanced r a).
Proof.
  intros ((? & ?) & ? & _) Hp Hd. unfold consume_read_result. cbv zeta.
  replace (rr_amount a =? 0) with false by lia. replace (span_of r <? rr_amount a) with false by lia.
  rewrite Hd. cbn [ok_or]. st_run. rewrite try_range_in by lia. by st_run.
Qed.

Lemma consume_bad r a : 0 <= rr_amount a → 0 <= lr_pos r → ¬ answer_ok r a →
  ∃ e, consume_read_result (span_of r) a r = (Err e, r).
Proof.
  intros Ha Hp Hbad. unfold consume_read_result. cbv zeta. destruct (Z.eqb_spec (rr_amount a) 0); [by eexists|].
  destruct (Z.ltb_spec (span_of r) (rr_amount a)); [by eexists|].
  destruct (rr_data a) as [[|b l]|] eqn:Ed; [by eexists| |by eexists]. cbn [ok_or]. st_run.
  destruct (try_range 0 U64_MAX (lr_pos r + rr_amount a)) as [q|] eqn:Eq; [|by eexists].
  apply try_range_some in Eq as [-> ?]. destruct Hbad. split; [lia|]. split; [lia|eauto].
Qed.

(** The three ways a chunk ends, whatever the server answers. *)
Lemma read_chunk_cases r w : reader_wf r →
  (∀ l o n w, returns (read_lob l o n w).1 ∧ ∀ a, (read_lob l o n w).1 = Ok a → 0 <= rr_amount a) →
  (lr_total r < lr_pos r ∧ read_chunk (r, w) = (Ok None, (r, w))) ∨
  lr_pos r <= lr_total r ∧
  let w' := (read_lob (lr_locator r) (lr_pos r) (span_of r) w).2 in
  ((∃ a data, (read_lob (lr_locator r) (lr_pos r) (span_of r) w).1 = Ok a ∧ answer_ok r a ∧ rr_data a = Some data ∧
      read_chunk (r, w) = (Ok (Some data), (advanced r a, w'))) ∨
   ∃ e, read_chunk (r, w) = (Err e, (r, w'))).
Proof.
  intros Hr Hsrv. destruct (Z.lt_ge_cases (lr_total r) (lr_pos r)); [left; by rewrite read_chunk_eof|]. right.
  split; [lia|]. rewrite read_chunk_asks by (done || lia). destruct (Hsrv (lr_locator r) (lr_pos r) (span_of r) w) as [Hret Ha].
  destruct (read_lob _ _ _ w) as [[a|e| |] w']; cbn in *; try done; [|eauto]. specialize (Ha a eq_refl).
  destruct Hr as (Hp & _). assert (Decision (answer_ok r a)) as [Hok|Hbad].
  { unfold answer_ok. destruct (rr_data a) as [[|b l]|]; [right|destruct (decide (1 <= rr_amount a <= span_of r)), (decide (lr_pos r + rr_amount a <= U64_MAX)); [left|right..]|right]; naive_solver. }
  - left. pose proof Hok as (_ & _ & b & l & Hd). exists a, (b :: l). split; [done|]. split; [done|]. split; [done|].
    by rewrite (consume_good r a b l Hok) by (done || lia).
  - right. destruct (consume_bad r a) as [e ->]; [done|lia|done|]. by exists e.
Qed.
End Streams.

Lemma push_pairs_returns le b : ∀ d, returns (push_pairs le b d).1.
Proof.
  induction b as [|x|x y b IH] using pair_ind; intros d; [done|done|]. cbn [push_pairs].
  rewrite st_bindE. assert (∀ u, returns (push_unit u d).1) as Hu.
  { intros u. unfold push_unit. st_run. destruct (pending_high d); [destruct (is_low u)|destruct (is_high u); [|destruct (is_low u)]];
      st_run; try done; by destruct (char_from_u32 _). }
  specialize (Hu (unit_of le x y)). destruct (push_unit _ d) as [[t|e| |] d']; try done. rewrite st_bindE.
  specialize (IH d'). by destruct (push_pairs le b d') as [[t'|e| |] d2].
Qed.

Lemma decoder_push_returns b d : returns (decoder_push b d).1.
Proof.
  unfold decoder_push. st_run. destruct (use_utf16 d).
  - unfold push_utf16. st_run. apply push_pairs_returns.
  - unfold push_utf8. st_run. destruct (str_from_utf8 _) as [[v [e|]]|]; try done.
    by destruct (str_from_utf8 (take v _)).
Qed.

Lemma feed_returns chunks : ∀ d, returns (feed chunks d).1.
Proof.
  induction chunks as [|c chunks IH]; intros d; [done|]. cbn [feed]. rewrite st_bindE.
  pose proof (decoder_push_returns c d). destruct (decoder_push c d) as [[t|e| |] d1]; try done. rewrite st_bindE.
  specialize (IH d1). by destruct (feed chunks d1) as [[t'|e| |] d2].
Qed.

(** ** Against any server *)

(** A request: its offset, the units asked for, the units it got. *)
Abbreviation Request := (Z * Z * Z)%type.

(** Requests that walk a LOB from [p] on: each begins where the answer before it ended,
    asks for a chunk or less, and not past the end. *)
Fixpoint tiles (chunk total p : Z) (h : list Request) : Prop :=
  match h with
  | [] => True
  | (offset, want, got) :: h =>
      offset = p ∧ 1 <= want <= chunk ∧ p + want <= total + 1 ∧ (h = [] ∨ 1 <= got <= want) ∧
      tiles chunk total (p + got) h
  end.

Definition units_got (h : list Request) : Z := sum_by (λ x, x.2) h.

Section AnyServer.
Context {E : Type} (server : list Request → bytes → Z → Z → Result E LobReadResult) (perr : ProtocolError → E).
Context (Htyped : ∀ h l o n, returns (server h l o n) ∧ ∀ a, server h l o n = Ok a → 0 <= rr_amount a).

(** The server with its requests written down. *)
#[local] Instance recorder : LobServer (list Request) E := {|
  read_lob l o n := λ h,
    (server h l o n, h ++ [(o, n, match server h l o n with Ok a => rr_amount a | _ => 0 end)]);
  write_lob l o b := λ h, (Ok (mkLobRead None [] 0), h);
  protocol_error := perr
|}.

(** A run that ends, whose requests walk the LOB, all of it when it succeeds. *)
Definition walked {A} (r : LobReader) (h : list Request) (x : Result E A) (h' : list Request) : Prop :=
  returns x ∧ ∃ new, h' = h ++ new ∧ tiles (lr_chunk r) (lr_total r) (lr_pos r) new ∧
    Zlen new <= lr_total r + 1 - lr_pos r ∧ (is_ok x = true → units_got new = lr_total r + 1 - lr_pos r).

Lemma walked_done {A} r h (a : A) : reader_wf r → lr_total r < lr_pos r → walked r h (Ok a) h.
Proof.
  intros (? & _) Hlt. split; [done|]. exists []. rewrite app_nil_r. split; [done|]. split; [done|].
  change (Zlen (@nil Request)) with 0. change (units_got []) with 0. split; [lia|]. intros _. lia.
Qed.

Lemma walked_failed {A} r h o n k e : reader_wf r → lr_pos r <= lr_total r → o = lr_pos r → n = span_of r →
  walked (A := A) r h (Err e) (h ++ [(o, n, k)]).
Proof.
  intros (? & ? & ?) Hle -> ->. split; [done|]. eexists. split; [done|].
  change (Zlen [(lr_pos r, span_of r, k)]) with 1. split; [|split; [lia|done]].
  cbn. unfold span_of. split; [done|]. split; [lia|]. split; [lia|]. by auto.
Qed.

Lemma walked_step {A} r a h (x : Result E A) h' :
  reader_wf r → lr_pos r <= lr_total r → answer_ok r a →
  walked (advanced r a) (h ++ [(lr_pos r, span_of r, rr_amount a)]) x h' → walked r h x h'.
Proof.
  intros (? & ? & ?) Hle ((Hk & Hk2) & _) (Hx & new & -> & Ht & Hl & Hsum). split; [done|].
  exists ((lr_pos r, span_of r, rr_amount a) :: new). rewrite <- app_assoc. split; [done|].
  cbn [advanced lr_chunk lr_total lr_pos] in *. split.
  - cbn. split; [done|]. split; [unfold span_of; lia|]. split; [unfold span_of; lia|]. split; [by right|done].
  - rewrite Zlen_cons. split; [lia|]. intros Hok. specialize (Hsum Hok).
    change (units_got (_ :: new)) with (rr_amount a + units_got new). lia.
Qed.

Lemma chunk_walks r h : reader_wf r →
  (lr_total r < lr_pos r ∧ read_chunk (r, h) = (Ok None, (r, h))) ∨
  lr_pos r <= lr_total r ∧
  ((∃ a data, answer_ok r a ∧
      read_chunk (r, h) = (Ok (Some data), (advanced r a, h ++ [(lr_pos r, span_of r, rr_amount a)]))) ∨
   ∃ e k, read_chunk (r, h) = (Err e, (r, h ++ [(lr_pos r, span_of r, k)]))).
Proof.
  intros Hr. destruct (read_chunk_cases r h Hr) as [?|(Hle & [(a & data & Ha & Hok & _ & Hread)|(e & Hread)])].
  { intros l o n w. cbn. apply Htyped. }
  - by left.
  - right. split; [done|]. left. exists a, data. split; [done|]. cbn in Ha, Hread. rewrite Ha in Hread. done.
  - right. split; [done|]. right. cbn in Hread. by eauto.
Qed.

Lemma read_loop_walks fuel : ∀ r h out, reader_wf r → lr_total r + 1 - lr_pos r < Z.of_nat fuel →
  walked r h (read_loop fuel out (r, h)).1 (read_loop fuel out (r, h)).2.2.
Proof.
  induction fuel as [|fuel IH]; intros r h out Hr Hf; [destruct Hr; lia|]. cbn [read_loop]. rewrite st_bindE.
  destruct (chunk_walks r h Hr) as [[Hlt ->]|(Hle & [(a & data & Hok & ->)|(e & k & ->)])].
  - by apply walked_done.
  - eapply walked_step; [done|done|exact Hok|]. apply IH; [by apply advanced_wf|]. destruct Hok as ((? & _) & _). cbn. lia.
  - by apply walked_failed.
Qed.

Lemma text_loop_walks fuel : ∀ r d h out, reader_wf r → lr_total r + 1 - lr_pos r < Z.of_nat fuel →
  walked r h (text_loop fuel out (mkClobReader r d, h)).1 (text_loop fuel out (mkClobReader r d, h)).2.2.
Proof.
  induction fuel as [|fuel IH]; intros r d h out Hr Hf; [destruct Hr; lia|]. cbn [text_loop]. rewrite st_bindE.
  unfold read_text_chunk. rewrite st_bindE.
  destruct (chunk_walks r h Hr) as [[Hlt Hc]|(Hle & [(a & data & Hok & Hc)|(e & k & Hc)])];
    rewrite (on_inner_eq _ (mkClobReader r d) _ _ _ _ Hc); st_run; cbn [decoder].
  - by apply walked_done.
  - eapply walked_step; [done|done|exact Hok|].
    pose proof (decoder_push_returns data d) as Hpush. destruct (decoder_push data d) as [x d'] eqn:Ed.
    rewrite (on_decoder_eq _ (mkClobReader (advanced r a) d) _ _ _ Ed). cbn [inner]. destruct x as [t|e| |]; cbn [raise]; st_run; try done.
    + apply IH; [by apply advanced_wf|]. destruct Hok as ((? & _) & _). cbn. lia.
    + split; [done|]. exists []. cbn [snd]. rewrite app_nil_r. split; [done|]. split; [done|].
      change (Zlen (@nil Request)) with 0. destruct (advanced_wf _ _ Hr Hok) as (? & _). split; [lia|done].
  - by apply walked_failed.
Qed.

(** C36: A LOB stream ends against every server.  Whatever a server answers, a reader over
    a LOB of a declared size asks for it in spans that follow each other without gap or
    overlap, none empty, larger than the chunk or past the end, at most one per unit; it
    ends with an error or after exactly the declared number of units, and the text reader
    does the same.  Draining to a buffer first reserves the declared size, so that a size
    above [isize::MAX] panics. *)
Theorem lob_stream_ends locator size chunk d :
  0 <= size <= U64_MAX →
  let r := lob_from_parts locator size chunk in
  (size <= I64_MAX → walked r [] (read_to_end (r, [])).1 (read_to_end (r, [])).2.2) ∧
  (I64_MAX < size → (read_to_end (r, [])).1 = Panic) ∧
  walked r [] (read_to_string (mkClobReader r d, [])).1 (read_to_string (mkClobReader r d, [])).2.2.
Proof.
  intros Hsize. cbv zeta. set (r := lob_from_parts locator size chunk).
  assert (reader_wf r) as Hr by (unfold reader_wf, r, lob_from_parts; cbn [lr_pos lr_total lr_chunk]; lia).
  assert (lr_total r + 1 - lr_pos r < Z.of_nat (read_fuel r)) as Hf by (unfold read_fuel, r; cbn; lia).
  split; [|split].
  - intros Hi. unfold read_to_end. st_run. cbn [fst]. unfold with_capacity. cbn [lr_total r lob_from_parts].
    replace (size <=? I64_MAX) with true by lia. st_run. by apply read_loop_walks.
  - intros Hi. unfold read_to_end. st_run. cbn [fst]. unfold with_capacity. cbn [lr_total r lob_from_parts].
    by replace (size <=? I64_MAX) with false by lia.
  - unfold read_to_string. st_run. cbn [fst inner]. pose proof (text_loop_walks _ r d [] [] Hr Hf) as Hw.
    destruct (text_loop _ _ _) as [[t|e| |] [c h]]; cbn [fst snd] in Hw |- *; [|exact Hw..].
    st_run. cbn [fst]. destruct (decoder_finish (decoder c)) as [[]|e| |] eqn:Ef; cbn [raise]; st_run; cbn [fst snd].
    + exact Hw.
    + destruct Hw as (_ & new & ? & ? & ? & _). split; [done|]. exists new. done.
    + unfold decoder_finish in Ef. by destruct (_ || _).
    + unfold decoder_finish in Ef. by destruct (_ || _).
Qed.
End AnyServer.

(** ** Against an honest server *)

Section Honest.
Context {W E : Type} `{LobServer W E} (units : list bytes) (P : W → Prop) (L : bytes → Prop).

(** The LOB has these units (bytes, or characters with their encoding): a read answers
    with some of the units asked for, one at least, and may replace the locator by another
    one it understands. *)
Definition honest : Prop := ∀ w l o n,
  P w → L l → 1 <= o → 1 <= n → o + n <= Zlen units + 1 →
  ∃ k l' w', read_lob l o n w = (Ok (mkLobRead (Some (concat (take (Z.to_nat k) (drop (Z.to_nat (o - 1)) units)))) l' k), w')
    ∧ 1 <= k <= n ∧ L l' ∧ P w'.

Context (Hhonest : honest) (Hunits : Forall (λ u, u ≠ [] ∧ bytes_ok u) units) (Hsize : Zlen units < U64_MAX).

Lemma units_bytes k i : bytes_ok (concat (take k (drop i units))).
Proof. apply Forall_concat, Forall_take, Forall_drop. eapply Forall_impl; [|exact Hunits]; by intros u [_ ?]. Qed.

Lemma units_nonempty k i : (1 <= k)%nat → (i < length units)%nat →
  ∃ b l, concat (take k (drop i units)) = b :: l.
Proof.
  intros Hk Hi. destruct (drop i units) as [|u us] eqn:Ed; [apply (f_equal length) in Ed; rewrite length_drop in Ed; cbn in Ed; lia|].
  destruct k as [|k]; [lia|]. cbn.
  assert (u ≠ []) as Hu.
  { apply (Forall_drop _ i) in Hunits. rewrite Ed in Hunits. by apply Forall_cons_iff in Hunits as [[? _] _]. }
  destruct u as [|b u]; [done|]. by eexists _, _.
Qed.

Lemma honest_chunk r w : P w → L (lr_locator r) → reader_wf r → lr_total r = Zlen units → lr_pos r <= lr_total r →
  ∃ k a w', read_chunk (r, w) = (Ok (Some (concat (take (Z.to_nat k) (drop (Z.to_nat (lr_pos r - 1)) units)))), (advanced r a, w'))
    ∧ rr_amount a = k ∧ 1 <= k <= span_of r ∧ answer_ok r a ∧ L (lr_locator (advanced r a)) ∧ P w'.
Proof.
  intros Hw Hloc Hr Ht Hle. pose proof Hr as (Hp & _ & Hc). unfold span_of.
  destruct (Hhonest w (lr_locator r) (lr_pos r) (span_of r) Hw Hloc) as (k & l' & w' & Hread & Hk & Hl' & Hw'); [unfold span_of; lia..|].
  destruct (units_nonempty (Z.to_nat k) (Z.to_nat (lr_pos r - 1))) as (b & l & Hdata); [lia|unfold Zlen in *; lia|].
  rewrite Hdata in *. rewrite read_chunk_asks, Hread by done.
  set (a := mkLobRead _ _ _). assert (answer_ok r a) as Hok.
  { split; [done|]. split; [cbn; unfold span_of in *; lia|]. by exists b, l. }
  rewrite (consume_good r a b l Hok) by (done || lia). exists k, a, w'. rewrite Hdata. split; [done|]. split; [done|].
  unfold span_of in Hk. split; [lia|]. split; [done|]. split; [|done]. cbn. by destruct (bool_decide (l' = [])).
Qed.

Lemma honest_run n : ∀ r w, P w → L (lr_locator r) → reader_wf r → lr_total r = Zlen units →
  lr_total r + 1 - lr_pos r <= Z.of_nat n →
  ∃ chunks r' w', Forall bytes_ok chunks ∧ concat chunks = concat (drop (Z.to_nat (lr_pos r - 1)) units) ∧ P w' ∧
    (∀ fuel out, lr_total r + 1 - lr_pos r < Z.of_nat fuel →
       read_loop fuel out (r, w) = (Ok (out ++ concat chunks), (r', w'))) ∧
    (∀ fuel out d, lr_total r + 1 - lr_pos r < Z.of_nat fuel →
       match feed chunks d with
       | (Ok t, d') => text_loop fuel out (mkClobReader r d, w) = (Ok (out ++ t), (mkClobReader r' d', w'))
       | (Err e, _) => ∃ s, text_loop fuel out (mkClobReader r d, w) = (Err (protocol_error e), s)
       | _ => True
       end).
Proof.
  induction n as [|n IH]; intros r w Hw Hloc Hr Ht Hn.
  all: destruct (Z.lt_ge_cases (lr_total r) (lr_pos r)) as [Hlt|Hge].
  1,3: exists [], r, w; split; [constructor|]; split; [rewrite drop_ge; [done|destruct Hr; unfold Zlen in *; lia]|]; split; [done|].
  1,2: split; [intros [|fuel] out Hf; [destruct Hr; lia|]; cbn [read_loop]; rewrite st_bindE, read_chunk_eof by done; st_run; cbn; by rewrite app_nil_r
              |intros [|fuel] out d Hf; [destruct Hr; lia|]; cbn [text_loop feed]; unfold read_text_chunk;
               rewrite !st_bindE, (on_inner_eq _ (mkClobReader r d) _ _ _ _ (read_chunk_eof r w Hlt)); st_run; cbn; by rewrite app_nil_r].
  { lia. }
  destruct (honest_chunk r w Hw Hloc Hr Ht ltac:(lia)) as (k & a & w1 & Hchunk & Ha & Hk & Hok & Hloc1 & Hw1).
  destruct (IH (advanced r a) w1 Hw1 Hloc1 (advanced_wf r a Hr Hok)) as (chunks & r' & w' & Hb & Hc & Hw' & Hread & Htext).
  { done. } { cbn. lia. }
  cbn [advanced lr_pos lr_total] in Hc, Hread, Htext. rewrite Ha in *.
  set (c := concat (take (Z.to_nat k) (drop (Z.to_nat (lr_pos r - 1)) units))) in *.
  exists (c :: chunks), r', w'. split; [constructor; [apply units_bytes|done]|]. split.
  { cbn [concat]. rewrite Hc. subst c. destruct Hr as ((? & ?) & _).
    replace (Z.to_nat (lr_pos r + k - 1)) with (Z.to_nat (lr_pos r - 1) + Z.to_nat k)%nat by lia.
    rewrite <- drop_drop, <- concat_app, take_drop. done. }
  split; [done|]. split.
  - intros [|fuel] out Hf; [destruct Hr; lia|]. cbn [read_loop]. rewrite st_bindE, Hchunk. st_run.
    rewrite Hread by lia. cbn [concat]. by rewrite app_assoc.
  - intros [|fuel] out d Hf; [destruct Hr; lia|]. cbn [text_loop feed]. rewrite !st_bindE. unfold read_text_chunk.
    rewrite !st_bindE, (on_inner_eq _ (mkClobReader r d) _ _ _ _ Hchunk). st_run. cbn [decoder].
    destruct (decoder_push c d) as [x d1] eqn:Ed.
    rewrite (on_decoder_eq _ (mkClobReader (advanced r a) d) _ _ _ Ed). cbn [inner].
    destruct x as [t|e| |]; cbn [raise]; st_run; [|by eexists|done|done].
    specialize (Htext fuel (out ++ t) d1 ltac:(lia)).
    destruct (feed chunks d1) as [[t'|e| |] d']; [|done..]. st_run. by rewrite Htext, <- app_assoc.
Qed.

Lemma honest_drain locator chunk w : P w → L locator → Zlen units <= I64_MAX →
  let r := lob_from_parts locator (Zlen units) chunk in
  ∃ r' w', read_to_end (r, w) = (Ok (concat units), (r', w')) ∧ P w' ∧ lob_is_eof r = bool_decide (units = []).
Proof.
  intros Hw Hloc Hi. cbv zeta. set (r := lob_from_parts locator (Zlen units) chunk). pose proof (Zlen_nonneg units).
  assert (reader_wf r) as Hr by (unfold reader_wf, r, lob_from_parts; cbn [lr_pos lr_total lr_chunk]; lia).
  destruct (honest_run (Z.to_nat (Zlen units)) r w Hw Hloc Hr eq_refl) as (chunks & r' & w' & _ & Hc & Hw' & Hread & _); [cbn; lia|].
  exists r', w'. split; [|split; [done|]].
  - unfold read_to_end. st_run. cbn [fst]. unfold with_capacity. cbn [lr_total r lob_from_parts].
    replace (Zlen units <=? I64_MAX) with true by lia. st_run. rewrite Hread by (unfold read_fuel, r; cbn; lia). by rewrite Hc.
  - unfold lob_is_eof, r. cbn. destruct units as [|u us]; [done|]. rewrite bool_decide_eq_false_2 by done.
    rewrite Zlen_cons in *. pose proof (Zlen_nonneg us). lia.
Qed.

Lemma stream_exact lob chunk w :
  P w → L (lob_locator lob) → lob_size lob = Zlen units → Zlen units <= I64_MAX →
  (read_to_end (lob_reader_new lob chunk, w)).1 = Ok (concat units) ∧
  match decode_lob_text (concat units) (lob_csfrm lob) (Some (lob_locator lob)) with
  | Ok t => (read_to_string (clob_reader_new lob chunk, w)).1 = Ok t
  | _ => ∃ e, (read_to_string (clob_reader_new lob chunk, w)).1 = Err e
  end.
Proof.
  intros Hw Hloc Hlob Hi. unfold clob_reader_new, lob_reader_new. rewrite Hlob. split.
  { destruct (honest_drain (lob_locator lob) chunk w Hw Hloc Hi) as (r' & w' & -> & _). done. }
  set (r := lob_from_parts (lob_locator lob) (Zlen units) chunk). set (d := from_lob _ _). pose proof (Zlen_nonneg units).
  assert (reader_wf r) as Hr by (unfold reader_wf, r, lob_from_parts; cbn [lr_pos lr_total lr_chunk]; lia).
  destruct (honest_run (Z.to_nat (Zlen units)) r w Hw Hloc Hr eq_refl) as (chunks & r' & w' & Hb & Hc & _ & _ & Htext); [cbn; lia|].
  specialize (Htext (read_fuel r) [] d ltac:(unfold read_fuel, r; cbn; lia)).
  pose proof (stream_text_whole (lob_csfrm lob) (Some (lob_locator lob)) chunks Hb) as Hs. fold d in Hs.
  rewrite Hc in Hs. change (drop _ units) with units in Hs. unfold stream_text in Hs.
  destruct (decode_lob_text _ _ _) as [whole|e0| |].
  all: unfold read_to_string; st_run; cbn [fst inner]; pose proof (feed_returns chunks d) as Hfeed.
  all: destruct (feed chunks d) as [[t|e| |] d'] eqn:Ef; try done.
  all: try (destruct Htext as [st ->]; by eexists).
  all: rewrite Htext; st_run; cbn [fst decoder].
  all: assert (returns (decoder_finish d')) as Hfin by (unfold decoder_finish; by destruct (_ || _)).
  all: destruct (decoder_finish d') as [[]|e2| |]; cbn in *; first [congruence | done | by eauto].
Qed.

(** Streaming reads a LOB exactly.  From a server that answers each read with one or
    more of the units asked for, as few as it likes and with a new locator when it likes,
    draining a BLOB gives its bytes, and draining a CLOB gives the text [decode_lob_text]
    gives for the whole of it, or an error when that is one: short answers, chunks cut
    inside a character and replaced locators lose, repeat and reorder nothing. *)
Theorem lob_stream_exact lob chunk w :
  P w → L (lob_locator lob) → lob_size lob = Zlen units → Zlen units <= I64_MAX →
  (read_to_end (lob_reader_new lob chunk, w)).1 = Ok (concat units) ∧
  match decode_lob_text (concat units) (lob_csfrm lob) (Some (lob_locator lob)) with
  | Ok t => (read_to_string (clob_reader_new lob chunk, w)).1 = Ok t
  | _ => ∃ e, (read_to_string (clob_reader_new lob chunk, w)).1 = Err e
  end.
Proof. apply stream_exact. Qed.
End Honest.

(** ** Writing and reading back *)

Section Storing.
Context {W E : Type} `{LobServer W E} (contents : W → bytes).

(** [l] with [b] written at the 1-based [offset]. *)
Definition overwrite (l : bytes) (offset : Z) (b : bytes) : bytes :=
  take (Z.to_nat (offset - 1)) l ++ b ++ drop (Z.to_nat (offset - 1 + Zlen b)) l.

(** A server that keeps what it is given. *)
Definition stores : Prop := ∀ w l offset b,
  1 <= offset <= Zlen (contents w) + 1 → b ≠ [] →
  ∃ a w', write_lob l offset b w = (Ok a, w') ∧ contents w' = overwrite (contents w) offset b.

(** The pieces written one after another. *)
Fixpoint write_all (pieces : list bytes) : ST E (LobWriter * W) () :=
  match pieces with
  | [] => mret ()
  | b :: pieces => _ ← write_chunk b; write_all pieces
  end.

Lemma write_chunk_appends b wr w : stores →
  1 <= lw_pos wr → lw_pos wr + Zlen b <= U64_MAX → Zlen (contents w) = lw_pos wr - 1 →
  ∃ wr' w', write_chunk b (wr, w) = (Ok (), (wr', w')) ∧
    lw_pos wr' = lw_pos wr + Zlen b ∧ contents w' = contents w ++ b.
Proof.
  intros Hst Hp Hmax Hlen. unfold write_chunk. destruct (bool_decide_reflect (b = [])) as [->|Hb].
  { exists wr, w. change (Zlen (@nil Z)) with 0. rewrite app_nil_r. split; [done|]. split; [lia|done]. }
  destruct (Hst w (lw_locator wr) (lw_pos wr) b ltac:(lia) Hb) as (a & w' & Hw & Hc).
  st_run. cbn [fst]. unfold on_server at 1. cbn. rewrite Hw. st_run. pose proof (Zlen_nonneg b).
  rewrite arith_in by lia. st_run. cbn. eexists _, w'. split; [done|]. split; [done|]. rewrite Hc. unfold overwrite.
  rewrite take_ge, drop_ge by (unfold Zlen in *; lia). by rewrite app_nil_r.
Qed.

Lemma write_all_appends (Hst : stores) pieces : ∀ wr w,
  1 <= lw_pos wr → lw_pos wr + Zlen (concat pieces) <= U64_MAX → Zlen (contents w) = lw_pos wr - 1 →
  ∃ wr' w', write_all pieces (wr, w) = (Ok (), (wr', w')) ∧ contents w' = contents w ++ concat pieces.
Proof.
  induction pieces as [|b pieces IH]; intros wr w Hp Hmax Hlen; cbn [write_all concat].
  { exists wr, w. by rewrite app_nil_r. }
  cbn [concat] in Hmax. rewrite Zlen_app in Hmax. pose proof (Zlen_nonneg b). pose proof (Zlen_nonneg (concat pieces)).
  destruct (write_chunk_appends b wr w Hst Hp ltac:(lia) Hlen) as (wr1 & w1 & Hw1 & Hp1 & Hc1). rewrite st_bindE, Hw1.
  destruct (IH wr1 w1) as (wr2 & w2 & Hw2 & Hc2); [lia|lia|rewrite Hc1, Zlen_app; lia|].
  exists wr2, w2. split; [done|]. by rewrite Hc2, Hc1, <- app_assoc.
Qed.

Lemma singles_concat (l : bytes) : concat (map (λ b, [b]) l) = l.
Proof. induction l as [|b l IH]; [done|]. cbn. by rewrite IH. Qed.

Lemma singles_fine (l : bytes) : bytes_ok l → Forall (λ u, u ≠ [] ∧ bytes_ok u) (map (λ b, [b]) l).
Proof. induction 1; constructor; [|done]. split; [done|]. by constructor. Qed.

(** What is written to a BLOB is read back.  Pieces written one after another by a
    [LobWriter] into an empty LOB, and the LOB drained by a [LobReader] in chunks of any
    size: the bytes are the pieces put together, for a server that keeps what it is given
    and answers each read with one or more of the bytes asked for. *)
Theorem blob_write_then_read pieces locator chunk w :
  stores →
  (∀ l, honest (map (λ b, [b]) l) (λ w, contents w = l) (λ _, True)) →
  contents w = [] → Forall bytes_ok pieces → Zlen (concat pieces) <= I64_MAX →
  let '(r, (writer, w')) := write_all pieces (lob_writer_new locator, w) in
  r = Ok () ∧
  (read_to_end (lob_from_parts (lw_locator writer) (Zlen (concat pieces)) chunk, w')).1 = Ok (concat pieces).
Proof.
  intros Hst Hh Hw Hb Hi. destruct (write_all_appends Hst pieces (lob_writer_new locator) w) as (wr & w' & -> & Hc).
  { done. } { cbn [lob_writer_new lw_pos]. unfold I64_MAX, U64_MAX in *. lia. } { by rewrite Hw. }
  split; [done|]. rewrite Hw in Hc. cbn in Hc.
  pose proof (honest_drain _ _ _ (Hh (concat pieces)) (singles_fine _ (proj2 (Forall_concat _ _) Hb))) as Hd.
  rewrite singles_concat in Hd.
  assert (Zlen (map (λ b, [b]) (concat pieces)) = Zlen (concat pieces)) as Hlen by (unfold Zlen; by rewrite length_map).
  rewrite Hlen in Hd. destruct (Hd ltac:(unfold I64_MAX, U64_MAX in *; lia) (lw_locator wr) chunk w' Hc I Hi) as (r' & w2 & -> & _). done.
Qed.
End Storing.

(** ** A server in memory *)

(** It answers a read with two units at most, keeps its locator to itself after the first
    round trip, and stores what is written. *)
#[local] Instance memory_server : LobServer bytes ProtocolError := {|
  read_lob l o n := λ w,
    let k := Z.min n 2 in
    (Ok (mkLobRead (Some (take (Z.to_nat k) (drop (Z.to_nat (o - 1)) w))) [9] k), w);
  write_lob l o b := λ w, (Ok (mkLobRead None [] 0), overwrite w o b);
  protocol_error e := e
|}.

Lemma memory_honest l : honest (map (λ b, [b]) l) (λ w, w = l) (λ _, True).
Proof.
  intros w loc o n -> _ Ho Hn Hmax. exists (Z.min n 2), [9], l. split; [|split; [lia|by split]].
  cbn. by rewrite skipn_map, firstn_map, singles_concat.
Qed.

Lemma memory_stores : stores (λ w : bytes, w).
Proof. intros w l o b _ _. by eexists _, _. Qed.

Lemma blob_write_then_read_witness :
  write_all [[1; 2; 3]; []; [4; 5]] (lob_writer_new [7], []) = (Ok (), (mkLobWriter [7] 6, [1; 2; 3; 4; 5])) ∧
  (let '(r, (writer, w')) := write_all [[1; 2; 3]; []; [4; 5]] (lob_writer_new [7], []) in
   r = Ok () ∧ (read_to_end (lob_from_parts (lw_locator writer) 5 4, w')).1 = Ok [1; 2; 3; 4; 5]).
Proof.
  split; [vm_compute; reflexivity|].
  apply (blob_write_then_read (λ w : bytes, w) [[1; 2; 3]; []; [4; 5]] [7] 4 []).
  - exact memory_stores.
  - exact memory_honest.
  - reflexivity.
  - apply (bool_decide_unpack _). vm_compute. exact I.
  - vm_compute. discriminate.
Defined.

Lemma lob_stream_exact_witness :
  (read_to_end (lob_reader_new (mkLob 112 1 [7] 5 8132) 3, [72; 226; 130; 172; 33])).1 = Ok [72; 226; 130; 172; 33] ∧
  (read_to_string (clob_reader_new (mkLob 112 1 [7] 5 8132) 3, [72; 226; 130; 172; 33])).1 = Ok [72; 226; 130; 172; 33].
Proof.
  apply (lob_stream_exact (map (λ b, [b]) [72; 226; 130; 172; 33]) (λ w, w = [72; 226; 130; 172; 33]) (λ _, True)
           (memory_honest [72; 226; 130; 172; 33]) (singles_fine [72; 226; 130; 172; 33] ltac:(apply (bool_decide_unpack _); vm_compute; exact I)) eq_refl).
  - reflexivity.
  - exact I.
  - reflexivity.
  - vm_compute. discriminate.
Defined.

(** A server of one byte per answer and one that claims more than it was asked for. *)
Lemma lob_stream_ends_witness :
  let slow := λ (h : list Request) (l : bytes) (o n : Z), @Ok ProtocolError _ (mkLobRead (Some [o]) [] 1) in
  let r := lob_from_parts [7] 3 2 in
  walked r [] (@read_to_end _ _ (recorder slow id) (r, [])).1
    (@read_to_end _ _ (recorder slow id) (r, [])).2.2 ∧
  (@read_to_end _ _ (recorder slow id) (r, [])) = (Ok [1; 2; 3], (mkLobReader [7] 3 4 2, [(1, 2, 1); (2, 2, 1); (3, 1, 1)])).
Proof.
  split; [|vm_compute; reflexivity].
  apply (lob_stream_ends (λ _ _ o _, @Ok ProtocolError _ (mkLobRead (Some [o]) [] 1)) id
           ltac:(intros h l o n; split; [exact I|intros a Ha; injection Ha as <-; vm_compute; discriminate])
           [7] 3 2 (from_lob 1 None)); vm_compute; try split; discriminate.
Defined.
