(* ===== verification/TlsNames.v ===== *)
(** * Server names and distinguished names ([tls/dn.rs], [tls/sni.rs])

    The check that replaces the TLS library's own after the handshake: an expected
    distinguished name against the certificate's, or the host against its names with
    wildcards; and the name sent in the handshake.  Strings are lists of characters. *)

From stdpp Require Import lexico sorting.
From S2P Require Import Prelude.
From S2P Require Import Protocol.
From S2P Require Import Sql.
From S2P Require Import SqlScan.
From S2P Require Import Utf.

Definition COMMA : Z := 44.
Definition SPACE : Z := 32.
Definition EQUALS : Z := 61.
Definition DOT : Z := 46.

Inductive DnMatchError :=
| CertDnMismatch (expected_dn : chars)
| NameMismatch (expected_name : chars).

Abbreviation Attribute := (chars * chars)%type.

(** ** Distinguished names *)

(** [Vec::sort] on pairs of strings. *)
Definition attr_le (x y : Attribute) : Prop := x = y ∨ lexico x y.

#[export] Instance attr_le_dec x y : Decision (attr_le x y).
Proof. unfold attr_le. destruct (trichotomyT lexico x y) as [[?|?]|?]; [left; by right|left; by left|right].
  intros [->|Hl]; [by apply (irreflexivity lexico y)|]. apply (irreflexivity lexico x). by trans y.
Defined.

Definition sort_attrs (l : list Attribute) : list Attribute := merge_sort attr_le l.

Definition is_space (c : Z) : bool := c =? SPACE.
Definition not_comma (c : Z) : bool := negb (c =? COMMA).

(** The value behind an opening quote, and what follows its closing one. *)
Fixpoint quoted_value (s : chars) : chars * chars :=
  match s with
  | [] => ([], [])
  | c :: s' =>
      if c =? DQUOTE then
        match s' with
        | c' :: s'' => if c' =? DQUOTE then let '(v, rest) := quoted_value s'' in (DQUOTE :: v, rest) else ([], s')
        | [] => ([], [])
        end
      else let '(v, rest) := quoted_value s' in (c :: v, rest)
  end.

Definition trim_end_spaces (s : chars) : chars := rev (snd (span is_space (rev s))).

Definition plain_value (s : chars) : chars * chars :=
  let '(v, rest) := span not_comma s in
  (if ends_with_char SPACE v then trim_end_spaces v else v, rest).

Definition attr_value (s : chars) : chars * chars :=
  match s with
  | c :: s' => if c =? DQUOTE then quoted_value s' else plain_value s
  | [] => plain_value s
  end.

(** A comma and one space. *)
Definition skip_separator (s : chars) : chars :=
  match s with
  | c :: s' =>
      if c =? COMMA then match s' with d :: s'' => if is_space d then s'' else s' | [] => [] end else s
  | [] => []
  end.

(** The loop over the pairs, on the characters that are left. *)
Fixpoint parse_pairs {E} (fuel : nat) (s : chars) : Result E (list Attribute) :=
  match s with
  | [] => Ok []
  | _ :: _ =>
      match fuel with
      | O => Diverge
      | S fuel =>
          let s := snd (span is_space (skip_separator s)) in
          match s with
          | [] => Ok []
          | _ :: _ =>
              let '(name, s) := span ascii_upper s in
              match name, s with
              | _ :: _, c :: s' =>
                  if c =? EQUALS then
                    let '(value, s) := attr_value s' in
                    rest ← parse_pairs fuel s;
                    Ok ((name, value) :: rest)
                  else parse_pairs fuel (snd (span not_comma s))
              | _, _ => parse_pairs fuel (snd (span not_comma s))
              end
          end
      end
  end.

Definition parse_dn {E} (dn : chars) : Result E (list Attribute) :=
  out ← parse_pairs (length dn) dn;
  Ok (sort_attrs out).

Definition check_cert_dn (expected_dn server_subject_dn : chars) : Result DnMatchError () :=
  expected ← parse_dn expected_dn;
  server ← parse_dn server_subject_dn;
  if bool_decide (expected = server) then Ok () else Err (CertDnMismatch expected_dn).

(** ** Host names *)

Definition ends_with (suffix s : chars) : bool := starts_with (rev suffix) (rev s).
Definition strip_suffix (suffix s : chars) : option chars :=
  if ends_with suffix s then Some (take (length s - length suffix) s) else None.

Section Names.
(** [str::to_lowercase]: what is shown holds for every such function. *)
Context (to_lowercase : chars → chars).

Definition name_matches (name_to_check cert_name : chars) : bool :=
  let cert_name := to_lowercase cert_name in
  let name_to_check := to_lowercase name_to_check in
  if bool_decide (name_to_check = cert_name) then true
  else
    match find_str [DOT] name_to_check, find_str [DOT] cert_name with
    | Some check_pos, Some cert_pos =>
        if (check_pos =? 0)%nat || (cert_pos =? 0)%nat then false
        else if bool_decide (drop check_pos name_to_check ≠ drop cert_pos cert_name) then false
        else
          let cert_label := take cert_pos cert_name in
          let check_label := take check_pos name_to_check in
          if bool_decide (cert_label = [STAR]) then true
          else
            match strip_prefix [STAR] cert_label, strip_suffix [STAR] cert_label with
            | Some suffix, _ => ends_with suffix check_label
            | None, Some prefix => starts_with prefix check_label
            | None, None =>
                match find_str [STAR] cert_name with
                | None => false
                | Some wildcard_pos =>
                    let pre := take wildcard_pos cert_name in
                    let post_start := S wildcard_pos in
                    let post := if (post_start <=? length cert_label)%nat then drop post_start cert_label else [] in
                    starts_with pre check_label && ends_with post check_label
                end
            end
    | _, _ => false
    end.

Definition check_server_name (expected_name : chars) (san_dns_names common_names : list chars) : Result DnMatchError () :=
  if existsb (name_matches expected_name) san_dns_names then Ok ()
  else if existsb (name_matches expected_name) common_names then Ok ()
  else Err (NameMismatch expected_name).
End Names.

(** ** The name of the handshake *)

(** [format!("{}", n)]; twenty digits write every [usize]. *)
Definition decimal (n : Z) : chars := dec_digits 20 n [].

(** The service name and the server type are in UTF-8, as the length counts bytes. *)
Definition build_sni (service_name : bytes) (server_type : option bytes) : bytes :=
  let server_type_part :=
    match server_type with
    | Some st =>
        match utf8_chars st with
        | first :: _ => txt ".T1." ++ first
        | [] => []
        end
    | None => []
    end in
  txt "S" ++ decimal (Zlen service_name) ++ txt "." ++ service_name ++ server_type_part ++ txt ".V3." ++ decimal TNS_VERSION_DESIRED.

Example dn_example :
  check_cert_dn (txt "CN=db, O=Acme") (txt "O=Acme,CN=db") = Ok () ∧
  check_server_name to_ascii_lowercase (txt "host.example.com") [txt "a.b"] [txt "*.Example.com"] = Ok () ∧
  check_server_name to_ascii_lowercase (txt "h.sub.example.com") [] [txt "*.example.com"] = Err (NameMismatch (txt "h.sub.example.com")) ∧
  build_sni (txt "svc") (Some (txt "dedicated")) = txt "S3.svc.T1.d.V3.319".
Proof. vm_compute. done. Qed.

(** ** Distinguished names: parsing *)

Lemma quoted_value_length s : (length (snd (quoted_value s)) <= length s)%nat.
Proof.
  induction s as [s IH] using (induction_ltof1 _ length). unfold ltof in IH. destruct s as [|c s]; [done|]. cbn.
  destruct (c =? DQUOTE).
  - destruct s as [|c' s]; [cbn; lia|]. destruct (c' =? DQUOTE); [|cbn; lia].
    specialize (IH s). cbn in IH. destruct (quoted_value s). cbn in *. specialize (IH ltac:(lia)). lia.
  - specialize (IH s). cbn in IH. destruct (quoted_value s). cbn in *. specialize (IH ltac:(lia)). lia.
Qed.

Lemma attr_value_length s : (length (snd (attr_value s)) <= length s)%nat.
Proof.
  assert (∀ s, length (snd (plain_value s)) <= length s)%nat as Hp.
  { intros s'. unfold plain_value. pose proof (span_length not_comma s'). by destruct (span not_comma s'). }
  destruct s as [|c s]; [apply Hp|]. unfold attr_value. destruct (c =? DQUOTE); [|apply Hp].
  pose proof (quoted_value_length s). cbn. lia.
Qed.

(** What is left after the separator and the spaces: less, when a comma or a space went,
    and otherwise something that is not a comma. *)
Lemma separator_progress c s :
  (length (snd (span is_space (skip_separator (c :: s)))) <= length s)%nat ∨
  (snd (span is_space (skip_separator (c :: s))) = c :: s ∧ not_comma c = true).
Proof.
  cbn [skip_separator]. unfold not_comma. destruct (c =? COMMA) eqn:Ec.
  - left. destruct s as [|d s]; [done|]. destruct (is_space d).
    + pose proof (span_length is_space s). cbn. lia.
    + apply span_length.
  - cbn. destruct (is_space c) eqn:Es; [left|by right]. pose proof (span_length is_space s).
    by destruct (span is_space s).
Qed.

Lemma parse_pairs_total {E} fuel : ∀ s, (length s <= fuel)%nat → ∃ l, parse_pairs (E := E) fuel s = Ok l.
Proof.
  induction fuel as [|fuel IH]; intros s Hf; [destruct s; [by eexists|cbn in Hf; lia]|].
  destruct s as [|c s]; [by eexists|]. cbn [parse_pairs]. cbn in Hf.
  pose proof (separator_progress c s) as Hprog. set (u := snd (span is_space _)) in *.
  destruct u as [|c1 s1] eqn:Es1; [by eexists|].
  destruct (span ascii_upper (c1 :: s1)) as [name t] eqn:Espan.
  destruct (span_spec ascii_upper (c1 :: s1)) as (Heq & _). rewrite Espan in Heq. cbn [fst snd] in Heq.
  assert (∃ l, parse_pairs (E := E) fuel (snd (span not_comma t)) = Ok l) as Hbad.
  { apply IH. pose proof (span_length not_comma t). pose proof (f_equal length Heq) as Hlen. rewrite length_app in Hlen.
    destruct Hprog as [Hp|[[= -> ->] Hc]]; [cbn in *; lia|]. destruct name as [|n name]; [|cbn in *; lia].
    cbn in Heq. subst t. cbn. rewrite Hc. pose proof (span_length not_comma s). destruct (span not_comma s). cbn in *. lia. }
  destruct name as [|n name]; [done|]. destruct t as [|e t]; [done|]. destruct (e =? EQUALS); [|done].
  pose proof (attr_value_length t) as Hv. destruct (attr_value t) as [v rest]. cbn in Hv.
  destruct (IH rest) as [l ->]; [|by eexists].
  apply (f_equal length) in Heq. cbn in Heq. rewrite length_app in Heq. cbn in Heq.
  destruct Hprog as [Hp|[[= -> ->] _]]; cbn in *; lia.
Qed.

(** ** Distinguished names: what they mean *)

Definition escape_quotes (v : chars) : chars := flat_map (λ c, if c =? DQUOTE then [DQUOTE; DQUOTE] else [c]) v.

(** The text of an attribute: its value as it stands, or in quotes with the quotes in it
    doubled. *)
Inductive attr_text : Attribute → chars → Prop :=
| attr_plain name value :
    name ≠ [] → Forall (λ c, ascii_upper c = true) name →
    Forall (λ c, not_comma c = true) value → head value ≠ Some DQUOTE → list.last value ≠ Some SPACE →
    attr_text (name, value) (name ++ EQUALS :: value)
| attr_quoted name value :
    name ≠ [] → Forall (λ c, ascii_upper c = true) name →
    attr_text (name, value) (name ++ EQUALS :: DQUOTE :: escape_quotes value ++ [DQUOTE]).

(** A distinguished name: attributes with commas between them, each with or without a space. *)
Inductive dn_text : list Attribute → chars → Prop :=
| dn_last x t : attr_text x t → dn_text [x] t
| dn_cons x t sep l rest :
    attr_text x t → sep = [COMMA] ∨ sep = [COMMA; SPACE] → dn_text l rest → dn_text (x :: l) (t ++ sep ++ rest).

Definition ends_pair (s : chars) : Prop := s = [] ∨ ∃ s', s = COMMA :: s'.

Lemma quoted_value_escape v s : ends_pair s → quoted_value (escape_quotes v ++ DQUOTE :: s) = (v, s).
Proof.
  intros Hs. unfold escape_quotes. induction v as [|c v IH]; cbn.
  - by destruct Hs as [->|[s' ->]].
  - destruct (Z.eqb_spec c DQUOTE) as [->|Hc]; cbn.
    + cbn in IH. by rewrite IH.
    + rewrite (proj2 (Z.eqb_neq _ _) Hc), IH. done.
Qed.

Lemma attr_value_text name value t s : attr_text (name, value) t → ends_pair s →
  ∃ u, t = name ++ EQUALS :: u ∧ name ≠ [] ∧ Forall (λ c, ascii_upper c = true) name ∧ attr_value (u ++ s) = (value, s).
Proof.
  intros Ht Hs. inversion Ht as [? ? Hn Hu Hv Hq Hl|? ? Hn Hu]; subst.
  - exists value. split; [done|]. split; [done|]. split; [done|].
    assert (attr_value (value ++ s) = plain_value (value ++ s)) as ->.
    { destruct value as [|c value]; cbn.
      - destruct Hs as [->|[s' ->]]; done.
      - rewrite (proj2 (Z.eqb_neq c DQUOTE)) by (intros ->; done). done. }
    unfold plain_value. rewrite span_app; [|done|by destruct Hs as [->|[s' ->]]].
    unfold ends_with_char. destruct (list.last value) as [d|]; [|done].
    rewrite (proj2 (Z.eqb_neq d SPACE)) by congruence. done.
  - exists (DQUOTE :: escape_quotes value ++ [DQUOTE]). split; [done|]. split; [done|]. split; [done|].
    cbn. rewrite <- app_assoc. by apply quoted_value_escape.
Qed.

Lemma upper_not c : ascii_upper c = true → is_space c = false ∧ (c =? COMMA) = false.
Proof. unfold ascii_upper, is_space, SPACE, COMMA. rewrite between_true. split; lia. Qed.

Lemma skip_to_name sep n s : ascii_upper n = true → sep = [] ∨ sep = [COMMA] ∨ sep = [COMMA; SPACE] →
  snd (span is_space (skip_separator (sep ++ n :: s))) = n :: s.
Proof. intros [Hs Hc]%upper_not Hsep.
  assert (skip_separator (sep ++ n :: s) = n :: s) as -> by (destruct Hsep as [->|[->| ->]]; cbn; by rewrite ?Hc, ?Hs).
  cbn. by rewrite Hs.
Qed.

Lemma parse_pairs_text {E} l t : dn_text l t → ∀ sep fuel,
  sep = [] ∨ sep = [COMMA] ∨ sep = [COMMA; SPACE] → (length (sep ++ t) <= fuel)%nat →
  parse_pairs (E := E) fuel (sep ++ t) = Ok l.
Proof.
  assert (∀ x t l s, attr_text x t → ends_pair s →
    (∀ fuel, (length s <= fuel)%nat → parse_pairs (E := E) fuel s = Ok l) →
    ∀ sep fuel, sep = [] ∨ sep = [COMMA] ∨ sep = [COMMA; SPACE] → (length (sep ++ t ++ s) <= fuel)%nat →
    parse_pairs (E := E) fuel (sep ++ t ++ s) = Ok (x :: l)) as Hone.
  { intros [name value] u l' s Hu Hs Hrest sep fuel Hsep Hf.
    destruct (attr_value_text name value u s Hu Hs) as (v & -> & Hn & Hup & Hval).
    destruct name as [|n name]; [done|]. rewrite <- app_assoc in *. cbn [app] in *.
    pose proof (skip_to_name sep n (name ++ EQUALS :: v ++ s) (proj1 (proj1 (Forall_cons_iff _ _ _) Hup)) Hsep) as Hskip.
    repeat rewrite length_app in Hf. cbn in Hf. repeat rewrite length_app in Hf. cbn in Hf. rewrite length_app in Hf.
    destruct fuel as [|fuel]; [lia|]. destruct (sep ++ n :: name ++ EQUALS :: v ++ s) as [|c0 s0] eqn:Es; [by destruct sep|].
    cbn [parse_pairs]. rewrite Hskip. change (n :: name ++ EQUALS :: v ++ s) with ((n :: name) ++ EQUALS :: v ++ s).
    rewrite span_app by done. rewrite Z.eqb_refl, Hval. rewrite Hrest by lia. done. }
  induction 1 as [x t Hx|x t sep' l rest Hx Hsep' _ IH]; intros sep fuel Hsep Hf.
  - rewrite <- (app_nil_r t). rewrite <- (app_nil_r t) in Hf. eapply Hone; [exact Hx|by left| |done|done]. by intros [].
  - eapply Hone; [done|destruct Hsep' as [->| ->]; right; by eexists| |done|done]. intros fuel' Hf'. apply IH; [|done]. by right.
Qed.

#[local] Instance attr_le_trans : Transitive attr_le.
Proof. intros x y z [->|?] [->|?]; [by left|by right|by right|right; by trans y]. Qed.

#[local] Instance attr_le_anti : AntiSymm (=) attr_le.
Proof. intros x y [->|Hxy] [Hyx|Hyx]; [done..|]. exfalso. apply (irreflexivity lexico x). by trans y. Qed.

#[local] Instance attr_le_total : Total attr_le.
Proof. intros x y. unfold attr_le. destruct (trichotomyT lexico x y) as [[?| ->]|?]; auto. Qed.

Lemma sort_attrs_eq l k : sort_attrs l = sort_attrs k ↔ l ≡ₚ k.
Proof.
  split; intros Hlk.
  - rewrite <- (merge_sort_Permutation attr_le l), <- (merge_sort_Permutation attr_le k). by fold (sort_attrs l) (sort_attrs k); rewrite Hlk.
  - apply (Sorted_unique attr_le); [apply (Sorted_merge_sort attr_le)..|].
    unfold sort_attrs. by rewrite !merge_sort_Permutation.
Qed.

(** The check of a distinguished name ends on every pair of texts, and on well-formed
    names, with values quoted or plain and commas with or without a space, it accepts
    exactly when the two have the same attributes with the same values, in any order and
    counting repetitions. *)
Theorem dn_check_exact :
  (∀ expected server, check_cert_dn expected server = Ok () ∨ check_cert_dn expected server = Err (CertDnMismatch expected)) ∧
  ∀ l expected k server, dn_text l expected → dn_text k server →
    (check_cert_dn expected server = Ok () ↔ l ≡ₚ k).
Proof.
  split.
  - intros e s. unfold check_cert_dn, parse_dn. destruct (parse_pairs_total (E := DnMatchError) _ e (le_n _)) as [l ->].
    destruct (parse_pairs_total (E := DnMatchError) _ s (le_n _)) as [k ->]. cbn. case_bool_decide; [by left|by right].
  - intros l e k s He Hs. unfold check_cert_dn, parse_dn.
    rewrite (parse_pairs_text l e He [] _ (or_introl eq_refl) (le_n _)), (parse_pairs_text k s Hs [] _ (or_introl eq_refl) (le_n _)).
    cbn. rewrite <- sort_attrs_eq. case_bool_decide; naive_solver.
Qed.

Lemma dn_check_exact_witness :
  (check_cert_dn (txt "CN=db, O=a b") ([79; 61; 34] ++ txt "a b" ++ [34] ++ txt ",CN=db") = Ok () ↔
   [(txt "CN", txt "db"); (txt "O", txt "a b")] ≡ₚ [(txt "O", txt "a b"); (txt "CN", txt "db")]) ∧
  check_cert_dn (txt "CN=db, O=a b") ([79; 61; 34] ++ txt "a b" ++ [34] ++ txt ",CN=db") = Ok ().
Proof.
  split; [|vm_compute; reflexivity]. apply (proj2 dn_check_exact).
  - apply (dn_cons _ (txt "CN=db") [COMMA; SPACE] _ (txt "O=a b")); [|by right|apply dn_last].
    + apply (attr_plain (txt "CN") (txt "db")); try discriminate; apply (bool_decide_unpack _); vm_compute; exact I.
    + apply (attr_plain (txt "O") (txt "a b")); try discriminate; apply (bool_decide_unpack _); vm_compute; exact I.
  - apply (dn_cons _ ([79; 61; 34] ++ txt "a b" ++ [34]) [COMMA] _ (txt "CN=db")); [|by left|apply dn_last].
    + apply (attr_quoted (txt "O") (txt "a b")); try discriminate; apply (bool_decide_unpack _); vm_compute; exact I.
    + apply (attr_plain (txt "CN") (txt "db")); try discriminate; apply (bool_decide_unpack _); vm_compute; exact I.
Defined.

(** ** Host names *)

Lemma starts_with_iff p s : starts_with p s = true ↔ p `prefix_of` s.
Proof.
  split; [intros [s' ->]%starts_with_prefix; by eexists|intros [s' ->]; apply starts_with_app].
Qed.

Lemma ends_with_iff p s : ends_with p s = true ↔ p `suffix_of` s.
Proof.
  unfold ends_with. rewrite starts_with_iff. split.
  - intros [k Hk]. exists (rev k). rewrite <- (rev_involutive s), Hk, rev_app_distr, rev_involutive. done.
  - intros [k ->]. exists (rev k). by rewrite rev_app_distr.
Qed.

Lemma find_char_some c s k : find_str [c] s = Some k → ∃ s', s = take k s ++ c :: s' ∧ c ∉ take k s ∧ (k < length s)%nat.
Proof.
  revert k. induction s as [|d s IH]; intros k; [done|]. cbn [find_str starts_with]. rewrite andb_true_r.
  destruct (Z.eqb_spec c d) as [->|Hcd]; cbn [andb].
  - intros [= <-]. exists s. split; [done|]. split; [apply not_elem_of_nil|cbn; lia].
  - intros (j & Hj & ->)%fmap_Some. destruct (IH j Hj) as (s' & Heq & Hnin & Hlen). exists s'. cbn. split; [by rewrite <- Heq|].
    split; [|lia]. rewrite not_elem_of_cons. done.
Qed.

Lemma find_char_app c l s : c ∉ l → find_str [c] (l ++ c :: s) = Some (length l).
Proof.
  induction l as [|d l IH]; cbn; [by rewrite Z.eqb_refl|]. rewrite not_elem_of_cons. intros [Hd Hl].
  rewrite (proj2 (Z.eqb_neq c d)) by done. cbn. by rewrite IH.
Qed.

Lemma find_char_none c s : find_str [c] s = None ↔ c ∉ s.
Proof.
  induction s as [|d s IH]; cbn; [split; [intros _; apply not_elem_of_nil|done]|]. rewrite andb_true_r, not_elem_of_cons.
  destruct (Z.eqb_spec c d) as [->|Hcd]; [split; [done|naive_solver]|]. rewrite fmap_None, IH. naive_solver.
Qed.

(** A label against a pattern with one star: the characters before it begin the label
    and those behind it end it. *)
Definition label_matches (pre post label : chars) : Prop := pre `prefix_of` label ∧ post `suffix_of` label.

(** The star of a pattern: the first, unless the pattern ends in one and begins with
    another character. *)
Definition star_split (pattern pre post : chars) : Prop :=
  pattern = pre ++ STAR :: post ∧
  (pre = [] ∨ (head pre ≠ Some STAR ∧ post = []) ∨ (STAR ∉ pre ∧ post ≠ [] ∧ list.last post ≠ Some STAR)).

Lemma strip_suffix_star s : strip_suffix [STAR] s =
  match list.last s with Some c => if c =? STAR then Some (removelast s) else None | None => None end.
Proof.
  unfold strip_suffix, ends_with. destruct s as [|c s _] using rev_ind; [done|].
  rewrite last_snoc, rev_app_distr, removelast_last. cbn [rev app starts_with length]. rewrite andb_true_r, (Z.eqb_sym STAR c).
  destruct (c =? STAR); [|done]. f_equal. rewrite length_app. cbn. rewrite take_app_le by lia. apply take_ge. lia.
Qed.

Lemma strip_prefix_star s : strip_prefix [STAR] s = match s with c :: s => if c =? STAR then Some s else None | [] => None end.
Proof. unfold strip_prefix. destruct s as [|c s]; [done|]. cbn [starts_with]. rewrite andb_true_r, (Z.eqb_sym STAR c). by destruct (c =? STAR). Qed.

Lemma star_in_middle pattern rest label :
  DOT ∉ label → head pattern ≠ Some STAR → list.last pattern ≠ Some STAR →
  match find_str [STAR] (pattern ++ DOT :: rest) with
  | None => false
  | Some w => starts_with (take w (pattern ++ DOT :: rest)) label &&
      ends_with (if (S w <=? length pattern)%nat then drop (S w) pattern else []) label
  end = true ↔ ∃ pre post, pattern = pre ++ STAR :: post ∧ STAR ∉ pre ∧ label_matches pre post label.
Proof.
  intros Hdot Hh Hl. destruct (find_str [STAR] pattern) as [w|] eqn:Ew.
  - destruct (find_char_some _ _ _ Ew) as (post & Hp & Hnin & Hlt). set (pre := take w pattern) in *.
    assert (length pre = w) as Hw by (unfold pre; rewrite length_take; lia).
    rewrite Hp. rewrite <- app_assoc. cbn [app]. rewrite find_char_app by done. rewrite take_app_length.
    replace (S (length pre) <=? length (pre ++ STAR :: post))%nat with true by (symmetry; apply Nat.leb_le; rewrite length_app; cbn; lia).
    replace (drop (S (length pre)) (pre ++ STAR :: post)) with post
      by (rewrite (app_assoc pre [STAR] post : pre ++ STAR :: post = _); rewrite drop_app_ge by (rewrite length_app; cbn; lia);
          rewrite length_app; cbn; by replace (S (length pre) - (length pre + 1))%nat with 0%nat by lia).
    rewrite andb_true_iff, starts_with_iff, ends_with_iff. split.
    + intros Hm. by exists pre, post.
    + intros (pre' & post' & Heq & Hnin' & Hm).
      apply (f_equal (find_str [STAR])) in Heq as Hlen. rewrite !find_char_app in Hlen by done. injection Hlen as Hlen.
      apply app_inj_1 in Heq as [-> [= ->]]; [done|done].
  - apply find_char_none in Ew. split.
    + destruct (find_str [STAR] (pattern ++ DOT :: rest)) as [w|] eqn:E2; [|done].
      rewrite andb_true_iff, starts_with_iff. intros [[k ->] _]. exfalso. apply Hdot. rewrite elem_of_app. left.
      destruct (find_char_some _ _ _ E2) as (s' & Hs & Hnin & Hlt).
      destruct (decide (w <= length pattern)%nat).
      * exfalso. assert ((pattern ++ DOT :: rest) !! w = Some STAR) as Hget.
        { rewrite Hs. rewrite lookup_app_r by (rewrite length_take; lia). rewrite length_take.
          by replace (w - w `min` _)%nat with 0%nat by lia. }
        destruct (decide (w = length pattern)) as [->|].
        { rewrite lookup_app_r, Nat.sub_diag in Hget by lia. done. }
        rewrite lookup_app_l in Hget by lia. apply Ew. by apply list_elem_of_lookup_2 in Hget.
      * rewrite take_app_ge by lia. rewrite elem_of_app. right. destruct (w - length pattern)%nat eqn:Ed; [lia|]. cbn. left.
    + intros (pre & post & -> & _). exfalso. apply Ew. rewrite elem_of_app. right. left.
Qed.

Lemma split_at_dot s k : find_str [DOT] s = Some k →
  ∃ label rest, s = label ++ DOT :: rest ∧ DOT ∉ label ∧ k = length label ∧ take k s = label ∧ drop k s = DOT :: rest.
Proof.
  intros (rest & Hs & Hn & Hl)%find_char_some. exists (take k s), rest. split; [done|]. split; [done|].
  rewrite length_take. split; [lia|]. split; [done|]. rewrite Hs at 1. rewrite drop_app_ge by (rewrite length_take; lia).
  rewrite length_take. by replace (k - k `min` length s)%nat with 0%nat by lia.
Qed.

Section NameChecks.
Context (to_lowercase : chars → chars).

(** The left-most labels, when the names differ. *)
Lemma name_matches_labels name cert label pattern rest rest' :
  to_lowercase name = label ++ DOT :: rest → to_lowercase cert = pattern ++ DOT :: rest' →
  DOT ∉ label → DOT ∉ pattern → to_lowercase name ≠ to_lowercase cert →
  name_matches to_lowercase name cert = true ↔
  label ≠ [] ∧ rest = rest' ∧ ∃ pre post, star_split pattern pre post ∧ label_matches pre post label.
Proof.
  intros Hn Hc Hl Hp Hne. unfold name_matches. rewrite bool_decide_eq_false_2 by done. rewrite Hn, Hc in *.
  rewrite !find_char_app by done. rewrite !take_app_length, !drop_app_length.
  destruct label as [|a label]; [by cbn; naive_solver|]. destruct pattern as [|b pattern].
  { cbn. split; [done|]. intros (_ & _ & pre & post & [Heq _] & _). by destruct pre. }
  cbn [length Nat.eqb orb]. destruct (decide (rest = rest')) as [->|Hr].
  2:{ rewrite bool_decide_eq_true_2 by congruence. naive_solver. }
  rewrite bool_decide_eq_false_2 by tauto. set (pat := b :: pattern) in *. set (lab := a :: label) in *.
  rewrite strip_prefix_star, strip_suffix_star. transitivity (∃ pre post, star_split pat pre post ∧ label_matches pre post lab); [|naive_solver].
  case_bool_decide as Hstar.
  { split; [|done]. intros _. exists [], []. rewrite Hstar. split; [split; [done|by left]|]. split; [apply prefix_nil|apply suffix_nil]. }
  unfold pat at 1. destruct (Z.eqb_spec b STAR) as [->|Hb].
  { rewrite ends_with_iff. split.
    - intros Hs. exists [], pattern. split; [split; [done|by left]|]. split; [apply prefix_nil|done].
    - intros (pre & post & [Heq Hcase] & Hpre & Hpost). destruct pre as [|x pre]; [by injection Heq as ->|].
      injection Heq as <- Heq. exfalso. destruct Hcase as [?|[[? _]|[Hnin _]]]; [done|done|]. apply Hnin. left. }
  destruct (list.last pat) as [c|] eqn:Elast; [|by apply last_None in Elast].
  destruct (Z.eqb_spec c STAR) as [->|Hcs].
  { apply last_Some in Elast as [pre Hpat]. rewrite Hpat, removelast_last, starts_with_iff. split.
    - intros Hs. exists pre, []. split; [|split; [done|apply suffix_nil]]. split; [done|]. right. left. split; [|done].
      destruct pre as [|x pre]; [done|]. injection Hpat as <- _. by intros [= ->].
    - intros (pre' & post & [Heq Hcase] & Hpre & Hpost). destruct post as [|y post _] using rev_ind.
      { apply app_inj_2 in Heq as [-> _]; done. }
      rewrite app_comm_cons, app_assoc in Heq. apply app_inj_2 in Heq as [Heq [= <-]]; [|done]. exfalso.
      destruct Hcase as [->|[[_ ?]|(_ & _ & Hlast)]]; [|by destruct post|by rewrite last_snoc in Hlast].
      rewrite Hpat, Heq in Hstar. unfold pat in Hpat. rewrite Heq in Hpat. by injection Hpat as ->. }
  pose proof (star_in_middle pat rest' lab Hl ltac:(cbn; congruence) ltac:(congruence)) as Hmid.
  etransitivity; [exact Hmid|]. split.
  - intros (pre & post & Heq & Hnin & Hm). exists pre, post. split; [|done]. split; [done|]. right. right. split; [done|].
    assert (post ≠ []) as Hpost by (intros ->; rewrite Heq, last_snoc in Elast; congruence). split; [done|].
    intros Hlast. rewrite Heq in Elast. apply last_Some in Hlast as [p' ->].
    rewrite app_comm_cons, app_assoc, last_snoc in Elast. congruence.
  - intros (pre & post & [Heq Hcase] & Hm). exists pre, post. split; [done|]. split; [|done].
    destruct Hcase as [->|[[_ ->]|(? & _)]]; [apply not_elem_of_nil| |done].
    rewrite Heq, last_snoc in Elast. congruence.
Qed.

(** C38: A server name is accepted exactly when a name of the certificate is the same up to
    case, or has the same labels behind the first dot and a left-most label with a star
    whose text before the star begins the left-most label of the host and whose text
    behind it ends it.  A star stands for part of one label: it never matches across a
    dot, in another label or for a name of one label, and nothing else is accepted. *)
Theorem server_name_exact expected san common :
  (check_server_name to_lowercase expected san common = Ok () ↔
   ∃ cert, cert ∈ san ++ common ∧
     let n := to_lowercase expected in
     let c := to_lowercase cert in
     n = c ∨
     ∃ label pattern rest pre post,
       n = label ++ DOT :: rest ∧ c = pattern ++ DOT :: rest ∧ label ≠ [] ∧ DOT ∉ label ∧ DOT ∉ pattern ∧
       star_split pattern pre post ∧ label_matches pre post label) ∧
  (check_server_name to_lowercase expected san common = Ok () ∨
   check_server_name to_lowercase expected san common = Err (NameMismatch expected)).
Proof.
  assert (∀ cert, name_matches to_lowercase expected cert = true ↔
    let n := to_lowercase expected in let c := to_lowercase cert in
    n = c ∨ ∃ label pattern rest pre post,
       n = label ++ DOT :: rest ∧ c = pattern ++ DOT :: rest ∧ label ≠ [] ∧ DOT ∉ label ∧ DOT ∉ pattern ∧
       star_split pattern pre post ∧ label_matches pre post label) as Hmatch.
  { intros cert. cbv zeta. destruct (decide (to_lowercase expected = to_lowercase cert)) as [He|Hne].
    { unfold name_matches. rewrite bool_decide_eq_true_2 by done. naive_solver. }
    split.
    - intros Hm. right. pose proof Hm as Hm'. unfold name_matches in Hm'. rewrite bool_decide_eq_false_2 in Hm' by done.
      destruct (find_str [DOT] (to_lowercase expected)) as [i|] eqn:Ei; [|done].
      destruct (find_str [DOT] (to_lowercase cert)) as [j|] eqn:Ej; [|done]. clear Hm'.
      destruct (split_at_dot _ _ Ei) as (label & rest & Hn & Hl & _). destruct (split_at_dot _ _ Ej) as (pattern & rest' & Hc & Hp & _).
      apply (name_matches_labels _ _ _ _ _ _ Hn Hc Hl Hp Hne) in Hm as (? & <- & pre & post & ? & ?).
      by exists label, pattern, rest, pre, post.
    - intros [?|(label & pattern & rest & pre & post & Hn & Hc & ? & Hl & Hp & ? & ?)]; [done|].
      apply (name_matches_labels _ _ _ _ _ _ Hn Hc Hl Hp Hne). split; [done|]. split; [done|]. by exists pre, post. }
  assert (check_server_name to_lowercase expected san common =
    if existsb (name_matches to_lowercase expected) san || existsb (name_matches to_lowercase expected) common then Ok () else Err (NameMismatch expected)) as ->
    by (unfold check_server_name; by destruct (existsb _ san)).
  split.
  - setoid_rewrite <- Hmatch. rewrite <- existsb_app.
    destruct (existsb _ (san ++ common)) eqn:Ee.
    + apply existsb_exists in Ee as (cert & Hin & Hm). split; [|done]. intros _. exists cert. by rewrite list_elem_of_In.
    + split; [done|]. intros (cert & Hin & Hm). apply not_true_iff_false in Ee as []. apply existsb_exists. exists cert. by rewrite <- list_elem_of_In.
  - destruct (_ || _); [by left|by right].
Qed.
End NameChecks.

(** The star may stand for less than nothing: the parts before and behind it may overlap
    in the label.  Attributes count with their repetitions, and a pair whose name is not
    in capitals is not an attribute at all. *)
Example name_check_leniency :
  check_server_name to_ascii_lowercase (txt "aba.example.com") [txt "ab*ba.example.com"] [] = Ok () ∧
  check_cert_dn (txt "CN=x,CN=x") (txt "CN=x") = Err (CertDnMismatch (txt "CN=x,CN=x")) ∧
  check_cert_dn (txt "CN=x,uid=1") (txt "CN=x,uid=2") = Ok ().
Proof. vm_compute. done. Qed.

(** ** The name of the handshake *)

Definition dec_value (l : chars) : Z := foldl (λ a d, a * 10 + (d - 48)) 0 l.

Lemma dec_value_snoc l d : dec_value (l ++ [d]) = dec_value l * 10 + (d - 48).
Proof. unfold dec_value. by rewrite foldl_app. Qed.

Lemma dec_digits_app fuel : ∀ z acc, dec_digits fuel z acc = dec_digits fuel z [] ++ acc.
Proof.
  induction fuel as [|fuel IH]; intros z acc; [done|]. cbn [dec_digits]. destruct (z <? 10); [done|].
  rewrite IH, (IH _ [_]), <- app_assoc. done.
Qed.

Lemma dec_digits_value fuel : ∀ z, 0 <= z < 10 ^ Z.of_nat fuel → dec_value (dec_digits fuel z []) = z ∧
  Forall (λ d, 48 <= d <= 57) (dec_digits fuel z []).
Proof.
  induction fuel as [|fuel IH]; intros z Hz; [cbn in Hz; split; [cbn; lia|constructor]|]. cbn [dec_digits].
  destruct (Z.ltb_spec z 10).
  - split; [unfold dec_value; cbn; lia|]. apply Forall_singleton. lia.
  - assert (0 <= z / 10 < 10 ^ Z.of_nat fuel) as Hq.
    { rewrite Nat2Z.inj_succ, Z.pow_succ_r in Hz by lia. split; [apply Z.div_pos; lia|]. apply Z.div_lt_upper_bound; lia. }
    destruct (IH _ Hq) as [Hv Hd]. rewrite dec_digits_app, dec_value_snoc, Hv. pose proof (Z.mod_pos_bound z 10 ltac:(lia)).
    pose proof (Z_div_mod_eq_full z 10). split; [lia|]. apply Forall_app. split; [done|]. apply Forall_singleton. lia.
Qed.

Lemma decimal_digits n : 0 <= n <= U64_MAX → dec_value (decimal n) = n ∧ DOT ∉ decimal n.
Proof.
  intros Hn. destruct (dec_digits_value 20 n) as [Hv Hd]; [split; [lia|]; apply Z.le_lt_trans with U64_MAX; [lia|]; vm_compute; reflexivity|].
  split; [exact Hv|]. intros Hin%list_elem_of_In. rewrite Forall_forall in Hd. specialize (Hd _ Hin). unfold DOT in Hd. lia.
Qed.

Lemma type_part_head (type : option bytes) :
  match type with
  | Some st => match utf8_chars st with first :: _ => txt ".T1." ++ first | [] => [] end
  | None => []
  end = match head (utf8_chars (default [] type)) with Some first => txt ".T1." ++ first | None => [] end.
Proof. destruct type as [t|]; [|reflexivity]. unfold default, id. destruct (utf8_chars t); reflexivity. Qed.

(** The name sent in the handshake determines the service and the kind of server asked
    for: two requests have the same name exactly when their service names are equal and
    their server types begin with the same character, whatever the names contain. *)
Theorem sni_injective service type service' type' :
  Zlen service <= U64_MAX → Zlen service' <= U64_MAX →
  build_sni service type = build_sni service' type' ↔
  service = service' ∧ head (utf8_chars (default [] type)) = head (utf8_chars (default [] type')).
Proof.
  intros Hs Hs'. pose proof (Zlen_nonneg service). pose proof (Zlen_nonneg service'). unfold build_sni. rewrite !type_part_head.
  cbv zeta. set (h := head (utf8_chars (default [] type))). set (h' := head (utf8_chars (default [] type'))).
  split; [|by intros [-> ->]]. intros Heq. injection Heq as Heq.
  destruct (decimal_digits (Zlen service) ltac:(lia)) as [Hv Hd]. destruct (decimal_digits (Zlen service') ltac:(lia)) as [Hv' Hd'].
  assert (decimal (Zlen service) = decimal (Zlen service')) as Hlen.
  { apply (f_equal (find_str [DOT])) in Heq as Hf. cbn [txt app] in Hf. rewrite !find_char_app in Hf by done. injection Hf as Hf.
    by apply app_inj_1 in Heq as [? _]. }
  rewrite Hlen in Heq. apply app_inv_head in Heq. injection Heq as Heq.
  assert (Zlen service = Zlen service') as Hl by congruence.
  apply app_inj_1 in Heq as [-> Heq]; [|unfold Zlen in Hl; lia]. split; [done|].
  apply app_inv_tail in Heq. destruct h, h'; by simplify_eq/=.
Qed.

Lemma sni_injective_witness :
  build_sni (txt "a.b") (Some (txt "dedicated")) = build_sni (txt "a.b") (Some (txt "drcp")) ↔
  txt "a.b" = txt "a.b" ∧ head (utf8_chars (txt "dedicated")) = head (utf8_chars (txt "drcp")).
Proof. apply (sni_injective (txt "a.b") (Some (txt "dedicated")) (txt "a.b") (Some (txt "drcp"))); vm_compute; discriminate. Defined.
