(* ===== verification/ObjectImage.v ===== *)
(** * Object images ([thin/dbobject.rs], [decode_object] of [oracledb/src/lib.rs])

    The pickled form of object and collection values: the reader of a packed image, the
    functions that build one, the scalars in it, the frame in which an image is bound,
    and the decoder of whole values by their type's description. *)

From S2P Require Import Prelude.
From S2P Require Import Protocol.
From S2P Require Import Limits.
From S2P Require Import Writer.
From S2P Require Import Reader.
From S2P Require Import Datetime.
From S2P Require Import Number.
From S2P Require Import Sql.
From S2P Require Import Binds.
From S2P Require Import Utf.
From S2P Require Import Fetch.
From S2P Require Import LobText.

Definition TNS_OBJ_TOP_LEVEL : Z := 1.
Definition TNS_OBJ_ATOMIC_NULL : Z := 253.
Definition TNS_OBJ_IS_DEGENERATE : Z := 16.
Definition TNS_OBJ_NO_PREFIX_SEG : Z := 4.
Definition TNS_OBJ_IS_VERSION_81 : Z := 128.
Definition TNS_OBJ_IS_COLLECTION : Z := 8.
Definition TNS_OBJ_IMAGE_VERSION : Z := 1.
Definition TNS_OBJ_NON_NULL_OID : Z := 2.
Definition TNS_OBJ_HAS_EXTENT_OID : Z := 8.
Definition TNS_OBJ_HAS_INDEXES : Z := 16.
Definition TNS_OBJ_MAX_SHORT_LENGTH : Z := 245.
Definition TNS_EXTENT_OID : bytes := [0; 0; 0; 0; 0; 0; 0; 0; 0; 0; 0; 0; 0; 0; 1; 1].
Definition TNS_XML_TYPE_LOB : Z := 1.
Definition TNS_XML_TYPE_STRING : Z := 4.
Definition TNS_XML_TYPE_FLAG_SKIP_NEXT_4 : Z := 1048576.

(** ** The reader *)

Record DbObjectPackedReader := mkPacked {
  pr_bytes : bytes;
  pr_pos : Z;
  pr_limits : ProtocolLimits
}.

Definition pr_set_pos (p : Z) (r : DbObjectPackedReader) : DbObjectPackedReader := mkPacked (pr_bytes r) p (pr_limits r).

Abbreviation PackedM := (ST ProtocolError DbObjectPackedReader).

Definition packed_new (b : bytes) : DbObjectPackedReader := mkPacked b 0 limits_DEFAULT.
Definition packed_with_limits (b : bytes) (l : ProtocolLimits) : Res DbObjectPackedReader :=
  l ← validate l; Ok (mkPacked b 0 l).

Definition bytes_left (r : DbObjectPackedReader) : Z := sat_sub (Zlen (pr_bytes r)) (pr_pos r).

#[global] Instance packed_bounded_reader : BoundedReader DbObjectPackedReader := {
  remaining_of := bytes_left;
  protocol_limits := pr_limits
}.

Definition truncated : ProtocolError := TtcDecode "truncated DbObject packed data".

Definition packed_read_u8 : PackedM Z :=
  b ← gets pr_bytes;
  p ← gets pr_pos;
  value ← lift (ok_or (slice_nth b p) truncated);
  p' ← lift (arith 0 USIZE_MAX (p + 1));
  _ ← modify (pr_set_pos p');
  mret value.

Definition packed_read_raw (len : Z) : PackedM bytes :=
  l ← gets pr_limits;
  _ ← lift (check_response_bytes l len);
  p ← gets pr_pos;
  end_ ← lift (ok_or (try_range 0 USIZE_MAX (p + len)) (TtcDecode "DbObject packed data offset overflow"));
  b ← gets pr_bytes;
  out ← lift (ok_or (slice_get b p end_) truncated);
  _ ← modify (pr_set_pos end_);
  mret out.

Definition packed_skip (len : Z) : PackedM () := _ ← packed_read_raw len; mret ().

Definition packed_read_u32be : PackedM Z :=
  b ← packed_read_raw 4;
  a ← lift (to_array 4 b (TtcDecode "invalid DbObject u32"));
  mret (from_be_bytes a).

Definition packed_read_i32be : PackedM Z :=
  b ← packed_read_raw 4;
  a ← lift (to_array 4 b (TtcDecode "invalid DbObject i32"));
  mret (as_i 32 (from_be_bytes a)).

Definition packed_read_length : PackedM Z :=
  length ← packed_read_u8;
  if length =? TNS_LONG_LENGTH_INDICATOR then packed_read_u32be else mret length.

Definition skip_length : PackedM () :=
  length ← packed_read_u8;
  if length =? TNS_LONG_LENGTH_INDICATOR then packed_skip 4 else mret ().

Definition read_value_bytes : PackedM (option bytes) :=
  length ← packed_read_u8;
  if length =? TNS_NULL_LENGTH_INDICATOR then mret None
  else
    length ← (if length =? TNS_LONG_LENGTH_INDICATOR then packed_read_u32be else mret length);
    b ← packed_read_raw length;
    mret (Some b).

Definition read_header : PackedM () :=
  flags ← packed_read_u8;
  _ ← packed_read_u8;
  _ ← skip_length;
  if negb (Z.land flags TNS_OBJ_IS_DEGENERATE =? 0) then throw (UnsupportedFeature "DbObject stored in a LOB")
  else if Z.land flags TNS_OBJ_NO_PREFIX_SEG =? 0
  then prefix_len ← packed_read_length; packed_skip prefix_len
  else mret ().

Definition read_atomic_null (is_collection_context : bool) : PackedM bool :=
  value ← packed_read_u8;
  if (value =? TNS_OBJ_ATOMIC_NULL) || ((value =? TNS_NULL_LENGTH_INDICATOR) && is_collection_context) then mret true
  else
    p ← gets pr_pos;
    _ ← modify (pr_set_pos (sat_sub p 1));
    mret false.

(** ** Building an image *)

Definition too_long (length : Z) : ProtocolError := InvalidPacketLength length 0.

Definition image_write_value_bytes (value : bytes) : ST ProtocolError bytes () :=
  if Zlen value <=? TNS_OBJ_MAX_SHORT_LENGTH then modify (λ buf, buf ++ [as_u 8 (Zlen value)] ++ value)
  else
    length ← lift (ok_or (try_range 0 U32_MAX (Zlen value)) (too_long (Zlen value)));
    modify (λ buf, buf ++ [TNS_LONG_LENGTH_INDICATOR] ++ to_be_bytes 4 length ++ value).

Definition image_write_length (length : Z) : ST ProtocolError bytes () :=
  if length <=? TNS_OBJ_MAX_SHORT_LENGTH then modify (λ buf, buf ++ [as_u 8 length])
  else
    _ ← modify (λ buf, buf ++ [TNS_LONG_LENGTH_INDICATOR]);
    l ← lift (ok_or (try_range 0 U32_MAX length) (too_long length));
    modify (λ buf, buf ++ to_be_bytes 4 l).

Definition image_begin (is_collection : bool) : bytes :=
  let image_flags := Z.lor TNS_OBJ_IS_VERSION_81 (if is_collection then TNS_OBJ_IS_COLLECTION else TNS_OBJ_NO_PREFIX_SEG) in
  [image_flags; TNS_OBJ_IMAGE_VERSION; TNS_LONG_LENGTH_INDICATOR] ++ to_be_bytes 4 0 ++
  (if is_collection then [1; 1] else []).

Definition image_finalize : ST ProtocolError bytes () :=
  buf ← gets (λ b : bytes, b);
  size ← lift (ok_or (try_range 0 U32_MAX (Zlen buf)) (too_long (Zlen buf)));
  _ ← lift (ok_or (slice_get buf 3 7) (TtcDecode "DbObject image too short to finalize"));
  modify (λ buf, take 3 buf ++ to_be_bytes 4 size ++ drop 7 buf).

Definition collection_flags_for (is_assoc_array : bool) : Z := if is_assoc_array then TNS_OBJ_HAS_INDEXES else 0.

Definition image_write_null (atomic_null : bool) (buf : bytes) : bytes :=
  buf ++ [if atomic_null then TNS_OBJ_ATOMIC_NULL else TNS_NULL_LENGTH_INDICATOR].

(** [str::parse::<i64>] *)
Fixpoint i64_digits (s : bytes) (acc : Z) : option Z :=
  match s with
  | [] => Some acc
  | c :: s => if between 48 57 c then i64_digits s (acc * 10 + (c - 48)) else None
  end.

Definition parse_i64 (s : bytes) : option Z :=
  match s with
  | [] => None
  | c :: rest =>
      let '(negative, digits) := if c =? 45 then (true, rest) else if c =? 43 then (false, rest) else (false, s) in
      if bool_decide (digits = []) then None
      else
        v ← i64_digits digits 0;
        try_range I64_MIN I64_MAX (if negative : bool then - v else v)
  end.

Definition parse_binary_integer_u32 (text : bytes) : Res Z :=
  parsed ← ok_or (parse_i64 (str_trim text)) (TtcDecode "invalid BINARY_INTEGER value");
  Ok (as_u 32 parsed).

Definition encode_text_value (value : bytes) (csfrm : Z) : bytes :=
  if csfrm =? CS_FORM_NCHAR then flat_map (to_be_bytes 2) (encode_utf16 value) else value.

(** [x as f32] of an [f64], on bit patterns: round to nearest, ties to even. *)
Definition f32_narrow (bits : Z) : Z :=
  let s := Z.shiftl (Z.shiftr bits 63) 31 in
  let e := Z.land (Z.shiftr bits 52) 2047 in
  let m := Z.land bits (2 ^ 52 - 1) in
  if e =? 2047 then
    if m =? 0 then s + Z.shiftl 255 23 else s + Z.lor (Z.shiftl 511 22) (Z.shiftr m 29)
  else
    let sig := if e =? 0 then m else 2 ^ 52 + m in
    let e' := Z.max (Z.max e 1 - 896) 1 in
    let shift := e' - (Z.max e 1 - 896) + 29 in
    let q := Z.shiftr sig shift in
    let r := sig - Z.shiftl q shift in
    let half := 2 ^ (shift - 1) in
    let q := if (half <? r) || ((half =? r) && Z.odd q) then q + 1 else q in
    s + Z.min (Z.shiftl (e' - 1) 23 + q) (Z.shiftl 255 23).

(** [microseconds.checked_mul(1000)] of an interval. *)
Definition interval_nanoseconds (microseconds : Z) : Res Z :=
  ok_or (try_range I32_MIN I32_MAX (microseconds * 1000)) (TtcDecode "INTERVAL DS fractional seconds out of range").

Definition timestamp_bytes (ora_type_num year month day hour minute second nanosecond : Z) : Res bytes :=
  if ora_type_num =? ORA_TYPE_NUM_TIMESTAMP_TZ
  then encode_oracle_timestamp_tz year month day hour minute second nanosecond
  else encode_oracle_timestamp year month day hour minute second nanosecond.

Definition write_encoded (r : Res bytes) : ST ProtocolError bytes () := b ← lift r; image_write_value_bytes b.

Definition pack_bindvalue_into_image (value : BindValue) (csfrm : Z) : ST ProtocolError bytes () :=
  match value with
  | BText text => image_write_value_bytes (encode_text_value (as_bytes text) csfrm)
  | BRaw b => image_write_value_bytes b
  | BNumber text => write_encoded (encode_number_text (as_bytes text))
  | BBinaryInteger text =>
      v ← lift (parse_binary_integer_u32 (as_bytes text));
      modify (λ buf, buf ++ [4] ++ to_be_bytes 4 v)
  | BBoolean v => modify (λ buf, buf ++ [4] ++ to_be_bytes 4 (Z.b2z v))
  | BBinaryDouble bits => image_write_value_bytes (encode_binary_double bits)
  | BBinaryFloat bits => image_write_value_bytes (encode_binary_float (f32_narrow bits))
  | BDateTime year month day hour minute second =>
      write_encoded (encode_oracle_date year month day hour minute second)
  | BTimestamp t year month day hour minute second nanosecond =>
      write_encoded (timestamp_bytes t year month day hour minute second nanosecond)
  | BTimestampTz year month day hour minute second nanosecond offset_minutes =>
      write_encoded (encode_oracle_timestamp_tz_with_offset year month day hour minute second nanosecond offset_minutes)
  | BLob _ _ locator => image_write_value_bytes locator
  | BIntervalDS days seconds microseconds =>
      write_encoded (nanoseconds ← interval_nanoseconds microseconds; encode_interval_ds days seconds nanoseconds)
  | BIntervalYM years months => write_encoded (encode_interval_ym years months)
  | BNull => modify (image_write_null false)
  | _ => throw (UnsupportedFeature "DbObject attribute type not supported for input binding")
  end.

Definition write_dbobject_bind (oid image : bytes) : WriterM () :=
  let toid := [0; 34; TNS_OBJ_NON_NULL_OID; TNS_OBJ_HAS_EXTENT_OID] ++ oid ++ TNS_EXTENT_OID in
  _ ← write_bytes_with_two_lengths (Some toid);
  _ ← write_bytes_with_two_lengths (Some oid);
  _ ← modify (write_ub4 0);
  _ ← modify (write_ub4 0);
  len ← lift (ok_or (try_range 0 U32_MAX (Zlen image)) (too_long (Zlen image)));
  _ ← modify (write_ub4 len);
  _ ← modify (write_ub4 TNS_OBJ_TOP_LEVEL);
  write_bytes_with_length image.

(** ** Scalars *)

Definition decode_dbobject_text (b : bytes) (dbtype_name : chars) : Res bytes :=
  if bool_decide (dbtype_name = txt "DB_TYPE_NCHAR") || bool_decide (dbtype_name = txt "DB_TYPE_NVARCHAR") then
    if negb (Zlen b mod 2 =? 0) then Err (TtcDecode "invalid DbObject UTF-16 text")
    else ok_or (from_utf16 (be_units b)) (TtcDecode "invalid DbObject UTF-16 text")
  else if utf8_valid b then Ok b else Err (TtcDecode "invalid DbObject UTF-8 text").

Definition decode_xmltype : PackedM (option bytes) :=
  _ ← read_header;
  _ ← packed_skip 1;
  xml_flag ← packed_read_u32be;
  _ ← (if negb (Z.land xml_flag TNS_XML_TYPE_FLAG_SKIP_NEXT_4 =? 0) then packed_skip 4 else mret ());
  left ← gets bytes_left;
  b ← packed_read_raw left;
  if negb (Z.land xml_flag TNS_XML_TYPE_STRING =? 0)
  then t ← lift (decode_dbobject_text b (txt "DB_TYPE_VARCHAR")); mret (Some t)
  else if negb (Z.land xml_flag TNS_XML_TYPE_LOB =? 0) then mret None
  else throw (TtcDecode "unexpected XMLTYPE flag").

Definition decode_dbobject_xmltype_text (b : bytes) : Res (option bytes) := fst (decode_xmltype (packed_new b)).

(** A candidate for the directory's length in a BFILE locator: [None] goes on with the
    next position. *)
Definition bfile_at (locator : bytes) (p : Z) : Res (option (option (bytes * bytes))) :=
  d0 ← index locator p;
  d1 ← index locator (p + 1);
  let dir_len := from_be_bytes [d0; d1] in
  if dir_len =? 0 then Ok None
  else
    let dir_start := p + 2 in
    match try_range 0 USIZE_MAX (dir_start + dir_len) with
    | None => Ok (Some None)
    | Some dir_end =>
        match try_range 0 USIZE_MAX (dir_end + 2) with
        | None => Ok (Some None)
        | Some file_len_end =>
            if Zlen locator <? file_len_end then Ok None
            else
              f0 ← index locator dir_end;
              f1 ← index locator (dir_end + 1);
              let file_len := from_be_bytes [f0; f1] in
              if file_len =? 0 then Ok None
              else
                match try_range 0 USIZE_MAX (file_len_end + file_len) with
                | None => Ok (Some None)
                | Some file_end =>
                    if negb (file_end =? Zlen locator) then Ok None
                    else
                      dir ← or_panic (slice_get locator dir_start dir_end);
                      file ← or_panic (slice_get locator file_len_end file_end);
                      Ok (Some (if utf8_valid dir && utf8_valid file then Some (dir, file) else None))
                end
        end
    end.

Fixpoint bfile_scan (locator : bytes) (n : nat) (p : Z) : Res (option (bytes * bytes)) :=
  match n with
  | O => Ok None
  | S n =>
      o ← bfile_at locator p;
      match o with
      | Some r => Ok r
      | None => bfile_scan locator n (p + 1)
      end
  end.

Definition decode_bfile_locator_name (locator : bytes) : Res (option (bytes * bytes)) :=
  bfile_scan locator (Z.to_nat (sat_sub (Zlen locator) 4)) 0.

Definition decode_dbobject_binary_float (b : bytes) : Res Z :=
  a ← to_array 4 b (TtcDecode "invalid DbObject BINARY_FLOAT"); Ok (from_be_bytes (order_decode a)).
Definition decode_dbobject_binary_double (b : bytes) : Res Z :=
  a ← to_array 8 b (TtcDecode "invalid DbObject BINARY_DOUBLE"); Ok (from_be_bytes (order_decode a)).

(** ** Whole values *)

Record ObjectAttribute := mkAttribute { at_name : bytes; at_type_name : bytes; at_type_owner : option bytes }.
Record CollectionElement := mkElement { el_type_name : bytes; el_type_owner : option bytes }.
Record ObjectType := mkObjectType {
  ot_schema : bytes;
  ot_name : bytes;
  ot_attributes : list ObjectAttribute;
  ot_element : option CollectionElement
}.

Record DecodedObject := mkDecoded {
  do_type_schema : bytes;
  do_type_name : bytes;
  do_attributes : list (bytes * option FetchValue);
  do_elements : option (list (option FetchValue))
}.

Definition one_of (names : list string) (s : bytes) : bool := existsb (λ n, bool_decide (s = txt n)) names.

Definition decode_object_scalar (type_name b : bytes) : Res FetchValue :=
  if starts_with (txt "TIMESTAMP") type_name then v ← decode_datetime_value b; Ok (VTemporal v)
  else if one_of ["VARCHAR2"; "VARCHAR"; "CHAR"]%string type_name
  then t ← decode_dbobject_text b (txt "DB_TYPE_VARCHAR"); Ok (VText t)
  else if one_of ["NVARCHAR2"; "NCHAR"]%string type_name
  then t ← decode_dbobject_text b (txt "DB_TYPE_NCHAR"); Ok (VText t)
  else if one_of ["NUMBER"; "FLOAT"; "INTEGER"]%string type_name
  then v ← decode_number_value b; Ok (VNumber v)
  else if one_of ["DATE"]%string type_name then v ← decode_datetime_value b; Ok (VTemporal v)
  else if one_of ["RAW"]%string type_name then Ok (VRaw b)
  else Err (UnsupportedFeature "object attribute/element type is not decodable yet").

(** One value, or its null marker. *)
Definition decode_value (type_name : bytes) : PackedM (option FetchValue) :=
  o ← read_value_bytes;
  match o with
  | None => mret None
  | Some b => v ← lift (decode_object_scalar type_name b); mret (Some v)
  end.

Fixpoint decode_elements (type_name : bytes) (n : nat) : PackedM (list (option FetchValue)) :=
  match n with
  | O => mret []
  | S n => v ← decode_value type_name; rest ← decode_elements type_name n; mret (v :: rest)
  end.

Fixpoint decode_attributes (attributes : list ObjectAttribute) : PackedM (list (bytes * option FetchValue)) :=
  match attributes with
  | [] => mret []
  | attr :: attributes =>
      if bool_decide (at_type_owner attr = None) then
        v ← decode_value (at_type_name attr);
        rest ← decode_attributes attributes;
        mret ((at_name attr, v) :: rest)
      else throw (UnsupportedFeature "nested object/collection attribute is not decodable yet")
  end.

Definition decode_collection (ty : ObjectType) (elem : CollectionElement) : PackedM DecodedObject :=
  if bool_decide (el_type_owner elem = None) then
    _ ← packed_read_u8;
    num_elements ← packed_read_length;
    l ← gets pr_limits;
    _ ← lift (check_object_elements l num_elements);
    _ ← (λ r, (with_capacity_limited r num_elements 1 check_object_elements, r));
    elements ← decode_elements (el_type_name elem) (Z.to_nat num_elements);
    mret (mkDecoded (ot_schema ty) (ot_name ty) [] (Some elements))
  else throw (UnsupportedFeature "collection of nested object/collection elements is not decodable yet").

Definition decode_object_from (ty : ObjectType) : PackedM DecodedObject :=
  l ← gets pr_limits;
  b ← gets pr_bytes;
  _ ← lift (check_response_bytes l (Zlen b));
  _ ← read_header;
  match ot_element ty with
  | Some elem => decode_collection ty elem
  | None =>
      attributes ← decode_attributes (ot_attributes ty);
      mret (mkDecoded (ot_schema ty) (ot_name ty) attributes None)
  end.

Definition decode_object (packed_data : bytes) (ty : ObjectType) : Res DecodedObject :=
  fst (decode_object_from ty (packed_new packed_data)).
