(* ===== verification/ObjectRoundtrip.v ===== *)
(** * Object images: round trip and hostile images

    An image is built from values and decoded by the description of its type; a bound
    image is framed and read back; every image, honest or not, is decoded to a value or
    an error. *)

From S2P Require Import Prelude.
From S2P Require Import Protocol.
From S2P Require Import Limits.
From S2P Require Import Writer.
From S2P Require Import Reader.
From S2P Require Import Wire.
From S2P Require Import Datetime.
From S2P Require Import Number.
From S2P Require Import NumberWire.
From S2P Require Import NumberText.
From S2P Require Import Sql.
From S2P Require Import Binds.
From S2P Require Import OsonSafety.
From S2P Require Import Utf.
From S2P Require Import ShapeCache.
From S2P Require Import Fetch.
From S2P Require Import LobText.
From S2P Require Import ObjectImage.

(** ** Reading what stands in an image *)

(** The cursor between [pre], already read, and [rest]. *)
Definition pk (lim : ProtocolLimits) (pre rest : bytes) : DbObjectPackedReader := mkPacked (pre ++ rest) (Zlen pre) lim.

(** [m] reads [enc] as [v] wherever it stands in an image within the limit. *)
Definition unpacks {A} (lim : ProtocolLimits) (m : PackedM A) (enc : bytes) (v : A) : Prop :=
  ∀ pre rest, Zlen (pre ++ enc ++ rest) <= Z.min (max_response_bytes lim) I64_MAX →
    m (pk lim pre (enc ++ rest)) = (Ok v, pk lim (pre ++ enc) rest).

Lemma pk_set_pos lim pre enc rest :
  pr_set_pos (Zlen pre + Zlen enc) (pk lim pre (enc ++ rest)) = pk lim (pre ++ enc) rest.
Proof. unfold pr_set_pos, pk. cbn. by rewrite <- app_assoc, Zlen_app. Qed.

Section Unpacks.
Context (lim : ProtocolLimits).

Lemma unpacks_ret {A} (v : A) : unpacks lim (mret v) [] v.
Proof. intros pre rest _. cbn. by rewrite app_nil_r. Qed.

Lemma unpacks_bind {A B} (m : PackedM A) (f : A → PackedM B) e1 e2 a b :
  unpacks lim m e1 a → unpacks lim (f a) e2 b → unpacks lim (m ≫= f) (e1 ++ e2) b.
Proof.
  intros Hm Hf pre rest Hlen. rewrite <- !app_assoc in *. st_run. rewrite Hm by done.
  rewrite Hf by (by rewrite <- app_assoc). by rewrite <- app_assoc.
Qed.

Lemma unpacks_bind_nil {A B} (m : PackedM A) (f : A → PackedM B) e a b :
  unpacks lim m [] a → unpacks lim (f a) e b → unpacks lim (m ≫= f) e b.
Proof. intros Hm Hf. by apply (unpacks_bind m f [] e a b). Qed.

Lemma unpacks_last {A B} (m : PackedM A) (f : A → PackedM B) e a b :
  unpacks lim m e a → unpacks lim (f a) [] b → unpacks lim (m ≫= f) e b.
Proof. intros Hm Hf. rewrite <- (app_nil_r e). by eapply unpacks_bind. Qed.

Lemma unpacks_lift {A} (x : Res A) (a : A) : x = Ok a → unpacks lim (lift x) [] a.
Proof. intros -> pre rest _. cbn. by rewrite app_nil_r. Qed.

(** An action that only looks. *)
Lemma unpacks_look {A B} (m : PackedM A) (k : PackedM B) e b :
  (∀ pre rest, ∃ a, m (pk lim pre rest) = (Ok a, pk lim pre rest)) → unpacks lim k e b → unpacks lim (_ ← m; k) e b.
Proof. intros Hm Hk pre rest Hlen. destruct (Hm pre (e ++ rest)) as [a Ha]. rewrite st_bindE, Ha. by apply Hk. Qed.

Lemma unpacks_limits : unpacks lim (gets pr_limits) [] lim.
Proof. intros pre rest _. cbn. by rewrite app_nil_r. Qed.

Lemma packed_u8 b : unpacks lim packed_read_u8 [b] b.
Proof.
  intros pre rest Hlen. rewrite !Zlen_app, Zlen_cons, Zlen_nil in Hlen.
  pose proof (Zlen_nonneg pre). pose proof (Zlen_nonneg rest).
  unfold packed_read_u8. st_run. unfold pk at 1 2. cbn [pr_bytes pr_pos app]. rewrite slice_nth_app. st_run. cbn [pr_pos pk].
  rewrite arith_in by (unfold USIZE_MAX, U64_MAX, I64_MAX in *; lia). st_run. by rewrite <- (pk_set_pos lim pre [b] rest).
Qed.

Lemma packed_raw n b : n = Zlen b → unpacks lim (packed_read_raw n) b b.
Proof.
  intros -> pre rest Hlen. rewrite !Zlen_app in Hlen.
  pose proof (Zlen_nonneg pre). pose proof (Zlen_nonneg rest). pose proof (Zlen_nonneg b).
  unfold packed_read_raw. st_run. unfold check_response_bytes. cbn [pr_limits pk]. rewrite check_ok by lia. st_run. cbn [pr_pos pk].
  rewrite try_range_in by (unfold USIZE_MAX, U64_MAX, I64_MAX in *; lia). st_run.
  cbn [pr_bytes pk]. rewrite slice_get_app. st_run. by rewrite <- (pk_set_pos lim pre b rest).
Qed.

Lemma packed_u32 n : 0 <= n <= U32_MAX → unpacks lim packed_read_u32be (to_be_bytes 4 n) n.
Proof.
  intros Hn. unfold packed_read_u32be. eapply unpacks_last; [apply packed_raw; by rewrite Zlen_to_be_bytes|].
  eapply unpacks_bind_nil; [apply unpacks_lift; unfold to_array; by rewrite Zlen_to_be_bytes|].
  rewrite from_to_be_bytes by (change (256 ^ Z.of_nat 4) with 4294967296; unfold U32_MAX in Hn; lia). apply unpacks_ret.
Qed.

(** ** Lengths and values *)

(** What [image_write_length] and [image_write_value_bytes] append. *)
Definition length_bytes (n : Z) : bytes :=
  if n <=? TNS_OBJ_MAX_SHORT_LENGTH then [n] else [TNS_LONG_LENGTH_INDICATOR] ++ to_be_bytes 4 n.

Lemma image_length_run n buf : 0 <= n <= U32_MAX → image_write_length n buf = (Ok (), buf ++ length_bytes n).
Proof.
  intros Hn. unfold image_write_length, length_bytes. destruct (Z.leb_spec n TNS_OBJ_MAX_SHORT_LENGTH) as [Hs|Hs]; st_run.
  - rewrite as_u_in by (unfold TNS_OBJ_MAX_SHORT_LENGTH in Hs; change (2 ^ 8) with 256; lia). done.
  - rewrite try_range_in by lia. st_run. by rewrite <- app_assoc.
Qed.

Lemma image_value_run v buf : Zlen v <= U32_MAX →
  image_write_value_bytes v buf = (Ok (), buf ++ length_bytes (Zlen v) ++ v).
Proof.
  intros Hn. pose proof (Zlen_nonneg v). unfold image_write_value_bytes, length_bytes.
  destruct (Z.leb_spec (Zlen v) TNS_OBJ_MAX_SHORT_LENGTH) as [Hs|Hs]; st_run.
  - rewrite as_u_in by (unfold TNS_OBJ_MAX_SHORT_LENGTH in Hs; change (2 ^ 8) with 256; lia). done.
  - rewrite try_range_in by lia. st_run. by rewrite <- app_assoc.
Qed.

Lemma packed_length n : 0 <= n <= U32_MAX → unpacks lim packed_read_length (length_bytes n) n.
Proof.
  intros Hn. unfold packed_read_length, length_bytes, TNS_LONG_LENGTH_INDICATOR, TNS_OBJ_MAX_SHORT_LENGTH.
  destruct (Z.leb_spec n 245).
  - eapply unpacks_last; [apply packed_u8|]. rewrite (proj2 (Z.eqb_neq _ _)) by lia. apply unpacks_ret.
  - eapply unpacks_bind; [apply packed_u8|]. rewrite Z.eqb_refl. by apply packed_u32.
Qed.

Lemma packed_value v : Zlen v <= U32_MAX → unpacks lim read_value_bytes (length_bytes (Zlen v) ++ v) (Some v).
Proof.
  intros Hn. pose proof (Zlen_nonneg v). unfold read_value_bytes, length_bytes, TNS_LONG_LENGTH_INDICATOR, TNS_NULL_LENGTH_INDICATOR, TNS_OBJ_MAX_SHORT_LENGTH.
  destruct (Z.leb_spec (Zlen v) 245).
  - eapply unpacks_bind; [apply packed_u8|]. rewrite (proj2 (Z.eqb_neq _ 255)), (proj2 (Z.eqb_neq _ 254)) by lia.
    eapply unpacks_bind_nil; [apply unpacks_ret|]. eapply unpacks_last; [by apply packed_raw|apply unpacks_ret].
  - rewrite <- app_assoc. eapply unpacks_bind; [apply packed_u8|]. change (254 =? 255) with false. cbn iota. rewrite Z.eqb_refl.
    eapply unpacks_bind; [by apply packed_u32|]. eapply unpacks_last; [by apply packed_raw|apply unpacks_ret].
Qed.

Lemma packed_null : unpacks lim read_value_bytes [TNS_NULL_LENGTH_INDICATOR] None.
Proof. unfold read_value_bytes. eapply unpacks_last; [apply packed_u8|]. rewrite Z.eqb_refl. apply unpacks_ret. Qed.
End Unpacks.

(** ** Values and what they decode to *)

Lemma number_wire_length text w : encode_number_text text = Ok w → Zlen w <= 23.
Proof.
  intros Hw. pose proof (encode_number_post text) as Hpost. rewrite Hw in Hpost. cbn in Hpost.
  destruct Hpost as [->|(neg & D & dpi & (Hne & _) & Hlen & _ & ->)]; [done|]. unfold NUMBER_MAX_DIGITS in Hlen.
  assert (Zlen (mantissa (point_odd dpi) D) <= 21) as Hm.
  { unfold mantissa. destruct (point_odd dpi).
    - destruct D as [|d rest]; [done|]. autorewrite with thin in *. pose proof (pad_even_bound rest). lia.
    - pose proof (pad_even_bound D). lia. }
  unfold wire_of. rewrite Zlen_cons, Zlen_app.
  assert (Zlen (map (enc_pair neg) (mantissa (point_odd dpi) D)) = Zlen (mantissa (point_odd dpi) D)) as ->
    by (unfold Zlen; by rewrite length_map).
  destruct (neg && _); [change (Zlen [102]) with 1|change (Zlen (@nil Z)) with 0]; lia.
Qed.

(** [holds type csfrm v q]: an attribute or element of this type given [v] reads back [q]. *)
Inductive holds (type_name : bytes) (csfrm : Z) : BindValue → option FetchValue → Prop :=
| holds_null : holds type_name csfrm BNull None
| holds_text t :
    one_of ["VARCHAR2"; "VARCHAR"; "CHAR"]%string type_name = true → csfrm ≠ CS_FORM_NCHAR →
    Forall (λ c, is_char c = true) t → Zlen (as_bytes t) <= U32_MAX →
    holds type_name csfrm (BText t) (Some (VText (as_bytes t)))
| holds_national t :
    one_of ["NVARCHAR2"; "NCHAR"]%string type_name = true → csfrm = CS_FORM_NCHAR →
    Forall (λ c, is_char c = true) t → Zlen (encode_text_value (as_bytes t) csfrm) <= U32_MAX →
    holds type_name csfrm (BText t) (Some (VText (as_bytes t)))
| holds_raw b :
    type_name = txt "RAW" → Zlen b <= U32_MAX → holds type_name csfrm (BRaw b) (Some (VRaw b))
| holds_number t w n :
    one_of ["NUMBER"; "FLOAT"; "INTEGER"]%string type_name = true →
    encode_number_text (as_bytes t) = Ok w → decode_number_value w = Ok n →
    holds type_name csfrm (BNumber t) (Some (VNumber n))
| holds_date y mo d h mi s :
    type_name = txt "DATE" → valid_fields y mo d h mi s = true →
    holds type_name csfrm (BDateTime y mo d h mi s) (Some (VTemporal (DateTime y mo d h mi s 0)))
| holds_timestamp t y mo d h mi s ns :
    starts_with (txt "TIMESTAMP") type_name = true → t ≠ ORA_TYPE_NUM_TIMESTAMP_TZ →
    valid_fields y mo d h mi s = true → 0 <= ns <= 999999999 →
    holds type_name csfrm (BTimestamp t y mo d h mi s ns) (Some (VTemporal (DateTime y mo d h mi s ns)))
| holds_timestamp_tz y mo d h mi s ns offset :
    starts_with (txt "TIMESTAMP") type_name = true →
    valid_fields y mo d h mi s = true → 0 <= ns <= 999999999 → -1200 < offset <= 1439 →
    holds type_name csfrm (BTimestampTz y mo d h mi s ns offset)
      (Some (VTemporal (TimestampTz y mo d h mi s ns offset))).

Lemma one_of_case names s : one_of names s = true → ∃ n, In n names ∧ s = txt n.
Proof. intros (n & Hin & Heq)%existsb_exists. exists n. by rewrite bool_decide_eq_true in Heq. Qed.

Lemma be_units_of b : be_units b = units_of false b.
Proof.
  induction b as [|x|x y b IH] using pair_ind; [done|done|]. cbn [be_units units_of]. rewrite IH. f_equal.
Qed.

Lemma national_text t : bytes_ok t → utf8_valid t = true →
  decode_dbobject_text (encode_text_value t CS_FORM_NCHAR) (txt "DB_TYPE_NCHAR") = Ok t.
Proof.
  intros Hok Hv. unfold decode_dbobject_text, encode_text_value. rewrite Z.eqb_refl.
  change (bool_decide (txt "DB_TYPE_NCHAR" = txt "DB_TYPE_NCHAR")) with true. cbn [orb].
  destruct (encode_utf16_run t Hok Hv) as [Hr Hf]. destruct (units_of_bytes false _ Hr) as (Hu & Ho & _).
  change (flat_map (unit_bytes false)) with (flat_map (to_be_bytes 2)) in *.
  apply odd_tail_nil in Ho. rewrite Ho. cbn. by rewrite be_units_of, Hu, Hf.
Qed.

(** The arms of [decode_object_scalar]. *)
Lemma scalar_text ty b : one_of ["VARCHAR2"; "VARCHAR"; "CHAR"]%string ty = true →
  decode_object_scalar ty b = t ← decode_dbobject_text b (txt "DB_TYPE_VARCHAR"); Ok (VText t).
Proof. intros (nm & [<-|[<-|[<-|[]]]] & ->)%one_of_case; reflexivity. Qed.

Lemma scalar_national ty b : one_of ["NVARCHAR2"; "NCHAR"]%string ty = true →
  decode_object_scalar ty b = t ← decode_dbobject_text b (txt "DB_TYPE_NCHAR"); Ok (VText t).
Proof. intros (nm & [<-|[<-|[]]] & ->)%one_of_case; reflexivity. Qed.

Lemma scalar_number ty b : one_of ["NUMBER"; "FLOAT"; "INTEGER"]%string ty = true →
  decode_object_scalar ty b = v ← decode_number_value b; Ok (VNumber v).
Proof. intros (nm & [<-|[<-|[<-|[]]]] & ->)%one_of_case; reflexivity. Qed.

Lemma scalar_timestamp ty b : starts_with (txt "TIMESTAMP") ty = true →
  decode_object_scalar ty b = v ← decode_datetime_value b; Ok (VTemporal v).
Proof. intros Hty. unfold decode_object_scalar. by rewrite Hty. Qed.

(** The bytes of a value, and that they decode to it. *)
Lemma holds_bytes ty csfrm v q : holds ty csfrm v (Some q) →
  ∃ w, (∀ buf, pack_bindvalue_into_image v csfrm buf = image_write_value_bytes w buf) ∧ Zlen w <= U32_MAX ∧
    decode_object_scalar ty w = Ok q.
Proof.
  inversion 1 as [|t Hty Hcs Hv Hl|t Hty Hcs Hv Hl|b Hty Hl|t w n Hty Hw Hn|y mo d h mi s Hty Hv|t y mo d h mi s ns Hty Ht Hv Hns|y mo d h mi s ns o Hty Hv Hns Ho]; subst.
  - exists (as_bytes t). apply as_bytes_text in Hv as [_ Hv]. split; [|split; [done|]].
    + intros buf. cbn. unfold encode_text_value. by rewrite (proj2 (Z.eqb_neq _ _) Hcs).
    + rewrite scalar_text by done. unfold decode_dbobject_text. cbn [orb].
      change (bool_decide _ || bool_decide _) with false. by rewrite Hv.
  - exists (encode_text_value (as_bytes t) CS_FORM_NCHAR). apply as_bytes_text in Hv as [Hb Hv]. split; [done|]. split; [done|]. by rewrite scalar_national, national_text by done.
  - exists b. by split.
  - exists w. pose proof (number_wire_length _ w Hw). split; [|split; [unfold U32_MAX; lia|]].
    + intros buf. cbn. unfold write_encoded. by rewrite Hw.
    + by rewrite scalar_number, Hn by done.
  - pose proof Hv as Hf. apply valid_fields_iff in Hf as (_ & _ & _ & Hh & Hmi & Hs).
    pose proof (timestamp_roundtrip y mo d h mi s 0) as Hrt. unfold is_u8, encode_oracle_timestamp in Hrt. rewrite Hv in Hrt.
    destruct Hrt as (w & Hw & Hlen & Hd); [lia|lia|lia|unfold U32_MAX; lia|]. cbn in Hw.
    exists w. split; [|split; [rewrite Hlen; done|]].
    + intros buf. cbn. unfold write_encoded. destruct (encode_oracle_date _ _ _ _ _ _); cbn in Hw; [by injection Hw as ->|done..].
    + change (decode_object_scalar (txt "DATE") w) with (v ← decode_datetime_value w; Ok (VTemporal v)). by rewrite Hd.
  - pose proof Hv as Hf. apply valid_fields_iff in Hf as (_ & _ & _ & Hh & Hmi & Hs).
    pose proof (timestamp_roundtrip y mo d h mi s ns) as Hrt. unfold is_u8 in Hrt. rewrite Hv, (proj2 (Z.leb_le ns _)) in Hrt by lia.
    destruct Hrt as (w & Hw & Hlen & Hd); [lia|lia|lia|unfold U32_MAX; lia|].
    exists w. split; [|split; [rewrite Hlen; by destruct (_ =? _)|]].
    + intros buf. cbn. unfold write_encoded, timestamp_bytes. by rewrite (proj2 (Z.eqb_neq _ _) Ht), Hw.
    + by rewrite scalar_timestamp, Hd by done.
  - destruct (timestamp_tz_roundtrip y mo d h mi s ns o Hv Hns Ho) as (w & Hw & Hlen & Hd).
    exists w. split; [|split; [by rewrite Hlen|]].
    + intros buf. cbn. unfold write_encoded. by rewrite Hw.
    + by rewrite scalar_timestamp, Hd by done.
Qed.

(** A value packed into an image and read back. *)
Lemma holds_unpacks lim ty csfrm v q : holds ty csfrm v q →
  ∃ enc, (∀ buf, pack_bindvalue_into_image v csfrm buf = (Ok (), buf ++ enc)) ∧ 1 <= Zlen enc ∧
    unpacks lim (decode_value ty) enc q.
Proof.
  intros Hv. destruct q as [q|].
  - destruct (holds_bytes ty csfrm v q Hv) as (w & Hpack & Hlen & Hdec). exists (length_bytes (Zlen w) ++ w).
    split; [intros buf; by rewrite Hpack, image_value_run|]. split.
    { rewrite Zlen_app. pose proof (Zlen_nonneg w). unfold length_bytes. destruct (_ <=? _); [rewrite Zlen_cons, Zlen_nil; lia|]. rewrite Zlen_app, Zlen_to_be_bytes, Zlen_cons, Zlen_nil. lia. }
    unfold decode_value. eapply unpacks_last; [by apply packed_value|].
    eapply unpacks_bind_nil; [by apply unpacks_lift|apply unpacks_ret].
  - inversion Hv. subst. exists [TNS_NULL_LENGTH_INDICATOR]. split; [done|]. split; [done|].
    unfold decode_value. eapply unpacks_last; [apply packed_null|apply unpacks_ret].
Qed.

(** ** Images *)

(** [pack_element] for each scalar. *)
Fixpoint pack_all (l : list (BindValue * Z)) : ST ProtocolError bytes () :=
  match l with
  | [] => mret ()
  | (v, csfrm) :: l => _ ← pack_bindvalue_into_image v csfrm; pack_all l
  end.

(** [DbObjectImpl::pack_image] with [pack_body], of an object whose image is not kept raw: a
    record of scalar attributes, or a collection of scalars that is not an associative
    array.  The values are the ones [pack_element] has already converted from Python, each
    with the form its attribute asks for. *)
Definition object_image (values : list (BindValue * Z)) : Res bytes :=
  let '(r, buf) := (_ ← pack_all values; image_finalize) (image_begin false) in
  _ ← r; Ok buf.

Definition collection_image (values : list (BindValue * Z)) : Res bytes :=
  let '(r, buf) :=
    (_ ← modify (λ buf, buf ++ [collection_flags_for false]);
     _ ← image_write_length (Zlen values);
     _ ← pack_all values;
     image_finalize) (image_begin true) in
  _ ← r; Ok buf.

Definition image_header (is_collection : bool) (size : Z) : bytes :=
  [if is_collection then 136 else 132; TNS_OBJ_IMAGE_VERSION; TNS_LONG_LENGTH_INDICATOR] ++ to_be_bytes 4 size ++
  (if is_collection then [1; 1] else []).

Lemma image_begin_header c : image_begin c = image_header c 0.
Proof. by destruct c. Qed.

Lemma image_header_length c size : Zlen (image_header c size) = if c then 9 else 7.
Proof. unfold image_header. rewrite !Zlen_app, Zlen_to_be_bytes. by destruct c. Qed.

(** The size is patched into the header. *)
Lemma finalize_run c body :
  let n := Zlen (image_header c 0 ++ body) in
  image_finalize (image_header c 0 ++ body) =
  if n <=? U32_MAX then (Ok (), image_header c n ++ body) else (Err (too_long n), image_header c 0 ++ body).
Proof.
  cbv zeta. set (n := Zlen (image_header c 0 ++ body)). unfold image_finalize. st_run. fold n.
  assert (7 <= n) as Hn by (unfold n; rewrite Zlen_app, image_header_length; pose proof (Zlen_nonneg body); destruct c; lia).
  destruct (Z.leb_spec n U32_MAX); [|unfold try_range; by rewrite (proj2 (between_false _ _ _)) by lia].
  rewrite try_range_in by lia. st_run. unfold slice_get. fold n.
  replace ((0 <=? 3) && (3 <=? 7) && (7 <=? n)) with true by lia. st_run. unfold image_header.
  by destruct c; cbn [app take drop to_be_bytes].
Qed.

Lemma read_header_unpacks lim c size : 0 <= size <= U32_MAX → unpacks lim read_header (image_header c size) ().
Proof.
  intros Hs. unfold read_header, image_header.
  change ([?f; ?v; ?l] ++ ?rest) with ([f] ++ [v] ++ ([l] ++ rest)).
  eapply unpacks_bind; [apply packed_u8|]. eapply unpacks_bind; [apply packed_u8|]. rewrite app_assoc.
  eapply unpacks_bind.
  - unfold skip_length. eapply unpacks_bind; [apply packed_u8|]. rewrite Z.eqb_refl. unfold packed_skip.
    eapply unpacks_last; [apply packed_raw; by rewrite Zlen_to_be_bytes|apply unpacks_ret].
  - destruct c; cbn [negb]; [|apply unpacks_ret].
    change (unpacks lim (prefix_len ← packed_read_length; packed_skip prefix_len) ([1] ++ [1]) ()).
    eapply unpacks_bind; [apply (packed_length lim 1); unfold U32_MAX; lia|]. unfold packed_skip.
    eapply unpacks_last; [by apply packed_raw|apply unpacks_ret].
Qed.

(** An attribute with the value it is given, its character-set form and what it reads back. *)
Record Field := mkField { f_attr : ObjectAttribute; f_value : BindValue; f_csfrm : Z; f_reads : option FetchValue }.

Definition field_ok (f : Field) : Prop :=
  at_type_owner (f_attr f) = None ∧ holds (at_type_name (f_attr f)) (f_csfrm f) (f_value f) (f_reads f).

Lemma fields_unpack lim fields : Forall field_ok fields →
  ∃ enc, (∀ buf, pack_all (map (λ f, (f_value f, f_csfrm f)) fields) buf = (Ok (), buf ++ enc)) ∧
    Zlen fields <= Zlen enc ∧
    unpacks lim (decode_attributes (map f_attr fields)) enc (map (λ f, (at_name (f_attr f), f_reads f)) fields).
Proof.
  induction 1 as [|f fields [Ho Hh] _ (enc & Hp & Hl & Hu)].
  { exists []. split; [intros buf; cbn; by rewrite app_nil_r|]. split; [done|]. apply unpacks_ret. }
  destruct (holds_unpacks lim _ _ _ _ Hh) as (e & He & Hel & Heu). exists (e ++ enc). split; [|split].
  - intros buf. cbn [map pack_all]. rewrite st_bindE, He, Hp. by rewrite <- app_assoc.
  - rewrite Zlen_cons, Zlen_app. lia.
  - cbn [map decode_attributes]. rewrite bool_decide_eq_true_2 by done. eapply unpacks_bind; [exact Heu|].
    eapply unpacks_last; [exact Hu|apply unpacks_ret].
Qed.

Lemma elements_unpack lim ty values : Forall (λ '(v, csfrm, q), holds ty csfrm v q) values →
  ∃ enc, (∀ buf, pack_all (map fst values) buf = (Ok (), buf ++ enc)) ∧
    Zlen values <= Zlen enc ∧
    unpacks lim (decode_elements ty (length values)) enc (map snd values).
Proof.
  induction 1 as [|[[v cs] q] values Hh _ (enc & Hp & Hl & Hu)].
  { exists []. split; [intros buf; cbn; by rewrite app_nil_r|]. split; [done|]. apply unpacks_ret. }
  destruct (holds_unpacks lim _ _ _ _ Hh) as (e & He & Hel & Heu). exists (e ++ enc). split; [|split].
  - intros buf. cbn [map fst pack_all]. rewrite st_bindE, He, Hp. by rewrite <- app_assoc.
  - rewrite Zlen_cons, Zlen_app. lia.
  - cbn [length decode_elements map snd]. eapply unpacks_bind; [exact Heu|]. eapply unpacks_last; [exact Hu|apply unpacks_ret].
Qed.

(** What an image within the limit decodes to. *)
Lemma image_decodes c body ty v : let img := image_header c (Zlen (image_header c 0 ++ body)) ++ body in
  Zlen img <= max_response_bytes limits_DEFAULT →
  unpacks limits_DEFAULT (match ot_element ty with
    | Some elem => decode_collection ty elem
    | None => attributes ← decode_attributes (ot_attributes ty); mret (mkDecoded (ot_schema ty) (ot_name ty) attributes None)
    end) body v →
  decode_object img ty = Ok v.
Proof.
  cbv zeta. set (n := Zlen (image_header c 0 ++ body)). intros Hlen Hu. unfold decode_object, decode_object_from.
  set (img := image_header c n ++ body) in *.
  assert (Zlen img = n) as Hn by (unfold img, n; by rewrite !Zlen_app, !image_header_length).
  pose proof (Zlen_nonneg img). change (max_response_bytes limits_DEFAULT) with (256 * 1048576) in *.
  st_run. cbn [pr_limits pr_bytes packed_new]. unfold check_response_bytes.
  rewrite check_ok by (change (max_response_bytes limits_DEFAULT) with (256 * 1048576); lia). st_run.
  change (packed_new img) with (pk limits_DEFAULT [] (image_header c n ++ body)).
  assert (Zlen ([] ++ image_header c n ++ body) <= Z.min (max_response_bytes limits_DEFAULT) I64_MAX) as Hfit
    by (change (max_response_bytes limits_DEFAULT) with (256 * 1048576); cbn [app]; fold img; unfold I64_MAX; lia).
  rewrite (read_header_unpacks _ c n) by (done || unfold U32_MAX; lia).
  cbn [app]. rewrite <- (app_nil_r body) at 1. rewrite Hu; [done|]. by rewrite app_nil_r.
Qed.

(** C32: Object and collection images round trip for the values [holds] lists: nulls; text of
    the VARCHAR2, CHAR, NVARCHAR2 and NCHAR attributes; RAW bytes; numbers whose text encodes
    and whose encoding decodes (so not forty digits under an odd point); dates; timestamps,
    and timestamps with a zone offset from -1199 to 1439 minutes.  Such values packed into an
    image of their type are decoded from it in order, under the names of their attributes,
    and building the image fails only when it exceeds 32 bits.  An image beyond 256 MiB or
    a collection beyond a million elements is over the decoder's limits.  Not covered:
    floats, booleans, intervals, LOB locators, nested objects and associative arrays; text
    that is no number and zone offsets of -21:00 and below, which are refused when the image
    is built; offsets between those and -20:00, which are packed and refused by the decoder. *)
Theorem object_image_roundtrip schema name fields ty values :
  Forall field_ok fields → Forall (λ '(v, csfrm, q), holds ty csfrm v q) values → Zlen values <= 1000000 →
  match object_image (map (λ f, (f_value f, f_csfrm f)) fields) with
  | Ok img => Zlen img <= max_response_bytes limits_DEFAULT →
      decode_object img (mkObjectType schema name (map f_attr fields) None) =
      Ok (mkDecoded schema name (map (λ f, (at_name (f_attr f), f_reads f)) fields) None)
  | Err e => ∃ n, e = InvalidPacketLength n 0 ∧ U32_MAX < n
  | _ => False
  end ∧
  match collection_image (map fst values) with
  | Ok img => Zlen img <= max_response_bytes limits_DEFAULT →
      decode_object img (mkObjectType schema name [] (Some (mkElement ty None))) =
      Ok (mkDecoded schema name [] (Some (map snd values)))
  | Err e => ∃ n, e = InvalidPacketLength n 0 ∧ U32_MAX < n
  | _ => False
  end.
Proof.
  intros Hf Hv Hmax. split.
  - destruct (fields_unpack limits_DEFAULT fields Hf) as (enc & Hp & _ & Hu). unfold object_image.
    rewrite image_begin_header, st_bindE, Hp, finalize_run. cbv zeta.
    destruct (Z.leb_spec (Zlen (image_header false 0 ++ enc)) U32_MAX); [|by eexists].
    intros Hlen. apply image_decodes; [exact Hlen|]. cbn [ot_element ot_attributes ot_schema ot_name].
    eapply unpacks_last; [exact Hu|apply unpacks_ret].
  - destruct (elements_unpack limits_DEFAULT ty values Hv) as (enc & Hp & _ & Hu). unfold collection_image.
    pose proof (Zlen_nonneg values). assert (Zlen (map fst values) = Zlen values) as Hl by (unfold Zlen; by rewrite length_map).
    st_run. rewrite Hl, image_length_run by (unfold U32_MAX; lia). rewrite st_bindE, Hp, image_begin_header, <- !app_assoc, finalize_run. cbv zeta.
    set (body := [collection_flags_for false] ++ length_bytes (Zlen values) ++ enc).
    destruct (Z.leb_spec (Zlen (image_header true 0 ++ body)) U32_MAX); [|by eexists].
    intros Hlen. apply image_decodes; [exact Hlen|]. cbn [ot_element]. unfold decode_collection. cbn [el_type_owner].
    rewrite bool_decide_eq_true_2 by done. eapply unpacks_bind; [apply packed_u8|].
    eapply unpacks_bind; [apply packed_length; unfold U32_MAX; lia|].
    eapply unpacks_bind_nil; [apply unpacks_limits|].
    eapply unpacks_bind_nil; [apply unpacks_lift, check_ok; cbn; lia|].
    apply unpacks_look.
    { intros pre rest. unfold with_capacity_limited, check_object_elements. cbn [protocol_limits packed_bounded_reader pr_limits pk].
      rewrite check_ok by (cbn; lia). st_run. by eexists. }
    eapply unpacks_last; [unfold Zlen; rewrite Nat2Z.id; exact Hu|apply unpacks_ret].
Qed.

(** A number with many digits, a date, text with a character outside the basic plane, a
    null and a timestamp with a zone. *)
Lemma object_image_roundtrip_witness :
  let fields :=
    [mkField (mkAttribute (txt "NAME") (txt "VARCHAR2") None) (BText (txt "widget")) 1 (Some (VText (txt "widget")));
     mkField (mkAttribute (txt "NOTE") (txt "NVARCHAR2") None) (BText [128512]) 2 (Some (VText [240; 159; 152; 128]));
     mkField (mkAttribute (txt "MADE") (txt "DATE") None) (BDateTime 2024 2 29 23 59 59) 1 (Some (VTemporal (DateTime 2024 2 29 23 59 59 0)));
     mkField (mkAttribute (txt "SOLD") (txt "TIMESTAMP WITH TIME ZONE") None) (BTimestampTz 2024 3 1 0 0 0 7 (-330)) 1
       (Some (VTemporal (TimestampTz 2024 3 1 0 0 0 7 (-330))));
     mkField (mkAttribute (txt "GONE") (txt "RAW") None) BNull 1 None] in
  ∃ img, object_image (map (λ f, (f_value f, f_csfrm f)) fields) = Ok img ∧
    decode_object img (mkObjectType (txt "S") (txt "T") (map f_attr fields) None) =
    Ok (mkDecoded (txt "S") (txt "T") (map (λ f, (at_name (f_attr f), f_reads f)) fields) None).
Proof.
  intros fields. destruct (object_image (map (λ f, (f_value f, f_csfrm f)) fields)) as [img|e| |] eqn:E;
    [|vm_compute in E; discriminate..].
  exists img. split; [reflexivity|].
  assert (Forall field_ok fields) as Hf.
  { apply Forall_cons; [split; [reflexivity|]|apply Forall_cons; [split; [reflexivity|]|apply Forall_cons; [split; [reflexivity|]|
      apply Forall_cons; [split; [reflexivity|]|apply Forall_cons; [split; [reflexivity|]|apply Forall_nil]]]]].
    - apply holds_text; [reflexivity|discriminate|repeat first [apply Forall_nil | apply Forall_cons; [reflexivity|]]|vm_compute; discriminate].
    - apply holds_national; [reflexivity|reflexivity|repeat first [apply Forall_nil | apply Forall_cons; [reflexivity|]]|vm_compute; discriminate].
    - apply holds_date; reflexivity.
    - apply holds_timestamp_tz; [reflexivity|reflexivity|lia|lia].
    - apply holds_null. }
  assert (Zlen img <= max_response_bytes limits_DEFAULT) as Hlen
    by (vm_compute in E; injection E as <-; vm_compute; discriminate).
  pose proof (object_image_roundtrip (txt "S") (txt "T") fields (txt "RAW") [] Hf (List.Forall_nil _) ltac:(vm_compute; discriminate)) as [H _].
  rewrite E in H. exact (H Hlen).
Defined.

(** ** The frame of a bound image *)

Lemma object_value_parses lim c oid image :
  8 <= max_response_bytes lim → max_response_bytes lim <= U32_MAX → max_lob_chunks lim <= USIZE_MAX →
  image ≠ [] → Zlen image <= max_response_bytes lim → Zlen image <= 32767 * max_lob_chunks lim →
  Zlen oid + 20 <= max_response_bytes lim → Zlen oid + 20 <= 32767 * max_lob_chunks lim →
  ∃ enc, (∀ w, write_dbobject_bind oid image w = (Ok (), write_raw enc w)) ∧
    parses lim (parse_object_value c) enc (Some (VObject (object_schema c) (object_type_name c) image)).
Proof.
  intros H8 Hr Hc Hne Hi Hi2 Ho Ho2. set (toid := [0; 34; TNS_OBJ_NON_NULL_OID; TNS_OBJ_HAS_EXTENT_OID] ++ oid ++ TNS_EXTENT_OID).
  assert (Zlen toid = Zlen oid + 20) as Ht by (unfold toid; rewrite !Zlen_app; change (Zlen TNS_EXTENT_OID) with 16; rewrite !Zlen_cons, Zlen_nil; lia).
  pose proof (Zlen_nonneg oid). pose proof (Zlen_nonneg image). assert (max_response_bytes lim <= USIZE_MAX) by (unfold USIZE_MAX, U64_MAX, U32_MAX in *; lia).
  exists (two_lengths_bytes (Some toid) ++ two_lengths_bytes (Some oid) ++ [0] ++ [0] ++ ub4_bytes (Zlen image) ++ [1; 1] ++ field_bytes image).
  split.
  - intros w. unfold write_dbobject_bind. fold toid. cbv zeta. rewrite !st_bindE.
    rewrite write_bytes_with_two_lengths_spec by (intros ? [= <-]; lia). rewrite !st_bindE.
    rewrite write_bytes_with_two_lengths_spec by (intros ? [= <-]; lia). st_run. rewrite try_range_in by lia. st_run.
    rewrite write_bytes_with_length_spec, !write_ub4_spec by (unfold TNS_OBJ_TOP_LEVEL, U32_MAX in *; lia).
    rewrite !write_raw_raw. done.
  - unfold parse_object_value.
    eapply parses_bind; [apply read_bytes_with_length_parses; try done; intros ? [= <-]; split_and!; lia|].
    eapply parses_bind; [apply read_bytes_with_length_parses; try done; intros ? [= <-]; split_and!; lia|].
    eapply parses_bind; [apply (read_bytes_with_length_parses lim H8 Hc ltac:(done) None); done|].
    eapply parses_bind; [apply (read_ub2_parses lim H8 0); unfold U16_MAX; lia|].
    eapply parses_bind; [apply read_ub4_parses; [done|lia]|].
    eapply parses_bind_nil; [unfold limit_check; eapply parses_bind_nil; [apply parses_limits|apply parses_lift, check_ok; lia]|].
    eapply parses_bind; [unfold skip; eapply (parses_bind lim _ _ [1; 1] []); [apply read_raw_parses'; [done|change (Zlen [1; 1]) with 2; lia]|apply parses_ret]|].
    assert (0 < Zlen image) by (destruct image; [done|rewrite Zlen_cons; pose proof (Zlen_nonneg image); lia]).
    rewrite (proj2 (Z.eqb_neq _ _)) by lia. rewrite <- (app_nil_r (field_bytes image)).
    eapply parses_bind; [by apply read_bytes_parses|]. rewrite field_value_some by done. apply parses_ret.
Qed.

(** ** Every image *)

Definition packed_ok (r : DbObjectPackedReader) : Prop :=
  bytes_ok (pr_bytes r) ∧ 0 <= pr_pos r <= Zlen (pr_bytes r) ∧ Zlen (pr_bytes r) <= I64_MAX.

(** [m] returns, keeps the cursor in the image and moves it forward, by [n] bytes or more
    when it succeeds with a value that satisfies [Q]. *)
Definition psafe {A} (n : Z) (m : PackedM A) (Q : A → Prop) : Prop := ∀ r, packed_ok r →
  let '(x, r') := m r in
  packed_ok r' ∧ pr_bytes r' = pr_bytes r ∧ pr_limits r' = pr_limits r ∧ pr_pos r <= pr_pos r' ∧
  match x with Ok a => Q a ∧ pr_pos r + n <= pr_pos r' | Err _ => True | _ => False end.

Lemma psafe_bind {A B} n n1 (m : PackedM A) (f : A → PackedM B) (P : A → Prop) (Q : B → Prop) :
  psafe n1 m P → (∀ a, P a → psafe (n - n1) (f a) Q) → psafe n (m ≫= f) Q.
Proof.
  intros Hm Hf r Hr. rewrite st_bindE. specialize (Hm r Hr). destruct (m r) as [x r1]. destruct Hm as (Hr1 & Hb1 & Hl1 & Hp1 & Hx).
  destruct x as [a|e| |]; try done. destruct Hx as [Ha Hn]. specialize (Hf a Ha r1 Hr1). destruct (f a r1) as [y r2].
  destruct Hf as (Hr2 & Hb2 & Hl2 & Hp2 & Hy). split; [done|]. split; [congruence|]. split; [congruence|]. split; [lia|].
  destruct y; try done. split; [tauto|lia].
Qed.

Lemma psafe_ret {A} n (a : A) (Q : A → Prop) : n <= 0 → Q a → psafe n (mret a) Q.
Proof. intros Hn Ha r Hr. cbn. split; [done|]. split; [done|]. split; [done|]. split; [lia|]. split; [done|lia]. Qed.

Lemma psafe_throw {A} n e (Q : A → Prop) : psafe n (throw e) Q.
Proof. intros r Hr. cbn. split; [done|]. split; [done|]. split; [done|]. split; [lia|done]. Qed.

Lemma psafe_lift {A} (x : Res A) (Q : A → Prop) : post Q x → psafe 0 (lift x) Q.
Proof. intros Hx r Hr. rewrite liftE. split; [done|]. split; [done|]. split; [done|]. split; [lia|]. destruct x; try done. split; [done|lia]. Qed.

Lemma psafe_gets {A} (f : DbObjectPackedReader → A) : psafe 0 (gets f) (λ _, True).
Proof. intros r Hr. rewrite getsE. split; [done|]. split; [done|]. split; [done|]. split; [lia|]. split; [done|lia]. Qed.

Lemma psafe_weaken {A} n n' (m : PackedM A) (P Q : A → Prop) :
  n' <= n → (∀ a, P a → Q a) → psafe n m P → psafe n' m Q.
Proof.
  intros Hn HPQ Hm r Hr. specialize (Hm r Hr). destruct (m r) as [x r']. destruct Hm as (?&?&?&?&Hx).
  split; [done|]. split; [done|]. split; [done|]. split; [done|]. destruct x; try done. destruct Hx. split; [auto|lia].
Qed.

Lemma psafe_u8 : psafe 1 packed_read_u8 is_u8.
Proof.
  intros r (Hb & Hp & Hl). unfold packed_read_u8. st_run. destruct (slice_nth _ _) as [b|] eqn:Eb; cbn [ok_or]; st_run.
  - pose proof (slice_nth_some _ _ _ Eb) as [Hi _]. rewrite arith_in by (unfold USIZE_MAX, U64_MAX, I64_MAX in *; lia). st_run.
    split; [split; [done|]; cbn; lia|]. split; [done|]. split; [done|]. cbn. split; [lia|]. split; [by eapply slice_nth_ok|lia].
  - split; [done|]. split; [done|]. split; [done|]. split; [lia|done].
Qed.

Lemma psafe_raw n : 0 <= n → psafe n (packed_read_raw n) (λ b, bytes_ok b ∧ Zlen b = n).
Proof.
  intros Hn r (Hb & Hp & Hl). assert (packed_ok r) as Hr by done. unfold packed_read_raw. st_run. unfold check_response_bytes, check.
  destruct (_ <=? _); st_run; [|by split; [|split; [|split; [|split]]]].
  destruct (try_range _ _ _) as [e|] eqn:Et; cbn [ok_or]; st_run; [|by split; [|split; [|split; [|split]]]].
  apply try_range_some in Et as [-> He]. destruct (slice_get _ _ _) as [b|] eqn:Eb; cbn [ok_or]; st_run; [|by split; [|split; [|split; [|split]]]].
  pose proof (slice_get_ok _ _ _ _ Hb Eb) as Hbo. apply slice_get_some in Eb as (? & Hlen & _ & Hz).
  split; [split; [done|]; cbn; lia|]. split; [done|]. split; [done|]. cbn. split; [lia|]. split; [|lia]. split; [done|lia].
Qed.

Lemma psafe_skip n : 0 <= n → psafe n (packed_skip n) (λ _, True).
Proof. intros Hn. eapply psafe_bind; [by apply psafe_raw|]. intros b _. apply psafe_ret; [lia|done]. Qed.

Lemma psafe_u32 : psafe 4 packed_read_u32be (λ n, 0 <= n).
Proof.
  eapply psafe_bind; [apply psafe_raw; lia|]. intros b [Hb Hlen]. eapply psafe_bind; [apply psafe_lift|].
  - unfold to_array. rewrite Hlen. by instantiate (1 := λ a, a = b).
  - intros a ->. apply psafe_ret; [lia|]. pose proof (from_be_bytes_range b Hb). lia.
Qed.

Lemma psafe_length : psafe 1 packed_read_length (λ n, 0 <= n).
Proof.
  eapply psafe_bind; [apply psafe_u8|]. intros b [Hb _]. destruct (_ =? _); [|by apply psafe_ret; [lia|]].
  eapply psafe_weaken; [| |apply psafe_u32]; [lia|done].
Qed.

Lemma psafe_value_bytes : psafe 1 read_value_bytes (λ o, ∀ b, o = Some b → bytes_ok b).
Proof.
  eapply psafe_bind; [apply psafe_u8|]. intros b [Hb _]. destruct (_ =? _); [by apply psafe_ret; [lia|]|].
  eapply (psafe_bind _ 0 _ _ (λ n, 0 <= n)).
  - destruct (_ =? _); [|by apply psafe_ret; [lia|]]. eapply psafe_weaken; [| |apply psafe_u32]; [lia|done].
  - intros n Hn. eapply psafe_bind; [by apply psafe_raw|]. intros d [Hd _]. apply psafe_ret; [lia|]. by intros ? [= <-].
Qed.

Lemma psafe_header : psafe 3 read_header (λ _, True).
Proof.
  eapply psafe_bind; [apply psafe_u8|]. intros f _. eapply psafe_bind; [apply psafe_u8|]. intros v _.
  eapply (psafe_bind _ 1 _ _ (λ _, True)).
  - eapply psafe_bind; [apply psafe_u8|]. intros b _. destruct (_ =? _); [|by apply psafe_ret; [lia|]].
    eapply psafe_weaken; [| |apply (psafe_skip 4)]; [lia|done|lia].
  - intros _ _. destruct (negb _); [apply psafe_throw|]. destruct (_ =? _); [|by apply psafe_ret; [lia|]].
    eapply psafe_bind; [apply psafe_length|]. intros n Hn. cbn beta in Hn. eapply psafe_weaken; [| |by apply psafe_skip]; [lia|done].
Qed.

Lemma dbobject_text_total b t : bytes_ok b → post (λ _, True) (decode_dbobject_text b t).
Proof.
  intros _. unfold decode_dbobject_text. destruct (_ || _).
  - destruct (negb _); [done|]. by destruct (from_utf16 _).
  - by destruct (utf8_valid b).
Qed.

Lemma object_scalar_total ty b : bytes_ok b → post (λ _, True) (decode_object_scalar ty b).
Proof.
  intros Hb. assert (post (λ _, True) (decode_datetime_value b)) as Hdt
    by (eapply post_mono; [|by apply decode_datetime_post]; done).
  pose proof (number_value_total b Hb) as Hn. unfold decode_object_scalar.
  repeat match goal with |- post _ (if ?c then _ else _) => destruct c end; try done.
  all: first [ by destruct (decode_datetime_value b) | by destruct (decode_number_value b)
             | by pose proof (dbobject_text_total b (txt "DB_TYPE_VARCHAR") Hb); destruct (decode_dbobject_text b _)
             | by pose proof (dbobject_text_total b (txt "DB_TYPE_NCHAR") Hb); destruct (decode_dbobject_text b _) ].
Qed.

Lemma psafe_value ty : psafe 1 (decode_value ty) (λ _, True).
Proof.
  eapply psafe_bind; [apply psafe_value_bytes|]. intros [b|] Hb; [|by apply psafe_ret; [lia|]].
  eapply psafe_bind; [apply psafe_lift, object_scalar_total, Hb, eq_refl|]. intros v _. by apply psafe_ret; [lia|].
Qed.

Lemma psafe_elements ty n : psafe (Z.of_nat n) (decode_elements ty n) (λ l, length l = n).
Proof.
  induction n as [|n IH]; cbn [decode_elements]; [by apply psafe_ret; [lia|]|].
  eapply psafe_bind; [apply psafe_value|]. intros v _. eapply psafe_bind; [exact IH|]. intros l Hl.
  apply psafe_ret; [lia|]. cbn. by rewrite Hl.
Qed.

Lemma psafe_attributes attrs : psafe (Zlen attrs) (decode_attributes attrs) (λ l, map fst l = map at_name attrs).
Proof.
  induction attrs as [|a attrs IH]; cbn [decode_attributes]; [by apply psafe_ret; [rewrite Zlen_nil; lia|]|].
  case_bool_decide; [|apply psafe_throw]. rewrite Zlen_cons. eapply psafe_bind; [apply psafe_value|]. intros v _.
  eapply psafe_bind; [eapply psafe_weaken; [| |exact IH]; [reflexivity|done]|]. intros l Hl. apply psafe_ret; [lia|]. cbn. by rewrite Hl.
Qed.

(** What a decoded value has to do with its type and the bytes it came from. *)
Definition fits_type (ty : ObjectType) (n : Z) (v : DecodedObject) : Prop :=
  do_type_schema v = ot_schema ty ∧ do_type_name v = ot_name ty ∧
  match ot_element ty with
  | Some _ => do_attributes v = [] ∧ ∃ l, do_elements v = Some l ∧ Zlen l <= n ∧ Zlen l <= 1000000
  | None => map fst (do_attributes v) = map at_name (ot_attributes ty) ∧ do_elements v = None
  end.

Lemma psafe_collection ty elem n :
  psafe 0 (decode_collection ty elem) (λ v, do_type_schema v = ot_schema ty ∧ do_type_name v = ot_name ty ∧ do_attributes v = []) ∧
  ∀ r, packed_ok r → pr_limits r = limits_DEFAULT → Zlen (pr_bytes r) <= n →
    match (decode_collection ty elem r).1 with
    | Ok v => ∃ l, do_elements v = Some l ∧ Zlen l <= n ∧ Zlen l <= 1000000
    | _ => True
    end.
Proof.
  split.
  - unfold decode_collection. case_bool_decide; [|apply psafe_throw].
    eapply psafe_bind; [apply psafe_u8|]. intros _ _. eapply psafe_bind; [apply psafe_length|]. intros k Hk.
    eapply psafe_bind; [apply psafe_gets|]. intros l _. eapply (psafe_bind _ 0 _ _ (λ _, True)).
    { apply psafe_lift. unfold check_object_elements, check. by destruct (_ <=? _). }
    intros _ _. eapply (psafe_bind _ 0 _ _ (λ _, True)).
    { intros r Hr. unfold with_capacity_limited, check_object_elements, check. split; [done|]. split; [done|]. split; [done|].
      split; [lia|]. destruct (_ <=? _); st_run; [split; [done|lia]|done]. }
    intros _ _. cbn beta in Hk. eapply psafe_bind; [eapply psafe_weaken; [| |apply psafe_elements]; [|by intros]|]; [instantiate (1 := 0); lia|].
    intros els _. apply psafe_ret; [lia|done].
  - intros r Hr Hlim Hn. unfold decode_collection. case_bool_decide; [|done]. rewrite st_bindE.
    pose proof (psafe_u8 r Hr) as H1. destruct (packed_read_u8 r) as [[f|e| |] r1]; try done. destruct H1 as (Hr1 & Hb1 & Hl1 & _ & _).
    rewrite st_bindE. pose proof (psafe_length r1 Hr1) as H2. destruct (packed_read_length r1) as [[k|e| |] r2]; try done.
    destruct H2 as (Hr2 & Hb2 & Hl2 & _ & Hk & _). st_run. unfold check_object_elements, check.
    replace (pr_limits r2) with limits_DEFAULT by congruence.
    destruct (Z.leb_spec k (max_object_elements limits_DEFAULT)) as [Hmax|]; st_run; [|done].
    unfold with_capacity_limited, check_object_elements, check. cbn [protocol_limits packed_bounded_reader].
    replace (pr_limits r2) with limits_DEFAULT by congruence. rewrite (proj2 (Z.leb_le _ _) Hmax). st_run.
    pose proof (psafe_elements (el_type_name elem) (Z.to_nat k) r2 Hr2) as H3.
    destruct (decode_elements _ _ r2) as [[els|e| |] r3]; try done. st_run. destruct H3 as (Hr3 & Hb3 & _ & _ & Hlen & Hadv).
    exists els. split; [done|]. destruct Hr2 as (_ & Hp2 & _), Hr3 as (_ & Hp3 & _). rewrite Hb3, Hb2, Hb1 in *.
    change (max_object_elements limits_DEFAULT) with 1000000 in Hmax. assert (Zlen els = k) by (unfold Zlen; lia). split; lia.
Qed.

(** Where a name was found in a BFILE locator it stands there, directory and file with
    their lengths, at the end. *)
Definition names_at_end (locator dir file : bytes) : Prop :=
  ∃ prefix, locator = prefix ++ to_be_bytes 2 (Zlen dir) ++ dir ++ to_be_bytes 2 (Zlen file) ++ file ∧
    dir ≠ [] ∧ file ≠ [] ∧ utf8_valid dir = true ∧ utf8_valid file = true.

Lemma drop_split (l : bytes) a n : 0 <= a → 0 <= n →
  drop (Z.to_nat a) l = take (Z.to_nat n) (drop (Z.to_nat a) l) ++ drop (Z.to_nat (a + n)) l.
Proof.
  intros Ha Hn. rewrite <- (take_drop (Z.to_nat n) (drop (Z.to_nat a) l)) at 1. rewrite drop_drop. do 2 f_equal. lia.
Qed.

Lemma two_bytes_at l p b0 b1 : bytes_ok l → slice_nth l p = Some b0 → slice_nth l (p + 1) = Some b1 →
  take (Z.to_nat 2) (drop (Z.to_nat p) l) = to_be_bytes 2 (from_be_bytes [b0; b1]).
Proof.
  intros Hl H0 H1. pose proof (slice_nth_ok _ _ _ Hl H0). pose proof (slice_nth_ok _ _ _ Hl H1).
  rewrite (to_from_be_bytes [b0; b1] : _ → to_be_bytes 2 _ = _) by (apply Forall_cons; [done|]; by apply Forall_singleton).
  apply slice_nth_some in H0 as [? H0], H1 as [? H1]. replace (Z.to_nat (p + 1)) with (S (Z.to_nat p)) in H1 by lia.
  rewrite (drop_S _ _ _ H0), (drop_S _ _ _ H1). done.
Qed.

Lemma slice_nth_in l i : 0 <= i < Zlen l → ∃ b, slice_nth l i = Some b.
Proof. intros Hi. destruct (slice_nth l i) as [b|] eqn:E; [by exists b|]. apply slice_nth_none in E; lia. Qed.

Lemma slice_get_in l a b : 0 <= a <= b → b <= Zlen l → slice_get l a b = Some (take (Z.to_nat (b - a)) (drop (Z.to_nat a) l)).
Proof. intros. unfold slice_get. by replace ((0 <=? a) && (a <=? b) && (b <=? Zlen l)) with true by lia. Qed.

Lemma u16_range b0 b1 : is_u8 b0 → is_u8 b1 → 0 <= from_be_bytes [b0; b1] <= 65535.
Proof. intros [? ?] [? ?]. change (from_be_bytes [b0; b1]) with (b1 + 256 * (b0 + 256 * 0)). lia. Qed.

Lemma bfile_at_spec l p : bytes_ok l → Zlen l <= I64_MAX → 0 <= p < Zlen l - 4 →
  ∃ o, bfile_at l p = Ok o ∧ ∀ dir file, o = Some (Some (dir, file)) → names_at_end l dir file.
Proof.
  intros Hl Hmax Hp. unfold bfile_at, index. unfold I64_MAX in Hmax.
  destruct (slice_nth_in l p) as [d0 E0]; [lia|]. destruct (slice_nth_in l (p + 1)) as [d1 E1]; [lia|]. rewrite E0, E1. cbn [or_panic]. st_run.
  pose proof (u16_range d0 d1 (slice_nth_ok _ _ _ Hl E0) (slice_nth_ok _ _ _ Hl E1)) as Hdr.
  pose proof (two_bytes_at l p d0 d1 Hl E0 E1) as Hd2. set (dl := from_be_bytes [d0; d1]) in *.
  destruct (Z.eqb_spec dl 0); [by eexists|]. rewrite !try_range_in by (unfold USIZE_MAX, U64_MAX; lia).
  destruct (Z.ltb_spec (Zlen l) (p + 2 + dl + 2)); [by eexists|].
  destruct (slice_nth_in l (p + 2 + dl)) as [f0 F0]; [lia|]. destruct (slice_nth_in l (p + 2 + dl + 1)) as [f1 F1]; [lia|]. rewrite F0, F1. cbn [or_panic]. st_run.
  pose proof (u16_range f0 f1 (slice_nth_ok _ _ _ Hl F0) (slice_nth_ok _ _ _ Hl F1)) as Hfr.
  pose proof (two_bytes_at l (p + 2 + dl) f0 f1 Hl F0 F1) as Hf2. set (fl := from_be_bytes [f0; f1]) in *.
  destruct (Z.eqb_spec fl 0); [by eexists|]. rewrite try_range_in by (unfold USIZE_MAX, U64_MAX; lia).
  destruct (Z.eqb_spec (p + 2 + dl + 2 + fl) (Zlen l)) as [Hend|]; cbn [negb]; [|by eexists].
  rewrite !slice_get_in by lia. cbn [or_panic]. st_run. eexists. split; [done|]. intros dir file Ho.
  destruct (utf8_valid _ && utf8_valid _) eqn:Eu; [|done]. apply andb_true_iff in Eu as [Hu1 Hu2]. injection Ho as <- <-.
  exists (take (Z.to_nat p) l).
  replace (p + 2 + dl - (p + 2)) with dl by lia. replace (p + 2 + dl + 2 + fl - (p + 2 + dl + 2)) with fl by lia.
  replace (p + 2 + dl - (p + 2)) with dl in Hu1 by lia. replace (p + 2 + dl + 2 + fl - (p + 2 + dl + 2)) with fl in Hu2 by lia.
  assert (Zlen (take (Z.to_nat dl) (drop (Z.to_nat (p + 2)) l)) = dl) as Hzd by (unfold Zlen in *; rewrite length_take, length_drop; lia).
  assert (Zlen (take (Z.to_nat fl) (drop (Z.to_nat (p + 2 + dl + 2)) l)) = fl) as Hzf by (unfold Zlen in *; rewrite length_take, length_drop; lia).
  rewrite Hzd, Hzf, <- Hd2, <- Hf2. split_and!; [|intros E|intros E|done|done].
  - rewrite (take_ge (drop (Z.to_nat (p + 2 + dl + 2)) l)) by (rewrite length_drop; unfold Zlen in *; lia).
    by rewrite <- (drop_split l (p + 2 + dl) 2), <- (drop_split l (p + 2) dl), <- (drop_split l p 2), take_drop by lia.
  - rewrite E, Zlen_nil in Hzd. lia.
  - rewrite E, Zlen_nil in Hzf. lia.
Qed.

Lemma bfile_scan_spec l n : ∀ p, bytes_ok l → Zlen l <= I64_MAX → 0 <= p → p + Z.of_nat n <= Z.max 0 (Zlen l - 4) →
  ∃ o, bfile_scan l n p = Ok o ∧ ∀ dir file, o = Some (dir, file) → names_at_end l dir file.
Proof.
  induction n as [|n IH]; intros p Hl Hmax Hp Hn; cbn [bfile_scan]; [by eexists|].
  destruct (bfile_at_spec l p Hl Hmax) as (o & -> & Ho); [lia|]. st_run. destruct o as [r|].
  - exists r. split; [done|]. intros dir file ->. by apply Ho.
  - apply IH; [done|done|lia|lia].
Qed.

(** C39: Every object image is decoded to an answer.  Whatever the bytes and the type's
    description, decoding returns a value or an error, never out of the image's bounds; a
    value has the schema and the name of its type, an object one value for each attribute
    under its name and in order, a collection no more elements than the image has bytes
    or than a million.  XML documents and BFILE names too are found or refused, and a
    directory and a file that are found stand at the end of the locator behind their
    lengths. *)
Theorem object_decode_total b ty :
  bytes_ok b → Zlen b <= I64_MAX →
  match decode_object b ty with Ok v => fits_type ty (Zlen b) v | Err _ => True | _ => False end ∧
  returns (decode_dbobject_xmltype_text b) ∧
  ∃ o, decode_bfile_locator_name b = Ok o ∧ ∀ dir file, o = Some (dir, file) → names_at_end b dir file.
Proof.
  intros Hb Hmax. pose proof (Zlen_nonneg b).
  assert (packed_ok (packed_new b)) as Hr by (split; [done|]; cbn [packed_new pr_pos pr_bytes]; lia).
  split; [|split].
  - unfold decode_object, decode_object_from. st_run. unfold check_response_bytes, check. destruct (_ <=? _); st_run; [|done].
    pose proof (psafe_header _ Hr) as Hh. destruct (read_header (packed_new b)) as [[[]|e| |] r1]; [|done|by destruct Hh as (_&_&_&_&?)..]. destruct Hh as (Hr1 & Hb1 & Hl1 & _ & _).
    cbn [pr_bytes pr_limits packed_new] in Hb1, Hl1. unfold fits_type. destruct (ot_element ty) as [elem|].
    + destruct (psafe_collection ty elem (Zlen b)) as [Hs He]. specialize (Hs r1 Hr1). specialize (He r1 Hr1 Hl1 ltac:(rewrite Hb1; lia)).
      destruct (decode_collection ty elem r1) as [[v|e| |] r2]; [|by cbn in *|by destruct Hs as (_&_&_&_&?)..].
      destruct Hs as (_ & _ & _ & _ & (? & ? & ?) & _). split; [done|]. split; [done|]. split; [done|exact He].
    + pose proof (psafe_attributes (ot_attributes ty) r1 Hr1) as Ha. rewrite st_bindE.
      destruct (decode_attributes _ r1) as [[l|e| |] r2]; [|by cbn in *|by destruct Ha as (_&_&_&_&?)..].
      destruct Ha as (_ & _ & _ & _ & Ha & _). cbn. tauto.
  - unfold decode_dbobject_xmltype_text. assert (psafe 0 decode_xmltype (λ _, True)) as Hx.
    { unfold decode_xmltype. eapply psafe_bind; [apply psafe_header|]. intros _ _. eapply psafe_bind; [apply psafe_skip; lia|]. intros _ _.
      eapply psafe_bind; [apply psafe_u32|]. intros x _. eapply (psafe_bind _ 0 _ _ (λ _, True)).
      { destruct (negb _); [|by apply psafe_ret; [lia|]]. eapply psafe_weaken; [| |apply (psafe_skip 4)]; [lia|done|lia]. }
      intros _ _. eapply (psafe_bind _ 0 _ _ (λ n, 0 <= n)).
      { intros r Hr'. rewrite getsE. split; [done|]. split; [done|]. split; [done|]. split; [lia|]. split; [unfold bytes_left, sat_sub; lia|lia]. }
      intros n Hn. eapply psafe_bind; [by apply psafe_raw|]. intros d [Hd _]. destruct (negb _).
      - eapply psafe_bind; [by apply psafe_lift, dbobject_text_total|]. intros t _. cbn beta in Hn. by apply psafe_ret; [lia|].
      - cbn beta in Hn. destruct (negb _); [by apply psafe_ret; [lia|]|apply psafe_throw]. }
    specialize (Hx _ Hr). destruct (decode_xmltype (packed_new b)) as [[v|e| |] r2]; [done|done|by destruct Hx as (_&_&_&_&?)..].
  - unfold decode_bfile_locator_name. apply bfile_scan_spec; [done|done|lia|]. unfold sat_sub. lia.
Qed.

(** A collection that declares three elements and has one; a BFILE locator. *)
Lemma object_decode_total_witness :
  decode_object [136; 1; 254; 0; 0; 0; 13; 1; 1; 0; 3; 1; 65] (mkObjectType [] [] [] (Some (mkElement (txt "VARCHAR2") None))) = Err truncated ∧
  decode_bfile_locator_name ([9; 9] ++ [0; 3] ++ txt "DIR" ++ [0; 5] ++ txt "a.txt") = Ok (Some (txt "DIR", txt "a.txt")) ∧
  returns (decode_dbobject_xmltype_text [136; 1; 254; 0; 0; 0; 13; 1; 1; 0; 3; 1; 65]).
Proof.
  split; [vm_compute; reflexivity|]. split; [vm_compute; reflexivity|].
  apply (object_decode_total [136; 1; 254; 0; 0; 0; 13; 1; 1; 0; 3; 1; 65] (mkObjectType [] [] [] None)).
  - apply (bool_decide_unpack _). vm_compute. exact I.
  - vm_compute. discriminate.
Defined.

(** An object bound to a statement and an object fetched have the same frame: for every
    object identifier and non-empty image within the limits, what [write_dbobject_bind]
    writes is what [parse_object_value] reads, and the image comes back whole. *)
Theorem object_bind_frame lim c oid image w :
  8 <= max_response_bytes lim → max_response_bytes lim <= U32_MAX → max_lob_chunks lim <= USIZE_MAX →
  image ≠ [] → Zlen image <= max_response_bytes lim → Zlen image <= 32767 * max_lob_chunks lim →
  Zlen oid + 20 <= max_response_bytes lim → Zlen oid + 20 <= 32767 * max_lob_chunks lim →
  ∃ w', write_dbobject_bind oid image w = (Ok (), w') ∧
    reads_back lim w w' (parse_object_value c) (Some (VObject (object_schema c) (object_type_name c) image)).
Proof.
  intros. destruct (object_value_parses lim c oid image) as (enc & Hw & Hp); [done..|].
  exists (write_raw enc w). split; [by rewrite Hw|by apply parses_reads_back].
Qed.

(** The extent identifier is not the documented one, whose bytes end in 0, 1, 0, 1; a
    BINARY_INTEGER beyond 32 bits is cut off without an error. *)
Example object_image_divergences :
  TNS_EXTENT_OID ≠ to_be_bytes 16 65537 ∧
  pack_bindvalue_into_image (BBinaryInteger (txt "4294967297")) 1 [] = (Ok (), [4; 0; 0; 0; 1]) ∧
  pack_bindvalue_into_image (BBinaryInteger (txt "1")) 1 [] = (Ok (), [4; 0; 0; 0; 1]).
Proof. split; [discriminate|]. vm_compute. done. Qed.

(** The conversion to the narrow float, at a tie, below the normal range and above it. *)
Example f32_narrow_values :
  f32_narrow 4591870180066957722 = 1036831949 ∧
  f32_narrow 0 = 0 ∧ f32_narrow 9223372036854775808 = 2147483648 ∧
  f32_narrow (f32_widen 1) = 1 ∧ f32_narrow (f32_widen 8388607) = 8388607 ∧ f32_narrow (f32_widen 2139095039) = 2139095039 ∧
  f32_narrow 5183643171103440896 = 2139095040 ∧ f32_narrow (Z.shiftl 1023 52 + 2 ^ 28) = 1065353216 ∧
  f32_narrow (Z.shiftl 1023 52 + 2 ^ 28 + 1) = 1065353217.
Proof. vm_compute. done. Qed.

Lemma object_bind_frame_witness :
  ∃ w', write_dbobject_bind [1; 2] [132; 1; 254; 0; 0; 0; 8; 255] writer_new = (Ok (), w') ∧
    reads_back limits_DEFAULT writer_new w' (parse_object_value (column_new (txt "C") ORA_TYPE_NUM_OBJECT))
      (Some (VObject (object_schema (column_new (txt "C") ORA_TYPE_NUM_OBJECT)) (object_type_name (column_new (txt "C") ORA_TYPE_NUM_OBJECT)) [132; 1; 254; 0; 0; 0; 8; 255])).
Proof. apply (object_bind_frame limits_DEFAULT (column_new (txt "C") ORA_TYPE_NUM_OBJECT) [1; 2]); vm_compute; discriminate. Defined.
