(* ===== verification/Layout.v ===== *)
(** * Layouts of request messages

    A request is a sequence of fields of fixed kinds.  [emit] makes a run of writer calls;
    [read_fields] is the reader of the same run, and [layout] its bytes. *)

From S2P Require Import Prelude.
From S2P Require Import Protocol.
From S2P Require Import Limits.
From S2P Require Import Writer.
From S2P Require Import Reader.
From S2P Require Import Wire.

(** Calls on one writer, in the order they are made. *)
Definition emit (fs : list (TtcWriter → TtcWriter)) : WriterM () :=
  modify (λ w, foldl (λ w f, f w) w fs).

(** A message built in a writer of its own. *)
Definition build (m : WriterM ()) : Res bytes :=
  let '(r, w) := m writer_new in _ ← r; Ok (into_bytes w).

(** [u32::try_from(n).map_err(InvalidPacketLength)?] *)
Definition u32_length (n : Z) : Res Z := ok_or (try_range 0 U32_MAX n) (InvalidPacketLength n 0).

Inductive FieldKind := FU8 | FU16 | FUB2 | FUB4 | FUB8.

Definition kind_max (k : FieldKind) : Z :=
  match k with FU8 => U8_MAX | FU16 | FUB2 => U16_MAX | FUB4 => U32_MAX | FUB8 => U64_MAX end.
Definition put (f : FieldKind * Z) : TtcWriter → TtcWriter :=
  match f with
  | (FU8, v) => write_u8 v
  | (FU16, v) => write_u16be v
  | (FUB2, v) => write_ub2 v
  | (FUB4, v) => write_ub4 v
  | (FUB8, v) => write_ub8 v
  end.
Definition field_enc (f : FieldKind * Z) : bytes :=
  match f with
  | (FU8, v) => [v]
  | (FU16, v) => to_be_bytes 2 v
  | (FUB2, v) => ub2_bytes v
  | (FUB4, v) => ub4_bytes v
  | (FUB8, v) => ub8_bytes v
  end.
Definition read_field (k : FieldKind) : ReaderM Z :=
  match k with
  | FU8 => read_u8
  | FU16 => read_u16be
  | FUB2 => read_ub2
  | FUB4 => read_ub4
  | FUB8 => read_ub8
  end.
Definition in_range (f : FieldKind * Z) : Prop := 0 <= f.2 <= kind_max f.1.

Fixpoint read_fields (ks : list FieldKind) : ReaderM (list Z) :=
  match ks with
  | [] => mret []
  | k :: ks => v ← read_field k; vs ← read_fields ks; mret (v :: vs)
  end.
Definition layout (fs : list (FieldKind * Z)) : bytes := concat (map field_enc fs).

Lemma put_spec f w : in_range f → put f w = write_raw (field_enc f) w.
Proof.
  destruct f as [[] v]; cbn; intros H;
    [done|done|by apply write_ub2_spec|by apply write_ub4_spec|by apply write_ub8_spec].
Qed.

Lemma emitted fs : Forall in_range fs → ∀ w, foldl (λ w f, f w) w (map put fs) = write_raw (layout fs) w.
Proof.
  induction 1 as [|f fs Hf _ IH]; intros w; [symmetry; apply write_raw_nil|]. cbn [map foldl].
  rewrite IH, put_spec by done. by rewrite write_raw_raw.
Qed.

Lemma emit_layout fs : Forall in_range fs → ∀ w, emit (map put fs) w = (Ok (), write_raw (layout fs) w).
Proof. intros H w. unfold emit, modify. by rewrite emitted. Qed.

Lemma emit_join {A} l1 l2 (k : () → WriterM A) w :
  (_ ← emit l1; _ ← emit l2; k ()) w = (_ ← emit (l1 ++ l2); k ()) w.
Proof. unfold emit. st_run. by rewrite foldl_app. Qed.

Lemma layout_app fs gs : layout (fs ++ gs) = layout fs ++ layout gs.
Proof. unfold layout. by rewrite map_app, concat_app. Qed.

Lemma layout_ok fs : Forall in_range fs → bytes_ok (layout fs).
Proof.
  induction 1 as [|[k v] fs Hf _ IH]; [apply Forall_nil|]. cbn [layout map concat]. apply Forall_app. split; [|done].
  unfold in_range in Hf. destruct k; cbn [field_enc kind_max fst snd] in *; [apply Forall_cons; [unfold is_u8, U8_MAX in *; lia|apply Forall_nil]|apply to_be_bytes_ok|..];
    unfold ub2_bytes, ub4_bytes, ub8_bytes, U8_MAX in *; int_cases;
    repeat first [apply Forall_nil | apply to_be_bytes_ok | apply Forall_cons; [unfold is_u8; lia|]].
Qed.

Section Parse.
Context (lim : ProtocolLimits) (H8 : 8 <= max_response_bytes lim).

(** The last action. *)
Lemma parses_last {A B} (m : ReaderM A) (f : A → ReaderM B) e a b :
  parses lim m e a → parses lim (f a) [] b → parses lim (m ≫= f) e b.
Proof. intros Hm Hf. rewrite <- (app_nil_r e). by eapply parses_bind. Qed.

Lemma read_u16be_parses v : 0 <= v <= U16_MAX → parses lim read_u16be (to_be_bytes 2 v) v.
Proof.
  intros Hv. unfold read_u16be. unfold U16_MAX in Hv. eapply parses_last; [apply read_raw_parses'; autorewrite with thin; lia|].
  eapply parses_bind_nil; [by apply parses_lift; unfold to_array; autorewrite with thin|].
  rewrite from_to_be_bytes by lia. apply parses_ret.
Qed.

Lemma field_parses f : in_range f → parses lim (read_field f.1) (field_enc f) f.2.
Proof.
  destruct f as [[] v]; cbn; intros H;
    [apply read_u8_parses|by apply read_u16be_parses|by apply read_ub2_parses|by apply read_ub4_parses|by apply read_ub8_parses].
Qed.

Lemma fields_parse fs : Forall in_range fs → parses lim (read_fields (map fst fs)) (layout fs) (map snd fs).
Proof.
  induction 1 as [|f fs Hf _ IH]; [apply parses_ret|]. cbn [read_fields map layout concat].
  eapply parses_bind; [by apply field_parses|]. eapply parses_last; [exact IH|apply parses_ret].
Qed.
End Parse.

(** The fields of a list of writer calls. *)
Ltac field_of f :=
  lazymatch f with
  | write_u8 ?v => constr:((FU8, v))
  | write_u16be ?v => constr:((FU16, v))
  | write_ub2 ?v => constr:((FUB2, v))
  | write_ub4 ?v => constr:((FUB4, v))
  | write_ub8 ?v => constr:((FUB8, v))
  end.
Ltac fields_of l :=
  lazymatch l with
  | nil => constr:(@nil (FieldKind * Z))
  | ?f :: ?l => let x := field_of f in let xs := fields_of l in constr:(x :: xs)
  end.

(** Ranges of a run of fields. *)
Ltac ranges :=
  repeat first [apply Forall_nil | apply Forall_cons; [unfold in_range; cbn [fst snd kind_max]; unfold U8_MAX, U16_MAX, U32_MAX, U64_MAX in *; lia|]].

(** Replaces an [emit] by the bytes it appends. *)
Ltac emit_run :=
  match goal with
  | |- context [emit ?l ?w] =>
      let fs := fields_of l in
      change (emit l w) with (emit (map put fs) w); rewrite (emit_layout fs) by ranges
  end.
