(* ===== verification/Execute.v ===== *)
(** * Execute and fetch requests ([thin/execute.rs], [thin/bind.rs], [thin/fetch.rs], [vector.rs])

    The messages that run a statement: the execute request with its bound rows, the fetch
    and define-fetch requests, the close-cursors piggyback that goes in front of them.  A
    field that an older server does not read is left out by the negotiated version. *)

From S2P Require Import Prelude.
From S2P Require Import Protocol.
From S2P Require Import Writer.
From S2P Require Import Layout.
From S2P Require Import Datetime.
From S2P Require Import Number.
From S2P Require Import Vector.
From S2P Require Import Sql.
From S2P Require Import ShapeCache.
From S2P Require Import Binds.
From S2P Require Import StatementCache.
From S2P Require Import Utf.
From S2P Require Import Fetch.
From S2P Require Import ObjectImage.

Definition TNS_FUNC_EXECUTE : Z := 94.
Definition TNS_FUNC_FETCH : Z := 5.
Definition TNS_FUNC_CLOSE_CURSORS : Z := 105.
Definition TNS_EXEC_OPTION_PARSE : Z := 1.
Definition TNS_EXEC_OPTION_BIND : Z := 8.
Definition TNS_EXEC_OPTION_DEFINE : Z := 16.
Definition TNS_EXEC_OPTION_EXECUTE : Z := 32.
Definition TNS_EXEC_OPTION_FETCH : Z := 64.
Definition TNS_EXEC_OPTION_PLSQL_BIND : Z := 1024.
Definition TNS_EXEC_OPTION_NOT_PLSQL : Z := 32768.
Definition TNS_EXEC_OPTION_DESCRIBE : Z := 131072.
Definition TNS_EXEC_OPTION_BATCH_ERRORS : Z := 524288.
Definition TNS_EXEC_FLAGS_DML_ROWCOUNTS : Z := 16384.
Definition TNS_EXEC_FLAGS_SCROLLABLE : Z := 2.
Definition TNS_EXEC_FLAGS_NO_CANCEL_ON_EOF : Z := 128.
Definition TNS_EXEC_FLAGS_IMPLICIT_RESULTSET : Z := 32768.
Definition TNS_ESCAPE_CHAR : Z := 253.
Definition TNS_LOB_QLOCATOR_VERSION : Z := 4.
Definition TNS_LOB_LOC_FLAGS_VALUE_BASED : Z := 32.
Definition TNS_LOB_LOC_FLAGS_BLOB : Z := 1.
Definition TNS_LOB_LOC_FLAGS_ABSTRACT : Z := 64.
Definition TNS_LOB_LOC_FLAGS_INIT : Z := 8.

(** ** Images behind a locator ([vector.rs]) *)

Definition write_qlocator (data_length : Z) (write_length : bool) : WriterM () :=
  _ ← modify (write_ub4 40);
  _ ← (if write_length then modify (write_u8 40) else mret ());
  emit [write_u16be 38; write_u16be TNS_LOB_QLOCATOR_VERSION;
        write_u8 (Z.lor (Z.lor TNS_LOB_LOC_FLAGS_VALUE_BASED TNS_LOB_LOC_FLAGS_BLOB) TNS_LOB_LOC_FLAGS_ABSTRACT);
        write_u8 TNS_LOB_LOC_FLAGS_INIT; write_u16be 0; write_u16be 1; write_u64be data_length;
        write_u16be 0; write_u16be 0; write_u16be 0; write_u64be 0; write_u64be 0].

Definition write_vector_image (image : bytes) : WriterM () :=
  _ ← write_qlocator (Zlen image) true; write_bytes_with_length image.

Definition write_oson_aq_payload (image : bytes) : WriterM () :=
  _ ← write_qlocator (Zlen image) false; write_bytes_with_length image.

(** ** A bound value ([thin/bind.rs]) *)

Definition write_coded (r : Res bytes) : WriterM () := b ← lift r; write_bytes_with_length b.

Fixpoint write_bind_value (value : BindValue) (csfrm : Z) : WriterM () :=
  match value with
  | BTypedNull t _ _ =>
      if t =? ORA_TYPE_NUM_CURSOR then emit [write_u8 1; write_u8 0]
      else if t =? ORA_TYPE_NUM_BOOLEAN then emit [write_u8 TNS_ESCAPE_CHAR; write_u8 1]
      else modify (write_u8 0)
  | BNull | BOutput _ _ _ | BReturnOutput _ _ _ => modify (write_u8 0)
  | BInOut value _ => write_bind_value value csfrm
  | BObjectOutput _ _ _ _ _ _ =>
      emit [write_ub4 0; write_ub4 0; write_ub4 0; write_ub2 0; write_ub4 0; write_ub4 TNS_OBJ_TOP_LEVEL]
  | BObjectInput _ _ oid _ image _ => write_dbobject_bind oid image
  | BText value =>
      if csfrm =? CS_FORM_NCHAR then write_bytes_with_length (encode_text_value (as_bytes value) csfrm)
      else write_bytes_with_length (as_bytes value)
  | BRaw value => write_bytes_with_length value
  | BLob _ _ locator => write_bytes_with_two_lengths (Some locator)
  | BNumber value | BBinaryInteger value => write_coded (encode_number_text (as_bytes value))
  | BBoolean value => write_bytes_with_length (if value then [1; 1] else [0])
  | BBinaryDouble bits => write_bytes_with_length (encode_binary_double bits)
  | BBinaryFloat bits => write_bytes_with_length (encode_binary_float (f32_narrow bits))
  | BIntervalDS days seconds microseconds =>
      write_coded (nanoseconds ← interval_nanoseconds microseconds; encode_interval_ds days seconds nanoseconds)
  | BIntervalYM years months => write_coded (encode_interval_ym years months)
  | BDateTime year month day hour minute second =>
      write_coded (encode_oracle_date year month day hour minute second)
  | BTimestamp t year month day hour minute second nanosecond =>
      write_coded (timestamp_bytes t year month day hour minute second nanosecond)
  | BTimestampTz year month day hour minute second nanosecond offset_minutes =>
      write_coded (encode_oracle_timestamp_tz_with_offset year month day hour minute second nanosecond offset_minutes)
  | BArray _ array_csfrm _ _ values =>
      count ← lift (u32_length (Zlen values));
      _ ← modify (write_ub4 count);
      (fix elements (values : list (option BindValue)) : WriterM () :=
         match values with
         | [] => mret ()
         | value :: values =>
             _ ← (match value with
                  | Some value => write_bind_value value array_csfrm
                  | None => modify (write_u8 0)
                  end);
             elements values
         end) values
  | BVector vector => image ← lift (encode_vector_checked vector); write_vector_image image
  | BJson image => write_vector_image image
  | BCursor cursor_id =>
      if cursor_id =? 0 then emit [write_u8 1; write_u8 0] else emit [write_ub4 1; write_ub4 cursor_id]
  end.

(** ** Bound rows ([thin/execute.rs]) *)

(** Whether a value of this column goes behind the others. *)
Definition sent_last (bind_metadata : list (Z * Z * Z)) (max_string_size : Z) (index : nat) : bool :=
  match bind_metadata !! index with
  | Some (t, _, size) => is_long_type t || (max_string_size <? size)
  | None => false
  end.

(** The loop of [bind_row_value_order], with the two vectors it fills. *)
Fixpoint order_loop (row : list BindValue) (index : nat) (bind_metadata : list (Z * Z * Z)) (is_plsql : bool)
  (max_string_size : Z) (non_long long : list nat) : list nat * list nat :=
  match row with
  | [] => (non_long, long)
  | value :: row =>
      let next := order_loop row (S index) bind_metadata is_plsql max_string_size in
      if negb is_plsql && is_output_only value then next non_long long
      else if negb is_plsql && sent_last bind_metadata max_string_size index
      then next non_long (long ++ [index])
      else next (non_long ++ [index]) long
  end.

Definition bind_row_value_order (row : list BindValue) (bind_metadata : list (Z * Z * Z)) (is_plsql : bool)
  (max_string_size : Z) : list nat :=
  let '(non_long, long) := order_loop row 0 bind_metadata is_plsql max_string_size [] [] in
  non_long ++ long.

(** The character-set form a value is written with. *)
Definition csfrm_at (bind_metadata : list (Z * Z * Z)) (index : nat) : Z :=
  match bind_metadata !! index with
  | Some (_, csfrm, _) => csfrm
  | None => CS_FORM_IMPLICIT
  end.

(** [&row[index]] panics out of range. *)
Fixpoint write_row_values (row : list BindValue) (bind_metadata : list (Z * Z * Z)) (order : list nat) : WriterM () :=
  match order with
  | [] => mret ()
  | index :: order =>
      value ← lift (match row !! index with Some value => Ok value | None => Panic end);
      _ ← write_bind_value value (csfrm_at bind_metadata index);
      write_row_values row bind_metadata order
  end.

Fixpoint write_rows (rows : BindRows) (bind_metadata : list (Z * Z * Z)) (is_plsql : bool) (max_string_size : Z)
  : WriterM () :=
  match rows with
  | [] => mret ()
  | row :: rows =>
      _ ← (if negb is_plsql && forallb is_output_only row then mret ()
           else
             _ ← modify (write_u8 TNS_MSG_TYPE_ROW_DATA);
             write_row_values row bind_metadata (bind_row_value_order row bind_metadata is_plsql max_string_size));
      write_rows rows bind_metadata is_plsql max_string_size
  end.

Fixpoint write_metadata (indexes : list nat) (bind_rows : BindRows) (ttc_field_version : Z) : WriterM (list (Z * Z * Z)) :=
  match indexes with
  | [] => mret []
  | index :: indexes =>
      m ← write_bind_metadata_for_rows bind_rows index ttc_field_version;
      rest ← write_metadata indexes bind_rows ttc_field_version;
      mret (m :: rest)
  end.

Definition write_bind_params (bind_rows : BindRows) (is_plsql : bool) (max_string_size ttc_field_version : Z)
  : WriterM () :=
  match bind_rows with
  | [] => mret ()
  | first_row :: _ =>
      bind_metadata ← write_metadata (seq 0 (length first_row)) bind_rows ttc_field_version;
      write_rows bind_rows bind_metadata is_plsql max_string_size
  end.

(** ** The execute request *)

Definition flag (b : bool) (bit : Z) (options : Z) : Z := if b then Z.lor options bit else options.

Definition needs_parse (sql : chars) (o : ExecuteOptions) : bool := (o_cursor_id o =? 0) || statement_is_ddl sql.

Definition execute_option_bits (sql : chars) (is_query : bool) (bind_count : Z) (o : ExecuteOptions) : Z :=
  let is_plsql := statement_is_plsql sql in
  let options := flag (needs_parse sql o) TNS_EXEC_OPTION_PARSE 0 in
  let options := flag (negb (parse_only o) && negb (scroll_operation o)) TNS_EXEC_OPTION_EXECUTE options in
  let options :=
    if is_query then
      if parse_only o then Z.lor options TNS_EXEC_OPTION_DESCRIBE
      else if negb (no_prefetch o) then Z.lor options TNS_EXEC_OPTION_FETCH else options
    else options in
  let options := flag ((0 <? bind_count) && negb (scroll_operation o)) TNS_EXEC_OPTION_BIND options in
  let options :=
    if is_plsql then flag (0 <? bind_count) TNS_EXEC_OPTION_PLSQL_BIND options
    else flag (negb (parse_only o)) TNS_EXEC_OPTION_NOT_PLSQL options in
  flag (batcherrors o) TNS_EXEC_OPTION_BATCH_ERRORS options.

Definition execute_num_iters (is_query : bool) (prefetch_rows : Z) (o : ExecuteOptions) : Z :=
  if is_query && negb (parse_only o) then prefetch_rows else 1.

Definition execute_count (is_query : bool) (prefetch_rows bind_row_count : Z) (o : ExecuteOptions) : Z :=
  if parse_only o then 0
  else if is_query then
    if o_cursor_id o =? 0 then 0 else execute_num_iters is_query prefetch_rows o
  else Z.max bind_row_count 1.

Definition execute_flag_bits (o : ExecuteOptions) : Z :=
  let flags := if parse_only o then 0 else TNS_EXEC_FLAGS_IMPLICIT_RESULTSET in
  let flags := flag (arraydmlrowcounts o) TNS_EXEC_FLAGS_DML_ROWCOUNTS flags in
  if scrollable o && negb (parse_only o)
  then Z.lor (Z.lor flags TNS_EXEC_FLAGS_SCROLLABLE) TNS_EXEC_FLAGS_NO_CANCEL_ON_EOF
  else flags.

Definition write_execute (sql : chars) (prefetch_rows seq : Z) (is_query : bool) (bind_rows : BindRows)
  (o : ExecuteOptions) (ttc_field_version : Z) : WriterM () :=
  let sql_bytes := as_bytes sql in
  sql_len ← lift (u32_length (Zlen sql_bytes));
  let bind_count := match bind_rows with row :: _ => Zlen row | [] => 0 end in
  _ ← (if forallb (λ row, Zlen row =? bind_count) bind_rows then mret ()
       else throw (TtcDecode "inconsistent bind row width"));
  bind_count ← lift (u32_length bind_count);
  bind_row_count ← lift (u32_length (Zlen bind_rows));
  _ ← modify (write_function_code_with_seq TNS_FUNC_EXECUTE seq);
  _ ← (if writes_pipeline_token ttc_field_version then modify (write_ub8 (token_num o))
       else if token_num o =? 0 then mret () else lift Panic);
  let is_plsql := statement_is_plsql sql in
  let num_iters := execute_num_iters is_query prefetch_rows o in
  let exec_count := execute_count is_query prefetch_rows bind_row_count o in
  _ ← emit [write_ub4 (execute_option_bits sql is_query bind_count o); write_ub4 (o_cursor_id o)];
  _ ← emit (if needs_parse sql o then [write_u8 1; write_ub4 sql_len] else [write_u8 0; write_ub4 0]);
  _ ← emit [write_u8 1; write_ub4 13; write_u8 0; write_u8 0; write_ub4 0; write_ub4 num_iters;
            write_ub4 TNS_MAX_LONG_LENGTH];
  _ ← emit (if bind_count =? 0 then [write_u8 0; write_ub4 0] else [write_u8 1; write_ub4 bind_count]);
  _ ← emit [write_u8 0; write_u8 0; write_u8 0; write_u8 0; write_u8 0; write_u8 0; write_ub4 0;
            write_ub4 (Z.land (registration_id o) U32_MAX);
            write_u8 0; write_u8 1; write_u8 0; write_ub4 0; write_u8 0; write_ub4 0;
            write_ub4 (Z.land (Z.shiftr (registration_id o) 32) U32_MAX)];
  _ ← emit (if arraydmlrowcounts o then [write_u8 1; write_ub4 exec_count; write_u8 1]
            else [write_u8 0; write_ub4 0; write_u8 0]);
  _ ← emit (if writes_al8sqlsig ttc_field_version then
              [write_u8 0; write_ub4 0; write_u8 0; write_ub4 0; write_u8 0] ++
              (if writes_execute_chunk_ids ttc_field_version then [write_u8 0; write_ub4 0] else [])
            else []);
  _ ← (if needs_parse sql o
       then _ ← write_bytes_with_length sql_bytes; modify (write_ub4 1)
       else modify (write_ub4 0));
  _ ← emit [write_ub4 exec_count; write_ub4 0; write_ub4 0; write_ub4 0; write_ub4 0; write_ub4 0;
            write_ub4 (Z.b2z is_query); write_ub4 0; write_ub4 (execute_flag_bits o);
            write_ub4 (fetch_orientation o); write_ub4 (fetch_pos o); write_ub4 0];
  if negb (bool_decide (bind_rows = [])) && negb (scroll_operation o)
  then write_bind_params bind_rows is_plsql (max_string_size o) ttc_field_version
  else mret ().

Definition build_execute_payload_with_bind_rows_and_options_with_seq (sql : chars) (prefetch_rows seq : Z)
  (is_query : bool) (bind_rows : BindRows) (o : ExecuteOptions) (ttc_field_version : Z) : Res bytes :=
  build (write_execute sql prefetch_rows seq is_query bind_rows o ttc_field_version).

Definition build_execute_payload_with_bind_rows_with_seq (sql : chars) (prefetch_rows seq : Z) (is_query : bool)
  (bind_rows : BindRows) (ttc_field_version : Z) : Res bytes :=
  build_execute_payload_with_bind_rows_and_options_with_seq sql prefetch_rows seq is_query bind_rows
    options_default ttc_field_version.

Definition with_token_num (n : Z) (o : ExecuteOptions) : ExecuteOptions :=
  mkOptions (batcherrors o) (arraydmlrowcounts o) (parse_only o) n (o_cursor_id o) (cache_statement o)
    (scrollable o) (fetch_orientation o) (fetch_pos o) (scroll_operation o) (suspend_on_success o)
    (no_prefetch o) (registration_id o) (max_string_size o).

Definition build_execute_payload_with_bind_rows_with_seq_and_token (sql : chars) (prefetch_rows seq : Z)
  (is_query : bool) (bind_rows : BindRows) (token : Z) (ttc_field_version : Z) : Res bytes :=
  build_execute_payload_with_bind_rows_and_options_with_seq sql prefetch_rows seq is_query bind_rows
    (with_token_num token options_default) ttc_field_version.

Definition build_execute_payload_with_binds_with_seq (sql : chars) (prefetch_rows seq : Z) (is_query : bool)
  (binds : list BindValue) (ttc_field_version : Z) : Res bytes :=
  build_execute_payload_with_bind_rows_with_seq sql prefetch_rows seq is_query
    (if bool_decide (length binds = 0%nat) then [] else [binds]) ttc_field_version.

Definition build_execute_payload_with_seq (sql : chars) (prefetch_rows seq : Z) (is_query : bool)
  (ttc_field_version : Z) : Res bytes :=
  build_execute_payload_with_binds_with_seq sql prefetch_rows seq is_query [] ttc_field_version.

Definition build_execute_query_payload_with_seq (sql : chars) (prefetch_rows seq ttc_field_version : Z) : Res bytes :=
  build_execute_payload_with_seq sql prefetch_rows seq true ttc_field_version.

Definition build_execute_query_payload (sql : chars) (prefetch_rows ttc_field_version : Z) : Res bytes :=
  build_execute_query_payload_with_seq sql prefetch_rows 1 ttc_field_version.

(** ** Cursors to close *)

Definition build_close_cursors_piggyback (cursor_ids : list Z) (seq ttc_field_version : Z) : bytes :=
  let w := write_piggyback_header TNS_FUNC_CLOSE_CURSORS seq ttc_field_version writer_new in
  let w := write_u8 1 w in
  let w := write_ub4 (default U32_MAX (try_range 0 U32_MAX (Zlen cursor_ids))) w in
  into_bytes (foldl (λ w id, write_ub4 id w) w cursor_ids).

(** ** Fetch requests ([thin/fetch.rs]) *)

Definition build_fetch_payload_with_seq (cursor_id arraysize seq ttc_field_version : Z) : bytes :=
  into_bytes (write_ub4 arraysize (write_ub4 cursor_id
    (write_function_header TNS_FUNC_FETCH seq ttc_field_version writer_new))).

Definition build_fetch_payload (cursor_id arraysize ttc_field_version : Z) : bytes :=
  build_fetch_payload_with_seq cursor_id arraysize 1 ttc_field_version.

(** Buffer size, continuation flags and prefetch length of a column to define. *)
Definition define_sizes (c : ColumnMetadata) : Z * Z * Z :=
  let t := ora_type_num c in
  if (t =? ORA_TYPE_NUM_CLOB) || (t =? ORA_TYPE_NUM_BLOB) then (buffer_size c, TNS_LOB_PREFETCH_FLAG, 0)
  else if t =? ORA_TYPE_NUM_VECTOR then (TNS_VECTOR_MAX_LENGTH, TNS_LOB_PREFETCH_FLAG, TNS_VECTOR_MAX_LENGTH)
  else if t =? ORA_TYPE_NUM_JSON then (TNS_JSON_MAX_LENGTH, TNS_LOB_PREFETCH_FLAG, TNS_JSON_MAX_LENGTH)
  else (buffer_size c, 0, 0).

Definition write_define_column_metadata (c : ColumnMetadata) (w : TtcWriter) : TtcWriter :=
  let '(size, cont_flags, lob_prefetch_length) := define_sizes c in
  foldl (λ w f, f w) w
    [write_u8 (ora_type_num c); write_u8 TNS_BIND_USE_INDICATORS; write_u8 0; write_u8 0;
     write_ub4 (Z.max size 1); write_ub4 0; write_ub8 cont_flags; write_ub4 0; write_ub2 0;
     write_ub2 (if negb (csfrm c =? 0) then TNS_CHARSET_UTF8 else 0);
     write_u8 (csfrm c); write_ub4 lob_prefetch_length; write_ub4 0].

Definition build_define_fetch_payload_with_seq (cursor_id arraysize seq : Z) (define_columns : list ColumnMetadata)
  (ttc_field_version : Z) : Res bytes :=
  build (
    define_count ← lift (u32_length (Zlen define_columns));
    _ ← modify (write_function_header TNS_FUNC_EXECUTE seq ttc_field_version);
    _ ← emit [write_ub4 (Z.lor TNS_EXEC_OPTION_DEFINE TNS_EXEC_OPTION_NOT_PLSQL); write_ub4 cursor_id;
              write_u8 0; write_ub4 0; write_u8 1; write_ub4 13; write_u8 0; write_u8 0; write_ub4 0;
              write_ub4 arraysize; write_ub4 TNS_MAX_LONG_LENGTH; write_u8 0; write_ub4 0;
              write_u8 0; write_u8 0; write_u8 0; write_u8 0; write_u8 0; write_u8 1; write_ub4 define_count;
              write_ub4 0; write_u8 0; write_u8 1; write_u8 0; write_ub4 0; write_u8 0; write_ub4 0; write_ub4 0;
              write_u8 0; write_ub4 0; write_u8 0];
    _ ← emit [write_u8 0; write_ub4 0; write_ub4 0; write_ub4 0; write_ub4 0; write_ub4 0; write_ub4 0; write_ub4 0];
    _ ← emit [write_ub4 arraysize; write_ub4 0; write_ub4 0; write_ub4 0; write_ub4 0; write_ub4 0;
              write_ub4 1; write_ub4 0; write_ub4 0; write_ub4 0; write_ub4 0; write_ub4 0];
    emit (map write_define_column_metadata define_columns)).
