(* ===== verification/BindWire.v ===== *)
(** * Bound values on the wire

    What [write_bind_value] and [write_bind_params] put into an execute request is read
    back: a value by the driver's own column reader, a batch of rows by a reader of the
    layout that a server follows, written here from the message's description. *)

From S2P Require Import Prelude.
From S2P Require Import Protocol.
From S2P Require Import Limits.
From S2P Require Import Writer.
From S2P Require Import Reader.
From S2P Require Import Wire.
From S2P Require Import Layout.
From S2P Require Import Datetime.
From S2P Require Import Number.
From S2P Require Import NumberWire.
From S2P Require Import Sql.
From S2P Require Import ShapeCache.
From S2P Require Import Binds.
From S2P Require Import Utf.
From S2P Require Import Fetch.
From S2P Require Import ObjectImage.
From S2P Require Import ObjectRoundtrip.
From S2P Require Import Execute.

(** ** The order of a row's values *)

Definition kept (row : list BindValue) (is_plsql : bool) (index : nat) : bool :=
  match row !! index with
  | Some value => is_plsql || negb (is_output_only value)
  | None => false
  end.
Definition goes_last (bind_metadata : list (Z * Z * Z)) (is_plsql : bool) (max_string_size : Z) (index : nat) : bool :=
  negb is_plsql && sent_last bind_metadata max_string_size index.

Lemma order_loop_run meta plsql max row : ∀ before non_long long,
  order_loop row (length before) meta plsql max non_long long =
  (non_long ++ List.filter (λ i, kept (before ++ row) plsql i && negb (goes_last meta plsql max i)) (seq (length before) (length row)),
   long ++ List.filter (λ i, kept (before ++ row) plsql i && goes_last meta plsql max i) (seq (length before) (length row))).
Proof.
  induction row as [|v row IH]; intros before nl l; [by cbn; rewrite !app_nil_r|]. cbn [order_loop length seq List.filter].
  specialize (IH (before ++ [v])). rewrite length_app, Nat.add_1_r in IH. rewrite <- app_assoc in IH. cbn [app] in IH.
  assert (kept (before ++ v :: row) plsql (length before) = plsql || negb (is_output_only v)) as ->
    by (unfold kept; by rewrite list_lookup_middle).
  assert (goes_last meta plsql max (length before) = negb plsql && sent_last meta max (length before)) as -> by done.
  destruct plsql; cbn [negb andb orb]; [rewrite IH; by rewrite <- app_assoc|].
  destruct (is_output_only v); cbn [negb andb]; [apply IH|].
  destruct (sent_last meta max (length before)); rewrite IH; cbn [negb]; by rewrite <- ?app_assoc.
Qed.

Lemma filter_all {A} (l : list A) : List.filter (λ _, true) l = l.
Proof. induction l as [|x l IH]; [done|]. cbn. by rewrite IH. Qed.
Lemma filter_none {A} (l : list A) : List.filter (λ _, false) l = [].
Proof. by induction l. Qed.

(** The order in which a row's values are sent.  Every value that is sent is sent once:
    all of them in a PL/SQL block, in a SQL statement the ones that are not output only.
    Each group keeps the order of the columns, and in a SQL statement the values of LONG
    columns and of columns wider than the server's longest string follow all the others. *)
Theorem bind_row_value_order_exact row meta plsql max :
  let order := bind_row_value_order row meta plsql max in
  order = List.filter (λ i, kept row plsql i && negb (goes_last meta plsql max i)) (seq 0 (length row)) ++
          List.filter (λ i, kept row plsql i && goes_last meta plsql max i) (seq 0 (length row)) ∧
  Permutation order (List.filter (kept row plsql) (seq 0 (length row))) ∧
  (plsql = true → order = seq 0 (length row)).
Proof.
  cbv zeta. unfold bind_row_value_order.
  pose proof (order_loop_run meta plsql max row [] [] []) as Hrun. cbn [app length] in Hrun. rewrite Hrun. clear Hrun.
  split; [done|]. split.
  - induction (seq 0 (length row)) as [|i l IH]; [done|]. cbn [List.filter]. destruct (kept row plsql i); cbn [andb]; [|done].
    destruct (goes_last meta plsql max i); cbn [negb app]; [|by rewrite IH].
    rewrite <- Permutation_middle. by rewrite IH.
  - intros ->. rewrite (List.filter_ext_in _ (λ _, true)), filter_all by
      (intros i Hi%in_seq; unfold kept; by destruct (lookup_lt_is_Some_2 row i ltac:(lia)) as [v ->]).
    rewrite (List.filter_ext _ (λ _, false)), filter_none by (intros; by apply andb_false_r). by rewrite app_nil_r.
Qed.

(** ** Scalar values *)

(** The decoder a scalar column applies to its bytes. *)
Definition column_decoder (t cs : Z) (b : bytes) : Res FetchValue :=
  if is_text t then text_value cs b
  else if is_raw t then Ok (VRaw b)
  else if is_number t then n ← decode_number_value b; Ok (VNumber n)
  else if t =? ORA_TYPE_NUM_BINARY_DOUBLE then x ← decode_binary_double b; Ok (VBinaryDouble x)
  else if t =? ORA_TYPE_NUM_BINARY_FLOAT then x ← decode_binary_float b; Ok (VBinaryDouble (f32_widen x))
  else if t =? ORA_TYPE_NUM_BOOLEAN then Ok (VBoolean (boolean_value b))
  else if t =? ORA_TYPE_NUM_INTERVAL_DS then v ← decode_interval_ds b; Ok (VTemporal v)
  else if t =? ORA_TYPE_NUM_INTERVAL_YM then v ← decode_interval_ym b; Ok (VTemporal v)
  else v ← decode_datetime_value b; Ok (VTemporal v).

Definition scalar_types : list Z :=
  [ORA_TYPE_NUM_VARCHAR; ORA_TYPE_NUM_CHAR; ORA_TYPE_NUM_LONG; ORA_TYPE_NUM_RAW; ORA_TYPE_NUM_LONG_RAW;
   ORA_TYPE_NUM_NUMBER; ORA_TYPE_NUM_BINARY_INTEGER; ORA_TYPE_NUM_BINARY_DOUBLE; ORA_TYPE_NUM_BINARY_FLOAT;
   ORA_TYPE_NUM_BOOLEAN; ORA_TYPE_NUM_INTERVAL_DS; ORA_TYPE_NUM_INTERVAL_YM; ORA_TYPE_NUM_DATE;
   ORA_TYPE_NUM_TIMESTAMP; ORA_TYPE_NUM_TIMESTAMP_LTZ; ORA_TYPE_NUM_TIMESTAMP_TZ].
Definition scalar_type (t : Z) : bool := existsb (Z.eqb t) scalar_types.

(** A BOOLEAN on the server's side: a null is the escape byte and 1, and the usual null
    indicator 0 is refused (PLS-00306). *)
Definition read_bound_boolean : ReaderM (option FetchValue) :=
  n ← read_u8;
  if n =? TNS_ESCAPE_CHAR then _ ← read_u8; mret None
  else if n =? 0 then throw (TtcDecode "wrong number or types of arguments")
  else b ← read_raw n; mret (Some (VBoolean (boolean_value b))).

(** The column a bound value is read back through. *)
Definition bound_column (m : Z * Z * Z) : ColumnMetadata :=
  let '(t, cs, size) := m in
  mkColumn [] t cs 0 0 size 0 true false false None None false None 0 0 None None None.

Definition read_bound_cell (m : Z * Z * Z) : ReaderM (option FetchValue) :=
  if m.1.1 =? ORA_TYPE_NUM_BOOLEAN then read_bound_boolean else parse_column_value (bound_column m).

Lemma scalar_column t cs size : scalar_type t = true → 1 <= size →
  parse_column_value (bound_column (t, cs, size)) = with_bytes (column_decoder t cs).
Proof.
  intros Ht Hs. unfold parse_column_value, parse_column_value_with_lob_mode, no_buffer, bound_column.
  cbn [ora_type_num buffer_size csfrm]. rewrite (proj2 (Z.eqb_neq size 0)) by lia. cbn [andb].
  apply existsb_exists in Ht as (u & Hin & <-%Z.eqb_eq).
  repeat (destruct Hin as [<-|Hin]; [reflexivity|]). destruct Hin.
Qed.

(** [reads_as v q]: the value [v] is read back as [q]. *)
Inductive reads_as (lim : ProtocolLimits) : BindValue → option FetchValue → Prop :=
| reads_null : reads_as lim BNull None
| reads_inout v q size : reads_as lim v q → 0 <= size <= U32_MAX → reads_as lim (BInOut v size) q
| reads_text t : Forall (λ c, is_char c = true) t → field_fits lim (Zlen (as_bytes t)) →
    reads_as lim (BText t) (VText <$> field_value (as_bytes t))
| reads_raw b : field_fits lim (Zlen b) → reads_as lim (BRaw b) (VRaw <$> field_value b)
| reads_number t w n : encode_number_text (as_bytes t) = Ok w → decode_number_value w = Ok n →
    reads_as lim (BNumber t) (Some (VNumber n))
| reads_integer t w n : encode_number_text (as_bytes t) = Ok w → decode_number_value w = Ok n →
    reads_as lim (BBinaryInteger t) (Some (VNumber n))
| reads_boolean b : reads_as lim (BBoolean b) (Some (VBoolean b))
| reads_double bits : 0 <= bits <= U64_MAX → reads_as lim (BBinaryDouble bits) (Some (VBinaryDouble bits))
| reads_float bits : 0 <= bits <= U64_MAX →
    reads_as lim (BBinaryFloat bits) (Some (VBinaryDouble (f32_widen (f32_narrow bits))))
| reads_interval_ds d s us : I32_MIN <= d <= I32_MAX → -219599 <= s <= 705599 → I32_MIN <= us * 1000 <= I32_MAX →
    reads_as lim (BIntervalDS d s us)
      (Some (VTemporal (IntervalDS d (div_t s 3600) (div_t (rem_t s 3600) 60) (rem_t s 60) (us * 1000))))
| reads_interval_ym y m : I32_MIN <= y <= I32_MAX → -60 <= m <= 195 →
    reads_as lim (BIntervalYM y m) (Some (VTemporal (IntervalYM y m)))
| reads_date y mo d h mi s : valid_fields y mo d h mi s = true →
    reads_as lim (BDateTime y mo d h mi s) (Some (VTemporal (DateTime y mo d h mi s 0)))
| reads_timestamp t y mo d h mi s ns : is_datetime t = true → t ≠ ORA_TYPE_NUM_TIMESTAMP_TZ →
    valid_fields y mo d h mi s = true → 0 <= ns <= 999999999 →
    reads_as lim (BTimestamp t y mo d h mi s ns) (Some (VTemporal (DateTime y mo d h mi s ns)))
| reads_timestamp_tz y mo d h mi s ns offset : valid_fields y mo d h mi s = true → 0 <= ns <= 999999999 →
    -1200 < offset <= 1439 →
    reads_as lim (BTimestampTz y mo d h mi s ns offset) (Some (VTemporal (TimestampTz y mo d h mi s ns offset)))
| reads_typed_null t cs size : scalar_type t = true → 0 <= cs <= 255 → size <= U32_MAX →
    reads_as lim (BTypedNull t cs size) None.

(** A column of this type and form takes the value.  A BOOLEAN column does not take a plain
    null, only a typed one. *)
Definition column_takes (t cs : Z) (v : BindValue) : Prop :=
  (v = BNull → t ≠ ORA_TYPE_NUM_BOOLEAN) ∧ ∀ info, bind_value_type_info v = Some info →
    bind_type_family (i_ora_type_num info) = bind_type_family t ∧ i_csfrm info = cs.

Lemma family_cases u t : bind_type_family u = bind_type_family t →
  u = t ∨ is_text u = true ∧ is_text t = true ∨ is_raw u = true ∧ is_raw t = true.
Proof. unfold is_text, is_raw. type_cases; auto 10; lia. Qed.

(** The decoder depends on the family only. *)
Lemma family_decoder u t cs b : bind_type_family u = bind_type_family t → column_decoder u cs b = column_decoder t cs b.
Proof.
  intros [->|[[Hu Ht]|[Hu Ht]]]%family_cases; [done|..]; unfold column_decoder; [by rewrite Hu, Ht|].
  assert (∀ x, is_raw x = true → is_text x = false) as H.
  { unfold is_raw, is_text. intros x. type_cases. }
  by rewrite (H u), (H t), Hu, Ht.
Qed.

Lemma family_scalar u t : bind_type_family u = bind_type_family t → scalar_type u = true → scalar_type t = true.
Proof.
  intros [->|[[Hu Ht]|[Hu Ht]]]%family_cases Hs; [done|..]; apply existsb_exists.
  - apply orb_true_iff in Ht as [[->%Z.eqb_eq| ->%Z.eqb_eq]%orb_true_iff| ->%Z.eqb_eq];
      (eexists; split; [|apply Z.eqb_refl]); cbn; tauto.
  - apply orb_true_iff in Ht as [->%Z.eqb_eq| ->%Z.eqb_eq]; (eexists; split; [|apply Z.eqb_refl]); cbn; tauto.
Qed.

Lemma f32_narrow_range bits : 0 <= bits <= U64_MAX → 0 <= f32_narrow bits <= U32_MAX.
Proof.
  intros Hb. unfold f32_narrow. unfold U64_MAX, U32_MAX in *.
  assert (0 <= Z.shiftl (Z.shiftr bits 63) 31 <= 2 ^ 31) as Hs.
  { rewrite Z.shiftl_mul_pow2, Z.shiftr_div_pow2 by lia. assert (0 <= bits / 2 ^ 63 < 2); [|lia].
    split; [apply Z.div_pos; lia|apply Z.div_lt_upper_bound; lia]. }
  assert (0 <= Z.land bits (2 ^ 52 - 1) < 2 ^ 52) as Hm.
  { change (2 ^ 52 - 1) with (Z.ones 52). rewrite Z.land_ones by lia. apply Z.mod_pos_bound. lia. }
  set (s := Z.shiftl _ 31) in *. set (m := Z.land bits (2 ^ 52 - 1)) in *. set (e := Z.land _ 2047). clearbody s m.
  assert (0 <= e) as He by (apply Z.land_nonneg; right; lia). clearbody e.
  destruct (e =? 2047).
  - destruct (m =? 0); [change (Z.shiftl 255 23) with 2139095040; lia|].
    assert (0 <= Z.shiftr m 29 < 2 ^ 23) as Hq.
    { rewrite Z.shiftr_div_pow2 by lia. split; [apply Z.div_pos; lia|apply Z.div_lt_upper_bound; lia]. }
    assert (0 <= Z.lor (Z.shiftl 511 22) (Z.shiftr m 29)) by (apply Z.lor_nonneg; split; [done|lia]).
    assert (Z.log2 (Z.lor (Z.shiftl 511 22) (Z.shiftr m 29)) < 31) as Hl.
    { rewrite Z.log2_lor by (done || lia). apply Z.max_lub_lt; [done|].
      destruct (Z.eq_dec (Z.shiftr m 29) 0) as [->|]; [done|]. apply Z.log2_lt_pow2; lia. }
    destruct (Z.eq_dec (Z.lor (Z.shiftl 511 22) (Z.shiftr m 29)) 0) as [->|]; [lia|].
    apply Z.log2_lt_pow2 in Hl; lia.
  - set (sig := if e =? 0 then m else _). assert (0 <= sig) by (unfold sig; destruct (e =? 0); lia). clearbody sig.
    set (e' := Z.max (Z.max e 1 - 896) 1). set (shift := e' - _ + 29).
    assert (0 <= Z.shiftr sig shift) by (by apply Z.shiftr_nonneg). set (q := Z.shiftr sig shift) in *.
    assert (0 <= Z.shiftl (e' - 1) 23) by (apply Z.shiftl_nonneg; unfold e'; lia).
    change (Z.shiftl 255 23) with 2139095040. destruct (_ || _); lia.
Qed.

Section Values.
Context (lim : ProtocolLimits) (Hroom : field_fits lim 32).

Lemma scalar_fits n : n <= 32 → field_fits lim n.
Proof. destruct Hroom as (? & ? & ? & ?). unfold field_fits. intros. split_and!; lia. Qed.

(** The value is written as the field [b], which the column of a value of its kind decodes. *)
Definition written_as (v : BindValue) (cs : Z) (t : Z) (q : option FetchValue) : Prop :=
  ∃ b, (∀ w, write_bind_value v cs w = (Ok (), write_raw (field_bytes b) w)) ∧ field_fits lim (Zlen b) ∧
    match q with None => b = [] | Some x => b ≠ [] ∧ column_decoder t cs b = Ok x end.

Lemma written_field v cs t q b :
  (∀ w, write_bind_value v cs w = write_bytes_with_length b w) → field_fits lim (Zlen b) →
  match q with None => b = [] | Some x => b ≠ [] ∧ column_decoder t cs b = Ok x end → written_as v cs t q.
Proof. intros Hw Hf Hq. exists b. split; [|done]. intros w. by rewrite Hw, write_bytes_with_length_spec. Qed.

Lemma written_coded v cs t x r b n :
  (∀ w, write_bind_value v cs w = write_coded r w) → r = Ok b → Zlen b = n → 0 < n <= 32 →
  column_decoder t cs b = Ok x → written_as v cs t (Some x).
Proof.
  intros Hw -> Hl Hn Hd. apply (written_field v cs t (Some x) b); [done|apply scalar_fits; lia|].
  split; [|done]. intros ->. rewrite Zlen_nil in Hl. lia.
Qed.

Lemma text_decoder t : Forall (λ c, is_char c = true) t →
  match VText <$> field_value (as_bytes t) with
  | None => as_bytes t = []
  | Some x => as_bytes t ≠ [] ∧ column_decoder ORA_TYPE_NUM_VARCHAR CS_FORM_IMPLICIT (as_bytes t) = Ok x
  end.
Proof.
  intros Hc. apply as_bytes_text in Hc as [_ Hv]. destruct (as_bytes t) as [|c l]; [done|]. split; [done|].
  change (column_decoder ORA_TYPE_NUM_VARCHAR CS_FORM_IMPLICIT) with (text_value CS_FORM_IMPLICIT).
  unfold text_value, decode_text_value. by rewrite Hv.
Qed.

Lemma number_written v t cs tx w n :
  (∀ wr, write_bind_value v cs wr = write_coded (encode_number_text (as_bytes tx)) wr) →
  is_number t = true → column_decoder t cs w = (n ← decode_number_value w; Ok (VNumber n)) →
  encode_number_text (as_bytes tx) = Ok w → decode_number_value w = Ok n → written_as v cs t (Some (VNumber n)).
Proof.
  intros Hw _ Hc He Hd. pose proof (number_wire_length _ _ He).
  assert (w ≠ []) as Hne by (intros ->; vm_compute in Hd; discriminate).
  assert (0 < Zlen w) by (destruct w; [done|]; rewrite Zlen_cons; pose proof (Zlen_nonneg w); lia).
  apply (written_coded v cs t _ (encode_number_text (as_bytes tx)) w (Zlen w)); [done|done|done|lia|]. by rewrite Hc, Hd.
Qed.

(** A typed null that is neither a BOOLEAN nor a cursor is the null indicator. *)
Lemma typed_null_written t cs size form w : scalar_type t = true → t ≠ ORA_TYPE_NUM_BOOLEAN →
  write_bind_value (BTypedNull t cs size) form w = (Ok (), write_raw [0] w).
Proof.
  intros Ht Hb. cbn [write_bind_value]. apply existsb_exists in Ht as (u & Hin & <-%Z.eqb_eq).
  by repeat (destruct Hin as [<-|Hin]; [done|]).
Qed.

(** A value of its own type is written as it is read. *)
Lemma value_written v q : reads_as lim v q → ∀ t cs size, bind_metadata v = (t, cs, size) →
  t ≠ ORA_TYPE_NUM_BOOLEAN → written_as v cs t q.
Proof.
  induction 1 as [|v q size Hv IH Hsz|tx Hc Hf|b Hf|tx w n He Hd|tx w n He Hd|b|bits Hb|bits Hb|d s us Hd Hs Hus|y m Hy Hm
    |y mo d h mi s Hv|t0 y mo d h mi s ns Ht Hz Hv Hns|y mo d h mi s ns o Hv Hns Ho|t1 cs1 size1 Hs1 Hc1 Hz1]; intros t cs sz Hm0 Hnb;
    unfold bind_metadata in Hm0; cbn [bind_value_type_info] in Hm0.
  - exists []. split; [done|]. split; [by apply scalar_fits|done].
  - unfold bind_metadata in IH. destruct (bind_value_type_info v) as [i|]; cbn in *; injection Hm0 as <- <- <-; by eapply IH.
  - injection Hm0 as <- <- <-. eapply written_field; [done|done|by apply text_decoder].
  - injection Hm0 as <- <- <-. eapply written_field; [done|done|]. destruct b; [done|by split].
  - injection Hm0 as <- <- <-. by eapply number_written.
  - injection Hm0 as <- <- <-. by eapply number_written.
  - injection Hm0 as <- <- <-. eapply (written_field _ _ _ _ (if b then [1; 1] else [0])); [done|by apply scalar_fits; destruct b|].
    by destruct b.
  - injection Hm0 as <- <- <-. eapply (written_coded _ _ _ _ (Ok (encode_binary_double bits)) _ 8); [done|done| |lia|].
    + unfold encode_binary_double. by rewrite order_encode_length, Zlen_to_be_bytes.
    + pose proof (proj1 (binary_float_roundtrip bits) Hb) as Hr. revert Hr. generalize (encode_binary_double bits). intros b Hr. cbn. by rewrite Hr.
  - injection Hm0 as <- <- <-. eapply (written_coded _ _ _ _ (Ok (encode_binary_float (f32_narrow bits))) _ 4); [done|done| |lia|].
    + unfold encode_binary_float. by rewrite order_encode_length, Zlen_to_be_bytes.
    + pose proof (proj2 (binary_float_roundtrip (f32_narrow bits)) (f32_narrow_range bits Hb)) as Hr. revert Hr.
      generalize (encode_binary_float (f32_narrow bits)). intros b Hr. cbn. by rewrite Hr.
  - injection Hm0 as <- <- <-. pose proof (interval_ds_run d s (us * 1000) Hd ltac:(unfold I32_MIN, I32_MAX; lia) Hus) as Hr.
    rewrite (proj2 (between_true _ _ _) Hs) in Hr. destruct Hr as (w & Hw & Hl & Hdec).
    eapply (written_coded _ _ _ _ _ w 11); [done| |done|lia|].
    + unfold interval_nanoseconds. rewrite try_range_in by done. exact Hw.
    + cbn. by rewrite Hdec.
  - injection Hm0 as <- <- <-. pose proof (interval_ym_roundtrip y m Hy ltac:(unfold I32_MIN, I32_MAX; lia)) as Hr.
    rewrite (proj2 (between_true _ _ _) Hm) in Hr. destruct Hr as (w & Hw & Hl & Hdec).
    eapply (written_coded _ _ _ _ _ w 5); [done|exact Hw|done|lia|]. cbn. by rewrite Hdec.
  - injection Hm0 as <- <- <-. pose proof Hv as Hf. apply valid_fields_iff in Hf as (_ & _ & _ & Hh & Hmi & Hs).
    pose proof (timestamp_roundtrip y mo d h mi s 0) as Hrt. unfold is_u8, encode_oracle_timestamp in Hrt. rewrite Hv in Hrt.
    destruct Hrt as (w & Hw & Hlen & Hd); [lia|lia|lia|unfold U32_MAX; lia|]. cbn in Hw.
    eapply (written_coded _ _ _ _ _ w 7); [done| |done|lia|by cbn; rewrite Hd].
    destruct (encode_oracle_date _ _ _ _ _ _); cbn in Hw; [by injection Hw as ->|done..].
  - injection Hm0 as <- <- <-. pose proof Hv as Hf. apply valid_fields_iff in Hf as (_ & _ & _ & Hh & Hmi & Hs).
    pose proof (timestamp_roundtrip y mo d h mi s ns) as Hrt. unfold is_u8 in Hrt. rewrite Hv, (proj2 (Z.leb_le ns _)) in Hrt by lia.
    destruct Hrt as (w & Hw & Hlen & Hd); [lia|lia|lia|unfold U32_MAX; lia|].
    eapply (written_coded _ _ _ _ _ w _); [done| |exact Hlen|destruct (ns =? 0); lia|].
    + unfold timestamp_bytes. by rewrite (proj2 (Z.eqb_neq _ _) Hz).
    + unfold is_datetime in Ht. rewrite !orb_true_iff, !Z.eqb_eq in Ht.
      destruct Ht as [[[->| ->]| ->]| ->]; [..|done]; cbn; by rewrite Hd.
  - injection Hm0 as <- <- <-. destruct (timestamp_tz_roundtrip y mo d h mi s ns o Hv Hns Ho) as (w & Hw & Hlen & Hd).
    eapply (written_coded _ _ _ _ _ w _); [done|exact Hw|exact Hlen|done|]. cbn. by rewrite Hd.
  - injection Hm0 as <- <- <-. exists []. split; [|split; [by apply scalar_fits|done]]. intros w.
    by apply typed_null_written.
Qed.

Lemma family_boolean u : bind_type_family u = bind_type_family ORA_TYPE_NUM_BOOLEAN → u = ORA_TYPE_NUM_BOOLEAN.
Proof. by intros [->|[[_ ?]|[_ ?]]]%family_cases. Qed.

Lemma value_in_column v q t cs : reads_as lim v q → column_takes t cs v → t ≠ ORA_TYPE_NUM_BOOLEAN → written_as v cs t q.
Proof.
  intros Hv [_ Ht] Hb. destruct (bind_value_type_info v) as [i|] eqn:Hi.
  - destruct (Ht i eq_refl) as [Hf <-].
    pose proof (value_written v q Hv _ _ _ (bind_metadata_info v i Hi)) as (b & Hw & Hfit & Hq).
    { intros E. rewrite E in Hf. by apply Hb, family_boolean. }
    exists b. split; [done|]. split; [done|]. destruct q; [|done]. by rewrite <- (family_decoder _ _ _ _ Hf).
  - apply type_info_none in Hi as ->. inversion Hv. subst. exists []. split; [done|]. split; [by apply scalar_fits|done].
Qed.

(** A BOOLEAN column holds a boolean or a typed null, in or in-out. *)
Lemma boolean_written v q cs : reads_as lim v q → column_takes ORA_TYPE_NUM_BOOLEAN cs v →
  ∃ enc, (∀ w, write_bind_value v cs w = (Ok (), write_raw enc w)) ∧
    (q = None ∧ enc = [TNS_ESCAPE_CHAR; 1] ∨ ∃ b, q = Some (VBoolean b) ∧ enc = if b then [2; 1; 1] else [1; 0]).
Proof.
  intros Hv. revert cs. induction Hv; intros form [Hn Ht]; cbn [bind_value_type_info] in Ht;
    try (destruct (Ht _ eq_refl) as [Hf _]; apply family_boolean in Hf; discriminate).
  - by destruct (Hn eq_refl).
  - destruct (bind_value_type_info v) as [i|] eqn:Hi.
    + apply IHHv. split; [by intros ->|]. rewrite Hi. intros info [= <-]. apply (Ht _ eq_refl).
    + destruct (Ht _ eq_refl) as [Hf _]. apply family_boolean in Hf. discriminate.
  - eexists. split; [|right; by exists b]. intros w. cbn [write_bind_value]. destruct b; by rewrite write_bytes_with_length_spec.
  - destruct (Ht _ eq_refl) as [Hf _]. apply family_boolean in Hf. cbn in Hf. subst t. done.
  - destruct (Ht _ eq_refl) as [Hf _]. apply family_boolean in Hf. cbn in Hf. subst t.
    eexists. split; [|by left]. intros w. change (write_bind_value _ form w) with (Ok (E := ProtocolError) (), write_u8 1 (write_u8 TNS_ESCAPE_CHAR w)).
    unfold write_u8. by rewrite write_raw_raw.
Qed.

Lemma boolean_parses enc q : q = None ∧ enc = [TNS_ESCAPE_CHAR; 1] ∨ (∃ b, q = Some (VBoolean b) ∧ enc = if b then [2; 1; 1] else [1; 0]) →
  parses lim read_bound_boolean enc q.
Proof.
  destruct Hroom as ((? & ?) & ? & ? & ?). unfold read_bound_boolean. intros [[-> ->]|(b & -> & ->)].
  - apply (parses_bind lim _ _ [TNS_ESCAPE_CHAR] [1] TNS_ESCAPE_CHAR); [apply read_u8_parses|]. cbn.
    apply (parses_bind lim _ _ [1] [] 1); [apply read_u8_parses|apply parses_ret].
  - destruct b.
    + apply (parses_bind lim _ _ [2] [1; 1] 2); [apply read_u8_parses|]. cbn.
      eapply parses_last; [apply (read_raw_parses' lim 2 [1; 1] eq_refl); unfold Zlen; cbn; lia|apply parses_ret].
    + apply (parses_bind lim _ _ [1] [0] 1); [apply read_u8_parses|]. cbn.
      eapply parses_last; [apply (read_raw_parses' lim 1 [0] eq_refl); unfold Zlen; cbn; lia|apply parses_ret].
Qed.

(** A bound value is read back by the reader of its column. *)
Lemma value_parses v q t cs size : reads_as lim v q → column_takes t cs v → scalar_type t = true → 1 <= size →
  ∃ enc, (∀ w, write_bind_value v cs w = (Ok (), write_raw enc w)) ∧ parses lim (read_bound_cell (t, cs, size)) enc q.
Proof.
  intros Hv Ht Hs Hz. unfold read_bound_cell. cbn [fst]. destruct (Z.eqb_spec t ORA_TYPE_NUM_BOOLEAN) as [->|Hb].
  { destruct (boolean_written v q cs Hv Ht) as (enc & Hw & Hq). exists enc. split; [done|by apply boolean_parses]. }
  destruct (value_in_column v q t cs Hv Ht Hb) as (b & Hw & ((? & ?) & ? & ? & ?) & Hq).
  exists (field_bytes b). split; [done|]. rewrite scalar_column by done. unfold with_bytes.
  eapply parses_last; [by apply read_bytes_parses|]. destruct q as [x|].
  - destruct Hq as [Hne Hd]. destruct b; [done|]. cbn [field_value]. eapply parses_bind_nil; [by apply parses_lift|apply parses_ret].
  - rewrite Hq. apply parses_ret.
Qed.
End Values.

(** ** Descriptions of the bound columns *)

Record BoundColumn := mkBound {
  bc_type : Z; bc_flags : Z; bc_size : Z; bc_max_elements : Z; bc_cont_flags : Z; bc_oid : option bytes;
  bc_version : Z; bc_charset : Z; bc_csfrm : Z; bc_prefetch : Z
}.

Definition bc_triple (c : BoundColumn) : Z * Z * Z := (bc_type c, bc_csfrm c, bc_size c).

(** The reader of a description in the layout of field version [v]. *)
Definition read_bound_column (v : Z) : ReaderM BoundColumn :=
  h ← read_fields [FU8; FU8; FU8; FU8; FUB4; FUB4; FUB8];
  oid ← read_bytes_with_length;
  x ← read_fields ([FUB4; FUB2; FU8; FUB4] ++ (if carries_oaccolid v then [FUB4] else []));
  mret (mkBound (nth 0 h 0) (nth 1 h 0) (nth 4 h 0) (nth 5 h 0) (nth 6 h 0) oid
          (nth 0 x 0) (nth 1 x 0) (nth 2 x 0) (nth 3 x 0)).

(** What the writer describes of a value of this type, form and size. *)
Definition described (value : BindValue) (t cs size : Z) : BoundColumn :=
  let '(flags, elements) :=
    match value with BArray _ _ _ n _ => (TNS_BIND_USE_INDICATORS + TNS_BIND_ARRAY, n) | _ => (TNS_BIND_USE_INDICATORS, 0) end in
  let '(oid, version) :=
    match value with
    | BObjectOutput _ _ oid version _ _ | BObjectInput _ _ oid version _ _ => (field_value oid, version)
    | _ => (None, 0)
    end in
  let streamed := (t =? ORA_TYPE_NUM_CLOB) || (t =? ORA_TYPE_NUM_BLOB) || (t =? ORA_TYPE_NUM_VECTOR) || (t =? ORA_TYPE_NUM_JSON) in
  mkBound t flags (if t =? ORA_TYPE_NUM_JSON then TNS_JSON_MAX_LENGTH else size) elements
    (if streamed then TNS_LOB_PREFETCH_FLAG else 0) oid version (if negb (cs =? 0) then TNS_CHARSET_UTF8 else 0) cs
    (if t =? ORA_TYPE_NUM_VECTOR then TNS_VECTOR_MAX_LENGTH else if t =? ORA_TYPE_NUM_JSON then TNS_JSON_MAX_LENGTH else 0).

(** The object identifier and version, and the number of elements, of a value. *)
Definition value_fields_ok (lim : ProtocolLimits) (value : BindValue) : Prop :=
  match value with
  | BArray _ _ _ n _ => 0 <= n <= U32_MAX
  | BObjectOutput _ _ oid version _ _ | BObjectInput _ _ oid version _ _ =>
      field_fits lim (Zlen oid) ∧ Zlen oid <= U32_MAX ∧ 0 <= version <= U32_MAX
  | _ => True
  end.

(** The fields in front of the object identifier and behind it. *)
Definition bound_front (c : BoundColumn) : list (FieldKind * Z) :=
  [(FU8, bc_type c); (FU8, bc_flags c); (FU8, 0); (FU8, 0); (FUB4, bc_size c); (FUB4, bc_max_elements c); (FUB8, bc_cont_flags c)].
Definition bound_back (v : Z) (c : BoundColumn) : list (FieldKind * Z) :=
  [(FUB4, bc_version c); (FUB2, bc_charset c); (FU8, bc_csfrm c); (FUB4, bc_prefetch c)] ++
  (if carries_oaccolid v then [(FUB4, 0)] else []).
Definition value_oid (value : BindValue) : option bytes :=
  match value with BObjectOutput _ _ oid _ _ _ | BObjectInput _ _ oid _ _ _ => Some oid | _ => None end.

Lemma metadata_emits value t cs size v w : (∀ b, value_oid value = Some b → Zlen b <= U32_MAX) →
  write_bind_metadata_with_type value t cs size v w =
  (_ ← emit (map put (bound_front (described value t cs size)));
   _ ← write_bytes_with_two_lengths (value_oid value);
   emit (map put (bound_back v (described value t cs size)))) w.
Proof.
  intros Hoid. unfold write_bind_metadata_with_type. set (d := described value t cs size).
  assert (match value with
          | BArray _ _ _ n _ => (Z.lor TNS_BIND_USE_INDICATORS TNS_BIND_ARRAY, n)
          | _ => (TNS_BIND_USE_INDICATORS, 0)
          end = (bc_flags d, bc_max_elements d)) as -> by (by destruct value).
  assert ((match value with
           | BObjectOutput _ _ oid version _ _ | BObjectInput _ _ oid version _ _ =>
               write_bytes_with_two_lengths (Some oid);; modify (write_ub4 version)
           | _ => modify (write_ub4 0);; modify (write_ub2 0)
           end) = (_ ← write_bytes_with_two_lengths (value_oid value); modify (write_ub4 (bc_version d)))) as -> by (by destruct value).
  assert (bc_type d = t ∧ bc_csfrm d = cs ∧ bc_size d = (if t =? ORA_TYPE_NUM_JSON then TNS_JSON_MAX_LENGTH else size) ∧
    bc_charset d = (if negb (cs =? 0) then TNS_CHARSET_UTF8 else 0)) as (Ht & Hcs & <- & <-) by (by destruct value).
  assert ((if (t =? ORA_TYPE_NUM_CLOB) || (t =? ORA_TYPE_NUM_BLOB) || (t =? ORA_TYPE_NUM_VECTOR) || (t =? ORA_TYPE_NUM_JSON)
           then TNS_LOB_PREFETCH_FLAG else 0) = bc_cont_flags d) as -> by (by destruct value).
  assert ((if t =? ORA_TYPE_NUM_VECTOR then TNS_VECTOR_MAX_LENGTH else if t =? ORA_TYPE_NUM_JSON then TNS_JSON_MAX_LENGTH else 0)
          = bc_prefetch d) as -> by (by destruct value).
  unfold bound_back, bound_front, emit. clearbody d. rewrite <- Ht, <- Hcs. st_run.
  rewrite !write_bytes_with_two_lengths_spec by done. st_run. by destruct (carries_oaccolid v).
Qed.

Lemma described_ranges lim value t cs size v :
  0 <= t <= 255 → 0 <= cs <= 255 → 0 <= size <= U32_MAX → value_fields_ok lim value →
  Forall in_range (bound_front (described value t cs size)) ∧ Forall in_range (bound_back v (described value t cs size)).
Proof.
  intros Ht Hcs Hsize Hok. set (d := described value t cs size).
  assert (0 <= bc_type d <= 255 ∧ 0 <= bc_csfrm d <= 255 ∧ 0 <= bc_flags d <= 255 ∧ 0 <= bc_size d <= U32_MAX ∧
    0 <= bc_max_elements d <= U32_MAX ∧ 0 <= bc_cont_flags d <= U64_MAX ∧ 0 <= bc_version d <= U32_MAX ∧
    0 <= bc_charset d <= U16_MAX ∧ 0 <= bc_prefetch d <= U32_MAX) as (? & ? & ? & ? & ? & ? & ? & ? & ?).
  { unfold d, described, value_fields_ok, TNS_BIND_USE_INDICATORS, TNS_BIND_ARRAY, TNS_LOB_PREFETCH_FLAG, TNS_JSON_MAX_LENGTH,
      TNS_VECTOR_MAX_LENGTH, TNS_CHARSET_UTF8, U64_MAX, U32_MAX, U16_MAX in *. clear d.
    destruct (_ || _), (t =? ORA_TYPE_NUM_VECTOR), (t =? ORA_TYPE_NUM_JSON), (cs =? 0); cbn [negb];
      destruct value; cbn in Hok |- *; lia. }
  clearbody d. unfold bound_front, bound_back. split; [ranges|].
  apply Forall_app. split; [|destruct (carries_oaccolid v)]; ranges.
Qed.

Lemma bound_parses lim oid v d : 8 <= max_response_bytes lim <= USIZE_MAX ∧ max_lob_chunks lim <= USIZE_MAX →
  Forall in_range (bound_front d) → Forall in_range (bound_back v d) → bc_oid d = oid ≫= field_value →
  (∀ b, oid = Some b → Zlen b <= max_response_bytes lim ∧ Zlen b <= U32_MAX ∧ Zlen b <= 32767 * max_lob_chunks lim) →
  parses lim (read_bound_column v) (layout (bound_front d) ++ two_lengths_bytes oid ++ layout (bound_back v d)) d.
Proof.
  intros ((H8 & Hr) & Hc) Hfront Hback Hoid Hb. unfold read_bound_column.
  eapply parses_bind; [exact (fields_parse lim H8 (bound_front d) Hfront)|].
  eapply parses_bind; [by apply read_bytes_with_length_parses|].
  assert (map fst (bound_back v d) = [FUB4; FUB2; FU8; FUB4] ++ (if carries_oaccolid v then [FUB4] else [])) as <-
    by (unfold bound_back; by destruct (carries_oaccolid v)).
  eapply parses_last; [exact (fields_parse lim H8 (bound_back v d) Hback)|]. rewrite <- Hoid.
  unfold bound_back. cbn [map app nth fst snd]. destruct d. apply parses_ret.
Qed.

Lemma described_parses lim value t cs size v : field_fits lim 32 →
  0 <= t <= 255 → 0 <= cs <= 255 → 0 <= size <= U32_MAX → value_fields_ok lim value →
  ∃ enc, (∀ w, write_bind_metadata_with_type value t cs size v w = (Ok (), write_raw enc w)) ∧
    parses lim (read_bound_column v) enc (described value t cs size).
Proof.
  intros ((H8 & Hr) & Hc & _ & _) Ht Hcs Hsize Hok.
  destruct (described_ranges lim value t cs size v Ht Hcs Hsize Hok) as [Hfront Hback].
  assert (∀ b, value_oid value = Some b → field_fits lim (Zlen b) ∧ Zlen b <= U32_MAX) as Hoid.
  { destruct value; try done; intros b [= <-]; by destruct Hok as (? & ? & ?). }
  set (d := described value t cs size) in *.
  exists (layout (bound_front d) ++ two_lengths_bytes (value_oid value) ++ layout (bound_back v d)). split.
  - intros w. rewrite metadata_emits by (intros b Hb; by apply Hoid). fold d.
    rewrite st_bindE, emit_layout by done. rewrite st_bindE, write_bytes_with_two_lengths_spec by (intros b Hb; by apply Hoid).
    by rewrite emit_layout, !write_raw_raw by done.
  - apply (bound_parses lim (value_oid value)); [by unfold field_fits|done|done|by destruct value|].
    intros b Hb. destruct (Hoid b Hb) as ((_ & _ & ? & ?) & ?). done.
Qed.

(** ** Rows *)

Fixpoint read_bound_columns (n : nat) (v : Z) : ReaderM (list BoundColumn) :=
  match n with
  | O => mret []
  | S n => c ← read_bound_column v; cs ← read_bound_columns n v; mret (c :: cs)
  end.

(** The columns in the order in which a row carries them. *)
Definition sent_order (meta : list (Z * Z * Z)) (plsql : bool) (max : Z) : list nat :=
  List.filter (λ i, negb (goes_last meta plsql max i)) (seq 0 (length meta)) ++
  List.filter (goes_last meta plsql max) (seq 0 (length meta)).

Fixpoint read_cells (meta : list (Z * Z * Z)) (order : list nat) : ReaderM (list (nat * option FetchValue)) :=
  match order with
  | [] => mret []
  | i :: order =>
      m ← lift (ok_or (meta !! i) (TtcDecode "no such column"));
      q ← read_bound_cell m;
      rest ← read_cells meta order;
      mret ((i, q) :: rest)
  end.

Fixpoint read_bound_rows (n : nat) (meta : list (Z * Z * Z)) (order : list nat) : ReaderM (list (list (nat * option FetchValue))) :=
  match n with
  | O => mret []
  | S n =>
      m ← read_u8;
      if m =? TNS_MSG_TYPE_ROW_DATA then
        row ← read_cells meta order;
        rows ← read_bound_rows n meta order;
        mret (row :: rows)
      else throw (TtcDecode "not a row")
  end.

(** The part of an execute request behind its header. *)
Definition read_bind_params (columns rows : nat) (plsql : bool) (max v : Z)
  : ReaderM (list BoundColumn * list (list (nat * option FetchValue))) :=
  cols ← read_bound_columns columns v;
  rows ← read_bound_rows rows (map bc_triple cols) (sent_order (map bc_triple cols) plsql max);
  mret (cols, rows).

(** A row of values labelled with their columns, in the order of sending. *)
Definition labelled (order : list nat) (qs : list (option FetchValue)) : list (nat * option FetchValue) :=
  map (λ i, (i, default None (qs !! i))) order.

Definition column_fine (m : Z * Z * Z) : Prop :=
  let '(t, cs, size) := m in scalar_type t = true ∧ 0 <= cs <= 255 ∧ 1 <= size <= U32_MAX.

Section Rows.
Context (lim : ProtocolLimits) (Hroom : field_fits lim 32).

Lemma metadata_fine v q : reads_as lim v q → column_fine (bind_metadata v).
Proof.
  assert (∀ n, 0 <= n → 1 <= Z.max (sat_mul_u32 (Z.min n U32_MAX) 4) 1 <= U32_MAX) as Htext
    by (intros; unfold sat_mul_u32, U32_MAX in *; lia).
  induction 1 as [|v q size Hv IH Hsz|tx Hc Hf|b Hf|tx w n He Hd|tx w n He Hd|b|bits Hb|bits Hb|d s us Hd Hs Hus|y m Hy Hm
    |y mo d h mi s Hv|t0 y mo d h mi s ns Ht Hz Hv Hns|y mo d h mi s ns o Hv Hns Ho|t1 cs1 size1 Hs1 Hc1 Hz1];
    unfold bind_metadata in *; cbn [bind_value_type_info] in *; try done.
  - destruct (bind_value_type_info v) as [i|]; cbn in IH |- *; [|unfold U32_MAX in *; split_and!; done || lia].
    destruct IH as (? & ? & ?). split_and!; done || lia.
  - cbn. split_and!; try done; apply Htext, Zlen_nonneg.
  - cbn. pose proof (Zlen_nonneg b). unfold U32_MAX. split_and!; done || lia.
  - cbn. split; [|split; [done|destruct (t0 =? _); done]].
    unfold is_datetime in Ht. rewrite !orb_true_iff, !Z.eqb_eq in Ht. by destruct Ht as [[[->| ->]| ->]| ->].
  - cbn. unfold U32_MAX in *. split_and!; done || lia.
Qed.

Lemma reads_plain v q : reads_as lim v q → value_fields_ok lim v ∧ is_output_only v = false.
Proof. by destruct 1. Qed.

(** The loop over the rows keeps a readable value and a fine description. *)
Lemma infer_fine index first rows q : reads_as lim first q →
  Forall (λ row, ∀ v, row !! index = Some v → ∃ q, reads_as lim v q) rows →
  let s := infer_column_type first rows index in
  (∃ q, reads_as lim (metadata_value s) q) ∧ column_fine (column_type s).
Proof.
  intros Hfirst Hrows. unfold infer_column_type. cbn zeta.
  set (s := mkColumnType first _ _). assert ((∃ q, reads_as lim (metadata_value s) q) ∧ column_fine (column_type s)) as Hs.
  { split; [by exists q|]. by apply (metadata_fine first q). }
  clearbody s. revert s Hs. induction Hrows as [|row rows Hrow _ IH]; intros s Hs; [done|]. cbn [foldl]. apply IH.
  unfold column_type_step. destruct (row !! index) as [v|]; [|done]. destruct (Hrow v eq_refl) as [qv Hv].
  pose proof (metadata_fine v qv Hv) as Hm. destruct (needs_type_inference s).
  - destruct v; [exact Hs|..]; (split; [by exists qv|done]).
  - destruct Hs as [Hq Hs]. destruct (column_type s) as [[t cs] size] eqn:Ect. destruct (bind_metadata v) as [[rt rcs] rsize].
    destruct (_ && _); [|by rewrite Ect]. split; [done|]. cbn in *. destruct Hs as (? & ? & ?), Hm as (? & ? & ?).
    split; [|split; [done|lia]]. unfold promoted_bind_metadata_type. by destruct (is_long_type t), (is_long_type rt).
Qed.

Lemma cells_written meta row qs order :
  length row = length meta → Forall2 (reads_as lim) row qs →
  (∀ i v t cs size, row !! i = Some v → meta !! i = Some (t, cs, size) → column_takes t cs v) →
  Forall column_fine meta → Forall (λ i, i < length meta)%nat order →
  ∃ enc, (∀ w, write_row_values row meta order w = (Ok (), write_raw enc w)) ∧
    parses lim (read_cells meta order) enc (labelled order qs).
Proof.
  intros Hlen Hreads Htakes Hfine Horder. induction Horder as [|i order Hi _ (enc & Hw & Hp)].
  { exists []. split; [intros w; cbn; by rewrite write_raw_nil|apply parses_ret]. }
  destruct (lookup_lt_is_Some_2 row i ltac:(lia)) as [v Hv]. destruct (lookup_lt_is_Some_2 meta i Hi) as [[[t cs] size] Hm].
  destruct (Forall2_lookup_l _ _ _ _ _ Hreads Hv) as (q & Hq & Hr).
  destruct (proj1 (Forall_lookup _ _) Hfine i _ Hm) as (Hs & _ & Hsz & _).
  destruct (value_parses lim Hroom v q t cs size Hr (Htakes i v t cs size Hv Hm) Hs Hsz) as (e & Hwe & Hpe).
  exists (e ++ enc). split.
  - intros w. cbn [write_row_values]. st_run. rewrite Hv. st_run. unfold csfrm_at. rewrite Hm, Hwe. st_run.
    by rewrite Hw, write_raw_raw.
  - cbn [read_cells labelled map]. eapply parses_bind_nil; [by apply parses_lift; rewrite Hm|].
    eapply parses_bind; [exact Hpe|]. eapply parses_last; [exact Hp|]. rewrite Hq. apply parses_ret.
Qed.

Lemma kept_all row qs plsql : Forall2 (reads_as lim) row qs → ∀ i, (i < length row)%nat → kept row plsql i = true.
Proof.
  intros Hr i Hi. unfold kept. destruct (lookup_lt_is_Some_2 row i Hi) as [v Hv]. rewrite Hv.
  destruct (Forall2_lookup_l _ _ _ _ _ Hr Hv) as (q & _ & Hq). rewrite (proj2 (reads_plain v q Hq)). apply orb_true_r.
Qed.

Lemma order_of_row row qs meta plsql max : length row = length meta → Forall2 (reads_as lim) row qs →
  bind_row_value_order row meta plsql max = sent_order meta plsql max.
Proof.
  intros Hlen Hr. unfold bind_row_value_order. pose proof (order_loop_run meta plsql max row [] [] []) as Hrun.
  cbn [app length] in Hrun. rewrite Hrun. unfold sent_order. rewrite <- Hlen.
  f_equal; apply List.filter_ext_in; intros i Hi%in_seq; by rewrite (kept_all row qs plsql Hr) by lia.
Qed.

Lemma rows_written meta rows readings plsql max : meta ≠ [] → Forall column_fine meta →
  Forall (λ row, length row = length meta) rows → Forall2 (Forall2 (reads_as lim)) rows readings →
  (∀ row i v t cs size, row ∈ rows → row !! i = Some v → meta !! i = Some (t, cs, size) → column_takes t cs v) →
  let order := sent_order meta plsql max in
  ∃ enc, (∀ w, write_rows rows meta plsql max w = (Ok (), write_raw enc w)) ∧
    parses lim (read_bound_rows (length rows) meta order) enc (map (labelled order) readings).
Proof.
  intros Hne Hfine Hlen Hreads. cbn zeta. revert Hlen. induction Hreads as [|row qs rows readings Hrow Hreads IH]; intros Hlen Htakes.
  { exists []. split; [intros w; cbn; by rewrite write_raw_nil|apply parses_ret]. }
  apply Forall_cons_iff in Hlen as [Hl Hlen].
  destruct IH as (enc & Hw & Hp); [done|intros r ? ? ? ? ? Hr; eapply Htakes; by right|].
  destruct (cells_written meta row qs (sent_order meta plsql max) Hl Hrow) as (e & Hwe & Hpe); [|done|..].
  { intros i x t cs size. apply Htakes. by left. }
  { apply Forall_forall. intros i. unfold sent_order. rewrite in_app_iff, !filter_In, !in_seq. lia. }
  exists (TNS_MSG_TYPE_ROW_DATA :: e ++ enc). split.
  - intros w. cbn [write_rows]. assert (forallb is_output_only row = false) as Hout.
    { destruct Hrow as [|x q row' qs' Hx _]; [by destruct meta|]. cbn. by rewrite (proj2 (reads_plain x q Hx)). }
    rewrite Hout, andb_false_r. st_run. rewrite (order_of_row row qs meta plsql max Hl Hrow), Hwe. st_run.
    rewrite Hw. unfold write_u8. by rewrite !write_raw_raw.
  - cbn [length read_bound_rows map]. apply (parses_bind lim _ _ [TNS_MSG_TYPE_ROW_DATA] (e ++ enc) TNS_MSG_TYPE_ROW_DATA); [apply read_u8_parses|].
    rewrite Z.eqb_refl. eapply parses_bind; [exact Hpe|]. eapply parses_last; [exact Hp|apply parses_ret].
Qed.

(** ** Columns *)

Lemma scalar_range t : scalar_type t = true → 0 <= t <= 255 ∧ t ≠ ORA_TYPE_NUM_JSON.
Proof.
  intros (u & Hin & <-%Z.eqb_eq)%existsb_exists. by repeat (destruct Hin as [<-|Hin]; [done|]).
Qed.

Context (first_row : list BindValue) (rows : BindRows).
Definition wire_column (i : nat) : ColumnType := infer_column_type (default BNull (first_row !! i)) rows i.
Context (Hreads : Forall (λ row, Forall (λ v, ∃ q, reads_as lim v q) row) (first_row :: rows)).

Lemma wire_column_fine i : (i < length first_row)%nat →
  (∃ q, reads_as lim (metadata_value (wire_column i)) q) ∧ column_fine (column_type (wire_column i)).
Proof.
  intros Hi. unfold wire_column. apply Forall_cons_iff in Hreads as [Hfirst Hrows].
  destruct (lookup_lt_is_Some_2 first_row i Hi) as [x Hx]. rewrite Hx. cbn [default from_option id].
  destruct (proj1 (Forall_lookup _ _) Hfirst i x Hx) as [q Hq]. apply (infer_fine i x rows q Hq).
  eapply Forall_impl; [|exact Hrows]. cbn. intros row Hr y Hy. exact (proj1 (Forall_lookup _ _) Hr i y Hy).
Qed.

Definition wire_description (i : nat) : BoundColumn :=
  let '(t, cs, size) := column_type (wire_column i) in described (metadata_value (wire_column i)) t cs size.

Lemma columns_written v idx : Forall (λ i, i < length first_row)%nat idx →
  ∃ enc, (∀ w, write_metadata idx (first_row :: rows) v w = (Ok (map (λ i, column_type (wire_column i)) idx), write_raw enc w)) ∧
    parses lim (read_bound_columns (length idx) v) enc (map wire_description idx) ∧
    map bc_triple (map wire_description idx) = map (λ i, column_type (wire_column i)) idx.
Proof.
  induction 1 as [|i idx Hi _ (enc & Hw & Hp & He)].
  { exists []. split; [intros w; cbn; by rewrite write_raw_nil|]. split; [apply parses_ret|done]. }
  destruct (wire_column_fine i Hi) as [[q Hq] Hf]. destruct (column_type (wire_column i)) as [[t cs] size] eqn:Et.
  destruct Hf as (Ht & Hcs & Hs). destruct (scalar_range t Ht) as [Htr Hjson].
  destruct (described_parses lim (metadata_value (wire_column i)) t cs size v Hroom Htr Hcs ltac:(lia) (proj1 (reads_plain _ q Hq)))
    as (e & Hwe & Hpe).
  exists (e ++ enc). split_and!.
  - intros w. cbn [write_metadata map]. unfold write_bind_metadata_for_rows.
    destruct (lookup_lt_is_Some_2 first_row i Hi) as [x Hx]. rewrite Hx.
    assert (infer_column_type x rows i = wire_column i) as -> by (unfold wire_column; by rewrite Hx).
    rewrite Et. st_run. rewrite Hwe. st_run. rewrite Hw. st_run. by rewrite write_raw_raw.
  - cbn [read_bound_columns length map]. eapply parses_bind; [exact Hpe|]. eapply parses_last; [exact Hp|].
    assert (wire_description i = described (metadata_value (wire_column i)) t cs size) as <- by (unfold wire_description; by rewrite Et).
    apply parses_ret.
  - cbn [map]. rewrite He, Et. f_equal. unfold wire_description. rewrite Et. unfold bc_triple, described.
    rewrite (proj2 (Z.eqb_neq _ _) Hjson). by destruct (metadata_value (wire_column i)).
Qed.
End Rows.

Lemma partition_order (f : nat → bool) l :
  Permutation (List.filter (λ i, negb (f i)) l ++ List.filter f l) l.
Proof.
  induction l as [|i l IH]; [done|]. cbn [List.filter]. destruct (f i); cbn [negb app]; [|by rewrite IH].
  rewrite <- Permutation_middle. by rewrite IH.
Qed.

Definition wire_metadata (first_row : list BindValue) (rows : BindRows) : list (Z * Z * Z) :=
  map (λ i, column_type (wire_column first_row rows i)) (seq 0 (length first_row)).

Lemma wire_metadata_lookup first_row rows i m : wire_metadata first_row rows !! i = Some m →
  (i < length first_row)%nat ∧ m = column_type (wire_column first_row rows i).
Proof.
  unfold wire_metadata. rewrite list_lookup_fmap. intros Hm.
  destruct (seq 0 (length first_row) !! i) as [j|] eqn:Ej; [|done]. apply lookup_seq in Ej as [-> ?]. by injection Hm as <-.
Qed.

(** Every value of checked rows fits the type of its column. *)
(** No plain null in a column whose type is BOOLEAN. *)
Definition boolean_nulls_typed (first_row : list BindValue) (rows : BindRows) : bool :=
  forallb (λ row, forallb (λ '(x, m), match x with BNull => negb (m.1.1 =? ORA_TYPE_NUM_BOOLEAN) | _ => true end)
                    (zip row (wire_metadata first_row rows))) (first_row :: rows).

Lemma columns_take first_row rows row i x t cs size :
  boolean_nulls_typed first_row rows = true → validate_bind_rows_types (first_row :: rows) = Ok () → row ∈ first_row :: rows → row !! i = Some x →
  wire_metadata first_row rows !! i = Some (t, cs, size) → column_takes t cs x.
Proof.
  intros Hbool Hcheck Hin Hx Hm. split.
  { intros -> ->. unfold boolean_nulls_typed in Hbool. rewrite forallb_forall in Hbool.
    specialize (Hbool row ltac:(by apply list_elem_of_In)). rewrite forallb_forall in Hbool.
    assert (zip row (wire_metadata first_row rows) !! i = Some (BNull, (ORA_TYPE_NUM_BOOLEAN, cs, size))) as Hz
      by (apply lookup_zip_with_Some; eauto).
    specialize (Hbool _ ltac:(apply list_elem_of_In; by eapply list_elem_of_lookup_2)). done. }
  intros info Hinfo. destruct (wire_metadata_lookup _ _ i _ Hm) as [Hi Heq].
  destruct (lookup_lt_is_Some_2 first_row i Hi) as [f Hf]. pose proof (infer_agrees first_row f rows i Hf) as Ha.
  assert (row_type i row = Some info) as Ht by (unfold row_type; by rewrite Hx).
  destruct (find_map_some (row_type i) (first_row :: rows) row info Hin Ht) as [i0 Hfm]. rewrite Hfm in Ha.
  unfold column_ok in Ha. unfold wire_column in Heq. rewrite Hf in Heq. cbn [default from_option id] in Heq.
  rewrite <- Heq in Ha. destruct Ha as (_ & Hfam & -> & _). rewrite Hfam.
  exact (typed_rows_agree first_row rows i row info i0 Hcheck Hi Hfm Hin Ht).
Qed.

Lemma reads_each lim rows readings : Forall2 (Forall2 (reads_as lim)) rows readings →
  Forall (λ row, Forall (λ v, ∃ q, reads_as lim v q) row) rows.
Proof.
  induction 1 as [|row qs rows readings Hr _ IH]; [apply Forall_nil|]. apply Forall_cons; [|done]. clear -Hr.
  induction Hr as [|x q row qs Hx _ IH]; [apply Forall_nil|]. apply Forall_cons; [by exists q|done].
Qed.

Lemma wire_metadata_length first_row rows : length (wire_metadata first_row rows) = length first_row.
Proof. unfold wire_metadata. by rewrite length_map, length_seq. Qed.

Lemma bound_rows_written lim first_row rows readings plsql max v :
  field_fits lim 32 → first_row ≠ [] → Forall (λ row, length row = length first_row) rows →
  validate_bind_rows_types (first_row :: rows) = Ok () → boolean_nulls_typed first_row rows = true →
  Forall2 (Forall2 (reads_as lim)) (first_row :: rows) readings →
  ∃ enc cols,
    (∀ w, write_bind_params (first_row :: rows) plsql max v w = (Ok (), write_raw enc w)) ∧
    map bc_triple cols = wire_metadata first_row rows ∧
    parses lim (read_bind_params (length first_row) (length (first_row :: rows)) plsql max v) enc
      (cols, map (labelled (sent_order (wire_metadata first_row rows) plsql max)) readings).
Proof.
  intros Hroom Hne Hwidth Hcheck Hbool Hreads. pose proof (wire_metadata_length first_row rows) as Hlm. set (meta := wire_metadata first_row rows) in *.
  pose proof (reads_each lim _ _ Hreads) as Hall.
  destruct (columns_written lim Hroom first_row rows Hall v (seq 0 (length first_row))) as (ec & Hwc & Hpc & Htr).
  { apply Forall_forall. intros i Hi%in_seq. lia. }
  destruct (rows_written lim Hroom meta (first_row :: rows) readings plsql max) as (er & Hwr & Hpr); [..|done| |].
  - intros Hnil. rewrite Hnil in Hlm. by destruct first_row.
  - apply Forall_lookup. intros i m Hm. destruct (wire_metadata_lookup _ _ i m Hm) as [Hi ->]. by apply (wire_column_fine lim).
  - rewrite Hlm. by apply Forall_cons.
  - intros row i x t cs size Hin Hx Hm. by eapply columns_take.
  - rewrite length_seq in Hpc. fold (wire_metadata first_row rows) in Hwc, Htr. fold meta in Hwc, Htr.
    exists (ec ++ er), (map (wire_description first_row rows) (seq 0 (length first_row))). split_and!; [|done|].
    + intros w. unfold write_bind_params. st_run. rewrite Hwc. st_run. by rewrite Hwr, write_raw_raw.
    + unfold read_bind_params. eapply parses_bind; [exact Hpc|]. rewrite Htr. eapply parses_last; [exact Hpr|apply parses_ret].
Qed.

(** C23: A batch of scalar values is read back value for value.  Take rows of one width, one
    column at least, that pass the type check made before the wire, in which a BOOLEAN
    column has no plain null (which is written as the indicator a PL/SQL BOOLEAN refuses),
    and in which every value, in or in-out, is: a plain or typed null, text, raw, a boolean,
    a float, a number or integer whose text encodes and whose encoding decodes (not forty
    digits under an odd point), an interval, a date or a timestamp within the fields'
    ranges, or one with a zone offset above -1200 minutes.  OUT values, arrays, LOBs, objects, vectors, JSON
    and cursors are not covered.  Then the bind section is written without error; a reader
    that knows the numbers of columns and rows, the server's longest string and whether the
    statement is PL/SQL finds each column's type, form and size as the writer inferred them
    from all the rows, and every value of every row once (empty text and raw as null),
    LONG values behind the others. *)
Theorem bound_rows_roundtrip lim first_row rows readings plsql max v :
  field_fits lim 32 → first_row ≠ [] → Forall (λ row, length row = length first_row) rows →
  validate_bind_rows_types (first_row :: rows) = Ok () → boolean_nulls_typed first_row rows = true →
  Forall2 (Forall2 (reads_as lim)) (first_row :: rows) readings →
  let meta := wire_metadata first_row rows in
  let order := sent_order meta plsql max in
  Permutation order (seq 0 (length first_row)) ∧
  ∃ enc cols,
    (∀ w, write_bind_params (first_row :: rows) plsql max v w = (Ok (), write_raw enc w)) ∧
    map bc_triple cols = meta ∧
    parses lim (read_bind_params (length first_row) (length (first_row :: rows)) plsql max v) enc
      (cols, map (labelled order) readings).
Proof.
  intros Hroom Hne Hwidth Hcheck Hbool Hreads. cbn zeta. split; [|by apply bound_rows_written].
  unfold sent_order. rewrite wire_metadata_length. apply partition_order.
Qed.

(** A text column too wide for the server's longest string goes behind the others. *)
Lemma bound_rows_roundtrip_witness :
  let first_row := [BText (txt "abcdef"); BNumber (txt "7"); BNull; BBoolean true] in
  let rows := [[BNull; BNumber (txt "7"); BInOut (BDateTime 2024 2 29 23 59 59) 7; BTypedNull ORA_TYPE_NUM_BOOLEAN 0 4]] in
  let seven := Some (VNumber (Inline [7; 0; 0; 0; 0; 0; 0; 0; 0; 0; 0; 0; 0; 0; 0; 0] 0 true)) in
  let readings := [[Some (VText (txt "abcdef")); seven; None; Some (VBoolean true)];
                   [None; seven; Some (VTemporal (DateTime 2024 2 29 23 59 59 0)); None]] in
  let order := sent_order (wire_metadata first_row rows) false 22 in
  order = [1; 2; 3; 0]%nat ∧
  ∃ enc cols,
    (∀ w, write_bind_params (first_row :: rows) false 22 24 w = (Ok (), write_raw enc w)) ∧
    map bc_triple cols = wire_metadata first_row rows ∧
    parses limits_DEFAULT (read_bind_params 4 2 false 22 24) enc (cols, map (labelled order) readings).
Proof.
  intros first_row rows seven readings order. split; [reflexivity|].
  assert (Forall2 (Forall2 (reads_as limits_DEFAULT)) (first_row :: rows) readings) as Hreads.
  { assert (reads_as limits_DEFAULT (BNumber (txt "7")) seven) as Hseven
      by (apply (reads_number limits_DEFAULT (txt "7") [193; 8]); vm_compute; reflexivity).
    assert (reads_as limits_DEFAULT (BText (txt "abcdef")) (Some (VText (txt "abcdef")))) as Htext.
    { apply (reads_text limits_DEFAULT (txt "abcdef")); [|vm_compute; repeat split; discriminate].
      repeat first [apply Forall_nil | apply Forall_cons; [reflexivity|]]. }
    assert (reads_as limits_DEFAULT (BInOut (BDateTime 2024 2 29 23 59 59) 7) (Some (VTemporal (DateTime 2024 2 29 23 59 59 0)))) as Hdate
      by (apply reads_inout; [apply reads_date; reflexivity|vm_compute; split; discriminate]).
    assert (reads_as limits_DEFAULT (BTypedNull ORA_TYPE_NUM_BOOLEAN 0 4) None) as Hnull
      by (apply reads_typed_null; [reflexivity|lia|vm_compute; discriminate]).
    repeat (apply List.Forall2_cons || apply List.Forall2_nil || apply reads_null || apply reads_boolean || assumption). }
  exact (proj2 (bound_rows_roundtrip limits_DEFAULT first_row rows readings false 22 24
    ltac:(vm_compute; repeat split; discriminate) ltac:(discriminate)
    ltac:(repeat first [apply Forall_nil | apply Forall_cons; [reflexivity|]]) ltac:(reflexivity) ltac:(reflexivity) Hreads)).
Defined.

(** A plain null in a column that another row makes BOOLEAN passes the type check, and is
    written as the null indicator that the comment of [write_bind_value] says a server
    refuses for a PL/SQL BOOLEAN. *)
Example plain_boolean_null_refused :
  let rows := [[BBoolean true]; [BNull]] in
  validate_bind_rows_types rows = Ok () ∧ boolean_nulls_typed [BBoolean true] [[BNull]] = false ∧
  let '(written, w) := write_bind_params rows true 32767 24 writer_new in
  written = Ok () ∧
  (read_bind_params 1 2 true 32767 24 (mkTtcReader (w_bytes w) 0 limits_DEFAULT)).1 =
    Err (TtcDecode "wrong number or types of arguments").
Proof. split; [reflexivity|]. split; [reflexivity|]. vm_compute. by split. Qed.
