(* ===== verification/ExecuteWire.v ===== *)
(** * Execute, fetch and close requests on the wire

    A reader of the execute layout at every field version, written from the message's
    description, and what it finds in the requests the driver builds. *)

From S2P Require Import Prelude.
From S2P Require Import Protocol.
From S2P Require Import Limits.
From S2P Require Import Writer.
From S2P Require Import Reader.
From S2P Require Import Wire.
From S2P Require Import Layout.
From S2P Require Import Number.
From S2P Require Import Sql.
From S2P Require Import ShapeCache.
From S2P Require Import Binds.
From S2P Require Import StatementCache.
From S2P Require Import Utf.
From S2P Require Import Fetch.
From S2P Require Import ObjectRoundtrip.
From S2P Require Import Execute.
From S2P Require Import BindWire.

(** ** What a request says *)

Record RequestOptions := mkRequestOptions {
  wants_parse : bool; wants_bind : bool; wants_define : bool; wants_execute : bool; wants_fetch : bool;
  wants_plsql_bind : bool; wants_not_plsql : bool; wants_describe : bool; wants_batch_errors : bool
}.
Definition read_options (z : Z) : RequestOptions :=
  mkRequestOptions (Z.testbit z 0) (Z.testbit z 3) (Z.testbit z 4) (Z.testbit z 5) (Z.testbit z 6) (Z.testbit z 10)
    (Z.testbit z 15) (Z.testbit z 17) (Z.testbit z 19).

Record RequestFlags := mkRequestFlags {
  keeps_scrollable : bool; keeps_open_at_end : bool; wants_row_counts : bool; takes_implicit_results : bool
}.
Definition read_flags (z : Z) : RequestFlags :=
  mkRequestFlags (Z.testbit z 1) (Z.testbit z 7) (Z.testbit z 14) (Z.testbit z 15).

Record ExecuteRequest := mkRequest {
  x_message : Z * Z * Z;
  x_token : Z;
  x_options : RequestOptions;
  x_cursor_id : Z;
  x_sql : option bytes;
  x_sql_length : Z;
  x_num_iters : Z;
  x_bind_count : Z;
  x_define_count : Z;
  x_registration_id : Z;
  x_row_counts : option Z;
  x_parse : Z;
  x_exec_count : Z;
  x_is_query : Z;
  x_flags : RequestFlags;
  x_orientation : Z;
  x_position : Z
}.

Definition signature_kinds (v : Z) : list FieldKind :=
  if writes_al8sqlsig v
  then [FU8; FUB4; FU8; FUB4; FU8] ++ (if writes_execute_chunk_ids v then [FU8; FUB4] else [])
  else [].

(** The reader of a request at field version [v]. *)
Definition read_execute_request (v : Z) : ReaderM ExecuteRequest :=
  m ← read_fields [FU8; FU8; FU8];
  t ← read_fields (if writes_pipeline_token v then [FUB8] else []);
  h ← read_fields
        ([FUB4; FUB4] ++ [FU8; FUB4] ++ [FU8; FUB4; FU8; FU8; FUB4; FUB4; FUB4] ++ [FU8; FUB4] ++
         [FU8; FU8; FU8; FU8; FU8; FU8; FUB4; FUB4; FU8; FU8; FU8; FUB4; FU8; FUB4; FUB4] ++ [FU8; FUB4; FU8]);
  _ ← read_fields (signature_kinds v);
  sql ← (if nth 2 h 0 =? 0 then mret None else o ← read_bytes; mret (Some (default [] o)));
  x ← read_fields [FUB4; FUB4; FUB4; FUB4; FUB4; FUB4; FUB4; FUB4; FUB4; FUB4; FUB4; FUB4; FUB4];
  mret (mkRequest (nth 0 m 0, nth 1 m 0, nth 2 m 0) (nth 0 t 0) (read_options (nth 0 h 0)) (nth 1 h 0) sql (nth 3 h 0)
          (nth 9 h 0) (if nth 11 h 0 =? 0 then 0 else nth 12 h 0) (if nth 18 h 0 =? 0 then 0 else nth 19 h 0)
          (nth 27 h 0 * 2 ^ 32 + nth 20 h 0) (if nth 28 h 0 =? 0 then None else Some (nth 29 h 0))
          (nth 0 x 0) (nth 1 x 0) (nth 7 x 0) (read_flags (nth 9 x 0)) (nth 10 x 0) (nth 11 x 0)).

(** A text is sent for a new cursor and for DDL. *)
Definition sends_text (sql : chars) (o : ExecuteOptions) : bool := (o_cursor_id o =? 0) || statement_is_ddl sql.

(** What an execute asks for, said without the wire. *)
Definition expected_request (sql : chars) (prefetch_rows seq : Z) (is_query : bool) (bind_rows : BindRows)
  (o : ExecuteOptions) : ExecuteRequest :=
  let bind_count := match bind_rows with row :: _ => Zlen row | [] => 0 end in
  let runs := negb (parse_only o) in
  let plsql := statement_is_plsql sql in
  let num_iters := if is_query && runs then prefetch_rows else 1 in
  let exec_count :=
    if parse_only o then 0
    else if is_query then (if o_cursor_id o =? 0 then 0 else prefetch_rows) else Z.max (Zlen bind_rows) 1 in
  mkRequest (TNS_MSG_TYPE_FUNCTION, TNS_FUNC_EXECUTE, seq) (token_num o)
    (mkRequestOptions (sends_text sql o) ((0 <? bind_count) && negb (scroll_operation o)) false
       (runs && negb (scroll_operation o)) (is_query && runs && negb (no_prefetch o))
       (plsql && (0 <? bind_count)) (negb plsql && runs) (is_query && parse_only o) (batcherrors o))
    (o_cursor_id o)
    (if sends_text sql o then Some (as_bytes sql) else None)
    (if sends_text sql o then Zlen (as_bytes sql) else 0)
    num_iters bind_count 0 (registration_id o)
    (if arraydmlrowcounts o then Some exec_count else None)
    (Z.b2z (sends_text sql o)) exec_count (Z.b2z is_query)
    (mkRequestFlags (scrollable o && runs) (scrollable o && runs) (arraydmlrowcounts o) runs)
    (fetch_orientation o) (fetch_pos o).

(** The bits of the two option words. *)
Lemma option_bits sql is_query n o :
  0 <= execute_option_bits sql is_query n o <= U32_MAX ∧
  read_options (execute_option_bits sql is_query n o) =
  mkRequestOptions (needs_parse sql o) ((0 <? n) && negb (scroll_operation o)) false
    (negb (parse_only o) && negb (scroll_operation o)) (is_query && negb (parse_only o) && negb (no_prefetch o))
    (statement_is_plsql sql && (0 <? n)) (negb (statement_is_plsql sql) && negb (parse_only o)) (is_query && parse_only o)
    (batcherrors o).
Proof.
  unfold execute_option_bits.
  destruct (needs_parse sql o), (parse_only o), (scroll_operation o), is_query, (no_prefetch o), (0 <? n),
    (statement_is_plsql sql), (batcherrors o); by vm_compute.
Qed.

Lemma flag_bits o : 0 <= execute_flag_bits o <= U32_MAX ∧
  read_flags (execute_flag_bits o) =
  mkRequestFlags (scrollable o && negb (parse_only o)) (scrollable o && negb (parse_only o)) (arraydmlrowcounts o) (negb (parse_only o)).
Proof. unfold execute_flag_bits. destruct (parse_only o), (arraydmlrowcounts o), (scrollable o); by vm_compute. Qed.

(** The values the Rust types of the arguments admit. *)
Definition options_typed (o : ExecuteOptions) : Prop :=
  0 <= token_num o <= U64_MAX ∧ 0 <= o_cursor_id o <= U32_MAX ∧ 0 <= fetch_orientation o <= U32_MAX ∧
  0 <= fetch_pos o <= U32_MAX ∧ 0 <= registration_id o <= U64_MAX.

Lemma registration_halves z : 0 <= z <= U64_MAX →
  0 <= Z.land z U32_MAX <= U32_MAX ∧ 0 <= Z.land (Z.shiftr z 32) U32_MAX <= U32_MAX ∧
  Z.land (Z.shiftr z 32) U32_MAX * 2 ^ 32 + Z.land z U32_MAX = z.
Proof.
  intros Hz. change U32_MAX with (Z.ones 32) in *. rewrite !Z.land_ones by lia. rewrite Z.shiftr_div_pow2 by lia.
  unfold U64_MAX in Hz. pose proof (Z.mod_pos_bound z (2 ^ 32) ltac:(lia)).
  assert (0 <= z / 2 ^ 32 < 2 ^ 32) as Hq by (split; [apply Z.div_pos; lia|apply Z.div_lt_upper_bound; lia]).
  rewrite (Z.mod_small (z / 2 ^ 32)) by lia. change (Z.ones 32) with (2 ^ 32 - 1).
  pose proof (Z.div_mod z (2 ^ 32) ltac:(lia)). lia.
Qed.

(** ** The header of an execute request *)

Section Header.
Context (sql : chars) (prefetch_rows seq : Z) (is_query : bool) (bind_rows : BindRows) (o : ExecuteOptions) (v : Z).

Definition bind_width : Z := match bind_rows with row :: _ => Zlen row | [] => 0 end.
Definition exec_count : Z := execute_count is_query prefetch_rows (Zlen bind_rows) o.

Definition function_fields : list (FieldKind * Z) := [(FU8, TNS_MSG_TYPE_FUNCTION); (FU8, TNS_FUNC_EXECUTE); (FU8, seq)].
Definition token_fields : list (FieldKind * Z) := if writes_pipeline_token v then [(FUB8, token_num o)] else [].
Definition fixed_fields : list (FieldKind * Z) :=
  [(FUB4, execute_option_bits sql is_query bind_width o); (FUB4, o_cursor_id o)] ++
  (if needs_parse sql o then [(FU8, 1); (FUB4, Zlen (as_bytes sql))] else [(FU8, 0); (FUB4, 0)]) ++
  [(FU8, 1); (FUB4, 13); (FU8, 0); (FU8, 0); (FUB4, 0); (FUB4, execute_num_iters is_query prefetch_rows o);
   (FUB4, TNS_MAX_LONG_LENGTH)] ++
  (if bind_width =? 0 then [(FU8, 0); (FUB4, 0)] else [(FU8, 1); (FUB4, bind_width)]) ++
  [(FU8, 0); (FU8, 0); (FU8, 0); (FU8, 0); (FU8, 0); (FU8, 0); (FUB4, 0); (FUB4, Z.land (registration_id o) U32_MAX);
   (FU8, 0); (FU8, 1); (FU8, 0); (FUB4, 0); (FU8, 0); (FUB4, 0);
   (FUB4, Z.land (Z.shiftr (registration_id o) 32) U32_MAX)] ++
  (if arraydmlrowcounts o then [(FU8, 1); (FUB4, exec_count); (FU8, 1)] else [(FU8, 0); (FUB4, 0); (FU8, 0)]).
Definition signature_fields : list (FieldKind * Z) := map (λ k, (k, 0)) (signature_kinds v).
Definition sql_field : bytes := if needs_parse sql o then field_bytes (as_bytes sql) else [].
Definition tail_fields : list (FieldKind * Z) :=
  [(FUB4, Z.b2z (needs_parse sql o)); (FUB4, exec_count); (FUB4, 0); (FUB4, 0); (FUB4, 0); (FUB4, 0); (FUB4, 0);
   (FUB4, Z.b2z is_query); (FUB4, 0); (FUB4, execute_flag_bits o); (FUB4, fetch_orientation o); (FUB4, fetch_pos o); (FUB4, 0)].

Definition header_bytes : bytes :=
  layout function_fields ++ layout token_fields ++ layout fixed_fields ++ layout signature_fields ++ sql_field ++ layout tail_fields.

Context (Hseq : 0 <= seq <= 255) (Hrows : 0 <= prefetch_rows <= U32_MAX) (Ho : options_typed o)
  (Hsql : Zlen (as_bytes sql) <= U32_MAX) (Hcount : Zlen bind_rows <= U32_MAX) (Hwidth : bind_width <= U32_MAX).

Lemma bind_width_nonneg : 0 <= bind_width.
Proof. unfold bind_width. destruct bind_rows; [done|apply Zlen_nonneg]. Qed.

Lemma exec_count_range : 0 <= exec_count <= U32_MAX.
Proof.
  unfold exec_count, execute_count, execute_num_iters. pose proof (Zlen_nonneg bind_rows).
  destruct (parse_only o), is_query, (o_cursor_id o =? 0); cbn [andb negb]; unfold U32_MAX in *; lia.
Qed.

Lemma header_ranges :
  Forall in_range function_fields ∧ Forall in_range token_fields ∧ Forall in_range fixed_fields ∧
  Forall in_range signature_fields ∧ Forall in_range tail_fields.
Proof.
  pose proof exec_count_range. pose proof bind_width_nonneg. pose proof (proj1 (option_bits sql is_query bind_width o)).
  pose proof (proj1 (flag_bits o)). pose proof (Zlen_nonneg (as_bytes sql)). destruct Ho as (? & ? & ? & ? & Hreg).
  destruct (registration_halves (registration_id o) Hreg) as (? & ? & _).
  assert (0 <= execute_num_iters is_query prefetch_rows o <= U32_MAX)
    by (unfold execute_num_iters, U32_MAX in *; destruct (is_query && _); lia).
  unfold function_fields, token_fields, fixed_fields, signature_fields, signature_kinds, tail_fields,
    TNS_MSG_TYPE_FUNCTION, TNS_FUNC_EXECUTE, TNS_MAX_LONG_LENGTH.
  split_and!; [ranges|destruct (writes_pipeline_token v); ranges| | |destruct (needs_parse sql o), is_query; cbn [Z.b2z]; ranges].
  - repeat (apply Forall_app; split); try ranges;
      [destruct (needs_parse sql o)|destruct (bind_width =? 0)|destruct (arraydmlrowcounts o)]; ranges.
  - destruct (writes_al8sqlsig v), (writes_execute_chunk_ids v); cbn [map app]; ranges.
Qed.

(** Rows of different widths are refused. *)
Definition same_width : bool := forallb (λ row, Zlen row =? bind_width) bind_rows.

(** The part behind the header. *)
Definition bind_part : WriterM () :=
  if negb (bool_decide (bind_rows = [])) && negb (scroll_operation o)
  then write_bind_params bind_rows (statement_is_plsql sql) (max_string_size o) v else mret ().

Lemma token_run (Ht : Forall in_range token_fields) (Htoken : writes_pipeline_token v = true ∨ token_num o = 0) w :
  (if writes_pipeline_token v then modify (write_ub8 (token_num o)) else if token_num o =? 0 then mret () else lift Panic : WriterM ()) w =
  (Ok (), write_raw (layout token_fields) w).
Proof.
  rewrite <- emit_layout by done. unfold token_fields. destruct (writes_pipeline_token v); [done|]. by destruct Htoken as [?| ->].
Qed.

Lemma execute_writes w : same_width = true → writes_pipeline_token v = true ∨ token_num o = 0 →
  write_execute sql prefetch_rows seq is_query bind_rows o v w = bind_part (write_raw header_bytes w).
Proof.
  intros Hsame Htoken. destruct header_ranges as (Hf & Ht & Hx & Hs & Hl). pose proof bind_width_nonneg.
  pose proof (Zlen_nonneg (as_bytes sql)). pose proof (Zlen_nonneg bind_rows). pose proof exec_count_range.
  unfold write_execute, u32_length. fold bind_width same_width. rewrite Hsame. st_run. rewrite try_range_in by lia. st_run.
  rewrite try_range_in by lia. st_run. rewrite try_range_in by lia. st_run. fold exec_count.
  change (write_function_code_with_seq TNS_FUNC_EXECUTE seq w) with (foldl (λ w f, f w) w (map put function_fields)).
  rewrite emitted by done.
  rewrite (token_run Ht Htoken). rewrite !(emit_join _ _ (λ _, _)). cbn beta.
  match goal with |- (emit ?l ≫= _) _ = _ => assert (l = map put (fixed_fields ++ signature_fields)) as -> end.
  { unfold fixed_fields, signature_fields, signature_kinds.
    destruct (needs_parse sql o), (bind_width =? 0), (arraydmlrowcounts o), (writes_al8sqlsig v), (writes_execute_chunk_ids v); reflexivity. }
  rewrite st_bindE, emit_layout by (by apply Forall_app). fold bind_part. rewrite layout_app.
  match goal with |- (?stage ≫= ?k) ?w0 = _ => assert ((stage ≫= k) w0 =
    (bind_part (write_raw (layout tail_fields) (write_raw sql_field w0)))) as -> end.
  { rewrite <- (emitted tail_fields) by done. unfold sql_field, tail_fields, emit. destruct (needs_parse sql o).
    - rewrite st_bindE, st_bindE, write_bytes_with_length_spec. reflexivity.
    - rewrite write_raw_nil. reflexivity. }
  rewrite !write_raw_raw. unfold header_bytes. by rewrite <- !app_assoc.
Qed.

Lemma header_parses lim : field_fits lim (Z.max 32 (Zlen (as_bytes sql))) →
  writes_pipeline_token v = true ∨ token_num o = 0 →
  parses lim (read_execute_request v) header_bytes (expected_request sql prefetch_rows seq is_query bind_rows o).
Proof.
  intros ((H8 & Hr) & Hc & Hl1 & Hl2) Htoken. destruct header_ranges as (Hf & Ht & Hx & Hs & Hl).
  unfold read_execute_request, header_bytes.
  eapply parses_bind; [exact (fields_parse lim H8 function_fields Hf)|].
  assert (map fst token_fields = if writes_pipeline_token v then [FUB8] else []) as <-
    by (unfold token_fields; by destruct (writes_pipeline_token v)).
  eapply parses_bind; [exact (fields_parse lim H8 token_fields Ht)|].
  match goal with |- parses lim (read_fields ?ks ≫= _) _ _ => assert (map fst fixed_fields = ks) as <- end.
  { unfold fixed_fields. by destruct (needs_parse sql o), (bind_width =? 0), (arraydmlrowcounts o). }
  eapply parses_bind; [exact (fields_parse lim H8 fixed_fields Hx)|].
  assert (map fst signature_fields = signature_kinds v) as <- by (unfold signature_fields; rewrite map_map; apply map_id).
  eapply parses_bind; [exact (fields_parse lim H8 signature_fields Hs)|].
  assert (nth 2 (map snd fixed_fields) 0 = Z.b2z (needs_parse sql o)) as ->
    by (unfold fixed_fields; by destruct (needs_parse sql o)).
  eapply parses_bind.
  { instantiate (1 := if needs_parse sql o then Some (as_bytes sql) else None). unfold sql_field. destruct (needs_parse sql o); cbn [Z.b2z Z.eqb].
    - eapply parses_last; [apply read_bytes_parses; [done..|lia|lia]|].
      assert (default [] (field_value (as_bytes sql)) = as_bytes sql) as -> by (by destruct (as_bytes sql)). apply parses_ret.
    - apply parses_ret. }
  eapply parses_last; [exact (fields_parse lim H8 tail_fields Hl)|].
  match goal with |- parses lim (mret ?x) [] ?y => assert (x = y) as ->; [|apply parses_ret] end.
  unfold expected_request. change (sends_text sql o) with (needs_parse sql o). fold bind_width.
  assert ((if parse_only o then 0 else if is_query then if o_cursor_id o =? 0 then 0 else prefetch_rows else Z.max (Zlen bind_rows) 1)
    = exec_count) as -> by (unfold exec_count, execute_count, execute_num_iters; by destruct (parse_only o), is_query).
  assert (nth 0 (map snd token_fields) 0 = token_num o) as ->
    by (unfold token_fields; destruct (writes_pipeline_token v); [done|by destruct Htoken as [?| ->]]).
  rewrite <- (proj2 (option_bits sql is_query bind_width o)), <- (proj2 (flag_bits o)).
  unfold fixed_fields, tail_fields, function_fields. destruct Ho as (_ & _ & _ & _ & Hreg).
  destruct (registration_halves (registration_id o) Hreg) as (_ & _ & Hreg').
  destruct (Z.eqb_spec (bind_width) 0) as [Hz|Hz]; rewrite ?Hz; destruct (needs_parse sql o), (arraydmlrowcounts o); cbn [app map snd nth Z.b2z Z.eqb];
    rewrite Hreg'; reflexivity.
Qed.
End Header.

(** ** Whole requests *)

(** The reader of a whole request: a batch is announced by its option bit, the number of
    rows by the iteration count; a query has one row of binds. *)
Definition read_request (max v : Z)
  : ReaderM (ExecuteRequest * option (list BoundColumn * list (list (nat * option FetchValue)))) :=
  r ← read_execute_request v;
  b ← (if wants_bind (x_options r) then
         b ← read_bind_params (Z.to_nat (x_bind_count r))
               (Z.to_nat (if x_is_query r =? 1 then 1 else x_exec_count r)) (wants_plsql_bind (x_options r)) max v;
         mret (Some b)
       else mret None);
  mret (r, b).

(** Rows the reader is expected to find [readings] in. *)
Definition batch_ok (lim : ProtocolLimits) (bind_rows : BindRows) (readings : list (list (option FetchValue))) : Prop :=
  match bind_rows with
  | [] => readings = []
  | first_row :: rows =>
      first_row ≠ [] ∧ Forall (λ row, length row = length first_row) rows ∧
      validate_bind_rows_types bind_rows = Ok () ∧ boolean_nulls_typed first_row rows = true ∧
      Forall2 (Forall2 (reads_as lim)) bind_rows readings
  end.

Definition found (bind_rows : BindRows) (readings : list (list (option FetchValue))) (plsql : bool) (max : Z) (scroll : bool)
  (bound : option (list BoundColumn * list (list (nat * option FetchValue)))) : Prop :=
  match bind_rows with
  | first_row :: rows =>
      if scroll then bound = None
      else ∃ cols, map bc_triple cols = wire_metadata first_row rows ∧
        bound = Some (cols, map (labelled (sent_order (wire_metadata first_row rows) plsql max)) readings)
  | [] => bound = None
  end.

Lemma batch_same_width lim bind_rows readings : batch_ok lim bind_rows readings → same_width bind_rows = true.
Proof.
  unfold same_width, bind_width. destruct bind_rows as [|first_row rows]; [done|]. intros (_ & Hw & _). cbn [forallb].
  rewrite Z.eqb_refl. cbn [andb]. apply forallb_forall. intros row Hin. rewrite List.Forall_forall in Hw.
  unfold Zlen. rewrite (Hw row Hin). apply Z.eqb_refl.
Qed.

(** What is behind the header, written and read. *)
Lemma binds_parse lim sql bind_rows readings o v plsql : field_fits lim 32 → batch_ok lim bind_rows readings →
  statement_is_plsql sql = plsql → scroll_operation o = false → bind_rows ≠ [] →
  ∃ enc bound, (∀ w, bind_part sql bind_rows o v w = (Ok (), write_raw enc w)) ∧
    found bind_rows readings plsql (max_string_size o) false (Some bound) ∧
    parses lim (read_bind_params (Z.to_nat (bind_width bind_rows)) (length bind_rows) plsql (max_string_size o) v) enc bound.
Proof.
  intros Hroom Hb <- Hs Hne. destruct bind_rows as [|first_row rows]; [done|]. destruct Hb as (Hf & Hw & Hv & Hbool & Hr).
  destruct (bound_rows_written lim first_row rows readings (statement_is_plsql sql) (max_string_size o) v Hroom Hf Hw Hv Hbool Hr)
    as (enc & cols & Hwr & Ht & Hp).
  exists enc, (cols, map (labelled (sent_order (wire_metadata first_row rows) (statement_is_plsql sql) (max_string_size o))) readings).
  split_and!.
  - intros w. unfold bind_part. rewrite Hs. cbn [negb andb]. rewrite andb_true_r. rewrite bool_decide_eq_false_2 by done. apply Hwr.
  - cbn. by exists cols.
  - unfold bind_width. assert (Z.to_nat (Zlen first_row) = length first_row) as -> by (unfold Zlen; lia). exact Hp.
Qed.

(** C5: An execute request says what was asked for, at every field version.  Take a statement
    that fits 32 bits and the reader's limits, options that are not parse-only (with a token
    only on a version that carries one), and a batch of no rows, or of rows of one width,
    one column at least, that pass the type check (one row at most for a query), whose
    values are scalars of [reads_as]: no OUT values, arrays, LOBs, objects, vectors, JSON or
    cursors; numbers whose text encodes and whose encoding decodes (not forty digits under
    an odd point); zone offsets above -1200 minutes; no plain null in a BOOLEAN column.
    Then the request is built without error, and a reader of the layout at the negotiated
    version, with exactly its fields, finds the token, the
    cursor, the SQL exactly when the cursor is new or the statement is DDL, the iteration
    counts, the registration id, the options and flags asked for and none else, and, unless
    the request only scrolls, every bound value of every row; nothing is left over. *)
Theorem execute_request_roundtrip lim sql prefetch_rows seq is_query bind_rows readings o v :
  0 <= seq <= 255 → 0 <= prefetch_rows <= U32_MAX → options_typed o →
  Zlen (as_bytes sql) <= U32_MAX → Zlen bind_rows <= U32_MAX → bind_width bind_rows <= U32_MAX →
  field_fits lim (Z.max 32 (Zlen (as_bytes sql))) →
  writes_pipeline_token v = true ∨ token_num o = 0 →
  batch_ok lim bind_rows readings → parse_only o = false → (is_query = true → Zlen bind_rows <= 1) →
  ∃ payload bound,
    build_execute_payload_with_bind_rows_and_options_with_seq sql prefetch_rows seq is_query bind_rows o v = Ok payload ∧
    found bind_rows readings (statement_is_plsql sql) (max_string_size o) (scroll_operation o) bound ∧
    parses lim (read_request (max_string_size o) v) payload
      (expected_request sql prefetch_rows seq is_query bind_rows o, bound).
Proof.
  intros Hseq Hpre Ho Hsql Hcount Hwidth Hfit Htoken Hbatch Hparse Hquery.
  assert (field_fits lim 32) as Hroom by (destruct Hfit as (? & ? & ? & ?); unfold field_fits; split_and!; lia).
  pose proof (header_parses sql prefetch_rows seq is_query bind_rows o v Hseq Hpre Ho Hsql Hcount Hwidth lim Hfit Htoken) as Hhead.
  pose proof (λ w, execute_writes sql prefetch_rows seq is_query bind_rows o v Hseq Hpre Ho Hsql Hcount Hwidth w
    (batch_same_width lim bind_rows readings Hbatch) Htoken) as Hwrite.
  unfold build_execute_payload_with_bind_rows_and_options_with_seq, build. set (head := header_bytes _ _ _ _ _ _ _) in *.
  destruct (scroll_operation o || bool_decide (bind_rows = [])) eqn:Hnone.
  - exists head, None. assert (∀ w, bind_part sql bind_rows o v w = (Ok (), w)) as Hb.
    { intros w. unfold bind_part. by destruct (scroll_operation o), (bool_decide (bind_rows = [])). }
    rewrite Hwrite, Hb. split_and!; [done| |].
    + destruct bind_rows; [done|]. rewrite orb_comm in Hnone. cbn in Hnone |- *. by rewrite Hnone.
    + unfold read_request. eapply parses_last; [exact Hhead|]. cbn [x_options expected_request wants_bind].
      assert ((0 <? bind_width bind_rows) && negb (scroll_operation o) = false) as Hbind.
      { destruct (scroll_operation o); [apply andb_false_r|]. cbn in Hnone. by apply bool_decide_eq_true in Hnone as ->. }
      unfold bind_width in Hbind. rewrite Hbind. eapply parses_bind_nil; [apply parses_ret|apply parses_ret].
  - apply orb_false_iff in Hnone as [Hscroll Hne%bool_decide_eq_false].
    destruct (binds_parse lim sql bind_rows readings o v _ Hroom Hbatch eq_refl Hscroll Hne) as (enc & bound & Hb & Hfound & Hp).
    exists (head ++ enc), (Some bound). rewrite Hwrite, Hb, write_raw_raw, Hscroll. split_and!; [done|done|].
    unfold read_request. eapply parses_bind; [exact Hhead|].
    assert (0 < bind_width bind_rows) as Hpos.
    { destruct bind_rows as [|[|x row] rows]; [done|by destruct Hbatch|]. cbn. rewrite Zlen_cons. pose proof (Zlen_nonneg row). lia. }
    unfold bind_width in Hpos, Hp |- *.
    cbn [x_options expected_request wants_bind wants_plsql_bind x_bind_count x_is_query x_exec_count]. unfold bind_width in *.
    rewrite (proj2 (Z.ltb_lt _ _) Hpos), Hscroll, Hparse. cbn [andb negb]. rewrite andb_true_r.
    eapply parses_last; [|apply parses_ret]. eapply parses_last; [|apply parses_ret].
    assert (Z.to_nat (if Z.b2z is_query =? 1 then 1 else if is_query then if o_cursor_id o =? 0 then 0 else prefetch_rows
      else Z.max (Zlen bind_rows) 1) = length bind_rows) as ->; [|exact Hp].
    destruct bind_rows as [|r rows]; [done|]. unfold Zlen in *. cbn [length] in *. destruct is_query; cbn; [|lia].
    specialize (Hquery eq_refl). lia.
Qed.

(** Rows of different widths are refused before anything is written, and a token is never
    dropped on an older connection: debug builds stop. *)
Lemma execute_refuses sql prefetch_rows seq is_query bind_rows o v :
  Zlen (as_bytes sql) <= U32_MAX →
  (same_width bind_rows = false →
   build_execute_payload_with_bind_rows_and_options_with_seq sql prefetch_rows seq is_query bind_rows o v =
   Err (TtcDecode "inconsistent bind row width")) ∧
  (same_width bind_rows = true → Zlen bind_rows <= U32_MAX → bind_width bind_rows <= U32_MAX →
   writes_pipeline_token v = false → token_num o ≠ 0 →
   build_execute_payload_with_bind_rows_and_options_with_seq sql prefetch_rows seq is_query bind_rows o v = Panic).
Proof.
  intros Hsql. pose proof (Zlen_nonneg (as_bytes sql)). pose proof (Zlen_nonneg bind_rows). pose proof (bind_width_nonneg bind_rows).
  unfold build_execute_payload_with_bind_rows_and_options_with_seq, build, write_execute, u32_length.
  fold (bind_width bind_rows). fold (same_width bind_rows). split.
  - intros ->. st_run. rewrite try_range_in by lia. reflexivity.
  - intros -> Hc Hw Hv Ht. rewrite Hv, (proj2 (Z.eqb_neq _ _) Ht). st_run. rewrite try_range_in by lia. st_run.
    rewrite try_range_in by lia. st_run. rewrite try_range_in by lia. reflexivity.
Qed.

(** ** Define and fetch *)

Definition define_description (c : ColumnMetadata) : BoundColumn :=
  let '(size, cont_flags, prefetch) := define_sizes c in
  mkBound (ora_type_num c) TNS_BIND_USE_INDICATORS (Z.max size 1) 0 cont_flags None 0
    (if negb (csfrm c =? 0) then TNS_CHARSET_UTF8 else 0) (csfrm c) prefetch.

Definition read_define_request (v : Z) : ReaderM (ExecuteRequest * list BoundColumn) :=
  r ← read_execute_request v;
  cols ← read_bound_columns (Z.to_nat (x_define_count r)) v;
  mret (r, cols).

Definition define_request (cursor_id arraysize seq columns : Z) : ExecuteRequest :=
  mkRequest (TNS_MSG_TYPE_FUNCTION, TNS_FUNC_EXECUTE, seq) 0
    (mkRequestOptions false false true false false false true false false) cursor_id None 0 arraysize 0 columns 0 None 0 arraysize 1
    (mkRequestFlags false false false false) 0 0.

Definition column_typed (c : ColumnMetadata) : Prop :=
  0 <= ora_type_num c <= 255 ∧ 0 <= csfrm c <= 255 ∧ 0 <= buffer_size c <= U32_MAX.

Lemma define_column_ranges v c : column_typed c →
  Forall in_range (bound_front (define_description c)) ∧ Forall in_range (bound_back v (define_description c)).
Proof.
  intros (Ht & Hcs & Hs). set (d := define_description c).
  assert (bc_type d = ora_type_num c ∧ bc_csfrm d = csfrm c ∧ 0 <= bc_flags d <= 255 ∧ 0 <= bc_size d <= U32_MAX ∧
    bc_max_elements d = 0 ∧ 0 <= bc_cont_flags d <= U64_MAX ∧ bc_version d = 0 ∧
    0 <= bc_charset d <= U16_MAX ∧ 0 <= bc_prefetch d <= U32_MAX) as (E1 & E2 & ? & ? & E3 & ? & E4 & ? & ?).
  { unfold d, define_description, define_sizes, TNS_BIND_USE_INDICATORS, TNS_LOB_PREFETCH_FLAG, TNS_JSON_MAX_LENGTH,
      TNS_VECTOR_MAX_LENGTH, TNS_CHARSET_UTF8, U64_MAX, U32_MAX, U16_MAX in *. clear d.
    destruct (_ || _), (ora_type_num c =? ORA_TYPE_NUM_VECTOR), (ora_type_num c =? ORA_TYPE_NUM_JSON), (csfrm c =? 0); cbn; lia. }
  clearbody d. unfold bound_front, bound_back. rewrite E1, E2, E3, E4. split; [ranges|].
  apply Forall_app. split; [|destruct (carries_oaccolid v)]; ranges.
Qed.

Lemma define_column_bytes v c w : column_typed c → carries_oaccolid v = true →
  write_define_column_metadata c w =
  write_raw (layout (bound_front (define_description c)) ++ two_lengths_bytes None ++ layout (bound_back v (define_description c))) w.
Proof.
  intros Hc Hv. destruct (define_column_ranges v c Hc) as [Hf Hb].
  rewrite <- !write_raw_raw, <- (emitted (bound_back v _)), <- (emitted (bound_front _)) by done.
  unfold write_define_column_metadata, define_description, bound_back. rewrite Hv.
  destruct (define_sizes c) as [[size cont] prefetch]. reflexivity.
Qed.

Lemma define_columns_written lim v cols : field_fits lim 32 → Forall column_typed cols → carries_oaccolid v = true →
  ∃ enc, (∀ w, emit (map write_define_column_metadata cols) w = (Ok (), write_raw enc w)) ∧
    parses lim (read_bound_columns (length cols) v) enc (map define_description cols).
Proof.
  intros ((H8 & Hr) & Hc & _ & _) Hcols Hv. induction Hcols as [|c cols Ht _ (enc & Hw & Hp)].
  { exists []. split; [intros w; cbn; by rewrite write_raw_nil|apply parses_ret]. }
  destruct (define_column_ranges v c Ht) as [Hf Hb]. eexists. split.
  - intros w. unfold emit, modify in *. cbn [map foldl]. rewrite (define_column_bytes v) by done. specialize (Hw (write_raw
      (layout (bound_front (define_description c)) ++ two_lengths_bytes None ++ layout (bound_back v (define_description c))) w)).
    rewrite Hw, write_raw_raw. done.
  - cbn [length read_bound_columns map]. eapply parses_bind; [|eapply parses_last; [exact Hp|apply parses_ret]].
    apply bound_parses; [done|done|done| |done]. unfold define_description. by destruct (define_sizes c) as [[? ?] ?].
Qed.

Section Define.
Context (cursor_id arraysize seq n v : Z).

Definition define_token : list (FieldKind * Z) := if writes_pipeline_token v then [(FUB8, 0)] else [].
Definition define_fixed : list (FieldKind * Z) :=
  [(FUB4, 32784); (FUB4, cursor_id); (FU8, 0); (FUB4, 0); (FU8, 1); (FUB4, 13); (FU8, 0); (FU8, 0); (FUB4, 0);
   (FUB4, arraysize); (FUB4, TNS_MAX_LONG_LENGTH); (FU8, 0); (FUB4, 0); (FU8, 0); (FU8, 0); (FU8, 0); (FU8, 0); (FU8, 0); (FU8, 1);
   (FUB4, n); (FUB4, 0); (FU8, 0); (FU8, 1); (FU8, 0); (FUB4, 0); (FU8, 0); (FUB4, 0); (FUB4, 0); (FU8, 0); (FUB4, 0); (FU8, 0)].
Definition define_signature : list (FieldKind * Z) := [(FU8, 0); (FUB4, 0); (FU8, 0); (FUB4, 0); (FU8, 0); (FU8, 0); (FUB4, 0)].
Definition define_tail : list (FieldKind * Z) :=
  [(FUB4, 0); (FUB4, arraysize); (FUB4, 0); (FUB4, 0); (FUB4, 0); (FUB4, 0); (FUB4, 0); (FUB4, 1); (FUB4, 0); (FUB4, 0);
   (FUB4, 0); (FUB4, 0); (FUB4, 0)].
Definition define_header : bytes :=
  layout (function_fields seq) ++ layout define_token ++ layout define_fixed ++ layout define_signature ++ layout define_tail.

Context (Hcur : 0 <= cursor_id <= U32_MAX) (Harr : 0 <= arraysize <= U32_MAX) (Hseq : 0 <= seq <= 255) (Hn : 0 <= n <= U32_MAX).

Lemma define_ranges : Forall in_range (function_fields seq) ∧ Forall in_range define_token ∧ Forall in_range define_fixed ∧
  Forall in_range define_signature ∧ Forall in_range define_tail.
Proof.
  unfold function_fields, define_token, define_fixed, define_signature, define_tail, TNS_MSG_TYPE_FUNCTION, TNS_FUNC_EXECUTE,
    TNS_MAX_LONG_LENGTH. split_and!; try (destruct (writes_pipeline_token v)); ranges.
Qed.

Lemma define_header_parses lim : 8 <= max_response_bytes lim → writes_al8sqlsig v = true → writes_execute_chunk_ids v = true →
  parses lim (read_execute_request v) define_header (define_request cursor_id arraysize seq n).
Proof.
  intros H8 Hsig Hv. destruct define_ranges as (Hf & Ht & Hx & Hs & Hl). unfold read_execute_request, define_header.
  eapply parses_bind; [exact (fields_parse lim H8 (function_fields seq) Hf)|].
  assert (map fst define_token = if writes_pipeline_token v then [FUB8] else []) as <-
    by (unfold define_token; by destruct (writes_pipeline_token v)).
  eapply parses_bind; [exact (fields_parse lim H8 define_token Ht)|].
  eapply parses_bind; [exact (fields_parse lim H8 define_fixed Hx)|].
  assert (map fst define_signature = signature_kinds v) as <- by (unfold signature_kinds; by rewrite Hsig, Hv).
  eapply parses_bind; [exact (fields_parse lim H8 define_signature Hs)|].
  eapply parses_bind_nil; [apply parses_ret|]. eapply parses_last; [exact (fields_parse lim H8 define_tail Hl)|].
  assert (nth 0 (map snd define_token) 0 = 0) as -> by (unfold define_token; by destruct (writes_pipeline_token v)). apply parses_ret.
Qed.
End Define.

(** A define-fetch asks for the columns it describes, on connections of field version 12.2
    ext 1 and later: the reader of the execute layout finds the cursor, the number of rows,
    the define option alone with the not-PL/SQL one, no SQL, no binds, and then the
    description of every column with its type, buffer, form and prefetch length. *)
Theorem define_fetch_roundtrip lim cursor_id arraysize seq columns v :
  field_fits lim 32 → 0 <= cursor_id <= U32_MAX → 0 <= arraysize <= U32_MAX → 0 <= seq <= 255 →
  Zlen columns <= U32_MAX → Forall column_typed columns → writes_execute_chunk_ids v = true →
  ∃ payload,
    build_define_fetch_payload_with_seq cursor_id arraysize seq columns v = Ok payload ∧
    parses lim (read_define_request v) payload
      (define_request cursor_id arraysize seq (Zlen columns), map define_description columns).
Proof.
  intros Hroom Hcur Harr Hseq Hlen Hcols Hv. pose proof (Zlen_nonneg columns).
  assert (writes_al8sqlsig v = true ∧ carries_oaccolid v = true) as [Hsig Hoac].
  { unfold writes_execute_chunk_ids, writes_al8sqlsig, carries_oaccolid in *. apply Z.leb_le in Hv. split; apply Z.leb_le;
      unfold TNS_CCAP_FIELD_VERSION_12_2_EXT1, TNS_CCAP_FIELD_VERSION_12_2 in *; lia. }
  destruct (define_columns_written lim v columns Hroom Hcols Hoac) as (enc & Hw & Hp). destruct Hroom as ((H8 & Hr) & Hc & _ & _).
  exists (define_header cursor_id arraysize seq (Zlen columns) v ++ enc). split.
  - destruct (define_ranges cursor_id arraysize seq (Zlen columns) v) as (_ & _ & Hx & _ & _); [lia..|].
    unfold build_define_fetch_payload_with_seq, build, u32_length. st_run. rewrite try_range_in by lia. st_run.
    assert (write_function_header TNS_FUNC_EXECUTE seq v writer_new =
      write_raw (layout (function_fields seq) ++ layout (define_token v)) writer_new) as ->.
    { unfold write_function_header, define_token. by destruct (writes_pipeline_token v). }
    match goal with |- context [emit _ ?w] =>
      change (emit _ w) with (emit (map put (define_fixed cursor_id arraysize (Zlen columns))) w) end.
    rewrite emit_layout by done. st_run. emit_run. st_run. emit_run. st_run. rewrite Hw. st_run.
    rewrite !write_raw_raw. unfold into_bytes, write_raw, define_header. cbn [w_bytes writer_new app]. by rewrite <- !app_assoc.
  - unfold read_define_request. eapply parses_bind; [by apply define_header_parses|].
    cbn [x_define_count define_request]. unfold Zlen. rewrite Nat2Z.id. eapply parses_last; [exact Hp|apply parses_ret].
Qed.

(** Below 12.2 the two requests disagree about the layout: an execute leaves the signature
    and chunk-id fields out, a define-fetch does not, so that a reader of that version finds
    no rows asked for and no query. *)
Example define_fetch_misread :
  let columns := [bound_column (ORA_TYPE_NUM_CLOB, 1, 4000)] in
  let read v := match build_define_fetch_payload_with_seq 5 100 1 columns v with
                | Ok b => match fst (read_execute_request v (rd limits_DEFAULT [] b)) with
                          | Ok r => Some (x_cursor_id r, x_exec_count r, x_is_query r)
                          | _ => None
                          end
                | _ => None
                end in
  read TNS_CCAP_FIELD_VERSION_12_2_EXT1 = Some (5, 100, 1) ∧ read TNS_CCAP_FIELD_VERSION_12_2 = Some (5, 0, 0) ∧
  read (TNS_CCAP_FIELD_VERSION_12_2 - 1) = Some (5, 0, 0) ∧
  writes_execute_chunk_ids TNS_CCAP_FIELD_VERSION_12_2 = false ∧ writes_al8sqlsig (TNS_CCAP_FIELD_VERSION_12_2 - 1) = false.
Proof. vm_compute. split_and!; reflexivity. Qed.

(** ** Fetches and cursors to close *)

(** A message's type, function and sequence number, and its token. *)
Definition read_message_start (v : Z) : ReaderM (Z * Z * Z) :=
  m ← read_fields [FU8; FU8; FU8];
  _ ← read_fields (if writes_pipeline_token v then [FUB8] else []);
  mret (nth 0 m 0, nth 1 m 0, nth 2 m 0).

Definition start_bytes (message function seq v : Z) : bytes :=
  [message; function; seq] ++ (if writes_pipeline_token v then [0] else []).

Lemma start_parses lim message function seq v : 8 <= max_response_bytes lim →
  0 <= message <= 255 → 0 <= function <= 255 → 0 <= seq <= 255 →
  parses lim (read_message_start v) (start_bytes message function seq v) (message, function, seq).
Proof.
  intros H8 Hm Hf Hs. unfold read_message_start, start_bytes.
  eapply (parses_bind lim _ _ [message; function; seq]);
    [apply (fields_parse lim H8 [(FU8, message); (FU8, function); (FU8, seq)]); ranges|].
  destruct (writes_pipeline_token v); (eapply parses_last; [|apply parses_ret]).
  - apply (fields_parse lim H8 [(FUB8, 0)]). ranges.
  - apply parses_ret.
Qed.

Lemma header_start function seq v w :
  write_function_header function seq v w = write_raw (start_bytes TNS_MSG_TYPE_FUNCTION function seq v) w ∧
  write_piggyback_header function seq v w = write_raw (start_bytes TNS_MSG_TYPE_PIGGYBACK function seq v) w.
Proof.
  unfold write_function_header, write_piggyback_header, write_function_code_with_seq, write_u8, start_bytes.
  rewrite !write_raw_raw. destruct (writes_pipeline_token v); [|by split]. cbn [write_ub8 Z.eqb]. unfold write_ub8, write_u8.
  cbn [Z.eqb]. by rewrite !write_raw_raw.
Qed.

Definition read_fetch (v : Z) : ReaderM (Z * Z * Z * Z * Z) :=
  m ← read_message_start v; h ← read_fields [FUB4; FUB4]; mret (m, nth 0 h 0, nth 1 h 0).

Definition read_close_cursors (v : Z) : ReaderM (Z * Z * Z * list Z) :=
  m ← read_message_start v;
  h ← read_fields [FU8; FUB4];
  ids ← read_fields (repeat FUB4 (Z.to_nat (nth 1 h 0)));
  mret (m, ids).

Lemma ids_written ids : Forall (λ id, 0 <= id <= U32_MAX) ids → ∀ w,
  foldl (λ w id, write_ub4 id w) w ids = write_raw (layout (map (λ id, (FUB4, id)) ids)) w.
Proof.
  induction 1 as [|id ids Hid _ IH]; intros w; [by rewrite write_raw_nil|]. cbn [foldl map].
  rewrite IH, write_ub4_spec by done. by rewrite write_raw_raw.
Qed.

Lemma close_bytes ids seq v : Forall (λ id, 0 <= id <= U32_MAX) ids → Zlen ids <= U32_MAX →
  build_close_cursors_piggyback ids seq v =
  start_bytes TNS_MSG_TYPE_PIGGYBACK TNS_FUNC_CLOSE_CURSORS seq v ++ layout [(FU8, 1); (FUB4, Zlen ids)] ++
  layout (map (λ id, (FUB4, id)) ids).
Proof.
  intros Hids Hlen. pose proof (Zlen_nonneg ids). unfold build_close_cursors_piggyback.
  rewrite try_range_in by lia. cbn [default from_option id].
  rewrite (proj2 (header_start _ _ _ _)), ids_written, write_ub4_spec by (done || lia). unfold write_u8. rewrite !write_raw_raw.
  unfold into_bytes, write_raw, layout. cbn [w_bytes writer_new app map concat field_enc]. by rewrite <- ?app_assoc.
Qed.

(** A fetch names its cursor and the number of rows, and a close-cursors piggyback names
    every cursor it closes, in order, at every field version; the piggyback may stand in
    front of any message: what follows it is read as if it stood alone. *)
Theorem fetch_and_close_roundtrip lim cursor_id arraysize ids seq v {A} (next : ReaderM A) enc a :
  8 <= max_response_bytes lim → 0 <= seq <= 255 → 0 <= cursor_id <= U32_MAX → 0 <= arraysize <= U32_MAX →
  Forall (λ id, 0 <= id <= U32_MAX) ids → Zlen ids <= U32_MAX → parses lim next enc a →
  parses lim (read_fetch v) (build_fetch_payload_with_seq cursor_id arraysize seq v)
    (TNS_MSG_TYPE_FUNCTION, TNS_FUNC_FETCH, seq, cursor_id, arraysize) ∧
  parses lim (x ← read_close_cursors v; y ← next; mret (x, y)) (build_close_cursors_piggyback ids seq v ++ enc)
    ((TNS_MSG_TYPE_PIGGYBACK, TNS_FUNC_CLOSE_CURSORS, seq, ids), a).
Proof.
  intros H8 Hseq Hcur Harr Hids Hlen Hnext. pose proof (Zlen_nonneg ids). split.
  - unfold build_fetch_payload_with_seq, read_fetch. rewrite (proj1 (header_start _ _ _ _)), !write_ub4_spec, !write_raw_raw by done.
    unfold into_bytes, write_raw. cbn [w_bytes writer_new app]. rewrite <- ?app_assoc.
    eapply parses_bind; [apply start_parses; done || lia|].
    assert (Forall in_range [(FUB4, cursor_id); (FUB4, arraysize)]) as Hr by ranges.
    pose proof (fields_parse lim H8 _ Hr) as Hp. unfold layout in Hp. cbn [map concat field_enc fst snd] in Hp. rewrite app_nil_r in Hp.
    eapply parses_last; [exact Hp|apply parses_ret].
  - rewrite close_bytes by done. unfold read_close_cursors.
    eapply parses_bind; [|eapply parses_last; [exact Hnext|apply parses_ret]].
    eapply parses_bind; [apply start_parses; done || lia|].
    eapply parses_bind; [apply (fields_parse lim H8 [(FU8, 1); (FUB4, Zlen ids)]); ranges|].
    cbn [map snd nth]. unfold Zlen. rewrite Nat2Z.id.
    assert (Forall in_range (map (λ id, (FUB4, id)) ids)) as Hr by (clear -Hids; induction Hids; cbn; by constructor).
    pose proof (fields_parse lim H8 _ Hr) as Hp. rewrite !map_map in Hp. cbn [fst snd] in Hp. rewrite map_id in Hp.
    assert (map (λ _ : Z, FUB4) ids = repeat FUB4 (length ids)) as Hk by (clear; induction ids; cbn; congruence).
    rewrite Hk in Hp. eapply parses_last; [exact Hp|apply parses_ret].
Qed.

(** ** Instances *)

Lemma execute_request_roundtrip_witness :
  let sql := txt "insert into t values (:1, :2)" in
  let seven := Some (VNumber (Inline [7; 0; 0; 0; 0; 0; 0; 0; 0; 0; 0; 0; 0; 0; 0; 0] 0 true)) in
  let rows := [[BNumber (txt "7"); BNull]; [BNull; BRaw [1; 2]]] in
  let readings := [[seven; None]; [None; Some (VRaw [1; 2])]] in
  let o := mkOptions true true false 0 0 true false 0 0 false false false 4294967297 32767 in
  batch_ok limits_DEFAULT rows readings ∧
  ∃ payload bound,
    build_execute_payload_with_bind_rows_and_options_with_seq sql 2 9 false rows o 11 = Ok payload ∧
    found rows readings (statement_is_plsql sql) (max_string_size o) (scroll_operation o) bound ∧
    parses limits_DEFAULT (read_request (max_string_size o) 11) payload (expected_request sql 2 9 false rows o, bound).
Proof.
  intros sql seven rows readings o.
  assert (batch_ok limits_DEFAULT rows readings) as Hb.
  { split; [discriminate|]. split; [repeat first [apply Forall_nil | apply Forall_cons; [reflexivity|]]|]. split; [reflexivity|]. split; [reflexivity|].
    assert (reads_as limits_DEFAULT (BNumber (txt "7")) seven) as Hseven
      by (apply (reads_number limits_DEFAULT (txt "7") [193; 8]); vm_compute; reflexivity).
    assert (reads_as limits_DEFAULT (BRaw [1; 2]) (Some (VRaw [1; 2]))) as Hraw
      by (apply (reads_raw limits_DEFAULT [1; 2]); vm_compute; repeat split; discriminate).
    repeat (apply List.Forall2_cons || apply List.Forall2_nil || apply reads_null || assumption). }
  split; [exact Hb|].
  apply (execute_request_roundtrip limits_DEFAULT sql 2 9 false rows readings o 11); [..|exact Hb|reflexivity|discriminate];
    try (vm_compute; repeat split; discriminate). right. reflexivity.
Defined.

Lemma define_fetch_roundtrip_witness :
  let columns := [bound_column (ORA_TYPE_NUM_CLOB, 1, 4000); bound_column (ORA_TYPE_NUM_VECTOR, 0, 0)] in
  ∃ payload, build_define_fetch_payload_with_seq 5 100 1 columns 24 = Ok payload ∧
    parses limits_DEFAULT (read_define_request 24) payload (define_request 5 100 1 (Zlen columns), map define_description columns).
Proof.
  intros columns. apply (define_fetch_roundtrip limits_DEFAULT 5 100 1 columns 24);
    [vm_compute; repeat split; discriminate|unfold U32_MAX; lia|unfold U32_MAX; lia|lia|vm_compute; discriminate| |reflexivity].
  repeat first [apply Forall_nil | apply Forall_cons; [vm_compute; repeat split; discriminate|]].
Defined.

Lemma fetch_and_close_roundtrip_witness :
  parses limits_DEFAULT (read_fetch 24) (build_fetch_payload_with_seq 5 100 2 24) (TNS_MSG_TYPE_FUNCTION, TNS_FUNC_FETCH, 2, 5, 100) ∧
  parses limits_DEFAULT (x ← read_close_cursors 24; y ← read_u8; mret (x, y)) (build_close_cursors_piggyback [3; 70000] 2 24 ++ [8])
    ((TNS_MSG_TYPE_PIGGYBACK, TNS_FUNC_CLOSE_CURSORS, 2, [3; 70000]), 8).
Proof.
  apply (fetch_and_close_roundtrip limits_DEFAULT 5 100 [3; 70000] 2 24 read_u8 [8] 8);
    [vm_compute; discriminate|lia|unfold U32_MAX; lia|unfold U32_MAX; lia| |vm_compute; discriminate|apply read_u8_parses].
  repeat first [apply Forall_nil | apply Forall_cons; [unfold U32_MAX; lia|]].
Defined.

(** [select 1 from dual] takes the 87 bytes its builder mentions. *)
Example small_query_size :
  match build_execute_query_payload (txt "select 1 from dual") 2 24 with Ok b => Zlen b | _ => 0 end = 87.
Proof. reflexivity. Qed.

(** A PL/SQL batch of rows without values announces no binds, and sends a row marker per row
    behind its header all the same; a null of a BOOLEAN column is written as the two bytes a
    PL/SQL BOOLEAN needs only when the value itself is typed. *)
Example execute_divergences :
  let header := header_bytes (txt "begin p; end;") 1 1 false [] options_default 24 in
  (match build_execute_payload_with_bind_rows_and_options_with_seq (txt "begin p; end;") 1 1 false [] options_default 24 with
   | Ok b => b = header | _ => False end) ∧
  (match build_execute_payload_with_bind_rows_and_options_with_seq (txt "begin p; end;") 1 1 false [[]] options_default 24 with
   | Ok b => b = header ++ [TNS_MSG_TYPE_ROW_DATA] | _ => False end) ∧
  w_bytes (snd (write_bind_value (BTypedNull ORA_TYPE_NUM_BOOLEAN 0 4) 0 writer_new)) = [TNS_ESCAPE_CHAR; 1] ∧
  w_bytes (snd (write_rows [[BBoolean true]; [BNull]] (wire_metadata [BBoolean true] [[BNull]]) true 32767 writer_new)) =
    [TNS_MSG_TYPE_ROW_DATA; 2; 1; 1; TNS_MSG_TYPE_ROW_DATA; 0] ∧
  wire_metadata [BBoolean true] [[BNull]] = [(ORA_TYPE_NUM_BOOLEAN, 0, 4)].
Proof. vm_compute. split_and!; reflexivity. Qed.
