(* ===== verification/LobMessages.v ===== *)
(** * LOB messages ([thin/lob.rs])

    The requests that read, write, trim, create and free LOBs, and the parsers of their
    answers and of the answers to plain functions (ping, commit, rollback). *)

From S2P Require Import Prelude.
From S2P Require Import Protocol.
From S2P Require Import Limits.
From S2P Require Import Writer.
From S2P Require Import Reader.
From S2P Require Import Layout.
From S2P Require Import Binds.
From S2P Require Import ServerError.
From S2P Require Import Fetch.
From S2P Require Import LobText.
From S2P Require Import LobStream.
From S2P Require Import Execute.

Definition TNS_FUNC_LOB_OP : Z := 96.
Definition TNS_MSG_TYPE_LOB_DATA : Z := 14.
Definition TNS_LOB_OP_READ : Z := 2.
Definition TNS_LOB_OP_TRIM : Z := 32.
Definition TNS_LOB_OP_WRITE : Z := 64.
Definition TNS_LOB_OP_CREATE_TEMP : Z := 272.
Definition TNS_LOB_OP_FREE_TEMP : Z := 273.
Definition TNS_LOB_OP_ARRAY : Z := 524288.
Definition TNS_DURATION_SESSION : Z := 10.
Definition TNS_LOB_LOC_OFFSET_FLAG_1 : Z := 4.
Definition TNS_LOB_LOC_FLAGS_TEMP : Z := 1.

(** ** Requests *)

Definition build_lob_read_payload_with_seq (locator : bytes) (offset amount seq ttc_field_version : Z) : Res bytes :=
  build (
    locator_len ← lift (u32_length (Zlen locator));
    _ ← modify (write_function_header TNS_FUNC_LOB_OP seq ttc_field_version);
    _ ← emit [write_u8 1; write_ub4 locator_len; write_u8 0; write_ub4 0; write_ub4 0; write_ub4 0; write_u8 0; write_u8 0;
              write_u8 0; write_ub4 TNS_LOB_OP_READ; write_u8 0; write_u8 0; write_ub8 offset; write_ub8 0; write_u8 1;
              write_u16be 0; write_u16be 0; write_u16be 0];
    _ ← modify (write_raw locator);
    modify (write_ub8 amount)).

Definition write_lob_op_header (locator : bytes) (seq ttc_field_version operation dest_length source_offset dest_offset : Z)
  (pointer_charset pointer_null_lob send_amount : bool) : WriterM () :=
  locator_len ← lift (u32_length (Zlen locator));
  _ ← modify (write_function_header TNS_FUNC_LOB_OP seq ttc_field_version);
  _ ← emit [write_u8 1; write_ub4 locator_len; write_u8 0; write_ub4 dest_length; write_ub4 0; write_ub4 0;
            write_u8 (Z.b2z pointer_charset); write_u8 0; write_u8 (Z.b2z pointer_null_lob); write_ub4 operation;
            write_u8 0; write_u8 0; write_ub8 source_offset; write_ub8 dest_offset; write_u8 (Z.b2z send_amount);
            write_u16be 0; write_u16be 0; write_u16be 0];
  modify (write_raw locator).

Definition build_lob_create_temp_payload_with_seq (ora_type_num csfrm seq ttc_field_version : Z) : Res bytes :=
  build (
    _ ← write_lob_op_header (repeat 0 40) seq ttc_field_version TNS_LOB_OP_CREATE_TEMP TNS_DURATION_SESSION csfrm ora_type_num
          true true false;
    modify (write_ub4 TNS_CHARSET_UTF8)).

Definition build_lob_write_payload_with_seq (locator : bytes) (offset : Z) (data : bytes) (seq ttc_field_version : Z) : Res bytes :=
  build (
    _ ← write_lob_op_header locator seq ttc_field_version TNS_LOB_OP_WRITE 0 offset 0 false false false;
    _ ← modify (write_u8 TNS_MSG_TYPE_LOB_DATA);
    write_bytes_with_length data).

Definition build_lob_trim_payload_with_seq (locator : bytes) (new_size seq ttc_field_version : Z) : Res bytes :=
  build (
    _ ← write_lob_op_header locator seq ttc_field_version TNS_LOB_OP_TRIM 0 0 0 false false true;
    modify (write_ub8 new_size)).

Definition lob_locator_is_temporary (locator : bytes) : bool :=
  locator_flag (Some locator) TNS_LOB_LOC_OFFSET_FLAG_1 TNS_LOB_LOC_FLAGS_ABSTRACT
  || locator_flag (Some locator) TNS_LOB_LOC_OFFSET_FLAG_4 TNS_LOB_LOC_FLAGS_TEMP.

(** The [try_fold] over the locators. *)
Fixpoint total_size (total : Z) (locators : list bytes) : Res Z :=
  match locators with
  | [] => Ok total
  | locator :: locators =>
      locator_len ← u32_length (Zlen locator);
      total ← ok_or (try_range 0 U32_MAX (total + locator_len)) (PacketTooLarge USIZE_MAX);
      total_size total locators
  end.

Definition build_lob_free_temp_payload_with_seq (locators : list bytes) (seq ttc_field_version : Z) : Res bytes :=
  build (
    size ← lift (total_size 0 locators);
    _ ← modify (write_function_header TNS_FUNC_LOB_OP seq ttc_field_version);
    _ ← emit [write_u8 1; write_ub4 size; write_u8 0; write_ub4 0; write_ub4 0; write_ub4 0; write_u8 0; write_u8 0;
              write_u8 0; write_ub4 (Z.lor TNS_LOB_OP_FREE_TEMP TNS_LOB_OP_ARRAY); write_u8 0; write_ub4 0; write_ub8 0; write_ub8 0;
              write_u8 0; write_u8 0; write_ub4 0; write_u8 0; write_ub4 0; write_u8 0; write_ub4 0];
    emit (map write_raw locators)).

(** ** Answers *)

Definition set_rr_data (d : option bytes) (r : LobReadResult) : LobReadResult := mkLobRead d (rr_locator r) (rr_amount r).
Definition set_rr_locator (l : bytes) (r : LobReadResult) : LobReadResult := mkLobRead (rr_data r) l (rr_amount r).
Definition set_rr_amount (n : Z) (r : LobReadResult) : LobReadResult := mkLobRead (rr_data r) (rr_locator r) n.

(** [Err(ProtocolError::ServerError(..))] of an error message that carries a number. *)
Definition raise_server_error (ttc_field_version : Z) : ReaderM ErrorInfo :=
  info ← parse_server_error_info ttc_field_version;
  if negb (sei_number info =? 0) then throw (ServerError (text_string (sei_message info))) else mret info.

Definition unknown_type {A} (message_type : Z) : ReaderM A :=
  p ← gets pos; throw (UnknownMessageType message_type (sat_sub p 1)).

(** What the parsers do with the messages they share; [None] for another message, the flag
    says whether the loop breaks. *)
Definition common_message (ttc_field_version message_type : Z) : ReaderM (option bool) :=
  if message_type =? 0 then mret (Some false)
  else if message_type =? TNS_MSG_TYPE_STATUS then _ ← read_ub4; _ ← read_ub2; mret (Some false)
  else if message_type =? TNS_MSG_TYPE_SERVER_SIDE_PIGGYBACK then _ ← skip_server_side_piggyback; mret (Some false)
  else if message_type =? TNS_MSG_TYPE_END_OF_RESPONSE then mret (Some true)
  else if message_type =? TNS_MSG_TYPE_ERROR then _ ← raise_server_error ttc_field_version; mret (Some false)
  else mret None.

Definition lob_parameter (is_create_temp read_amount : bool) (r : LobReadResult) : ReaderM LobReadResult :=
  r ← (if bool_decide (rr_locator r = []) then mret r
       else l ← read_raw (Zlen (rr_locator r)); mret (set_rr_locator l r));
  if is_create_temp then _ ← read_ub2; _ ← skip 1; mret r
  else if read_amount then
    amount ← read_sb8;
    mret (if 0 <? amount then set_rr_amount (as_u 64 amount) r else r)
  else mret r.

Definition lob_op_message (ttc_field_version : Z) (is_create_temp read_amount : bool) (r : LobReadResult)
  : ReaderM (LobReadResult * bool) :=
  message_type ← read_u8;
  if message_type =? TNS_MSG_TYPE_LOB_DATA then d ← read_bytes; mret (set_rr_data d r, false)
  else if message_type =? TNS_MSG_TYPE_PARAMETER then r ← lob_parameter is_create_temp read_amount r; mret (r, false)
  else
    stop ← common_message ttc_field_version message_type;
    match stop with
    | Some stop => mret (r, stop)
    | None => unknown_type message_type
    end.

Definition parse_lob_op_response_with_limits (payload : bytes) (ttc_field_version : Z) (locator : bytes)
  (is_create_temp read_amount : bool) (l : ProtocolLimits) : Res LobReadResult :=
  reader ← with_limits payload l;
  (while_remaining (lob_op_message ttc_field_version is_create_temp read_amount) (S (length payload))
     (mkLobRead None locator 0) reader).1.

Definition parse_lob_read_response_with_limits (payload : bytes) (v : Z) (locator : bytes) (l : ProtocolLimits) : Res LobReadResult :=
  parse_lob_op_response_with_limits payload v locator false true l.
Definition parse_lob_read_response (payload : bytes) (v : Z) (locator : bytes) : Res LobReadResult :=
  parse_lob_read_response_with_limits payload v locator limits_DEFAULT.
Definition parse_lob_create_temp_response_with_limits (payload : bytes) (v : Z) (l : ProtocolLimits) : Res LobReadResult :=
  parse_lob_op_response_with_limits payload v (repeat 0 40) true false l.
Definition parse_lob_create_temp_response (payload : bytes) (v : Z) : Res LobReadResult :=
  parse_lob_create_temp_response_with_limits payload v limits_DEFAULT.
Definition parse_lob_write_response_with_limits (payload : bytes) (v : Z) (locator : bytes) (l : ProtocolLimits) : Res LobReadResult :=
  parse_lob_op_response_with_limits payload v locator false false l.
Definition parse_lob_write_response (payload : bytes) (v : Z) (locator : bytes) : Res LobReadResult :=
  parse_lob_write_response_with_limits payload v locator limits_DEFAULT.
Definition parse_lob_trim_response_with_limits (payload : bytes) (v : Z) (locator : bytes) (l : ProtocolLimits) : Res LobReadResult :=
  parse_lob_op_response_with_limits payload v locator false true l.
Definition parse_lob_trim_response (payload : bytes) (v : Z) (locator : bytes) : Res LobReadResult :=
  parse_lob_trim_response_with_limits payload v locator limits_DEFAULT.

Definition free_temp_message (ttc_field_version returned_parameter_len : Z) (s : ()) : ReaderM (() * bool) :=
  message_type ← read_u8;
  if message_type =? TNS_MSG_TYPE_PARAMETER then _ ← skip returned_parameter_len; mret (s, false)
  else
    stop ← common_message ttc_field_version message_type;
    match stop with
    | Some stop => mret (s, stop)
    | None => unknown_type message_type
    end.

Definition parse_lob_free_temp_response_with_limits (payload : bytes) (ttc_field_version returned_parameter_len : Z)
  (l : ProtocolLimits) : Res () :=
  _ ← check_frame_bytes l returned_parameter_len;
  reader ← with_limits payload l;
  (while_remaining (free_temp_message ttc_field_version returned_parameter_len) (S (length payload)) () reader).1.
Definition parse_lob_free_temp_response (payload : bytes) (ttc_field_version returned_parameter_len : Z) : Res () :=
  parse_lob_free_temp_response_with_limits payload ttc_field_version returned_parameter_len limits_DEFAULT.

Definition in_transaction (call_status : Z) : bool := negb (Z.land call_status TNS_EOCS_FLAGS_TXN_IN_PROGRESS =? 0).

(** An unknown message ends the scan. *)
Definition plain_message (ttc_field_version : Z) (txn_in_progress : bool) : ReaderM (bool * bool) :=
  message_type ← read_u8;
  if message_type =? 0 then mret (txn_in_progress, false)
  else if message_type =? TNS_MSG_TYPE_STATUS then call_status ← read_ub4; _ ← read_ub2; mret (in_transaction call_status, false)
  else if message_type =? TNS_MSG_TYPE_SERVER_SIDE_PIGGYBACK then _ ← skip_server_side_piggyback; mret (txn_in_progress, false)
  else if message_type =? TNS_MSG_TYPE_END_OF_RESPONSE then mret (txn_in_progress, true)
  else if message_type =? TNS_MSG_TYPE_ERROR then
    info ← raise_server_error ttc_field_version; mret (in_transaction (sei_call_status info), false)
  else mret (txn_in_progress, true).

Definition parse_plain_function_response_with_limits (payload : bytes) (ttc_field_version : Z) (l : ProtocolLimits) : Res bool :=
  reader ← with_limits payload l;
  (while_remaining (plain_message ttc_field_version) (S (length payload)) false reader).1.
Definition parse_plain_function_response (payload : bytes) (ttc_field_version : Z) : Res bool :=
  parse_plain_function_response_with_limits payload ttc_field_version limits_DEFAULT.

(** ** Reading an answer without an end-of-response message ([oracledb/src/lib.rs]) *)

Definition TNS_PACKET_TYPE_DATA : Z := 6.
Definition TNS_PACKET_TYPE_MARKER : Z := 12.

Record IncomingPacket := mkIncoming { ip_type : Z; ip_payload : bytes }.

(** [Error] as far as the reader raises it; [StreamEnded] stands for the errors of the
    socket. *)
Inductive ReadError := ReadProtocol (e : ProtocolError) | UnexpectedPacket (packet_type : Z) | StreamEnded.

Definition as_read {A} (r : Res A) : Result ReadError A :=
  match r with
  | Ok a => Ok a
  | Err e => Err (ReadProtocol e)
  | Panic => Panic
  | Diverge => Diverge
  end.

Definition response_complete {A} (result : Res A) : Res bool :=
  match result with
  | Ok _ | Err (ServerError _) | Err (ServerErrorWithRowCount _ _) | Err (Protocol.ServerErrorInfo _) => Ok true
  | Err (TtcDecode _) => Ok false
  | Err e => Err e
  | Panic => Panic
  | Diverge => Diverge
  end.

Definition post_reset_packet_ends_response (payload : bytes) : bool :=
  match payload !! (length payload - 1)%nat with
  | Some b => (b =? TNS_MSG_TYPE_FLUSH_OUT_BINDS) || (b =? TNS_MSG_TYPE_END_OF_RESPONSE)
  | None => false
  end.

Definition TNS_DATA_FLAGS_EOF : Z := 64.
Definition TNS_DATA_FLAGS_END_OF_RESPONSE : Z := 8192.

Definition data_packet_ends_response (flags : Z) (payload : bytes) : bool :=
  if negb (Z.land flags (Z.lor TNS_DATA_FLAGS_END_OF_RESPONSE TNS_DATA_FLAGS_EOF) =? 0) then true
  else bool_decide (payload = [TNS_MSG_TYPE_END_OF_RESPONSE]) || bool_decide (payload = [TNS_MSG_TYPE_FLUSH_OUT_BINDS]).

Section Classic.
(** [reset_after_marker_with_limits], an exchange with the server. *)
Context (reset : IncomingPacket → list IncomingPacket → Result ReadError (option IncomingPacket * list IncomingPacket)).
Context (probe : bytes → Res bool) (limits : ProtocolLimits).

(** The loop of [read_classic_data_response_probed_into]; the packets that have not been
    read are returned. *)
Fixpoint read_classic_data_response_probed_into (fuel : nat) (after_reset : bool) (pending : option IncomingPacket)
  (response : bytes) (packets : list IncomingPacket) : Result ReadError (bytes * list IncomingPacket) :=
  match fuel with
  | O => Diverge
  | S fuel =>
      '(packet, packets) ← (match pending, packets with
                            | Some packet, _ => Ok (packet, packets)
                            | None, packet :: packets => Ok (packet, packets)
                            | None, [] => Err StreamEnded
                            end);
      if ip_type packet =? TNS_PACKET_TYPE_MARKER then
        '(pending, packets) ← reset packet packets;
        read_classic_data_response_probed_into fuel true pending response packets
      else if negb (ip_type packet =? TNS_PACKET_TYPE_DATA) then Err (UnexpectedPacket (ip_type packet))
      else
        payload ← as_read (ok_or (slice_get (ip_payload packet) 2 (Zlen (ip_payload packet))) (TtcDecode "missing data packet flags"));
        combined ← as_read (ok_or (try_range 0 USIZE_MAX (Zlen response + Zlen payload))
                              (ResourceLimitErr "response_bytes" USIZE_MAX (max_response_bytes limits)));
        _ ← as_read (check_response_bytes limits combined);
        let response := response ++ payload in
        stop ← (if after_reset && post_reset_packet_ends_response payload then Ok true else as_read (probe response));
        if (stop : bool) then Ok (response, packets)
        else read_classic_data_response_probed_into fuel after_reset None response packets
  end.

(** The loop of [read_data_response_boundary_seeded] outside a pipeline and a recovery, as
    [read_data_response_with_limits] runs it; the packets that have not been read are
    returned. *)
Fixpoint read_data_response_boundary (fuel : nat) (after_reset : bool) (pending : option IncomingPacket)
  (response : bytes) (packets : list IncomingPacket) : Result ReadError (bytes * list IncomingPacket) :=
  match fuel with
  | O => Diverge
  | S fuel =>
      '(packet, packets) ← (match pending, packets with
                            | Some packet, _ => Ok (packet, packets)
                            | None, packet :: packets => Ok (packet, packets)
                            | None, [] => Err StreamEnded
                            end);
      if ip_type packet =? TNS_PACKET_TYPE_MARKER then
        '(pending, packets) ← reset packet packets;
        read_data_response_boundary fuel true pending response packets
      else if negb (ip_type packet =? TNS_PACKET_TYPE_DATA) then Err (UnexpectedPacket (ip_type packet))
      else
        payload ← as_read (ok_or (slice_get (ip_payload packet) 2 (Zlen (ip_payload packet))) (TtcDecode "missing data packet flags"));
        let flags := from_be_bytes (take 2 (ip_payload packet)) in
        let ends := data_packet_ends_response flags payload || (after_reset && post_reset_packet_ends_response payload) in
        if ends && bool_decide (response = []) then
          _ ← as_read (check_response_bytes limits (Zlen payload)); Ok (payload, packets)
        else
          combined ← as_read (ok_or (try_range 0 USIZE_MAX (Zlen response + Zlen payload))
                                (ResourceLimitErr "response_bytes" USIZE_MAX (max_response_bytes limits)));
          _ ← as_read (check_response_bytes limits combined);
          let response := response ++ payload in
          if ends then Ok (response, packets)
          else read_data_response_boundary fuel after_reset None response packets
  end.

(** [ConnectionCore::read_data_response_probed]: a turn of either loop takes a packet from
    the stream or one that [reset] took from it. *)
Definition read_data_response_probed (classic : bool) (packets : list IncomingPacket)
  : Result ReadError (bytes * list IncomingPacket) :=
  let fuel := (2 * length packets + 2)%nat in
  if classic then read_classic_data_response_probed_into fuel false None [] packets
  else read_data_response_boundary fuel false None [] packets.
End Classic.
