(* ===== verification/LobWire.v ===== *)
(** * LOB messages: answers and requests on the wire

    The parsers of [LobMessages] are total on every input; an answer made of the messages
    a server sends is read as what it says; and a request says what a reader of its layout
    finds in it. *)

From S2P Require Import Prelude.
From S2P Require Import Protocol.
From S2P Require Import Limits.
From S2P Require Import Writer.
From S2P Require Import Reader.
From S2P Require Import ReaderSafety.
From S2P Require Import Wire.
From S2P Require Import Layout.
From S2P Require Import Utf.
From S2P Require Import ServerError.
From S2P Require Import Fetch.
From S2P Require Import OsonSafety.
From S2P Require Import FetchSafety.
From S2P Require Import LobText.
From S2P Require Import LobStream.
From S2P Require Import LobMessages.
From S2P Require Import Binds.
From S2P Require Import Execute.
From S2P Require Import ExecuteWire.

(** ** Totality *)

Definition lob_result_ok (locator : bytes) (r : LobReadResult) : Prop :=
  Zlen (rr_locator r) = Zlen locator ∧ bytes_ok (rr_locator r) ∧ 0 <= rr_amount r <= I64_MAX ∧
  ∀ d, rr_data r = Some d → bytes_ok d.

Lemma raise_error_safe v : safe 0 (raise_server_error v) (λ _, True).
Proof. unfold raise_server_error. safe_run. Qed.

Lemma unknown_type_safe {A} t (Q : A → Prop) : safe 0 (unknown_type t) Q.
Proof. unfold unknown_type. safe_run. Qed.

Lemma common_message_safe v t : safe 0 (common_message v t) (λ _, True).
Proof.
  unfold common_message. repeat (safe_next; [first [by safe_run | apply then_safe, raise_error_safe]|]). by safe_run.
Qed.

Lemma read_sb8_safe : safe 1 read_sb8 (λ v, I64_MIN <= v <= I64_MAX).
Proof. apply safe_sound, read_sb8_sound. Qed.

Lemma amount_set locator r n : lob_result_ok locator r → I64_MIN <= n <= I64_MAX →
  lob_result_ok locator (if 0 <? n then set_rr_amount (as_u 64 n) r else r).
Proof.
  intros (Hl & Hb & Ha & Hd) Hn. destruct (Z.ltb_spec 0 n); [|done]. unfold I64_MIN, I64_MAX in *.
  split; [done|]. split; [done|]. split; [|done]. cbn. unfold I64_MAX. rewrite as_u_in by lia. lia.
Qed.

Lemma lob_parameter_safe create amount locator r : lob_result_ok locator r →
  safe 0 (lob_parameter create amount r) (lob_result_ok locator).
Proof.
  intros Hr. unfold lob_parameter. eapply (safe_seq _ 0 _ _ (lob_result_ok locator)).
  { destruct (bool_decide (rr_locator r = [])); [by apply safe_done|]. pose proof (Zlen_nonneg (rr_locator r)).
    eapply (safe_weaken (Zlen (rr_locator r) - 0) 0); [lia|intros ? HH; exact HH|].
    eapply safe_seq; [by apply read_raw_safe_n|]. intros l [Hb Hl]. apply safe_done; [lia|]. destruct Hr as (H1 & H2 & H3 & H4).
    split; [cbn; congruence|]. by split. }
  intros r' Hr'. destruct create; [by safe_run|]. destruct amount; [|by safe_run].
  eapply (safe_seq _ 0 _ _ (λ n, I64_MIN <= n <= I64_MAX)); [eapply safe_weaken; [| |apply read_sb8_safe]; [lia|done]|].
  intros n Hn. apply safe_done; [lia|]. by apply amount_set.
Qed.

Lemma lob_op_message_safe v create amount locator r : lob_result_ok locator r →
  safe 1 (lob_op_message v create amount r) (λ x, lob_result_ok locator x.1).
Proof.
  intros Hr. unfold lob_op_message. safe_next. replace (1 - 1) with 0 by lia. safe_next.
  { eapply (safe_weaken (1 - 1 + 1) 0); [lia|intros ? HH; exact HH|]. eapply safe_seq; [apply read_bytes_safe|]. intros d Hd.
    apply safe_done; [lia|]. destruct Hr as (H1 & H2 & H3 & _). split; [done|]. split; [done|]. split; [done|].
    intros b Hb. by apply (Hd b Hb). }
  safe_next.
  { eapply safe_seq; [by apply lob_parameter_safe|]. intros r' Hr'. by apply safe_done. }
  eapply safe_seq; [apply common_message_safe|]. intros stop _. destruct stop; [by apply safe_done|].
  eapply safe_weaken; [| |apply (unknown_type_safe _ (λ _, False))]; [lia|done].
Qed.

Lemma free_temp_message_safe v n s : 0 <= n → safe 1 (free_temp_message v n s) (λ _, True).
Proof.
  intros Hn. unfold free_temp_message. safe_next. replace (1 - 1) with 0 by lia. safe_next; [by safe_run|].
  eapply safe_seq; [apply common_message_safe|]. intros stop _. destruct stop; [by apply safe_done|].
  eapply safe_weaken; [| |apply (unknown_type_safe _ (λ _, True))]; [lia|done].
Qed.

Lemma plain_message_safe v b : safe 1 (plain_message v b) (λ _, True).
Proof.
  unfold plain_message. safe_next. replace (1 - 1) with 0 by lia.
  repeat (safe_next; [first [by safe_run | apply then_safe, raise_error_safe]|]). by safe_run.
Qed.

(** A loop whose step keeps a property of its state. *)
Lemma scan_post {S} (step : S → ReaderM (S * bool)) (I : S → Prop) payload l s :
  (∀ s, I s → safe 1 (step s) (λ x, I x.1)) → policy_ok l → bytes_ok payload → Zlen payload <= I64_MAX → I s →
  post I (reader ← with_limits payload l; (while_remaining step (Datatypes.S (length payload)) s reader).1).
Proof.
  intros Hstep Hp Hb Hm Hs. eapply post_bind; [by apply with_limits_post|]. intros r [-> Hr].
  apply (response_loop_post step (λ s _, I s)); [done| |done|done|done].
  intros r' s' Hr' Hp' _ Hs'. by apply Hstep.
Qed.

(** The answers to LOB calls and to ping, commit and rollback are read without a panic
    and in bounded time whatever bytes they hold.  A LOB answer that is accepted has a
    locator of the length of the one the request was made with, and an amount that fits. *)
Theorem lob_response_total payload v locator create amount n l :
  policy_ok l → bytes_ok payload → Zlen payload <= I64_MAX → bytes_ok locator → 0 <= n →
  post (lob_result_ok locator) (parse_lob_op_response_with_limits payload v locator create amount l) ∧
  post (λ _, True) (parse_lob_free_temp_response_with_limits payload v n l) ∧
  post (λ _, True) (parse_plain_function_response_with_limits payload v l).
Proof.
  intros Hp Hb Hm Hl Hn. split_and!.
  - apply scan_post; [|done|done|done|]; [intros s Hs; by apply lob_op_message_safe|].
    split; [done|]. split; [done|]. split; [cbn; unfold I64_MAX; lia|done].
  - unfold parse_lob_free_temp_response_with_limits. eapply post_bind; [apply check_post|]. intros [] _.
    apply (scan_post _ (λ _, True)); [|done..]. intros s _. by apply free_temp_message_safe.
  - apply (scan_post _ (λ _, True)); [|done..]. intros s _. apply plain_message_safe.
Qed.

(** ** What an answer says *)

(** The messages of an answer: padding, data, the returned locator and amount, a call
    status, and the end-of-call message of a call that succeeded, given by its bytes. *)
Inductive AnswerPart :=
| APad
| AData (b : bytes)
| AParam (locator : bytes) (amount : Z)
| AStatus (call_status seq : Z)
| ADone (message : bytes).

Definition part_bytes (p : AnswerPart) : bytes :=
  match p with
  | APad => [0]
  | AData b => TNS_MSG_TYPE_LOB_DATA :: field_bytes b
  | AParam l n => TNS_MSG_TYPE_PARAMETER :: l ++ ub8_bytes n
  | AStatus s q => TNS_MSG_TYPE_STATUS :: ub4_bytes s ++ ub2_bytes q
  | ADone e => TNS_MSG_TYPE_ERROR :: e
  end.
Definition answer_bytes (ps : list AnswerPart) : bytes := concat (map part_bytes ps).

Definition part_ok (lim : ProtocolLimits) (v n : Z) (p : AnswerPart) : Prop :=
  match p with
  | APad => True
  | AData b => field_fits lim (Zlen b)
  | AParam l a => Zlen l = n ∧ 0 <= a <= I64_MAX
  | AStatus s q => 0 <= s <= U32_MAX ∧ 0 <= q <= U16_MAX
  | ADone e => ∃ info, parses lim (parse_server_error_info v) e info ∧ sei_number info = 0
  end.

(** What a part adds to the result. *)
Definition apply_part (r : LobReadResult) (p : AnswerPart) : LobReadResult :=
  match p with
  | AData b => set_rr_data (field_value b) r
  | AParam l n => let r := set_rr_locator l r in if 0 <? n then set_rr_amount n r else r
  | _ => r
  end.
Definition answered (locator : bytes) (ps : list AnswerPart) : LobReadResult := foldl apply_part (mkLobRead None locator 0) ps.

Section Answers.
Context (lim : ProtocolLimits) (H8 : 8 <= max_response_bytes lim).

Lemma read_sb8_parses n : 0 <= n <= I64_MAX → parses lim read_sb8 (ub8_bytes n) n.
Proof.
  intros Hn. unfold read_sb8, ub8_bytes, U8_MAX, U16_MAX, U32_MAX. unfold I64_MAX in Hn.
  assert (as_i 64 n = n) as Hi by (apply as_i_in; lia).
  assert (∀ k, (k <= 8)%nat → 0 <= n < 256 ^ Z.of_nat k →
    parses lim (b ← read_raw (Z.of_nat k); mret (as_i 64 (be_accumulate 64 b))) (to_be_bytes k n) n) as Hbe.
  { intros k Hk Hr. rewrite <- Hi at 2. apply (be_field_parses' lim H8 64 k n (as_i 64)); lia. }
  int_cases.
  - subst. apply (parses_bind lim _ _ [0] [] 0 0); [apply read_u8_parses|apply parses_ret].
  - apply (parses_bind lim _ _ [1] [n] 1 n); [apply read_u8_parses|].
    replace [n] with (to_be_bytes 1 n) by (cbn; by rewrite Z.mod_small by lia). apply (Hbe 1%nat); lia.
  - apply (parses_bind lim _ _ [2] (to_be_bytes 2 n) 2 n); [apply read_u8_parses|]. apply (Hbe 2%nat); lia.
  - apply (parses_bind lim _ _ [4] (to_be_bytes 4 n) 4 n); [apply read_u8_parses|]. apply (Hbe 4%nat); lia.
  - apply (parses_bind lim _ _ [8] (to_be_bytes 8 n) 8 n); [apply read_u8_parses|]. apply (Hbe 8%nat); lia.
Qed.

Lemma part_parses v r p : Zlen (rr_locator r) <= max_response_bytes lim → part_ok lim v (Zlen (rr_locator r)) p →
  parses lim (lob_op_message v false true r) (part_bytes p) (apply_part r p, false).
Proof.
  intros Hl Hp. unfold lob_op_message.
  destruct p as [|b|l n|s q|e]; cbn [part_bytes apply_part];
    (eapply (parses_bind lim _ _ [_]); [apply read_u8_parses|]); cbn [Z.eqb TNS_MSG_TYPE_LOB_DATA TNS_MSG_TYPE_PARAMETER
      TNS_MSG_TYPE_STATUS TNS_MSG_TYPE_ERROR Pos.eqb].
  - eapply parses_bind_nil; [apply parses_ret|apply parses_ret].
  - destruct Hp as ((? & ?) & ? & ? & ?). eapply parses_last; [by apply read_bytes_parses|apply parses_ret].
  - destruct Hp as [Hn Ha]. eapply parses_last; [|apply parses_ret]. unfold lob_parameter.
    eapply parses_bind.
    { instantiate (1 := set_rr_locator l r). case_bool_decide as Hnil.
      - rewrite Hnil, Zlen_nil in Hn. assert (l = []) as -> by (by destruct l; [|rewrite Zlen_cons in Hn; pose proof (Zlen_nonneg l); lia]).
        destruct r as [d lo a]. cbn in Hnil. subst. apply parses_ret.
      - rewrite <- Hn. eapply parses_last; [apply read_raw_parses; lia|apply parses_ret]. }
    eapply parses_last; [by apply read_sb8_parses|]. unfold I64_MAX in Ha. rewrite as_u_in by lia. apply parses_ret.
  - destruct Hp as [Hs Hq]. apply (parses_last lim _ _ _ (Some false)); [|apply parses_ret]. unfold common_message. cbn [Z.eqb Pos.eqb TNS_MSG_TYPE_STATUS].
    eapply parses_bind; [by apply read_ub4_parses|]. eapply parses_last; [by apply read_ub2_parses|apply parses_ret].
  - destruct Hp as (info & Hi & H0). apply (parses_last lim _ _ _ (Some false)); [|apply parses_ret]. unfold common_message.
    change (TNS_MSG_TYPE_ERROR =? 0) with false. cbn [Z.eqb Pos.eqb TNS_MSG_TYPE_ERROR TNS_MSG_TYPE_STATUS
      TNS_MSG_TYPE_SERVER_SIDE_PIGGYBACK TNS_MSG_TYPE_END_OF_RESPONSE].
    eapply parses_last; [|apply parses_ret]. unfold raise_server_error. eapply parses_last; [exact Hi|].
    rewrite H0. apply parses_ret.
Qed.

Lemma apply_part_locator v r p : part_ok lim v (Zlen (rr_locator r)) p → Zlen (rr_locator (apply_part r p)) = Zlen (rr_locator r).
Proof. destruct p as [|b|l n|s q|e]; cbn; try done. intros [Hl _]. by destruct (0 <? n). Qed.

Lemma part_nonempty p : 0 < Zlen (part_bytes p).
Proof. destruct p; cbn [part_bytes]; unfold Zlen; cbn [length]; lia. Qed.

Lemma remaining_rd pre rest : remaining (rd lim pre rest) = Zlen rest.
Proof. unfold remaining, rd, sat_sub. cbn. rewrite Zlen_app. pose proof (Zlen_nonneg rest). lia. Qed.

(** What ends an answer: the end of the payload, or an end-of-response message. *)
Definition ends_answer (tail : bytes) : Prop := tail = [] ∨ ∃ rest, tail = TNS_MSG_TYPE_END_OF_RESPONSE :: rest.

Lemma scan_parts v ps tail : ends_answer tail → ∀ fuel r pre,
  Zlen (rr_locator r) <= max_response_bytes lim → Forall (part_ok lim v (Zlen (rr_locator r))) ps →
  Zlen (pre ++ answer_bytes ps ++ tail) <= I64_MAX → Zlen (answer_bytes ps ++ tail) < Z.of_nat fuel →
  (while_remaining (lob_op_message v false true) fuel r (rd lim pre (answer_bytes ps ++ tail))).1 = Ok (foldl apply_part r ps).
Proof.
  intros Htail. induction ps as [|p ps IH]; intros [|fuel] r pre Hl Hps Hlen Hfuel;
    try (match type of Hfuel with Zlen ?l < _ => pose proof (Zlen_nonneg l) end; lia).
  - cbn [answer_bytes map concat app foldl] in *. cbn [while_remaining]. rewrite st_bindE. unfold gets at 1. rewrite remaining_rd.
    destruct Htail as [->|[rest ->]]; [done|]. rewrite Zlen_cons. pose proof (Zlen_nonneg rest).
    rewrite (proj2 (Z.ltb_lt _ _)) by lia.
    assert (parses lim (lob_op_message v false true r) [TNS_MSG_TYPE_END_OF_RESPONSE] (r, true)) as Hstop.
    { unfold lob_op_message. eapply parses_last; [apply read_u8_parses|]. eapply parses_bind_nil; [apply parses_ret|apply parses_ret]. }
    rewrite st_bindE. change (TNS_MSG_TYPE_END_OF_RESPONSE :: rest) with ([TNS_MSG_TYPE_END_OF_RESPONSE] ++ rest) in *. by rewrite Hstop.
  - apply Forall_cons_iff in Hps as [Hp Hps]. pose proof (apply_part_locator v r p Hp) as Hloc. pose proof (part_nonempty p).
    assert (answer_bytes (p :: ps) ++ tail = part_bytes p ++ answer_bytes ps ++ tail) as E by (unfold answer_bytes; cbn; by rewrite <- app_assoc).
    rewrite E in *. clear E. cbn [while_remaining foldl]. rewrite st_bindE. unfold gets at 1. rewrite remaining_rd.
    rewrite Zlen_app in Hfuel |- *. pose proof (Zlen_nonneg (answer_bytes ps ++ tail)). rewrite (proj2 (Z.ltb_lt _ _)) by lia.
    rewrite st_bindE, (part_parses v r p Hl Hp) by done. apply IH; rewrite ?Hloc; [done|done| |lia]. by rewrite <- app_assoc.
Qed.
End Answers.

(** The limits admit the payload. *)
Definition admits (lim : ProtocolLimits) (payload : bytes) : Prop :=
  validate lim = Ok lim ∧ Zlen payload <= max_frame_bytes lim ∧ Zlen payload <= max_response_bytes lim ∧ Zlen payload <= I64_MAX.

Lemma admits_reader lim payload : admits lim payload → with_limits payload lim = Ok (rd lim [] payload).
Proof.
  intros (Hv & Hf & Hr & _). unfold with_limits. rewrite Hv. cbn. unfold check_frame_bytes, check_response_bytes.
  by rewrite !check_ok by done.
Qed.

Lemma answer_parsed lim v locator ps tail :
  8 <= max_response_bytes lim → Zlen locator <= max_response_bytes lim →
  Forall (part_ok lim v (Zlen locator)) ps → ends_answer tail → admits lim (answer_bytes ps ++ tail) →
  parse_lob_read_response_with_limits (answer_bytes ps ++ tail) v locator lim = Ok (answered locator ps).
Proof.
  intros H8 Hl Hps Htail Ha. unfold parse_lob_read_response_with_limits, parse_lob_op_response_with_limits.
  rewrite admits_reader by done. destruct Ha as (_ & _ & _ & Ha). rewrite res_bindE. apply (scan_parts lim H8 v ps tail Htail); [done|done|done|].
  unfold Zlen. lia.
Qed.

(** A LOB answer says what its messages say.  Whatever messages a server sends (padding,
    data, returned locator and amount, status, the end of a successful call), in whatever
    order and number, followed by the end of the payload or by an end-of-response message and
    anything at all: the parser returns the last data, the last locator and the last positive
    amount, and nothing else. *)
Theorem lob_answer_exact lim v locator ps tail :
  8 <= max_response_bytes lim → Zlen locator <= max_response_bytes lim →
  Forall (part_ok lim v (Zlen locator)) ps → ends_answer tail → admits lim (answer_bytes ps ++ tail) →
  parse_lob_read_response_with_limits (answer_bytes ps ++ tail) v locator lim = Ok (answered locator ps).
Proof. apply answer_parsed. Qed.

(** C40: An answer that is cut between two messages is taken for a whole one.  On a connection
    without end-of-response messages the reader stops at the first packet whose bytes parse,
    and the parser of LOB answers accepts any number of whole messages: a packet that ends
    after the data, before the locator, the amount and the end of the call, ends the read,
    whatever packets follow; they are left on the wire for the next call to find.  (The
    parser of query responses asks for a message that ends a response.) *)
Theorem classic_lob_answer_cut reset lim v locator ps flags fuel packets :
  8 <= max_response_bytes lim → Zlen locator <= max_response_bytes lim →
  Forall (part_ok lim v (Zlen locator)) ps → admits lim (answer_bytes ps) → Zlen flags = 2 →
  let probe payload := response_complete (parse_lob_read_response_with_limits payload v locator lim) in
  read_classic_data_response_probed_into reset probe lim (S fuel) false None []
    (mkIncoming TNS_PACKET_TYPE_DATA (flags ++ answer_bytes ps) :: packets) = Ok (answer_bytes ps, packets) ∧
  parse_lob_read_response_with_limits (answer_bytes ps) v locator lim = Ok (answered locator ps).
Proof.
  intros H8 Hl Hps Ha Hflags. cbv zeta.
  assert (parse_lob_read_response_with_limits (answer_bytes ps) v locator lim = Ok (answered locator ps)) as Hparse.
  { pose proof (answer_parsed lim v locator ps [] H8 Hl Hps) as H. rewrite app_nil_r in H. apply H; [by left|done]. }
  split; [|done]. cbn [read_classic_data_response_probed_into]. rewrite res_bindE.
  cbn [ip_type ip_payload Z.eqb Pos.eqb TNS_PACKET_TYPE_DATA TNS_PACKET_TYPE_MARKER negb andb].
  assert (slice_get (flags ++ answer_bytes ps) 2 (Zlen (flags ++ answer_bytes ps)) = Some (answer_bytes ps)) as ->.
  { pose proof (slice_get_app flags (answer_bytes ps) []) as H. rewrite app_nil_r, Hflags in H. by rewrite Zlen_app, Hflags. }
  destruct Ha as (_ & _ & Hr & Hi). pose proof (Zlen_nonneg (answer_bytes ps)). cbn [ok_or as_read]. st_run.
  assert (Zlen (@nil Z) = 0) as Hnil by done.
  rewrite try_range_in by (unfold USIZE_MAX, U64_MAX, I64_MAX in *; lia). cbn [ok_or as_read]. st_run.
  unfold check_response_bytes. rewrite check_ok by lia. cbn [as_read app]. st_run. by rewrite Hparse.
Qed.

Lemma lob_response_total_witness :
  post (lob_result_ok [1; 2]) (parse_lob_op_response_with_limits [8; 3; 4; 1; 5; 29] 24 [1; 2] false true limits_DEFAULT) ∧
  post (λ _, True) (parse_lob_free_temp_response_with_limits [8; 3; 4; 1; 5; 29] 24 2 limits_DEFAULT) ∧
  post (λ _, True) (parse_plain_function_response_with_limits [8; 3; 4; 1; 5; 29] 24 limits_DEFAULT).
Proof.
  apply (lob_response_total [8; 3; 4; 1; 5; 29] 24 [1; 2] false true 2 limits_DEFAULT).
  - split; [apply (bool_decide_unpack _); vm_compute; exact I|vm_compute; reflexivity].
  - apply (bool_decide_unpack _). vm_compute. exact I.
  - vm_compute. discriminate.
  - apply (bool_decide_unpack _). vm_compute. exact I.
  - lia.
Defined.

Lemma lob_answer_exact_witness :
  parse_lob_read_response_with_limits [0; 14; 3; 72; 105; 33; 8; 7; 9; 1; 3; 9; 0; 0; 29; 255] 24 [7; 7] limits_DEFAULT =
  Ok (mkLobRead (Some [72; 105; 33]) [7; 9] 3).
Proof.
  apply (lob_answer_exact limits_DEFAULT 24 [7; 7] [APad; AData [72; 105; 33]; AParam [7; 9] 3; AStatus 0 0] [29; 255]).
  - vm_compute. discriminate.
  - vm_compute. discriminate.
  - repeat apply Forall_cons; try apply Forall_nil; [exact I|vm_compute; repeat split; discriminate|split; [reflexivity|vm_compute; split; discriminate]
      |vm_compute; repeat split; discriminate].
  - right. exists [255]. reflexivity.
  - vm_compute. repeat split; discriminate.
Defined.

(** The data in one packet, the locator and the amount in the next. *)
Lemma classic_lob_answer_cut_witness :
  let second := mkIncoming TNS_PACKET_TYPE_DATA [0; 0; 8; 7; 9; 1; 3; 9; 0; 0] in
  let probe payload := response_complete (parse_lob_read_response_with_limits payload 11 [7; 7] limits_DEFAULT) in
  read_classic_data_response_probed_into (λ _ _, Err StreamEnded) probe limits_DEFAULT 3 false None []
    [mkIncoming TNS_PACKET_TYPE_DATA ([0; 0] ++ answer_bytes [AData [72; 105; 33]]); second] = Ok (answer_bytes [AData [72; 105; 33]], [second]) ∧
  parse_lob_read_response_with_limits (answer_bytes [AData [72; 105; 33]]) 11 [7; 7] limits_DEFAULT = Ok (mkLobRead (Some [72; 105; 33]) [7; 7] 0).
Proof.
  apply (classic_lob_answer_cut (λ _ _, Err StreamEnded) limits_DEFAULT 11 [7; 7] [AData [72; 105; 33]] [0; 0] 2).
  - vm_compute. discriminate.
  - vm_compute. discriminate.
  - apply Forall_cons; [vm_compute; repeat split; discriminate|apply Forall_nil].
  - vm_compute. repeat split; discriminate.
  - reflexivity.
Defined.

(** ** Requests *)

Record LobRequest := mkLobRequest {
  lq_message : Z * Z * Z;
  lq_operation : Z;
  lq_locator : bytes;
  lq_dest_length : Z;
  lq_source_offset : Z;
  lq_dest_offset : Z;
  lq_null_lob : bool;
  lq_amount : option Z;
  lq_charset : option Z;
  lq_data : option bytes
}.

Definition lob_kinds : list FieldKind :=
  [FU8; FUB4; FU8; FUB4; FUB4; FUB4; FU8; FU8; FU8; FUB4; FU8; FU8; FUB8; FUB8; FU8; FU16; FU16; FU16].

(** The reader of a LOB call: what follows the locator is said by the pointers in front of
    it, and by the operation for a write. *)
Definition read_lob_request (v : Z) : ReaderM LobRequest :=
  m ← read_message_start v;
  h ← read_fields lob_kinds;
  locator ← read_raw (nth 1 h 0);
  charset ← (if nth 6 h 0 =? 1 then c ← read_ub4; mret (Some c) else mret None);
  amount ← (if nth 14 h 0 =? 1 then n ← read_ub8; mret (Some n) else mret None);
  data ← (if nth 9 h 0 =? TNS_LOB_OP_WRITE then _ ← read_u8; o ← read_bytes; mret (Some (default [] o)) else mret None);
  mret (mkLobRequest m (nth 9 h 0) locator (nth 3 h 0) (nth 12 h 0) (nth 13 h 0) (nth 8 h 0 =? 1) amount charset data).

Section Requests.
Context (lim : ProtocolLimits) (seq v : Z) (H8 : 8 <= max_response_bytes lim) (Hseq : 0 <= seq <= 255).

Definition lob_fields (n dest_length operation source_offset dest_offset : Z) (charset null_lob amount : bool) : list (FieldKind * Z) :=
  [(FU8, 1); (FUB4, n); (FU8, 0); (FUB4, dest_length); (FUB4, 0); (FUB4, 0); (FU8, Z.b2z charset); (FU8, 0); (FU8, Z.b2z null_lob);
   (FUB4, operation); (FU8, 0); (FU8, 0); (FUB8, source_offset); (FUB8, dest_offset); (FU8, Z.b2z amount); (FU16, 0); (FU16, 0); (FU16, 0)].

Lemma lob_fields_range n dest operation source offset charset null_lob amount :
  0 <= n <= U32_MAX → 0 <= dest <= U32_MAX → 0 <= operation <= U32_MAX → 0 <= source <= U64_MAX → 0 <= offset <= U64_MAX →
  Forall in_range (lob_fields n dest operation source offset charset null_lob amount).
Proof. intros. unfold lob_fields. destruct charset, null_lob, amount; cbn [Z.b2z]; ranges. Qed.

(** What a call sends in front of its operands. *)
Definition lob_head (locator : bytes) (dest operation source offset : Z) (charset null_lob amount : bool) : bytes :=
  start_bytes TNS_MSG_TYPE_FUNCTION TNS_FUNC_LOB_OP seq v ++
  layout (lob_fields (Zlen locator) dest operation source offset charset null_lob amount) ++ locator.

Lemma lob_header_run locator operation dest source offset charset null_lob amount w :
  Zlen locator <= U32_MAX → 0 <= dest <= U32_MAX → 0 <= operation <= U32_MAX → 0 <= source <= U64_MAX → 0 <= offset <= U64_MAX →
  write_lob_op_header locator seq v operation dest source offset charset null_lob amount w =
  (Ok (), write_raw (lob_head locator dest operation source offset charset null_lob amount) w).
Proof.
  intros Hl Hd Ho Hs Hf. pose proof (Zlen_nonneg locator). unfold write_lob_op_header, u32_length. st_run.
  rewrite try_range_in by lia. st_run. rewrite (proj1 (header_start _ _ _ _)).
  change (emit _ ?x) with (emit (map put (lob_fields (Zlen locator) dest operation source offset charset null_lob amount)) x).
  rewrite emit_layout by (by apply lob_fields_range). st_run. by rewrite !write_raw_raw.
Qed.

(** The whole call, read back. *)
Lemma lob_request_parses locator dest operation source offset charset null_lob amount operands a c d :
  Zlen locator <= U32_MAX → Zlen locator <= max_response_bytes lim →
  0 <= dest <= U32_MAX → 0 <= operation <= U32_MAX → 0 <= source <= U64_MAX → 0 <= offset <= U64_MAX →
  (∀ req, parses lim (charset ← (if (charset : bool) then c ← read_ub4; mret (Some c) else mret None);
                      amount ← (if (amount : bool) then n ← read_ub8; mret (Some n) else mret None);
                      data ← (if operation =? TNS_LOB_OP_WRITE then _ ← read_u8; o ← read_bytes; mret (Some (default [] o)) else mret None);
                      mret (req amount charset data : LobRequest)) operands (req a c d)) →
  parses lim (read_lob_request v) (lob_head locator dest operation source offset charset null_lob amount ++ operands)
    (mkLobRequest (TNS_MSG_TYPE_FUNCTION, TNS_FUNC_LOB_OP, seq) operation locator dest source offset null_lob a c d).
Proof.
  intros Hl Hr Hd Ho Hs Hf Hops. pose proof (Zlen_nonneg locator). unfold read_lob_request, lob_head. rewrite <- !app_assoc.
  eapply parses_bind; [apply start_parses; done || lia|].
  pose proof (lob_fields_range (Zlen locator) dest operation source offset charset null_lob amount ltac:(lia) Hd Ho Hs Hf) as Hrange.
  eapply parses_bind; [exact (fields_parse lim H8 _ Hrange)|].
  cbn [map snd nth lob_fields]. eapply parses_bind; [by apply read_raw_parses|].
  assert (∀ b, (Z.b2z b =? 1) = b) as Hb by (by intros []). rewrite !Hb. apply Hops.
Qed.
End Requests.

Lemma total_size_run locators : ∀ total, 0 <= total → total + Zlen (concat locators) <= U32_MAX →
  total_size total locators = Ok (total + Zlen (concat locators)).
Proof.
  induction locators as [|l ls IH]; intros total Ht Hs; [cbn; f_equal; rewrite Zlen_nil; lia|]. cbn [concat] in *. rewrite Zlen_app in *.
  pose proof (Zlen_nonneg l). pose proof (Zlen_nonneg (concat ls)). cbn [total_size]. unfold u32_length.
  rewrite try_range_in by lia. st_run. rewrite try_range_in by lia. st_run. rewrite IH by lia. f_equal. lia.
Qed.

Lemma write_locators locators w : foldl (λ w f, f w) w (map write_raw locators) = write_raw (concat locators) w.
Proof.
  revert w. induction locators as [|l ls IH]; intros w; [by rewrite write_raw_nil|]. cbn [map foldl concat]. by rewrite IH, write_raw_raw.
Qed.

Lemma build_bytes m enc : (∀ w, m w = (Ok (), write_raw enc w)) → build m = Ok enc.
Proof. intros H. unfold build. by rewrite H. Qed.

Section Calls.
Context (lim : ProtocolLimits) (seq v : Z) (locator : bytes).
Context (H8 : 8 <= max_response_bytes lim) (Hseq : 0 <= seq <= 255).
Context (Hl : Zlen locator <= U32_MAX) (Hr : Zlen locator <= max_response_bytes lim).

(** A call without operands but an amount. *)
Lemma amount_request operation source offset n enc : 0 <= operation <= U32_MAX → 0 <= source <= U64_MAX → 0 <= offset <= U64_MAX →
  0 <= n <= U64_MAX → operation ≠ TNS_LOB_OP_WRITE →
  enc = lob_head seq v locator 0 operation source offset false false true ++ ub8_bytes n →
  parses lim (read_lob_request v) enc
    (mkLobRequest (TNS_MSG_TYPE_FUNCTION, TNS_FUNC_LOB_OP, seq) operation locator 0 source offset false (Some n) None None).
Proof.
  intros Ho Hs Hf Hn Hw ->. apply lob_request_parses; try (done || lia). intros req.
  eapply parses_bind_nil; [apply parses_ret|]. eapply parses_last; [eapply parses_last; [by apply read_ub8_parses|apply parses_ret]|].
  rewrite (proj2 (Z.eqb_neq _ _) Hw). eapply parses_bind_nil; [apply parses_ret|apply parses_ret].
Qed.

Lemma read_request_bytes offset amount : 0 <= offset <= U64_MAX → 0 <= amount <= U64_MAX →
  build_lob_read_payload_with_seq locator offset amount seq v =
  Ok (lob_head seq v locator 0 TNS_LOB_OP_READ offset 0 false false true ++ ub8_bytes amount).
Proof.
  intros Ho Ha. apply build_bytes. intros w.
  transitivity ((_ ← write_lob_op_header locator seq v TNS_LOB_OP_READ 0 offset 0 false false true; modify (write_ub8 amount)) w).
  - pose proof (Zlen_nonneg locator). unfold write_lob_op_header, u32_length. st_run. rewrite try_range_in by lia. reflexivity.
  - rewrite st_bindE, lob_header_run by done. unfold modify. by rewrite write_ub8_spec, write_raw_raw by done.
Qed.

Lemma read_request_parses offset amount : 0 <= offset <= U64_MAX → 0 <= amount <= U64_MAX →
  ∃ payload, build_lob_read_payload_with_seq locator offset amount seq v = Ok payload ∧
    parses lim (read_lob_request v) payload
      (mkLobRequest (TNS_MSG_TYPE_FUNCTION, TNS_FUNC_LOB_OP, seq) TNS_LOB_OP_READ locator 0 offset 0 false (Some amount) None None).
Proof.
  intros Ho Ha. eexists. split; [by apply read_request_bytes|]. by apply (amount_request TNS_LOB_OP_READ offset 0 amount).
Qed.

Lemma write_request_parses offset data : 0 <= offset <= U64_MAX → field_fits lim (Zlen data) →
  ∃ payload, build_lob_write_payload_with_seq locator offset data seq v = Ok payload ∧
    parses lim (read_lob_request v) payload
      (mkLobRequest (TNS_MSG_TYPE_FUNCTION, TNS_FUNC_LOB_OP, seq) TNS_LOB_OP_WRITE locator 0 offset 0 false None None (Some data)).
Proof.
  intros Ho ((? & ?) & ? & ? & ?).
  exists (lob_head seq v locator 0 TNS_LOB_OP_WRITE offset 0 false false false ++ [TNS_MSG_TYPE_LOB_DATA] ++ field_bytes data). split.
  - apply build_bytes. intros w. rewrite st_bindE, lob_header_run by done. st_run. unfold write_u8.
    by rewrite write_bytes_with_length_spec, !write_raw_raw.
  - apply lob_request_parses; try (done || lia). intros req. do 2 (eapply parses_bind_nil; [apply parses_ret|]).
    rewrite Z.eqb_refl. eapply parses_last; [|apply parses_ret]. eapply parses_bind; [apply read_u8_parses|].
    eapply parses_last; [by apply read_bytes_parses|].
    assert (default [] (field_value data) = data) as -> by (by destruct data). apply parses_ret.
Qed.
End Calls.

(** C35: A LOB call says what it does.  At every field version the requests to read, write,
    trim, create and free are built without error, and a reader of the call's layout finds
    the operation, the locator (for a free, all the locators), the offsets, and the operand
    the operation has: the amount of a read, the new size of a trim, the bytes of a write
    however long, the character set of a new LOB; nothing is left over. *)
Theorem lob_requests_roundtrip lim seq v locator offset amount data t cs locators :
  0 <= seq <= 255 → Zlen locator <= U32_MAX → Zlen locator <= max_response_bytes lim →
  0 <= offset <= U64_MAX → 0 <= amount <= U64_MAX → field_fits lim (Z.max 40 (Zlen data)) → 0 <= t <= 255 → 0 <= cs <= 255 →
  Zlen (concat locators) <= U32_MAX → Zlen (concat locators) <= max_response_bytes lim →
  let says payload r := ∃ p, payload = Ok p ∧ parses lim (read_lob_request v) p r in
  let call := (TNS_MSG_TYPE_FUNCTION, TNS_FUNC_LOB_OP, seq) in
  says (build_lob_read_payload_with_seq locator offset amount seq v)
    (mkLobRequest call TNS_LOB_OP_READ locator 0 offset 0 false (Some amount) None None) ∧
  says (build_lob_write_payload_with_seq locator offset data seq v)
    (mkLobRequest call TNS_LOB_OP_WRITE locator 0 offset 0 false None None (Some data)) ∧
  says (build_lob_trim_payload_with_seq locator amount seq v)
    (mkLobRequest call TNS_LOB_OP_TRIM locator 0 0 0 false (Some amount) None None) ∧
  says (build_lob_create_temp_payload_with_seq t cs seq v)
    (mkLobRequest call TNS_LOB_OP_CREATE_TEMP (repeat 0 40) TNS_DURATION_SESSION cs t true None (Some TNS_CHARSET_UTF8) None) ∧
  says (build_lob_free_temp_payload_with_seq locators seq v)
    (mkLobRequest call (Z.lor TNS_LOB_OP_FREE_TEMP TNS_LOB_OP_ARRAY) (concat locators) 0 0 0 false None None None).
Proof.
  intros Hseq Hl Hr Ho Ha ((H8 & Hu) & Hc & Hm & Hm2) Ht Hcs Hlocs Hlocs2. cbv zeta. split_and!.
  - by apply read_request_parses.
  - apply write_request_parses; try done. unfold field_fits. split_and!; lia.
  - eexists. split; [|apply (amount_request lim seq v locator H8 Hseq Hl Hr TNS_LOB_OP_TRIM 0 0 amount); [done..|reflexivity]].
    apply build_bytes. intros w. rewrite st_bindE, lob_header_run by done. unfold modify. by rewrite write_ub8_spec, write_raw_raw.
  - exists (lob_head seq v (repeat 0 40) TNS_DURATION_SESSION TNS_LOB_OP_CREATE_TEMP cs t true true false ++ ub4_bytes TNS_CHARSET_UTF8). split.
    + apply build_bytes. intros w. rewrite st_bindE, lob_header_run by (done || (unfold U64_MAX; lia)). unfold modify.
      by rewrite write_ub4_spec, write_raw_raw.
    + apply lob_request_parses; try (done || (unfold U64_MAX; lia)); [change (Zlen (repeat 0 40)) with 40; lia|]. intros req.
      eapply parses_last; [eapply parses_last; [by apply read_ub4_parses|apply parses_ret]|].
      do 2 (eapply parses_bind_nil; [apply parses_ret|]). apply parses_ret.
  - exists (lob_head seq v (concat locators) 0 (Z.lor TNS_LOB_OP_FREE_TEMP TNS_LOB_OP_ARRAY) 0 0 false false false ++ []). split.
    + apply build_bytes. intros w. pose proof (Zlen_nonneg (concat locators)). st_run. rewrite (total_size_run locators 0) by lia. rewrite Z.add_0_l. st_run.
      assert (0 <= Z.lor TNS_LOB_OP_FREE_TEMP TNS_LOB_OP_ARRAY <= U32_MAX) as Hop by done.
      rewrite (proj1 (header_start _ _ _ _)). set (op := Z.lor _ _) in *. clearbody op. emit_run. st_run. unfold emit, modify. rewrite write_locators, !write_raw_raw.
      unfold lob_head. by rewrite app_nil_r, ?app_assoc.
    + apply lob_request_parses; try done. intros req. do 3 (eapply parses_bind_nil; [apply parses_ret|]). apply parses_ret.
Qed.

(** A read of four bytes, a write of three and the release of two locators. *)
Lemma lob_requests_roundtrip_witness :
  ∃ p, build_lob_write_payload_with_seq [7; 8; 9] 5 [1; 2; 3] 3 24 = Ok p ∧
    parses limits_DEFAULT (read_lob_request 24) p
      (mkLobRequest (TNS_MSG_TYPE_FUNCTION, TNS_FUNC_LOB_OP, 3) TNS_LOB_OP_WRITE [7; 8; 9] 0 5 0 false None None (Some [1; 2; 3])).
Proof.
  refine (proj1 (proj2 (lob_requests_roundtrip limits_DEFAULT 3 24 [7; 8; 9] 5 4 [1; 2; 3] 113 0 [[1; 2]; [3]]
    _ _ _ _ _ _ _ _ _ _))); try (vm_compute; split; discriminate); try (vm_compute; discriminate).
  unfold field_fits. vm_compute. repeat split; discriminate.
Defined.
