(* ===== verification/LobSession.v ===== *)
(** * LOB streams over the messages

    The streams of [LobStream] run on a connection that is made of the builders, the packet
    readers and the parsers of [LobMessages]: a round trip takes the next sequence number,
    sends a request and reads packets until one ends the answer.  The server is a function
    from the bytes of a request to the packets of an answer, described only by what a reader
    of LOB calls finds in the request and by the messages its answer consists of. *)

From S2P Require Import Prelude.
From S2P Require Import Protocol.
From S2P Require Import Limits.
From S2P Require Import Writer.
From S2P Require Import Reader.
From S2P Require Import Wire.
From S2P Require Import Layout.
From S2P Require Import Fetch.
From S2P Require Import StatementCache.
From S2P Require Import LobText.
From S2P Require Import LobStream.
From S2P Require Import LobMessages.
From S2P Require Import Binds.
From S2P Require Import Execute.
From S2P Require Import ExecuteWire.
From S2P Require Import LobWire.

Section Session.
Context {W : Type} (respond : bytes → W → list IncomingPacket * W).
Context (reset : IncomingPacket → list IncomingPacket → Result ReadError (option IncomingPacket * list IncomingPacket)).
(** [!supports_end_of_response], the field version and the limits of the connection. *)
Context (classic : bool) (v : Z) (lim : ProtocolLimits).

(** The sequence number of the connection, the packets that have arrived and were not read,
    and the world behind it. *)
Abbreviation Session := (Z * list IncomingPacket * W)%type.

Definition next_sequence : ST ReadError Session Z :=
  λ '(seq, arrived, w), (Ok (next_ttc_sequence seq), (next_ttc_sequence seq, arrived, w)).

(** The request is sent whole, its answer arrives, and the reader takes what it reads. *)
Definition exchange (probe : bytes → Res bool) (request : bytes) : ST ReadError Session bytes :=
  λ '(seq, arrived, w),
    let '(packets, w) := respond request w in
    match read_data_response_probed reset probe lim classic (arrived ++ packets) with
    | Ok (response, arrived) => (Ok response, (seq, arrived, w))
    | Err e => (Err e, (seq, arrived ++ packets, w))
    | Panic => (Panic, (seq, arrived ++ packets, w))
    | Diverge => (Diverge, (seq, arrived ++ packets, w))
    end.

(** [Connection::read_lob] and [write_lob] of a session that is clean and not cancelled,
    before [note_parse] records an error. *)
Definition session_read_lob (locator : bytes) (offset amount : Z) : ST ReadError Session LobReadResult :=
  seq_num ← next_sequence;
  payload ← lift (as_read (build_lob_read_payload_with_seq locator offset amount seq_num v));
  response ← exchange (λ b, response_complete (parse_lob_read_response_with_limits b v locator lim)) payload;
  lift (as_read (parse_lob_read_response_with_limits response v locator lim)).

Definition session_write_lob (locator : bytes) (offset : Z) (data : bytes) : ST ReadError Session LobReadResult :=
  _ ← lift (as_read (check_frame_bytes lim (Zlen locator)));
  _ ← lift (as_read (check_frame_bytes lim (Zlen data)));
  seq_num ← next_sequence;
  payload ← lift (as_read (build_lob_write_payload_with_seq locator offset data seq_num v));
  response ← exchange (λ b, response_complete (parse_lob_write_response_with_limits b v locator lim)) payload;
  lift (as_read (parse_lob_write_response_with_limits response v locator lim)).

#[local] Instance session_server : LobServer Session ReadError := {|
  read_lob := session_read_lob;
  write_lob := session_write_lob;
  protocol_error := ReadProtocol
|}.

Lemma sequence_range seq : 1 <= next_ttc_sequence seq <= 255.
Proof.
  unfold next_ttc_sequence, as_u. cbv zeta. change (2 ^ 8) with 256. pose proof (Z.mod_pos_bound (seq + 1) 256 ltac:(lia)).
  destruct (Z.eqb_spec ((seq + 1) mod 256) 0); lia.
Qed.

(** ** An answer in packets *)

(** A DATA packet, and whether the reader, having read [before], stops behind it. *)
Definition data_packet (flags payload : bytes) : IncomingPacket := mkIncoming TNS_PACKET_TYPE_DATA (flags ++ payload).
Definition stops (probe : bytes → Res bool) (before flags payload : bytes) : Res bool :=
  if classic then probe (before ++ payload) else Ok (data_packet_ends_response (from_be_bytes flags) payload).

(** The packets carry [b] behind [before], and the reader stops behind the last of them and
    not earlier. *)
Fixpoint delivers (probe : bytes → Res bool) (before b : bytes) (packets : list IncomingPacket) : Prop :=
  match packets with
  | [] => False
  | packet :: rest => ∃ flags payload, packet = data_packet flags payload ∧ Zlen flags = 2 ∧
      match rest with
      | [] => payload = b ∧ stops probe before flags payload = Ok true
      | _ => ∃ b', b = payload ++ b' ∧ stops probe before flags payload = Ok false ∧ delivers probe (before ++ payload) b' rest
      end
  end.

Lemma packet_payload flags payload : Zlen flags = 2 →
  slice_get (flags ++ payload) 2 (Zlen (flags ++ payload)) = Some payload ∧ take 2 (flags ++ payload) = flags.
Proof.
  intros Hf. pose proof (slice_get_app flags payload []) as H. rewrite app_nil_r, Hf in H. split; [by rewrite Zlen_app, Hf|].
  rewrite take_app_le by (unfold Zlen in Hf; lia). apply take_ge. unfold Zlen in Hf. lia.
Qed.

Lemma boundary_reads probe packets : classic = false → ∀ fuel before b rest, delivers probe before b packets →
  Zlen (before ++ b) <= max_response_bytes lim → Zlen (before ++ b) <= I64_MAX → (length packets <= fuel)%nat →
  read_data_response_boundary reset lim fuel false None before (packets ++ rest) = Ok (before ++ b, rest).
Proof.
  intros Hc. induction packets as [|p packets IH]; [done|]. intros [|fuel] before b rest Hd Hm Hi Hf; [cbn in Hf; lia|].
  destruct Hd as (flags & payload & -> & Hlen & Hd). destruct (packet_payload flags payload Hlen) as [Hs Ht].
  cbn [app read_data_response_boundary]. rewrite res_bindE. unfold data_packet.
  cbn [ip_type ip_payload Z.eqb Pos.eqb TNS_PACKET_TYPE_DATA TNS_PACKET_TYPE_MARKER negb andb]. rewrite Hs, Ht. cbn [ok_or as_read]. st_run.
  unfold stops in Hd. rewrite Hc in Hd. rewrite Zlen_app in *. pose proof (Zlen_nonneg before). pose proof (Zlen_nonneg payload). unfold check_response_bytes.
  destruct packets as [|p' packets].
  - destruct Hd as (-> & [= ->]). cbn [orb andb]. case_bool_decide as He.
    + subst before. rewrite check_ok by (change (Zlen []) with 0 in *; lia). done.
    + rewrite try_range_in by (unfold USIZE_MAX, U64_MAX, I64_MAX in *; lia). cbn [ok_or as_read]. st_run. rewrite check_ok by lia. done.
  - destruct Hd as (b' & -> & [= ->] & Hd). rewrite Zlen_app in *. pose proof (Zlen_nonneg b'). cbn [orb andb].
    rewrite try_range_in by (unfold USIZE_MAX, U64_MAX, I64_MAX in *; lia). cbn [ok_or as_read]. st_run. rewrite check_ok by lia. cbn [as_read]. st_run.
    rewrite (IH fuel (before ++ payload) b' rest Hd); [by rewrite app_assoc|rewrite !Zlen_app; lia..|cbn in *; lia].
Qed.

Lemma classic_reads probe packets : classic = true → ∀ fuel before b rest, delivers probe before b packets →
  Zlen (before ++ b) <= max_response_bytes lim → Zlen (before ++ b) <= I64_MAX → (length packets <= fuel)%nat →
  read_classic_data_response_probed_into reset probe lim fuel false None before (packets ++ rest) = Ok (before ++ b, rest).
Proof.
  intros Hc. induction packets as [|p packets IH]; [done|]. intros [|fuel] before b rest Hd Hm Hi Hf; [cbn in Hf; lia|].
  destruct Hd as (flags & payload & -> & Hlen & Hd). destruct (packet_payload flags payload Hlen) as [Hs _].
  cbn [app read_classic_data_response_probed_into]. rewrite res_bindE. unfold data_packet.
  cbn [ip_type ip_payload Z.eqb Pos.eqb TNS_PACKET_TYPE_DATA TNS_PACKET_TYPE_MARKER negb andb]. rewrite Hs. cbn [ok_or as_read]. st_run.
  unfold stops in Hd. rewrite Hc in Hd. rewrite Zlen_app in *. pose proof (Zlen_nonneg before). pose proof (Zlen_nonneg payload). unfold check_response_bytes.
  destruct packets as [|p' packets].
  - destruct Hd as (-> & Hd). rewrite try_range_in by (unfold USIZE_MAX, U64_MAX, I64_MAX in *; lia). cbn [ok_or as_read]. st_run.
    rewrite check_ok by lia. cbn [as_read]. st_run. by rewrite Hd.
  - destruct Hd as (b' & -> & Hp & Hd). rewrite Zlen_app in *. pose proof (Zlen_nonneg b').
    rewrite try_range_in by (unfold USIZE_MAX, U64_MAX, I64_MAX in *; lia). cbn [ok_or as_read]. st_run. rewrite check_ok by lia. cbn [as_read]. st_run.
    rewrite Hp. cbn [as_read]. st_run. rewrite (IH fuel (before ++ payload) b' rest Hd); [by rewrite app_assoc|rewrite !Zlen_app; lia..|cbn in *; lia].
Qed.

Lemma delivered probe b packets : delivers probe [] b packets → Zlen b <= max_response_bytes lim → Zlen b <= I64_MAX →
  read_data_response_probed reset probe lim classic packets = Ok (b, []).
Proof.
  intros Hd Hm Hi. unfold read_data_response_probed. set (fuel := (2 * length packets + 2)%nat).
  assert (length packets <= fuel)%nat as Hf by (unfold fuel; lia). destruct classic eqn:Hc.
  - pose proof (classic_reads probe packets Hc fuel [] b [] Hd Hm Hi Hf) as H. by rewrite app_nil_r in H.
  - pose proof (boundary_reads probe packets Hc fuel [] b [] Hd Hm Hi Hf) as H. by rewrite app_nil_r in H.
Qed.

(** What a server of a LOB with these units does on the wire: in the worlds of [P], a
    request in which a reader finds a read of units that exist is answered by messages that
    say one or more of them, in whatever parts, followed by the end of the answer; they
    arrive in packets of which only the last makes the reader stop. *)
Definition serves (units : list bytes) (P : W → Prop) (size : Z) : Prop := ∀ w seq l o n request,
  P w → Zlen l = size → 1 <= o → 1 <= n → o + n <= Zlen units + 1 →
  (read_lob_request v (rd lim [] request)).1 =
    Ok (mkLobRequest (TNS_MSG_TYPE_FUNCTION, TNS_FUNC_LOB_OP, seq) TNS_LOB_OP_READ l 0 o 0 false (Some n) None None) →
  ∃ k l' ps tail packets w', respond request w = (packets, w') ∧ 1 <= k <= n ∧ P w' ∧
    delivers (λ b, response_complete (parse_lob_read_response_with_limits b v l lim)) [] (answer_bytes ps ++ tail) packets ∧
    answered l ps = mkLobRead (Some (concat (take (Z.to_nat k) (drop (Z.to_nat (o - 1)) units)))) l' k ∧
    Forall (part_ok lim v size) ps ∧ ends_answer tail ∧ admits lim (answer_bytes ps ++ tail).

Lemma field_enc_short f : Zlen (field_enc f) <= 9.
Proof.
  destruct f as [[] z]; cbn; unfold ub2_bytes, ub4_bytes, ub8_bytes; repeat case_match;
    rewrite ?Zlen_cons, ?Zlen_nil, ?Zlen_to_be_bytes; lia.
Qed.

Lemma layout_short fs : Zlen (layout fs) <= 9 * Zlen fs.
Proof.
  induction fs as [|f fs IH]; [done|]. unfold layout in *. cbn [map concat]. rewrite Zlen_app, Zlen_cons. pose proof (field_enc_short f). lia.
Qed.

Lemma read_request_runs seq l o n request : 8 <= max_response_bytes lim → 0 <= seq <= 255 → Zlen l <= U32_MAX →
  Zlen l <= max_response_bytes lim → 0 <= o <= U64_MAX → 0 <= n <= U64_MAX →
  build_lob_read_payload_with_seq l o n seq v = Ok request →
  (read_lob_request v (rd lim [] request)).1 =
    Ok (mkLobRequest (TNS_MSG_TYPE_FUNCTION, TNS_FUNC_LOB_OP, seq) TNS_LOB_OP_READ l 0 o 0 false (Some n) None None).
Proof.
  intros H8 Hseq Hu Hm Ho Hn Hb. destruct (read_request_parses lim seq v l H8 Hseq Hu Hm o n Ho Hn) as (r & Hr & Hp).
  assert (r = request) as -> by congruence. rewrite read_request_bytes in Hb by done. 
  assert (request = lob_head seq v l 0 TNS_LOB_OP_READ o 0 false false true ++ ub8_bytes n) as -> by congruence.
  specialize (Hp [] []). rewrite app_nil_l, app_nil_r in Hp. rewrite Hp; [done|]. unfold lob_head. rewrite !Zlen_app. pose proof (field_enc_short (FUB8, n)). cbn [field_enc] in *.
  pose proof (layout_short (lob_fields (Zlen l) 0 TNS_LOB_OP_READ o 0 false false true)).
  assert (Zlen (start_bytes TNS_MSG_TYPE_FUNCTION TNS_FUNC_LOB_OP seq v) <= 4) by (unfold start_bytes; by destruct (writes_pipeline_token v)).
  change (Zlen (lob_fields _ _ _ _ _ _ _ _)) with 18 in *. unfold U32_MAX, I64_MAX in *. lia.
Qed.

Lemma answered_locator size ps : Forall (part_ok lim v size) ps → ∀ r, Zlen (rr_locator r) = size →
  Zlen (rr_locator (foldl apply_part r ps)) = size.
Proof.
  induction 1 as [|p ps Hp _ IH]; intros r Hr; [done|]. cbn [foldl]. apply IH.
  rewrite (apply_part_locator lim v) by (by rewrite Hr). done.
Qed.

Lemma session_honest units P size :
  serves units P size → 8 <= max_response_bytes lim → 0 <= size <= U32_MAX → size <= max_response_bytes lim → Zlen units <= I64_MAX →
  honest units (λ s : Session, s.1.2 = [] ∧ P s.2) (λ l, Zlen l = size).
Proof.
  intros Hs H8 [Hz Hu] Hm Hi [[seq arrived] w] l o n [Ha0 Hw] Hl Ho Hn Hon. cbn [fst snd] in Ha0, Hw. subst arrived. pose proof (sequence_range seq) as Hseq.
  destruct (read_request_parses lim (next_ttc_sequence seq) v l H8 ltac:(lia) ltac:(lia) ltac:(lia) o n) as (request & Hb & Hp);
    [unfold I64_MAX, U64_MAX in *; lia..|].
  pose proof (read_request_runs (next_ttc_sequence seq) l o n request H8 ltac:(lia) ltac:(lia) ltac:(lia)
    ltac:(unfold I64_MAX, U64_MAX in *; lia) ltac:(unfold I64_MAX, U64_MAX in *; lia) Hb) as Hread. clear Hp.
  destruct (Hs w _ l o n request Hw Hl Ho Hn Hon Hread) as (k & l' & ps & tail & packets & w' & Hr & Hk & Hw' & Hd & Ha & Hps & Ht & Hadm).
  exists k, l', (next_ttc_sequence seq, [], w'). split.
  - cbn [read_lob session_server]. unfold session_read_lob. rewrite st_bindE. cbn [next_sequence]. rewrite st_bindE. unfold lift at 1. rewrite Hb.
    cbn [as_read]. rewrite st_bindE. cbn [exchange]. rewrite Hr, app_nil_l. rewrite (delivered _ _ _ Hd) by (destruct Hadm as (_ & _ & ? & ?); lia).
    unfold lift. rewrite answer_parsed, Ha by (done || lia || by rewrite Hl). done.
  - split; [done|]. split; [|done]. pose proof (answered_locator size ps Hps (mkLobRead None l 0) Hl) as H. unfold answered in Ha.
    by rewrite Ha in H.
Qed.

(** C13: A LOB streamed over the real messages is the LOB.  The streams on top of the request
    builders, the packet readers and the answer parsers, with the connection's sequence
    numbers, against a server known only by its packets: it understands a read as a reader of
    the call's layout does, and answers with any messages that say one or more of the units
    asked for, cut into packets in any way in which only the last makes the reader stop.
    Where responses end in a mark that means that the last packet, and no other, is marked;
    where they do not, that no packet before the last completes bytes that parse as an answer
    (else the answer is lost, see [classic_lob_answer_cut]).  On a connection with nothing left to
    read and not cancelled, a BLOB is drained to its bytes; a CLOB to the text
    [decode_lob_text] gives for the whole of it, or to an error when that is one, for every
    chunk size and every first sequence number. *)
Theorem lob_streams_over_messages units P size lob chunk seq w :
  serves units P size → 8 <= max_response_bytes lim → Zlen (lob_locator lob) = size → size <= U32_MAX →
  size <= max_response_bytes lim → Forall (λ u, u ≠ [] ∧ bytes_ok u) units → P w → lob_size lob = Zlen units → Zlen units <= I64_MAX →
  (read_to_end (lob_reader_new lob chunk, (seq, [], w))).1 = Ok (concat units) ∧
  match decode_lob_text (concat units) (lob_csfrm lob) (Some (lob_locator lob)) with
  | Ok t => (read_to_string (clob_reader_new lob chunk, (seq, [], w))).1 = Ok t
  | _ => ∃ e, (read_to_string (clob_reader_new lob chunk, (seq, [], w))).1 = Err e
  end.
Proof.
  intros Hs H8 Hl Hu Hm Hunits Hw Hsize Hi. pose proof (Zlen_nonneg (lob_locator lob)).
  apply (stream_exact units (λ s : Session, s.1.2 = [] ∧ P s.2) (λ l, Zlen l = size)); try done.
  - by apply session_honest; [..|lia| |].
  - unfold I64_MAX, U64_MAX in *. lia.
Qed.
End Session.

(** ** A server of one CLOB *)

(** It reads the request, and answers with at most two units, the data in front of the
    returned locator, one byte of which counts the reads, and the amount.  The answer is in
    two packets, cut behind the data; the second one has the mark of an end. *)
Definition clob_server (v : Z) (lim : ProtocolLimits) (units : list bytes) (request : bytes) (reads : nat) : list IncomingPacket * nat :=
  match (read_lob_request v (rd lim [] request)).1 with
  | Ok q =>
      let k := Z.min (default 0 (lq_amount q)) 2 in
      let data := concat (take (Z.to_nat k) (drop (Z.to_nat (lq_source_offset q - 1)) units)) in
      ([data_packet [0; 0] (answer_bytes [APad; AData data]);
        data_packet [32; 0] (answer_bytes [AParam (Z.of_nat reads mod 256 :: drop 1 (lq_locator q)) k; AStatus 0 0] ++ [TNS_MSG_TYPE_END_OF_RESPONSE])],
       S reads)
  | _ => ([], reads)
  end.

Lemma euro_units_fit (k i : nat) : (1 <= k)%nat → (i < 3)%nat →
  let data := concat (take k (drop i [[72]; [226; 130; 172]; [33]])) in data ≠ [] ∧ Zlen data <= 5.
Proof.
  intros Hk Hi. destruct k as [|k]; [lia|]. destruct i as [|[|[|i]]]; [..|lia]; destruct k as [|[|[|k]]]; vm_compute; split; discriminate.
Qed.

Lemma clob_server_serves : serves (clob_server 24 limits_DEFAULT [[72]; [226; 130; 172]; [33]]) false 24 limits_DEFAULT
  [[72]; [226; 130; 172]; [33]] (λ _, True) 2.
Proof.
  intros w seq l o n request _ Hl Ho Hn Hon Hq. change (Zlen [[72]; [226; 130; 172]; [33]]) with 3 in Hon.
  destruct (euro_units_fit (Z.to_nat (Z.min n 2)) (Z.to_nat (o - 1)) ltac:(lia) ltac:(lia)) as [Hd Hsmall].
  unfold clob_server. rewrite Hq. cbn [lq_amount lq_source_offset lq_locator]. change (default 0 (Some n)) with n.
  set (data := concat _) in *. set (l' := _ :: drop 1 l). set (k := Z.min n 2) in *.
  assert (Zlen l' = 2) as Hl' by (unfold l'; destruct l as [|a [|b [|c l]]]; unfold Zlen in *; cbn in *; lia).
  assert (k = 1 ∨ k = 2) as Hk by lia. assert (Zlen (ub8_bytes k) = 2) as Hkb by (by destruct Hk as [-> | ->]).
  eexists k, l', [APad; AData data; AParam l' k; AStatus 0 0], [TNS_MSG_TYPE_END_OF_RESPONSE], _, _.
  split; [reflexivity|]. split; [lia|]. split; [done|]. split.
  { exists [0; 0], (answer_bytes [APad; AData data]). split; [done|]. split; [done|]. eexists. split; [|split].
    - change [APad; AData data; AParam l' k; AStatus 0 0] with ([APad; AData data] ++ [AParam l' k; AStatus 0 0]). unfold answer_bytes. rewrite map_app, concat_app, <- app_assoc. reflexivity.
    - unfold stops, data_packet_ends_response. cbn. by repeat case_bool_decide.
    - eexists [32; 0], _. split; [reflexivity|]. split; [done|]. by split. }
  split.
  { cbn. assert (field_value data = Some data) as -> by (by destruct data). unfold set_rr_data, set_rr_locator, set_rr_amount. cbn.
    by rewrite (proj2 (Z.ltb_lt _ _)) by lia. }
  split.
  { repeat apply Forall_cons; try apply Forall_nil; [done| |split; [done|cbn; unfold I64_MAX; lia]|vm_compute; repeat split; discriminate].
    cbn. unfold field_fits. cbn. unfold USIZE_MAX, U64_MAX, MIB. lia. }
  split; [right; by exists []|].
  assert (Zlen (field_bytes data) = 1 + Zlen data) as Hf.
  { pose proof (Zlen_nonneg data). unfold field_bytes. rewrite (proj2 (Z.leb_le _ _)) by (unfold TNS_MAX_SHORT_LENGTH; lia). rewrite Zlen_cons. lia. }
  unfold admits. split; [done|]. unfold answer_bytes. cbn [map concat part_bytes].
  rewrite !Zlen_app, !Zlen_cons, !Zlen_app, Hf, Hl', Hkb, ?Zlen_nil. change (Zlen (ub4_bytes 0)) with 1. change (Zlen (ub2_bytes 0)) with 1.
  cbn. unfold I64_MAX, MIB. lia.
Qed.

Lemma lob_streams_over_messages_witness :
  let units := [[72]; [226; 130; 172]; [33]] in
  let reset := λ _ _, Err StreamEnded in
  (@read_to_end _ _ (session_server (clob_server 24 limits_DEFAULT units) reset false 24 limits_DEFAULT)
     (lob_reader_new (mkLob 112 1 [7; 8] 3 8132) 3, (254, [], O))).1 = Ok [72; 226; 130; 172; 33] ∧
  (@read_to_string _ _ (session_server (clob_server 24 limits_DEFAULT units) reset false 24 limits_DEFAULT)
     (clob_reader_new (mkLob 112 1 [7; 8] 3 8132) 3, (254, [], O))).1 = Ok [72; 226; 130; 172; 33].
Proof.
  apply (lob_streams_over_messages (clob_server 24 limits_DEFAULT [[72]; [226; 130; 172]; [33]]) (λ _ _, Err StreamEnded) false 24 limits_DEFAULT
           [[72]; [226; 130; 172]; [33]] (λ _, True) 2 (mkLob 112 1 [7; 8] 3 8132) 3 254 O).
  - exact clob_server_serves.
  - vm_compute. discriminate.
  - reflexivity.
  - vm_compute. discriminate.
  - vm_compute. discriminate.
  - apply (bool_decide_unpack _). vm_compute. exact I.
  - exact I.
  - reflexivity.
  - vm_compute. discriminate.
Defined.
