(* ===== verification/DirectPath.v ===== *)
(** * Direct path load ([oracledb-protocol/src/dpl.rs], [oracledb/src/lib.rs])

    Rows go to the server as a stream of pieces: at most 255 segments and 65520 bytes each,
    a value that does not fit split over pieces.  Lengths of vectors are below
    [isize::MAX], so that adding to them cannot overflow. *)

From S2P Require Import Prelude.
From S2P Require Import Protocol.
From S2P Require Import Limits.
From S2P Require Import Writer.
From S2P Require Import Reader.
From S2P Require Import Layout.
From S2P Require Import Datetime.
From S2P Require Import Number.
From S2P Require Import ShapeCache.
From S2P Require Import Binds.
From S2P Require Import StatementCache.
From S2P Require Import Utf.
From S2P Require Import ServerError.
From S2P Require Import Fetch.
From S2P Require Import Execute.
From S2P Require Import LobMessages.

Definition TNS_FUNC_DIRECT_PATH_PREPARE : Z := 128.
Definition TNS_FUNC_DIRECT_PATH_LOAD_STREAM : Z := 129.
Definition TNS_FUNC_DIRECT_PATH_OP : Z := 130.
Definition TNS_DP_INTERFACE_VERSION : Z := 400.
Definition TNS_DP_STREAM_VERSION : Z := 400.
Definition TNS_DPP_OP_CODE_LOAD : Z := 1.
Definition TNS_DP_OP_ABORT : Z := 1.
Definition TNS_DP_OP_FINISH : Z := 2.
Definition TNS_DPP_IN_INDEX_INTERFACE_VERSION : nat := 0.
Definition TNS_DPP_IN_INDEX_STREAM_VERSION : nat := 1.
Definition TNS_DPP_IN_INDEX_LOCK_WAIT : nat := 14.
Definition TNS_DPP_KW_INDEX_OBJECT_NAME : Z := 1.
Definition TNS_DPP_KW_INDEX_SCHEMA_NAME : Z := 3.
Definition TNS_DPP_KW_INDEX_COLUMN_NAME : Z := 4.
Definition TNS_DPP_KW_INDEX_NFOBJ_OID_POS : nat := 11.
Definition TNS_DPP_OUT_INDEX_CURSOR : nat := 3.
Definition TNS_DPP_IN_VALUES_SENT : nat := TNS_DPP_IN_INDEX_LOCK_WAIT + 1.
Definition TNS_DPLS_ROW_HEADER_FAST_PIECE : Z := 16.
Definition TNS_DPLS_ROW_HEADER_FAST_ROW : Z := 32.
Definition TNS_DPLS_ROW_HEADER_FIRST : Z := 8.
Definition TNS_DPLS_ROW_HEADER_LAST : Z := 4.
Definition TNS_DPLS_ROW_HEADER_SPLIT_WITH_PREV : Z := 2.
Definition TNS_DPLS_ROW_HEADER_SPLIT_WITH_NEXT : Z := 1.
Definition TNS_DPLS_MAX_MESSAGE_SIZE : Z := 1073728895.
Definition TNS_DPLS_MAX_SHORT_LENGTH : Z := 250.
Definition TNS_DPLS_MAX_PIECE_SIZE : Z := 65520.
Definition TNS_DPLS_LONG_LENGTH_INDICATOR : Z := 254.
Definition TNS_NULL_LENGTH_INDICATOR : Z := 255.

(** ** Prepare *)

Definition write_keyword_param (index : Z) (value : chars) : WriterM () :=
  let bytes := as_bytes value in
  len ← lift (ok_or (try_range 0 U16_MAX (Zlen bytes)) (InvalidPacketLength (Zlen bytes) 0));
  _ ← emit [write_ub2 0; write_ub2 len];
  _ ← write_bytes_with_length bytes;
  modify (write_ub2 index).

Definition in_values : list Z :=
  <[TNS_DPP_IN_INDEX_LOCK_WAIT := 1]> (<[TNS_DPP_KW_INDEX_NFOBJ_OID_POS := 65535]>
    (<[TNS_DPP_IN_INDEX_STREAM_VERSION := TNS_DP_STREAM_VERSION]>
      (<[TNS_DPP_IN_INDEX_INTERFACE_VERSION := TNS_DP_INTERFACE_VERSION]> (repeat 0 TNS_DPP_IN_VALUES_SENT)))).

Fixpoint write_column_names (names : list chars) : WriterM () :=
  match names with
  | [] => mret ()
  | name :: names => _ ← write_keyword_param TNS_DPP_KW_INDEX_COLUMN_NAME name; write_column_names names
  end.

Definition build_direct_path_prepare_payload_with_version (schema_name table_name : chars) (column_names : list chars)
  (seq ttc_field_version : Z) : Res bytes :=
  build (
    n ← lift (ok_or (try_range 0 U32_MAX (Zlen column_names + 2)) (InvalidPacketLength (Zlen column_names) 0));
    _ ← modify (write_function_header TNS_FUNC_DIRECT_PATH_PREPARE seq ttc_field_version);
    _ ← emit [write_ub4 TNS_DPP_OP_CODE_LOAD; write_u8 1; write_ub4 n; write_u8 1; write_ub2 (Z.of_nat TNS_DPP_IN_VALUES_SENT);
              write_u8 1; write_u8 1; write_u8 1; write_u8 1; write_u8 1; write_u8 1];
    _ ← write_keyword_param TNS_DPP_KW_INDEX_SCHEMA_NAME schema_name;
    _ ← write_keyword_param TNS_DPP_KW_INDEX_OBJECT_NAME table_name;
    _ ← write_column_names column_names;
    emit (map write_ub4 in_values)).

Definition build_direct_path_prepare_payload (schema_name table_name : chars) (column_names : list chars) (seq : Z) : Res bytes :=
  build_direct_path_prepare_payload_with_version schema_name table_name column_names seq TNS_CCAP_FIELD_VERSION_23_1_EXT_1.

Record DirectPathPrepareResult := mkPrepared {
  column_metadata : list ColumnMetadata;
  dp_cursor_id : Z;
  out_values : list Z
}.

Definition set_type (t cs : Z) (c : ColumnMetadata) : ColumnMetadata :=
  mkColumn (name c) t cs (precision c) (scale c) (buffer_size c) (max_size c) (nulls_allowed c) (is_json c) (is_oson c)
    (object_schema c) (object_type_name c) (is_array c) (vector_dimensions c) (vector_format c) (vector_flags c)
    (domain_schema c) (domain_name c) (annotations c).

Definition apply_direct_path_metadata_overrides (c : ColumnMetadata) (charset_id : Z) : ColumnMetadata :=
  if ora_type_num c =? ORA_TYPE_NUM_CLOB then
    set_type ORA_TYPE_NUM_LONG (if (csfrm c =? CS_FORM_IMPLICIT) && (800 <=? charset_id) then CS_FORM_NCHAR else csfrm c) c
  else if ora_type_num c =? ORA_TYPE_NUM_BLOB then set_type ORA_TYPE_NUM_LONG_RAW 0 c
  else c.

Fixpoint read_ub4s (n : nat) : ReaderM (list Z) :=
  match n with
  | O => mret []
  | S n => v ← read_ub4; vs ← read_ub4s n; mret (v :: vs)
  end.

Section Answers.
Context (ttc_field_version charset_id : Z).

Fixpoint prepared_columns (n : nat) : ReaderM (list ColumnMetadata) :=
  match n with
  | O => mret []
  | S n =>
      c ← parse_column_metadata ttc_field_version;
      rest ← prepared_columns n;
      mret (apply_direct_path_metadata_overrides c charset_id :: rest)
  end.

Definition parse_prepare_return_parameters : ReaderM DirectPathPrepareResult :=
  num_columns ← read_ub4;
  _ ← limit_check check_columns num_columns;
  _ ← reserve_checked num_columns check_columns;
  columns ← prepared_columns (Z.to_nat num_columns);
  num_params ← read_ub2;
  if negb (num_params =? 0) then throw (TtcDecode "unexpected parameters in direct path prepare response")
  else
    out_values_length ← read_ub2;
    _ ← limit_check check_length_prefixed_elements out_values_length;
    _ ← reserve_checked out_values_length check_length_prefixed_elements;
    values ← read_ub4s (Z.to_nat out_values_length);
    cursor_id ← lift (ok_or (values !! TNS_DPP_OUT_INDEX_CURSOR) (TtcDecode "direct path prepare response missing cursor id"));
    cursor_id ← lift (ok_or (try_range 0 U16_MAX cursor_id) (TtcDecode "direct path cursor id out of range"));
    mret (mkPrepared columns cursor_id values).

Definition prepare_message (result : option DirectPathPrepareResult) : ReaderM (option DirectPathPrepareResult * bool) :=
  message_type ← read_u8;
  if message_type =? TNS_MSG_TYPE_PARAMETER then r ← parse_prepare_return_parameters; mret (Some r, false)
  else
    stop ← common_message ttc_field_version message_type;
    match stop with
    | Some stop => mret (result, stop)
    | None => unknown_type message_type
    end.

Definition parse_direct_path_prepare_response_with_limits (payload : bytes) (l : ProtocolLimits) : Res DirectPathPrepareResult :=
  reader ← with_limits payload l;
  result ← (while_remaining prepare_message (S (length payload)) None reader).1;
  ok_or result (TtcDecode "direct path prepare response did not contain return parameters").

Definition simple_message (s : ()) : ReaderM (() * bool) :=
  message_type ← read_u8;
  if message_type =? TNS_MSG_TYPE_PARAMETER then n ← read_ub2; _ ← read_ub4s (Z.to_nat n); mret (s, false)
  else
    stop ← common_message ttc_field_version message_type;
    match stop with
    | Some stop => mret (s, stop)
    | None => unknown_type message_type
    end.

Definition parse_direct_path_simple_response_with_limits (payload : bytes) (l : ProtocolLimits) : Res () :=
  reader ← with_limits payload l;
  (while_remaining simple_message (S (length payload)) () reader).1.
End Answers.

Definition parse_direct_path_prepare_response (payload : bytes) (v charset_id : Z) : Res DirectPathPrepareResult :=
  parse_direct_path_prepare_response_with_limits v charset_id payload limits_DEFAULT.
Definition parse_direct_path_simple_response (payload : bytes) (v : Z) : Res () :=
  parse_direct_path_simple_response_with_limits v payload limits_DEFAULT.

(** ** Finish and abort *)

Definition build_direct_path_op_payload_with_version (cursor_id op_code seq ttc_field_version : Z) : bytes :=
  into_bytes (foldl (λ w f, f w) (write_function_header TNS_FUNC_DIRECT_PATH_OP seq ttc_field_version writer_new)
    [write_ub4 op_code; write_ub2 cursor_id; write_u8 0; write_ub4 0; write_u8 1; write_u8 1]).
Definition build_direct_path_op_payload (cursor_id op_code seq : Z) : bytes :=
  build_direct_path_op_payload_with_version cursor_id op_code seq TNS_CCAP_FIELD_VERSION_23_1_EXT_1.

(** ** Pieces *)

Inductive DirectPathColumnValue :=
| DNull
| DBytes (b : bytes)
| DNumber (text : chars)
| DBinaryDouble (bits : Z)
| DBinaryFloat (bits : Z)
| DDateTime (year month day hour minute second nanosecond : Z)
| DBoolean (b : bool).

Record DirectPathPiece := mkPiece { dp_flags : Z; dp_num_segments : Z; dp_data : bytes }.

Definition is_fast_row (p : DirectPathPiece) : bool := negb (Z.land (dp_flags p) TNS_DPLS_ROW_HEADER_FAST_ROW =? 0).
Definition header_length (p : DirectPathPiece) : Z := if is_fast_row p then 4 else 2.

Definition write_to (p : DirectPathPiece) : WriterM () :=
  _ ← modify (write_u8 (dp_flags p));
  _ ← (if is_fast_row p then
         total ← lift (ok_or (try_range 0 U16_MAX (Zlen (dp_data p) + header_length p))
                         (TtcDecode "direct path fast piece exceeds 16-bit length"));
         modify (write_u16be total)
       else mret ());
  _ ← modify (write_u8 (dp_num_segments p));
  modify (write_raw (dp_data p)).

Record PieceState := mkPieceState {
  is_first : bool;
  is_last : bool;
  is_split_with_prev : bool;
  is_split_with_next : bool;
  is_fast : bool;
  num_segments : Z
}.
Definition piece_default : PieceState := mkPieceState false false false false false 0.

Record DirectPathPieceBuffer := mkPieceBuffer {
  pieces : list DirectPathPiece;
  total_piece_length : Z;
  piece_data : bytes;
  current : option PieceState
}.
Abbreviation PieceM := (ST ProtocolError DirectPathPieceBuffer).

Definition buffer_new : DirectPathPieceBuffer := mkPieceBuffer [] 0 [] None.
Definition set_current (c : option PieceState) (b : DirectPathPieceBuffer) : DirectPathPieceBuffer :=
  mkPieceBuffer (pieces b) (total_piece_length b) (piece_data b) c.
Definition push_data (d : bytes) (b : DirectPathPieceBuffer) : DirectPathPieceBuffer :=
  mkPieceBuffer (pieces b) (total_piece_length b) (piece_data b ++ d) (current b).

(** [if let Some(state) = self.current.as_mut() { .. }] *)
Definition on_current (f : PieceState → PieceState) (b : DirectPathPieceBuffer) : DirectPathPieceBuffer :=
  set_current (f <$> current b) b.

Definition bump_segments : DirectPathPieceBuffer → DirectPathPieceBuffer :=
  on_current (λ s, mkPieceState (is_first s) (is_last s) (is_split_with_prev s) (is_split_with_next s) (is_fast s)
                     (Z.min (num_segments s + 1) U16_MAX)).
Definition set_last (s : PieceState) : PieceState :=
  mkPieceState (is_first s) true (is_split_with_prev s) (is_split_with_next s) (is_fast s) (num_segments s).
Definition set_split_next (s : PieceState) : PieceState :=
  mkPieceState (is_first s) (is_last s) (is_split_with_prev s) true (is_fast s) (num_segments s).
Definition set_slow (s : PieceState) : PieceState :=
  mkPieceState (is_first s) (is_last s) (is_split_with_prev s) (is_split_with_next s) false (num_segments s).

Definition space_left (b : DirectPathPieceBuffer) : Z := sat_sub TNS_DPLS_MAX_PIECE_SIZE (Zlen (piece_data b)).

Definition piece_flags (s : PieceState) : Z :=
  let flags := 0 in
  let flags := if is_first s then Z.lor flags TNS_DPLS_ROW_HEADER_FIRST
               else if is_split_with_prev s then Z.lor flags TNS_DPLS_ROW_HEADER_SPLIT_WITH_PREV else flags in
  let flags := if is_last s then Z.lor flags TNS_DPLS_ROW_HEADER_LAST
               else if is_split_with_next s then Z.lor flags TNS_DPLS_ROW_HEADER_SPLIT_WITH_NEXT else flags in
  if is_first s && is_last s && is_fast s
  then Z.lor flags (Z.lor TNS_DPLS_ROW_HEADER_FAST_ROW TNS_DPLS_ROW_HEADER_FAST_PIECE) else flags.

Definition finalize_piece : PieceM () :=
  c ← gets current;
  match c with
  | None => throw (TtcDecode "direct path piece finalized without an active piece")
  | Some state =>
      _ ← modify (set_current None);
      n ← lift (ok_or (try_range 0 U8_MAX (num_segments state)) (TtcDecode "direct path piece segment count overflow"));
      data ← gets piece_data;
      _ ← modify (λ b, mkPieceBuffer (pieces b) (total_piece_length b) [] (current b));
      let piece := mkPiece (piece_flags state) n data in
      total ← gets total_piece_length;
      new_length ← lift (arith 0 U64_MAX (total + Zlen data + header_length piece));
      if TNS_DPLS_MAX_MESSAGE_SIZE <? new_length then throw DirectPathLoadTooMuchData
      else modify (λ b, mkPieceBuffer (pieces b ++ [piece]) new_length (piece_data b) (current b))
  end.

(** [self.finalize_piece()?; self.current = Some(PieceState::default());] *)
Definition next_piece : PieceM () := _ ← finalize_piece; modify (set_current (Some piece_default)).

Definition start_row : PieceM () :=
  c ← gets current;
  match c with
  | Some _ => throw (TtcDecode "direct path row started before previous row was finished")
  | None => modify (set_current (Some (mkPieceState true false false false true 0)))
  end.

Definition finish_row : PieceM () :=
  c ← gets current;
  match c with
  | None => throw (TtcDecode "direct path row finished without being started")
  | Some _ =>
      _ ← modify (on_current set_last);
      _ ← finalize_piece;
      modify (set_current None)
  end.

Definition write_u8_in_piece (value : Z) : PieceM () :=
  left ← gets space_left;
  _ ← (if left <? 1 then next_piece else mret ());
  modify (push_data [value]).

Definition chunk_image (chunk : bytes) : bytes :=
  TNS_DPLS_LONG_LENGTH_INDICATOR :: to_be_bytes 2 (as_u 16 (Zlen chunk)) ++ chunk.

(** The [while] loop of [write_raw_bytes_and_length]; it returns what is left of the value. *)
Fixpoint split_loop (fuel : nat) (remaining : bytes) : PieceM bytes :=
  match fuel with
  | O => lift Diverge
  | S fuel =>
      left ← gets space_left;
      if left <? Zlen remaining + 3 then
        if left <? 4 then _ ← next_piece; split_loop fuel remaining
        else
          let chunk_len := Z.to_nat (Z.min (left - 3) (Zlen remaining)) in
          let chunk := take chunk_len remaining in
          let remaining := drop chunk_len remaining in
          _ ← modify (push_data (chunk_image chunk));
          _ ← modify (on_current set_split_next);
          _ ← modify bump_segments;
          _ ← finalize_piece;
          _ ← modify (set_current (Some (mkPieceState false false (negb (bool_decide (remaining = []))) false false 0)));
          split_loop fuel remaining
      else mret remaining
  end.

Definition split_fuel (b : bytes) : nat := 2 * length b + 2.

Definition write_raw_bytes_and_length (b : bytes) : PieceM () :=
  if Zlen b <=? TNS_DPLS_MAX_SHORT_LENGTH then
    left ← gets space_left;
    _ ← (if left <? Zlen b + 1 then next_piece else mret ());
    _ ← modify (push_data (as_u 8 (Zlen b) :: b));
    modify bump_segments
  else
    remaining ← split_loop (split_fuel b) b;
    if bool_decide (remaining = []) then mret ()
    else _ ← modify bump_segments; modify (push_data (chunk_image remaining)).

Definition is_fast_dbtype (c : ColumnMetadata) : bool :=
  bool_decide (ora_type_num c ∈ [ORA_TYPE_NUM_VARCHAR; ORA_TYPE_NUM_NUMBER; ORA_TYPE_NUM_BINARY_INTEGER; ORA_TYPE_NUM_CHAR;
    ORA_TYPE_NUM_DATE; ORA_TYPE_NUM_RAW; ORA_TYPE_NUM_BINARY_FLOAT; ORA_TYPE_NUM_BINARY_DOUBLE; ORA_TYPE_NUM_BOOLEAN;
    ORA_TYPE_NUM_TIMESTAMP; ORA_TYPE_NUM_TIMESTAMP_TZ; ORA_TYPE_NUM_TIMESTAMP_LTZ]).

Definition datetime_image (t year month day hour minute second nanosecond : Z) : Res bytes :=
  if t =? ORA_TYPE_NUM_DATE then
    if negb (nanosecond =? 0) then Err (TtcDecode "direct path DATE value has fractional seconds")
    else encode_oracle_date year month day hour minute second
  else if (t =? ORA_TYPE_NUM_TIMESTAMP) || (t =? ORA_TYPE_NUM_TIMESTAMP_LTZ)
  then encode_oracle_timestamp year month day hour minute second nanosecond
  else if t =? ORA_TYPE_NUM_TIMESTAMP_TZ then encode_oracle_timestamp_tz year month day hour minute second nanosecond
  else Err (TtcDecode "direct path datetime sent for non-datetime column").

Definition add_column_value (c : ColumnMetadata) (value : DirectPathColumnValue) (row_num : Z) : PieceM () :=
  let t := ora_type_num c in
  cur ← gets current;
  match cur with
  | None => throw (TtcDecode "direct path column value added outside of a row")
  | Some state =>
      _ ← (if num_segments state =? 255 then next_piece else mret ());
      _ ← (if negb (is_fast_dbtype c) then modify (on_current set_slow) else mret ());
      match value with
      | DNull =>
          if negb (nulls_allowed c) then throw (NullsNotAllowed (text_string (name c)) row_num)
          else _ ← write_u8_in_piece TNS_NULL_LENGTH_INDICATOR; modify bump_segments
      | DBytes b =>
          if negb (bool_decide (t ∈ [ORA_TYPE_NUM_VARCHAR; ORA_TYPE_NUM_CHAR; ORA_TYPE_NUM_LONG; ORA_TYPE_NUM_RAW; ORA_TYPE_NUM_LONG_RAW]))
          then throw (TtcDecode "direct path byte value sent for non-character column")
          else if (0 <? max_size c) && (max_size c <? Zlen b)
          then throw (ValueTooLarge (Zlen b) (max_size c) (text_string (name c)) row_num)
          else write_raw_bytes_and_length b
      | DNumber text =>
          if negb ((t =? ORA_TYPE_NUM_NUMBER) || (t =? ORA_TYPE_NUM_BINARY_INTEGER))
          then throw (TtcDecode "direct path number value sent for non-number column")
          else encoded ← lift (encode_number_text (as_bytes text)); write_raw_bytes_and_length encoded
      | DBinaryDouble bits =>
          if negb (t =? ORA_TYPE_NUM_BINARY_DOUBLE) then throw (TtcDecode "direct path binary double sent for other column type")
          else write_raw_bytes_and_length (encode_binary_double bits)
      | DBinaryFloat bits =>
          if negb (t =? ORA_TYPE_NUM_BINARY_FLOAT) then throw (TtcDecode "direct path binary float sent for other column type")
          else write_raw_bytes_and_length (encode_binary_float bits)
      | DDateTime year month day hour minute second nanosecond =>
          encoded ← lift (datetime_image t year month day hour minute second nanosecond); write_raw_bytes_and_length encoded
      | DBoolean b =>
          if negb (t =? ORA_TYPE_NUM_BOOLEAN) then throw (TtcDecode "direct path boolean sent for non-boolean column")
          else write_raw_bytes_and_length (if b then [1; 1] else [0])
      end
  end.

Record DirectPathStream := mkStream { st_pieces : list DirectPathPiece; st_total : Z }.

(** [DirectPathPieceBuffer::finish] *)
Definition buffer_finish (b : DirectPathPieceBuffer) : Res DirectPathStream :=
  match current b with
  | Some _ => Err (TtcDecode "direct path stream finished mid-row")
  | None =>
      total ← ok_or (try_range 0 U32_MAX (total_piece_length b)) DirectPathLoadTooMuchData;
      Ok (mkStream (pieces b) total)
  end.

Fixpoint add_values (cs : list ColumnMetadata) (row : list DirectPathColumnValue) (row_num : Z) : PieceM () :=
  match cs, row with
  | c :: cs, v :: row => _ ← add_column_value c v row_num; add_values cs row row_num
  | _, _ => mret ()
  end.

Fixpoint add_rows (cs : list ColumnMetadata) (rows : list (list DirectPathColumnValue)) (first_row_num row_index : Z) : PieceM () :=
  match rows with
  | [] => mret ()
  | row :: rows =>
      if negb (Zlen row =? Zlen cs) then throw (TtcDecode "direct path row width does not match column metadata")
      else
        row_num ← lift (arith 0 U64_MAX (first_row_num + row_index));
        _ ← start_row;
        _ ← add_values cs row row_num;
        _ ← finish_row;
        add_rows cs rows first_row_num (row_index + 1)
  end.

Definition encode_direct_path_rows (cs : list ColumnMetadata) (rows : list (list DirectPathColumnValue)) (first_row_num : Z)
  : Res DirectPathStream :=
  let '(r, b) := add_rows cs rows first_row_num 0 buffer_new in
  _ ← r; buffer_finish b.

Fixpoint write_pieces (ps : list DirectPathPiece) : WriterM () :=
  match ps with
  | [] => mret ()
  | p :: ps => _ ← write_to p; write_pieces ps
  end.

Definition build_direct_path_load_stream_payload_with_version (cursor_id : Z) (stream : DirectPathStream)
  (seq ttc_field_version : Z) : Res bytes :=
  build (
    _ ← modify (write_function_header TNS_FUNC_DIRECT_PATH_LOAD_STREAM seq ttc_field_version);
    _ ← emit [write_ub2 cursor_id; write_u8 1; write_ub4 (st_total stream); write_ub4 TNS_DP_STREAM_VERSION; write_u8 0;
              write_ub4 0; write_u8 1; write_u8 1];
    write_pieces (st_pieces stream)).
Definition build_direct_path_load_stream_payload (cursor_id : Z) (stream : DirectPathStream) (seq : Z) : Res bytes :=
  build_direct_path_load_stream_payload_with_version cursor_id stream seq TNS_CCAP_FIELD_VERSION_23_1_EXT_1.
