(* ===== verification/DirectPathWire.v ===== *)
(** * Direct path streams say the rows

    The pieces the encoder makes, read by a reader of the piece format, are the rows: every
    value whole and in its place, however it was split.  The prepare request and the answers
    are treated like those of [LobWire]. *)

From S2P Require Import Prelude.
From S2P Require Import Protocol.
From S2P Require Import Limits.
From S2P Require Import Writer.
From S2P Require Import Reader.
From S2P Require Import ReaderSafety.
From S2P Require Import Wire.
From S2P Require Import Layout.
From S2P Require Import Calendar.
From S2P Require Import Datetime.
From S2P Require Import Number.
From S2P Require Import NumberWire.
From S2P Require Import NumberText.
From S2P Require Import Sql.
From S2P Require Import ShapeCache.
From S2P Require Import Binds.
From S2P Require Import Utf.
From S2P Require Import ServerError.
From S2P Require Import Fetch.
From S2P Require Import OsonSafety.
From S2P Require Import FetchSafety.
From S2P Require Import LobMessages.
From S2P Require Import ExecuteWire.
From S2P Require Import LobWire.
From S2P Require Import DirectPath.

(** ** The piece format, read *)

Abbreviation cell := (option bytes).

Definition flag_set (flags bit : Z) : bool := negb (Z.land flags bit =? 0).

Definition read_segment : ReaderM cell :=
  n ← read_u8;
  if n =? TNS_NULL_LENGTH_INDICATOR then mret None
  else if n =? TNS_DPLS_LONG_LENGTH_INDICATOR then len ← read_u16be; b ← read_raw len; mret (Some b)
  else b ← read_raw n; mret (Some b).

Fixpoint read_segments (n : nat) : ReaderM (list cell) :=
  match n with
  | O => mret []
  | S n => s ← read_segment; ss ← read_segments n; mret (s :: ss)
  end.

(** A piece: its flags and segments; the length in front of a fast row counts the piece. *)
Definition read_piece_parts : ReaderM (Z * option Z * list cell) :=
  flags ← read_u8;
  total ← (if flag_set flags TNS_DPLS_ROW_HEADER_FAST_ROW then t ← read_u16be; mret (Some t) else mret None);
  n ← read_u8;
  ss ← read_segments (Z.to_nat n);
  mret (flags, total, ss).

Definition check_length (x : Z * option Z * list cell) (used : Z) : ReaderM (Z * list cell) :=
  let '(flags, total, ss) := x in
  if bool_decide (total = Some used ∨ total = None) then mret (flags, ss) else throw (TtcDecode "length of a fast row").

Definition read_piece : ReaderM (Z * list cell) :=
  start ← gets pos;
  x ← read_piece_parts;
  finish ← gets pos;
  check_length x (finish - start).

(** The pieces of a stream of [left] bytes. *)
Fixpoint read_pieces (fuel : nat) (left : Z) : ReaderM (list (Z * list cell)) :=
  match fuel with
  | O => if left =? 0 then mret [] else throw (TtcDecode "length of the stream")
  | S fuel =>
      if left <=? 0 then (if left =? 0 then mret [] else throw (TtcDecode "length of the stream"))
      else
        start ← gets pos;
        p ← read_piece;
        finish ← gets pos;
        ps ← read_pieces fuel (left - (finish - start));
        mret (p :: ps)
  end.

(** A segment that continues the last value is added to it. *)
Definition join (row : list cell) (split : bool) (ss : list cell) : list cell :=
  if split then
    match ss, reverse row with
    | Some y :: ss, Some x :: before => reverse before ++ Some (x ++ y) :: ss
    | [], _ => row
    | _, _ => row ++ ss
    end
  else row ++ ss.

(** The rows of a sequence of pieces.  [row] is the row that is open, with whether its last
    piece was split; a sequence in which the flags do not agree has none. *)
Fixpoint assemble (row : option (list cell * bool)) (ps : list (Z * list cell)) : option (list (list cell)) :=
  match ps with
  | [] => match row with None => Some [] | Some _ => None end
  | (flags, ss) :: ps =>
      let first := flag_set flags TNS_DPLS_ROW_HEADER_FIRST in
      let split := flag_set flags TNS_DPLS_ROW_HEADER_SPLIT_WITH_PREV in
      opened ← (match row with
                | None => if first && negb split then Some ss else None
                | Some (row, next) => if negb first && eqb split next then Some (join row split ss) else None
                end);
      let next := flag_set flags TNS_DPLS_ROW_HEADER_SPLIT_WITH_NEXT in
      if flag_set flags TNS_DPLS_ROW_HEADER_LAST
      then if next then None else rows ← assemble None ps; Some (opened :: rows)
      else assemble (Some (opened, next)) ps
  end.

(** What a column receives of a value. *)
Definition column_image (c : ColumnMetadata) (value : DirectPathColumnValue) (row_num : Z) : Res cell :=
  let t := ora_type_num c in
  let bytes_of (r : Res bytes) := b ← r; Ok (Some b) in
  match value with
  | DNull => if nulls_allowed c then Ok None else Err (NullsNotAllowed (text_string (name c)) row_num)
  | DBytes b =>
      if negb (is_text_type t || is_raw_type t)
      then Err (TtcDecode "direct path byte value sent for non-character column")
      else if (0 <? max_size c) && (max_size c <? Zlen b)
      then Err (ValueTooLarge (Zlen b) (max_size c) (text_string (name c)) row_num)
      else Ok (Some b)
  | DNumber text =>
      if is_number t then bytes_of (encode_number_text (as_bytes text))
      else Err (TtcDecode "direct path number value sent for non-number column")
  | DBinaryDouble bits =>
      if t =? ORA_TYPE_NUM_BINARY_DOUBLE then Ok (Some (encode_binary_double bits))
      else Err (TtcDecode "direct path binary double sent for other column type")
  | DBinaryFloat bits =>
      if t =? ORA_TYPE_NUM_BINARY_FLOAT then Ok (Some (encode_binary_float bits))
      else Err (TtcDecode "direct path binary float sent for other column type")
  | DDateTime year month day hour minute second nanosecond =>
      bytes_of (datetime_image t year month day hour minute second nanosecond)
  | DBoolean b =>
      if t =? ORA_TYPE_NUM_BOOLEAN then Ok (Some (if b then [1; 1] else [0]))
      else Err (TtcDecode "direct path boolean sent for non-boolean column")
  end.

(** ** Segments and pieces *)

Inductive Seg := SNull | SShort (b : bytes) | SLong (b : bytes).

Definition seg_value (s : Seg) : cell := match s with SNull => None | SShort b | SLong b => Some b end.
Definition seg_enc (s : Seg) : bytes :=
  match s with
  | SNull => [TNS_NULL_LENGTH_INDICATOR]
  | SShort b => Zlen b :: b
  | SLong b => TNS_DPLS_LONG_LENGTH_INDICATOR :: to_be_bytes 2 (Zlen b) ++ b
  end.
Definition seg_ok (s : Seg) : Prop :=
  match s with SNull => True | SShort b => Zlen b <= 250 | SLong b => Zlen b <= 65517 end.
Definition seg_data (ss : list Seg) : bytes := concat (map seg_enc ss).

(** A piece, as the state it was closed in and its segments. *)
Abbreviation spiece := (PieceState * list Seg)%type.
Definition piece_of (p : spiece) : DirectPathPiece := mkPiece (piece_flags p.1) (Zlen p.2) (seg_data p.2).
Definition seen (p : spiece) : Z * list cell := (piece_flags p.1, map seg_value p.2).
Definition piece_fine (p : spiece) : Prop :=
  num_segments p.1 = Zlen p.2 ∧ Zlen p.2 <= 255 ∧ Forall seg_ok p.2 ∧ Zlen (seg_data p.2) <= TNS_DPLS_MAX_PIECE_SIZE.
Definition stream_length (ps : list DirectPathPiece) : Z := sum_by (λ p, Zlen (dp_data p) + header_length p) ps.

Lemma seg_data_app a b : seg_data (a ++ b) = seg_data a ++ seg_data b.
Proof. unfold seg_data. by rewrite map_app, concat_app. Qed.

Lemma flags_seen s : let f := piece_flags s in
  0 <= f <= 255 ∧ flag_set f TNS_DPLS_ROW_HEADER_FIRST = is_first s ∧
  flag_set f TNS_DPLS_ROW_HEADER_SPLIT_WITH_PREV = negb (is_first s) && is_split_with_prev s ∧
  flag_set f TNS_DPLS_ROW_HEADER_LAST = is_last s ∧
  flag_set f TNS_DPLS_ROW_HEADER_SPLIT_WITH_NEXT = negb (is_last s) && is_split_with_next s ∧
  flag_set f TNS_DPLS_ROW_HEADER_FAST_ROW = is_first s && is_last s && is_fast s.
Proof. destruct s as [[] [] [] [] [] n]; vm_compute; repeat split; discriminate. Qed.

Lemma read_segment_parses lim s : 65520 <= max_response_bytes lim → seg_ok s →
  parses lim read_segment (seg_enc s) (seg_value s).
Proof.
  intros Hm Hs. destruct s as [|b|b]; cbn [seg_enc seg_value seg_ok] in *; unfold read_segment.
  - eapply parses_last; [apply read_u8_parses|]. apply parses_ret.
  - pose proof (Zlen_nonneg b). eapply (parses_bind lim _ _ [Zlen b]); [apply read_u8_parses|].
    rewrite (proj2 (Z.eqb_neq _ _)), (proj2 (Z.eqb_neq _ _))
      by (unfold TNS_NULL_LENGTH_INDICATOR, TNS_DPLS_LONG_LENGTH_INDICATOR; lia).
    eapply parses_last; [apply read_raw_parses; lia|apply parses_ret].
  - pose proof (Zlen_nonneg b). eapply (parses_bind lim _ _ [_]); [apply read_u8_parses|]. cbn [Z.eqb Pos.eqb TNS_NULL_LENGTH_INDICATOR TNS_DPLS_LONG_LENGTH_INDICATOR].
    eapply parses_bind; [apply read_u16be_parses; unfold U16_MAX; lia|].
    eapply parses_last; [apply read_raw_parses; lia|apply parses_ret].
Qed.

Lemma read_segments_parses lim ss : 65520 <= max_response_bytes lim → Forall seg_ok ss →
  parses lim (read_segments (length ss)) (seg_data ss) (map seg_value ss).
Proof.
  intros Hm. induction 1 as [|s ss Hs _ IH]; [apply parses_ret|]. cbn [length read_segments map]. unfold seg_data. cbn [map concat].
  eapply parses_bind; [by apply read_segment_parses|]. eapply parses_last; [exact IH|apply parses_ret].
Qed.

Definition piece_enc (p : spiece) : bytes :=
  piece_flags p.1 :: (if is_fast_row (piece_of p) then to_be_bytes 2 (Zlen (seg_data p.2) + 4) else []) ++ Zlen p.2 :: seg_data p.2.

Lemma piece_enc_length p : Zlen (piece_enc p) = Zlen (seg_data p.2) + header_length (piece_of p).
Proof.
  unfold piece_enc, header_length. rewrite Zlen_cons, Zlen_app, Zlen_cons. destruct (is_fast_row (piece_of p)); rewrite ?Zlen_to_be_bytes, ?Zlen_nil; lia.
Qed.

Lemma write_to_run p w : piece_fine p → write_to (piece_of p) w = (Ok (), write_raw (piece_enc p) w).
Proof.
  intros (_ & Hn & _ & Hd). unfold TNS_DPLS_MAX_PIECE_SIZE in Hd. pose proof (Zlen_nonneg (seg_data p.2)). unfold write_to, piece_enc, header_length.
  st_run. destruct (is_fast_row (piece_of p)); cbn [piece_of dp_flags dp_num_segments dp_data].
  - rewrite try_range_in by (unfold U16_MAX; lia). st_run. unfold write_u16be, write_u8. by rewrite !write_raw_raw.
  - st_run. unfold write_u8. by rewrite !write_raw_raw.
Qed.

Lemma parses_pos {A} lim (m : ReaderM A) enc a {B} (k : A → Z → ReaderM B) enc' b :
  parses lim m enc a → parses lim (k a (Zlen enc)) enc' b →
  parses lim (start ← gets pos; x ← m; finish ← gets pos; k x (finish - start)) (enc ++ enc') b.
Proof.
  intros Hm Hk pre rest Hlen. rewrite <- app_assoc in *. rewrite st_bindE. unfold gets at 1. rewrite st_bindE, Hm by done.
  rewrite st_bindE. unfold gets at 1. cbn [rd pos]. rewrite Zlen_app. replace (Zlen pre + Zlen enc - Zlen pre) with (Zlen enc) by lia.
  rewrite Hk by (by rewrite <- app_assoc). by rewrite <- app_assoc.
Qed.

Lemma read_piece_parses lim p : 65520 <= max_response_bytes lim → piece_fine p →
  parses lim read_piece (piece_enc p) (seen p).
Proof.
  intros Hm Hp. pose proof Hp as (_ & Hn & Hs & Hd). unfold TNS_DPLS_MAX_PIECE_SIZE in Hd. pose proof (Zlen_nonneg (seg_data p.2)).
  assert (parses lim read_piece_parts (piece_enc p)
    (piece_flags p.1, (if is_fast_row (piece_of p) then Some (Zlen (piece_enc p)) else None), map seg_value p.2)) as Hparts.
  { rewrite piece_enc_length. unfold header_length. unfold piece_enc at 1. eapply (parses_bind lim _ _ [_]); [apply read_u8_parses|].
    change (flag_set (piece_flags p.1) TNS_DPLS_ROW_HEADER_FAST_ROW) with (is_fast_row (piece_of p)).
    destruct (is_fast_row (piece_of p)).
    - eapply parses_bind; [eapply parses_last; [apply read_u16be_parses; unfold U16_MAX; lia|apply parses_ret]|].
      eapply (parses_bind lim _ _ [_]); [apply read_u8_parses|]. assert (Z.to_nat (Zlen p.2) = length p.2) as -> by (unfold Zlen; lia).
      eapply parses_last; [by apply read_segments_parses|apply parses_ret].
    - eapply parses_bind; [apply parses_ret|]. eapply (parses_bind lim _ _ [_]); [apply read_u8_parses|]. assert (Z.to_nat (Zlen p.2) = length p.2) as -> by (unfold Zlen; lia).
      eapply parses_last; [by apply read_segments_parses|apply parses_ret]. }
  rewrite <- (app_nil_r (piece_enc p)). apply (parses_pos lim _ _ _ check_length [] _ Hparts). unfold check_length.
  rewrite bool_decide_true by (destruct (is_fast_row (piece_of p)); [by left|by right]). apply parses_ret.
Qed.

Lemma write_pieces_run ps w : Forall piece_fine ps →
  write_pieces (map piece_of ps) w = (Ok (), write_raw (concat (map piece_enc ps)) w).
Proof.
  intros H. revert w. induction H as [|p ps Hp _ IH]; intros w; [by rewrite write_raw_nil|]. cbn [map write_pieces concat].
  rewrite st_bindE, write_to_run, IH by done. by rewrite write_raw_raw.
Qed.

Lemma stream_length_enc ps : stream_length (map piece_of ps) = Zlen (concat (map piece_enc ps)).
Proof.
  unfold stream_length. induction ps as [|p ps IH]; [done|]. cbn [map concat]. rewrite sum_by_cons, IH, Zlen_app, piece_enc_length. done.
Qed.

Lemma piece_enc_nonempty p : 0 < Zlen (piece_enc p).
Proof. unfold piece_enc. rewrite Zlen_cons. pose proof (Zlen_nonneg ((if is_fast_row (piece_of p) then to_be_bytes 2 (Zlen (seg_data p.2) + 4) else []) ++ Zlen p.2 :: seg_data p.2)). lia. Qed.

Lemma read_pieces_parses lim ps : 65520 <= max_response_bytes lim → Forall piece_fine ps → ∀ fuel,
  Zlen (concat (map piece_enc ps)) <= Z.of_nat fuel →
  parses lim (read_pieces fuel (Zlen (concat (map piece_enc ps)))) (concat (map piece_enc ps)) (map seen ps).
Proof.
  intros Hm. induction 1 as [|p ps Hp _ IH]; intros fuel Hf; [destruct fuel; apply parses_ret|].
  cbn [map concat] in *. rewrite Zlen_app in *. pose proof (piece_enc_nonempty p). pose proof (Zlen_nonneg (concat (map piece_enc ps))).
  destruct fuel as [|fuel]; [lia|]. cbn [read_pieces]. rewrite (proj2 (Z.leb_gt _ _)) by lia.
  apply (parses_pos lim read_piece (piece_enc p) (seen p) (λ x used, ps' ← read_pieces fuel (Zlen (piece_enc p) + Zlen (concat (map piece_enc ps)) - used); mret (x :: ps'))).
  - by apply read_piece_parses.
  - replace (Zlen (piece_enc p) + _ - _) with (Zlen (concat (map piece_enc ps))) by lia.
    eapply parses_last; [apply IH; lia|apply parses_ret].
Qed.

(** ** The encoder keeps a picture of the row *)

(** The pieces of one row so far, the values they say, and whether the last one is split. *)
Inductive part : list spiece → list cell → bool → Prop :=
| part_first st ss : is_first st = true → part [(st, ss)] (map seg_value ss) (is_split_with_next st)
| part_next ps st ss row split :
    part ps row split → is_first st = false → is_split_with_prev st = split →
    part (ps ++ [(st, ss)]) (join row split (map seg_value ss)) (is_split_with_next st).

Lemma part_assemble ps row split : part ps row split → Forall (λ p, is_last p.1 = false) ps →
  ∀ rest, assemble None (map seen ps ++ rest) = assemble (Some (row, split)) rest.
Proof.
  induction 1 as [st ss Hf|ps st ss row split _ IH Hf Hp]; intros Hl rest.
  - apply Forall_cons_iff in Hl as [Hl _]. cbn in Hl. destruct (flags_seen st) as (_ & H1 & H2 & H3 & H4 & _).
    cbn [map app seen assemble fst snd]. rewrite H1, H2, H3, H4, Hf, Hl. done.
  - apply Forall_app in Hl as [Hps Hl]. apply Forall_cons_iff in Hl as [Hl _]. cbn in Hl.
    rewrite map_app, <- app_assoc, IH by done. destruct (flags_seen st) as (_ & H1 & H2 & H3 & H4 & _).
    cbn [map app seen assemble fst snd]. rewrite H1, H2, H3, H4, Hf, Hl, Hp. cbn. by rewrite eqb_reflx.
Qed.

Lemma join_app row split a b : split = false ∨ a ≠ [] → join row split (a ++ b) = join row split a ++ b.
Proof.
  intros H. unfold join. destruct split; [|by rewrite app_assoc]. destruct H as [H|H]; [done|].
  destruct a as [|[y|] a]; [done| |]; cbn [app]; [destruct (reverse row) as [|[x|] before]|];
    rewrite <- app_assoc; done.
Qed.

Lemma join_split row x y ss : join (row ++ [Some x]) true (Some y :: ss) = row ++ Some (x ++ y) :: ss.
Proof. unfold join. rewrite reverse_snoc. by rewrite reverse_involutive. Qed.

(** A segment more in the open piece, whose other flags stay. *)
Lemma part_more closed st ss row s st' :
  part (closed ++ [(st, ss)]) row false → is_first st' = is_first st → is_split_with_prev st' = is_split_with_prev st →
  is_split_with_prev st = false ∨ ss ≠ [] →
  part (closed ++ [(st', ss ++ [s])]) (row ++ [seg_value s]) (is_split_with_next st').
Proof.
  intros Hp Hf Hv Hq. inversion Hp as [st0 ss0 Hf0 Heq Hrow Hn|ps st0 ss0 row0 split Hp0 Hf0 Hv0 Heq Hrow Hn].
  - destruct closed as [|c closed]; [|by destruct closed]. injection Heq as -> ->.
    change [seg_value s] with (map seg_value [s]). rewrite <- map_app. apply (part_first st' (ss ++ [s])). congruence.
  - apply app_inj_tail in Heq as [-> Heq]. injection Heq as -> ->.
    replace (join row0 split (map seg_value ss) ++ [seg_value s]) with (join row0 split (map seg_value (ss ++ [s]))).
    + apply part_next; [done|congruence|congruence].
    + rewrite map_app. apply join_app. destruct Hq as [Hq|Hq]; [left; congruence|right; by destruct ss].
Qed.

(** The first segment of a piece that continues a value. *)
Lemma part_continue closed st row x y s st' :
  part (closed ++ [(st, [])]) (row ++ [Some x]) false → is_first st' = false → is_first st = false →
  is_split_with_prev st' = true → is_split_with_prev st = true → seg_value s = Some y →
  part (closed ++ [(st', [s])]) (row ++ [Some (x ++ y)]) (is_split_with_next st').
Proof.
  intros Hp Hf' Hf Hv' Hv Hs. inversion Hp as [st0 ss0 Hf0 Heq Hrow Hn|ps st0 ss0 row0 split Hp0 Hf0 Hv0 Heq Hrow Hn].
  - destruct closed as [|c closed]; [|by destruct closed]. injection Heq as -> ->. congruence.
  - apply app_inj_tail in Heq as [-> Heq]. injection Heq as -> ->. assert (split = true) as -> by congruence. cbn in Hrow.
    rewrite <- (join_split row x y []), <- Hs. apply (part_next closed st' [s] _ true); [by rewrite <- Hrow|done|done].
Qed.

(** What a step of the encoder does: it succeeds with [Q], or fails with an error of [E]. *)
Definition outcome {A} (m : PieceM A) (b : DirectPathPieceBuffer) (Q : A → DirectPathPieceBuffer → Prop)
  (E : ProtocolError → Prop) : Prop :=
  match m b with (Ok a, b') => Q a b' | (Err e, _) => E e | _ => False end.

Lemma outcome_bind {A B} (m : PieceM A) (k : A → PieceM B) b Q R E :
  outcome m b Q E → (∀ a b', Q a b' → outcome (k a) b' R E) → outcome (m ≫= k) b R E.
Proof. unfold outcome. rewrite st_bindE. destruct (m b) as [[a|e| |] b']; [|done..]. intros Hq Hk. by apply Hk. Qed.
Lemma outcome_modify f b (Q : () → DirectPathPieceBuffer → Prop) E : Q () (f b) → outcome (modify f) b Q E.
Proof. done. Qed.
Lemma outcome_weaken {A} (m : PieceM A) b Q (E E' : ProtocolError → Prop) : outcome m b Q E → (∀ e, E e → E' e) → outcome m b Q E'.
Proof. unfold outcome. destruct (m b) as [[a|e| |] b']; auto. Qed.

Lemma outcome_impl {A} (m : PieceM A) b (Q Q' : A → DirectPathPieceBuffer → Prop) E :
  outcome m b Q E → (∀ a b', Q a b' → Q' a b') → outcome m b Q' E.
Proof. unfold outcome. destruct (m b) as [[a|e| |] b']; auto. Qed.
(** A look at the buffer. *)
Lemma outcome_gets {A B} (f : DirectPathPieceBuffer → A) (k : A → PieceM B) b Q E : outcome (k (f b)) b Q E → outcome (x ← gets f; k x) b Q E.
Proof. done. Qed.

Definition too_much (e : ProtocolError) : Prop := e = DirectPathLoadTooMuchData.

Definition counted (b : DirectPathPieceBuffer) : Prop :=
  total_piece_length b = stream_length (pieces b) ∧ 0 <= total_piece_length b <= TNS_DPLS_MAX_MESSAGE_SIZE.

(** Behind the pieces of earlier rows, the row has closed pieces and an open one. *)
Definition open_at (old : list DirectPathPiece) (closed : list spiece) (st : PieceState) (ss : list Seg) (b : DirectPathPieceBuffer) : Prop :=
  pieces b = old ++ map piece_of closed ∧ counted b ∧ current b = Some st ∧ piece_data b = seg_data ss ∧
  Forall (λ p, piece_fine p ∧ is_last p.1 = false) closed ∧ piece_fine (st, ss).

Lemma finalize_piece_run old closed st ss b : open_at old closed st ss b →
  outcome finalize_piece b (λ _ b', pieces b' = old ++ map piece_of (closed ++ [(st, ss)]) ∧ counted b' ∧ current b' = None ∧ piece_data b' = []) too_much.
Proof.
  intros (Hp & [Ht Hb] & Hc & Hd & _ & Hn & Hs & _ & Hm). cbn [fst snd] in *. pose proof (Zlen_nonneg ss). unfold TNS_DPLS_MAX_PIECE_SIZE in Hm.
  unfold outcome, finalize_piece. st_run. rewrite Hc. st_run. rewrite Hn, try_range_in by (unfold U8_MAX; lia). st_run. cbn [set_current piece_data total_piece_length].
  pose proof (Zlen_nonneg (seg_data ss)). rewrite Hd. set (piece := mkPiece _ _ _).
  assert (2 <= header_length piece <= 4) by (unfold header_length; destruct (is_fast_row piece); lia).
  unfold TNS_DPLS_MAX_MESSAGE_SIZE in *. rewrite arith_in by (unfold U64_MAX; lia). st_run. cbn [pieces piece_data current].
  destruct (Z.ltb_spec 1073728895 (total_piece_length b + Zlen (seg_data ss) + header_length piece)) as [Hbig|Hsmall]; [done|]. st_run.
  cbn [pieces piece_data current total_piece_length set_current]. split; [by rewrite map_app, Hp, <- app_assoc|]. split; [|done].
  unfold counted. cbn [pieces total_piece_length set_current]. unfold TNS_DPLS_MAX_MESSAGE_SIZE. split; [|lia].
  unfold stream_length in *. rewrite sum_by_app, <- Ht, sum_by_cons, sum_by_nil. unfold piece. cbn [dp_data]. lia.
Qed.

(** Closing the open piece and opening another. *)
Lemma reopen_run old closed st ss st' b : open_at old closed st ss b → is_last st = false → num_segments st' = 0 →
  outcome (_ ← finalize_piece; modify (set_current (Some st'))) b (λ _ b', open_at old (closed ++ [(st, ss)]) st' [] b') too_much.
Proof.
  intros Ho Hl Hn. eapply outcome_bind; [by apply (finalize_piece_run old closed st ss)|]. intros [] b' (Hp & Hc & _ & Hd).
  apply outcome_modify. split; [done|]. split; [done|]. split; [done|]. split; [done|].
  destruct Ho as (_ & _ & _ & _ & Hcl & Hf). split; [apply Forall_app; split; [done|by constructor]|].
  split; [done|]. split; [by vm_compute|]. split; [constructor|]. by vm_compute.
Qed.

Lemma open_space old closed st ss b : open_at old closed st ss b →
  space_left b = TNS_DPLS_MAX_PIECE_SIZE - Zlen (seg_data ss) ∧ 0 <= space_left b.
Proof.
  intros (_ & _ & _ & Hd & _ & _ & _ & _ & Hm). cbn [snd] in Hm. unfold space_left, sat_sub. rewrite Hd. lia.
Qed.

Definition bumped (st : PieceState) : PieceState :=
  mkPieceState (is_first st) (is_last st) (is_split_with_prev st) (is_split_with_next st) (is_fast st) (Z.min (num_segments st + 1) U16_MAX).

(** A segment is added to the open piece; the state may change otherwise. *)
Lemma push_seg old closed st ss b s st' b' : open_at old closed st ss b → Zlen ss <= 254 → seg_ok s → Zlen (seg_enc s) <= space_left b →
  pieces b' = pieces b → total_piece_length b' = total_piece_length b → piece_data b' = piece_data b ++ seg_enc s →
  current b' = Some st' → num_segments st' = num_segments (bumped st) →
  open_at old closed st' (ss ++ [s]) b'.
Proof.
  intros Ho Hroom Hs Hfit Hp Ht Hd Hc Hn. pose proof (open_space _ _ _ _ _ Ho) as [Hsp _].
  destruct Ho as (Hp0 & [Ht0 Hb0] & Hc0 & Hd0 & Hcl & Hn0 & Hz & Hok & Hm). cbn [fst snd] in *. pose proof (Zlen_nonneg ss).
  split; [congruence|]. split; [unfold counted; by rewrite Hp, Ht|]. split; [done|].
  split; [rewrite seg_data_app, Hd, Hd0; unfold seg_data; cbn; by rewrite app_nil_r|]. split; [done|].
  unfold piece_fine. cbn [fst snd]. rewrite Hn, seg_data_app, !Zlen_app. cbn [bumped num_segments]. rewrite Hn0.
  assert (Zlen (seg_data [s]) = Zlen (seg_enc s)) as -> by (unfold seg_data; cbn; by rewrite app_nil_r).
  change (Zlen [s]) with 1. unfold U16_MAX. split; [lia|]. split; [lia|]. split; [apply Forall_app; split; [done|by constructor]|lia].
Qed.

(** The open row says [row], with at most [n] segments in its open piece; nothing is split. *)
Definition row_at (n : Z) (old : list DirectPathPiece) (row : list cell) (b : DirectPathPieceBuffer) : Prop :=
  ∃ closed st ss, open_at old closed st ss b ∧ part (closed ++ [(st, ss)]) row false ∧ Zlen ss <= n ∧
    is_last st = false ∧ is_split_with_next st = false ∧ (is_split_with_prev st = false ∨ ss ≠ []).

Lemma part_reopen closed st ss row : part (closed ++ [(st, ss)]) row false →
  part ((closed ++ [(st, ss)]) ++ [(piece_default, [])]) row false.
Proof. intros H. apply (part_next _ piece_default []) in H; [|done..]. unfold join in H. cbn in H. by rewrite app_nil_r in H. Qed.

Lemma next_piece_run n old row b : row_at n old row b →
  outcome next_piece b (λ _ b', row_at 0 old row b' ∧ space_left b' = TNS_DPLS_MAX_PIECE_SIZE) too_much.
Proof.
  intros (closed & st & ss & Ho & Hp & _ & Hl & _ & _).
  eapply outcome_impl; [exact (reopen_run old closed st ss piece_default b Ho Hl eq_refl)|]. intros [] b' H. split; [|by destruct (open_space _ _ _ _ _ H) as [-> _]].
  exists (closed ++ [(st, ss)]), piece_default, []. split; [done|]. split; [by apply part_reopen|]. split; [done|]. split; [done|]. split; [done|by left].
Qed.

Lemma row_at_more n m old row b : row_at n old row b → n <= m → row_at m old row b.
Proof. intros (closed & st & ss & Ho & Hp & Hn & H) Hm. exists closed, st, ss. split; [done|]. split; [done|]. split; [lia|done]. Qed.

(** Room for [k] bytes is made by opening a piece. *)
Lemma make_room k old row b : k <= TNS_DPLS_MAX_PIECE_SIZE → row_at 254 old row b →
  outcome (if space_left b <? k then next_piece else mret ()) b (λ _ b', row_at 254 old row b' ∧ k <= space_left b') too_much.
Proof.
  intros Hk Hr. destruct (Z.ltb_spec (space_left b) k); [|by split].
  eapply outcome_impl; [exact (next_piece_run 254 old row b Hr)|]. intros [] b' [H1 H2]. split; [eapply row_at_more; [exact H1|lia]|lia].
Qed.

Lemma add_seg old row b s b' : row_at 254 old row b → seg_ok s → Zlen (seg_enc s) <= space_left b →
  pieces b' = pieces b → total_piece_length b' = total_piece_length b → piece_data b' = piece_data b ++ seg_enc s →
  current b' = bumped <$> current b → row_at 255 old (row ++ [seg_value s]) b'.
Proof.
  intros (closed & st & ss & Ho & Hp & Hn & Hl & Hx & Hq) Hs Hfit Hps Ht Hd Hc. pose proof Ho as (_ & _ & Hcur & _). rewrite Hcur in Hc. cbn in Hc.
  exists closed, (bumped st), (ss ++ [s]). split; [by eapply push_seg|]. split; [|split; [rewrite Zlen_app; change (Zlen [s]) with 1; lia|]].
  - pose proof (part_more closed st ss row s (bumped st) Hp eq_refl eq_refl Hq) as H. cbn [bumped is_split_with_next] in H. by rewrite Hx in H.
  - split; [done|]. split; [done|]. right. by destruct ss.
Qed.

Lemma null_run old row b : row_at 254 old row b →
  outcome (_ ← write_u8_in_piece TNS_NULL_LENGTH_INDICATOR; modify bump_segments) b (λ _ b', row_at 255 old (row ++ [None]) b') too_much.
Proof.
  intros Hr. eapply (outcome_bind _ _ _ (λ _ b', ∃ b1, row_at 254 old row b1 ∧ 1 <= space_left b1 ∧ b' = push_data [TNS_NULL_LENGTH_INDICATOR] b1)).
  - apply outcome_gets. apply (outcome_bind _ _ b _ _ _ (make_room 1 old row b ltac:(done) Hr)).
    intros [] b1 [H1 H2]. by exists b1.
  - intros [] b' (b1 & H1 & H2 & ->). apply outcome_modify. by apply (add_seg old row b1 SNull).
Qed.

Lemma short_run old row b x : row_at 254 old row b → Zlen x <= TNS_DPLS_MAX_SHORT_LENGTH →
  outcome (write_raw_bytes_and_length x) b (λ _ b', row_at 255 old (row ++ [Some x]) b') too_much.
Proof.
  intros Hr Hx. pose proof (Zlen_nonneg x). unfold write_raw_bytes_and_length. rewrite (proj2 (Z.leb_le _ _)) by done. unfold TNS_DPLS_MAX_SHORT_LENGTH in Hx.
  apply outcome_gets. apply (outcome_bind _ _ b _ _ _ (make_room (Zlen x + 1) old row b ltac:(unfold TNS_DPLS_MAX_PIECE_SIZE; lia) Hr)).
  intros [] b1 [H1 H2]. unfold outcome. st_run. rewrite as_u_in by lia. apply (add_seg old row b1 (SShort x)); try done.
  cbn [seg_enc]. rewrite Zlen_cons. lia.
Qed.

(** A value is being written and [x] of it has been: nothing, or the chunks up to a split. *)
Definition pending (old : list DirectPathPiece) (row : list cell) (x : bytes) (b : DirectPathPieceBuffer) : Prop :=
  ∃ closed st ss row', open_at old closed st ss b ∧ part (closed ++ [(st, ss)]) row' false ∧ Zlen ss <= 254 ∧
    is_last st = false ∧ is_split_with_next st = false ∧
    ((x = [] ∧ row' = row ∧ (is_split_with_prev st = false ∨ ss ≠ [])) ∨
     (ss = [] ∧ is_first st = false ∧ is_split_with_prev st = true ∧ row' = row ++ [Some x])).

(** A chunk is written into the open piece, whose state becomes [f] of what it was. *)
Lemma pending_push old row x b y f b' : pending old row x b → Zlen y <= 65517 → Zlen y + 3 <= space_left b →
  pieces b' = pieces b → total_piece_length b' = total_piece_length b → piece_data b' = piece_data b ++ chunk_image y →
  current b' = f <$> current b →
  (∀ st, is_first (f st) = is_first st ∧ is_last (f st) = is_last st ∧ is_split_with_prev (f st) = is_split_with_prev st ∧
         num_segments (f st) = num_segments (bumped st)) →
  ∃ closed st ss, open_at old closed (f st) (ss ++ [SLong y]) b' ∧ is_last (f st) = false ∧ Zlen ss <= 254 ∧ is_split_with_next st = false ∧
    part (closed ++ [(f st, ss ++ [SLong y])]) (row ++ [Some (x ++ y)]) (is_split_with_next (f st)).
Proof.
  intros (closed & st & ss & row' & Ho & Hp & Hn & Hl & Hx & Hcase) Hy Hfit Hps Ht Hd Hc Hf. destruct (Hf st) as (F1 & F2 & F3 & F4).
  pose proof Ho as (_ & _ & Hcur & _). rewrite Hcur in Hc. cbn in Hc. pose proof (Zlen_nonneg y). exists closed, st, ss. split.
  { eapply push_seg; [exact Ho|done|exact Hy| |done|done| |done|done].
    - cbn [seg_enc]. rewrite Zlen_cons, Zlen_app, Zlen_to_be_bytes. lia.
    - rewrite Hd. unfold chunk_image. by rewrite as_u_in by lia. }
  split; [congruence|]. split; [done|]. split; [done|]. destruct Hcase as [(-> & -> & Hq)|(-> & H1 & H2 & ->)].
  - apply (part_more closed st ss row (SLong y) (f st) Hp F1 F3 Hq).
  - apply (part_continue closed st row x y (SLong y) (f st) Hp); done || congruence.
Qed.

Lemma set_split_bumped st : let f := λ st, bumped (set_split_next st) in
  is_first (f st) = is_first st ∧ is_last (f st) = is_last st ∧ is_split_with_prev (f st) = is_split_with_prev st ∧
  num_segments (f st) = num_segments (bumped st).
Proof. done. Qed.

Definition full_piece (b : DirectPathPieceBuffer) : Z := if space_left b <? 4 then 1 else 0.

Lemma split_loop_run old row whole : ∀ fuel x remaining b,
  pending old row x b → x ++ remaining = whole → remaining ≠ [] → 2 * Zlen remaining + full_piece b < Z.of_nat fuel →
  outcome (split_loop fuel remaining) b
    (λ rest b', ∃ x', pending old row x' b' ∧ x' ++ rest = whole ∧ rest ≠ [] ∧ Zlen rest + 3 <= space_left b') too_much.
Proof.
  induction fuel as [|fuel IH]; intros x remaining b Hp Hw Hne Hfuel.
  { pose proof (Zlen_nonneg remaining). unfold full_piece in Hfuel. destruct (_ <? 4); lia. }
  cbn [split_loop]. apply outcome_gets. destruct (Z.ltb_spec (space_left b) (Zlen remaining + 3)); [|by exists x].
  assert (0 < Zlen remaining) by (destruct remaining; [done|]; rewrite Zlen_cons; pose proof (Zlen_nonneg remaining); lia).
  unfold full_piece in Hfuel. destruct (Z.ltb_spec (space_left b) 4).
  - destruct Hp as (closed & st & ss & row' & Ho & Hp & Hn & Hl & Hx & Hcase).
    assert (x = [] ∧ row' = row) as [-> ->].
    { destruct Hcase as [(-> & -> & _)|(-> & _)]; [done|]. destruct (open_space _ _ _ _ _ Ho) as [Hsp _]. change (Zlen (seg_data [])) with 0 in Hsp.
      unfold TNS_DPLS_MAX_PIECE_SIZE in Hsp. lia. }
    eapply outcome_bind; [exact (reopen_run old closed st ss piece_default b Ho Hl eq_refl)|]. intros [] b' Ho'.
    destruct (open_space _ _ _ _ _ Ho') as [Hsp _]. change (Zlen (seg_data [])) with 0 in Hsp. apply (IH []); [|done|done|].
    + exists (closed ++ [(st, ss)]), piece_default, [], row. split; [done|]. split; [by apply part_reopen|]. split; [done|]. split; [done|].
      split; [done|]. left. split; [done|]. split; [done|]. by left.
    + unfold full_piece. rewrite Hsp. change (_ <? 4) with false. cbn [Z.of_nat] in Hfuel. lia.
  - pose proof Hp as (closed0 & st0 & ss0 & _ & Ho0 & _). destruct (open_space _ _ _ _ _ Ho0) as [Hsp0 _].
    pose proof (Zlen_nonneg (seg_data ss0)). unfold TNS_DPLS_MAX_PIECE_SIZE in Hsp0. cbv zeta. rewrite Z.min_l by lia. set (n := Z.to_nat (space_left b - 3)).
    assert (Zlen (take n remaining) = space_left b - 3) as Hlen by (unfold Zlen in *; rewrite length_take; lia).
    assert (Zlen (drop n remaining) = Zlen remaining - (space_left b - 3)) as Hrest by (unfold Zlen in *; rewrite length_drop; lia).
    assert (drop n remaining ≠ []) as Hne' by (intros E; rewrite E in Hrest; change (Zlen (@nil Z)) with 0 in Hrest; lia).
    rewrite (bool_decide_eq_false_2 _ Hne'). cbn [negb]. set (b1 := bump_segments (on_current set_split_next (push_data (chunk_image (take n remaining)) b))).
    destruct (pending_push old row x b (take n remaining) (λ st, bumped (set_split_next st)) b1 Hp ltac:(lia) ltac:(lia)
      eq_refl eq_refl eq_refl) as (closed & st & ss & Ho & Hl & _ & _ & Hpart); [|exact set_split_bumped|].
    { unfold b1, bump_segments, on_current. cbn [current set_current push_data]. by destruct (current b). }
    cbn [bumped set_split_next is_split_with_next] in Hpart.
    set (st1 := mkPieceState false false true false false 0).
    assert (outcome (_ ← finalize_piece; _ ← modify (set_current (Some st1)); split_loop fuel (drop n remaining)) b1
      (λ rest b', ∃ x', pending old row x' b' ∧ x' ++ rest = whole ∧ rest ≠ [] ∧ Zlen rest + 3 <= space_left b') too_much) as Hrun; [|exact Hrun].
    eapply outcome_bind; [apply (finalize_piece_run old closed _ _ b1 Ho)|]. intros [] b2 (Hq1 & Hq2 & _ & Hq4).
    assert (open_at old (closed ++ [(bumped (set_split_next st), ss ++ [SLong (take n remaining)])]) st1 [] (set_current (Some st1) b2)) as Ho2.
    { destruct Ho as (_ & _ & _ & _ & Hcl & Hf). split; [done|]. split; [done|]. split; [done|]. split; [done|].
      split; [apply Forall_app; split; [done|by constructor]|]. split; [done|]. split; [by vm_compute|]. split; [constructor|by vm_compute]. }
    destruct (open_space _ _ _ _ _ Ho2) as [Hsp2 _]. change (Zlen (seg_data [])) with 0 in Hsp2.
    apply (IH (x ++ take n remaining)); [|by rewrite <- app_assoc, take_drop|done|unfold full_piece; rewrite Hsp2; change (_ <? 4) with false; lia]. eexists _, st1, [], _. split; [exact Ho2|]. split; [exact (part_next _ st1 [] _ true Hpart eq_refl eq_refl)|]. split; [done|]. split; [done|]. split; [done|]. right. split; [done|]. split; [done|]. split; [done|]. done.
Qed.

Lemma raw_run old row b x : row_at 254 old row b →
  outcome (write_raw_bytes_and_length x) b (λ _ b', row_at 255 old (row ++ [Some x]) b') too_much.
Proof.
  intros Hr. destruct (Z.le_gt_cases (Zlen x) TNS_DPLS_MAX_SHORT_LENGTH) as [Hx|Hx]; [by apply short_run|].
  unfold write_raw_bytes_and_length. rewrite (proj2 (Z.leb_gt _ _)) by done. unfold TNS_DPLS_MAX_SHORT_LENGTH in Hx.
  destruct Hr as (closed & st & ss & Ho & Hp & Hn & Hl & Hs & Hq).
  eapply outcome_bind; [apply (split_loop_run old row x (split_fuel x) [] x b)|].
  - exists closed, st, ss, row. split; [done|]. split; [done|]. split; [done|]. split; [done|]. split; [done|]. by left.
  - done.
  - by intros ->.
  - unfold split_fuel, full_piece, Zlen. destruct (_ <? 4); lia.
  - intros rest b1 (x' & Hpend & Hwhole & Hne & Hfit). rewrite (bool_decide_eq_false_2 _ Hne).
    set (b2 := push_data (chunk_image rest) (bump_segments b1)).
    assert (Zlen rest <= 65517) as Hmax.
    { destruct Hpend as (c0 & s0 & ss0 & r0 & Ho0 & _). destruct (open_space _ _ _ _ _ Ho0) as [Hsp _]. pose proof (Zlen_nonneg (seg_data ss0)).
      unfold TNS_DPLS_MAX_PIECE_SIZE in Hsp. lia. }
    destruct (pending_push old row x' b1 rest bumped b2 Hpend Hmax Hfit eq_refl eq_refl eq_refl eq_refl) as (c2 & s2 & ss2 & Ho2 & Hl2 & Hn2 & Hs2 & Hp2); [done|].
    rewrite Hwhole in Hp2. cbn [bumped is_split_with_next] in Hp2. rewrite Hs2 in Hp2. change (row_at 255 old (row ++ [Some x]) b2).
    exists c2, (bumped s2), (ss2 ++ [SLong rest]). split; [done|]. split; [done|].
    split; [rewrite Zlen_app; change (Zlen [SLong rest]) with 1; lia|]. split; [done|]. split; [done|]. right. by destruct ss2.
Qed.

Definition refused (r : Res cell) (e : ProtocolError) : Prop := e = DirectPathLoadTooMuchData ∨ r = Err e.

(** The flag of fast rows says nothing of the values. *)
Lemma part_slow closed st ss row split : part (closed ++ [(st, ss)]) row split → part (closed ++ [(set_slow st, ss)]) row split.
Proof.
  intros Hp. inversion Hp as [st0 ss0 Hf0 Heq Hrow Hn|ps st0 ss0 row0 sp Hp0 Hf0 Hv0 Heq Hrow Hn].
  - destruct closed as [|c closed]; [|by destruct closed]. injection Heq as -> ->. exact (part_first (set_slow st) ss Hf0).
  - apply app_inj_tail in Heq as [-> Heq]. injection Heq as -> ->. exact (part_next closed (set_slow st) ss row0 sp Hp0 Hf0 Hv0).
Qed.

Lemma row_slow n old row b : row_at n old row b → row_at n old row (on_current set_slow b).
Proof.
  intros (closed & st & ss & (H1 & H2 & H3 & H4 & H5 & H6) & Hp & H). exists closed, (set_slow st), ss.
  split; [|split; [by apply part_slow|done]]. split; [done|]. split; [done|]. split; [unfold on_current; cbn; by rewrite H3|done].
Qed.

(** The two steps in front of a value: room for a segment, and what the type says. *)
Lemma prepare_value c old row b st : row_at 255 old row b → current b = Some st → ∀ (k : PieceM ()) Q E,
  (∀ e, too_much e → E e) → (∀ b', row_at 254 old row b' → outcome k b' Q E) →
  outcome (_ ← (if num_segments st =? 255 then next_piece else mret ());
           _ ← (if negb (is_fast_dbtype c) then modify (on_current set_slow) else mret ()); k) b Q E.
Proof.
  intros Hr Hcur k Q E HE Hk. eapply (outcome_bind _ _ _ (λ _ b', row_at 254 old row b')).
  - destruct (Z.eqb_spec (num_segments st) 255) as [_|Hn].
    + eapply outcome_weaken; [|exact HE]. eapply outcome_impl; [exact (next_piece_run 255 old row b Hr)|]. intros [] b' [H _]. eapply row_at_more; [exact H|lia].
    + destruct Hr as (closed & st0 & ss & Ho & Hp & Hn0 & H). pose proof Ho as (_ & _ & Hc & _ & _ & Hs & _). cbn in Hs.
      assert (st0 = st) as -> by congruence. exists closed, st, ss. split; [done|]. split; [done|]. split; [lia|done].
  - intros [] b1 H1. eapply (outcome_bind _ _ _ (λ _ b', row_at 254 old row b')); [|intros [] b2 H2; by apply Hk].
    destruct (negb (is_fast_dbtype c)); [by apply row_slow|done].
Qed.

Lemma byte_columns t : bool_decide (t ∈ [ORA_TYPE_NUM_VARCHAR; ORA_TYPE_NUM_CHAR; ORA_TYPE_NUM_LONG; ORA_TYPE_NUM_RAW; ORA_TYPE_NUM_LONG_RAW]) =
  is_text_type t || is_raw_type t.
Proof.
  unfold is_text_type, is_raw_type. destruct (bool_decide_reflect (t ∈ [ORA_TYPE_NUM_VARCHAR; ORA_TYPE_NUM_CHAR; ORA_TYPE_NUM_LONG; ORA_TYPE_NUM_RAW; ORA_TYPE_NUM_LONG_RAW])) as [H|H].
  - rewrite !elem_of_cons, elem_of_nil in H. destruct H as [-> | [-> | [-> | [-> | [-> | []]]]]]; done.
  - symmetry. apply not_true_is_false. intros Ht. apply H. rewrite !elem_of_cons.
    repeat (apply orb_prop in Ht as [Ht|Ht]); apply Z.eqb_eq in Ht; subst t; tauto.
Qed.

(** The fields of a date are unsigned. *)
Definition value_typed (v : DirectPathColumnValue) : Prop :=
  match v with DDateTime _ _ _ hour minute second _ => 0 <= hour ∧ 0 <= minute ∧ 0 <= second | _ => True end.

Lemma date_returns y mo d h mi s : 0 <= h → 0 <= mi → 0 <= s → returns (encode_oracle_date y mo d h mi s).
Proof.
  intros Hh Hmi Hs. unfold encode_oracle_date. destruct (_ || _) eqn:Hc; [done|].
  rewrite !orb_false_iff, !negb_false_iff, !Z.ltb_ge in Hc. destruct Hc as (((((Hy & _) & _) & ?) & ?) & ?).
  unfold valid_oracle_date_year in Hy. apply orb_prop in Hy. rewrite !between_true in Hy. unfold div_t, rem_t.
  pose proof (Z.quot_rem y 100 ltac:(lia)). pose proof (Z.rem_bound_abs y 100 ltac:(lia)).
  unfold i32. rewrite !arith_in by (unfold I32_MIN, I32_MAX, U8_MAX; lia). st_run.
  destruct (try_range 0 U8_MAX (Z.quot y 100 + 100)); [|done]. st_run. by destruct (try_range 0 U8_MAX (Z.rem y 100 + 100)).
Qed.

Lemma datetime_image_returns t y mo d h mi s ns : 0 <= h → 0 <= mi → 0 <= s → returns (datetime_image t y mo d h mi s ns).
Proof.
  intros Hh Hmi Hs. pose proof (date_returns y mo d h mi s Hh Hmi Hs) as Hd. unfold datetime_image.
  destruct (t =? ORA_TYPE_NUM_DATE); [by destruct (negb _)|]. destruct (_ || _).
  - unfold encode_oracle_timestamp. destruct (_ <? _); [done|]. destruct (encode_oracle_date _ _ _ _ _ _); [|done..]. st_run. by destruct (_ =? 0).
  - destruct (_ =? _); [|done]. unfold encode_oracle_timestamp_tz, encode_oracle_timestamp_tz_with_offset. destruct (_ <? _); [done|].
    change (valid_tz_offset_minutes 0) with true. cbn -[encode_oracle_date to_be_bytes]. by destruct (encode_oracle_date _ _ _ _ _ _).
Qed.

Lemma add_value_run c value n old row b : row_at 255 old row b → value_typed value →
  outcome (add_column_value c value n) b
    (λ _ b', ∃ img, column_image c value n = Ok img ∧ row_at 255 old (row ++ [img]) b') (refused (column_image c value n)).
Proof.
  intros Hr Htyped. pose proof Hr as (closed & st & ss & Ho & _). pose proof Ho as (_ & _ & Hc & _).
  unfold add_column_value. cbv zeta. apply outcome_gets. rewrite Hc. apply (prepare_value c old row b st Hr Hc); [by left|]. intros b1 H1.
  assert (∀ (x : bytes), column_image c value n = Ok (Some x) → outcome (write_raw_bytes_and_length x) b1
    (λ _ b', ∃ img, column_image c value n = Ok img ∧ row_at 255 old (row ++ [img]) b') (refused (column_image c value n))) as Hraw.
  { intros x Hx. eapply outcome_weaken; [eapply outcome_impl; [by apply (raw_run old row b1 x)|]|by left]. intros [] b2 H2. by exists (Some x). }
  assert (∀ r : Res bytes, returns r → column_image c value n = (x ← r; Ok (Some x)) →
    outcome (x ← lift r; write_raw_bytes_and_length x) b1
    (λ _ b', ∃ img, column_image c value n = Ok img ∧ row_at 255 old (row ++ [img]) b') (refused (column_image c value n))) as Hcoded.
  { intros r Hret Hx. destruct r as [x|e| |]; [by apply Hraw|by right; rewrite Hx|done..]. }
  destruct value as [|x|text|bits|bits|y mo d h mi s ns|x].
  - destruct (nulls_allowed c) eqn:Hnull; cbn [negb]; [|right; cbn [column_image]; by rewrite Hnull].
    eapply outcome_weaken; [eapply outcome_impl; [by apply null_run|]|by left]. intros [] b2 H2. exists None. cbn [column_image]. by rewrite Hnull.
  - rewrite byte_columns. destruct (is_text_type _ || is_raw_type _) eqn:Ht; cbn [negb]; [|right; cbn [column_image]; by rewrite Ht].
    destruct (_ && _) eqn:Hs; [right; cbn [column_image]; by rewrite Ht, Hs|]. apply Hraw. cbn [column_image]. by rewrite Ht, Hs.
  - change ((ora_type_num c =? ORA_TYPE_NUM_NUMBER) || (ora_type_num c =? ORA_TYPE_NUM_BINARY_INTEGER)) with (is_number (ora_type_num c)).
    destruct (is_number (ora_type_num c)) eqn:Ht; cbn [negb]; [|right; cbn [column_image]; by rewrite Ht].
    apply Hcoded; [|cbn [column_image]; by rewrite Ht].
    pose proof (encode_number_post (as_bytes text)) as Hpost. by destruct (encode_number_text (as_bytes text)).
  - destruct (ora_type_num c =? ORA_TYPE_NUM_BINARY_DOUBLE) eqn:Ht; cbn [negb]; [|right; cbn [column_image]; by rewrite Ht].
    apply Hraw. cbn [column_image]. by rewrite Ht.
  - destruct (ora_type_num c =? ORA_TYPE_NUM_BINARY_FLOAT) eqn:Ht; cbn [negb]; [|right; cbn [column_image]; by rewrite Ht].
    apply Hraw. cbn [column_image]. by rewrite Ht.
  - destruct Htyped as (Hh & Hmi & Hs). apply Hcoded; [by apply datetime_image_returns|done].
  - destruct (ora_type_num c =? ORA_TYPE_NUM_BOOLEAN) eqn:Ht; cbn [negb]; [|right; cbn [column_image]; by rewrite Ht].
    apply Hraw. cbn [column_image]. by rewrite Ht.
Qed.

(** ** Rows *)

Fixpoint row_image (cs : list ColumnMetadata) (row : list DirectPathColumnValue) (n : Z) : Res (list cell) :=
  match cs, row with
  | c :: cs, v :: row => x ← column_image c v n; xs ← row_image cs row n; Ok (x :: xs)
  | _, _ => Ok []
  end.

(** What a table receives of the rows, the first of them numbered [n]; the first value that
    is refused refuses them all. *)
Fixpoint rows_image (cs : list ColumnMetadata) (rows : list (list DirectPathColumnValue)) (n : Z) : Res (list (list cell)) :=
  match rows with
  | [] => Ok []
  | row :: rows =>
      if negb (Zlen row =? Zlen cs) then Err (TtcDecode "direct path row width does not match column metadata")
      else r ← row_image cs row n; rs ← rows_image cs rows (n + 1); Ok (r :: rs)
  end.

Definition refused_rows {A} (r : Res A) (e : ProtocolError) : Prop := e = DirectPathLoadTooMuchData ∨ r = Err e.

Lemma add_values_run n old : ∀ cs row vs b, row_at 255 old vs b → Forall value_typed row →
  outcome (add_values cs row n) b (λ _ b', ∃ xs, row_image cs row n = Ok xs ∧ row_at 255 old (vs ++ xs) b') (refused_rows (row_image cs row n)).
Proof.
  induction cs as [|c cs IH]; intros row vs b Hr Ht; [exists []; by rewrite app_nil_r|].
  destruct row as [|v row]; [exists []; by rewrite app_nil_r|]. apply Forall_cons_iff in Ht as [Hv Ht].
  cbn [add_values row_image]. eapply outcome_bind.
  - eapply outcome_weaken; [apply (add_value_run c v n old vs b Hr Hv)|]. intros e [->|He]; [by left|right; by rewrite He].
  - intros [] b1 (x & Hx & H1). rewrite Hx. cbn [mbind result_bind]. eapply outcome_weaken; [eapply outcome_impl; [apply (IH row (vs ++ [x]) b1 H1 Ht)|]|].
    + intros [] b2 (xs & Hxs & H2). exists (x :: xs). rewrite Hxs. split; [done|]. by rewrite <- app_assoc in H2.
    + intros e [->|He]; [by left|right; by rewrite He].
Qed.

(** Between two rows: the pieces so far say [rows], and what follows is read after them. *)
Definition between_rows (rows : list (list cell)) (b : DirectPathPieceBuffer) : Prop :=
  ∃ ps, pieces b = map piece_of ps ∧ Forall piece_fine ps ∧ counted b ∧ current b = None ∧ piece_data b = [] ∧
    ∀ rest, assemble None (map seen ps ++ rest) = app rows <$> assemble None rest.

Lemma part_last closed st ss vs : part (closed ++ [(st, ss)]) vs false → Forall (λ p, is_last p.1 = false) closed →
  ∀ rest, assemble None (map seen (closed ++ [(set_last st, ss)]) ++ rest) = cons vs <$> assemble None rest.
Proof.
  intros Hp Hcl rest. inversion Hp as [st0 ss0 Hf0 Heq Hrow Hn|ps st0 ss0 row0 sp Hp0 Hf0 Hv0 Heq Hrow Hn].
  - destruct closed as [|c closed]; [|by destruct closed]. injection Heq as -> ->. destruct (flags_seen (set_last st)) as (_ & H1 & H2 & H3 & H4 & _).
    cbn [map app seen assemble fst snd]. rewrite H1, H2, H3, H4. cbn [set_last is_first is_last is_split_with_prev is_split_with_next]. rewrite Hf0. cbn.
    by destruct (assemble None rest).
  - apply app_inj_tail in Heq as [-> Heq]. injection Heq as -> ->. rewrite map_app, <- app_assoc, (part_assemble _ _ _ Hp0 Hcl).
    destruct (flags_seen (set_last st)) as (_ & H1 & H2 & H3 & H4 & _). cbn [map app seen assemble fst snd]. rewrite H1, H2, H3, H4.
    cbn [set_last is_first is_last is_split_with_prev is_split_with_next]. rewrite Hf0, Hv0, ?Hn. destruct sp; cbn; by destruct (assemble None rest).
Qed.

Lemma start_row_run rows b : between_rows rows b →
  outcome start_row b (λ _ b', ∃ ps, Forall piece_fine ps ∧ row_at 255 (map piece_of ps) [] b' ∧
    ∀ rest, assemble None (map seen ps ++ rest) = app rows <$> assemble None rest) too_much.
Proof.
  intros (ps & Hp & Hf & Hc & Hn & Hd & Ha). unfold outcome, start_row. st_run. rewrite Hn. exists ps. split; [done|]. split; [|done].
  exists [], (mkPieceState true false false false true 0), []. split; [|split; [exact (part_first (mkPieceState true false false false true 0) [] eq_refl)|split; [done|]; split; [done|]; split; [done|by left]]].
  split; [by rewrite app_nil_r|]. split; [done|]. split; [done|]. split; [done|]. split; [constructor|].
  split; [done|]. split; [by vm_compute|]. split; [constructor|by vm_compute].
Qed.

Lemma finish_row_run rows ps vs b : Forall piece_fine ps → row_at 255 (map piece_of ps) vs b →
  (∀ rest, assemble None (map seen ps ++ rest) = app rows <$> assemble None rest) →
  outcome finish_row b (λ _ b', between_rows (rows ++ [vs]) b') too_much.
Proof.
  intros Hps (closed & st & ss & Ho & Hp & Hn & Hl & _) Ha. pose proof Ho as (H1 & H2 & H3 & H4 & H5 & H6).
  unfold finish_row. apply outcome_gets. rewrite H3. set (b1 := on_current set_last b).
  assert (open_at (map piece_of ps) closed (set_last st) ss b1) as Ho1.
  { split; [done|]. split; [done|]. split; [unfold b1, on_current; cbn; by rewrite H3|]. done. }
  assert (outcome (_ ← finalize_piece; modify (set_current None)) b1 (λ _ b', between_rows (rows ++ [vs]) b') too_much) as Hrun; [|exact Hrun].
  eapply outcome_bind; [apply (finalize_piece_run _ _ _ _ _ Ho1)|]. intros [] b2 (Q1 & Q2 & Q3 & Q4). apply outcome_modify.
  exists (ps ++ closed ++ [(set_last st, ss)]). split; [cbn; by rewrite map_app|].
  assert (Forall piece_fine closed ∧ Forall (λ p, is_last p.1 = false) closed) as [Hc1 Hc2] by (by apply Forall_and_inv in H5).
  split; [apply Forall_app; split; [done|]; apply Forall_app; split; [done|]; by constructor|]. split; [done|]. split; [done|]. split; [done|].
  intros rest. rewrite map_app, <- app_assoc, Ha, (part_last closed st ss vs Hp Hc2). destruct (assemble None rest); cbn; [|done]. by rewrite <- app_assoc.
Qed.

Lemma add_rows_run cs first : ∀ rows index done b, between_rows done b → Forall (Forall value_typed) rows →
  0 <= first + index → first + index + Zlen rows <= U64_MAX →
  outcome (add_rows cs rows first index) b
    (λ _ b', ∃ xs, rows_image cs rows (first + index) = Ok xs ∧ between_rows (done ++ xs) b') (refused_rows (rows_image cs rows (first + index))).
Proof.
  induction rows as [|row rows IH]; intros index done b Hb Ht Hlo Hhi; [exists []; by rewrite app_nil_r|].
  apply Forall_cons_iff in Ht as [Hv Ht]. rewrite Zlen_cons in Hhi. pose proof (Zlen_nonneg rows).
  cbn [add_rows rows_image]. destruct (negb (Zlen row =? Zlen cs)); [by right|]. rewrite arith_in by lia.
  eapply (outcome_bind (lift _) _ _ (λ n b', n = first + index ∧ b' = b)); [done|]. intros n b0 [-> ->].
  eapply outcome_bind; [eapply outcome_weaken; [apply (start_row_run done b Hb)|by left]|]. intros [] b1 (ps & Hps & H1 & Ha).
  eapply outcome_bind; [eapply outcome_weaken; [apply (add_values_run (first + index) (map piece_of ps) cs row [] b1 H1 Hv)|]|].
  { intros e [->|He]; [by left|right; by rewrite He]. }
  intros [] b2 (xs & Hxs & H2). rewrite Hxs. cbn [mbind result_bind].
  eapply outcome_bind; [eapply outcome_weaken; [apply (finish_row_run done ps xs b2 Hps H2 Ha)|by left]|]. intros [] b3 H3.
  specialize (IH (index + 1) (done ++ [xs]) b3 H3 Ht ltac:(lia) ltac:(lia)). replace (first + (index + 1)) with (first + index + 1) in IH by lia.
  eapply outcome_weaken; [eapply outcome_impl; [exact IH|]|].
  - intros [] b4 (ys & Hys & H4). exists (xs :: ys). rewrite Hys. split; [done|]. by rewrite <- app_assoc in H4.
  - intros e [->|He]; [by left|right; by rewrite He].
Qed.

Lemma between_start : between_rows [] buffer_new.
Proof.
  exists []. split; [done|]. split; [done|]. split; [by repeat split; vm_compute|]. split; [done|]. split; [done|].
  intros rest. cbn. by destruct (assemble None rest).
Qed.

(** What a stream is: pieces that fit the wire and say the rows. *)
Definition says (xs : list (list cell)) (stream : DirectPathStream) : Prop :=
  ∃ ps, st_pieces stream = map piece_of ps ∧ Forall piece_fine ps ∧ st_total stream = stream_length (st_pieces stream) ∧
    0 <= st_total stream <= TNS_DPLS_MAX_MESSAGE_SIZE ∧ assemble None (map seen ps) = Some xs.

Lemma encode_rows_run cs rows n : Forall (Forall value_typed) rows → 0 <= n → n + Zlen rows <= U64_MAX →
  match encode_direct_path_rows cs rows n with
  | Ok stream => ∃ xs, rows_image cs rows n = Ok xs ∧ says xs stream
  | Err e => refused_rows (rows_image cs rows n) e
  | _ => False
  end.
Proof.
  intros Ht Hn Hm. pose proof (add_rows_run cs n rows 0 [] buffer_new between_start Ht ltac:(lia) ltac:(lia)) as H. rewrite Z.add_0_r in H.
  unfold encode_direct_path_rows, outcome in *. destruct (add_rows cs rows n 0 buffer_new) as [[[]|e| |] b]; [|done..].
  destruct H as (xs & Hxs & ps & Hp & Hf & [Hc1 Hc2] & Hcur & _ & Ha). rewrite res_bindE. unfold buffer_finish. rewrite Hcur.
  unfold TNS_DPLS_MAX_MESSAGE_SIZE in Hc2. rewrite try_range_in by (unfold U32_MAX; lia). st_run. exists xs. split; [done|].
  exists ps. split; [done|]. split; [done|]. split; [done|]. split; [done|]. specialize (Ha []). rewrite app_nil_r in Ha. rewrite Ha. cbn. by rewrite app_nil_r.
Qed.

(** The reader of a load-stream call. *)
Definition stream_kinds : list FieldKind := [FUB2; FU8; FUB4; FUB4; FU8; FUB4; FU8; FU8].
Definition read_load_stream (v : Z) : ReaderM (Z * Z * Z * Z * list (Z * list cell)) :=
  m ← read_message_start v;
  h ← read_fields stream_kinds;
  ps ← read_pieces (Z.to_nat (nth 2 h 0)) (nth 2 h 0);
  mret (m, nth 0 h 0, ps).

(** A request in which this reader finds a load for a cursor, and in it these rows. *)
Definition load_request (lim : ProtocolLimits) (v seq cursor : Z) (xs : list (list cell)) (payload : bytes) : Prop :=
  ∃ ps, parses lim (read_load_stream v) payload ((TNS_MSG_TYPE_FUNCTION, TNS_FUNC_DIRECT_PATH_LOAD_STREAM, seq), cursor, ps) ∧ assemble None ps = Some xs.

Lemma load_stream_built lim v seq cursor stream xs : 65520 <= max_response_bytes lim → 0 <= seq <= 255 → 0 <= cursor <= U16_MAX →
  says xs stream →
  ∃ payload, build_direct_path_load_stream_payload_with_version cursor stream seq v = Ok payload ∧ load_request lim v seq cursor xs payload.
Proof.
  intros Hm Hseq Hcur (ps & Hp & Hf & Ht & Hb & Ha). unfold TNS_DPLS_MAX_MESSAGE_SIZE in Hb.
  set (fields := [(FUB2, cursor); (FU8, 1); (FUB4, st_total stream); (FUB4, TNS_DP_STREAM_VERSION); (FU8, 0); (FUB4, 0); (FU8, 1); (FU8, 1)]).
  assert (Forall in_range fields) as Hr by (unfold fields, TNS_DP_STREAM_VERSION; ranges).
  exists (start_bytes TNS_MSG_TYPE_FUNCTION TNS_FUNC_DIRECT_PATH_LOAD_STREAM seq v ++ layout fields ++ concat (map piece_enc ps)). split.
  - apply build_bytes. intros w. st_run. rewrite (proj1 (header_start _ _ _ _)).
    match goal with |- context [emit _ ?w'] => change (emit _ w') with (emit (map put fields) w') end. rewrite emit_layout by done. st_run.
    rewrite Hp, write_pieces_run by done. by rewrite !write_raw_raw, ?app_assoc.
  - exists (map seen ps). split; [|done]. unfold read_load_stream. eapply parses_bind; [apply start_parses; done || lia|].
    eapply parses_bind; [apply (fields_parse lim ltac:(lia) fields Hr)|]. unfold fields. cbn [map snd nth].
    rewrite Hp, stream_length_enc in Ht. rewrite Ht. eapply parses_last; [apply read_pieces_parses; [done|done|pose proof (Zlen_nonneg (concat (map piece_enc ps))); lia]|].
    apply parses_ret.
Qed.

(** C11: A direct path stream says the rows it was made of.  Encoding a batch never panics and
    always ends; it fails with the error of the first value its column refuses, or when the
    message would be too long.  When it succeeds the load-stream call is built without error
    at every field version, and a reader of the piece format finds the cursor, a total length
    that is the length of the pieces, pieces of at most 255 segments whose first, last and
    split flags agree with each other, and in them every row: each value whole and in its
    column, however long it is and wherever pieces were cut. *)
Theorem direct_path_rows_roundtrip lim cs rows n cursor seq v :
  65520 <= max_response_bytes lim → 0 <= seq <= 255 → 0 <= cursor <= U16_MAX →
  Forall (Forall value_typed) rows → 0 <= n → n + Zlen rows <= U64_MAX →
  match encode_direct_path_rows cs rows n with
  | Ok stream => ∃ xs payload, rows_image cs rows n = Ok xs ∧
      build_direct_path_load_stream_payload_with_version cursor stream seq v = Ok payload ∧
      load_request lim v seq cursor xs payload
  | Err e => e = DirectPathLoadTooMuchData ∨ rows_image cs rows n = Err e
  | _ => False
  end.
Proof.
  intros Hm Hseq Hcur Ht Hn Hmax. pose proof (encode_rows_run cs rows n Ht Hn Hmax) as H.
  destruct (encode_direct_path_rows cs rows n) as [stream|e| |]; [|done..]. destruct H as (xs & Hxs & Hsays).
  destruct (load_stream_built lim v seq cursor stream xs Hm Hseq Hcur Hsays) as (payload & Hb & Hr). by exists xs, payload.
Qed.

(** ** Answers *)

Lemma read_ub4s_safe n : safe 0 (read_ub4s n) (λ _, True).
Proof.
  induction n as [|n IH]; cbn [read_ub4s]; [by safe_run|]. safe_next. eapply (safe_seq _ 0 _ _ (λ _, True)); [exact IH|]. intros vs _. by safe_run.
Qed.

Lemma prepared_columns_safe v cs n : safe 0 (prepared_columns v cs n) (λ _, True).
Proof.
  induction n as [|n IH]; cbn [prepared_columns]; [by safe_run|]. safe_next. eapply (safe_seq _ 0 _ _ (λ _, True)); [exact IH|]. intros vs _. by safe_run.
Qed.

Definition prepared_ok (r : DirectPathPrepareResult) : Prop := 0 <= dp_cursor_id r <= U16_MAX.

Lemma return_values_safe v cs : safe 0 (parse_prepare_return_parameters v cs) prepared_ok.
Proof.
  unfold parse_prepare_return_parameters. do 3 safe_next.
  eapply (safe_seq _ 0 _ _ (λ _, True)); [apply prepared_columns_safe|]. intros columns _. safe_next. safe_next; [by safe_run|]. do 3 safe_next.
  eapply (safe_seq _ 0 _ _ (λ _, True)); [apply read_ub4s_safe|]. intros values _.
  eapply (safe_seq _ 0 _ _ (λ _, True)); [apply safe_lift; by destruct (values !! _)|]. intros c _.
  eapply (safe_seq _ 0 _ _ (λ c, 0 <= c <= U16_MAX)); [apply safe_lift|].
  { destruct (try_range 0 U16_MAX c) eqn:Er; [|done]. apply try_range_some in Er as [-> ?]. done. }
  intros id Hid. by apply safe_done; [lia|].
Qed.

Definition result_fine (r : option DirectPathPrepareResult) : Prop := match r with Some r => prepared_ok r | None => True end.

Lemma shared_safe {S} v t (s : S) (I : S → Prop) : I s →
  safe 0 (stop ← common_message v t; match stop with Some stop => mret (s, stop) | None => unknown_type t end) (λ x, I x.1).
Proof.
  intros Hs. eapply safe_seq; [apply common_message_safe|]. intros [stop|] _; [by apply safe_done|].
  eapply safe_weaken; [| |apply (unknown_type_safe _ (λ _, False))]; [lia|done].
Qed.

Lemma prepare_message_safe v cs r : result_fine r → safe 1 (prepare_message v cs r) (λ x, result_fine x.1).
Proof.
  intros Hr. unfold prepare_message. safe_next. replace (1 - 1) with 0 by lia. safe_next; [|by apply shared_safe].
  eapply safe_seq; [apply return_values_safe|]. intros x Hx. by apply safe_done.
Qed.

Lemma simple_message_safe v s : safe 1 (simple_message v s) (λ _, True).
Proof.
  unfold simple_message. safe_next. replace (1 - 1) with 0 by lia. safe_next; [|by apply (shared_safe v _ s (λ _, True))].
  safe_next. eapply (safe_seq _ 0 _ _ (λ _, True)); [apply read_ub4s_safe|]. intros vs _. apply safe_done; [lia|done].
Qed.

Lemma direct_path_answers_total payload v cs l : policy_ok l → bytes_ok payload → Zlen payload <= I64_MAX →
  post prepared_ok (parse_direct_path_prepare_response_with_limits v cs payload l) ∧
  post (λ _, True) (parse_direct_path_simple_response_with_limits v payload l).
Proof.
  intros Hp Hb Hm. split; [|by apply (scan_post (simple_message v) (λ _, True)); [intros s _; apply simple_message_safe|..]].
  unfold parse_direct_path_prepare_response_with_limits.
  pose proof (scan_post (prepare_message v cs) result_fine payload l None (prepare_message_safe v cs) Hp Hb Hm I) as H.
  destruct (with_limits payload l) as [reader|e| |]; [|done..]. rewrite res_bindE in *. eapply post_bind; [exact H|]. intros [r|] Hr; done.
Qed.

(** ** Prepare and the final operation *)

Definition read_keyword : ReaderM (Z * bytes) :=
  _ ← read_ub2;
  len ← read_ub2;
  b ← read_bytes;
  index ← read_ub2;
  mret (index, default [] b).

Fixpoint read_keywords (n : nat) : ReaderM (list (Z * bytes)) :=
  match n with
  | O => mret []
  | S n => k ← read_keyword; ks ← read_keywords n; mret (k :: ks)
  end.

Definition prepare_kinds : list FieldKind := [FUB4; FU8; FUB4; FU8; FUB2; FU8; FU8; FU8; FU8; FU8; FU8].

(** The reader of a prepare call: the keywords and the input values it announces. *)
Definition read_prepare (v : Z) : ReaderM (Z * Z * Z * Z * list (Z * bytes) * list Z) :=
  m ← read_message_start v;
  h ← read_fields prepare_kinds;
  ks ← read_keywords (Z.to_nat (nth 2 h 0));
  vs ← read_fields (repeat FUB4 (Z.to_nat (nth 4 h 0)));
  mret (m, nth 0 h 0, ks, vs).

Definition read_op (v : Z) : ReaderM (Z * Z * Z * Z * Z) :=
  m ← read_message_start v;
  h ← read_fields [FUB4; FUB2; FU8; FUB4; FU8; FU8];
  mret (m, nth 0 h 0, nth 1 h 0).

Definition keyword_enc (k : Z * bytes) : bytes := layout [(FUB2, 0); (FUB2, Zlen k.2)] ++ field_bytes k.2 ++ ub2_bytes k.1.
Definition keyword_ok (lim : ProtocolLimits) (k : Z * bytes) : Prop := 0 <= k.1 <= U16_MAX ∧ Zlen k.2 <= U16_MAX ∧ field_fits lim (Zlen k.2).

Lemma keyword_run index value w : 0 <= index <= U16_MAX → Zlen (as_bytes value) <= U16_MAX →
  write_keyword_param index value w = (Ok (), write_raw (keyword_enc (index, as_bytes value)) w).
Proof.
  intros Hi Hl. pose proof (Zlen_nonneg (as_bytes value)). unfold write_keyword_param. cbv zeta. st_run. rewrite try_range_in by lia. st_run.
  emit_run. st_run. rewrite write_bytes_with_length_spec. st_run. rewrite write_ub2_spec, !write_raw_raw by done.
  unfold keyword_enc. cbn [fst snd]. by rewrite ?app_assoc.
Qed.

Lemma keyword_parses lim k : keyword_ok lim k → parses lim read_keyword (keyword_enc k) k.
Proof.
  destruct k as [index b]. intros (Hi & Hl & Hf). cbn [fst snd] in *. pose proof Hf as ((H8 & _) & _). pose proof (Zlen_nonneg b).
  unfold read_keyword, keyword_enc. cbn [layout map concat field_enc fst snd]. rewrite app_nil_r, <- !app_assoc.
  eapply parses_bind; [apply read_ub2_parses; unfold U16_MAX; lia|]. eapply parses_bind; [apply read_ub2_parses; unfold U16_MAX in *; lia|].
  eapply parses_bind; [by destruct Hf as ((? & ?) & ? & ? & ?); apply read_bytes_parses|]. eapply parses_last; [apply read_ub2_parses; unfold U16_MAX in *; lia|].
  assert (default [] (field_value b) = b) as -> by (by destruct b). apply parses_ret.
Qed.

Lemma keywords_parse lim ks : Forall (keyword_ok lim) ks → parses lim (read_keywords (length ks)) (concat (map keyword_enc ks)) ks.
Proof.
  induction 1 as [|k ks Hk _ IH]; [apply parses_ret|]. cbn [length read_keywords map concat].
  eapply parses_bind; [by apply keyword_parses|]. eapply parses_last; [exact IH|apply parses_ret].
Qed.

Lemma names_run names w : Forall (λ n, Zlen (as_bytes n) <= U16_MAX) names →
  write_column_names names w = (Ok (), write_raw (concat (map keyword_enc (map (λ n, (TNS_DPP_KW_INDEX_COLUMN_NAME, as_bytes n)) names))) w).
Proof.
  intros H. revert w. induction H as [|n ns Hn _ IH]; intros w; [by rewrite write_raw_nil|]. cbn [write_column_names map concat].
  rewrite st_bindE, keyword_run, IH by (done || (unfold U16_MAX, TNS_DPP_KW_INDEX_COLUMN_NAME; lia)). by rewrite write_raw_raw.
Qed.

(** A prepare call names the schema, the table and the columns in order, with the input
    values, and the final call says for which cursor what is to be done. *)
Theorem direct_path_calls_roundtrip lim schema table names seq v cursor code :
  field_fits lim 65535 → 0 <= seq <= 255 → Zlen names + 2 <= U32_MAX →
  Forall (λ n, Zlen (as_bytes n) <= U16_MAX) (schema :: table :: names) → 0 <= cursor <= U16_MAX → 0 <= code <= U32_MAX →
  (∃ payload, build_direct_path_prepare_payload_with_version schema table names seq v = Ok payload ∧
     parses lim (read_prepare v) payload
       ((TNS_MSG_TYPE_FUNCTION, TNS_FUNC_DIRECT_PATH_PREPARE, seq), TNS_DPP_OP_CODE_LOAD,
        (TNS_DPP_KW_INDEX_SCHEMA_NAME, as_bytes schema) :: (TNS_DPP_KW_INDEX_OBJECT_NAME, as_bytes table) ::
        map (λ n, (TNS_DPP_KW_INDEX_COLUMN_NAME, as_bytes n)) names, in_values)) ∧
  parses lim (read_op v) (build_direct_path_op_payload_with_version cursor code seq v)
    ((TNS_MSG_TYPE_FUNCTION, TNS_FUNC_DIRECT_PATH_OP, seq), code, cursor).
Proof.
  intros Hfit Hseq Hlen Hnames Hcur Hcode. pose proof Hfit as ((H8 & Hr) & Hc & Hm1 & Hm2). pose proof (Zlen_nonneg names). split.
  - apply Forall_cons_iff in Hnames as [Hs Hnames]. apply Forall_cons_iff in Hnames as [Ht Hnames].
    set (ks := (TNS_DPP_KW_INDEX_SCHEMA_NAME, as_bytes schema) :: (TNS_DPP_KW_INDEX_OBJECT_NAME, as_bytes table) ::
        map (λ n, (TNS_DPP_KW_INDEX_COLUMN_NAME, as_bytes n)) names).
    set (fields := [(FUB4, TNS_DPP_OP_CODE_LOAD); (FU8, 1); (FUB4, Zlen names + 2); (FU8, 1); (FUB2, Z.of_nat TNS_DPP_IN_VALUES_SENT);
              (FU8, 1); (FU8, 1); (FU8, 1); (FU8, 1); (FU8, 1); (FU8, 1)]).
    assert (Forall in_range fields) as Hf.
    { unfold fields. change (Z.of_nat TNS_DPP_IN_VALUES_SENT) with 15. unfold TNS_DPP_OP_CODE_LOAD. ranges. }
    assert (Forall in_range (map (λ x, (FUB4, x)) in_values)) as Hv by (repeat (constructor; [by vm_compute|]); constructor).
    assert (Forall (keyword_ok lim) ks) as Hks.
    { assert (∀ i n, 0 <= i <= U16_MAX → Zlen (as_bytes n) <= U16_MAX → keyword_ok lim (i, as_bytes n)) as Hk.
      { intros i n Hi Hn. unfold keyword_ok, field_fits, U16_MAX in *. cbn [fst snd]. split_and!; lia. }
      constructor; [by apply Hk|]. constructor; [by apply Hk|]. clear -Hk Hnames. induction Hnames; constructor; [by apply Hk|done]. }
    exists (start_bytes TNS_MSG_TYPE_FUNCTION TNS_FUNC_DIRECT_PATH_PREPARE seq v ++ layout fields ++ concat (map keyword_enc ks) ++
            layout (map (λ x, (FUB4, x)) in_values)). split.
    + apply build_bytes. intros w. st_run. rewrite try_range_in by lia. st_run. rewrite (proj1 (header_start _ _ _ _)).
      match goal with |- context [emit _ ?w'] => change (emit _ w') with (emit (map put fields) w') end. rewrite emit_layout by done. st_run.
      rewrite !keyword_run by done. st_run. rewrite keyword_run by done. st_run. rewrite names_run by done. st_run.
      match goal with |- emit _ ?w' = _ => change (emit _ w') with (emit (map put (map (λ x, (FUB4, x)) in_values)) w') end.
      rewrite emit_layout by done. rewrite !write_raw_raw. unfold ks. cbn [map concat]. by rewrite <- ?app_assoc.
    + unfold read_prepare. eapply parses_bind; [apply start_parses; done || lia|]. eapply parses_bind; [apply (fields_parse lim H8 fields Hf)|].
      unfold fields. cbn [map snd nth]. assert (Z.to_nat (Zlen names + 2) = length ks) as -> by (unfold ks, Zlen; cbn [length]; rewrite length_map; lia).
      eapply parses_bind; [by apply keywords_parse|]. eapply parses_last; [exact (fields_parse lim H8 _ Hv)|]. apply parses_ret.
  - unfold build_direct_path_op_payload_with_version, read_op. rewrite (proj1 (header_start _ _ _ _)).
    set (fields := [(FUB4, code); (FUB2, cursor); (FU8, 0); (FUB4, 0); (FU8, 1); (FU8, 1)]).
    assert (Forall in_range fields) as Hf by (unfold fields; ranges).
    match goal with |- context [foldl _ ?w0 _] => change (foldl _ w0 _) with (foldl (λ w f, f w) w0 (map put fields)) end.
    rewrite emitted, write_raw_raw by done. unfold into_bytes, write_raw. cbn [w_bytes writer_new app].
    eapply parses_bind; [apply start_parses; done || lia|]. eapply parses_last; [exact (fields_parse lim H8 fields Hf)|]. apply parses_ret.
Qed.

(** A text of 300 bytes in a LONG column beside a number and a null. *)
Lemma direct_path_rows_roundtrip_witness :
  let cs := [column_new (txt "A") ORA_TYPE_NUM_LONG; column_new (txt "B") ORA_TYPE_NUM_NUMBER;
             mkColumn (txt "C") ORA_TYPE_NUM_VARCHAR 1 0 0 0 10 true false false None None false None 0 0 None None None] in
  ∃ xs payload, rows_image cs [[DBytes (repeat 65 300); DNumber (txt "12"); DNull]] 1 = Ok xs ∧
    xs = [[Some (repeat 65 300); Some [193; 13]; None]] ∧ load_request limits_DEFAULT 24 3 7 xs payload.
Proof.
  pose proof (direct_path_rows_roundtrip limits_DEFAULT
    [column_new (txt "A") ORA_TYPE_NUM_LONG; column_new (txt "B") ORA_TYPE_NUM_NUMBER;
     mkColumn (txt "C") ORA_TYPE_NUM_VARCHAR 1 0 0 0 10 true false false None None false None 0 0 None None None]
    [[DBytes (repeat 65 300); DNumber (txt "12"); DNull]] 1 7 3 24) as H.
  cbv zeta. destruct (encode_direct_path_rows _ _ _) as [stream|e| |] eqn:E; [|exfalso; vm_compute in E; discriminate..].
  destruct H as (xs & payload & Hxs & _ & Hr).
  - vm_compute. discriminate.
  - lia.
  - vm_compute. split; discriminate.
  - repeat constructor.
  - lia.
  - vm_compute. discriminate.
  - exists xs, payload. split; [exact Hxs|]. split; [|exact Hr]. vm_compute in Hxs. injection Hxs as <-. reflexivity.
Defined.
