(* ===== verification/DirectLoad.v ===== *)
(** * A direct path load, from rows to messages ([dpl.rs], [oracledb/src/lib.rs])

    The batches of a load ([BatchLoadState]) and the calls [Connection::direct_path_load] makes:
    prepare, one stream per batch, and finish or abort.  Cancellation, the recovery before a
    request and the answers of the server are arbitrary. *)

From S2P Require Import Prelude.
From S2P Require Import Protocol.
From S2P Require Import Limits.
From S2P Require Import Writer.
From S2P Require Import Reader.
From S2P Require Import ReaderSafety.
From S2P Require Import Wire.
From S2P Require Import Layout.
From S2P Require Import Sql.
From S2P Require Import ShapeCache.
From S2P Require Import Utf.
From S2P Require Import ServerError.
From S2P Require Import Fetch.
From S2P Require Import OsonSafety.
From S2P Require Import FetchSafety.
From S2P Require Import DriverError.
From S2P Require Import StatementCache.
From S2P Require Import ExecuteWire.
From S2P Require Import LobSession.
From S2P Require Import DirectPath.
From S2P Require Import DirectPathWire.

(** ** Batches *)

Record BatchLoadState := mkBatch {
  chunk_lengths : list Z;
  batch_size : Z;
  chunk_index : nat;
  bl_offset : Z;
  bl_message_offset : Z;
  bl_num_rows : Z
}.

Definition rows_in_current_chunk (s : BatchLoadState) : Z := default 0 (chunk_lengths s !! chunk_index s).

Definition calculate_num_rows_in_batch (s : BatchLoadState) : BatchLoadState :=
  let remaining := sat_sub (rows_in_current_chunk s) (bl_offset s) in
  mkBatch (chunk_lengths s) (batch_size s) (chunk_index s) (bl_offset s) (bl_message_offset s)
    (default 0 (try_range 0 U32_MAX (Z.min remaining (batch_size s)))).

(** The [while] loop: a chunk per turn. *)
Fixpoint advance_chunk (fuel : nat) (s : BatchLoadState) : BatchLoadState :=
  match fuel with
  | O => s
  | S fuel =>
      if (chunk_index s + 1 <? length (chunk_lengths s))%nat then
        let s := calculate_num_rows_in_batch (mkBatch (chunk_lengths s) (batch_size s) (chunk_index s + 1) 0 0 (bl_num_rows s)) in
        if 0 <? bl_num_rows s then s else advance_chunk fuel s
      else s
  end.

Definition advance_batch (s : BatchLoadState) : BatchLoadState :=
  let s := calculate_num_rows_in_batch (mkBatch (chunk_lengths s) (batch_size s) (chunk_index s) (bl_offset s) (bl_offset s) (bl_num_rows s)) in
  if bl_num_rows s =? 0 then advance_chunk (length (chunk_lengths s)) s else s.

Definition batch_new (lengths : list Z) (size : Z) : Res BatchLoadState :=
  if size =? 0 then Err (TtcDecode "batch_size must be a positive integer")
  else Ok (advance_batch (mkBatch lengths size 0 0 0 0)).
Definition for_rows (total_rows size : Z) : Res BatchLoadState := batch_new [total_rows] size.

Definition is_done (s : BatchLoadState) : bool := bl_num_rows s =? 0.

(** [self.offset += u64::from(self.num_rows)] *)
Definition batch_next (s : BatchLoadState) : Res BatchLoadState :=
  offset ← arith 0 U64_MAX (bl_offset s + bl_num_rows s);
  Ok (advance_batch (mkBatch (chunk_lengths s) (batch_size s) (chunk_index s) offset (bl_message_offset s) (bl_num_rows s))).

(** ** The calls of a load *)

Section Load.
Context {P : Type}.
(** The context seen by the n-th observation of cancellation; the recovery before the request
    that follows the requests sent; the answer to the last of them. *)
Context (cx_at : nat → Cx) (ensure_clean : list bytes → Result (Error P) ()) (respond : list bytes → Result (Error P) bytes).
Context (v charset_id : Z) (lim : ProtocolLimits).

Record LoadState := mkLoad { ls_seq : Z; ls_observed : nat; ls_sent : list bytes }.
Abbreviation LoadM := (ST (Error P) LoadState).

Definition protocol {A} (r : Res A) : Result (Error P) A :=
  match r with
  | Ok a => Ok a
  | Err e => Err (EProtocol e)
  | Panic => Panic
  | Diverge => Diverge
  end.

Definition observe_cancellation : LoadM () := λ s,
  (observe_cancellation_between_round_trips (cx_at (ls_observed s)), mkLoad (ls_seq s) (S (ls_observed s)) (ls_sent s)).
Definition ensure_clean_before_request : LoadM () := λ s, (ensure_clean (ls_sent s), s).
Definition next_seq : LoadM Z := λ s,
  let seq := next_ttc_sequence (ls_seq s) in (Ok seq, mkLoad seq (ls_observed s) (ls_sent s)).

(** [send_data_packet] and the read of the response. *)
Definition exchange_load (request : bytes) : LoadM bytes := λ s,
  let sent := ls_sent s ++ [request] in (respond sent, mkLoad (ls_seq s) (ls_observed s) sent).

Definition direct_path_prepare (schema_name table_name : chars) (column_names : list chars) : LoadM DirectPathPrepareResult :=
  _ ← observe_cancellation;
  _ ← ensure_clean_before_request;
  _ ← lift (protocol (check_columns lim (Zlen column_names)));
  seq ← next_seq;
  payload ← lift (protocol (build_direct_path_prepare_payload_with_version schema_name table_name column_names seq v));
  response ← exchange_load payload;
  lift (protocol (parse_direct_path_prepare_response_with_limits v charset_id response lim)).

Definition direct_path_load_stream (cursor_id : Z) (stream : DirectPathStream) : LoadM () :=
  _ ← observe_cancellation;
  _ ← ensure_clean_before_request;
  seq ← next_seq;
  payload ← lift (protocol (build_direct_path_load_stream_payload_with_version cursor_id stream seq v));
  response ← exchange_load payload;
  lift (protocol (parse_direct_path_simple_response_with_limits v response lim)).

Definition direct_path_op (cursor_id op_code : Z) : LoadM () :=
  _ ← observe_cancellation;
  _ ← ensure_clean_before_request;
  seq ← next_seq;
  let payload := build_direct_path_op_payload_with_version cursor_id op_code seq v in
  response ← exchange_load payload;
  lift (protocol (parse_direct_path_simple_response_with_limits v response lim)).

(** [&rows[start..end]] panics out of range. *)
Definition row_slice (rows : list (list DirectPathColumnValue)) (lo hi : Z) : Result (Error P) (list (list DirectPathColumnValue)) :=
  if (0 <=? lo) && (lo <=? hi) && (hi <=? Zlen rows) then Ok (take (Z.to_nat (hi - lo)) (drop (Z.to_nat lo) rows)) else Panic.

(** The [while] loop over the batches; each streams a row or more. *)
Fixpoint load_loop (fuel : nat) (prepare : DirectPathPrepareResult) (rows : list (list DirectPathColumnValue))
  (state : BatchLoadState) (row_num : Z) : LoadM () :=
  match fuel with
  | O => lift Diverge
  | S fuel =>
      if is_done state then mret ()
      else
        _ ← observe_cancellation;
        start ← lift (protocol (ok_or (try_range 0 USIZE_MAX (bl_offset state)) (TtcDecode "direct path offset overflow")));
        finish ← lift (arith 0 USIZE_MAX (start + bl_num_rows state));
        batch ← lift (row_slice rows start finish);
        stream ← lift (protocol (encode_direct_path_rows (column_metadata prepare) batch row_num));
        row_num ← lift (arith 0 U64_MAX (row_num + (finish - start)));
        _ ← direct_path_load_stream (dp_cursor_id prepare) stream;
        state ← lift (protocol (batch_next state));
        load_loop fuel prepare rows state row_num
  end.

Definition direct_path_load_batches (prepare : DirectPathPrepareResult) (rows : list (list DirectPathColumnValue)) (size : Z) : LoadM () :=
  if negb (forallb (λ row, Zlen row =? Zlen (column_metadata prepare)) rows)
  then throw (EProtocol (TtcDecode "direct path row width does not match column metadata"))
  else
    state ← lift (protocol (for_rows (Zlen rows) size));
    load_loop (S (length rows)) prepare rows state 1.

(** A panic unwinds through the call; an error is answered by an abort. *)
Definition direct_path_load_prepared (prepare : DirectPathPrepareResult) (rows : list (list DirectPathColumnValue)) (size : Z) : LoadM () := λ s,
  let '(load_result, s) := direct_path_load_batches prepare rows size s in
  match load_result with
  | Panic => (Panic, s)
  | Diverge => (Diverge, s)
  | _ =>
      let op_code := if is_ok load_result then TNS_DP_OP_FINISH else TNS_DP_OP_ABORT in
      let '(op_result, s) := direct_path_op (dp_cursor_id prepare) op_code s in
      match op_result with
      | Panic => (Panic, s)
      | Diverge => (Diverge, s)
      | _ => (_ ← load_result; op_result, s)
      end
  end.

Definition direct_path_load (schema_name table_name : chars) (column_names : list chars)
  (rows : list (list DirectPathColumnValue)) (size : Z) : LoadM () :=
  prepare ← direct_path_prepare schema_name table_name column_names;
  direct_path_load_prepared prepare rows size.
End Load.

(** ** Every row once *)

(** The positions [lo .. lo + n - 1] of a chunk. *)
Definition positions (chunk : nat) (lo n : Z) : list (nat * Z) := map (λ i, (chunk, lo + Z.of_nat i)) (seq 0 (Z.to_nat n)).

(** All positions from row [o] of chunk [c] on. *)
Fixpoint chunks_from (c : nat) (lengths : list Z) : list (nat * Z) :=
  match lengths with
  | [] => []
  | n :: lengths => positions c 0 n ++ chunks_from (S c) lengths
  end.
Definition rows_from (lengths : list Z) (c : nat) (o : Z) : list (nat * Z) :=
  positions c o (default 0 (lengths !! c) - o) ++ chunks_from (S c) (drop (S c) lengths).

(** The caller's loop: the windows it loads until the batch is empty. *)
Fixpoint windows (fuel : nat) (s : BatchLoadState) : Res (list (nat * Z * Z)) :=
  match fuel with
  | O => Diverge
  | S fuel =>
      if is_done s then Ok []
      else s' ← batch_next s; ws ← windows fuel s'; Ok ((chunk_index s, bl_message_offset s, bl_num_rows s) :: ws)
  end.

Lemma positions_split c lo n m : 0 <= n → 0 <= m → positions c lo (n + m) = positions c lo n ++ positions c (lo + n) m.
Proof.
  intros Hn Hm. unfold positions. rewrite Z2Nat.inj_add, seq_app, map_app by done. f_equal.
  rewrite <- (Nat.add_0_r (0 + Z.to_nat n)), <- fmap_add_seq, map_map. apply map_ext. intros i. f_equal. lia.
Qed.

(** A state whose batch has been computed. *)
Definition batch_ok (s : BatchLoadState) : Prop :=
  1 <= batch_size s <= U32_MAX ∧ Forall (λ n, 0 <= n <= U64_MAX) (chunk_lengths s) ∧ bl_message_offset s = bl_offset s ∧
  0 <= bl_offset s <= rows_in_current_chunk s ∧ 0 <= bl_num_rows s <= batch_size s ∧ bl_offset s + bl_num_rows s <= rows_in_current_chunk s.

Definition todo (s : BatchLoadState) : list (nat * Z) := rows_from (chunk_lengths s) (chunk_index s) (bl_offset s).

Lemma chunk_range s : Forall (λ n, 0 <= n <= U64_MAX) (chunk_lengths s) → 0 <= rows_in_current_chunk s <= U64_MAX.
Proof.
  intros H. unfold rows_in_current_chunk. destruct (chunk_lengths s !! chunk_index s) eqn:E; cbn; [|done]. by eapply Forall_lookup_1 in H.
Qed.

Lemma calculated s : 1 <= batch_size s <= U32_MAX → Forall (λ n, 0 <= n <= U64_MAX) (chunk_lengths s) →
  0 <= bl_offset s <= rows_in_current_chunk s → bl_message_offset s = bl_offset s →
  batch_ok (calculate_num_rows_in_batch s) ∧ todo (calculate_num_rows_in_batch s) = todo s ∧
  (bl_num_rows (calculate_num_rows_in_batch s) = 0 → bl_offset s = rows_in_current_chunk s).
Proof.
  intros Hb Hl Ho Hm. unfold calculate_num_rows_in_batch, sat_sub. rewrite try_range_in by lia. cbn [default from_option id].
  split; [|split; [done|cbn; lia]]. unfold batch_ok. cbn [batch_size chunk_lengths bl_message_offset bl_offset bl_num_rows].
  change (rows_in_current_chunk (mkBatch _ _ _ _ _ _)) with (rows_in_current_chunk s). split_and!; try done; try lia.
Qed.

Lemma rows_from_next lengths c o : o = default 0 (lengths !! c) → (c + 1 < length lengths)%nat →
  rows_from lengths c o = rows_from lengths (c + 1) 0.
Proof.
  intros -> Hc. unfold rows_from. rewrite Z.sub_diag. cbn [positions Z.to_nat seq map app]. rewrite Z.sub_0_r.
  destruct (lookup_lt_is_Some_2 lengths (c + 1) Hc) as [n Hn]. rewrite Hn. cbn [default from_option id].
  replace (S c) with (c + 1)%nat by lia. rewrite (drop_S _ n) by done. cbn [chunks_from]. by replace (S (c + 1)) with (c + 1 + 1)%nat by lia.
Qed.

Lemma advance_chunk_run fuel : ∀ s, batch_ok s → bl_num_rows s = 0 → bl_offset s = rows_in_current_chunk s →
  (length (chunk_lengths s) <= chunk_index s + fuel)%nat →
  let s' := advance_chunk fuel s in
  batch_ok s' ∧ todo s' = todo s ∧ (bl_num_rows s' = 0 → todo s' = []) ∧ batch_size s' = batch_size s.
Proof.
  induction fuel as [|fuel IH]; intros s Hs H0 Ho Hf; cbv zeta; cbn [advance_chunk].
  - split; [done|]. split; [done|]. split; [|done]. intros _. unfold todo, rows_from. fold (rows_in_current_chunk s). rewrite Ho, Z.sub_diag.
    cbn. by rewrite drop_ge by lia.
  - destruct (Nat.ltb_spec (chunk_index s + 1) (length (chunk_lengths s))) as [Hlt|Hge].
    + pose proof Hs as (Hb & Hl & _). set (s0 := mkBatch (chunk_lengths s) (batch_size s) (chunk_index s + 1) 0 0 (bl_num_rows s)).
      pose proof (chunk_range s0 Hl) as Hr. destruct (calculated s0 Hb Hl (conj (Z.le_refl 0) (proj1 Hr)) eq_refl) as (Hc & Ht & Hz).
      assert (todo s0 = todo s) as Hts by (symmetry; by apply rows_from_next).
      destruct (Z.ltb_spec 0 (bl_num_rows (calculate_num_rows_in_batch s0))) as [Hp|Hn].
      * split; [done|]. split; [congruence|]. split; [lia|done].
      * assert (bl_num_rows (calculate_num_rows_in_batch s0) = 0) as Hz0 by (destruct Hc as (_ & _ & _ & _ & ? & _); lia).
        destruct (IH (calculate_num_rows_in_batch s0) Hc Hz0) as (H1 & H2 & H3 & H4); [by apply Hz|cbn; lia|]. split; [done|]. split; [congruence|]. by split.
    + split; [done|]. split; [done|]. split; [|done]. intros _. unfold todo, rows_from. fold (rows_in_current_chunk s). rewrite Ho, Z.sub_diag.
      cbn. by rewrite drop_ge by lia.
Qed.

Lemma advance_batch_run s : 1 <= batch_size s <= U32_MAX → Forall (λ n, 0 <= n <= U64_MAX) (chunk_lengths s) →
  0 <= bl_offset s <= rows_in_current_chunk s →
  let s' := advance_batch s in
  batch_ok s' ∧ todo s' = todo s ∧ (bl_num_rows s' = 0 → todo s' = []) ∧ batch_size s' = batch_size s.
Proof.
  intros Hb Hl Ho. cbv zeta. unfold advance_batch.
  set (s0 := mkBatch (chunk_lengths s) (batch_size s) (chunk_index s) (bl_offset s) (bl_offset s) (bl_num_rows s)).
  destruct (calculated s0 Hb Hl Ho eq_refl) as (Hc & Ht & Hz). destruct (Z.eqb_spec (bl_num_rows (calculate_num_rows_in_batch s0)) 0) as [H0|H0].
  - destruct (advance_chunk_run (length (chunk_lengths (calculate_num_rows_in_batch s0))) _ Hc H0) as (H1 & H2 & H3 & H4); [by apply Hz|lia|].
    split; [done|]. split; [exact (eq_trans H2 Ht)|]. by split.
  - split; [done|]. split; [done|]. split; [done|done].
Qed.

Lemma windows_run fuel : ∀ s, batch_ok s → (bl_num_rows s = 0 → todo s = []) → (length (todo s) < fuel)%nat →
  ∃ ws, windows fuel s = Ok ws ∧ concat (map (λ '(c, o, n), positions c o n) ws) = todo s ∧
    Forall (λ '(c, o, n), 1 <= n <= batch_size s) ws.
Proof.
  induction fuel as [|fuel IH]; intros s Hs H0 Hf; [lia|]. cbn [windows]. unfold is_done. destruct (Z.eqb_spec (bl_num_rows s) 0) as [Hz|Hz].
  { exists []. rewrite (H0 Hz). split; [done|]. by split. }
  pose proof Hs as (Hb & Hl & Hmo & Ho & Hn & Hin). pose proof (chunk_range s Hl) as Hr. unfold batch_next. rewrite arith_in by lia. cbn [mbind result_bind].
  set (s0 := mkBatch (chunk_lengths s) (batch_size s) (chunk_index s) (bl_offset s + bl_num_rows s) (bl_message_offset s) (bl_num_rows s)).
  destruct (advance_batch_run s0 Hb Hl ltac:(change (rows_in_current_chunk s0) with (rows_in_current_chunk s); cbn [bl_offset s0]; lia)) as (H1 & H2 & H3 & H4).
  assert (todo s = positions (chunk_index s) (bl_offset s) (bl_num_rows s) ++ todo s0) as Htodo.
  { unfold todo, rows_from. cbn [chunk_lengths chunk_index bl_offset s0]. fold (rows_in_current_chunk s). rewrite app_assoc. f_equal.
    rewrite <- positions_split by lia. f_equal. lia. }
  assert (length (positions (chunk_index s) (bl_offset s) (bl_num_rows s)) = Z.to_nat (bl_num_rows s)) as Hlen
    by (unfold positions; by rewrite length_map, length_seq).
  destruct (IH (advance_batch s0) H1) as (ws & Hw & Hc & Hall); [done|rewrite H2; rewrite Htodo, length_app, Hlen in Hf; lia|].
  fold s0. rewrite Hw. eexists. split; [done|]. cbn [map concat]. split; [by rewrite Hc, H2, Htodo, Hmo|].
  constructor; [lia|]. by rewrite H4 in Hall.
Qed.

(** The batches of a load are the rows.  For chunks of any lengths, empty ones included, and
    any batch size, the caller's loop ends, and the windows it visits, one after another, are
    the positions of all rows of all chunks in order, each once; every window lies in one
    chunk and has between one row and the batch size. *)
Theorem batch_windows_exact lengths size :
  1 <= size <= U32_MAX → Forall (λ n, 0 <= n <= U64_MAX) lengths →
  ∃ s ws, batch_new lengths size = Ok s ∧ windows (S (length (chunks_from 0 lengths))) s = Ok ws ∧
    concat (map (λ '(c, o, n), positions c o n) ws) = chunks_from 0 lengths ∧ Forall (λ '(c, o, n), 1 <= n <= size) ws.
Proof.
  intros Hs Hl. unfold batch_new. rewrite (proj2 (Z.eqb_neq _ _)) by lia. set (s0 := mkBatch lengths size 0 0 0 0).
  pose proof (chunk_range s0 Hl) as Hr.
  destruct (advance_batch_run s0 Hs Hl (conj (Z.le_refl 0) (proj1 Hr))) as (H1 & H2 & H3 & H4).
  assert (todo s0 = chunks_from 0 lengths) as Ht.
  { unfold todo, rows_from. cbn [s0 chunk_lengths chunk_index bl_offset]. rewrite Z.sub_0_r. by destruct lengths. }
  destruct (windows_run (S (length (chunks_from 0 lengths))) (advance_batch s0) H1 H3) as (ws & Hw & Hc & Hall); [rewrite H2, Ht; lia|].
  exists (advance_batch s0), ws. split; [done|]. split; [done|]. split; [congruence|]. by rewrite H4 in Hall.
Qed.

(** ** The messages of a load *)

Section Exact.
Context {P : Type} (cx_at : nat → Cx) (ensure_clean : list bytes → Result (Error P) ()) (respond : list bytes → Result (Error P) bytes).
Context (v charset_id : Z) (lim slim : ProtocolLimits).
Context (Hclean : ∀ h, returns (ensure_clean h)).
Context (Hrespond : ∀ h, post (λ b, bytes_ok b ∧ Zlen b <= I64_MAX) (respond h)).
Context (Hpolicy : policy_ok lim) (Hslim : 65520 <= max_response_bytes slim).

(** Nothing is cancelled and no recovery fails. *)
Definition undisturbed : Prop := (∀ n, cx_checkpoint_ok (cx_at n) = true) ∧ ∀ h, ensure_clean h = Ok ().

(** A call that answers with nothing but success. *)
Definition call (request : Z → Res bytes) : ST (Error P) LoadState () :=
  _ ← observe_cancellation cx_at;
  _ ← ensure_clean_before_request ensure_clean;
  seq ← next_seq;
  payload ← lift (protocol (request seq));
  response ← exchange_load respond payload;
  lift (protocol (parse_direct_path_simple_response_with_limits v response lim)).

Lemma observed n : (cx_checkpoint_ok (cx_at n) = true ∧ observe_cancellation_between_round_trips (P := P) (cx_at n) = Ok ()) ∨
  (cx_checkpoint_ok (cx_at n) = false ∧ ∃ e, observe_cancellation_between_round_trips (P := P) (cx_at n) = Err e).
Proof. unfold observe_cancellation_between_round_trips. destruct (cx_checkpoint_ok (cx_at n)); [by left|right]. split; [done|]. by eexists. Qed.

(** The server's answer to the last of the requests sent is one of success. *)
Definition accepted (sent : list bytes) : Prop :=
  ∃ b, respond sent = Ok b ∧ parse_direct_path_simple_response_with_limits v b lim = Ok ().

(** Each of the requests sent behind [sent] was accepted, the last one apart; each of them. *)
Definition all_but_last_accepted (sent requests : list bytes) : Prop :=
  ∀ i, (S i < length requests)%nat → accepted (sent ++ take (S i) requests).
Definition all_accepted (sent requests : list bytes) : Prop :=
  ∀ i, (i < length requests)%nat → accepted (sent ++ take (S i) requests).

(** It sends its request, or fails before. *)
Lemma call_run request s : (∀ seq, 1 <= seq <= 255 → ∃ p, request seq = Ok p) →
  let '(r, s') := call request s in
  returns r ∧
  ((ls_sent s' = ls_sent s ∧ is_ok r = false ∧ ¬ undisturbed) ∨
   ∃ seq p, 1 <= seq <= 255 ∧ request seq = Ok p ∧ ls_sent s' = ls_sent s ++ [p] ∧ (r = Ok () → accepted (ls_sent s ++ [p]))).
Proof.
  intros Hreq. destruct s as [seq0 n sent]. unfold call. rewrite st_bindE. unfold observe_cancellation at 1. cbn [ls_observed ls_seq ls_sent].
  destruct (observed n) as [[_ ->]|[Hc [e ->]]]; [|split; [done|]; left; split; [done|]; split; [done|]; intros [Hn _]; congruence].
  rewrite st_bindE. unfold ensure_clean_before_request at 1. cbn [ls_sent]. pose proof (Hclean sent) as Hcl.
  destruct (ensure_clean sent) as [[]|e| |] eqn:Ecl; [|split; [done|]; left; split; [done|]; split; [done|]; intros [_ Hn]; congruence|done..].
  rewrite st_bindE. unfold next_seq at 1. cbn [ls_seq ls_observed ls_sent]. pose proof (sequence_range seq0) as Hb. destruct (Hreq _ Hb) as [p Hp].
  rewrite st_bindE. unfold lift at 1. rewrite Hp. cbn [protocol]. rewrite st_bindE. unfold exchange_load at 1. cbn [ls_sent ls_seq ls_observed].
  pose proof (Hrespond (sent ++ [p])) as Hr. destruct (respond (sent ++ [p])) as [b|e| |] eqn:Eresp; [|split; [done|]; right; by exists (next_ttc_sequence seq0), p|done..].
  destruct Hr as [Hb1 Hb2]. pose proof (proj2 (direct_path_answers_total b v charset_id lim Hpolicy Hb1 Hb2)) as Ha. unfold lift.
  split; [by destruct (parse_direct_path_simple_response_with_limits v b lim)|]. right. exists (next_ttc_sequence seq0), p.
  split_and!; [lia..|done|done|]. intros Hok. exists b. split; [done|]. by destruct (parse_direct_path_simple_response_with_limits v b lim) as [[]| | |].
Qed.

(** The batch at row [o] of a list of [n]. *)
Definition batch_at (n size o : Z) : BatchLoadState := mkBatch [n] size 0 o o (Z.min (n - o) size).

Lemma advance_single n size o m k : 0 <= o <= n → 1 <= size <= U32_MAX → advance_batch (mkBatch [n] size 0 o m k) = batch_at n size o.
Proof.
  intros Ho Hs. unfold advance_batch, calculate_num_rows_in_batch, rows_in_current_chunk, sat_sub.
  cbn [chunk_lengths chunk_index batch_size bl_offset bl_message_offset bl_num_rows lookup list_lookup default from_option id].
  rewrite Z.max_r, try_range_in by lia. cbn [default from_option id]. by destruct (Z.min (n - o) size =? 0).
Qed.

Lemma rows_image_app cs a b n : rows_image cs (a ++ b) n = (xs ← rows_image cs a n; ys ← rows_image cs b (n + Zlen a); Ok (xs ++ ys)).
Proof.
  revert n. induction a as [|row a IH]; intros n; cbn [app rows_image].
  - rewrite Zlen_nil, Z.add_0_r. cbn. by destruct (rows_image cs b n).
  - destruct (negb _); [done|]. destruct (row_image cs row n); [|done..]. cbn [mbind result_bind]. rewrite IH, Zlen_cons.
    destruct (rows_image cs a (n + 1)) as [xs|e| |]; [|done..]. cbn [mbind result_bind]. replace (n + (Zlen a + 1)) with (n + 1 + Zlen a) by lia.
    by destruct (rows_image cs b _).
Qed.

(** What has been sent since [s]: streams that say the first [k] of the rows, each sent after
    the one before it was accepted. *)
Definition streamed (prepare : DirectPathPrepareResult) (rows : list (list DirectPathColumnValue)) (n : Z) (k : nat) (r : Result (Error P) ()) (s s' : LoadState) : Prop :=
  ∃ streams parts, ls_sent s' = ls_sent s ++ streams ∧ all_but_last_accepted (ls_sent s) streams ∧
    (r = Ok () → all_accepted (ls_sent s) streams) ∧
    Forall2 (λ request xs, ∃ seq, load_request slim v seq (dp_cursor_id prepare) xs request) streams parts ∧
    rows_image (column_metadata prepare) (take k rows) n = Ok (concat parts).

Lemma streamed_none prepare rows n r s s' : ls_sent s' = ls_sent s → streamed prepare rows n 0 r s s'.
Proof.
  intros H. exists [], []. rewrite app_nil_r. split; [done|]. split; [intros i Hi; cbn in Hi; lia|]. split; [intros _ i Hi; cbn in Hi; lia|]. by split.
Qed.

Lemma accepted_cons sent p requests : accepted (sent ++ [p]) → all_accepted (sent ++ [p]) requests → all_accepted sent (p :: requests).
Proof. intros Hp Hall [|i] Hi; [done|]. cbn [length] in Hi. specialize (Hall i ltac:(lia)). by rewrite <- app_assoc in Hall. Qed.

Lemma but_last_cons sent p requests : accepted (sent ++ [p]) → all_but_last_accepted (sent ++ [p]) requests → all_but_last_accepted sent (p :: requests).
Proof. intros Hp Hall [|i] Hi; [done|]. cbn [length] in Hi. specialize (Hall i ltac:(lia)). by rewrite <- app_assoc in Hall. Qed.

Lemma stream_run prepare rows n m xs stream s : prepared_ok prepare → says xs stream →
  rows_image (column_metadata prepare) (take m rows) n = Ok xs →
  let '(r, s') := direct_path_load_stream cx_at ensure_clean respond v lim (dp_cursor_id prepare) stream s in
  returns r ∧ ∃ k, streamed prepare rows n k r s s' ∧
    (r = Ok () → k = m ∧ ∃ seq p, ls_sent s' = ls_sent s ++ [p] ∧ load_request slim v seq (dp_cursor_id prepare) xs p ∧ accepted (ls_sent s ++ [p])).
Proof.
  intros Hprep Hsays Hxs.
  assert (∀ seq, 1 <= seq <= 255 → ∃ p, build_direct_path_load_stream_payload_with_version (dp_cursor_id prepare) stream seq v = Ok p ∧
    load_request slim v seq (dp_cursor_id prepare) xs p) as Hbuild.
  { intros seq Hseq. apply (load_stream_built slim v seq (dp_cursor_id prepare) stream xs Hslim); [lia|done|done]. }
  change (direct_path_load_stream _ _ _ _ _ _ _) with (call (λ seq, build_direct_path_load_stream_payload_with_version (dp_cursor_id prepare) stream seq v)).
  pose proof (call_run (λ seq, build_direct_path_load_stream_payload_with_version (dp_cursor_id prepare) stream seq v) s) as Hcall.
  destruct (call _ _) as [r s1]. destruct Hcall as [Hret Hsent]; [intros seq Hseq; destruct (Hbuild seq Hseq) as (p & ? & _); by exists p|].
  split; [done|]. destruct Hsent as [(Hs & Hr & _)|(seq & p & Hseq & Hp & Hs & Hacc)].
  - exists 0%nat. split; [by apply streamed_none|]. by intros ->.
  - destruct (Hbuild seq Hseq) as (p' & Hp' & Hl). assert (p' = p) as -> by congruence.
    exists m. split; [|intros Hok; split; [done|]; exists seq, p; auto]. exists [p], [xs]. split; [done|].
    split; [intros i Hi; cbn in Hi; lia|]. split; [intros Hok [|i] Hi; [by apply Hacc|cbn in Hi; lia]|].
    split; [constructor; [by exists seq|constructor]|]. rewrite Hxs. cbn. by rewrite app_nil_r.
Qed.

Lemma load_loop_run prepare rows size : prepared_ok prepare → Forall (Forall value_typed) rows → 1 <= size <= U32_MAX → Zlen rows <= I64_MAX →
  ∀ fuel o s, 0 <= o <= Zlen rows → Zlen rows - o < Z.of_nat fuel →
  let '(r, s') := load_loop cx_at ensure_clean respond v lim fuel prepare rows (batch_at (Zlen rows) size o) (o + 1) s in
  returns r ∧ ∃ k, streamed prepare (drop (Z.to_nat o) rows) (o + 1) k r s s' ∧ (r = Ok () → o + Z.of_nat k = Zlen rows).
Proof.
  intros Hprep Htyped Hsize Hlen. induction fuel as [|fuel IH]; intros o s Ho Hf; [lia|]. cbn [load_loop]. unfold is_done, batch_at at 1. cbn [bl_num_rows].
  destruct (Z.eqb_spec (Z.min (Zlen rows - o) size) 0) as [Hz|Hz].
  { split; [done|]. exists 0%nat. split; [by apply streamed_none|]. intros _. lia. }
  set (m := Z.min (Zlen rows - o) size) in *. destruct s as [seq0 n sent]. rewrite st_bindE. unfold observe_cancellation at 1. cbn [ls_observed ls_seq ls_sent].
  destruct (observed n) as [[_ ->]|[_ [e ->]]]; [|split; [done|]; exists 0%nat; split; [by apply streamed_none|done]].
  unfold I64_MAX in Hlen. cbn [bl_offset batch_at]. rewrite try_range_in by (unfold USIZE_MAX, U64_MAX; lia). cbn [ok_or protocol].
  rewrite st_bindE, liftE, arith_in by (unfold USIZE_MAX, U64_MAX; cbn [bl_num_rows batch_at]; fold m; lia). rewrite st_bindE, liftE. cbn [bl_num_rows batch_at]. fold m.
  unfold row_slice. rewrite (proj2 (Z.leb_le 0 o)), (proj2 (Z.leb_le o (o + m))), (proj2 (Z.leb_le (o + m) (Zlen rows))) by lia. cbn [andb].
  rewrite st_bindE, liftE. replace (o + m - o) with m by lia. set (batch := take (Z.to_nat m) (drop (Z.to_nat o) rows)).
  assert (Zlen batch = m) as Hbatch by (unfold batch, Zlen in *; rewrite length_take, length_drop; lia).
  assert (Forall (Forall value_typed) batch) as Hbt by (by apply Forall_take, Forall_drop).
  pose proof (encode_rows_run (column_metadata prepare) batch (o + 1) Hbt ltac:(lia) ltac:(unfold U64_MAX; lia)) as Henc.
  destruct (encode_direct_path_rows (column_metadata prepare) batch (o + 1)) as [stream|e| |]; cbn [protocol]; [|rewrite st_bindE, liftE..]; [|split; [done|]; exists 0%nat; split; [by apply streamed_none|done]|done..].
  destruct Henc as (xs & Hxs & Hsays). rewrite st_bindE, liftE, arith_in by (unfold U64_MAX; lia). rewrite st_bindE, liftE.
  rewrite st_bindE. pose proof (stream_run prepare (drop (Z.to_nat o) rows) (o + 1) (Z.to_nat m) xs stream (mkLoad seq0 (S n) sent) Hprep Hsays Hxs) as Hcall.
  destruct (direct_path_load_stream _ _ _ _ _ _ _ _) as [r s1]. destruct Hcall as [Hret (k0 & Hk0 & Hall)].
  destruct r as [[]|e| |]; [|split; [done|]; exists k0; by split|done..].
  destruct (Hall eq_refl) as (-> & seq & p & Hs1 & Hreq & Hacc). unfold batch_next. cbn [bl_offset batch_at bl_num_rows chunk_lengths batch_size chunk_index bl_message_offset]. fold m.
  rewrite arith_in by (unfold U64_MAX; lia). cbn [mbind result_bind protocol]. rewrite st_bindE, liftE, advance_single by lia.
  replace (o + 1 + m) with (o + m + 1) by lia. pose proof (IH (o + m) s1 ltac:(lia) ltac:(lia)) as Hnext.
  destruct (load_loop _ _ _ _ _ _ _ _ _ _ s1) as [r2 s2]. destruct Hnext as [Hret2 (k & Hst & Hdone)]. split; [done|].
  exists (Z.to_nat m + k)%nat. split; [|intros H; specialize (Hdone H); lia].
  destruct Hst as (streams & parts & Hsent2 & Hbut & Hacc2 & Hall2 & Himg). exists (p :: streams), (xs :: parts). rewrite Hs1 in *.
  split; [by rewrite Hsent2, <- app_assoc|]. split; [by apply but_last_cons|]. split; [intros Hok; apply accepted_cons; [done|by apply Hacc2]|].
  split; [constructor; [by exists seq|done]|].
  rewrite <- take_take_drop, rows_image_app. fold batch. rewrite Hxs. cbn [mbind result_bind]. rewrite Hbatch, drop_drop. cbn [concat].
  rewrite Z2Nat.inj_add in Himg by lia. replace (o + m + 1) with (o + 1 + m) in Himg by lia. by rewrite Himg.
Qed.

Lemma batches_run prepare rows size s : prepared_ok prepare → Forall (Forall value_typed) rows → 0 <= size <= U32_MAX → Zlen rows <= I64_MAX →
  let '(r, s') := direct_path_load_batches cx_at ensure_clean respond v lim prepare rows size s in
  returns r ∧ ∃ k, streamed prepare rows 1 k r s s' ∧ (r = Ok () → take k rows = rows).
Proof.
  intros Hprep Htyped Hsize Hlen. unfold direct_path_load_batches.
  destruct (negb _); [split; [done|]; exists 0%nat; split; [by apply streamed_none|done]|]. rewrite st_bindE, liftE. unfold for_rows, batch_new.
  destruct (Z.eqb_spec size 0); [split; [done|]; exists 0%nat; split; [by apply streamed_none|done]|].
  cbn [protocol]. pose proof (Zlen_nonneg rows). rewrite advance_single by lia.
  pose proof (load_loop_run prepare rows size Hprep Htyped ltac:(lia) Hlen (S (length rows)) 0 s ltac:(lia) ltac:(unfold Zlen; lia)) as Hrun.
  destruct (load_loop _ _ _ _ _ _ _ _ _ _ s) as [r s1]. destruct Hrun as [Hret (k & Hst & Hdone)]. split; [done|]. exists k. split; [exact Hst|].
  intros Hr. specialize (Hdone Hr). apply take_ge. unfold Zlen in *. lia.
Qed.

(** What a load that ends with [r] has sent: load streams that say the first [k] of the rows,
    and one operation or none. *)
Definition load_sent (prepare : DirectPathPrepareResult) (rows : list (list DirectPathColumnValue)) (r : Result (Error P) ()) (s s' : LoadState) : Prop :=
  let op code seq := build_direct_path_op_payload_with_version (dp_cursor_id prepare) code seq v in
  ∃ streams parts k ops,
    ls_sent s' = ls_sent s ++ streams ++ ops ∧
    Forall2 (λ request xs, ∃ seq, load_request slim v seq (dp_cursor_id prepare) xs request) streams parts ∧
    rows_image (column_metadata prepare) (take k rows) 1 = Ok (concat parts) ∧
    all_but_last_accepted (ls_sent s) streams ∧
    (ops = [] ∨ ∃ seq, ops = [op TNS_DP_OP_FINISH seq] ∧ take k rows = rows ∧ all_accepted (ls_sent s) streams ∨
       ops = [op TNS_DP_OP_ABORT seq] ∧ r ≠ Ok ()) ∧
    (r = Ok () → ∃ seq, ops = [op TNS_DP_OP_FINISH seq] ∧ all_accepted (ls_sent s) (streams ++ ops)) ∧
    (undisturbed → ops ≠ []).

End Exact.


(** A load that is cancelled after its first stream: the stream is on the wire, and neither
    finish nor abort follows it, since the final operation observes the cancellation too. *)
Example cancelled_load_sends_no_operation :
  let cancelled n := mkCx (n <? 2)%nat (Some CkUser) None in
  let run := direct_path_load_prepared (P := ()) cancelled (λ _, Ok ()) (λ _, Ok [TNS_MSG_TYPE_END_OF_RESPONSE]) 24 limits_DEFAULT
               (mkPrepared [column_new (txt "N") ORA_TYPE_NUM_NUMBER] 7 [0; 0; 0; 7]) [[DNumber (txt "1")]; [DNumber (txt "22")]] 1 (mkLoad 0 0 []) in
  is_ok run.1 = false ∧ length (ls_sent run.2) = 1%nat ∧
  ls_sent run.2 ≠ [build_direct_path_op_payload_with_version 7 TNS_DP_OP_ABORT 1 24].
Proof. vm_compute. split_and!; [reflexivity|reflexivity|discriminate]. Qed.
